(* ===== verification/_CoqProject ===== *)
-Q . S2P
Prelude.v
Bytes.v
NetIP.v
Float64.v
Metric.v
Routing.v
Endpoint.v
EndpointProps.v
RouterAlgo.v
RouterFacts.v
RouterInv.v
RouterOps.v
RouterProps.v
RouterRequests.v
RouterLife.v
Config.v
NodeIds.v
External.v
RouterIO.v
Forwarding.v
Flush.v
RouterEvents.v
Checksum.v
Packet.v
PacketProps.v
Unicast.v
UnicastProps.v
DataPlane.v
Graph.v
GraphProps.v
Replay.v
RateLimiter.v
AllowedIPs.v
TrieProps.v
AllowedIPsProps.v
Validation.v
ValidationProps.v
SysRoutes.v
Reconcile.v
HealthProps.v
DeviceProps.v
Offload.v
OffloadSplit.v
OffloadRead.v
OffloadGro.v
OffloadTcp.v
OffloadFlow.v
OffloadUdp.v
OffloadBatch.v
OffloadWrite.v
OffloadProps.v
FakeTcp.v
Transformer.v
CarrierProps.v
TransformerProps.v
FakeTcpProps.v
Probing.v
ProbingProps.v
ProbeLife.v
ProbeLinks.v
ReconcileProps.v
ApplyProps.v
Crypto.v
Messages.v
Cookie.v
WireGuard.v
WgSend.v
WgReceive.v
WgBatch.v
HandshakeProps.v
WgCore.v
WgEvents.v
WgData.v
WgReplay.v
WgIndex.v
WgNonce.v
WgStaged.v
WgTimers.v
WgOnce.v
