(* ===== verification/Prelude.v ===== *)
(** * Verification of nylon

    nylon is a mesh VPN: every node runs a Babel-style distance-vector router over a
    WireGuard device derived from wireguard-go ("polyamide"), and forwards IP packets and
    MPLS-labelled tunnel packets between its peers.  This library models the program
    under [src/] as executable definitions and proves what makes it correct.

    ** How the program is put together

    - The routing core ([core/router_algo.go], [state/routing.go]) is a state machine.
      Every operation takes the router state, reads the clock, changes the state and
      calls a [Router] interface: queue an update, request a sequence number, install a
      route.
    - [core/router.go] implements the interface for a node: queues per neighbour, the
      forwarding and exit tables read by the data plane, the handlers of incoming
      messages, and the periodic flush that packs queues into bundles.
    - Links ([state/endpoint.go]) are measured by probes; their delays and losses give
      the cost the routing core adds to the metric of an announcement.
    - The data plane is a chain of filters ([core/nylon_tc.go]) over packets
      ([polyamide/device/traffic_manip.go]), run by the traffic control engine
      ([polyamide/device/traffic_control.go]); traffic for an exit node travels as MPLS
      packets ([core/nylon_unicast.go]).
    - The central configuration ([state/config.go]) names nodes, prefixes and the graph
      of peers; [state/node_id_numeric.go] gives every node an MPLS label, and
      [state/validation.go] decides which configurations are acceptable.
    - A new configuration is applied to a running node ([core/nylon_apply.go],
      [core/nylon_wireguard.go]): neighbours and their links, advertised prefixes and
      their health checks, peers of the device, and the addresses and routes of the
      operating system follow it, then routes are computed.
    - Links are probed, found in the local network and forgotten when they are dead
      ([core/nylon_endpoints.go], [core/nylon_lan_discovery.go], [core/nylon_gc.go]);
      passive clients are advertised for ([core/nylon_passive.go]).
    - The WireGuard device ([polyamide/device]) shakes hands with its peers, encrypts and
      decrypts, keeps allowed addresses in a trie, rejects replayed packets and limits
      handshakes ([polyamide/replay], [polyamide/ratelimiter]).
    - Packets come from and go to a tun device, on Linux in frames that stand for several
      packets ([polyamide/tun]).  Datagrams go over UDP, or as the segments of TCP
      connections that eBPF programs fake ([polyamide/conn/fake_tcp.go],
      [polyamide/faketcp]).

    ** Conventions

    Go integers are [Z] with [wrap] written out at their width; floating point is the
    binary64 of the standard library's SpecFloat.  A panic (an index out of range, a nil
    dereference) is [None]; an error result is the left side of a sum or a constructor of
    its own.  Calls on the [Router] interface are returned as a list of [Act].  Loops over
    Go maps go through [map_range], so that every theorem holds for every order of
    visiting a map.  Time is a parameter [now], in nanoseconds.  Logging is left out.
    Libraries that are not part of the program are type classes with the laws their
    documentation promises ([External]: the routing table of bart, the cache of
    ttlcache; [NetText] in [NetIP]: the text forms of addresses; [SysRoutes]: the address
    sets of netipx; [Crypto]: hash, curve and ciphers; [Probing]: signatures;
    [Transformer]: the helpers of the kernel), each with an instance that satisfies them.
    A helper of the kernel may fail, in which case a packet passes as it was or is dropped;
    that a segment crosses the network is shown for helpers that do not ([BpfReliable]).
    The host (network interfaces, reachable families, name resolution, build target) is a
    class without laws.

    ** Files

    Shared: [Prelude] (integers, map loops, tactics), [Bytes], [NetIP] (addresses and
    prefixes of net/netip, addresses with ports and their text), [Float64], [External].

    Routing core: [Metric] (saturating metrics, sequence numbers modulo 2^16; [core/utils.go],
    [state/constants.go]), [Routing] (the state of [state/routing.go] and its
    well-formedness), [RouterAlgo] (all operations of [core/router_algo.go]).  [RouterFacts],
    [RouterInv] and [RouterOps] hold the lemmas; [RouterProps] shows that computed routes
    are sound, optimal, stable, retracted and held as they should, and that updates obey
    the feasibility condition; [RouterRequests] and [RouterLife] are about sequence number
    requests, neighbour updates, garbage collection, starvation, and reachable states.

    Links: [Endpoint] (delay filters, probes, loss, comparison of links, and the socket
    address of a link: parsing, resolution, source) and [EndpointProps].

    Configuration: [Config] (nodes, prefixes, queries), [NodeIds] (the label
    assignment), [Graph] and [GraphProps] (the graph language), [Validation] and
    [ValidationProps] (both validators, and exactly what they accept).  A configuration as
    it is read ([ReadCfg]) may hold a nil health check or one of an unknown kind; the one a
    node runs ([CentralCfg]) was accepted and holds none, and [checked] goes from one to the
    other.

    Applying a configuration: [SysRoutes] (the routes for the operating system),
    [Reconcile] (every step of [ApplyCentralConfig], on a node with its device peers,
    health checks and system state), [HealthProps] (the checks that run), [DeviceProps]
    (the peers of the device), [ReconcileProps] (neighbours and links), [ApplyProps] (all
    parts together: a valid configuration is applied without a panic and the tables follow
    the routes again).

    Node: [RouterIO] (the state of a node and all handlers of [core/router.go]),
    [Forwarding] (the invariant between routes and tables), [Flush] (bundling),
    [RouterEvents] (every event keeps the invariant, round trip of updates, rate limit).
    A node is [known] if its neighbours and the nodes it advertises for are configured,
    which is enough never to panic, and [good] if moreover its prefixes have no host bits
    and its tables follow its routes; validation does not exclude host bits.

    Data plane: [Checksum] (the unrolled internet checksum against RFC 1071), [Packet] and
    [PacketProps] (parsing, hop limit), [Unicast], [UnicastProps] and [DataPlane] (label
    switching, filters and the fate of a packet).

    Tables of the device: [AllowedIPs], [TrieProps] and [AllowedIPsProps] (the compressed
    trie implements a map from prefixes to peers with longest-prefix match), [Replay] (the
    ring of blocks implements the sliding window), [RateLimiter].

    Probing: [Probing] (probes and their replies, dead links, passive clients, LAN
    discovery), [ProbingProps] (no event of it makes a node panic), [ProbeLife] (a probe is
    answered once, by its peer, and measures the round trip), [ProbeLinks] (which links
    there are, and what is announced).

    WireGuard: [Crypto], [Messages] and [Cookie] (primitives, wire formats, cookies),
    [WireGuard] (the state of a device and the handshake), [WgSend] and [WgReceive] (its
    goroutines, timers and callers as steps on that state).  [HandshakeProps] shows that
    two devices derive the same keys.  [WgCore] reduces every step to the few that change
    keys, indices and numbers, and [WgEvents] makes a device a state machine; over its
    whole life [WgIndex] (the index table is exact), [WgNonce] (no number is used twice),
    [WgReplay] (an initiation is accepted once) and [WgOnce] (a packet is delivered once)
    hold.  [WgBatch], [WgData], [WgStaged] and [WgTimers] follow packets from staging to
    the filters of the other device, and retries to their end.

    Tun device: [Offload] (receive and segmentation offload of
    [polyamide/tun/offload_linux.go], [Read] and [Write] of [polyamide/tun/tun_linux.go]),
    [OffloadSplit] and [OffloadRead] (segmentation gives correct packets), [OffloadGro],
    [OffloadTcp], [OffloadUdp], [OffloadFlow] and [OffloadBatch] (what the tables of flows
    stand for), [OffloadWrite] and [OffloadProps] (what is written is read back as the same
    packets).

    Fake TCP: [FakeTcp] (the carrier and the table of connections), [Transformer] (both
    eBPF programs), [CarrierProps] (writing and reading carriers), [TransformerProps] (a
    segment crosses the network, with correct checksums on the way), [FakeTcpProps] (the
    handshake of two binds, and delivery).

    ** Fuel

    [flush_neigh] runs with one unit of fuel for each queued message, and each round sends
    one at least ([flush_neigh_spec] excludes running out).  [expand_groups] runs with one
    unit for each group, and each round removes one ([parse_graph_accepts] excludes
    [OutOfFuel]).  [free_slot]
    has one unit more than numbers are taken, so it finds a free one or the end of the
    range ([free_slot_spec]).  [send_staged] is [None] without fuel; it runs with
    [staged_fuel], two units for each staged container and three more, which is enough
    ([staged_terminates]).
    [blocks128], [sum_blocks] and [count_frames] have one unit for each byte, and a round
    takes one at least ([blocks128_inv], [sum_blocks_inv], [count_frames_fuel]);
    [fold_carries] has the four rounds that 64 bits need ([fold16_four]).  Every other
    function is structurally recursive.

    ** Not modelled

    Goroutines, locks and channels: the router runs on one dispatch goroutine, and what it
    executes there is modelled as sequences of events; the goroutines of the device are
    steps that may be taken in any order.  Each step is taken as a whole; in particular
    calls of the rate limiter ([Allow]) do not overlap, although the code takes its locks
    more than once ([overlapping_calls]).  Start-up and shutdown, sockets and their
    batched system calls ([polyamide/conn/bind_std.go]), the creation of tun devices, the
    drivers of other platforms, the attaching of eBPF programs and system commands are
    effects outside the program.  Protobuf, YAML, DNS, HTTP and the cryptographic
    libraries are third-party code.  The command line, the IPC rendering, the text
    protocol of [polyamide/device/uapi.go] and logs read and print text. *)

From stdpp Require Export base tactics numbers list gmap fin_maps strings sorting.
From Stdlib Require Export ZArith Lia.

#[global] Open Scope Z_scope.

Declare Scope nylon_scope.
Delimit Scope nylon_scope with nylon.

(** ** Machine integers

    A Go unsigned integer of width [w] is a [Z] in [0, 2^w); arithmetic that can
    leave the range is written out with [wrap w]. *)

Definition wrap (w z : Z) : Z := z mod 2 ^ w.

Definition in_width (w z : Z) : Prop := 0 <= z < 2 ^ w.

Abbreviation uint8 := (wrap 8).
Abbreviation uint16 := (wrap 16).
Abbreviation uint32 := (wrap 32).
Abbreviation uint64 := (wrap 64).
Abbreviation is_u8 := (in_width 8).
Abbreviation is_u16 := (in_width 16).
Abbreviation is_u32 := (in_width 32).
Abbreviation is_u64 := (in_width 64).

(** A Go signed 64-bit integer: two's complement wrap into [-2^63, 2^63). *)
Definition int64 (z : Z) : Z := (z + 2 ^ 63) mod 2 ^ 64 - 2 ^ 63.

Definition is_i64 (z : Z) : Prop := - 2 ^ 63 <= z < 2 ^ 63.

(** ** Ranging over a Go map

    The order in which [for k, v := range m] visits a map is unspecified.  Every
    loop of the model that ranges over a map goes through [map_range], and every
    theorem holds for all choices of the order; [MapRange] only says that each
    entry present is visited exactly once. *)

Class MapRange := {
  map_range : ∀ {K} `{Countable K} {V : Type}, gmap K V → list (K * V);
  map_range_perm : ∀ {K} `{Countable K} {V : Type} (m : gmap K V),
    map_range m ≡ₚ map_to_list m;
}.

(** A concrete order, used to run the model. *)
Definition sorted_range : MapRange :=
  {| map_range := λ _ _ _ _ m, map_to_list m;
     map_range_perm := λ _ _ _ _ m, Permutation_refl (map_to_list m) |}.

(** Another concrete order, the opposite of [sorted_range]. *)
Definition reversed_range : MapRange :=
  {| map_range := λ _ _ _ _ m, reverse (map_to_list m);
     map_range_perm := λ _ _ _ _ m, reverse_Permutation (map_to_list m) |}.

(** ** Tactics *)

(** Case analysis on the scrutinee of a boolean [if] or a [match] of the goal,
    keeping the equation. *)
Ltac case_goal :=
  match goal with
  | |- context [if ?b then _ else _] => destruct b eqn:?
  | |- context [match ?x with _ => _ end] => destruct x eqn:?
  end.

Ltac case_hyp H :=
  match type of H with
  | context [if ?b then _ else _] => destruct b eqn:?
  | context [match ?x with _ => _ end] => destruct x eqn:?
  end.

(** Turn boolean comparisons in the context and the goal into propositions. *)
Ltac to_prop :=
  repeat match goal with
  | H : (_ && _)%bool = true |- _ => apply andb_true_iff in H as [? ?]
  | H : (_ || _)%bool = false |- _ => apply orb_false_iff in H as [? ?]
  | H : (_ || _)%bool = true |- _ => apply orb_true_iff in H
  | H : (_ && _)%bool = false |- _ => apply andb_false_iff in H
  | H : negb _ = true |- _ => apply negb_true_iff in H
  | H : negb _ = false |- _ => apply negb_false_iff in H
  | H : bool_decide _ = true |- _ => apply bool_decide_eq_true in H
  | H : bool_decide _ = false |- _ => apply bool_decide_eq_false in H
  | H : (_ =? _) = true |- _ => apply Z.eqb_eq in H
  | H : (_ =? _) = false |- _ => apply Z.eqb_neq in H
  | H : (_ <? _) = true |- _ => apply Z.ltb_lt in H
  | H : (_ <? _) = false |- _ => apply Z.ltb_ge in H
  | H : (_ <=? _) = true |- _ => apply Z.leb_le in H
  | H : (_ <=? _) = false |- _ => apply Z.leb_gt in H
  end.

Create HintDb nylon.

(** ** Width lemmas *)

Lemma wrap_range w z : 0 <= w → in_width w (wrap w z).
Proof. intros. unfold wrap, in_width. apply Z.mod_pos_bound. lia. Qed.

Lemma wrap_small w z : in_width w z → wrap w z = z.
Proof. intros. unfold wrap. by apply Z.mod_small. Qed.

Lemma wrap_wrap w z : wrap w (wrap w z) = wrap w z.
Proof. unfold wrap. by rewrite Zmod_mod. Qed.

Lemma int64_range z : is_i64 (int64 z).
Proof. unfold int64, is_i64. pose proof (Z.mod_pos_bound (z + 2 ^ 63) (2 ^ 64)). lia. Qed.

Lemma int64_small z : is_i64 z → int64 z = z.
Proof. unfold int64, is_i64. intros. rewrite Z.mod_small; lia. Qed.

#[export] Hint Resolve wrap_range : nylon.

(** ** Loops over maps *)

Section map_loops.
Context `{MR : MapRange} {K V : Type} `{HC : Countable K}.
Implicit Types m : gmap K V.

Lemma elem_of_map_range m k v : (k, v) ∈ map_range m ↔ m !! k = Some v.
Proof. rewrite map_range_perm. apply elem_of_map_to_list. Qed.

Lemma NoDup_map_range_keys m : NoDup (map_range m).*1.
Proof. rewrite map_range_perm. apply NoDup_fst_map_to_list. Qed.

Lemma NoDup_map_range m : NoDup (map_range m).
Proof. rewrite map_range_perm. apply NoDup_map_to_list. Qed.

(** Loop rule: an invariant indexed by the part of the map visited so far. *)
Lemma foldl_map_range_ind {A} (P : gmap K V → A → Prop) (f : A → K * V → A) m a0 :
  P ∅ a0 →
  (∀ k v m' a, m' !! k = None → m !! k = Some v → m' ⊆ m →
     P m' a → P (<[k:=v]> m') (f a (k, v))) →
  P m (foldl f a0 (map_range m)).
Proof.
  intros Hinit Hstep.
  assert (Hgen : ∀ l m' a, NoDup l.*1 → (∀ k v, (k, v) ∈ l → m !! k = Some v ∧ m' !! k = None) →
    m' ⊆ m → P m' a → P (list_to_map l ∪ m') (foldl f a l)).
  { induction l as [|[k v] l IH]; intros m' a Hnd Hin Hsub HP; cbn.
    { by rewrite (left_id_L ∅ (∪)). }
    apply NoDup_cons in Hnd as [Hk Hnd].
    destruct (Hin k v) as [Hm Hm']; [by left|].
    rewrite <-insert_union_l, insert_union_r.
    2: { apply not_elem_of_list_to_map_1. done. }
    apply IH; [done| | |by apply Hstep].
    - intros k' v' Hin'. destruct (Hin k' v') as [? ?]; [by right|]. split; [done|].
      rewrite lookup_insert_ne; [done|]. intros ->. apply Hk.
      apply list_elem_of_fmap. by exists (k', v').
    - by apply insert_subseteq_l. }
  specialize (Hgen (map_range m) ∅ a0 (NoDup_map_range_keys m)).
  rewrite (right_id_L ∅ (∪)) in Hgen.
  assert (list_to_map (map_range m) = m) as Heq.
  { rewrite (list_to_map_proper _ (map_to_list m)); [apply list_to_map_to_list|apply NoDup_map_range_keys|apply map_range_perm]. }
  rewrite Heq in Hgen. apply Hgen; [|apply map_empty_subseteq|done].
  intros k v Hin%elem_of_map_range. by rewrite lookup_empty.
Qed.

(** A loop whose body rewrites only the entry of the key it visits. *)
Lemma foldl_map_range_pointwise {X} (g : K → V → option X → option X)
    (f : gmap K X → K * V → gmap K X) m (t0 : gmap K X) :
  (∀ t k v, f t (k, v) !! k = g k v (t !! k)) →
  (∀ t k v k', k ≠ k' → f t (k, v) !! k' = t !! k') →
  ∀ k, foldl f t0 (map_range m) !! k =
    match m !! k with Some v => g k v (t0 !! k) | None => t0 !! k end.
Proof.
  intros Hsame Hother.
  apply (foldl_map_range_ind (λ m' t, ∀ k, t !! k =
    match m' !! k with Some v => g k v (t0 !! k) | None => t0 !! k end)).
  - intros k. by rewrite lookup_empty.
  - intros k v m' t Hm' _ _ IH k'. destruct (decide (k = k')) as [<-|Hne].
    + by rewrite Hsame, IH, Hm', lookup_insert_eq.
    + by rewrite Hother, IH, lookup_insert_ne.
Qed.

End map_loops.

(** Writing back what is already there. *)
Lemma insert_lookup_id {K V} `{Countable K} (m : gmap K V) k :
  match m !! k with Some c => <[k := c]> m | None => m end = m.
Proof. destruct (m !! k) eqn:E; [by apply insert_id|done]. Qed.

(** ** Lists *)

Lemma NoDup_fmap_unique {A B} (f : A → B) (l : list A) x y : NoDup (f <$> l) → x ∈ l → y ∈ l → f x = f y → x = y.
Proof.
  induction l as [|a l IH]; [by intros _ ?%not_elem_of_nil|]. cbn. intros [Ha Hnd]%NoDup_cons.
  intros [->|Hx]%elem_of_cons [->|Hy]%elem_of_cons Hf; [done|..|by apply IH].
  - destruct Ha. rewrite Hf. apply list_elem_of_fmap. by exists y.
  - destruct Ha. rewrite <-Hf. apply list_elem_of_fmap. by exists x.
Qed.

Lemma NoDup_fst_unique {A B} (l : list (A * B)) x y z : NoDup l.*1 → (x, y) ∈ l → (x, z) ∈ l → y = z.
Proof.
  induction l as [|[a b] l IH]; [by intros _ ?%not_elem_of_nil|]. cbn. intros [Hx Hnd]%NoDup_cons Hy Hz.
  assert (∀ w, (x, w) ∈ l → x ≠ a) as Hne.
  { intros w Hw ->. apply Hx, list_elem_of_fmap. by exists (a, w). }
  apply elem_of_cons in Hy as [Hy|Hy], Hz as [Hz|Hz]; [congruence|naive_solver..|by apply IH].
Qed.

Lemma foldl_ind {A B} (P : A → Prop) (f : A → B → A) l a :
  P a → (∀ a x, x ∈ l → P a → P (f a x)) → P (foldl f a l).
Proof.
  revert a. induction l as [|x l IH]; intros a Ha Hf; [done|].
  cbn. apply IH; [apply Hf; [by left|done]|]. intros a' y Hy. apply Hf. by right.
Qed.

Lemma foldl_ext_perm {A B} (f : A → B → A) l1 l2 a :
  l1 ≡ₚ l2 → (∀ a x y, x ∈ l1 → y ∈ l1 → f (f a x) y = f (f a y) x) → foldl f a l1 = foldl f a l2.
Proof.
  intros Hp. revert a. induction Hp as [|x l1 l2 Hp IH|x y l|l1 l2 l3 H12 IH1 H23 IH2]; intros a Hc; cbn.
  - done.
  - apply IH. intros. apply Hc; by right.
  - rewrite Hc; [done|by left|by right; left].
  - rewrite IH1 by done. apply IH2. intros. apply Hc; by rewrite H12.
Qed.
