(* ===== verification/Bytes.v ===== *)
(** Byte strings as lists of [Z] in [0, 256), and the big-endian encodings of
    [encoding/binary] that the dataplane and the control plane use. *)

From S2P Require Import Prelude.

Definition is_byte (b : Z) : Prop := is_u8 b.

(** [binary.BigEndian.PutUintN] into [n] bytes. *)
Fixpoint be_encode (n : nat) (z : Z) : list Z :=
  match n with
  | O => []
  | S n' => (z / 256 ^ Z.of_nat n') mod 256 :: be_encode n' z
  end.

(** [binary.BigEndian.UintN] of a byte string. *)
Definition be_decode (l : list Z) : Z := foldl (λ acc b, acc * 256 + b) 0 l.

(** [binary.LittleEndian.PutUintN] into [n] bytes, and [binary.LittleEndian.UintN]. *)
Definition le_encode (n : nat) (z : Z) : list Z := reverse (be_encode n z).

Definition le_decode (l : list Z) : Z := be_decode (reverse l).

(** Go's [s[lo:hi]]. *)
Definition slice {A} (lo hi : nat) (l : list A) : list A := take (hi - lo) (drop lo l).

(** [copy(dst[at:], src)] when the source fits. *)
Definition write_at {A} (at_ : nat) (src dst : list A) : list A :=
  take at_ dst ++ src ++ drop (at_ + length src) dst.

(** The bytes of a Go string of ASCII characters. *)
Definition string_bytes (s : string) : list Z := (λ a, Z.of_nat (Ascii.nat_of_ascii a)) <$> String.list_ascii_of_string s.

Lemma length_be_encode n z : length (be_encode n z) = n.
Proof. induction n as [|n IH]; cbn; [done|by rewrite IH]. Qed.

Lemma be_encode_bytes n z : Forall is_byte (be_encode n z).
Proof.
  induction n as [|n IH]; cbn [be_encode]; constructor; [|done].
  apply Z.mod_pos_bound. lia.
Qed.

Lemma be_decode_snoc l b : be_decode (l ++ [b]) = be_decode l * 256 + b.
Proof. unfold be_decode. by rewrite foldl_snoc. Qed.

Lemma foldl_be_acc l acc :
  foldl (λ acc b, acc * 256 + b) acc l = acc * 256 ^ Z.of_nat (length l) + be_decode l.
Proof.
  unfold be_decode. revert acc. induction l as [|b l IH]; intros acc; cbn [foldl length].
  - lia.
  - rewrite (IH (acc * 256 + b)), (IH (0 * 256 + b)), Nat2Z.inj_succ, Z.pow_succ_r by lia. ring.
Qed.

Lemma be_decode_cons b l : be_decode (b :: l) = b * 256 ^ Z.of_nat (length l) + be_decode l.
Proof. unfold be_decode at 1. cbn [foldl]. rewrite foldl_be_acc. lia. Qed.

Lemma be_decode_app l1 l2 :
  be_decode (l1 ++ l2) = be_decode l1 * 256 ^ Z.of_nat (length l2) + be_decode l2.
Proof. unfold be_decode at 1. by rewrite foldl_app, foldl_be_acc. Qed.

Lemma be_decode_range l : Forall is_byte l → 0 <= be_decode l < 256 ^ Z.of_nat (length l).
Proof.
  induction 1 as [|b l Hb _ IH]; [by cbv|].
  rewrite be_decode_cons. cbn [length]. rewrite Nat2Z.inj_succ, Z.pow_succ_r by lia.
  unfold is_byte, in_width in Hb. nia.
Qed.

Lemma be_decode_encode_mod n z : be_decode (be_encode n z) = z mod 256 ^ Z.of_nat n.
Proof.
  induction n as [|n IH]; cbn [be_encode].
  - by rewrite Z.mod_1_r.
  - rewrite be_decode_cons, length_be_encode, IH, Nat2Z.inj_succ, Z.pow_succ_r by lia.
    rewrite (Z.mul_comm 256), Z.rem_mul_r by lia. ring.
Qed.

Lemma be_decode_encode n z : 0 <= z < 256 ^ Z.of_nat n → be_decode (be_encode n z) = z.
Proof. intros. rewrite be_decode_encode_mod. by apply Z.mod_small. Qed.

Lemma be_encode_decode_gen l z :
  Forall is_byte l → be_encode (length l) (z * 256 ^ Z.of_nat (length l) + be_decode l) = l.
Proof.
  intros Hl. revert z. induction Hl as [|b l Hb Hl IH]; intros z; [done|].
  pose proof (be_decode_range l Hl) as Hr. unfold is_byte, in_width in Hb.
  cbn [be_encode length]. rewrite be_decode_cons, Nat2Z.inj_succ, Z.pow_succ_r by lia.
  set (P := 256 ^ Z.of_nat (length l)) in *.
  replace (z * (256 * P) + (b * P + be_decode l)) with ((z * 256 + b) * P + be_decode l) by ring.
  f_equal; [|apply IH].
  rewrite Z.div_add_l, Z.div_small, Z.add_0_r by lia.
  rewrite Z.add_comm, Z.mod_add by lia. apply Z.mod_small. lia.
Qed.

Lemma be_encode_decode l : Forall is_byte l → be_encode (length l) (be_decode l) = l.
Proof. intros Hl. by apply (be_encode_decode_gen l 0) in Hl. Qed.

Lemma length_le_encode n z : length (le_encode n z) = n.
Proof. unfold le_encode. by rewrite length_reverse, length_be_encode. Qed.

Lemma le_encode_bytes n z : Forall is_byte (le_encode n z).
Proof. unfold le_encode. apply Forall_reverse, be_encode_bytes. Qed.

Lemma le_decode_encode n z : 0 <= z < 256 ^ Z.of_nat n → le_decode (le_encode n z) = z.
Proof. intros. unfold le_decode, le_encode. by rewrite reverse_involutive, be_decode_encode. Qed.

Lemma le_encode_decode l : Forall is_byte l → le_encode (length l) (le_decode l) = l.
Proof.
  intros. unfold le_decode, le_encode. rewrite <-(length_reverse l), be_encode_decode by by apply Forall_reverse.
  apply reverse_involutive.
Qed.

Lemma le_decode_range l : Forall is_byte l → 0 <= le_decode l < 256 ^ Z.of_nat (length l).
Proof. intros. unfold le_decode. rewrite <-length_reverse. apply be_decode_range. by apply Forall_reverse. Qed.

#[export] Hint Resolve be_encode_bytes le_encode_bytes : nylon.

(** ** Slices and writes *)

Lemma lookup_slice {A} lo hi (l : list A) i :
  slice lo hi l !! i = if decide (i < hi - lo)%nat then l !! (lo + i)%nat else None.
Proof.
  unfold slice. case_decide.
  - by rewrite lookup_take_lt, lookup_drop by done.
  - by rewrite lookup_take_ge by lia.
Qed.

Lemma length_slice {A} lo hi (l : list A) : (hi <= length l)%nat → length (slice lo hi l) = (hi - lo)%nat.
Proof. intros. unfold slice. rewrite length_take, length_drop. lia. Qed.

Lemma lookup_write_at {A} at_ (src dst : list A) i : (at_ + length src <= length dst)%nat →
  write_at at_ src dst !! i =
  if decide (at_ <= i < at_ + length src)%nat then src !! (i - at_)%nat else dst !! i.
Proof.
  intros Hlen. unfold write_at. case_decide as Hd.
  - rewrite lookup_app_r by (rewrite length_take; lia). rewrite length_take_le by lia.
    by rewrite lookup_app_l by lia.
  - destruct (decide (i < at_)%nat).
    + rewrite lookup_app_l by (rewrite length_take_le by lia; lia). by rewrite lookup_take_lt.
    + rewrite lookup_app_r by (rewrite length_take_le by lia; lia). rewrite length_take_le by lia.
      rewrite lookup_app_r by lia. rewrite lookup_drop. f_equal. lia.
Qed.

Lemma length_write_at {A} at_ (src dst : list A) : (at_ + length src <= length dst)%nat →
  length (write_at at_ src dst) = length dst.
Proof. intros. unfold write_at. rewrite !length_app, length_take, length_drop. lia. Qed.

Lemma slice_write_at {A} at_ (src dst : list A) : (at_ + length src <= length dst)%nat →
  slice at_ (at_ + length src) (write_at at_ src dst) = src.
Proof.
  intros H. apply list_eq. intros i. rewrite lookup_slice, lookup_write_at by done.
  case_decide; [|rewrite lookup_ge_None_2 by lia; done]. rewrite decide_True by lia. f_equal. lia.
Qed.

(** A write outside the slice is not seen. *)
Lemma slice_write_at_ne {A} lo hi at_ (src dst : list A) : (at_ + length src <= length dst)%nat →
  (hi <= at_ ∨ at_ + length src <= lo)%nat → slice lo hi (write_at at_ src dst) = slice lo hi dst.
Proof.
  intros H Hd. apply list_eq. intros i. rewrite !lookup_slice, lookup_write_at by done.
  case_decide; [|done]. rewrite decide_False by lia. done.
Qed.

Lemma slice_slice {A} lo hi lo' hi' (l : list A) : (hi' <= hi - lo)%nat →
  slice lo' hi' (slice lo hi l) = slice (lo + lo') (lo + hi') l.
Proof.
  intros H. apply list_eq. intros i. rewrite !lookup_slice.
  case_decide; [|by rewrite decide_False by lia]. rewrite decide_True by lia. rewrite decide_True by lia. f_equal. lia.
Qed.

Lemma slice_bytes lo hi l : Forall is_byte l → Forall is_byte (slice lo hi l).
Proof. intros. unfold slice. by apply Forall_take, Forall_drop. Qed.

Lemma write_at_bytes at_ src dst : Forall is_byte src → Forall is_byte dst → Forall is_byte (write_at at_ src dst).
Proof. intros. unfold write_at. apply Forall_app. split; [by apply Forall_take|]. apply Forall_app. split; [done|by apply Forall_drop]. Qed.
