(* ===== verification/NetIP.v ===== *)
(** The part of [net/netip] that nylon uses: addresses, prefixes, their equality
    and the binary form in which prefixes travel in control messages.

    Then addresses with ports, and the text forms of [net/netip] and [net] that endpoints are
    configured with.  The text functions of the standard library are an interface; what
    the program relies on is that a printed address is read back. *)

From Stdlib Require Import Ascii.
From S2P Require Import Prelude Bytes.

(** [netip.Addr]: the zero value, an IPv4 address, or an IPv6 address with a zone. *)
Inductive Addr :=
| AddrZero
| Addr4 (a : Z)
| Addr6 (a : Z) (zone : string).

(** [netip.Prefix]; [pfx_bitsPlusOne = 0] marks an invalid prefix. *)
Record Prefix := mkPrefix { pfx_Addr : Addr; pfx_bitsPlusOne : Z }.

#[export] Instance Addr_eq_dec : EqDecision Addr.
Proof. solve_decision. Defined.

#[export] Instance Addr_countable : Countable Addr.
Proof.
  refine (inj_countable'
    (λ a, match a with
          | AddrZero => inl ()
          | Addr4 z => inr (inl z)
          | Addr6 z s => inr (inr (z, s))
          end)
    (λ x, match x with
          | inl _ => AddrZero
          | inr (inl z) => Addr4 z
          | inr (inr (z, s)) => Addr6 z s
          end) _).
  by intros [].
Defined.

#[export] Instance Prefix_eq_dec : EqDecision Prefix.
Proof. solve_decision. Defined.

#[export] Instance Prefix_countable : Countable Prefix.
Proof.
  refine (inj_countable' (λ p, (pfx_Addr p, pfx_bitsPlusOne p)) (λ x, mkPrefix x.1 x.2) _).
  by intros [].
Defined.

Definition addr_IsValid (a : Addr) : bool :=
  match a with AddrZero => false | _ => true end.

Definition addr_BitLen (a : Addr) : Z :=
  match a with AddrZero => 0 | Addr4 _ => 32 | Addr6 _ _ => 128 end.

Definition addr_Is4 (a : Addr) : bool := match a with Addr4 _ => true | _ => false end.
Definition addr_Is6 (a : Addr) : bool := match a with Addr6 _ _ => true | _ => false end.

Definition addr_Is4In6 (a : Addr) : bool :=
  match a with Addr6 z _ => z / 2 ^ 32 =? 65535 | _ => false end.

Definition addr_withoutZone (a : Addr) : Addr :=
  match a with Addr6 z _ => Addr6 z "" | _ => a end.

(** [netip.PrefixFrom]. *)
Definition PrefixFrom (ip : Addr) (bits : Z) : Prefix :=
  mkPrefix (addr_withoutZone ip)
    (if addr_IsValid ip && (0 <=? bits) && (bits <=? addr_BitLen ip) then bits + 1 else 0).

Definition pfx_IsValid (p : Prefix) : bool := 0 <? pfx_bitsPlusOne p.
Definition pfx_Bits (p : Prefix) : Z := pfx_bitsPlusOne p - 1.

(** [Prefix.Contains]: zoned addresses and addresses of the other family are never inside. *)
Definition pfx_Contains (p : Prefix) (a : Addr) : bool :=
  pfx_IsValid p &&
  match pfx_Addr p, a with
  | Addr4 x, Addr4 y => Z.shiftr x (32 - pfx_Bits p) =? Z.shiftr y (32 - pfx_Bits p)
  | Addr6 x _, Addr6 y zone =>
      bool_decide (zone = "") && (Z.shiftr x (128 - pfx_Bits p) =? Z.shiftr y (128 - pfx_Bits p))
  | _, _ => false
  end.

(** [Prefix.Masked]. *)
Definition mask_bits (w bits x : Z) : Z := Z.shiftl (Z.shiftr x (w - bits)) (w - bits).

Definition pfx_Masked (p : Prefix) : Prefix :=
  if negb (pfx_IsValid p) then mkPrefix AddrZero 0
  else PrefixFrom (match pfx_Addr p with
                   | AddrZero => AddrZero
                   | Addr4 x => Addr4 (mask_bits 32 (pfx_Bits p) x)
                   | Addr6 x _ => Addr6 (mask_bits 128 (pfx_Bits p) x) ""
                   end) (pfx_Bits p).

(** [Addr.MarshalBinary] without a zone. *)
Definition addr_bytes (a : Addr) : list Z :=
  match a with
  | AddrZero => []
  | Addr4 z => be_encode 4 z
  | Addr6 z _ => be_encode 16 z
  end.

(** [Prefix.MarshalBinary]: the address bytes followed by the prefix length. *)
Definition pfx_MarshalBinary (p : Prefix) : list Z :=
  addr_bytes (addr_withoutZone (pfx_Addr p)) ++ [uint8 (pfx_Bits p)].

(** [Addr.UnmarshalBinary]; the bytes after the sixteenth are the zone, which
    [PrefixFrom] drops, so the model does not decode them. *)
Definition addr_Unmarshal (b : list Z) : option Addr :=
  match length b with
  | O => Some AddrZero
  | 4%nat => Some (Addr4 (be_decode b))
  | n => if (16 <=? n)%nat then Some (Addr6 (be_decode (take 16 b)) "") else None
  end.

(** [Prefix.UnmarshalBinary]. *)
Definition pfx_UnmarshalBinary (b : list Z) : option Prefix :=
  match last b with
  | None => None
  | Some bits =>
      match addr_Unmarshal (take (length b - 1) b) with
      | None => None
      | Some a => Some (PrefixFrom a bits)
      end
  end.

(** ** Well-formed values *)

Definition addr_wf (a : Addr) : Prop :=
  match a with
  | AddrZero => True
  | Addr4 z => in_width 32 z
  | Addr6 z _ => in_width 128 z
  end.

(** What [PrefixFrom] builds: no zone, and the length fits the family. *)
Definition pfx_wf (p : Prefix) : Prop :=
  addr_wf (pfx_Addr p) ∧ addr_withoutZone (pfx_Addr p) = pfx_Addr p ∧
  0 < pfx_bitsPlusOne p <= addr_BitLen (pfx_Addr p) + 1 ∧ addr_IsValid (pfx_Addr p) = true.

Lemma PrefixFrom_wf a bits :
  addr_wf a → addr_IsValid a = true → 0 <= bits <= addr_BitLen a → pfx_wf (PrefixFrom a bits).
Proof.
  intros Hwf Hv Hb. unfold pfx_wf, PrefixFrom; cbn.
  rewrite Hv, (proj2 (Z.leb_le 0 bits)), (proj2 (Z.leb_le bits _)) by lia. cbn.
  destruct a; cbn in *; try done; unfold in_width in *; repeat split; try done; lia.
Qed.

Lemma PrefixFrom_idem p : pfx_wf p → PrefixFrom (pfx_Addr p) (pfx_Bits p) = p.
Proof.
  destruct p as [a b]. intros (_ & Hz & Hb & Hv). cbn in *.
  unfold PrefixFrom, pfx_Bits; cbn. rewrite Hz, Hv.
  rewrite (proj2 (Z.leb_le 0 _)), (proj2 (Z.leb_le (b - 1) _)) by lia. cbn.
  f_equal. lia.
Qed.

Lemma addr_Unmarshal_bytes a :
  addr_wf a → addr_withoutZone a = a → addr_Unmarshal (addr_bytes a) = Some a.
Proof.
  destruct a as [|z|z zone]; intros Hwf Hz; unfold addr_Unmarshal, addr_bytes.
  - done.
  - rewrite length_be_encode, be_decode_encode; [done|apply Hwf].
  - cbn in Hz. injection Hz as <-.
    rewrite length_be_encode. change (16 <=? 16)%nat with true. cbv iota.
    rewrite take_ge by (rewrite length_be_encode; lia).
    by rewrite be_decode_encode.
Qed.

(** The prefix carried by a route update is the prefix that was advertised. *)
Lemma pfx_marshal_roundtrip p : pfx_wf p → pfx_UnmarshalBinary (pfx_MarshalBinary p) = Some p.
Proof.
  intros Hwf. pose proof Hwf as (Ha & Hz & Hb & Hv).
  unfold pfx_UnmarshalBinary, pfx_MarshalBinary. rewrite last_snoc.
  rewrite length_app. cbn [length]. rewrite take_app_length' by lia.
  rewrite Hz, addr_Unmarshal_bytes by done.
  rewrite wrap_small; [by rewrite PrefixFrom_idem|].
  unfold in_width, pfx_Bits. destruct (pfx_Addr p); cbn in *; lia.
Qed.

(** [netip.AddrPort]. *)
Record AddrPort := mkAddrPort { ap_Addr : Addr; ap_Port : Z }.

#[export] Instance AddrPort_eq_dec : EqDecision AddrPort.
Proof. solve_decision. Defined.

#[export] Instance AddrPort_countable : Countable AddrPort.
Proof.
  refine (inj_countable' (λ a, (ap_Addr a, ap_Port a)) (λ x, mkAddrPort x.1 x.2) _).
  by intros [].
Defined.

(** [IsValid]: the zero value is not an address. *)
Definition ap_IsValid (a : AddrPort) : bool := addr_IsValid (ap_Addr a).

Definition zero_AddrPort : AddrPort := mkAddrPort AddrZero 0.

Class NetText := {
  AddrPort_String : AddrPort → string;
  Addr_String : Addr → string;
  ParseAddrPort : string → option AddrPort;
  ParseAddr : string → option Addr;
  SplitHostPort : string → option (string * string);
  ParseUint16 : string → option Z;
}.

Class NetTextLaws `{NetText} := {
  ParseAddrPort_String : ∀ a, ap_IsValid a = true → ParseAddrPort (AddrPort_String a) = Some a;
  ParseAddr_String : ∀ a, addr_IsValid a = true → ParseAddr (Addr_String a) = Some a;
}.

(** [SameIPFamily] of [state/endpoint.go]. *)
Definition SameIPFamily (a b : Addr) : bool :=
  if negb (addr_IsValid a) || negb (addr_IsValid b) then true else addr_BitLen a =? addr_BitLen b.

(** [Addr.Unmap]: an IPv4-mapped IPv6 address becomes an IPv4 address. *)
Definition addr_Unmap (a : Addr) : Addr :=
  if addr_Is4In6 a then match a with Addr6 z _ => Addr4 (z mod 2 ^ 32) | _ => a end else a.

(** ** An instance *)

(** Text of binary digits.  It is not the notation of [net/netip], but it satisfies the
    laws, and it can be run. *)
Module PlainText.

Fixpoint print (p : positive) : string :=
  match p with xH => EmptyString | xO p => String "0" (print p) | xI p => String "1" (print p) end.

Fixpoint read (s : string) : positive :=
  match s with
  | EmptyString => xH
  | String c s => if decide (c = "0"%char) then xO (read s) else xI (read s)
  end.

Lemma read_print p : read (print p) = p.
Proof. induction p as [p IH|p IH|]; cbn [print read]; [..|done]; rewrite IH; by case_decide. Qed.

#[export] Instance plain_text : NetText := {|
  AddrPort_String := λ a, print (encode a);
  Addr_String := λ a, print (encode a);
  ParseAddrPort := λ s, decode (read s);
  ParseAddr := λ s, decode (read s);
  SplitHostPort := λ _, None;
  ParseUint16 := λ s, decode (read s);
|}.

#[export] Instance plain_text_laws : NetTextLaws.
Proof. split; intros a _; cbn; by rewrite read_print, decode_encode. Qed.

End PlainText.
