(* ===== verification/Float64.v ===== *)
(** IEEE 754 binary64, the arithmetic of Go's [float64], on the executable
    specification floats of the standard library (no primitive floats, no axioms).
    Every operation rounds to nearest, ties to even, and [x*y + z] is two rounded
    operations, as Go computes it on amd64. *)

From Corelib Require Export SpecFloat.
From S2P Require Import Prelude.

Definition f64 : Type := spec_float.

Definition f64_prec : Z := 53.
Definition f64_emax : Z := 1024.

Definition f64_add : f64 → f64 → f64 := SFadd f64_prec f64_emax.
Definition f64_sub : f64 → f64 → f64 := SFsub f64_prec f64_emax.
Definition f64_mul : f64 → f64 → f64 := SFmul f64_prec f64_emax.
Definition f64_div : f64 → f64 → f64 := SFdiv f64_prec f64_emax.
Definition f64_abs : f64 → f64 := SFabs.
Definition f64_ltb : f64 → f64 → bool := SFltb.
Definition f64_leb : f64 → f64 → bool := SFleb.
Definition f64_eqb : f64 → f64 → bool := SFeqb.

(** Conversion from an integer: [float64(z)]. *)
Definition f64_of_Z (z : Z) : f64 := binary_normalize f64_prec f64_emax z 0 false.

(** A decimal literal [num/den]: the nearest float, since division rounds correctly. *)
Definition f64_lit (num den : Z) : f64 := f64_div (f64_of_Z num) (f64_of_Z den).

Definition f64_zero : f64 := S754_zero false.
Definition f64_one : f64 := f64_of_Z 1.

(** Truncation towards zero of a finite float. *)
Definition f64_trunc (f : f64) : option Z :=
  match f with
  | S754_zero _ => Some 0
  | S754_finite s m e =>
      let v := if 0 <=? e then Z.pos m * 2 ^ e else Z.shiftr (Z.pos m) (- e) in
      Some (if s then - v else v)
  | _ => None
  end.

(** [int64(f)]: truncation; a value out of range, an infinity or a NaN gives the
    minimum integer, as amd64 does. *)
Definition f64_to_int64 (f : f64) : Z :=
  match f64_trunc f with
  | Some z => if (- 2 ^ 63 <=? z) && (z <? 2 ^ 63) then z else - 2 ^ 63
  | None => - 2 ^ 63
  end.

(** The builtin [min] on floats: a NaN operand gives NaN, and minus zero is below zero. *)
Definition f64_min (a b : f64) : f64 :=
  match a, b with
  | S754_nan, _ | _, S754_nan => S754_nan
  | S754_zero s, S754_zero t => S754_zero (s || t)
  | _, _ => if f64_ltb b a then b else a
  end.

#[export] Instance f64_eq_dec : EqDecision f64.
Proof. intros x y. unfold f64 in *. refine (decide (x = y)). Unshelve. solve_decision. Defined.

(** ** Order lemmas *)

Lemma Zpos_compare_cont_eq p : Pos.compare_cont Eq p p = Eq.
Proof. by rewrite Pos.compare_cont_refl. Qed.

Lemma f64_ltb_irrefl x : f64_ltb x x = false.
Proof.
  unfold f64_ltb, SFltb, SFcompare. destruct x as [s|s| |s m e]; try (by destruct s); [done|].
  rewrite Z.compare_refl. destruct s; by rewrite Zpos_compare_cont_eq.
Qed.

Lemma f64_to_int64_range f : is_i64 (f64_to_int64 f).
Proof.
  unfold f64_to_int64, is_i64. destruct (f64_trunc f) as [z|]; [|lia].
  destruct ((- 2 ^ 63 <=? z) && (z <? 2 ^ 63)) eqn:E; to_prop; lia.
Qed.

Example f64_third : f64_to_int64 (f64_mul (f64_lit 33 100) (f64_of_Z 1000)) = 330.
Proof. reflexivity. Qed.
