(* ===== verification/Metric.v ===== *)
(** Metrics and sequence numbers: [core/utils.go], [state/constants.go] and the
    metric conversions at the end of [state/endpoint.go]. *)

From S2P Require Import Prelude.

(** [state.INF]: the metric of a retracted route. *)
Definition INF : Z := 2 ^ 32 - 1.

(** [state.INFM]: the largest metric that is not a retraction. *)
Definition INFM : Z := INF - 1.

Definition DefaultPort : Z := 57175.
Definition LANDiscoveryPort : Z := 57176.

Definition AddMetric (a b : Z) : Z :=
  if (a =? INF) || (b =? INF) then INF
  else uint32 (Z.min INFM (a + b)).

Definition SeqnoLt (a b : Z) : bool :=
  let x := uint16 (b - a) in (0 <? x) && (x <? 32768).

Definition SeqnoLe (a b : Z) : bool := (a =? b) || SeqnoLt a b.
Definition SeqnoGt (a b : Z) : bool := negb (SeqnoLe a b).
Definition SeqnoGe (a b : Z) : bool := negb (SeqnoLt a b).

Definition abs (a : Z) : Z := if a <? 0 then - a else a.

(** [time.Duration.Microseconds]: division that truncates towards zero. *)
Definition Microseconds (d : Z) : Z := Z.quot d 1000.

Definition MaxInt64 : Z := 2 ^ 63 - 1.

Definition DurationToMetric (d : Z) : Z :=
  if d =? MaxInt64 then INF else uint32 (Z.min (Microseconds d) (INF - 1)).

Definition MetricToDuration (m : Z) : Z :=
  if INF <=? m then MaxInt64 else int64 (m * 1000).

(** [state.addMetricCost]. *)
Definition addMetricCost (metric cost : Z) : Z :=
  if metric =? INF then INF
  else uint32 (Z.min (uint64 (metric + uint64 (Microseconds cost))) INFM).

(** A metric as the code stores it. *)
Definition is_metric (m : Z) : Prop := is_u32 m.
Definition is_seqno (s : Z) : Prop := is_u16 s.

(** ** Metrics *)

Lemma INF_metric : is_metric INF.
Proof. unfold is_metric, in_width, INF. lia. Qed.

Lemma AddMetric_range a b : is_metric (AddMetric a b).
Proof.
  unfold AddMetric. destruct ((a =? INF) || (b =? INF)); [apply INF_metric|].
  by apply wrap_range.
Qed.

#[export] Hint Resolve INF_metric AddMetric_range : nylon.

Lemma AddMetric_spec a b :
  is_metric a → is_metric b →
  AddMetric a b = if decide (a = INF ∨ b = INF) then INF else Z.min INFM (a + b).
Proof.
  unfold is_metric, in_width, AddMetric, INFM, INF. intros Ha Hb.
  destruct ((a =? 2 ^ 32 - 1) || (b =? 2 ^ 32 - 1)) eqn:E; to_prop; case_decide; try tauto.
  - lia.
  - unfold wrap. apply Z.mod_small. lia.
Qed.

Lemma AddMetric_comm a b : AddMetric a b = AddMetric b a.
Proof. unfold AddMetric. by rewrite orb_comm, Z.add_comm. Qed.

Lemma AddMetric_INF_l b : AddMetric INF b = INF.
Proof. reflexivity. Qed.

Lemma AddMetric_INF_r a : AddMetric a INF = INF.
Proof. rewrite AddMetric_comm. reflexivity. Qed.

Ltac add_metric :=
  repeat (rewrite AddMetric_spec by (assumption || apply AddMetric_range));
  unfold is_metric, in_width, INFM, INF in *;
  repeat case_decide; try lia.

Lemma AddMetric_INF_iff a b :
  is_metric a → is_metric b → AddMetric a b = INF ↔ a = INF ∨ b = INF.
Proof. intros Ha Hb. add_metric; naive_solver lia. Qed.

Lemma AddMetric_assoc a b c :
  is_metric a → is_metric b → is_metric c →
  AddMetric a (AddMetric b c) = AddMetric (AddMetric a b) c.
Proof. intros Ha Hb Hc. add_metric. Qed.

Lemma AddMetric_mono a b c :
  is_metric a → is_metric b → is_metric c → b <= c → AddMetric a b <= AddMetric a c.
Proof. intros Ha Hb Hc Hle. add_metric. Qed.

Lemma AddMetric_ge_r a b : is_metric a → is_metric b → b <= AddMetric a b ∨ AddMetric a b = INFM.
Proof. intros Ha Hb. add_metric. Qed.

(** Adding a non-zero cost makes a metric strictly worse, below saturation. *)
Lemma AddMetric_strict a b :
  is_metric a → is_metric b → 0 < a → b < INFM → b < AddMetric a b.
Proof. intros Ha Hb Hpos Hlt. add_metric. Qed.

(** ** Sequence numbers *)

Lemma SeqnoLt_spec a b : SeqnoLt a b = true ↔ 0 < (b - a) mod 65536 < 32768.
Proof.
  unfold SeqnoLt, wrap. change (2 ^ 16) with 65536.
  rewrite andb_true_iff, Z.ltb_lt, Z.ltb_lt. lia.
Qed.

Lemma SeqnoLt_irrefl a : SeqnoLt a a = false.
Proof. unfold SeqnoLt. by rewrite Z.sub_diag. Qed.

Lemma mod_opp_65536 x : (- x) mod 65536 = if x mod 65536 =? 0 then 0 else 65536 - x mod 65536.
Proof.
  destruct (Z.eqb_spec (x mod 65536) 0).
  - by apply Z.mod_opp_l_z.
  - by apply Z.mod_opp_l_nz.
Qed.

Lemma SeqnoLt_asym a b : SeqnoLt a b = true → SeqnoLt b a = false.
Proof.
  rewrite SeqnoLt_spec. intros H. apply not_true_iff_false. rewrite SeqnoLt_spec.
  replace (a - b) with (- (b - a)) by ring. rewrite mod_opp_65536.
  destruct (Z.eqb_spec ((b - a) mod 65536) 0); lia.
Qed.

(** Seqno order agrees with integer order as long as the two numbers are within
    half the number space of a common base. *)
Lemma SeqnoLt_window base d1 d2 :
  0 <= d1 < 32768 → 0 <= d2 < 32768 →
  SeqnoLt (uint16 (base + d1)) (uint16 (base + d2)) = true ↔ d1 < d2.
Proof.
  intros H1 H2. rewrite SeqnoLt_spec. unfold wrap. change (2 ^ 16) with 65536.
  rewrite <-Zminus_mod. replace (base + d2 - (base + d1)) with (d2 - d1) by ring.
  destruct (Z.lt_ge_cases d2 d1) as [Hlt|Hge].
  - replace (d2 - d1) with (- (d1 - d2)) by ring. rewrite mod_opp_65536, Z.mod_small by lia.
    destruct (Z.eqb_spec (d1 - d2) 0); lia.
  - rewrite Z.mod_small by lia. lia.
Qed.

(** Transitivity holds while the whole span stays under half the number space. *)
Lemma SeqnoLt_trans a b c :
  SeqnoLt a b = true → SeqnoLt b c = true → (c - a) mod 65536 < 32768 → SeqnoLt a c = true.
Proof.
  rewrite !SeqnoLt_spec. intros H1 H2 H3. split; [|done].
  replace (c - a) with ((c - b) + (b - a)) in * by ring.
  rewrite Zplus_mod in *. rewrite Z.mod_small by lia. lia.
Qed.

Lemma SeqnoLt_succ s : SeqnoLt s (uint16 (s + 1)) = true.
Proof.
  rewrite SeqnoLt_spec. unfold wrap. change (2 ^ 16) with 65536.
  rewrite Zminus_mod_idemp_l. replace (s + 1 - s) with 1 by ring. by cbv.
Qed.

(** ** Durations *)

Lemma DurationToMetric_range d : is_metric (DurationToMetric d).
Proof.
  unfold DurationToMetric. case_match; [apply INF_metric|by apply wrap_range].
Qed.

Lemma addMetricCost_range m c : is_metric (addMetricCost m c).
Proof. unfold addMetricCost. case_match; [apply INF_metric|by apply wrap_range]. Qed.

(** Metric to duration and back is the identity on every metric. *)
Lemma metric_duration_roundtrip m : is_metric m → DurationToMetric (MetricToDuration m) = m.
Proof.
  unfold is_metric, in_width, MetricToDuration, DurationToMetric, INF, MaxInt64. intros Hm.
  destruct (Z.leb_spec (2 ^ 32 - 1) m) as [Hle|Hlt].
  - rewrite Z.eqb_refl. lia.
  - rewrite int64_small by (unfold is_i64; lia).
    destruct (Z.eqb_spec (m * 1000) (2 ^ 63 - 1)) as [E|_]; [exfalso; lia|].
    unfold Microseconds. rewrite Z.quot_mul by lia. rewrite Z.min_l by lia.
    apply wrap_small. unfold in_width. lia.
Qed.

#[export] Hint Resolve DurationToMetric_range addMetricCost_range : nylon.
