(* ===== verification/Routing.v ===== *)
(** The router's data model: [state/routing.go] and [state/tunables.go], and the
    interface through which the routing algorithm sees the links to a neighbour. *)

From S2P Require Import Prelude NetIP Float64 Metric.

Abbreviation NodeId := string.

(** ** Time

    Instants and durations are integers in nanoseconds. *)

Definition Millisecond : Z := 1000000.
Definition Second : Z := 1000 * Millisecond.
Definition Minute : Z := 60 * Second.

(** [time.Time.After]. *)
Definition After (t u : Z) : bool := u <? t.

(** The zero [time.Time], January 1 of year 1, on the Unix nanosecond axis. *)
Definition ZeroTime : Z := - (62135596800 * Second).

(** ** Tunables *)

Record RouterTunables := {
  HopCost : Z;
  TransitCost : Z;
  TCPCost : Z;
  UDPCost : Z;
  LargeChangeThreshold : Z;
  SeqnoRequestHopCount : Z;
  RouteUpdateDelay : Z;
  ProbeDelay : Z;
  ProbeRecoveryDelay : Z;
  ProbeDiscoveryDelay : Z;
  StarvationDelay : Z;
  SeqnoDedupTTL : Z;
  NeighbourIOFlushDelay : Z;
  IPCDispatchTimeout : Z;
  SafeMTU : Z;
  WindowSamples : Z;
  OutlierPercentage : f64;
  MinimumConfidenceWindow : Z;
  GcDelay : Z;
  LinkDeadThreshold : Z;
  RouteExpiryTime : Z;
  LossSmoothingAlpha : f64;
  LossRetxFloor : Z;
  LossCap : f64;
  MetricSmoothingAlpha : f64;
  ClientKeepaliveInterval : Z;
  ClientDeadThreshold : Z;
  CentralUpdateDelay : Z;
  HealthCheckDelay : Z;
  HealthCheckMaxFailures : Z;
  EndpointResolveExpiry : Z;
  EndpointResolveDelay : Z;
  MaxConfigSize : Z;
}.

Definition DefaultRouterTunables : RouterTunables :=
  let probeDelay := Millisecond * 1000 in
  let routeUpdateDelay := Second * 5 in
  {| HopCost := 5;
     TransitCost := 0;
     TCPCost := 0;
     UDPCost := 0;
     LargeChangeThreshold := 100 * 1000;
     SeqnoRequestHopCount := 64;
     RouteUpdateDelay := routeUpdateDelay;
     ProbeDelay := probeDelay;
     ProbeRecoveryDelay := Millisecond * 1500;
     ProbeDiscoveryDelay := Second * 10;
     StarvationDelay := Millisecond * 100;
     SeqnoDedupTTL := Second * 3;
     NeighbourIOFlushDelay := Millisecond * 500;
     IPCDispatchTimeout := Second;
     SafeMTU := 1200;
     WindowSamples := Z.quot (Second * 60) probeDelay;
     OutlierPercentage := f64_lit 5 100;
     MinimumConfidenceWindow := Z.quot (Second * 15) probeDelay;
     GcDelay := Millisecond * 1000;
     LinkDeadThreshold := 5 * probeDelay;
     RouteExpiryTime := 5 * routeUpdateDelay;
     LossSmoothingAlpha := f64_lit 1 10;
     LossRetxFloor := Millisecond * 100;
     LossCap := f64_lit 95 100;
     MetricSmoothingAlpha := f64_lit 33 100;
     ClientKeepaliveInterval := 3 * probeDelay;
     ClientDeadThreshold := 6 * probeDelay;
     CentralUpdateDelay := Second * 10;
     HealthCheckDelay := Second * 15;
     HealthCheckMaxFailures := 3;
     EndpointResolveExpiry := Minute * 1;
     EndpointResolveDelay := Second * 15;
     MaxConfigSize := 2 ^ 20 |}.

(** ** Routes *)

(** A router id and a prefix. *)
Record Source := mkSource { src_NodeId : NodeId; src_Prefix : Prefix }.

Record FD := mkFD { fd_Seqno : Z; fd_Metric : Z }.

Record PubRoute := mkPubRoute { pr_Source : Source; pr_FD : FD }.

Record NeighRoute := mkNeighRoute {
  nr_Pub : PubRoute;
  nr_ExpireAt : Z;
  nr_SmoothedMetric : f64;
}.

Record SelRoute := mkSelRoute {
  sr_Pub : PubRoute;
  sr_Nh : NodeId;
  sr_ExpireAt : Z;
  sr_RetractedBy : list NodeId;
}.

(** Go's embedded-field selectors. *)
Abbreviation pr_NodeId r := (src_NodeId (pr_Source r)).
Abbreviation pr_Prefix r := (src_Prefix (pr_Source r)).
Abbreviation pr_Seqno r := (fd_Seqno (pr_FD r)).
Abbreviation pr_Metric r := (fd_Metric (pr_FD r)).
Abbreviation nr_Metric r := (pr_Metric (nr_Pub r)).
Abbreviation sr_Metric r := (pr_Metric (sr_Pub r)).
Abbreviation sr_Source r := (pr_Source (sr_Pub r)).
Abbreviation sr_Seqno r := (pr_Seqno (sr_Pub r)).

(** A handle on a prefix health check, whose methods are the closures stored in an
    advertisement; what it currently reports comes from the environment. *)
Abbreviation HealthRef := nat.

Record Advertisement := mkAdvertisement {
  adv_NodeId : NodeId;
  adv_Expiry : Z;
  adv_IsPassiveHold : bool;
  adv_MetricFn : option HealthRef;
  adv_ExpiryFn : option HealthRef;
}.

#[export] Instance Source_eq_dec : EqDecision Source.
Proof. solve_decision. Defined.

#[export] Instance Source_countable : Countable Source.
Proof.
  refine (inj_countable' (λ s, (src_NodeId s, src_Prefix s)) (λ x, mkSource x.1 x.2) _).
  by intros [].
Defined.

#[export] Instance FD_eq_dec : EqDecision FD.
Proof. solve_decision. Defined.

#[export] Instance PubRoute_eq_dec : EqDecision PubRoute.
Proof. solve_decision. Defined.

#[export] Instance NeighRoute_eq_dec : EqDecision NeighRoute.
Proof. solve_decision. Defined.

#[export] Instance SelRoute_eq_dec : EqDecision SelRoute.
Proof. solve_decision. Defined.

(** ** Links

    [Neighbour.Eps] holds values of the Go interface [Endpoint].  The routing
    algorithm only asks which endpoint a neighbour would be reached on, whether it
    is active, and what the link costs; all three depend on the current time. *)

Class LinkLayer (Ep : Type) := {
  BestEndpoint : Z → list Ep → option Ep;
  LinkCost : Z → list Ep → Z;
  ep_IsActive : Z → Ep → bool;
}.

Class LinkLayerLaws (Ep : Type) `{LinkLayer Ep} := {
  LinkCost_range : ∀ now eps, is_metric (LinkCost now eps);
  BestEndpoint_active : ∀ now eps e, BestEndpoint now eps = Some e → ep_IsActive now e = true;
  BestEndpoint_None : ∀ now eps, BestEndpoint now eps = None ↔ Forall (λ e, ep_IsActive now e = false) eps;
}.

(** What the environment supplies to a handler: the clock, and the current answer
    of each health check. *)
Record Env := mkEnv { env_now : Z; env_metric : HealthRef → Z }.

(** The health checks answer with [uint32] values. *)
Definition env_wf (e : Env) : Prop := ∀ h, is_metric (env_metric e h).

Section state.
Context {Ep : Type}.

Record Neighbour := mkNeighbour {
  n_Id : NodeId;
  n_Routes : gmap Prefix NeighRoute;
  n_Eps : list Ep;
}.

Record RouterState := mkRouterState {
  rs_tun : RouterTunables;
  rs_Id : NodeId;
  rs_SelfSeqno : gmap Prefix Z;
  rs_Routes : gmap Prefix SelRoute;
  rs_Sources : gmap Source FD;
  rs_Neighbours : list Neighbour;
  rs_Advertised : gmap Prefix Advertisement;
}.

(** Field updates. *)
Definition set_n_Routes (n : Neighbour) (r : gmap Prefix NeighRoute) : Neighbour :=
  mkNeighbour (n_Id n) r (n_Eps n).

Definition set_SelfSeqno (s : RouterState) x : RouterState :=
  mkRouterState (rs_tun s) (rs_Id s) x (rs_Routes s) (rs_Sources s) (rs_Neighbours s) (rs_Advertised s).
Definition set_Routes (s : RouterState) x : RouterState :=
  mkRouterState (rs_tun s) (rs_Id s) (rs_SelfSeqno s) x (rs_Sources s) (rs_Neighbours s) (rs_Advertised s).
Definition set_Sources (s : RouterState) x : RouterState :=
  mkRouterState (rs_tun s) (rs_Id s) (rs_SelfSeqno s) (rs_Routes s) x (rs_Neighbours s) (rs_Advertised s).
Definition set_Neighbours (s : RouterState) x : RouterState :=
  mkRouterState (rs_tun s) (rs_Id s) (rs_SelfSeqno s) (rs_Routes s) (rs_Sources s) x (rs_Advertised s).
Definition set_Advertised (s : RouterState) x : RouterState :=
  mkRouterState (rs_tun s) (rs_Id s) (rs_SelfSeqno s) (rs_Routes s) (rs_Sources s) (rs_Neighbours s) x.

Definition GetSeqno (s : RouterState) (prefix : Prefix) : Z :=
  match rs_SelfSeqno s !! prefix with Some seq => seq | None => 0 end.

Definition SetSeqno (s : RouterState) (prefix : Prefix) (seqno : Z) : RouterState :=
  set_SelfSeqno s (<[prefix := seqno]> (rs_SelfSeqno s)).

(** The first neighbour with the given id, [None] for Go's [nil]. *)
Definition GetNeighbour (s : RouterState) (node : NodeId) : option Neighbour :=
  snd <$> list_find (λ n, n_Id n = node) (rs_Neighbours s).

(** Writing through the pointer [GetNeighbour] returned. *)
Definition put_neighbour (s : RouterState) (node : NodeId) (f : Neighbour → Neighbour) : RouterState :=
  match list_find (λ n, n_Id n = node) (rs_Neighbours s) with
  | Some (i, n) => set_Neighbours s (<[i := f n]> (rs_Neighbours s))
  | None => s
  end.

(** ** Well-formedness

    What every reachable state satisfies: values within their machine width, tables
    keyed by the prefix of the route they hold, and one entry per neighbour. *)

Definition fd_wf (f : FD) : Prop := is_seqno (fd_Seqno f) ∧ is_metric (fd_Metric f).

Definition pub_wf (p : Prefix) (r : PubRoute) : Prop := pr_Prefix r = p ∧ fd_wf (pr_FD r).

Definition neigh_wf (n : Neighbour) : Prop := map_Forall (λ p r, pub_wf p (nr_Pub r)) (n_Routes n).

Definition tun_wf (t : RouterTunables) : Prop := is_metric (HopCost t) ∧ is_metric (TransitCost t).

Record wf (s : RouterState) : Prop := {
  wf_tun : tun_wf (rs_tun s);
  wf_seqno : map_Forall (λ _ q, is_seqno q) (rs_SelfSeqno s);
  wf_routes : map_Forall (λ p r, pub_wf p (sr_Pub r)) (rs_Routes s);
  wf_sources : map_Forall (λ _ f, fd_wf f) (rs_Sources s);
  wf_neighs : Forall neigh_wf (rs_Neighbours s);
  wf_ids : NoDup (n_Id <$> rs_Neighbours s);
}.

End state.

Arguments Neighbour : clear implicits.
Arguments RouterState : clear implicits.

(** ** Lookup of neighbours *)

Section neighbours.
Context {Ep : Type}.
Implicit Types s : RouterState Ep.

Lemma GetNeighbour_Some s node n :
  GetNeighbour s node = Some n → n ∈ rs_Neighbours s ∧ n_Id n = node.
Proof.
  unfold GetNeighbour. destruct (list_find _ _) as [[i n']|] eqn:E; [|done].
  cbn. intros [= <-]. apply list_find_Some in E as (Hi & Hid & _).
  split; [|done]. by apply list_elem_of_lookup_2 in Hi.
Qed.

Lemma GetNeighbour_None s node :
  GetNeighbour s node = None ↔ node ∉ (n_Id <$> rs_Neighbours s).
Proof.
  unfold GetNeighbour. rewrite fmap_None, list_find_None, Forall_forall. split.
  - intros H (n & -> & Hn)%list_elem_of_fmap. by apply (H n).
  - intros H n Hn <-. apply H, list_elem_of_fmap. eauto.
Qed.

Lemma put_neighbour_ids s node f :
  (∀ n, n_Id (f n) = n_Id n) →
  n_Id <$> rs_Neighbours (put_neighbour s node f) = n_Id <$> rs_Neighbours s.
Proof.
  intros Hf. unfold put_neighbour. destruct (list_find _ _) as [[i n]|] eqn:E; [|done].
  apply list_find_Some in E as (Hi & _). cbn. rewrite list_fmap_insert, Hf.
  apply list_insert_id. by rewrite list_lookup_fmap, Hi.
Qed.

Lemma put_neighbour_Forall (P : Neighbour Ep → Prop) s node f :
  (∀ n, P n → P (f n)) →
  Forall P (rs_Neighbours s) → Forall P (rs_Neighbours (put_neighbour s node f)).
Proof.
  intros Hf HP. unfold put_neighbour. destruct (list_find _ _) as [[i n]|] eqn:E; [|done].
  apply list_find_Some in E as (Hi & _). cbn. apply Forall_insert; [done|].
  apply Hf. by eapply Forall_lookup_1.
Qed.

Lemma put_neighbour_lookup s node f n :
  GetNeighbour s node = Some n → n_Id (f n) = n_Id n →
  GetNeighbour (put_neighbour s node f) node = Some (f n).
Proof.
  unfold GetNeighbour, put_neighbour. destruct (list_find _ _) as [[i n']|] eqn:E; [|done].
  cbn. intros [= ->] Hf. apply list_find_Some in E as (Hi & Hid & Hlt). 
  assert (list_find (λ n, n_Id n = node) (<[i:=f n]> (rs_Neighbours s)) = Some (i, f n)) as ->; [|done].
  apply list_find_Some. split; [|split].
  - apply list_lookup_insert_eq. by apply lookup_lt_Some in Hi.
  - by rewrite Hf.
  - intros j y Hj Hji. rewrite list_lookup_insert_ne in Hj by lia. by eapply Hlt.
Qed.

Lemma put_neighbour_other s node node' f :
  (∀ n, n_Id (f n) = n_Id n) → node ≠ node' →
  GetNeighbour (put_neighbour s node f) node' = GetNeighbour s node'.
Proof.
  intros Hf Hne. unfold GetNeighbour, put_neighbour.
  destruct (list_find _ (rs_Neighbours s)) as [[i n]|] eqn:E; [|done]. cbn.
  apply list_find_Some in E as (Hi & Hid & _).
  revert i Hi. induction (rs_Neighbours s) as [|m l IH]; intros i Hi; [done|].
  destruct i as [|i]; cbn in *.
  - injection Hi as ->. rewrite !decide_False; [done|congruence|rewrite Hf; congruence].
  - case_decide; [done|]. specialize (IH i Hi).
    destruct (list_find _ (<[i:=f n]> l)) as [[]|], (list_find _ l) as [[]|]; cbn in *; congruence.
Qed.

End neighbours.
