(* ===== verification/Endpoint.v ===== *)
(** Links to a neighbour: [state/endpoint.go].

    The delay filters, loss estimation, probe bookkeeping and link selection of
    [NylonEndpoint], the configured name of an endpoint with its resolution, and the
    socket address of [polyamide/conn] that packets are sent to.  A method that Go can
    leave by an index panic returns [None] there. *)

From S2P Require Import Prelude NetIP Float64 Metric Routing.

Definition MinInt64 : Z := - 2 ^ 63.

Definition ProbeTimeout : Z := 5 * Second.
Definition EchoValidity : Z := 10 * Second.
Definition ClockJumpReset : Z := Minute.
Definition MinLinkDelay : Z := 50 * 1000.
Definition WarmupDelay : Z := Second.
Definition pendingProbeCap : Z := 128.

(** [time.Since]: a duration saturates. *)
Definition time_Sub (now t : Z) : Z := Z.max MinInt64 (Z.min MaxInt64 (now - t)).

(** Indexing a slice; [None] is the panic. *)
Definition slice_at {A} (l : list A) (i : Z) : option A :=
  if i <? 0 then None else l !! Z.to_nat i.

(** [slices.Sort] on integers. *)
Definition slices_Sort (l : list Z) : list Z := merge_sort Z.le l.

(** ** Delay filter *)

Record delayFilter := mkFilter {
  df_history : list Z;
  df_histSort : list Z;
  df_dirty : bool;
  df_prevMedian : Z;
  df_exp : f64;
  df_init : bool;
}.

Definition zero_filter : delayFilter := mkFilter [] [] false 0 f64_zero false.

Definition filter_reset (f : delayFilter) : delayFilter :=
  mkFilter [] (df_histSort f) true 0 f64_zero false.

(** The constant [alpha] of [update], and [1-alpha], which Go computes exactly. *)
Definition filter_alpha : f64 := f64_lit 836 10000.
Definition filter_beta : f64 := f64_lit 9164 10000.

Definition filter_update (f : delayFilter) (sample : Z) (t : RouterTunables) : delayFilter :=
  let s := f64_of_Z sample in
  let f := if df_init f && f64_ltb (f64_of_Z ClockJumpReset) (f64_abs (f64_sub s (df_exp f)))
           then filter_reset f else f in
  let exp0 := if df_init f then df_exp f else s in
  let exp := f64_add (f64_mul filter_alpha s) (f64_mul filter_beta exp0) in
  let history := df_history f ++ [f64_to_int64 exp] in
  mkFilter (if WindowSamples t <? Z.of_nat (length history) then tail history else history)
    (df_histSort f) true (df_prevMedian f) exp true.

Definition filter_ready (f : delayFilter) (t : RouterTunables) : bool :=
  MinimumConfidenceWindow t <=? Z.of_nat (length (df_history f)).

Definition filter_filtered (f : delayFilter) : Z :=
  if negb (df_init f) then 0 else f64_to_int64 (df_exp f).

(** The positions of the trimmed range in a window of [le] samples. *)
Definition low_index (le : Z) (t : RouterTunables) : Z :=
  f64_to_int64 (f64_mul (f64_of_Z le) (OutlierPercentage t)).
Definition high_index (le : Z) (t : RouterTunables) : Z :=
  f64_to_int64 (f64_mul (f64_of_Z le) (f64_sub f64_one (OutlierPercentage t))).

Definition filter_stabilized (f : delayFilter) (t : RouterTunables) : option (delayFilter * Z) :=
  let histSort := if df_dirty f then slices_Sort (df_history f) else df_histSort f in
  let le := Z.of_nat (length histSort) in
  low ← slice_at histSort (low_index le t);
  high ← slice_at histSort (high_index le t);
  med ← slice_at histSort (le / 2);
  let prev := if (df_prevMedian f <? low) || (high <? df_prevMedian f) then med else df_prevMedian f in
  Some (mkFilter (df_history f) histSort false prev (df_exp f) (df_init f), prev).

(** ** Endpoint *)

Inductive Transport := TransportUDP | TransportFakeTCP.

#[export] Instance Transport_eq_dec : EqDecision Transport.
Proof. solve_decision. Defined.

Record LocalBind := mkLocalBind { lb_Interface : string; lb_Source : Addr }.

#[export] Instance LocalBind_eq_dec : EqDecision LocalBind.
Proof. solve_decision. Defined.

(** ** Names *)

(** [DynamicEndpoint]: an address or a host name, and what it was last resolved to; a
    pointer that several links share is a copy in each of them. *)
Record DynamicEndpoint := mkDyn {
  dyn_Value : string;
  dyn_lastValue : AddrPort;
  dyn_lastUpdate : Z;
}.

#[export] Instance DynamicEndpoint_eq_dec : EqDecision DynamicEndpoint.
Proof. solve_decision. Defined.

Definition NewDynamicEndpoint (value : string) : DynamicEndpoint := mkDyn value zero_AddrPort ZeroTime.

Definition dyn_Clear (ep : DynamicEndpoint) : DynamicEndpoint := mkDyn (dyn_Value ep) (dyn_lastValue ep) ZeroTime.

(** The socket address of [polyamide/conn/bind_std.go]; the source is the address and the
    interface index of the packet information, empty when it was cleared. *)
Record StdNetEndpoint := mkStd {
  se_AddrPort : AddrPort;
  se_src : option (Addr * Z);
  se_transport : Transport;
}.

#[export] Instance StdNetEndpoint_eq_dec : EqDecision StdNetEndpoint.
Proof. solve_decision. Defined.

Definition SrcIP (e : StdNetEndpoint) : Addr := match se_src e with Some (a, _) => a | None => AddrZero end.

Definition SrcIfidx (e : StdNetEndpoint) : Z := match se_src e with Some (_, i) => i | None => 0 end.

Definition SetSrc (e : StdNetEndpoint) (addr : Addr) (ifidx : Z) : StdNetEndpoint :=
  if negb (addr_IsValid addr) && (ifidx =? 0) then mkStd (se_AddrPort e) None (se_transport e)
  else
    let addr := if addr_IsValid addr then addr
                else if addr_Is4 (ap_Addr (se_AddrPort e)) then Addr4 0 else Addr6 0 "" in
    mkStd (se_AddrPort e) (Some (addr_withoutZone addr, ifidx)) (se_transport e).

Definition SetTransport (e : StdNetEndpoint) (t : Transport) : StdNetEndpoint := mkStd (se_AddrPort e) (se_src e) t.

(** ** Links *)

Record NylonEndpoint := mkEndpoint {
  ep_t : RouterTunables;
  ep_lastHeardBack : Z;
  ep_remoteInit : bool;
  ep_WgEndpoint : option StdNetEndpoint;
  ep_DynEP : DynamicEndpoint;
  ep_Bind : LocalBind;
  ep_Transport : Transport;
  ep_bindIfIndex : Z;
  ep_LinkId : Z;
  ep_owdOut : delayFilter;
  ep_owdIn : delayFilter;
  ep_peerTx : Z;
  ep_peerTxRxAt : Z;
  ep_havePeerTx : bool;
  ep_pending : list Z;
  ep_lossEWMA : f64;
  ep_lossInit : bool;
  ep_lossSamples : Z;
}.

(** Field updates. *)
Definition set_owdOut u x := mkEndpoint
  (ep_t u) (ep_lastHeardBack u) (ep_remoteInit u) (ep_WgEndpoint u) (ep_DynEP u) (ep_Bind u) (ep_Transport u)
  (ep_bindIfIndex u) (ep_LinkId u) x (ep_owdIn u) (ep_peerTx u) (ep_peerTxRxAt u) (ep_havePeerTx u)
  (ep_pending u) (ep_lossEWMA u) (ep_lossInit u) (ep_lossSamples u).
Definition set_owdIn u x := mkEndpoint
  (ep_t u) (ep_lastHeardBack u) (ep_remoteInit u) (ep_WgEndpoint u) (ep_DynEP u) (ep_Bind u) (ep_Transport u)
  (ep_bindIfIndex u) (ep_LinkId u) (ep_owdOut u) x (ep_peerTx u) (ep_peerTxRxAt u) (ep_havePeerTx u)
  (ep_pending u) (ep_lossEWMA u) (ep_lossInit u) (ep_lossSamples u).
Definition set_pending u x := mkEndpoint
  (ep_t u) (ep_lastHeardBack u) (ep_remoteInit u) (ep_WgEndpoint u) (ep_DynEP u) (ep_Bind u) (ep_Transport u)
  (ep_bindIfIndex u) (ep_LinkId u) (ep_owdOut u) (ep_owdIn u) (ep_peerTx u) (ep_peerTxRxAt u) (ep_havePeerTx u)
  x (ep_lossEWMA u) (ep_lossInit u) (ep_lossSamples u).
Definition set_loss u x y z := mkEndpoint
  (ep_t u) (ep_lastHeardBack u) (ep_remoteInit u) (ep_WgEndpoint u) (ep_DynEP u) (ep_Bind u) (ep_Transport u)
  (ep_bindIfIndex u) (ep_LinkId u) (ep_owdOut u) (ep_owdIn u) (ep_peerTx u) (ep_peerTxRxAt u) (ep_havePeerTx u)
  (ep_pending u) x y z.
Definition set_peer u x y z := mkEndpoint
  (ep_t u) (ep_lastHeardBack u) (ep_remoteInit u) (ep_WgEndpoint u) (ep_DynEP u) (ep_Bind u) (ep_Transport u)
  (ep_bindIfIndex u) (ep_LinkId u) (ep_owdOut u) (ep_owdIn u) x y z (ep_pending u) (ep_lossEWMA u)
  (ep_lossInit u) (ep_lossSamples u).
Definition set_heard u x := mkEndpoint
  (ep_t u) x (ep_remoteInit u) (ep_WgEndpoint u) (ep_DynEP u) (ep_Bind u) (ep_Transport u) (ep_bindIfIndex u)
  (ep_LinkId u) (ep_owdOut u) (ep_owdIn u) (ep_peerTx u) (ep_peerTxRxAt u) (ep_havePeerTx u) (ep_pending u)
  (ep_lossEWMA u) (ep_lossInit u) (ep_lossSamples u).
Definition set_wg u x := mkEndpoint
  (ep_t u) (ep_lastHeardBack u) (ep_remoteInit u) x (ep_DynEP u) (ep_Bind u) (ep_Transport u) (ep_bindIfIndex u)
  (ep_LinkId u) (ep_owdOut u) (ep_owdIn u) (ep_peerTx u) (ep_peerTxRxAt u) (ep_havePeerTx u) (ep_pending u)
  (ep_lossEWMA u) (ep_lossInit u) (ep_lossSamples u).
Definition set_dyn u x := mkEndpoint
  (ep_t u) (ep_lastHeardBack u) (ep_remoteInit u) (ep_WgEndpoint u) x (ep_Bind u) (ep_Transport u)
  (ep_bindIfIndex u) (ep_LinkId u) (ep_owdOut u) (ep_owdIn u) (ep_peerTx u) (ep_peerTxRxAt u) (ep_havePeerTx u)
  (ep_pending u) (ep_lossEWMA u) (ep_lossInit u) (ep_lossSamples u).
Definition set_bind u x := mkEndpoint
  (ep_t u) (ep_lastHeardBack u) (ep_remoteInit u) (ep_WgEndpoint u) (ep_DynEP u) x (ep_Transport u)
  (ep_bindIfIndex u) (ep_LinkId u) (ep_owdOut u) (ep_owdIn u) (ep_peerTx u) (ep_peerTxRxAt u) (ep_havePeerTx u)
  (ep_pending u) (ep_lossEWMA u) (ep_lossInit u) (ep_lossSamples u).
Definition set_transport u x := mkEndpoint
  (ep_t u) (ep_lastHeardBack u) (ep_remoteInit u) (ep_WgEndpoint u) (ep_DynEP u) (ep_Bind u) x
  (ep_bindIfIndex u) (ep_LinkId u) (ep_owdOut u) (ep_owdIn u) (ep_peerTx u) (ep_peerTxRxAt u) (ep_havePeerTx u)
  (ep_pending u) (ep_lossEWMA u) (ep_lossInit u) (ep_lossSamples u).
Definition set_ifindex u x := mkEndpoint
  (ep_t u) (ep_lastHeardBack u) (ep_remoteInit u) (ep_WgEndpoint u) (ep_DynEP u) (ep_Bind u) (ep_Transport u) x
  (ep_LinkId u) (ep_owdOut u) (ep_owdIn u) (ep_peerTx u) (ep_peerTxRxAt u) (ep_havePeerTx u) (ep_pending u)
  (ep_lossEWMA u) (ep_lossInit u) (ep_lossSamples u).

(** [NewEndpoint], with the link id the counter hands out. *)
Definition NewEndpoint (dyn : DynamicEndpoint) (remoteInit : bool) (wg : option StdNetEndpoint) (t : RouterTunables)
    (linkId : Z) : NylonEndpoint :=
  mkEndpoint t ZeroTime remoteInit wg dyn (mkLocalBind "" AddrZero) TransportUDP 0 linkId zero_filter zero_filter
    0 0 false [] f64_zero false 0.

Definition isActive (now : Z) (u : NylonEndpoint) : bool :=
  time_Sub now (ep_lastHeardBack u) <=? LinkDeadThreshold (ep_t u).

Definition Renew (now : Z) (u : NylonEndpoint) : NylonEndpoint :=
  let u := if negb (isActive now u)
           then set_loss (set_pending (set_peer (set_owdIn (set_owdOut u (filter_reset (ep_owdOut u)))
                  (filter_reset (ep_owdIn u))) (ep_peerTx u) (ep_peerTxRxAt u) false) []) f64_zero false 0
           else u in
  set_heard u now.

Definition IsAlive (now : Z) (u : NylonEndpoint) : bool := isActive now u || negb (ep_remoteInit u).

Definition RegisterProbe (u : NylonEndpoint) (txTs : Z) : NylonEndpoint :=
  let pending := ep_pending u ++ [txTs] in
  set_pending u (if pendingProbeCap <? Z.of_nat (length pending)
                 then drop (Z.to_nat (Z.of_nat (length pending) - pendingProbeCap)) pending else pending).

(** [slices.Index]. *)
Definition slices_Index (l : list Z) (x : Z) : option nat := fst <$> list_find (λ y, y = x) l.

Definition CancelProbe (u : NylonEndpoint) (txTs : Z) : NylonEndpoint :=
  match slices_Index (ep_pending u) txTs with
  | Some idx => set_pending u (delete idx (ep_pending u))
  | None => u
  end.

Definition recordLoss (u : NylonEndpoint) (received : bool) : NylonEndpoint :=
  let sample := if received then f64_zero else f64_one in
  let a := LossSmoothingAlpha (ep_t u) in
  let ewma := if negb (ep_lossInit u) then sample
              else f64_add (f64_mul a sample) (f64_mul (f64_sub f64_one a) (ep_lossEWMA u)) in
  set_loss u ewma true
    (if ep_lossSamples u <? MinimumConfidenceWindow (ep_t u) then ep_lossSamples u + 1 else ep_lossSamples u).

Definition SweepProbes (u : NylonEndpoint) (nowNs : Z) : NylonEndpoint :=
  let '(u', kept) := foldl (λ st txTs,
      if ProbeTimeout <? int64 (nowNs - txTs) then (recordLoss st.1 false, st.2) else (st.1, st.2 ++ [txTs]))
    (u, []) (ep_pending u) in
  set_pending u' kept.

Definition EchoInfo (u : NylonEndpoint) (nowNs : Z) : option (Z * Z) :=
  if negb (ep_havePeerTx u) || (EchoValidity <? int64 (nowNs - ep_peerTxRxAt u)) then None
  else Some (ep_peerTx u, ep_peerTxRxAt u).

Definition ObserveInbound (u : NylonEndpoint) (peerTx rxNs : Z) : NylonEndpoint :=
  if ep_havePeerTx u && (peerTx <=? ep_peerTx u) && (int64 (ep_peerTx u - peerTx) <? ClockJumpReset) then u
  else set_owdIn (set_peer u peerTx rxNs true) (filter_update (ep_owdIn u) (int64 (rxNs - peerTx)) (ep_t u)).

Definition ObserveEcho (u : NylonEndpoint) (originTx peerRx : Z) : NylonEndpoint * bool :=
  match slices_Index (ep_pending u) originTx with
  | None => (u, false)
  | Some idx =>
      let u := set_pending u (delete idx (ep_pending u)) in
      let u := set_owdOut u (filter_update (ep_owdOut u) (int64 (peerRx - originTx)) (ep_t u)) in
      (recordLoss u true, true)
  end.

(** Reading the relative delays refreshes the filters' caches. *)
Definition RelDelays (u : NylonEndpoint) : option (NylonEndpoint * option (Z * Z)) :=
  if negb (filter_ready (ep_owdOut u) (ep_t u)) || negb (filter_ready (ep_owdIn u) (ep_t u)) then Some (u, None)
  else
    '(fo, o) ← filter_stabilized (ep_owdOut u) (ep_t u);
    '(fi, i) ← filter_stabilized (ep_owdIn u) (ep_t u);
    Some (set_owdIn (set_owdOut u fo) fi, Some (o, i)).

(** The delays, without the cache; reading them again gives the same answer, see
    [RelDelays_again]. *)
Definition rel_delays (u : NylonEndpoint) : option (option (Z * Z)) := snd <$> RelDelays u.

Definition LossRate (u : NylonEndpoint) : f64 :=
  if ep_lossSamples u <? MinimumConfidenceWindow (ep_t u) then f64_zero
  else
    let l := ep_lossEWMA u in
    let l := if f64_ltb l f64_zero then f64_zero else l in
    if f64_ltb (LossCap (ep_t u)) l then LossCap (ep_t u) else l.

Definition dirScores (u : NylonEndpoint) : option (option (Z * Z)) :=
  r ← rel_delays u;
  Some (match r with
        | None => None
        | Some (rOut, rIn) =>
            let p := f64_min (LossRate u) (LossCap (ep_t u)) in
            let pen := if f64_ltb f64_zero p
                       then f64_to_int64 (f64_div (f64_mul
                              (f64_of_Z (int64 (int64 (rOut + rIn) + LossRetxFloor (ep_t u)))) p) (f64_sub f64_one p))
                       else 0 in
            Some (int64 (rOut + pen), int64 (rIn + pen))
        end).

Definition FilteredPing (u : NylonEndpoint) : Z :=
  if negb (df_init (ep_owdOut u)) || negb (df_init (ep_owdIn u)) then 0
  else int64 (filter_filtered (ep_owdOut u) + filter_filtered (ep_owdIn u)).

Definition StabilizedPing (u : NylonEndpoint) : option Z :=
  r ← rel_delays u;
  Some (match r with Some (o, i) => int64 (o + i) | None => 0 end).

Definition etxMetric (base : Z) (p : f64) (t : RouterTunables) : Z :=
  if f64_leb p f64_zero then DurationToMetric base
  else
    let factor := f64_div p (f64_sub f64_one p) in
    let extra := f64_to_int64 (f64_mul (f64_of_Z (int64 (base + LossRetxFloor t))) factor) in
    DurationToMetric (int64 (base + extra)).

Definition ep_Metric (now : Z) (u : NylonEndpoint) : option Z :=
  if negb (isActive now u) then Some INF
  else
    base ← StabilizedPing u;
    let base := if base =? 0 then WarmupDelay else base in
    Some (etxMetric (Z.max base MinLinkDelay) (LossRate u) (ep_t u)).

(** ** Link selection *)

Definition cmpBool (a b : bool) : Z := if eqb a b then 0 else if a then -1 else 1.

(** [cmp.Compare] on integers. *)
Definition cmp_Compare (a b : Z) : Z := if a <? b then -1 else if b <? a then 1 else 0.

Definition endpointCost (u : NylonEndpoint) : Z :=
  match ep_Transport u with TransportFakeTCP => TCPCost (ep_t u) | TransportUDP => UDPCost (ep_t u) end.

Definition outboundScore (u : NylonEndpoint) : option (Z * bool) :=
  r ← dirScores u;
  Some (match r with
        | Some (out, _) => (int64 (out + endpointCost u), true)
        | None => (int64 (0 + endpointCost u), false)
        end).

Definition effectiveEndpointMetric (now : Z) (u : NylonEndpoint) : option Z :=
  metric ← ep_Metric now u;
  Some (addMetricCost metric (endpointCost u)).

Definition CompareEndpoints (now : Z) (a b : NylonEndpoint) : option Z :=
  let c := cmpBool (isActive now a) (isActive now b) in
  if negb (c =? 0) then Some c
  else
    '(aOut, aOk) ← outboundScore a;
    '(bOut, bOk) ← outboundScore b;
    let c := cmpBool aOk bOk in
    if negb (c =? 0) then Some c
    else if aOk && negb (aOut =? bOut) then Some (cmp_Compare aOut bOut)
    else
      ma ← effectiveEndpointMetric now a;
      mb ← effectiveEndpointMetric now b;
      Some (cmp_Compare ma mb).

Definition best_step (now : Z) (acc : option (option NylonEndpoint)) (link : NylonEndpoint)
    : option (option NylonEndpoint) :=
  best ← acc;
  if negb (isActive now link) then Some best
  else match best with
       | None => Some (Some link)
       | Some b => c ← CompareEndpoints now link b; Some (Some (if c <? 0 then link else b))
       end.

Definition Neighbour_BestEndpoint (now : Z) (Eps : list NylonEndpoint) : option (option NylonEndpoint) :=
  foldl (best_step now) (Some None) Eps.

(** The links with the best outbound and the best inbound score found so far, and
    whether any link is active. *)
Record cost_scan := mkCostScan {
  cs_out : option (NylonEndpoint * Z);
  cs_in : option (NylonEndpoint * Z);
  cs_haveActive : bool;
}.

Definition cost_step (now : Z) (acc : option cost_scan) (ep : NylonEndpoint) : option cost_scan :=
  st ← acc;
  if negb (isActive now ep) then Some st
  else
    r ← dirScores ep;
    Some (match r with
          | None => mkCostScan (cs_out st) (cs_in st) true
          | Some (out, inn) =>
              let outScore := int64 (out + endpointCost ep) in
              mkCostScan
                (match cs_out st with
                 | Some (_, bestOut) => if outScore <? bestOut then Some (ep, outScore) else cs_out st
                 | None => Some (ep, outScore)
                 end)
                (match cs_in st with
                 | Some (_, bestIn) => if inn <? bestIn then Some (ep, inn) else cs_in st
                 | None => Some (ep, inn)
                 end) true
          end).

Definition Neighbour_LinkCost (now : Z) (Eps : list NylonEndpoint) : option Z :=
  st ← foldl (cost_step now) (Some (mkCostScan None None false)) Eps;
  if negb (cs_haveActive st) then Some INF
  else match cs_out st, cs_in st with
       | Some (outEp, _), Some (inEp, _) =>
           ro ← rel_delays outEp;
           ri ← rel_delays inEp;
           let outRel := match ro with Some (o, _) => o | None => 0 end in
           let inRel := match ri with Some (_, i) => i | None => 0 end in
           let base := Z.max (int64 (outRel + inRel)) MinLinkDelay in
           let t := ep_t outEp in
           let pOut := f64_min (LossRate outEp) (LossCap t) in
           let pIn := f64_min (LossRate inEp) (LossCap t) in
           let p := f64_min (f64_sub f64_one (f64_mul (f64_sub f64_one pOut) (f64_sub f64_one pIn))) (LossCap t) in
           Some (addMetricCost (etxMetric base p t) (endpointCost outEp))
       | _, _ =>
           best ← Neighbour_BestEndpoint now Eps;
           match best with
           | None => Some INF
           | Some b => effectiveEndpointMetric now b
           end
       end.

(** ** Addresses of links *)

(** What the operating system answers: the index of an interface, and whether there is a
    route to an address. *)
Class Host := {
  InterfaceByName : string → option Z;
  InterfaceByIndex : Z → option string;
  FamilyReachable : Addr → bool;
}.

(** [ResolveSRV] and [ResolveName]. *)
Class Resolver := {
  ResolveSRV : string → option (string * Z);
  ResolveName : string → option (list Addr);
}.

Section dialing.
Context `{NT : NetText} `{HO : Host}.

(** The host and the port of an endpoint; [None] is an invalid port. *)
Definition dyn_Parse (ep : DynamicEndpoint) : option (string * Z) :=
  match ParseAddrPort (dyn_Value ep) with
  | Some ap => Some (Addr_String (ap_Addr ap), ap_Port ap)
  | None => match SplitHostPort (dyn_Value ep) with
            | None => Some (dyn_Value ep, DefaultPort)
            | Some (h, portStr) => p ← ParseUint16 portStr; Some (h, p)
            end
  end.

Definition dyn_Get (ep : DynamicEndpoint) : option AddrPort :=
  match ParseAddrPort (dyn_Value ep) with
  | Some ap => Some ap
  | None => if decide (dyn_lastValue ep = zero_AddrPort) then None else Some (dyn_lastValue ep)
  end.

(** [Refresh]; the result is [None] when the name cannot be resolved. *)
Definition dyn_Refresh `{Resolver} (now resolveExpiry : Z) (ep : DynamicEndpoint) : DynamicEndpoint * option AddrPort :=
  match ParseAddrPort (dyn_Value ep) with
  | Some ap => (ep, Some ap)
  | None =>
      if (time_Sub now (dyn_lastUpdate ep) <? resolveExpiry) && bool_decide (dyn_lastValue ep ≠ zero_AddrPort)
      then (ep, Some (dyn_lastValue ep))
      else match dyn_Parse ep with
           | None => (ep, None)
           | Some (host, port) =>
               let found a p := let v := mkAddrPort a p in (mkDyn (dyn_Value ep) v now, Some v) in
               let plain := match ResolveName host with Some (a :: _) => found a port | _ => (ep, None) end in
               match ResolveSRV host with
               | Some (target, srvPort) => match ResolveName target with Some (a :: _) => found a srvPort | _ => plain end
               | None => plain
               end
           end
  end.

(** The index of the bind interface, looked up once. *)
Definition BindInterfaceIndex (ep : NylonEndpoint) : NylonEndpoint * option Z :=
  if decide (lb_Interface (ep_Bind ep) = "") then (ep, Some 0)
  else if negb (ep_bindIfIndex ep =? 0) then (ep, Some (ep_bindIfIndex ep))
  else match InterfaceByName (lb_Interface (ep_Bind ep)) with
       | None => (ep, None)
       | Some index => (set_ifindex ep index, Some index)
       end.

Inductive EpErr := EpUnresolved | EpFamily | EpParse | EpInterface | EpFakeTCP (notEstablished : bool).

(** [GetWgEndpoint]; [prepare] is [StdNetBind.PrepareFakeTCP], which fails because the
    connection is not established or for another reason.  The link keeps the socket
    address even when a later step fails. *)
Definition GetWgEndpoint (prepare : StdNetEndpoint → option bool) (ep : NylonEndpoint)
    : NylonEndpoint * (EpErr + StdNetEndpoint) :=
  match dyn_Get (ep_DynEP ep) with
  | None => (ep, inl EpUnresolved)
  | Some ap =>
      if negb (SameIPFamily (lb_Source (ep_Bind ep)) (ap_Addr ap)) then (ep, inl EpFamily)
      else
        let fresh := match ParseAddrPort (AddrPort_String ap) with
                     | Some a => Some (mkStd a None TransportUDP)
                     | None => None
                     end in
        match (match ep_WgEndpoint ep with
               | Some wg => if decide (se_AddrPort wg = ap) then Some wg else fresh
               | None => fresh
               end) with
        | None => (ep, inl EpParse)
        | Some wg =>
            let ep := set_wg ep (Some wg) in
            let '(ep, src) :=
              if addr_IsValid (lb_Source (ep_Bind ep)) || negb (bool_decide (lb_Interface (ep_Bind ep) = ""))
              then match BindInterfaceIndex ep with
                   | (ep, None) => (ep, None)
                   | (ep, Some ifidx) => (ep, Some (SetSrc wg (lb_Source (ep_Bind ep)) ifidx))
                   end
              else (ep, Some wg) in
            match src with
            | None => (ep, inl EpInterface)
            | Some wg =>
                match ep_Transport ep with
                | TransportUDP => (set_wg ep (Some wg), inr wg)
                | TransportFakeTCP =>
                    let wg := SetTransport wg TransportFakeTCP in
                    match prepare wg with
                    | Some err => (set_wg ep (Some wg), inl (EpFakeTCP err))
                    | None => (set_wg ep (Some wg), inr wg)
                    end
                end
            end
        end
  end.

End dialing.
