(* ===== verification/EndpointProps.v ===== *)
(** Properties of links: the delay filters, probe accounting and link selection, and
    the link layer they provide to the routing algorithm. *)

From S2P Require Import Prelude NetIP Float64 Metric Routing Endpoint.

(** ** Floats *)

Lemma SFcompare_antisym x y : SFcompare y x = CompOpp <$> SFcompare x y.
Proof.
  destruct x as [[]|[]| |[] m1 e1], y as [[]|[]| |[] m2 e2]; try done; cbn.
  - rewrite (Z.compare_antisym e1 e2). destruct (e1 ?= e2)%Z; try done. cbn.
    change (Pos.compare_cont Eq) with Pos.compare. rewrite (Pos.compare_antisym m1 m2). by rewrite CompOpp_involutive.
  - rewrite (Z.compare_antisym e1 e2). destruct (e1 ?= e2)%Z; try done. cbn.
    change (Pos.compare_cont Eq) with Pos.compare. by rewrite (Pos.compare_antisym m1 m2).
Qed.

Definition is_nan (x : f64) : bool := match x with S754_nan => true | _ => false end.

Lemma SFcompare_Some x y : is_nan x = false → is_nan y = false → is_Some (SFcompare x y).
Proof. by destruct x as [[]|[]| |[] m1 e1], y as [[]|[]| |[] m2 e2]; cbn; eauto. Qed.

(** Numbers are totally ordered. *)
Lemma f64_ltb_leb x y :
  is_nan x = false → is_nan y = false → f64_ltb x y = false → f64_leb y x = true.
Proof.
  intros Hx Hy. unfold f64_ltb, f64_leb, SFltb, SFleb. rewrite (SFcompare_antisym x y).
  destruct (SFcompare_Some x y Hx Hy) as [[] ->]; done.
Qed.

Lemma f64_leb_refl x : is_nan x = false → f64_leb x x = true.
Proof. intros Hx. apply f64_ltb_leb; [done..|]. apply f64_ltb_irrefl. Qed.

(** ** Sorting *)

Lemma slices_Sort_sorted l : StronglySorted Z.le (slices_Sort l).
Proof. apply StronglySorted_merge_sort; apply _. Qed.

Lemma slices_Sort_length l : length (slices_Sort l) = length l.
Proof. apply Permutation_length, merge_sort_Permutation. Qed.

Lemma sorted_lookup_le l i j x y :
  StronglySorted Z.le l → l !! i = Some x → l !! j = Some y → (i <= j)%nat → x <= y.
Proof.
  intros Hs. revert i j. induction Hs as [|a l Hs IH Ha]; intros i j Hi Hj Hle; [done|].
  destruct i as [|i], j as [|j]; cbn in *; try lia.
  - simplify_eq. lia.
  - injection Hi as <-. rewrite Forall_forall in Ha. apply Ha. by eapply list_elem_of_lookup_2.
  - eapply IH; [done..|lia].
Qed.

Lemma slice_at_Some {A} (l : list A) i : 0 <= i < Z.of_nat (length l) → is_Some (slice_at l i).
Proof. intros Hi. unfold slice_at. rewrite (proj2 (Z.ltb_ge i 0)) by lia. apply lookup_lt_is_Some. lia. Qed.

(** ** Filters *)

(** The window is bounded, and a clean cache holds the sorted window. *)
Definition filter_wf (t : RouterTunables) (f : delayFilter) : Prop :=
  Z.of_nat (length (df_history f)) <= WindowSamples t ∧
  (df_dirty f = false → df_histSort f = slices_Sort (df_history f)).

(** The positions of the trimmed range fall inside every window that can be read. *)
Definition window_ok (t : RouterTunables) : Prop :=
  0 <= WindowSamples t ∧ 0 < MinimumConfidenceWindow t ∧
  ∀ le, MinimumConfidenceWindow t <= le <= WindowSamples t →
    0 <= low_index le t <= le / 2 ∧ le / 2 <= high_index le t < le.

Definition window_okb (t : RouterTunables) : bool :=
  (0 <=? WindowSamples t) && (0 <? MinimumConfidenceWindow t) &&
  forallb (λ le, (0 <=? low_index le t) && (low_index le t <=? le / 2) && (le / 2 <=? high_index le t) &&
                 (high_index le t <? le))
    (seqZ (MinimumConfidenceWindow t) (WindowSamples t - MinimumConfidenceWindow t + 1)).

Lemma window_okb_ok t : window_okb t = true → window_ok t.
Proof.
  unfold window_okb. intros. to_prop. split; [lia|]. split; [lia|]. intros le Hle.
  match goal with H : forallb _ _ = true |- _ => rewrite forallb_forall in H; specialize (H le); rename H into Hall end.
  rewrite <-list_elem_of_In, elem_of_seqZ in Hall. specialize (Hall ltac:(lia)). cbv beta in Hall. to_prop. lia.
Qed.

Lemma filter_reset_wf t f : window_ok t → filter_wf t (filter_reset f).
Proof. intros (Hw & _). split; cbn; [lia|done]. Qed.

Lemma filter_update_wf t f sample : window_ok t → filter_wf t f → filter_wf t (filter_update f sample t).
Proof.
  intros (Hw & _) [Hlen _]. unfold filter_update. split; [|done]. cbn [df_history].
  assert (∀ (h : list Z) x, Z.of_nat (length h) <= WindowSamples t →
    Z.of_nat (length (if WindowSamples t <? Z.of_nat (length (h ++ [x])) then tail (h ++ [x]) else h ++ [x]))
      <= WindowSamples t) as Hgen.
  { intros h x Hh. case_goal; to_prop; [|lia]. destruct h; cbn in *; rewrite ?length_app in *; cbn in *; lia. }
  apply Hgen. case_goal; cbn; lia.
Qed.

(** A readable filter has a value, which lies in the trimmed range of its window. *)
Lemma filter_stabilized_spec t f :
  window_ok t → filter_wf t f → filter_ready f t = true →
  ∃ f' v low high, filter_stabilized f t = Some (f', v) ∧ filter_wf t f' ∧ df_history f' = df_history f ∧
    slice_at (slices_Sort (df_history f)) (low_index (Z.of_nat (length (df_history f))) t) = Some low ∧
    slice_at (slices_Sort (df_history f)) (high_index (Z.of_nat (length (df_history f))) t) = Some high ∧
    low <= v <= high.
Proof.
  intros (Hw & Hm & Hidx) [Hlen Hcache] Hready. unfold filter_ready in Hready. to_prop.
  set (le := Z.of_nat (length (df_history f))) in *. destruct (Hidx le) as [Hlow Hhigh]; [lia|].
  assert ((if df_dirty f then slices_Sort (df_history f) else df_histSort f) = slices_Sort (df_history f)) as Hs.
  { destruct (df_dirty f); [done|]. by apply Hcache. }
  assert (Z.of_nat (length (slices_Sort (df_history f))) = le) as Hle by by rewrite slices_Sort_length.
  unfold filter_stabilized. rewrite Hs, Hle.
  destruct (slice_at_Some (slices_Sort (df_history f)) (low_index le t)) as [low El]; [lia|].
  destruct (slice_at_Some (slices_Sort (df_history f)) (high_index le t)) as [high Eh]; [lia|].
  destruct (slice_at_Some (slices_Sort (df_history f)) (le / 2)) as [med Em]; [lia|].
  rewrite El, Eh, Em. cbn. eexists _, _, low, high. split; [done|]. split; [done|]. split; [done|]. split; [done|].
  split; [done|].
  assert (low <= med <= high) as Hmed.
  { unfold slice_at in El, Eh, Em.
    rewrite (proj2 (Z.ltb_ge _ _)) in El by lia. rewrite (proj2 (Z.ltb_ge _ _)) in Eh by lia.
    rewrite (proj2 (Z.ltb_ge _ _)) in Em by lia.
    pose proof (slices_Sort_sorted (df_history f)) as Hsort.
    split; [apply (sorted_lookup_le _ _ _ _ _ Hsort El Em)|apply (sorted_lookup_le _ _ _ _ _ Hsort Em Eh)]; lia. }
  destruct (_ || _) eqn:E; to_prop; lia.
Qed.

(** Reading twice is reading once. *)
Lemma filter_stabilized_again t f f' v :
  filter_stabilized f t = Some (f', v) → filter_stabilized f' t = Some (f', v).
Proof.
  unfold filter_stabilized.
  set (hs := if df_dirty f then slices_Sort (df_history f) else df_histSort f).
  intros (low & El & (high & Eh & (med & Em & H)%bind_Some)%bind_Some)%bind_Some. injection H as <- <-. cbn.
  rewrite El. cbn. rewrite Eh. cbn. rewrite Em. cbn.
  destruct ((df_prevMedian f <? low) || (high <? df_prevMedian f)) eqn:E; [by case_goal|by rewrite E].
Qed.

(** ** Endpoints *)

Record ep_wf (u : NylonEndpoint) : Prop := {
  ep_wf_window : window_ok (ep_t u);
  ep_wf_out : filter_wf (ep_t u) (ep_owdOut u);
  ep_wf_in : filter_wf (ep_t u) (ep_owdIn u);
  ep_wf_pending : Z.of_nat (length (ep_pending u)) <= pendingProbeCap;
}.

Lemma set_owds_same u : set_owdIn (set_owdOut u (ep_owdOut u)) (ep_owdIn u) = u.
Proof. by destruct u. Qed.

(** Reading the delays changes nothing that a further read can see. *)
Lemma RelDelays_again u u' r : RelDelays u = Some (u', r) → RelDelays u' = Some (u', r).
Proof.
  unfold RelDelays. destruct (_ || _) eqn:E; [intros [= <- <-]; by rewrite E|].
  intros ([fo o] & Ho & ([fi i] & Hi & H)%bind_Some)%bind_Some. injection H as <- <-. cbn.
  pose proof (filter_stabilized_again _ _ _ _ Ho) as Ho'. pose proof (filter_stabilized_again _ _ _ _ Hi) as Hi'.
  assert (df_history fo = df_history (ep_owdOut u) ∧ df_history fi = df_history (ep_owdIn u)) as [Eo Ei].
  { unfold filter_stabilized in Ho, Hi.
    apply bind_Some in Ho as (? & _ & Ho). apply bind_Some in Ho as (? & _ & Ho). apply bind_Some in Ho as (? & _ & Ho).
    apply bind_Some in Hi as (? & _ & Hi). apply bind_Some in Hi as (? & _ & Hi). apply bind_Some in Hi as (? & _ & Hi).
    injection Ho as <- _. injection Hi as <- _. done. }
  unfold filter_ready in *. rewrite Eo, Ei, E, Ho'. cbn. rewrite Hi'. cbn. done.
Qed.

Lemma RelDelays_wf u :
  ep_wf u → ∃ u' r, RelDelays u = Some (u', r) ∧ ep_wf u' ∧ ep_t u' = ep_t u ∧ ep_pending u' = ep_pending u.
Proof.
  intros Hwf. unfold RelDelays. destruct (_ || _) eqn:E; [by eexists _, _|]. to_prop.
  destruct (filter_stabilized_spec (ep_t u) (ep_owdOut u)) as (fo & o & ? & ? & -> & Hfo & _); [apply Hwf..|done|].
  destruct (filter_stabilized_spec (ep_t u) (ep_owdIn u)) as (fi & i & ? & ? & Hi & Hfi & _); [apply Hwf..|done|].
  cbn. rewrite Hi. cbn. eexists _, _. split; [done|]. split; [|done]. split; cbn; try done; apply Hwf.
Qed.

Lemma rel_delays_total u : ep_wf u → is_Some (rel_delays u).
Proof. intros Hwf. destruct (RelDelays_wf u Hwf) as (u' & r & H & _). unfold rel_delays. rewrite H. by eexists. Qed.

Lemma NewEndpoint_wf dyn ri wg t id : window_ok t → ep_wf (NewEndpoint dyn ri wg t id).
Proof.
  intros Hw. split; [done|..|by vm_compute]; (split; [cbn; by destruct Hw as [? _]|reflexivity]).
Qed.

Lemma recordLoss_frame u b :
  ep_t (recordLoss u b) = ep_t u ∧ ep_owdOut (recordLoss u b) = ep_owdOut u ∧
  ep_owdIn (recordLoss u b) = ep_owdIn u ∧ ep_pending (recordLoss u b) = ep_pending u.
Proof. done. Qed.

Lemma slices_Index_Some l x i : slices_Index l x = Some i → l !! i = Some x.
Proof.
  unfold slices_Index. destruct (list_find _ l) as [[j y]|] eqn:E; [|done]. cbn. intros [= ->].
  apply list_find_Some in E as (Hi & -> & _). done.
Qed.

Lemma slices_Index_None l x : slices_Index l x = None ↔ x ∉ l.
Proof.
  unfold slices_Index. rewrite fmap_None, list_find_None, Forall_forall. split.
  - intros H Hx. by apply (H x Hx).
  - intros H y Hy ->. done.
Qed.

Lemma ObserveEcho_ok u o p :
  (ObserveEcho u o p).2 = match slices_Index (ep_pending u) o with Some _ => true | None => false end.
Proof. unfold ObserveEcho. by destruct (slices_Index _ _). Qed.

Lemma ObserveEcho_pending u o p :
  ep_pending (ObserveEcho u o p).1 =
  match slices_Index (ep_pending u) o with Some i => delete i (ep_pending u) | None => ep_pending u end.
Proof. unfold ObserveEcho. by destruct (slices_Index _ _). Qed.

(** The probes that timed out, and those that did not. *)
Definition timed_out (nowNs txTs : Z) : bool := ProbeTimeout <? int64 (nowNs - txTs).

Lemma SweepProbes_eq u nowNs :
  SweepProbes u nowNs =
  set_pending (Nat.iter (length (filter (λ x, timed_out nowNs x = true) (ep_pending u))) (λ v, recordLoss v false) u)
    (filter (λ x, timed_out nowNs x = false) (ep_pending u)).
Proof.
  unfold SweepProbes.
  assert (∀ l v kept, foldl (λ (st : NylonEndpoint * list Z) txTs,
      if ProbeTimeout <? int64 (nowNs - txTs) then (recordLoss st.1 false, st.2) else (st.1, st.2 ++ [txTs]))
    (v, kept) l =
    (Nat.iter (length (filter (λ x, timed_out nowNs x = true) l)) (λ v, recordLoss v false) v,
     kept ++ filter (λ x, timed_out nowNs x = false) l)) as Hgen.
  { induction l as [|x l IH]; intros v kept; [by rewrite app_nil_r|]. cbn [foldl]. rewrite !filter_cons.
    fold (timed_out nowNs x). destruct (timed_out nowNs x); rewrite IH.
    - rewrite decide_True, decide_False by done. cbn [length fst snd]. f_equal.
      exact (Nat.iter_swap _ _ (λ v, recordLoss v false) v).
    - rewrite decide_False, decide_True by done. cbn [fst snd]. by rewrite <-app_assoc. }
  by rewrite Hgen.
Qed.

Lemma iter_recordLoss_frame n u :
  let v := Nat.iter n (λ v, recordLoss v false) u in
  ep_t v = ep_t u ∧ ep_owdOut v = ep_owdOut u ∧ ep_owdIn v = ep_owdIn u.
Proof. induction n as [|n IH]; [done|]. cbn in *. done. Qed.

(** What happens to a link. *)
Inductive ep_step (u : NylonEndpoint) : NylonEndpoint → Prop :=
| ep_renew now : ep_step u (Renew now u)
| ep_register txTs : ep_step u (RegisterProbe u txTs)
| ep_cancel txTs : ep_step u (CancelProbe u txTs)
| ep_sweep nowNs : ep_step u (SweepProbes u nowNs)
| ep_inbound peerTx rxNs : ep_step u (ObserveInbound u peerTx rxNs)
| ep_echo originTx peerRx : ep_step u (ObserveEcho u originTx peerRx).1
| ep_read u' r : RelDelays u = Some (u', r) → ep_step u u'.

Lemma ep_step_wf u u' : ep_wf u → ep_step u u' → ep_wf u'.
Proof.
  intros Hwf Hs. destruct Hwf as [Hw Ho Hi Hp]. destruct Hs as [now|tx|tx|now|ptx rx|otx prx|u' r Hr].
  - unfold Renew. case_goal; split; cbn; try done; try by apply filter_reset_wf.
  - unfold RegisterProbe. split; cbn; try done. case_goal.
    + rewrite length_drop. to_prop. lia.
    + to_prop. lia.
  - unfold CancelProbe. destruct (slices_Index _ _) as [i|] eqn:E; [|done]. split; cbn; try done.
    apply slices_Index_Some, lookup_lt_Some in E. rewrite length_delete; [lia|by apply lookup_lt_is_Some].
  - rewrite SweepProbes_eq.
    destruct (iter_recordLoss_frame (length (filter (λ x, timed_out now x = true) (ep_pending u))) u)
      as (Et & Eo & Ei). split; cbn; rewrite ?Et, ?Eo, ?Ei; try done.
    pose proof (length_filter (λ x, timed_out now x = false) (ep_pending u)). lia.
  - unfold ObserveInbound. case_goal; [done|]. split; cbn; try done. by apply filter_update_wf.
  - unfold ObserveEcho. destruct (slices_Index _ _) as [i|] eqn:E; [|done]. split; cbn; try done.
    + by apply filter_update_wf.
    + apply slices_Index_Some, lookup_lt_Some in E. rewrite length_delete; [lia|by apply lookup_lt_is_Some].
  - destruct (RelDelays_wf u) as (v & r' & Hv & Hvwf & _); [done|]. rewrite Hr in Hv. by injection Hv as <- <-.
Qed.

(** ** Selection *)

Section selection.
Variable now : Z.

Lemma dirScores_total u : ep_wf u → is_Some (dirScores u).
Proof. intros [r Hr]%rel_delays_total. unfold dirScores. rewrite Hr. by eexists. Qed.

Lemma outboundScore_total u : ep_wf u → is_Some (outboundScore u).
Proof. intros [r Hr]%dirScores_total. unfold outboundScore. rewrite Hr. by eexists. Qed.

Lemma effectiveMetric_total u : ep_wf u → is_Some (effectiveEndpointMetric now u).
Proof.
  intros [r Hr]%rel_delays_total. unfold effectiveEndpointMetric, ep_Metric, StabilizedPing. rewrite Hr.
  case_goal; by eexists.
Qed.

(** What two links are compared by: readiness, outbound score, effective metric. *)
Definition link_key (u : NylonEndpoint) : Z * Z * Z :=
  match outboundScore u, effectiveEndpointMetric now u with
  | Some (out, true), Some m => (0, out, m)
  | Some (_, false), Some m => (1, 0, m)
  | _, _ => (2, 0, 0)
  end.

Definition key_compare (a b : Z * Z * Z) : Z :=
  let '(a1, a2, a3) := a in let '(b1, b2, b3) := b in
  if negb (cmp_Compare a1 b1 =? 0) then cmp_Compare a1 b1
  else if negb (cmp_Compare a2 b2 =? 0) then cmp_Compare a2 b2 else cmp_Compare a3 b3.

Lemma CompareEndpoints_key a b :
  ep_wf a → ep_wf b → isActive now a = true → isActive now b = true →
  CompareEndpoints now a b = Some (key_compare (link_key a) (link_key b)).
Proof.
  intros Ha Hb Aa Ab. unfold CompareEndpoints, link_key. rewrite Aa, Ab. cbn [cmpBool eqb negb Z.eqb].
  destruct (outboundScore_total a Ha) as [[oa ka] ->]. destruct (outboundScore_total b Hb) as [[ob kb] ->].
  destruct (effectiveMetric_total a Ha) as [ma ->]. destruct (effectiveMetric_total b Hb) as [mb ->]. cbn.
  unfold key_compare, cmp_Compare, cmpBool.
  destruct ka, kb; cbn; try done. destruct (Z.eqb_spec oa ob) as [->|Hne]; cbn.
  - by rewrite Z.ltb_irrefl.
  - destruct (Z.ltb_spec oa ob), (Z.ltb_spec ob oa); cbn; try done; lia.
Qed.

Lemma cmp_Compare_spec a b :
  (cmp_Compare a b = -1 ∧ a < b) ∨ (cmp_Compare a b = 0 ∧ a = b) ∨ (cmp_Compare a b = 1 ∧ b < a).
Proof. unfold cmp_Compare. destruct (Z.ltb_spec a b), (Z.ltb_spec b a); lia. Qed.

Lemma key_compare_le a b :
  key_compare a b <= 0 ↔
  a.1.1 < b.1.1 ∨ a.1.1 = b.1.1 ∧ (a.1.2 < b.1.2 ∨ a.1.2 = b.1.2 ∧ a.2 <= b.2).
Proof.
  destruct a as [[a1 a2] a3], b as [[b1 b2] b3]. unfold key_compare. cbn [fst snd].
  destruct (cmp_Compare_spec a1 b1) as [[-> ?]|[[-> ?]|[-> ?]]]; cbn; [lia| |lia].
  destruct (cmp_Compare_spec a2 b2) as [[-> ?]|[[-> ?]|[-> ?]]]; cbn; [lia| |lia].
  destruct (cmp_Compare_spec a3 b3) as [[-> ?]|[[-> ?]|[-> ?]]]; lia.
Qed.

Lemma key_compare_sym a b : key_compare b a = - key_compare a b.
Proof.
  destruct a as [[a1 a2] a3], b as [[b1 b2] b3]. unfold key_compare.
  assert (∀ x y, cmp_Compare y x = - cmp_Compare x y) as Hs.
  { intros x y. destruct (cmp_Compare_spec x y), (cmp_Compare_spec y x); lia. }
  rewrite (Hs a1 b1), (Hs a2 b2), (Hs a3 b3).
  by destruct (cmp_Compare_spec a1 b1) as [[-> _]|[[-> _]|[-> _]]],
    (cmp_Compare_spec a2 b2) as [[-> _]|[[-> _]|[-> _]]].
Qed.

Lemma key_compare_trans a b c : key_compare a b <= 0 → key_compare b c <= 0 → key_compare a c <= 0.
Proof. rewrite !key_compare_le. lia. Qed.

Lemma key_compare_total a b : key_compare a b <= 0 ∨ key_compare b a < 0.
Proof. rewrite (key_compare_sym a b). lia. Qed.

Lemma key_compare_refl a : key_compare a a = 0.
Proof. destruct a as [[a1 a2] a3]. unfold key_compare, cmp_Compare. by rewrite !Z.ltb_irrefl. Qed.

(** [BestEndpoint] over well-formed links: it never fails, it returns nothing exactly
    when no link is active, and otherwise an active link that none of the active links
    beats. *)
Lemma BestEndpoint_spec Eps :
  Forall ep_wf Eps →
  ∃ best, Neighbour_BestEndpoint now Eps = Some best ∧
  match best with
  | None => Forall (λ u, isActive now u = false) Eps
  | Some b => b ∈ Eps ∧ isActive now b = true ∧
      ∀ u, u ∈ Eps → isActive now u = true → key_compare (link_key b) (link_key u) <= 0
  end.
Proof.
  unfold Neighbour_BestEndpoint. induction Eps as [|u l IH] using rev_ind; intros Hwf.
  { exists None. split; [done|constructor]. }
  apply Forall_app in Hwf as [Hwf Hu]. rewrite Forall_singleton in Hu.
  destruct (IH Hwf) as (best & Hb & Hspec). rewrite foldl_snoc, Hb. unfold best_step. cbn.
  destruct (isActive now u) eqn:Au; cbn [negb].
  2: { exists best. split; [done|]. destruct best as [b|].
       - destruct Hspec as (Hin & Hact & Hmin). split; [apply elem_of_app; by left|]. split; [done|].
         intros v [Hv|Hv%list_elem_of_singleton]%elem_of_app Av; [by apply Hmin|subst; congruence].
       - apply Forall_app. split; [done|]. by apply Forall_singleton. }
  destruct best as [b|].
  2: { exists (Some u). split; [done|]. split; [apply elem_of_app; right; by left|]. split; [done|].
       intros v [Hv|Hv%list_elem_of_singleton]%elem_of_app Av.
       - rewrite Forall_forall in Hspec. rewrite (Hspec v Hv) in Av. done.
       - subst. by rewrite key_compare_refl. }
  destruct Hspec as (Hin & Hact & Hmin).
  assert (ep_wf b) as Hbwf by (rewrite Forall_forall in Hwf; auto).
  rewrite CompareEndpoints_key by done. cbn. eexists. split; [done|].
  destruct (Z.ltb_spec (key_compare (link_key u) (link_key b)) 0) as [Hlt|Hge]; cbn.
  - split; [apply elem_of_app; right; by left|]. split; [done|].
    intros v [Hv|Hv%list_elem_of_singleton]%elem_of_app Av.
    + eapply key_compare_trans; [|by apply Hmin]. lia.
    + subst. by rewrite key_compare_refl.
  - split; [apply elem_of_app; by left|]. split; [done|].
    intros v [Hv|Hv%list_elem_of_singleton]%elem_of_app Av; [by apply Hmin|]. subst.
    destruct (key_compare_total (link_key b) (link_key u)); [done|lia].
Qed.

Lemma cost_fold_total Eps : Forall ep_wf Eps → ∀ st,
  ∃ st', foldl (cost_step now) (Some st) Eps = Some st' ∧
    (∀ u x, cs_out st' = Some (u, x) → cs_out st = Some (u, x) ∨ u ∈ Eps) ∧
    (∀ u x, cs_in st' = Some (u, x) → cs_in st = Some (u, x) ∨ u ∈ Eps) ∧
    (cs_haveActive st' = true ↔ cs_haveActive st = true ∨ ∃ u, u ∈ Eps ∧ isActive now u = true).
Proof.
  induction 1 as [|u l Hu Hl IH]; intros st; cbn [foldl].
  { exists st. split; [done|]. split; [auto|]. split; [auto|]. split; [auto|].
    intros [?|(? & ?%not_elem_of_nil & _)]; done. }
  unfold cost_step at 2. cbn. destruct (isActive now u) eqn:Au; cbn [negb].
  2: { destruct (IH st) as (st' & Hst & Ho & Hi & Ha). exists st'. split; [done|].
       split; [intros v x Hv; destruct (Ho v x Hv); [by left|right; by right]|].
       split; [intros v x Hv; destruct (Hi v x Hv); [by left|right; by right]|].
       rewrite Ha. split; (intros [?|(v & Hv & Av)]; [by left|right]); [exists v; split; [by right|done]|].
       exists v. split; [|done]. apply elem_of_cons in Hv as [->|?]; [congruence|done]. }
  destruct (dirScores_total u Hu) as [r ->]. cbn.
  match goal with |- context [foldl _ (Some ?x) l] => set (st1 := x) end.
  assert ((∀ v x, cs_out st1 = Some (v, x) → cs_out st = Some (v, x) ∨ v = u) ∧
          (∀ v x, cs_in st1 = Some (v, x) → cs_in st = Some (v, x) ∨ v = u) ∧ cs_haveActive st1 = true)
    as (Ho1 & Hi1 & Ha1).
  { subst st1. destruct r as [[o i]|]; cbn; [|by auto].
    split; [|split; [|done]]; intros v x Hv; repeat case_hyp Hv; simplify_eq; auto. }
  destruct (IH st1) as (st' & Hst & Ho & Hi & Ha). exists st'. split; [done|].
  split; [intros v x Hv; destruct (Ho v x Hv) as [H1|?]; [destruct (Ho1 v x H1) as [?| ->]; [by left|right; by left]|right; by right]|].
  split; [intros v x Hv; destruct (Hi v x Hv) as [H1|?]; [destruct (Hi1 v x H1) as [?| ->]; [by left|right; by left]|right; by right]|].
  rewrite Ha. split; [|by left]. intros _. right. exists u. split; [by left|done].
Qed.

Lemma effectiveMetric_range u m : effectiveEndpointMetric now u = Some m → is_metric m.
Proof. unfold effectiveEndpointMetric. intros (x & _ & H)%bind_Some. injection H as <-. apply addMetricCost_range. Qed.

(** [LinkCost] over well-formed links: it never fails, and it is infinite when no link
    is active. *)
Lemma LinkCost_spec Eps :
  Forall ep_wf Eps →
  ∃ c, Neighbour_LinkCost now Eps = Some c ∧ is_metric c ∧
    (Forall (λ u, isActive now u = false) Eps → c = INF).
Proof.
  intros Hwf. unfold Neighbour_LinkCost.
  destruct (cost_fold_total Eps Hwf (mkCostScan None None false)) as (st & Hst & Ho & Hi & Ha).
  rewrite Hst. cbn. destruct (cs_haveActive st) eqn:Eh; cbn [negb].
  2: { exists INF. split; [done|]. split; [apply INF_metric|done]. }
  assert (∃ u, u ∈ Eps ∧ isActive now u = true) as (a & Hain & Aa) by (by destruct (proj1 Ha eq_refl)).
  assert (¬ Forall (λ u, isActive now u = false) Eps) as Hno.
  { rewrite Forall_forall. intros H. rewrite (H a Hain) in Aa. done. }
  assert (∀ r : option Z, (∀ c, r = Some c → is_metric c) → is_Some r →
    ∃ c, r = Some c ∧ is_metric c ∧ (Forall (λ u, isActive now u = false) Eps → c = INF)) as Hfin.
  { intros r Hr [c ->]. exists c. split; [done|]. split; [by apply Hr|done]. }
  assert (∃ c, (best ← Neighbour_BestEndpoint now Eps;
    match best with Some b => effectiveEndpointMetric now b | None => Some INF end) = Some c ∧ is_metric c ∧
    (Forall (λ u, isActive now u = false) Eps → c = INF)) as Hfall.
  { apply Hfin; destruct (BestEndpoint_spec Eps Hwf) as (best & Hb & Hspec); rewrite Hb; cbn.
    - intros c. destruct best; [apply effectiveMetric_range|intros [= <-]; apply INF_metric].
    - destruct best as [b|]; [|done]. apply effectiveMetric_total. destruct Hspec as (Hin & _).
      rewrite Forall_forall in Hwf. auto. }
  destruct (cs_out st) as [[uo xo]|] eqn:Eo; [|done]. destruct (cs_in st) as [[ui xi]|] eqn:Ei; [|done].
  destruct (Ho uo xo eq_refl) as [?|Huo]; [done|]. destruct (Hi ui xi eq_refl) as [?|Hui]; [done|].
  rewrite Forall_forall in Hwf.
  destruct (rel_delays_total uo (Hwf uo Huo)) as [ro ->]. destruct (rel_delays_total ui (Hwf ui Hui)) as [ri ->]. cbn.
  apply Hfin; [|by eexists]. intros c [= <-]. apply addMetricCost_range.
Qed.

End selection.

(** ** The link layer of the routing algorithm *)

#[export] Instance RouterTunables_eq_dec : EqDecision RouterTunables.
Proof. solve_decision. Defined.

#[export] Instance delayFilter_eq_dec : EqDecision delayFilter.
Proof. solve_decision. Defined.

#[export] Instance NylonEndpoint_eq_dec : EqDecision NylonEndpoint.
Proof. solve_decision. Defined.

(** What the scan for the best link keeps: every link so far is inactive, or the best one
    is active. *)
Lemma Neighbour_BestEndpoint_cases now Eps :
  match Neighbour_BestEndpoint now Eps with
  | Some None => Forall (λ u, isActive now u = false) Eps
  | Some (Some b) => isActive now b = true ∧ b ∈ Eps
  | None => ∃ u, u ∈ Eps ∧ isActive now u = true
  end.
Proof.
  unfold Neighbour_BestEndpoint. induction Eps as [|u l IH] using rev_ind; [constructor|].
  rewrite foldl_snoc. unfold best_step at 1. destruct (foldl _ _ l) as [best|]; cbn [mbind option_bind].
  2: { destruct IH as (v & Hv & Av). exists v. split; [apply elem_of_app; by left|done]. }
  destruct (isActive now u) eqn:Au; cbn [negb].
  2: { destruct best as [b|].
       - destruct IH as [? ?]. split; [done|]. apply elem_of_app. by left.
       - apply Forall_app. split; [done|]. by apply Forall_singleton. }
  destruct best as [b|].
  - destruct (CompareEndpoints now u b) as [c|]; cbn [mbind option_bind].
    + destruct IH as [? ?]. destruct (c <? 0); (split; [done|]); apply elem_of_app; [right; by left|by left].
    + exists u. split; [apply elem_of_app; right; by left|done].
  - split; [done|]. apply elem_of_app. right. by left.
Qed.

Lemma Neighbour_LinkCost_range now Eps c : Neighbour_LinkCost now Eps = Some c → is_metric c.
Proof.
  unfold Neighbour_LinkCost. intros (st & _ & H)%bind_Some. case_hyp H; [simplify_eq; apply INF_metric|].
  assert ((best ← Neighbour_BestEndpoint now Eps;
    match best with None => Some INF | Some b => effectiveEndpointMetric now b end) = Some c → is_metric c) as Hfall.
  { intros (best & _ & Hb)%bind_Some. destruct best; [by eapply effectiveMetric_range|]. simplify_eq. apply INF_metric. }
  destruct (cs_out st) as [[uo xo]|]; [|by apply Hfall]. destruct (cs_in st) as [[ui xi]|]; [|by apply Hfall].
  apply bind_Some in H as (ro & _ & H). apply bind_Some in H as (ri & _ & H). simplify_eq. apply addMetricCost_range.
Qed.

(** The links as the routing algorithm sees them.  On links in a well-formed state these
    are [BestEndpoint] and [LinkCost], which then never panic, see [nylon_links_faithful];
    elsewhere the first active link stands for the panic. *)
#[export] Instance nylon_links : LinkLayer NylonEndpoint := {|
  BestEndpoint := λ now eps,
    match Neighbour_BestEndpoint now eps with
    | Some best => best
    | None => snd <$> list_find (λ u, isActive now u = true) eps
    end;
  LinkCost := λ now eps, default INF (Neighbour_LinkCost now eps);
  ep_IsActive := isActive;
|}.

Lemma nylon_links_faithful now Eps : Forall ep_wf Eps →
  Neighbour_BestEndpoint now Eps = Some (BestEndpoint now Eps) ∧ Neighbour_LinkCost now Eps = Some (LinkCost now Eps).
Proof.
  intros Hwf. cbn. destruct (BestEndpoint_spec now Eps Hwf) as (best & -> & _).
  by destruct (LinkCost_spec now Eps Hwf) as (c & -> & _).
Qed.

#[export] Instance nylon_links_laws : LinkLayerLaws NylonEndpoint.
Proof.
  split.
  - intros now eps. cbn. destruct (Neighbour_LinkCost now eps) as [c|] eqn:E; [by eapply Neighbour_LinkCost_range|apply INF_metric].
  - intros now eps e. cbn. pose proof (Neighbour_BestEndpoint_cases now eps) as H.
    destruct (Neighbour_BestEndpoint now eps) as [best|].
    + intros ->. by destruct H.
    + intros ([i u] & Hf & [= ->])%fmap_Some. by apply list_find_Some in Hf as (_ & Hu & _).
  - intros now eps. cbn. pose proof (Neighbour_BestEndpoint_cases now eps) as H. rewrite Forall_forall.
    destruct (Neighbour_BestEndpoint now eps) as [[b|]|].
    + destruct H as [Ha Hin]. split; [done|]. intros Hall. by rewrite (Hall b Hin) in Ha.
    + rewrite Forall_forall in H. done.
    + destruct H as (u & Hu & Au). rewrite fmap_None, list_find_None, Forall_forall. split.
      * intros Hn v Hv. apply not_true_is_false, Hn, Hv.
      * intros Hall. by rewrite (Hall u Hu) in Au.
Qed.

(** ** Properties *)

Lemma default_window : window_ok DefaultRouterTunables.
Proof. apply window_okb_ok. by vm_compute. Qed.

(** with the default tunables no sequence of link events makes a delay filter read
    outside its window: every state a link reaches from its creation is well formed, its
    delays can be read, and the read value is never outside the trimmed range. *)
Theorem link_never_panics dyn ri wg id u :
  rtc ep_step (NewEndpoint dyn ri wg DefaultRouterTunables id) u →
  ep_wf u ∧ is_Some (RelDelays u) ∧
  (filter_ready (ep_owdOut u) (ep_t u) = true →
   ∃ f' v low high, filter_stabilized (ep_owdOut u) (ep_t u) = Some (f', v) ∧
     slice_at (slices_Sort (df_history (ep_owdOut u)))
       (low_index (Z.of_nat (length (df_history (ep_owdOut u)))) (ep_t u)) = Some low ∧
     slice_at (slices_Sort (df_history (ep_owdOut u)))
       (high_index (Z.of_nat (length (df_history (ep_owdOut u)))) (ep_t u)) = Some high ∧
     low <= v <= high).
Proof.
  intros Hr. assert (ep_wf u) as Hwf.
  { pose proof (NewEndpoint_wf dyn ri wg _ id default_window) as Hinit.
    induction Hr as [|x y z Hs _ IH]; [done|]. apply IH. by eapply ep_step_wf. }
  split; [done|]. split.
  - destruct (RelDelays_wf u Hwf) as (u' & r & H & _). by eexists.
  - intros Hready.
    destruct (filter_stabilized_spec (ep_t u) (ep_owdOut u)) as (f' & v & low & high & H1 & _ & _ & H2 & H3 & H4);
      [apply Hwf..|done|]. by exists f', v, low, high.
Qed.

(** asking for the delays of a link does not change what asking again answers, so
    within one routing decision all comparisons of links see the same delays. *)
Theorem reading_delays_is_stable u u' r :
  RelDelays u = Some (u', r) →
  RelDelays u' = Some (u', r) ∧ rel_delays u' = rel_delays u ∧ dirScores u' = dirScores u ∧
  outboundScore u' = outboundScore u ∧ ∀ now, ep_Metric now u' = ep_Metric now u.
Proof.
  intros H. pose proof (RelDelays_again u u' r H) as H'.
  assert (rel_delays u' = rel_delays u) as Hrel by (unfold rel_delays; by rewrite H, H').
  assert (∃ fo fi, u' = set_owdIn (set_owdOut u fo) fi) as (fo & fi & ->).
  { unfold RelDelays in H. destruct (_ || _); [injection H as <- _; eexists _, _; by rewrite set_owds_same|].
    apply bind_Some in H as ([fo o] & _ & H). apply bind_Some in H as ([fi i] & _ & H). injection H as <- _. eauto. }
  assert (dirScores (set_owdIn (set_owdOut u fo) fi) = dirScores u) as Hdir by (unfold dirScores; by rewrite Hrel).
  split; [done|]. split; [done|]. split; [done|]. split.
  - unfold outboundScore. by rewrite Hdir.
  - intros now. unfold ep_Metric, StabilizedPing. by rewrite Hrel.
Qed.

(** the link used to reach a neighbour: there is one exactly when some link is
    active, it is active itself, and no active link compares better. *)
Theorem best_endpoint_optimal now Eps :
  Forall ep_wf Eps →
  ∃ best, Neighbour_BestEndpoint now Eps = Some best ∧
    (best = None ↔ Forall (λ u, isActive now u = false) Eps) ∧
    ∀ b, best = Some b → b ∈ Eps ∧ isActive now b = true ∧
      ∀ u, u ∈ Eps → isActive now u = true → ∃ c, CompareEndpoints now b u = Some c ∧ c <= 0.
Proof.
  intros Hwf. destruct (BestEndpoint_spec now Eps Hwf) as (best & Hb & Hspec). exists best. split; [done|].
  rewrite Forall_forall in Hwf. split.
  - destruct best as [b|]; [|done]. split; [done|]. rewrite Forall_forall. intros H.
    destruct Hspec as (Hin & Hact & _). rewrite (H b Hin) in Hact. done.
  - intros b ->. destruct Hspec as (Hin & Hact & Hmin). split; [done|]. split; [done|].
    intros u Hu Au. rewrite CompareEndpoints_key by auto. eexists. split; [done|]. by apply Hmin.
Qed.

(** probe accounting: an echo is accepted exactly when it answers a pending probe,
    each probe is answered at most once, an unsolicited echo changes nothing, and sweeping
    counts as lost exactly the probes that timed out and keeps the others in order. *)
Theorem probe_accounting u originTx peerRx nowNs :
  NoDup (ep_pending u) →
  ((ObserveEcho u originTx peerRx).2 = true ↔ originTx ∈ ep_pending u) ∧
  ((ObserveEcho u originTx peerRx).2 = false → (ObserveEcho u originTx peerRx).1 = u) ∧
  (∀ peerRx', (ObserveEcho (ObserveEcho u originTx peerRx).1 originTx peerRx').2 = false) ∧
  ep_pending (SweepProbes u nowNs) = filter (λ x, timed_out nowNs x = false) (ep_pending u) ∧
  ep_lossEWMA (SweepProbes u nowNs) =
    ep_lossEWMA (Nat.iter (length (filter (λ x, timed_out nowNs x = true) (ep_pending u)))
                   (λ v, recordLoss v false) u).
Proof.
  intros Hnd. rewrite SweepProbes_eq. split; [|split; [|split; [|done]]].
  - unfold ObserveEcho. destruct (slices_Index _ _) as [i|] eqn:E; cbn.
    + apply slices_Index_Some in E. split; [|done]. intros _. by eapply list_elem_of_lookup_2.
    + apply slices_Index_None in E. done.
  - unfold ObserveEcho. by destruct (slices_Index _ _).
  - intros peerRx'. rewrite ObserveEcho_ok, ObserveEcho_pending.
    destruct (slices_Index (ep_pending u) originTx) as [i|] eqn:E; [|by rewrite E].
    apply slices_Index_Some in E.
    assert (originTx ∉ delete i (ep_pending u)) as Hni.
    { intros (j & Hj)%list_elem_of_lookup. destruct (decide (j < i)%nat) as [Hlt|Hge].
      - rewrite list_lookup_delete_lt in Hj by done. pose proof (NoDup_lookup _ _ _ _ Hnd Hj E). lia.
      - rewrite list_lookup_delete_ge in Hj by lia. pose proof (NoDup_lookup _ _ _ _ Hnd Hj E). lia. }
    apply slices_Index_None in Hni. by rewrite Hni.
Qed.

(** the reported loss rate is a number between zero and the configured cap. *)
Theorem loss_rate_bounds u :
  is_nan (ep_lossEWMA u) = false → is_nan (LossCap (ep_t u)) = false → f64_leb f64_zero (LossCap (ep_t u)) = true →
  f64_leb f64_zero (LossRate u) = true ∧ f64_leb (LossRate u) (LossCap (ep_t u)) = true.
Proof.
  intros Hl Hc Hpos. unfold LossRate. case_goal; [done|].
  destruct (f64_ltb (ep_lossEWMA u) f64_zero) eqn:E1.
  - case_goal; [|done]. split; [done|by apply f64_leb_refl].
  - case_goal; [split; [done|by apply f64_leb_refl]|]. split; by apply f64_ltb_leb.
Qed.

(** ** Witnesses *)

Definition demo_link (n : nat) : NylonEndpoint :=
  Nat.iter n (λ u, (ObserveEcho (RegisterProbe (ObserveInbound u (ep_peerTx u + 1000) (ep_peerTx u + 21000)) 7) 7 30007).1)
    (Renew 100 (NewEndpoint (NewDynamicEndpoint "host:1") false None DefaultRouterTunables 1)).

Lemma demo_link_reach n : rtc ep_step (NewEndpoint (NewDynamicEndpoint "host:1") false None DefaultRouterTunables 1) (demo_link n).
Proof.
  apply rtc_nsteps. exists (S (n + (n + n)))%nat. unfold demo_link. induction n as [|n IH].
  { cbn. eapply nsteps_l; [apply (ep_renew _ 100)|apply nsteps_O]. }
  replace (S (S n + (S n + S n))) with (S (n + (n + n)) + 3)%nat by lia. eapply nsteps_trans; [exact IH|].
  cbn. eapply nsteps_l; [apply ep_inbound|]. eapply nsteps_l; [apply ep_register|].
  eapply nsteps_l; [apply ep_echo|apply nsteps_O].
Qed.

Lemma link_never_panics_witness :
  ep_wf (demo_link 20) ∧ is_Some (RelDelays (demo_link 20)).
Proof.
  destruct (link_never_panics (NewDynamicEndpoint "host:1") false None 1 (demo_link 20) (demo_link_reach 20)) as (H1 & H2 & _).
  split; [exact H1|exact H2].
Defined.

Lemma reading_delays_is_stable_witness :
  ∃ u' r, RelDelays (demo_link 20) = Some (u', Some r) ∧ RelDelays u' = Some (u', Some r).
Proof.
  destruct (RelDelays (demo_link 20)) as [[u' [r|]]|] eqn:E; [|by vm_compute in E..].
  exists u', r. split; [reflexivity|]. exact (proj1 (reading_delays_is_stable (demo_link 20) u' (Some r) E)).
Defined.

Lemma demo_link_wf n : ep_wf (demo_link n).
Proof.
  pose proof (demo_link_reach n) as Hr. revert Hr. generalize (demo_link n). intros u Hr.
  pose proof (NewEndpoint_wf (NewDynamicEndpoint "host:1") false None _ 1 default_window) as Hinit.
  induction Hr as [|x y z Hs _ IH]; [exact Hinit|]. apply IH. by eapply ep_step_wf.
Qed.

Lemma best_endpoint_optimal_witness :
  ∃ best, Neighbour_BestEndpoint 200 [demo_link 20; demo_link 1] = Some best ∧
    (best = None ↔ Forall (λ u, isActive 200 u = false) [demo_link 20; demo_link 1]).
Proof.
  assert (Forall ep_wf [demo_link 20; demo_link 1]) as Hwf.
  { apply Forall_cons; split; [apply demo_link_wf|]. apply Forall_cons; split; [apply demo_link_wf|constructor]. }
  destruct (best_endpoint_optimal 200 [demo_link 20; demo_link 1] Hwf) as (best & Hb & Hn & _).
  exists best. split; [exact Hb|exact Hn].
Defined.

Lemma probe_accounting_witness :
  (ObserveEcho (RegisterProbe (demo_link 1) 55) 55 80).2 = true ∧
  ∀ peerRx', (ObserveEcho (ObserveEcho (RegisterProbe (demo_link 1) 55) 55 80).1 55 peerRx').2 = false.
Proof.
  assert (ep_pending (RegisterProbe (demo_link 1) 55) = [55]) as Hp by by vm_compute.
  destruct (probe_accounting (RegisterProbe (demo_link 1) 55) 55 80 0) as (H1 & _ & H2 & _).
  - rewrite Hp. apply NoDup_singleton.
  - split; [|exact H2]. apply H1. rewrite Hp. by left.
Defined.

Lemma loss_rate_bounds_witness :
  f64_leb f64_zero (LossRate (Nat.iter 20 (λ v, recordLoss v false) (demo_link 1))) = true ∧
  f64_leb (LossRate (Nat.iter 20 (λ v, recordLoss v false) (demo_link 1))) (f64_lit 95 100) = true.
Proof. exact (loss_rate_bounds (Nat.iter 20 (λ v, recordLoss v false) (demo_link 1)) ltac:(by vm_compute) ltac:(by vm_compute) ltac:(by vm_compute)). Defined.
