(* ===== verification/RouterAlgo.v ===== *)
(** The Babel routing algorithm of [core/router_algo.go] and [NeighContainsFunc] of
    [core/router_utils.go].

    A Go function [f(s *RouterState, r Router, ...)] becomes a function from the
    state to the new state and the list of calls it makes on the [Router] interface,
    in order.  No method of the interface writes to the router state, so running the
    calls after the algorithm is the same as running them in between. *)

From S2P Require Import Prelude NetIP Float64 Metric Routing.

(** The [Event*] constants of [log/events.go]. *)
Inductive Event :=
| EventRouteInserted
| EventRouteUpdated
| EventRouteRetracted
| EventRouteExpired
| EventMajorRouteChange
| EventInconsistentState
| EventNoEndpointToNeigh
| EventSeqnoRequested.

(** A call on the [Router] interface, or of the [ExpiryFn] closure of an advertisement. *)
Inductive Act :=
| ActSendRouteUpdate (neigh : NodeId) (adv : PubRoute)
| ActSendAckRetract (neigh : NodeId) (prefix : Prefix)
| ActBroadcastSendRouteUpdate (adv : PubRoute)
| ActRequestSeqno (neigh : NodeId) (src : Source) (seqno hopCnt : Z)
| ActBroadcastRequestSeqno (src : Source) (seqno hopCnt : Z)
| ActTableInsertRoute (prefix : Prefix) (route : SelRoute)
| ActTableDeleteRoute (prefix : Prefix)
| ActRouterEvent (event : Event)
| ActExpiryFn (h : HealthRef).

(** A route [ComputeRoutes] considers, with the smoothed metric of its announcement. *)
Record candidate := mkCandidate { cand_route : SelRoute; cand_smoothed : f64 }.

Definition set_pub_metric (p : PubRoute) (m : Z) : PubRoute :=
  mkPubRoute (pr_Source p) (mkFD (fd_Seqno (pr_FD p)) m).

Definition set_sr_metric (r : SelRoute) (m : Z) : SelRoute :=
  mkSelRoute (set_pub_metric (sr_Pub r) m) (sr_Nh r) (sr_ExpireAt r) (sr_RetractedBy r).

Definition smoothMetric (prev : f64) (sample : Z) (alpha : f64) : f64 :=
  let s := f64_of_Z sample in
  if f64_eqb prev f64_zero then s
  else f64_add (f64_mul alpha s) (f64_mul (f64_sub f64_one alpha) prev).

Definition IsStrictlyBetter (curRoute newRoute : SelRoute) : bool :=
  sr_Metric newRoute <? sr_Metric curRoute.

Definition sameRoute (a b : SelRoute) : bool :=
  bool_decide (sr_Nh a = sr_Nh b) && bool_decide (sr_Source a = sr_Source b).

Section algo.
Context {Ep : Type} `{LL : LinkLayer Ep} `{MR : MapRange}.
Implicit Types s : RouterState Ep.

Abbreviation State := (RouterState Ep).

(** ** Feasibility *)

Definition updateFeasibility (router : State) (advRoute : PubRoute) : State :=
  let src := pr_Source advRoute in
  match rs_Sources router !! src with
  | None => set_Sources router (<[src := pr_FD advRoute]> (rs_Sources router))
  | Some srcInfo =>
      let srcInfo' :=
        if SeqnoLt (fd_Seqno srcInfo) (pr_Seqno advRoute)
        then mkFD (pr_Seqno advRoute) (pr_Metric advRoute)
        else if (fd_Seqno srcInfo =? pr_Seqno advRoute) && (pr_Metric advRoute <? fd_Metric srcInfo)
        then mkFD (fd_Seqno srcInfo) (pr_Metric advRoute)
        else srcInfo in
      set_Sources router (<[src := srcInfo']> (rs_Sources router))
  end.

Definition checkFeasibility (router : State) (advRoute : PubRoute) : bool :=
  match rs_Sources router !! pr_Source advRoute with
  | None => true
  | Some srcInfo =>
      if SeqnoLt (fd_Seqno srcInfo) (pr_Seqno advRoute) || (pr_Metric advRoute =? INF) then true
      else (fd_Seqno srcInfo =? pr_Seqno advRoute) && (pr_Metric advRoute <? fd_Metric srcInfo)
  end.

(** ** Full updates *)

Definition full_update_body (send : PubRoute → Act) (st : State * list Act) (e : Prefix * SelRoute)
    : State * list Act :=
  let '(s, out) := st in
  let route := sr_Pub (snd e) in
  (if pr_Metric route =? INF then s else updateFeasibility s route, out ++ [send route]).

Definition FullTableUpdate (s : State) : State * list Act :=
  foldl (full_update_body ActBroadcastSendRouteUpdate) (s, []) (map_range (rs_Routes s)).

Definition PushFullTable (s : State) (neigh : NodeId) : State * list Act :=
  foldl (full_update_body (ActSendRouteUpdate neigh)) (s, []) (map_range (rs_Routes s)).

(** ** Retraction *)

Definition retract (s : State) (prefix : Prefix) : list Act :=
  match rs_Routes s !! prefix with
  | None => [ActRouterEvent EventInconsistentState]
  | Some tblEntry => [ActBroadcastSendRouteUpdate (set_pub_metric (sr_Pub tblEntry) INF)]
  end.

Definition isHeldRoute (s : State) (route : SelRoute) (connectedNeighs : Z) (hasLink : bool) (now : Z) : bool :=
  if bool_decide (sr_Nh route = rs_Id s) then false
  else if negb (sr_Metric route =? INF) && hasLink then false
  else (Z.of_nat (length (sr_RetractedBy route)) <? connectedNeighs) && After (sr_ExpireAt route) now.

(** ** Route computation *)

(** The endpoint each neighbour would be reached on, and how many have one. *)
Definition best_endpoint_step (now : Z) (st : gmap NodeId (option Ep) * Z) (neigh : Neighbour Ep)
    : gmap NodeId (option Ep) * Z :=
  let best := BestEndpoint now (n_Eps neigh) in
  (<[n_Id neigh := best]> st.1, match best with Some _ => st.2 + 1 | None => st.2 end).

Definition best_endpoints (now : Z) (s : State) : gmap NodeId (option Ep) * Z :=
  foldl (best_endpoint_step now) (∅, 0) (rs_Neighbours s).

(** [bestEndpoints[id] != nil]. *)
Definition has_link (bestEndpoints : gmap NodeId (option Ep)) (id : NodeId) : bool :=
  match bestEndpoints !! id with Some (Some _) => true | _ => false end.

(** Re-introduce held routes. *)
Definition held_routes (now : Z) (s : State) (bestEndpoints : gmap NodeId (option Ep)) (connectedNeighs : Z)
    : gmap Prefix SelRoute :=
  foldl (λ newTable e, let '(prefix, route) := e in
      if isHeldRoute s route connectedNeighs (has_link bestEndpoints (sr_Nh route)) now
      then <[prefix := set_sr_metric route INF]> newTable
      else newTable)
    ∅ (map_range (rs_Routes s)).

(** The metric an advertisement is announced with. *)
Definition adv_metric (e : Env) (adv : Advertisement) : Z :=
  if adv_IsPassiveHold adv then INFM / 2
  else match adv_MetricFn adv with Some h => env_metric e h | None => 0 end.

(** The table entry of one of our own prefixes. *)
Definition advertised_route (e : Env) (s : State) (prefix : Prefix) (adv : Advertisement) : SelRoute :=
  {| sr_Pub := mkPubRoute (mkSource (rs_Id s) prefix) (mkFD (GetSeqno s prefix) (adv_metric e adv));
     sr_Nh := adv_NodeId adv;
     sr_ExpireAt := Z.min (env_now e + RouteExpiryTime (rs_tun s)) (adv_Expiry adv);
     sr_RetractedBy := [] |}.

Definition add_advertised (e : Env) (s : State) (newTable : gmap Prefix SelRoute) : gmap Prefix SelRoute :=
  foldl (λ t x, <[x.1 := advertised_route e s x.1 x.2]> t) newTable (map_range (rs_Advertised s)).

(** Cost(A, B): what reaching a neighbour adds to the metrics it announces. *)
Definition neigh_cost (now : Z) (s : State) (bestEndpoints : gmap NodeId (option Ep)) (neigh : Neighbour Ep) : Z :=
  if has_link bestEndpoints (n_Id neigh)
  then AddMetric (AddMetric (LinkCost now (n_Eps neigh)) (HopCost (rs_tun s))) (TransitCost (rs_tun s))
  else INF.

Record scan := mkScan {
  sc_routes : gmap Prefix NeighRoute;
  sc_best : gmap Prefix candidate;
  sc_sel : gmap Prefix candidate;
}.

(** The body of the loop over the announcements of one neighbour. *)
Definition scan_route (s : State) (id : NodeId) (CAB : Z) (st : scan) (e : Prefix * NeighRoute) : scan :=
  let '(prefix, adv) := e in
  let totalCost := AddMetric CAB (nr_Metric adv) in
  if totalCost =? INF then st
  else if negb (checkFeasibility s (nr_Pub adv)) then st
  else
    let nr := default adv (sc_routes st !! prefix) in
    let smoothed := smoothMetric (nr_SmoothedMetric nr) totalCost (MetricSmoothingAlpha (rs_tun s)) in
    let newRoute := {|
      sr_Pub := mkPubRoute (pr_Source (nr_Pub adv)) (mkFD (pr_Seqno (nr_Pub adv)) totalCost);
      sr_Nh := id;
      sr_ExpireAt := nr_ExpireAt adv;
      sr_RetractedBy := [] |} in
    let cand := mkCandidate newRoute smoothed in
    {| sc_routes := <[prefix := mkNeighRoute (nr_Pub nr) (nr_ExpireAt nr) smoothed]> (sc_routes st);
       sc_best :=
         match sc_best st !! prefix with
         | Some cur => if sr_Metric newRoute <? sr_Metric (cand_route cur)
                       then <[prefix := cand]> (sc_best st) else sc_best st
         | None => <[prefix := cand]> (sc_best st)
         end;
       sc_sel :=
         match rs_Routes s !! prefix with
         | Some prev => if bool_decide (sr_Nh prev = id) && bool_decide (sr_Source prev = pr_Source (nr_Pub adv))
                        then <[prefix := cand]> (sc_sel st) else sc_sel st
         | None => sc_sel st
         end |}.

Record scan_acc := mkScanAcc {
  sa_neighs : list (Neighbour Ep);
  sa_best : gmap Prefix candidate;
  sa_sel : gmap Prefix candidate;
  sa_out : list Act;
}.

(** The body of the loop over the neighbours. *)
Definition scan_neigh (now : Z) (s : State) (bestEndpoints : gmap NodeId (option Ep)) (st : scan_acc)
    (neigh : Neighbour Ep) : scan_acc :=
  let out := if has_link bestEndpoints (n_Id neigh) then sa_out st
             else sa_out st ++ [ActRouterEvent EventNoEndpointToNeigh] in
  let CAB := neigh_cost now s bestEndpoints neigh in
  let r := foldl (scan_route s (n_Id neigh) CAB)
             (mkScan (n_Routes neigh) (sa_best st) (sa_sel st)) (map_range (n_Routes neigh)) in
  mkScanAcc (sa_neighs st ++ [set_n_Routes neigh (sc_routes r)]) (sc_best r) (sc_sel r) out.

Definition scan_all (now : Z) (s : State) (bestEndpoints : gmap NodeId (option Ep)) : scan_acc :=
  foldl (scan_neigh now s bestEndpoints) (mkScanAcc [] ∅ ∅ []) (rs_Neighbours s).

(** The route in use for a prefix, with the smoothed metric to compare against. *)
Definition current_route (sel : gmap Prefix candidate) (newTable : gmap Prefix SelRoute) (prefix : Prefix)
    : option (SelRoute * f64) :=
  match newTable !! prefix with
  | Some incumbent =>
      Some (incumbent,
        match sel !! prefix with
        | Some c => if sameRoute incumbent (cand_route c) then cand_smoothed c
                    else f64_of_Z (sr_Metric incumbent)
        | None => f64_of_Z (sr_Metric incumbent)
        end)
  | None =>
      match sel !! prefix with
      | Some c => Some (cand_route c, cand_smoothed c)
      | None => None
      end
  end.

(** The [switch] of the selection loop. *)
Definition choose_route (best : candidate) (cur : option (SelRoute * f64)) : SelRoute :=
  match cur with
  | None => cand_route best
  | Some (c, curSmoothed) =>
      if sameRoute (cand_route best) c then cand_route best
      else if (sr_Metric (cand_route best) <? sr_Metric c) && f64_ltb (cand_smoothed best) curSmoothed
      then cand_route best
      else c
  end.

Definition select_routes (best sel : gmap Prefix candidate) (newTable : gmap Prefix SelRoute)
    : gmap Prefix SelRoute :=
  foldl (λ t x, <[x.1 := choose_route x.2 (current_route sel t x.1)]> t) newTable (map_range best).

(** Whether a change to the table entry of a prefix is announced at once. *)
Definition major_change (s : State) (oldRoute : option SelRoute) (newRoute : SelRoute) : bool :=
  match oldRoute with
  | None => true
  | Some old =>
      negb (bool_decide (src_NodeId (sr_Source old) = src_NodeId (sr_Source newRoute)))
      || negb (sr_Seqno old =? sr_Seqno newRoute)
      || ((LargeChangeThreshold (rs_tun s) <? abs (sr_Metric newRoute - sr_Metric old))
          && negb (sr_Metric newRoute =? INF))
  end.

Definition table_acts (oldRoute : option SelRoute) (prefix : Prefix) (newRoute : SelRoute) : list Act :=
  let inserted := [ActTableInsertRoute prefix newRoute; ActRouterEvent EventRouteInserted] in
  match oldRoute with
  | None => inserted
  | Some old =>
      if (sr_Metric old =? INF) && negb (sr_Metric newRoute =? INF) then inserted
      else if negb (bool_decide (sr_Nh old = sr_Nh newRoute))
      then [ActTableInsertRoute prefix newRoute; ActRouterEvent EventRouteUpdated]
      else []
  end.

(** The body of the loop that compares the new table with the old one. *)
Definition publish_one (st : State * list Act) (x : Prefix * SelRoute) : State * list Act :=
  let '(s, out) := st in
  let '(prefix, newRoute) := x in
  let oldRoute := rs_Routes s !! prefix in
  let out := out ++ table_acts oldRoute prefix newRoute in
  if major_change s oldRoute newRoute
  then (updateFeasibility s (sr_Pub newRoute),
        out ++ [ActRouterEvent EventMajorRouteChange; ActBroadcastSendRouteUpdate (sr_Pub newRoute)])
  else (s, out).

(** What a lost route leaves in the table. *)
Definition blackhole (r : SelRoute) : SelRoute :=
  mkSelRoute (set_pub_metric (sr_Pub r) INF) (sr_Nh r) (sr_ExpireAt r) [].

(** The new table has no usable route for the prefix. *)
Definition unreachable (newTable : gmap Prefix SelRoute) (prefix : Prefix) : bool :=
  match newTable !! prefix with
  | None => true
  | Some route => sr_Metric route =? INF
  end.

(** The body of the loop that scans for retractions. *)
Definition retract_one (s : State) (st : gmap Prefix SelRoute * list Act) (x : Prefix * SelRoute)
    : gmap Prefix SelRoute * list Act :=
  let '(newTable, out) := st in
  let '(prefix, oldRoute) := x in
  if unreachable newTable prefix && negb (sr_Metric oldRoute =? INF)
  then (<[prefix := blackhole oldRoute]> newTable,
        out ++ retract s prefix ++
        [ActRouterEvent EventRouteRetracted; ActTableInsertRoute prefix (blackhole oldRoute);
         ActRouterEvent EventRouteUpdated])
  else (newTable, out).

(** The table before announcements and retractions. *)
Definition new_table (e : Env) (s : State) (bestEndpoints : gmap NodeId (option Ep)) (connectedNeighs : Z)
    (sc : scan_acc) : gmap Prefix SelRoute :=
  select_routes (sa_best sc) (sa_sel sc)
    (add_advertised e s (held_routes (env_now e) s bestEndpoints connectedNeighs)).

Definition ComputeRoutes (e : Env) (s : State) : State * list Act :=
  let '(bestEndpoints, connectedNeighs) := best_endpoints (env_now e) s in
  let sc := scan_all (env_now e) s bestEndpoints in
  let newTable := new_table e s bestEndpoints connectedNeighs sc in
  let s1 := set_Neighbours s (sa_neighs sc) in
  let '(s2, out2) := foldl publish_one (s1, sa_out sc) (map_range newTable) in
  let '(newTable', out3) := foldl (retract_one s2) (newTable, out2) (map_range (rs_Routes s2)) in
  (set_Routes s2 newTable', out3).

(** ** Garbage collection *)

(** Expiry of one announcement of a neighbour. *)
Definition expire_route (e : Env) (s : State) (st : gmap Prefix NeighRoute * list Act) (x : Prefix * NeighRoute)
    : gmap Prefix NeighRoute * list Act :=
  let '(routes, out) := st in
  let '(prefix, route) := x in
  if After (env_now e) (nr_ExpireAt route)
  then
    (if nr_Metric route =? INF then delete prefix routes
     else <[prefix := mkNeighRoute (set_pub_metric (nr_Pub route) INF)
                        (env_now e + RouteExpiryTime (rs_tun s)) (nr_SmoothedMetric route)]> routes,
     out ++ [ActRouterEvent EventRouteExpired])
  else (routes, out).

Definition expire_neigh (e : Env) (s : State) (st : list (Neighbour Ep) * list Act) (neigh : Neighbour Ep)
    : list (Neighbour Ep) * list Act :=
  let '(routes, out) := foldl (expire_route e s) (n_Routes neigh, st.2) (map_range (n_Routes neigh)) in
  (st.1 ++ [set_n_Routes neigh routes], out).

Definition expire_adv (e : Env) (st : gmap Prefix Advertisement * list Act) (x : Prefix * Advertisement)
    : gmap Prefix Advertisement * list Act :=
  if After (env_now e) (adv_Expiry x.2)
  then (delete x.1 st.1, st.2 ++ match adv_ExpiryFn x.2 with Some h => [ActExpiryFn h] | None => [] end)
  else st.

(** Some table still refers to the source. *)
Definition source_used (s : State) (src : Source) : bool :=
  existsb (λ neigh, match n_Routes neigh !! src_Prefix src with
                    | Some r => bool_decide (pr_Source (nr_Pub r) = src)
                    | None => false
                    end) (rs_Neighbours s)
  || match rs_Routes s !! src_Prefix src with
     | Some selRoute => bool_decide (sr_Source selRoute = src)
     | None => false
     end
  || match rs_Advertised s !! src_Prefix src with
     | Some adv => bool_decide (adv_NodeId adv = src_NodeId src)
     | None => false
     end.

Definition gc_sources (s : State) : State :=
  foldl (λ s x, if source_used s x.1 then s else set_Sources s (delete x.1 (rs_Sources s)))
    s (map_range (rs_Sources s)).

Definition RunGC (e : Env) (s : State) : State * list Act :=
  let '(neighs, out1) := foldl (expire_neigh e s) ([], []) (rs_Neighbours s) in
  let s1 := set_Neighbours s neighs in
  let '(advs, out2) := foldl (expire_adv e) (rs_Advertised s1, out1) (map_range (rs_Advertised s1)) in
  let s2 := set_Advertised s1 advs in
  let '(s3, out3) := ComputeRoutes e s2 in
  (gc_sources s3, out2 ++ out3).

(** ** Requests *)

(** The first announcement, over all neighbours, on which [f] returns true; [f]
    threads what its closure captures. *)
Fixpoint contains_in {A} (f : A → NodeId → NeighRoute → A * bool) (a : A) (id : NodeId)
    (l : list (Prefix * NeighRoute)) : A * bool :=
  match l with
  | [] => (a, false)
  | (_, r) :: l' => let '(a', b) := f a id r in if b then (a', true) else contains_in f a' id l'
  end.

Fixpoint neighs_contain {A} (f : A → NodeId → NeighRoute → A * bool) (a : A) (l : list (Neighbour Ep)) : A * bool :=
  match l with
  | [] => (a, false)
  | n :: l' => let '(a', b) := contains_in f a (n_Id n) (map_range (n_Routes n)) in
               if b then (a', true) else neighs_contain f a' l'
  end.

Definition NeighContainsFunc {A} (s : State) (f : A → NodeId → NeighRoute → A * bool) (a : A) : A * bool :=
  neighs_contain f a (rs_Neighbours s).

(** The two predicates with which [HandleSeqnoRequest] looks for a neighbour to
    forward to; they record the neighbour in the captured variable [nh]. *)
Definition forward_pred (now : Z) (s : State) (fromNeigh : NodeId) (src : Source) (feasibleOnly : bool)
    (nh : option NodeId) (neigh : NodeId) (route : NeighRoute) : option NodeId * bool :=
  let reachable := match GetNeighbour s neigh with
                   | None => false
                   | Some n => match BestEndpoint now (n_Eps n) with Some _ => true | None => false end
                   end in
  if negb reachable then (nh, false)
  else if bool_decide (src_Prefix src = pr_Prefix (nr_Pub route)) && negb (bool_decide (neigh = fromNeigh))
          && negb (nr_Metric route =? INF) && (negb feasibleOnly || checkFeasibility s (nr_Pub route))
  then (Some neigh, true)
  else (nh, false).

(** The neighbour a request is forwarded to: the next hop of a feasible route, or
    else of any route. *)
Definition forward_target (now : Z) (s : State) (fromNeigh : NodeId) (src : Source) : option NodeId :=
  let '(nh, found) :=
    let '(nh1, found1) := NeighContainsFunc s (forward_pred now s fromNeigh src true) None in
    if found1 then (nh1, true)
    else NeighContainsFunc s (forward_pred now s fromNeigh src false) nh1 in
  if found then nh else None.

(** The update sent when the selected route answers the request. *)
Definition answer_request (s : State) (fromNeigh : NodeId) (src : Source) (reqSeqno : Z) (selRoute : SelRoute)
    : State * list Act :=
  let sameId := bool_decide (src_NodeId (sr_Source selRoute) = src_NodeId src) in
  if negb (sr_Metric selRoute =? INF) && (negb sameId || sameId && SeqnoGe (sr_Seqno selRoute) reqSeqno)
  then (updateFeasibility s (sr_Pub selRoute), [ActSendRouteUpdate fromNeigh (sr_Pub selRoute)])
  else (s, []).

Definition HandleSeqnoRequest (e : Env) (s : State) (fromNeigh : NodeId) (src : Source) (reqSeqno hopCnt : Z)
    : State * list Act :=
  match rs_Routes s !! src_Prefix src with
  | None => (s, [])
  | Some selRoute =>
      let '(s1, out1) := answer_request s fromNeigh src reqSeqno selRoute in
      if bool_decide (src_NodeId (sr_Source selRoute) = src_NodeId src) && SeqnoGt reqSeqno (sr_Seqno selRoute) then
        if bool_decide (src_NodeId (sr_Source selRoute) = rs_Id s1) then
          let '(s2, out2) := ComputeRoutes e (SetSeqno s1 (pr_Prefix (sr_Pub selRoute)) reqSeqno) in
          (s2, out1 ++ out2)
        else if (2 <=? hopCnt) && bool_decide (is_Some (rs_Routes s1 !! src_Prefix src)) then
          match forward_target (env_now e) s1 fromNeigh src with
          | Some n => (s1, out1 ++ [ActRequestSeqno n src reqSeqno (uint8 (hopCnt - 1))])
          | None => (s1, out1)
          end
        else (s1, out1)
      else (s1, out1)
  end.

Definition HandleAckRetract (e : Env) (s : State) (neighId : NodeId) (prefix : Prefix) : State * list Act :=
  match rs_Routes s !! prefix with
  | None => (s, [ActRouterEvent EventInconsistentState])
  | Some rt =>
      if negb (sr_Metric rt =? INF) then (s, [])
      else if bool_decide (neighId ∈ sr_RetractedBy rt) then (s, [])
      else
        let rt' := mkSelRoute (sr_Pub rt) (sr_Nh rt) (sr_ExpireAt rt) (sr_RetractedBy rt ++ [neighId]) in
        ComputeRoutes e (set_Routes s (<[prefix := rt']> (rs_Routes s)))
  end.

(** [s.Sources[src].Seqno+1], the zero value standing in for a missing entry. *)
Definition next_seqno (s : State) (src : Source) : Z :=
  uint16 (match rs_Sources s !! src with Some f => fd_Seqno f | None => 0 end + 1).

(** Writing one announcement of a neighbour. *)
Definition put_route (s : State) (neighId : NodeId) (p : Prefix) (r : NeighRoute) : State :=
  put_neighbour s neighId (λ n, set_n_Routes n (<[p := r]> (n_Routes n))).

(** [None] is the nil dereference of an unknown neighbour. *)
Definition HandleNeighbourUpdate (e : Env) (s : State) (neighId : NodeId) (adv : PubRoute)
    : option (State * list Act) :=
  match GetNeighbour s neighId with
  | None => None
  | Some n =>
      let out0 := if pr_Metric adv =? INF then [ActSendAckRetract neighId (pr_Prefix adv)] else [] in
      let expiry := env_now e + RouteExpiryTime (rs_tun s) in
      match n_Routes n !! pr_Prefix adv with
      | None =>
          if negb (checkFeasibility s adv) then Some (s, out0)
          else if pr_Metric adv =? INF then Some (s, out0)
          else Some (put_route s neighId (pr_Prefix adv) (mkNeighRoute adv expiry f64_zero), out0)
      | Some nr =>
          let selRoute := rs_Routes s !! pr_Prefix adv in
          let isSelected := match selRoute with
                            | Some r => bool_decide (sr_Nh r = neighId) && bool_decide (sr_Source r = pr_Source adv)
                            | None => false
                            end in
          let request := ActRequestSeqno neighId (pr_Source adv) (next_seqno s (pr_Source adv))
                           (SeqnoRequestHopCount (rs_tun s)) in
          let store := put_route s neighId (pr_Prefix adv)
                         (mkNeighRoute adv (if pr_Metric adv =? INF then nr_ExpireAt nr else expiry)
                            (nr_SmoothedMetric nr)) in
          if checkFeasibility s adv then Some (store, out0)
          else
            let dummyMetric :=
              match BestEndpoint (env_now e) (n_Eps n) with
              | Some _ =>
                  AddMetric (pr_Metric adv)
                    (AddMetric (LinkCost (env_now e) (n_Eps n))
                       (AddMetric (HopCost (rs_tun s)) (TransitCost (rs_tun s))))
              | None => INF
              end in
            let dummy := mkSelRoute (set_pub_metric adv dummyMetric) neighId ZeroTime [] in
            let isMoreOptimal := match selRoute with Some r => IsStrictlyBetter r dummy | None => false end in
            if isSelected then Some (s, out0 ++ [request])
            else if isMoreOptimal then Some (store, out0 ++ [request])
            else Some (store, out0)
      end
  end.

(** ** Starvation *)

Definition starvation_scan (router : State) (acc : gmap Source bool) (e : Prefix * NeighRoute) : gmap Source bool :=
  let route := nr_Pub (snd e) in
  let cur := match acc !! pr_Source route with Some b => b | None => false end in
  let routeFeasible := negb (pr_Metric route =? INF) && checkFeasibility router route in
  <[pr_Source route := cur || routeFeasible]> acc.

Definition starvation_table (now : Z) (router : State) : gmap Source bool :=
  foldl (λ acc neigh,
      match BestEndpoint now (n_Eps neigh) with
      | None => acc
      | Some _ => foldl (starvation_scan router) acc (map_range (n_Routes neigh))
      end) ∅ (rs_Neighbours router).

Definition SolveStarvation (e : Env) (router : State) : list Act :=
  foldl (λ out x,
      let '(src, feasible) := x in
      if negb feasible && negb (bool_decide (src_NodeId src = rs_Id router))
      then out ++ [ActBroadcastRequestSeqno src (next_seqno router src) (SeqnoRequestHopCount (rs_tun router));
                   ActRouterEvent EventSeqnoRequested]
      else out) [] (map_range (starvation_table (env_now e) router)).

End algo.
