(* ===== verification/RouterFacts.v ===== *)
(** Lemmas about the loops of [ComputeRoutes]: each loop over a map is replaced by
    what it leaves at one key, so that the properties of the next files can reason
    one prefix at a time and never mention the iteration order. *)

From S2P Require Import Prelude NetIP Float64 Metric Routing RouterAlgo.

Section facts.
Context {Ep : Type} `{LL : LinkLayer Ep}.
Implicit Types s : RouterState Ep.

(** ** Feasibility *)

(** The feasibility distance after announcing [new]. *)
Definition fd_update (old : option FD) (new : FD) : FD :=
  match old with
  | None => new
  | Some f =>
      if SeqnoLt (fd_Seqno f) (fd_Seqno new) then new
      else if (fd_Seqno f =? fd_Seqno new) && (fd_Metric new <? fd_Metric f) then mkFD (fd_Seqno f) (fd_Metric new)
      else f
  end.

Lemma updateFeasibility_eq s r :
  updateFeasibility s r =
  set_Sources s (<[pr_Source r := fd_update (rs_Sources s !! pr_Source r) (pr_FD r)]> (rs_Sources s)).
Proof.
  unfold updateFeasibility, fd_update. destruct (rs_Sources s !! pr_Source r) as [f|]; [|done].
  destruct r as [src [q m]]. done.
Qed.

Lemma updateFeasibility_Sources s r :
  rs_Sources (updateFeasibility s r) =
  <[pr_Source r := fd_update (rs_Sources s !! pr_Source r) (pr_FD r)]> (rs_Sources s).
Proof. by rewrite updateFeasibility_eq. Qed.

Lemma updateFeasibility_frame s r :
  rs_tun (updateFeasibility s r) = rs_tun s ∧ rs_Id (updateFeasibility s r) = rs_Id s ∧
  rs_SelfSeqno (updateFeasibility s r) = rs_SelfSeqno s ∧ rs_Routes (updateFeasibility s r) = rs_Routes s ∧
  rs_Neighbours (updateFeasibility s r) = rs_Neighbours s ∧
  rs_Advertised (updateFeasibility s r) = rs_Advertised s.
Proof. by rewrite updateFeasibility_eq. Qed.

Lemma fd_update_wf old new :
  (∀ f, old = Some f → fd_wf f) → fd_wf new → fd_wf (fd_update old new).
Proof.
  intros Hold Hnew. destruct old as [f|]; [|done]. cbn. specialize (Hold f eq_refl).
  destruct Hold, Hnew. by repeat case_match.
Qed.

(** [f] is at least as good as [g]: more recent, or equally recent and no larger. *)
Definition fd_le (f g : FD) : Prop :=
  SeqnoLt (fd_Seqno g) (fd_Seqno f) = true ∨ (fd_Seqno f = fd_Seqno g ∧ fd_Metric f <= fd_Metric g).

(** [f] is strictly better than [g]. *)
Definition fd_lt (f g : FD) : Prop :=
  SeqnoLt (fd_Seqno g) (fd_Seqno f) = true ∨ (fd_Seqno f = fd_Seqno g ∧ fd_Metric f < fd_Metric g).

Lemma fd_le_refl f : fd_le f f.
Proof. right. split; lia. Qed.

Lemma fd_update_le_old f new : fd_le (fd_update (Some f) new) f.
Proof.
  unfold fd_update, fd_le. destruct (SeqnoLt (fd_Seqno f) (fd_Seqno new)) eqn:E1; [by left|].
  destruct ((fd_Seqno f =? fd_Seqno new) && (fd_Metric new <? fd_Metric f)) eqn:E2; to_prop; cbn; right; lia.
Qed.

Lemma checkFeasibility_spec s r :
  checkFeasibility s r = true ↔
  pr_Metric r = INF ∨ rs_Sources s !! pr_Source r = None ∨
  ∃ f, rs_Sources s !! pr_Source r = Some f ∧ fd_lt (pr_FD r) f.
Proof.
  unfold checkFeasibility, fd_lt. destruct (rs_Sources s !! pr_Source r) as [f|]; [|naive_solver].
  destruct (SeqnoLt (fd_Seqno f) (pr_Seqno r)) eqn:E1; cbn [orb]; [naive_solver|].
  destruct (pr_Metric r =? INF) eqn:E2; to_prop; [naive_solver|].
  rewrite andb_true_iff, Z.eqb_eq, Z.ltb_lt. split; [naive_solver|].
  intros [?|[?|(g & [= <-] & [?|?])]]; [done..|congruence|]. naive_solver.
Qed.

Lemma checkFeasibility_Sources s s' r :
  rs_Sources s !! pr_Source r = rs_Sources s' !! pr_Source r → checkFeasibility s r = checkFeasibility s' r.
Proof. unfold checkFeasibility. by intros ->. Qed.

(** ** Endpoints *)

Definition linked (now : Z) (n : Neighbour Ep) : bool :=
  match BestEndpoint now (n_Eps n) with Some _ => true | None => false end.

Definition count_linked (now : Z) (l : list (Neighbour Ep)) : Z :=
  Z.of_nat (length (filter (λ n, linked now n = true) l)).

Lemma best_endpoint_fold_count now l st :
  (foldl (best_endpoint_step now) st l).2 = st.2 + count_linked now l.
Proof.
  unfold count_linked. revert st. induction l as [|n l IH]; intros st; cbn [foldl]; [cbn; lia|].
  rewrite IH, filter_cons. unfold best_endpoint_step. cbn [fst snd].
  case_decide as Hl; unfold linked in Hl; destruct (BestEndpoint now (n_Eps n)); try done; cbn [length]; lia.
Qed.

Lemma best_endpoints_count now s : (best_endpoints now s).2 = count_linked now (rs_Neighbours s).
Proof. unfold best_endpoints. by rewrite best_endpoint_fold_count. Qed.

Lemma best_endpoint_fold_other now l st id :
  id ∉ (n_Id <$> l) → (foldl (best_endpoint_step now) st l).1 !! id = st.1 !! id.
Proof.
  revert st. induction l as [|n l IH]; intros st Hid; [done|]. cbn in *.
  apply not_elem_of_cons in Hid as [Hne Hid]. rewrite IH by done. cbn. by rewrite lookup_insert_ne.
Qed.

Lemma best_endpoints_lookup now s n :
  NoDup (n_Id <$> rs_Neighbours s) → n ∈ rs_Neighbours s →
  (best_endpoints now s).1 !! n_Id n = Some (BestEndpoint now (n_Eps n)).
Proof.
  unfold best_endpoints. generalize ((∅, 0) : gmap NodeId (option Ep) * Z) as st.
  induction (rs_Neighbours s) as [|n' l IH]; intros st Hnd Hin; [by apply not_elem_of_nil in Hin|].
  cbn in *. apply NoDup_cons in Hnd as [Hid Hnd]. apply elem_of_cons in Hin as [->|Hin]; [|by apply IH].
  rewrite best_endpoint_fold_other by done. cbn. by rewrite lookup_insert_eq.
Qed.

Lemma has_link_linked now s n :
  NoDup (n_Id <$> rs_Neighbours s) → n ∈ rs_Neighbours s →
  has_link (best_endpoints now s).1 (n_Id n) = linked now n.
Proof.
  intros Hnd Hin. unfold has_link, linked. by rewrite best_endpoints_lookup.
Qed.

(** ** The scan over the neighbours *)

Section scan.
Variables (now : Z) (s : RouterState Ep) (be : gmap NodeId (option Ep)).

(** The candidate an announcement gives, if it gives one. *)
Definition adv_candidate (n : Neighbour Ep) (adv : NeighRoute) : option candidate :=
  let total := AddMetric (neigh_cost now s be n) (nr_Metric adv) in
  if (total =? INF) || negb (checkFeasibility s (nr_Pub adv)) then None
  else Some (mkCandidate
    (mkSelRoute (mkPubRoute (pr_Source (nr_Pub adv)) (mkFD (pr_Seqno (nr_Pub adv)) total))
       (n_Id n) (nr_ExpireAt adv) [])
    (smoothMetric (nr_SmoothedMetric adv) total (MetricSmoothingAlpha (rs_tun s)))).

(** The candidate of a neighbour for a prefix. *)
Definition neigh_candidate (p : Prefix) (n : Neighbour Ep) : option candidate :=
  n_Routes n !! p ≫= adv_candidate n.

(** Keep the smaller metric, the earlier candidate on a tie. *)
Definition better (cur new : option candidate) : option candidate :=
  match cur, new with
  | _, None => cur
  | None, Some _ => new
  | Some c, Some c' => if sr_Metric (cand_route c') <? sr_Metric (cand_route c) then new else cur
  end.

(** Keep the candidate that continues the selected route. *)
Definition still_selected (p : Prefix) (cur new : option candidate) : option candidate :=
  match rs_Routes s !! p, new with
  | Some prev, Some c => if sameRoute prev (cand_route c) then new else cur
  | _, _ => cur
  end.

(** The announcement after the scan updated its smoothed metric. *)
Definition smoothed_route (n : Neighbour Ep) (adv : NeighRoute) : NeighRoute :=
  match adv_candidate n adv with
  | Some c => mkNeighRoute (nr_Pub adv) (nr_ExpireAt adv) (cand_smoothed c)
  | None => adv
  end.

Definition best_candidate (p : Prefix) : option candidate :=
  foldl (λ cur n, better cur (neigh_candidate p n)) None (rs_Neighbours s).

Definition sel_candidate (p : Prefix) : option candidate :=
  foldl (λ cur n, still_selected p cur (neigh_candidate p n)) None (rs_Neighbours s).

Context `{MR : MapRange}.

Lemma better_None_r cur : better cur None = cur.
Proof. by destruct cur. Qed.

Lemma still_selected_None_r p cur : still_selected p cur None = cur.
Proof. unfold still_selected. by destruct (rs_Routes s !! p). Qed.

Lemma scan_route_step n st p adv :
  sc_routes st !! p = Some adv →
  scan_route s (n_Id n) (neigh_cost now s be n) st (p, adv) =
  mkScan (<[p := smoothed_route n adv]> (sc_routes st))
    (match better (sc_best st !! p) (adv_candidate n adv) with
     | Some c => <[p := c]> (sc_best st) | None => sc_best st end)
    (match still_selected p (sc_sel st !! p) (adv_candidate n adv) with
     | Some c => <[p := c]> (sc_sel st) | None => sc_sel st end).
Proof.
  intros Hp. unfold scan_route, smoothed_route, adv_candidate.
  destruct (AddMetric (neigh_cost now s be n) (nr_Metric adv) =? INF) eqn:E1; cbn [orb].
  { rewrite better_None_r, still_selected_None_r, !insert_lookup_id, insert_id by done. by destruct st. }
  destruct (checkFeasibility s (nr_Pub adv)) eqn:E2; cbn [negb].
  2: { rewrite better_None_r, still_selected_None_r, !insert_lookup_id, insert_id by done. by destruct st. }
  rewrite Hp. cbn [default from_option id].
  unfold still_selected, better, sameRoute. cbn.
  f_equal.
  - destruct (sc_best st !! p) as [c|] eqn:Ec; [|done]. case_match; [done|]. by rewrite insert_id.
  - destruct (rs_Routes s !! p) as [prev|]; [|by rewrite insert_lookup_id].
    case_match; [done|]. by rewrite insert_lookup_id.
Qed.

(** What one neighbour contributes, at one prefix. *)
Lemma scan_neigh_lookup n best sel p :
  let r := foldl (scan_route s (n_Id n) (neigh_cost now s be n))
             (mkScan (n_Routes n) best sel) (map_range (n_Routes n)) in
  sc_routes r !! p = smoothed_route n <$> n_Routes n !! p ∧
  sc_best r !! p = better (best !! p) (neigh_candidate p n) ∧
  sc_sel r !! p = still_selected p (sel !! p) (neigh_candidate p n).
Proof.
  cbv zeta. revert p.
  enough (∀ p,
    sc_routes (foldl (scan_route s (n_Id n) (neigh_cost now s be n))
      (mkScan (n_Routes n) best sel) (map_range (n_Routes n))) !! p =
      (if n_Routes n !! p is Some _ then smoothed_route n <$> n_Routes n !! p else n_Routes n !! p) ∧
    sc_best (foldl (scan_route s (n_Id n) (neigh_cost now s be n))
      (mkScan (n_Routes n) best sel) (map_range (n_Routes n))) !! p
      = better (best !! p) (n_Routes n !! p ≫= adv_candidate n) ∧
    sc_sel (foldl (scan_route s (n_Id n) (neigh_cost now s be n))
      (mkScan (n_Routes n) best sel) (map_range (n_Routes n))) !! p
      = still_selected p (sel !! p) (n_Routes n !! p ≫= adv_candidate n)) as H.
  { intros p. destruct (H p) as (Hr & Hb & Hs). split; [|by split].
    rewrite Hr. by destruct (n_Routes n !! p). }
  pose (I (m : gmap Prefix NeighRoute) st := ∀ p,
    sc_routes st !! p = (if m !! p is Some _ then smoothed_route n <$> n_Routes n !! p else n_Routes n !! p) ∧
    sc_best st !! p = better (best !! p) (m !! p ≫= adv_candidate n) ∧
    sc_sel st !! p = still_selected p (sel !! p) (m !! p ≫= adv_candidate n)).
  apply (foldl_map_range_ind I).
  - intros p. rewrite lookup_empty. cbn. by rewrite better_None_r, still_selected_None_r.
  - intros p adv m' st Hm' Hm _ IH p'. destruct (IH p) as (Hr & Hb & Hs).
    rewrite Hm' in Hr, Hb, Hs. cbn in Hb, Hs. rewrite better_None_r in Hb.
    rewrite still_selected_None_r in Hs.
    rewrite scan_route_step by congruence. cbn [sc_routes sc_best sc_sel].
    destruct (decide (p = p')) as [<-|Hne].
    + rewrite !lookup_insert_eq, Hm. cbn. split; [done|]. rewrite <-Hb, <-Hs.
      split; case_match eqn:Ec; rewrite ?lookup_insert_eq; try done.
      * destruct (sc_best st !! p), (adv_candidate n adv); cbn in *; by repeat case_match.
      * revert Ec. unfold still_selected. by destruct (rs_Routes s !! p), (adv_candidate n adv); repeat case_match.
    + rewrite !lookup_insert_ne by done. destruct (IH p') as (Hr' & Hb' & Hs').
      split; [done|]. split; [rewrite <-Hb'|rewrite <-Hs']; case_goal; by rewrite ?lookup_insert_ne by done.
Qed.

Lemma sa_step_best st n p :
  sa_best (scan_neigh now s be st n) !! p = better (sa_best st !! p) (neigh_candidate p n).
Proof. apply scan_neigh_lookup. Qed.

Lemma sa_step_sel st n p :
  sa_sel (scan_neigh now s be st n) !! p = still_selected p (sa_sel st !! p) (neigh_candidate p n).
Proof. apply scan_neigh_lookup. Qed.

Lemma scan_all_best p : sa_best (scan_all now s be) !! p = best_candidate p.
Proof.
  unfold scan_all, best_candidate. change None with (sa_best (mkScanAcc (Ep:=Ep) [] ∅ ∅ []) !! p).
  generalize (mkScanAcc (Ep:=Ep) [] ∅ ∅ []) as st.
  induction (rs_Neighbours s) as [|n l IH]; intros st; [done|]. cbn [foldl].
  by rewrite IH, sa_step_best.
Qed.

Lemma scan_all_sel p : sa_sel (scan_all now s be) !! p = sel_candidate p.
Proof.
  unfold scan_all, sel_candidate. change None with (sa_sel (mkScanAcc (Ep:=Ep) [] ∅ ∅ []) !! p).
  generalize (mkScanAcc (Ep:=Ep) [] ∅ ∅ []) as st.
  induction (rs_Neighbours s) as [|n l IH]; intros st; [done|]. cbn [foldl].
  by rewrite IH, sa_step_sel.
Qed.

(** A neighbour after the scan. *)
Definition smoothed_neigh (n : Neighbour Ep) : Neighbour Ep :=
  set_n_Routes n (smoothed_route n <$> n_Routes n).

Definition scan_events : list Act :=
  (λ _, ActRouterEvent EventNoEndpointToNeigh) <$> filter (λ n, has_link be (n_Id n) = false) (rs_Neighbours s).

Lemma scan_all_neighs_out :
  sa_neighs (scan_all now s be) = smoothed_neigh <$> rs_Neighbours s ∧
  sa_out (scan_all now s be) = scan_events.
Proof.
  unfold scan_all, scan_events.
  change (smoothed_neigh <$> rs_Neighbours s) with
    (sa_neighs (mkScanAcc (Ep:=Ep) [] ∅ ∅ []) ++ (smoothed_neigh <$> rs_Neighbours s)).
  change ((λ _, ActRouterEvent EventNoEndpointToNeigh) <$> ?l) with
    (sa_out (mkScanAcc (Ep:=Ep) [] ∅ ∅ []) ++ ((λ _, ActRouterEvent EventNoEndpointToNeigh) <$> l)).
  generalize (mkScanAcc (Ep:=Ep) [] ∅ ∅ []) as st.
  induction (rs_Neighbours s) as [|n l IH]; intros st; [by cbn; rewrite !app_nil_r|]. cbn [foldl].
  destruct (IH (scan_neigh now s be st n)) as [-> ->]. rewrite filter_cons. split.
  - cbn. rewrite <-app_assoc. f_equal. cbn. f_equal. unfold smoothed_neigh. f_equal.
    apply map_eq. intros p. rewrite lookup_fmap. apply scan_neigh_lookup.
  - unfold scan_neigh. cbn. destruct (has_link be (n_Id n)) eqn:El; cbn.
    + by rewrite decide_False.
    + rewrite decide_True by done. cbn. by rewrite <-app_assoc.
Qed.

End scan.

(** ** The table *)

Section table.
Variables (e : Env) (s : RouterState Ep) (be : gmap NodeId (option Ep)) (cn : Z).

(** A held route, as the table re-introduces it. *)
Definition held_at (p : Prefix) : option SelRoute :=
  r ← rs_Routes s !! p;
  if isHeldRoute s r cn (has_link be (sr_Nh r)) (env_now e) then Some (set_sr_metric r INF) else None.

(** The entry before selection: our own prefix, or else a held route. *)
Definition incumbent_at (p : Prefix) : option SelRoute :=
  match rs_Advertised s !! p with
  | Some adv => Some (advertised_route e s p adv)
  | None => held_at p
  end.

(** The route in use for a prefix, from its incumbent and its continuing candidate. *)
Definition current_at (sel : option candidate) (incumbent : option SelRoute) : option (SelRoute * f64) :=
  match incumbent with
  | Some inc =>
      Some (inc, match sel with
                 | Some c => if sameRoute inc (cand_route c) then cand_smoothed c else f64_of_Z (sr_Metric inc)
                 | None => f64_of_Z (sr_Metric inc)
                 end)
  | None => c ← sel; Some (cand_route c, cand_smoothed c)
  end.

(** The entry after selection. *)
Definition selected_at (p : Prefix) : option SelRoute :=
  match best_candidate (env_now e) s be p with
  | Some best => Some (choose_route best (current_at (sel_candidate (env_now e) s be p) (incumbent_at p)))
  | None => incumbent_at p
  end.

(** The selected route of the old table is lost. *)
Definition lost_at (p : Prefix) (old : SelRoute) : bool :=
  match selected_at p with None => true | Some r => sr_Metric r =? INF end && negb (sr_Metric old =? INF).

(** The entry [ComputeRoutes] leaves. *)
Definition final_at (p : Prefix) : option SelRoute :=
  match rs_Routes s !! p with
  | Some old => if lost_at p old then Some (blackhole old) else selected_at p
  | None => selected_at p
  end.

Context `{MR : MapRange}.

Lemma held_routes_lookup p : held_routes (env_now e) s be cn !! p = held_at p.
Proof.
  unfold held_routes, held_at.
  rewrite (foldl_map_range_pointwise (λ _ r o,
    if isHeldRoute s r cn (has_link be (sr_Nh r)) (env_now e) then Some (set_sr_metric r INF) else o)).
  - by destruct (rs_Routes s !! p).
  - intros t k v. case_goal; [by rewrite lookup_insert_eq|done].
  - intros t k v k' Hne. case_goal; [by rewrite lookup_insert_ne|done].
Qed.

Lemma add_advertised_lookup t p :
  add_advertised e s t !! p =
  match rs_Advertised s !! p with Some adv => Some (advertised_route e s p adv) | None => t !! p end.
Proof.
  unfold add_advertised.
  rewrite (foldl_map_range_pointwise (λ k a _, Some (advertised_route e s k a))); [done|..]; cbn.
  - intros. by rewrite lookup_insert_eq.
  - intros. by rewrite lookup_insert_ne.
Qed.

Lemma select_routes_lookup best sel t p :
  select_routes best sel t !! p =
  match best !! p with Some b => Some (choose_route b (current_at (sel !! p) (t !! p))) | None => t !! p end.
Proof.
  unfold select_routes.
  rewrite (foldl_map_range_pointwise (λ k b o, Some (choose_route b (current_at (sel !! k) o)))); [done|..]; cbn.
  - intros. rewrite lookup_insert_eq. unfold current_route, current_at.
    destruct (t0 !! k); [done|]. by destruct (sel !! k).
  - intros. by rewrite lookup_insert_ne.
Qed.

Lemma new_table_lookup p :
  new_table e s be cn (scan_all (env_now e) s be) !! p = selected_at p.
Proof.
  unfold new_table, selected_at, incumbent_at.
  by rewrite select_routes_lookup, add_advertised_lookup, held_routes_lookup, scan_all_best, scan_all_sel.
Qed.

End table.

(** ** Announcements and retractions *)

(** What the comparison loop does for one entry. *)
Definition pub_acts s (x : Prefix * SelRoute) : list Act :=
  table_acts (rs_Routes s !! x.1) x.1 x.2 ++
  if major_change s (rs_Routes s !! x.1) x.2
  then [ActRouterEvent EventMajorRouteChange; ActBroadcastSendRouteUpdate (sr_Pub x.2)] else [].

(** Recording in the source table the entry [x], if [b] selects it. *)
Definition note_source (b : Prefix * SelRoute → bool) (srcs : gmap Source FD) (x : Prefix * SelRoute)
    : gmap Source FD :=
  if b x then <[sr_Source x.2 := fd_update (srcs !! sr_Source x.2) (pr_FD (sr_Pub x.2))]> srcs else srcs.

Definition pub_source s : gmap Source FD → Prefix * SelRoute → gmap Source FD :=
  note_source (λ x, major_change s (rs_Routes s !! x.1) x.2).

Lemma set_Sources_twice s a b : set_Sources (set_Sources s a) b = set_Sources s b.
Proof. done. Qed.

Lemma publish_fold l : ∀ s srcs out,
  foldl publish_one (set_Sources s srcs, out) l =
  (set_Sources s (foldl (pub_source s) srcs l), out ++ flat_map (pub_acts s) l).
Proof.
  induction l as [|[p r] l IH]; intros s srcs out; cbn [foldl flat_map].
  { by rewrite app_nil_r. }
  unfold publish_one at 2. cbn [rs_Routes set_Sources].
  change (major_change (set_Sources s srcs)) with (major_change s).
  unfold pub_source at 2, note_source. unfold pub_acts at 1. cbn [fst snd].
  destruct (major_change s (rs_Routes s !! p) r).
  - rewrite updateFeasibility_eq, set_Sources_twice, IH. f_equal.
    by rewrite <-!app_assoc.
  - rewrite (IH s srcs _), app_nil_r. by rewrite <-app_assoc.
Qed.

(** What the retraction loop does for one entry, against the table [t]. *)
Definition lost_in (t : gmap Prefix SelRoute) (x : Prefix * SelRoute) : bool :=
  unreachable t x.1 && negb (sr_Metric x.2 =? INF).

Definition ret_acts s (t : gmap Prefix SelRoute) (x : Prefix * SelRoute) : list Act :=
  if lost_in t x
  then retract s x.1 ++ [ActRouterEvent EventRouteRetracted; ActTableInsertRoute x.1 (blackhole x.2);
                         ActRouterEvent EventRouteUpdated]
  else [].

Lemma retract_fold s t l : ∀ t' out,
  NoDup l.*1 → (∀ k, k ∈ l.*1 → t' !! k = t !! k) →
  (foldl (retract_one s) (t', out) l).2 = out ++ flat_map (ret_acts s t) l.
Proof.
  induction l as [|[p r] l IH]; intros t' out Hnd Ht; cbn [foldl flat_map]; [by rewrite app_nil_r|].
  apply NoDup_cons in Hnd as [Hp Hnd]. unfold retract_one at 2. unfold ret_acts at 1, lost_in. cbn [fst snd].
  assert (unreachable t' p = unreachable t p) as ->.
  { unfold unreachable. by rewrite Ht by left. }
  destruct (unreachable t p && negb (sr_Metric r =? INF)).
  - rewrite IH; [by rewrite <-app_assoc|done|]. intros k Hk.
    rewrite lookup_insert_ne by (intros ->; done). apply Ht. by right.
  - rewrite IH; [done|done|]. intros k Hk. apply Ht. by right.
Qed.

Context `{MR : MapRange}.

Lemma retract_fold_table s m t out p :
  (foldl (retract_one s) (t, out) (map_range m)).1 !! p =
  match m !! p with
  | Some old => if lost_in t (p, old) then Some (blackhole old) else t !! p
  | None => t !! p
  end.
Proof.
  pose (I (m' : gmap Prefix SelRoute) (st : gmap Prefix SelRoute * list Act) := ∀ p, st.1 !! p =
    match m' !! p with
    | Some old => if lost_in t (p, old) then Some (blackhole old) else t !! p
    | None => t !! p
    end).
  apply (foldl_map_range_ind I).
  - intros q. by rewrite lookup_empty.
  - intros k old m' [t' out'] Hm' _ _ IH q. unfold retract_one. cbn [fst].
    assert (t' !! k = t !! k) as Hk. { specialize (IH k). by rewrite Hm' in IH. }
    assert (unreachable t' k = unreachable t k) as -> by (unfold unreachable; by rewrite Hk).
    change (unreachable t k && negb (sr_Metric old =? INF)) with (lost_in t (k, old)).
    destruct (decide (k = q)) as [<-|Hne].
    + rewrite lookup_insert_eq. destruct (lost_in t (k, old)); cbn; [by rewrite lookup_insert_eq|done].
    + rewrite lookup_insert_ne by done. rewrite <-(IH q).
      destruct (lost_in t (k, old)); cbn; [by rewrite lookup_insert_ne|done].
Qed.

(** The source table after a loop over the table, one source at a time. *)
Lemma note_sources_lookup b srcs t src :
  map_Forall (λ p r, src_Prefix (sr_Source r) = p) t →
  foldl (note_source b) srcs (map_range t) !! src =
  match t !! src_Prefix src with
  | Some r =>
      if bool_decide (sr_Source r = src) && b (src_Prefix src, r)
      then Some (fd_update (srcs !! src) (pr_FD (sr_Pub r))) else srcs !! src
  | None => srcs !! src
  end.
Proof.
  intros Hpfx.
  pose (I (m' : gmap Prefix SelRoute) (srcs' : gmap Source FD) := ∀ src, srcs' !! src =
    match m' !! src_Prefix src with
    | Some r =>
        if bool_decide (sr_Source r = src) && b (src_Prefix src, r)
        then Some (fd_update (srcs !! src) (pr_FD (sr_Pub r))) else srcs !! src
    | None => srcs !! src
    end).
  apply (foldl_map_range_ind I).
  - intros x. by rewrite lookup_empty.
  - intros p r m' srcs' Hm' Hm _ IH x. unfold note_source. cbn [fst snd].
    pose proof (Hpfx p r Hm) as Hr. cbn in Hr.
    assert (srcs' !! sr_Source r = srcs !! sr_Source r) as Hs.
    { rewrite (IH (sr_Source r)). by rewrite Hr, Hm'. }
    destruct (decide (p = src_Prefix x)) as [->|Hne].
    + rewrite lookup_insert_eq. destruct (b (src_Prefix x, r)); [|by rewrite andb_false_r, (IH x), Hm'].
      rewrite andb_true_r. case_bool_decide as Hsrc.
      * subst x. by rewrite lookup_insert_eq, Hs.
      * by rewrite lookup_insert_ne, (IH x), Hm'.
    + rewrite lookup_insert_ne by done. rewrite <-(IH x).
      destruct (b (p, r)); [|done].
      rewrite lookup_insert_ne; [done|]. congruence.
Qed.

(** ** [ComputeRoutes], one key at a time *)

Section compute.
Variables (e : Env) (s : RouterState Ep).

Definition links_of : gmap NodeId (option Ep) := (best_endpoints (env_now e) s).1.
Definition nlinked : Z := count_linked (env_now e) (rs_Neighbours s).
Definition table_of : gmap Prefix SelRoute :=
  new_table e s links_of nlinked (scan_all (env_now e) s links_of).

Lemma table_of_lookup p : table_of !! p = selected_at e s links_of nlinked p.
Proof. apply new_table_lookup. Qed.

Lemma ComputeRoutes_unfold :
  ComputeRoutes e s =
  let s2 := set_Sources (set_Neighbours s (smoothed_neigh (env_now e) s links_of <$> rs_Neighbours s))
              (foldl (pub_source s) (rs_Sources s) (map_range table_of)) in
  (set_Routes s2
     (foldl (retract_one s2)
       (table_of, scan_events s links_of ++ flat_map (pub_acts s) (map_range table_of))
       (map_range (rs_Routes s))).1,
   (scan_events s links_of ++ flat_map (pub_acts s) (map_range table_of)) ++
   flat_map (ret_acts s table_of) (map_range (rs_Routes s))).
Proof.
  unfold ComputeRoutes. destruct (best_endpoints (env_now e) s) as [be cn] eqn:Ebe.
  assert (cn = nlinked) as ->. { unfold nlinked. by rewrite <-best_endpoints_count, Ebe. }
  assert (be = links_of) as ->. { unfold links_of. by rewrite Ebe. }
  destruct (scan_all_neighs_out (env_now e) s links_of) as [-> ->].
  change (new_table e s links_of nlinked (scan_all (env_now e) s links_of)) with table_of.
  set (sn := set_Neighbours s (smoothed_neigh (env_now e) s links_of <$> rs_Neighbours s)).
  replace sn with (set_Sources sn (rs_Sources sn)) at 1 by done.
  rewrite (publish_fold (map_range table_of) sn).
  change (pub_source sn) with (pub_source s). change (pub_acts sn) with (pub_acts s).
  set (s2 := set_Sources sn _). change (rs_Routes s2) with (rs_Routes s).
  destruct (foldl (retract_one s2) _ _) as [t' out] eqn:Ef. cbn [fst]. cbv zeta. f_equal.
  change out with (t', out).2. rewrite <-Ef. apply (retract_fold s2 table_of).
  - apply NoDup_map_range_keys.
  - done.
Qed.

Lemma compute_frame :
  let s' := (ComputeRoutes e s).1 in
  rs_tun s' = rs_tun s ∧ rs_Id s' = rs_Id s ∧ rs_SelfSeqno s' = rs_SelfSeqno s ∧
  rs_Advertised s' = rs_Advertised s ∧
  rs_Neighbours s' = (smoothed_neigh (env_now e) s links_of <$> rs_Neighbours s).
Proof. by rewrite ComputeRoutes_unfold. Qed.

Lemma compute_Routes p : rs_Routes (ComputeRoutes e s).1 !! p = final_at e s links_of nlinked p.
Proof.
  rewrite ComputeRoutes_unfold. cbv zeta. cbn [fst rs_Routes set_Routes].
  rewrite retract_fold_table. unfold final_at, lost_at, lost_in, unreachable. cbn [fst snd].
  by rewrite table_of_lookup.
Qed.

Lemma compute_out :
  (ComputeRoutes e s).2 =
  (scan_events s links_of ++ flat_map (pub_acts s) (map_range table_of)) ++
  flat_map (ret_acts s table_of) (map_range (rs_Routes s)).
Proof. by rewrite ComputeRoutes_unfold. Qed.

Lemma compute_Sources src :
  map_Forall (λ p r, src_Prefix (sr_Source r) = p) table_of →
  rs_Sources (ComputeRoutes e s).1 !! src =
  match selected_at e s links_of nlinked (src_Prefix src) with
  | Some r =>
      if bool_decide (sr_Source r = src) && major_change s (rs_Routes s !! src_Prefix src) r
      then Some (fd_update (rs_Sources s !! src) (pr_FD (sr_Pub r))) else rs_Sources s !! src
  | None => rs_Sources s !! src
  end.
Proof.
  intros Hpfx. rewrite ComputeRoutes_unfold. cbv zeta. cbn [fst rs_Sources set_Routes set_Sources].
  unfold pub_source. by rewrite (note_sources_lookup _ _ table_of), table_of_lookup.
Qed.

End compute.

End facts.
