(* ===== verification/RouterInv.v ===== *)
(** Where the entries of a computed table come from, and the well-formedness
    invariant of the router state under every operation of [core/router_algo.go]. *)

From S2P Require Import Prelude NetIP Float64 Metric Routing RouterAlgo RouterFacts.

Section inv.
Context {Ep : Type} `{LL : LinkLayer Ep}.
Implicit Types s : RouterState Ep.

(** ** Candidates *)

Lemma foldl_better_Some {A} (f : A → option candidate) l c0 c :
  foldl (λ cur n, better cur (f n)) c0 l = Some c →
  (c0 = Some c ∨ ∃ n, n ∈ l ∧ f n = Some c) ∧
  (∀ c', (c0 = Some c' ∨ ∃ n, n ∈ l ∧ f n = Some c') → sr_Metric (cand_route c) <= sr_Metric (cand_route c')).
Proof.
  revert c0. induction l as [|n l IH]; intros c0; cbn.
  { intros ->. split; [by left|]. intros c' [[= ->]|(n & Hn & _)]; [lia|by apply not_elem_of_nil in Hn]. }
  intros H. apply IH in H as [Hc Hmin]. split.
  - destruct Hc as [Hc|(x & Hx & Hf)]; [|right; exists x; split; [by right|done]].
    unfold better in Hc. repeat case_hyp Hc; simplify_eq; try (by left); right; exists n; (split; [by left|done]).
  - intros c' [Hc0|(x & Hx & Hf)].
    + destruct (better c0 (f n)) as [b|] eqn:Eb; [|unfold better in Eb; repeat case_hyp Eb; simplify_eq].
      specialize (Hmin b (or_introl eq_refl)). unfold better in Eb.
      repeat case_hyp Eb; simplify_eq; to_prop; lia.
    + apply elem_of_cons in Hx as [->|Hx]; [|apply Hmin; eauto].
      destruct (better c0 (f n)) as [b|] eqn:Eb; [|unfold better in Eb; repeat case_hyp Eb; simplify_eq].
      specialize (Hmin b (or_introl eq_refl)). unfold better in Eb.
      repeat case_hyp Eb; simplify_eq; to_prop; lia.
Qed.

Lemma foldl_better_None {A} (f : A → option candidate) l c0 :
  foldl (λ cur n, better cur (f n)) c0 l = None ↔ c0 = None ∧ ∀ n, n ∈ l → f n = None.
Proof.
  revert c0. induction l as [|n l IH]; intros c0; cbn.
  { split; [|tauto]. intros ->. split; [done|]. intros n Hn. by apply not_elem_of_nil in Hn. }
  rewrite IH. split.
  - intros [Hb Hl]. unfold better in Hb. repeat case_hyp Hb; simplify_eq.
    split; [done|]. intros x [->|Hx]%elem_of_cons; auto.
  - intros [-> Hl]. rewrite (Hl n) by left. split; [done|]. intros x Hx. apply Hl. by right.
Qed.

Section candidates.
Variables (now : Z) (s : RouterState Ep) (be : gmap NodeId (option Ep)).

Lemma best_candidate_Some p c :
  best_candidate now s be p = Some c →
  (∃ n, n ∈ rs_Neighbours s ∧ neigh_candidate now s be p n = Some c) ∧
  ∀ n c', n ∈ rs_Neighbours s → neigh_candidate now s be p n = Some c' →
    sr_Metric (cand_route c) <= sr_Metric (cand_route c').
Proof.
  intros [Hc Hmin]%foldl_better_Some. split; [by destruct Hc|].
  intros n c' Hn Hc'. apply Hmin. eauto.
Qed.

Lemma best_candidate_None p :
  best_candidate now s be p = None ↔ ∀ n, n ∈ rs_Neighbours s → neigh_candidate now s be p n = None.
Proof. unfold best_candidate. rewrite foldl_better_None. tauto. Qed.

Lemma sel_candidate_Some p c :
  sel_candidate now s be p = Some c →
  ∃ n prev, n ∈ rs_Neighbours s ∧ neigh_candidate now s be p n = Some c ∧
    rs_Routes s !! p = Some prev ∧ sameRoute prev (cand_route c) = true.
Proof.
  unfold sel_candidate.
  enough (∀ l c0, foldl (λ cur n, still_selected s p cur (neigh_candidate now s be p n)) c0 l = Some c →
    c0 = Some c ∨ ∃ n prev, n ∈ l ∧ neigh_candidate now s be p n = Some c ∧
      rs_Routes s !! p = Some prev ∧ sameRoute prev (cand_route c) = true) as Hgen.
  { intros [?|?]%Hgen; [done|naive_solver]. }
  induction l as [|n l IH]; intros c0; cbn; [by left|].
  intros [Hc|(x & prev & Hx & ?)]%IH; [|right; exists x, prev; split; [by right|done]].
  unfold still_selected in Hc. repeat case_hyp Hc; simplify_eq; try (by left).
  right. eexists n, _. split; [by left|]. done.
Qed.

Lemma sel_candidate_None p n c prev :
  sel_candidate now s be p = None → n ∈ rs_Neighbours s → neigh_candidate now s be p n = Some c →
  rs_Routes s !! p = Some prev → sameRoute prev (cand_route c) = false.
Proof.
  unfold sel_candidate. intros H Hn Hc Hp. apply not_true_is_false. intros Hsame. revert H Hn.
  enough (∀ l c0, foldl (λ cur n, still_selected s p cur (neigh_candidate now s be p n)) c0 l = None →
    c0 = None ∧ (n ∈ l → False)) as Hgen.
  { intros H Hn. by eapply Hgen. }
  induction l as [|n' l IH]; intros c0; cbn.
  { intros ->. split; [done|]. apply not_elem_of_nil. }
  intros [Hn' Hl]%IH. unfold still_selected in Hn'. rewrite Hp in Hn'. split.
  - repeat case_hyp Hn'; simplify_eq; done.
  - intros [->|?]%elem_of_cons; [|done]. rewrite Hc, Hsame in Hn'. done.
Qed.

Lemma neigh_candidate_Some p n c :
  neigh_candidate now s be p n = Some c ↔
  ∃ adv, n_Routes n !! p = Some adv ∧ adv_candidate now s be n adv = Some c.
Proof. unfold neigh_candidate. apply bind_Some. Qed.

(** What it takes to be a candidate, and what the candidate is. *)
Lemma adv_candidate_Some n adv c :
  adv_candidate now s be n adv = Some c ↔
  AddMetric (neigh_cost now s be n) (nr_Metric adv) ≠ INF ∧
  checkFeasibility s (nr_Pub adv) = true ∧
  c = mkCandidate
    (mkSelRoute (mkPubRoute (pr_Source (nr_Pub adv))
                   (mkFD (pr_Seqno (nr_Pub adv)) (AddMetric (neigh_cost now s be n) (nr_Metric adv))))
       (n_Id n) (nr_ExpireAt adv) [])
    (smoothMetric (nr_SmoothedMetric adv) (AddMetric (neigh_cost now s be n) (nr_Metric adv))
       (MetricSmoothingAlpha (rs_tun s))).
Proof.
  unfold adv_candidate. destruct (Z.eqb_spec (AddMetric (neigh_cost now s be n) (nr_Metric adv)) INF) as [E|E].
  { cbn [orb]. naive_solver. }
  cbn [orb]. destruct (checkFeasibility s (nr_Pub adv)); cbn [negb]; naive_solver.
Qed.

(** Only a neighbour with a live link offers candidates. *)
Lemma adv_candidate_link n adv c :
  adv_candidate now s be n adv = Some c → has_link be (n_Id n) = true.
Proof.
  intros (Hfin & _)%adv_candidate_Some. unfold neigh_cost in Hfin.
  destruct (has_link be (n_Id n)); [done|]. by rewrite AddMetric_INF_l in Hfin.
Qed.

Lemma neigh_candidate_wf p n c :
  neigh_wf n → neigh_candidate now s be p n = Some c → pub_wf p (sr_Pub (cand_route c)).
Proof.
  intros Hwf (adv & Hadv & (_ & _ & ->)%adv_candidate_Some)%neigh_candidate_Some.
  apply Hwf in Hadv as [Hp [Hq Hm]]. split; [done|]. split; [done|]. apply AddMetric_range.
Qed.

Lemma neigh_candidate_finite p n c :
  neigh_candidate now s be p n = Some c → sr_Metric (cand_route c) ≠ INF.
Proof. by intros (adv & Hadv & (? & _ & ->)%adv_candidate_Some)%neigh_candidate_Some. Qed.

End candidates.

(** ** Origin of a table entry *)

Lemma choose_route_cases best cur :
  choose_route best cur = cand_route best ∨ ∃ c ms, cur = Some (c, ms) ∧ choose_route best cur = c.
Proof. unfold choose_route. destruct cur as [[c ms]|]; [|by left]. repeat case_goal; eauto. Qed.

Lemma current_at_cases sel inc c ms :
  current_at sel inc = Some (c, ms) → inc = Some c ∨ inc = None ∧ ∃ k, sel = Some k ∧ c = cand_route k ∧ ms = cand_smoothed k.
Proof. unfold current_at. destruct inc; [intros [= <- _]; by left|]. destruct sel; naive_solver. Qed.

Lemma selected_at_cases e s be cn p r :
  selected_at e s be cn p = Some r →
  incumbent_at e s be cn p = Some r ∨
  ∃ n c, n ∈ rs_Neighbours s ∧ neigh_candidate (env_now e) s be p n = Some c ∧ r = cand_route c.
Proof.
  unfold selected_at. destruct (best_candidate _ _ _ _) as [b|] eqn:Eb; [|by left].
  apply best_candidate_Some in Eb as [(n & Hn & Hb) _]. intros [= <-].
  destruct (choose_route_cases b (current_at (sel_candidate (env_now e) s be p) (incumbent_at e s be cn p)))
    as [->|(c & ms & Hcur & ->)]; [by eauto 6|].
  apply current_at_cases in Hcur as [?|(_ & k & Hk & -> & _)]; [by left|right].
  apply sel_candidate_Some in Hk as (n' & prev & Hn' & Hk & _). eauto 6.
Qed.

Lemma held_at_Some e s be cn p r :
  held_at e s be cn p = Some r ↔
  ∃ old, rs_Routes s !! p = Some old ∧
    isHeldRoute s old cn (has_link be (sr_Nh old)) (env_now e) = true ∧ r = set_sr_metric old INF.
Proof.
  unfold held_at. rewrite bind_Some. split.
  - intros (o & Ho & H). case_hyp H; naive_solver.
  - intros (o & Ho & H & ->). exists o. by rewrite H.
Qed.

Lemma held_at_INF e s be cn p r : held_at e s be cn p = Some r → sr_Metric r = INF.
Proof. by intros (old & _ & _ & ->)%held_at_Some. Qed.

(** A finite entry is our own, or a candidate of some neighbour. *)
Lemma final_at_finite e s be cn p r :
  final_at e s be cn p = Some r → sr_Metric r ≠ INF →
  (∃ adv, rs_Advertised s !! p = Some adv ∧ r = advertised_route e s p adv) ∨
  ∃ n c, n ∈ rs_Neighbours s ∧ neigh_candidate (env_now e) s be p n = Some c ∧ r = cand_route c.
Proof.
  intros Hf Hfin. assert (selected_at e s be cn p = Some r) as [Hinc|?]%selected_at_cases; [| |by right].
  - unfold final_at in Hf. repeat case_hyp Hf; simplify_eq; done.
  - left. unfold incumbent_at in Hinc. destruct (rs_Advertised s !! p) as [adv|]; [naive_solver|].
    by apply held_at_INF in Hinc.
Qed.

(** ** Well-formedness *)

Lemma fd_wf_INF q : is_seqno q → fd_wf (mkFD q INF).
Proof. intros. split; [done|]. apply INF_metric. Qed.

Lemma pub_wf_INF p r : pub_wf p r → pub_wf p (set_pub_metric r INF).
Proof. intros [Hp [Hq Hm]]. split; [done|]. by apply fd_wf_INF. Qed.

Lemma GetSeqno_wf s p : wf s → is_seqno (GetSeqno s p).
Proof.
  intros Hwf. unfold GetSeqno. destruct (rs_SelfSeqno s !! p) eqn:E; [by apply (wf_seqno _ Hwf) in E|].
  unfold is_seqno, in_width. lia.
Qed.

Lemma adv_metric_wf e adv : env_wf e → is_metric (adv_metric e adv).
Proof.
  intros He. unfold adv_metric. repeat case_goal; [by vm_compute|apply He|by vm_compute].
Qed.

Lemma advertised_route_wf e s p adv :
  wf s → env_wf e → pub_wf p (sr_Pub (advertised_route e s p adv)).
Proof. intros Hwf He. split; [done|]. split; cbn; [by apply GetSeqno_wf|by apply adv_metric_wf]. Qed.

Lemma wf_neigh s n : wf s → n ∈ rs_Neighbours s → neigh_wf n.
Proof. intros Hwf Hn. pose proof (wf_neighs _ Hwf) as H. rewrite Forall_forall in H. auto. Qed.

Lemma selected_at_wf e s be cn p r :
  wf s → env_wf e → selected_at e s be cn p = Some r → pub_wf p (sr_Pub r).
Proof.
  intros Hwf He [Hinc|(n & c & Hn & Hc & ->)]%selected_at_cases.
  - unfold incumbent_at in Hinc. destruct (rs_Advertised s !! p) as [adv|].
    + injection Hinc as <-. by apply advertised_route_wf.
    + apply held_at_Some in Hinc as (old & Hold & _ & ->). apply (wf_routes _ Hwf) in Hold. by apply pub_wf_INF.
  - eapply neigh_candidate_wf; [by eapply wf_neigh|done].
Qed.

Lemma final_at_wf e s be cn p r :
  wf s → env_wf e → final_at e s be cn p = Some r → pub_wf p (sr_Pub r).
Proof.
  intros Hwf He Hf. unfold final_at in Hf. destruct (rs_Routes s !! p) as [old|] eqn:Eo.
  2: by eapply selected_at_wf.
  destruct (lost_at _ _ _ _ _ _); [|by eapply selected_at_wf].
  injection Hf as <-. apply (wf_routes _ Hwf) in Eo. by apply pub_wf_INF.
Qed.

Context `{MR : MapRange}.

Lemma table_of_wf e s : wf s → env_wf e → map_Forall (λ p r, pub_wf p (sr_Pub r)) (table_of e s).
Proof. intros Hwf He p r. rewrite table_of_lookup. by apply selected_at_wf. Qed.

Lemma table_of_prefix e s :
  wf s → env_wf e → map_Forall (λ p r, src_Prefix (sr_Source r) = p) (table_of e s).
Proof. intros Hwf He p r Hr. by eapply table_of_wf in Hr as [? _]. Qed.

Lemma updateFeasibility_wf s r : wf s → fd_wf (pr_FD r) → wf (updateFeasibility s r).
Proof.
  intros [] Hr. rewrite updateFeasibility_eq. split; cbn; try done.
  apply map_Forall_insert_2; [|done]. apply fd_update_wf; [|done]. eauto.
Qed.

Lemma smoothed_neigh_ids now s be (l : list (Neighbour Ep)) :
  n_Id <$> (smoothed_neigh now s be <$> l) = n_Id <$> l.
Proof. rewrite <-list_fmap_compose. by apply list_fmap_ext. Qed.

Lemma smoothed_route_pub now s be n adv : nr_Pub (smoothed_route now s be n adv) = nr_Pub adv.
Proof. unfold smoothed_route. by destruct (adv_candidate _ _ _ _ _). Qed.

Lemma ComputeRoutes_wf e s : wf s → env_wf e → wf (ComputeRoutes e s).1.
Proof.
  intros Hwf He. destruct (compute_frame e s) as (Ht & Hid & Hq & Ha & Hn). split.
  - rewrite Ht. apply Hwf.
  - rewrite Hq. apply Hwf.
  - intros p r. rewrite compute_Routes. by apply final_at_wf.
  - intros src f. rewrite compute_Sources by by apply table_of_prefix.
    destruct (selected_at _ _ _ _ _) as [r|] eqn:Er; [|apply (wf_sources _ Hwf)].
    case_goal; [|apply (wf_sources _ Hwf)]. intros [= <-]. apply fd_update_wf.
    + intros f' Hf'. by eapply (wf_sources _ Hwf).
    + by eapply selected_at_wf.
  - rewrite Hn. apply Forall_fmap, Forall_forall. intros n Hin p r. cbn. rewrite lookup_fmap.
    intros (adv & Hadv & ->)%fmap_Some. rewrite smoothed_route_pub. by eapply wf_neigh in Hadv.
  - rewrite Hn, smoothed_neigh_ids. apply Hwf.
Qed.

End inv.
