(* ===== verification/RouterOps.v ===== *)
(** The remaining operations of [core/router_algo.go] in closed form, the operations
    as one step function, and the states they reach. *)

From S2P Require Import Prelude NetIP Float64 Metric Routing RouterAlgo RouterFacts RouterInv.

(** ** Operations *)

(** An entry point of the routing algorithm, with its arguments. *)
Inductive Op :=
| OpComputeRoutes
| OpFullTableUpdate
| OpPushFullTable (neigh : NodeId)
| OpRunGC
| OpSeqnoRequest (fromNeigh : NodeId) (src : Source) (reqSeqno hopCnt : Z)
| OpAckRetract (neighId : NodeId) (prefix : Prefix)
| OpNeighbourUpdate (neighId : NodeId) (adv : PubRoute)
| OpSolveStarvation.

#[export] Instance Op_eq_dec : EqDecision Op.
Proof. solve_decision. Defined.

(** Arguments within their machine width. *)
Definition op_wf (op : Op) : Prop :=
  match op with
  | OpSeqnoRequest _ _ q h => is_seqno q ∧ is_u8 h
  | OpNeighbourUpdate _ adv => fd_wf (pr_FD adv)
  | _ => True
  end.

Section ops.
Context {Ep : Type} `{LL : LinkLayer Ep} `{MR : MapRange}.
Implicit Types s : RouterState Ep.

Definition run_op (e : Env) (s : RouterState Ep) (op : Op) : option (RouterState Ep * list Act) :=
  match op with
  | OpComputeRoutes => Some (ComputeRoutes e s)
  | OpFullTableUpdate => Some (FullTableUpdate s)
  | OpPushFullTable neigh => Some (PushFullTable s neigh)
  | OpRunGC => Some (RunGC e s)
  | OpSeqnoRequest from src q h => Some (HandleSeqnoRequest e s from src q h)
  | OpAckRetract neigh prefix => Some (HandleAckRetract e s neigh prefix)
  | OpNeighbourUpdate neigh adv => HandleNeighbourUpdate e s neigh adv
  | OpSolveStarvation => Some (s, SolveStarvation e s)
  end.

(** ** Full updates *)

Definition finite_entry (x : Prefix * SelRoute) : bool := negb (sr_Metric x.2 =? INF).

Lemma full_update_fold send l : ∀ s out,
  foldl (full_update_body send) (s, out) l =
  (set_Sources s (foldl (note_source finite_entry) (rs_Sources s) l), out ++ ((λ x, send (sr_Pub x.2)) <$> l)).
Proof.
  induction l as [|[p r] l IH]; intros s out; cbn [foldl fmap list_fmap].
  { rewrite app_nil_r. by destruct s. }
  unfold full_update_body at 2. rewrite IH, <-app_assoc. cbn [snd].
  change (note_source finite_entry (rs_Sources s) (p, r)) with
    (if negb (sr_Metric r =? INF)
     then <[sr_Source r := fd_update (rs_Sources s !! sr_Source r) (pr_FD (sr_Pub r))]> (rs_Sources s)
     else rs_Sources s).
  destruct (sr_Metric r =? INF); cbn [negb]; [done|].
  by rewrite updateFeasibility_eq, set_Sources_twice.
Qed.

Lemma FullTableUpdate_eq s :
  FullTableUpdate s =
  (set_Sources s (foldl (note_source finite_entry) (rs_Sources s) (map_range (rs_Routes s))),
   (λ x, ActBroadcastSendRouteUpdate (sr_Pub x.2)) <$> map_range (rs_Routes s)).
Proof. unfold FullTableUpdate. apply full_update_fold. Qed.

Lemma PushFullTable_eq s neigh :
  PushFullTable s neigh =
  (set_Sources s (foldl (note_source finite_entry) (rs_Sources s) (map_range (rs_Routes s))),
   (λ x, ActSendRouteUpdate neigh (sr_Pub x.2)) <$> map_range (rs_Routes s)).
Proof. unfold PushFullTable. apply full_update_fold. Qed.

(** ** Garbage collection *)

(** An announcement after expiry. *)
Definition expired_route (e : Env) s (r : NeighRoute) : option NeighRoute :=
  if After (env_now e) (nr_ExpireAt r)
  then if nr_Metric r =? INF then None
       else Some (mkNeighRoute (set_pub_metric (nr_Pub r) INF) (env_now e + RouteExpiryTime (rs_tun s))
                    (nr_SmoothedMetric r))
  else Some r.

Definition expired_neigh (e : Env) s (n : Neighbour Ep) : Neighbour Ep :=
  set_n_Routes n (omap (expired_route e s) (n_Routes n)).

Definition live_adv (e : Env) (a : Advertisement) : option Advertisement :=
  if After (env_now e) (adv_Expiry a) then None else Some a.

Definition expiry_acts (e : Env) (x : Prefix * NeighRoute) : list Act :=
  if After (env_now e) (nr_ExpireAt x.2) then [ActRouterEvent EventRouteExpired] else [].

Definition adv_expiry_acts (e : Env) (x : Prefix * Advertisement) : list Act :=
  if After (env_now e) (adv_Expiry x.2)
  then match adv_ExpiryFn x.2 with Some h => [ActExpiryFn h] | None => [] end else [].

(** The state [RunGC] computes routes from, and what it did to get there. *)
Definition gc_start (e : Env) s : RouterState Ep :=
  set_Advertised (set_Neighbours s (expired_neigh e s <$> rs_Neighbours s)) (omap (live_adv e) (rs_Advertised s)).

Definition gc_acts (e : Env) s : list Act :=
  flat_map (λ n, flat_map (expiry_acts e) (map_range (n_Routes n))) (rs_Neighbours s) ++
  flat_map (adv_expiry_acts e) (map_range (rs_Advertised s)).

Lemma foldl_snd_flat_map {A B} (f : A * list Act → B → A * list Act) (g : B → list Act) l a out :
  (∀ st x, (f st x).2 = st.2 ++ g x) → (foldl f (a, out) l).2 = out ++ flat_map g l.
Proof.
  intros Hf. change out with (a, out).2 at 2. generalize (a, out) as st. clear a out.
  induction l as [|x l IH]; intros st; cbn; [by rewrite app_nil_r|]. by rewrite IH, Hf, <-app_assoc.
Qed.

Lemma expire_route_fold e s R out :
  foldl (expire_route e s) (R, out) (map_range R) =
  (omap (expired_route e s) R, out ++ flat_map (expiry_acts e) (map_range R)).
Proof.
  apply injective_projections; cbn [fst snd].
  2: { apply foldl_snd_flat_map. intros [a o] [p r]. unfold expire_route, expiry_acts. cbn.
       case_goal; [done|by rewrite app_nil_r]. }
  apply map_eq. intros p. rewrite lookup_omap.
  pose (I (m' : gmap Prefix NeighRoute) (st : gmap Prefix NeighRoute * list Act) := ∀ p, st.1 !! p =
    match m' !! p with Some r => expired_route e s r | None => R !! p end).
  transitivity (match R !! p with Some r => expired_route e s r | None => R !! p end); [|by destruct (R !! p)].
  revert p. apply (foldl_map_range_ind I).
  - intros p. by rewrite lookup_empty.
  - intros k r m' [t o] Hm' Hk _ IH p. specialize (IH p).
    unfold expire_route, expired_route in *. cbn [fst] in *. destruct (decide (k = p)) as [<-|Hne].
    + rewrite Hm' in IH. rewrite lookup_insert_eq. repeat case_goal; cbn [fst].
      * apply lookup_delete_eq.
      * apply lookup_insert_eq.
      * by rewrite IH.
    + rewrite (lookup_insert_ne m') by done. rewrite <-IH. repeat case_goal; cbn [fst].
      * by apply lookup_delete_ne.
      * by apply lookup_insert_ne.
      * done.
Qed.

Lemma expire_neigh_fold e s l st :
  foldl (expire_neigh e s) st l =
  (st.1 ++ (expired_neigh e s <$> l),
   st.2 ++ flat_map (λ n, flat_map (expiry_acts e) (map_range (n_Routes n))) l).
Proof.
  revert st. induction l as [|n l IH]; intros [a o]; cbn [foldl fst snd].
  { cbn. by rewrite !app_nil_r. }
  rewrite IH. unfold expire_neigh. cbn [fst snd]. rewrite expire_route_fold. cbn.
  by rewrite <-!app_assoc.
Qed.

Lemma expire_adv_fold e A out :
  foldl (expire_adv e) (A, out) (map_range A) =
  (omap (live_adv e) A, out ++ flat_map (adv_expiry_acts e) (map_range A)).
Proof.
  apply injective_projections; cbn [fst snd].
  2: { apply foldl_snd_flat_map. intros [a o] x. unfold expire_adv, adv_expiry_acts. cbn.
       case_goal; [done|by rewrite app_nil_r]. }
  apply map_eq. intros p. rewrite lookup_omap.
  pose (I (m' : gmap Prefix Advertisement) (st : gmap Prefix Advertisement * list Act) := ∀ p, st.1 !! p =
    match m' !! p with Some r => live_adv e r | None => A !! p end).
  transitivity (match A !! p with Some r => live_adv e r | None => A !! p end); [|by destruct (A !! p)].
  revert p. apply (foldl_map_range_ind I).
  - intros p. by rewrite lookup_empty.
  - intros k r m' [t o] Hm' Hk _ IH p. specialize (IH p).
    unfold expire_adv, live_adv in *. cbn [fst snd] in *. destruct (decide (k = p)) as [<-|Hne].
    + rewrite Hm' in IH. rewrite lookup_insert_eq. case_goal; cbn [fst]; [apply lookup_delete_eq|by rewrite IH].
    + rewrite (lookup_insert_ne m') by done. rewrite <-IH. case_goal; cbn [fst]; [by apply lookup_delete_ne|done].
Qed.

Lemma gc_sources_eq s :
  gc_sources s = set_Sources s (filter (λ x, source_used s x.1 = true) (rs_Sources s)).
Proof.
  assert (∀ l srcs, foldl (λ s x, if source_used s x.1 then s else set_Sources s (delete x.1 (rs_Sources s)))
      (set_Sources s srcs) l =
    set_Sources s (foldl (λ (srcs : gmap Source FD) (x : Source * FD),
      if source_used s x.1 then srcs else delete x.1 srcs) srcs l)) as Hgen.
  { induction l as [|x l IH]; intros srcs; [done|]. cbn [foldl].
    change (source_used (set_Sources s srcs) x.1) with (source_used s x.1).
    destruct (source_used s x.1); [apply IH|]. rewrite set_Sources_twice. apply IH. }
  unfold gc_sources. replace s with (set_Sources s (rs_Sources s)) at 1 by by destruct s.
  rewrite Hgen. f_equal. apply map_eq. intros src.
  rewrite (foldl_map_range_pointwise (λ k v o, if source_used s k then o else None)).
  - rewrite map_lookup_filter. destruct (rs_Sources s !! src) as [f|]; [|done]. cbn.
    destruct (source_used s src); [by rewrite option_guard_True|by rewrite option_guard_False].
  - intros t k v. cbn. case_goal; [done|apply lookup_delete_eq].
  - intros t k v k' Hne. cbn. case_goal; [done|by apply lookup_delete_ne].
Qed.

Lemma RunGC_eq e s :
  RunGC e s = (gc_sources (ComputeRoutes e (gc_start e s)).1, gc_acts e s ++ (ComputeRoutes e (gc_start e s)).2).
Proof.
  unfold RunGC. rewrite expire_neigh_fold. cbn [fst snd]. cbn [rs_Advertised set_Neighbours].
  rewrite expire_adv_fold. cbn [app]. unfold gc_start, gc_acts.
  by destruct (ComputeRoutes e _).
Qed.

(** ** Well-formedness is invariant *)

Lemma note_sources_wf b t srcs :
  map_Forall (λ p r, pub_wf p (sr_Pub r)) t → map_Forall (λ _ f, fd_wf f) srcs →
  map_Forall (λ _ f, fd_wf f) (foldl (note_source b) srcs (map_range t)).
Proof.
  intros Ht Hs. apply (foldl_ind (λ srcs : gmap Source FD, map_Forall (λ _ f, fd_wf f) srcs)); [done|].
  intros srcs' [p r] Hx%elem_of_map_range IH. unfold note_source. case_goal; [|done].
  apply map_Forall_insert_2; [|done]. apply fd_update_wf; [|by apply Ht in Hx as [_ ?]].
  intros f Hf. by eapply IH.
Qed.

Lemma full_wf s : wf s →
  wf (set_Sources s (foldl (note_source finite_entry) (rs_Sources s) (map_range (rs_Routes s)))).
Proof. intros []. split; cbn; try done. by apply note_sources_wf. Qed.

Lemma gc_start_wf e s : wf s → wf (gc_start e s).
Proof.
  intros Hwf. split; try apply Hwf; cbn.
  - apply Forall_fmap, Forall_forall. intros n Hn p r. cbn. rewrite lookup_omap.
    intros (adv & Hadv & Hr)%bind_Some. eapply wf_neigh in Hadv; [|done..].
    unfold expired_route in Hr. repeat case_hyp Hr; simplify_eq; [|done]. by apply pub_wf_INF.
  - rewrite <-list_fmap_compose. apply Hwf.
Qed.

Lemma RunGC_wf e s : wf s → env_wf e → wf (RunGC e s).1.
Proof.
  intros Hwf He. rewrite RunGC_eq, gc_sources_eq. cbn [fst].
  assert (wf (ComputeRoutes e (gc_start e s)).1) as Hc by (apply ComputeRoutes_wf; [by apply gc_start_wf|done]).
  split; try apply Hc. intros src f (Hf & _)%map_lookup_filter_Some. by eapply (wf_sources _ Hc).
Qed.

Lemma SetSeqno_wf s p q : wf s → is_seqno q → wf (SetSeqno s p q).
Proof. intros [] Hq. split; cbn; try done. by apply map_Forall_insert_2. Qed.

Lemma answer_request_wf s from src q r :
  wf s → fd_wf (pr_FD (sr_Pub r)) → wf (answer_request s from src q r).1.
Proof. intros. unfold answer_request. case_goal; [by apply updateFeasibility_wf|done]. Qed.

Lemma HandleSeqnoRequest_wf e s from src q h :
  wf s → env_wf e → is_seqno q → wf (HandleSeqnoRequest e s from src q h).1.
Proof.
  intros Hwf He Hq. unfold HandleSeqnoRequest.
  destruct (rs_Routes s !! src_Prefix src) as [r|] eqn:Er; [|done].
  pose proof (answer_request_wf s from src q r Hwf) as H1.
  destruct (answer_request s from src q r) as [s1 out1].
  apply (wf_routes _ Hwf) in Er as [_ Hr]. specialize (H1 Hr). cbn in H1.
  case_goal; [|done]. case_goal.
  - pose proof (ComputeRoutes_wf e (SetSeqno s1 (pr_Prefix (sr_Pub r)) q)) as Hc.
    destruct (ComputeRoutes _ _). apply Hc; [by apply SetSeqno_wf|done].
  - case_goal; [|done]. by case_goal.
Qed.

Lemma HandleAckRetract_wf e s neigh p :
  wf s → env_wf e → wf (HandleAckRetract e s neigh p).1.
Proof.
  intros Hwf He. unfold HandleAckRetract. destruct (rs_Routes s !! p) as [r|] eqn:Er; [|done].
  repeat (case_goal; [done|]). apply ComputeRoutes_wf; [|done].
  split; try apply Hwf. apply map_Forall_insert_2; [|apply Hwf]. by apply (wf_routes _ Hwf) in Er.
Qed.

Lemma put_route_wf s neigh r :
  wf s → fd_wf (pr_FD (nr_Pub r)) → wf (put_route s neigh (pr_Prefix (nr_Pub r)) r).
Proof.
  intros Hwf Hr. unfold put_route. split.
  1-4: unfold put_neighbour; destruct (list_find _ _) as [[]|]; apply Hwf.
  - apply put_neighbour_Forall; [|apply Hwf]. intros n Hn. by apply map_Forall_insert_2.
  - rewrite put_neighbour_ids; [apply Hwf|done].
Qed.

Lemma HandleNeighbourUpdate_wf e s neigh adv s' out :
  wf s → fd_wf (pr_FD adv) → HandleNeighbourUpdate e s neigh adv = Some (s', out) → wf s'.
Proof.
  intros Hwf Hadv. unfold HandleNeighbourUpdate. destruct (GetNeighbour s neigh) as [n|]; [|done].
  assert (∀ x y, wf (put_route s neigh (pr_Prefix adv) (mkNeighRoute adv x y))) as Hput.
  { intros x y. by apply (put_route_wf s neigh (mkNeighRoute adv x y)). }
  intros H. repeat case_hyp H; simplify_eq; auto.
Qed.

Lemma run_op_wf e s op s' out :
  wf s → env_wf e → op_wf op → run_op e s op = Some (s', out) → wf s'.
Proof.
  intros Hwf He Hop. destruct op; cbn [run_op]; intros H; try injection H as H;
    try (rewrite (surjective_pairing (ComputeRoutes _ _)) in H || idtac).
  - change s' with (s', out).1. rewrite <-H. by apply ComputeRoutes_wf.
  - change s' with (s', out).1. rewrite <-H, FullTableUpdate_eq. by apply full_wf.
  - change s' with (s', out).1. rewrite <-H, PushFullTable_eq. by apply full_wf.
  - change s' with (s', out).1. rewrite <-H. by apply RunGC_wf.
  - change s' with (s', out).1. rewrite <-H. destruct Hop. by apply HandleSeqnoRequest_wf.
  - change s' with (s', out).1. rewrite <-H. by apply HandleAckRetract_wf.
  - by eapply HandleNeighbourUpdate_wf.
  - by subst.
Qed.

End ops.
