(* ===== verification/RouterProps.v ===== *)
(** Correctness of route computation: where a selected route comes from, when the
    selection changes, what is announced, and what is forwarded. *)

From S2P Require Import Prelude NetIP Float64 Metric Routing RouterAlgo RouterFacts RouterInv RouterOps.

(** ** A concrete link layer and states, to run the model on *)

Module Demo.

(** A wire with a fixed cost, up or down. *)
Record Wire := mkWire { wire_up : bool; wire_cost : Z }.

#[export] Instance wire_link : LinkLayer Wire := {|
  BestEndpoint := λ _ eps, snd <$> list_find (λ w, wire_up w = true) eps;
  LinkCost := λ _ eps, match list_find (λ w, wire_up w = true) eps with
                       | Some (_, w) => uint32 (wire_cost w) | None => INF end;
  ep_IsActive := λ _ w, wire_up w;
|}.

#[export] Instance wire_laws : LinkLayerLaws Wire.
Proof.
  split.
  - intros now eps. cbn. destruct (list_find _ eps) as [[i w]|]; [by apply wrap_range|apply INF_metric].
  - intros now eps w. cbn. destruct (list_find _ eps) as [[i w']|] eqn:E; [|done]. cbn. intros [= <-].
    by apply list_find_Some in E as (_ & ? & _).
  - intros now eps. cbn. rewrite fmap_None, list_find_None. apply Forall_iff. intros w. apply not_true_iff_false.
Defined.

Definition up (c : Z) : list Wire := [mkWire true c].
Definition down : list Wire := [mkWire false 0].

Definition pfx (x l : Z) : Prefix := PrefixFrom (Addr4 (x * 2 ^ 24)) l.
Definition p10 : Prefix := pfx 10 8.
Definition p11 : Prefix := pfx 11 8.
Definition p12 : Prefix := pfx 12 8.

Definition pub (id : NodeId) (p : Prefix) (q m : Z) : PubRoute := mkPubRoute (mkSource id p) (mkFD q m).
Definition ann (id : NodeId) (p : Prefix) (q m exp : Z) (ms : f64) : Prefix * NeighRoute :=
  (p, mkNeighRoute (pub id p q m) exp ms).
Definition sel (id : NodeId) (p : Prefix) (q m : Z) (nh : NodeId) (exp : Z) : Prefix * SelRoute :=
  (p, mkSelRoute (pub id p q m) nh exp []).

Definition env : Env := mkEnv 1000 (λ _, 7).

(** Router [a] with neighbours [b] (cost 10), [c] (cost 30) and [d] (down); [a]
    originates [p12], and uses [c] for [p10] although [b] has become cheaper. *)
Definition state : RouterState Wire :=
  {| rs_tun := DefaultRouterTunables;
     rs_Id := "a";
     rs_SelfSeqno := {[ p12 := 3 ]};
     rs_Routes := list_to_map [sel "z" p10 5 100 "c" 5000; sel "a" p12 3 0 "a" 5000; sel "z" p11 2 90 "d" 5000];
     rs_Sources := {[ mkSource "z" p10 := mkFD 5 100 ]};
     rs_Neighbours :=
       [ mkNeighbour "b" (list_to_map [ann "z" p10 5 20 5000 (f64_of_Z 900)]) (up 10);
         mkNeighbour "c" (list_to_map [ann "z" p10 5 65 5000 (f64_of_Z 100)]) (up 30);
         mkNeighbour "d" (list_to_map [ann "z" p11 2 50 5000 f64_zero]) down ];
     rs_Advertised := {[ p12 := mkAdvertisement "a" 100000 false None None ]} |}.

Lemma env_ok : env_wf env.
Proof. intros h. by vm_compute. Qed.

(** Decides [wf] on concrete states. *)
Definition fd_wfb (f : FD) : bool := (0 <=? fd_Seqno f) && (fd_Seqno f <? 2 ^ 16) && (0 <=? fd_Metric f) && (fd_Metric f <? 2 ^ 32).
Definition pub_wfb (x : Prefix * PubRoute) : bool := bool_decide (pr_Prefix x.2 = x.1) && fd_wfb (pr_FD x.2).

Definition wfb {Ep} (s : RouterState Ep) : bool :=
  (0 <=? HopCost (rs_tun s)) && (HopCost (rs_tun s) <? 2 ^ 32) &&
  (0 <=? TransitCost (rs_tun s)) && (TransitCost (rs_tun s) <? 2 ^ 32) &&
  forallb (λ x, (0 <=? x.2) && (x.2 <? 2 ^ 16)) (map_to_list (rs_SelfSeqno s)) &&
  forallb (λ x, pub_wfb (x.1, sr_Pub x.2)) (map_to_list (rs_Routes s)) &&
  forallb (λ x, fd_wfb x.2) (map_to_list (rs_Sources s)) &&
  forallb (λ n, forallb (λ x, pub_wfb (x.1, nr_Pub x.2)) (map_to_list (n_Routes n))) (rs_Neighbours s) &&
  bool_decide (NoDup (n_Id <$> rs_Neighbours s)).

Lemma fd_wfb_ok f : fd_wfb f = true → fd_wf f.
Proof. unfold fd_wfb. intros. to_prop. unfold fd_wf, is_seqno, is_metric, in_width. lia. Qed.

Lemma pub_wfb_ok p r : pub_wfb (p, r) = true → pub_wf p r.
Proof. unfold pub_wfb. cbn. intros. to_prop. split; [done|by apply fd_wfb_ok]. Qed.

Lemma forallb_map_Forall {K V} `{Countable K} (f : K * V → bool) (P : K → V → Prop) (m : gmap K V) :
  (∀ k v, f (k, v) = true → P k v) → forallb f (map_to_list m) = true → map_Forall P m.
Proof.
  intros Hf Hall k v Hk. apply Hf. rewrite forallb_forall in Hall. apply Hall.
  by apply list_elem_of_In, elem_of_map_to_list.
Qed.

Lemma wfb_ok {Ep} (s : RouterState Ep) : wfb s = true → wf s.
Proof.
  unfold wfb. intros. to_prop. split.
  - unfold tun_wf, is_metric, in_width. lia.
  - eapply forallb_map_Forall; [|done]. cbn. intros. to_prop. unfold is_seqno, in_width. lia.
  - eapply forallb_map_Forall; [|done]. intros k v. apply pub_wfb_ok.
  - eapply forallb_map_Forall; [|done]. intros k v. apply fd_wfb_ok.
  - apply Forall_forall. intros n Hn. apply (forallb_map_Forall (λ x, pub_wfb (x.1, nr_Pub x.2))).
    { intros k v. apply pub_wfb_ok. }
    match goal with H : forallb _ (rs_Neighbours s) = true |- _ => rewrite forallb_forall in H; apply (H n) end.
    by apply list_elem_of_In.
  - done.
Qed.

Lemma state_ok : wf state.
Proof. apply wfb_ok. by vm_compute. Qed.

End Demo.

(** ** Shared lemmas *)

Section lemmas.
Context {Ep : Type} `{LLL : LinkLayerLaws Ep}.
Implicit Types s : RouterState Ep.

Lemma has_link_of e s n :
  wf s → n ∈ rs_Neighbours s → has_link (links_of e s) (n_Id n) = linked (env_now e) n.
Proof. intros Hwf Hn. apply has_link_linked; [apply Hwf|done]. Qed.

Lemma neigh_eq s n n' :
  wf s → n ∈ rs_Neighbours s → n' ∈ rs_Neighbours s → n_Id n = n_Id n' → n = n'.
Proof.
  intros Hwf (i & Hi)%list_elem_of_lookup (j & Hj)%list_elem_of_lookup Hid.
  assert (i = j) as ->; [|congruence].
  eapply (NoDup_lookup (n_Id <$> rs_Neighbours s)); [apply Hwf|..]; rewrite list_lookup_fmap.
  - rewrite Hi. done.
  - rewrite Hj. cbn. by rewrite Hid.
Qed.

(** The cost of a candidate, without the saturating additions. *)
Lemma neigh_candidate_metric e s p n c :
  wf s → n ∈ rs_Neighbours s → neigh_candidate (env_now e) s (links_of e s) p n = Some c →
  ∃ adv, n_Routes n !! p = Some adv ∧ linked (env_now e) n = true ∧ nr_Metric adv ≠ INF ∧
    checkFeasibility s (nr_Pub adv) = true ∧
    sr_Pub (cand_route c) = mkPubRoute (pr_Source (nr_Pub adv)) (mkFD (pr_Seqno (nr_Pub adv))
      (Z.min INFM (LinkCost (env_now e) (n_Eps n) + HopCost (rs_tun s) + TransitCost (rs_tun s) + nr_Metric adv))) ∧
    sr_Nh (cand_route c) = n_Id n.
Proof.
  intros Hwf Hn (adv & Hadv & Hc)%neigh_candidate_Some. exists adv.
  pose proof (adv_candidate_link _ _ _ _ _ _ Hc) as Hl.
  apply adv_candidate_Some in Hc as (Hfin & Hfeas & ->).
  unfold neigh_cost in *. rewrite Hl in *. rewrite has_link_of in Hl by done.
  pose proof (LinkCost_range (env_now e) (n_Eps n)) as HL.
  destruct (wf_tun _ Hwf) as [HH HT].
  assert (is_metric (nr_Metric adv)) as HA.
  { eapply (wf_neigh s n Hwf Hn) in Hadv as [_ [_ ?]]. done. }
  assert (AddMetric (AddMetric (AddMetric (LinkCost (env_now e) (n_Eps n)) (HopCost (rs_tun s)))
            (TransitCost (rs_tun s))) (nr_Metric adv) =
          Z.min INFM (LinkCost (env_now e) (n_Eps n) + HopCost (rs_tun s) + TransitCost (rs_tun s) + nr_Metric adv)
          ∧ nr_Metric adv ≠ INF) as [Heq HnI].
  { revert Hfin. add_metric. }
  cbn. rewrite Heq. by repeat split.
Qed.

Lemma sel_candidate_eq e s p n c old :
  wf s → n ∈ rs_Neighbours s → neigh_candidate (env_now e) s (links_of e s) p n = Some c →
  rs_Routes s !! p = Some old → sameRoute old (cand_route c) = true →
  sel_candidate (env_now e) s (links_of e s) p = Some c.
Proof.
  intros Hwf Hn Hc Hold Hsame.
  destruct (sel_candidate _ _ _ _) as [c'|] eqn:E.
  2: { eapply sel_candidate_None in E; [|done..]. congruence. }
  apply sel_candidate_Some in E as (n' & prev & Hn' & Hc' & Hprev & Hsame').
  assert (n = n') as ->; [|congruence]. eapply neigh_eq; [done..|].
  rewrite Hold in Hprev. injection Hprev as <-.
  apply neigh_candidate_Some in Hc as (adv & _ & (_ & _ & ->)%adv_candidate_Some).
  apply neigh_candidate_Some in Hc' as (adv' & _ & (_ & _ & ->)%adv_candidate_Some).
  unfold sameRoute in *. cbn in *. to_prop. congruence.
Qed.

(** A finite entry with a live next hop is not held. *)
Lemma live_not_held e s p old n c :
  rs_Routes s !! p = Some old → sr_Metric old ≠ INF → 
  neigh_candidate (env_now e) s (links_of e s) p n = Some c → sameRoute old (cand_route c) = true →
  held_at e s (links_of e s) (nlinked e s) p = None.
Proof.
  intros Hold Hfin (adv & _ & Hc)%neigh_candidate_Some Hsame.
  pose proof (adv_candidate_link _ _ _ _ _ _ Hc) as Hl. apply adv_candidate_Some in Hc as (_ & _ & ->).
  unfold sameRoute in Hsame. cbn in Hsame. to_prop.
  unfold held_at. rewrite Hold. cbn. unfold isHeldRoute.
  case_bool_decide; [done|]. replace (sr_Nh old) with (n_Id n) by done. rewrite Hl.
  apply Z.eqb_neq in Hfin. by rewrite Hfin.
Qed.

End lemmas.

(** ** Route computation *)

Section compute_props.
Context {Ep : Type} `{LLL : LinkLayerLaws Ep} `{MR : MapRange}.
Implicit Types s : RouterState Ep.

(** C14: a usable route in the computed table is one of our own prefixes, or comes from
    an announcement of a neighbour with a live link that is finite and feasible, with
    the neighbour as next hop and the announced metric plus the link, hop and transit
    costs as its metric. *)
Theorem compute_routes_sound e s p r :
  wf s → rs_Routes (ComputeRoutes e s).1 !! p = Some r → sr_Metric r ≠ INF →
  (∃ adv, rs_Advertised s !! p = Some adv ∧ r = advertised_route e s p adv) ∨
  ∃ n adv, n ∈ rs_Neighbours s ∧ n_Routes n !! p = Some adv ∧ linked (env_now e) n = true ∧
    nr_Metric adv ≠ INF ∧ checkFeasibility s (nr_Pub adv) = true ∧
    sr_Nh r = n_Id n ∧ sr_Source r = pr_Source (nr_Pub adv) ∧ sr_Seqno r = pr_Seqno (nr_Pub adv) ∧
    sr_Metric r = Z.min INFM (LinkCost (env_now e) (n_Eps n) + HopCost (rs_tun s) + TransitCost (rs_tun s)
                              + nr_Metric adv).
Proof.
  intros Hwf Hr Hfin. rewrite compute_Routes in Hr.
  destruct (final_at_finite _ _ _ _ _ _ Hr Hfin) as [?|(n & c & Hn & Hc & ->)]; [by left|right].
  destruct (neigh_candidate_metric e s p n c Hwf Hn Hc) as (adv & Hadv & Hl & HA & Hf & Hp & Hnh).
  exists n, adv. rewrite Hp. by repeat split.
Qed.

(** hysteresis: while the neighbour of a usable selected route still offers it, the
    table keeps that route, with its current metric, unless another candidate is strictly
    better in both its metric and its smoothed metric. *)
Theorem compute_routes_hysteresis e s p old n cur :
  wf s → rs_Advertised s !! p = None →
  rs_Routes s !! p = Some old → sr_Metric old ≠ INF →
  n ∈ rs_Neighbours s → neigh_candidate (env_now e) s (links_of e s) p n = Some cur →
  sameRoute old (cand_route cur) = true →
  rs_Routes (ComputeRoutes e s).1 !! p = Some (cand_route cur) ∨
  ∃ n' c, n' ∈ rs_Neighbours s ∧ neigh_candidate (env_now e) s (links_of e s) p n' = Some c ∧
    rs_Routes (ComputeRoutes e s).1 !! p = Some (cand_route c) ∧
    sr_Metric (cand_route c) < sr_Metric (cand_route cur) ∧
    f64_ltb (cand_smoothed c) (cand_smoothed cur) = true.
Proof.
  intros Hwf Hadv Hold Hfin Hn Hcur Hsame. rewrite compute_Routes.
  destruct (best_candidate (env_now e) s (links_of e s) p) as [b|] eqn:Eb.
  2: { rewrite best_candidate_None in Eb. rewrite Eb in Hcur by done. done. }
  pose proof (best_candidate_Some _ _ _ _ _ Eb) as [(nb & Hnb & Hb) Hmin].
  assert (final_at e s (links_of e s) (nlinked e s) p =
          Some (choose_route b (Some (cand_route cur, cand_smoothed cur)))) as ->.
  { assert (selected_at e s (links_of e s) (nlinked e s) p =
            Some (choose_route b (Some (cand_route cur, cand_smoothed cur)))) as Hs.
    { unfold selected_at, incumbent_at. rewrite Eb, Hadv.
      rewrite (live_not_held e s p old n cur), (sel_candidate_eq e s p n cur old) by done. done. }
    unfold final_at, lost_at. rewrite Hold, Hs.
    assert (sr_Metric (choose_route b (Some (cand_route cur, cand_smoothed cur))) ≠ INF) as Hne.
    { apply neigh_candidate_finite in Hb, Hcur. unfold choose_route. by repeat case_goal. }
    apply Z.eqb_neq in Hne. by rewrite Hne. }
  unfold choose_route. destruct (sameRoute (cand_route b) (cand_route cur)) eqn:E1.
  - left. do 2 f_equal. assert (nb = n) as ->; [|congruence]. eapply neigh_eq; [done..|].
    apply neigh_candidate_Some in Hb as (? & _ & (_ & _ & ->)%adv_candidate_Some).
    apply neigh_candidate_Some in Hcur as (? & _ & (_ & _ & ->)%adv_candidate_Some).
    unfold sameRoute in E1. cbn in E1. by to_prop.
  - destruct (_ && _) eqn:E2; [right|by left]. to_prop. exists nb, b. by repeat split.
Qed.

(** a prefix that was not in the table gets the candidate of smallest metric over all
    neighbours, as soon as there is a candidate at all. *)
Theorem compute_routes_optimal e s p n c :
  rs_Advertised s !! p = None → rs_Routes s !! p = None →
  n ∈ rs_Neighbours s → neigh_candidate (env_now e) s (links_of e s) p n = Some c →
  ∃ n' c', n' ∈ rs_Neighbours s ∧ neigh_candidate (env_now e) s (links_of e s) p n' = Some c' ∧
    rs_Routes (ComputeRoutes e s).1 !! p = Some (cand_route c') ∧
    ∀ m d, m ∈ rs_Neighbours s → neigh_candidate (env_now e) s (links_of e s) p m = Some d →
      sr_Metric (cand_route c') <= sr_Metric (cand_route d).
Proof.
  intros Hadv Hr Hn Hc. rewrite compute_Routes.
  destruct (best_candidate (env_now e) s (links_of e s) p) as [b|] eqn:Eb.
  2: { rewrite best_candidate_None in Eb. rewrite Eb in Hc by done. done. }
  pose proof (best_candidate_Some _ _ _ _ _ Eb) as [(nb & Hnb & Hb) Hmin].
  exists nb, b. split; [done|]. split; [done|]. split; [|by eauto].
  unfold final_at, selected_at, incumbent_at, held_at. rewrite Hr, Eb, Hadv. cbn.
  destruct (sel_candidate _ _ _ _) eqn:Es; [|done].
  apply sel_candidate_Some in Es as (? & ? & _ & _ & ? & _). congruence.
Qed.

(** C15: no usable route disappears silently: when a prefix loses its usable route, its
    retraction is broadcast, the forwarding table is given the blackhole, and the route
    table keeps an entry with infinite metric. *)
Theorem compute_routes_retracts e s p old :
  rs_Routes s !! p = Some old → sr_Metric old ≠ INF →
  (∀ r, rs_Routes (ComputeRoutes e s).1 !! p = Some r → sr_Metric r = INF) →
  rs_Routes (ComputeRoutes e s).1 !! p = Some (blackhole old) ∧
  ActBroadcastSendRouteUpdate (set_pub_metric (sr_Pub old) INF) ∈ (ComputeRoutes e s).2 ∧
  ActTableInsertRoute p (blackhole old) ∈ (ComputeRoutes e s).2.
Proof.
  intros Hold Hfin Hno. rewrite compute_Routes in *.
  assert (lost_at e s (links_of e s) (nlinked e s) p old = true) as Hlost.
  { destruct (lost_at _ _ _ _ _ _) eqn:El; [done|]. exfalso. revert Hno.
    unfold final_at. rewrite Hold, El. unfold lost_at in El. apply Z.eqb_neq in Hfin. rewrite Hfin in El.
    destruct (selected_at _ _ _ _ _) as [r|]; [|done]. cbn in El. intros Hno.
    specialize (Hno r eq_refl). rewrite Hno in El. done. }
  split; [unfold final_at; by rewrite Hold, Hlost|].
  assert (ret_acts s (table_of e s) (p, old) =
    [ActBroadcastSendRouteUpdate (set_pub_metric (sr_Pub old) INF); ActRouterEvent EventRouteRetracted;
     ActTableInsertRoute p (blackhole old); ActRouterEvent EventRouteUpdated]) as Hra.
  { unfold ret_acts, lost_in, unreachable, retract. cbn [fst snd]. rewrite table_of_lookup, Hold.
    unfold lost_at in Hlost. by rewrite Hlost. }
  assert (∀ a, a ∈ ret_acts s (table_of e s) (p, old) → a ∈ (ComputeRoutes e s).2) as Hin.
  { intros a Ha. rewrite compute_out. apply elem_of_app. right. apply list_elem_of_In, in_flat_map.
    exists (p, old). split; apply list_elem_of_In; [by apply elem_of_map_range|done]. }
  rewrite Hra in Hin. split; apply Hin; set_solver.
Qed.

(** the hold time: a retracted prefix of another router stays in the table, with
    infinite metric, as long as fewer acknowledgements than connected neighbours have
    arrived and its timer runs; with no candidate for it and none of our own, it leaves
    the table otherwise. *)
Theorem compute_routes_hold e s p old :
  rs_Routes s !! p = Some old → sr_Metric old = INF → sr_Nh old ≠ rs_Id s →
  rs_Advertised s !! p = None →
  (∀ n, n ∈ rs_Neighbours s → neigh_candidate (env_now e) s (links_of e s) p n = None) →
  rs_Routes (ComputeRoutes e s).1 !! p =
  if (Z.of_nat (length (sr_RetractedBy old)) <? count_linked (env_now e) (rs_Neighbours s))
     && After (sr_ExpireAt old) (env_now e)
  then Some old else None.
Proof.
  intros Hold HI Hnh Hadv Hc. rewrite compute_Routes. unfold final_at, lost_at, selected_at, incumbent_at, held_at.
  rewrite (proj2 (best_candidate_None _ _ _ _) Hc), Hold, Hadv, HI. cbn [negb Z.eqb]. rewrite andb_false_r.
  cbn [mbind option_bind]. unfold isHeldRoute. rewrite bool_decide_eq_false_2 by done. rewrite HI. cbn.
  rewrite Z.eqb_refl. cbn [negb andb]. unfold nlinked. case_goal; [|done]. f_equal. unfold set_sr_metric, set_pub_metric. 
  destruct old as [[src [q m]] nh ex rb]. cbn in *. by subst.
Qed.

End compute_props.

(** ** Iteration order *)

(** C16: route computation does not depend on the order in which Go visits its maps: any
    two orders give the same state and, up to reordering, the same calls. *)
Theorem compute_routes_order_independent {Ep} `{LL : LinkLayer Ep} (MR1 MR2 : MapRange) e (s : RouterState Ep) :
  wf s → env_wf e →
  (ComputeRoutes (MR := MR1) e s).1 = (ComputeRoutes (MR := MR2) e s).1 ∧
  (ComputeRoutes (MR := MR1) e s).2 ≡ₚ (ComputeRoutes (MR := MR2) e s).2.
Proof.
  intros Hwf He.
  assert (table_of (MR := MR1) e s = table_of (MR := MR2) e s) as Ht.
  { apply map_eq. intros p. by rewrite !table_of_lookup. }
  split.
  - rewrite (ComputeRoutes_unfold (MR := MR1)), (ComputeRoutes_unfold (MR := MR2)). cbv zeta. cbn [fst].
    f_equal; [f_equal|].
    + apply map_eq. intros src. unfold pub_source.
      by rewrite (note_sources_lookup (MR := MR1)), (note_sources_lookup (MR := MR2)), Ht by by apply table_of_prefix.
    + apply map_eq. intros p. by rewrite (retract_fold_table (MR := MR1)), (retract_fold_table (MR := MR2)), Ht.
  - rewrite !compute_out, Ht.
    assert (∀ K `{Countable K} V (m : gmap K V), map_range (MapRange := MR1) m ≡ₚ map_range (MapRange := MR2) m) as Hp.
    { intros. by rewrite !map_range_perm. }
    apply Permutation_app; [apply Permutation_app; [done|]|]; apply Permutation_flat_map, Hp.
Qed.

(** ** The feasibility discipline *)

(** The update an action sends. *)
Definition sent (a : Act) : option PubRoute :=
  match a with
  | ActSendRouteUpdate _ adv | ActBroadcastSendRouteUpdate adv => Some adv
  | _ => None
  end.

(** Two sequence numbers half the number space apart compare neither way. *)
Definition opposite (a b : Z) : Prop := (b - a) mod 65536 = 32768.

(** A request whose number is not opposite to that of the route it is about. *)
Definition op_ordered {Ep} (s : RouterState Ep) (op : Op) : Prop :=
  match op with
  | OpSeqnoRequest _ src q _ => ∀ r, rs_Routes s !! src_Prefix src = Some r → ¬ opposite (sr_Seqno r) q
  | _ => True
  end.

(** The answer to a request for a prefix of this node whose number is opposite: the code
    both answers it and takes the number over. *)
Definition opposite_answer {Ep} (s : RouterState Ep) (op : Op) (adv : PubRoute) : Prop :=
  match op with
  | OpSeqnoRequest _ src q _ =>
      ∃ r, rs_Routes s !! src_Prefix src = Some r ∧ sr_Pub r = adv ∧ pr_NodeId adv = rs_Id s ∧ opposite (pr_Seqno adv) q
  | _ => False
  end.

Lemma fd_update_not_better o new : ¬ fd_lt new (fd_update o new).
Proof.
  unfold fd_update, fd_lt. destruct o as [f|]; [|rewrite SeqnoLt_irrefl; intros [?|?]; [done|lia]].
  destruct (SeqnoLt (fd_Seqno f) (fd_Seqno new)) eqn:E1; cbn.
  { rewrite SeqnoLt_irrefl. intros [?|?]; [done|lia]. }
  destruct ((fd_Seqno f =? fd_Seqno new) && (fd_Metric new <? fd_Metric f)) eqn:E2; to_prop; cbn.
  - rewrite E1. intros [?|?]; [done|lia].
  - rewrite E1. intros [?|[? ?]]; [done|]. destruct E2; to_prop; lia.
Qed.

Section feasibility.
Context {Ep : Type} `{LL : LinkLayer Ep} `{MR : MapRange}.
Implicit Types s : RouterState Ep.

(** What is not feasible is not feasible with a larger metric either. *)
Lemma checkFeasibility_worse s adv echo : pr_Source echo = pr_Source adv → pr_Seqno echo = pr_Seqno adv →
  pr_Metric adv <= pr_Metric echo → pr_Metric echo ≠ INF → checkFeasibility s adv = false → checkFeasibility s echo = false.
Proof.
  unfold checkFeasibility. intros -> -> Hle Hfin%Z.eqb_neq. destruct (rs_Sources s !! _) as [f|]; [|done]. rewrite Hfin, orb_false_r.
  destruct (SeqnoLt _ _); [by cbn|]. cbn [orb]. destruct (pr_Metric adv =? INF); [by cbn|].
  intros [->|Hm%Z.ltb_ge]%andb_false_iff; [done|]. apply andb_false_iff. right. apply Z.ltb_ge. lia.
Qed.

(** Answering a request keeps the state well formed. *)
Lemma answer_wf s from src q r : wf s → rs_Routes s !! src_Prefix src = Some r → wf (answer_request s from src q r).1.
Proof.
  intros Hwf Hr. unfold answer_request. case_goal; [|done]. apply updateFeasibility_wf; [done|]. by apply (wf_routes _ Hwf) in Hr as [_ ?].
Qed.

Lemma covered_infeasible s adv o :
  rs_Sources s !! pr_Source adv = Some (fd_update o (pr_FD adv)) → pr_Metric adv ≠ INF →
  checkFeasibility s adv = false.
Proof.
  intros Hs Hfin. apply not_true_is_false. rewrite checkFeasibility_spec.
  intros [?|[?|(f & Hf & Hlt)]]; [done|congruence|].
  rewrite Hs in Hf. injection Hf as <-. by apply fd_update_not_better in Hlt.
Qed.

(** The updates [ComputeRoutes] sends: table entries, and retractions. *)
Lemma compute_sent e s a adv :
  a ∈ (ComputeRoutes e s).2 → sent a = Some adv → pr_Metric adv ≠ INF →
  ∃ p r, table_of e s !! p = Some r ∧ major_change s (rs_Routes s !! p) r = true ∧ adv = sr_Pub r.
Proof.
  intros Ha Hs Hfin. rewrite compute_out, !elem_of_app, !list_elem_of_In, !in_flat_map in Ha.
  destruct Ha as [[Ha|([p r] & Hx & Ha)]|([p r] & Hx & Ha)].
  - apply list_elem_of_In, list_elem_of_fmap in Ha as (? & -> & _). done.
  - apply list_elem_of_In, elem_of_map_range in Hx. exists p, r. split; [done|].
    unfold pub_acts, table_acts in Ha. cbn [fst snd] in Ha. rewrite in_app_iff in Ha.
    destruct Ha as [Ha|Ha].
    + exfalso. repeat case_hyp Ha; cbn in Ha; by destruct_or?; subst; try done; discriminate.
    + destruct (major_change _ _ _); [|done]. cbn in Ha. destruct_or?; subst; try done. by injection Hs as <-.
  - unfold ret_acts, retract in Ha. cbn [fst snd] in Ha. exfalso.
    repeat case_hyp Ha; cbn in Ha; destruct_or?; subst; try done; injection Hs as <-; done.
Qed.

Lemma compute_sent_covered e s a adv :
  wf s → env_wf e →
  a ∈ (ComputeRoutes e s).2 → sent a = Some adv → pr_Metric adv ≠ INF →
  ∃ o, rs_Sources (ComputeRoutes e s).1 !! pr_Source adv = Some (fd_update o (pr_FD adv)) ∧
    ∃ r, rs_Routes (ComputeRoutes e s).1 !! pr_Prefix adv = Some r ∧ sr_Pub r = adv.
Proof.
  intros Hwf He Ha Hs Hfin. destruct (compute_sent e s a adv Ha Hs Hfin) as (p & r & Ht & Hm & ->).
  pose proof (table_of_prefix e s Hwf He p r Ht) as Hp. cbn in Hp.
  rewrite table_of_lookup in Ht.
  exists (rs_Sources s !! sr_Source r). split.
  - rewrite compute_Sources by by apply table_of_prefix.
    by rewrite Hp, Ht, bool_decide_eq_true_2, Hm.
  - exists r. split; [|done]. rewrite compute_Routes, Hp. unfold final_at, lost_at. rewrite Ht.
    apply Z.eqb_neq in Hfin. rewrite Hfin. cbn. by destruct (rs_Routes s !! p).
Qed.

Lemma full_sent_covered s (send : PubRoute → Act) a adv :
  wf s → (∀ r, sent (send r) = Some r) →
  a ∈ ((λ x, send (sr_Pub x.2)) <$> map_range (rs_Routes s)) → sent a = Some adv → pr_Metric adv ≠ INF →
  ∃ o, foldl (note_source finite_entry) (rs_Sources s) (map_range (rs_Routes s)) !! pr_Source adv
       = Some (fd_update o (pr_FD adv)).
Proof.
  intros Hwf Hsend ([p r] & -> & Hr)%list_elem_of_fmap Hs Hfin. rewrite Hsend in Hs. injection Hs as <-.
  apply elem_of_map_range in Hr. pose proof (wf_routes _ Hwf p r Hr) as [Hp _]. cbn [snd] in *.
  eexists. rewrite note_sources_lookup.
  - rewrite Hp, Hr, bool_decide_eq_true_2 by done. unfold finite_entry. cbn [snd andb].
    apply Z.eqb_neq in Hfin. by rewrite Hfin.
  - intros p' r' Hr'. by apply (wf_routes _ Hwf) in Hr' as [? _].
Qed.

Lemma opposite_spec q r : SeqnoGe r q = true → SeqnoGt q r = true → is_seqno q → is_seqno r → opposite r q.
Proof.
  unfold SeqnoGe, SeqnoGt, SeqnoLe, opposite. intros H1 H2 Hq Hr. to_prop.
  assert (¬ 0 < (q - r) mod 65536 < 32768) as HA by (rewrite <-SeqnoLt_spec; congruence).
  assert (¬ 0 < (r - q) mod 65536 < 32768) as HB by (rewrite <-SeqnoLt_spec; congruence).
  replace (r - q) with (- (q - r)) in HB by ring. rewrite mod_opp_65536 in HB.
  pose proof (Z.mod_pos_bound (q - r) 65536 ltac:(lia)).
  destruct (Z.eqb_spec ((q - r) mod 65536) 0) as [E|E]; [|lia]. exfalso.
  apply Z.mod_divide in E; [|lia]. destruct E as [k Hk]. unfold is_seqno, in_width in *. lia.
Qed.

(** No finite update among the actions is feasible in [s]. *)
Definition covered s (out : list Act) : Prop :=
  ∀ a adv, a ∈ out → sent a = Some adv → pr_Metric adv ≠ INF → checkFeasibility s adv = false.

Lemma covered_app s out1 out2 : covered s (out1 ++ out2) ↔ covered s out1 ∧ covered s out2.
Proof.
  unfold covered. split.
  - intros H. split; intros a adv Ha; apply H, elem_of_app; auto.
  - intros [H1 H2] a adv [?|?]%elem_of_app; eauto.
Qed.

(** Actions that are no updates are covered. *)
Lemma covered_other s out : Forall (λ a, sent a = None) out → covered s out.
Proof. intros H a adv Ha Hs. rewrite Forall_forall in H. specialize (H a Ha). congruence. Qed.

Lemma compute_covered e s : wf s → env_wf e → covered (ComputeRoutes e s).1 (ComputeRoutes e s).2.
Proof.
  intros Hwf He a adv Ha Hs Hfin.
  destruct (compute_sent_covered e s a adv) as (o & Ho & _); [done..|]. by eapply covered_infeasible.
Qed.

Lemma gc_acts_other e s : Forall (λ a, sent a = None) (gc_acts e s).
Proof.
  unfold gc_acts. apply Forall_forall. intros a. rewrite elem_of_app, !list_elem_of_In, !in_flat_map.
  intros [(n & _ & Ha)|(x & _ & Ha)].
  - apply in_flat_map in Ha as (x & _ & Ha). unfold expiry_acts in Ha. case_hyp Ha; [|done].
    by destruct Ha as [<-|[]].
  - unfold adv_expiry_acts in Ha. repeat case_hyp Ha; try done. by destruct Ha as [<-|[]].
Qed.

Lemma gc_covered e s : wf s → env_wf e → covered (RunGC e s).1 (RunGC e s).2.
Proof.
  intros Hwf He. rewrite RunGC_eq. cbn [fst snd]. apply covered_app.
  split; [apply covered_other, gc_acts_other|]. intros a adv Ha Hs Hfin.
  destruct (compute_sent_covered e (gc_start e s) a adv) as (o & Ho & r & Hr & <-);
    [by apply gc_start_wf|done..|].
  rewrite gc_sources_eq. eapply covered_infeasible; [|done]. cbn. rewrite map_lookup_filter, Ho. cbn.
  rewrite option_guard_True; [done|]. unfold source_used. rewrite Hr, bool_decide_eq_true_2 by done.
  by rewrite orb_true_r.
Qed.

Lemma full_covered s (send : PubRoute → Act) :
  wf s → (∀ r, sent (send r) = Some r) →
  covered (set_Sources s (foldl (note_source finite_entry) (rs_Sources s) (map_range (rs_Routes s))))
    ((λ x, send (sr_Pub x.2)) <$> map_range (rs_Routes s)).
Proof.
  intros Hwf Hsend a adv Ha Hs Hfin.
  destruct (full_sent_covered s send a adv) as (o & Ho); [done..|]. by eapply covered_infeasible.
Qed.

Lemma answer_covered s from src q r :
  covered (answer_request s from src q r).1 (answer_request s from src q r).2.
Proof.
  unfold answer_request. case_goal; [|by apply covered_other].
  intros a adv ->%list_elem_of_singleton [= <-] Hfin. cbn [fst].
  eapply covered_infeasible; [|done]. by rewrite updateFeasibility_Sources, lookup_insert_eq.
Qed.

(** A request is not both answered and passed on, unless its number is opposite. *)
Lemma answer_excl s from src q r :
  wf s → is_seqno q → fd_wf (pr_FD (sr_Pub r)) → ¬ opposite (sr_Seqno r) q →
  bool_decide (src_NodeId (sr_Source r) = src_NodeId src) && SeqnoGt q (sr_Seqno r) = true →
  answer_request s from src q r = (s, []).
Proof.
  intros Hwf Hq [Hr _] Hopp Hc. unfold answer_request. case_goal; [|done]. exfalso. to_prop.
  destruct_or?; to_prop; try done. by apply Hopp, opposite_spec.
Qed.

Lemma seqno_covered e s from src q h a adv :
  wf s → env_wf e → is_seqno q → a ∈ (HandleSeqnoRequest e s from src q h).2 → sent a = Some adv → pr_Metric adv ≠ INF →
  ¬ opposite_answer s (OpSeqnoRequest from src q h) adv → checkFeasibility (HandleSeqnoRequest e s from src q h).1 adv = false.
Proof.
  intros Hwf He Hq. unfold HandleSeqnoRequest, opposite_answer.
  destruct (rs_Routes s !! src_Prefix src) as [r|] eqn:Er; [|by intros ?%not_elem_of_nil].
  pose proof (answer_covered s from src q r) as Hcov. pose proof (answer_wf s from src q r Hwf Er) as Hwf1.
  assert (rs_Id (answer_request s from src q r).1 = rs_Id s) as Hid by (unfold answer_request; case_goal; [by rewrite updateFeasibility_eq|done]).
  assert (∀ x, x ∈ (answer_request s from src q r).2 → x = ActSendRouteUpdate from (sr_Pub r) ∧
    (src_NodeId (sr_Source r) = src_NodeId src → SeqnoGe (sr_Seqno r) q = true)) as Hans.
  { unfold answer_request. intros x. destruct (negb _ && _) eqn:Eg; [|by intros ?%not_elem_of_nil]. intros ->%list_elem_of_singleton.
    split; [done|]. intros Heq. apply andb_prop in Eg as [_ Eg]. rewrite bool_decide_eq_true_2 in Eg by done. exact Eg. }
  destruct (answer_request s from src q r) as [s1 out1]. cbn [fst snd] in *.
  destruct (_ && SeqnoGt q (sr_Seqno r)) eqn:Ec; [|by eauto]. apply andb_prop in Ec as [Esame%bool_decide_eq_true Egt].
  case_bool_decide as Hown.
  - pose proof (compute_covered e (SetSeqno s1 (pr_Prefix (sr_Pub r)) q)) as Hcov2.
    destruct (ComputeRoutes e _) as [s2 out2]. cbn [fst snd] in *. intros [Ha|Ha]%elem_of_app Hs Hfin Hno; [exfalso|].
    + destruct (Hans a Ha) as [-> Hge]. injection Hs as <-. apply Hno. exists r. split; [done|]. split; [done|]. split; [by rewrite <-Hid|].
      apply opposite_spec; [by apply Hge|done|done|]. by apply (wf_routes _ Hwf) in Er as [_ [? _]].
    + eapply Hcov2; try done. by apply SetSeqno_wf.
  - assert (∀ b, sent b = None → covered s1 (out1 ++ [b])) as Hreq.
    { intros b Hb. apply covered_app. split; [done|]. apply covered_other. by repeat constructor. }
    intros Ha Hs Hfin _. destruct (_ && _); [|by apply (Hcov a)].
    destruct (forward_target _ _ _ _) as [m|]; [|by apply (Hcov a)]. by apply (Hreq (ActRequestSeqno m src q (uint8 (h - 1))) eq_refl a).
Qed.

Lemma ack_covered e s neigh p :
  wf s → env_wf e → covered (HandleAckRetract e s neigh p).1 (HandleAckRetract e s neigh p).2.
Proof.
  intros Hwf He. unfold HandleAckRetract. destruct (rs_Routes s !! p) as [r|] eqn:Er.
  2: apply covered_other; by repeat constructor.
  repeat (case_goal; [by apply covered_other|]). apply compute_covered; [|done].
  split; try apply Hwf. apply map_Forall_insert_2; [|apply Hwf]. by apply (wf_routes _ Hwf) in Er.
Qed.

(** Handling an update sends none. *)
Lemma update_other e s neigh adv s' out :
  HandleNeighbourUpdate e s neigh adv = Some (s', out) → Forall (λ a, sent a = None) out.
Proof.
  unfold HandleNeighbourUpdate. destruct (GetNeighbour s neigh); [|done].
  intros H. repeat case_hyp H; simplify_eq; by repeat constructor.
Qed.

Lemma starvation_other e s : Forall (λ a, sent a = None) (SolveStarvation e s).
Proof.
  unfold SolveStarvation. apply (foldl_ind (λ out, Forall (λ a, sent a = None) out)); [done|].
  intros out [src f] _ IH. case_goal; [|done]. apply Forall_app. split; [done|by repeat constructor].
Qed.

Lemma operation_covered e s op s' out a adv :
  wf s → env_wf e → op_wf op → run_op e s op = Some (s', out) → a ∈ out → sent a = Some adv → pr_Metric adv ≠ INF →
  ¬ opposite_answer s op adv → checkFeasibility s' adv = false.
Proof.
  intros Hwf He Hop Hrun Ha Hs Hfin Hno.
  assert (∀ x, Some x = Some (s', out) → covered x.1 x.2 → checkFeasibility s' adv = false) as Hall
    by (intros x [= ->] Hc; by eapply Hc).
  destruct op; cbn [run_op] in Hrun.
  - apply (Hall _ Hrun). by apply compute_covered.
  - apply (Hall _ Hrun). rewrite FullTableUpdate_eq. by apply full_covered.
  - apply (Hall _ Hrun). rewrite PushFullTable_eq. by apply full_covered.
  - apply (Hall _ Hrun). by apply gc_covered.
  - destruct Hop. apply (inj Some) in Hrun. pose proof (seqno_covered e s fromNeigh src reqSeqno hopCnt a adv Hwf He) as Hc. rewrite Hrun in Hc. by apply Hc.
  - apply (Hall _ Hrun). by apply ack_covered.
  - apply (Hall (s', out) eq_refl). apply covered_other. by eapply update_other.
  - apply (Hall _ Hrun). apply covered_other, starvation_other.
Qed.

(** C13: the feasibility discipline of RFC 8966, 3.7.3.  After any operation, an echo of a
    finite update that the operation sent, with the same source and number and a metric that is
    not smaller, is not feasible; so a usable route that is selected for that source
    and number, as long as the source table is the same, is for a prefix the node advertises itself, or comes from
    an announcement with a smaller metric than the update had, and never from an
    echo.  The one exception is the answer to a request for a prefix that this
    node originates, with a number exactly half the number space away from its own. *)
Theorem sent_updates_infeasible e s op s' out a adv :
  wf s → env_wf e → op_wf op → run_op e s op = Some (s', out) → a ∈ out → sent a = Some adv → pr_Metric adv ≠ INF →
  ¬ opposite_answer s op adv →
  (∀ echo, pr_Source echo = pr_Source adv → pr_Seqno echo = pr_Seqno adv → pr_Metric adv <= pr_Metric echo → pr_Metric echo ≠ INF →
     checkFeasibility s' echo = false) ∧
  (∀ e2 s2 p r, rs_Sources s2 = rs_Sources s' → rs_Routes (ComputeRoutes e2 s2).1 !! p = Some r → sr_Metric r ≠ INF →
     sr_Source r = pr_Source adv → sr_Seqno r = pr_Seqno adv →
     is_Some (rs_Advertised s2 !! p) ∨
     ∃ n nr, n ∈ rs_Neighbours s2 ∧ n_Routes n !! p = Some nr ∧ sr_Nh r = n_Id n ∧ pr_Source (nr_Pub nr) = pr_Source adv ∧
       pr_Seqno (nr_Pub nr) = pr_Seqno adv ∧ pr_Metric (nr_Pub nr) < pr_Metric adv).
Proof.
  intros Hwf He Hop Hrun Ha Hs Hfin Hno. pose proof (operation_covered _ _ _ _ _ _ _ Hwf He Hop Hrun Ha Hs Hfin Hno) as Hinf.
  assert (∀ echo, pr_Source echo = pr_Source adv → pr_Seqno echo = pr_Seqno adv → pr_Metric adv <= pr_Metric echo → pr_Metric echo ≠ INF →
    checkFeasibility s' echo = false) as Hecho by (intros; by eapply checkFeasibility_worse).
  split; [done|]. intros e2 s2 p r Hsrc Hr Hrfin Hsame Hnum. rewrite compute_Routes in Hr.
  destruct (final_at_finite _ _ _ _ _ _ Hr Hrfin) as [(x & Hx & _)|(n & c & Hn & Hc & ->)]; [left; by rewrite Hx|right].
  apply neigh_candidate_Some in Hc as (nr & Hnr & (Hm & Hf & ->)%adv_candidate_Some). cbn in Hsame, Hnum.
  exists n, nr. do 5 (split; [done|]). destruct (Z_lt_ge_dec (pr_Metric (nr_Pub nr)) (pr_Metric adv)) as [|Hge]; [done|exfalso].
  assert (checkFeasibility s' (nr_Pub nr) = true) as Hf' by (unfold checkFeasibility in *; by rewrite <-Hsrc).
  rewrite Hecho in Hf'; [done|done|done|lia|]. intros HI. apply Hm. change (nr_Metric nr) with (pr_Metric (nr_Pub nr)). rewrite HI. apply AddMetric_INF_r.
Qed.

End feasibility.

(** ** Witnesses *)

Section witnesses.
Import Demo.

Definition cand_of (p : Prefix) (i : nat) : option candidate :=
  n ← rs_Neighbours state !! i; neigh_candidate (env_now env) state (links_of env state) p n.

(** [a] keeps [c] for [p10]: [b] is cheaper, but its smoothed metric is not. *)
Lemma compute_routes_sound_witness :
  ∃ r, rs_Routes (ComputeRoutes (MR := sorted_range) env state).1 !! p10 = Some r ∧ sr_Nh r = "c" ∧
  ((∃ adv, rs_Advertised state !! p10 = Some adv ∧ r = advertised_route env state p10 adv) ∨
   ∃ n adv, n ∈ rs_Neighbours state ∧ n_Routes n !! p10 = Some adv ∧ linked (env_now env) n = true ∧
    nr_Metric adv ≠ INF ∧ checkFeasibility state (nr_Pub adv) = true ∧
    sr_Nh r = n_Id n ∧ sr_Source r = pr_Source (nr_Pub adv) ∧ sr_Seqno r = pr_Seqno (nr_Pub adv) ∧
    sr_Metric r = Z.min INFM (LinkCost (env_now env) (n_Eps n) + HopCost (rs_tun state) + TransitCost (rs_tun state)
                              + nr_Metric adv)).
Proof.
  assert (rs_Routes (ComputeRoutes (MR := sorted_range) env state).1 !! p10 =
          Some (sel "z" p10 5 100 "c" 5000).2) as H by by vm_compute.
  eexists. split; [exact H|]. split; [done|].
  apply (compute_routes_sound (MR := sorted_range) env state p10); [apply state_ok|exact H|by vm_compute].
Defined.

Lemma compute_routes_hysteresis_witness :
  ∃ cur, cand_of p10 1 = Some cur ∧
  (rs_Routes (ComputeRoutes (MR := sorted_range) env state).1 !! p10 = Some (cand_route cur) ∨
   ∃ n' c, n' ∈ rs_Neighbours state ∧ neigh_candidate (env_now env) state (links_of env state) p10 n' = Some c ∧
     rs_Routes (ComputeRoutes (MR := sorted_range) env state).1 !! p10 = Some (cand_route c) ∧
     sr_Metric (cand_route c) < sr_Metric (cand_route cur) ∧
     f64_ltb (cand_smoothed c) (cand_smoothed cur) = true).
Proof.
  destruct (cand_of p10 1) as [cur|] eqn:E; [|by vm_compute in E].
  unfold cand_of in E. destruct (rs_Neighbours state !! 1%nat) as [n|] eqn:En; [|by vm_compute in En]. cbn in E.
  exists cur. split; [done|].
  apply (compute_routes_hysteresis (MR := sorted_range) env state p10 (sel "z" p10 5 100 "c" 5000).2 n cur).
  - apply state_ok.
  - by vm_compute.
  - by vm_compute.
  - by vm_compute.
  - by eapply list_elem_of_lookup_2.
  - exact E.
  - vm_compute in En. injection En as <-. vm_compute in E. injection E as <-. by vm_compute.
Defined.

(** Without the table entry, [b] is chosen. *)
Definition fresh_state : RouterState Wire := set_Routes state ∅.

Lemma compute_routes_optimal_witness :
  ∃ n' c', n' ∈ rs_Neighbours fresh_state ∧
    neigh_candidate (env_now env) fresh_state (links_of env fresh_state) p10 n' = Some c' ∧
    rs_Routes (ComputeRoutes (MR := sorted_range) env fresh_state).1 !! p10 = Some (cand_route c') ∧
    ∀ m d, m ∈ rs_Neighbours fresh_state →
      neigh_candidate (env_now env) fresh_state (links_of env fresh_state) p10 m = Some d →
      sr_Metric (cand_route c') <= sr_Metric (cand_route d).
Proof.
  destruct (rs_Neighbours fresh_state !! 1%nat) as [n|] eqn:En; [|by vm_compute in En].
  destruct (neigh_candidate (env_now env) fresh_state (links_of env fresh_state) p10 n)
    as [c|] eqn:Ec.
  - apply (compute_routes_optimal (MR := sorted_range) env fresh_state p10 n c);
      [by vm_compute|by vm_compute|by eapply list_elem_of_lookup_2|exact Ec].
  - vm_compute in En. injection En as <-. by vm_compute in Ec.
Defined.

(** The link to [d] is down, so [p11] is lost. *)
Lemma compute_routes_retracts_witness :
  rs_Routes (ComputeRoutes (MR := sorted_range) env state).1 !! p11 = Some (blackhole (sel "z" p11 2 90 "d" 5000).2) ∧
  ActBroadcastSendRouteUpdate (pub "z" p11 2 INF) ∈ (ComputeRoutes (MR := sorted_range) env state).2 ∧
  ActTableInsertRoute p11 (blackhole (sel "z" p11 2 90 "d" 5000).2) ∈ (ComputeRoutes (MR := sorted_range) env state).2.
Proof.
  apply (compute_routes_retracts (MR := sorted_range) env state p11 (sel "z" p11 2 90 "d" 5000).2).
  - by vm_compute.
  - by vm_compute.
  - intros r Hr. vm_compute in Hr. injection Hr as <-. by vm_compute.
Defined.

(** The state after [p11] was lost. *)
Definition held_state : RouterState Wire := (ComputeRoutes (MR := sorted_range) env state).1.

Lemma compute_routes_hold_witness :
  rs_Routes (ComputeRoutes (MR := sorted_range) env held_state).1 !! p11 =
  Some (blackhole (sel "z" p11 2 90 "d" 5000).2).
Proof.
  rewrite (compute_routes_hold (MR := sorted_range) env held_state p11 (blackhole (sel "z" p11 2 90 "d" 5000).2)).
  - by vm_compute.
  - by vm_compute.
  - by vm_compute.
  - by vm_compute.
  - by vm_compute.
  - assert (forallb (λ n, if neigh_candidate (env_now env) held_state (links_of env held_state) p11 n is Some _
        then false else true) (rs_Neighbours held_state) = true) as H by by vm_compute.
    intros n Hn. rewrite forallb_forall in H. apply list_elem_of_In, H in Hn. by case_hyp Hn.
Defined.

Lemma compute_routes_order_independent_witness :
  (ComputeRoutes (MR := sorted_range) env state).1 = (ComputeRoutes (MR := reversed_range) env state).1 ∧
  (ComputeRoutes (MR := sorted_range) env state).2 ≡ₚ (ComputeRoutes (MR := reversed_range) env state).2.
Proof. apply (compute_routes_order_independent sorted_range reversed_range env state); [apply state_ok|apply env_ok]. Defined.

(** A request for [p10] with an older number is answered, and the answer is covered. *)
Lemma sent_updates_infeasible_witness :
  checkFeasibility (HandleSeqnoRequest (MR := sorted_range) env state "b" (mkSource "z" p10) 5 10).1
    (pub "z" p10 5 110) = false.
Proof.
  destruct (HandleSeqnoRequest (MR := sorted_range) env state "b" (mkSource "z" p10) 5 10) as [s' out] eqn:E.
  destruct (sent_updates_infeasible (MR := sorted_range) env state (OpSeqnoRequest "b" (mkSource "z" p10) 5 10) s' out
    (ActSendRouteUpdate "b" (pub "z" p10 5 100)) (pub "z" p10 5 100)) as [H _].
  - apply state_ok.
  - apply env_ok.
  - by vm_compute.
  - cbn [run_op]. by rewrite E.
  - assert (out = [ActSendRouteUpdate "b" (pub "z" p10 5 100)]) as ->; [|by left].
    change out with (s', out).2. rewrite <-E. by vm_compute.
  - done.
  - by vm_compute.
  - intros (r & _ & _ & _ & Ho). by vm_compute in Ho.
  - apply (H (pub "z" p10 5 110)); by vm_compute.
Defined.

End witnesses.
