(* ===== verification/RouterRequests.v ===== *)
(** Correctness of the handlers around route computation: the source table, seqno
    requests, neighbour updates, starvation, garbage collection and reachable states. *)

From S2P Require Import Prelude NetIP Float64 Metric Routing RouterAlgo RouterFacts RouterInv RouterOps RouterProps.

(** ** Lemmas *)

Section lemmas.
Context {Ep : Type} `{LL : LinkLayer Ep} `{MR : MapRange}.
Implicit Types s : RouterState Ep.

(** The entry of [src] only improves. *)
Definition improves s s' src : Prop :=
  ∀ f, rs_Sources s !! src = Some f → ∃ f', rs_Sources s' !! src = Some f' ∧ fd_le f' f.

Lemma improves_refl s s' src : rs_Sources s' = rs_Sources s → improves s s' src.
Proof. intros Heq f Hf. rewrite Heq. exists f. split; [done|apply fd_le_refl]. Qed.

Lemma compute_improves e s src : wf s → env_wf e → improves s (ComputeRoutes e s).1 src.
Proof.
  intros Hwf He f Hf. rewrite compute_Sources by by apply table_of_prefix.
  assert (∃ f', Some f = Some f' ∧ fd_le f' f) as Hid by (exists f; split; [done|apply fd_le_refl]).
  destruct (selected_at _ _ _ _ _); rewrite Hf; [|done]. case_goal; [|done].
  eexists. split; [done|]. apply fd_update_le_old.
Qed.

Lemma note_improves b s src :
  wf s → improves s (set_Sources s (foldl (note_source b) (rs_Sources s) (map_range (rs_Routes s)))) src.
Proof.
  intros Hwf f Hf. cbn. rewrite note_sources_lookup.
  2: { intros p r Hr. by apply (wf_routes _ Hwf) in Hr as [? _]. }
  assert (∃ f', Some f = Some f' ∧ fd_le f' f) as Hid by (exists f; split; [done|apply fd_le_refl]).
  destruct (rs_Routes s !! src_Prefix src); rewrite Hf; [|done]. case_goal; [|done].
  eexists. split; [done|]. apply fd_update_le_old.
Qed.

Lemma updateFeasibility_improves s r src : improves s (updateFeasibility s r) src.
Proof.
  intros f Hf. rewrite updateFeasibility_Sources. destruct (decide (pr_Source r = src)) as [<-|Hne].
  - rewrite lookup_insert_eq, Hf. eexists. split; [done|]. apply fd_update_le_old.
  - rewrite lookup_insert_ne by done. exists f. split; [done|apply fd_le_refl].
Qed.

Lemma put_neighbour_Sources s id f : rs_Sources (put_neighbour s id f) = rs_Sources s.
Proof. unfold put_neighbour. by destruct (list_find _ _) as [[]|]. Qed.

Lemma put_neighbour_Routes s id f : rs_Routes (put_neighbour s id f) = rs_Routes s.
Proof. unfold put_neighbour. by destruct (list_find _ _) as [[]|]. Qed.

Lemma HandleNeighbourUpdate_frame e s neigh adv s' out :
  HandleNeighbourUpdate e s neigh adv = Some (s', out) →
  rs_Sources s' = rs_Sources s ∧ rs_Routes s' = rs_Routes s.
Proof.
  unfold HandleNeighbourUpdate. destruct (GetNeighbour s neigh); [|done].
  intros H. repeat case_hyp H; simplify_eq; try done; unfold put_route;
    by rewrite put_neighbour_Sources, put_neighbour_Routes.
Qed.

Lemma seqno_improves e s from src q h x :
  wf s → env_wf e → is_seqno q → op_ordered s (OpSeqnoRequest from src q h) →
  improves s (HandleSeqnoRequest e s from src q h).1 x.
Proof.
  intros Hwf He Hq Hord. unfold HandleSeqnoRequest.
  destruct (rs_Routes s !! src_Prefix src) as [r|] eqn:Er; [|by apply improves_refl].
  destruct (_ && SeqnoGt q (sr_Seqno r)) eqn:Ec.
  - rewrite answer_excl; [|try done..]; [|by apply (wf_routes _ Hwf) in Er as [_ ?]|by apply Hord].
    case_goal.
    + pose proof (compute_improves e (SetSeqno s (pr_Prefix (sr_Pub r)) q) x) as Hcov.
      destruct (ComputeRoutes _ _). apply Hcov; [by apply SetSeqno_wf|done].
    + repeat case_goal; by apply improves_refl.
  - unfold answer_request. case_goal; [apply updateFeasibility_improves|by apply improves_refl].
Qed.

Lemma ack_improves e s neigh p src : wf s → env_wf e → improves s (HandleAckRetract e s neigh p).1 src.
Proof.
  intros Hwf He. unfold HandleAckRetract. destruct (rs_Routes s !! p) as [r|] eqn:Er; [|by apply improves_refl].
  repeat (case_goal; [by apply improves_refl|]).
  apply (compute_improves e (set_Routes s _) src); [|done].
  split; try apply Hwf. apply map_Forall_insert_2; [|apply Hwf]. by apply (wf_routes _ Hwf) in Er.
Qed.

(** ** Looking for a neighbour *)

(** The first neighbour with an announcement that satisfies [b]. *)
Lemma NeighContainsFunc_first f (b : NodeId → NeighRoute → bool) s (nh : option NodeId) :
  (∀ a id r, f a id r = if b id r then (Some id, true) else (a, false)) →
  NeighContainsFunc s f nh =
  match list_find (λ n, existsb (λ x, b (n_Id n) x.2) (map_range (n_Routes n)) = true) (rs_Neighbours s) with
  | Some (_, n) => (Some (n_Id n), true)
  | None => (nh, false)
  end.
Proof.
  intros Hf. unfold NeighContainsFunc. induction (rs_Neighbours s) as [|n l IH]; [done|].
  cbn [neighs_contain list_find].
  assert (contains_in f nh (n_Id n) (map_range (n_Routes n))
    = if existsb (λ x, b (n_Id n) x.2) (map_range (n_Routes n)) then (Some (n_Id n), true) else (nh, false)) as ->.
  { induction (map_range (n_Routes n)) as [|[p r] l' IH']; [done|]. cbn. rewrite Hf.
    destruct (b (n_Id n) r); [done|apply IH']. }
  destruct (existsb _ _) eqn:E.
  - by rewrite decide_True.
  - rewrite decide_False by done. rewrite IH. by destruct (list_find _ _) as [[]|].
Qed.

Lemma existsb_map_range {K V} `{Countable K} (f : K * V → bool) (m : gmap K V) :
  existsb f (map_range m) = true ↔ ∃ k v, m !! k = Some v ∧ f (k, v) = true.
Proof.
  rewrite existsb_exists. split.
  - intros ([k v] & Hin%list_elem_of_In%elem_of_map_range & Hf). eauto.
  - intros (k & v & Hk & Hf). exists (k, v). split; [|done]. by apply list_elem_of_In, elem_of_map_range.
Qed.

(** An announcement over which a request may be forwarded. *)
Definition forwardable (now : Z) s (from : NodeId) (src : Source) (feasibleOnly : bool) (id : NodeId)
    (r : NeighRoute) : bool :=
  match GetNeighbour s id with Some n => linked now n | None => false end
  && bool_decide (src_Prefix src = pr_Prefix (nr_Pub r)) && negb (bool_decide (id = from))
  && negb (nr_Metric r =? INF) && (negb feasibleOnly || checkFeasibility s (nr_Pub r)).

Lemma forward_pred_eq now s from src b a id r :
  forward_pred now s from src b a id r =
  if forwardable now s from src b id r then (Some id, true) else (a, false).
Proof.
  unfold forward_pred, forwardable, linked.
  destruct (GetNeighbour s id) as [n|]; [|done]. by destruct (BestEndpoint now (n_Eps n)).
Qed.

(** A neighbour over which a request may be forwarded. *)
Definition can_forward (now : Z) s (from : NodeId) (src : Source) (feasibleOnly : bool) (n : Neighbour Ep) : Prop :=
  n ∈ rs_Neighbours s ∧ linked now n = true ∧ n_Id n ≠ from ∧
  ∃ r, n_Routes n !! src_Prefix src = Some r ∧ nr_Metric r ≠ INF ∧
    (feasibleOnly = true → checkFeasibility s (nr_Pub r) = true).

Lemma GetNeighbour_elem s n : wf s → n ∈ rs_Neighbours s → GetNeighbour s (n_Id n) = Some n.
Proof.
  intros Hwf Hn. destruct (GetNeighbour s (n_Id n)) as [n'|] eqn:E.
  - apply GetNeighbour_Some in E as [Hn' Hid]. f_equal. by eapply neigh_eq.
  - apply GetNeighbour_None in E. exfalso. apply E, list_elem_of_fmap. eauto.
Qed.

Lemma forwardable_spec now s from src b n :
  wf s → n ∈ rs_Neighbours s →
  existsb (λ x, forwardable now s from src b (n_Id n) x.2) (map_range (n_Routes n)) = true ↔
  can_forward now s from src b n.
Proof.
  intros Hwf Hn. rewrite existsb_map_range. unfold forwardable, can_forward.
  rewrite (GetNeighbour_elem s n Hwf Hn). cbn [snd]. split.
  - intros (p & r & Hr & H). to_prop. split; [done|]. split; [done|]. split; [done|].
    pose proof (wf_neigh s n Hwf Hn p r Hr) as [Hp _]. exists r. split; [congruence|]. split; [done|].
    intros ->. cbn in *. destruct_or?; done.
  - intros (_ & Hl & Hne & r & Hr & Hfin & Hf). exists (src_Prefix src), r. split; [done|].
    pose proof (wf_neigh s n Hwf Hn _ r Hr) as [Hp _]. rewrite Hl, Hp, !bool_decide_eq_true_2 by done.
    rewrite bool_decide_eq_false_2 by done. apply Z.eqb_neq in Hfin. rewrite Hfin. cbn.
    destruct b; [by rewrite Hf|done].
Qed.

(** Where a request is forwarded to. *)
Lemma forward_target_Some now s from src id :
  wf s → forward_target now s from src = Some id →
  ∃ n, n_Id n = id ∧ can_forward now s from src false n ∧
    (can_forward now s from src true n ∨ ∀ m, ¬ can_forward now s from src true m).
Proof.
  intros Hwf. unfold forward_target.
  rewrite (NeighContainsFunc_first _ _ _ _ (forward_pred_eq now s from src true)).
  destruct (list_find _ _) as [[i n]|] eqn:E1.
  { intros [= <-]. apply list_find_Some in E1 as (Hi & Hex & _). apply list_elem_of_lookup_2 in Hi.
    apply forwardable_spec in Hex; [|done..]. exists n. split; [done|]. split; [|by left].
    destruct Hex as (? & ? & ? & r & ? & ? & _). repeat split; try done. exists r. by repeat split. }
  apply list_find_None in E1. rewrite Forall_forall in E1.
  rewrite (NeighContainsFunc_first _ _ _ _ (forward_pred_eq now s from src false)).
  destruct (list_find _ _) as [[i n]|] eqn:E2; [|done]. intros [= <-].
  apply list_find_Some in E2 as (Hi & Hex & _). apply list_elem_of_lookup_2 in Hi.
  apply forwardable_spec in Hex; [|done..]. exists n. split; [done|]. split; [done|right].
  intros m Hm. pose proof Hm as [Hin _]. apply (E1 m Hin). by apply forwardable_spec.
Qed.

Lemma forward_target_None now s from src n :
  wf s → forward_target now s from src = None → ¬ can_forward now s from src false n.
Proof.
  intros Hwf. unfold forward_target.
  rewrite (NeighContainsFunc_first _ _ _ _ (forward_pred_eq now s from src true)).
  destruct (list_find _ _) as [[i m]|]; [done|].
  rewrite (NeighContainsFunc_first _ _ _ _ (forward_pred_eq now s from src false)).
  destruct (list_find _ _) as [[i m]|] eqn:E2; [done|]. intros _ Hn. pose proof Hn as [Hin _].
  apply list_find_None in E2. rewrite Forall_forall in E2. apply (E2 n Hin). by apply forwardable_spec.
Qed.

End lemmas.

Section acts.
Context {Ep : Type} `{LL : LinkLayer Ep} `{MR : MapRange}.
Implicit Types s : RouterState Ep.

(** The calls route computation makes. *)
Definition compute_kind (a : Act) : bool :=
  match a with
  | ActRouterEvent _ | ActTableInsertRoute _ _ | ActBroadcastSendRouteUpdate _ => true
  | _ => false
  end.

Lemma compute_acts e s a : a ∈ (ComputeRoutes e s).2 → compute_kind a = true.
Proof.
  intros Ha. rewrite compute_out, !elem_of_app, !list_elem_of_In, !in_flat_map in Ha.
  destruct Ha as [[Ha|([p r] & _ & Ha)]|([p r] & _ & Ha)].
  - apply list_elem_of_In, list_elem_of_fmap in Ha as (? & -> & _). done.
  - unfold pub_acts, table_acts in Ha. cbn [fst snd] in Ha. apply in_app_iff in Ha as [Ha|Ha];
      repeat case_hyp Ha; cbn in Ha; destruct_or?; by subst.
  - unfold ret_acts, retract in Ha. cbn [fst snd] in Ha.
    repeat case_hyp Ha; cbn in Ha; destruct_or?; by subst.
Qed.

(** A request for a route of ours that it does not satisfy; what is passed on. *)
Lemma seqno_foreign e s from src q h r :
  rs_Routes s !! src_Prefix src = Some r → src_NodeId (sr_Source r) = src_NodeId src →
  src_NodeId src ≠ rs_Id s → SeqnoGt q (sr_Seqno r) = true → 2 <= h →
  (HandleSeqnoRequest e s from src q h).2 = (answer_request s from src q r).2 ++
    match forward_target (env_now e) (answer_request s from src q r).1 from src with
    | Some n => [ActRequestSeqno n src q (uint8 (h - 1))]
    | None => []
    end.
Proof.
  intros Hr Hid Hself Hgt Hh. unfold HandleSeqnoRequest. rewrite Hr.
  assert (rs_Id (answer_request s from src q r).1 = rs_Id s ∧
          rs_Routes (answer_request s from src q r).1 = rs_Routes s) as [HI HR].
  { unfold answer_request. case_goal; [|done]. by rewrite updateFeasibility_eq. }
  destruct (answer_request s from src q r) as [s1 out1]. cbn [fst snd] in *.
  rewrite HI, HR, Hr, Hgt, Hid, bool_decide_eq_true_2 by done.
  rewrite bool_decide_eq_false_2 by done. cbn [andb].
  rewrite bool_decide_eq_true_2 by (by eexists). rewrite (proj2 (Z.leb_le 2 h)) by done. cbn [andb].
  destruct (forward_target _ _ _ _); cbn; by rewrite ?app_nil_r.
Qed.

Lemma answer_no_request s from src q r a :
  a ∈ (answer_request s from src q r).2 → a = ActSendRouteUpdate from (sr_Pub r).
Proof.
  unfold answer_request. case_goal; cbn; [|by intros ?%not_elem_of_nil].
  by intros ->%list_elem_of_singleton.
Qed.

(** ** Announcements *)

(** What a neighbour announces for a prefix. *)
Definition announcement s (id : NodeId) (p : Prefix) : option NeighRoute :=
  GetNeighbour s id ≫= λ n, n_Routes n !! p.

Lemma announcement_put s neigh p r n id q :
  GetNeighbour s neigh = Some n →
  announcement (put_route s neigh p r) id q =
  if decide (id = neigh ∧ q = p) then Some r else announcement s id q.
Proof.
  intros Hn. unfold announcement, put_route. destruct (decide (neigh = id)) as [<-|Hne].
  - rewrite (put_neighbour_lookup s neigh _ n), Hn by done. cbn.
    destruct (decide (p = q)) as [<-|Hpq].
    + by rewrite lookup_insert_eq, decide_True.
    + rewrite lookup_insert_ne by done. rewrite decide_False; [done|]. intros [_ ?]. congruence.
  - rewrite put_neighbour_other by done. rewrite decide_False; [done|]. intros [? _]. congruence.
Qed.

(** The selected route for the prefix of [adv] is the one the neighbour announces. *)
Definition selected_via s (neigh : NodeId) (adv : PubRoute) : Prop :=
  ∃ r, rs_Routes s !! pr_Prefix adv = Some r ∧ sr_Nh r = neigh ∧ sr_Source r = pr_Source adv.

#[export] Instance selected_via_dec s neigh adv : Decision (selected_via s neigh adv).
Proof.
  unfold selected_via. destruct (rs_Routes s !! pr_Prefix adv) as [r|].
  - destruct (decide (sr_Nh r = neigh ∧ sr_Source r = pr_Source adv)); [left|right]; naive_solver.
  - right. naive_solver.
Defined.

(** The entry an update leaves. *)
Definition updated_entry (e : Env) s (neigh : NodeId) (adv : PubRoute) : option NeighRoute :=
  let expiry := env_now e + RouteExpiryTime (rs_tun s) in
  match announcement s neigh (pr_Prefix adv) with
  | None => if checkFeasibility s adv && negb (pr_Metric adv =? INF)
            then Some (mkNeighRoute adv expiry f64_zero) else None
  | Some old => if negb (checkFeasibility s adv) && bool_decide (selected_via s neigh adv) then Some old
                else Some (mkNeighRoute adv (if pr_Metric adv =? INF then nr_ExpireAt old else expiry)
                             (nr_SmoothedMetric old))
  end.

Lemma selected_bool s neigh adv :
  match rs_Routes s !! pr_Prefix adv with
  | Some r => bool_decide (sr_Nh r = neigh) && bool_decide (sr_Source r = pr_Source adv)
  | None => false
  end = bool_decide (selected_via s neigh adv).
Proof.
  case_bool_decide as Hs; unfold selected_via in Hs.
  - destruct Hs as (r & -> & -> & ->). by rewrite !bool_decide_eq_true_2.
  - destruct (rs_Routes s !! pr_Prefix adv) as [r|]; [|done].
    repeat case_bool_decide; naive_solver.
Qed.

Lemma can_forward_weaken now s from src b n :
  can_forward now s from src b n → can_forward now s from src false n.
Proof. intros (? & ? & ? & r & ? & ? & _). repeat split; try done. exists r. by repeat split. Qed.

End acts.

(** ** Properties *)

Section props.
Context {Ep : Type} `{LL : LinkLayer Ep} `{MR : MapRange}.
Implicit Types s : RouterState Ep.

(** feasibility distances never get worse: every operation leaves an entry of the
    source table at least as good as it was, and only garbage collection removes one,
    when no table refers to its source. *)
Theorem source_table_monotone e s op s' out src f :
  wf s → env_wf e → op_wf op → op_ordered s op → run_op e s op = Some (s', out) →
  rs_Sources s !! src = Some f →
  (∃ f', rs_Sources s' !! src = Some f' ∧ fd_le f' f) ∨
  (op = OpRunGC ∧ rs_Sources s' !! src = None ∧ source_used s' src = false).
Proof.
  intros Hwf He Hop Hord Hrun Hf.
  assert (op ≠ OpRunGC → improves s (s', out).1 src) as Himp.
  { intros Hgc. destruct op; cbn [run_op] in Hrun; try injection Hrun as Hrun; try rewrite <-Hrun.
    - by apply compute_improves.
    - rewrite FullTableUpdate_eq. by apply note_improves.
    - rewrite PushFullTable_eq. by apply note_improves.
    - done.
    - destruct Hop. by apply seqno_improves.
    - by apply ack_improves.
    - apply improves_refl. by eapply HandleNeighbourUpdate_frame.
    - by apply improves_refl. }
  destruct (decide (op = OpRunGC)) as [->|Hne]; [|left; by apply Himp].
  cbn [run_op] in Hrun. rewrite RunGC_eq, gc_sources_eq in Hrun. injection Hrun as <- <-. cbn [rs_Sources set_Sources].
  rewrite map_lookup_filter.
  destruct (compute_improves e (gc_start e s) src (gc_start_wf e s Hwf) He f Hf) as (f' & Hf' & Hle).
  rewrite Hf'. cbn.
  destruct (source_used (ComputeRoutes e (gc_start e s)).1 src) eqn:Eu.
  - left. exists f'. by rewrite option_guard_True.
  - right. rewrite option_guard_False by done. done.
Qed.

(** a seqno request is passed on only with its hop count lowered, when two hops or more
    remain, to a neighbour with a live link other than the one it came from that announces
    a usable route for the prefix; and only if the selected route carries the requested
    router id, which is not ours, and an older sequence number. *)
Theorem seqno_request_forward e s from src q h n src' q' h' :
  wf s → is_u8 h →
  ActRequestSeqno n src' q' h' ∈ (HandleSeqnoRequest e s from src q h).2 →
  src' = src ∧ q' = q ∧ 2 <= h ∧ h' = h - 1 ∧ n ≠ from ∧
  (∃ r, rs_Routes s !! src_Prefix src = Some r ∧ src_NodeId (sr_Source r) = src_NodeId src ∧
    src_NodeId src ≠ rs_Id s ∧ SeqnoGt q (sr_Seqno r) = true) ∧
  ∃ nb, n_Id nb = n ∧ can_forward (env_now e) s from src false nb.
Proof.
  intros Hwf Hh Ha.
  destruct (rs_Routes s !! src_Prefix src) as [r|] eqn:Er.
  2: { unfold HandleSeqnoRequest in Ha. rewrite Er in Ha. by apply not_elem_of_nil in Ha. }
  destruct (decide (src_NodeId (sr_Source r) = src_NodeId src ∧ src_NodeId src ≠ rs_Id s ∧
    SeqnoGt q (sr_Seqno r) = true ∧ 2 <= h)) as [(Hid & Hself & Hgt & H2)|Hno].
  - rewrite (seqno_foreign e s from src q h r) in Ha by done.
    apply elem_of_app in Ha as [Ha|Ha]; [by apply answer_no_request in Ha|].
    assert (wf (answer_request s from src q r).1) as Hwf1.
    { apply answer_request_wf; [done|]. by apply (wf_routes _ Hwf) in Er as [_ ?]. }
    destruct (forward_target _ _ _ _) as [m|] eqn:Et; [|by apply not_elem_of_nil in Ha].
    apply list_elem_of_singleton in Ha. injection Ha as -> -> -> ->.
    apply forward_target_Some in Et as (nb & Hnb & Hcf & _); [|done].
    assert (can_forward (env_now e) s from src false nb) as Hcf'.
    { revert Hcf. unfold answer_request. case_goal; [|done]. rewrite updateFeasibility_eq.
      intros (? & ? & ? & x & ? & ? & _). repeat split; try done. exists x. by repeat split. }
    assert (uint8 (h - 1) = h - 1) as ->. { apply wrap_small. unfold in_width in *. lia. }
    repeat split; try done; [|by exists r|by exists nb].
    destruct Hcf' as (_ & _ & Hne & _). congruence.
  - exfalso. apply Hno. unfold HandleSeqnoRequest in Ha. rewrite Er in Ha.
    assert (rs_Id (answer_request s from src q r).1 = rs_Id s) as HI.
    { unfold answer_request. case_goal; [|done]. by rewrite updateFeasibility_eq. }
    pose proof (answer_no_request s from src q r (ActRequestSeqno n src' q' h')) as Hans.
    destruct (answer_request s from src q r) as [s1 out1]. cbn [fst snd] in *.
    case_hyp Ha; [|by apply Hans in Ha]. to_prop. case_hyp Ha.
    + destruct (ComputeRoutes e (SetSeqno s1 (pr_Prefix (sr_Pub r)) q)) as [s2 out2] eqn:Ec.
      apply elem_of_app in Ha as [Ha|Ha]; [by apply Hans in Ha|].
      change out2 with (s2, out2).2 in Ha. rewrite <-Ec in Ha. by apply compute_acts in Ha.
    + to_prop. case_hyp Ha; [|by apply Hans in Ha]. to_prop. repeat split; try done. congruence.
Qed.

(** a request we cannot answer ourselves is passed on whenever it can be: with hops
    left, one request goes out exactly when some neighbour with a live link, other than
    the requester, announces a usable route for the prefix. *)
Theorem seqno_request_forward_complete e s from src q h r :
  wf s → is_u8 h →
  rs_Routes s !! src_Prefix src = Some r → src_NodeId (sr_Source r) = src_NodeId src →
  src_NodeId src ≠ rs_Id s → SeqnoGt q (sr_Seqno r) = true → 2 <= h →
  (∃ n, ActRequestSeqno n src q (h - 1) ∈ (HandleSeqnoRequest e s from src q h).2) ↔
  ∃ nb, can_forward (env_now e) s from src false nb.
Proof.
  intros Hwf Hh Hr Hid Hself Hgt H2. rewrite (seqno_foreign e s from src q h r) by done.
  assert (wf (answer_request s from src q r).1) as Hwf1.
  { apply answer_request_wf; [done|]. by apply (wf_routes _ Hwf) in Hr as [_ ?]. }
  assert (∀ nb, can_forward (env_now e) (answer_request s from src q r).1 from src false nb ↔
                can_forward (env_now e) s from src false nb) as Heq.
  { intros nb. unfold answer_request. case_goal; [|done]. rewrite updateFeasibility_eq.
    split; intros (? & ? & ? & x & ? & ? & _); repeat split; try done; exists x; by repeat split. }
  assert (uint8 (h - 1) = h - 1) as ->. { apply wrap_small. unfold in_width in *. lia. }
  split.
  - intros (n & [Ha|Ha]%elem_of_app); [by apply answer_no_request in Ha|].
    destruct (forward_target _ _ _ _) as [m|] eqn:Et; [|by apply not_elem_of_nil in Ha].
    apply forward_target_Some in Et as (nb & _ & Hcf & _); [|done]. exists nb. by apply Heq.
  - intros (nb & Hnb%Heq). destruct (forward_target _ _ _ _) as [m|] eqn:Et.
    + exists m. apply elem_of_app. right. by left.
    + by eapply forward_target_None in Et.
Qed.

(** a router asked for a newer sequence number of a prefix it originates adopts the
    requested number and broadcasts its route with it, so the requester gets a feasible
    route. *)
Theorem seqno_request_own e s from src q h r adv :
  wf s → env_wf e → is_seqno q → op_ordered s (OpSeqnoRequest from src q h) →
  rs_Routes s !! src_Prefix src = Some r → src_NodeId (sr_Source r) = src_NodeId src →
  src_NodeId src = rs_Id s → SeqnoGt q (sr_Seqno r) = true →
  rs_Advertised s !! src_Prefix src = Some adv → adv_metric e adv ≠ INF →
  (∀ n, n ∈ rs_Neighbours s → neigh_candidate (env_now e) s (links_of e s) (src_Prefix src) n = None) →
  GetSeqno (HandleSeqnoRequest e s from src q h).1 (src_Prefix src) = q ∧
  ActBroadcastSendRouteUpdate (mkPubRoute src (mkFD q (adv_metric e adv)))
    ∈ (HandleSeqnoRequest e s from src q h).2.
Proof.
  intros Hwf He Hq Hord Hr Hid Hself Hgt Hadv Hfin Hcand.
  pose proof (wf_routes _ Hwf _ _ Hr) as [Hp Hrw].
  assert (HandleSeqnoRequest e s from src q h = ComputeRoutes e (SetSeqno s (src_Prefix src) q)) as ->.
  { unfold HandleSeqnoRequest. rewrite Hr, answer_excl; try done.
    - rewrite Hid, Hgt, Hself, !bool_decide_eq_true_2 by done. cbn [andb]. rewrite Hp.
      by destruct (ComputeRoutes _ _).
    - by apply Hord.
    - by rewrite Hid, Hgt, bool_decide_eq_true_2. }
  set (s2 := SetSeqno s (src_Prefix src) q).
  assert (table_of e s2 !! src_Prefix src = Some (advertised_route e s2 (src_Prefix src) adv)) as Ht.
  { rewrite table_of_lookup. unfold selected_at, incumbent_at.
    rewrite (proj2 (best_candidate_None (env_now e) s2 (links_of e s2) (src_Prefix src))) by exact Hcand.
    change (rs_Advertised s2) with (rs_Advertised s). by rewrite Hadv. }
  assert (GetSeqno s2 (src_Prefix src) = q) as Hseq.
  { unfold GetSeqno. cbn. by rewrite lookup_insert_eq. }
  split.
  - destruct (compute_frame e s2) as (_ & _ & HS & _). unfold GetSeqno at 1. by rewrite HS.
  - rewrite compute_out. apply elem_of_app. left. apply elem_of_app. right.
    apply list_elem_of_In, in_flat_map. eexists (_, _). split; [by apply list_elem_of_In, elem_of_map_range|].
    unfold pub_acts. cbn [fst snd]. apply in_app_iff. right.
    change (rs_Routes s2) with (rs_Routes s). rewrite Hr.
    assert (major_change s2 (Some r) (advertised_route e s2 (src_Prefix src) adv) = true) as ->.
    { unfold major_change. cbn [sr_Pub advertised_route pr_FD fd_Seqno]. rewrite Hseq.
      replace (sr_Seqno r =? q) with false; [by rewrite orb_true_r|]. symmetry. apply Z.eqb_neq. intros <-.
      unfold SeqnoGt, SeqnoLe in Hgt. by rewrite Z.eqb_refl in Hgt. }
    right. left. unfold advertised_route. cbn [sr_Pub]. rewrite Hseq. change (rs_Id s2) with (rs_Id s).
    rewrite <-Hself. by destruct src.
Qed.

(** handling an update from a known neighbour never fails, and changes exactly one
    announcement: a new entry needs a feasible, finite update; an existing entry takes
    the update, except an unfeasible one for the route in use; a retraction keeps the
    entry's timer and anything else restarts it. *)
Theorem neighbour_update_entry e s neigh n adv :
  GetNeighbour s neigh = Some n →
  ∃ s' out, HandleNeighbourUpdate e s neigh adv = Some (s', out) ∧
    rs_Routes s' = rs_Routes s ∧ rs_Sources s' = rs_Sources s ∧
    ∀ id p, announcement s' id p =
      if decide (id = neigh ∧ p = pr_Prefix adv) then updated_entry e s neigh adv else announcement s id p.
Proof.
  intros Hn. destruct (HandleNeighbourUpdate e s neigh adv) as [[s' out]|] eqn:E.
  2: { exfalso. unfold HandleNeighbourUpdate in E. rewrite Hn in E. by repeat case_hyp E. }
  exists s', out. split; [done|].
  destruct (HandleNeighbourUpdate_frame _ _ _ _ _ _ E) as [HS HR]. split; [done|]. split; [done|].
  intros id p. assert (announcement s neigh (pr_Prefix adv) = n_Routes n !! pr_Prefix adv) as Hann.
  { unfold announcement. by rewrite Hn. }
  assert (announcement s id p = if decide (id = neigh ∧ p = pr_Prefix adv)
    then n_Routes n !! pr_Prefix adv else announcement s id p) as Hkeep.
  { case_decide as Hd; [|done]. destruct Hd as [-> ->]. done. }
  unfold updated_entry. rewrite Hann. unfold HandleNeighbourUpdate in E. rewrite Hn in E.
  destruct (n_Routes n !! pr_Prefix adv) as [old|].
  - rewrite selected_bool in E.
    destruct (checkFeasibility s adv); cbn [negb andb] in *.
    { injection E as <- _. by apply (announcement_put _ _ _ _ n). }
    destruct (bool_decide (selected_via s neigh adv)).
    { injection E as <- _. done. }
    repeat case_hyp E; injection E as <- _; by apply (announcement_put _ _ _ _ n).
  - destruct (checkFeasibility s adv); cbn [negb andb] in *; [|by injection E as <- _].
    destruct (pr_Metric adv =? INF); cbn [negb]; injection E as <- _; [done|].
    by apply (announcement_put _ _ _ _ n).
Qed.

End props.

(** ** Witnesses *)

Section witnesses.
Import Demo.

Definition gc_env : Env := mkEnv 20000 (λ _, 7).

Lemma source_table_monotone_witness :
  (∃ f', rs_Sources (RunGC (MR := sorted_range) env state).1 !! mkSource "z" p10 = Some f' ∧ fd_le f' (mkFD 5 100)) ∨
  (OpRunGC = OpRunGC ∧ rs_Sources (RunGC (MR := sorted_range) env state).1 !! mkSource "z" p10 = None ∧
   source_used (RunGC (MR := sorted_range) env state).1 (mkSource "z" p10) = false).
Proof.
  apply (source_table_monotone (MR := sorted_range) env state OpRunGC _ (RunGC (MR := sorted_range) env state).2).
  - apply state_ok.
  - apply env_ok.
  - done.
  - done.
  - cbn [run_op]. by rewrite <-surjective_pairing.
  - by vm_compute.
Defined.

(** [a] asks [c] for a newer [p10] on behalf of [b]. *)
Lemma seqno_request_forward_witness :
  ActRequestSeqno "c" (mkSource "z" p10) 6 9
    ∈ (HandleSeqnoRequest (MR := sorted_range) env state "b" (mkSource "z" p10) 6 10).2 ∧ "c" ≠ "b".
Proof.
  assert (ActRequestSeqno "c" (mkSource "z" p10) 6 9
    ∈ (HandleSeqnoRequest (MR := sorted_range) env state "b" (mkSource "z" p10) 6 10).2) as Ha.
  { replace (HandleSeqnoRequest (MR := sorted_range) env state "b" (mkSource "z" p10) 6 10).2
      with [ActRequestSeqno "c" (mkSource "z" p10) 6 9] by by vm_compute. by left. }
  split; [exact Ha|].
  destruct (seqno_request_forward (MR := sorted_range) env state "b" (mkSource "z" p10) 6 10 "c" _ _ _
    state_ok ltac:(by vm_compute) Ha) as (_ & _ & _ & _ & Hne & _). exact Hne.
Defined.

Lemma seqno_request_forward_complete_witness :
  (∃ n, ActRequestSeqno n (mkSource "z" p10) 6 (10 - 1)
    ∈ (HandleSeqnoRequest (MR := sorted_range) env state "b" (mkSource "z" p10) 6 10).2) ↔
  ∃ nb, can_forward (env_now env) state "b" (mkSource "z" p10) false nb.
Proof.
  apply (seqno_request_forward_complete (MR := sorted_range) env state "b" (mkSource "z" p10) 6 10
    (sel "z" p10 5 100 "c" 5000).2); [apply state_ok|by vm_compute..].
Defined.

Lemma seqno_request_own_witness :
  GetSeqno (HandleSeqnoRequest (MR := sorted_range) env state "b" (mkSource "a" p12) 9 10).1 p12 = 9 ∧
  ActBroadcastSendRouteUpdate (pub "a" p12 9 0)
    ∈ (HandleSeqnoRequest (MR := sorted_range) env state "b" (mkSource "a" p12) 9 10).2.
Proof.
  apply (seqno_request_own (MR := sorted_range) env state "b" (mkSource "a" p12) 9 10
    (sel "a" p12 3 0 "a" 5000).2 (mkAdvertisement "a" 100000 false None None)).
  - apply state_ok.
  - apply env_ok.
  - by vm_compute.
  - intros r Hr. vm_compute in Hr. injection Hr as <-. by vm_compute.
  - by vm_compute.
  - done.
  - done.
  - by vm_compute.
  - by vm_compute.
  - by vm_compute.
  - assert (forallb (λ n, if neigh_candidate (env_now env) state (links_of env state) p12 n is Some _
        then false else true) (rs_Neighbours state) = true) as H by by vm_compute.
    intros n Hn. rewrite forallb_forall in H. apply list_elem_of_In, H in Hn. by case_hyp Hn.
Defined.

Lemma neighbour_update_entry_witness :
  ∃ s' out, HandleNeighbourUpdate env state "b" (pub "z" p11 7 4) = Some (s', out) ∧
    rs_Routes s' = rs_Routes state ∧ rs_Sources s' = rs_Sources state ∧
    ∀ id p, announcement s' id p =
      if decide (id = "b" ∧ p = p11) then updated_entry env state "b" (pub "z" p11 7 4) else announcement state id p.
Proof.
  destruct (GetNeighbour state "b") as [n|] eqn:E; [|by vm_compute in E].
  exact (neighbour_update_entry env state "b" n (pub "z" p11 7 4) E).
Defined.

End witnesses.
