(* ===== verification/RouterLife.v ===== *)
(** Starvation, garbage collection, acknowledgements and reachable router states. *)

From S2P Require Import Prelude NetIP Float64 Metric Routing RouterAlgo RouterFacts RouterInv RouterOps RouterProps RouterRequests.

(** ** Reachable states *)

Section reach.
Context {Ep : Type} `{LL : LinkLayer Ep} `{MR : MapRange}.
Implicit Types s : RouterState Ep.

(** [InitRouter]: empty tables, and the configured prefixes advertised. *)
Definition init_state (tun : RouterTunables) (id : NodeId) (adv : gmap Prefix Advertisement) : RouterState Ep :=
  {| rs_tun := tun; rs_Id := id; rs_SelfSeqno := ∅; rs_Routes := ∅; rs_Sources := ∅; rs_Neighbours := [];
     rs_Advertised := adv |}.

(** What happens to a router state: the operations of the routing algorithm, and the
    writes of its surroundings: links change, a reconfiguration replaces the neighbours
    and the advertisements, and a passive client bumps the seqno of its prefix. *)
Inductive step : RouterState Ep → list Act → RouterState Ep → Prop :=
| step_op e s op s' out : env_wf e → op_wf op → run_op e s op = Some (s', out) → step s out s'
| step_links s ns :
    Forall2 (λ n n', n_Id n' = n_Id n ∧ n_Routes n' = n_Routes n) (rs_Neighbours s) ns →
    step s [] (set_Neighbours s ns)
| step_neighbours s ns :
    NoDup (n_Id <$> ns) → (∀ n, n ∈ ns → n ∈ rs_Neighbours s ∨ n_Routes n = ∅) →
    step s [] (set_Neighbours s ns)
| step_advertised s adv : step s [] (set_Advertised s adv)
| step_seqno s p : step s [] (SetSeqno s p (uint16 (GetSeqno s p + 1))).

Inductive reachable (tun : RouterTunables) (id : NodeId) : RouterState Ep → Prop :=
| reach_init adv : reachable tun id (init_state tun id adv)
| reach_step s out s' : reachable tun id s → step s out s' → reachable tun id s'.

Lemma init_wf tun id adv : tun_wf tun → wf (init_state tun id adv).
Proof. intros. split; cbn; try done; constructor. Qed.

Lemma step_wf s out s' : wf s → step s out s' → wf s'.
Proof.
  intros Hwf Hstep. revert Hwf.
  destruct Hstep as [e s1 op s2 o He Hop Hrun|s1 ns Hns|s1 ns Hnd Hns|s1 adv|s1 p]; intros Hwf.
  - by eapply run_op_wf.
  - split; try apply Hwf; cbn.
    + pose proof (wf_neighs _ Hwf) as Hn. induction Hns as [|n n' l l' [_ Hr] _ IH]; [done|].
      inversion Hn; subst. constructor; [|by apply IH]. unfold neigh_wf. by rewrite Hr.
    + assert (n_Id <$> ns = n_Id <$> rs_Neighbours s1) as ->; [|apply Hwf].
      induction Hns as [|n n' l l' [Hid _] _ IH]; [done|]. cbn. by rewrite Hid, IH.
  - split; try apply Hwf; cbn; [|done]. apply Forall_forall. intros n [Hn|Hn]%Hns; [by eapply wf_neigh|].
    unfold neigh_wf. rewrite Hn. apply map_Forall_empty.
  - split; apply Hwf.
  - apply SetSeqno_wf; [done|]. by apply wrap_range.
Qed.

End reach.

(** ** Starvation *)

Section starvation.
Context {Ep : Type} `{LL : LinkLayer Ep} `{MR : MapRange}.
Implicit Types s : RouterState Ep.

(** The announcements of the neighbours that can be reached. *)
Definition live_routes (now : Z) s : list (Prefix * NeighRoute) :=
  flat_map (λ n, if linked now n then map_range (n_Routes n) else []) (rs_Neighbours s).

Lemma live_routes_elem now s x :
  x ∈ live_routes now s ↔ ∃ n, n ∈ rs_Neighbours s ∧ linked now n = true ∧ n_Routes n !! x.1 = Some x.2.
Proof.
  unfold live_routes. rewrite list_elem_of_In, in_flat_map. split.
  - intros (n & Hn%list_elem_of_In & Hx). case_hyp Hx; [|done]. exists n. split; [done|]. split; [done|].
    apply list_elem_of_In in Hx. destruct x. by apply elem_of_map_range.
  - intros (n & Hn & Hl & Hx). exists n. split; [by apply list_elem_of_In|]. rewrite Hl.
    apply list_elem_of_In. destruct x. by apply elem_of_map_range.
Qed.

Definition usable s (r : NeighRoute) : bool := negb (nr_Metric r =? INF) && checkFeasibility s (nr_Pub r).

Lemma starvation_table_flat now s : starvation_table now s = foldl (starvation_scan s) ∅ (live_routes now s).
Proof.
  unfold starvation_table, live_routes. generalize (∅ : gmap Source bool).
  induction (rs_Neighbours s) as [|n l IH]; intros acc; [done|]. cbn [foldl flat_map].
  rewrite foldl_app, <-IH. unfold linked. by destruct (BestEndpoint now (n_Eps n)).
Qed.

Lemma starvation_scan_lookup s l acc src :
  foldl (starvation_scan s) acc l !! src =
  match filter (λ x : Prefix * NeighRoute, pr_Source (nr_Pub x.2) = src) l with
  | [] => acc !! src
  | l' => Some (default false (acc !! src) || existsb (λ x, usable s x.2) l')
  end.
Proof.
  revert acc. induction l as [|[p r] l IH]; intros acc; [done|]. cbn [foldl]. rewrite IH, filter_cons. cbn [snd].
  assert (starvation_scan s acc (p, r) =
    <[pr_Source (nr_Pub r) := default false (acc !! pr_Source (nr_Pub r)) || usable s r]> acc) as ->.
  { unfold starvation_scan. cbn [snd]. by destruct (acc !! pr_Source (nr_Pub r)). }
  case_decide as Hsrc.
  - subst src. rewrite lookup_insert_eq. cbn [existsb snd].
    destruct (filter _ l) as [|y l']; cbn; [by rewrite orb_false_r|by rewrite <-!orb_assoc].
  - by rewrite lookup_insert_ne.
Qed.

(** A source is in the table when somebody announces it, with whether anybody's
    announcement is usable. *)
Lemma starvation_table_false now s src :
  starvation_table now s !! src = Some false ↔
  (∃ x, x ∈ live_routes now s ∧ pr_Source (nr_Pub x.2) = src) ∧
  (∀ x, x ∈ live_routes now s → pr_Source (nr_Pub x.2) = src → usable s x.2 = false).
Proof.
  rewrite starvation_table_flat, starvation_scan_lookup, lookup_empty.
  assert (∀ x, x ∈ filter (λ x : Prefix * NeighRoute, pr_Source (nr_Pub x.2) = src) (live_routes now s) ↔
    pr_Source (nr_Pub x.2) = src ∧ x ∈ live_routes now s) as Hf by (intros; by rewrite list_elem_of_filter).
  destruct (filter _ _) as [|y l].
  - split; [done|]. intros [(x & Hx & Hsrc) _]. exfalso. eapply not_elem_of_nil, Hf. eauto.
  - cbn [default from_option orb]. split.
    + intros [= Hex]. split; [exists y; apply and_comm, Hf; by left|].
      intros x Hx Hsrc. assert (x ∈ y :: l) as Hin by by apply Hf.
      apply not_true_is_false. intros Hu. assert (existsb (λ x, usable s x.2) (y :: l) = true) as Ht; [|cbn in *; congruence].
      apply existsb_exists. exists x. split; [by apply list_elem_of_In|done].
    + intros [_ Hall]. f_equal. apply not_true_is_false. intros (x & Hx%list_elem_of_In & Hu)%existsb_exists.
      apply Hf in Hx as [? ?]. rewrite Hall in Hu; done.
Qed.

Lemma starvation_acts e s a :
  a ∈ SolveStarvation e s ↔ ∃ src, starvation_table (env_now e) s !! src = Some false ∧ src_NodeId src ≠ rs_Id s ∧
    a ∈ [ActBroadcastRequestSeqno src (next_seqno s src) (SeqnoRequestHopCount (rs_tun s));
         ActRouterEvent EventSeqnoRequested].
Proof.
  unfold SolveStarvation.
  assert (∀ l out, a ∈ foldl (λ out (x : Source * bool), let '(src, feasible) := x in
      if negb feasible && negb (bool_decide (src_NodeId src = rs_Id s))
      then out ++ [ActBroadcastRequestSeqno src (next_seqno s src) (SeqnoRequestHopCount (rs_tun s));
                   ActRouterEvent EventSeqnoRequested] else out) out l ↔
    a ∈ out ∨ ∃ src, (src, false) ∈ l ∧ src_NodeId src ≠ rs_Id s ∧
      a ∈ [ActBroadcastRequestSeqno src (next_seqno s src) (SeqnoRequestHopCount (rs_tun s));
           ActRouterEvent EventSeqnoRequested]) as Hgen.
  { induction l as [|[src b] l IH]; intros out; cbn [foldl].
    { split; [by left|]. intros [?|(? & ?%not_elem_of_nil & _)]; done. }
    rewrite IH. clear IH. split.
    - intros [Ha|(x & ? & ?)]; [|right; exists x; split; [by right|done]].
      case_hyp Ha; [|by left]. apply elem_of_app in Ha as [?|?]; [by left|right]. to_prop. subst.
      exists src. split; [by left|done].
    - intros [Ha|(x & [Heq|Hx]%elem_of_cons & Hne & Ha)].
      + left. case_goal; [|done]. apply elem_of_app. by left.
      + injection Heq as <- <-. left. rewrite bool_decide_eq_false_2 by done. cbn. apply elem_of_app. by right.
      + right. eauto. }
  rewrite Hgen. split.
  - intros [?%not_elem_of_nil|(src & ?%elem_of_map_range & ? & ?)]; [done|]. eauto.
  - intros (src & ? & ? & ?). right. exists src. by rewrite elem_of_map_range.
Qed.

Lemma next_seqno_feasible s src m : checkFeasibility s (mkPubRoute src (mkFD (next_seqno s src) m)) = true.
Proof.
  apply checkFeasibility_spec. cbn. destruct (rs_Sources s !! src) as [f|] eqn:E; [|by auto].
  right; right. exists f. split; [done|]. left. cbn. unfold next_seqno. rewrite E. apply SeqnoLt_succ.
Qed.

End starvation.

(** ** Properties *)

Section props.
Context {Ep : Type} `{LL : LinkLayer Ep} `{MR : MapRange}.
Implicit Types s : RouterState Ep.

(** every reachable router state is well formed: metrics and sequence numbers are
    within their width, tables are keyed by the prefix of the route they hold, and no
    neighbour is listed twice. *)
Theorem reachable_wf tun id s : tun_wf tun → reachable tun id s → wf s.
Proof. intros Ht Hr. induction Hr as [adv|s out s' _ IH Hs]; [by apply init_wf|by eapply step_wf]. Qed.

(** C17: starvation requests are exact: a new sequence number is requested for a source
    precisely when a reachable neighbour announces it, none of its announcements is both
    finite and feasible, and we are not its originator; and any update with the requested
    number would be feasible. *)
Theorem starvation_exact e s src q h :
  ActBroadcastRequestSeqno src q h ∈ SolveStarvation e s ↔
  q = next_seqno s src ∧ h = SeqnoRequestHopCount (rs_tun s) ∧ src_NodeId src ≠ rs_Id s ∧
  (∀ m, checkFeasibility s (mkPubRoute src (mkFD q m)) = true) ∧
  (∃ n p r, n ∈ rs_Neighbours s ∧ linked (env_now e) n = true ∧ n_Routes n !! p = Some r ∧
     pr_Source (nr_Pub r) = src) ∧
  (∀ n p r, n ∈ rs_Neighbours s → linked (env_now e) n = true → n_Routes n !! p = Some r →
     pr_Source (nr_Pub r) = src → nr_Metric r = INF ∨ checkFeasibility s (nr_Pub r) = false).
Proof.
  rewrite starvation_acts. split.
  - intros (src' & Ht & Hid & Ha). rewrite !elem_of_cons, elem_of_nil in Ha.
    destruct Ha as [Ha|[Ha|[]]]; [|done]. injection Ha as -> -> ->.
    apply starvation_table_false in Ht as [(x & Hx & Hsrc) Hall]. repeat split; try done.
    + intros m. apply next_seqno_feasible.
    + apply live_routes_elem in Hx as (n & ? & ? & ?). by exists n, x.1, x.2.
    + intros n p r Hn Hl Hr Hp. specialize (Hall (p, r)). rewrite live_routes_elem in Hall. cbn in Hall.
      specialize (Hall (ex_intro _ n (conj Hn (conj Hl Hr))) Hp). unfold usable in Hall. to_prop.
      destruct Hall; to_prop; auto.
  - intros (-> & -> & Hid & _ & (n & p & r & Hn & Hl & Hr & Hsrc) & Hall). exists src.
    split; [|split; [done|by left]]. apply starvation_table_false. split.
    + exists (p, r). split; [|done]. apply live_routes_elem. eauto.
    + intros [p' r'] (n' & Hn' & Hl' & Hr')%live_routes_elem Hsrc'. cbn in *. unfold usable.
      destruct (Hall n' p' r') as [HI|HI]; try done; rewrite HI; [done|by rewrite andb_false_r].
Qed.

(** an unfeasible update for the route in use is ignored, and answered with a request
    for the next sequence number, which makes any later update that carries it feasible. *)
Theorem unfeasible_update_requests e s neigh n adv old :
  GetNeighbour s neigh = Some n → n_Routes n !! pr_Prefix adv = Some old →
  checkFeasibility s adv = false → selected_via s neigh adv →
  HandleNeighbourUpdate e s neigh adv =
    Some (s, [ActRequestSeqno neigh (pr_Source adv) (next_seqno s (pr_Source adv)) (SeqnoRequestHopCount (rs_tun s))]) ∧
  ∀ m, checkFeasibility s (mkPubRoute (pr_Source adv) (mkFD (next_seqno s (pr_Source adv)) m)) = true.
Proof.
  intros Hn Hold Hf Hsel. split; [|intros m; apply next_seqno_feasible].
  assert ((pr_Metric adv =? INF) = false) as Hfin.
  { apply Z.eqb_neq. intros HI. apply not_true_iff_false in Hf. apply Hf, checkFeasibility_spec. by left. }
  unfold HandleNeighbourUpdate. rewrite Hn, Hold, Hf, Hfin, selected_bool.
  by rewrite bool_decide_eq_true_2.
Qed.

(** garbage collection leaves nothing expired: every remaining announcement and
    advertisement is still within its time, a finite announcement that timed out is kept
    as a retraction with a fresh timer, and every source left in the source table is in
    use. *)
Theorem gc_leaves_nothing_expired e s :
  0 <= RouteExpiryTime (rs_tun s) →
  (∀ n p r, n ∈ rs_Neighbours (RunGC e s).1 → n_Routes n !! p = Some r → env_now e <= nr_ExpireAt r) ∧
  (∀ n p r, n ∈ rs_Neighbours s → n_Routes n !! p = Some r → nr_ExpireAt r < env_now e → nr_Metric r ≠ INF →
     ∃ n' r', n' ∈ rs_Neighbours (RunGC e s).1 ∧ n_Id n' = n_Id n ∧ n_Routes n' !! p = Some r' ∧
       nr_Pub r' = set_pub_metric (nr_Pub r) INF ∧ nr_ExpireAt r' = env_now e + RouteExpiryTime (rs_tun s)) ∧
  (∀ p a, rs_Advertised (RunGC e s).1 !! p = Some a → rs_Advertised s !! p = Some a ∧ env_now e <= adv_Expiry a) ∧
  (∀ src f, rs_Sources (RunGC e s).1 !! src = Some f → source_used (RunGC e s).1 src = true).
Proof.
  intros Hexp. rewrite RunGC_eq, gc_sources_eq. cbn [fst rs_Neighbours set_Sources rs_Sources rs_Advertised].
  destruct (compute_frame e (gc_start e s)) as (_ & _ & _ & Ha & Hn). rewrite Ha, Hn.
  assert (∀ be n r, nr_ExpireAt (smoothed_route (env_now e) (gc_start e s) be n r) = nr_ExpireAt r) as Hsm.
  { intros. unfold smoothed_route. by destruct (adv_candidate _ _ _ _ _). }
  split; [|split; [|split]].
  - intros n p r (n1 & -> & (n0 & -> & Hn0)%list_elem_of_fmap)%list_elem_of_fmap Hr. cbn in Hr.
    rewrite lookup_fmap, lookup_omap in Hr. apply fmap_Some in Hr as (r1 & Hr1 & ->). rewrite Hsm.
    apply bind_Some in Hr1 as (r0 & _ & Hr1). unfold expired_route, After in Hr1.
    repeat case_hyp Hr1; simplify_eq; cbn; to_prop; lia.
  - intros n p r Hin Hr Hlt Hfin. eexists _, _.
    split; [apply list_elem_of_fmap; eexists; split; [done|]; apply list_elem_of_fmap; by exists n|].
    split; [done|]. cbn [n_Routes smoothed_neigh set_n_Routes expired_neigh]. rewrite lookup_fmap, lookup_omap, Hr. cbn.
    unfold expired_route at 1, After. rewrite (proj2 (Z.ltb_lt _ _) Hlt). apply Z.eqb_neq in Hfin. rewrite Hfin. cbn.
    split; [done|]. by rewrite smoothed_route_pub, Hsm.
  - intros p a. cbn. rewrite lookup_omap. intros (a0 & Ha0 & Hl)%bind_Some. unfold live_adv, After in Hl.
    case_hyp Hl; [done|]. injection Hl as ->. to_prop. split; [done|lia].
  - intros src f (_ & Hu)%map_lookup_filter_Some. done.
Qed.

End props.

(** ** Findings *)

(** The hold time counts acknowledgements instead of checking who sent them: [b]
    acknowledged and went away, [c] is connected and did not, and the hold ends. *)
Module AckCount.
Import Demo.

Definition rt : SelRoute := mkSelRoute (pub "z" p10 5 INF) "d" 5000 ["b"].

Definition state : RouterState Wire :=
  {| rs_tun := DefaultRouterTunables; rs_Id := "a"; rs_SelfSeqno := ∅; rs_Routes := {[ p10 := rt ]};
     rs_Sources := ∅;
     rs_Neighbours := [mkNeighbour "b" ∅ down; mkNeighbour "c" ∅ (up 1)];
     rs_Advertised := ∅ |}.

Lemma hold_ends_without_all_acks :
  After (sr_ExpireAt rt) (env_now env) = true ∧
  (∃ n, n ∈ rs_Neighbours state ∧ linked (env_now env) n = true ∧ n_Id n ∉ sr_RetractedBy rt) ∧
  rs_Routes (ComputeRoutes (MR := sorted_range) env state).1 !! p10 = None.
Proof.
  split; [done|]. split.
  - exists (mkNeighbour "c" ∅ (up 1)). split; [by right; left|]. split; [done|]. cbn. set_solver.
  - by vm_compute.
Qed.

End AckCount.

(** ** Witnesses *)

Section witnesses.
Import Demo.

Lemma reachable_wf_witness :
  wf (ComputeRoutes (MR := sorted_range) env
        (init_state (Ep := Wire) DefaultRouterTunables "a" (rs_Advertised Demo.state))).1.
Proof.
  apply (reachable_wf (MR := sorted_range) DefaultRouterTunables "a").
  - by vm_compute.
  - eapply reach_step; [apply reach_init|]. eapply (step_op env _ OpComputeRoutes).
    + apply env_ok.
    + done.
    + cbn [run_op]. by rewrite <-surjective_pairing.
Defined.

(** [c] raises its metric for the route [a] uses. *)
Lemma unfeasible_update_requests_witness :
  HandleNeighbourUpdate env Demo.state "c" (pub "z" p10 5 100) =
    Some (Demo.state, [ActRequestSeqno "c" (mkSource "z" p10) 6 64]) ∧
  ∀ m, checkFeasibility Demo.state (pub "z" p10 6 m) = true.
Proof.
  destruct (GetNeighbour Demo.state "c") as [n|] eqn:E; [|by vm_compute in E].
  apply (unfeasible_update_requests env Demo.state "c" n (pub "z" p10 5 100)
    (ann "z" p10 5 65 5000 (f64_of_Z 100)).2).
  - exact E.
  - vm_compute in E. injection E as <-. by vm_compute.
  - by vm_compute.
  - exists (sel "z" p10 5 100 "c" 5000).2. by vm_compute.
Defined.

Lemma gc_leaves_nothing_expired_witness :
  0 <= RouteExpiryTime (rs_tun Demo.state) ∧
  ∀ src f, rs_Sources (RunGC (MR := sorted_range) gc_env Demo.state).1 !! src = Some f →
    source_used (RunGC (MR := sorted_range) gc_env Demo.state).1 src = true.
Proof.
  split; [by vm_compute|].
  apply (gc_leaves_nothing_expired (MR := sorted_range) gc_env Demo.state). by vm_compute.
Defined.

End witnesses.
