(* ===== verification/Config.v ===== *)
(** The network configuration: [state/config.go] (data, lookups, expansion) and
    [state/node_id_numeric.go] (numeric node ids, which are also MPLS labels).

    Keys are opaque integers, and the fields of a configuration that only matter to
    the operating system or to its distribution are left out. *)

From S2P Require Import Prelude NetIP Metric Routing.

Abbreviation NyPublicKey := Z.
Abbreviation NodeIdNumeric := Z.

(** ** Prefix health checks *)

Inductive PrefixHealth :=
| StaticPrefixHealth (Prefix : Prefix) (Metric : Z)
| PingPrefixHealth (Prefix : Prefix) (Addr : Addr) (MaxFailures Delay : option Z) (BindIf : string) (Metric : option Z)
| HTTPPrefixHealth (Prefix : Prefix) (URL : string) (Delay Metric : option Z).

#[export] Instance PrefixHealth_eq_dec : EqDecision PrefixHealth.
Proof. solve_decision. Defined.

Definition GetPrefix (h : PrefixHealth) : Prefix :=
  match h with
  | StaticPrefixHealth p _ | PingPrefixHealth p _ _ _ _ _ | HTTPPrefixHealth p _ _ _ => p
  end.

(** The advertised metric, given what the last probe of a check reported. *)
Definition GetMetric (h : PrefixHealth) (lastMetric : Z) : Z :=
  match h with
  | StaticPrefixHealth _ m => m
  | PingPrefixHealth _ _ _ _ _ m | HTTPPrefixHealth _ _ _ m => default lastMetric m
  end.

Definition prefixHealthDelay (value : option Z) (tunables : RouterTunables) : Z :=
  match value with Some v => v | None => HealthCheckDelay tunables end.

Definition prefixHealthMaxFailures (value : option Z) (tunables : RouterTunables) : Z :=
  match value with Some v => v | None => HealthCheckMaxFailures tunables end.

(** Whether two checks are configured alike, defaults filled in. *)
Definition sameConfig (p o : PrefixHealth) (t : RouterTunables) : bool :=
  match p, o with
  | StaticPrefixHealth p1 m1, StaticPrefixHealth p2 m2 => bool_decide (p1 = p2) && (m1 =? m2)
  | PingPrefixHealth p1 a1 f1 d1 b1 m1, PingPrefixHealth p2 a2 f2 d2 b2 m2 =>
      bool_decide (p1 = p2) && bool_decide (a1 = a2) && bool_decide (b1 = b2) && bool_decide (m1 = m2) &&
      (prefixHealthDelay d1 t =? prefixHealthDelay d2 t) &&
      (prefixHealthMaxFailures f1 t =? prefixHealthMaxFailures f2 t)
  | HTTPPrefixHealth p1 u1 d1 m1, HTTPPrefixHealth p2 u2 d2 m2 =>
      bool_decide (p1 = p2) && bool_decide (u1 = u2) && bool_decide (m1 = m2) &&
      (prefixHealthDelay d1 t =? prefixHealthDelay d2 t)
  | _, _ => false
  end.

(** What a configuration holds is a wrapper around the interface, which may be nil or hold
    something other than the three checks; of such a one only the prefix is known. *)
Inductive PrefixHealthWrapper := HealthNil | HealthOther (Prefix : Prefix) | Health (h : PrefixHealth).

#[export] Instance PrefixHealthWrapper_eq_dec : EqDecision PrefixHealthWrapper.
Proof. solve_decision. Defined.

(** [None] is the panic of a method call on a nil interface. *)
Definition wrapper_GetPrefix (w : PrefixHealthWrapper) : option Prefix :=
  match w with HealthNil => None | HealthOther p => Some p | Health h => Some (GetPrefix h) end.

Definition SameConfig (p other : PrefixHealthWrapper) (tunables : RouterTunables) : bool :=
  match p, other with
  | HealthNil, HealthNil => true
  | HealthNil, _ | _, HealthNil => false
  | Health p, Health other => sameConfig p other tunables
  | _, _ => false
  end.

(** ** Nodes *)

(** A configuration is read with wrappers of any content; the one a node runs has passed the
    validator, and each of its wrappers holds one of the three checks (see [checked]). The
    records are shared, with the type of the entries of [Prefixes] as a parameter. *)

Record NodeCfgOf (H : Type) := mkNodeCfg {
  nc_Id : NodeId;
  nc_PubKey : NyPublicKey;
  nc_Addresses : list Addr;
  nc_Prefixes : list H;
  nc_NumericId : NodeIdNumeric;
}.

Record RouterCfgOf (H : Type) := mkRouterCfg { rc_Node : NodeCfgOf H; rc_Endpoints : list string; rc_TCPObfuscation : bool }.

Record ClientCfgOf (H : Type) := mkClientCfg { cc_Node : NodeCfgOf H }.

Record CentralCfgOf (H : Type) := mkCentralCfg {
  c_Routers : list (RouterCfgOf H);
  c_Clients : list (ClientCfgOf H);
  c_Graph : list string;
  c_Timestamp : Z;
  c_ExcludeIPs : list Prefix;
  c_Dist : option (list string);  (* the repositories *)
}.

Arguments mkNodeCfg {H} _ _ _ _ _.
Arguments nc_Id {H} _.
Arguments nc_PubKey {H} _.
Arguments nc_Addresses {H} _.
Arguments nc_Prefixes {H} _.
Arguments nc_NumericId {H} _.
Arguments mkRouterCfg {H} _ _ _.
Arguments rc_Node {H} _.
Arguments rc_Endpoints {H} _.
Arguments rc_TCPObfuscation {H} _.
Arguments mkClientCfg {H} _.
Arguments cc_Node {H} _.
Arguments mkCentralCfg {H} _ _ _ _ _ _.
Arguments c_Routers {H} _.
Arguments c_Clients {H} _.
Arguments c_Graph {H} _.
Arguments c_Timestamp {H} _.
Arguments c_ExcludeIPs {H} _.
Arguments c_Dist {H} _.

(** The configuration of a running node. *)
Abbreviation NodeCfg := (NodeCfgOf PrefixHealth).
Abbreviation RouterCfg := (RouterCfgOf PrefixHealth).
Abbreviation ClientCfg := (ClientCfgOf PrefixHealth).
Abbreviation CentralCfg := (CentralCfgOf PrefixHealth).

(** A configuration as it was read. *)
Abbreviation ReadCfg := (CentralCfgOf PrefixHealthWrapper).

Abbreviation rc_Id r := (nc_Id (rc_Node r)).
Abbreviation cc_Id c := (nc_Id (cc_Node c)).

(** Go ranges over the collected set; the order is unspecified. *)
Definition GetPrefixes `{MapRange} (c : CentralCfg) : list Prefix :=
  let add (m : gmap Prefix bool) (ps : list PrefixHealth) := foldl (λ m p, <[GetPrefix p := true]> m) m ps in
  let prefixMap := foldl (λ m r, add m (nc_Prefixes (rc_Node r))) ∅ (c_Routers c) in
  let prefixMap := foldl (λ m r, add m (nc_Prefixes (cc_Node r))) prefixMap (c_Clients c) in
  (map_range prefixMap).*1.

Definition GetNodes {H} (c : CentralCfgOf H) : list (NodeCfgOf H) := (rc_Node <$> c_Routers c) ++ (cc_Node <$> c_Clients c).

Definition IsRouter {H} (e : CentralCfgOf H) (node : NodeId) : bool := existsb (λ r, bool_decide (rc_Id r = node)) (c_Routers e).
Definition IsClient {H} (e : CentralCfgOf H) (node : NodeId) : bool := existsb (λ r, bool_decide (cc_Id r = node)) (c_Clients e).
Definition IsNode {H} (e : CentralCfgOf H) (node : NodeId) : bool := IsRouter e node || IsClient e node.

Definition TryGetNode {H} (e : CentralCfgOf H) (node : NodeId) : option (NodeCfgOf H) :=
  match list_find (λ r, rc_Id r = node) (c_Routers e) with
  | Some (_, r) => Some (rc_Node r)
  | None => match list_find (λ c, cc_Id c = node) (c_Clients e) with
            | Some (_, c) => Some (cc_Node c)
            | None => None
            end
  end.

(** [GetNode], [GetRouter] and [GetClient] panic on an unknown id. *)
Definition GetNode {H} (e : CentralCfgOf H) (node : NodeId) : option (NodeCfgOf H) := TryGetNode e node.

Definition GetRouter {H} (e : CentralCfgOf H) (node : NodeId) : option (RouterCfgOf H) :=
  snd <$> list_find (λ r, rc_Id r = node) (c_Routers e).

Definition GetClient {H} (e : CentralCfgOf H) (node : NodeId) : option (ClientCfgOf H) :=
  snd <$> list_find (λ c, cc_Id c = node) (c_Clients e).

Definition FindNodeBy {H} (e : CentralCfgOf H) (pkey : NyPublicKey) : option NodeId :=
  match list_find (λ r, nc_PubKey (rc_Node r) = pkey) (c_Routers e) with
  | Some (_, r) => Some (rc_Id r)
  | None => match list_find (λ c, nc_PubKey (cc_Node c) = pkey) (c_Clients e) with
            | Some (_, c) => Some (cc_Id c)
            | None => None
            end
  end.

(** [None] is the panic on an address without a prefix. *)
Definition AddrToPrefix (addr : Addr) : option Prefix :=
  if addr_IsValid addr then Some (PrefixFrom (addr_withoutZone addr) (addr_BitLen addr)) else None.

(** Addresses are advertised as host prefixes, put in front one after the other. *)
Definition expand_node (n : NodeCfgOf PrefixHealthWrapper) : option (NodeCfgOf PrefixHealthWrapper) :=
  ps ← mapM AddrToPrefix (nc_Addresses n);
  Some (mkNodeCfg (nc_Id n) (nc_PubKey n) (nc_Addresses n)
          (foldl (λ acc p, Health (StaticPrefixHealth p 0) :: acc) (nc_Prefixes n) ps) (nc_NumericId n)).

Definition ExpandCentralConfig (cfg : ReadCfg) : option ReadCfg :=
  rs ← mapM (λ r, n ← expand_node (rc_Node r); Some (mkRouterCfg n (rc_Endpoints r) (rc_TCPObfuscation r))) (c_Routers cfg);
  cs ← mapM (λ c, n ← expand_node (cc_Node c); Some (mkClientCfg n)) (c_Clients cfg);
  Some (mkCentralCfg rs cs (c_Graph cfg) (c_Timestamp cfg) (c_ExcludeIPs cfg) (c_Dist cfg)).

(** ** Read and running configurations *)

(** A function on the entries of [Prefixes], applied throughout a configuration. *)
Definition map_node {H K} (f : list H → list K) (n : NodeCfgOf H) : NodeCfgOf K :=
  mkNodeCfg (nc_Id n) (nc_PubKey n) (nc_Addresses n) (f (nc_Prefixes n)) (nc_NumericId n).

Definition map_router {H K} (f : list H → list K) (r : RouterCfgOf H) : RouterCfgOf K :=
  mkRouterCfg (map_node f (rc_Node r)) (rc_Endpoints r) (rc_TCPObfuscation r).

Definition map_client {H K} (f : list H → list K) (c : ClientCfgOf H) : ClientCfgOf K := mkClientCfg (map_node f (cc_Node c)).

Definition map_cfg {H K} (f : list H → list K) (c : CentralCfgOf H) : CentralCfgOf K :=
  mkCentralCfg (map_router f <$> c_Routers c) (map_client f <$> c_Clients c) (c_Graph c) (c_Timestamp c) (c_ExcludeIPs c) (c_Dist c).

(** The health checks of a configuration, clients first. *)
Definition all_health {H} (c : CentralCfgOf H) : list H :=
  (c_Clients c ≫= λ c, nc_Prefixes (cc_Node c)) ++ (c_Routers c ≫= λ r, nc_Prefixes (rc_Node r)).

Definition known_check (w : PrefixHealthWrapper) : option PrefixHealth := match w with Health h => Some h | _ => None end.

(** The same configuration without the wrappers, if each holds one of the three checks. *)
Definition checked (c : ReadCfg) : option CentralCfg :=
  if forallb (λ w, bool_decide (is_Some (known_check w))) (all_health c) then Some (map_cfg (omap known_check) c) else None.

(** A running configuration as it is written and read. *)
Definition written (c : CentralCfg) : ReadCfg := map_cfg (fmap Health) c.

(** ** Numeric node ids *)

Definition InvalidNodeIdNumeric : NodeIdNumeric := 0.
Definition FirstNodeIdNumeric : NodeIdNumeric := 16.
Definition MaxNodeIdNumeric : NodeIdNumeric := 0xFFFFF.

Record NodeIdMap := mkNodeIdMap {
  byNumeric : gmap NodeIdNumeric NodeId;
  byString : gmap NodeId NodeIdNumeric;
}.

Inductive NodeIdErr :=
| ErrCapacity (nodes : Z)
| ErrPinLow (id : NodeId) (n : Z)
| ErrPinHigh (id : NodeId) (n : Z)
| ErrPinDup (other id : NodeId) (n : Z)
| ErrNoSpace (id : NodeId).

(** The ids, in the order met, and the pinned numbers. *)
Definition collect {H} (st : list NodeId * gmap NodeId NodeIdNumeric) (n : NodeCfgOf H)
    : list NodeId * gmap NodeId NodeIdNumeric :=
  let '(ids, explicit) := st in
  if bool_decide (nc_Id n ∈ ids) then st
  else (ids ++ [nc_Id n],
        if nc_NumericId n =? InvalidNodeIdNumeric then explicit else <[nc_Id n := nc_NumericId n]> explicit).

Definition assign (m : NodeIdMap) (id : NodeId) (numeric : NodeIdNumeric) : NodeIdMap :=
  mkNodeIdMap (<[numeric := id]> (byNumeric m)) (<[id := numeric]> (byString m)).

Fixpoint assign_pinned (explicit : gmap NodeId NodeIdNumeric) (m : NodeIdMap) (ids : list NodeId)
    : NodeIdErr + NodeIdMap :=
  match ids with
  | [] => inr m
  | id :: ids' =>
      match explicit !! id with
      | None => assign_pinned explicit m ids'
      | Some numeric =>
          if numeric <? FirstNodeIdNumeric then inl (ErrPinLow id numeric)
          else if MaxNodeIdNumeric <? numeric then inl (ErrPinHigh id numeric)
          else match byNumeric m !! numeric with
               | Some other => inl (ErrPinDup other id numeric)
               | None => assign_pinned explicit (assign m id numeric) ids'
               end
      end
  end.

(** The search for a free slot; [None] when the space is exhausted.  There are at most
    as many taken slots as entries, so the fuel is never spent (see [free_slot_spec]). *)
Fixpoint free_slot (fuel : nat) (m : NodeIdMap) (next : NodeIdNumeric) : option NodeIdNumeric :=
  match fuel with
  | O => None
  | S fuel' =>
      if MaxNodeIdNumeric <? next then None
      else match byNumeric m !! next with
           | None => Some next
           | Some _ => free_slot fuel' m (next + 1)
           end
  end.

Fixpoint assign_rest (explicit : gmap NodeId NodeIdNumeric) (m : NodeIdMap) (next : NodeIdNumeric) (ids : list NodeId)
    : NodeIdErr + NodeIdMap :=
  match ids with
  | [] => inr m
  | id :: ids' =>
      match explicit !! id with
      | Some _ => assign_rest explicit m next ids'
      | None =>
          match free_slot (S (size (byNumeric m))) m next with
          | None => inl (ErrNoSpace id)
          | Some slot => assign_rest explicit (assign m id slot) (slot + 1) ids'
          end
      end
  end.

Definition BuildNodeIdMap {H} (c : CentralCfgOf H) : NodeIdErr + NodeIdMap :=
  let '(ids, explicit) := foldl collect ([], ∅) (GetNodes c) in
  let ids := merge_sort String.le ids in
  if MaxNodeIdNumeric - FirstNodeIdNumeric + 1 <? Z.of_nat (length ids) then inl (ErrCapacity (Z.of_nat (length ids)))
  else match assign_pinned explicit (mkNodeIdMap ∅ ∅) ids with
       | inl err => inl err
       | inr m => assign_rest explicit m FirstNodeIdNumeric ids
       end.

(** A nil map is [None]; the result is the Go pair, [None] for [false]. *)
Definition ToNumeric (m : option NodeIdMap) (id : NodeId) : option NodeIdNumeric :=
  m ← m; byString m !! id.

Definition ToString (m : option NodeIdMap) (b : NodeIdNumeric) : option NodeId :=
  m ← m; if b =? InvalidNodeIdNumeric then None else byNumeric m !! b.

Definition NodeIdMap_Len (m : option NodeIdMap) : Z :=
  match m with Some m => Z.of_nat (size (byString m)) | None => 0 end.
