(* ===== verification/NodeIds.v ===== *)
(** Numeric node ids: the map is a bijection into the label space, pins are honoured,
    and every node computes the same map. *)

From S2P Require Import Prelude NetIP Metric Routing Config.

(** ** Collecting *)

Lemma collect_ids {W} (l : list (NodeCfgOf W)) : ∀ ids ex,
  NoDup ids →
  NoDup (foldl collect (ids, ex) l).1 ∧
  (∀ x, x ∈ (foldl collect (ids, ex) l).1 ↔ x ∈ ids ∨ x ∈ nc_Id <$> l).
Proof.
  induction l as [|n l IH]; intros ids ex Hnd; cbn [foldl].
  { split; [done|]. intros x. cbn. rewrite elem_of_nil. tauto. }
  unfold collect at 2 4. case_bool_decide as Hin.
  - destruct (IH ids ex Hnd) as [Hn Hx]. split; [done|]. intros x. rewrite Hx. cbn. rewrite elem_of_cons. naive_solver.
  - match goal with |- context [foldl collect (?i, ?e) l] => destruct (IH i e) as [Hn Hx] end.
    { apply NoDup_app. split; [done|]. split; [|apply NoDup_singleton].
      intros x Hx ->%list_elem_of_singleton. done. }
    split; [done|]. intros x. rewrite Hx. cbn. rewrite elem_of_app, list_elem_of_singleton, elem_of_cons. tauto.
Qed.

(** With distinct ids, collecting is taking ids and pins as they are. *)
Lemma collect_distinct {W} (l : list (NodeCfgOf W)) : ∀ ids ex,
  NoDup (ids ++ (nc_Id <$> l)) → (∀ x, x ∉ ids → ex !! x = None) →
  (foldl collect (ids, ex) l).1 = ids ++ (nc_Id <$> l) ∧
  ∀ x v, (foldl collect (ids, ex) l).2 !! x = Some v ↔
    (ex !! x = Some v ∨ ∃ n, n ∈ l ∧ nc_Id n = x ∧ nc_NumericId n = v ∧ v ≠ InvalidNodeIdNumeric).
Proof.
  induction l as [|n l IH]; intros ids ex Hnd Hex; cbn [foldl].
  { cbn. rewrite app_nil_r. split; [done|]. intros x v. split; [by left|].
    intros [?|(n & Hn & _)]; [done|by apply not_elem_of_nil in Hn]. }
  rewrite fmap_cons in Hnd. assert (nc_Id n ∉ ids) as Hni.
  { apply NoDup_app in Hnd as (_ & Hd & _). intros Hi. eapply Hd; [done|by left]. }
  unfold collect at 2 4. rewrite bool_decide_eq_false_2 by done.
  match goal with |- context [foldl collect (?i, ?e) l] => destruct (IH i e) as [Hi Hx] end.
  { by rewrite <-app_assoc. }
  { intros x Hx. rewrite not_elem_of_app, not_elem_of_cons in Hx. destruct Hx as (Hx & Hne & _).
    case_goal; [by apply Hex|]. rewrite lookup_insert_ne by congruence. by apply Hex. }
  split; [by rewrite Hi, <-app_assoc|]. intros x v. rewrite Hx. split.
  - intros [H|(m & Hm & ?)]; [|right; exists m; split; [by right|done]].
    destruct (Z.eqb_spec (nc_NumericId n) InvalidNodeIdNumeric) as [E|E]; [by left|].
    apply lookup_insert_Some in H as [[<- <-]|[_ ?]]; [|by left].
    right. exists n. split; [by left|]. done.
  - intros [H|(m & [->|Hm]%elem_of_cons & Hid & Hv & Hne)].
    + left. assert (nc_Id n ≠ x). { intros <-. rewrite Hex in H by done. done. }
      case_goal; [done|]. by rewrite lookup_insert_ne.
    + left. subst. rewrite (proj2 (Z.eqb_neq _ _)) by done. by rewrite lookup_insert_eq.
    + right. eauto.
Qed.

(** ** The assignment *)

(** The two directions are inverse, and every number is a label. *)
Record map_ok (m : NodeIdMap) : Prop := {
  map_inv : ∀ id n, byString m !! id = Some n ↔ byNumeric m !! n = Some id;
  map_range_ok : ∀ n id, byNumeric m !! n = Some id → FirstNodeIdNumeric <= n <= MaxNodeIdNumeric;
}.

Lemma empty_map_ok : map_ok (mkNodeIdMap ∅ ∅).
Proof. split; cbn; intros; by rewrite ?lookup_empty in *. Qed.

Lemma assign_ok m id n :
  map_ok m → byString m !! id = None → byNumeric m !! n = None →
  FirstNodeIdNumeric <= n <= MaxNodeIdNumeric → map_ok (assign m id n).
Proof.
  intros [Hinv Hr] Hid Hn Hrange. split; cbn.
  - intros id' n'. rewrite !lookup_insert_Some. split.
    + intros [[<- <-]|[Hne H]]; [by left|]. right. split; [|by apply Hinv].
      intros <-. apply Hinv in H. congruence.
    + intros [[<- <-]|[Hne H]]; [by left|]. right. split; [|by apply Hinv].
      intros <-. apply Hinv in H. congruence.
  - intros n' id' [[<- <-]|[_ H]]%lookup_insert_Some; [done|by eapply Hr].
Qed.

(** Searching with enough fuel: the first free slot, if there is one at all. *)
Lemma free_slot_spec m next fuel :
  (size (byNumeric m) < fuel)%nat →
  match free_slot fuel m next with
  | Some slot => next <= slot <= MaxNodeIdNumeric ∧ byNumeric m !! slot = None ∧
                 ∀ k, next <= k < slot → is_Some (byNumeric m !! k)
  | None => ∀ k, next <= k <= MaxNodeIdNumeric → is_Some (byNumeric m !! k)
  end.
Proof.
  intros Hsize.
  assert (∀ f nx, match free_slot f m nx with
    | Some slot => nx <= slot <= MaxNodeIdNumeric ∧ byNumeric m !! slot = None ∧
                   ∀ k, nx <= k < slot → is_Some (byNumeric m !! k)
    | None => (∀ k, nx <= k <= MaxNodeIdNumeric → is_Some (byNumeric m !! k)) ∨
              (∀ k, nx <= k < nx + Z.of_nat f → is_Some (byNumeric m !! k))
    end) as Hgen.
  { induction f as [|f IH]; intros nx; cbn [free_slot]; [right; lia|].
    destruct (Z.ltb_spec MaxNodeIdNumeric nx) as [Hlt|Hge]; [left; lia|].
    destruct (byNumeric m !! nx) eqn:E; [|split; [lia|]; split; [done|lia]].
    specialize (IH (nx + 1)). destruct (free_slot f m (nx + 1)) as [slot|].
    - destruct IH as (Hs & Hfree & Hall). split; [lia|]. split; [done|]. intros k Hk.
      destruct (decide (k = nx)) as [->|]; [by eexists|]. apply Hall. lia.
    - destruct IH as [Hall|Hall]; [left|right]; intros k Hk;
        (destruct (decide (k = nx)) as [->|]; [by eexists|]; apply Hall; lia). }
  specialize (Hgen fuel next). destruct (free_slot fuel m next) as [slot|]; [done|].
  destruct Hgen as [?|Hall]; [done|]. exfalso.
  assert (fuel <= size (byNumeric m))%nat; [|lia].
  rewrite <-size_dom.
  assert (size (list_to_set (seqZ next (Z.of_nat fuel)) : gset Z) = fuel) as <-.
  { rewrite size_list_to_set by apply NoDup_seqZ. by rewrite length_seqZ, Nat2Z.id. }
  apply subseteq_size. intros k Hk%elem_of_list_to_set%elem_of_seqZ. apply elem_of_dom, Hall. lia.
Qed.

(** The pinned ids of a list are assigned their pins, or an error names the first
    offending one. *)
Lemma assign_pinned_spec ex ids : ∀ m,
  NoDup ids → map_ok m → (∀ id, id ∈ ids → byString m !! id = None) →
  match assign_pinned ex m ids with
  | inr m' => map_ok m' ∧
      (∀ id, byString m' !! id = if decide (id ∈ ids ∧ is_Some (ex !! id)) then ex !! id else byString m !! id) ∧
      size (byNumeric m') = (size (byNumeric m) + length (filter (λ id, is_Some (ex !! id)) ids))%nat
  | inl _ =>
      (∃ id n, id ∈ ids ∧ ex !! id = Some n ∧ ¬ (FirstNodeIdNumeric <= n <= MaxNodeIdNumeric)) ∨
      (∃ id n other, id ∈ ids ∧ ex !! id = Some n ∧ other ≠ id ∧
         (byNumeric m !! n = Some other ∨ other ∈ ids ∧ ex !! other = Some n))
  end.
Proof.
  induction ids as [|id ids IH]; intros m Hnd Hok Hfresh; cbn [assign_pinned].
  { split; [done|]. split; [|cbn; lia]. intros id. rewrite decide_False; [done|]. by intros [?%not_elem_of_nil _]. }
  apply NoDup_cons in Hnd as [Hni Hnd]. rewrite filter_cons.
  destruct (ex !! id) as [n|] eqn:E.
  2: { specialize (IH m Hnd Hok). destruct (assign_pinned ex m ids) as [err|m'].
       - destruct IH as [(x & n & ? & ?)|(x & n & o & ? & ? & ? & [?|[? ?]])].
         + intros. apply Hfresh. by right.
         + left. exists x, n. split; [by right|done].
         + right. exists x, n, o. split; [by right|]. auto.
         + right. exists x, n, o. split; [by right|]. split; [done|]. split; [done|]. right. split; [by right|done].
       - destruct IH as (Hok' & Hs & Hsz); [intros; apply Hfresh; by right|]. split; [done|].
         rewrite decide_False by (by intros [? ?]). split; [|done]. intros x. rewrite Hs.
         apply decide_ext. rewrite elem_of_cons. split; [tauto|]. intros [[->|?] Hx]; [|done].
         rewrite E in Hx. by destruct Hx. }
  rewrite decide_True by by eexists.
  destruct (Z.ltb_spec n FirstNodeIdNumeric); [left; exists id, n; split; [by left|]; split; [done|lia]|].
  destruct (Z.ltb_spec MaxNodeIdNumeric n); [left; exists id, n; split; [by left|]; split; [done|lia]|].
  destruct (byNumeric m !! n) as [other|] eqn:En.
  { right. exists id, n, other. split; [by left|]. split; [done|]. split; [|by left].
    intros ->. apply Hok in En. rewrite Hfresh in En; [done|by left]. }
  assert (map_ok (assign m id n)) as Hok1.
  { apply assign_ok; [done|apply Hfresh; by left|done|lia]. }
  specialize (IH (assign m id n) Hnd Hok1).
  assert (∀ x, x ∈ ids → byString (assign m id n) !! x = None) as Hf1.
  { intros x Hx. cbn. rewrite lookup_insert_ne by (intros ->; done). apply Hfresh. by right. }
  specialize (IH Hf1). destruct (assign_pinned ex (assign m id n) ids) as [err|m'].
  - destruct IH as [(x & k & ? & ?)|(x & k & o & Hx & Hk & Hne & [Ho|[? ?]])].
    + left. exists x, k. split; [by right|done].
    + right. exists x, k, o. split; [by right|]. split; [done|]. split; [done|].
      cbn in Ho. apply lookup_insert_Some in Ho as [[<- <-]|[_ ?]]; [|by left]. right. split; [by left|done].
    + right. exists x, k, o. split; [by right|]. split; [done|]. split; [done|]. right. split; [by right|done].
  - destruct IH as (Hok' & Hs & Hsz). split; [done|]. split.
    + intros x. rewrite Hs. cbn [byString assign]. destruct (decide (x = id)) as [->|Hne].
      * rewrite decide_False by (by intros [? _]). rewrite lookup_insert_eq, decide_True; [done|]. split; [by left|by eexists].
      * rewrite lookup_insert_ne by done. apply decide_ext. rewrite elem_of_cons. tauto.
    + rewrite Hsz. cbn [byNumeric assign length]. rewrite map_size_insert_None by done. lia.
Qed.

(** The remaining ids get the lowest free slots; space runs out only when the whole
    label space is taken. *)
Lemma assign_rest_spec ex ids : ∀ m next,
  NoDup ids → map_ok m → (∀ id, id ∈ ids → ex !! id = None → byString m !! id = None) →
  FirstNodeIdNumeric <= next → (∀ k, FirstNodeIdNumeric <= k < next → is_Some (byNumeric m !! k)) →
  match assign_rest ex m next ids with
  | inr m' => map_ok m' ∧ (∀ id n, byString m !! id = Some n → byString m' !! id = Some n) ∧
      (∀ id, is_Some (byString m' !! id) ↔ is_Some (byString m !! id) ∨ id ∈ ids ∧ ex !! id = None) 
  | inl _ => MaxNodeIdNumeric - FirstNodeIdNumeric + 1 <
             Z.of_nat (size (byNumeric m) + length (filter (λ id, ex !! id = None) ids))
  end.
Proof.
  induction ids as [|id ids IH]; intros m next Hnd Hok Hfresh Hnext Hlow; cbn [assign_rest].
  { split; [done|]. split; [done|]. intros id. rewrite elem_of_nil. tauto. }
  apply NoDup_cons in Hnd as [Hni Hnd]. rewrite filter_cons.
  destruct (ex !! id) as [n|] eqn:E.
  { rewrite decide_False by done. specialize (IH m next Hnd Hok).
    destruct (assign_rest ex m next ids) as [err|m']; [apply IH; try done; intros; apply Hfresh; [by right|done]|].
    destruct IH as (Hok' & Hs & Hd); try done. { intros; apply Hfresh; [by right|done]. }
    split; [done|]. split; [done|]. intros x. rewrite Hd. set_solver. }
  rewrite decide_True by done.
  pose proof (free_slot_spec m next (S (size (byNumeric m))) ltac:(lia)) as Hslot.
  destruct (free_slot _ m next) as [slot|].
  - destruct Hslot as (Hr & Hfree & Hall).
    assert (byString m !! id = None) as Hid by (apply Hfresh; [by left|done]).
    assert (map_ok (assign m id slot)) as Hok1 by (apply assign_ok; [done..|lia]).
    specialize (IH (assign m id slot) (slot + 1) Hnd Hok1).
    assert (∀ x, x ∈ ids → ex !! x = None → byString (assign m id slot) !! x = None) as Hf1.
    { intros x Hx Hex. cbn. rewrite lookup_insert_ne by (intros ->; done). apply Hfresh; [by right|done]. }
    assert (∀ k, FirstNodeIdNumeric <= k < slot + 1 → is_Some (byNumeric (assign m id slot) !! k)) as Hl1.
    { intros k Hk. cbn. destruct (decide (k = slot)) as [->|Hne]; [rewrite lookup_insert_eq; by eexists|].
      rewrite lookup_insert_ne by done. destruct (decide (k < next)); [apply Hlow; lia|apply Hall; lia]. }
    specialize (IH Hf1 ltac:(lia) Hl1).
    destruct (assign_rest ex (assign m id slot) (slot + 1) ids) as [err|m'].
    + cbn [byNumeric assign length] in *. rewrite map_size_insert_None in IH by done. lia.
    + destruct IH as (Hok' & Hs & Hd). split; [done|]. split.
      * intros x n Hx. apply Hs. cbn. rewrite lookup_insert_ne; [done|]. intros ->. congruence.
      * intros x. rewrite Hd. cbn [byString assign]. rewrite lookup_insert_is_Some, elem_of_cons.
        destruct (decide (x = id)) as [->|]; naive_solver.
  - assert (∀ k, FirstNodeIdNumeric <= k <= MaxNodeIdNumeric → is_Some (byNumeric m !! k)) as Hfull.
    { intros k Hk. destruct (decide (k < next)); [apply Hlow; lia|apply Hslot; lia]. }
    assert (Z.to_nat (MaxNodeIdNumeric - FirstNodeIdNumeric + 1) <= size (byNumeric m))%nat; [|cbn [length]; lia].
    rewrite <-size_dom.
    assert (size (list_to_set (seqZ FirstNodeIdNumeric (MaxNodeIdNumeric - FirstNodeIdNumeric + 1)) : gset Z)
      = Z.to_nat (MaxNodeIdNumeric - FirstNodeIdNumeric + 1)) as <-.
    { rewrite size_list_to_set by apply NoDup_seqZ. by rewrite length_seqZ. }
    apply subseteq_size. intros k Hk%elem_of_list_to_set%elem_of_seqZ. apply elem_of_dom, Hfull. lia.
Qed.

(** ** The map *)

(** No two nodes share an id; [CentralConfigValidator] checks it. *)
Definition distinct_ids {W} (c : CentralCfgOf W) : Prop := NoDup (nc_Id <$> GetNodes c).

(** The configuration pins the numeric id of a node. *)
Definition pins {W} (c : CentralCfgOf W) (id : NodeId) (n : NodeIdNumeric) : Prop :=
  ∃ node, node ∈ GetNodes c ∧ nc_Id node = id ∧ nc_NumericId node = n ∧ n ≠ InvalidNodeIdNumeric.

Definition sorted_ids {W} (c : CentralCfgOf W) : list NodeId := merge_sort String.le (nc_Id <$> GetNodes c).

Lemma sorted_ids_perm {W} (c : CentralCfgOf W) : sorted_ids c ≡ₚ nc_Id <$> GetNodes c.
Proof. apply merge_sort_Permutation. Qed.

Lemma BuildNodeIdMap_unfold {W} (c : CentralCfgOf W) :
  distinct_ids c →
  ∃ explicit, (∀ id n, explicit !! id = Some n ↔ pins c id n) ∧
  BuildNodeIdMap c =
    if MaxNodeIdNumeric - FirstNodeIdNumeric + 1 <? Z.of_nat (length (sorted_ids c))
    then inl (ErrCapacity (Z.of_nat (length (sorted_ids c))))
    else match assign_pinned explicit (mkNodeIdMap ∅ ∅) (sorted_ids c) with
         | inl err => inl err
         | inr m => assign_rest explicit m FirstNodeIdNumeric (sorted_ids c)
         end.
Proof.
  intros Hd. destruct (collect_distinct (GetNodes c) [] ∅) as [Hi He]; [done|by intros; apply lookup_empty|].
  unfold BuildNodeIdMap. destruct (foldl collect ([], ∅) (GetNodes c)) as [ids ex]. cbn in Hi, He. subst ids.
  exists ex. split; [|done]. intros id n. rewrite He, lookup_empty. unfold pins. naive_solver.
Qed.

Lemma filter_split_length (ex : gmap NodeId NodeIdNumeric) l :
  (length (filter (λ id, is_Some (ex !! id)) l) + length (filter (λ id, ex !! id = None) l) = length l)%nat.
Proof.
  induction l as [|id l IH]; [done|]. rewrite !filter_cons. destruct (ex !! id) eqn:E.
  - rewrite decide_True, decide_False by (by eexists || done). cbn [length]. lia.
  - rewrite decide_False, decide_True by (done || by intros [? ?]). cbn [length]. lia.
Qed.

(** C32: the numeric ids form a bijection between the configured nodes and a set of MPLS
    labels that avoids the reserved ones and fits in 20 bits, and a pinned node has
    exactly its pin. *)
Theorem node_ids_bijective {W} (c : CentralCfgOf W) m :
  distinct_ids c → BuildNodeIdMap c = inr m →
  (∀ id, is_Some (ToNumeric (Some m) id) ↔ id ∈ nc_Id <$> GetNodes c) ∧
  (∀ id n, ToNumeric (Some m) id = Some n ↔ ToString (Some m) n = Some id) ∧
  (∀ id n, ToNumeric (Some m) id = Some n → 16 <= n < 2 ^ 20) ∧
  (∀ id n, pins c id n → ToNumeric (Some m) id = Some n).
Proof.
  intros Hd. destruct (BuildNodeIdMap_unfold c Hd) as (ex & Hex & ->).
  destruct (_ <? _); [done|].
  assert (NoDup (sorted_ids c)) as Hnd by (by rewrite sorted_ids_perm).
  pose proof (assign_pinned_spec ex (sorted_ids c) (mkNodeIdMap ∅ ∅) Hnd empty_map_ok) as H1.
  destruct (assign_pinned ex _ (sorted_ids c)) as [err|m1]; [done|].
  destruct H1 as (Hok1 & Hs1 & _); [intros; apply lookup_empty|].
  pose proof (assign_rest_spec ex (sorted_ids c) m1 FirstNodeIdNumeric Hnd Hok1) as H2.
  intros Hm. rewrite Hm in H2. destruct H2 as ([Hinv Hr] & Hs2 & Hd2).
  { intros id _ Hn. rewrite Hs1, decide_False; [apply lookup_empty|]. rewrite Hn. by intros [_ [? ?]]. }
  { done. }
  { lia. }
  assert (∀ x, x ∈ sorted_ids c ↔ x ∈ nc_Id <$> GetNodes c) as Hel by (intros; by rewrite sorted_ids_perm).
  assert (∀ id n, pins c id n → id ∈ nc_Id <$> GetNodes c) as Hpin.
  { intros id n (node & Hn & <- & _). apply list_elem_of_fmap. eauto. }
  cbn. split; [|split; [|split]].
  - intros id. rewrite Hd2, Hs1, <-Hel. cbn. rewrite lookup_empty.
    destruct (ex !! id) as [n|] eqn:E.
    + case_decide as Hc; [|split; [intros [[? ?]|[_ ?]]; done|]].
      * destruct Hc. split; [by intros|]. intros _. left. by eexists.
      * intros Hin. exfalso. apply Hc. split; [done|by eexists].
    + rewrite decide_False by (by intros [_ [? ?]]). split; [by intros [[? ?]|[? _]]|]. intros. by right.
  - intros id n. rewrite Hinv. unfold InvalidNodeIdNumeric. case_goal; [|done]. to_prop. subst.
    split; [|done]. intros Hr0%Hr. unfold FirstNodeIdNumeric in Hr0. lia.
  - intros id n Hn%Hinv%Hr. unfold FirstNodeIdNumeric, MaxNodeIdNumeric in Hn. lia.
  - intros id n Hp. apply Hs2. rewrite Hs1, decide_True; [by apply Hex|].
    split; [apply Hel; eauto|]. exists n. by apply Hex.
Qed.

(** every node that has the configuration computes the same ids: the order in which
    routers and clients are listed does not matter. *)
Theorem node_ids_order_independent {W} (c c' : CentralCfgOf W) :
  distinct_ids c → GetNodes c ≡ₚ GetNodes c' → BuildNodeIdMap c = BuildNodeIdMap c'.
Proof.
  intros Hd Hp. assert (distinct_ids c') as Hd' by (unfold distinct_ids; by rewrite <-Hp).
  destruct (BuildNodeIdMap_unfold c Hd) as (ex & Hex & ->). destruct (BuildNodeIdMap_unfold c' Hd') as (ex' & Hex' & ->).
  assert (sorted_ids c = sorted_ids c') as ->.
  { apply (Sorted_unique String.le); [apply Sorted_merge_sort; apply _..|].
    rewrite !sorted_ids_perm. by rewrite Hp. }
  assert (ex = ex') as ->; [|done]. apply map_eq. intros id. apply option_eq. intros n. rewrite Hex, Hex'.
  unfold pins. by setoid_rewrite Hp.
Qed.

(** What the assignment asks of a configuration: no more nodes than labels, and pins that
    are labels and pairwise different. *)
Record labels_ok {W} (c : CentralCfgOf W) : Prop := {
  lo_capacity : Z.of_nat (length (GetNodes c)) <= MaxNodeIdNumeric - FirstNodeIdNumeric + 1;
  lo_range : ∀ id n, pins c id n → FirstNodeIdNumeric <= n <= MaxNodeIdNumeric;
  lo_distinct : ∀ id id' n, pins c id n → pins c id' n → id = id';
}.

(** Then every node gets a number; in particular filling the gaps between the pins never
    runs out of space. *)
Lemma BuildNodeIdMap_defined {W} (c : CentralCfgOf W) : distinct_ids c → labels_ok c → ∃ m, BuildNodeIdMap c = inr m.
Proof.
  intros Hd [Hlen Hrange Huniq]. destruct (BuildNodeIdMap_unfold c Hd) as (ex & Hex & ->).
  assert (length (sorted_ids c) = length (GetNodes c)) as Hl by (by rewrite sorted_ids_perm, length_fmap).
  rewrite (proj2 (Z.ltb_ge _ _)) by (rewrite Hl; lia).
  assert (NoDup (sorted_ids c)) as Hnd by (by rewrite sorted_ids_perm).
  pose proof (assign_pinned_spec ex (sorted_ids c) (mkNodeIdMap ∅ ∅) Hnd empty_map_ok) as H1.
  destruct (assign_pinned ex _ (sorted_ids c)) as [err|m1].
  { destruct H1 as [(id & n & _ & Hn%Hex & Hbad)|(id & n & o & _ & Hn%Hex & Hne & [Ho|[_ Ho%Hex]])].
    - intros; apply lookup_empty.
    - by apply Hrange in Hn.
    - cbn in Ho. by rewrite lookup_empty in Ho.
    - destruct Hne. by eapply Huniq. }
  destruct H1 as (Hok1 & Hs1 & Hsz); [intros; apply lookup_empty|].
  pose proof (assign_rest_spec ex (sorted_ids c) m1 FirstNodeIdNumeric Hnd Hok1) as H2.
  destruct (assign_rest ex m1 FirstNodeIdNumeric (sorted_ids c)) as [err|m]; [|by eexists]. exfalso.
  assert (MaxNodeIdNumeric - FirstNodeIdNumeric + 1 <
    Z.of_nat (size (byNumeric m1) + length (filter (λ id, ex !! id = None) (sorted_ids c)))) as Hover.
  { apply H2; [|done|lia]. intros id _ Hn. rewrite Hs1, decide_False; [apply lookup_empty|].
    rewrite Hn. by intros [_ [? ?]]. }
  rewrite Hsz in Hover. cbn in Hover. rewrite map_size_empty in Hover.
  pose proof (filter_split_length ex (sorted_ids c)). lia.
Qed.

Lemma BuildNodeIdMap_labels {W} (c : CentralCfgOf W) m : distinct_ids c → BuildNodeIdMap c = inr m → labels_ok c.
Proof.
  intros Hd. destruct (BuildNodeIdMap_unfold c Hd) as (ex & Hex & ->).
  assert (length (sorted_ids c) = length (GetNodes c)) as Hl by (by rewrite sorted_ids_perm, length_fmap).
  assert (NoDup (sorted_ids c)) as Hnd by (by rewrite sorted_ids_perm).
  destruct (Z.ltb_spec (MaxNodeIdNumeric - FirstNodeIdNumeric + 1) (Z.of_nat (length (sorted_ids c)))); [done|].
  pose proof (assign_pinned_spec ex (sorted_ids c) (mkNodeIdMap ∅ ∅) Hnd empty_map_ok) as H1.
  destruct (assign_pinned ex _ (sorted_ids c)) as [err|m1]; [done|]. intros _.
  destruct H1 as ([Hinv Hr] & Hs & _); [intros; apply lookup_empty|].
  assert (∀ id n, pins c id n → byNumeric m1 !! n = Some id) as Hpin.
  { intros id n Hp. apply Hinv. rewrite Hs, decide_True; [by apply Hex|]. split; [|exists n; by apply Hex].
    destruct Hp as (node & Hn & <- & _). rewrite sorted_ids_perm. apply list_elem_of_fmap. eauto. }
  split; [lia|by intros id n ?%Hpin%Hr|]. intros id id' n H1%Hpin H2%Hpin. congruence.
Qed.

(** the assignment succeeds exactly on the configurations with enough labels and usable
    pins. *)
Theorem node_ids_assigned {W} (c : CentralCfgOf W) :
  distinct_ids c → (∃ m, BuildNodeIdMap c = inr m) ↔ labels_ok c.
Proof.
  intros Hd. split; [|by apply BuildNodeIdMap_defined]. intros [m Hm]. by eapply BuildNodeIdMap_labels.
Qed.

(** ** Witnesses *)

Definition demo_node (id : NodeId) (n : Z) : NodeCfg := mkNodeCfg id 0 [] [] n.

Definition demo_cfg : CentralCfg :=
  mkCentralCfg [mkRouterCfg (demo_node "c" 0) [] false; mkRouterCfg (demo_node "a" 17) [] false]
    [mkClientCfg (demo_node "b" 0)] [] 0 [] None.

Definition demo_cfg' : CentralCfg :=
  mkCentralCfg [mkRouterCfg (demo_node "a" 17) [] false] 
    [mkClientCfg (demo_node "b" 0); mkClientCfg (demo_node "c" 0)] [] 0 [] None.

Lemma demo_distinct : distinct_ids demo_cfg.
Proof. unfold distinct_ids. apply (bool_decide_eq_true_1 (NoDup (nc_Id <$> GetNodes demo_cfg))). by vm_compute. Qed.

Lemma node_ids_bijective_witness :
  ∃ m, BuildNodeIdMap demo_cfg = inr m ∧ ToNumeric (Some m) "a" = Some 17 ∧ ToNumeric (Some m) "b" = Some 16 ∧
    ToNumeric (Some m) "c" = Some 18 ∧ ∀ id n, ToNumeric (Some m) id = Some n → 16 <= n < 2 ^ 20.
Proof.
  destruct (BuildNodeIdMap demo_cfg) as [err|m] eqn:E; [by vm_compute in E|].
  exists m. split; [done|]. destruct (node_ids_bijective demo_cfg m demo_distinct E) as (_ & _ & H & _).
  vm_compute in E. injection E as <-. split; [done|]. split; [done|]. split; [done|]. exact H.
Defined.

Lemma node_ids_order_independent_witness : BuildNodeIdMap demo_cfg = BuildNodeIdMap demo_cfg'.
Proof.
  apply (node_ids_order_independent demo_cfg demo_cfg' demo_distinct).
  cbn. apply (Permutation_app_comm [demo_node "c" 0] [demo_node "a" 17; demo_node "b" 0]).
Defined.

Lemma demo_pins id n : pins demo_cfg id n → id = "a" ∧ n = 17.
Proof.
  intros (node & Hn & <- & <- & Hne). cbn in Hn. rewrite !elem_of_cons, elem_of_nil in Hn.
  destruct_or! Hn; subst; done.
Qed.

Lemma node_ids_assigned_witness : ∃ m, BuildNodeIdMap demo_cfg = inr m.
Proof.
  apply (node_ids_assigned demo_cfg demo_distinct). split.
  - by vm_compute.
  - intros id n [_ ->]%demo_pins. by vm_compute.
  - intros id id' n [-> _]%demo_pins [-> _]%demo_pins. done.
Defined.
