(* ===== verification/External.v ===== *)
(** The third-party libraries the router calls, as interfaces: the routing table
    [github.com/gaissmai/bart], the expiring cache [github.com/jellydator/ttlcache]
    and the size of a protobuf message.  Each interface states what its documentation
    promises, and has an executable instance that satisfies it. *)

From S2P Require Import Prelude Bytes NetIP.

(** A prefix without host bits, the form under which [bart] stores it. *)
Definition canonical (p : Prefix) : Prop := pfx_IsValid p = true ∧ pfx_Masked p = p.

(** ** [bart.Table] *)

Class BartTable (T : Type → Type) := {
  bt_empty : ∀ {V}, T V;
  bt_Insert : ∀ {V}, T V → Prefix → V → T V;
  bt_Delete : ∀ {V}, T V → Prefix → T V;
  bt_Get : ∀ {V}, T V → Prefix → option V;
  bt_Lookup : ∀ {V}, T V → Addr → option V;
}.

(** Exact-match behaviour on canonical prefixes, and longest-prefix match. *)
Class BartTableLaws (T : Type → Type) `{BartTable T} := {
  bt_Get_empty : ∀ {V} q, bt_Get (bt_empty : T V) q = None;
  bt_Get_Insert : ∀ {V} (t : T V) p v q, canonical p → canonical q →
    bt_Get (bt_Insert t p v) q = if decide (q = p) then Some v else bt_Get t q;
  bt_Get_Delete : ∀ {V} (t : T V) p q, canonical p → canonical q →
    bt_Get (bt_Delete t p) q = if decide (q = p) then None else bt_Get t q;
  bt_Lookup_Some : ∀ {V} (t : T V) a v, bt_Lookup t a = Some v →
    ∃ p, canonical p ∧ pfx_Contains p a = true ∧ bt_Get t p = Some v ∧
      ∀ q w, canonical q → pfx_Contains q a = true → bt_Get t q = Some w → pfx_Bits q <= pfx_Bits p;
  bt_Lookup_None : ∀ {V} (t : T V) a, bt_Lookup t a = None →
    ∀ q, canonical q → pfx_Contains q a = true → bt_Get t q = None;
}.

(** An instance: a finite map keyed by the masked prefix. *)
Section map_table.

Definition map_lookup_best {V} (a : Addr) (best : option (Prefix * V)) (x : Prefix * V) : option (Prefix * V) :=
  if bool_decide (pfx_Masked x.1 = x.1) && pfx_Contains x.1 a
  then match best with
       | Some b => if pfx_Bits b.1 <? pfx_Bits x.1 then Some x else best
       | None => Some x
       end
  else best.

#[export] Instance map_table : BartTable (gmap Prefix) := {|
  bt_empty := λ V, ∅;
  bt_Insert := λ V t p v, if pfx_IsValid p then <[pfx_Masked p := v]> t else t;
  bt_Delete := λ V t p, if pfx_IsValid p then delete (pfx_Masked p) t else t;
  bt_Get := λ V t p, if pfx_IsValid p then t !! pfx_Masked p else None;
  bt_Lookup := λ V t a, snd <$> foldl (map_lookup_best a) None (map_to_list t);
|}.

Lemma pfx_Contains_valid p a : pfx_Contains p a = true → pfx_IsValid p = true.
Proof. unfold pfx_Contains. intros. by to_prop. Qed.

(** The scan keeps a longest match among what it has seen. *)
Lemma map_lookup_best_spec {V} a l : ∀ best : option (Prefix * V),
  match foldl (map_lookup_best a) best l with
  | Some b => (best = Some b ∨ b ∈ l ∧ canonical b.1 ∧ pfx_Contains b.1 a = true) ∧
      (∀ x, best = Some x → pfx_Bits x.1 <= pfx_Bits b.1) ∧
      (∀ x, x ∈ l → canonical x.1 → pfx_Contains x.1 a = true → pfx_Bits x.1 <= pfx_Bits b.1)
  | None => best = None ∧ ∀ x, x ∈ l → canonical x.1 → pfx_Contains x.1 a = false
  end.
Proof.
  induction l as [|x l IH]; intros best; cbn [foldl].
  { destruct best as [b|].
    - split; [by left|]. split; [intros ? [= ->]; lia|]. by intros ? ?%not_elem_of_nil.
    - split; [done|]. by intros ? ?%not_elem_of_nil. }
  specialize (IH (map_lookup_best a best x)).
  assert (∀ y, canonical y.1 → pfx_Contains y.1 a = true → y = x →
    map_lookup_best a best x = match best with
      | Some b => if pfx_Bits b.1 <? pfx_Bits x.1 then Some x else best | None => Some x end) as Hhit.
  { intros y [Hv Hm] Hc ->. unfold map_lookup_best. by rewrite bool_decide_eq_true_2, Hc. }
  destruct (foldl (map_lookup_best a) (map_lookup_best a best x) l) as [b|].
  - destruct IH as (Hsrc & Hbest & Hall). split; [|split].
    + destruct Hsrc as [Hsrc|(Hin & ?)]; [|right; split; [by right|done]].
      unfold map_lookup_best in Hsrc. destruct (_ && _) eqn:E; [|by left]. to_prop.
      assert (canonical x.1 ∧ pfx_Contains x.1 a = true) as Hx.
      { split; [split; [by eapply pfx_Contains_valid|done]|done]. }
      repeat case_hyp Hsrc; simplify_eq; try (by left); right; (split; [by left|done]).
    + intros y ->. destruct (map_lookup_best a (Some y) x) as [z|] eqn:E.
      * specialize (Hbest z eq_refl). unfold map_lookup_best in E. repeat case_hyp E; simplify_eq; to_prop; lia.
      * unfold map_lookup_best in E. by repeat case_hyp E.
    + intros y [->|Hy]%elem_of_cons Hcan Hc; [|by apply Hall].
      rewrite (Hhit x Hcan Hc eq_refl) in Hbest. destruct best as [b0|].
      * destruct (Z.ltb_spec (pfx_Bits b0.1) (pfx_Bits x.1)) as [Hlt|Hge].
        -- by apply Hbest.
        -- specialize (Hbest b0 eq_refl). lia.
      * by apply Hbest.
  - destruct IH as [Hnone Hall].
    assert (best = None) as ->.
    { unfold map_lookup_best in Hnone. by repeat case_hyp Hnone. }
    split; [done|]. intros y [->|Hy]%elem_of_cons Hcan; [|by apply Hall].
    apply not_true_is_false. intros Hc. by rewrite (Hhit x Hcan Hc eq_refl) in Hnone.
Qed.

#[export] Instance map_table_laws : BartTableLaws (gmap Prefix).
Proof.
  split.
  - intros V q. cbn. case_goal; [apply lookup_empty|done].
  - intros V t p v q [Hp Hpm] [Hq Hqm]. cbn. rewrite Hp, Hq, Hpm, Hqm.
    case_decide as Hd; [subst; apply lookup_insert_eq|by apply lookup_insert_ne].
  - intros V t p q [Hp Hpm] [Hq Hqm]. cbn. rewrite Hp, Hq, Hpm, Hqm.
    case_decide as Hd; [subst; apply lookup_delete_eq|by apply lookup_delete_ne].
  - intros V t a v. cbn. pose proof (map_lookup_best_spec a (map_to_list t) None) as H.
    destruct (foldl _ _ _) as [[p w]|]; [|done]. cbn. intros [= <-].
    destruct H as ([?|(Hin & Hcan & Hc)] & _ & Hall); [done|]. cbn in *.
    apply elem_of_map_to_list in Hin. exists p. split; [done|]. split; [done|]. destruct Hcan as [Hv Hm]. split.
    + by rewrite Hv, Hm.
    + intros q w' [Hqv Hqm] Hqc. rewrite Hqv, Hqm. intros Hq.
      apply (Hall (q, w')); [by apply elem_of_map_to_list|done|done].
  - intros V t a. cbn. pose proof (map_lookup_best_spec a (map_to_list t) None) as H.
    destruct (foldl _ _ _) as [[p w]|]; [done|]. intros _. destruct H as [_ Hall].
    intros q [Hqv Hqm] Hc. rewrite Hqv, Hqm. destruct (t !! q) as [w|] eqn:E; [|done].
    specialize (Hall (q, w)). cbn in Hall. rewrite Hall in Hc; [done|by apply elem_of_map_to_list|done].
Qed.

End map_table.

(** ** [ttlcache.Cache] with a fixed lifetime and no touch on hit *)

Class TTLCache (C : Type → Type → Type) := {
  tc_new : ∀ {K V} `{Countable K}, C K V;
  tc_Get : ∀ {K V} `{Countable K}, Z → C K V → K → option V;
  tc_Set : ∀ {K V} `{Countable K}, Z → Z → C K V → K → V → C K V;
  tc_DeleteExpired : ∀ {K V} `{Countable K}, Z → C K V → C K V;
  tc_Delete : ∀ {K V} `{Countable K}, C K V → K → C K V;
}.

(** An item answers until its lifetime is over, and sweeping is not observable. *)
Class TTLCacheLaws (C : Type → Type → Type) `{TTLCache C} := {
  tc_Get_new : ∀ {K V} `{Countable K} now k, tc_Get now (tc_new : C K V) k = None;
  tc_Get_Set : ∀ {K V} `{Countable K} (c : C K V) now ttl k v now' k', now <= now' →
    tc_Get now' (tc_Set now ttl c k v) k' =
    if decide (k' = k) then if now' <=? now + ttl then Some v else None else tc_Get now' c k';
  tc_Get_DeleteExpired : ∀ {K V} `{Countable K} (c : C K V) now now' k, now <= now' →
    tc_Get now' (tc_DeleteExpired now c) k = tc_Get now' c k;
  tc_Get_Delete : ∀ {K V} `{Countable K} (c : C K V) now k k',
    tc_Get now (tc_Delete c k) k' = if decide (k' = k) then None else tc_Get now c k';
}.

(** An instance: a map from keys to values with their deadline. *)
Definition map_cache (K V : Type) : Type := list (K * (V * Z)).

Definition cache_find {K V} `{Countable K} (c : map_cache K V) (k : K) : option (V * Z) :=
  snd <$> (snd <$> list_find (λ x, x.1 = k) c).

#[export] Instance map_cache_ttl : TTLCache map_cache := {|
  tc_new := λ K V _ _, [];
  tc_Get := λ K V _ _ now c k, x ← cache_find c k; if now <=? x.2 then Some x.1 else None;
  tc_Set := λ K V _ _ now ttl c k v, (k, (v, now + ttl)) :: c;
  tc_DeleteExpired := λ K V _ _ now c, c;
  tc_Delete := λ K V _ _ c k, filter (λ x, x.1 ≠ k) c;
|}.

#[export] Instance map_cache_laws : TTLCacheLaws map_cache.
Proof.
  split.
  - done.
  - intros K V ? ? c now ttl k v now' k' Hle. cbn. unfold cache_find. cbn [list_find fst].
    case_decide as Hd; [subst; by rewrite decide_True|]. rewrite decide_False by done.
    by destruct (list_find _ c) as [[]|].
  - done.
  - intros K V ? ? c now k k'. cbn. unfold cache_find, map_cache in *.
    assert (snd <$> list_find (λ x, x.1 = k') (filter (λ x, x.1 ≠ k) c) =
      if decide (k' = k) then None else snd <$> list_find (λ x, x.1 = k') c) as E.
    { induction c as [|x c IH]; [by case_decide|]. rewrite filter_cons. destruct (decide (x.1 ≠ k)) as [Hx|Hx]; cbn [list_find].
      - destruct (decide (x.1 = k')) as [Hk|Hk]; [rewrite decide_False by congruence; done|].
        revert IH. destruct (list_find _ (filter _ c)) as [[]|], (list_find (λ x, x.1 = k') c) as [[]|]; cbn; done.
      - apply dec_stable in Hx. rewrite IH. case_decide; [done|]. rewrite decide_False by congruence.
        by destruct (list_find _ c) as [[]|]. }
    rewrite E. by case_decide.
Qed.
