(* ===== verification/RouterIO.v ===== *)
(** The router's surroundings: [core/router.go] (the [Router] interface, pending
    messages, packet handlers, garbage collection, flushing), the exit-filter snapshot
    of [core/nylon_unicast.go], [ForwardEntryToNode] of [core/router_utils.go], and the
    control-packet dispatch of [core/nylon_tc.go].

    A Go panic is [None]; logging has no effect on the state. *)

From S2P Require Import Prelude Bytes NetIP Float64 Metric Routing RouterAlgo Config External.

(** ** Messages of [protocol/nylon.proto] *)

Record Ny_Update := mkNyUpdate { nu_RouterId : string; nu_Prefix : list Z; nu_Seqno : Z; nu_Metric : Z }.
Record Ny_SeqnoRequest := mkNySeqnoRequest {
  nq_RouterId : string; nq_Prefix : list Z; nq_Seqno : Z; nq_HopCount : Z }.

Inductive Ny :=
| Ny_RouteOp (op : Ny_Update)
| Ny_SeqnoRequestOp (op : Ny_SeqnoRequest)
| Ny_AckRetractOp (Prefix : list Z).

(** A handle on a device peer. *)
Abbreviation Peer := nat.

Record RouteTableEntry := mkEntry { rte_Nh : NodeId; rte_Peer : option Peer; rte_Blackhole : bool }.

Record ExitFilterSnapshot := mkSnapshot {
  ef_LocalId : NodeId;
  ef_LocalIdNumeric : NodeIdNumeric;
  ef_AdvertiseExitNode : bool;
  ef_ExitNode : NodeId;
  ef_ExitNodeNumeric : NodeIdNumeric;
  ef_NumericNames : gmap NodeIdNumeric NodeId;
  ef_NodeForward : gmap NodeIdNumeric RouteTableEntry;
}.

Section io.
Context {Ep : Type} `{LL : LinkLayer Ep} `{MR : MapRange} {T : Type → Type} `{BT : BartTable T}
  {C : Type → Type → Type} `{TC : TTLCache C}.

(** [SeqnoReq] values are pairs of a seqno and a hop count. *)
Record IOPending := mkIOPending {
  io_SeqnoReq : gmap Source (Z * Z);
  io_SeqnoDedup : C Source Z;
  io_Acks : gmap Prefix unit;
  io_Updates : gmap Prefix Ny_Update;
}.

(** The part of [Nylon] the router works on. *)
Record Nylon := mkNylon {
  ny_rs : RouterState Ep;
  ny_CentralCfg : CentralCfg;
  ny_LocalId : NodeId;
  ny_AdvertiseExitNode : bool;
  ny_ExitNode : NodeId;
  ny_peers : gmap NyPublicKey Peer;
  ny_IO : gmap NodeId IOPending;
  ny_ForwardTable : T RouteTableEntry;
  ny_ExitTable : T RouteTableEntry;
  ny_NodeIdMap : option NodeIdMap;
  ny_ExitFilter : option ExitFilterSnapshot;
}.

Definition set_rs n x := mkNylon x (ny_CentralCfg n) (ny_LocalId n) (ny_AdvertiseExitNode n) (ny_ExitNode n)
  (ny_peers n) (ny_IO n) (ny_ForwardTable n) (ny_ExitTable n) (ny_NodeIdMap n) (ny_ExitFilter n).
Definition set_IO n x := mkNylon (ny_rs n) (ny_CentralCfg n) (ny_LocalId n) (ny_AdvertiseExitNode n) (ny_ExitNode n)
  (ny_peers n) x (ny_ForwardTable n) (ny_ExitTable n) (ny_NodeIdMap n) (ny_ExitFilter n).
Definition set_tables n f x := mkNylon (ny_rs n) (ny_CentralCfg n) (ny_LocalId n) (ny_AdvertiseExitNode n)
  (ny_ExitNode n) (ny_peers n) (ny_IO n) f x (ny_NodeIdMap n) (ny_ExitFilter n).
Definition set_filter n m f := mkNylon (ny_rs n) (ny_CentralCfg n) (ny_LocalId n) (ny_AdvertiseExitNode n)
  (ny_ExitNode n) (ny_peers n) (ny_IO n) (ny_ForwardTable n) (ny_ExitTable n) m f.

(** ** Exit-filter snapshot *)

(** The entry of a node: the first of its addresses with a usable route. *)
Fixpoint first_usable (ft : T RouteTableEntry) (addrs : list Addr) : option RouteTableEntry :=
  match addrs with
  | [] => None
  | addr :: addrs' =>
      match bt_Lookup ft addr with
      | Some entry => if rte_Blackhole entry || negb (bool_decide (is_Some (rte_Peer entry)))
                      then first_usable ft addrs' else Some entry
      | None => first_usable ft addrs'
      end
  end.

Definition add_forward (n : Nylon) (idMap : NodeIdMap) (m : gmap NodeIdNumeric RouteTableEntry) (node : NodeCfg)
    : gmap NodeIdNumeric RouteTableEntry :=
  if bool_decide (nc_Id node = ny_LocalId n) then m
  else match ToNumeric (Some idMap) (nc_Id node) with
       | None => m
       | Some numeric =>
           match m !! numeric with
           | Some _ => m
           | None => match first_usable (ny_ForwardTable n) (nc_Addresses node) with
                     | Some entry => <[numeric := entry]> m
                     | None => m
                     end
           end
       end.

Definition rebuildExitFilterSnapshot (n : Nylon) (idMap : NodeIdMap) : ExitFilterSnapshot :=
  {| ef_LocalId := ny_LocalId n;
     ef_LocalIdNumeric := default InvalidNodeIdNumeric (ToNumeric (Some idMap) (ny_LocalId n));
     ef_AdvertiseExitNode := ny_AdvertiseExitNode n;
     ef_ExitNode := ny_ExitNode n;
     ef_ExitNodeNumeric := if bool_decide (ny_ExitNode n = "") then InvalidNodeIdNumeric
                           else default InvalidNodeIdNumeric (ToNumeric (Some idMap) (ny_ExitNode n));
     ef_NumericNames := foldl (λ m node, match ToNumeric (Some idMap) (nc_Id node) with
                                         | Some numeric => <[numeric := nc_Id node]> m
                                         | None => m
                                         end) ∅ (GetNodes (ny_CentralCfg n));
     ef_NodeForward := foldl (add_forward n idMap) ∅ (GetNodes (ny_CentralCfg n)) |}.

Definition refreshNodeBindings (n : Nylon) : NodeIdErr + Nylon :=
  match BuildNodeIdMap (ny_CentralCfg n) with
  | inl err => inl err
  | inr idMap => inr (set_filter n (Some idMap) (Some (rebuildExitFilterSnapshot n idMap)))
  end.

Definition refreshExitFilter (n : Nylon) : Nylon :=
  match ny_NodeIdMap n with
  | None => n
  | Some idMap => set_filter n (Some idMap) (Some (rebuildExitFilterSnapshot n idMap))
  end.

(** ** The [Router] interface *)

Definition LookupPeer (n : Nylon) (pk : NyPublicKey) : option Peer := ny_peers n !! pk.

Definition empty_io : IOPending := mkIOPending ∅ tc_new ∅ ∅.

Definition GetNeighIO (n : Nylon) (neigh : NodeId) : IOPending := default empty_io (ny_IO n !! neigh).

Definition put_io (n : Nylon) (neigh : NodeId) (io : IOPending) : Nylon := set_IO n (<[neigh := io]> (ny_IO n)).

Definition update_msg (advRoute : PubRoute) : Ny_Update :=
  mkNyUpdate (pr_NodeId advRoute) (pfx_MarshalBinary (pr_Prefix advRoute)) (pr_Seqno advRoute) (pr_Metric advRoute).

Definition SendRouteUpdate (n : Nylon) (neigh : NodeId) (advRoute : PubRoute) : Nylon :=
  let nio := GetNeighIO n neigh in
  put_io n neigh (mkIOPending (io_SeqnoReq nio) (io_SeqnoDedup nio) (io_Acks nio)
                    (<[pr_Prefix advRoute := update_msg advRoute]> (io_Updates nio))).

Definition SendAckRetract (n : Nylon) (neigh : NodeId) (prefix : Prefix) : Nylon :=
  let nio := GetNeighIO n neigh in
  put_io n neigh (mkIOPending (io_SeqnoReq nio) (io_SeqnoDedup nio) (<[prefix := ()]> (io_Acks nio)) (io_Updates nio)).

Definition BroadcastSendRouteUpdate (n : Nylon) (advRoute : PubRoute) : Nylon :=
  foldl (λ n neigh, SendRouteUpdate n (n_Id neigh) advRoute) n (rs_Neighbours (ny_rs n)).

Definition RequestSeqno (now : Z) (n : Nylon) (neigh : NodeId) (src : Source) (seqno hopCnt : Z) : Nylon :=
  let nio := GetNeighIO n neigh in
  let enqueue maxSeq :=
    let dedup := tc_Set now (SeqnoDedupTTL (rs_tun (ny_rs n))) (io_SeqnoDedup nio) src maxSeq in
    let req := match io_SeqnoReq nio !! src with
               | None => (seqno, hopCnt)
               | Some req => if seqno <? req.1 then (seqno, hopCnt)
                             else if req.2 <? hopCnt then (req.1, hopCnt) else req
               end in
    put_io n neigh (mkIOPending (<[src := req]> (io_SeqnoReq nio)) dedup (io_Acks nio) (io_Updates nio)) in
  match tc_Get now (io_SeqnoDedup nio) src with
  | None => enqueue seqno
  | Some old => if SeqnoGe old seqno then put_io n neigh nio else enqueue (Z.max seqno old)
  end.

Definition BroadcastRequestSeqno (now : Z) (n : Nylon) (src : Source) (seqno hopCnt : Z) : Nylon :=
  foldl (λ n neigh, RequestSeqno now n (n_Id neigh) src seqno hopCnt) n (rs_Neighbours (ny_rs n)).

Definition TableInsertRoute (n : Nylon) (prefix : Prefix) (route : SelRoute) : option Nylon :=
  let nh := sr_Nh route in
  if sr_Metric route =? INF then
    Some (refreshExitFilter (set_tables n (bt_Insert (ny_ForwardTable n) prefix (mkEntry nh None true))
                               (bt_Delete (ny_ExitTable n) prefix)))
  else
    node ← GetNode (ny_CentralCfg n) nh;
    let entry := mkEntry nh (LookupPeer n (nc_PubKey node)) false in
    Some (refreshExitFilter (set_tables n (bt_Insert (ny_ForwardTable n) prefix entry)
            (if bool_decide (nh = ny_LocalId n) then bt_Insert (ny_ExitTable n) prefix entry
             else bt_Delete (ny_ExitTable n) prefix))).

Definition TableDeleteRoute (n : Nylon) (prefix : Prefix) : Nylon :=
  refreshExitFilter (set_tables n (bt_Delete (ny_ForwardTable n) prefix) (bt_Delete (ny_ExitTable n) prefix)).

(** [time.Unix(1<<63-62135596801, 999999999)], in nanoseconds. *)
Definition maxTime : Z := (2 ^ 63 - 62135596801) * 10 ^ 9 + 999999999.

(** The state [InitRouter] installs; [health] gives the handle of a prefix health check,
    and the result is [None] when the local node is not a router of the network. *)
Definition InitRouter (health : PrefixHealth → HealthRef) (tun : RouterTunables) (n : Nylon) : option Nylon :=
  r ← GetRouter (ny_CentralCfg n) (ny_LocalId n);
  let advertised := foldl (λ m prefix,
      <[GetPrefix prefix := mkAdvertisement (ny_LocalId n) maxTime false (Some (health prefix)) None]> m)
    ∅ (nc_Prefixes (rc_Node r)) in
  let s := {| rs_tun := tun; rs_Id := ny_LocalId n; rs_SelfSeqno := ∅; rs_Routes := ∅; rs_Sources := ∅;
              rs_Neighbours := []; rs_Advertised := advertised |} in
  Some (set_tables (set_IO (set_rs n s) ∅) bt_empty bt_empty).

(** What a call of the routing algorithm does. *)
Definition perform (now : Z) (n : Nylon) (a : Act) : option Nylon :=
  match a with
  | ActSendRouteUpdate neigh adv => Some (SendRouteUpdate n neigh adv)
  | ActSendAckRetract neigh prefix => Some (SendAckRetract n neigh prefix)
  | ActBroadcastSendRouteUpdate adv => Some (BroadcastSendRouteUpdate n adv)
  | ActRequestSeqno neigh src seqno hopCnt => Some (RequestSeqno now n neigh src seqno hopCnt)
  | ActBroadcastRequestSeqno src seqno hopCnt => Some (BroadcastRequestSeqno now n src seqno hopCnt)
  | ActTableInsertRoute prefix route => TableInsertRoute n prefix route
  | ActTableDeleteRoute prefix => Some (TableDeleteRoute n prefix)
  | ActRouterEvent _ | ActExpiryFn _ => Some n
  end.

Definition perform_all (now : Z) (n : Nylon) (out : list Act) : option Nylon :=
  foldl (λ acc a, n ← acc; perform now n a) (Some n) out.

(** Running an operation of the algorithm with its calls. *)
Definition run (now : Z) (n : Nylon) (r : RouterState Ep * list Act) : option Nylon :=
  perform_all now (set_rs n r.1) r.2.

(** [ForwardEntryToNode]: the best usable route to any prefix of the node. *)
Definition ForwardEntryToNode (n : Nylon) (node : NodeId) : option (option RouteTableEntry) :=
  if bool_decide (node = ny_LocalId n) then Some (Some (mkEntry (ny_LocalId n) None false))
  else
    let best := foldl (λ best (x : Prefix * SelRoute), let route := x.2 in
        if negb (bool_decide (src_NodeId (sr_Source route) = node)) || bool_decide (sr_Nh route = ny_LocalId n)
           || (sr_Metric route =? INF) then best
        else match best with
             | None => Some route
             | Some b => if sr_Metric route <? sr_Metric b then Some route else best
             end) None (map_range (rs_Routes (ny_rs n))) in
    match best with
    | None => Some None
    | Some b =>
        cfg ← GetNode (ny_CentralCfg n) (sr_Nh b);
        Some (match LookupPeer n (nc_PubKey cfg) with
              | None => None
              | Some peer => Some (mkEntry (sr_Nh b) (Some peer) false)
              end)
    end.

(** ** Packet handlers *)

Definition checkNeigh (n : Nylon) (id : NodeId) : bool :=
  existsb (λ node, bool_decide (n_Id node = id)) (rs_Neighbours (ny_rs n)).

Definition checkPrefix (n : Nylon) (prefix : Prefix) : bool :=
  existsb (λ p, bool_decide (p = prefix)) (GetPrefixes (ny_CentralCfg n)).

Definition checkNode (n : Nylon) (id : NodeId) : bool :=
  match TryGetNode (ny_CentralCfg n) id with Some _ => true | None => false end.

Definition routerApplyRouteUpdate (e : Env) (n : Nylon) (node : NodeId) (update : Ny_Update) : option (Nylon * bool) :=
  match pfx_UnmarshalBinary (nu_Prefix update) with
  | None => Some (n, false)
  | Some prefix =>
      if negb (checkNeigh n node) || negb (checkPrefix n prefix) || negb (checkNode n (nu_RouterId update))
      then Some (n, false)
      else
        r ← HandleNeighbourUpdate e (ny_rs n) node
              (mkPubRoute (mkSource (nu_RouterId update) prefix) (mkFD (uint16 (nu_Seqno update)) (nu_Metric update)));
        n' ← run (env_now e) n r;
        Some (n', true)
  end.

Definition routerHandleRouteUpdate (e : Env) (n : Nylon) (node : NodeId) (update : Ny_Update) : option Nylon :=
  '(n', applied) ← routerApplyRouteUpdate e n node update;
  if (applied : bool) then run (env_now e) n' (ComputeRoutes e (ny_rs n')) else Some n'.

Definition routerHandleAckRetract (e : Env) (n : Nylon) (neigh : NodeId) (prefixBytes : list Z) : option Nylon :=
  match pfx_UnmarshalBinary prefixBytes with
  | None => Some n
  | Some prefix =>
      if negb (checkPrefix n prefix) || negb (checkNeigh n neigh) then Some n
      else run (env_now e) n (HandleAckRetract e (ny_rs n) neigh prefix)
  end.

Definition routerHandleSeqnoRequest (e : Env) (n : Nylon) (neigh : NodeId) (pkt : Ny_SeqnoRequest) : option Nylon :=
  match pfx_UnmarshalBinary (nq_Prefix pkt) with
  | None => Some n
  | Some prefix =>
      if negb (checkNeigh n neigh) || negb (checkPrefix n prefix) || negb (checkNode n (nq_RouterId pkt)) then Some n
      else run (env_now e) n (HandleSeqnoRequest e (ny_rs n) neigh (mkSource (nq_RouterId pkt) prefix)
                                (uint16 (nq_Seqno pkt)) (uint8 (nq_HopCount pkt)))
  end.

(** The dispatched part of [handleNylonPacket]: the control packets of a bundle in
    order, then one route computation if an update was applied. *)
Definition dispatch_control (e : Env) (n : Nylon) (neigh : NodeId) (packets : list Ny) : option Nylon :=
  '(n', routeUpdated) ← foldl (λ acc pkt,
      '(n, upd) ← acc;
      match pkt with
      | Ny_SeqnoRequestOp op => n' ← routerHandleSeqnoRequest e n neigh op; Some (n', upd)
      | Ny_RouteOp op => '(n', applied) ← routerApplyRouteUpdate e n neigh op; Some (n', upd || applied)
      | Ny_AckRetractOp op => n' ← routerHandleAckRetract e n neigh op; Some (n', upd)
      end) (Some (n, false)) packets;
  if (routeUpdated : bool) then run (env_now e) n' (ComputeRoutes e (ny_rs n')) else Some n'.

(** ** Periodic work *)

Definition UpdateNeighbour (now : Z) (n : Nylon) (neigh : NodeId) : option Nylon :=
  run now n (PushFullTable (ny_rs n) neigh).

Definition GcRouter (e : Env) (n : Nylon) : option Nylon :=
  n' ← run (env_now e) n (RunGC e (ny_rs n));
  let kept := foldl (λ io (x : NodeId * IOPending),
      match GetNeighbour (ny_rs n') x.1 with None => delete x.1 io | Some _ => io end)
    (ny_IO n') (map_range (ny_IO n')) in
  Some (set_IO n' ((λ nio, mkIOPending (io_SeqnoReq nio) (tc_DeleteExpired (env_now e) (io_SeqnoDedup nio))
                             (io_Acks nio) (io_Updates nio)) <$> kept)).

(** [health] stands for the metric closure of the prefix, [noop] for the empty expiry
    closure. *)
Definition updatePassiveClient (now : Z) (n : Nylon) (prefix : Prefix) (health noop : HealthRef) (node : NodeId)
    (passiveHold : bool) : Nylon :=
  let s := ny_rs n in
  let hasPassiveHold := match rs_Advertised s !! prefix with
                        | Some old => if bool_decide (adv_NodeId old = node) then adv_IsPassiveHold old else false
                        | None => false
                        end in
  let s := if passiveHold && negb hasPassiveHold then SetSeqno s prefix (uint16 (GetSeqno s prefix + 1)) else s in
  set_rs n (set_Advertised s (<[prefix := mkAdvertisement node (now + ClientKeepaliveInterval (rs_tun s)) passiveHold
                                            (Some health) (Some noop)]> (rs_Advertised s))).

Definition hasRecentlyAdvertised (now : Z) (n : Nylon) (prefix : Prefix) : bool :=
  match rs_Advertised (ny_rs n) !! prefix with
  | None => false
  | Some adv => now <? adv_Expiry adv
  end.

(** ** Flushing *)

Section flush.

(** [proto.Size] of a message, and whether a bundle can be marshalled. *)
Variables (msg_size : Ny → Z) (marshal_ok : list Ny → bool).

(** Moving messages from a pending map into the bundle; the result says whether the
    bundle is full. *)
Fixpoint drain {K V} `{Countable K} (mtu : Z) (mk : K → V → Ny) (l : list (K * V)) (m : gmap K V) (bundle : list Ny)
    (tLength : Z) : gmap K V * list Ny * Z * bool :=
  match l with
  | [] => (m, bundle, tLength, false)
  | (k, v) :: l' =>
      let req := mk k v in
      if negb (tLength =? 0) && (mtu <=? tLength + msg_size req) then (m, bundle, tLength, true)
      else drain mtu mk l' (delete k m) (bundle ++ [req]) (tLength + msg_size req)
  end.

Definition seqno_msg (src : Source) (r : Z * Z) : Ny :=
  Ny_SeqnoRequestOp (mkNySeqnoRequest (src_NodeId src) (pfx_MarshalBinary (src_Prefix src)) r.1 r.2).

Definition ack_msg (p : Prefix) (_ : unit) : Ny := Ny_AckRetractOp (pfx_MarshalBinary p).

(** One bundle. *)
Definition build_bundle (mtu : Z) (nio : IOPending) : IOPending * list Ny * Z :=
  let '(sr, b1, t1, full1) := drain mtu seqno_msg (map_range (io_SeqnoReq nio)) (io_SeqnoReq nio) [] 0 in
  if full1 then (mkIOPending sr (io_SeqnoDedup nio) (io_Acks nio) (io_Updates nio), b1, t1)
  else
    let '(up, b2, t2, full2) := drain mtu (λ _, Ny_RouteOp) (map_range (io_Updates nio)) (io_Updates nio) b1 t1 in
    if full2 then (mkIOPending sr (io_SeqnoDedup nio) (io_Acks nio) up, b2, t2)
    else
      let '(ak, b3, t3, _) := drain mtu ack_msg (map_range (io_Acks nio)) (io_Acks nio) b2 t2 in
      (mkIOPending sr (io_SeqnoDedup nio) ak up, b3, t3).

(** The bundles sent to one neighbour; the flag tells that sending failed.  [None] is
    running out of fuel, which [flush_neigh_spec] excludes. *)
Fixpoint flush_neigh (fuel : nat) (mtu : Z) (nio : IOPending) : option (IOPending * list (list Ny) * bool) :=
  match fuel with
  | O => None
  | S fuel' =>
      let '(nio', bundle, tLength) := build_bundle mtu nio in
      if tLength =? 0 then Some (nio', [], false)
      else if negb (marshal_ok bundle) then Some (nio', [], true)
      else '(nio'', bundles, err) ← flush_neigh fuel' mtu nio'; Some (nio'', bundle :: bundles, err)
  end.

Definition pending_count (nio : IOPending) : nat :=
  size (io_SeqnoReq nio) + size (io_Updates nio) + size (io_Acks nio).

Fixpoint flush_all (now : Z) (n : Nylon) (l : list (Neighbour Ep)) : option (Nylon * list (NodeId * list Ny) * bool) :=
  match l with
  | [] => Some (n, [], false)
  | neigh :: l' =>
      let nio := GetNeighIO n (n_Id neigh) in
      match BestEndpoint now (n_Eps neigh) with
      | Some best =>
          if ep_IsActive now best then
            _ ← GetNode (ny_CentralCfg n) (n_Id neigh);
            '(nio', bundles, err) ← flush_neigh (S (pending_count nio)) (SafeMTU (rs_tun (ny_rs n))) nio;
            let n' := put_io n (n_Id neigh) nio' in
            let out := (λ b, (n_Id neigh, b)) <$> bundles in
            if (err : bool) then Some (n', out, true)
            else '(n'', out', err') ← flush_all now n' l'; Some (n'', out ++ out', err')
          else flush_all now (put_io n (n_Id neigh) nio) l'
      | None => flush_all now (put_io n (n_Id neigh) nio) l'
      end
  end.

Definition flushIO (now : Z) (n : Nylon) : option (Nylon * list (NodeId * list Ny) * bool) :=
  flush_all now n (rs_Neighbours (ny_rs n)).

(** ** Events of the dispatch loop

    The work a running node does: a bundle of control packets from a peer, and its
    repeated and scheduled tasks. *)

Inductive NyEvent :=
| EvControl (neigh : NodeId) (packets : list Ny)
| EvComputeRoutes
| EvFullTableUpdate
| EvSolveStarvation
| EvUpdateNeighbour (neigh : NodeId)
| EvGcRouter
| EvFlushIO.

Definition handle_event (e : Env) (n : Nylon) (ev : NyEvent) : option Nylon :=
  match ev with
  | EvControl neigh packets => dispatch_control e n neigh packets
  | EvComputeRoutes => run (env_now e) n (ComputeRoutes e (ny_rs n))
  | EvFullTableUpdate => run (env_now e) n (FullTableUpdate (ny_rs n))
  | EvSolveStarvation => run (env_now e) n (ny_rs n, SolveStarvation e (ny_rs n))
  | EvUpdateNeighbour neigh => UpdateNeighbour (env_now e) n neigh
  | EvGcRouter => GcRouter e n
  | EvFlushIO => '(n', _, _) ← flushIO (env_now e) n; Some n'
  end.

End flush.

End io.

Arguments Nylon : clear implicits.
Arguments IOPending : clear implicits.
