(* ===== verification/Forwarding.v ===== *)
(** The forwarding tables follow the route table: what the calls of the routing
    algorithm do to [ForwardTable] and [ExitTable], and the invariant that ties both
    to the selected routes. *)

From S2P Require Import Prelude Bytes NetIP Float64 Metric Routing RouterAlgo RouterFacts RouterInv RouterOps Config External RouterIO.

Section forwarding.
Context {Ep : Type} `{LL : LinkLayer Ep} `{MR : MapRange} {T : Type → Type} `{BT : BartTable T} `{BTL : !BartTableLaws T}
  {C : Type → Type → Type} `{TC : TTLCache C}.
Abbreviation N := (Nylon Ep T C).
Implicit Types (n : N) (s : RouterState Ep).

(** ** What one call does to the tables *)

(** The forwarding entry of a route; [None] when the next hop is not configured. *)
Definition entry_of n (r : SelRoute) : option RouteTableEntry :=
  if sr_Metric r =? INF then Some (mkEntry (sr_Nh r) None true)
  else node ← GetNode (ny_CentralCfg n) (sr_Nh r);
       Some (mkEntry (sr_Nh r) (LookupPeer n (nc_PubKey node)) false).

(** Only a usable route through the local node itself is an exit. *)
Definition is_exit n (r : SelRoute) : bool :=
  negb (sr_Metric r =? INF) && bool_decide (sr_Nh r = ny_LocalId n).

Definition exit_of n (r : SelRoute) : option RouteTableEntry :=
  if is_exit n r then entry_of n r else None.

(** The surroundings [perform] leaves alone. *)
Definition same_frame n n' : Prop :=
  ny_rs n' = ny_rs n ∧ ny_CentralCfg n' = ny_CentralCfg n ∧ ny_LocalId n' = ny_LocalId n ∧ ny_peers n' = ny_peers n.

Definition inserted (p : Prefix) (a : Act) : option SelRoute :=
  match a with
  | ActTableInsertRoute q r => if decide (p = q) then Some r else None
  | _ => None
  end.

Definition inserts (p : Prefix) (out : list Act) : list SelRoute := omap (inserted p) out.

(** Table calls of the algorithm: insertions under canonical prefixes only. *)
Definition act_canon (a : Act) : Prop :=
  match a with
  | ActTableInsertRoute q _ => canonical q
  | ActTableDeleteRoute _ => False
  | _ => True
  end.

Lemma same_frame_trans n1 n2 n3 : same_frame n1 n2 → same_frame n2 n3 → same_frame n1 n3.
Proof. intros (? & ? & ? & ?) (? & ? & ? & ?). repeat split; congruence. Qed.

Lemma entry_of_frame n n' r : same_frame n n' → entry_of n' r = entry_of n r.
Proof. intros (_ & Hc & _ & Hp). unfold entry_of, LookupPeer. by rewrite Hc, Hp. Qed.

Lemma exit_of_frame n n' r : same_frame n n' → exit_of n' r = exit_of n r.
Proof.
  intros H. unfold exit_of, is_exit. rewrite (entry_of_frame n n' r H). destruct H as (_ & _ & Hl & _). by rewrite Hl.
Qed.

(** Tables and frame, for the calls that only queue messages. *)
Definition same_tables n n' : Prop :=
  same_frame n n' ∧ ny_ForwardTable n' = ny_ForwardTable n ∧ ny_ExitTable n' = ny_ExitTable n.

Lemma foldl_same_tables {A} (f : N → A → N) l n : (∀ n a, same_tables n (f n a)) → same_tables n (foldl f n l).
Proof.
  intros Hf. apply (foldl_ind (same_tables n)); [by repeat split|].
  intros n' a _ (H1 & H2 & H3). destruct (Hf n' a) as (H4 & H5 & H6).
  split; [by eapply same_frame_trans|]. split; congruence.
Qed.

Lemma RequestSeqno_tables now n neigh src q h : same_tables n (RequestSeqno now n neigh src q h).
Proof. unfold RequestSeqno. destruct (tc_Get _ _ _); [case_goal|]; by repeat split. Qed.

Lemma refreshExitFilter_tables n : same_tables n (refreshExitFilter n).
Proof. unfold refreshExitFilter. destruct (ny_NodeIdMap n); by repeat split. Qed.

Lemma TableInsertRoute_tables n p r n' : canonical p → TableInsertRoute n p r = Some n' →
  same_frame n n' ∧ is_Some (entry_of n r) ∧
  ∀ q, canonical q →
    bt_Get (ny_ForwardTable n') q = (if decide (q = p) then entry_of n r else bt_Get (ny_ForwardTable n) q) ∧
    bt_Get (ny_ExitTable n') q = (if decide (q = p) then exit_of n r else bt_Get (ny_ExitTable n) q).
Proof.
  intros Hp. unfold TableInsertRoute, exit_of, is_exit, entry_of.
  destruct (sr_Metric r =? INF); cbn [negb andb].
  - intros [= <-]. destruct (refreshExitFilter_tables (set_tables n
      (bt_Insert (ny_ForwardTable n) p (mkEntry (sr_Nh r) None true)) (bt_Delete (ny_ExitTable n) p))) as (Hf & -> & ->).
    split; [done|]. split; [by eexists|]. intros q Hq. cbn. by rewrite bt_Get_Insert, bt_Get_Delete.
  - destruct (GetNode _ _) as [node|]; [|done]. cbn. intros [= <-].
    match goal with |- context [refreshExitFilter ?x] => destruct (refreshExitFilter_tables x) as (Hf & -> & ->) end.
    split; [done|]. split; [by eexists|]. intros q Hq. cbn. rewrite bt_Get_Insert by done. split; [done|].
    case_bool_decide; [by rewrite bt_Get_Insert|by rewrite bt_Get_Delete].
Qed.

Lemma perform_tables now n a n' : act_canon a → perform now n a = Some n' →
  same_frame n n' ∧ ∀ q, canonical q →
    match inserted q a with
    | Some r => is_Some (entry_of n r) ∧ bt_Get (ny_ForwardTable n') q = entry_of n r ∧
                bt_Get (ny_ExitTable n') q = exit_of n r
    | None => bt_Get (ny_ForwardTable n') q = bt_Get (ny_ForwardTable n) q ∧
              bt_Get (ny_ExitTable n') q = bt_Get (ny_ExitTable n) q
    end.
Proof.
  assert (same_tables n n' → (∀ q, inserted q a = None) → same_frame n n' ∧ ∀ q, canonical q →
    match inserted q a with
    | Some r => is_Some (entry_of n r) ∧ bt_Get (ny_ForwardTable n') q = entry_of n r ∧
                bt_Get (ny_ExitTable n') q = exit_of n r
    | None => bt_Get (ny_ForwardTable n') q = bt_Get (ny_ForwardTable n) q ∧
              bt_Get (ny_ExitTable n') q = bt_Get (ny_ExitTable n) q
    end) as Hquiet.
  { intros (Hf & -> & ->) Hn. split; [done|]. intros q _. by rewrite Hn. }
  destruct a; cbn [act_canon perform]; intros Hc.
  6: { intros (Hf & He & Hq)%TableInsertRoute_tables; [|done]. split; [done|]. intros q Hcan.
       destruct (Hq q Hcan) as [-> ->]. cbn. by case_decide. }
  6: done.
  all: intros [= <-]; apply Hquiet; [|done].
  - by repeat split.
  - by repeat split.
  - apply foldl_same_tables. by repeat split.
  - apply RequestSeqno_tables.
  - apply foldl_same_tables. intros. apply RequestSeqno_tables.
  - by repeat split.
  - by repeat split.
Qed.

(** After a list of calls, an entry is what the last insertion left. *)
Lemma perform_all_tables now out : ∀ n n', Forall act_canon out → perform_all now n out = Some n' →
  same_frame n n' ∧ ∀ q, canonical q →
    match last (inserts q out) with
    | Some r => is_Some (entry_of n r) ∧ bt_Get (ny_ForwardTable n') q = entry_of n r ∧
                bt_Get (ny_ExitTable n') q = exit_of n r
    | None => bt_Get (ny_ForwardTable n') q = bt_Get (ny_ForwardTable n) q ∧
              bt_Get (ny_ExitTable n') q = bt_Get (ny_ExitTable n) q
    end.
Proof.
  induction out as [|a out IH] using rev_ind; intros n n' Hout.
  { intros [= <-]. by repeat split. }
  apply Forall_app in Hout as [Hout Ha]. rewrite Forall_singleton in Ha.
  unfold perform_all. rewrite foldl_app. fold (perform_all now n out). cbn [foldl].
  destruct (perform_all now n out) as [n1|] eqn:E; [|done]. cbn [mbind option_bind]. intros Hp.
  destruct (IH n n1 Hout E) as [Hf1 H1]. destruct (perform_tables _ _ _ _ Ha Hp) as [Hf2 H2].
  split; [by eapply same_frame_trans|]. intros q Hq. specialize (H1 q Hq). specialize (H2 q Hq).
  unfold inserts in *. rewrite omap_app. cbn [omap list_omap].
  destruct (inserted q a) as [r|].
  - rewrite last_snoc. by rewrite <-(entry_of_frame n n1), <-(exit_of_frame n n1).
  - rewrite app_nil_r. destruct (last _) as [r|]; destruct H2 as [-> ->]; done.
Qed.

(** ** The invariant *)

(** A prefix with a route has its forwarding entry, and an exit entry exactly when it is
    reached through the local node; a prefix without one has no exit entry and is not
    forwarded. *)
Definition mirrors n (R : gmap Prefix SelRoute) (p : Prefix) : Prop :=
  match R !! p with
  | Some r => is_Some (entry_of n r) ∧ bt_Get (ny_ForwardTable n) p = entry_of n r ∧
              bt_Get (ny_ExitTable n) p = exit_of n r
  | None => match bt_Get (ny_ForwardTable n) p with Some en => rte_Blackhole en = true | None => True end ∧
            bt_Get (ny_ExitTable n) p = None
  end.

Definition mirror n (R : gmap Prefix SelRoute) : Prop := ∀ p, canonical p → mirrors n R p.

(** The prefixes a router state speaks about are among [K]: the canonical ones, or all. *)
Definition keys_in (K : Prefix → Prop) s : Prop :=
  map_Forall (λ p _, K p) (rs_Routes s) ∧ map_Forall (λ p _, K p) (rs_Advertised s) ∧
  Forall (λ m, map_Forall (λ p _, K p) (n_Routes m)) (rs_Neighbours s).

Definition any_prefix (p : Prefix) : Prop := True.

Lemma keys_weaken (K K' : Prefix → Prop) s : (∀ p, K p → K' p) → keys_in K s → keys_in K' s.
Proof.
  intros HK (HR & HA & HN). split; [|split].
  - intros p r Hr. apply HK. by eapply HR.
  - intros p a Ha. apply HK. by eapply HA.
  - eapply Forall_impl; [exact HN|]. intros m Hm p r Hr. apply HK. by eapply Hm.
Qed.

Lemma keys_selected K e s be cn p r : keys_in K s → selected_at e s be cn p = Some r → K p.
Proof.
  intros (HR & HA & HN) [Hinc|(m & c & Hm & Hc & _)]%selected_at_cases.
  - unfold incumbent_at in Hinc. destruct (rs_Advertised s !! p) eqn:E; [by eapply HA|].
    apply held_at_Some in Hinc as (old & Hold & _). by eapply HR.
  - apply neigh_candidate_Some in Hc as (adv & Hadv & _). rewrite Forall_forall in HN. by eapply (HN m Hm).
Qed.

Lemma keys_compute K e s : keys_in K s → keys_in K (ComputeRoutes e s).1.
Proof.
  intros Hs. destruct (compute_frame e s) as (_ & _ & _ & HA & HN). unfold keys_in. rewrite HA, HN.
  split; [|split; [apply Hs|]].
  - intros p r. rewrite compute_Routes. unfold final_at. destruct (rs_Routes s !! p) as [old|] eqn:E.
    + intros _. destruct Hs as [HR _]. by eapply HR.
    + by apply (keys_selected K).
  - apply Forall_fmap. destruct Hs as (_ & _ & HN'). eapply Forall_impl; [exact HN'|].
    intros m Hm p r. cbn. rewrite lookup_fmap. intros (r' & Hr' & _)%fmap_Some. by eapply Hm.
Qed.

(** ** Insertions of a route computation *)

Lemma inserts_app p l1 l2 : inserts p (l1 ++ l2) = inserts p l1 ++ inserts p l2.
Proof. apply omap_app. Qed.

(** A loop over a map that inserts only under the key it visits. *)
Lemma inserts_range {V} (g : Prefix * V → list Act) (m : gmap Prefix V) p :
  (∀ k v, k ≠ p → inserts p (g (k, v)) = []) →
  inserts p (flat_map g (map_range m)) = match m !! p with Some v => inserts p (g (p, v)) | None => [] end.
Proof.
  intros Hg.
  assert (∀ l, NoDup l.*1 → inserts p (flat_map g l) =
    match snd <$> (snd <$> list_find (λ x, x.1 = p) l) with Some v => inserts p (g (p, v)) | None => [] end) as Hl.
  { induction l as [|[k v] l IH]; [done|]. cbn [fmap list_fmap flat_map list_find]. intros [Hk Hnd]%NoDup_cons.
    rewrite inserts_app. case_decide as Hd; cbn in Hd.
    - subst k. cbn. rewrite IH by done. destruct (list_find _ l) as [[i [k v']]|] eqn:E; [|by rewrite app_nil_r].
      apply list_find_Some in E as (Hi & Hp & _). cbn in Hp. subst k. exfalso. apply Hk.
      apply list_elem_of_fmap. exists (p, v'). split; [done|]. by eapply list_elem_of_lookup_2.
    - rewrite Hg by done. cbn [app]. rewrite IH by done. by destruct (list_find _ l) as [[]|]. }
  rewrite Hl by apply NoDup_map_range_keys.
  destruct (list_find _ _) as [[i [k v]]|] eqn:E; cbn.
  - apply list_find_Some in E as (Hi & Hk & _). cbn in Hk. subst k.
    apply list_elem_of_lookup_2, elem_of_map_range in Hi. by rewrite Hi.
  - destruct (m !! p) as [v|] eqn:Em; [|done]. apply elem_of_map_range in Em.
    apply list_find_None in E. rewrite Forall_forall in E. by destruct (E _ Em).
Qed.

(** When a new table entry is written to the forwarding table. *)
Definition rewritten (old : option SelRoute) (new : SelRoute) : bool :=
  match old with
  | None => true
  | Some old => (sr_Metric old =? INF) && negb (sr_Metric new =? INF) || negb (bool_decide (sr_Nh old = sr_Nh new))
  end.

Lemma inserts_pub s p r : inserts p (pub_acts s (p, r)) = if rewritten (rs_Routes s !! p) r then [r] else [].
Proof.
  unfold pub_acts, inserts. cbn [fst snd]. rewrite omap_app.
  assert (omap (inserted p) (if major_change s (rs_Routes s !! p) r
    then [ActRouterEvent EventMajorRouteChange; ActBroadcastSendRouteUpdate (sr_Pub r)] else []) = []) as ->
    by by case_goal.
  rewrite app_nil_r. unfold table_acts, rewritten. destruct (rs_Routes s !! p) as [old|].
  - destruct (_ && _); cbn; [by rewrite decide_True|]. case_bool_decide; cbn; [done|by rewrite decide_True].
  - cbn. by rewrite decide_True.
Qed.

Lemma inserts_ret s t p old : inserts p (ret_acts s t (p, old)) = if lost_in t (p, old) then [blackhole old] else [].
Proof.
  unfold ret_acts, inserts, retract. cbn [fst snd]. destruct (lost_in _ _); [|done].
  destruct (rs_Routes s !! p); cbn; by rewrite decide_True.
Qed.

Lemma inserts_compute e s p :
  last (inserts p (ComputeRoutes e s).2) =
  match rs_Routes s !! p with
  | Some old => if lost_in (table_of e s) (p, old) then Some (blackhole old)
                else match table_of e s !! p with
                     | Some r => if rewritten (Some old) r then Some r else None
                     | None => None
                     end
  | None => table_of e s !! p
  end.
Proof.
  rewrite compute_out, !inserts_app.
  rewrite (inserts_range (pub_acts s)), (inserts_range (ret_acts s (table_of e s))).
  - assert (inserts p (scan_events s (links_of e s)) = []) as ->.
    { unfold scan_events, inserts. induction (filter _ _) as [|x l IH]; [done|]. exact IH. }
    cbn [app]. rewrite last_app. destruct (rs_Routes s !! p) as [old|] eqn:Eo.
    + rewrite inserts_ret. case_goal; [done|]. cbn. destruct (table_of e s !! p); [|done].
      rewrite inserts_pub, Eo. unfold rewritten. by destruct (_ || _).
    + cbn. destruct (table_of e s !! p); [|done]. by rewrite inserts_pub, Eo.
  - intros k v Hk. unfold ret_acts, inserts, retract. cbn [fst snd]. destruct (lost_in _ _); [|done].
    destruct (rs_Routes s !! k); cbn; by rewrite decide_False.
  - intros k v Hk. unfold pub_acts, inserts, table_acts. cbn [fst snd]. rewrite omap_app.
    repeat case_goal; cbn; rewrite ?decide_False by done; done.
Qed.

(** ** The invariant is preserved *)

Lemma act_canon_compute e s : keys_in canonical s → Forall act_canon (ComputeRoutes e s).2.
Proof.
  intros Hs. apply Forall_forall. intros a Ha.
  rewrite compute_out, !elem_of_app, !list_elem_of_In, !in_flat_map in Ha.
  destruct Ha as [[Ha|([p r] & Hr & Ha)]|([p r] & Hr & Ha)].
  - by apply list_elem_of_In, list_elem_of_fmap in Ha as (? & -> & _).
  - apply list_elem_of_In, elem_of_map_range in Hr. rewrite table_of_lookup in Hr.
    apply (keys_selected canonical) in Hr; [|done]. unfold pub_acts, table_acts in Ha. cbn [fst snd] in Ha.
    apply in_app_iff in Ha as [Ha|Ha]; repeat case_hyp Ha; cbn in Ha; destruct_or?; by subst.
  - apply list_elem_of_In, elem_of_map_range in Hr. destruct Hs as [HR _]. apply HR in Hr.
    unfold ret_acts, retract in Ha. cbn [fst snd] in Ha. repeat case_hyp Ha; cbn in Ha; destruct_or?; by subst.
Qed.

(** Routes that agree in next hop and metric have the same entries. *)
Lemma entry_of_same n r r' : sr_Nh r = sr_Nh r' → (sr_Metric r =? INF) = (sr_Metric r' =? INF) →
  entry_of n r = entry_of n r' ∧ exit_of n r = exit_of n r'.
Proof. intros Hn Hm. unfold exit_of, is_exit, entry_of. by rewrite Hn, Hm. Qed.

(** A usable route whose next hop is neither a neighbour nor advertised any more: the
    computation replaces it or withdraws it. *)
Definition stale s (p : Prefix) : Prop :=
  ∃ old, rs_Routes s !! p = Some old ∧ sr_Metric old ≠ INF ∧ sr_Nh old ∉ n_Id <$> rs_Neighbours s ∧
    ∀ adv, rs_Advertised s !! p = Some adv → adv_NodeId adv ≠ sr_Nh old.

Lemma stale_rewritten e s be cn p old r :
  stale s p → rs_Routes s !! p = Some old → selected_at e s be cn p = Some r → sr_Metric r ≠ INF → sr_Nh old ≠ sr_Nh r.
Proof.
  intros (old' & Ho & _ & Hnn & Hna) Hold [Hinc|(m & k & Hm & Hk & ->)]%selected_at_cases Hfin Heq; simplify_eq.
  - unfold incumbent_at in Hinc. destruct (rs_Advertised s !! p) as [a|] eqn:E.
    + injection Hinc as <-. by apply (Hna a eq_refl).
    + by apply held_at_INF in Hinc.
  - apply neigh_candidate_Some in Hk as (adv & _ & (_ & _ & ->)%adv_candidate_Some). cbn in Heq. apply Hnn. rewrite Heq. by apply list_elem_of_fmap_2.
Qed.

(** After a computation the tables follow the routes, also where they did not before
    because the next hop is gone. *)
Lemma compute_mirror_stale e s n n' :
  keys_in canonical s → (∀ p, canonical p → stale s p ∨ mirrors n (rs_Routes s) p) →
  perform_all (env_now e) n (ComputeRoutes e s).2 = Some n' → mirror n' (rs_Routes (ComputeRoutes e s).1).
Proof.
  intros Hs Hm Hp p Hcan. specialize (Hm p Hcan).
  destruct (perform_all_tables _ _ _ _ (act_canon_compute e s Hs) Hp) as [Hf Ht]. specialize (Ht p Hcan).
  rewrite inserts_compute in Ht. unfold mirrors.
  rewrite compute_Routes. unfold final_at, lost_at. rewrite table_of_lookup in Ht.
  unfold lost_in, unreachable in Ht. cbn [fst snd] in Ht. rewrite table_of_lookup in Ht.
  assert (∀ r, entry_of n' r = entry_of n r) as He by (intros; by apply entry_of_frame).
  assert (∀ r, exit_of n' r = exit_of n r) as Hx by (intros; by apply exit_of_frame).
  destruct (rs_Routes s !! p) as [old|] eqn:Eold.
  2: { destruct Hm as [(old & ? & _)|Hm]; [congruence|]. unfold mirrors in Hm. rewrite Eold in Hm.
       destruct (selected_at _ _ _ _ _); [by rewrite He, Hx|]. by destruct Ht as [-> ->]. }
  destruct (selected_at _ _ _ _ _) as [r|] eqn:Esel; cbn [andb] in *.
  - destruct (sr_Metric r =? INF) eqn:Er, (sr_Metric old =? INF) eqn:Eo; cbn [andb negb] in *;
      unfold rewritten in Ht; rewrite ?Er, ?Eo in Ht; cbn [andb orb negb] in Ht;
      try (by rewrite He, Hx); (case_bool_decide as Hd; cbn in Ht; [|by rewrite He, Hx]);
      destruct (entry_of_same n old r Hd) as [He' Hx']; try congruence; rewrite He, Hx, <-He', <-Hx';
      destruct Ht as [-> ->]; (destruct Hm as [Hst|Hm]; [exfalso|unfold mirrors in Hm; rewrite Eold in Hm; exact Hm]).
    + destruct Hst as (old' & ? & ? & _). apply Z.eqb_eq in Eo. by simplify_eq.
    + apply Z.eqb_neq in Er. by eapply stale_rewritten.
  - destruct (sr_Metric old =? INF) eqn:Eo; cbn [andb negb] in *; [|by rewrite He, Hx].
    destruct Hm as [(old' & ? & ? & _)|Hm]; [apply Z.eqb_eq in Eo; by simplify_eq|]. unfold mirrors in Hm. rewrite Eold in Hm.
    destruct Ht as [-> ->]. destruct Hm as (_ & -> & ->). unfold exit_of, is_exit, entry_of. by rewrite Eo.
Qed.

Lemma compute_mirror e s n n' :
  keys_in canonical s → mirror n (rs_Routes s) →
  perform_all (env_now e) n (ComputeRoutes e s).2 = Some n' → mirror n' (rs_Routes (ComputeRoutes e s).1).
Proof. intros Hs Hm. apply compute_mirror_stale; [done|]. intros p Hp. right. by apply Hm. Qed.

(** Calls that leave the tables alone. *)
Lemma quiet_mirror now out n n' R :
  Forall act_canon out → (∀ p, inserts p out = []) → mirror n R → perform_all now n out = Some n' → mirror n' R.
Proof.
  intros Hc Hq Hm Hp p Hcan. specialize (Hm p Hcan). destruct (perform_all_tables _ _ _ _ Hc Hp) as [Hf Ht].
  specialize (Ht p Hcan). rewrite Hq in Ht. destruct Ht as [Hfw Hex]. unfold mirrors in *. rewrite Hfw, Hex.
  destruct (R !! p) as [r|]; [|done]. by rewrite (entry_of_frame n n'), (exit_of_frame n n').
Qed.

Lemma perform_all_app now n l1 l2 :
  perform_all now n (l1 ++ l2) = n1 ← perform_all now n l1; perform_all now n1 l2.
Proof.
  unfold perform_all. rewrite foldl_app. destruct (foldl _ (Some n) l1) as [n1|]; [done|].
  cbn. induction l2 as [|a l2 IH]; [done|exact IH].
Qed.

(** Calls that neither touch the tables nor carry a table update. *)
Definition quiet (a : Act) : bool :=
  match a with ActTableInsertRoute _ _ | ActTableDeleteRoute _ => false | _ => true end.

Lemma quiet_canon out : Forall (λ a, quiet a = true) out → Forall act_canon out ∧ ∀ p, inserts p out = [].
Proof.
  intros H. split.
  - eapply Forall_impl; [exact H|]. by intros [].
  - intros p. unfold inserts. induction H as [|a out Ha _ IH]; [done|]. by destruct a.
Qed.

Lemma quiet_run_mirror now out n n' R :
  Forall (λ a, quiet a = true) out → mirror n R → perform_all now n out = Some n' → mirror n' R.
Proof. intros [? ?]%quiet_canon. by apply quiet_mirror. Qed.

Lemma quiet_compute_mirror e s out n n' :
  Forall (λ a, quiet a = true) out → keys_in canonical s → mirror n (rs_Routes s) →
  perform_all (env_now e) n (out ++ (ComputeRoutes e s).2) = Some n' →
  mirror n' (rs_Routes (ComputeRoutes e s).1).
Proof.
  intros Hq Hs Hm. rewrite perform_all_app. destruct (perform_all _ n out) as [n1|] eqn:E; [|done].
  cbn. intros Hp. eapply compute_mirror; [done| |done]. by eapply quiet_run_mirror.
Qed.

(** ** Operations run to completion *)

(** A router state whose prefixes are among [K] and whose next hops are configured. *)
Definition sane (K : Prefix → Prop) (c : CentralCfg) s : Prop :=
  keys_in K s ∧ Forall (λ m, is_Some (GetNode c (n_Id m))) (rs_Neighbours s) ∧
  map_Forall (λ _ a, is_Some (GetNode c (adv_NodeId a))) (rs_Advertised s).

(** Insertions that do not panic. *)
Definition act_known (c : CentralCfg) (a : Act) : Prop :=
  match a with
  | ActTableInsertRoute _ r => sr_Metric r = INF ∨ is_Some (GetNode c (sr_Nh r))
  | _ => True
  end.

Lemma selected_known K c e s be cn p r :
  sane K c s → selected_at e s be cn p = Some r → sr_Metric r = INF ∨ is_Some (GetNode c (sr_Nh r)).
Proof.
  intros (_ & HN & HA) [Hinc|(m & k & Hm & Hk & ->)]%selected_at_cases.
  - unfold incumbent_at in Hinc. destruct (rs_Advertised s !! p) as [a|] eqn:E.
    + injection Hinc as <-. right. by apply HA in E.
    + left. by eapply held_at_INF.
  - right. apply neigh_candidate_Some in Hk as (adv & _ & (_ & _ & ->)%adv_candidate_Some). cbn.
    rewrite Forall_forall in HN. by apply HN.
Qed.

Lemma act_known_compute K c e s : sane K c s → Forall (act_known c) (ComputeRoutes e s).2.
Proof.
  intros Hs. apply Forall_forall. intros a Ha.
  rewrite compute_out, !elem_of_app, !list_elem_of_In, !in_flat_map in Ha.
  destruct Ha as [[Ha|([p r] & Hr & Ha)]|([p r] & Hr & Ha)].
  - by apply list_elem_of_In, list_elem_of_fmap in Ha as (? & -> & _).
  - apply list_elem_of_In, elem_of_map_range in Hr. rewrite table_of_lookup in Hr.
    apply (selected_known K c) in Hr; [|done]. change (act_known c (ActTableInsertRoute p r)) in Hr. unfold pub_acts, table_acts in Ha. cbn [fst snd] in Ha.
    apply in_app_iff in Ha as [Ha|Ha]; repeat case_hyp Ha; cbn in Ha; destruct_or?; by subst.
  - unfold ret_acts, retract in Ha. cbn [fst snd] in Ha.
    repeat case_hyp Ha; cbn in Ha; destruct_or?; subst; try done; by left.
Qed.

Lemma perform_frame now n a n' : perform now n a = Some n' → same_frame n n'.
Proof.
  assert (∀ n', same_tables n n' → same_frame n n') as Hst by by intros ? [? _].
  assert (∀ f x, same_frame n (refreshExitFilter (set_tables n f x))) as Href.
  { intros f x. apply same_frame_trans with (set_tables n f x); [by repeat split|apply refreshExitFilter_tables]. }
  destruct a; cbn [perform].
  6: { unfold TableInsertRoute. destruct (_ =? _); [intros [= <-]; apply Href|].
       destruct (GetNode _ _); [|done]. cbn. intros [= <-]. apply Href. }
  all: intros [= <-]; try apply Href; apply Hst; try (by repeat split).
  - apply foldl_same_tables. by repeat split.
  - apply RequestSeqno_tables.
  - apply foldl_same_tables. intros. apply RequestSeqno_tables.
Qed.

Lemma perform_known now n a : act_known (ny_CentralCfg n) a → is_Some (perform now n a).
Proof.
  destruct a; cbn [perform act_known]; try done. unfold TableInsertRoute. destruct (_ =? _) eqn:E; [done|].
  intros [Hi|[node Hn]]; [by apply Z.eqb_neq in E|]. by rewrite Hn.
Qed.

Lemma perform_all_known now out : ∀ n, Forall (act_known (ny_CentralCfg n)) out →
  ∃ n', perform_all now n out = Some n' ∧ same_frame n n'.
Proof.
  induction out as [|a out IH]; intros n Hout; [by eexists|].
  apply Forall_cons in Hout as [Ha Hout]. destruct (perform_known now n a Ha) as [n1 H1].
  pose proof (perform_frame _ _ _ _ H1) as Hf. pose proof Hf as (_ & Hc & _).
  destruct (IH n1) as (n' & Hn' & Hf'); [by rewrite Hc|]. exists n'. split; [|by eapply same_frame_trans].
  unfold perform_all. cbn [foldl mbind option_bind]. by rewrite H1.
Qed.

Lemma quiet_known c out : Forall (λ a, quiet a = true) out → Forall (act_known c) out.
Proof. intros H. eapply Forall_impl; [exact H|]. by intros []. Qed.

(** *** Shape of an operation: some queueing, then possibly a route computation *)

Definition op_keys (K : Prefix → Prop) (op : Op) : Prop :=
  match op with OpNeighbourUpdate _ adv => K (pr_Prefix adv) | _ => True end.

Definition op_shape (K : Prefix → Prop) (c : CentralCfg) e s (r : RouterState Ep * list Act) : Prop :=
  sane K c r.1 ∧
  (Forall (λ a, quiet a = true) r.2 ∧ rs_Routes r.1 = rs_Routes s ∨
   ∃ out s0, Forall (λ a, quiet a = true) out ∧ r.2 = out ++ (ComputeRoutes e s0).2 ∧
     rs_Routes r.1 = rs_Routes (ComputeRoutes e s0).1 ∧ sane K c s0 ∧
     ∀ n, mirror n (rs_Routes s) → mirror n (rs_Routes s0)).

Lemma sane_compute K c e s : sane K c s → sane K c (ComputeRoutes e s).1.
Proof.
  intros (Hc & HN & HA). split; [by apply keys_compute|].
  destruct (compute_frame e s) as (_ & _ & _ & -> & ->). split; [|done]. by apply Forall_fmap.
Qed.

Lemma compute_shape K c e s s0 out :
  sane K c s0 → Forall (λ a, quiet a = true) out → (∀ n, mirror n (rs_Routes s) → mirror n (rs_Routes s0)) →
  op_shape K c e s ((ComputeRoutes e s0).1, out ++ (ComputeRoutes e s0).2).
Proof. intros Hs Hq Hm. split; [by apply sane_compute|]. right. by exists out, s0. Qed.

Lemma quiet_shape K c e s s' out :
  sane K c s' → Forall (λ a, quiet a = true) out → rs_Routes s' = rs_Routes s → op_shape K c e s (s', out).
Proof. intros. split; [done|by left]. Qed.

Lemma full_quiet {A} (send : PubRoute → Act) (l : list A) f :
  (∀ x, quiet (send x) = true) → Forall (λ a, quiet a = true) ((λ x, send (f x)) <$> l).
Proof. intros Hs. apply Forall_fmap, Forall_forall. intros x _. apply Hs. Qed.

Lemma gc_quiet e s : Forall (λ a, quiet a = true) (gc_acts e s).
Proof.
  apply Forall_forall. intros a Ha. unfold gc_acts in Ha.
  rewrite elem_of_app, !list_elem_of_In, !in_flat_map in Ha. destruct Ha as [(m & _ & Ha)|(x & _ & Ha)].
  - apply in_flat_map in Ha as (x & _ & Ha). unfold expiry_acts in Ha.
    case_hyp Ha; cbn in Ha; destruct_or?; by subst.
  - unfold adv_expiry_acts in Ha. repeat case_hyp Ha; cbn in Ha; destruct_or?; by subst.
Qed.

Lemma starvation_quiet e s : Forall (λ a, quiet a = true) (SolveStarvation e s).
Proof.
  unfold SolveStarvation. apply (foldl_ind (λ out, Forall (λ a, quiet a = true) out)); [done|].
  intros out [src f] _ IH. case_goal; [|done]. apply Forall_app. split; [done|by repeat constructor].
Qed.

Lemma gc_start_sane K c e s : sane K c s → sane K c (gc_start e s).
Proof.
  intros ((HR & HA & HN) & HN' & HA'). split; [split; [done|split]|split]; cbn.
  - intros p a. rewrite lookup_omap. intros (a' & Ha' & _)%bind_Some. by eapply HA.
  - apply Forall_fmap. eapply Forall_impl; [exact HN|]. intros m Hm p r. cbn. rewrite lookup_omap.
    intros (r' & Hr' & _)%bind_Some. by eapply Hm.
  - by apply Forall_fmap.
  - intros p a. rewrite lookup_omap. intros (a' & Ha' & H)%bind_Some. unfold live_adv in H.
    case_hyp H; simplify_eq. by apply HA' in Ha'.
Qed.

Lemma put_route_sane K c s neigh p r : K p → sane K c s → sane K c (put_route s neigh p r).
Proof.
  intros Hp ((HR & HA & HN) & HN' & HA'). unfold put_route.
  assert (∀ f, rs_Routes (put_neighbour s neigh f) = rs_Routes s ∧ rs_Advertised (put_neighbour s neigh f) = rs_Advertised s)
    as Hput by (intros f; unfold put_neighbour; by destruct (list_find _ _) as [[]|]).
  unfold sane, keys_in. destruct (Hput (λ m, set_n_Routes m (<[p:=r]> (n_Routes m)))) as [-> ->].
  split; [split; [done|split; [done|]]|split; [|done]]; apply put_neighbour_Forall; try done.
  intros m Hm. cbn. by apply map_Forall_insert_2.
Qed.

Lemma seqno_shape K c e s from src q h : sane K c s → op_shape K c e s (HandleSeqnoRequest e s from src q h).
Proof.
  intros Hs. unfold HandleSeqnoRequest. destruct (rs_Routes s !! src_Prefix src) as [r|]; [|by apply quiet_shape].
  destruct (answer_request s from src q r) as [s1 out1] eqn:Ea.
  assert (sane K c s1 ∧ rs_Routes s1 = rs_Routes s ∧ Forall (λ a, quiet a = true) out1) as (Hs1 & HR & Hq).
  { unfold answer_request in Ea. case_hyp Ea; injection Ea as <- <-; [|by split; [|split]].
    rewrite updateFeasibility_eq. split; [done|split; [done|by repeat constructor]]. }
  destruct (_ && _); [|by apply quiet_shape].
  destruct (bool_decide _).
  - rewrite (surjective_pairing (ComputeRoutes e _)). apply compute_shape; [done|done|]. intros n. cbn. by rewrite HR.
  - destruct (_ && _); [|by apply quiet_shape]. destruct (forward_target _ _ _ _); (apply quiet_shape; [done| |done]); [|done].
    apply Forall_app. split; [done|by repeat constructor].
Qed.

Lemma ack_shape K c e s neigh p : sane K c s → op_shape K c e s (HandleAckRetract e s neigh p).
Proof.
  intros Hs. unfold HandleAckRetract. destruct (rs_Routes s !! p) as [rt|] eqn:E.
  2: { apply quiet_shape; [done|by repeat constructor|done]. }
  destruct (negb _); [by apply quiet_shape|]. destruct (bool_decide _); [by apply quiet_shape|].
  rewrite (surjective_pairing (ComputeRoutes e _)). apply (compute_shape K c e s _ []); [|done|].
  - destruct Hs as ((HR & HA & HN) & ?). split; [|done]. split; [|done]. apply map_Forall_insert_2; [|done].
    by apply HR in E.
  - intros n Hm p' Hp'. specialize (Hm p' Hp'). unfold mirrors in *. cbn.
    destruct (decide (p = p')) as [<-|Hne]; [|by rewrite lookup_insert_ne].
    rewrite lookup_insert_eq. rewrite E in Hm. exact Hm.
Qed.

Lemma update_shape K c e s neigh adv r :
  sane K c s → K (pr_Prefix adv) → HandleNeighbourUpdate e s neigh adv = Some r → op_shape K c e s r.
Proof.
  intros Hs Hc. unfold HandleNeighbourUpdate. destruct (GetNeighbour s neigh) as [m|]; [|done]. intros H.
  assert (∀ x, rs_Routes (put_route s neigh (pr_Prefix adv) x) = rs_Routes s) as HR.
  { intros x. unfold put_route, put_neighbour. by destruct (list_find _ _) as [[]|]. }
  pose proof (λ x, put_route_sane K c s neigh _ x Hc Hs) as Hput.
  repeat case_hyp H; simplify_eq;
    (apply quiet_shape; [done || apply Hput|by repeat constructor|done || apply HR]).
Qed.

Lemma run_op_shape K c e s op r : sane K c s → op_keys K op → run_op e s op = Some r → op_shape K c e s r.
Proof.
  intros Hs Hop. destruct op as [| |neigh| |from src q h|neigh p|neigh adv|]; cbn [run_op].
  7: by apply update_shape.
  all: intros [= H]; subst.
  - rewrite (surjective_pairing (ComputeRoutes e s)). by apply (compute_shape K c e s s []).
  - rewrite FullTableUpdate_eq. apply quiet_shape; [done| |done]. by apply full_quiet.
  - rewrite PushFullTable_eq. apply quiet_shape; [done| |done]. by apply full_quiet.
  - rewrite RunGC_eq, gc_sources_eq. destruct (compute_shape K c e s (gc_start e s) (gc_acts e s)) as [H1 H2].
    + by apply gc_start_sane.
    + apply gc_quiet.
    + done.
    + by split.
  - by apply seqno_shape.
  - by apply ack_shape.
  - apply quiet_shape; [done|apply starvation_quiet|done].
Qed.

(** ** Events *)

(** What makes a node run: its configuration's prefixes are among [K], its router state is
    sane, and its forwarding tables follow its routes where only canonical prefixes occur. *)
Definition good_for (K : Prefix → Prop) n : Prop :=
  (∀ p, p ∈ GetPrefixes (ny_CentralCfg n) → K p) ∧ sane K (ny_CentralCfg n) (ny_rs n) ∧
  ((∀ p, K p → canonical p) → mirror n (rs_Routes (ny_rs n))).

(** The neighbours and the nodes that are advertised for are configured. *)
Definition known n : Prop := good_for any_prefix n.

(** All prefixes are canonical, and the tables follow the routes. *)
Definition good n : Prop := good_for canonical n.

Lemma good_mirror n : good n → mirror n (rs_Routes (ny_rs n)).
Proof. intros (_ & _ & Hm). by apply Hm. Qed.

Lemma good_intro n : (∀ p, p ∈ GetPrefixes (ny_CentralCfg n) → canonical p) → sane canonical (ny_CentralCfg n) (ny_rs n) →
  mirror n (rs_Routes (ny_rs n)) → good n.
Proof. by intros. Qed.

Lemma good_for_known K n : good_for K n → known n.
Proof.
  intros (_ & (HK & Hk) & _). split; [done|]. split; [split; [|done]|].
  - by apply (keys_weaken K).
  - intros H. by destruct (H (mkPrefix AddrZero 0) I).
Qed.

Lemma run_good K e n op r :
  good_for K n → op_keys K op → run_op e (ny_rs n) op = Some r →
  ∃ n', run (env_now e) n r = Some n' ∧ good_for K n' ∧ same_frame (set_rs n r.1) n'.
Proof.
  intros (Hcfg & Hs & Hm) Hop Hr. destruct (run_op_shape _ _ _ _ _ _ Hs Hop Hr) as [Hs' Hcase].
  unfold run. destruct (perform_all_known (env_now e) r.2 (set_rs n r.1)) as (n' & Hn' & Hf).
  { destruct Hcase as [[Hq _]|(out & s0 & Hq & -> & _ & Hs0 & _)]; [by apply quiet_known|].
    apply Forall_app. split; [by apply quiet_known|by eapply act_known_compute]. }
  exists n'. split; [done|]. split; [|done]. pose proof Hf as (Hrs & Hc & _). cbn in Hrs, Hc. unfold good_for. rewrite Hrs, Hc.
  split; [done|]. split; [done|]. intros HK. specialize (Hm HK).
  destruct Hcase as [[Hq HR]|(out & s0 & Hq & Heq & HR & Hs0 & Hmir)]; rewrite HR.
  - eapply (quiet_run_mirror _ _ (set_rs n r.1)); [exact Hq| |exact Hn']. exact Hm.
  - rewrite Heq in Hn'. eapply (quiet_compute_mirror _ _ _ (set_rs n r.1)); [exact Hq|by apply (keys_weaken K _ _ HK), Hs0| |exact Hn'].
    apply Hmir. exact Hm.
Qed.

End forwarding.
