(* ===== verification/Flush.v ===== *)
(** Sending what is pending: [flushIO] of [core/router.go] packs the queued messages of
    every reachable neighbour into bundles. *)

From S2P Require Import Prelude Bytes NetIP Float64 Metric Routing RouterAlgo Config External RouterIO.

Section flush.
Context {Ep : Type} `{LL : LinkLayer Ep} `{MR : MapRange} {T : Type → Type} `{BT : BartTable T}
  {C : Type → Type → Type} `{TC : TTLCache C}.
Context (msg_size : Ny → Z) (marshal_ok : list Ny → bool) (msg_size_pos : ∀ m, 0 < msg_size m).
Implicit Types (nio : IOPending C) (n : Nylon Ep T C).

Definition bundle_size (l : list Ny) : Z := foldr (λ m z, msg_size m + z) 0 l.

(** A bundle fits below the limit unless it is a single message. *)
Definition fits (mtu : Z) (l : list Ny) : Prop := (length l <= 1)%nat ∨ bundle_size l < mtu.

(** Everything queued for a neighbour. *)
Definition pending nio : list Ny :=
  ((λ x, seqno_msg x.1 x.2) <$> map_to_list (io_SeqnoReq nio)) ++
  ((λ x, Ny_RouteOp x.2) <$> map_to_list (io_Updates nio)) ++
  ((λ x, ack_msg x.1 x.2) <$> map_to_list (io_Acks nio)).

Lemma bundle_size_app l1 l2 : bundle_size (l1 ++ l2) = bundle_size l1 + bundle_size l2.
Proof. unfold bundle_size. induction l1 as [|m l1 IH]; [done|]. cbn. rewrite IH. lia. Qed.

Lemma bundle_size_pos l : l ≠ [] → 0 < bundle_size l.
Proof.
  assert (∀ l, 0 <= bundle_size l) as Hnn.
  { intros k. induction k as [|m k IH]; cbn; [lia|]. specialize (msg_size_pos m). unfold bundle_size in IH. lia. }
  destruct l as [|m l]; [done|]. intros _. cbn. specialize (Hnn l). specialize (msg_size_pos m).
  unfold bundle_size in Hnn. lia.
Qed.

Lemma bundle_size_0 l : bundle_size l = 0 ↔ l = [].
Proof. split; [|by intros ->]. destruct l; [done|]. intros H. pose proof (bundle_size_pos (n :: l)). naive_solver lia. Qed.

Section drain.
Context {K V : Type} `{Countable K} (mtu : Z) (mk : K → V → Ny).

Lemma drain_spec l : ∀ (m : gmap K V) b m' b' t' full,
  map_to_list m ≡ₚ l → fits mtu b →
  drain msg_size mtu mk l m b (bundle_size b) = (m', b', t', full) →
  ∃ taken, map_to_list m ≡ₚ taken ++ map_to_list m' ∧ b' = b ++ ((λ x, mk x.1 x.2) <$> taken) ∧
    t' = bundle_size b' ∧ fits mtu b' ∧ (full = false → m' = ∅) ∧ (full = true → b' ≠ []).
Proof.
  induction l as [|[k v] l IH]; intros m b m' b' t' full Hl Hb; cbn [drain].
  { intros [= <- <- <- <-]. exists []. rewrite app_nil_r. repeat split; try done.
    intros _. by apply map_to_list_empty_iff, Permutation_nil_r. }
  destruct (negb (bundle_size b =? 0) && (mtu <=? bundle_size b + msg_size (mk k v))) eqn:E.
  { intros [= <- <- <- <-]. exists []. rewrite app_nil_r. repeat split; try done.
    intros _ ->. cbn in E. done. }
  assert (m !! k = Some v) as Hk. { apply elem_of_map_to_list. rewrite Hl. by left. }
  replace (bundle_size b + msg_size (mk k v)) with (bundle_size (b ++ [mk k v]))
    by (rewrite bundle_size_app; cbn; lia).
  intros Hd. apply IH in Hd as (taken & Ht & -> & -> & Hfit & Hf1 & Hf2).
  - exists ((k, v) :: taken). cbn [fmap list_fmap]. rewrite <-app_assoc in *. repeat split; try done.
    rewrite <-(map_to_list_delete m k v Hk). cbn. by constructor.
  - apply (Permutation_cons_inv (a := (k, v))). by rewrite map_to_list_delete.
  - unfold fits. rewrite length_app, bundle_size_app. cbn [length bundle_size foldr].
    destruct (Z.eqb_spec (bundle_size b) 0) as [E0|E0]; cbn in E.
    + apply bundle_size_0 in E0 as ->. cbn. left. lia.
    + right. to_prop. lia.
Qed.

Lemma drain_range (m : gmap K V) b m' b' t' full :
  fits mtu b → drain msg_size mtu mk (map_range m) m b (bundle_size b) = (m', b', t', full) →
  ∃ taken, map_to_list m ≡ₚ taken ++ map_to_list m' ∧ b' = b ++ ((λ x, mk x.1 x.2) <$> taken) ∧
    t' = bundle_size b' ∧ fits mtu b' ∧ (full = false → m' = ∅) ∧ (full = true → b' ≠ []).
Proof. apply drain_spec. symmetry. apply map_range_perm. Qed.

End drain.

(** One bundle takes messages off the queue, as many as fit. *)
Lemma build_bundle_spec mtu nio nio' bundle t :
  build_bundle msg_size mtu nio = (nio', bundle, t) →
  pending nio ≡ₚ bundle ++ pending nio' ∧ t = bundle_size bundle ∧ fits mtu bundle ∧
  io_SeqnoDedup nio' = io_SeqnoDedup nio ∧ (bundle = [] → pending nio' = []).
Proof.
  unfold build_bundle. destruct (drain _ _ _ _ _ [] 0) as [[[sr b1] t1] full1] eqn:E1.
  apply (drain_range mtu seqno_msg _ []) in E1 as (k1 & H1 & -> & -> & Hf1 & Hn1 & Hy1); [|by left; cbn; lia].
  cbn [app] in *. destruct full1.
  { intros [= <- <- <-]. split; [|repeat split; [done|by intros Hb; destruct (Hy1 eq_refl)]].
    unfold pending. cbn. rewrite H1, fmap_app, <-!app_assoc. done. }
  specialize (Hn1 eq_refl) as ->. rewrite map_to_list_empty, app_nil_r in H1.
  destruct (drain _ _ _ (map_range (io_Updates nio)) _ _ _) as [[[up b2] t2] full2] eqn:E2.
  apply (drain_range mtu (λ _, Ny_RouteOp)) in E2 as (k2 & H2 & -> & -> & Hf2 & Hn2 & Hy2); [|done].
  destruct full2.
  { intros [= <- <- <-]. split; [|repeat split; [done|by intros Hb; destruct (Hy2 eq_refl)]].
    unfold pending. cbn. rewrite H1, H2, fmap_app, map_to_list_empty, <-!app_assoc. done. }
  specialize (Hn2 eq_refl) as ->. rewrite map_to_list_empty, app_nil_r in H2.
  destruct (drain _ _ _ (map_range (io_Acks nio)) _ _ _) as [[[ak b3] t3] full3] eqn:E3.
  apply (drain_range mtu ack_msg) in E3 as (k3 & H3 & -> & -> & Hf3 & Hn3 & Hy3); [|done].
  intros [= <- <- <-]. split; [|repeat split; [done|]].
  - unfold pending. cbn. rewrite H1, H2, H3, fmap_app, !map_to_list_empty, <-!app_assoc. done.
  - intros Hb. destruct full3; [by destruct (Hy3 eq_refl)|]. specialize (Hn3 eq_refl) as ->.
    unfold pending. cbn. by rewrite !map_to_list_empty.
Qed.

(** Flushing one neighbour: it ends, the bundles fit, and every message is sent exactly
    once; what a failed bundle held is lost. *)
Lemma flush_neigh_spec mtu fuel : ∀ nio, (length (pending nio) < fuel)%nat →
  ∃ nio' bundles err lost, flush_neigh msg_size marshal_ok fuel mtu nio = Some (nio', bundles, err) ∧
    pending nio ≡ₚ concat bundles ++ lost ++ pending nio' ∧
    Forall (λ b, b ≠ [] ∧ fits mtu b ∧ marshal_ok b = true) bundles ∧
    io_SeqnoDedup nio' = io_SeqnoDedup nio ∧
    (if err then marshal_ok lost = false else lost = [] ∧ pending nio' = []).
Proof.
  induction fuel as [|fuel IH]; intros nio Hfuel; [lia|]. cbn [flush_neigh].
  destruct (build_bundle msg_size mtu nio) as [[nio1 bundle] t] eqn:E.
  apply build_bundle_spec in E as (Hp & -> & Hfit & Hd & He).
  destruct (Z.eqb_spec (bundle_size bundle) 0) as [E0|E0].
  { apply bundle_size_0 in E0 as ->. specialize (He eq_refl).
    exists nio1, [], false, []. repeat split; try done. }
  assert (bundle ≠ []) as Hne by by intros ->.
  destruct (marshal_ok bundle) eqn:Ek; cbn [negb].
  - destruct (IH nio1) as (nio' & bundles & err & lost & -> & Hp' & Hall & Hd' & Herr).
    { rewrite Hp, length_app in Hfuel. destruct bundle; [done|]. cbn in Hfuel. lia. }
    exists nio', (bundle :: bundles), err, lost. split; [done|]. split.
    { rewrite Hp, Hp'. cbn. by rewrite <-app_assoc. }
    split; [by constructor|]. split; [congruence|done].
  - exists nio1, [], true, bundle. by repeat split.
Qed.

Lemma pending_count_length nio : length (pending nio) = pending_count nio.
Proof. unfold pending, pending_count. rewrite !length_app, !length_fmap, !length_map_to_list. lia. Qed.

(** ** All neighbours *)

(** The messages sent to a node, in order. *)
Definition sent_to (id : NodeId) (out : list (NodeId * list Ny)) : list Ny :=
  concat (snd <$> filter (λ x, x.1 = id) out).

Definition reachable_neigh (now : Z) (m : Neighbour Ep) : bool :=
  match BestEndpoint now (n_Eps m) with Some best => ep_IsActive now best | None => false end.

(** A neighbour is served: its queue is emptied onto the wire if it is reachable, and
    left alone otherwise. *)
Definition served (now : Z) n n' (out : list (NodeId * list Ny)) (m : Neighbour Ep) : Prop :=
  if reachable_neigh now m
  then pending (GetNeighIO n' (n_Id m)) = [] ∧ sent_to (n_Id m) out ≡ₚ pending (GetNeighIO n (n_Id m))
  else GetNeighIO n' (n_Id m) = GetNeighIO n (n_Id m) ∧ sent_to (n_Id m) out = [].

Lemma sent_to_app id out1 out2 : sent_to id (out1 ++ out2) = sent_to id out1 ++ sent_to id out2.
Proof. unfold sent_to. by rewrite filter_app, fmap_app, concat_app. Qed.

Lemma sent_to_self id bundles : sent_to id ((λ b, (id, b)) <$> bundles) = concat bundles.
Proof.
  unfold sent_to. induction bundles as [|b l IH]; [done|]. cbn [fmap list_fmap].
  rewrite filter_cons_True by done. cbn. by rewrite IH.
Qed.

Lemma sent_to_other id id' (bundles : list (list Ny)) : id ≠ id' → sent_to id' ((λ b, (id, b)) <$> bundles) = [].
Proof.
  intros Hne. unfold sent_to. induction bundles as [|b l IH]; [done|]. cbn [fmap list_fmap].
  by rewrite filter_cons_False.
Qed.

Lemma GetNeighIO_put n id nio id' :
  GetNeighIO (put_io n id nio) id' = if decide (id' = id) then nio else GetNeighIO n id'.
Proof.
  unfold GetNeighIO, put_io. cbn. case_decide; subst; [by rewrite lookup_insert_eq|by rewrite lookup_insert_ne].
Qed.

(** What a pass over the neighbours [l] has done. *)
Definition flushed (now : Z) n (l : list (Neighbour Ep)) n' (out : list (NodeId * list Ny)) (err : bool) : Prop :=
  n' = set_IO n (ny_IO n') ∧ Forall (λ x, x.2 ≠ [] ∧ fits (SafeMTU (rs_tun (ny_rs n))) x.2) out ∧
  (∀ id, id ∉ n_Id <$> l → GetNeighIO n' id = GetNeighIO n id ∧ sent_to id out = []) ∧
  (if err then ∃ b, marshal_ok b = false else Forall (served now n n' out) l).

Lemma flushed_cons now n m l nio bundles n' out err :
  n_Id m ∉ n_Id <$> l → flushed now (put_io n (n_Id m) nio) l n' out err →
  Forall (λ b, b ≠ [] ∧ fits (SafeMTU (rs_tun (ny_rs n))) b) bundles →
  (if reachable_neigh now m then pending nio = [] ∧ concat bundles ≡ₚ pending (GetNeighIO n (n_Id m))
   else nio = GetNeighIO n (n_Id m) ∧ bundles = []) →
  flushed now n (m :: l) n' (((λ b, (n_Id m, b)) <$> bundles) ++ out) err.
Proof.
  intros Hm (Hn' & Hout & Hother & Hall) Hb Hdone.
  split; [rewrite Hn'; done|]. split; [by apply Forall_app, conj; [apply Forall_fmap|]|]. split.
  - intros id [Hid Hid']%not_elem_of_cons. destruct (Hother id Hid') as [-> Hs].
    rewrite GetNeighIO_put, decide_False, sent_to_app, sent_to_other, Hs by done. done.
  - destruct err; [done|]. constructor.
    + destruct (Hother (n_Id m) Hm) as [Hio Hs]. unfold served.
      rewrite Hio, sent_to_app, sent_to_self, Hs, app_nil_r, GetNeighIO_put, decide_True by done.
      destruct (reachable_neigh now m); [done|]. by destruct Hdone as [-> ->].
    + rewrite Forall_forall in Hall. apply Forall_forall. intros x Hx. specialize (Hall x Hx). unfold served in *.
      assert (n_Id x ≠ n_Id m) as Hne. { intros Heq. apply Hm, list_elem_of_fmap. exists x. by rewrite Heq. }
      rewrite GetNeighIO_put, decide_False in Hall by done. rewrite sent_to_app, sent_to_other by done. done.
Qed.

Lemma flush_all_spec now l : ∀ n,
  NoDup (n_Id <$> l) → Forall (λ m, is_Some (GetNode (ny_CentralCfg n) (n_Id m))) l →
  ∃ n' out err, flush_all msg_size marshal_ok now n l = Some (n', out, err) ∧ flushed now n l n' out err.
Proof.
  induction l as [|m l IH]; intros n Hnd Hk; cbn [flush_all].
  { exists n, [], false. split; [done|]. split; [by destruct n|]. by split; [|split]. }
  cbn [fmap list_fmap] in Hnd. apply NoDup_cons in Hnd as [Hm Hnd]. apply Forall_cons in Hk as [[node Hnode] Hk].
  pose proof (λ nio, IH (put_io n (n_Id m) nio) Hnd Hk) as Hrest.
  assert (reachable_neigh now m = false →
    ∃ n' out err, flush_all msg_size marshal_ok now (put_io n (n_Id m) (GetNeighIO n (n_Id m))) l = Some (n', out, err) ∧
      flushed now n (m :: l) n' out err) as Hskip.
  { intros Hr. destruct (Hrest (GetNeighIO n (n_Id m))) as (n' & out & err & Hf & Hp). exists n', out, err.
    split; [done|]. change out with (((λ b, (n_Id m, b)) <$> []) ++ out).
    eapply flushed_cons; [done|exact Hp|done|by rewrite Hr]. }
  unfold reachable_neigh in Hskip. destruct (BestEndpoint now (n_Eps m)) as [best|] eqn:Eb; [|by apply Hskip].
  destruct (ep_IsActive now best) eqn:Ea; [|by apply Hskip]. clear Hskip. rewrite Hnode. cbn [mbind option_bind].
  destruct (flush_neigh_spec (SafeMTU (rs_tun (ny_rs n))) (S (pending_count (GetNeighIO n (n_Id m)))) (GetNeighIO n (n_Id m)))
    as (nio & bundles & err & lost & -> & Hp & Hb & _ & Herr); [rewrite pending_count_length; lia|].
  assert (Forall (λ b, b ≠ [] ∧ fits (SafeMTU (rs_tun (ny_rs n))) b) bundles) as Hb'
    by (eapply Forall_impl; [exact Hb|naive_solver]).
  cbn [mbind option_bind]. destruct err.
  - eexists _, _, true. split; [done|]. split; [done|]. split; [by apply Forall_fmap|]. split; [|by exists lost].
    intros id [Hid Hid']%not_elem_of_cons. by rewrite GetNeighIO_put, decide_False, sent_to_other.
  - destruct (Hrest nio) as (n' & out & err & -> & Hfl). cbn [mbind option_bind]. eexists _, _, err. split; [done|].
    destruct Herr as [-> Hnil]. rewrite Hnil, !app_nil_r in Hp.
    eapply flushed_cons; [done|exact Hfl|done|]. unfold reachable_neigh. rewrite Eb, Ea. by split.
Qed.

(** C26: flushing ends, and every queued message goes out exactly once.  For every neighbour
    with an active link the queue is emptied and the bundles sent to it hold exactly what
    was queued; other neighbours keep their queue; and no bundle exceeds the safe MTU
    unless it is a single message.  Sizes of messages are positive, bundles can be
    marshalled, and the neighbours are distinct nodes of the configuration. *)
Theorem flush_delivers now n :
  NoDup (n_Id <$> rs_Neighbours (ny_rs n)) →
  Forall (λ m, is_Some (GetNode (ny_CentralCfg n) (n_Id m))) (rs_Neighbours (ny_rs n)) →
  (∀ b, marshal_ok b = true) →
  ∃ n' out, flushIO msg_size marshal_ok now n = Some (n', out, false) ∧
    Forall (λ x, x.2 ≠ [] ∧ fits (SafeMTU (rs_tun (ny_rs n))) x.2) out ∧
    Forall (served now n n' out) (rs_Neighbours (ny_rs n)).
Proof.
  intros Hnd Hk Hok. destruct (flush_all_spec now _ n Hnd Hk) as (n' & out & err & Hf & _ & Hout & _ & Herr).
  destruct err; [destruct Herr as [b Hb]; by rewrite Hok in Hb|]. exists n', out. by split.
Qed.

End flush.
