(* ===== verification/RouterEvents.v ===== *)
(** The running node: no event of the dispatch loop panics, the forwarding tables follow
    the routes, announcements survive the wire, and what the request queue and the exit
    snapshot hold. *)

From S2P Require Import Prelude Bytes NetIP Float64 Metric Routing RouterAlgo RouterFacts RouterInv RouterOps RouterProps Config External RouterIO Forwarding Flush.

(** The keys of a map filled by a loop. *)
Lemma foldl_insert_keys {A K V} `{Countable K} (key : A → K) (val : A → V) l (m : gmap K V) k :
  is_Some (foldl (λ m x, <[key x := val x]> m) m l !! k) ↔ is_Some (m !! k) ∨ ∃ x, x ∈ l ∧ key x = k.
Proof.
  revert m. induction l as [|y l IH]; intros m; cbn.
  { split; [by left|]. intros [?|(x & Hx%not_elem_of_nil & _)]; done. }
  rewrite IH, lookup_insert_is_Some. split.
  - intros [[<-|[_ ?]]|(x & Hx & ?)]; [right; exists y; split; [by left|done]|by left|].
    right. exists x. split; [by right|done].
  - intros [?|(x & [->|Hx]%elem_of_cons & Hk)]; [|by left; left|right; eauto].
    left. destruct (decide (key y = k)); [by left|by right].
Qed.

Section events.
Context {Ep : Type} `{LL : LinkLayer Ep} `{MR : MapRange} {T : Type → Type} `{BT : BartTable T} `{BTL : !BartTableLaws T}
  {C : Type → Type → Type} `{TC : TTLCache C}.
Implicit Types (n : Nylon Ep T C) (e : Env).

Lemma checkNeigh_spec n id : checkNeigh n id = true → is_Some (GetNeighbour (ny_rs n) id).
Proof.
  unfold checkNeigh. rewrite existsb_exists. intros (m & Hm & Hid). to_prop.
  destruct (GetNeighbour (ny_rs n) id) as [|] eqn:E; [by eexists|]. apply GetNeighbour_None in E.
  exfalso. apply E, list_elem_of_fmap. exists m. by rewrite list_elem_of_In.
Qed.

Lemma checkPrefix_spec n p : checkPrefix n p = true → p ∈ GetPrefixes (ny_CentralCfg n).
Proof.
  unfold checkPrefix. rewrite existsb_exists. intros (q & Hq & ?). to_prop. subst. by rewrite list_elem_of_In.
Qed.

Lemma HandleNeighbourUpdate_total e s id adv :
  is_Some (GetNeighbour s id) → is_Some (HandleNeighbourUpdate (Ep := Ep) e s id adv).
Proof. intros [m Hm]. unfold HandleNeighbourUpdate. rewrite Hm. repeat case_goal; by eexists. Qed.

(** ** Handlers keep the node good *)

Lemma run_ok K e n op r :
  good_for K n → op_keys K op → run_op e (ny_rs n) op = Some r → ∃ n', run (env_now e) n r = Some n' ∧ good_for K n'.
Proof. intros Hg Ho Hr. destruct (run_good K e n op r Hg Ho Hr) as (n' & ? & ? & _). eauto. Qed.

Lemma apply_update_ok K e n node u : good_for K n →
  ∃ n' b, routerApplyRouteUpdate e n node u = Some (n', b) ∧ good_for K n'.
Proof.
  intros Hg. unfold routerApplyRouteUpdate. destruct (pfx_UnmarshalBinary _) as [p|]; [|eauto].
  destruct (_ || _) eqn:E; [eauto|]. to_prop.
  destruct (HandleNeighbourUpdate_total e (ny_rs n) node (mkPubRoute (mkSource (nu_RouterId u) p)
    (mkFD (uint16 (nu_Seqno u)) (nu_Metric u)))) as [r Hr]; [by apply checkNeigh_spec|].
  rewrite Hr. cbn [mbind option_bind].
  destruct (run_ok K e n (OpNeighbourUpdate node (mkPubRoute (mkSource (nu_RouterId u) p)
    (mkFD (uint16 (nu_Seqno u)) (nu_Metric u)))) r Hg) as (n' & -> & Hg'); [|done|].
  - destruct Hg as [Hcfg _]. by apply Hcfg, checkPrefix_spec.
  - cbn [mbind option_bind]. eauto.
Qed.

Lemma compute_ok K e n : good_for K n → ∃ n', run (env_now e) n (ComputeRoutes e (ny_rs n)) = Some n' ∧ good_for K n'.
Proof. intros Hg. by apply (run_ok K e n OpComputeRoutes). Qed.

Lemma seqno_request_ok K e n neigh q : good_for K n → ∃ n', routerHandleSeqnoRequest e n neigh q = Some n' ∧ good_for K n'.
Proof.
  intros Hg. unfold routerHandleSeqnoRequest. destruct (pfx_UnmarshalBinary _) as [p|]; [|eauto].
  destruct (_ || _); [eauto|].
  by apply (run_ok K e n (OpSeqnoRequest neigh (mkSource (nq_RouterId q) p) (uint16 (nq_Seqno q)) (uint8 (nq_HopCount q)))).
Qed.

Lemma ack_retract_ok K e n neigh b : good_for K n → ∃ n', routerHandleAckRetract e n neigh b = Some n' ∧ good_for K n'.
Proof.
  intros Hg. unfold routerHandleAckRetract. destruct (pfx_UnmarshalBinary _) as [p|]; [|eauto].
  destruct (_ || _); [eauto|]. by apply (run_ok K e n (OpAckRetract neigh p)).
Qed.

Lemma dispatch_ok K e n neigh packets : good_for K n → ∃ n', dispatch_control e n neigh packets = Some n' ∧ good_for K n'.
Proof.
  intros Hg. unfold dispatch_control.
  match goal with |- context [foldl ?f (Some (n, false)) packets] =>
    assert (∃ n1 b, foldl f (Some (n, false)) packets = Some (n1, b) ∧ good_for K n1) as (n1 & b & -> & Hg1) end.
  - apply (foldl_ind (λ acc, ∃ n1 b, acc = Some (n1, b) ∧ good_for K n1)); [eauto|].
    intros acc pkt _ (n1 & b & -> & Hg1). cbn [mbind option_bind]. destruct pkt as [op|op|op].
    + destruct (apply_update_ok K e n1 neigh op Hg1) as (n2 & b2 & -> & Hg2). cbn. eauto.
    + destruct (seqno_request_ok K e n1 neigh op Hg1) as (n2 & -> & Hg2). cbn. eauto.
    + destruct (ack_retract_ok K e n1 neigh op Hg1) as (n2 & -> & Hg2). cbn. eauto.
  - cbn [mbind option_bind]. destruct b; [by apply compute_ok|eauto].
Qed.

(** Only the queues change. *)
Lemma good_set_IO K n io : good_for K n → good_for K (set_IO n io).
Proof. done. Qed.

Lemma gc_ok K e n : good_for K n → ∃ n', GcRouter e n = Some n' ∧ good_for K n'.
Proof.
  intros Hg. unfold GcRouter. destruct (run_ok K e n OpRunGC _ Hg I eq_refl) as (n1 & -> & Hg1).
  cbn [mbind option_bind]. eexists. split; [done|]. exact Hg1.
Qed.

Lemma flush_ok K msg_size marshal_ok now l : (∀ m, 0 < msg_size m) → ∀ n,
  Forall (λ m, is_Some (GetNode (ny_CentralCfg n) (n_Id m))) l → good_for K n →
  ∃ n' out err, flush_all msg_size marshal_ok now n l = Some (n', out, err) ∧ good_for K n'.
Proof.
  intros Hpos. induction l as [|m l IH]; intros n Hk Hg; cbn [flush_all]; [eauto 6|].
  apply Forall_cons in Hk as [[node Hnode] Hk].
  destruct (BestEndpoint now (n_Eps m)) as [best|]; [|by apply IH]. destruct (ep_IsActive now best); [|by apply IH].
  rewrite Hnode. cbn [mbind option_bind].
  destruct (flush_neigh_spec msg_size marshal_ok Hpos (SafeMTU (rs_tun (ny_rs n)))
    (S (pending_count (GetNeighIO n (n_Id m)))) (GetNeighIO n (n_Id m)))
    as (nio & bundles & err & lost & -> & _); [rewrite pending_count_length; lia|].
  cbn [mbind option_bind]. destruct err; [by eauto 6|].
  destruct (IH (put_io n (n_Id m) nio) Hk) as (n' & out & err & -> & Hg'); [done|]. cbn. eauto 6.
Qed.

Lemma event_ok K (msg_size : Ny → Z) marshal_ok e n ev :
  (∀ m, 0 < msg_size m) → good_for K n →
  ∃ n', handle_event msg_size marshal_ok e n ev = Some n' ∧ good_for K n'.
Proof.
  intros Hpos Hg. destruct ev as [neigh packets| | | |neigh| |]; cbn [handle_event].
  - by apply dispatch_ok.
  - by apply compute_ok.
  - by apply (run_ok K e n OpFullTableUpdate).
  - by apply (run_ok K e n OpSolveStarvation).
  - by apply (run_ok K e n (OpPushFullTable neigh)).
  - by apply gc_ok.
  - pose proof Hg as (_ & (_ & Hk & _) & _). unfold flushIO.
    destruct (flush_ok K msg_size marshal_ok (env_now e) _ Hpos n Hk Hg) as (n' & out & err & -> & Hg'). cbn. eauto.
Qed.

(** C1: nothing a peer can send and no periodic task makes a node panic whose neighbours,
    and the nodes it advertises prefixes for, are in its configuration, and that stays so.
    If moreover all prefixes of the configuration are canonical (no host bits), the
    forwarding tables stay in step with the routes: after every event each prefix with a
    selected route forwards to the peer of its next hop, or drops if the route is
    retracted; it is an exit exactly when the local node is its usable next hop; and a
    prefix without a route is no exit, and has no entry or one left over that drops. *)
Theorem events_keep_tables_in_step (msg_size : Ny → Z) marshal_ok e n ev :
  (∀ m, 0 < msg_size m) → known n →
  ∃ n', handle_event msg_size marshal_ok e n ev = Some n' ∧ known n' ∧ (good n → good n').
Proof.
  intros Hpos Hk. destruct (event_ok any_prefix msg_size marshal_ok e n ev Hpos Hk) as (n' & Hn' & Hk').
  exists n'. split; [done|]. split; [done|]. intros Hg.
  destruct (event_ok canonical msg_size marshal_ok e n ev Hpos Hg) as (n2 & Hn2 & Hg2). by simplify_eq.
Qed.

(** ** Announcements on the wire *)

(** an announcement queued for a neighbour is, when it arrives at a node that knows the
    sender, the prefix and the origin, handled as exactly the announcement that was
    published; from an unknown sender, for an unknown prefix or an unknown origin it
    changes nothing. *)
Theorem route_update_roundtrip e n node (adv : PubRoute) :
  pfx_wf (pr_Prefix adv) → fd_wf (pr_FD adv) →
  routerApplyRouteUpdate e n node (update_msg adv) =
  if checkNeigh n node && checkPrefix n (pr_Prefix adv) && checkNode n (pr_NodeId adv)
  then r ← HandleNeighbourUpdate e (ny_rs n) node adv; n' ← run (env_now e) n r; Some (n', true)
  else Some (n, false).
Proof.
  intros Hp [Hq Hm]. unfold routerApplyRouteUpdate. cbn [update_msg nu_Prefix nu_RouterId nu_Seqno nu_Metric].
  rewrite pfx_marshal_roundtrip by done.
  replace (mkPubRoute (mkSource (pr_NodeId adv) (pr_Prefix adv)) (mkFD (uint16 (pr_Seqno adv)) (pr_Metric adv))) with adv.
  - by destruct (checkNeigh n node), (checkPrefix n (pr_Prefix adv)), (checkNode n (pr_NodeId adv)).
  - rewrite wrap_small by exact Hq. by destruct adv as [[] []].
Qed.

(** ** Starting up *)

Lemma GetPrefixes_spec c p : p ∈ GetPrefixes c ↔ ∃ node h, node ∈ GetNodes c ∧ h ∈ nc_Prefixes node ∧ GetPrefix h = p.
Proof.
  set (add := λ (m : gmap Prefix bool) ps, foldl (λ m h, <[GetPrefix h := true]> m) m ps).
  assert (∀ ps m, is_Some (add m ps !! p) ↔ is_Some (m !! p) ∨ ∃ h, h ∈ ps ∧ GetPrefix h = p) as Hadd.
  { intros ps m. apply (foldl_insert_keys GetPrefix (λ _, true)). }
  assert (∀ {A} (f : A → NodeCfg) l m, is_Some (foldl (λ m r, add m (nc_Prefixes (f r))) m l !! p) ↔
    is_Some (m !! p) ∨ ∃ node h, node ∈ f <$> l ∧ h ∈ nc_Prefixes node ∧ GetPrefix h = p) as Hfold.
  { intros A f l. induction l as [|x l IH]; intros m; cbn [foldl fmap list_fmap].
    { split; [by left|]. intros [?|(node & h & Hh%not_elem_of_nil & _)]; done. }
    rewrite IH, Hadd. split.
    - intros [[?|(h & ? & ?)]|(node & h & ? & ? & ?)]; [by left|right..].
      + exists (f x), h. split; [by left|done].
      + exists node, h. split; [by right|done].
    - intros [?|(node & h & [->|Hn]%elem_of_cons & Hh & Hp)]; [by left; left|left; right; eauto|right; eauto]. }
  unfold GetPrefixes, GetNodes. cbv zeta. fold add. rewrite list_elem_of_fmap. setoid_rewrite elem_of_app. split.
  - intros ([q b] & -> & Hq%elem_of_map_range). cbn in Hq. apply mk_is_Some, Hfold in Hq as [Hq|?]; [|naive_solver].
    apply Hfold in Hq as [[? ?]|?]; [by rewrite lookup_empty in *|naive_solver].
  - intros (node & h & Hn & Hh & Hp).
    assert (is_Some (foldl (λ m r, add m (nc_Prefixes (cc_Node r)))
      (foldl (λ m r, add m (nc_Prefixes (rc_Node r))) ∅ (c_Routers c)) (c_Clients c) !! p)) as [b Hb].
    { apply Hfold. destruct Hn as [Hn|Hn]; [left; apply Hfold; right|right]; eauto. }
    exists (p, b). split; [done|]. by apply elem_of_map_range.
Qed.

Lemma GetRouter_Some (c : CentralCfg) id r : GetRouter c id = Some r → rc_Node r ∈ GetNodes c ∧ GetNode c id = Some (rc_Node r).
Proof.
  unfold GetRouter, GetNode, TryGetNode. destruct (list_find _ _) as [[i r']|] eqn:E; [|done].
  cbn. intros [= ->]. split; [|done]. apply elem_of_app. left. apply list_elem_of_fmap. exists r. split; [done|].
  apply list_find_Some in E as (Hi & _). by eapply list_elem_of_lookup_2.
Qed.

(** a router that starts up advertises exactly the prefixes configured for it, on its
    own behalf and for ever, and satisfies the invariant that every event keeps. *)
Theorem init_router_good K (health : PrefixHealth → HealthRef) tun n n' :
  (∀ p, p ∈ GetPrefixes (ny_CentralCfg n) → K p) → InitRouter health tun n = Some n' →
  good_for K n' ∧ ∃ r, GetRouter (ny_CentralCfg n) (ny_LocalId n) = Some r ∧
    ∀ p, is_Some (rs_Advertised (ny_rs n') !! p) ↔ ∃ h, h ∈ nc_Prefixes (rc_Node r) ∧ GetPrefix h = p.
Proof.
  intros Hcfg. unfold InitRouter. destruct (GetRouter _ _) as [r|] eqn:Er; [|done]. cbn. intros [= <-].
  apply GetRouter_Some in Er as [Hr Hnode].
  set (adv := foldl _ ∅ (nc_Prefixes (rc_Node r))).
  assert (∀ p, is_Some (adv !! p) ↔ ∃ h, h ∈ nc_Prefixes (rc_Node r) ∧ GetPrefix h = p) as Hadv.
  { intros p. unfold adv.
    rewrite (foldl_insert_keys GetPrefix (λ h, mkAdvertisement (ny_LocalId n) maxTime false (Some (health h)) None)).
    rewrite lookup_empty. split; [intros [[? ?]|?]; done|by right]. }
  split; [|by exists r].
  split; [done|]. split; [split; [split; [|split]|split]|]; cbn.
  - apply map_Forall_empty.
  - intros p a Ha. apply Hcfg, GetPrefixes_spec. apply mk_is_Some, Hadv in Ha as (h & Hh & Hp). eauto.
  - done.
  - done.
  - unfold adv. apply (foldl_ind (λ m : gmap Prefix Advertisement,
      map_Forall (λ _ a, is_Some (GetNode (ny_CentralCfg n) (adv_NodeId a))) m)); [apply map_Forall_empty|].
    intros m h _ IH. apply map_Forall_insert_2; [cbn; by rewrite Hnode|done].
  - intros _ p Hp. unfold mirrors. cbn. by rewrite lookup_empty, !bt_Get_empty.
Qed.

(** ** Requests for a newer sequence number *)

Lemma GetNeighIO_put_same n id nio : GetNeighIO (put_io n id nio) id = nio.
Proof. unfold GetNeighIO, put_io. cbn. by rewrite lookup_insert_eq. Qed.

(** requests are rate limited: once a request for a sequence number has been queued for
    a neighbour, no request for that source and a number that is not newer is queued for
    it again while the cached entry lives, whatever has been sent in between. *)
Theorem seqno_request_rate_limited `{TCL : !TTLCacheLaws C} now now' n n' neigh src q h q' h' :
  match tc_Get now (io_SeqnoDedup (GetNeighIO n neigh)) src with
  | Some old => SeqnoGe old q = false ∧ old <= q
  | None => True
  end →
  now <= now' <= now + SeqnoDedupTTL (rs_tun (ny_rs n)) → SeqnoGe q q' = true →
  io_SeqnoDedup (GetNeighIO n' neigh) = io_SeqnoDedup (GetNeighIO (RequestSeqno now n neigh src q h) neigh) →
  io_SeqnoReq (GetNeighIO (RequestSeqno now' n' neigh src q' h') neigh) = io_SeqnoReq (GetNeighIO n' neigh).
Proof.
  intros Hnew Htime Hge Hd.
  assert (tc_Get now' (io_SeqnoDedup (GetNeighIO n' neigh)) src = Some q) as Hq.
  { rewrite Hd. unfold RequestSeqno. destruct (tc_Get now _ src) as [old|].
    - destruct Hnew as [-> Hle]. rewrite GetNeighIO_put_same. cbn [io_SeqnoDedup].
      rewrite tc_Get_Set, decide_True by (done || lia). rewrite Z.max_l by done.
      destruct (Z.leb_spec now' (now + SeqnoDedupTTL (rs_tun (ny_rs n)))); [done|lia].
    - rewrite GetNeighIO_put_same. cbn [io_SeqnoDedup]. rewrite tc_Get_Set, decide_True by (done || lia).
      destruct (Z.leb_spec now' (now + SeqnoDedupTTL (rs_tun (ny_rs n)))); [done|lia]. }
  unfold RequestSeqno at 1. rewrite Hq, Hge. by rewrite GetNeighIO_put_same.
Qed.

(** A request that overtakes a pending one for an older number is not sent: the pending
    number stays, yet the newer one is recorded as sent. *)
Theorem newer_request_swallowed `{TCL : !TTLCacheLaws C} now n neigh src q h q0 h0 :
  tc_Get now (io_SeqnoDedup (GetNeighIO n neigh)) src = Some q0 → io_SeqnoReq (GetNeighIO n neigh) !! src = Some (q0, h0) →
  q0 < q → SeqnoGe q0 q = false → 0 <= SeqnoDedupTTL (rs_tun (ny_rs n)) →
  let nio := GetNeighIO (RequestSeqno now n neigh src q h) neigh in
  fst <$> io_SeqnoReq nio !! src = Some q0 ∧ tc_Get now (io_SeqnoDedup nio) src = Some q.
Proof.
  intros Hd Hr Hlt Hge Httl. unfold RequestSeqno. rewrite Hd, Hge, GetNeighIO_put_same. cbn [io_SeqnoReq io_SeqnoDedup].
  rewrite lookup_insert_eq, Hr. cbn [fst snd]. split.
  - destruct (Z.ltb_spec q q0); [lia|]. by destruct (h0 <? h).
  - rewrite tc_Get_Set, decide_True, Z.max_l by (done || lia). by destruct (Z.leb_spec now (now + SeqnoDedupTTL (rs_tun (ny_rs n)))); [|lia].
Qed.

(** ** The exit snapshot *)

Lemma first_usable_Some (ft : T RouteTableEntry) addrs en :
  first_usable ft addrs = Some en →
  rte_Blackhole en = false ∧ is_Some (rte_Peer en) ∧ ∃ a, a ∈ addrs ∧ bt_Lookup ft a = Some en.
Proof.
  induction addrs as [|a addrs IH]; [done|]. cbn [first_usable]. destruct (bt_Lookup ft a) as [en'|] eqn:E.
  - destruct (_ || _) eqn:Eu.
    + intros (? & ? & a' & Ha' & ?)%IH. split; [done|]. split; [done|]. exists a'. split; [by right|done].
    + intros [= ->]. to_prop. split; [done|]. split; [done|]. exists a. split; [by left|done].
  - intros (? & ? & a' & Ha' & ?)%IH. split; [done|]. split; [done|]. exists a'. split; [by right|done].
Qed.

Lemma node_forward_Some n m k en :
  ef_NodeForward (rebuildExitFilterSnapshot n m) !! k = Some en →
  ∃ node, node ∈ GetNodes (ny_CentralCfg n) ∧ nc_Id node ≠ ny_LocalId n ∧
    ToNumeric (Some m) (nc_Id node) = Some k ∧ first_usable (ny_ForwardTable n) (nc_Addresses node) = Some en.
Proof.
  cbn [ef_NodeForward rebuildExitFilterSnapshot]. revert k en.
  apply (foldl_ind (λ M : gmap NodeIdNumeric RouteTableEntry, ∀ k en, M !! k = Some en → _)).
  - intros k en. by rewrite lookup_empty.
  - intros M node Hnode IH k en. unfold add_forward. case_bool_decide as Hl; [apply IH|].
    destruct (ToNumeric _ _) as [num|] eqn:Et; [|apply IH]. destruct (M !! num); [apply IH|].
    destruct (first_usable _ _) as [en'|] eqn:Ef; [|apply IH].
    destruct (decide (num = k)) as [<-|Hne]; [|rewrite lookup_insert_ne by done; apply IH].
    rewrite lookup_insert_eq. intros [= <-]. by exists node.
Qed.

(** The longest match among the selected routes. *)
Definition best_match n (a : Addr) (p : Prefix) (r : SelRoute) : Prop :=
  canonical p ∧ pfx_Contains p a = true ∧ rs_Routes (ny_rs n) !! p = Some r ∧
  ∀ q r', rs_Routes (ny_rs n) !! q = Some r' → pfx_Contains q a = true → pfx_Bits q <= pfx_Bits p.

(** The prefix of a forwarding entry that was looked up is at least as long as that of any
    route that matches, and the entry is the one of its route; without a route it drops. *)
Lemma lookup_longest n a en : good n → bt_Lookup (ny_ForwardTable n) a = Some en →
  ∃ p, canonical p ∧ pfx_Contains p a = true ∧
    (∀ q r', rs_Routes (ny_rs n) !! q = Some r' → pfx_Contains q a = true → pfx_Bits q <= pfx_Bits p) ∧
    match rs_Routes (ny_rs n) !! p with Some r => entry_of n r = Some en | None => rte_Blackhole en = true end.
Proof.
  intros Hgood Hl. pose proof Hgood as (_ & Hs & _). apply good_mirror in Hgood as Hm. apply bt_Lookup_Some in Hl as (p & Hp & Hc & Hg & Hbest).
  pose proof (Hm p Hp) as Hmp. unfold mirrors in Hmp. rewrite Hg in Hmp. exists p. split; [done|]. split; [done|]. split.
  - intros q r' Hq Hqc. destruct Hs as ((HR & _) & _). pose proof (HR q r' Hq) as Hqcan. specialize (Hm q Hqcan). unfold mirrors in Hm.
    rewrite Hq in Hm. destruct Hm as ([en' He] & Hf & _). rewrite He in Hf. by eapply Hbest.
  - destruct (rs_Routes (ny_rs n) !! p) as [r|]; [|by destruct Hmp]. by destruct Hmp as (_ & ? & _).
Qed.

Lemma lookup_best_match n a en :
  good n → bt_Lookup (ny_ForwardTable n) a = Some en → rte_Blackhole en = false →
  ∃ p r, best_match n a p r ∧ sr_Metric r ≠ INF ∧ entry_of n r = Some en.
Proof.
  intros Hg Hl Hb. destruct (lookup_longest n a en Hg Hl) as (p & Hp & Hc & Hbest & Hr).
  destruct (rs_Routes (ny_rs n) !! p) as [r|] eqn:Er; [|congruence]. exists p, r. split; [done|]. split; [|done].
  intros Hi. unfold entry_of in Hr. rewrite Hi, Z.eqb_refl in Hr. by injection Hr as <-.
Qed.

(** the exit snapshot sends a packet for another node only along a usable selected route,
    the longest match for one of the addresses of that node, and only to an existing peer. *)
Theorem exit_snapshot_next_hop n m k en :
  good n → ef_NodeForward (rebuildExitFilterSnapshot n m) !! k = Some en →
  is_Some (rte_Peer en) ∧
  ∃ node a p r, node ∈ GetNodes (ny_CentralCfg n) ∧ nc_Id node ≠ ny_LocalId n ∧
    ToNumeric (Some m) (nc_Id node) = Some k ∧ a ∈ nc_Addresses node ∧
    best_match n a p r ∧ sr_Metric r ≠ INF ∧ rte_Nh en = sr_Nh r ∧ entry_of n r = Some en.
Proof.
  intros Hg (node & Hn & Hne & Ht & Hf)%node_forward_Some.
  apply first_usable_Some in Hf as (Hb & Hp & a & Ha & Hl). split; [done|].
  destruct (lookup_best_match n a en Hg Hl Hb) as (p & r & Hbm & Hfin & Hen).
  exists node, a, p, r. repeat split; try done; try apply Hbm.
  unfold entry_of in Hen. case_hyp Hen; [by apply Z.eqb_eq in Heqb|]. destruct (GetNode _ _); [|done].
  by injection Hen as <-.
Qed.

End events.

(** ** A concrete node *)

Module NodeDemo.
Import Demo.

#[local] Existing Instance sorted_range.

Definition ncfg (id : NodeId) (key : Z) (addrs : list Addr) (ps : list Prefix) : RouterCfg :=
  mkRouterCfg (mkNodeCfg id key addrs ((λ p, StaticPrefixHealth p 0) <$> ps) 0) [] false.

Definition cfg : CentralCfg :=
  mkCentralCfg [ncfg "a" 1 [Addr4 (12 * 2 ^ 24 + 1)] [p12]; ncfg "b" 2 [] []; ncfg "c" 3 [] []; ncfg "d" 4 [] [];
                ncfg "z" 5 [Addr4 (10 * 2 ^ 24 + 1)] [p10; p11]] [] [] 0 [] None.

(** Node [a] before it has computed any route, with the neighbours of [Demo.state]. *)
Definition blank : Nylon Wire (gmap Prefix) map_cache :=
  {| ny_rs := set_Routes state ∅; ny_CentralCfg := cfg; ny_LocalId := "a"; ny_AdvertiseExitNode := true;
     ny_ExitNode := ""; ny_peers := list_to_map [(2, 20%nat); (3, 30%nat); (4, 40%nat)]; ny_IO := ∅;
     ny_ForwardTable := ∅; ny_ExitTable := ∅; ny_NodeIdMap := None; ny_ExitFilter := None |}.

Definition node : Nylon Wire (gmap Prefix) map_cache :=
  match refreshNodeBindings blank with inr n => n | inl _ => blank end.

Definition canonicalb (p : Prefix) : bool := pfx_IsValid p && bool_decide (pfx_Masked p = p).

Lemma canonicalb_ok p : canonicalb p = true → canonical p.
Proof. unfold canonicalb. intros. by to_prop. Qed.

Definition knownb (c : CentralCfg) (id : NodeId) : bool := match GetNode c id with Some _ => true | None => false end.

Lemma knownb_ok c id : knownb c id = true → is_Some (GetNode c id).
Proof. unfold knownb. intros. by case_match. Qed.

Definition saneb {Ep} (c : CentralCfg) (s : RouterState Ep) : bool :=
  forallb (λ x, canonicalb x.1) (map_to_list (rs_Routes s)) &&
  forallb (λ x, canonicalb x.1 && knownb c (adv_NodeId x.2)) (map_to_list (rs_Advertised s)) &&
  forallb (λ m, knownb c (n_Id m) && forallb (λ x, canonicalb x.1) (map_to_list (n_Routes m))) (rs_Neighbours s).

Lemma saneb_ok {Ep} c (s : RouterState Ep) : saneb c s = true → sane canonical c s.
Proof.
  unfold saneb. intros H. apply andb_prop in H as [[H1 H2]%andb_prop H3]. rewrite forallb_forall in H3.
  assert (∀ m, m ∈ rs_Neighbours s → knownb c (n_Id m) = true ∧ forallb (λ x, canonicalb x.1) (map_to_list (n_Routes m)) = true)
    as Hm by (intros m ?%list_elem_of_In; by apply andb_prop, H3).
  split; [split; [|split]|split].
  - eapply forallb_map_Forall; [|exact H1]. intros k v. apply canonicalb_ok.
  - eapply forallb_map_Forall; [|exact H2]. intros k v [? _]%andb_prop. by apply canonicalb_ok.
  - apply Forall_forall. intros m [_ Hr]%Hm. eapply forallb_map_Forall; [|exact Hr]. intros k v. apply canonicalb_ok.
  - apply Forall_forall. intros m [Hk _]%Hm. by apply knownb_ok.
  - eapply forallb_map_Forall; [|exact H2]. intros k v [_ ?]%andb_prop. by apply knownb_ok.
Qed.

Lemma forallb_elem {A} (f : A → bool) l x : forallb f l = true → x ∈ l → f x = true.
Proof. rewrite forallb_forall. intros H Hx. by apply H, list_elem_of_In. Qed.

Lemma cfg_canonical p : p ∈ GetPrefixes cfg → canonical p.
Proof. intros Hp. apply canonicalb_ok. refine (forallb_elem _ _ _ _ Hp). by vm_compute. Qed.

Lemma node_eq : ∃ m f, node = set_filter blank m f.
Proof. unfold node, refreshNodeBindings. destruct (BuildNodeIdMap _); [by exists None, None|by eexists _, _]. Qed.

Lemma blank_good m f : good (set_filter blank m f).
Proof.
  apply good_intro; [exact cfg_canonical|apply saneb_ok; by vm_compute|].
  intros p Hp. unfold mirrors. cbn [ny_rs ny_ForwardTable ny_ExitTable set_filter blank rs_Routes set_Routes].
  rewrite lookup_empty. pose proof (bt_Get_empty (T := gmap Prefix) (V := RouteTableEntry) p) as He.
  cbn [bt_empty map_table] in He. by rewrite He.
Qed.

Lemma node_good : good node.
Proof. destruct node_eq as (m & f & ->). apply blank_good. Qed.

(** An announcement of [p11] arrives from [c]. *)
Definition bundle : list Ny := [Ny_RouteOp (update_msg (pub "z" p11 7 20)); Ny_AckRetractOp [1; 2]].

Lemma events_keep_tables_in_step_witness :
  ∃ n', handle_event (λ _, 10) (λ _, true) env node (EvControl "c" bundle) = Some n' ∧ good n'.
Proof.
  destruct (events_keep_tables_in_step (λ _, 10) (λ _, true) env node (EvControl "c" bundle)) as (n' & Hn' & _ & Hg).
  - lia.
  - by eapply good_for_known, node_good.
  - exists n'. split; [exact Hn'|apply Hg, node_good].
Defined.

Lemma route_update_roundtrip_witness :
  routerApplyRouteUpdate env node "nobody" (update_msg (pub "z" p11 7 20)) = Some (node, false).
Proof.
  rewrite (route_update_roundtrip env node "nobody" (pub "z" p11 7 20)).
  - replace (checkNeigh node "nobody") with false by (vm_compute; reflexivity). reflexivity.
  - by vm_compute.
  - by vm_compute.
Defined.

Lemma init_router_good_witness :
  ∃ n', InitRouter (λ _, 0%nat) DefaultRouterTunables blank = Some n' ∧ good n'.
Proof.
  destruct (InitRouter (λ _, 0%nat) DefaultRouterTunables blank) as [n'|] eqn:E.
  - exists n'. split; [done|]. apply (init_router_good canonical (λ _, 0%nat) DefaultRouterTunables blank n'); [exact cfg_canonical|exact E].
  - unfold InitRouter in E. apply bind_None in E as [E|(r & _ & E)]; [by vm_compute in E|done].
Defined.

(** The node after asking [b] for number 9. *)
Definition asked : Nylon Wire (gmap Prefix) map_cache := RequestSeqno 1000 node "b" (mkSource "z" p10) 9 64.

Lemma seqno_request_rate_limited_witness :
  io_SeqnoReq (GetNeighIO (RequestSeqno 1001 asked "b" (mkSource "z" p10) 8 64) "b") = io_SeqnoReq (GetNeighIO asked "b").
Proof.
  apply (seqno_request_rate_limited 1000 1001 node asked "b" (mkSource "z" p10) 9 64).
  - by vm_compute.
  - split; by vm_compute.
  - by vm_compute.
  - reflexivity.
Defined.

Lemma flush_delivers_witness :
  ∃ n' out, flushIO (λ _, 10) (λ _, true) 1000 asked = Some (n', out, false) ∧
    Forall (served 1000 asked n' out) (rs_Neighbours (ny_rs asked)).
Proof.
  assert (forallb (λ m, knownb (ny_CentralCfg asked) (n_Id m)) (rs_Neighbours (ny_rs asked)) = true) as Hk
    by (vm_compute; reflexivity).
  destruct (flush_delivers (λ _, 10) (λ _, true) ltac:(lia) 1000 asked) as (n' & out & Hf & _ & Hs).
  - refine (bool_decide_eq_true_1 _ _). vm_compute. reflexivity.
  - apply Forall_forall. intros m Hm. apply knownb_ok. exact (forallb_elem _ _ _ Hk Hm).
  - done.
  - exists n', out. split; [exact Hf|exact Hs].
Defined.

Definition computed : Nylon Wire (gmap Prefix) map_cache :=
  default node (handle_event (λ _, 10) (λ _, true) env node EvComputeRoutes).

Lemma computed_good : good computed.
Proof. destruct (compute_ok canonical env node node_good) as (n' & Hn' & Hg). unfold computed. cbn [handle_event]. by rewrite Hn'. Qed.

Definition idmap : NodeIdMap := default (mkNodeIdMap ∅ ∅) (ny_NodeIdMap node).

(** Node [z] has number 20, and is reached over [b]. *)
Lemma exit_snapshot_next_hop_witness :
  ∃ en, ef_NodeForward (rebuildExitFilterSnapshot computed idmap) !! 20 = Some en ∧ rte_Nh en = "b" ∧
    ∃ a p r, best_match computed a p r ∧ sr_Nh r = "b".
Proof.
  destruct (ef_NodeForward (rebuildExitFilterSnapshot computed idmap) !! 20) as [en|] eqn:En; [|by vm_compute in En].
  assert (rte_Nh en = "b") as Hb. { vm_compute in En. by injection En as <-. }
  exists en. split; [done|]. split; [done|].
  destruct (exit_snapshot_next_hop computed idmap 20 en computed_good En) as (_ & nd & a & p & r & _ & _ & _ & _ & Hbm & _ & Hnh & _).
  exists a, p, r. split; [done|]. by rewrite <-Hnh.
Defined.

(** The link to [d] is down, [p11] is lost and held; the hold runs out, the route is gone,
    and the drop entry stays in the forwarding table. *)
Definition lost : Nylon Wire (gmap Prefix) map_cache :=
  default node (handle_event (λ _, 10) (λ _, true) env (set_rs node state) EvComputeRoutes).
Definition expired : Nylon Wire (gmap Prefix) map_cache :=
  default node (handle_event (λ _, 10) (λ _, true) (mkEnv 6000 (λ _, 7)) lost EvComputeRoutes).

Lemma stale_blackhole :
  ((λ r, sr_Metric r) <$> rs_Routes (ny_rs lost) !! p11) = Some INF ∧ rs_Routes (ny_rs expired) !! p11 = None ∧
  bt_Lookup (ny_ForwardTable expired) (Addr4 (11 * 2 ^ 24 + 1)) = Some (mkEntry "d" None true).
Proof. split; [|split]; vm_compute; reflexivity. Qed.

End NodeDemo.
