(* ===== verification/Checksum.v ===== *)
(** The Internet checksum of [polyamide/tun/checksum.go]: eight bytes at a time in native
    byte order, equal to the sum of 16-bit words of RFC 1071 on every machine. *)

From S2P Require Import Prelude Bytes.

(** ** The code *)

(** [binary.NativeEndian.UintN]; [little] is the byte order of the machine. *)
Definition native_decode (little : bool) (b : list Z) : Z := be_decode (if little then reverse b else b).

(** [binary.NativeEndian.PutUint64]. *)
Definition native_encode (little : bool) (z : Z) : list Z :=
  if little then reverse (be_encode 8 z) else be_encode 8 z.

(** [bits.Add64]: sum and carry. *)
Definition Add64 (x y carry : Z) : Z * Z := (uint64 (x + y + carry), (x + y + carry) / 2 ^ 64).

Section code.
Variable little : bool.

(** [n] additions of eight bytes, chained by their carries, and the final [ac += carry]. *)
Fixpoint add_words (n : nat) (b : list Z) (ac carry : Z) : Z :=
  match n with
  | O => uint64 (ac + carry)
  | S n' => let '(ac', carry') := Add64 ac (native_decode little (take 8 b)) carry in add_words n' (drop 8 b) ac' carry'
  end.

(** [for len(b) >= 128]; the fuel is the number of bytes. *)
Fixpoint blocks128 (fuel : nat) (b : list Z) (ac : Z) : list Z * Z :=
  match fuel with
  | O => (b, ac)
  | S fuel' => if (128 <=? length b)%nat then blocks128 fuel' (drop 128 b) (add_words 16 b ac 0) else (b, ac)
  end.

(** [if len(b) >= 8*n]. *)
Definition block (n : nat) (st : list Z * Z) : list Z * Z :=
  let '(b, ac) := st in
  if (8 * n <=? length b)%nat then (drop (8 * n) b, add_words n b ac 0) else st.

(** The last [n] bytes, 4 or 2, if there are as many. *)
Definition tail (n : nat) (st : list Z * Z) : list Z * Z :=
  let '(b, ac) := st in
  if (n <=? length b)%nat
  then let '(ac', carry) := Add64 ac (native_decode little (take n b)) 0 in (drop n b, uint64 (ac' + carry))
  else st.

Definition last_byte (st : list Z * Z) : Z :=
  let '(b, ac) := st in
  match b with
  | [x] => let '(ac', carry) := Add64 ac (native_decode little [x; 0]) 0 in uint64 (ac' + carry)
  | _ => ac
  end.

Definition checksumNoFold (b : list Z) (initial : Z) : Z :=
  let ac := be_decode (native_encode little initial) in
  let st := blocks128 (length b) b ac in
  let st := block 1 (block 2 (block 4 (block 8 st))) in
  let ac := last_byte (tail 2 (tail 4 st)) in
  be_decode (native_encode little ac).

Definition fold16 (ac : Z) : Z := Z.shiftr ac 16 + Z.land ac 0xffff.

Definition checksum (b : list Z) (initial : Z) : Z :=
  uint16 (fold16 (fold16 (fold16 (fold16 (checksumNoFold b initial))))).

Definition pseudoHeaderChecksumNoFold (protocol : Z) (srcAddr dstAddr : list Z) (totalLen : Z) : Z :=
  let sum := checksumNoFold srcAddr 0 in
  let sum := checksumNoFold dstAddr sum in
  let sum := checksumNoFold [0; protocol] sum in
  checksumNoFold (be_encode 2 totalLen) sum.

End code.

(** ** The reference *)

(** The sum of the big-endian 16-bit words, an odd last byte padded with zero. *)
Fixpoint word_sum (b : list Z) : Z :=
  match b with
  | [] => 0
  | [x] => 256 * x
  | x :: y :: b' => 256 * x + y + word_sum b'
  end.

(** The one's-complement sum: the representative of [s] modulo [2^16 - 1], zero only if
    nothing but zeros was added. *)
Definition ones_sum (s : Z) : Z := if s =? 0 then 0 else 1 + (s - 1) mod 65535.

(** ** Proof *)

(** Equal as one's-complement numbers. *)
Definition same_sum (x y : Z) : Prop := 0 <= x ∧ 0 <= y ∧ x mod 65535 = y mod 65535 ∧ (x = 0 ↔ y = 0).

Lemma ones_sum_same x y : same_sum x y → ones_sum x = ones_sum y.
Proof.
  intros (Hx & Hy & Hm & Hz). unfold ones_sum.
  destruct (Z.eqb_spec x 0), (Z.eqb_spec y 0); try lia.
  f_equal. rewrite <-(Zminus_mod_idemp_l x), <-(Zminus_mod_idemp_l y). by rewrite Hm.
Qed.

Lemma ones_sum_small s : 0 <= s < 65536 → ones_sum s = s.
Proof. intros. unfold ones_sum. destruct (Z.eqb_spec s 0); [lia|]. rewrite Z.mod_small; lia. Qed.

Lemma same_sum_trans x y z : same_sum x y → same_sum y z → same_sum x z.
Proof. unfold same_sum. intuition (congruence || lia). Qed.

Lemma same_sum_add x y x' y' : same_sum x x' → same_sum y y' → same_sum (x + y) (x' + y').
Proof.
  intros (? & ? & Hm & ?) (? & ? & Hm' & ?). repeat split; try lia.
  rewrite (Zplus_mod x), Hm, Hm', <-Zplus_mod. done.
Qed.

Lemma same_sum_mul x y : same_sum x y → same_sum (256 * x) (256 * y).
Proof. intros (? & ? & Hm & ?). repeat split; try lia. rewrite Zmult_mod, Hm, <-Zmult_mod. done. Qed.


Lemma same_sum_refl x : 0 <= x → same_sum x x.
Proof. by repeat split. Qed.

Lemma same_sum_sym x y : same_sum x y → same_sum y x.
Proof. unfold same_sum. intuition. Qed.

(** Multiples of [2^16] count once. *)
Lemma same_sum_scale k x y : 0 <= k → 0 <= x → 0 <= y → same_sum (x * 65536 ^ k + y) (x + y).
Proof.
  intros Hk Hx Hy. assert (65536 ^ k mod 65535 = 1) as Hp.
  { clear Hx Hy. revert k Hk. apply natlike_ind; [done|]. intros k Hk IH.
    by rewrite Z.pow_succ_r, Zmult_mod, IH by done. }
  assert (0 < 65536 ^ k) by lia.
  repeat split; try nia.
  rewrite Zplus_mod, Zmult_mod, Hp, Z.mul_1_r, Z.mod_mod, <-Zplus_mod by lia. done.
Qed.

(** End-around carry. *)
Lemma same_sum_carry s : 0 <= s → same_sum (s mod 2 ^ 64 + s / 2 ^ 64) s.
Proof.
  intros Hs. apply same_sum_sym. rewrite (Z.div_mod s (2 ^ 64)) at 1 by lia.
  rewrite Z.mul_comm, Z.add_comm, (Z.add_comm (s mod _) (s / _)), Z.add_comm.
  change (2 ^ 64) with (65536 ^ 4) at 2. apply same_sum_scale; [lia| |]; [apply Z.div_pos; lia|apply Z.mod_pos_bound; lia].
Qed.

Section proof.
Variable little : bool.

(** The sum of the 16-bit words in native order. *)
Fixpoint nsum (b : list Z) : Z :=
  match b with
  | [] => 0
  | [x] => if little then x else 256 * x
  | x :: y :: b' => (if little then x + 256 * y else 256 * x + y) + nsum b'
  end.

End proof.

(** Induction two bytes at a time. *)
Lemma pair_ind (P : list Z → Prop) :
  P [] → (∀ x, P [x]) → (∀ x y b, P b → P (x :: y :: b)) → ∀ b, P b.
Proof.
  intros H0 H1 H2 b. cut (P b ∧ ∀ x, P (x :: b)); [tauto|]. induction b as [|y b [IH1 IH2]]; [auto|].
  split; [apply IH2|]. intros x. by apply H2.
Qed.

Lemma nsum_pos little b : Forall is_byte b → 0 <= nsum little b.
Proof.
  induction b as [|x|x y b IH] using pair_ind; [cbn; lia| |].
  - intros [Hx _]%Forall_cons. unfold is_byte, is_u8, in_width in *. cbn. destruct little; lia.
  - intros [Hx [Hy Hb]%Forall_cons]%Forall_cons. specialize (IH Hb). unfold is_byte, is_u8, in_width in *.
    cbn [nsum]. destruct little; lia.
Qed.

Lemma nsum_app little b1 b2 : Nat.Even (length b1) → nsum little (b1 ++ b2) = nsum little b1 + nsum little b2.
Proof.
  induction b1 as [|x|x y b IH] using pair_ind; intros He; [done|by destruct He as [k Hk]; cbn in Hk; lia|].
  cbn [app nsum]. rewrite IH; [lia|]. destruct He as [k Hk]. exists (k - 1)%nat. cbn in Hk. lia.
Qed.

Lemma nsum_swap b : Forall is_byte b → same_sum (256 * nsum true b) (nsum false b).
Proof.
  induction b as [|x|x y b IH] using pair_ind; [done| |].
  - intros [Hx _]%Forall_cons. unfold is_byte, is_u8, in_width in *. cbn. apply same_sum_refl. lia.
  - intros [Hx [Hy Hb]%Forall_cons]%Forall_cons. specialize (IH Hb). unfold is_byte, is_u8, in_width in *.
    cbn [nsum]. rewrite Z.mul_add_distr_l. apply same_sum_add; [|done].
    replace (256 * (x + 256 * y)) with (y * 65536 ^ 1 + 256 * x) by lia. rewrite (Z.add_comm _ y).
    apply same_sum_scale; lia.
Qed.

Lemma word_sum_nsum b : word_sum b = nsum false b.
Proof. induction b as [|x|x y b IH] using pair_ind; [done..|]. cbn [word_sum nsum]. by rewrite IH. Qed.

Lemma be_decode_pos b : Forall is_byte b → 0 <= be_decode b.
Proof. intros Hb. pose proof (be_decode_range b Hb). lia. Qed.

(** A whole number of words, read at once. *)
Lemma native_decode_sum little b : Forall is_byte b → Nat.Even (length b) →
  same_sum (native_decode little b) (nsum little b).
Proof.
  induction b as [|x|x y b IH] using pair_ind; intros Hall He; [by destruct little| |].
  { destruct He as [k Hk]. cbn in Hk. lia. }
  apply Forall_cons in Hall as [Hx [Hy Hb]%Forall_cons].
  assert (Nat.Even (length b)) as He'. { destruct He as [k Hk]. exists (k - 1)%nat. cbn in Hk. lia. }
  specialize (IH Hb He'). unfold is_byte, is_u8, in_width in Hx, Hy. unfold native_decode in *. destruct little.
  - replace (x :: y :: b) with ([x; y] ++ b) by done. rewrite reverse_app.
    change (reverse [x; y]) with [y; x]. rewrite be_decode_app. cbn [length].
    change (be_decode [y; x]) with ((0 * 256 + y) * 256 + x). cbn [app nsum].
    pose proof (be_decode_pos (reverse b)) as Hpos. rewrite Forall_reverse in Hpos. specialize (Hpos Hb).
    eapply same_sum_trans; [apply (same_sum_scale 1); lia|].
    rewrite (Z.add_comm _ (nsum true b)). apply same_sum_add; [done|].
    replace ((0 * 256 + y) * 256 + x) with (x + 256 * y) by lia. apply same_sum_refl. lia.
  - replace (x :: y :: b) with ([x; y] ++ b) by done. rewrite be_decode_app.
    change (be_decode [x; y]) with ((0 * 256 + x) * 256 + y). cbn [app nsum].
    destruct He' as [k Hk]. pose proof (be_decode_pos b Hb).
    replace (256 ^ Z.of_nat (length b)) with (65536 ^ Z.of_nat k).
    2: { rewrite Hk, Nat2Z.inj_mul. change (Z.of_nat 2) with 2. by rewrite Z.pow_mul_r by lia. }
    eapply same_sum_trans; [apply same_sum_scale; lia|]. apply same_sum_add; [|done].
    replace ((0 * 256 + x) * 256 + y) with (256 * x + y) by lia. apply same_sum_refl. lia.
Qed.

(** ** The accumulator *)

Section accumulate.
Variable little : bool.

Lemma Forall_take_drop {A} (P : A → Prop) n l : Forall P l → Forall P (take n l) ∧ Forall P (drop n l).
Proof. intros. split; [by apply Forall_take|by apply Forall_drop]. Qed.

Lemma nsum_take_drop k b : (2 * k <= length b)%nat →
  nsum little b = nsum little (take (2 * k) b) + nsum little (drop (2 * k) b).
Proof.
  intros Hk. rewrite <-(take_drop (2 * k) b) at 1. apply nsum_app. rewrite length_take_le by lia. by exists k.
Qed.

Lemma native_decode_range b : Forall is_byte b → (length b <= 8)%nat → 0 <= native_decode little b < 2 ^ 64.
Proof.
  intros Hb Hl. unfold native_decode. set (b' := if little then reverse b else b).
  assert (Forall is_byte b' ∧ length b' = length b) as [Hb' Hl'].
  { unfold b'. destruct little; [|done]. by rewrite Forall_reverse, length_reverse. }
  pose proof (be_decode_range b' Hb') as [H1 H2]. rewrite Hl' in H2. split; [done|].
  eapply Z.lt_le_trans; [exact H2|]. change (2 ^ 64) with (256 ^ 8). apply Z.pow_le_mono_r; lia.
Qed.

(** One addition with end-around carry, in a chain of such. *)
Lemma Add64_spec ac x carry : 0 <= ac < 2 ^ 64 → 0 <= x < 2 ^ 64 → 0 <= carry <= 1 → (carry = 1 → ac < 2 ^ 64 - 1) →
  let '(ac', carry') := Add64 ac x carry in
  0 <= ac' < 2 ^ 64 ∧ 0 <= carry' <= 1 ∧ (carry' = 1 → ac' < 2 ^ 64 - 1) ∧ same_sum (ac' + carry') (ac + carry + x).
Proof.
  intros Hac Hx Hc Hcar. unfold Add64, uint64, wrap. replace (ac + carry + x) with (ac + x + carry) by lia.
  split; [apply Z.mod_pos_bound; lia|]. split; [|split; [|apply same_sum_carry; lia]].
  - split; [apply Z.div_pos; lia|]. apply Z.lt_succ_r, Z.div_lt_upper_bound; lia.
  - intros Hd. pose proof (Z.div_mod (ac + x + carry) (2 ^ 64)). destruct (decide (carry = 1)); lia.
Qed.

Lemma add_words_spec n : ∀ b ac carry,
  Forall is_byte b → (8 * n <= length b)%nat → 0 <= ac < 2 ^ 64 → 0 <= carry <= 1 → (carry = 1 → ac < 2 ^ 64 - 1) →
  0 <= add_words little n b ac carry < 2 ^ 64 ∧
  same_sum (add_words little n b ac carry) (ac + carry + nsum little (take (8 * n) b)).
Proof.
  induction n as [|n IH]; intros b ac carry Hb Hlen Hac Hc Hcar; cbn [add_words].
  - rewrite wrap_small by (unfold in_width; destruct (decide (carry = 1)); lia).
    split; [destruct (decide (carry = 1)); lia|]. cbn. rewrite Z.add_0_r. apply same_sum_refl. lia.
  - destruct (Forall_take_drop is_byte 8 b Hb) as [Ht Hd].
    pose proof (native_decode_range (take 8 b) Ht) as Hx. rewrite length_take_le in Hx by lia.
    pose proof (Add64_spec ac (native_decode little (take 8 b)) carry Hac ltac:(apply Hx; lia) Hc Hcar) as HA.
    destruct (Add64 ac _ carry) as [ac' carry']. destruct HA as (Hac' & Hc' & Hcar' & Hs).
    destruct (IH (drop 8 b) ac' carry' Hd) as [Hr Hs']; [rewrite length_drop; lia|done..|]. split; [done|].
    eapply same_sum_trans; [exact Hs'|].
    replace (take (8 * S n) b) with (take 8 b ++ take (8 * n) (drop 8 b)).
    2: { rewrite take_take_drop. f_equal. lia. }
    rewrite nsum_app by (rewrite length_take_le by lia; by exists 4%nat). rewrite Z.add_assoc.
    apply same_sum_add; [|apply same_sum_refl, nsum_pos; by apply Forall_take].
    eapply same_sum_trans; [exact Hs|]. apply same_sum_add; [apply same_sum_refl; lia|].
    apply native_decode_sum; [done|]. rewrite length_take_le by lia. by exists 4%nat.
Qed.

(** What is summed so far and what is left add up to the whole. *)
Definition acc_inv (total : Z) (st : list Z * Z) : Prop :=
  Forall is_byte st.1 ∧ 0 <= st.2 < 2 ^ 64 ∧ same_sum (st.2 + nsum little st.1) total.

Lemma acc_step k total b ac ac' : acc_inv total (b, ac) → (2 * k <= length b)%nat → 0 <= ac' < 2 ^ 64 →
  same_sum ac' (ac + nsum little (take (2 * k) b)) → acc_inv total (drop (2 * k) b, ac').
Proof.
  intros (Hb & Hac & Hs) Hk Hac' Hs'. cbn [fst snd] in *. split; [by apply Forall_drop|]. split; [done|].
  eapply same_sum_trans; [|exact Hs]. cbn [fst snd]. rewrite (nsum_take_drop k b) by done. rewrite Z.add_assoc.
  apply same_sum_add; [done|]. apply same_sum_refl, nsum_pos. by apply Forall_drop.
Qed.

Lemma block_inv n total st : acc_inv total st → (length st.1 < 16 * n)%nat →
  acc_inv total (block little n st) ∧ (length (block little n st).1 < 8 * n)%nat.
Proof.
  destruct st as [b ac]. intros Hinv Hlen. unfold block. cbn [fst] in Hlen.
  destruct (Nat.leb_spec (8 * n) (length b)) as [Hge|Hlt]; [|done].
  pose proof Hinv as (Hb & Hac & _). cbn [fst snd] in Hb, Hac.
  destruct (add_words_spec n b ac 0 Hb Hge Hac) as [Hr Hs]; [lia..|]. rewrite Z.add_0_r in Hs.
  replace (8 * n)%nat with (2 * (4 * n))%nat in * by lia.
  split; [by eapply acc_step|]. cbn [fst]. rewrite length_drop. lia.
Qed.

Lemma blocks128_inv total fuel : ∀ b ac, (length b <= fuel)%nat → acc_inv total (b, ac) →
  acc_inv total (blocks128 little fuel b ac) ∧ (length (blocks128 little fuel b ac).1 < 128)%nat.
Proof.
  induction fuel as [|fuel IH]; intros b ac Hf Hinv; cbn [blocks128].
  { split; [done|]. cbn. lia. }
  destruct (Nat.leb_spec 128 (length b)) as [Hge|Hlt]; [|done].
  apply IH; [rewrite length_drop; lia|].
  pose proof Hinv as (Hb & Hac & _). cbn [fst snd] in Hb, Hac.
  destruct (add_words_spec 16 b ac 0 Hb) as [Hr Hs]; [lia..|]. rewrite Z.add_0_r in Hs.
  by apply (acc_step 64 total b ac).
Qed.

Lemma add_one ac x : 0 <= ac < 2 ^ 64 → 0 <= x < 2 ^ 64 →
  let '(ac', carry) := Add64 ac x 0 in 0 <= uint64 (ac' + carry) < 2 ^ 64 ∧ same_sum (uint64 (ac' + carry)) (ac + x).
Proof.
  intros Hac Hx. pose proof (Add64_spec ac x 0 Hac Hx ltac:(lia) ltac:(lia)) as H. destruct (Add64 ac x 0) as [ac' carry].
  destruct H as (H1 & H2 & H3 & H4). rewrite Z.add_0_r in H4. rewrite wrap_small; [|unfold in_width];
    destruct (decide (carry = 1)); (split; [lia|done]) || lia.
Qed.

Lemma tail_inv k total st : (1 <= k <= 2)%nat → acc_inv total st → (length st.1 < 2 * (2 * k))%nat →
  acc_inv total (tail little (2 * k) st) ∧ (length (tail little (2 * k) st).1 < 2 * k)%nat.
Proof.
  destruct st as [b ac]. intros Hk Hinv Hlen. unfold tail. cbn [fst] in Hlen.
  destruct (Nat.leb_spec (2 * k) (length b)) as [Hge|Hlt]; [|done].
  pose proof Hinv as (Hb & Hac & _). cbn [fst snd] in Hb, Hac.
  assert (Forall is_byte (take (2 * k) b)) as Ht by by apply Forall_take.
  pose proof (native_decode_range (take (2 * k) b) Ht ltac:(rewrite length_take_le by lia; lia)) as Hx.
  pose proof (add_one ac _ Hac Hx) as HA. destruct (Add64 ac _ 0) as [ac' carry]. destruct HA as [Hr Hs].
  split; [|cbn; rewrite length_drop; lia]. eapply acc_step; [done|done|done|].
  eapply same_sum_trans; [exact Hs|]. apply same_sum_add; [apply same_sum_refl; lia|].
  apply native_decode_sum; [done|]. rewrite length_take_le by lia. by exists k.
Qed.

Lemma last_byte_inv total st : acc_inv total st → (length st.1 < 2)%nat →
  0 <= last_byte little st < 2 ^ 64 ∧ same_sum (last_byte little st) total.
Proof.
  destruct st as [b ac]. intros (Hb & Hac & Hs) Hlen. cbn [fst snd] in *. unfold last_byte.
  destruct b as [|x [|? ?]]; cbn in Hlen; [by rewrite Z.add_0_r in Hs| |lia].
  assert (Forall is_byte [x; 0]) as Hx0 by (apply Forall_cons in Hb as [? _]; apply Forall_cons; split; [done|apply Forall_cons; split; [by vm_compute|done]]).
  pose proof (native_decode_range [x; 0] Hx0 ltac:(cbn; lia)) as Hx.
  pose proof (add_one ac _ Hac Hx) as HA. destruct (Add64 ac _ 0) as [ac' carry]. destruct HA as [Hr Hs'].
  split; [done|]. eapply same_sum_trans; [exact Hs'|]. eapply same_sum_trans; [|exact Hs].
  apply same_sum_add; [apply same_sum_refl; lia|].
  replace (nsum little [x]) with (nsum little [x; 0]) by (cbn; destruct little; lia).
  apply native_decode_sum; [done|by exists 1%nat].
Qed.

End accumulate.

(** ** Byte order and folding *)

(** Reversing the bytes of an accumulator scales it by 256. *)
Lemma swap_sum little z : 0 <= z < 2 ^ 64 →
  0 <= be_decode (native_encode little z) < 2 ^ 64 ∧
  same_sum (be_decode (native_encode little z)) (if little then 256 * z else z).
Proof.
  intros Hz. assert (be_decode (be_encode 8 z) = z) as Hdec by (apply be_decode_encode; lia).
  unfold native_encode. destruct little; [|rewrite Hdec; split; [done|apply same_sum_refl; lia]].
  pose proof (be_encode_bytes 8 z) as Hb. pose proof (length_be_encode 8 z) as Hl.
  change (be_decode (reverse (be_encode 8 z))) with (native_decode true (be_encode 8 z)).
  split; [apply native_decode_range; [done|lia]|].
  assert (Nat.Even (length (be_encode 8 z))) as He by (rewrite Hl; by exists 4%nat).
  eapply same_sum_trans; [by apply native_decode_sum|].
  pose proof (native_decode_sum false _ Hb He) as Hf. unfold native_decode in Hf. rewrite Hdec in Hf.
  apply same_sum_sym. eapply same_sum_trans; [apply same_sum_mul; exact Hf|].
  eapply same_sum_trans; [apply same_sum_mul, same_sum_sym, nsum_swap; done|].
  replace (256 * (256 * nsum true (be_encode 8 z))) with (nsum true (be_encode 8 z) * 65536 ^ 1 + 0) by lia.
  eapply same_sum_trans; [apply same_sum_scale; [lia|by apply nsum_pos|lia]|].
  rewrite Z.add_0_r. apply same_sum_refl. by apply nsum_pos.
Qed.

Lemma checksumNoFold_spec little b initial : Forall is_byte b → 0 <= initial < 2 ^ 64 →
  0 <= checksumNoFold little b initial < 2 ^ 64 ∧ same_sum (checksumNoFold little b initial) (word_sum b + initial).
Proof.
  intros Hb Hi. unfold checksumNoFold. destruct (swap_sum little initial Hi) as [Hr0 Hs0].
  set (ac0 := be_decode (native_encode little initial)) in *.
  assert (acc_inv little (ac0 + nsum little b) (b, ac0)) as Hinv.
  { split; [done|]. split; [done|]. apply same_sum_refl. cbn [fst snd]. pose proof (nsum_pos little b Hb). lia. }
  destruct (blocks128_inv little _ (length b) b ac0 (le_n _) Hinv) as [H1 L1].
  destruct (block_inv little 8 _ _ H1 L1) as [H2 L2]. destruct (block_inv little 4 _ _ H2 L2) as [H3 L3].
  destruct (block_inv little 2 _ _ H3 L3) as [H4 L4]. destruct (block_inv little 1 _ _ H4 L4) as [H5 L5].
  destruct (tail_inv little 2 _ _ ltac:(lia) H5 L5) as [H6 L6]. destruct (tail_inv little 1 _ _ ltac:(lia) H6 L6) as [H7 L7].
  destruct (last_byte_inv little _ _ H7 L7) as [Hr Hs]. cbn [Nat.mul Nat.add] in Hr, Hs.
  destruct (swap_sum little _ Hr) as [Hr' Hs']. split; [exact Hr'|]. eapply same_sum_trans; [exact Hs'|].
  rewrite word_sum_nsum. destruct little.
  - eapply same_sum_trans; [apply same_sum_mul; exact Hs|]. rewrite Z.mul_add_distr_l, Z.add_comm.
    apply same_sum_add; [by apply nsum_swap|].
    eapply same_sum_trans; [apply same_sum_mul; exact Hs0|].
    replace (256 * (256 * initial)) with (initial * 65536 ^ 1 + 0) by lia.
    eapply same_sum_trans; [apply same_sum_scale; lia|]. rewrite Z.add_0_r. apply same_sum_refl. lia.
  - eapply same_sum_trans; [exact Hs|]. rewrite Z.add_comm. apply same_sum_add; [apply same_sum_refl, nsum_pos; done|done].
Qed.

Lemma fold16_eq x : 0 <= x → fold16 x = x / 65536 + x mod 65536.
Proof.
  intros Hx. unfold fold16. rewrite Z.shiftr_div_pow2 by lia. change 0xffff with (Z.ones 16). by rewrite Z.land_ones by lia.
Qed.

Lemma fold16_same x : 0 <= x → same_sum (fold16 x) x.
Proof.
  intros Hx. rewrite fold16_eq by done. apply same_sum_sym. rewrite (Z.div_mod x 65536) at 1 by lia.
  rewrite Z.mul_comm. change 65536 with (65536 ^ 1) at 2. apply same_sum_scale; [lia| |]; Z.to_euclidean_division_equations; lia.
Qed.

(** Four folds bring 64 bits below [2^16]. *)
Lemma fold16_four x : 0 <= x < 2 ^ 64 → 0 <= fold16 (fold16 (fold16 (fold16 x))) < 65536.
Proof.
  intros Hx. assert (∀ m y, 0 <= y <= m * 65536 + 65534 → 0 <= m → 0 <= fold16 y <= m + 65534 ∨ fold16 y <= m - 1 + 65535 ∧ 0 <= fold16 y) as Hf.
  { intros m y Hy Hm. rewrite fold16_eq by lia. Z.to_euclidean_division_equations. lia. }
  assert (∀ m y, 0 <= y <= m * 65536 + 65534 → 0 <= m → 0 <= fold16 y <= m + 65534) as Hg.
  { intros m y Hy Hm. destruct (Hf m y Hy Hm); lia. }
  pose proof (Hg (2 ^ 48) x ltac:(lia) ltac:(lia)) as H1.
  assert (fold16 x <= 2 ^ 48 + 65534) by lia.
  pose proof (Hg (2 ^ 32) (fold16 x) ltac:(lia) ltac:(lia)) as H2.
  pose proof (Hg (2 ^ 16) (fold16 (fold16 x)) ltac:(lia) ltac:(lia)) as H3.
  pose proof (Hg 1 (fold16 (fold16 (fold16 x))) ltac:(lia) ltac:(lia)) as H4. lia.
Qed.

Lemma checksum_sum little b initial : Forall is_byte b → 0 <= initial < 2 ^ 64 →
  checksum little b initial = ones_sum (word_sum b + initial).
Proof.
  intros Hb Hi. destruct (checksumNoFold_spec little b initial Hb Hi) as [Hr Hs]. unfold checksum.
  set (x := checksumNoFold little b initial) in *.
  pose proof (fold16_four x Hr) as H4. rewrite wrap_small by (unfold in_width; lia).
  rewrite <-(ones_sum_small (fold16 _)) by done. apply ones_sum_same.
  assert (∀ y z, same_sum y z → same_sum (fold16 y) z) as Hfold.
  { intros y z Hy. eapply same_sum_trans; [apply fold16_same, Hy|done]. }
  by do 4 apply Hfold.
Qed.

(** C25: the unrolled 64-bit checksum computes the one's-complement sum of 16-bit words of
    RFC 1071, on little-endian and big-endian machines alike, for every length and every
    initial value; in particular no carry is ever lost. *)
Theorem checksum_correct little b initial : Forall is_byte b → 0 <= initial < 2 ^ 64 →
  checksum little b initial = ones_sum (word_sum b + initial).
Proof. apply checksum_sum. Qed.

Lemma checksum_correct_witness :
  checksum true [0x45; 0; 0; 0x73; 0; 0; 0x40; 0; 0x40; 0x11; 0xc0; 0xa8; 0; 1; 0xc0; 0xa8; 0; 0xc7; 0x99] 0 =
  ones_sum (word_sum [0x45; 0; 0; 0x73; 0; 0; 0x40; 0; 0x40; 0x11; 0xc0; 0xa8; 0; 1; 0xc0; 0xa8; 0; 0xc7; 0x99] + 0).
Proof.
  apply (checksum_correct true); [|lia]. repeat (apply Forall_cons; split; [by vm_compute|]). apply Forall_nil. done.
Defined.
