(* ===== verification/Packet.v ===== *)
(** Packets in the traffic-control layer: [polyamide/device/traffic_manip.go], with the
    element type of [traffic_control.go] and the offsets of [ip.go].

    [Packet] is always a slice of [Buffer], so an element stores its offset and length,
    and a write through the slice is a write to the buffer.  [None] is a Go panic. *)

From S2P Require Import Prelude Bytes NetIP.

(** ** Constants *)

Definition PolyHeaderSize : nat := 3.
Definition PolyOffsetPayloadLength : nat := 1.
Definition MplsLseLen : nat := 4.
Definition MessageTransportHeaderSize : nat := 16.
Definition ipv4_HeaderLen : nat := 20.
Definition ipv6_HeaderLen : nat := 40.
Definition IPv4offsetTotalLength : nat := 2.
Definition IPv4offsetSrc : nat := 12.
Definition IPv4offsetDst : nat := 16.
Definition IPv6offsetPayloadLength : nat := 4.
Definition IPv6offsetSrc : nat := 8.
Definition IPv6offsetDst : nat := 24.
Definition net_IPv4len : nat := 4.
Definition net_IPv6len : nat := 16.

(** ** Elements *)

(** Peers and endpoints are handles; an empty [tc_Buffer] is the nil pointer. *)
Record TCElement := mkTC {
  tc_Buffer : list Z;
  tc_off : nat;
  tc_len : nat;
  tc_FromEp : option nat;
  tc_ToEp : option nat;
  tc_FromPeer : option nat;
  tc_ToPeer : option nat;
  tc_Priority : Z;
  tc_L3Proto : Z;
}.

Definition set_Buffer e b := mkTC b (tc_off e) (tc_len e) (tc_FromEp e) (tc_ToEp e) (tc_FromPeer e) (tc_ToPeer e)
  (tc_Priority e) (tc_L3Proto e).
Definition set_Packet e off len := mkTC (tc_Buffer e) off len (tc_FromEp e) (tc_ToEp e) (tc_FromPeer e) (tc_ToPeer e)
  (tc_Priority e) (tc_L3Proto e).
Definition set_route e peer prio := mkTC (tc_Buffer e) (tc_off e) (tc_len e) (tc_FromEp e) (tc_ToEp e) (tc_FromPeer e)
  peer prio (tc_L3Proto e).
Definition set_L3Proto e p := mkTC (tc_Buffer e) (tc_off e) (tc_len e) (tc_FromEp e) (tc_ToEp e) (tc_FromPeer e)
  (tc_ToPeer e) (tc_Priority e) p.

(** The bytes of the packet. *)
Definition tc_Packet (e : TCElement) : list Z := take (tc_len e) (drop (tc_off e) (tc_Buffer e)).

(** [Packet[i]]. *)
Definition idx (e : TCElement) (i : nat) : option Z :=
  if (i <? tc_len e)%nat then tc_Buffer e !! (tc_off e + i)%nat else None.

(** [Packet[lo:hi]]; Go checks a slice expression against the capacity, which reaches to
    the end of the buffer. *)
Definition sub (e : TCElement) (lo hi : nat) : option (list Z) :=
  if (lo <=? hi)%nat && (tc_off e + hi <=? length (tc_Buffer e))%nat
  then Some (slice (tc_off e + lo) (tc_off e + hi) (tc_Buffer e)) else None.

(** Writing [bs] over [Packet[lo:lo+len(bs)]]. *)
Definition put (e : TCElement) (lo : nat) (bs : list Z) : option TCElement :=
  if (tc_off e + lo + length bs <=? length (tc_Buffer e))%nat
  then Some (set_Buffer e (write_at (tc_off e + lo) bs (tc_Buffer e))) else None.

(** [Packet[lo] = b]. *)
Definition put_byte (e : TCElement) (lo : nat) (b : Z) : option TCElement :=
  if (lo <? tc_len e)%nat then put e lo [b] else None.

Definition Incoming (e : TCElement) : bool := bool_decide (is_Some (tc_FromPeer e)).

(** ** Header fields *)

Definition GetIPVersion (e : TCElement) : option Z := b ← idx e 0; Some (Z.shiftr b 4).

Definition SetIPVersion (e : TCElement) (ver : Z) : option TCElement := put_byte e 0 (uint8 (Z.shiftl ver 4)).

Definition GetSrcBytes (e : TCElement) : option (option (list Z)) :=
  ver ← GetIPVersion e;
  if ver =? 4 then b ← sub e IPv4offsetSrc (IPv4offsetSrc + net_IPv4len); Some (Some b)
  else if ver =? 6 then b ← sub e IPv6offsetSrc (IPv6offsetSrc + net_IPv6len); Some (Some b)
  else Some None.

Definition GetDstBytes (e : TCElement) : option (option (list Z)) :=
  ver ← GetIPVersion e;
  if ver =? 4 then b ← sub e IPv4offsetDst (IPv4offsetDst + net_IPv4len); Some (Some b)
  else if ver =? 6 then b ← sub e IPv6offsetDst (IPv6offsetDst + net_IPv6len); Some (Some b)
  else Some None.

(** [netip.IPv4Unspecified] stands in for a packet that is not IP. *)
Definition addr_of_bytes (ver : Z) (b : option (list Z)) : Addr :=
  match b with
  | Some b => if ver =? 4 then Addr4 (be_decode b) else if ver =? 6 then Addr6 (be_decode b) "" else Addr4 0
  | None => Addr4 0
  end.

Definition GetSrc (e : TCElement) : option Addr :=
  ver ← GetIPVersion e; b ← GetSrcBytes e; Some (addr_of_bytes ver b).

Definition GetDst (e : TCElement) : option Addr :=
  ver ← GetIPVersion e; b ← GetDstBytes e; Some (addr_of_bytes ver b).

(** The length of the packet, header included, as a [uint16]. *)
Definition GetLength (e : TCElement) : option Z :=
  ver ← GetIPVersion e;
  if ver =? 4 then field ← sub e IPv4offsetTotalLength (IPv4offsetTotalLength + 2); Some (be_decode field)
  else if ver =? 6 then
    field ← sub e IPv6offsetPayloadLength (IPv6offsetPayloadLength + 2);
    Some (uint16 (be_decode field + Z.of_nat ipv6_HeaderLen))
  else
    field ← sub e PolyOffsetPayloadLength (PolyOffsetPayloadLength + 2);
    Some (uint16 (be_decode field + Z.of_nat PolyHeaderSize)).

Definition SetLength (e : TCElement) (len : Z) : option TCElement :=
  ver ← GetIPVersion e;
  if ver =? 4 then put e IPv4offsetTotalLength (be_encode 2 len)
  else if ver =? 6 then put e IPv6offsetPayloadLength (be_encode 2 (uint16 (len - Z.of_nat ipv6_HeaderLen)))
  else put e PolyOffsetPayloadLength (be_encode 2 (uint16 (len - Z.of_nat PolyHeaderSize))).

(** Where the payload starts. *)
Definition payload_off (ver : Z) : nat :=
  if ver =? 4 then ipv4_HeaderLen else if ver =? 6 then ipv6_HeaderLen else PolyHeaderSize.

Definition Payload (e : TCElement) : option (list Z) :=
  ver ← GetIPVersion e; sub e (payload_off ver) (tc_len e).

Definition hasPacketHeader (e : TCElement) : option bool :=
  if (tc_len e <? PolyHeaderSize)%nat then Some false
  else
    ver ← GetIPVersion e;
    Some (if ver =? 4 then (ipv4_HeaderLen <=? tc_len e)%nat
          else if ver =? 6 then (ipv6_HeaderLen <=? tc_len e)%nat else true).

Definition ParsePacket (e : TCElement) : option (TCElement * bool) :=
  if (tc_len e =? 0)%nat && bool_decide (tc_Buffer e = []) then Some (e, false)
  else if (tc_len e =? 0)%nat && (length (tc_Buffer e) <? MessageTransportHeaderSize)%nat then None
  else
    let e := if (tc_len e =? 0)%nat
             then set_Packet e MessageTransportHeaderSize (length (tc_Buffer e) - MessageTransportHeaderSize) else e in
    has ← hasPacketHeader e;
    if negb has then Some (e, false)
    else
      l ← GetLength e;
      if (tc_len e <? Z.to_nat l)%nat then Some (e, false)
      else Some (set_Packet e (tc_off e) (Z.to_nat l), true).

Definition Validate (e : TCElement) : option bool :=
  if (tc_len e =? 0)%nat then Some false
  else
    has ← hasPacketHeader e;
    if negb has then Some false
    else
      ver ← GetIPVersion e;
      l ← GetLength e;
      Some (Z.of_nat (payload_off ver) <=? l).

Definition InitPacket (e : TCElement) (ver len : Z) : option TCElement :=
  if (MessageTransportHeaderSize + Z.to_nat len <=? length (tc_Buffer e))%nat
  then e ← SetIPVersion (set_Packet e MessageTransportHeaderSize (Z.to_nat len)) ver; SetLength e len
  else None.

(** ** Hop limit *)

Definition ttl_off (ver : Z) : option nat := if ver =? 4 then Some 8%nat else if ver =? 6 then Some 7%nat else None.

Definition GetTTL (e : TCElement) : option Z :=
  ver ← GetIPVersion e; o ← ttl_off ver; b ← sub e o (o + 1); head b.

(** The IPv4 header checksum is updated incrementally (RFC 1141). *)
Definition DecrementTTL (e : TCElement) : option TCElement :=
  ver ← GetIPVersion e; o ← ttl_off ver; b ← sub e o (o + 1); ttl ← head b;
  e ← put e o [uint8 (ttl - 1)];
  if ver =? 4 then
    field ← sub e 10 12;
    let csum := uint32 (be_decode field + 0x100) in
    let csum := uint32 (csum + Z.shiftr csum 16) in
    put e 10 (be_encode 2 (uint16 csum))
  else Some e.

(** ** MPLS packets from the TUN *)

(** Re-framing the bare MPLS packet at [Buffer[offset:offset+size]]; the result is the new
    size. *)
Definition FrameMplsUnicast (e : TCElement) (offset size : nat) (protoId subtype : Z) : TCElement * nat :=
  let prefix := (PolyHeaderSize + 1)%nat in
  if (size <? MplsLseLen)%nat then (e, size)
  else if (length (tc_Buffer e) <? offset + size + prefix)%nat then (e, size)
  else
    let b := write_at (offset + prefix) (slice offset (offset + size) (tc_Buffer e)) (tc_Buffer e) in
    let b := write_at offset [uint8 (Z.shiftl protoId 4)] b in
    let b := write_at (offset + PolyOffsetPayloadLength) (be_encode 2 (uint16 (Z.of_nat size + 1))) b in
    let b := write_at (offset + PolyHeaderSize) [uint8 subtype] b in
    (set_Buffer e b, (size + prefix)%nat).
