(* ===== verification/PacketProps.v ===== *)
(** Packets: parsed elements are read within bounds, lengths round-trip, the incremental
    checksum update is right, and framing an MPLS packet yields a well-formed one. *)

From S2P Require Import Prelude Bytes NetIP Checksum Packet.

(** A slice of a byte buffer, which is nil or holds at least the transport header. *)
Definition tc_ok (e : TCElement) : Prop :=
  Forall is_byte (tc_Buffer e) ∧ (tc_off e + tc_len e <= length (tc_Buffer e))%nat ∧
  (tc_Buffer e = [] ∨ MessageTransportHeaderSize <= length (tc_Buffer e))%nat.

Lemma idx_Some e i : tc_ok e → (i < tc_len e)%nat → ∃ b, idx e i = Some b ∧ is_byte b.
Proof.
  intros (Hb & Hl & _) Hi. unfold idx. destruct (Nat.ltb_spec i (tc_len e)); [|lia].
  destruct (lookup_lt_is_Some_2 (tc_Buffer e) (tc_off e + i)) as [b Hib]; [lia|]. exists b. split; [done|].
  rewrite Forall_lookup in Hb. by eapply Hb.
Qed.

Lemma sub_Some e lo hi : (lo <= hi)%nat → (tc_off e + hi <= length (tc_Buffer e))%nat →
  sub e lo hi = Some (slice (tc_off e + lo) (tc_off e + hi) (tc_Buffer e)).
Proof.
  intros H1 H2. unfold sub. destruct (Nat.leb_spec lo hi); [|lia].
  by destruct (Nat.leb_spec (tc_off e + hi) (length (tc_Buffer e))); [|lia].
Qed.

(** A field within the packet. *)
Lemma sub_ok e lo hi : tc_ok e → (lo <= hi <= tc_len e)%nat →
  ∃ b, sub e lo hi = Some b ∧ length b = (hi - lo)%nat ∧ Forall is_byte b.
Proof.
  intros (Hb & Hl & _) H. rewrite sub_Some by lia. eexists. split; [done|].
  rewrite length_slice by lia. split; [lia|by apply slice_bytes].
Qed.

Lemma GetIPVersion_ok e : tc_ok e → (0 < tc_len e)%nat → ∃ v, GetIPVersion e = Some v ∧ 0 <= v < 16.
Proof.
  intros Hok Hl. destruct (idx_Some e 0 Hok Hl) as (b & Hb & Hbyte). unfold GetIPVersion. rewrite Hb. cbn.
  eexists. split; [done|]. unfold is_byte, is_u8, in_width in Hbyte. rewrite Z.shiftr_div_pow2 by lia.
  split; [apply Z.div_pos; lia|apply Z.div_lt_upper_bound; lia].
Qed.

(** The header of the version is inside the packet. *)
Lemma hasPacketHeader_spec e : tc_ok e →
  ∃ b, hasPacketHeader e = Some b ∧
    (b = true → ∃ v, GetIPVersion e = Some v ∧ 0 <= v < 16 ∧ (payload_off v <= tc_len e)%nat ∧ (3 <= tc_len e)%nat).
Proof.
  intros Hok. unfold hasPacketHeader, PolyHeaderSize.
  destruct (Nat.ltb_spec (tc_len e) 3) as [Hlt|Hge]; [by eexists|].
  destruct (GetIPVersion_ok e Hok ltac:(lia)) as (v & Hv & Hr). rewrite Hv. cbn [mbind option_bind].
  eexists. split; [done|]. intros Hb. exists v. split; [done|]. split; [done|]. unfold payload_off, PolyHeaderSize.
  destruct (v =? 4); [by apply Nat.leb_le in Hb|]. destruct (v =? 6); [by apply Nat.leb_le in Hb|]. lia.
Qed.

Lemma payload_off_min v : (3 <= payload_off v)%nat.
Proof. unfold payload_off, ipv4_HeaderLen, ipv6_HeaderLen, PolyHeaderSize. repeat case_goal; lia. Qed.

Lemma GetLength_ok e v : tc_ok e → GetIPVersion e = Some v → (payload_off v <= tc_len e)%nat →
  ∃ l, GetLength e = Some l ∧ 0 <= l < 65536.
Proof.
  intros Hok Hv Hlen. unfold GetLength. rewrite Hv. cbn [mbind option_bind]. unfold payload_off in Hlen.
  unfold ipv4_HeaderLen, ipv6_HeaderLen, PolyHeaderSize in *.
  destruct (v =? 4); [|destruct (v =? 6)].
  - destruct (sub_ok e IPv4offsetTotalLength (IPv4offsetTotalLength + 2) Hok) as (b & -> & Hb & Hbytes); [unfold IPv4offsetTotalLength; lia|].
    cbn [mbind option_bind]. eexists. split; [done|]. pose proof (be_decode_range b Hbytes) as H. by rewrite Hb in H.
  - destruct (sub_ok e IPv6offsetPayloadLength (IPv6offsetPayloadLength + 2) Hok) as (b & -> & _); [unfold IPv6offsetPayloadLength; lia|].
    cbn [mbind option_bind]. eexists. split; [done|]. by apply wrap_range.
  - destruct (sub_ok e PolyOffsetPayloadLength (PolyOffsetPayloadLength + 2) Hok) as (b & -> & _); [unfold PolyOffsetPayloadLength; lia|].
    cbn [mbind option_bind]. eexists. split; [done|]. by apply wrap_range.
Qed.

(** Shortening the packet changes neither the version nor the length field. *)
Lemma trim_version e l : (0 < l)%nat → (0 < tc_len e)%nat → GetIPVersion (set_Packet e (tc_off e) l) = GetIPVersion e.
Proof.
  intros Hl Hl'. unfold GetIPVersion, idx. cbn [tc_Buffer tc_off tc_len set_Packet].
  destruct (Nat.ltb_spec 0 l); [|lia]. by destruct (Nat.ltb_spec 0 (tc_len e)); [|lia].
Qed.

Lemma trim_length e l : (0 < l)%nat → (0 < tc_len e)%nat → GetLength (set_Packet e (tc_off e) l) = GetLength e.
Proof. intros Hl Hl'. unfold GetLength. rewrite trim_version by done. done. Qed.

(** ** Reading a parsed packet *)

(** What is readable in a valid packet: its length field agrees with the slice, and every
    header field lies in it. *)
Definition readable (e : TCElement) : Prop :=
  GetLength e = Some (Z.of_nat (tc_len e)) ∧
  ∃ v, GetIPVersion e = Some v ∧ is_Some (GetSrc e) ∧ is_Some (GetDst e) ∧ is_Some (Payload e) ∧
    (v = 4 ∨ v = 6 → is_Some (GetTTL e)).

Lemma readable_ok e v : tc_ok e → GetIPVersion e = Some v → (payload_off v <= tc_len e)%nat →
  is_Some (GetSrc e) ∧ is_Some (GetDst e) ∧ is_Some (Payload e) ∧ (v = 4 ∨ v = 6 → is_Some (GetTTL e)).
Proof.
  intros Hok Hv Hlen.
  assert (∀ lo hi, (lo <= hi <= tc_len e)%nat → ∃ b, sub e lo hi = Some b ∧ length b = (hi - lo)%nat) as Hsub.
  { intros lo hi H. destruct (sub_ok e lo hi Hok H) as (b & ? & ? & _). by exists b. }
  assert (is_Some (GetSrcBytes e) ∧ is_Some (GetDstBytes e)) as [[sb Hs] [db Hd]].
  { unfold GetSrcBytes, GetDstBytes. rewrite Hv. cbn [mbind option_bind]. unfold payload_off in Hlen.
    unfold IPv4offsetSrc, IPv4offsetDst, IPv6offsetSrc, IPv6offsetDst, net_IPv4len, net_IPv6len, ipv4_HeaderLen, ipv6_HeaderLen in *.
    destruct (v =? 4); [|destruct (v =? 6)]; [..|done].
    - destruct (Hsub 12%nat 16%nat) as (b1 & H1 & _); [lia|]. destruct (Hsub 16%nat 20%nat) as (b2 & H2 & _); [lia|].
      change (12 + 4)%nat with 16%nat. change (16 + 4)%nat with 20%nat. rewrite H1, H2. done.
    - destruct (Hsub 8%nat 24%nat) as (b1 & H1 & _); [lia|]. destruct (Hsub 24%nat 40%nat) as (b2 & H2 & _); [lia|].
      change (8 + 16)%nat with 24%nat. change (24 + 16)%nat with 40%nat. rewrite H1, H2. done. }
  split; [|split; [|split]].
  - unfold GetSrc. rewrite Hv, Hs. done.
  - unfold GetDst. rewrite Hv, Hd. done.
  - unfold Payload. rewrite Hv. cbn [mbind option_bind]. destruct (Hsub (payload_off v) (tc_len e)) as (b & -> & _); [lia|done].
  - intros Hv46. unfold GetTTL. rewrite Hv. cbn [mbind option_bind]. unfold payload_off, ipv4_HeaderLen, ipv6_HeaderLen in Hlen.
    destruct Hv46 as [->| ->]; cbn in Hlen |- *.
    + destruct (Hsub 8%nat 9%nat) as (b & -> & Hb); [lia|]. destruct b; [done|]. done.
    + destruct (Hsub 7%nat 8%nat) as (b & -> & Hb); [lia|]. destruct b; [done|]. done.
Qed.

(** C27: parsing and validating a packet never panics, whatever its bytes are, and a packet
    that passes both can be read without a bounds error: its slice is exactly as long as
    its length field says, and version, addresses, payload and hop limit lie within it. *)
Theorem parse_validate_safe e : tc_ok e →
  ∃ e' b, ParsePacket e = Some (e', b) ∧ tc_ok e' ∧ tc_Buffer e' = tc_Buffer e ∧
    (b = true → ∃ v, Validate e' = Some v ∧ (v = true → readable e')).
Proof.
  intros Hok. unfold ParsePacket.
  destruct ((tc_len e =? 0)%nat && bool_decide (tc_Buffer e = [])) eqn:E0; [by eexists _, false|].
  destruct ((tc_len e =? 0)%nat && (length (tc_Buffer e) <? MessageTransportHeaderSize)%nat) eqn:E1.
  { exfalso. apply andb_prop in E1 as [Hz Hlt%Nat.ltb_lt]. destruct Hok as (_ & _ & [Hn|Hn]); [|lia].
    by rewrite Hz, bool_decide_eq_true_2 in E0 by done. }
  set (e1 := if (tc_len e =? 0)%nat then _ else e).
  assert (tc_ok e1 ∧ tc_Buffer e1 = tc_Buffer e) as [Hok1 Hbuf].
  { unfold e1. destruct (Nat.eqb_spec (tc_len e) 0) as [Hz|]; [|done]. destruct Hok as (Hb & Hl & Hn). split; [|done].
    split; [done|]. split; [|done]. cbn [tc_off tc_len tc_Buffer set_Packet]. cbn [andb] in E1.
    apply Nat.ltb_ge in E1. lia. }
  destruct (hasPacketHeader_spec e1 Hok1) as (b & Hb & Hhdr). rewrite Hb. cbn [mbind option_bind].
  destruct b; cbn [negb]; [|by eexists _, false]. destruct (Hhdr eq_refl) as (v & Hv & Hr & Hpl & Hlen3).
  destruct (GetLength_ok e1 v Hok1 Hv Hpl) as (l & Hl & Hlr). rewrite Hl. cbn [mbind option_bind].
  destruct (Nat.ltb_spec (tc_len e1) (Z.to_nat l)) as [Hlt|Hge]; [by eexists _, false|].
  eexists _, true. split; [done|].
  assert (tc_ok (set_Packet e1 (tc_off e1) (Z.to_nat l))) as Hok2.
  { destruct Hok1 as (H1 & H2 & H3). split; [done|]. split; [|done]. cbn. lia. }
  split; [done|]. split; [done|]. intros _. set (e2 := set_Packet e1 (tc_off e1) (Z.to_nat l)) in *.
  unfold Validate. destruct (Nat.eqb_spec (tc_len e2) 0) as [Hz|Hnz]; [by eexists|].
  destruct (hasPacketHeader_spec e2 Hok2) as (b2 & -> & Hhdr2). cbn [mbind option_bind].
  destruct b2; cbn [negb]; [|by eexists]. destruct (Hhdr2 eq_refl) as (v2 & Hv2 & _ & Hpl2 & _).
  assert (GetLength e2 = Some l) as Hl2.
  { unfold e2. rewrite trim_length; [done| |lia]. change (tc_len e2) with (Z.to_nat l) in Hnz. lia. }
  rewrite Hv2, Hl2. cbn [mbind option_bind]. eexists. split; [done|]. intros _.
  split; [rewrite Hl2; cbn; f_equal; lia|]. exists v2. split; [done|]. by apply readable_ok.
Qed.

(** ** The packet as a byte string *)

Lemma length_packet e : tc_ok e → length (tc_Packet e) = tc_len e.
Proof. intros (_ & Hl & _). unfold tc_Packet. rewrite length_take, length_drop. lia. Qed.

Lemma packet_lookup e i : tc_Packet e !! i = if decide (i < tc_len e)%nat then tc_Buffer e !! (tc_off e + i)%nat else None.
Proof.
  unfold tc_Packet. case_decide; [by rewrite lookup_take_lt, lookup_drop|by rewrite lookup_take_ge by lia].
Qed.

Lemma packet_bytes e : tc_ok e → Forall is_byte (tc_Packet e).
Proof. intros (Hb & _). unfold tc_Packet. by apply Forall_take, Forall_drop. Qed.

Lemma idx_packet e i : idx e i = tc_Packet e !! i.
Proof. rewrite packet_lookup. unfold idx. destruct (Nat.ltb_spec i (tc_len e)), (decide (i < tc_len e)%nat); done || lia. Qed.

Lemma sub_packet e lo hi : tc_ok e → (lo <= hi <= tc_len e)%nat → sub e lo hi = Some (slice lo hi (tc_Packet e)).
Proof.
  intros (_ & Hl & _) H. rewrite sub_Some by lia. f_equal. apply list_eq. intros i.
  rewrite !lookup_slice, packet_lookup. replace (tc_off e + hi - (tc_off e + lo))%nat with (hi - lo)%nat by lia.
  case_decide; [|done]. rewrite decide_True by lia. f_equal. lia.
Qed.

Lemma put_ok e lo bs : tc_ok e → Forall is_byte bs → (lo + length bs <= tc_len e)%nat →
  ∃ e', put e lo bs = Some e' ∧ tc_ok e' ∧ tc_Packet e' = write_at lo bs (tc_Packet e) ∧ tc_len e' = tc_len e ∧
    tc_off e' = tc_off e ∧ tc_Buffer e' = write_at (tc_off e + lo) bs (tc_Buffer e).
Proof.
  intros Hok Hbs Hlo. pose proof Hok as (Hb & Hl & Hn). unfold put.
  destruct (Nat.leb_spec (tc_off e + lo + length bs) (length (tc_Buffer e))); [|lia].
  eexists. split; [done|].
  assert (length (write_at (tc_off e + lo) bs (tc_Buffer e)) = length (tc_Buffer e)) as Hlen by by apply length_write_at.
  split; [|split; [|done]].
  - split; [by apply write_at_bytes|]. cbn [tc_off tc_len tc_Buffer set_Buffer]. rewrite Hlen. split; [done|].
    destruct Hn as [Hn|Hn]; [|by right]. left. destruct (write_at _ _ _); [done|]. by rewrite Hn in Hlen.
  - apply list_eq. intros i. rewrite packet_lookup. cbn [tc_off tc_len tc_Buffer set_Buffer].
    rewrite !lookup_write_at by (rewrite ?length_packet; done || lia). rewrite packet_lookup.
    destruct (decide (i < tc_len e)%nat) as [Hi|Hi].
    + destruct (decide (lo <= i < lo + length bs)%nat).
      * rewrite decide_True by lia. f_equal. lia.
      * rewrite decide_False by lia. done.
    + by rewrite decide_False by lia.
Qed.

(** ** Hop limit and checksum *)

Lemma fold_carry c : 0 <= c < 65536 →
  uint16 (uint32 (uint32 (c + 256) + Z.shiftr (uint32 (c + 256)) 16)) = if c + 256 <? 65536 then c + 256 else c + 256 - 65535.
Proof.
  intros Hc. rewrite (wrap_small 32 (c + 256)) by (unfold in_width; lia). rewrite Z.shiftr_div_pow2 by lia.
  change (2 ^ 16) with 65536. destruct (Z.ltb_spec (c + 256) 65536) as [Hlt|Hge].
  - rewrite (Z.div_small (c + 256)), Z.add_0_r by lia. rewrite (wrap_small 32) by (unfold in_width; lia). apply wrap_small. unfold in_width. lia.
  - assert ((c + 256) / 65536 = 1) as -> by (symmetry; apply (Z.div_unique_pos _ _ _ (c + 256 - 65536)); lia).
    rewrite (wrap_small 32) by (unfold in_width; lia). unfold uint16, wrap.
    rewrite <-(Z.mod_small (c + 256 - 65535) (2 ^ 16)) by lia.
    replace (c + 256 + 1) with (c + 256 - 65535 + 1 * 2 ^ 16) by lia. by rewrite Z.mod_add by lia.
Qed.

(** What decrementing does to the bytes of an IPv4 packet. *)
Lemma decrement_bytes e p0 p1 p2 p3 p4 p5 p6 p7 ttl p9 c1 c2 rest :
  tc_ok e → GetIPVersion e = Some 4 →
  tc_Packet e = p0 :: p1 :: p2 :: p3 :: p4 :: p5 :: p6 :: p7 :: ttl :: p9 :: c1 :: c2 :: rest → 1 <= ttl →
  ∃ e', DecrementTTL e = Some e' ∧ tc_ok e' ∧
    let c := 256 * c1 + c2 in
    tc_Packet e' = [p0; p1; p2; p3; p4; p5; p6; p7; ttl - 1; p9] ++
      be_encode 2 (if c + 256 <? 65536 then c + 256 else c + 256 - 65535) ++ rest.
Proof.
  intros Hok Hv HP Httl. pose proof (packet_bytes e Hok) as Hbytes. pose proof (length_packet e Hok) as Hlen.
  rewrite HP in Hbytes, Hlen. cbn [length] in Hlen. rewrite !Forall_cons in Hbytes.
  destruct Hbytes as (_ & _ & _ & _ & _ & _ & _ & _ & Ht & _ & Hc1 & Hc2 & _).
  unfold is_byte, is_u8, in_width in Ht, Hc1, Hc2.
  unfold DecrementTTL. rewrite Hv. cbn [mbind option_bind ttl_off Z.eqb Pos.eqb].
  rewrite (sub_packet e 8 (8 + 1)), HP by (done || lia). cbn [mbind option_bind slice take drop Nat.sub Nat.add head].
  rewrite wrap_small by (unfold in_width; lia).
  destruct (put_ok e 8 [ttl - 1] Hok) as (e1 & -> & Hok1 & HP1 & Hl1 & _).
  { apply Forall_cons. split; [|done]. unfold is_byte, is_u8, in_width. lia. }
  { cbn. lia. }
  cbn [mbind option_bind]. rewrite HP in HP1. cbn in HP1.
  rewrite (sub_packet e1 10 12), HP1 by (done || lia). cbn [mbind option_bind slice take drop Nat.sub].
  change (c1 :: c2 :: take 0 rest) with [c1; c2].
  replace (be_decode [c1; c2] + 0x100) with (256 * c1 + c2 + 256) by (unfold be_decode; cbn; lia).
  rewrite fold_carry by lia.
  set (c := 256 * c1 + c2). set (c' := if c + 256 <? 65536 then c + 256 else c + 256 - 65535).
  destruct (put_ok e1 10 (be_encode 2 c') Hok1) as (e2 & -> & Hok2 & HP2 & _).
  { apply be_encode_bytes. }
  { rewrite length_be_encode. lia. }
  exists e2. split; [done|]. split; [done|]. rewrite HP2, HP1. done.
Qed.

(** forwarding an IPv4 packet keeps its header checksum right: decrementing the hop limit
    lowers that byte by one, and a header that verified before verifies after the
    incremental update, whatever the checksum was and however long the header is. *)
Theorem decrement_ttl_checksum little e ttl hlen : tc_ok e → GetIPVersion e = Some 4 →
  GetTTL e = Some ttl → 1 <= ttl → (12 <= hlen <= tc_len e)%nat → 
  ∃ e', DecrementTTL e = Some e' ∧ GetTTL e' = Some (ttl - 1) ∧
    (checksum little (take hlen (tc_Packet e)) 0 = 0xffff → checksum little (take hlen (tc_Packet e')) 0 = 0xffff).
Proof.
  intros Hok Hv Hg Httl Hh. pose proof (length_packet e Hok) as Hlen. pose proof (packet_bytes e Hok) as Hbytes.
  destruct (tc_Packet e) as [|p0 [|p1 [|p2 [|p3 [|p4 [|p5 [|p6 [|p7 [|t [|p9 [|c1 [|c2 rest]]]]]]]]]]]] eqn:HP; cbn in Hlen; try lia.
  assert (t = ttl) as ->.
  { unfold GetTTL in Hg. rewrite Hv in Hg. cbn [mbind option_bind ttl_off Z.eqb Pos.eqb] in Hg.
    rewrite (sub_packet e 8 (8 + 1)), HP in Hg by (done || lia).
    cbn [mbind option_bind slice take drop Nat.sub Nat.add head] in Hg. congruence. }
  destruct (decrement_bytes e p0 p1 p2 p3 p4 p5 p6 p7 ttl p9 c1 c2 rest Hok Hv HP Httl) as (e' & -> & Hok' & HP').
  exists e'. split; [done|].
  assert (tc_len e' = tc_len e) as Hl'.
  { rewrite <-(length_packet e' Hok'), <-(length_packet e Hok), HP', HP. cbn. done. }
  cbv zeta in HP'. set (c := 256 * c1 + c2) in *. set (c' := if c + 256 <? 65536 then c + 256 else c + 256 - 65535) in *.
  assert (p0 ≠ 0) as Hp0.
  { intros ->. unfold GetIPVersion in Hv. rewrite idx_packet, HP in Hv. by vm_compute in Hv. }
  pose proof (packet_bytes e' Hok') as Hbytes'.
  assert (be_encode 2 c' = [c' / 256; c' mod 256]) as Henc.
  { cbn. change (256 ^ 1) with 256. change (256 ^ 0) with 1. rewrite Z.div_1_r. f_equal. apply Z.mod_small.
    rewrite !Forall_cons in Hbytes. destruct Hbytes as (_ & _ & _ & _ & _ & _ & _ & _ & _ & _ & Hc1 & Hc2 & _).
    unfold is_byte, is_u8, in_width in *. unfold c', c. destruct (Z.ltb_spec (256 * c1 + c2 + 256) 65536);
    Z.to_euclidean_division_equations; lia. }
  rewrite Henc in HP'. cbn [app] in HP'. split.
  - unfold GetTTL, GetIPVersion. rewrite idx_packet, HP'. cbn [lookup list_lookup mbind option_bind].
    unfold GetIPVersion in Hv. rewrite idx_packet, HP in Hv. cbn [lookup list_lookup mbind option_bind] in Hv.
    injection Hv as ->. cbn [ttl_off Z.eqb Pos.eqb mbind option_bind].
    rewrite (sub_packet e' 8 (8 + 1)), HP' by (done || lia). done.
  - rewrite checksum_correct by (lia || by apply Forall_take). rewrite checksum_correct by (lia || by apply Forall_take).
    intros Hck. rewrite <-Hck. apply ones_sum_same. rewrite HP'.
    assert (∃ h, hlen = (12 + h)%nat) as [h ->] by (exists (hlen - 12)%nat; lia).
    cbn [Nat.add take word_sum].
    assert (0 <= word_sum (take h rest)) as Hpos.
    { rewrite word_sum_nsum. apply nsum_pos, Forall_take. rewrite !Forall_cons in Hbytes. tauto. }
    rewrite !Forall_cons in Hbytes. unfold is_byte, is_u8, in_width in Hbytes. destruct_and! Hbytes.
    pose proof (Z.div_mod c' 256 ltac:(lia)) as Hdm.
    assert (c' = c + 256 ∨ c' = c + 256 - 65535) as Hc' by (unfold c'; destruct (_ <? _); lia).
    match goal with |- same_sum ?new ?old => assert (new = old ∨ new = old - 1 * 65535) as Hnew by (unfold c in *; lia) end.
    match goal with |- same_sum ?new ?old => assert (0 < old) by (unfold c in *; lia); assert (0 < new) by
      (pose proof (Z.mod_pos_bound c' 256); assert (0 <= c' / 256) by (apply Z.div_pos; unfold c', c; destruct (Z.ltb_spec (256 * c1 + c2 + 256) 65536); lia); lia) end.
    unfold same_sum. split; [lia|]. split; [lia|]. split; [|lia].
    destruct Hnew as [->| ->]; [done|]. by rewrite <-Z.add_opp_r, <-Z.mul_opp_l, Z.mod_add by lia.
Qed.
