(* ===== verification/Unicast.v ===== *)
(** Node-to-node tunnels: the packet part of [core/nylon_unicast.go] (MPLS label-stack
    entries, exit encapsulation, label switching), the filters of [core/nylon_tc.go] with
    [state/default_excludes.go], and the classification of [TCBatch] in
    [polyamide/device/traffic_control.go].

    [None] is a Go panic. *)

From S2P Require Import Prelude Bytes NetIP Float64 Metric Routing RouterAlgo Config External RouterIO Packet.

Definition NyProtoId : Z := 8.
Definition NyUnicastProtoId : Z := 9.
Definition NyUnicastHeaderSize : nat := 1 + MplsLseLen.
Definition NyUnicastDefaultTTL : Z := 64.
Definition NyUnicastOffsetSubtype : nat := 0.
Definition NyUnicastOffsetLse : nat := 1.
Definition NyUnicastSubtypeMpls : Z := 1.
Definition EthPMplsUnicast : Z := 0x8847.

Inductive TCAction := TcPass | TcBounce | TcForward | TcDrop.

#[export] Instance TCAction_eq_dec : EqDecision TCAction.
Proof. solve_decision. Defined.

Definition TcNormalPriority : Z := 0.
Definition TcMediumPriority : Z := 1.
Definition TcHighPriority : Z := 2.

(** ** Label-stack entries *)

(** The four bytes written. *)
Definition encodeMplsLse (label tc : Z) (bos : bool) (ttl : Z) : list Z :=
  let s := if bos then 1 else 0 in
  be_encode 4 (Z.lor (Z.lor (Z.lor (uint32 (Z.shiftl (Z.land label 0xFFFFF) 12)) (Z.shiftl (Z.land tc 0x7) 9))
                        (Z.shiftl s 8)) ttl).

Definition decodeMplsLse (b : list Z) : Z * Z * bool * Z :=
  let v := be_decode (take MplsLseLen b) in
  (Z.shiftr v 12, uint8 (Z.land (Z.shiftr v 9) 0x7), Z.land (Z.shiftr v 8) 0x1 =? 1, uint8 v).

(** ** Encapsulation *)

(** An error is [Some None]. *)
Definition wrapExitPacket (e : TCElement) (exit : NodeIdNumeric) : option (option TCElement) :=
  if exit =? InvalidNodeIdNumeric then Some None
  else
    let inner := tc_Packet e in
    let headerLen := (PolyHeaderSize + NyUnicastHeaderSize)%nat in
    let totalLen := (headerLen + length inner)%nat in
    if (length (tc_Buffer e) - MessageTransportHeaderSize <? totalLen)%nat then Some None
    else
      let e := set_Packet e MessageTransportHeaderSize totalLen in
      e ← put e headerLen inner;
      e ← SetIPVersion e NyUnicastProtoId;
      e ← SetLength e (uint16 (Z.of_nat totalLen));
      ver ← GetIPVersion e;
      _ ← Payload e;
      e ← put_byte e (payload_off ver + NyUnicastOffsetSubtype) NyUnicastSubtypeMpls;
      e ← put e (payload_off ver + NyUnicastOffsetLse) (encodeMplsLse exit 0 true NyUnicastDefaultTTL);
      Some (Some e).

(** [None] is the error. *)
Definition packetAddr (packet : list Z) (src : bool) : option Addr :=
  match packet with
  | [] => None
  | b :: _ =>
      let ver := Z.shiftr b 4 in
      if ver =? 4 then
        let offset := if src then IPv4offsetSrc else IPv4offsetDst in
        if (length packet <? offset + net_IPv4len)%nat then None
        else Some (Addr4 (be_decode (slice offset (offset + net_IPv4len) packet)))
      else if ver =? 6 then
        let offset := if src then IPv6offsetSrc else IPv6offsetDst in
        if (length packet <? offset + net_IPv6len)%nat then None
        else Some (Addr6 (be_decode (slice offset (offset + net_IPv6len) packet)) "")
      else None
  end.

Definition packetSrc (packet : list Z) : option Addr := packetAddr packet true.
Definition packetDst (packet : list Z) : option Addr := packetAddr packet false.

(** [copy(packet.Packet[:len(bs)], bs); packet.Packet = packet.Packet[:len(bs)]]. *)
Definition repoint (e : TCElement) (bs : list Z) : option TCElement :=
  e ← put e 0 bs; Some (set_Packet e (tc_off e) (length bs)).

(** Action, whether an error is returned, and the packet. *)
Definition handleMplsPacket (snap : ExitFilterSnapshot) (e : TCElement) : option (TCAction * bool * TCElement) :=
  ver ← GetIPVersion e;
  payload ← Payload e;
  if (length payload <? NyUnicastHeaderSize)%nat then Some (TcDrop, true, e)
  else
    let '(label, _, bos, ttl) := decodeMplsLse (slice NyUnicastOffsetLse (NyUnicastOffsetLse + MplsLseLen) payload) in
    if ttl =? 0 then Some (TcDrop, true, e)
    else if negb (label =? ef_LocalIdNumeric snap) then
      match ef_NodeForward snap !! label with
      | Some entry =>
          match rte_Peer entry with
          | Some peer =>
              e ← put e (payload_off ver + NyUnicastOffsetLse + (MplsLseLen - 1)) [uint8 (ttl - 1)];
              Some (TcForward, false, set_route e (Some peer) TcMediumPriority)
          | None => Some (TcDrop, true, e)
          end
      | None => Some (TcDrop, true, e)
      end
    else if negb (ef_AdvertiseExitNode snap) then Some (TcDrop, true, e)
    else
      let rest := drop NyUnicastHeaderSize payload in
      match rest with
      | [] => Some (TcDrop, true, e)
      | _ =>
          if negb bos then
            if (length rest <? MplsLseLen)%nat then Some (TcDrop, true, e)
            else e ← repoint e rest; Some (TcBounce, false, set_L3Proto e EthPMplsUnicast)
          else
            match packetSrc rest, packetDst rest with
            | Some _, Some _ =>
                e ← repoint e rest;
                '(e, _) ← ParsePacket e;
                Some (TcBounce, false, e)
            | _, _ => Some (TcDrop, true, e)
            end
      end.

(** ** Addresses that never travel *)

Definition DefaultLocalIPv4Excludes : list Prefix :=
  [PrefixFrom (Addr4 0x7F000000) 8; PrefixFrom (Addr4 0xA9FE0000) 16; PrefixFrom (Addr4 0xE0000000) 4;
   PrefixFrom (Addr4 0xFFFFFFFF) 32].

Definition DefaultLocalExcludes : list Prefix :=
  DefaultLocalIPv4Excludes ++
  [PrefixFrom (Addr6 1 "") 128; PrefixFrom (Addr6 (0xfe80 * 2 ^ 112) "") 10; PrefixFrom (Addr6 (0xff00 * 2 ^ 112) "") 8].

Definition IsDefaultLocalExcludedAddr (addr : Addr) : bool := existsb (λ p, pfx_Contains p addr) DefaultLocalExcludes.

(** ** Filters *)

(** A filter may rewrite the packet; it returns an action and whether it failed.  The
    payload of a control packet it hands over comes out as well. *)
Record Verdict := mkVerdict { v_act : TCAction; v_err : bool; v_elem : TCElement; v_control : option (list Z) }.

Definition verdict (a : TCAction) (e : TCElement) : Verdict := mkVerdict a false e None.

Abbreviation TCFilter := (TCElement → option Verdict).

Definition TCFDrop : TCFilter := λ e, Some (verdict TcDrop e).
Definition TCFBounce : TCFilter := λ e, Some (verdict (if Incoming e then TcBounce else TcPass) e).

(** [lookup] is the lookup in the allowed-ips table of the device. *)
Definition TCFAllowedip (lookup : option (list Z) → option nat) : TCFilter := λ e,
  match tc_ToPeer e with
  | Some _ => Some (verdict TcForward e)
  | None =>
      dst ← GetDstBytes e;
      Some (match lookup dst with
            | Some peer => verdict TcForward (set_route e (Some peer) (tc_Priority e))
            | None => verdict TcPass e
            end)
  end.

Section filters.
Context {Ep : Type} `{LL : LinkLayer Ep} `{MR : MapRange} {T : Type → Type} `{BT : BartTable T}
  {C : Type → Type → Type} `{TC : TTLCache C}.
Implicit Types n : Nylon Ep T C.

Definition exit_encap_filter n : TCFilter := λ e,
  match ny_ExitFilter n with
  | None => Some (verdict TcPass e)
  | Some snap =>
      if ef_ExitNodeNumeric snap =? InvalidNodeIdNumeric then Some (verdict TcPass e)
      else if Incoming e then Some (verdict TcPass e)
      else
        valid ← Validate e;
        if negb valid then Some (verdict TcPass e)
        else
          ver ← GetIPVersion e;
          if negb (ver =? 4) && negb (ver =? 6) then Some (verdict TcPass e)
          else
            dst ← GetDst e;
            match bt_Lookup (ny_ForwardTable n) dst with
            | Some _ => Some (verdict TcPass e)
            | None =>
                if IsDefaultLocalExcludedAddr dst then Some (verdict TcDrop e)
                else
                  match ef_NodeForward snap !! ef_ExitNodeNumeric snap with
                  | Some entry =>
                      match rte_Peer entry with
                      | Some peer =>
                          _ ← GetSrc e;
                          r ← wrapExitPacket e (ef_ExitNodeNumeric snap);
                          Some (match r with
                                | None => verdict TcDrop e
                                | Some e => verdict TcForward (set_route e (Some peer) TcMediumPriority)
                                end)
                      | None => Some (verdict TcDrop e)
                      end
                  | None => Some (verdict TcDrop e)
                  end
            end
  end.

(** Bouncing everything that arrives, with system routing. *)
Definition system_bounce_filter : TCFilter := λ e, Some (verdict (if Incoming e then TcBounce else TcPass) e).

(** Forwarding by the routing table; with system routing only what leaves. *)
Definition forward_filter n (outgoingOnly : bool) : TCFilter := λ e,
  dst ← GetDst e;
  Some (match bt_Lookup (ny_ForwardTable n) dst with
        | Some entry =>
            if outgoingOnly && Incoming e then verdict TcPass e
            else if rte_Blackhole entry then verdict TcDrop e
            else verdict TcForward (set_route e (rte_Peer entry) (tc_Priority e))
        | None => verdict TcPass e
        end).

Definition ttl_filter : TCFilter := λ e,
  ver ← GetIPVersion e;
  if Incoming e && ((ver =? 4) || (ver =? 6)) then
    ttl ← GetTTL e;
    e ← (if 1 <=? ttl then DecrementTTL e else Some e);
    let ttl := if 1 <=? ttl then ttl - 1 else ttl in
    Some (verdict (if ttl =? 0 then TcBounce else TcPass) e)
  else Some (verdict TcPass e).

Definition exit_filter n : TCFilter := λ e,
  dst ← GetDst e;
  Some (verdict (match bt_Lookup (ny_ExitTable n) dst with
                 | Some entry => if bool_decide (rte_Nh entry = ny_LocalId n) then TcBounce else TcPass
                 | None => TcPass
                 end) e).

Definition control_filter : TCFilter := λ e,
  ver ← GetIPVersion e;
  if Incoming e && (ver =? NyProtoId) then
    payload ← Payload e;
    Some (mkVerdict TcDrop false e (Some payload))
  else Some (verdict TcPass e).

Definition mpls_filter n : TCFilter := λ e,
  ver ← GetIPVersion e;
  if negb (ver =? NyUnicastProtoId) then Some (verdict TcPass e)
  else
    match ny_ExitFilter n with
    | None => Some (verdict TcDrop e)
    | Some snap =>
        payload ← Payload e;
        if (length payload <? NyUnicastHeaderSize)%nat then Some (verdict TcDrop e)
        else
          sub ← payload !! NyUnicastOffsetSubtype;
          if negb (sub =? NyUnicastSubtypeMpls) then Some (verdict TcDrop e)
          else '(act, err, e) ← handleMplsPacket snap e; Some (mkVerdict act err e None)
    end.

(** The filters in the order of installation, after those of a new device. *)
Definition InstallTC (lookup : option (list Z) → option nat) n (useSystemRouting : bool) : list TCFilter :=
  [TCFDrop; TCFBounce; TCFAllowedip lookup; exit_encap_filter n] ++
  (if useSystemRouting then [system_bounce_filter; forward_filter n true] else [forward_filter n false; ttl_filter]) ++
  [exit_filter n; control_filter; mpls_filter n].

End filters.

(** The last filter installed runs first; an error drops the packet, and so does passing
    every filter. *)
Fixpoint run_filters (fs : list TCFilter) (e : TCElement) : option Verdict :=
  match fs with
  | [] => Some (verdict TcDrop e)
  | f :: fs' =>
      v ← f e;
      if v_err v then Some (mkVerdict TcDrop false (v_elem v) (v_control v))
      else match v_act v with
           | TcPass => run_filters fs' (v_elem v)
           | _ => Some v
           end
  end.

(** What [TCBatch] decides for one packet; forwarding needs a peer. *)
Definition classify (filters : list TCFilter) (e : TCElement) : option Verdict :=
  '(e, parsed) ← ParsePacket e;
  valid ← (if (parsed : bool) then Validate e else Some false);
  if negb valid then Some (verdict TcDrop e)
  else
    v ← run_filters (reverse filters) e;
    Some (match v_act v, tc_ToPeer (v_elem v) with
          | TcForward, None => mkVerdict TcDrop false (v_elem v) (v_control v)
          | _, _ => v
          end).
