(* ===== verification/UnicastProps.v ===== *)
(** Tunnels: label-stack entries round-trip, transit nodes touch nothing but the hop limit,
    and what enters a tunnel comes out of it. *)

From S2P Require Import Prelude Bytes NetIP Float64 Metric Routing RouterAlgo Config External RouterIO Packet PacketProps Unicast.

(** ** Label-stack entries *)

Lemma lor_low b a n : 0 <= n → 0 <= a < 2 ^ n → Z.lor (b * 2 ^ n) a = b * 2 ^ n + a.
Proof.
  intros Hn Ha. assert (Z.land (b * 2 ^ n) a = 0) as Hland.
  { apply Z.bits_inj'. intros i Hi. rewrite Z.land_spec, Z.bits_0.
    destruct (Z.ltb_spec i n).
    - by rewrite Z.mul_pow2_bits_low.
    - rewrite <-(Z.mod_small a (2 ^ n)) by done. by rewrite Z.mod_pow2_bits_high, andb_false_r by lia. }
  rewrite <-Z.lxor_lor by done. by rewrite <-Z.add_nocarry_lxor.
Qed.

(** Values that fit their fields. *)
Definition lse_ok (label tc ttl : Z) : Prop := 0 <= label < 2 ^ 20 ∧ 0 <= tc < 8 ∧ 0 <= ttl < 256.

Definition lse_word (label tc : Z) (bos : bool) (ttl : Z) : Z := label * 4096 + tc * 512 + Z.b2z bos * 256 + ttl.

Lemma encodeMplsLse_word label tc bos ttl : lse_ok label tc ttl →
  encodeMplsLse label tc bos ttl = be_encode 4 (lse_word label tc bos ttl).
Proof.
  intros (Hl & Htc & Ht). unfold encodeMplsLse, lse_word.
  change 0xFFFFF with (Z.ones 20). change 0x7 with (Z.ones 3). rewrite !Z.land_ones, !Z.mod_small by lia.
  rewrite !Z.shiftl_mul_pow2 by lia. rewrite (wrap_small 32) by (unfold in_width; lia).
  replace (if bos then 1 else 0) with (Z.b2z bos) by by destruct bos. f_equal.
  assert (0 <= Z.b2z bos <= 1) by (destruct bos; cbn; lia).
  rewrite (lor_low label (tc * 2 ^ 9) 12) by lia.
  replace (label * 2 ^ 12 + tc * 2 ^ 9) with ((label * 8 + tc) * 2 ^ 9) by lia.
  rewrite (lor_low _ (Z.b2z bos * 2 ^ 8) 9) by lia.
  replace ((label * 8 + tc) * 2 ^ 9 + Z.b2z bos * 2 ^ 8) with ((label * 16 + tc * 2 + Z.b2z bos) * 2 ^ 8) by lia.
  rewrite lor_low by lia. lia.
Qed.

Lemma decodeMplsLse_word b v : be_decode (take MplsLseLen b) = v → 0 <= v < 2 ^ 32 →
  decodeMplsLse b = (v / 4096, (v / 512) mod 8, Z.odd (v / 256), v mod 256).
Proof.
  intros Hd Hv. unfold decodeMplsLse. rewrite Hd. rewrite !Z.shiftr_div_pow2 by lia.
  change 0x7 with (Z.ones 3). change 0x1 with (Z.ones 1). rewrite !Z.land_ones by lia.
  rewrite (wrap_small 8 (_ mod 2 ^ 3)).
  - change (2 ^ 1) with 2. rewrite Zmod_odd. change (2 ^ 8) with 256. by destruct (Z.odd (v / 256)).
  - unfold in_width. pose proof (Z.mod_pos_bound (v / 2 ^ 9) (2 ^ 3) ltac:(lia)). lia.
Qed.

Lemma lse_word_fields label tc bos ttl : lse_ok label tc ttl →
  let v := lse_word label tc bos ttl in
  0 <= v < 2 ^ 32 ∧ v / 4096 = label ∧ (v / 512) mod 8 = tc ∧ Z.odd (v / 256) = bos ∧ v mod 256 = ttl.
Proof.
  intros (Hl & Htc & Ht). cbv zeta. unfold lse_word. assert (0 <= Z.b2z bos <= 1) by (destruct bos; cbn; lia).
  split; [lia|]. split; [symmetry; apply (Z.div_unique_pos _ _ _ (tc * 512 + Z.b2z bos * 256 + ttl)); lia|].
  split.
  { assert ((label * 4096 + tc * 512 + Z.b2z bos * 256 + ttl) / 512 = label * 8 + tc) as ->
      by (symmetry; apply (Z.div_unique_pos _ _ _ (Z.b2z bos * 256 + ttl)); lia).
    rewrite Z.add_comm, Z.mod_add, Z.mod_small by lia. done. }
  split.
  { assert ((label * 4096 + tc * 512 + Z.b2z bos * 256 + ttl) / 256 = Z.b2z bos + 2 * (label * 8 + tc)) as ->
      by (symmetry; apply (Z.div_unique_pos _ _ _ ttl); lia).
    rewrite Z.odd_add_mul_2. by destruct bos. }
  replace (label * 4096 + tc * 512 + Z.b2z bos * 256 + ttl) with (ttl + (label * 16 + tc * 2 + Z.b2z bos) * 256) by lia.
  by rewrite Z.mod_add, Z.mod_small by lia.
Qed.

Lemma decode_encode label tc bos ttl rest : lse_ok label tc ttl →
  decodeMplsLse (encodeMplsLse label tc bos ttl ++ rest) = (label, tc, bos, ttl).
Proof.
  intros Hok. destruct (lse_word_fields label tc bos ttl Hok) as (Hv & H1 & H2 & H3 & H4).
  rewrite encodeMplsLse_word by done. rewrite (decodeMplsLse_word _ (lse_word label tc bos ttl)); [congruence| |done].
  rewrite take_app_le, take_ge by (rewrite length_be_encode; done). apply be_decode_encode. done.
Qed.

(** MPLS label-stack entries round-trip: decoding what was encoded gives back the label,
    traffic class, bottom-of-stack bit and hop limit, and encoding the fields of any four
    bytes gives back the bytes. *)
Theorem mpls_lse_roundtrip :
  (∀ label tc bos ttl, lse_ok label tc ttl →
     decodeMplsLse (encodeMplsLse label tc bos ttl) = (label, tc, bos, ttl)) ∧
  (∀ b, Forall is_byte b → length b = 4%nat →
     let '(label, tc, bos, ttl) := decodeMplsLse b in lse_ok label tc ttl ∧ encodeMplsLse label tc bos ttl = b).
Proof.
  split.
  - intros label tc bos ttl Hok. pose proof (decode_encode label tc bos ttl [] Hok) as H. by rewrite app_nil_r in H.
  - intros b Hb Hlen. pose proof (be_decode_range b Hb) as Hr. rewrite Hlen in Hr. change (256 ^ Z.of_nat 4) with (2 ^ 32) in Hr.
    rewrite (decodeMplsLse_word b (be_decode b)) by (done || by rewrite take_ge by (rewrite Hlen; done)).
    assert (lse_ok (be_decode b / 4096) ((be_decode b / 512) mod 8) (be_decode b mod 256)) as Hok.
    { repeat split; try (apply Z.mod_pos_bound; lia); [apply Z.div_pos; lia|apply Z.div_lt_upper_bound; lia]. }
    split; [done|]. rewrite encodeMplsLse_word by done. rewrite <-Hlen.
    transitivity (be_encode (length b) (be_decode b)); [f_equal|by apply be_encode_decode].
    unfold lse_word. set (v := be_decode b) in *.
    assert (Z.b2z (Z.odd (v / 256)) = (v / 256) mod 2) as -> by (rewrite Zmod_odd; by destruct (Z.odd _)).
    change 4096 with (256 * (2 * 8)). change 512 with (256 * 2). rewrite <-!Z.div_div by lia.
    pose proof (Z.div_mod v 256). pose proof (Z.div_mod (v / 256) 2). pose proof (Z.div_mod (v / 256 / 2) 8). lia.
Qed.

(** ** Packets as byte strings *)

(** Parsing looks at the bytes of the packet only. *)
Lemma same_packet e e' v : tc_ok e → tc_ok e' → tc_Packet e' = tc_Packet e →
  GetIPVersion e = Some v → (payload_off v <= tc_len e)%nat →
  GetIPVersion e' = Some v ∧ GetLength e' = GetLength e ∧ hasPacketHeader e' = Some true.
Proof.
  intros Hok Hok' HP Hv Hlen.
  assert (tc_len e' = tc_len e) as Hl. { rewrite <-(length_packet e Hok), <-(length_packet e' Hok'). by rewrite HP. }
  assert (GetIPVersion e' = Some v) as Hv'. { rewrite <-Hv. unfold GetIPVersion. by rewrite !idx_packet, HP. }
  pose proof (payload_off_min v) as Hmin.
  assert (∀ lo hi, (lo <= hi <= payload_off v)%nat → sub e' lo hi = sub e lo hi) as Hsub.
  { intros lo hi H. rewrite !sub_packet by (done || lia). by rewrite HP. }
  split; [done|]. split.
  - unfold GetLength. rewrite Hv, Hv'. cbn [mbind option_bind]. unfold payload_off in Hsub.
    destruct (v =? 4); [|destruct (v =? 6)]; rewrite Hsub; try done;
      unfold IPv4offsetTotalLength, IPv6offsetPayloadLength, PolyOffsetPayloadLength, ipv4_HeaderLen, ipv6_HeaderLen, PolyHeaderSize; lia.
  - unfold hasPacketHeader, PolyHeaderSize. rewrite Hl. destruct (Nat.ltb_spec (tc_len e) 3); [lia|]. rewrite Hv'.
    cbn [mbind option_bind]. f_equal. unfold payload_off in Hlen.
    destruct (v =? 4); [by apply Nat.leb_le|]. destruct (v =? 6); [by apply Nat.leb_le|done].
Qed.

(** A packet whose length field is right parses as itself. *)
Lemma parse_id e v : tc_ok e → GetIPVersion e = Some v → (payload_off v <= tc_len e)%nat →
  GetLength e = Some (Z.of_nat (tc_len e)) → ParsePacket e = Some (e, true).
Proof.
  intros Hok Hv Hlen Hl. unfold ParsePacket. pose proof (payload_off_min v).
  destruct (Nat.eqb_spec (tc_len e) 0); [lia|]. cbn [andb].
  destruct (same_packet e e v Hok Hok eq_refl Hv Hlen) as (_ & _ & ->). cbn [mbind option_bind negb].
  rewrite Hl. cbn [mbind option_bind]. rewrite Nat2Z.id. destruct (Nat.ltb_spec (tc_len e) (tc_len e)); [lia|].
  by destruct e.
Qed.

(** A poly packet and its payload. *)
Lemma poly_fields e b0 h l pl : tc_ok e → tc_Packet e = b0 :: h :: l :: pl → Z.shiftr b0 4 ≠ 4 → Z.shiftr b0 4 ≠ 6 →
  GetIPVersion e = Some (Z.shiftr b0 4) ∧ payload_off (Z.shiftr b0 4) = 3%nat ∧ Payload e = Some pl.
Proof.
  intros Hok HP H4 H6.
  assert (GetIPVersion e = Some (Z.shiftr b0 4)) as Hv by (unfold GetIPVersion; by rewrite idx_packet, HP).
  assert (payload_off (Z.shiftr b0 4) = 3%nat) as Hoff.
  { unfold payload_off. apply Z.eqb_neq in H4, H6. by rewrite H4, H6. }
  split; [done|]. split; [done|]. unfold Payload. rewrite Hv. cbn [mbind option_bind]. rewrite Hoff.
  pose proof (length_packet e Hok) as Hl. rewrite HP in Hl. cbn in Hl.
  rewrite sub_packet, HP by (done || lia). rewrite <-Hl. unfold slice. cbn. by rewrite Nat.sub_0_r, drop_0, firstn_all.
Qed.

(** A tunnelled packet: poly header, subtype, label-stack entry and what it carries. *)
Definition tunnel (label tc : Z) (bos : bool) (ttl : Z) (rest : list Z) : list Z :=
  [0x90] ++ be_encode 2 (Z.of_nat (5 + length rest)) ++ [1] ++ encodeMplsLse label tc bos ttl ++ rest.

Lemma be_encode_snoc n z : be_encode (S n) z = be_encode n (z / 256) ++ [z mod 256].
Proof.
  induction n as [|n IH]; [cbn; by rewrite Z.div_1_r|].
  change (be_encode (S (S n)) z) with ((z / 256 ^ Z.of_nat (S n)) mod 256 :: be_encode (S n) z). rewrite IH. cbn [be_encode app].
  f_equal. f_equal. rewrite Z.div_div by lia. by rewrite Nat2Z.inj_succ, Z.pow_succ_r by lia.
Qed.

(** The hop limit is the last byte, and the other three do not depend on it. *)
Lemma lse_bytes label tc bos ttl : lse_ok label tc ttl →
  ∃ x y z, ∀ ttl', 0 <= ttl' < 256 → encodeMplsLse label tc bos ttl' = [x; y; z; ttl'].
Proof.
  intros (Hl & Htc & _). assert (0 <= Z.b2z bos <= 1) by (destruct bos; cbn; lia).
  destruct (be_encode 3 (label * 16 + tc * 2 + Z.b2z bos)) as [|x [|y [|z [|? ?]]]] eqn:E;
    pose proof (length_be_encode 3 (label * 16 + tc * 2 + Z.b2z bos)) as Hlen; rewrite E in Hlen; try done.
  exists x, y, z. intros ttl' Ht'. rewrite encodeMplsLse_word by done. rewrite be_encode_snoc.
  assert (lse_word label tc bos ttl' = (label * 16 + tc * 2 + Z.b2z bos) * 256 + ttl') as -> by (unfold lse_word; lia).
  rewrite Z.div_add_l, (Z.div_small ttl'), Z.add_0_r, E by lia.
  rewrite Z.add_comm, Z.mod_add, Z.mod_small by lia. done.
Qed.

Lemma tunnel_explicit label tc bos rest : lse_ok label tc 0 →
  ∃ h l x y z, ∀ ttl, 0 <= ttl < 256 → tunnel label tc bos ttl rest = 0x90 :: h :: l :: 1 :: x :: y :: z :: ttl :: rest ∧
    decodeMplsLse [x; y; z; ttl] = (label, tc, bos, ttl).
Proof.
  intros Hok. destruct (lse_bytes label tc bos 0 Hok) as (x & y & z & Hlse).
  destruct (be_encode 2 (Z.of_nat (5 + length rest))) as [|h [|l [|? ?]]] eqn:E;
    pose proof (length_be_encode 2 (Z.of_nat (5 + length rest))) as Hlen; rewrite E in Hlen; try done.
  exists h, l, x, y, z. intros ttl Ht. unfold tunnel. rewrite E, (Hlse ttl Ht). split; [done|].
  rewrite <-(Hlse ttl Ht). destruct Hok as (? & ? & _). pose proof (decode_encode label tc bos ttl [] ltac:(by split)) as H1.
  by rewrite app_nil_r in H1.
Qed.

(** ** Into, through and out of a tunnel *)

(** Writing over a slice of the packet, in the option monad. *)
Lemma put_bind {B} e lo bs (k : TCElement → option B) (Q : option B → Prop) :
  tc_ok e → Forall is_byte bs → (lo + length bs <= tc_len e)%nat →
  (∀ e', tc_ok e' → tc_len e' = tc_len e → tc_off e' = tc_off e → tc_Packet e' = write_at lo bs (tc_Packet e) → Q (k e')) →
  Q (e' ← put e lo bs; k e').
Proof.
  intros Hok Hb Hl Hk. destruct (put_ok e lo bs Hok Hb Hl) as (e' & -> & Hok' & HP & Hlen & Hoff & _). by apply Hk.
Qed.

Lemma put_byte_bind {B} e lo b (k : TCElement → option B) (Q : option B → Prop) :
  tc_ok e → is_byte b → (lo < tc_len e)%nat →
  (∀ e', tc_ok e' → tc_len e' = tc_len e → tc_off e' = tc_off e → tc_Packet e' = write_at lo [b] (tc_Packet e) → Q (k e')) →
  Q (e' ← put_byte e lo b; k e').
Proof.
  intros Hok Hb Hl Hk. unfold put_byte. destruct (Nat.ltb_spec lo (tc_len e)); [|lia].
  apply put_bind; [done|by rewrite Forall_singleton|cbn; lia|done].
Qed.

Lemma wrap_ok e exit : tc_ok e → 0 < exit < 2 ^ 20 → 8 + Z.of_nat (tc_len e) < 2 ^ 16 →
  (MessageTransportHeaderSize + (8 + tc_len e) <= length (tc_Buffer e))%nat →
  ∃ e1, wrapExitPacket e exit = Some (Some e1) ∧ tc_ok e1 ∧ tc_Packet e1 = tunnel exit 0 true 64 (tc_Packet e).
Proof.
  intros Hok Hexit Hmax Hfit. unfold wrapExitPacket. destruct (Z.eqb_spec exit InvalidNodeIdNumeric) as [E|_].
  { unfold InvalidNodeIdNumeric in E. lia. }
  change (PolyHeaderSize + NyUnicastHeaderSize)%nat with 8%nat. rewrite (length_packet e Hok).
  pose proof (packet_bytes e Hok) as Hinner. pose proof (length_packet e Hok) as Hilen. set (inner := tc_Packet e) in *.
  unfold MessageTransportHeaderSize in *. destruct (Nat.ltb_spec (length (tc_Buffer e) - 16) (8 + tc_len e)) as [|_]; [lia|].
  set (e0 := set_Packet e 16 (8 + tc_len e)).
  assert (tc_ok e0) as Hok0. { destruct Hok as (H1 & H2 & H3). split; [done|]. split; [|right]; unfold MessageTransportHeaderSize, e0; cbn [tc_off tc_len tc_Buffer set_Packet]; lia. }
  pose proof (length_packet e0 Hok0) as Hl0. change (tc_len e0) with (8 + tc_len e)%nat in Hl0.
  destruct (tc_Packet e0) as [|a0 [|a1 [|a2 [|a3 [|a4 [|a5 [|a6 [|a7 tl]]]]]]]] eqn:HP0; cbn in Hl0; try lia.
  apply put_bind; [done|done|rewrite Hilen; done|]. intros e1 Hok1 Hlen1 _ HP1. rewrite HP0 in HP1.
  unfold write_at in HP1. cbn in HP1. rewrite drop_ge, app_nil_r in HP1 by lia.
  change (tc_len e0) with (8 + tc_len e)%nat in Hlen1.
  unfold SetIPVersion. apply put_byte_bind; [done|by vm_compute|lia|]. intros e2 Hok2 Hlen2 _ HP2. rewrite HP1 in HP2.
  change (uint8 (NyUnicastProtoId ≪ 4)) with 0x90 in HP2. cbn in HP2. rewrite ?drop_0 in HP2.
  unfold SetLength. destruct (poly_fields e2 _ _ _ _ Hok2 HP2) as (Hv2 & _ & _); [done..|]. rewrite Hv2. cbn [mbind option_bind].
  rewrite (wrap_small 16 (Z.of_nat (8 + tc_len e))) by (unfold in_width; lia).
  change (0x90 ≫ 4) with 9. cbn [Z.eqb Pos.eqb].
  assert (uint16 (Z.of_nat (8 + tc_len e) - Z.of_nat PolyHeaderSize) = Z.of_nat (5 + length inner)) as ->.
  { rewrite Hilen. change (Z.of_nat PolyHeaderSize) with 3. rewrite wrap_small by (unfold in_width; lia). lia. }
  apply put_bind; [done|apply be_encode_bytes|rewrite length_be_encode; unfold PolyOffsetPayloadLength; lia|].
  intros e3 Hok3 Hlen3 _ HP3. rewrite HP2 in HP3.
  destruct (be_encode 2 (Z.of_nat (5 + length inner))) as [|h [|l [|? ?]]] eqn:Eb;
    pose proof (length_be_encode 2 (Z.of_nat (5 + length inner))) as Hbl; rewrite Eb in Hbl; try done.
  cbn in HP3. rewrite ?drop_0 in HP3.
  destruct (poly_fields e3 _ _ _ _ Hok3 HP3) as (Hv3 & Hoff & Hpl); [done..|]. rewrite Hv3. cbn [mbind option_bind].
  rewrite Hpl. cbn [mbind option_bind]. rewrite Hoff.
  apply put_byte_bind; [done|by vm_compute|unfold NyUnicastOffsetSubtype; lia|]. intros e4 Hok4 Hlen4 _ HP4. rewrite HP3 in HP4.
  cbn in HP4. rewrite ?drop_0 in HP4.
  assert (lse_ok exit 0 64) as Hlse by (unfold lse_ok; lia).
  apply put_bind; [done| |rewrite encodeMplsLse_word, length_be_encode by done; unfold NyUnicastOffsetLse; lia|].
  { rewrite encodeMplsLse_word by done. apply be_encode_bytes. }
  intros e5 Hok5 _ _ HP5. change NyUnicastDefaultTTL with 64 in HP5. exists e5. split; [done|]. split; [done|]. rewrite HP5, HP4. unfold tunnel. rewrite Eb.
  destruct (lse_bytes exit 0 true 64 Hlse) as (x & y & z & Henc). rewrite (Henc 64) by lia. unfold write_at. cbn. by rewrite ?drop_0.
Qed.

(** The decision on a well-framed packet that is not out of hops. *)
Lemma handle_tunnel snap e label tc bos ttl rest : tc_ok e → lse_ok label tc ttl → ttl ≠ 0 →
  tc_Packet e = tunnel label tc bos ttl rest →
  handleMplsPacket snap e =
  if negb (label =? ef_LocalIdNumeric snap) then
    match ef_NodeForward snap !! label with
    | Some entry =>
        match rte_Peer entry with
        | Some peer => e ← put e 7 [ttl - 1]; Some (TcForward, false, set_route e (Some peer) TcMediumPriority)
        | None => Some (TcDrop, true, e)
        end
    | None => Some (TcDrop, true, e)
    end
  else if negb (ef_AdvertiseExitNode snap) then Some (TcDrop, true, e)
  else
    match rest with
    | [] => Some (TcDrop, true, e)
    | _ =>
        if negb bos then
          if (length rest <? MplsLseLen)%nat then Some (TcDrop, true, e)
          else e ← repoint e rest; Some (TcBounce, false, set_L3Proto e EthPMplsUnicast)
        else
          match packetSrc rest, packetDst rest with
          | Some _, Some _ => e ← repoint e rest; '(e, _) ← ParsePacket e; Some (TcBounce, false, e)
          | _, _ => Some (TcDrop, true, e)
          end
    end.
Proof.
  intros Hok (Hl & Htc & Ht) Hne HP.
  destruct (tunnel_explicit label tc bos rest) as (h & l & x & y & z & Hexp); [by split|].
  destruct (Hexp ttl Ht) as [Htun Hdec]. rewrite Htun in HP.
  destruct (poly_fields e _ _ _ _ Hok HP) as (Hv & Hoff & Hpl); [done..|].
  unfold handleMplsPacket. rewrite Hv. cbn [mbind option_bind]. rewrite Hpl, Hoff. cbn [mbind option_bind].
  set (pl := 1 :: x :: y :: z :: ttl :: rest).
  change (length pl <? NyUnicastHeaderSize)%nat with false. cbv iota.
  change (slice NyUnicastOffsetLse (NyUnicastOffsetLse + MplsLseLen) pl) with [x; y; z; ttl].
  rewrite Hdec. destruct (Z.eqb_spec ttl 0); [done|]. change (drop NyUnicastHeaderSize pl) with rest.
  rewrite wrap_small by (unfold in_width; lia). done.
Qed.

(** A packet that is out of hops is dropped. *)
Lemma handle_expired snap e label tc bos rest : tc_ok e → lse_ok label tc 0 → tc_Packet e = tunnel label tc bos 0 rest →
  handleMplsPacket snap e = Some (TcDrop, true, e).
Proof.
  intros Hok Hlse HP. destruct (tunnel_explicit label tc bos rest Hlse) as (h & l & x & y & z & Hexp).
  destruct (Hexp 0) as [Htun Hdec]; [lia|]. rewrite Htun in HP.
  destruct (poly_fields e _ _ _ _ Hok HP) as (Hv & Hoff & Hpl); [done..|].
  unfold handleMplsPacket. rewrite Hv. cbn [mbind option_bind]. rewrite Hpl. cbn [mbind option_bind].
  set (pl := 1 :: x :: y :: z :: 0 :: rest). change (length pl <? NyUnicastHeaderSize)%nat with false. cbv iota.
  change (slice NyUnicastOffsetLse (NyUnicastOffsetLse + MplsLseLen) pl) with [x; y; z; 0]. by rewrite Hdec.
Qed.

(** A transit node lowers the hop limit, and changes nothing else. *)
Lemma transit_ok snap e label tc bos ttl rest r : tc_ok e → lse_ok label tc ttl →
  tc_Packet e = tunnel label tc bos ttl rest → label ≠ ef_LocalIdNumeric snap →
  handleMplsPacket snap e = Some (TcForward, false, r) →
  1 <= ttl ∧ tc_Packet r = tunnel label tc bos (ttl - 1) rest ∧
  ∃ entry, ef_NodeForward snap !! label = Some entry ∧ is_Some (rte_Peer entry) ∧ tc_ToPeer r = rte_Peer entry.
Proof.
  intros Hok Hlse HP Hlocal. pose proof Hlse as (Hl & Htc & Ht).
  destruct (decide (ttl = 0)) as [->|Hne]; [by rewrite (handle_expired snap e label tc bos rest Hok Hlse HP)|].
  rewrite (handle_tunnel snap e label tc bos ttl rest Hok Hlse Hne HP). apply Z.eqb_neq in Hlocal. rewrite Hlocal. cbn [negb].
  destruct (ef_NodeForward snap !! label) as [entry|]; [|done]. destruct (rte_Peer entry) as [peer|] eqn:Ep; [|done].
  destruct (tunnel_explicit label tc bos rest) as (h & l & x & y & z & Hexp); [by split|].
  destruct (Hexp ttl Ht) as [Htun _]. rewrite Htun in HP. pose proof (length_packet e Hok) as Hlen. rewrite HP in Hlen. cbn in Hlen.
  destruct (put_ok e 7 [ttl - 1] Hok) as (e' & -> & _ & HP' & _).
  { rewrite Forall_singleton. unfold is_byte, is_u8, in_width. lia. }
  { cbn [length]. lia. }
  cbn [mbind option_bind]. intros [= <-]. split; [lia|]. split; [|exists entry; by rewrite Ep].
  change (tc_Packet (set_route e' (Some peer) TcMediumPriority)) with (tc_Packet e').
  destruct (Hexp (ttl - 1)) as [-> _]; [lia|]. rewrite HP', HP. done.
Qed.

(** An IP packet as the TUN hands it over: its length field says how long it is. *)
Definition ip_packet (e : TCElement) : Prop :=
  tc_ok e ∧ GetLength e = Some (Z.of_nat (tc_len e)) ∧
  ∃ v, GetIPVersion e = Some v ∧ (v = 4 ∨ v = 6) ∧ (payload_off v <= tc_len e)%nat.

Lemma ip_packet_addr e src : ip_packet e → is_Some (packetAddr (tc_Packet e) src).
Proof.
  intros (Hok & _ & v & Hv & Hv46 & Hlen). pose proof (length_packet e Hok) as Hl. unfold GetIPVersion in Hv.
  rewrite idx_packet in Hv. unfold packetAddr. destruct (tc_Packet e) as [|b P] eqn:E; [done|].
  cbn in Hv. injection Hv as Hv. rewrite Hv, Hl. unfold payload_off, ipv4_HeaderLen, ipv6_HeaderLen in Hlen.
  unfold IPv4offsetSrc, IPv4offsetDst, IPv6offsetSrc, IPv6offsetDst, net_IPv4len, net_IPv6len.
  destruct Hv46 as [->| ->]; cbn [Z.eqb Pos.eqb] in *.
  - destruct (Nat.ltb_spec (tc_len e) ((if src then 12 else 16) + 4)); [destruct src; lia|done].
  - destruct (Nat.ltb_spec (tc_len e) ((if src then 8 else 24) + 16)); [destruct src; lia|done].
Qed.

Lemma packet_trim e l : (l <= tc_len e)%nat → tc_Packet (set_Packet e (tc_off e) l) = take l (tc_Packet e).
Proof. intros Hl. unfold tc_Packet. cbn [tc_off tc_len tc_Buffer set_Packet]. rewrite take_take. f_equal. lia. Qed.

(** The exit node takes the inner packet out. *)
Lemma exit_ok snap e tc ttl e0 : tc_ok e → ip_packet e0 → lse_ok (ef_LocalIdNumeric snap) tc ttl → 1 <= ttl →
  ef_AdvertiseExitNode snap = true → tc_Packet e = tunnel (ef_LocalIdNumeric snap) tc true ttl (tc_Packet e0) →
  ∃ r, handleMplsPacket snap e = Some (TcBounce, false, r) ∧ tc_Packet r = tc_Packet e0 ∧ tc_off r = tc_off e.
Proof.
  intros Hok Hip Hlse Httl Hadv HP. pose proof Hip as (Hok0 & Hlen0 & v & Hv0 & Hv46 & Hpl0).
  rewrite (handle_tunnel snap e _ tc true ttl (tc_Packet e0) Hok Hlse) by (done || lia).
  rewrite Z.eqb_refl, Hadv. cbn [negb]. unfold packetSrc, packetDst.
  destruct (ip_packet_addr e0 true Hip) as [src ->]. destruct (ip_packet_addr e0 false Hip) as [dst ->].
  pose proof (length_packet e Hok) as Hlen. pose proof (length_packet e0 Hok0) as Hinl. pose proof (packet_bytes e0 Hok0) as Hinb.
  assert (length (tc_Packet e0) <= tc_len e)%nat as Hfit.
  { rewrite <-Hlen, HP. unfold tunnel. rewrite !length_app. lia. }
  destruct (tc_Packet e0) as [|i0 inner'] eqn:Ein; [cbn in Hinl; pose proof (payload_off_min v); lia|]. rewrite <-Ein in *.
  unfold repoint. destruct (put_ok e 0 (tc_Packet e0) Hok Hinb Hfit) as (e1 & -> & Hok1 & HP1 & Hl1 & Hoff1 & _).
  cbn [mbind option_bind]. set (e2 := set_Packet e1 (tc_off e1) (length (tc_Packet e0))).
  assert (tc_ok e2) as Hok2.
  { destruct Hok1 as (H1 & H2 & H3). split; [done|]. split; [|done]. cbn [tc_off tc_len tc_Buffer e2 set_Packet]. lia. }
  assert (tc_Packet e2 = tc_Packet e0) as HP2.
  { unfold e2. rewrite packet_trim, HP1 by lia. unfold write_at. rewrite take_0. cbn [app]. rewrite take_app_le by lia. apply firstn_all. }
  destruct (same_packet e0 e2 v Hok0 Hok2 HP2 Hv0 Hpl0) as (Hv2 & Hgl & _).
  rewrite (parse_id e2 v Hok2 Hv2).
  - cbn [mbind option_bind]. exists e2. by split; [|split].
  - cbn [tc_len e2 set_Packet]. lia.
  - rewrite Hgl, Hlen0. cbn [tc_len e2 set_Packet]. by rewrite Hinl.
Qed.

(** A journey through transit nodes, given by their snapshots; every node receives the bytes
    the previous one sent, in a buffer of its own. *)
Inductive transits (label : Z) : list ExitFilterSnapshot → TCElement → TCElement → Prop :=
| transits_nil e : tc_ok e → transits label [] e e
| transits_cons snap path e r e' e'' :
    label ≠ ef_LocalIdNumeric snap → tc_ok e → handleMplsPacket snap e = Some (TcForward, false, r) →
    tc_Packet e' = tc_Packet r → transits label path e' e'' → transits label (snap :: path) e e''.

Lemma transits_spec label tc bos rest path e e' ttl :
  transits label path e e' → lse_ok label tc ttl → tc_Packet e = tunnel label tc bos ttl rest →
  Z.of_nat (length path) <= ttl ∧ tc_ok e' ∧ tc_Packet e' = tunnel label tc bos (ttl - Z.of_nat (length path)) rest.
Proof.
  intros H. revert ttl. induction H as [e Hok|snap path e r e' e'' Hne Hok Hh HP' _ IH]; intros ttl Hlse HP.
  - destruct Hlse as (_ & _ & Ht). cbn. rewrite Z.sub_0_r. by split; [lia|].
  - destruct (transit_ok snap e label tc bos ttl rest r Hok Hlse HP Hne Hh) as (H1 & HPr & _).
    destruct (IH (ttl - 1)) as (H2 & Hok'' & HP''); [unfold lse_ok in *; lia|congruence|].
    cbn [length]. split; [lia|]. split; [done|]. rewrite HP''. f_equal. lia.
Qed.

(** label switching terminates: a well-framed packet is forwarded at most as many times as
    its hop limit says, so no configuration of transit nodes can make it circle for ever. *)
Theorem mpls_hops_bounded label tc bos ttl rest path e e' :
  lse_ok label tc ttl → tc_Packet e = tunnel label tc bos ttl rest → transits label path e e' →
  (length path <= 255)%nat ∧ Z.of_nat (length path) <= ttl.
Proof.
  intros Hlse HP Ht. destruct (transits_spec _ _ _ _ _ _ _ _ Ht Hlse HP) as [H _]. destruct Hlse as (_ & _ & ?). lia.
Qed.

(** C19: what enters a tunnel comes out of it: an IP packet wrapped for an exit node, carried by
    fewer than 64 transit nodes, is handed to the exit node's own stack byte for byte as
    it was, and never travels more than 64 hops. *)
Theorem exit_tunnel_delivers e0 e1 exit path e2 snap :
  ip_packet e0 → 0 < exit < 2 ^ 20 → Z.of_nat (length (tc_Buffer e0)) < 2 ^ 16 →
  wrapExitPacket e0 exit = Some (Some e1) → transits exit path e1 e2 →
  ef_LocalIdNumeric snap = exit → ef_AdvertiseExitNode snap = true →
  (length path <= 64)%nat ∧
  ((length path < 64)%nat →
   ∃ r, handleMplsPacket snap e2 = Some (TcBounce, false, r) ∧ tc_Packet r = tc_Packet e0).
Proof.
  intros Hip Hexit Hmax Hw Ht Hlocal Hadv. pose proof Hip as (Hok0 & _).
  assert (MessageTransportHeaderSize + (8 + tc_len e0) <= length (tc_Buffer e0))%nat as Hfit.
  { unfold wrapExitPacket in Hw. rewrite (length_packet e0 Hok0) in Hw. case_hyp Hw; [done|].
    destruct (Nat.ltb_spec (length (tc_Buffer e0) - MessageTransportHeaderSize)
      (PolyHeaderSize + NyUnicastHeaderSize + tc_len e0)) as [|Hge]; [done|].
    unfold PolyHeaderSize, NyUnicastHeaderSize, MplsLseLen, MessageTransportHeaderSize in *. lia. }
  destruct (wrap_ok e0 exit Hok0 Hexit) as (e1' & Hw' & Hok1 & HP1); [unfold MessageTransportHeaderSize in Hfit; lia|done|].
  rewrite Hw in Hw'. injection Hw' as <-. assert (lse_ok exit 0 64) as Hlse by (unfold lse_ok; lia).
  destruct (transits_spec _ _ _ _ _ _ _ _ Ht Hlse HP1) as (Hle & Hok2 & HP2). split; [lia|]. intros Hlt.
  destruct (exit_ok snap e2 0 (64 - Z.of_nat (length path)) e0) as (r & Hr & HPr & _); try done.
  - unfold lse_ok in *. lia.
  - lia.
  - by rewrite Hlocal.
  - by exists r.
Qed.

(** ** Framing MPLS packets from the TUN *)

(** The bytes of a framed packet. *)
Lemma frame_bytes e size : (MplsLseLen <= size)%nat → (MessageTransportHeaderSize + size + 4 <= length (tc_Buffer e))%nat →
  let '(e', size') := FrameMplsUnicast e MessageTransportHeaderSize size NyUnicastProtoId NyUnicastSubtypeMpls in
  size' = (size + 4)%nat ∧ length (tc_Buffer e') = length (tc_Buffer e) ∧
  (Forall is_byte (tc_Buffer e) → Forall is_byte (tc_Buffer e')) ∧
  tc_Packet (set_Packet e' MessageTransportHeaderSize size') =
    [0x90] ++ be_encode 2 (uint16 (Z.of_nat size + 1)) ++ [1] ++
    slice MessageTransportHeaderSize (MessageTransportHeaderSize + size) (tc_Buffer e).
Proof.
  intros Hsize Hfit. unfold FrameMplsUnicast, MplsLseLen, MessageTransportHeaderSize, PolyHeaderSize, PolyOffsetPayloadLength in *.
  destruct (Nat.ltb_spec size 4) as [|_]; [lia|].
  destruct (Nat.ltb_spec (length (tc_Buffer e)) (16 + size + (3 + 1))) as [|_]; [lia|].
  destruct (be_encode 2 (uint16 (Z.of_nat size + 1))) as [|h [|l [|? ?]]] eqn:Eb;
    pose proof (length_be_encode 2 (uint16 (Z.of_nat size + 1))) as Hbl; rewrite Eb in Hbl; try done.
  pose proof (be_encode_bytes 2 (uint16 (Z.of_nat size + 1))) as Hbb. rewrite Eb in Hbb.
  assert (length (slice 16 (16 + size) (tc_Buffer e)) = size) as Hsl by (rewrite length_slice; lia).
  set (B := tc_Buffer e) in *. set (orig := slice 16 (16 + size) B) in *.
  change (uint8 (NyUnicastProtoId ≪ 4)) with 0x90. change (uint8 NyUnicastSubtypeMpls) with 1.
  set (B1 := write_at (16 + (3 + 1)) orig B). set (B2 := write_at 16 [0x90] B1). set (B3 := write_at (16 + 1) [h; l] B2).
  assert (length B1 = length B) as H1 by (apply length_write_at; lia).
  assert (length B2 = length B) as H2 by (unfold B2; rewrite length_write_at; cbn [length]; lia).
  assert (length B3 = length B) as H3 by (unfold B3; rewrite length_write_at; cbn [length]; lia).
  cbn [tc_Buffer set_Buffer]. split; [lia|]. split; [rewrite length_write_at; cbn [length]; lia|]. split.
  { intros Hb. apply write_at_bytes; [by rewrite Forall_singleton|]. apply write_at_bytes; [done|].
    apply write_at_bytes; [by rewrite Forall_singleton|]. apply write_at_bytes; [by apply slice_bytes|done]. }
  apply list_eq. intros i. rewrite packet_lookup. cbn [tc_off tc_len tc_Buffer set_Packet set_Buffer].
  rewrite lookup_write_at by (cbn [length]; lia). unfold B3. rewrite lookup_write_at by (cbn [length]; lia).
  unfold B2. rewrite lookup_write_at by (cbn [length]; lia). unfold B1. rewrite lookup_write_at by lia. cbn [length].
  destruct i as [|[|[|[|i]]]]; repeat case_decide; try lia; try done.
  - cbn [app lookup list_lookup]. f_equal. lia.
  - symmetry. apply lookup_ge_None_2. cbn [app length]. lia.
Qed.

Lemma validate_id e v : tc_ok e → GetIPVersion e = Some v → (payload_off v <= tc_len e)%nat →
  GetLength e = Some (Z.of_nat (tc_len e)) → Validate e = Some true.
Proof.
  intros Hok Hv Hlen Hl. unfold Validate. pose proof (payload_off_min v).
  destruct (Nat.eqb_spec (tc_len e) 0); [lia|].
  destruct (same_packet e e v Hok Hok eq_refl Hv Hlen) as (_ & _ & ->). cbn [mbind option_bind negb].
  rewrite Hv, Hl. cbn [mbind option_bind]. f_equal. apply Z.leb_le. lia.
Qed.

(** an MPLS packet read from the TUN is framed as a well-formed tunnel packet: it parses and
    validates, keeps its bytes, and carries the protocol number and subtype it is switched
    by; its true length is in the header. *)
Theorem frame_mpls_wellformed e size : Forall is_byte (tc_Buffer e) →
  Z.of_nat (length (tc_Buffer e)) < 2 ^ 16 → (MplsLseLen <= size)%nat →
  (MessageTransportHeaderSize + size + 4 <= length (tc_Buffer e))%nat →
  let '(e', size') := FrameMplsUnicast e MessageTransportHeaderSize size NyUnicastProtoId NyUnicastSubtypeMpls in
  let r := set_Packet e' MessageTransportHeaderSize size' in
  ParsePacket r = Some (r, true) ∧ Validate r = Some true ∧ GetIPVersion r = Some NyUnicastProtoId ∧
  Payload r = Some (NyUnicastSubtypeMpls :: slice MessageTransportHeaderSize (MessageTransportHeaderSize + size) (tc_Buffer e)).
Proof.
  intros Hb Hmax Hsize Hfit. pose proof (frame_bytes e size Hsize Hfit) as HF.
  destruct (FrameMplsUnicast _ _ _ _ _) as [e' size']. destruct HF as (-> & Hlen & Hbytes & HP). cbv zeta.
  set (r := set_Packet e' MessageTransportHeaderSize (size + 4)) in *.
  unfold MessageTransportHeaderSize, MplsLseLen in *.
  assert (tc_ok r) as Hok.
  { split; [by apply Hbytes|]. unfold MessageTransportHeaderSize, r. cbn [tc_off tc_len tc_Buffer set_Packet].
    split; [lia|right; lia]. }
  pose proof (be_decode_encode 2 (uint16 (Z.of_nat size + 1))) as Hde.
  rewrite wrap_small in HP, Hde by (unfold in_width; lia). specialize (Hde ltac:(lia)).
  destruct (be_encode 2 (Z.of_nat size + 1)) as [|h [|l [|? ?]]] eqn:Eb;
    pose proof (length_be_encode 2 (Z.of_nat size + 1)) as Hbl; rewrite Eb in Hbl; try done.
  cbn [app] in HP. destruct (poly_fields r _ _ _ _ Hok HP) as (Hv & Hoff & Hpl); [done..|]. change (0x90 ≫ 4) with 9 in *.
  assert (tc_len r = (size + 4)%nat) as Hrl by done.
  assert (GetLength r = Some (Z.of_nat (tc_len r))) as Hgl.
  { unfold GetLength. rewrite Hv. cbn [mbind option_bind Z.eqb Pos.eqb].
    rewrite sub_packet by (done || rewrite Hrl; unfold PolyOffsetPayloadLength; lia). rewrite HP. cbn [mbind option_bind].
    change (slice PolyOffsetPayloadLength (PolyOffsetPayloadLength + 2) _) with [h; l]. rewrite Hde, Hrl.
    change (Z.of_nat PolyHeaderSize) with 3. rewrite wrap_small by (unfold in_width; lia). f_equal. lia. }
  split; [apply (parse_id r 9)|split; [apply (validate_id r 9)|]]; try done; rewrite ?Hoff, ?Hrl; lia.
Qed.
