(* ===== verification/DataPlane.v ===== *)
(** The decision of the traffic-control filters on an IP packet, at a node whose forwarding
    tables follow its routes. *)

From S2P Require Import Prelude Bytes NetIP Float64 Metric Routing RouterAlgo RouterProps Config External RouterIO Forwarding RouterEvents Packet PacketProps Unicast UnicastProps Checksum.

(** ** Writing one field leaves the others *)

Lemma put_fields e lo bs e' : (0 < lo)%nat → put e lo bs = Some e' →
  GetIPVersion e' = GetIPVersion e ∧
  (∀ a b, (b <= lo ∨ lo + length bs <= a)%nat → sub e' a b = sub e a b) ∧
  tc_FromPeer e' = tc_FromPeer e ∧ tc_ToPeer e' = tc_ToPeer e ∧ tc_len e' = tc_len e.
Proof.
  intros Hlo. unfold put. destruct (Nat.leb_spec (tc_off e + lo + length bs) (length (tc_Buffer e))) as [Hfit|]; [|done].
  intros [= <-]. split; [|split; [|done]].
  - unfold GetIPVersion, idx. cbn [tc_len tc_Buffer tc_off set_Buffer]. destruct (0 <? tc_len e)%nat; [|done].
    rewrite lookup_write_at by lia. by rewrite decide_False by lia.
  - intros a b Hd. unfold sub. cbn [tc_len tc_Buffer tc_off set_Buffer]. rewrite length_write_at by lia.
    destruct (_ && _); [|done]. by rewrite slice_write_at_ne by lia.
Qed.

(** Decrementing the hop limit changes neither the version nor the addresses. *)
Lemma decrement_fields e v ttl : ip_packet e → GetIPVersion e = Some v → GetTTL e = Some ttl →
  ∃ e', DecrementTTL e = Some e' ∧ GetIPVersion e' = Some v ∧ GetDst e' = GetDst e ∧
    tc_FromPeer e' = tc_FromPeer e ∧ tc_ToPeer e' = tc_ToPeer e.
Proof.
  intros (Hok & _ & v' & Hv' & Hv46 & Hlen) Hv Httl. rewrite Hv in Hv'. injection Hv' as <-.
  unfold GetTTL in Httl. unfold DecrementTTL. rewrite Hv in *. cbn [mbind option_bind] in *.
  unfold payload_off, ipv4_HeaderLen, ipv6_HeaderLen in Hlen.
  assert (∀ e', GetIPVersion e' = Some v → (∀ a b, (12 <= a)%nat → sub e' a b = sub e a b) → GetDst e' = GetDst e) as Hdst.
  { intros e' Hve' Hsub. unfold GetDst, GetDstBytes. rewrite Hv, Hve'. cbn [mbind option_bind].
    rewrite !Hsub by (unfold IPv4offsetDst, IPv6offsetDst; lia). done. }
  assert (∀ b, is_byte (uint8 b)) as Hbyte by (intros; by apply wrap_range).
  destruct Hv46 as [->| ->]; cbn [ttl_off Z.eqb Pos.eqb mbind option_bind] in *.
  - destruct (sub e 8 (8 + 1)) as [b|]; [|done]. cbn [mbind option_bind] in *. rewrite Httl. cbn [mbind option_bind].
    destruct (put_ok e 8 [uint8 (ttl - 1)] Hok) as (e1 & H1 & Hok1 & _ & Hl1 & _); [by rewrite Forall_singleton|cbn [length]; lia|].
    rewrite H1. cbn [mbind option_bind]. destruct (put_fields e 8 _ e1 ltac:(lia) H1) as (Hv1 & Hs1 & Hf1 & Ht1 & _).
    destruct (sub_ok e1 10 12 Hok1) as (c & -> & _); [lia|]. cbn [mbind option_bind].
    match goal with |- context [put e1 10 ?bs] => destruct (put_ok e1 10 bs Hok1) as (e2 & H2 & _) end;
      [apply be_encode_bytes|rewrite length_be_encode; lia|].
    rewrite H2. destruct (put_fields e1 10 _ e2 ltac:(lia) H2) as (Hv2 & Hs2 & Hf2 & Ht2 & _). rewrite length_be_encode in Hs2.
    exists e2. split; [done|]. split; [congruence|]. split; [|split; congruence].
    apply Hdst; [congruence|]. intros a b' Ha. rewrite Hs2, Hs1 by (cbn [length]; lia). done.
  - destruct (sub e 7 (7 + 1)) as [b|]; [|done]. cbn [mbind option_bind] in *. rewrite Httl. cbn [mbind option_bind].
    destruct (put_ok e 7 [uint8 (ttl - 1)] Hok) as (e1 & H1 & Hok1 & _ & Hl1 & _); [by rewrite Forall_singleton|cbn [length]; lia|].
    rewrite H1. cbn [mbind option_bind]. destruct (put_fields e 7 _ e1 ltac:(lia) H1) as (Hv1 & Hs1 & Hf1 & Ht1 & _).
    exists e1. split; [done|]. split; [congruence|]. split; [|by split].
    apply Hdst; [congruence|]. intros a b' Ha. by rewrite Hs1 by (cbn [length]; lia).
Qed.

Section dataplane.
Context {Ep : Type} `{LL : LinkLayer Ep} `{MR : MapRange} {T : Type → Type} `{BT : BartTable T} `{BTL : !BartTableLaws T}
  {C : Type → Type → Type} `{TC : TTLCache C}.
Implicit Types n : Nylon Ep T C.

(** The first filters to run let an IP packet pass. *)
Lemma ip_first_filters n e v dst : ip_packet e → GetIPVersion e = Some v → GetDst e = Some dst →
  ∀ fs, run_filters ([mpls_filter n; control_filter; exit_filter n] ++ fs) e =
  match bt_Lookup (ny_ExitTable n) dst with
  | Some en => if bool_decide (rte_Nh en = ny_LocalId n) then Some (verdict TcBounce e) else run_filters fs e
  | None => run_filters fs e
  end.
Proof.
  intros (Hok & _ & v' & Hv' & Hv46 & _) Hv Hd fs. rewrite Hv in Hv'. injection Hv' as <-.
  assert (v ≠ 9 ∧ v ≠ 8) as [H9 H8] by (destruct Hv46 as [->| ->]; done).
  cbn [app run_filters]. unfold mpls_filter. rewrite Hv. cbn [mbind option_bind].
  apply Z.eqb_neq in H9, H8. unfold NyUnicastProtoId. rewrite H9. cbn [negb mbind option_bind v_err v_act v_elem verdict].
  unfold control_filter. rewrite Hv. cbn [mbind option_bind]. unfold NyProtoId. rewrite H8, andb_false_r.
  cbn [mbind option_bind v_err v_act v_elem verdict]. unfold exit_filter. rewrite Hd. cbn [mbind option_bind].
  destruct (bt_Lookup _ dst) as [en|]; [|done]. by case_bool_decide.
Qed.

(** An exit entry belongs to the local node. *)
Lemma exit_entry_local n dst en : good n → bt_Lookup (ny_ExitTable n) dst = Some en → rte_Nh en = ny_LocalId n.
Proof.
  intros Hm%good_mirror (p & Hp & _ & Hg & _)%bt_Lookup_Some. specialize (Hm p Hp). unfold mirrors in Hm. rewrite Hg in Hm.
  destruct (rs_Routes (ny_rs n) !! p) as [r|]; [|by destruct Hm].
  destruct Hm as (_ & _ & Hx). unfold exit_of, is_exit in Hx. destruct (_ && _) eqn:E; [|done].
  to_prop. unfold entry_of in Hx. repeat case_hyp Hx; simplify_eq; try done.
  destruct (GetNode _ _); [|done]. by injection Hx as ->.
Qed.

(** Forwarding needs a peer. *)
Definition needs_peer (v : Verdict) : Verdict :=
  match v_act v, tc_ToPeer (v_elem v) with
  | TcForward, None => mkVerdict TcDrop false (v_elem v) (v_control v)
  | _, _ => v
  end.

Lemma classify_ip filters e : ip_packet e →
  classify filters e =
  v ← run_filters (reverse filters) e;
  Some (needs_peer v).
Proof.
  intros (Hok & Hl & v & Hv & _ & Hpl). unfold classify. rewrite (parse_id e v Hok Hv Hpl Hl). cbn [mbind option_bind].
  by rewrite (validate_id e v Hok Hv Hpl Hl).
Qed.

(** The hop-limit filter on an IP packet. *)
Lemma ttl_filter_ip e v ttl : ip_packet e → GetIPVersion e = Some v → GetTTL e = Some ttl →
  ∃ e', ttl_filter e = Some (verdict (if Incoming e && (ttl <=? 1) then TcBounce else TcPass) e') ∧
    GetDst e' = GetDst e ∧ tc_FromPeer e' = tc_FromPeer e ∧ tc_ToPeer e' = tc_ToPeer e.
Proof.
  intros Hip Hv Httl. pose proof Hip as (Hok & _ & v' & Hv' & Hv46 & _). rewrite Hv in Hv'. injection Hv' as <-.
  assert ((v =? 4) || (v =? 6) = true) as Hver by (by destruct Hv46 as [->| ->]).
  assert (0 <= ttl) as Hpos.
  { unfold GetTTL in Httl. rewrite Hv in Httl. cbn [mbind option_bind] in Httl. destruct (ttl_off v); [|done]. cbn in Httl.
    unfold sub in Httl. case_hyp Httl; [|done]. cbn in Httl. apply head_Some_elem_of in Httl.
    destruct Hok as (Hb & _). pose proof (slice_bytes (tc_off e + n) (tc_off e + (n + 1)) _ Hb) as Hsb.
    rewrite Forall_forall in Hsb. apply Hsb in Httl. unfold is_byte, is_u8, in_width in Httl. lia. }
  unfold ttl_filter. rewrite Hv. cbn [mbind option_bind]. rewrite Hver, andb_true_r. destruct (Incoming e); [|by exists e].
  rewrite Httl. cbn [mbind option_bind andb]. destruct (Z.leb_spec 1 ttl) as [Hge|Hlt].
  - destruct (decrement_fields e v ttl Hip Hv Httl) as (e' & -> & _ & Hd & Hf & Ht). cbn [mbind option_bind].
    exists e'. split; [|done]. do 3 f_equal. destruct (Z.eqb_spec (ttl - 1) 0), (Z.leb_spec ttl 1); done || lia.
  - cbn [mbind option_bind]. exists e. split; [|done]. do 3 f_equal.
    destruct (Z.eqb_spec ttl 0), (Z.leb_spec ttl 1); done || lia.
Qed.

(** The verdict a route asks for: drop without a usable one or without a peer for its next
    hop, and else forward to that peer. *)
Definition by_route n (sel : option SelRoute) (r : Verdict) : Prop :=
  match sel with
  | Some sel =>
      if sr_Metric sel =? INF then v_act r = TcDrop
      else ∃ node, GetNode (ny_CentralCfg n) (sr_Nh sel) = Some node ∧
        match LookupPeer n (nc_PubKey node) with
        | Some peer => v_act r = TcForward ∧ tc_ToPeer (v_elem r) = Some peer
        | None => v_act r = TcDrop
        end
  | None => v_act r = TcDrop
  end.

(** The forwarding filter decides as the route asks for. *)
Lemma forward_decides n dst en p (out : bool) e fs : bt_Lookup (ny_ForwardTable n) dst = Some en →
  match rs_Routes (ny_rs n) !! p with Some r => entry_of n r = Some en | None => rte_Blackhole en = true end →
  GetDst e = Some dst → out && Incoming e = false →
  ∃ r, (v ← run_filters (forward_filter n out :: fs) e; Some (needs_peer v)) = Some r ∧ by_route n (rs_Routes (ny_rs n) !! p) r.
Proof.
  intros Hen Hsel Hd Hout. cbn [run_filters]. unfold forward_filter. rewrite Hd. cbn [mbind option_bind]. rewrite Hen, Hout.
  assert (rte_Blackhole en = true → ∃ r, Some (needs_peer (verdict TcDrop e)) = Some r ∧ v_act r = TcDrop) as Hdrop by (intros; by eexists).
  destruct (rs_Routes (ny_rs n) !! p) as [sel|]; [|rewrite Hsel; by apply Hdrop]. unfold entry_of in Hsel. cbn [by_route].
  destruct (sr_Metric sel =? INF); [injection Hsel as <-; by apply Hdrop|].
  destruct (GetNode _ _) as [node|]; [|done]. cbn in Hsel. injection Hsel as <-. cbn [rte_Blackhole rte_Peer mbind option_bind v_err v_act v_elem verdict].
  eexists. split; [done|]. exists node. split; [done|]. unfold needs_peer. cbn [v_act v_elem verdict tc_ToPeer set_route].
  by destruct (LookupPeer _ _).
Qed.


(** traffic for destinations outside the overlay, at a node that uses an exit node: loopback,
    link-local and multicast destinations are dropped, and everything else leaves in a
    tunnel to the exit node, over the peer that the exit snapshot names. *)
Theorem exit_encapsulation lookup n e v dst ttl snap en peer :
  ip_packet e → GetIPVersion e = Some v → GetDst e = Some dst → GetTTL e = Some ttl →
  Incoming e = false → bt_Lookup (ny_ForwardTable n) dst = None → bt_Lookup (ny_ExitTable n) dst = None →
  ny_ExitFilter n = Some snap → 0 < ef_ExitNodeNumeric snap < 2 ^ 20 →
  ef_NodeForward snap !! ef_ExitNodeNumeric snap = Some en → rte_Peer en = Some peer →
  Z.of_nat (length (tc_Buffer e)) < 2 ^ 16 →
  (MessageTransportHeaderSize + (8 + tc_len e) <= length (tc_Buffer e))%nat →
  ∃ r, classify (InstallTC lookup n false) e = Some r ∧
    if IsDefaultLocalExcludedAddr dst then v_act r = TcDrop
    else v_act r = TcForward ∧ tc_ToPeer (v_elem r) = Some peer ∧
      tc_Packet (v_elem r) = tunnel (ef_ExitNodeNumeric snap) 0 true NyUnicastDefaultTTL (tc_Packet e).
Proof.
  intros Hip Hv Hd Httl Hinc Hfw Hex Hsnap Hid Hen Hpeer Hmax Hfit. rewrite classify_ip by done. unfold InstallTC.
  change (reverse _) with ([mpls_filter n; control_filter; exit_filter n] ++ [ttl_filter; forward_filter n false;
    exit_encap_filter n; TCFAllowedip lookup; TCFBounce; TCFDrop]).
  rewrite (ip_first_filters n e v dst Hip Hv Hd), Hex. cbn [run_filters].
  pose proof Hip as (Hok & Hl & v' & Hv' & Hv46 & Hpl). rewrite Hv in Hv'. injection Hv' as <-.
  assert (ttl_filter e = Some (verdict TcPass e)) as ->.
  { unfold ttl_filter. rewrite Hv, Hinc. done. }
  cbn [mbind option_bind v_err v_act v_elem verdict]. unfold forward_filter. rewrite Hd. cbn [mbind option_bind]. rewrite Hfw.
  cbn [mbind option_bind v_err v_act v_elem verdict]. unfold exit_encap_filter. rewrite Hsnap.
  destruct (Z.eqb_spec (ef_ExitNodeNumeric snap) InvalidNodeIdNumeric) as [E|_]; [unfold InvalidNodeIdNumeric in E; lia|].
  rewrite Hinc, (validate_id e v Hok Hv Hpl Hl). cbn [mbind option_bind negb]. rewrite Hv. cbn [mbind option_bind].
  assert (negb (v =? 4) && negb (v =? 6) = false) as -> by (by destruct Hv46 as [->| ->]).
  rewrite Hd. cbn [mbind option_bind]. rewrite Hfw. destruct (IsDefaultLocalExcludedAddr dst); [by eexists|].
  rewrite Hen, Hpeer. destruct (readable_ok e v Hok Hv Hpl) as ([src ->] & _). cbn [mbind option_bind].
  destruct (wrap_ok e (ef_ExitNodeNumeric snap) Hok Hid) as (e1 & -> & _ & HP); [unfold MessageTransportHeaderSize in Hfit; lia|done|].
  cbn [mbind option_bind v_err v_act v_elem verdict]. eexists. split; [done|]. done.
Qed.

End dataplane.

(** ** Concrete packets *)

Module PacketDemo.
Import Demo NodeDemo.

#[local] Existing Instance sorted_range.

(** An IPv4 packet from 12.0.0.1 to [dst], with a valid header checksum for 10.0.0.1. *)
Definition ip4 (d1 d2 d3 d4 : Z) : list Z :=
  [0x45; 0; 0; 20; 0; 0; 0; 0; 64; 17; 0x64; 0xd8; 12; 0; 0; 1; d1; d2; d3; d4].

Definition elem (from : option nat) (bytes : list Z) : TCElement :=
  mkTC (replicate 16 0 ++ bytes ++ replicate 40 0) 16 (length bytes) None None from None 0 0.

Definition bytesb (l : list Z) : bool := forallb (λ b, (0 <=? b) && (b <? 256)) l.

Lemma bytesb_ok l : bytesb l = true → Forall is_byte l.
Proof.
  intros H. apply Forall_forall. intros b Hb. unfold bytesb in H. rewrite forallb_forall in H.
  apply list_elem_of_In, H in Hb. to_prop. unfold is_byte, is_u8, in_width. lia.
Qed.

Definition tc_okb (e : TCElement) : bool :=
  bytesb (tc_Buffer e) && (tc_off e + tc_len e <=? length (tc_Buffer e))%nat && (16 <=? length (tc_Buffer e))%nat.

Lemma tc_okb_ok e : tc_okb e = true → tc_ok e.
Proof.
  unfold tc_okb. intros [[H1 H2%Nat.leb_le]%andb_prop H3%Nat.leb_le]%andb_prop.
  split; [by apply bytesb_ok|]. split; [done|by right].
Qed.

Definition out : TCElement := elem None (ip4 10 0 0 1).
Definition inc : TCElement := elem (Some 30%nat) (ip4 10 0 0 1).

Lemma ip4_packet from a b c d : bytesb (ip4 a b c d) = true → ip_packet (elem from (ip4 a b c d)).
Proof.
  intros H. split; [|split; [reflexivity|exists 4; split; [reflexivity|split; [by left|apply Nat.leb_le; reflexivity]]]].
  split; [|split; [apply Nat.leb_le; reflexivity|right; apply Nat.leb_le; reflexivity]]. cbn [tc_Buffer elem]. apply Forall_app. split; [by apply bytesb_ok|].
  apply Forall_app. split; [by apply bytesb_ok|by apply bytesb_ok].
Qed.

Lemma out_ip : ip_packet out.
Proof. by apply ip4_packet. Qed.

Lemma inc_ip : ip_packet inc.
Proof. by apply ip4_packet. Qed.

Lemma parse_validate_safe_witness :
  ∃ e' b, ParsePacket out = Some (e', b) ∧ tc_ok e' ∧ tc_Buffer e' = tc_Buffer out ∧
    (b = true → ∃ v, Validate e' = Some v ∧ (v = true → readable e')).
Proof. apply (parse_validate_safe out). by apply tc_okb_ok. Defined.

Lemma decrement_ttl_checksum_witness :
  ∃ e', DecrementTTL out = Some e' ∧ GetTTL e' = Some 63 ∧ checksum true (take 20 (tc_Packet e')) 0 = 0xffff.
Proof.
  destruct (decrement_ttl_checksum true out 64 20) as (e' & H1 & H2 & H3).
  - by apply tc_okb_ok.
  - reflexivity.
  - reflexivity.
  - lia.
  - split; apply Nat.leb_le; reflexivity.
  - exists e'. split; [exact H1|]. split; [exact H2|]. apply H3. vm_compute. reflexivity.
Defined.

(** A packet wrapped for node 20. *)
Definition wrapped : TCElement := default out (default None (wrapExitPacket out 20)).

Definition transit : ExitFilterSnapshot :=
  mkSnapshot "b" 17 false "" 0 ∅ {[ 20 := mkEntry "c" (Some 30%nat) false ]}.
Definition exit : ExitFilterSnapshot := mkSnapshot "z" 20 true "" 0 ∅ ∅.

(** After one transit node. *)
Definition carried : TCElement := match handleMplsPacket transit wrapped with Some (_, _, e) => e | None => out end.

Lemma journey : transits 20 [transit] wrapped carried.
Proof.
  eapply transits_cons; [| |reflexivity|reflexivity|].
  - done.
  - by apply tc_okb_ok.
  - apply transits_nil. by apply tc_okb_ok.
Qed.

Lemma mpls_hops_bounded_witness : (length [transit] <= 255)%nat ∧ Z.of_nat (length [transit]) <= 64.
Proof.
  apply (mpls_hops_bounded 20 0 true 64 (tc_Packet out) [transit] wrapped carried).
  - unfold lse_ok. lia.
  - reflexivity.
  - exact journey.
Defined.

Lemma exit_tunnel_delivers_witness :
  ∃ r, handleMplsPacket exit carried = Some (TcBounce, false, r) ∧ tc_Packet r = tc_Packet out.
Proof.
  destruct (exit_tunnel_delivers out wrapped 20 [transit] carried exit) as [_ H].
  - exact out_ip.
  - lia.
  - by vm_compute.
  - reflexivity.
  - exact journey.
  - reflexivity.
  - reflexivity.
  - apply H. apply Nat.ltb_lt. reflexivity.
Defined.

(** A labelled packet as read from the TUN. *)
Definition mpls_in : TCElement := elem None [0; 1; 0x41; 64; 0x45; 0; 0; 20].

Lemma frame_mpls_wellformed_witness :
  let '(e', size') := FrameMplsUnicast mpls_in MessageTransportHeaderSize 8 NyUnicastProtoId NyUnicastSubtypeMpls in
  Payload (set_Packet e' MessageTransportHeaderSize size') = Some [1; 0; 1; 0x41; 64; 0x45; 0; 0; 20].
Proof.
  pose proof (frame_mpls_wellformed mpls_in 8) as H.
  destruct (FrameMplsUnicast _ _ _ _ _) as [e' size']. apply H.
  - by apply bytesb_ok.
  - by vm_compute.
  - apply Nat.leb_le. reflexivity.
  - apply Nat.leb_le. reflexivity.
Defined.


(** The verdict there, and with system routing. *)
Example ip_forwarding_demo :
  ((λ r, (v_act r, tc_ToPeer (v_elem r))) <$> classify (InstallTC (λ _, None) computed false) inc,
   v_act <$> classify (InstallTC (λ _, None) computed true) inc) = (Some (TcForward, Some 20%nat), Some TcBounce).
Proof. vm_compute. reflexivity. Qed.

(** The node uses [z] as its exit. *)
Definition exit_user : Nylon Wire (gmap Prefix) map_cache :=
  set_filter computed (Some idmap)
    (Some (mkSnapshot "a" 16 false "z" 20 ∅ {[ 20 := mkEntry "b" (Some 20%nat) false ]})).

Lemma exit_encapsulation_witness :
  ∃ r, classify (InstallTC (λ _, None) exit_user false) (elem None (ip4 8 8 8 8)) = Some r ∧ v_act r = TcForward ∧
    tc_Packet (v_elem r) = tunnel 20 0 true 64 (ip4 8 8 8 8).
Proof.
  destruct (exit_encapsulation (λ _, None) exit_user (elem None (ip4 8 8 8 8)) 4 (Addr4 (0x08080808)) 64
    (mkSnapshot "a" 16 false "z" 20 ∅ {[ 20 := mkEntry "b" (Some 20%nat) false ]}) (mkEntry "b" (Some 20%nat) false) 20)
    as (r & Hr & Hcase).
  - by apply ip4_packet.
  - reflexivity.
  - reflexivity.
  - reflexivity.
  - reflexivity.
  - vm_compute. reflexivity.
  - vm_compute. reflexivity.
  - reflexivity.
  - cbn. lia.
  - vm_compute. reflexivity.
  - reflexivity.
  - by vm_compute.
  - apply Nat.leb_le. reflexivity.
  - exists r. split; [exact Hr|].
    assert (IsDefaultLocalExcludedAddr (Addr4 0x08080808) = false) as Hl by (vm_compute; reflexivity).
    rewrite Hl in Hcase. destruct Hcase as (H1 & _ & H2). split; [exact H1|exact H2].
Defined.

(** A node that hosts 12.0.0.0/8 learns 12.1.0.0/16 from [b]: the route is selected and is the
    longest match, but the packet goes to the local stack, because the exit table is
    consulted first and only knows the shorter prefix. *)
Definition p12_1 : Prefix := PrefixFrom (Addr4 (12 * 2 ^ 24 + 2 ^ 16)) 16.

Definition shadowed : Nylon Wire (gmap Prefix) map_cache :=
  default node (run 1000 node (ComputeRoutes env (set_Neighbours (ny_rs node)
    [mkNeighbour "b" (list_to_map [ann "z" p12_1 5 20 5000 f64_zero]) (up 10)]))).

Lemma exit_shadows_longer_match :
  rte_Nh <$> bt_Lookup (ny_ForwardTable shadowed) (Addr4 (12 * 2 ^ 24 + 2 ^ 16 + 1)) = Some "b" ∧
  v_act <$> classify (InstallTC (λ _, None) shadowed false) (elem (Some 30%nat) (ip4 12 1 0 1)) = Some TcBounce.
Proof. split; vm_compute; reflexivity. Qed.

End PacketDemo.
