(* ===== verification/Graph.v ===== *)
(** The graph language of the central configuration ([state/config.go], [state/pair.go]):
    groups of nodes, their expansion by topological sorting, the pairings, and the
    peers of a node.  Go's string functions are modelled on bytes; for text that is
    not ASCII the Unicode tables of the standard library are a parameter. *)

From Stdlib Require Import Ascii.
From S2P Require Import Prelude Bytes NetIP Metric Routing Config.

(** ** Strings *)

(** [strings.ToLower] and [strings.TrimSpace] on text that is not ASCII. *)
Class Unicode := {
  unicode_ToLower : string → string;
  unicode_TrimSpace : string → string;
}.

(** The Unicode functions that leave text alone, used to run the model. *)
Definition plain_unicode : Unicode := {| unicode_ToLower := id; unicode_TrimSpace := id |}.

Definition is_ASCII (s : string) : bool := forallb (λ c, (nat_of_ascii c <? 128)%nat) (String.list_ascii_of_string s).

Definition lower (c : ascii) : ascii :=
  let n := nat_of_ascii c in
  if ((65 <=? n) && (n <=? 90))%nat then ascii_of_nat (n + 32) else c.

Definition is_space (c : ascii) : bool :=
  let n := nat_of_ascii c in ((n =? 32) || (9 <=? n) && (n <=? 13))%nat.

Fixpoint trim_left (l : list ascii) : list ascii :=
  match l with
  | c :: l' => if is_space c then trim_left l' else l
  | [] => []
  end.

Definition ToLower `{Unicode} (s : string) : string :=
  if is_ASCII s then String.string_of_list_ascii (lower <$> String.list_ascii_of_string s) else unicode_ToLower s.

Definition TrimSpace `{Unicode} (s : string) : string :=
  if is_ASCII s
  then String.string_of_list_ascii (reverse (trim_left (reverse (trim_left (String.list_ascii_of_string s)))))
  else unicode_TrimSpace s.

Fixpoint contains (sep : ascii) (s : string) : bool :=
  match s with
  | EmptyString => false
  | String c s => bool_decide (c = sep) || contains sep s
  end.

(** [strings.Split] with a separator of one byte: one piece more than separators. *)
Fixpoint Split (sep : ascii) (s : string) : list string :=
  match s with
  | EmptyString => [EmptyString]
  | String c s =>
      let rest := Split sep s in
      if decide (c = sep) then EmptyString :: rest
      else match rest with
           | piece :: rest => String c piece :: rest
           | [] => [String c EmptyString]
           end
  end.

(** ** Slices *)

(** [slices.Compact]: equal neighbours are merged. *)
Fixpoint Compact {A} `{EqDecision A} (l : list A) : list A :=
  match l with
  | x :: l' => match l' with
               | y :: _ => if decide (x = y) then Compact l' else x :: Compact l'
               | [] => [x]
               end
  | [] => []
  end.

Definition Sort (l : list string) : list string := merge_sort String.le l.

Definition Pair : Type := string * string.

(** [a < b] on Go strings. *)
Definition str_lt (a b : string) : Prop := ¬ String.le b a.

Definition pair_le (p q : Pair) : Prop := str_lt p.1 q.1 ∨ p.1 = q.1 ∧ String.le p.2 q.2.

#[export] Instance str_lt_dec : RelDecision str_lt.
Proof. intros a b. unfold str_lt. apply _. Defined.

#[export] Instance pair_le_dec : RelDecision pair_le.
Proof. intros p q. unfold pair_le. apply _. Defined.

Definition SortPairs (pairs : list Pair) : list Pair := merge_sort pair_le pairs.

Definition MakeSortedPair (a b : string) : Pair := if decide (str_lt a b) then (a, b) else (b, a).

(** ** Parsing *)

Inductive GraphErr :=
| GroupEquals (line : string)      (* "group definition must contain one '='" *)
| GroupIsNode (grp : string)       (* "group name must not be a node name" *)
| DuplicateGroup (grp : string)
| InvalidSymbol (x : string)       (* "is not a valid node/group" *)
| EmptyList                        (* "node/group list must not be empty" *)
| InvalidPairing (names : list string)
| GraphCycle
| IndexPanic                       (* [spl[1]] out of range *)
| OutOfFuel.

Section graph.
Context `{MR : MapRange} `{U : Unicode}.

(** The loop of [parseSymbolList]; [line] is what has been appended so far. *)
Fixpoint symbol_list (validSymbols : list string) (line : list string) (spl : list string) :
    GraphErr + list string :=
  match spl with
  | [] => inr line
  | s :: spl =>
      let x := TrimSpace s in
      if decide (x = EmptyString) then symbol_list validSymbols line spl
      else if decide (x ∈ validSymbols) then symbol_list validSymbols (line ++ [x]) spl
      else inl (InvalidSymbol x)
  end.

Definition parseSymbolList (s : string) (validSymbols : list string) : GraphErr + list string :=
  match symbol_list validSymbols [] (Split "," (TrimSpace s)) with
  | inl e => inl e
  | inr [] => inl EmptyList
  | inr line => inr (Sort line)
  end.

Definition clean (line : string) : string := ToLower (TrimSpace line).

(** Pass 0: the names of the groups. *)
Fixpoint collect_symbols (nodes symbols graph : list string) : GraphErr + list string :=
  match graph with
  | [] => inr symbols
  | line :: graph =>
      let line := clean line in
      if contains "=" line
      then match Split "=" line with
           | [s0; s1] =>
               let grp := TrimSpace s0 in
               if decide (grp ∈ nodes) then inl (GroupIsNode grp)
               else collect_symbols nodes (symbols ++ [grp]) graph
           | _ => inl (GroupEquals line)
           end
      else collect_symbols nodes symbols graph
  end.

(** What pass 1 builds: the pairings of symbols, the groups, the groups each group
    still depends on, and the nodes each group is known to contain. *)
Record parsed := mkParsed {
  parsedPairings : list Pair;
  groups : gmap string (list string);
  topo : gmap string (list string);
  expansion : gmap string (list string);
}.

Definition members (expansion : gmap string (list string)) (k : string) : list string :=
  default [] (expansion !! k).

(** One symbol of a group: a dependency, or a node. *)
Definition group_member (nodes : list string) (grp : string)
    (acc : list string * gmap string (list string)) (l : string) : list string * gmap string (list string) :=
  let '(deps, expansion) := acc in
  if decide (l ∈ nodes) then (deps, <[grp := members expansion grp ++ [l]]> expansion)
  else (deps ++ [l], expansion).

(** One symbol of a pairing: paired with the symbols before it. *)
Definition pair_with (acc : list Pair * list string) (name : string) : list Pair * list string :=
  let '(pairs, interconnectNodes) := acc in
  (pairs ++ ((λ node, MakeSortedPair node name) <$> interconnectNodes), interconnectNodes ++ [name]).

Definition parse_line (nodes symbols : list string) (st : parsed) (line : string) : GraphErr + parsed :=
  let line := clean line in
  if contains "=" line
  then match Split "=" line with
       | s0 :: s1 :: _ =>
           let grp := TrimSpace s0 in
           match groups st !! grp with
           | Some _ => inl (DuplicateGroup grp)
           | None =>
               match parseSymbolList s1 symbols with
               | inl e => inl e
               | inr lst =>
                   let '(deps, expansion) := foldl (group_member nodes grp) ([], expansion st) lst in
                   inr (mkParsed (parsedPairings st) (<[grp := lst]> (groups st))
                     (<[grp := Compact (Sort deps)]> (topo st)) expansion)
               end
           end
       | _ => inl IndexPanic
       end
  else match parseSymbolList line symbols with
       | inl e => inl e
       | inr names =>
           if (length names <? 2)%nat then inl (InvalidPairing names)
           else
             let pairs := (foldl pair_with (parsedPairings st, []) names).1 in
             inr (mkParsed (Compact (SortPairs pairs)) (groups st) (topo st) (expansion st))
       end.

Fixpoint parse_lines (nodes symbols : list string) (st : parsed) (graph : list string) : GraphErr + parsed :=
  match graph with
  | [] => inr st
  | line :: graph =>
      match parse_line nodes symbols st line with
      | inl e => inl e
      | inr st => parse_lines nodes symbols st graph
      end
  end.

(** Pass 2: a group without dependencies, or the empty string. *)
Definition free_group (topo : gmap string (list string)) : string :=
  match list_find (λ kv, kv.2 = []) (map_range topo) with
  | Some (_, (k, _)) => k
  | None => EmptyString
  end.

(** The members of [group] go to a group that depends on it. *)
Definition expand_into (group : string) (acc : gmap string (list string) * gmap string (list string))
    (kv : string * list string) : gmap string (list string) * gmap string (list string) :=
  let '(topo, expansion) := acc in
  let '(k, deps) := kv in
  if decide (group ∈ deps)
  then (<[k := filter (λ dep, dep ≠ group) deps]> topo,
        <[k := Compact (Sort (members expansion k ++ members expansion group))]> expansion)
  else acc.

Fixpoint expand_groups (fuel : nat) (topo expansion : gmap string (list string)) :
    GraphErr + gmap string (list string) :=
  if decide (topo = ∅) then inr expansion
  else match fuel with
       | O => inl OutOfFuel
       | S fuel =>
           let group := free_group topo in
           if decide (group = EmptyString) then inl GraphCycle
           else
             let topo := delete group topo in
             let '(topo, expansion) := foldl (expand_into group) (topo, expansion) (map_range topo) in
             expand_groups fuel topo expansion
       end.

(** Pass 3: the nodes of a symbol, and the pairs of nodes of a pairing. *)
Definition symbol_nodes (nodes : list string) (expansion : gmap string (list string)) (s : string) : list string :=
  if decide (s ∈ nodes) then [s] else members expansion s.

Definition pair_nodes (x y : list string) : list Pair :=
  x ≫= λ x1, y ≫= λ y1, if decide (x1 = y1) then [] else [MakeSortedPair x1 y1].

Definition rewrite_pair (nodes : list string) (expansion : gmap string (list string))
    (pairings : list Pair) (pair : Pair) : list Pair :=
  Compact (SortPairs (pairings ++
    pair_nodes (symbol_nodes nodes expansion pair.1) (symbol_nodes nodes expansion pair.2))).

Definition ParseGraph (graph nodes : list string) : GraphErr + list Pair :=
  match collect_symbols nodes nodes graph with
  | inl e => inl e
  | inr symbols =>
      let symbols := Compact (Sort symbols) in
      match parse_lines nodes symbols (mkParsed [] ∅ ∅ ∅) graph with
      | inl e => inl e
      | inr st =>
          match expand_groups (size (topo st)) (topo st) (expansion st) with
          | inl e => inl e
          | inr expansion => inr (foldl (rewrite_pair nodes expansion) [] (parsedPairings st))
          end
      end
  end.

(** The other end of an edge at [curId], if it is one. *)
Definition edge_peer (curId : NodeId) (edge : Pair) : list NodeId :=
  let neighNode := EmptyString in
  let neighNode := if decide (edge.1 = curId) then edge.2 else neighNode in
  let neighNode := if decide (edge.2 = curId) then edge.1 else neighNode in
  if decide (neighNode ≠ curId ∧ neighNode ≠ EmptyString) then [neighNode] else [].

(** [None] is the panic on an invalid graph. *)
Definition GetPeers {H} (c : CentralCfgOf H) (curId : NodeId) : option (list NodeId) :=
  let allNodes := ((λ r, rc_Id r) <$> c_Routers c) ++ ((λ r, cc_Id r) <$> c_Clients c) in
  match ParseGraph (c_Graph c) allNodes with
  | inl _ => None
  | inr graph => Some (graph ≫= edge_peer curId)
  end.

End graph.
