(* ===== verification/GraphProps.v ===== *)
(** What the graph language means, and that [ParseGraph] computes it: which graphs are
    accepted, which pairs of nodes an accepted graph connects, and that peering is
    symmetric. *)

From Stdlib Require Import Ascii.
From S2P Require Import Prelude Bytes NetIP Metric Routing Config Graph.

(** ** Meaning of a graph *)

Section meaning.
Context `{U : Unicode}.

(** The symbols of a comma-separated list. *)
Definition names (s : string) : list string :=
  filter (λ x, x ≠ EmptyString) (TrimSpace <$> Split "," (TrimSpace s)).

(** The name and the body of a group definition. *)
Definition group_line (line : string) : option (string * string) :=
  if contains "=" (clean line)
  then match Split "=" (clean line) with [s0; s1] => Some (TrimSpace s0, s1) | _ => None end
  else None.

Definition group_defs (graph : list string) : list (string * string) := omap group_line graph.

(** The lines that list nodes and groups to connect with each other. *)
Definition pair_lines (graph : list string) : list string :=
  filter (λ line, contains "=" line = false) (clean <$> graph).

(** [g] is a group and [m] is listed in its body. *)
Definition defines (graph : list string) (g m : string) : Prop :=
  ∃ b, (g, b) ∈ group_defs graph ∧ m ∈ names b.

(** [a] and [b] are listed, at different places, in one line. *)
Definition paired (graph : list string) (a b : string) : Prop :=
  ∃ l, l ∈ pair_lines graph ∧ [a; b] ⊆+ names l.

(** [n] is a node that the symbol stands for. *)
Inductive expands (nodes graph : list string) : string → string → Prop :=
| expands_node n : n ∈ nodes → expands nodes graph n n
| expands_group g m n : g ∉ nodes → defines graph g m → expands nodes graph m n → expands nodes graph g n.

Definition declared (nodes graph : list string) (m : string) : Prop :=
  m ∈ nodes ∨ m ∈ (group_defs graph).*1.

(** The graphs that make sense. *)
Record graph_ok (nodes graph : list string) : Prop := {
  ok_equals : ∀ line, line ∈ graph → contains "=" (clean line) = true → is_Some (group_line line);
  ok_groups : ∀ g, g ∈ (group_defs graph).*1 → (g ∉ nodes) ∧ g ≠ EmptyString;
  ok_distinct : NoDup (group_defs graph).*1;
  ok_bodies : ∀ g b, (g, b) ∈ group_defs graph → names b ≠ [] ∧ Forall (declared nodes graph) (names b);
  ok_pairs : ∀ l, l ∈ pair_lines graph → (2 <= length (names l))%nat ∧ Forall (declared nodes graph) (names l);
  ok_acyclic : well_founded (λ m g, defines graph g m);
}.

End meaning.

(** ** Slices *)

Lemma elem_of_Compact {A} `{EqDecision A} (l : list A) x : x ∈ Compact l ↔ x ∈ l.
Proof.
  induction l as [|y [|z l] IH]; [done..|]. cbn [Compact] in *.
  case_decide as Hd; [subst|]; rewrite ?elem_of_cons, ?IH, ?elem_of_cons; naive_solver.
Qed.

Lemma Compact_sorted {A} `{EqDecision A} (R : relation A) `{!Transitive R, !AntiSymm (=) R} (l : list A) :
  StronglySorted R l → StronglySorted R (Compact l) ∧ NoDup (Compact l).
Proof.
  induction 1 as [|x l Hs IH Hx]; [split; constructor|].
  destruct l as [|y l]; [split; repeat constructor; set_solver|].
  change (Compact (x :: y :: l)) with (if decide (x = y) then Compact (y :: l) else x :: Compact (y :: l)).
  case_decide as Hd; [done|]. destruct IH as [IH1 IH2]. split.
  - constructor; [done|]. rewrite Forall_forall in *. intros z. rewrite elem_of_Compact. apply Hx.
  - constructor; [|done]. rewrite elem_of_Compact. intros Hin.
    rewrite Forall_forall in Hx. inversion_clear Hs as [|? ? _ Hy]. rewrite Forall_forall in Hy.
    apply elem_of_cons in Hin as [->|Hin]; [done|].
    apply Hd. apply (anti_symm R); [apply Hx; by left|by apply Hy].
Qed.

Lemma elem_of_Sort l x : x ∈ Sort l ↔ x ∈ l.
Proof. unfold Sort. by rewrite merge_sort_Permutation. Qed.

Lemma Sort_perm l : Sort l ≡ₚ l.
Proof. apply merge_sort_Permutation. Qed.

Lemma str_lt_le a b : str_lt a b → String.le a b.
Proof. unfold str_lt. intros. by destruct (total String.le a b). Qed.

Lemma not_str_lt a b : ¬ str_lt a b → String.le b a.
Proof. apply dec_stable. Qed.

#[export] Instance pair_le_trans : Transitive pair_le.
Proof.
  intros [a a'] [b b'] [c c']. unfold pair_le, str_lt. cbn.
  intros [H1|[-> H1]] [H2|[-> H2]]; [|by left..|by right; split; [done|etrans]].
  left. intros H. apply H2. etrans; [|by apply str_lt_le]. done.
Qed.

#[export] Instance pair_le_antisym : AntiSymm (=) pair_le.
Proof.
  intros [a a'] [b b']. unfold pair_le, str_lt. cbn.
  intros [H1|[-> H1]] [H2|[H2 H3]]; subst.
  - by apply str_lt_le in H2.
  - by destruct H1.
  - by destruct H2.
  - f_equal. by apply (anti_symm String.le).
Qed.

#[export] Instance pair_le_total : Total pair_le.
Proof.
  intros [a a'] [b b']. unfold pair_le, str_lt. cbn.
  destruct (decide (String.le b a)) as [H1|H1]; [|by left; left].
  destruct (decide (String.le a b)) as [H2|H2]; [|by right; left].
  assert (a = b) as -> by by apply (anti_symm String.le).
  destruct (total String.le a' b'); [left|right]; by right.
Qed.

Definition pairs_normal (l : list Pair) : Prop := StronglySorted pair_le l ∧ NoDup l.

Lemma Compact_SortPairs l : pairs_normal (Compact (SortPairs l)).
Proof. apply Compact_sorted; [apply _..|]. apply StronglySorted_merge_sort; apply _. Qed.

Lemma elem_of_Compact_SortPairs l p : p ∈ Compact (SortPairs l) ↔ p ∈ l.
Proof. unfold SortPairs. by rewrite elem_of_Compact, merge_sort_Permutation. Qed.

Lemma MakeSortedPair_comm a b : MakeSortedPair a b = MakeSortedPair b a.
Proof.
  unfold MakeSortedPair. case_decide as H1; case_decide as H2; try done.
  - exfalso. by eapply H2, str_lt_le.
  - f_equal; apply (anti_symm String.le); by apply not_str_lt.
Qed.

Lemma MakeSortedPair_spec a b x y :
  a ≠ b → (x, y) = MakeSortedPair a b ↔ str_lt x y ∧ (x = a ∧ y = b ∨ x = b ∧ y = a).
Proof.
  unfold MakeSortedPair. intros Hne. case_decide as Hd; split.
  - intros [= -> ->]. auto.
  - intros (? & [[-> ->]|[-> ->]]); [done|]. by apply str_lt_le in Hd.
  - intros [= -> ->]. split; [|by right]. intros H. apply Hne.
    apply (anti_symm String.le); [done|]. by apply not_str_lt.
  - intros (? & [[-> ->]|[-> ->]]); done.
Qed.

(** ** Pass 0 and pass 1 *)

Section parsing.
Context `{U : Unicode}.
Implicit Types nodes symbols graph pre : list string.

Lemma symbol_list_spec symbols spl : ∀ line,
  match symbol_list symbols line spl with
  | inr l => l = line ++ filter (λ x, x ≠ EmptyString) (TrimSpace <$> spl) ∧
      Forall (.∈ symbols) (filter (λ x, x ≠ EmptyString) (TrimSpace <$> spl))
  | inl _ => ¬ Forall (.∈ symbols) (filter (λ x, x ≠ EmptyString) (TrimSpace <$> spl))
  end.
Proof.
  induction spl as [|s spl IH]; intros line; cbn [symbol_list fmap list_fmap].
  { rewrite filter_nil, app_nil_r. by split; [|constructor]. }
  rewrite filter_cons. destruct (decide (TrimSpace s = EmptyString)) as [He|He].
  { rewrite decide_False by tauto. apply IH. }
  destruct (decide (TrimSpace s ≠ EmptyString)) as [_|?]; [|tauto].
  destruct (decide (TrimSpace s ∈ symbols)) as [Hin|Hin].
  - specialize (IH (line ++ [TrimSpace s])). destruct (symbol_list _ _ _).
    + by rewrite Forall_cons; intros [].
    + destruct IH as [-> ?]. rewrite <-app_assoc. by split; [|constructor].
  - by rewrite Forall_cons; intros [].
Qed.

Lemma parseSymbolList_spec symbols s :
  match parseSymbolList s symbols with
  | inr l => l = Sort (names s) ∧ names s ≠ [] ∧ Forall (.∈ symbols) (names s)
  | inl _ => names s = [] ∨ ¬ Forall (.∈ symbols) (names s)
  end.
Proof.
  unfold parseSymbolList, names.
  pose proof (symbol_list_spec symbols (Split "," (TrimSpace s)) []) as H.
  destruct (symbol_list _ _ _) as [e|l]; [by right|]. destruct H as [H HF]. cbn in H. rewrite <-H in *.
  destruct l; [by left|done].
Qed.

Lemma group_defs_cons line graph :
  group_defs (line :: graph) = match group_line line with Some d => d :: group_defs graph | None => group_defs graph end.
Proof. done. Qed.

Lemma group_defs_app g1 g2 : group_defs (g1 ++ g2) = group_defs g1 ++ group_defs g2.
Proof. apply omap_app. Qed.

Lemma pair_lines_app g1 g2 : pair_lines (g1 ++ g2) = pair_lines g1 ++ pair_lines g2.
Proof. unfold pair_lines. by rewrite fmap_app, filter_app. Qed.

(** Every line with an equals sign is a group definition whose name is not a node. *)
Definition groups_ok nodes graph : Prop :=
  ∀ line, line ∈ graph → contains "=" (clean line) = true →
    ∃ g b, group_line line = Some (g, b) ∧ g ∉ nodes.

Lemma collect_symbols_spec nodes graph : ∀ symbols,
  match collect_symbols nodes symbols graph with
  | inr s => s = symbols ++ (group_defs graph).*1 ∧ groups_ok nodes graph
  | inl _ => ¬ groups_ok nodes graph
  end.
Proof.
  induction graph as [|line graph IH]; intros symbols; cbn [collect_symbols].
  { split; [by rewrite app_nil_r|]. by intros ? ?%not_elem_of_nil. }
  rewrite group_defs_cons.
  assert (∀ r, group_line line = r → (contains "=" (clean line) = true → ∃ g b, r = Some (g, b) ∧ g ∉ nodes) →
    groups_ok nodes graph → groups_ok nodes (line :: graph)) as Hcons.
  { intros r Hr Hline Hg l [->|Hl]%elem_of_cons Hc; [|by apply Hg].
    rewrite Hr. by apply Hline. }
  assert (groups_ok nodes (line :: graph) → groups_ok nodes graph) as Htail.
  { intros Hg l Hl. apply Hg. by right. }
  unfold group_line at 1. unfold group_line in Hcons.
  destruct (contains "=" (clean line)) eqn:Hc.
  2: { specialize (IH symbols). destruct (collect_symbols _ _ _); [tauto|].
       destruct IH. split; [done|]. by eapply Hcons. }
  destruct (Split "=" (clean line)) as [|s0 [|s1 [|s2 spl]]] eqn:Hs.
  1,2,4: intros Hg; destruct (Hg line) as (g & b & Hgl & _); [by left|done|];
    unfold group_line in Hgl; by rewrite Hc, Hs in Hgl.
  destruct (decide (TrimSpace s0 ∈ nodes)) as [Hin|Hin].
  { intros Hg; destruct (Hg line) as (g & b & Hgl & ?); [by left|done|].
    unfold group_line in Hgl. rewrite Hc, Hs in Hgl. by simplify_eq. }
  specialize (IH (symbols ++ [TrimSpace s0])). destruct (collect_symbols _ _ _); [tauto|].
  destruct IH as [-> ?]. rewrite <-app_assoc. split; [done|]. eapply Hcons; naive_solver.
Qed.

Lemma members_insert e k l k' : members (<[k := l]> e) k' = if decide (k = k') then l else members e k'.
Proof. unfold members. case_decide; subst; [by rewrite lookup_insert_eq|by rewrite lookup_insert_ne]. Qed.

Lemma group_member_fold nodes grp lst : ∀ deps e,
  ∃ e', foldl (group_member nodes grp) (deps, e) lst = (deps ++ filter (.∉ nodes) lst, e') ∧
    (∀ k, members e' k = members e k ++ if decide (grp = k) then filter (.∈ nodes) lst else []).
Proof.
  induction lst as [|l lst IH]; intros deps e; cbn [foldl].
  { exists e. rewrite filter_nil, app_nil_r. split; [done|]. intros k. case_decide; by rewrite app_nil_r. }
  unfold group_member at 2. rewrite !filter_cons. destruct (decide (l ∈ nodes)) as [Hin|Hin].
  - edestruct IH as (e' & -> & He). exists e'. rewrite decide_False by tauto. split; [done|].
    intros k. rewrite He, members_insert. case_decide; [|done]. subst. by rewrite <-app_assoc.
  - edestruct IH as (e' & -> & He). exists e'. rewrite decide_True by done. rewrite <-app_assoc. split; [done|].
    intros k. rewrite He. done.
Qed.

Lemma pair_with_fold l : ∀ pairs seen,
  (foldl pair_with (pairs, seen) l).2 = seen ++ l ∧
  ∀ p, p ∈ (foldl pair_with (pairs, seen) l).1 ↔
    p ∈ pairs ∨ (∃ a b, a ∈ seen ∧ b ∈ l ∧ p = MakeSortedPair a b) ∨
    ∃ a b, [a; b] ⊆+ l ∧ p = MakeSortedPair a b.
Proof.
  induction l as [|x l IH]; intros pairs seen; cbn [foldl].
  { rewrite app_nil_r. split; [done|]. intros p. split; [by left|].
    intros [?|[(a & b & _ & []%not_elem_of_nil & _)|(a & b & Hs%submseteq_nil_r & _)]]; done. }
  unfold pair_with at 2 4. edestruct IH as [IH1 IH2]. split.
  { rewrite IH1. by rewrite <-app_assoc. }
  intros p. rewrite IH2, elem_of_app, list_elem_of_fmap. setoid_rewrite elem_of_app. setoid_rewrite elem_of_cons.
  setoid_rewrite elem_of_nil. split.
  - intros [[?|(a & -> & ?)]|[(a & b & [?|[->|[]]] & ? & ->)|(a & b & ? & ->)]].
    + by left.
    + right; left. eauto 10.
    + right; left. eauto 10.
    + right; right. exists x, b. split; [|done]. apply submseteq_skip, singleton_submseteq_l. done.
    + right; right. exists a, b. split; [|done]. by apply submseteq_cons.
  - intros [?|[(a & b & ? & [->|?] & ->)|(a & b & Hs & ->)]]; [by left; left|left; right; eauto|right; left; eauto 10|].
    apply submseteq_cons_r in Hs as [Hs|(k & Hk & Hs)]; [right; right; eauto|]. right; left.
    assert (x ∈ [a; b]) as Hx by (rewrite Hk; left). set_unfold in Hx.
    destruct Hx as [->|[->|[]]].
    + apply Permutation_cons_inv in Hk. rewrite <-Hk, singleton_submseteq_l in Hs. eauto 10.
    + rewrite (Permutation_swap) in Hk. apply Permutation_cons_inv in Hk. rewrite <-Hk, singleton_submseteq_l in Hs.
      exists b, a. split; [by right; left|]. split; [done|]. apply MakeSortedPair_comm.
Qed.

(** What is left of the body of a group once its nodes are known: the groups in it. *)
Definition deps_of nodes (b : string) : list string := Compact (Sort (filter (.∉ nodes) (Sort (names b)))).

Lemma elem_of_deps_of nodes b d : d ∈ deps_of nodes b ↔ (d ∉ nodes) ∧ d ∈ names b.
Proof. unfold deps_of. by rewrite elem_of_Compact, elem_of_Sort, list_elem_of_filter, elem_of_Sort. Qed.

(** What pass 1 has built after the lines [pre]. *)
Record parsed_ok nodes pre (st : parsed) : Prop := {
  po_distinct : NoDup (group_defs pre).*1;
  po_groups : ∀ g, is_Some (groups st !! g) ↔ g ∈ (group_defs pre).*1;
  po_topo : ∀ g deps, topo st !! g = Some deps ↔ ∃ b, (g, b) ∈ group_defs pre ∧ deps = deps_of nodes b;
  po_exp : ∀ g n, n ∈ members (expansion st) g ↔ n ∈ nodes ∧ defines pre g n;
  po_pairs : ∀ p, p ∈ parsedPairings st ↔ ∃ a b, paired pre a b ∧ p = MakeSortedPair a b;
}.

Definition line_ok symbols (line : string) : Prop :=
  match group_line line with
  | Some (g, b) => names b ≠ [] ∧ Forall (.∈ symbols) (names b)
  | None => (2 <= length (names (clean line)))%nat ∧ Forall (.∈ symbols) (names (clean line))
  end.

Lemma parsed_ok_nil nodes : parsed_ok nodes [] (mkParsed [] ∅ ∅ ∅).
Proof.
  split; cbn.
  - constructor.
  - intros g. rewrite lookup_empty. split; [by intros []|by intros ?%not_elem_of_nil].
  - intros g deps. rewrite lookup_empty. split; [done|]. by intros (b & ?%not_elem_of_nil & _).
  - intros g n. unfold members. rewrite lookup_empty. split; [by intros ?%not_elem_of_nil|].
    by intros (_ & b & ?%not_elem_of_nil & _).
  - intros p. split; [by intros ?%not_elem_of_nil|]. by intros (a & b & (l & ?%not_elem_of_nil & _) & _).
Qed.

(** A group definition is recorded. *)
Lemma parsed_ok_group nodes pre st line g b e :
  parsed_ok nodes pre st → group_line line = Some (g, b) → g ∉ (group_defs pre).*1 →
  (∀ k, members e k = members (expansion st) k ++ if decide (g = k) then filter (.∈ nodes) (Sort (names b)) else []) →
  parsed_ok nodes (pre ++ [line]) (mkParsed (parsedPairings st) (<[g := Sort (names b)]> (groups st))
    (<[g := deps_of nodes b]> (topo st)) e).
Proof.
  intros [Hnd Hgr Htopo Hexp Hpairs] Hline Hg He.
  assert (group_defs (pre ++ [line]) = group_defs pre ++ [(g, b)]) as Hdefs.
  { rewrite group_defs_app, group_defs_cons, Hline. done. }
  assert (pair_lines (pre ++ [line]) = pair_lines pre) as Hlines.
  { rewrite pair_lines_app. unfold group_line in Hline. destruct (contains "=" (clean line)) eqn:Hc; [|done].
    unfold pair_lines at 2. cbn [fmap list_fmap]. rewrite filter_cons, decide_False by congruence.
    by rewrite app_nil_r. }
  split; cbn [groups topo expansion parsedPairings]; rewrite ?Hdefs, ?fmap_app; cbn [fmap list_fmap fst].
  - apply NoDup_app. split; [done|]. split; [|apply NoDup_singleton].
    intros x Hx ->%list_elem_of_singleton. done.
  - intros g'. rewrite lookup_insert_is_Some, Hgr, elem_of_app, list_elem_of_singleton.
    destruct (decide (g = g')); naive_solver.
  - intros g' deps. rewrite lookup_insert_Some, Htopo. setoid_rewrite elem_of_app.
    setoid_rewrite list_elem_of_singleton. split.
    + intros [[-> <-]|[? (b' & ? & ->)]]; eauto 10.
    + intros (b' & [Hin|[= -> ->]] & ->); [right|by left]. split; [|by eauto].
      intros ->. apply Hg, list_elem_of_fmap. by exists (g', b').
  - intros g' n. rewrite He, elem_of_app, Hexp. unfold defines. rewrite Hdefs.
    setoid_rewrite elem_of_app. setoid_rewrite list_elem_of_singleton. split.
    + intros [(? & b' & ? & ?)|Hin]; [by eauto 10|]. case_decide; [|by apply not_elem_of_nil in Hin]. subst.
      rewrite list_elem_of_filter, elem_of_Sort in Hin. destruct Hin. eauto 10.
    + intros (? & b' & [?|[= -> ->]] & ?); [by left; eauto|]. right. rewrite decide_True by done.
      by rewrite list_elem_of_filter, elem_of_Sort.
  - intros p. rewrite Hpairs. unfold paired. by rewrite Hlines.
Qed.

(** A pairing is recorded. *)
Lemma parsed_ok_pair nodes pre st line :
  parsed_ok nodes pre st → contains "=" (clean line) = false →
  parsed_ok nodes (pre ++ [line]) (mkParsed
    (Compact (SortPairs (foldl pair_with (parsedPairings st, []) (Sort (names (clean line)))).1))
    (groups st) (topo st) (expansion st)).
Proof.
  intros [Hnd Hgr Htopo Hexp Hpairs] Hc.
  assert (group_defs (pre ++ [line]) = group_defs pre) as Hdefs.
  { rewrite group_defs_app, group_defs_cons. unfold group_line. rewrite Hc. apply app_nil_r. }
  assert (pair_lines (pre ++ [line]) = pair_lines pre ++ [clean line]) as Hlines.
  { rewrite pair_lines_app. unfold pair_lines at 2. cbn [fmap list_fmap].
    by rewrite filter_cons, decide_True, filter_nil. }
  split; cbn [groups topo expansion parsedPairings]; rewrite ?Hdefs; [done..| |].
  { intros g n. rewrite Hexp. unfold defines. by rewrite Hdefs. }
  intros p. rewrite elem_of_Compact_SortPairs.
  destruct (pair_with_fold (Sort (names (clean line))) (parsedPairings st) []) as [_ ->].
  rewrite Hpairs. unfold paired. rewrite Hlines. setoid_rewrite elem_of_app. setoid_rewrite list_elem_of_singleton.
  setoid_rewrite Sort_perm. split.
  - intros [(a & b & (l & ? & ?) & ->)|[(a & b & []%not_elem_of_nil & _)|(a & b & ? & ->)]]; eauto 10.
  - intros (a & b & (l & [?| ->] & ?) & ->); [left|right; right]; eauto 10.
Qed.

Lemma parse_line_spec nodes symbols pre st line :
  (contains "=" (clean line) = true → is_Some (group_line line)) → parsed_ok nodes pre st →
  match parse_line nodes symbols st line with
  | inr st' => parsed_ok nodes (pre ++ [line]) st' ∧ line_ok symbols line
  | inl _ => ¬ (line_ok symbols line ∧ NoDup (group_defs (pre ++ [line])).*1)
  end.
Proof.
  intros Hgl Hok. unfold parse_line. destruct (contains "=" (clean line)) eqn:Hc.
  - destruct (Hgl eq_refl) as [[g b] Hline]. unfold line_ok. rewrite Hline.
    rewrite group_defs_app, group_defs_cons, Hline, fmap_app. cbn [fmap list_fmap fst].
    pose proof Hline as Hspl. unfold group_line in Hspl. rewrite Hc in Hspl.
    destruct (Split "=" (clean line)) as [|s0 [|s1 [|]]]; simplify_eq.
    pose proof (po_groups _ _ _ Hok (TrimSpace s0)) as Hgr.
    destruct (groups st !! TrimSpace s0).
    { intros (_ & Hnd). apply NoDup_app in Hnd as (_ & Hnd & _).
      apply (Hnd (TrimSpace s0)); [by apply Hgr|by left]. }
    pose proof (parseSymbolList_spec symbols b) as HP. destruct (parseSymbolList b symbols) as [|lst]; [tauto|].
    destruct HP as (-> & ? & ?).
    destruct (group_member_fold nodes (TrimSpace s0) (Sort (names b)) [] (expansion st)) as (e' & -> & He).
    split; [|done]. cbn [app]. apply (parsed_ok_group nodes pre st line (TrimSpace s0) b); [done..| |done].
    intros ?%Hgr. by apply is_Some_None in H1.
  - assert (group_line line = None) as Hline by (unfold group_line; by rewrite Hc).
    unfold line_ok. rewrite Hline.
    pose proof (parseSymbolList_spec symbols (clean line)) as HP. destruct (parseSymbolList _ symbols) as [|lst].
    { destruct HP as [->|?]; [cbn; lia|tauto]. }
    destruct HP as (-> & ? & ?). rewrite (Permutation_length (Sort_perm _)).
    destruct (Nat.ltb_spec (length (names (clean line))) 2) as [Hlt|Hge]; [intros [[? _] _]; lia|].
    split; [by apply parsed_ok_pair|done].
Qed.

Lemma parse_lines_spec nodes symbols graph : ∀ pre st,
  (∀ line, line ∈ graph → contains "=" (clean line) = true → is_Some (group_line line)) → parsed_ok nodes pre st →
  match parse_lines nodes symbols st graph with
  | inr st' => parsed_ok nodes (pre ++ graph) st' ∧ Forall (line_ok symbols) graph
  | inl _ => ¬ (Forall (line_ok symbols) graph ∧ NoDup (group_defs (pre ++ graph)).*1)
  end.
Proof.
  induction graph as [|line graph IH]; intros pre st Hgl Hok; cbn [parse_lines].
  { rewrite app_nil_r. by split; [|constructor]. }
  pose proof (parse_line_spec nodes symbols pre st line (Hgl line (list_elem_of_here _ _)) Hok) as Hl.
  rewrite (cons_middle line pre graph), app_assoc.
  destruct (parse_line _ _ _ _) as [|st1].
  { intros [[? _]%Forall_cons Hnd]. apply Hl. split; [done|].
    rewrite group_defs_app, fmap_app in Hnd. by apply NoDup_app in Hnd as [? _]. }
  destruct Hl as [Hok1 ?]. specialize (IH (pre ++ [line]) st1).
  destruct (parse_lines _ _ st1 graph).
  - intros [[_ ?]%Forall_cons ?]. apply IH; [intros ? ?; apply Hgl; by right|done|done].
  - destruct IH; [intros ? ?; apply Hgl; by right|done|]. by split; [|constructor].
Qed.

End parsing.

(** ** Pass 2 *)

Section expansion.
Context `{MR : MapRange} `{U : Unicode} (nodes graph : list string).
Hypothesis groups_not_nodes : ∀ g, g ∈ (group_defs graph).*1 → g ∉ nodes.
Hypothesis bodies_declared : ∀ g m, defines graph g m → declared nodes graph m.

Abbreviation is_group g := (g ∈ (group_defs graph).*1).
Abbreviation depends := (λ m g, defines graph g m).
Implicit Types topo e : gmap string (list string).

Lemma defines_group g m : defines graph g m → is_group g.
Proof. intros (b & Hin & _). apply list_elem_of_fmap. by exists (g, b). Qed.

Lemma node_no_defs n m : n ∈ nodes → ¬ defines graph n m.
Proof. intros Hn Hd%defines_group. by eapply groups_not_nodes. Qed.

Lemma expands_of_node n n' : n ∈ nodes → expands nodes graph n n' → n' = n.
Proof. intros Hn He. destruct He as [|g m n' Hg]; [done|]. by destruct Hg. Qed.

Lemma node_acc n : n ∈ nodes → Acc depends n.
Proof. intros Hn. constructor. intros m Hd. by destruct (node_no_defs n m). Qed.

(** The groups in [topo] still wait for the groups in their lists; the others are
    fully expanded. *)
Record expand_inv topo e : Prop := {
  ei_groups : ∀ g, is_Some (topo !! g) → is_group g;
  ei_done : ∀ g, is_group g → topo !! g = None →
    Acc depends g ∧ ∀ n, n ∈ members e g ↔ expands nodes graph g n;
  ei_deps : ∀ g deps d, topo !! g = Some deps →
    d ∈ deps ↔ defines graph g d ∧ is_Some (topo !! d);
  ei_exp : ∀ g n, is_Some (topo !! g) →
    n ∈ members e g ↔ ∃ m, defines graph g m ∧ topo !! m = None ∧ expands nodes graph m n;
}.

Lemma expand_inv_init st :
  parsed_ok nodes graph st → expand_inv (topo st) (expansion st).
Proof.
  intros Hok.
  assert (∀ g, is_Some (topo st !! g) ↔ is_group g) as Hdom.
  { intros g. split.
    - intros [deps (b & Hin & _)%(po_topo _ _ _ Hok)]. apply list_elem_of_fmap. by exists (g, b).
    - intros ([? b] & -> & Hin)%list_elem_of_fmap. eexists. apply (po_topo _ _ _ Hok). eauto. }
  assert (∀ m, topo st !! m = None ↔ ¬ is_group m) as Hnone.
  { intros m. by rewrite eq_None_not_Some, Hdom. }
  split.
  - intros g. apply Hdom.
  - intros g Hg Hn%Hnone. done.
  - intros g deps d (b & Hin & ->)%(po_topo _ _ _ Hok). rewrite elem_of_deps_of, Hdom. split.
    + intros [Hd Hb]. assert (defines graph g d) as Hdef by (by exists b). split; [done|].
      by destruct (bodies_declared _ _ Hdef).
    + intros [(b' & Hin' & Hb') Hd]. split; [by apply groups_not_nodes|].
      by rewrite (NoDup_fst_unique _ g b b' (po_distinct _ _ _ Hok)).
  - intros g n Hg. rewrite (po_exp _ _ _ Hok). split.
    + intros [Hn Hd]. exists n. split; [done|]. split; [|by constructor].
      apply Hnone. intros Hgn. by eapply groups_not_nodes.
    + intros (m & Hd & Hm%Hnone & He). destruct (bodies_declared _ _ Hd) as [Hmn|?]; [|done].
      by rewrite (expands_of_node m n).
Qed.

(** The loop that hands the members of [group] to the groups that depend on it. *)
Lemma expand_into_loop group topo e : topo !! group = None →
  ∀ t' e', foldl (expand_into group) (topo, e) (map_range topo) = (t', e') →
  (∀ k, match topo !! k with
        | None => t' !! k = None ∧ members e' k = members e k
        | Some deps => (∃ deps', t' !! k = Some deps' ∧ ∀ d, d ∈ deps' ↔ d ∈ deps ∧ d ≠ group) ∧
            ∀ n, n ∈ members e' k ↔ n ∈ members e k ∨ group ∈ deps ∧ n ∈ members e group
        end).
Proof.
  intros Hgrp t' e' Hfold.
  pose (P := λ (m : gmap string (list string)) (acc : gmap string (list string) * gmap string (list string)),
    ∀ k, match topo !! k, m !! k with
    | None, _ => acc.1 !! k = None ∧ members acc.2 k = members e k
    | Some deps, None => acc.1 !! k = Some deps ∧ members acc.2 k = members e k
    | Some deps, Some _ => (∃ deps', acc.1 !! k = Some deps' ∧ ∀ d, d ∈ deps' ↔ d ∈ deps ∧ d ≠ group) ∧
            ∀ n, n ∈ members acc.2 k ↔ n ∈ members e k ∨ group ∈ deps ∧ n ∈ members e group end).
  cut (P topo (foldl (expand_into group) (topo, e) (map_range topo))).
  { rewrite Hfold. intros H k. specialize (H k). by destruct (topo !! k). }
  clear Hfold.
  apply foldl_map_range_ind; unfold P; clear P.
  { intros k. rewrite lookup_empty. cbn [fst snd]. by destruct (topo !! k). }
  intros k deps m' [t1 e1] Hm' Hk _ IH k'. cbn [fst snd] in *.
  assert (members e1 group = members e group) as Hgm.
  { specialize (IH group). rewrite Hgrp in IH. apply IH. }
  assert (k ≠ group) by congruence.
  destruct (decide (k = k')) as [<-|Hne].
  - rewrite Hk, lookup_insert_eq. specialize (IH k). rewrite Hk, Hm' in IH. destruct IH as [IH1 IH2].
    unfold expand_into. destruct (decide (group ∈ deps)) as [Hin|Hin]; cbn [fst snd].
    + rewrite lookup_insert_eq. split.
      * eexists. split; [done|]. intros d. rewrite list_elem_of_filter. tauto.
      * intros n. rewrite members_insert, decide_True by done.
        rewrite elem_of_Compact, elem_of_Sort, elem_of_app, IH2, Hgm. tauto.
    + split; [exists deps; split; [done|]|].
      * intros d. split; [|tauto]. intros ?. split; [done|]. by intros ->.
      * intros n. rewrite IH2. tauto.
  - rewrite lookup_insert_ne by done. specialize (IH k').
    unfold expand_into. destruct (decide (group ∈ deps)); cbn [fst snd]; [|done].
    rewrite lookup_insert_ne, members_insert, decide_False by done. done.
Qed.

(** A group whose list is empty is fully expanded. *)
Lemma free_group_expanded topo e g : expand_inv topo e → topo !! g = Some [] →
  (∀ m, defines graph g m → topo !! m = None) ∧
  Acc depends g ∧ ∀ n, n ∈ members e g ↔ expands nodes graph g n.
Proof.
  intros Hinv Hfree.
  assert (∀ m, defines graph g m → topo !! m = None) as Hdone.
  { intros m Hd. apply eq_None_not_Some. intros Hs.
    apply (not_elem_of_nil m). by apply (ei_deps _ _ Hinv g [] m Hfree). }
  assert (g ∉ nodes) as Hg by (apply groups_not_nodes, (ei_groups _ _ Hinv); by eexists).
  split; [done|]. split.
  - constructor. intros m Hd. destruct (bodies_declared _ _ Hd) as [?|Hm]; [by apply node_acc|].
    by apply (ei_done _ _ Hinv); [|apply Hdone].
  - intros n. rewrite (ei_exp _ _ Hinv) by (by eexists). split.
    + intros (m & Hd & _ & He). by apply expands_group with m.
    + intros He. destruct He as [|? m n ? Hd He]; [done|]. exists m. auto.
Qed.

Lemma expand_inv_step topo e group t' e' : expand_inv topo e → topo !! group = Some [] →
  foldl (expand_into group) (delete group topo, e) (map_range (delete group topo)) = (t', e') →
  expand_inv t' e' ∧ ∀ k, is_Some (t' !! k) ↔ k ≠ group ∧ is_Some (topo !! k).
Proof.
  intros Hinv Hfree Hfold.
  pose proof (expand_into_loop group (delete group topo) e (lookup_delete_eq _ _) t' e' Hfold) as Hloop.
  destruct (free_group_expanded topo e group Hinv Hfree) as (_ & Hacc & Hexp).
  assert (∀ k, is_Some (t' !! k) ↔ k ≠ group ∧ is_Some (topo !! k)) as Hdom.
  { intros k. specialize (Hloop k). rewrite lookup_delete in Hloop. case_decide as Hk.
    - destruct Hloop as [-> _]. split; [by intros []|naive_solver].
    - destruct (topo !! k); [destruct Hloop as [(d & -> & _) _]|destruct Hloop as [-> _]]; naive_solver. }
  assert (∀ k, t' !! k = None ↔ k = group ∨ topo !! k = None) as Hnone.
  { intros k. rewrite !eq_None_not_Some, Hdom. destruct (decide (k = group)); naive_solver. }
  split; [|done]. split.
  - intros g [_ Hg]%Hdom. by apply (ei_groups _ _ Hinv).
  - intros g Hg Hn. specialize (Hloop g). rewrite lookup_delete in Hloop.
    apply Hnone in Hn as [->|Hn].
    + rewrite decide_True in Hloop by done. destruct Hloop as [_ ->]. done.
    + assert (match (if decide (group = g) then None else topo !! g) with Some _ => False | None => True end) as Ht.
      { rewrite Hn. by case_decide. }
      destruct (if decide (group = g) then _ else _); [done|]. destruct Hloop as [_ ->].
      by apply (ei_done _ _ Hinv).
  - intros g deps' d Hg. assert (g ≠ group ∧ is_Some (topo !! g)) as [Hne [deps Hd]] by (apply Hdom; by eexists).
    specialize (Hloop g). rewrite lookup_delete_ne, Hd in Hloop by done.
    destruct Hloop as [(deps1 & Hd1 & Hdeps) _]. assert (deps1 = deps') as -> by congruence.
    rewrite Hdeps, (ei_deps _ _ Hinv g deps d Hd), Hdom. naive_solver.
  - intros g n Hs. apply Hdom in Hs as [Hne [deps Hd]].
    specialize (Hloop g). rewrite lookup_delete_ne, Hd in Hloop by done.
    destruct Hloop as [_ Hmem]. rewrite Hmem, Hexp, (ei_exp _ _ Hinv) by (by eexists).
    rewrite (ei_deps _ _ Hinv g deps group Hd). setoid_rewrite Hnone. split.
    + intros [(m & ? & ? & ?)|[[? _] ?]]; eauto 10.
    + intros (m & Hdm & [->|Hm] & He); [right|left; eauto]. split; [|done]. split; [done|by eexists].
Qed.

Lemma free_group_spec topo :
  topo !! free_group topo = Some [] ∨ free_group topo = EmptyString ∧ ∀ g, topo !! g ≠ Some [].
Proof.
  unfold free_group. destruct (list_find _ (map_range topo)) as [[i [k v]]|] eqn:E.
  - apply list_find_Some in E as (Hi & Hv & _). left. cbn in Hv. subst v.
    apply elem_of_map_range. by eapply list_elem_of_lookup_2.
  - right. split; [done|]. intros g Hg. apply list_find_None in E. rewrite Forall_forall in E.
    apply (E (g, [])); [by apply elem_of_map_range|done].
Qed.

(** With one round for each group, the loop ends: with every group expanded, or with a
    cycle, or because of a group without a name. *)
Lemma expand_groups_spec fuel : ∀ topo e, expand_inv topo e → (size topo <= fuel)%nat →
  match expand_groups fuel topo e with
  | inr e' => (∀ g, is_group g → Acc depends g ∧ ∀ n, n ∈ members e' g ↔ expands nodes graph g n) ∧
      topo !! EmptyString = None
  | inl err => err = GraphCycle ∧ (is_Some (topo !! EmptyString) ∨ ¬ well_founded depends)
  end.
Proof.
  induction fuel as [|fuel IH]; intros topo e Hinv Hsize; cbn [expand_groups].
  all: destruct (decide (topo = ∅)) as [->|Hne].
  1,3: split; [|apply lookup_empty]; intros g Hg; by apply (ei_done _ _ Hinv g Hg (lookup_empty _)).
  { apply Nat.le_0_r, map_size_empty_inv in Hsize. done. }
  destruct (free_group_spec topo) as [Hfree|[Hempty Hstuck]].
  - destruct (decide (free_group topo = EmptyString)) as [He|He]; [split; [done|]; left; rewrite <-He; by eexists|].
    destruct (foldl (expand_into _) _ _) as [t' e'] eqn:Hfold.
    destruct (expand_inv_step _ _ _ _ _ Hinv Hfree Hfold) as [Hinv' Hdom].
    assert (size t' <= fuel)%nat as Hsize'.
    { assert (dom t' = dom (delete (free_group topo) topo)) as Hd.
      { apply set_eq. intros k. rewrite !elem_of_dom, Hdom, lookup_delete_is_Some. naive_solver. }
      rewrite <-size_dom, Hd, size_dom, map_size_delete_Some by (by eexists). lia. }
    specialize (IH t' e' Hinv' Hsize').
    destruct (expand_groups fuel t' e') as [|e''].
    + destruct IH as [? [[_ ?]%Hdom|?]]; auto.
    + destruct IH as [? Hn]. split; [done|]. apply eq_None_not_Some. intros Hs.
      apply eq_None_not_Some in Hn. apply Hn, Hdom. done.
  - rewrite decide_True by done. split; [done|]. right. intros Hwf.
    assert (∀ g, topo !! g = None) as Hall; [|by apply Hne, map_empty].
    intros g. induction (Hwf g) as [g _ IHg]. apply eq_None_not_Some. intros [deps Hg].
    destruct deps as [|d deps]; [by destruct (Hstuck g)|].
    destruct (proj1 (ei_deps _ _ Hinv g (d :: deps) d Hg) (list_elem_of_here _ _)) as [Hd Hs].
    specialize (IHg d Hd). rewrite IHg in Hs. by destruct Hs.
Qed.

End expansion.

(** ** Pass 3 and the whole *)

Section whole.
Context `{MR : MapRange} `{U : Unicode}.
Implicit Types nodes graph : list string.

Lemma paired_comm graph a b : paired graph a b → paired graph b a.
Proof. intros (l & Hl & Hs). exists l. split; [done|]. by rewrite (Permutation_swap a b []). Qed.

Lemma elem_of_pair_nodes xs ys x y :
  (x, y) ∈ pair_nodes xs ys ↔ str_lt x y ∧ (x ∈ xs ∧ y ∈ ys ∨ y ∈ xs ∧ x ∈ ys).
Proof.
  unfold pair_nodes. setoid_rewrite list_elem_of_bind. setoid_rewrite list_elem_of_bind. split.
  - intros (x1 & (y1 & Hp & Hy) & Hx). case_decide as Hd; [by apply not_elem_of_nil in Hp|].
    apply list_elem_of_singleton in Hp. apply MakeSortedPair_spec in Hp; [|done]. naive_solver.
  - intros (Hlt & Hin).
    assert (x ≠ y) as Hne by (intros ->; by apply Hlt).
    destruct Hin as [[Hx Hy]|[Hy Hx]]; [exists x; split; [exists y|done]|exists y; split; [exists x|done]].
    all: split; [|done]; rewrite decide_False by congruence; apply list_elem_of_singleton, MakeSortedPair_spec; auto.
Qed.

Lemma rewrite_pairs_spec nodes e pairs : ∀ acc, pairs_normal acc →
  pairs_normal (foldl (rewrite_pair nodes e) acc pairs) ∧
  ∀ p, p ∈ foldl (rewrite_pair nodes e) acc pairs ↔
    p ∈ acc ∨ ∃ q, q ∈ pairs ∧ p ∈ pair_nodes (symbol_nodes nodes e q.1) (symbol_nodes nodes e q.2).
Proof.
  induction pairs as [|q pairs IH]; intros acc Hacc; cbn [foldl].
  { split; [done|]. intros p. split; [by left|]. intros [?|(q & ?%not_elem_of_nil & _)]; done. }
  destruct (IH (rewrite_pair nodes e acc q)) as [IH1 IH2]; [apply Compact_SortPairs|].
  split; [done|]. intros p. rewrite IH2. unfold rewrite_pair at 1.
  rewrite elem_of_Compact_SortPairs, elem_of_app. setoid_rewrite elem_of_cons. naive_solver.
Qed.

Lemma elem_of_symbols nodes graph m :
  m ∈ Compact (Sort (nodes ++ (group_defs graph).*1)) ↔ declared nodes graph m.
Proof. by rewrite elem_of_Compact, elem_of_Sort, elem_of_app. Qed.

(** The checks of the first two passes, line by line, are the syntactic part of [graph_ok]. *)
Lemma lines_ok_iff nodes graph symbols : (∀ m, m ∈ symbols ↔ declared nodes graph m) →
  (∀ line, line ∈ graph → contains "=" (clean line) = true → is_Some (group_line line)) →
  Forall (line_ok symbols) graph ↔
  (∀ g b, (g, b) ∈ group_defs graph → names b ≠ [] ∧ Forall (declared nodes graph) (names b)) ∧
  (∀ l, l ∈ pair_lines graph → (2 <= length (names l))%nat ∧ Forall (declared nodes graph) (names l)).
Proof.
  intros Hsym Hgl.
  assert (∀ l, Forall (.∈ symbols) l ↔ Forall (declared nodes graph) l) as HF.
  { intros l. rewrite !Forall_forall. naive_solver. }
  rewrite Forall_forall. unfold line_ok, pair_lines, group_defs. split.
  - intros H. split.
    + intros g b (line & Hin & Hline)%list_elem_of_omap. specialize (H line Hin).
      rewrite Hline in H. by rewrite <-HF.
    + intros l [Hc (line & -> & Hin)%list_elem_of_fmap]%list_elem_of_filter. specialize (H line Hin).
      unfold group_line in H. rewrite Hc in H. by rewrite <-HF.
  - intros [H1 H2] line Hin. destruct (group_line line) as [[g b]|] eqn:Hline; rewrite HF.
    + apply (H1 g b), list_elem_of_omap. eauto.
    + apply H2, list_elem_of_filter. split; [|by apply list_elem_of_fmap; eauto].
      apply not_true_is_false. intros Hc. destruct (Hgl line Hin Hc). congruence.
Qed.

(** What a graph connects. *)
Definition connects nodes graph (x y : string) : Prop :=
  ∃ a b, paired graph a b ∧ expands nodes graph a x ∧ expands nodes graph b y.

Lemma connects_comm nodes graph x y : connects nodes graph x y → connects nodes graph y x.
Proof. intros (a & b & Hp%paired_comm & Ha & Hb). by exists b, a. Qed.

Lemma symbol_nodes_spec nodes graph e s n :
  (∀ g, g ∈ (group_defs graph).*1 → g ∉ nodes) →
  (∀ g, g ∈ (group_defs graph).*1 → ∀ n, n ∈ members e g ↔ expands nodes graph g n) →
  declared nodes graph s → n ∈ symbol_nodes nodes e s ↔ expands nodes graph s n.
Proof.
  intros Hgn He Hs. unfold symbol_nodes. case_decide as Hd.
  - rewrite list_elem_of_singleton. split; [intros ->; by constructor|by apply expands_of_node].
  - apply He. by destruct Hs.
Qed.

Lemma elem_of_sorted_pair_nodes (f : string → list string) a b x y :
  (x, y) ∈ pair_nodes (f (MakeSortedPair a b).1) (f (MakeSortedPair a b).2) ↔
  str_lt x y ∧ (x ∈ f a ∧ y ∈ f b ∨ y ∈ f a ∧ x ∈ f b).
Proof. rewrite elem_of_pair_nodes. unfold MakeSortedPair. case_decide; cbn; tauto. Qed.

Lemma pairs_exact nodes graph st e :
  parsed_ok nodes graph st →
  (∀ s n, declared nodes graph s → n ∈ symbol_nodes nodes e s ↔ expands nodes graph s n) →
  (∀ l, l ∈ pair_lines graph → Forall (declared nodes graph) (names l)) →
  pairs_normal (foldl (rewrite_pair nodes e) [] (parsedPairings st)) ∧
  ∀ x y, (x, y) ∈ foldl (rewrite_pair nodes e) [] (parsedPairings st) ↔ str_lt x y ∧ connects nodes graph x y.
Proof.
  intros Hok He Hp.
  destruct (rewrite_pairs_spec nodes e (parsedPairings st) []) as [Hnorm Hin]; [split; constructor|].
  split; [done|]. intros x y. rewrite Hin. clear Hin Hnorm.
  assert (∀ a b, paired graph a b → declared nodes graph a) as Hdecl.
  { intros a b (l & Hl & Hs). specialize (Hp l Hl). rewrite Forall_forall in Hp. apply Hp.
    eapply elem_of_submseteq; [|done]. by left. }
  assert (∀ a b, paired graph a b → declared nodes graph b) as Hdecl'.
  { intros a b Hab%paired_comm. by eapply Hdecl. }
  split.
  - intros [?%not_elem_of_nil|(q & Hq & Hxy)]; [done|].
    apply (po_pairs _ _ _ Hok) in Hq as (a & b & Hab & ->).
    apply (elem_of_sorted_pair_nodes (symbol_nodes nodes e)) in Hxy as [Hlt Hxy]. split; [done|].
    rewrite !He in Hxy by eauto. destruct Hxy as [[? ?]|[? ?]]; [by exists a, b|].
    exists b, a. split; [by apply paired_comm|done].
  - intros (Hlt & a & b & Hab & Hx & Hy). right. exists (MakeSortedPair a b). split.
    + apply (po_pairs _ _ _ Hok). eauto.
    + apply (elem_of_sorted_pair_nodes (symbol_nodes nodes e)). rewrite !He by eauto. auto.
Qed.

Lemma groups_ok_spec nodes graph : groups_ok nodes graph ↔
  (∀ line, line ∈ graph → contains "=" (clean line) = true → is_Some (group_line line)) ∧
  (∀ g, g ∈ (group_defs graph).*1 → g ∉ nodes).
Proof.
  split.
  - intros H. split.
    + intros line Hin Hc. destruct (H line Hin Hc) as (g & b & -> & _). by eexists.
    + intros g Hg. apply list_elem_of_fmap in Hg as ([g' b] & -> & Hd).
      apply list_elem_of_omap in Hd as (line & Hin & Hl).
      destruct (H line Hin) as (g1 & b1 & Hl1 & Hn); [|by simplify_eq].
      unfold group_line in Hl. by destruct (contains "=" (clean line)).
  - intros [Heq Hgn] line Hin Hc. destruct (Heq line Hin Hc) as [[g b] Hl].
    exists g, b. split; [done|]. apply Hgn, list_elem_of_fmap. exists (g, b). split; [done|].
    apply list_elem_of_omap. eauto.
Qed.

(** The errors the parser reports: neither an index out of range nor spent fuel. *)
Definition reported (e : GraphErr) : Prop := e ≠ IndexPanic ∧ e ≠ OutOfFuel.

Lemma parseSymbolList_reported s symbols e : parseSymbolList s symbols = inl e → reported e.
Proof.
  unfold parseSymbolList. generalize (@nil string) (Split "," (TrimSpace s)). intros line spl. revert line.
  induction spl as [|x spl IH]; intros line; cbn [symbol_list]; [by destruct line; intros [= <-]|].
  repeat case_decide; [apply IH..|]. by intros [= <-].
Qed.

Lemma collect_symbols_reported nodes graph : ∀ symbols e, collect_symbols nodes symbols graph = inl e → reported e.
Proof.
  induction graph as [|line graph IH]; intros symbols e; cbn [collect_symbols]; [done|].
  destruct (contains _ _); [|apply IH]. destruct (Split _ _) as [|s0 [|s1 [|]]]; try by intros [= <-].
  case_decide; [by intros [= <-]|apply IH].
Qed.

Lemma parse_lines_reported nodes symbols graph : ∀ st e,
  (∀ line, line ∈ graph → contains "=" (clean line) = true → is_Some (group_line line)) →
  parse_lines nodes symbols st graph = inl e → reported e.
Proof.
  induction graph as [|line graph IH]; intros st e Hgl; cbn [parse_lines]; [done|].
  destruct (parse_line nodes symbols st line) as [e'|st'] eqn:E; [|apply IH; intros ? ?; apply Hgl; by right].
  intros [= <-]. revert E. specialize (Hgl line (list_elem_of_here _ _)). unfold parse_line, group_line in *.
  destruct (contains _ _).
  - destruct (Hgl eq_refl) as [gb Hs]. destruct (Split _ _) as [|s0 [|s1 [|]]]; try done.
    destruct (groups st !! _); [by intros [= <-]|].
    destruct (parseSymbolList s1 symbols) eqn:E; [intros [= <-]; by eapply parseSymbolList_reported|].
    by destruct (foldl _ _ _).
  - destruct (parseSymbolList _ symbols) eqn:E; [intros [= <-]; by eapply parseSymbolList_reported|].
    destruct (_ <? _)%nat; [by intros [= <-]|done].
Qed.

Lemma ParseGraph_spec graph nodes :
  match ParseGraph graph nodes with
  | inr ps => graph_ok nodes graph ∧ pairs_normal ps ∧
      ∀ x y, (x, y) ∈ ps ↔ str_lt x y ∧ connects nodes graph x y
  | inl err => reported err ∧ ¬ graph_ok nodes graph
  end.
Proof.
  unfold ParseGraph. pose proof (collect_symbols_reported nodes graph nodes) as R0. pose proof (collect_symbols_spec nodes graph nodes) as H0.
  destruct (collect_symbols nodes nodes graph) as [err|symbols].
  { split; [by apply R0|]. intros [Heq Hgr _ _ _ _]. apply H0, groups_ok_spec. split; [done|]. intros g Hg. by apply Hgr. }
  destruct H0 as [-> [Heq Hgn]%groups_ok_spec].
  set (syms := Compact _). pose proof (lines_ok_iff nodes graph syms (elem_of_symbols nodes graph) Heq) as Hlines.
  pose proof (parse_lines_spec nodes syms graph [] (mkParsed [] ∅ ∅ ∅) Heq (parsed_ok_nil nodes)) as H1.
  pose proof (parse_lines_reported nodes syms graph (mkParsed [] ∅ ∅ ∅)) as R1.
  destruct (parse_lines _ _ _ _) as [err|st].
  { split; [by apply R1|]. intros [_ _ Hnd Hb Hp _]. apply H1. split; [by apply Hlines|done]. }
  destruct H1 as [Hok [Hb Hp]%Hlines]. cbn [app] in Hok.
  assert (∀ g m, defines graph g m → declared nodes graph m) as Hdecl.
  { intros g m (b & Hin & Hm). destruct (Hb g b Hin) as [_ HF]. rewrite Forall_forall in HF. auto. }
  pose proof (expand_inv_init nodes graph Hgn Hdecl st Hok) as Hinv.
  assert (∀ g, g ∈ (group_defs graph).*1 → is_Some (topo st !! g)) as Hdom.
  { intros g Hg. apply list_elem_of_fmap in Hg as ([g' b] & -> & Hin). eexists. apply (po_topo _ _ _ Hok). eauto. }
  pose proof (expand_groups_spec nodes graph Hgn Hdecl (size (topo st)) (topo st) (expansion st) Hinv (le_n _)) as H2.
  destruct (expand_groups _ _ _) as [err|e].
  { destruct H2 as [-> H2]. split; [done|]. intros [_ Hgr _ _ _ Hac]. destruct H2 as [Hs|]; [|done].
    by apply (ei_groups _ _ _ _ Hinv), Hgr in Hs as [_ ?]. }
  destruct H2 as [He Hempty]. split.
  - split; [exact Heq| | |exact Hb|exact Hp|].
    + intros g Hg. split; [by apply Hgn|]. intros ->. apply Hdom in Hg. rewrite Hempty in Hg. by destruct Hg.
    + apply (po_distinct _ _ _ Hok).
    + intros g. constructor. intros m Hd.
      destruct (Hdecl _ _ Hd) as [?|?]; [by apply (node_acc nodes)|by apply He].
  - apply pairs_exact; [done| |intros; by apply Hp].
    intros s n Hs. apply symbol_nodes_spec; [done| |done]. intros g Hg. by apply He.
Qed.

Definition all_nodes {H} (c : CentralCfgOf H) : list string :=
  ((λ r, rc_Id r) <$> c_Routers c) ++ ((λ r, cc_Id r) <$> c_Clients c).

Lemma elem_of_edge_peer x y a b : y ≠ EmptyString → a ≠ b →
  y ∈ edge_peer x (a, b) ↔ x ≠ y ∧ (a = x ∧ b = y ∨ a = y ∧ b = x).
Proof.
  intros Hy Hab. unfold edge_peer. cbn [fst snd].
  destruct (decide (b = x)); [|destruct (decide (a = x))].
  all: case_decide; rewrite ?list_elem_of_singleton, ?elem_of_nil; naive_solver.
Qed.

(** Who is in the peer list of a node. *)
Lemma elem_of_GetPeers {H} (c : CentralCfgOf H) x px y : GetPeers c x = Some px → y ≠ EmptyString →
  y ∈ px ↔ x ≠ y ∧ connects (all_nodes c) (c_Graph c) x y.
Proof.
  unfold GetPeers. intros HP Hy. pose proof (ParseGraph_spec (c_Graph c) (all_nodes c)) as HG.
  unfold all_nodes in *. destruct (ParseGraph _ _) as [|ps]; [done|]. simplify_eq.
  destruct HG as (_ & _ & Hps). rewrite list_elem_of_bind. split.
  - intros ([a b] & Hin & Hab). apply Hps in Hab as [Hlt Hc].
    assert (a ≠ b) as Hab by (intros ->; by apply Hlt).
    apply elem_of_edge_peer in Hin as [Hne [[-> ->]|[-> ->]]]; [done| |done..].
    split; [done|]. by apply connects_comm.
  - intros [Hne Hc]. destruct (decide (str_lt x y)) as [Hlt|Hge].
    + exists (x, y). split; [apply elem_of_edge_peer; auto|by apply Hps].
    + exists (y, x). split; [apply elem_of_edge_peer; auto|]. apply Hps. split; [|by apply connects_comm].
      intros Hle. apply Hne, (anti_symm String.le); [done|by apply not_str_lt].
Qed.

(** C38: a graph is accepted exactly when it makes sense: definitions have one equals
    sign, group names are given, distinct and different from node names, every symbol is
    a node or a defined group, lists are not empty, connections have two symbols or more,
    and no group contains itself, directly or through others.  Any other graph is
    rejected with an error: no index is out of range, and the rounds of the topological
    sort are enough, whatever order Go visits its maps in. *)
Theorem parse_graph_accepts graph nodes :
  ((∃ ps, ParseGraph graph nodes = inr ps) ↔ graph_ok nodes graph) ∧
  ∀ e, ParseGraph graph nodes = inl e → e ≠ IndexPanic ∧ e ≠ OutOfFuel.
Proof.
  pose proof (ParseGraph_spec graph nodes) as HG. destruct (ParseGraph graph nodes) as [e|ps].
  - destruct HG as [He Hno]. split; [|by intros ? [= <-]]. split; [by intros [? ?]|done].
  - destruct HG as [Hok _]. split; [|done]. split; [done|]. by eexists.
Qed.

(** C39: an accepted graph connects two nodes exactly when two symbols listed in one line
    stand for them; each connection is listed once, smaller name first, in order, and no
    node is connected to itself. *)
Theorem parse_graph_exact graph nodes ps :
  ParseGraph graph nodes = inr ps →
  StronglySorted pair_le ps ∧ NoDup ps ∧
  ∀ x y, (x, y) ∈ ps ↔ str_lt x y ∧ connects nodes graph x y.
Proof.
  intros HP. pose proof (ParseGraph_spec graph nodes) as HG. rewrite HP in HG.
  destruct HG as (_ & [Hs Hn] & Hps). done.
Qed.

(** peering is symmetric: of two nodes, either both have the other as a peer or
    neither has, and they do exactly when they differ and the graph connects them. *)
Theorem get_peers_symmetric {H} (c : CentralCfgOf H) x y px py :
  x ≠ EmptyString → y ≠ EmptyString → GetPeers c x = Some px → GetPeers c y = Some py →
  (y ∈ px ↔ x ∈ py) ∧ (y ∈ px ↔ x ≠ y ∧ connects (all_nodes c) (c_Graph c) x y).
Proof.
  intros Hx Hy HPx HPy. rewrite (elem_of_GetPeers c x px y HPx Hy), (elem_of_GetPeers c y py x HPy Hx).
  split; [|done]. split; intros [? ?%connects_comm]; auto.
Qed.

End whole.

(** ** A concrete graph *)

Module GraphDemo.

Definition nodes : list string := ["alpha"; "beta"; "gamma"; "delta"].

(** Two groups, one inside the other, and two lines of connections. *)
Definition graph : list string :=
  ["Edge = beta, gamma"; "all = edge, alpha"; " edge, alpha "; "all, delta"].

Definition edges : list Pair :=
  [("alpha", "beta"); ("alpha", "delta"); ("alpha", "gamma"); ("beta", "delta"); ("delta", "gamma")].

Lemma parsed : @ParseGraph sorted_range plain_unicode graph nodes = inr edges.
Proof. vm_compute. reflexivity. Qed.

Lemma parse_graph_exact_witness :
  ("beta", "delta") ∈ edges ∧
  (str_lt "beta" "delta" ∧ @connects plain_unicode nodes graph "beta" "delta").
Proof.
  pose proof (@parse_graph_exact sorted_range plain_unicode graph nodes edges parsed) as (_ & _ & H).
  assert (("beta", "delta") ∈ edges) as Hin by (refine (bool_decide_eq_true_1 _ _); vm_compute; reflexivity).
  split; [exact Hin|]. apply H. exact Hin.
Defined.

Definition node (id : string) : RouterCfg := mkRouterCfg (mkNodeCfg id 0 [] [] 0) [] false.

Definition cfg : CentralCfg := mkCentralCfg (node <$> nodes) [] graph 0 [] None.

Lemma get_peers_symmetric_witness :
  "gamma" ∈ ["alpha"; "beta"; "gamma"] ↔ "delta" ∈ ["alpha"; "delta"].
Proof.
  pose proof (@get_peers_symmetric sorted_range plain_unicode _ cfg "delta" "gamma" ["alpha"; "beta"; "gamma"] ["alpha"; "delta"]) as H.
  apply H; [discriminate|discriminate|vm_compute; reflexivity|vm_compute; reflexivity].
Defined.

(** A group without a name makes the topological sort report a cycle. *)
Lemma nameless_group_is_cycle :
  @ParseGraph sorted_range plain_unicode ["= alpha"; "alpha, beta"] nodes = inl GraphCycle.
Proof. vm_compute. reflexivity. Qed.

End GraphDemo.
