(* ===== verification/Replay.v ===== *)
(** The anti-replay window of the transport ([polyamide/replay/replay.go]): a ring of
    64-bit blocks, and the proof that it implements the window of RFC 6479, a set of the
    counters seen so far. *)

From S2P Require Import Prelude.

Definition blockBitLog : Z := 6.
Definition blockBits : Z := Z.shiftl 1 blockBitLog.
Definition ringBlocks : Z := Z.shiftl 1 7.
Definition windowSize : Z := (ringBlocks - 1) * blockBits.
Definition blockMask : Z := ringBlocks - 1.
Definition bitMask : Z := blockBits - 1.

(** The ring is a Go array of [ringBlocks] elements. *)
Record Filter := mkFilter { last : Z; ring : list Z }.

Definition ring_at (r : list Z) (i : Z) : Z := default 0 (r !! Z.to_nat i).

Definition ring_set (r : list Z) (i v : Z) : list Z := <[Z.to_nat i := v]> r.

Definition zero_filter : Filter := mkFilter 0 (replicate (Z.to_nat ringBlocks) 0).

Definition Filter_Reset (f : Filter) : Filter := mkFilter 0 (ring_set (ring f) 0 0).

(** [for i := current + 1; i <= current+diff; i++], with [n] rounds to go. *)
Fixpoint clear_blocks (n : nat) (i : Z) (r : list Z) : list Z :=
  match n with
  | O => r
  | S n => clear_blocks n (uint64 (i + 1)) (ring_set r (Z.land i blockMask) 0)
  end.

Definition check_and_set (f : Filter) (counter : Z) : bool * Filter :=
  let indexBlock := Z.land (Z.shiftr counter blockBitLog) blockMask in
  let indexBit := Z.land counter bitMask in
  let old := ring_at (ring f) indexBlock in
  let new := Z.lor old (uint64 (Z.shiftl 1 indexBit)) in
  (negb (old =? new), mkFilter (last f) (ring_set (ring f) indexBlock new)).

Definition ValidateCounter (f : Filter) (counter limit : Z) : bool * Filter :=
  if limit <=? counter then (false, f)
  else
    let indexBlock := Z.shiftr counter blockBitLog in
    if last f <? counter then
      let current := Z.shiftr (last f) blockBitLog in
      let diff := uint64 (indexBlock - current) in
      let diff := if ringBlocks <? diff then ringBlocks else diff in
      check_and_set (mkFilter counter (clear_blocks (Z.to_nat diff) (uint64 (current + 1)) (ring f))) counter
    else if windowSize <? uint64 (last f - counter) then (false, f)
    else check_and_set f counter.

(** The answers to a sequence of counters, each with its limit. *)
Fixpoint validate_all (f : Filter) (cs : list (Z * Z)) : list bool :=
  match cs with
  | [] => []
  | (c, limit) :: cs => let '(ok, f) := ValidateCounter f c limit in ok :: validate_all f cs
  end.

(** ** The specification: the newest counter, and the set of those accepted *)

Record window := mkWindow { newest : Z; seen : gset Z }.

Definition window_validate (w : window) (c limit : Z) : bool * window :=
  if limit <=? c then (false, w)
  else if windowSize <? newest w - c then (false, w)
  else (bool_decide (c ∉ seen w), mkWindow (Z.max (newest w) c) ({[c]} ∪ seen w)).

Fixpoint window_validate_all (w : window) (cs : list (Z * Z)) : list bool :=
  match cs with
  | [] => []
  | (c, limit) :: cs => let '(ok, w) := window_validate w c limit in ok :: window_validate_all w cs
  end.

(** The counters that were answered with [true]. *)
Definition accepted (cs : list (Z * Z)) (oks : list bool) : list Z :=
  fst <$> filter (λ x, x.2 = true) (zip cs.*1 oks).

(** ** The ring *)

Lemma length_ring_set r i v : length (ring_set r i v) = length r.
Proof. apply length_insert. Qed.

Lemma ring_at_set r i j v : 0 <= i → 0 <= j → (Z.to_nat i < length r)%nat →
  ring_at (ring_set r i v) j = if decide (i = j) then v else ring_at r j.
Proof.
  intros Hi Hj Hl. unfold ring_at, ring_set. case_decide as Hd.
  - subst. by rewrite list_lookup_insert_eq.
  - by rewrite list_lookup_insert_ne by lia.
Qed.

Lemma land_blockMask i : Z.land i blockMask = i mod 128.
Proof. change blockMask with (Z.ones 7). by rewrite Z.land_ones. Qed.

Lemma land_bitMask i : Z.land i bitMask = i mod 64.
Proof. change bitMask with (Z.ones 6). by rewrite Z.land_ones. Qed.

Lemma shiftr_block c : Z.shiftr c blockBitLog = c / 64.
Proof. by rewrite Z.shiftr_div_pow2. Qed.

Lemma mod128_index (r : list Z) i : length r = 128%nat → (Z.to_nat (i mod 128) < length r)%nat.
Proof. intros ->. pose proof (Z.mod_pos_bound i 128). lia. Qed.

(** Clearing [n] blocks from [i] on clears exactly the blocks of these numbers. *)
Lemma clear_blocks_spec n : ∀ i r, length r = 128%nat → 0 <= i → i + Z.of_nat n < 2 ^ 64 →
  length (clear_blocks n i r) = 128%nat ∧
  ∀ b, ring_at (clear_blocks n i r) (b mod 128) =
    if decide (0 <= (b - i) mod 128 < Z.of_nat n) then 0 else ring_at r (b mod 128).
Proof.
  induction n as [|n IH]; intros i r Hl Hi Hn; cbn [clear_blocks].
  { split; [done|]. intros b. by rewrite decide_False by lia. }
  rewrite wrap_small by (unfold in_width; lia).
  destruct (IH (i + 1) (ring_set r (Z.land i blockMask) 0)) as [IH1 IH2]; [by rewrite length_ring_set|lia..|].
  split; [done|]. intros b. rewrite IH2, land_blockMask.
  rewrite ring_at_set; [|apply Z.mod_pos_bound; lia..|by apply mod128_index].
  assert ((b - (i + 1)) mod 128 = if decide ((b - i) mod 128 = 0) then 127 else (b - i) mod 128 - 1) as Hm.
  { case_decide; Z.div_mod_to_equations; lia. }
  assert (i mod 128 = b mod 128 ↔ (b - i) mod 128 = 0) as He by (Z.div_mod_to_equations; lia).
  pose proof (Z.mod_pos_bound (b - i) 128).
  repeat case_decide; try done; try lia; tauto.
Qed.

(** ** Refinement *)

(** The counters whose bit is still in the ring. *)
Definition in_ring (newest c : Z) : Prop := 0 <= c ∧ newest / 64 - 127 <= c / 64 <= newest / 64.

Record implements (f : Filter) (w : window) : Prop := {
  im_newest : last f = newest w;
  im_range : 0 <= newest w < 2 ^ 64;
  im_ring : length (ring f) = 128%nat;
  im_seen : ∀ c, c ∈ seen w → 0 <= c <= newest w;
  im_bits : ∀ c, in_ring (newest w) c →
    Z.testbit (ring_at (ring f) (c / 64 mod 128)) (c mod 64) = bool_decide (c ∈ seen w);
}.

Lemma implements_reset f : length (ring f) = 128%nat → implements (Filter_Reset f) (mkWindow 0 ∅).
Proof.
  intros Hl. split; cbn; [done|lia| | |].
  - by rewrite length_ring_set.
  - intros c. set_solver.
  - intros c [Hc Hr]. change (0 / 64) with 0 in Hr.
    assert (c / 64 = 0) as -> by (pose proof (Z.div_pos c 64); lia).
    change (0 mod 128) with 0. rewrite ring_at_set; [|lia|lia|rewrite Hl; lia]. rewrite decide_True by done.
    rewrite Z.testbit_0_l. by rewrite bool_decide_eq_false_2 by set_solver.
Qed.

(** Moving the window forward. *)
Lemma implements_advance f w c : implements f w → newest w < c < 2 ^ 64 →
  let diff := Z.min ringBlocks (c / 64 - newest w / 64) in
  implements (mkFilter c (clear_blocks (Z.to_nat diff) (newest w / 64 + 1) (ring f))) (mkWindow c (seen w)).
Proof.
  intros [Hn Hr Hl Hs Hb] Hc diff.
  assert (0 <= newest w / 64 <= c / 64) as Hq by (Z.div_mod_to_equations; lia).
  assert (c / 64 < 2 ^ 58) as Hq' by (apply Z.div_lt_upper_bound; lia).
  unfold diff, ringBlocks in *. change (Z.shiftl 1 7) with 128 in *.
  destruct (clear_blocks_spec (Z.to_nat (Z.min 128 (c / 64 - newest w / 64))) (newest w / 64 + 1) (ring f))
    as [Hl' Hclear]; [done|lia|lia|].
  split; cbn; [done|lia|done| |].
  - intros x Hx%Hs. lia.
  - intros x [Hx0 Hx]. rewrite Hclear. destruct (decide (newest w / 64 < x / 64)) as [Hnew|Hold].
    + rewrite decide_True.
      * rewrite Z.testbit_0_l. symmetry. apply bool_decide_eq_false. intros Hin%Hs.
        assert (x / 64 <= newest w / 64) by (apply Z.div_le_mono; lia). lia.
      * pose proof (Z.mod_pos_bound (x / 64 - (newest w / 64 + 1)) 128).
        destruct (decide (128 <= c / 64 - newest w / 64)); [lia|]. rewrite Z.mod_small by lia. lia.
    + destruct (decide (newest w / 64 - 127 <= x / 64)) as [Hin|Hout].
      * rewrite decide_False; [apply Hb; split; lia|].
        assert ((x / 64 - (newest w / 64 + 1)) mod 128 = x / 64 - newest w / 64 + 127) as ->; [|lia].
        symmetry. apply Z.mod_unique with (-1); lia.
      * lia.
Qed.

Lemma testbit_mark old k j : 0 <= k < 64 → 0 <= j →
  Z.testbit (Z.lor old (uint64 (Z.shiftl 1 k))) j = (Z.testbit old j || (j =? k)).
Proof.
  intros Hk Hj. rewrite wrap_small.
  - rewrite Z.lor_spec, Z.shiftl_1_l, Z.pow2_bits_eqb by lia. by rewrite (Z.eqb_sym k j).
  - unfold in_width. rewrite Z.shiftl_1_l. split; [lia|]. apply Z.pow_lt_mono_r; lia.
Qed.

(** Testing and setting the bit of a counter inside the window. *)
Lemma implements_mark f w c : implements f w → in_ring (newest w) c → c <= newest w →
  (check_and_set f c).1 = bool_decide (c ∉ seen w) ∧
  implements (check_and_set f c).2 (mkWindow (newest w) ({[c]} ∪ seen w)).
Proof.
  intros [Hn Hr Hl Hs Hb] Hin Hle. unfold check_and_set. rewrite shiftr_block, land_blockMask, land_bitMask.
  set (old := ring_at (ring f) (c / 64 mod 128)).
  assert (∀ x, 0 <= x mod 64 < 64) as Hm by (intros; apply Z.mod_pos_bound; lia).
  pose proof (Hb c Hin) as Hbit. fold old in Hbit. cbn [fst snd]. split.
  - destruct (Z.eqb_spec old (Z.lor old (uint64 (Z.shiftl 1 (c mod 64))))) as [He|He]; cbn.
    + symmetry. apply bool_decide_eq_false. intros Hnot. apply Hnot.
      apply (bool_decide_eq_true (c ∈ seen w)). rewrite <-Hbit, He, testbit_mark by apply Hm.
      by rewrite Z.eqb_refl, orb_true_r.
    + symmetry. apply bool_decide_eq_true. intros Hseen. apply He.
      rewrite bool_decide_eq_true_2 in Hbit by done. apply Z.bits_inj'. intros j Hj.
      rewrite testbit_mark by (done || apply Hm). destruct (Z.eqb_spec j (c mod 64)) as [->|]; [by rewrite Hbit|].
      by rewrite orb_false_r.
  - split; cbn [last newest seen ring]; [done|done|by rewrite length_ring_set| |].
    + intros x. destruct Hin. set_unfold. intros [->|?]; [lia|by apply Hs].
    + intros x Hx. rewrite ring_at_set; [|apply Z.mod_pos_bound; lia..|by apply mod128_index].
      destruct (decide (c / 64 mod 128 = x / 64 mod 128)) as [Hd|Hd].
      * rewrite testbit_mark by apply Hm. unfold old. rewrite Hd, (Hb x Hx).
        assert (x / 64 = c / 64) as Hq.
        { destruct Hx as [_ Hx], Hin as [_ Hin]. Z.div_mod_to_equations; lia. }
        destruct (Z.eqb_spec (x mod 64) (c mod 64)) as [Hmod|Hmod].
        -- assert (x = c) as -> by (Z.div_mod_to_equations; lia).
           rewrite orb_true_r. symmetry. apply bool_decide_eq_true. set_solver.
        -- rewrite orb_false_r. apply bool_decide_ext. assert (x ≠ c) by congruence. set_solver.
      * rewrite (Hb x Hx). apply bool_decide_ext. assert (x ≠ c) by congruence. set_solver.
Qed.

(** One counter: the ring answers as the window does, and goes on implementing it. *)
Lemma ValidateCounter_refines f w c limit : implements f w → 0 <= c → limit <= 2 ^ 64 →
  (ValidateCounter f c limit).1 = (window_validate w c limit).1 ∧
  implements (ValidateCounter f c limit).2 (window_validate w c limit).2.
Proof.
  intros Him Hc Hlimit. pose proof Him as [Hn Hr Hl Hs Hb]. unfold ValidateCounter, window_validate.
  destruct (Z.leb_spec limit c) as [|Hlt]; [done|]. rewrite Hn, !shiftr_block.
  assert (0 <= newest w / 64 ∧ newest w / 64 < 2 ^ 58) as Hq.
  { split; [apply Z.div_pos; lia|apply Z.div_lt_upper_bound; lia]. }
  change windowSize with 8128. destruct (Z.ltb_spec (newest w) c) as [Hnew|Hold].
  - assert (newest w / 64 <= c / 64) by (apply Z.div_le_mono; lia).
    assert (c / 64 < 2 ^ 58) by (apply Z.div_lt_upper_bound; lia).
    rewrite (proj2 (Z.ltb_ge 8128 (newest w - c))) by lia.
    rewrite !wrap_small by (unfold in_width; lia). rewrite Z.max_r by lia.
    assert ((if ringBlocks <? c / 64 - newest w / 64 then ringBlocks else c / 64 - newest w / 64) =
      Z.min ringBlocks (c / 64 - newest w / 64)) as ->.
    { destruct (Z.ltb_spec ringBlocks (c / 64 - newest w / 64)); lia. }
    apply (implements_mark _ (mkWindow c (seen w))); cbn; [by apply implements_advance; [|lia]| |lia].
    split; lia.
  - rewrite wrap_small by (unfold in_width; lia).
    destruct (Z.ltb_spec 8128 (newest w - c)) as [|Hwin]; [done|]. rewrite Z.max_l by lia.
    apply implements_mark; [done| |lia]. split; [lia|]. Z.div_mod_to_equations; lia.
Qed.

Lemma validate_all_refines cs : ∀ f w, implements f w →
  (∀ c limit, (c, limit) ∈ cs → 0 <= c ∧ limit <= 2 ^ 64) →
  validate_all f cs = window_validate_all w cs.
Proof.
  induction cs as [|[c limit] cs IH]; intros f w Him Hcs; [done|]. cbn [validate_all window_validate_all].
  destruct (Hcs c limit) as [Hc Hlim]; [by left|].
  destruct (ValidateCounter_refines f w c limit Him Hc Hlim) as [He Him'].
  destruct (ValidateCounter f c limit), (window_validate w c limit). cbn in *. subst. f_equal.
  apply IH; [done|]. intros ? ? ?. apply Hcs. by right.
Qed.

(** The window accepts nothing twice. *)
Lemma window_accepts_once cs : ∀ w,
  NoDup (accepted cs (window_validate_all w cs)) ∧
  ∀ c, c ∈ accepted cs (window_validate_all w cs) → c ∉ seen w.
Proof.
  induction cs as [|[c limit] cs IH]; intros w; [split; [constructor|by intros ? ?%not_elem_of_nil]|].
  cbn [window_validate_all]. unfold window_validate.
  assert (∀ b l, accepted ((c, limit) :: cs) (b :: l) = if b then c :: accepted cs l else accepted cs l) as Hacc.
  { intros b l. unfold accepted. cbn [fmap list_fmap zip zip_with fst]. rewrite filter_cons. by destruct b. }
  destruct (limit <=? c); [rewrite Hacc; apply IH|].
  destruct (windowSize <? newest w - c); [rewrite Hacc; apply IH|]. rewrite Hacc.
  destruct (IH (mkWindow (Z.max (newest w) c) ({[c]} ∪ seen w))) as [Hnd Hns]. cbn [seen] in *.
  case_bool_decide as Hin.
  - split.
    + constructor; [|done]. intros ?%Hns. set_solver.
    + intros x [->|Hx%Hns]%elem_of_cons; set_solver.
  - split; [done|]. intros x Hx%Hns. set_solver.
Qed.

(** the anti-replay ring implements the window of RFC 6479: after a reset, whatever
    the ring held before, a counter is accepted exactly when it is below its limit, not
    more than 127 blocks behind the newest accepted counter, and was not accepted before;
    in particular no counter is accepted twice. *)
Theorem replay_filter_refines f cs :
  length (ring f) = 128%nat → (∀ c limit, (c, limit) ∈ cs → 0 <= c ∧ limit <= 2 ^ 64) →
  validate_all (Filter_Reset f) cs = window_validate_all (mkWindow 0 ∅) cs ∧
  NoDup (accepted cs (validate_all (Filter_Reset f) cs)).
Proof.
  intros Hl Hcs.
  pose proof (validate_all_refines cs _ _ (implements_reset f Hl) Hcs) as He. split; [done|].
  rewrite He. apply window_accepts_once.
Qed.

(** A ring full of stale bits, a jump forward by more than the whole ring, late and
    repeated counters, and one beyond the limit. *)
Definition replay_demo : list (Z * Z) :=
  [(0, 100000); (5, 100000); (5, 100000); (70, 100000); (64, 100000); (20000, 100000);
   (11872, 100000); (11871, 100000); (20000, 100000); (100000, 100000)].

Lemma replay_filter_refines_witness :
  validate_all (Filter_Reset (mkFilter 12345 (replicate 128 (2 ^ 64 - 1)))) replay_demo =
    [true; true; false; true; true; true; true; false; false; false] ∧
  NoDup (accepted replay_demo (validate_all (Filter_Reset (mkFilter 12345 (replicate 128 (2 ^ 64 - 1)))) replay_demo)).
Proof.
  destruct (replay_filter_refines (mkFilter 12345 (replicate 128 (2 ^ 64 - 1))) replay_demo) as [He Hn].
  - reflexivity.
  - intros c limit Hin. assert (forallb (λ x, (0 <=? x.1) && (x.2 <=? 2 ^ 64)) replay_demo = true) as HF by (vm_compute; reflexivity).
    rewrite forallb_forall in HF. apply list_elem_of_In in Hin. specialize (HF _ Hin). cbn in HF. to_prop. lia.
  - split; [vm_compute; reflexivity|exact Hn].
Defined.
