(* ===== verification/RateLimiter.v ===== *)
(** The token bucket that limits handshakes per source address
    ([polyamide/ratelimiter/ratelimiter.go]).  Times are nanoseconds since an arbitrary
    origin, and the garbage collection goroutine is the event [cleanup], which runs while
    its ticker does. *)

From S2P Require Import Prelude Bytes NetIP.

Definition packetsPerSecond : Z := 20.
Definition packetsBurstable : Z := 5.
Definition garbageCollectTime : Z := 1000000000.
Definition packetCost : Z := 1000000000 / packetsPerSecond.
Definition maxTokens : Z := packetCost * packetsBurstable.

Record RatelimiterEntry := mkEntry { lastTime : Z; tokens : Z }.

(** [ticking]: the ticker of the garbage collection goroutine runs. *)
Record Ratelimiter := mkRatelimiter { table : gmap Addr RatelimiterEntry; ticking : bool }.

(** [t.Sub(u)]: a duration, saturated at the width of [int64]. *)
Definition Sub (t u : Z) : Z := Z.max (- 2 ^ 63) (Z.min (t - u) (2 ^ 63 - 1)).

Definition Ratelimiter_Init : Ratelimiter := mkRatelimiter ∅ false.

Definition cleanup_entry (now : Z) (t : gmap Addr RatelimiterEntry) (kv : Addr * RatelimiterEntry) :
    gmap Addr RatelimiterEntry :=
  if garbageCollectTime <? Sub now (lastTime kv.2) then delete kv.1 t else t.

(** A tick: [cleanup], after which the ticker stops if the table is empty. *)
Definition cleanup `{MapRange} (now : Z) (r : Ratelimiter) : Ratelimiter :=
  if ticking r
  then
    let t := foldl (cleanup_entry now) (table r) (map_range (table r)) in
    mkRatelimiter t (negb (bool_decide (size t = 0%nat)))
  else r.

(** The two critical sections after the lookup: a new entry, under the lock of the table,
    and the tokens of an entry, under its own. *)
Definition insert_entry (now : Z) (r : Ratelimiter) (ip : Addr) : Ratelimiter :=
  let t := <[ip := mkEntry now (maxTokens - packetCost)]> (table r) in
  mkRatelimiter t (ticking r || bool_decide (size t = 1%nat)).

Definition take_tokens (now : Z) (entry : RatelimiterEntry) : bool * RatelimiterEntry :=
  let tokens := int64 (tokens entry + Sub now (lastTime entry)) in
  let tokens := if maxTokens <? tokens then maxTokens else tokens in
  if packetCost <? tokens then (true, mkEntry now (tokens - packetCost)) else (false, mkEntry now tokens).

(** A call, with nothing in between its lookup and what it does then: calls that overlap may
    both find no entry (see [overlapping_calls]). *)
Definition Allow (now : Z) (r : Ratelimiter) (ip : Addr) : bool * Ratelimiter :=
  match table r !! ip with
  | None => (true, insert_entry now r ip)
  | Some entry =>
      let '(ok, entry) := take_tokens now entry in
      (ok, mkRatelimiter (<[ip := entry]> (table r)) (ticking r))
  end.

Inductive RateEvent := EvAllow (ip : Addr) | EvCleanup.

(** How many packets of [ip] a sequence of timed events lets through, and the state after it. *)
Fixpoint run_limiter `{MapRange} (r : Ratelimiter) (ip : Addr) (evs : list (Z * RateEvent)) : Z * Ratelimiter :=
  match evs with
  | [] => (0, r)
  | (now, EvCleanup) :: evs => run_limiter (cleanup now r) ip evs
  | (now, EvAllow ip') :: evs =>
      let '(ok, r) := Allow now r ip' in
      let '(n, r) := run_limiter r ip evs in
      ((if ok && bool_decide (ip' = ip) then 1 else 0) + n, r)
  end.

(** ** Accounting *)

(** Every bucket was last used at a time in the past, and holds a legal amount. *)
Definition bucket_ok (now : Z) (e : RatelimiterEntry) : Prop :=
  0 <= lastTime e <= now ∧ 0 <= tokens e <= maxTokens.

Definition limiter_ok (now : Z) (r : Ratelimiter) : Prop :=
  0 <= now < 2 ^ 62 ∧ ∀ ip e, table r !! ip = Some e → bucket_ok now e.

(** What a source could spend at [now]; an unknown source has a full bucket. *)
Definition credit (now : Z) (r : Ratelimiter) (ip : Addr) : Z :=
  match table r !! ip with
  | Some e => Z.min maxTokens (tokens e + (now - lastTime e))
  | None => maxTokens
  end.

Lemma limiter_constants :
  maxTokens = 250000000 ∧ packetCost = 50000000 ∧ garbageCollectTime = 1000000000 ∧ packetsBurstable = 5.
Proof. done. Qed.

(** Arithmetic with the constants at their values. *)
Ltac limiter := pose proof limiter_constants as (?Hmax & ?Hcost & ?Hgc & ?Hburst); lia.

Lemma Sub_small t u : 0 <= u <= t → t < 2 ^ 62 → Sub t u = t - u.
Proof. unfold Sub. lia. Qed.

Lemma credit_bounds now r ip : limiter_ok now r → 0 <= credit now r ip <= maxTokens.
Proof.
  intros [_ Hok]. unfold credit. destruct (table r !! ip) as [e|] eqn:E; [|limiter].
  destruct (Hok ip e E). lia.
Qed.

Lemma limiter_ok_later now now' r : limiter_ok now r → now <= now' < 2 ^ 62 → limiter_ok now' r.
Proof. intros [? Hok] ?. split; [lia|]. intros ip e [? ?]%Hok. split; lia. Qed.

Lemma credit_later now now' r ip : now <= now' → credit now' r ip <= credit now r ip + (now' - now).
Proof. intros. unfold credit. destruct (table r !! ip); lia. Qed.

(** Garbage collection removes only full buckets. *)
Lemma cleanup_spec `{MapRange} now r : limiter_ok now r →
  limiter_ok now (cleanup now r) ∧ ∀ ip, credit now (cleanup now r) ip = credit now r ip.
Proof.
  intros [Hnow Hok]. unfold cleanup. destruct (ticking r); [|done]. cbn.
  set (t := foldl _ _ _).
  assert (∀ ip, t !! ip = match table r !! ip with
      | Some e => if garbageCollectTime <? Sub now (lastTime e) then None else Some e | None => None end) as Ht.
  { intros ip. unfold t. rewrite (foldl_map_range_pointwise
      (λ ip e o, if garbageCollectTime <? Sub now (lastTime e) then None else o)).
    - by destruct (table r !! ip).
    - intros t' k e. unfold cleanup_entry. cbn. case_goal; [apply lookup_delete_eq|done].
    - intros t' k e k' Hne. unfold cleanup_entry. cbn. case_goal; [by apply lookup_delete_ne|done]. }
  split.
  - split; [done|]. intros ip e. cbn. rewrite Ht. intros He. destruct (table r !! ip) eqn:E; [|done].
    case_hyp He; simplify_eq. by apply (Hok ip).
  - intros ip. unfold credit. cbn [table]. rewrite Ht. destruct (table r !! ip) as [e|] eqn:E; [|done].
    destruct (Hok ip e E) as [? ?]. rewrite Sub_small by lia. case_goal; [|done].
    to_prop. limiter.
Qed.

(** An answer pays for itself out of the credit of its source, and nobody else pays. *)
Lemma Allow_spec now r ip' ip : limiter_ok now r →
  limiter_ok now (Allow now r ip').2 ∧
  credit now (Allow now r ip').2 ip =
    credit now r ip - if (Allow now r ip').1 && bool_decide (ip' = ip) then packetCost else 0.
Proof.
  intros [Hnow Hok].
  assert (∀ e tick ok, bucket_ok now e →
    tokens e + (now - lastTime e) = credit now r ip' - (if ok : bool then packetCost else 0) →
    limiter_ok now (mkRatelimiter (<[ip' := e]> (table r)) tick) ∧
    credit now (mkRatelimiter (<[ip' := e]> (table r)) tick) ip =
      credit now r ip - if ok && bool_decide (ip' = ip) then packetCost else 0) as Hput.
  { intros e tick ok He Hc. split.
    - split; [done|]. intros x e'. cbn. rewrite lookup_insert_Some. intros [[_ <-]|[_ ?]]; [done|by eapply Hok].
    - unfold credit at 1. cbn [table]. case_bool_decide as Hd.
      + subst. rewrite lookup_insert_eq. pose proof (credit_bounds now r ip (conj Hnow Hok)).
        rewrite andb_true_r, Hc. destruct ok; limiter.
      + rewrite lookup_insert_ne by done. rewrite andb_false_r. unfold credit. destruct (table r !! ip); lia. }
  unfold Allow, insert_entry, take_tokens. unfold credit in Hput at 1.
  destruct (table r !! ip') as [e|] eqn:E.
  - destruct (Hok ip' e E) as [Hl Ht].
    rewrite Sub_small by lia. rewrite int64_small by (unfold is_i64; limiter).
    set (tk := if maxTokens <? _ then _ else _).
    assert (tk = Z.min maxTokens (tokens e + (now - lastTime e))) as Htk.
    { unfold tk. case_goal; to_prop; lia. }
    rewrite <-Htk in Hput. clearbody tk. destruct (Z.ltb_spec packetCost tk) as [Hok'|Hno];
      cbn [fst snd]; apply Hput; try split; cbn [lastTime tokens]; limiter.
  - cbn [fst snd]. apply Hput; [split|]; cbn [lastTime tokens]; limiter.
Qed.

(** The events happen in order, from [now] to [last]. *)
Fixpoint timed (now : Z) (evs : list (Z * RateEvent)) (last : Z) : Prop :=
  match evs with
  | [] => now <= last
  | (t, _) :: evs => now <= t ∧ timed t evs last
  end.

Lemma timed_le evs : ∀ now last, timed now evs last → now <= last.
Proof. induction evs as [|[t ?] evs IH]; [done|]. cbn. intros ? ? [? ?%IH]. lia. Qed.

Lemma run_limiter_spec `{MapRange} ip evs : ∀ now last r, limiter_ok now r → timed now evs last → last < 2 ^ 62 →
  (run_limiter r ip evs).1 * packetCost <=
    credit now r ip + (last - now) - credit last (run_limiter r ip evs).2 ip ∧
  limiter_ok last (run_limiter r ip evs).2.
Proof.
  induction evs as [|[t ev] evs IH]; intros now last r Hok Ht Hlast; cbn [run_limiter].
  { cbn in *. pose proof (credit_later now last r ip Ht). split; [lia|]. by apply (limiter_ok_later now); [|lia]. }
  destruct Ht as [Hle Ht]. pose proof (timed_le _ _ _ Ht) as Hle'.
  assert (limiter_ok t r) as Hokt by (by apply (limiter_ok_later now); [|lia]).
  pose proof (credit_later now t r ip Hle) as Hlater. destruct ev as [ip'|].
  - destruct (Allow_spec t r ip' ip Hokt) as [Hok' Hcr]. destruct (Allow t r ip') as [ok r']. cbn [fst snd] in *.
    destruct (IH t last r' Hok' Ht Hlast) as [IH1 IH2]. destruct (run_limiter r' ip evs) as [n r'']. cbn [fst snd] in *.
    split; [|done]. destruct (ok && bool_decide (ip' = ip)); lia.
  - destruct (cleanup_spec t r Hokt) as [Hok' Hcr]. destruct (IH t last _ Hok' Ht Hlast) as [IH1 IH2].
    split; [|done]. rewrite Hcr in IH1. lia.
Qed.

(** C40: the handshake rate limit: over any stretch of time, whatever has happened before
    and whatever other sources do, a source gets through at most five packets plus one
    for every 50 ms; garbage collection never gives it more.  And the limit is not
    stricter than that: a source that has been silent for more than 50 ms gets through.
    This is for calls that do not overlap ([overlapping_calls]), at times that do not
    decrease. *)
Theorem rate_limit_exact `{MapRange} now last r ip evs :
  limiter_ok now r → timed now evs last → last < 2 ^ 62 →
  let '(n, r') := run_limiter r ip evs in
  n * packetCost <= packetsBurstable * packetCost + (last - now) ∧
  limiter_ok last r' ∧
  ((∀ e, table r' !! ip = Some e → lastTime e + packetCost < last) → (Allow last r' ip).1 = true).
Proof.
  intros Hok Ht Hlast. destruct (run_limiter_spec ip evs now last r Hok Ht Hlast) as [Hn Hok'].
  destruct (run_limiter r ip evs) as [n r']. cbn [fst snd] in *.
  pose proof (credit_bounds now r ip Hok). pose proof (credit_bounds last r' ip Hok').
  split; [limiter|]. split; [done|]. intros Hsilent. unfold Allow, take_tokens.
  destruct (table r' !! ip) as [e|] eqn:E; [|done]. specialize (Hsilent e eq_refl).
  destruct Hok' as [Hnow Hall]. destruct (Hall ip e E) as [Hl Htok].
  rewrite Sub_small by lia. rewrite int64_small by (unfold is_i64; limiter).
  rewrite (proj2 (Z.ltb_lt packetCost _)); [done|]. case_goal; to_prop; limiter.
Qed.

Lemma rate_limit_exact_witness :
  let evs := [(0, EvAllow (Addr4 1)); (1, EvAllow (Addr4 1)); (2, EvAllow (Addr4 1)); (3, EvAllow (Addr4 1));
    (4, EvAllow (Addr4 1)); (5, EvAllow (Addr4 1)); (6, EvAllow (Addr4 2)); (1000000007, EvCleanup)] in
  let '(n, r') := @run_limiter sorted_range Ratelimiter_Init (Addr4 1) evs in
  n * packetCost <= packetsBurstable * packetCost + (1000000007 - 0) ∧
  limiter_ok 1000000007 r' ∧
  ((∀ e, table r' !! Addr4 1 = Some e → lastTime e + packetCost < 1000000007) → (Allow 1000000007 r' (Addr4 1)).1 = true).
Proof.
  apply (@rate_limit_exact sorted_range 0 1000000007 Ratelimiter_Init (Addr4 1)).
  - split; [lia|]. intros ip e He. discriminate He.
  - cbn. lia.
  - lia.
Defined.

(** Of six packets in a row the sixth is refused; the bucket is full again a second later,
    when its entry is collected. *)
Example rate_limit_demo :
  (@run_limiter sorted_range Ratelimiter_Init (Addr4 1)
     ((λ t, (t, EvAllow (Addr4 1))) <$> [0; 1; 2; 3; 4; 5])).1 = 5 ∧
  table (@run_limiter sorted_range Ratelimiter_Init (Addr4 1)
     [(0, EvAllow (Addr4 1)); (1000000001, EvCleanup)]).2 = ∅.
Proof. split; vm_compute; reflexivity. Qed.

(** Two calls for a new source that both look it up before either adds its entry both get
    through, and only one of them is counted: of seven packets in a row six pass. *)
Example overlapping_calls :
  let r := insert_entry 0 (insert_entry 0 Ratelimiter_Init (Addr4 1)) (Addr4 1) in
  table Ratelimiter_Init !! Addr4 1 = None ∧
  2 + (@run_limiter sorted_range r (Addr4 1) ((λ t, (t, EvAllow (Addr4 1))) <$> [1; 2; 3; 4; 5])).1 = 6.
Proof. split; vm_compute; reflexivity. Qed.
