(* ===== verification/AllowedIPs.v ===== *)
(** The table that maps addresses to peers by longest prefix
    ([polyamide/device/allowedips.go]): a path-compressed binary trie for each address
    family, and for every peer the list of its entries.

    The byte slices of the code are 32-bit or 128-bit integers in network order.  The
    tree below a [*trieEntry] is a value; a [parentIndirection] is the path of bits from
    the root of the trie to the slot it points to, so that the writes of the code through
    [*parentBit] are updates at a path. *)

From S2P Require Import Prelude Bytes NetIP.

Inductive family := V4 | V6.

#[export] Instance family_eq_dec : EqDecision family.
Proof. solve_decision. Defined.

#[export] Instance family_countable : Countable family.
Proof.
  refine (inj_countable' (λ f, match f with V4 => true | V6 => false end) (λ b : bool, if b then V4 else V6) _).
  by intros [].
Defined.

(** [net.IPv4len] and [net.IPv6len], and the same in bits. *)
Definition size_of (f : family) : Z := match f with V4 => 4 | V6 => 16 end.

Definition width (f : family) : Z := 8 * size_of f.

(** [bits.LeadingZeros32] and [bits.LeadingZeros64]. *)
Definition LeadingZeros (w x : Z) : Z := if x =? 0 then w else w - 1 - Z.log2 x.

Section trie.
Context {Peer : Type}.

(** A [*trieEntry]; [bitAtByte] and [bitAtShift] are functions of [cidr]. *)
Inductive trieEntry :=
| Nil
| Node (peer : option Peer) (child0 child1 : trieEntry) (cidr : Z) (bits : Z).

Definition bitAtByte (cidr : Z) : Z := cidr / 8.

Definition bitAtShift (cidr : Z) : Z := 7 - cidr mod 8.

Section family.
Context (f : family).

Definition commonBits (ip1 ip2 : Z) : Z :=
  match f with
  | V4 => uint8 (LeadingZeros 32 (Z.lxor ip1 ip2))
  | V6 =>
      let x := Z.lxor (Z.shiftr ip1 64) (Z.shiftr ip2 64) in
      if negb (x =? 0) then uint8 (LeadingZeros 64 x)
      else
        let x := Z.lxor (ip1 mod 2 ^ 64) (ip2 mod 2 ^ 64) in
        uint8 (64 + uint8 (LeadingZeros 64 x))
  end.

(** [ip[i]]; [None] is the index panic. *)
Definition byte_at (ip i : Z) : option Z :=
  if (0 <=? i) && (i <? size_of f) then Some (Z.land (Z.shiftr ip (8 * (size_of f - 1 - i))) 255) else None.

Definition choose (cidr ip : Z) : option bool :=
  b ← byte_at ip (bitAtByte cidr);
  Some (Z.land (Z.shiftr b (bitAtShift cidr)) 1 =? 1).

(** The mask of [net.CIDRMask] has [cidr] ones at the top. *)
Definition maskSelf (bits cidr : Z) : Z := Z.land bits (Z.shiftl (Z.ones cidr) (width f - cidr)).

Definition child (t : trieEntry) (bit : bool) : trieEntry :=
  match t with Nil => Nil | Node _ c0 c1 _ _ => if bit then c1 else c0 end.

Definition set_child (t : trieEntry) (bit : bool) (c : trieEntry) : trieEntry :=
  match t with
  | Nil => Nil
  | Node peer c0 c1 cidr bits => if bit then Node peer c0 c cidr bits else Node peer c c1 cidr bits
  end.

Definition set_peer (t : trieEntry) (peer : option Peer) : trieEntry :=
  match t with Nil => Nil | Node _ c0 c1 cidr bits => Node peer c0 c1 cidr bits end.

Definition peer_of (t : trieEntry) : option Peer :=
  match t with Nil => None | Node peer _ _ _ _ => peer end.

(** What a path leads to, and the trie with something else in that place. *)
Fixpoint at_path (t : trieEntry) (p : list bool) : trieEntry :=
  match p with [] => t | b :: p => at_path (child t b) p end.

Fixpoint put_at (t : trieEntry) (p : list bool) (sub : trieEntry) : trieEntry :=
  match p with [] => sub | b :: p => set_child t b (put_at (child t b) p sub) end.

(** The loop of [nodePlacement]: the path of the deepest node that covers the prefix, if
    any, and whether it is the prefix itself. *)
Fixpoint nodePlacement (t : trieEntry) (ip cidr : Z) : option (option (list bool) * bool) :=
  match t with
  | Nil => Some (None, false)
  | Node _ c0 c1 ncidr nbits =>
      if (ncidr <=? cidr) && (ncidr <=? commonBits nbits ip)
      then
        if ncidr =? cidr then Some (Some [], true)
        else
          bit ← choose ncidr ip;
          '(r, exact) ← nodePlacement (if bit : bool then c1 else c0) ip cidr;
          Some (Some (match r with None => [] | Some p => bit :: p end), exact)
      else Some (None, false)
  end.

Definition new_entry (ip cidr : Z) (peer : option Peer) : trieEntry :=
  Node peer Nil Nil cidr (maskSelf ip cidr).

(** The slot below [parent] on the way to [bits]; the root if there is no parent. *)
Definition slot (root : trieEntry) (parent : option (list bool)) (bits : Z) : option (list bool) :=
  match parent with
  | None => Some []
  | Some p => match at_path root p with
              | Nil => None
              | Node _ _ _ cidr _ => bit ← choose cidr bits; Some (p ++ [bit])
              end
  end.

Definition bits_of (t : trieEntry) : Z := match t with Nil => 0 | Node _ _ _ _ bits => bits end.

(** What [insert] does once the deepest covering node is known. *)
Definition insert_at (root : trieEntry) (parent : option (list bool)) (exact : bool) (ip cidr : Z) (peer : Peer) : option trieEntry :=
  if exact then
    p ← parent; Some (put_at root p (set_peer (at_path root p) (Some peer)))
  else
    let newNode := new_entry ip cidr (Some peer) in
    s ← slot root parent ip;
    let down := at_path root s in
    match down with
    | Nil => Some (put_at root s newNode)
    | Node _ _ _ _ _ =>
        let common := commonBits (bits_of down) ip in
        let cidr' := if common <? cidr then common else cidr in
        if cidr =? cidr' then
          bit ← choose cidr (bits_of down);
          s ← slot root parent (bits_of newNode);
          Some (put_at root s (set_child newNode bit down))
        else
          let node := Node None Nil Nil cidr' (maskSelf (bits_of newNode) cidr') in
          bit ← choose cidr' (bits_of down);
          let node := set_child node bit down in
          bit ← choose cidr' (bits_of newNode);
          let node := set_child node bit newNode in
          s ← slot root parent (bits_of node);
          Some (put_at root s node)
    end.

Definition trie_insert (root : trieEntry) (ip cidr : Z) (peer : Peer) : option trieEntry :=
  match root with
  | Nil => Some (new_entry ip cidr (Some peer))
  | _ => '(parent, exact) ← nodePlacement root ip cidr; insert_at root parent exact ip cidr peer
  end.

Fixpoint trie_lookup (t : trieEntry) (ip : Z) (found : option Peer) : option (option Peer) :=
  match t with
  | Nil => Some found
  | Node peer c0 c1 cidr bits =>
      if cidr <=? commonBits bits ip
      then
        let found := match peer with Some p => Some p | None => found end in
        if bitAtByte cidr =? size_of f then Some found
        else bit ← choose cidr ip; trie_lookup (if bit : bool then c1 else c0) ip found
      else Some found
  end.

(** [remove] on the node at a path. *)
Definition trie_remove (root : trieEntry) (p : list bool) : trieEntry :=
  let node := set_peer (at_path root p) None in
  match child node false, child node true with
  | Node _ _ _ _ _, Node _ _ _ _ _ => put_at root p node
  | c0, c1 =>
      let only := match c0 with Nil => c1 | _ => c0 end in
      let root := put_at root p only in
      match only, last p with
      | Node _ _ _ _ _, _ | _, None => root
      | Nil, Some bit =>
          let pp := take (length p - 1) p in
          let parent := at_path root pp in
          match peer_of parent with
          | Some _ => root
          | None => put_at root pp (child parent (negb bit))
          end
      end
  end.

End family.
End trie.

Arguments trieEntry Peer : clear implicits.

(** ** The table *)

Section table.
Context {Peer : Type} `{Countable Peer}.

(** A node of the table, named by family, bits and length. *)
Definition node_id : Type := family * Z * Z.

(** [trieEntries] is the list of nodes of each peer, in the order of insertion. *)
Record AllowedIPs := mkAllowedIPs {
  IPv4 : trieEntry Peer;
  IPv6 : trieEntry Peer;
  trieEntries : gmap Peer (list node_id);
}.

Definition empty_table : AllowedIPs := mkAllowedIPs Nil Nil ∅.

Definition trie_of (t : AllowedIPs) (f : family) : trieEntry Peer :=
  match f with V4 => IPv4 t | V6 => IPv6 t end.

Definition set_trie (t : AllowedIPs) (f : family) (root : trieEntry Peer) (entries : gmap Peer (list node_id)) : AllowedIPs :=
  match f with
  | V4 => mkAllowedIPs root (IPv6 t) entries
  | V6 => mkAllowedIPs (IPv4 t) root entries
  end.

Definition entries_of (entries : gmap Peer (list node_id)) (peer : Peer) : list node_id := default [] (entries !! peer).

Definition addToPeerEntries (id : node_id) (peer : Peer) (entries : gmap Peer (list node_id)) : gmap Peer (list node_id) :=
  <[peer := entries_of entries peer ++ [id]]> entries.

(** A node with a peer is in the list of that peer; one without is in no list. *)
Definition removeFromPeerEntries (id : node_id) (peer : option Peer) (entries : gmap Peer (list node_id)) : gmap Peer (list node_id) :=
  match peer with
  | Some q => <[q := filter (.≠ id) (entries_of entries q)]> entries
  | None => entries
  end.

(** Family, address and length of a prefix; [None] is the panic on an unknown address type. *)
Definition split_prefix (prefix : Prefix) : option (family * Z * Z) :=
  match pfx_Addr prefix with
  | Addr6 ip _ => Some (V6, ip, uint8 (pfx_Bits prefix))
  | Addr4 ip => Some (V4, ip, uint8 (pfx_Bits prefix))
  | AddrZero => None
  end.

Definition AllowedIPs_Insert (t : AllowedIPs) (prefix : Prefix) (peer : Peer) : option AllowedIPs :=
  '(f, ip, cidr) ← split_prefix prefix;
  let root := trie_of t f in
  root' ← trie_insert f root ip cidr peer;
  '(parent, exact) ← nodePlacement f root ip cidr;
  let old := match parent with Some p => if exact : bool then peer_of (at_path root p) else None | None => None end in
  let id := (f, maskSelf f ip cidr, cidr) in
  Some (set_trie t f root' (addToPeerEntries id peer (removeFromPeerEntries id old (trieEntries t)))).

(** [remove] on the node at path [p] of a trie. *)
Definition remove_node (t : AllowedIPs) (f : family) (p : list bool) : AllowedIPs :=
  match at_path (trie_of t f) p with
  | Nil => t
  | Node peer _ _ cidr bits =>
      set_trie t f (trie_remove (trie_of t f) p) (removeFromPeerEntries (f, bits, cidr) peer (trieEntries t))
  end.

Definition AllowedIPs_Remove (t : AllowedIPs) (prefix : Prefix) (peer : Peer) : option AllowedIPs :=
  '(f, ip, cidr) ← split_prefix prefix;
  '(node, exact) ← nodePlacement f (trie_of t f) ip cidr;
  match node with
  | None => Some t
  | Some p =>
      if negb exact || negb (bool_decide (peer_of (at_path (trie_of t f) p) = Some peer)) then Some t
      else Some (remove_node t f p)
  end.

(** The node a list element points to is reached by its own bits. *)
Definition remove_element (t : option AllowedIPs) (id : node_id) : option AllowedIPs :=
  t ← t;
  let '(f, bits, cidr) := id in
  '(node, _) ← nodePlacement f (trie_of t f) bits cidr;
  p ← node;
  Some (remove_node t f p).

Definition AllowedIPs_RemoveByPeer (t : AllowedIPs) (peer : Peer) : option AllowedIPs :=
  foldl remove_element (Some t) (entries_of (trieEntries t) peer).

(** The address slice is given by its family and value; other lengths panic. *)
Definition AllowedIPs_Lookup (t : AllowedIPs) (f : family) (ip : Z) : option (option Peer) :=
  trie_lookup f (trie_of t f) ip None.

Definition EntriesForPeer (t : AllowedIPs) (peer : Peer) : list Prefix :=
  (λ id : node_id, let '(f, bits, cidr) := id in
     PrefixFrom (match f with V4 => Addr4 bits | V6 => Addr6 bits "" end) cidr) <$> entries_of (trieEntries t) peer.

End table.

Arguments AllowedIPs Peer {_ _}.
