(* ===== verification/TrieProps.v ===== *)
(** The trie of [AllowedIPs]: its bit operations, the invariant of its nodes, and what
    lookup, insertion and removal do to the prefixes it holds. *)

From S2P Require Import Prelude Bytes NetIP AllowedIPs.

(** ** Bits of addresses *)

Section bits.
Context (f : family).
Implicit Types a b c : Z.

Definition is_ip (a : Z) : Prop := 0 <= a < 2 ^ width f.

(** The two addresses have the same first [c] bits. *)
Definition agree c a b : Prop := Z.shiftr a (width f - c) = Z.shiftr b (width f - c).

#[export] Instance agree_dec c a b : Decision (agree c a b).
Proof. unfold agree. apply _. Defined.

(** Bit [c], counted from the top. *)
Definition bit_at c a : bool := Z.testbit a (width f - 1 - c).

Lemma width_cases : width f = 32 ∨ width f = 128.
Proof. destruct f; auto. Qed.

Lemma shiftr_zero_iff x k : 0 <= x → 0 <= k → Z.shiftr x k = 0 ↔ x < 2 ^ k.
Proof.
  intros Hx Hk. rewrite Z.shiftr_div_pow2 by done. pose proof (Z.pow_pos_nonneg 2 k).
  rewrite Z.div_small_iff by lia. lia.
Qed.

Lemma LeadingZeros_spec w x c : 0 <= x < 2 ^ w → 0 <= c <= w →
  (c <= LeadingZeros w x ↔ Z.shiftr x (w - c) = 0) ∧ 0 <= LeadingZeros w x <= w.
Proof.
  intros Hx Hc. unfold LeadingZeros. rewrite shiftr_zero_iff by lia.
  destruct (Z.eqb_spec x 0) as [->|Hne].
  - pose proof (Z.pow_pos_nonneg 2 (w - c)). lia.
  - rewrite Z.log2_lt_pow2 by lia. assert (Z.log2 x < w) by (apply Z.log2_lt_pow2; lia).
    pose proof (Z.log2_nonneg x). lia.
Qed.

Lemma lxor_bound a b k : 0 <= k → 0 <= a < 2 ^ k → 0 <= b < 2 ^ k → 0 <= Z.lxor a b < 2 ^ k.
Proof.
  intros Hk Ha Hb. split; [apply Z.lxor_nonneg; lia|]. apply shiftr_zero_iff; [apply Z.lxor_nonneg; lia|done|].
  rewrite Z.shiftr_lxor. apply Z.lxor_eq_0_iff. transitivity 0; [|symmetry]; apply shiftr_zero_iff; lia.
Qed.

Lemma shiftr_lxor_zero a b k : Z.shiftr (Z.lxor a b) k = 0 ↔ Z.shiftr a k = Z.shiftr b k.
Proof. by rewrite Z.shiftr_lxor, Z.lxor_eq_0_iff. Qed.

(** Agreement on fewer bits follows. *)
Lemma agree_le c c' a b : c' <= c <= width f → agree c a b → agree c' a b.
Proof.
  unfold agree. intros Hc Ha. replace (width f - c') with ((width f - c) + (c - c')) by lia.
  rewrite <-!Z.shiftr_shiftr by lia. by rewrite Ha.
Qed.

Lemma agree_refl c a : agree c a a.
Proof. done. Qed.

Lemma agree_sym c a b : agree c a b → agree c b a.
Proof. done. Qed.

Lemma agree_trans c a b d : agree c a b → agree c b d → agree c a d.
Proof. unfold agree. congruence. Qed.

(** One more bit. *)
Lemma agree_succ c a b : 0 <= c < width f → agree (c + 1) a b ↔ agree c a b ∧ bit_at c a = bit_at c b.
Proof.
  intros Hc. unfold agree, bit_at. set (k := width f - (c + 1)).
  replace (width f - c) with (k + 1) by lia. replace (width f - 1 - c) with k by lia.
  rewrite <-!Z.shiftr_shiftr by lia.
  assert (∀ x, Z.shiftr x k = 2 * Z.shiftr (Z.shiftr x k) 1 + Z.b2z (Z.testbit x k)) as Hsplit.
  { intros x. replace (Z.testbit x k) with (Z.testbit (Z.shiftr x k) 0) by (rewrite Z.shiftr_spec by lia; f_equal; lia).
    rewrite Z.bit0_odd, <-Z.div2_spec. rewrite (Z.div2_odd (Z.shiftr x k)) at 1. lia. }
  split.
  - intros He. rewrite He. split; [done|]. rewrite (Hsplit a), (Hsplit b) in He.
    destruct (Z.testbit a k), (Z.testbit b k); cbn in He; lia || done.
  - intros [He Hb]. rewrite (Hsplit a), (Hsplit b), He, Hb. done.
Qed.

Lemma agree_full a b : agree (width f) a b → a = b.
Proof. unfold agree. rewrite Z.sub_diag. by rewrite !Z.shiftr_0_r. Qed.

(** The bits below the top 64 of 128 come after them. *)
Lemma shiftr_split64 x c : 64 < c <= 128 →
  Z.shiftr x (128 - c) = Z.shiftr x 64 * 2 ^ (c - 64) + Z.shiftr (x mod 2 ^ 64) (128 - c).
Proof.
  intros Hc. rewrite !Z.shiftr_div_pow2 by lia. rewrite (Z.div_mod x (2 ^ 64)) at 1 by lia.
  replace (2 ^ 64 * (x / 2 ^ 64)) with ((x / 2 ^ 64 * 2 ^ (c - 64)) * 2 ^ (128 - c)).
  - rewrite Z.div_add_l by lia. done.
  - rewrite <-Z.mul_assoc, <-Z.pow_add_r by lia. replace (c - 64 + (128 - c)) with 64 by lia. lia.
Qed.

(** [commonBits] counts the bits two addresses share. *)
Lemma commonBits_spec a b c : is_ip a → is_ip b → 0 <= c <= width f →
  (c <= commonBits f a b ↔ agree c a b) ∧ 0 <= commonBits f a b <= width f.
Proof.
  unfold is_ip, agree. intros Ha Hb Hc. destruct f; cbn [commonBits]; change (width V4) with 32 in *; change (width V6) with 128 in *.
  - pose proof (lxor_bound a b 32) as Hx.
    destruct (LeadingZeros_spec 32 (Z.lxor a b) c) as [HL1 HL2]; [lia..|].
    rewrite wrap_small by (unfold in_width; lia). rewrite HL1, shiftr_lxor_zero. lia.
  - assert (∀ x, 0 <= x < 2 ^ 128 → 0 <= Z.shiftr x 64 < 2 ^ 64) as Hhi.
    { intros x Hx. rewrite Z.shiftr_div_pow2 by lia. split; [apply Z.div_pos; lia|apply Z.div_lt_upper_bound; lia]. }
    pose proof (Hhi a Ha). pose proof (Hhi b Hb).
    destruct (Z.eqb_spec (Z.lxor (Z.shiftr a 64) (Z.shiftr b 64)) 0) as [He|Hne]; cbn [negb].
    + apply (proj1 (Z.lxor_eq_0_iff _ _)) in He.
      assert (∀ x, 0 <= x mod 2 ^ 64 < 2 ^ 64) as Hlo by (intros; apply Z.mod_pos_bound; lia).
      pose proof (Hlo a). pose proof (Hlo b).
      pose proof (lxor_bound (a mod 2 ^ 64) (b mod 2 ^ 64) 64) as Hx.
      destruct (LeadingZeros_spec 64 (Z.lxor (a mod 2 ^ 64) (b mod 2 ^ 64)) (Z.max 0 (c - 64))) as [HL1 HL2]; [lia..|].
      rewrite (wrap_small 8 (LeadingZeros _ _)) by (unfold in_width; lia).
      rewrite wrap_small by (unfold in_width; lia). split; [|lia].
      destruct (Z.le_gt_cases c 64) as [Hle|Hgt].
      * split; [|lia]. intros _. replace (128 - c) with (64 + (64 - c)) by lia.
        rewrite <-!Z.shiftr_shiftr by lia. by rewrite He.
      * rewrite (shiftr_split64 a c), (shiftr_split64 b c), He by lia.
        replace (Z.max 0 (c - 64)) with (c - 64) in HL1 by lia. replace (64 - (c - 64)) with (128 - c) in HL1 by lia.
        rewrite shiftr_lxor_zero in HL1. lia.
    + pose proof (lxor_bound (Z.shiftr a 64) (Z.shiftr b 64) 64) as Hx.
      destruct (LeadingZeros_spec 64 (Z.lxor (Z.shiftr a 64) (Z.shiftr b 64)) (Z.min 64 c)) as [HL1 HL2]; [lia..|].
      destruct (LeadingZeros_spec 64 (Z.lxor (Z.shiftr a 64) (Z.shiftr b 64)) 64) as [HL3 _]; [lia..|].
      rewrite wrap_small by (unfold in_width; lia). rewrite shiftr_lxor_zero in HL1, HL3.
      assert (Z.shiftr a 64 ≠ Z.shiftr b 64) as Hne' by (intros Heq; by apply Hne, Z.lxor_eq_0_iff).
      rewrite Z.sub_diag, !Z.shiftr_0_r in HL3.
      rewrite !Z.shiftr_shiftr in HL1 by lia. split; [|lia].
      destruct (Z.le_gt_cases c 64) as [Hle|Hgt].
      * replace (Z.min 64 c) with c in HL1 by lia. replace (64 + (64 - c)) with (128 - c) in HL1 by lia. done.
      * split; [lia|]. intros He. exfalso. apply Hne'. replace 64 with ((128 - c) + (c - 64)) by lia.
        rewrite <-!Z.shiftr_shiftr by lia. by rewrite He.
Qed.

Lemma land_one x k : 0 <= k → (Z.land (Z.shiftr x k) 1 =? 1) = Z.testbit x k.
Proof.
  intros Hk. change 1 with (Z.ones 1) at 1. rewrite Z.land_ones by lia.
  replace (Z.testbit x k) with (Z.testbit (Z.shiftr x k) 0) by (rewrite Z.shiftr_spec by lia; f_equal; lia).
  rewrite Z.bit0_odd, Zmod_odd. by destruct (Z.odd _).
Qed.

(** [choose] picks the bit after the prefix, and panics only if there is none. *)
Lemma choose_spec c a : 0 <= c < width f → choose f c a = Some (bit_at c a).
Proof.
  intros Hc. unfold choose, byte_at, bitAtByte, bitAtShift, bit_at, width in *.
  assert (0 <= c / 8 < size_of f) by (split; [apply Z.div_pos; lia|apply Z.div_lt_upper_bound; lia]).
  rewrite (proj2 (Z.leb_le 0 (c / 8))), (proj2 (Z.ltb_lt (c / 8) (size_of f))) by lia. cbn [andb mbind option_bind].
  pose proof (Z.mod_pos_bound c 8). f_equal. rewrite land_one by lia.
  change 255 with (Z.ones 8). rewrite Z.land_spec, Z.testbit_ones_nonneg, Z.shiftr_spec by lia.
  rewrite (proj2 (Z.ltb_lt (7 - c mod 8) 8)), andb_true_r by lia. f_equal.
  pose proof (Z.div_mod c 8). lia.
Qed.

Lemma testbit_above a i : is_ip a → width f <= i → Z.testbit a i = false.
Proof.
  intros Ha Hi. pose proof (width_cases). destruct (decide (a = 0)) as [->|Hne]; [apply Z.testbit_0_l|].
  apply Z.bits_above_log2; [unfold is_ip in Ha; lia|]. unfold is_ip in Ha.
  assert (Z.log2 a < width f); [|lia]. apply Z.log2_lt_pow2; lia.
Qed.

Lemma maskSelf_eq a c : is_ip a → 0 <= c <= width f → maskSelf f a c = mask_bits (width f) c a.
Proof.
  intros Ha Hc. unfold maskSelf, mask_bits. apply Z.bits_inj'. intros i Hi.
  rewrite Z.land_spec, !Z.shiftl_spec by lia. destruct (Z.lt_ge_cases i (width f - c)) as [Hlt|Hge].
  - rewrite !(Z.testbit_neg_r _ (i - (width f - c))) by lia. by rewrite andb_false_r.
  - rewrite Z.testbit_ones_nonneg, Z.shiftr_spec by lia. replace (i - (width f - c) + (width f - c)) with i by lia.
    destruct (Z.ltb_spec (i - (width f - c)) c); [by rewrite andb_true_r|].
    rewrite testbit_above by (done || lia). done.
Qed.

Lemma shiftr_mask_bits a c : 0 <= c <= width f → Z.shiftr (mask_bits (width f) c a) (width f - c) = Z.shiftr a (width f - c).
Proof. intros. unfold mask_bits. rewrite Z.shiftr_shiftl_l, Z.sub_diag by lia. apply Z.shiftl_0_r. Qed.

Lemma mask_agree a c : is_ip a → 0 <= c <= width f → agree c (maskSelf f a c) a.
Proof. intros. unfold agree. rewrite maskSelf_eq by done. by apply shiftr_mask_bits. Qed.

Lemma mask_is_ip a c : is_ip a → 0 <= c <= width f → is_ip (maskSelf f a c).
Proof.
  intros Ha Hc. unfold is_ip in *. rewrite maskSelf_eq by done. unfold mask_bits.
  rewrite Z.shiftl_mul_pow2, Z.shiftr_div_pow2 by lia.
  pose proof (Z.pow_pos_nonneg 2 (width f - c)).
  pose proof (Z.mul_div_le a (2 ^ (width f - c))). pose proof (Z.div_pos a (2 ^ (width f - c))). nia.
Qed.

(** Equal prefixes have equal masked addresses. *)
Lemma agree_mask a b c : is_ip a → is_ip b → 0 <= c <= width f →
  agree c a b ↔ maskSelf f a c = maskSelf f b c.
Proof.
  intros Ha Hb Hc. split.
  - intros He. rewrite !maskSelf_eq by done. unfold mask_bits. by rewrite He.
  - intros He. apply (agree_trans c _ (maskSelf f a c)); [by apply agree_sym, mask_agree|].
    rewrite He. by apply mask_agree.
Qed.

Lemma mask_idem a c : is_ip a → 0 <= c <= width f → maskSelf f (maskSelf f a c) c = maskSelf f a c.
Proof. intros. apply agree_mask; [by apply mask_is_ip|done..|by apply mask_agree]. Qed.

Lemma bit_at_agree a b c c' : 0 <= c < c' → c' <= width f → agree c' a b → bit_at c a = bit_at c b.
Proof. intros Hc Hc' Ha. apply (agree_le c' (c + 1)) in Ha; [|lia]. by apply agree_succ in Ha as [_ ?]; [|lia]. Qed.

End bits.

(** ** The trie *)

Section tries.
Context {Peer : Type} (f : family).
Implicit Types t l r : trieEntry Peer.
Implicit Types peer : option Peer.

(** The prefix of address [b] and length [c] belongs to [p]. *)
Fixpoint has t (b c : Z) (p : Peer) : Prop :=
  match t with
  | Nil => False
  | Node peer l r cidr bits => (peer = Some p ∧ b = bits ∧ c = cidr) ∨ has l b c p ∨ has r b c p
  end.

(** [t] may hang below the prefix [(b, c)], on the side of [bit]. *)
Definition inside (b c : Z) (bit : bool) t : Prop :=
  match t with
  | Nil => True
  | Node _ _ _ c' b' => c < c' ∧ agree f c b b' ∧ bit_at f c b' = bit
  end.

(** Masked prefixes that get longer on the way down and follow the bits of the path; a
    node without a peer has two children. *)
Fixpoint trie_wf t : Prop :=
  match t with
  | Nil => True
  | Node peer l r c b =>
      (0 <= c <= width f ∧ is_ip f b ∧ maskSelf f b c = b) ∧
      (inside b c false l ∧ inside b c true r) ∧
      (peer = None → l ≠ Nil ∧ r ≠ Nil) ∧ trie_wf l ∧ trie_wf r
  end.

Lemma inside_child peer l r c b bit : trie_wf (Node peer l r c b) → inside b c bit (child (Node peer l r c b) bit).
Proof. cbn. destruct bit; tauto. Qed.

Lemma child_wf t bit : trie_wf t → trie_wf (child t bit).
Proof. destruct t; [done|]. cbn. destruct bit; tauto. Qed.

(** Everything in a subtree extends the prefix of its root. *)
Lemma has_root peer l r c b b' c' p : trie_wf (Node peer l r c b) → has (Node peer l r c b) b' c' p →
  c <= c' <= width f ∧ is_ip f b' ∧ maskSelf f b' c' = b' ∧ agree f c b b'.
Proof.
  revert peer l r c b b' c' p.
  assert (∀ t, trie_wf t → match t with Nil => True | Node _ _ _ c b => ∀ b' c' p, has t b' c' p →
    c <= c' <= width f ∧ is_ip f b' ∧ maskSelf f b' c' = b' ∧ agree f c b b' end) as Hgen.
  { induction t as [|peer l IHl r IHr c b]; [done|].
    intros ((Hc & Hb & Hm) & [Hl Hr] & _ & Hwl & Hwr) b' c' p.
    assert (∀ t bit, inside b c bit t → trie_wf t → (trie_wf t → match t with Nil => True | Node _ _ _ c b => ∀ b' c' p, has t b' c' p →
      c <= c' <= width f ∧ is_ip f b' ∧ maskSelf f b' c' = b' ∧ agree f c b b' end) → has t b' c' p →
      c <= c' <= width f ∧ is_ip f b' ∧ maskSelf f b' c' = b' ∧ agree f c b b') as Hchild.
    { intros t bit Hin Hwt IH Ht. destruct t as [|? ? ? c1 b1]; [done|]. destruct Hin as (Hlt & Ha & _).
      destruct (IH Hwt _ _ _ Ht) as (? & ? & ? & Ha'). split; [lia|]. split; [done|]. split; [done|].
      apply (agree_trans f c _ b1); [done|]. apply (agree_le f c1); [lia|done]. }
    cbn [has]. intros [(_ & -> & ->)|[Ht|Ht]].
    - split; [lia|]. done.
    - by apply (Hchild l false).
    - by apply (Hchild r true). }
  intros peer l r c b b' c' p Hwf. apply (Hgen _ Hwf).
Qed.

Lemma has_below t b c bit b' c' p : trie_wf t → inside b c bit t → 0 <= c → has t b' c' p →
  c < c' <= width f ∧ agree f c b b' ∧ bit_at f c b' = bit.
Proof.
  destruct t as [|peer l r c1 b1]; [done|]. intros Hwf (Hlt & Ha & Hbit) Hc Hhas.
  destruct (has_root _ _ _ _ _ _ _ _ Hwf Hhas) as (Hc' & _ & _ & Ha1). split; [lia|]. split.
  - apply (agree_trans f c _ b1); [done|]. apply (agree_le f c1); [lia|done].
  - rewrite <-Hbit. symmetry. apply (bit_at_agree f _ _ _ c1); [lia..|done].
Qed.

Lemma has_in_child peer l r c b bit b' c' p : trie_wf (Node peer l r c b) →
  has (child (Node peer l r c b) bit) b' c' p → c < c' <= width f ∧ agree f c b b' ∧ bit_at f c b' = bit.
Proof.
  intros Hwf. apply has_below; [by apply child_wf|by apply inside_child|]. by destruct Hwf as [[[? _] _] _].
Qed.

Lemma has_child peer l r c b b' c' p : has (Node peer l r c b) b' c' p ↔
  (peer = Some p ∧ b' = b ∧ c' = c) ∨ ∃ bit, has (child (Node peer l r c b) bit) b' c' p.
Proof.
  cbn. split.
  - intros [?|[?|?]]; [by left|right; by exists false|right; by exists true].
  - intros [?|[[] ?]]; auto.
Qed.

Lemma has_split bit peer l r c b b' c' p : has (Node peer l r c b) b' c' p ↔
  (peer = Some p ∧ b' = b ∧ c' = c) ∨ has (child (Node peer l r c b) bit) b' c' p ∨
  has (child (Node peer l r c b) (negb bit)) b' c' p.
Proof. destruct bit; cbn; tauto. Qed.

(** A prefix on one side of a node is not on the other. *)
Lemma other_side peer l r c b bit b' c' p : trie_wf (Node peer l r c b) → bit_at f c b' = bit →
  ¬ has (child (Node peer l r c b) (negb bit)) b' c' p.
Proof.
  intros Hwf Hbit Hx. destruct (has_in_child _ _ _ _ _ _ _ _ _ Hwf Hx) as (_ & _ & Hb').
  rewrite Hbit in Hb'. by destruct bit.
Qed.

(** ** Lookup *)

(** [res] is the peer of the longest prefix that contains the address. *)
Definition longest t (ip : Z) (res : option Peer) : Prop :=
  match res with
  | Some p => ∃ b c, has t b c p ∧ agree f c b ip ∧ ∀ b' c' p', has t b' c' p' → agree f c' b' ip → c' <= c
  | None => ∀ b c p, has t b c p → ¬ agree f c b ip
  end.

Lemma bitAtByte_end c : 0 <= c <= width f → (bitAtByte c =? size_of f) = (c =? width f).
Proof.
  intros Hc. unfold bitAtByte, width in *.
  destruct (Z.eqb_spec (c / 8) (size_of f)), (Z.eqb_spec c (8 * size_of f)); try done; exfalso.
  - pose proof (Z.mul_div_le c 8). lia.
  - subst. rewrite Z.mul_comm, Z.div_mul in *; lia.
Qed.

Lemma trie_lookup_spec t ip : trie_wf t → is_ip f ip →
  ∀ found, ∃ res, trie_lookup f t ip found = Some (match res with Some p => Some p | None => found end) ∧ longest t ip res.
Proof.
  induction t as [|peer l IHl r IHr c b]; intros Hwf Hip found; [exists None; split; [done|by intros ? ? ? []]|].
  pose proof Hwf as ((Hc & Hb & _) & _ & _ & Hwl & Hwr). cbn [trie_lookup].
  destruct (commonBits_spec f b ip c Hb Hip Hc) as [Hcommon _].
  destruct (Z.leb_spec c (commonBits f b ip)) as [Hle|Hgt].
  2: { exists None. split; [done|]. intros b' c' p Hh Ha.
       destruct (has_root _ _ _ _ _ _ _ _ Hwf Hh) as (? & _ & _ & Ha').
       apply (Zlt_not_le _ _ Hgt), Hcommon. apply (agree_trans f c _ b'); [done|]. by apply (agree_le f c'). }
  apply Hcommon in Hle. rewrite bitAtByte_end by done. destruct (Z.eqb_spec c (width f)) as [->|Hne].
  - exists peer. split; [by destruct peer|].
    assert (∀ b' c' p, has (Node peer l r (width f) b) b' c' p → peer = Some p ∧ b' = b ∧ c' = width f) as Honly.
    { intros b' c' p [?|[bit Hh]]%has_child; [done|].
      destruct (has_in_child _ _ _ _ _ _ _ _ _ Hwf Hh). lia. }
    destruct peer as [p|].
    + exists b, (width f). split; [by left|]. split; [done|]. intros b' c' p' (_ & _ & ->)%Honly. done.
    + by intros b' c' p (? & _)%Honly.
  - rewrite choose_spec by lia. cbn [mbind option_bind]. set (bit := bit_at f c ip).
    change (if bit then r else l) with (child (Node peer l r c b) bit).
    assert (∃ res', trie_lookup f (child (Node peer l r c b) bit) ip (match peer with Some p => Some p | None => found end) =
      Some (match res' with Some p => Some p | None => match peer with Some p => Some p | None => found end end) ∧
      longest (child (Node peer l r c b) bit) ip res') as (res' & Hl & Hbest).
    { destruct bit; cbn [child]; [by apply IHr|by apply IHl]. }
    exists (match res' with Some p => Some p | None => peer end). split; [rewrite Hl; by destruct res'|].
    assert (∀ b' c' p, has (Node peer l r c b) b' c' p → agree f c' b' ip →
      (peer = Some p ∧ b' = b ∧ c' = c) ∨ has (child (Node peer l r c b) bit) b' c' p ∧ c < c') as Hcases.
    { intros b' c' p [?|[bit' Hh]]%has_child Ha; [by left|right].
      destruct (has_in_child _ _ _ _ _ _ _ _ _ Hwf Hh) as (? & _ & Hbit).
      split; [|lia]. assert (bit' = bit) as <-; [|done].
      rewrite <-Hbit. apply (bit_at_agree f _ _ _ c'); [lia..|done]. }
    destruct res' as [p|].
    + destruct Hbest as (b1 & c1 & Hh & Ha & Hmax). exists b1, c1. split; [apply has_child; right; by exists bit|].
      split; [done|]. intros b' c' p' Hh' Ha'.
      destruct (Hcases b' c' p' Hh' Ha') as [(_ & _ & ->)|[? _]]; [|by eapply Hmax].
      destruct (has_in_child _ _ _ _ _ _ _ _ _ Hwf Hh). lia.
    + destruct peer as [p|].
      * exists b, c. split; [by left|]. split; [done|]. intros b' c' p' Hh' Ha'.
        destruct (Hcases b' c' p' Hh' Ha') as [(_ & _ & ->)|[Hh'' _]]; [lia|]. by destruct (Hbest b' c' p').
      * intros b' c' p' Hh' Ha'. destruct (Hcases b' c' p' Hh' Ha') as [(? & _)|[Hh'' _]]; [done|].
        by destruct (Hbest b' c' p').
Qed.

(** ** Insertion *)

(** The deepest covering node is below a covering child. *)
Definition below (bit : bool) (res : option (list bool)) : list bool :=
  match res with None => [] | Some p => bit :: p end.

Lemma nodePlacement_child peer l r c b ip cidr : trie_wf (Node peer l r c b) → is_ip f ip →
  c < cidr <= width f → agree f c b ip →
  nodePlacement f (Node peer l r c b) ip cidr =
    '(res, exact) ← nodePlacement f (child (Node peer l r c b) (bit_at f c ip)) ip cidr;
    Some (Some (below (bit_at f c ip) res), exact).
Proof.
  intros ((Hc & Hb & _) & _) Hip Hcidr Ha. cbn [nodePlacement child].
  destruct (commonBits_spec f b ip c Hb Hip Hc) as [Hcommon _].
  rewrite (proj2 (Z.leb_le c cidr)), (proj2 (Z.leb_le c (commonBits f b ip))) by (lia || by apply Hcommon).
  rewrite (proj2 (Z.eqb_neq c cidr)), choose_spec by lia. done.
Qed.

Lemma nodePlacement_stop peer l r c b ip cidr : trie_wf (Node peer l r c b) → is_ip f ip →
  ¬ (c <= cidr ∧ agree f c b ip) → nodePlacement f (Node peer l r c b) ip cidr = Some (None, false).
Proof.
  intros ((Hc & Hb & _) & _) Hip Hno. cbn [nodePlacement].
  destruct (commonBits_spec f b ip c Hb Hip Hc) as [Hcommon _].
  destruct (Z.leb_spec c cidr), (Z.leb_spec c (commonBits f b ip)); try done. exfalso. tauto.
Qed.

Lemma nodePlacement_exact peer l r c b ip : trie_wf (Node peer l r c b) → is_ip f ip → agree f c b ip →
  nodePlacement f (Node peer l r c b) ip c = Some (Some [], true).
Proof.
  intros ((Hc & Hb & _) & _) Hip Ha. cbn [nodePlacement].
  destruct (commonBits_spec f b ip c Hb Hip Hc) as [Hcommon _].
  rewrite (proj2 (Z.leb_le c c)), (proj2 (Z.leb_le c (commonBits f b ip))) by (lia || by apply Hcommon).
  by rewrite Z.eqb_refl.
Qed.

(** What [nodePlacement] finds. *)
Lemma nodePlacement_spec t ip cidr : trie_wf t → is_ip f ip → 0 <= cidr <= width f →
  ∃ res exact, nodePlacement f t ip cidr = Some (res, exact) ∧
    (if exact : bool then ∃ p peer l r, res = Some p ∧ at_path t p = Node peer l r cidr (maskSelf f ip cidr)
     else ∀ p, ¬ has t (maskSelf f ip cidr) cidr p).
Proof.
  intros Hwf Hip Hcidr. induction t as [|peer l IHl r IHr c b]; [exists None, false; naive_solver|].
  pose proof Hwf as ((Hc & Hb & Hm) & _ & _ & Hwl & Hwr).
  pose proof (mask_is_ip f ip cidr Hip Hcidr) as Hmip. pose proof (mask_agree f ip cidr Hip Hcidr) as Hma.
  destruct (decide (c <= cidr ∧ agree f c b ip)) as [[Hle Ha]|Hno].
  2: { rewrite nodePlacement_stop by done. exists None, false. split; [done|]. intros p Hh.
       destruct (has_root _ _ _ _ _ _ _ _ Hwf Hh) as (? & _ & _ & Ha). apply Hno. split; [lia|].
       apply (agree_trans f c _ (maskSelf f ip cidr)); [done|]. by apply (agree_le f cidr). }
  destruct (decide (c = cidr)) as [->|Hne].
  { rewrite nodePlacement_exact by done. exists (Some []), true. split; [done|]. exists [], peer, l, r. cbn.
    split; [done|]. f_equal. rewrite <-Hm. by apply agree_mask. }
  rewrite nodePlacement_child by (done || lia). set (bit := bit_at f c ip).
  assert (∃ res exact, nodePlacement f (child (Node peer l r c b) bit) ip cidr = Some (res, exact) ∧
    (if exact : bool then ∃ p peer' l' r', res = Some p ∧ at_path (child (Node peer l r c b) bit) p = Node peer' l' r' cidr (maskSelf f ip cidr)
     else ∀ p, ¬ has (child (Node peer l r c b) bit) (maskSelf f ip cidr) cidr p)) as (res & exact & He & Hres).
  { destruct bit; [by apply IHr|by apply IHl]. }
  rewrite He. exists (Some (below bit res)), exact. split; [done|]. destruct exact.
  - destruct Hres as (p & peer' & l' & r' & -> & Hp). by exists (bit :: p), peer', l', r'.
  - intros p [(_ & _ & ->)|[bit' Hh]]%has_child; [done|].
    destruct (has_in_child _ _ _ _ _ _ _ _ _ Hwf Hh) as (? & _ & Hbit). apply (Hres p).
    assert (bit' = bit) as <-; [|done]. rewrite <-Hbit. apply (bit_at_agree f _ _ _ cidr); [lia..|done].
Qed.

Lemma slot_below t bit res bits cidr : (∃ peer l r b, t = Node peer l r cidr b) →
  (res = None → choose f cidr bits = Some bit) →
  slot f t (Some (below bit res)) bits = cons bit <$> slot f (child t bit) res bits.
Proof.
  intros (peer & l & r & b & ->) Hbit. destruct res as [p|]; cbn [below slot at_path].
  - destruct (at_path (child (Node peer l r cidr b) bit) p); [done|]. by destruct (choose f cidr0 bits).
  - by rewrite Hbit.
Qed.

Lemma bits_of_set_child t bit t' : bits_of (set_child t bit t') = bits_of t.
Proof. destruct t, bit; done. Qed.

Lemma bits_of_wf t : trie_wf t → is_ip f (bits_of t).
Proof.
  destruct t as [|]; [|by intros ((_ & ? & _) & _)]. intros _. unfold is_ip. cbn.
  pose proof (Z.pow_pos_nonneg 2 (width f)). destruct (width_cases f); lia.
Qed.

Lemma at_path_wf p : ∀ t, trie_wf t → trie_wf (at_path t p).
Proof. induction p as [|bit p IH]; intros t Ht; [done|]. by apply IH, child_wf. Qed.

(** A child that shares one more bit with the address than its parent. *)
Lemma common_inside b c bit t ip : trie_wf t → inside b c bit t → is_ip f ip → 0 <= c < width f → t ≠ Nil →
  agree f c b ip → bit_at f c ip = bit → c < commonBits f (bits_of t) ip.
Proof.
  destruct t as [|peer l r c1 b1]; [done|]. intros ((Hc1 & Hb1 & _) & _) (Hlt & Ha1 & Hbit1) Hip Hc _ Ha Hbit. cbn.
  assert (c + 1 <= commonBits f b1 ip); [|lia]. apply commonBits_spec; [done..|lia|].
  apply agree_succ; [lia|]. split; [|congruence]. apply (agree_trans f c _ b); [by apply agree_sym|done].
Qed.

Lemma insert_at_child t bit res exact ip cidr q c : (∃ peer l r b, t = Node peer l r c b) → child t bit ≠ Nil →
  (exact = true → is_Some res) →
  (∀ bits, res = None → (bits = ip ∨ bits = maskSelf f ip cidr ∨
     bits = maskSelf f (maskSelf f ip cidr) (commonBits f (bits_of (child t bit)) ip) ∧
       commonBits f (bits_of (child t bit)) ip < cidr) → choose f c bits = Some bit) →
  insert_at f t (Some (below bit res)) exact ip cidr q = set_child t bit <$> insert_at f (child t bit) res exact ip cidr q.
Proof.
  intros Hnode Hne Hexact Hchoose. unfold insert_at. destruct exact.
  { destruct (Hexact eq_refl) as [p ->]. done. }
  rewrite (slot_below t bit res ip c Hnode) by auto. destruct (slot f (child t bit) res ip) as [s|] eqn:Hs; [|done].
  cbn [fmap option_fmap option_map mbind option_bind at_path put_at].
  assert (res = None → s = []) as Hroot by (intros ->; cbn in Hs; congruence).
  destruct (at_path (child t bit) s) as [|dp dl dr dc db] eqn:Hd; [done|]. cbn [bits_of new_entry].
  destruct (Z.ltb_spec (commonBits f db ip) cidr) as [Hlt|Hge].
  - rewrite (proj2 (Z.eqb_neq cidr (commonBits f db ip))) by lia.
    destruct (choose f (commonBits f db ip) db) as [bit1|]; [|done]. cbn [mbind option_bind].
    destruct (choose f (commonBits f db ip) (maskSelf f ip cidr)) as [bit2|]; [|done]. cbn [mbind option_bind].
    rewrite !bits_of_set_child. cbn [bits_of]. rewrite (slot_below t bit res _ c Hnode).
    + by destruct (slot f (child t bit) res (maskSelf f (maskSelf f ip cidr) _)).
    + intros Hr. apply Hchoose; [done|]. rewrite (Hroot Hr) in Hd. cbn in Hd. rewrite Hd. cbn. auto.
  - rewrite Z.eqb_refl. destruct (choose f cidr db); [|done]. cbn [mbind option_bind].
    rewrite (slot_below t bit res _ c Hnode) by auto. by destruct (slot f (child t bit) res (maskSelf f ip cidr)).
Qed.

(** Inserting below a covering node is inserting into one of its children. *)
Lemma trie_insert_child peer l r c b ip cidr q : trie_wf (Node peer l r c b) → is_ip f ip →
  c < cidr <= width f → agree f c b ip →
  trie_insert f (Node peer l r c b) ip cidr q =
    set_child (Node peer l r c b) (bit_at f c ip) <$>
      trie_insert f (child (Node peer l r c b) (bit_at f c ip)) ip cidr q.
Proof.
  intros Hwf Hip Hcidr Ha. pose proof Hwf as ((Hc & _) & _). cbn [trie_insert].
  rewrite nodePlacement_child by done. set (t := Node peer l r c b) in *. set (bit := bit_at f c ip).
  pose proof (child_wf t bit Hwf) as Hwc. pose proof (inside_child peer l r c b bit Hwf) as Hin. fold t in Hin.
  assert (∃ peer' l' r' b', t = Node peer' l' r' c b') as Hnode by (unfold t; eauto).
  assert (∀ x k, c < k <= width f → agree f k x ip → choose f c x = Some bit) as Hchoose.
  { intros x k Hk Hx. rewrite choose_spec by lia. f_equal. apply (bit_at_agree f _ _ _ k); [lia..|done]. }
  destruct (nodePlacement_spec (child t bit) ip cidr Hwc Hip) as (res & exact & He & Hres); [lia|]. rewrite He.
  cbn [mbind option_bind]. destruct (child t bit) as [|peer' l' r' c' b'] eqn:Hch.
  - cbn in He. simplify_eq. unfold insert_at. rewrite (slot_below t bit None ip c Hnode) by (intros; by apply (Hchoose ip cidr)).
    cbn [slot fmap option_fmap option_map mbind option_bind at_path]. by rewrite Hch.
  - rewrite <-Hch in *. rewrite (insert_at_child t bit res exact ip cidr q c Hnode); [| |by destruct exact; naive_solver|].
    + rewrite Hch at 2. cbn [trie_insert]. rewrite <-Hch, He. done.
    + by rewrite Hch.
    + intros bits _ [->|[->|[-> Hlt]]].
      * by apply (Hchoose ip cidr).
      * apply (Hchoose _ cidr); [done|]. by apply mask_agree; [|lia].
      * assert (c < commonBits f (bits_of (child t bit)) ip).
        { apply (common_inside b c bit); [done..|lia|by rewrite Hch|done|done]. }
        assert (is_ip f (maskSelf f ip cidr)) by (by apply mask_is_ip; [|lia]).
        apply (Hchoose _ (commonBits f (bits_of (child t bit)) ip)); [lia|].
        apply (agree_trans f _ _ (maskSelf f ip cidr)); [apply mask_agree; [done|lia]|].
        apply (agree_le f cidr); [lia|]. by apply mask_agree; [|lia].
Qed.

(** [t'] is [t] with the prefix of [ip] and [cidr] given to [q]. *)
Record inserted t (ip cidr : Z) (q : Peer) t' : Prop := {
  ins_wf : trie_wf t';
  ins_node : t' ≠ Nil;
  ins_has : ∀ b c p, has t' b c p ↔ (b = maskSelf f ip cidr ∧ c = cidr ∧ p = q) ∨
    has t b c p ∧ ¬ (b = maskSelf f ip cidr ∧ c = cidr);
  ins_inside : ∀ b c bit, inside b c bit t → 0 <= c < cidr → agree f c b ip → bit_at f c ip = bit → inside b c bit t';
}.

Lemma inside_prefix b c bit n k ip : 0 <= c < k → k <= width f → agree f k n ip → agree f c b ip → bit_at f c ip = bit →
  c < k ∧ agree f c b n ∧ bit_at f c n = bit.
Proof.
  intros Hc Hk Hn Ha Hbit. split; [lia|]. split.
  - apply (agree_trans f c _ ip); [done|]. apply agree_sym, (agree_le f k); [lia|done].
  - rewrite <-Hbit. by apply (bit_at_agree f _ _ _ k).
Qed.

Lemma inserted_new ip cidr q : is_ip f ip → 0 <= cidr <= width f → inserted Nil ip cidr q (new_entry f ip cidr (Some q)).
Proof.
  intros Hip Hcidr. pose proof (mask_agree f ip cidr Hip Hcidr). split; cbn.
  - split; [|done]. split; [lia|]. split; [by apply mask_is_ip|by apply mask_idem].
  - done.
  - naive_solver.
  - intros b c bit _ Hc Ha Hbit. apply (inside_prefix _ _ _ _ _ ip); [lia..|done|done|done].
Qed.

(** The prefix is in the trie already. *)
Lemma inserted_exact peer l r b ip cidr q : trie_wf (Node peer l r cidr b) → is_ip f ip → 0 <= cidr <= width f →
  agree f cidr b ip → inserted (Node peer l r cidr b) ip cidr q (Node (Some q) l r cidr b).
Proof.
  intros Hwf Hip Hcidr Ha. pose proof Hwf as ((? & Hb & Hm) & ? & _ & ?).
  assert (b = maskSelf f ip cidr) as Hbm by (rewrite <-Hm; by apply agree_mask).
  split; [cbn; naive_solver|done| |done]. intros b' c' p'. rewrite !has_child.
  assert (∀ bit, has (child (Node peer l r cidr b) bit) b' c' p' → cidr < c') as Hlt.
  { intros bit Hh. destruct (has_in_child _ _ _ _ _ _ _ _ _ Hwf Hh). lia. }
  split.
  - intros [(? & -> & ->)|[bit Hh]]; [left; naive_solver|right]. pose proof (Hlt bit Hh). split; [eauto|lia].
  - intros [(-> & -> & ->)|[[(_ & -> & ->)|[bit Hh]] Hno]]; [by left|tauto|right; eauto].
Qed.

(** The prefix covers the whole trie. *)
Lemma inserted_above peer l r c b ip cidr q : trie_wf (Node peer l r c b) → is_ip f ip → 0 <= cidr < c →
  agree f cidr b ip →
  inserted (Node peer l r c b) ip cidr q
    (set_child (new_entry f ip cidr (Some q)) (bit_at f cidr b) (Node peer l r c b)).
Proof.
  intros Hwf Hip Hcidr Ha. pose proof Hwf as ((Hc & _) & _). set (t := Node peer l r c b) in *.
  pose proof (inserted_new ip cidr q Hip ltac:(lia)) as [Hw _ Hh Hi]. pose proof (mask_agree f ip cidr Hip ltac:(lia)) as Hma.
  assert (inside (maskSelf f ip cidr) cidr (bit_at f cidr b) t) as Hin.
  { split; [lia|]. split; [|done]. apply (agree_trans f cidr _ ip); [done|by apply agree_sym]. }
  split.
  - destruct Hw as [? _]. destruct (bit_at f cidr b); cbn [trie_wf set_child new_entry] in *; naive_solver.
  - by destruct (bit_at f cidr b).
  - intros b' c' p'. assert (has t b' c' p' → cidr < c') as Hlt.
    { intros Hht. destruct (has_below _ _ _ _ _ _ _ Hwf Hin ltac:(lia) Hht). lia. }
    assert (has (set_child (new_entry f ip cidr (Some q)) (bit_at f cidr b) t) b' c' p' ↔
      (b' = maskSelf f ip cidr ∧ c' = cidr ∧ p' = q) ∨ has t b' c' p') as ->.
    { destruct (bit_at f cidr b); cbn [has set_child new_entry]; naive_solver. }
    split; [|tauto]. intros [?|Hht]; [by left|right]. specialize (Hlt Hht). split; [done|lia].
  - intros b' c' bit _ Hc' Ha' Hbit. specialize (Hi b' c' bit I Hc' Ha' Hbit). by destruct (bit_at f cidr b).
Qed.

(** The prefix and the trie part at the bit after their [common] ones. *)
Lemma inserted_fork peer l r c b ip cidr q : trie_wf (Node peer l r c b) → is_ip f ip → 0 <= cidr <= width f →
  let common := commonBits f b ip in
  common < cidr → common < c →
  inserted (Node peer l r c b) ip cidr q
    (set_child (set_child (Node None Nil Nil common (maskSelf f (maskSelf f ip cidr) common))
       (bit_at f common b) (Node peer l r c b)) (bit_at f common (maskSelf f ip cidr)) (new_entry f ip cidr (Some q))).
Proof.
  intros Hwf Hip Hcidr common Hlt Hltc. pose proof Hwf as ((Hc & Hb & _) & _). set (t := Node peer l r c b) in *.
  pose proof (inserted_new ip cidr q Hip Hcidr) as [Hw _ Hh Hi]. pose proof (mask_agree f ip cidr Hip Hcidr) as Hma.
  pose proof (mask_is_ip f ip cidr Hip Hcidr) as Hmip. set (m := maskSelf f ip cidr) in *.
  destruct (commonBits_spec f b ip 0 Hb Hip) as [_ Hcb]; [lia|]. fold common in Hcb.
  assert (agree f common b ip) as Hab by (apply commonBits_spec; [done..|lia|lia]).
  assert (bit_at f common m = bit_at f common ip) as Hbm by (apply (bit_at_agree f _ _ _ cidr); [lia..|done]).
  assert (bit_at f common b ≠ bit_at f common ip) as Hdiff.
  { intros He. assert (common + 1 <= common); [|lia]. apply (commonBits_spec f b ip); [done..|lia|].
    apply agree_succ; [lia|done]. }
  assert (agree f common m ip) as Hmc by (apply (agree_le f cidr); [lia|done]).
  pose proof (mask_agree f m common Hmip ltac:(lia)) as Hnode.
  assert (inside (maskSelf f m common) common (bit_at f common b) t) as Hin.
  { split; [lia|]. split; [|done]. apply (agree_trans f common _ m); [done|]. apply (agree_trans f common _ ip); [done|by apply agree_sym]. }
  assert (inside (maskSelf f m common) common (bit_at f common m) (new_entry f ip cidr (Some q))) as Hin'.
  { split; [lia|]. done. }
  rewrite Hbm in *. destruct (bit_at f common b), (bit_at f common ip); try done; cbn [set_child].
  all: split; [|done| |].
  1,4: cbn [trie_wf] in *; split; [split; [lia|]; split; [by apply mask_is_ip; [|lia]|by apply mask_idem; [|lia]]|];
       split; [tauto|]; split; [done|]; tauto.
  1,3: intros b' c' p'; assert (has t b' c' p' → ¬ (b' = m ∧ c' = cidr)) as Hno;
    [intros Hht [-> ->]; destruct (has_below _ _ _ _ _ _ _ Hwf Hin ltac:(lia) Hht) as (_ & _ & ?); congruence|];
    cbn [has new_entry]; fold m; clearbody m; clear -Hno; generalize dependent (has t b' c' p'); naive_solver.
  all: intros b' c' bit (Hc1 & Ha1 & Hb1) Hc' Ha' Hbit.
  all: assert (c' + 1 <= common) as Hcc by (apply (commonBits_spec f b ip); [done..|lia|];
    apply agree_succ; [lia|]; split; [apply (agree_trans f c' _ b'); [by apply agree_sym|done]|congruence]).
  all: apply (inside_prefix _ _ _ _ _ ip); [lia..| |done|done]; by apply (agree_trans f common _ m).
Qed.

Lemma has_set_child t bit t' b c p : t ≠ Nil →
  has (set_child t bit t') b c p ↔ (match t with Node (Some p') _ _ c' b' => p' = p ∧ b = b' ∧ c = c' | _ => False end) ∨
    has t' b c p ∨ has (child t (negb bit)) b c p.
Proof.
  destruct t as [|peer l r c' b']; [done|]. intros _. destruct bit, peer; cbn; naive_solver.
Qed.

Lemma set_child_wf peer l r c b bit t' : trie_wf (Node peer l r c b) → trie_wf t' → inside b c bit t' → t' ≠ Nil →
  trie_wf (set_child (Node peer l r c b) bit t').
Proof.
  intros (Hn & Hin & Hp & Hl & Hr) Ht' Hin' Hne. destruct bit; cbn [set_child trie_wf].
  all: split; [done|]; split; [tauto|]; split; [|tauto]; intros Hpeer; by destruct (Hp Hpeer).
Qed.

Lemma inserted_below peer l r c b ip cidr q t' : trie_wf (Node peer l r c b) → is_ip f ip → c < cidr <= width f →
  agree f c b ip → inserted (child (Node peer l r c b) (bit_at f c ip)) ip cidr q t' →
  inserted (Node peer l r c b) ip cidr q (set_child (Node peer l r c b) (bit_at f c ip) t').
Proof.
  intros Hwf Hip Hcidr Ha [Hw Hne Hh Hi]. pose proof Hwf as ((Hc & _) & _).
  pose proof (mask_agree f ip cidr Hip ltac:(lia)) as Hma. set (bit := bit_at f c ip) in *.
  set (m := maskSelf f ip cidr) in *.
  assert (bit_at f c m = bit) as Hbm by (apply (bit_at_agree f _ _ _ cidr); [lia..|done]). split.
  - apply set_child_wf; [done..| |done]. apply Hi; [by apply inside_child|lia|done|done].
  - by destruct bit.
  - intros b' c' p'. rewrite has_set_child, Hh, (has_split bit) by done.
    assert (has (child (Node peer l r c b) (negb bit)) b' c' p' → ¬ (b' = m ∧ c' = cidr)) as Hother.
    { intros Hx [-> ->]. by eapply other_side. }
    assert (c ≠ cidr) as Hcne by lia. revert Hother Hcne.
    generalize (has (child (Node peer l r c b) bit) b' c' p') (has (child (Node peer l r c b) (negb bit)) b' c' p').
    fold m. clearbody m. clear. destruct peer; naive_solver.
  - intros b' c' bit' (? & ? & ?) _ _ _. by destruct bit.
Qed.

Lemma trie_insert_spec t ip cidr q : trie_wf t → is_ip f ip → 0 <= cidr <= width f →
  ∃ t', trie_insert f t ip cidr q = Some t' ∧ inserted t ip cidr q t'.
Proof.
  intros Hwf Hip Hcidr. induction t as [|peer l IHl r IHr c b]; [eexists; split; [done|by apply inserted_new]|].
  pose proof Hwf as ((Hc & Hb & _) & _ & _ & Hwl & Hwr). destruct (decide (c <= cidr ∧ agree f c b ip)) as [[Hle Ha]|Hno].
  - destruct (decide (c = cidr)) as [->|Hne].
    + cbn [trie_insert]. rewrite nodePlacement_exact by done. eexists. split; [done|]. by apply inserted_exact.
    + rewrite trie_insert_child by (done || lia).
      assert (∃ t', trie_insert f (child (Node peer l r c b) (bit_at f c ip)) ip cidr q = Some t' ∧
        inserted (child (Node peer l r c b) (bit_at f c ip)) ip cidr q t') as (t' & -> & Ht').
      { destruct (bit_at f c ip); [by apply IHr|by apply IHl]. }
      eexists. split; [done|]. by apply inserted_below; [..|lia|done|].
  - cbn [trie_insert]. rewrite nodePlacement_stop by done.
    cbn [mbind option_bind insert_at slot at_path put_at bits_of new_entry].
    destruct (commonBits_spec f b ip cidr Hb Hip Hcidr) as [Hcommon Hrange].
    destruct (Z.ltb_spec (commonBits f b ip) cidr) as [Hlt|Hge].
    + assert (commonBits f b ip < c).
      { apply Z.lt_nge. intros Hge. apply Hno. split; [lia|]. by apply commonBits_spec. }
      rewrite (proj2 (Z.eqb_neq cidr (commonBits f b ip))), !choose_spec by lia.
      eexists. split; [done|]. by apply inserted_fork.
    + apply Hcommon in Hge. assert (cidr < c).
      { apply Z.nle_gt. intros Hle. apply Hno. split; [done|]. apply (agree_le f cidr); [lia|done]. }
      rewrite Z.eqb_refl, choose_spec by lia. eexists. split; [done|]. by apply inserted_above; [..|lia|].
Qed.

(** ** Removal *)

(** Nodes further down have longer prefixes that extend those above. *)
Lemma at_path_root p : ∀ peer l r c b peer' l' r' c' b', trie_wf (Node peer l r c b) →
  at_path (Node peer l r c b) p = Node peer' l' r' c' b' →
  c <= c' <= width f ∧ agree f c b b' ∧
  match p with [] => True | bit :: _ => c < c' ∧ bit_at f c b' = bit end.
Proof.
  induction p as [|bit p IH]; intros peer l r c b peer' l' r' c' b' Hwf Hat.
  { cbn in Hat. simplify_eq. destruct Hwf as [[? _] _]. split; [lia|]. done. }
  cbn [at_path] in Hat. pose proof (child_wf _ bit Hwf) as Hwc. pose proof (inside_child _ _ _ _ _ bit Hwf) as Hin.
  pose proof Hwf as ((Hc & _) & _).
  destruct (child (Node peer l r c b) bit) as [|peer1 l1 r1 c1 b1].
  { clear -Hat. exfalso. induction p as [|? p IHp]; [done|]. by apply IHp. }
  destruct (IH _ _ _ _ _ _ _ _ _ _ Hwc Hat) as (Hc1 & Ha1 & _). destruct Hin as (Hlt & Ha & Hbit). split; [lia|]. split.
  - apply (agree_trans f c _ b1); [done|]. by apply (agree_le f c1); [lia|].
  - split; [lia|]. rewrite <-Hbit. symmetry. by apply (bit_at_agree f _ _ _ c1); [lia..|].
Qed.

(** A prefix belongs to the peer of its node. *)
Lemma has_at_path p : ∀ t peer l r c b q, trie_wf t → at_path t p = Node peer l r c b → has t b c q ↔ peer = Some q.
Proof.
  induction p as [|bit p IH]; intros t peer l r c b q Hwf Hat; cbn [at_path] in Hat.
  { subst. rewrite has_child. split; [|tauto]. intros [?|[bit Hh]]; [tauto|].
    destruct (has_in_child _ _ _ _ _ _ _ _ _ Hwf Hh). lia. }
  destruct t as [|peer0 l0 r0 c0 b0]; [exfalso; clear -Hat; by induction p|].
  destruct (at_path_root (bit :: p) _ _ _ _ _ _ _ _ _ _ Hwf Hat) as (_ & _ & Hlt & Hbit).
  rewrite (has_split bit), <-(IH _ _ _ _ _ _ q (child_wf _ bit Hwf) Hat).
  pose proof (other_side _ _ _ _ _ bit b c q Hwf Hbit). split; [|tauto]. intros [(_ & _ & ->)|?]; [lia|tauto].
Qed.

(** [t'] is [t] without the prefix [(b, c)]. *)
Record removed t (b c : Z) t' : Prop := {
  rm_wf : trie_wf t';
  rm_has : ∀ b' c' q, has t' b' c' q ↔ has t b' c' q ∧ ¬ (b' = b ∧ c' = c);
  rm_inside : ∀ b' c' bit, inside b' c' bit t → 0 <= c' → inside b' c' bit t';
}.

(** What is inside a child is inside its parent's place. *)
Lemma inside_deeper b c bit peer l r c1 b1 bit1 : trie_wf (Node peer l r c1 b1) → inside b c bit (Node peer l r c1 b1) → 0 <= c →
  inside b c bit (child (Node peer l r c1 b1) bit1).
Proof.
  intros Hwf (Hlt & Ha & Hbit) Hc. pose proof (inside_child _ _ _ _ _ bit1 Hwf) as Hin. pose proof Hwf as ((Hc1 & _) & _).
  destruct (child (Node peer l r c1 b1) bit1) as [|? ? ? c2 b2]; [done|]. destruct Hin as (Hlt2 & Ha2 & _).
  split; [lia|]. split.
  - apply (agree_trans f c _ b1); [done|]. by apply (agree_le f c1); [lia|].
  - rewrite <-Hbit. symmetry. by apply (bit_at_agree f _ _ _ c1); [lia..|].
Qed.

Lemma has_children_other peer l r c b b' c' q : trie_wf (Node peer l r c b) →
  has (Node peer l r c b) b' c' q ∧ ¬ (b' = b ∧ c' = c) ↔ has l b' c' q ∨ has r b' c' q.
Proof.
  intros Hwf. cbn [has]. split; [tauto|]. intros Hh. split; [tauto|]. intros [-> ->].
  destruct Hh as [Hh|Hh]; [destruct (has_in_child _ _ _ _ _ false _ _ _ Hwf Hh)|destruct (has_in_child _ _ _ _ _ true _ _ _ Hwf Hh)]; lia.
Qed.

(** The node itself goes: it stays as a fork if it has two children, and is replaced by
    its only child otherwise. *)
Lemma removed_node peer l r c b : trie_wf (Node peer l r c b) → l ≠ Nil → r ≠ Nil →
  removed (Node peer l r c b) b c (Node None l r c b).
Proof.
  intros Hwf Hl Hr. split; [cbn in *; tauto| |done].
  intros b' c' q. rewrite has_children_other by done. cbn. naive_solver.
Qed.

Lemma removed_only peer l r c b bit : trie_wf (Node peer l r c b) → child (Node peer l r c b) (negb bit) = Nil →
  removed (Node peer l r c b) b c (child (Node peer l r c b) bit).
Proof.
  intros Hwf Hnil. split; [by apply child_wf| |].
  - intros b' c' q. rewrite has_children_other by done. destruct bit; cbn in Hnil; subst; cbn; tauto.
  - intros b' c' bit' Hin Hc'. by apply inside_deeper.
Qed.

(** Removal in a child. *)
Lemma removed_below peer l r c b bit b' c' t' : trie_wf (Node peer l r c b) →
  removed (child (Node peer l r c b) bit) b' c' t' → c < c' → bit_at f c b' = bit → (t' ≠ Nil ∨ is_Some peer) →
  removed (Node peer l r c b) b' c' (set_child (Node peer l r c b) bit t').
Proof.
  intros Hwf [Hw Hh Hi] Hlt Hbit Hne. pose proof Hwf as ((Hc & _) & [Hinl Hinr] & Hp & Hl & Hr). split.
  - assert (inside b c bit t') as Hin by (apply Hi; [by apply inside_child|lia]).
    destruct Hwf as (Hn & _). destruct bit; cbn [set_child trie_wf]; (split; [done|]); (split; [tauto|]); (split; [|tauto]).
    all: intros Hpeer; destruct (Hp Hpeer); subst; destruct Hne as [?|[]]; done.
  - intros b1 c1 q. rewrite has_set_child, Hh, (has_split bit) by done.
    assert (has (child (Node peer l r c b) (negb bit)) b1 c1 q → ¬ (b1 = b' ∧ c1 = c')) as Hother.
    { intros Hx [-> ->]. by eapply other_side. }
    assert (c ≠ c') as Hcne by lia. revert Hother Hcne.
    generalize (has (child (Node peer l r c b) bit) b1 c1 q) (has (child (Node peer l r c b) (negb bit)) b1 c1 q).
    clear. destruct peer; naive_solver.
  - intros b1 c1 bit1 (? & ? & ?) _. by destruct bit.
Qed.

(** A fork that loses one side becomes the other side. *)
Lemma removed_fork l r c b bit b' c' : trie_wf (Node None l r c b) →
  removed (child (Node None l r c b) bit) b' c' Nil → c < c' → bit_at f c b' = bit →
  removed (Node None l r c b) b' c' (child (Node None l r c b) (negb bit)).
Proof.
  intros Hwf [_ Hh _] Hlt Hbit. split; [by apply child_wf| |].
  - intros b1 c1 q. rewrite (has_split bit). cbn [has] in Hh. specialize (Hh b1 c1 q).
    assert (has (child (Node None l r c b) (negb bit)) b1 c1 q → ¬ (b1 = b' ∧ c1 = c')) as Hother.
    { intros Hx [-> ->]. by eapply other_side. }
    naive_solver.
  - intros b1 c1 bit1 Hin Hc1. by apply inside_deeper.
Qed.

Lemma trie_remove_root t : trie_remove t [] =
  match child t false, child t true with
  | Node _ _ _ _ _, Node _ _ _ _ _ => set_peer t None
  | c0, c1 => match c0 with Nil => c1 | _ => c0 end
  end.
Proof. destruct t as [|? [] []]; done. Qed.

(** Removal further down than the children happens inside one of them. *)
Lemma trie_remove_deep t bit bit' p : t ≠ Nil →
  trie_remove t (bit :: bit' :: p) = set_child t bit (trie_remove (child t bit) (bit' :: p)).
Proof.
  intros Ht. unfold trie_remove. cbn [at_path put_at].
  assert (∀ x, child (set_child t bit x) bit = x) as Hcs by (intros; destruct t, bit; done).
  assert (∀ x y, set_child (set_child t bit x) bit y = set_child t bit y) as Hss by (intros; destruct t, bit; done).
  set (ch := child t bit). set (node := set_peer (at_path (child ch bit') p) None).
  assert (last (bit :: bit' :: p) = last (bit' :: p)) as -> by done.
  assert (take (length (bit :: bit' :: p) - 1) (bit :: bit' :: p) = bit :: take (length (bit' :: p) - 1) (bit' :: p)) as ->.
  { cbn [length]. rewrite !Nat.sub_succ, !Nat.sub_0_r. done. }
  cbn [at_path put_at]. set (ch' := λ x, set_child ch bit' (put_at (child ch bit') p x)).
  destruct (child node false), (child node true); cbn [at_path put_at]; rewrite ?Hcs; try done.
  all: destruct (last (bit' :: p)) as [bl|] eqn:E; [|done].
  all: by destruct (peer_of (at_path _ _)); rewrite ?Hss.
Qed.

Lemma trie_remove_step t bit : t ≠ Nil → child t bit ≠ Nil →
  trie_remove t [bit] =
    match trie_remove (child t bit) [] with
    | Nil => match peer_of t with Some _ => set_child t bit Nil | None => child t (negb bit) end
    | t' => set_child t bit t'
    end.
Proof.
  intros Ht Hc. rewrite trie_remove_root. unfold trie_remove. cbn [at_path put_at last length take].
  destruct t as [|peer l r c b]; [done|]. destruct bit; cbn [child] in *.
  - destruct r as [|pr [] [] cr br]; [done|..]; cbn; by destruct peer.
  - destruct l as [|pl [] [] cl bl]; [done|..]; cbn; by destruct peer.
Qed.

Lemma trie_remove_root_spec peer l r c b : trie_wf (Node peer l r c b) →
  removed (Node peer l r c b) b c (trie_remove (Node peer l r c b) []).
Proof.
  intros Hwf. rewrite trie_remove_root. cbn [child set_peer]. destruct l, r.
  - by apply (removed_only _ _ _ _ _ true).
  - by apply (removed_only _ _ _ _ _ true).
  - by apply (removed_only _ _ _ _ _ false).
  - by apply removed_node.
Qed.

Lemma trie_remove_spec p : ∀ t peer l r c b, trie_wf t → at_path t p = Node peer l r c b →
  removed t b c (trie_remove t p) ∧ (p ≠ [] → trie_remove t p ≠ Nil).
Proof.
  induction p as [|bit p IH]; intros t peer l r c b Hwf Hat.
  { cbn in Hat. subst. split; [by apply trie_remove_root_spec|done]. }
  destruct t as [|peer0 l0 r0 c0 b0].
  { exfalso. clear -Hat. revert Hat. generalize (bit :: p). intros q. by induction q. }
  destruct (at_path_root _ _ _ _ _ _ _ _ _ _ _ Hwf Hat) as (_ & _ & Hlt & Hbit).
  pose proof (child_wf _ bit Hwf) as Hwc. cbn [at_path] in Hat. destruct p as [|bit' p].
  - cbn [at_path] in Hat. rewrite trie_remove_step by (by rewrite ?Hat). rewrite Hat in *.
    pose proof (trie_remove_root_spec _ _ _ _ _ Hwc) as Hrm.
    destruct (trie_remove (Node peer l r c b) []) as [|peer1 l1 r1 c1 b1]; cbn [peer_of].
    + destruct peer0 as [q|].
      * split; [|by destruct bit]. apply removed_below; rewrite ?Hat; auto.
      * split; [apply removed_fork; by rewrite ?Hat|]. intros _.
        destruct Hwf as (_ & _ & [??] & _); [done|]. by destruct bit.
    + split; [|by destruct bit]. apply removed_below; rewrite ?Hat; auto.
  - rewrite trie_remove_deep by done. destruct (IH _ _ _ _ _ _ Hwc Hat) as [Hrm Hne].
    split; [|by destruct bit]. apply removed_below; [done..|]. left. by apply Hne.
Qed.

End tries.
