(* ===== verification/AllowedIPsProps.v ===== *)
(** The table of allowed addresses implements longest-prefix match: every operation of
    [AllowedIPs] refines the same operation on a finite map from prefixes to peers. *)

From S2P Require Import Prelude Bytes NetIP AllowedIPs TrieProps.

(** ** The table against a map from prefixes to peers *)

Definition addr_of (f : family) (ip : Z) : Addr := match f with V4 => Addr4 ip | V6 => Addr6 ip "" end.

(** The prefix a node stands for. *)
Definition id_prefix (id : node_id) : Prefix := mkPrefix (addr_of id.1.1 id.1.2) (id.2 + 1).

#[export] Instance id_prefix_inj : Inj (=) (=) id_prefix.
Proof. intros [[f b] c] [[f' b'] c']. unfold id_prefix. destruct f, f'; cbn; intros; simplify_eq; repeat f_equal; lia. Qed.

(** Family, address and length of a proper prefix. *)
Lemma split_prefix_wf p : pfx_wf p →
  ∃ f ip c, split_prefix p = Some (f, ip, c) ∧ is_ip f ip ∧ 0 <= c <= width f ∧
    pfx_Masked p = id_prefix (f, maskSelf f ip c, c).
Proof.
  destruct p as [a bp]. intros (Ha & Hz & Hb & Hv). unfold split_prefix, pfx_Masked, pfx_IsValid, pfx_Bits.
  cbn [pfx_Addr pfx_bitsPlusOne] in *. rewrite (proj2 (Z.ltb_lt 0 bp)) by lia. cbn [negb].
  assert (∀ f x, is_ip f x → 0 <= bp - 1 <= width f → addr_BitLen (addr_of f x) = width f →
    PrefixFrom (addr_of f (mask_bits (width f) (bp - 1) x)) (bp - 1) = id_prefix (f, maskSelf f x (bp - 1), bp - 1)) as Hid.
  { intros f x Hx Hbp _. rewrite <-maskSelf_eq by done. unfold PrefixFrom, id_prefix.
    destruct f; cbn [addr_withoutZone addr_IsValid addr_BitLen addr_of fst snd andb].
    all: rewrite (proj2 (Z.leb_le 0 (bp - 1))) by lia; cbn [andb].
    - by rewrite (proj2 (Z.leb_le (bp - 1) 32)) by (change (width V4) with 32 in *; lia).
    - by rewrite (proj2 (Z.leb_le (bp - 1) 128)) by (change (width V6) with 128 in *; lia). }
  destruct a as [|x|x z]; [done| |injection Hz as <-]; cbn [addr_BitLen] in Hb.
  - exists V4, x, (bp - 1). rewrite wrap_small by (unfold in_width; lia).
    assert (0 <= bp - 1 <= width V4) by (change (width V4) with 32; lia). by rewrite <-Hid.
  - exists V6, x, (bp - 1). rewrite wrap_small by (unfold in_width; lia).
    assert (0 <= bp - 1 <= width V6) by (change (width V6) with 128; lia). by rewrite <-Hid.
Qed.

Lemma id_prefix_Contains f b c f' ip : 0 <= c →
  pfx_Contains (id_prefix (f, b, c)) (addr_of f' ip) = true ↔ f = f' ∧ agree f c b ip.
Proof.
  intros Hc. unfold pfx_Contains, pfx_IsValid, pfx_Bits, id_prefix, agree. cbn [fst snd pfx_Addr pfx_bitsPlusOne].
  rewrite (proj2 (Z.ltb_lt 0 (c + 1))) by lia. replace (c + 1 - 1) with c by lia.
  destruct f, f'; cbn [addr_of andb]; [|by split; [|intros [? _]]..|].
  - rewrite Z.eqb_eq. change (width V4) with 32. tauto.
  - rewrite bool_decide_eq_true_2 by done. cbn [andb]. rewrite Z.eqb_eq. change (width V6) with 128. tauto.
Qed.

Section table_props.
Context {Peer : Type} `{Countable Peer}.
Implicit Types t : AllowedIPs Peer.
Implicit Types m : gmap Prefix Peer.

Record table_refines t m : Prop := {
  tr_wf : ∀ f, trie_wf f (trie_of t f);
  tr_has : ∀ f b c q, has (trie_of t f) b c q ↔ m !! id_prefix (f, b, c) = Some q;
  tr_keys : ∀ p, is_Some (m !! p) → ∃ id, p = id_prefix id;
  tr_nodup : ∀ q, NoDup (entries_of (trieEntries t) q);
  tr_entries : ∀ q id, id ∈ entries_of (trieEntries t) q ↔ m !! id_prefix id = Some q;
}.

Lemma trie_of_set t f root e f' : trie_of (set_trie t f root e) f' = if decide (f = f') then root else trie_of t f'.
Proof. by destruct f, f'. Qed.

Lemma trieEntries_set t f root e : trieEntries (set_trie t f root e) = e.
Proof. by destruct f. Qed.

Lemma entries_of_insert (e : gmap Peer (list node_id)) q l q' :
  entries_of (<[q := l]> e) q' = if decide (q = q') then l else entries_of e q'.
Proof. unfold entries_of. case_decide; subst; [by rewrite lookup_insert_eq|by rewrite lookup_insert_ne]. Qed.

Lemma entries_of_remove id old (e : gmap Peer (list node_id)) q :
  entries_of (removeFromPeerEntries id old e) q = if decide (old = Some q) then filter (.≠ id) (entries_of e q) else entries_of e q.
Proof.
  destruct old as [q'|]; cbn; [|done]. rewrite entries_of_insert. repeat case_decide; naive_solver.
Qed.

Lemma table_refines_empty : table_refines empty_table ∅.
Proof.
  split.
  - by intros [].
  - intros f b c q. rewrite lookup_empty. by destruct f.
  - intros p. rewrite lookup_empty. by intros [].
  - intros q. unfold entries_of. cbn. rewrite lookup_empty. constructor.
  - intros q id. unfold entries_of. cbn. rewrite !lookup_empty. cbn. rewrite elem_of_nil. naive_solver.
Qed.

(** The peer of the node found by its exact prefix is the peer in the map. *)
Lemma exact_peer t m f ip c : table_refines t m → is_ip f ip → 0 <= c <= width f →
  ∃ res exact, nodePlacement f (trie_of t f) ip c = Some (res, exact) ∧
    (match res with Some p => if exact : bool then peer_of (at_path (trie_of t f) p) else None | None => None end) =
      m !! id_prefix (f, maskSelf f ip c, c).
Proof.
  intros Hr Hip Hc. destruct (nodePlacement_spec f (trie_of t f) ip c (tr_wf _ _ Hr f) Hip Hc) as (res & exact & He & Hres).
  exists res, exact. split; [done|]. apply option_eq. intros q. rewrite <-(tr_has _ _ Hr). destruct exact.
  - destruct Hres as (p & peer & l & r & -> & Hp). rewrite (has_at_path f p _ _ _ _ _ _ q (tr_wf _ _ Hr f) Hp). by rewrite Hp.
  - specialize (Hres q). by destruct res.
Qed.

Lemma Insert_refines t m p q : table_refines t m → pfx_wf p →
  ∃ t', AllowedIPs_Insert t p q = Some t' ∧ table_refines t' (<[pfx_Masked p := q]> m).
Proof.
  intros Hr Hp. destruct (split_prefix_wf p Hp) as (f & ip & c & Hs & Hip & Hc & ->).
  unfold AllowedIPs_Insert. rewrite Hs. cbn [mbind option_bind].
  destruct (trie_insert_spec f (trie_of t f) ip c q (tr_wf _ _ Hr f) Hip Hc) as (root' & -> & [Hw _ Hh _]).
  destruct (exact_peer t m f ip c Hr Hip Hc) as (res & exact & -> & Hold). cbn [mbind option_bind]. rewrite Hold.
  set (id := (f, maskSelf f ip c, c)). eexists. split; [done|]. split.
  - intros f'. rewrite trie_of_set. case_decide; [by subst|apply (tr_wf _ _ Hr)].
  - intros f' b' c' q'. rewrite trie_of_set. case_decide as Hf.
    + subst f'. rewrite Hh, (tr_has _ _ Hr). destruct (decide (id_prefix (f, b', c') = id_prefix id)) as [He|He].
      * rewrite He, lookup_insert_eq. apply id_prefix_inj in He. unfold id in He. simplify_eq. naive_solver.
      * rewrite lookup_insert_ne by done.
        assert (¬ (b' = maskSelf f ip c ∧ c' = c)) by (intros [-> ->]; done). naive_solver.
    + rewrite lookup_insert_ne; [apply (tr_has _ _ Hr)|]. intros He%id_prefix_inj. unfold id in He. congruence.
  - intros p'. rewrite lookup_insert_is_Some. intros [<-|[_ ?]]; [by exists id|by apply (tr_keys _ _ Hr)].
  - intros q'. rewrite trieEntries_set. unfold addToPeerEntries. rewrite entries_of_insert.
    assert (∀ q', NoDup (entries_of (removeFromPeerEntries id (m !! id_prefix id) (trieEntries t)) q')) as Hnd.
    { intros x. rewrite entries_of_remove. case_decide; [apply NoDup_filter|]; apply (tr_nodup _ _ Hr). }
    case_decide; [|apply Hnd]. subst. apply NoDup_app. split; [apply Hnd|]. split; [|apply NoDup_singleton].
    intros x Hx ->%list_elem_of_singleton. rewrite entries_of_remove in Hx. case_decide as Hd.
    + apply list_elem_of_filter in Hx as [? _]. done.
    + by apply (tr_entries _ _ Hr) in Hx.
  - intros q' id'. rewrite trieEntries_set. unfold addToPeerEntries. rewrite entries_of_insert.
    assert (∀ q', id' ∈ entries_of (removeFromPeerEntries id (m !! id_prefix id) (trieEntries t)) q' ↔
      m !! id_prefix id' = Some q' ∧ id' ≠ id) as Hrm.
    { intros x. rewrite entries_of_remove. case_decide as Hd.
      - rewrite list_elem_of_filter, (tr_entries _ _ Hr). tauto.
      - rewrite (tr_entries _ _ Hr). split; [|tauto]. intros ?. split; [done|]. by intros ->. }
    destruct (decide (id' = id)) as [->|Hne].
    + rewrite lookup_insert_eq. case_decide as Hq; [rewrite elem_of_app, list_elem_of_singleton; naive_solver|].
      rewrite Hrm. naive_solver.
    + rewrite lookup_insert_ne by (by intros ?%id_prefix_inj).
      case_decide as Hq; rewrite ?elem_of_app, ?list_elem_of_singleton, Hrm; naive_solver.
Qed.

Lemma remove_node_refines t m f p peer l r c b : table_refines t m → at_path (trie_of t f) p = Node peer l r c b →
  table_refines (remove_node t f p) (delete (id_prefix (f, b, c)) m).
Proof.
  intros Hr Hat. unfold remove_node. rewrite Hat. set (id := (f, b, c)).
  assert (peer = m !! id_prefix id) as Hpeer.
  { apply option_eq. intros q. unfold id. rewrite <-(tr_has _ _ Hr). symmetry. by apply (has_at_path f p _ _ _ _ _ _ q (tr_wf _ _ Hr f) Hat). }
  destruct (trie_remove_spec f p _ _ _ _ _ _ (tr_wf _ _ Hr f) Hat) as [[Hw Hh _] _]. split.
  - intros f'. rewrite trie_of_set. case_decide; [by subst|apply (tr_wf _ _ Hr)].
  - intros f' b' c' q'. rewrite trie_of_set, lookup_delete_Some. case_decide as Hf.
    + subst f'. rewrite Hh, (tr_has _ _ Hr). split.
      * intros [? Hne]. split; [|done]. intros He%id_prefix_inj. unfold id in He. naive_solver.
      * intros [Hne ?]. split; [done|]. intros [-> ->]. done.
    + rewrite (tr_has _ _ Hr). split; [|tauto]. intros ?. split; [|done].
      intros He%id_prefix_inj. unfold id in He. naive_solver.
  - intros p'. rewrite lookup_delete_is_Some. intros [_ ?]. by apply (tr_keys _ _ Hr).
  - intros q'. rewrite trieEntries_set, entries_of_remove. case_decide; [apply NoDup_filter|]; apply (tr_nodup _ _ Hr).
  - intros q' id'. rewrite trieEntries_set, entries_of_remove, lookup_delete_Some, <-(tr_entries _ _ Hr).
    assert (id_prefix id ≠ id_prefix id' ↔ id' ≠ id) as ->.
    { split; [by intros ? ->|]. by intros ? ?%id_prefix_inj. }
    case_decide as Hd; [rewrite list_elem_of_filter; tauto|]. split; [|tauto]. intros Hin. split; [|done].
    intros ->. apply (tr_entries _ _ Hr) in Hin. congruence.
Qed.

(** The node of an entry of the map. *)
Lemma find_node t m f b c q : table_refines t m → m !! id_prefix (f, b, c) = Some q →
  ∃ p l r, nodePlacement f (trie_of t f) b c = Some (Some p, true) ∧ at_path (trie_of t f) p = Node (Some q) l r c b.
Proof.
  intros Hr Hm. pose proof (tr_wf _ _ Hr f) as Hwf. pose proof (proj2 (tr_has _ _ Hr f b c q) Hm) as Hh.
  assert (0 <= c <= width f ∧ is_ip f b ∧ maskSelf f b c = b) as (Hc & Hb & Hmask).
  { destruct (trie_of t f) as [|peer l r c0 b0]; [done|]. destruct (has_root _ _ _ _ _ _ _ _ _ Hwf Hh) as (? & ? & ? & _).
    destruct Hwf as [[? _] _]. split; [lia|done]. }
  destruct (nodePlacement_spec f (trie_of t f) b c Hwf Hb Hc) as (res & exact & He & Hres). rewrite Hmask in Hres.
  destruct exact; [|by destruct (Hres q)]. destruct Hres as (p & peer & l & r & -> & Hp).
  exists p, l, r. split; [done|]. rewrite Hp. f_equal. symmetry.
  by rewrite (has_at_path f p _ _ _ _ _ _ q Hwf Hp) in Hh.
Qed.

Lemma Remove_refines t m p q : table_refines t m → pfx_wf p →
  ∃ t', AllowedIPs_Remove t p q = Some t' ∧
    table_refines t' (if decide (m !! pfx_Masked p = Some q) then delete (pfx_Masked p) m else m).
Proof.
  intros Hr Hp. destruct (split_prefix_wf p Hp) as (f & ip & c & Hs & Hip & Hc & ->).
  unfold AllowedIPs_Remove. rewrite Hs. cbn [mbind option_bind].
  destruct (nodePlacement_spec f (trie_of t f) ip c (tr_wf _ _ Hr f) Hip Hc) as (res & exact & He & Hres).
  destruct (exact_peer t m f ip c Hr Hip Hc) as (res' & exact' & He' & Hpeer).
  rewrite He in He'. injection He' as <- <-. rewrite He. cbn [mbind option_bind]. rewrite <-Hpeer.
  destruct res as [path|]; [|by exists t]. destruct exact; cbn [negb orb]; [|by exists t].
  destruct (decide (peer_of (at_path (trie_of t f) path) = Some q)) as [Hq|Hq].
  - rewrite bool_decide_eq_true_2 by done. eexists. split; [done|].
    destruct Hres as (? & peer & l & r & [= <-] & Hat). by eapply remove_node_refines.
  - rewrite bool_decide_eq_false_2 by done. by exists t.
Qed.

Lemma remove_elements_refines q ids : ∀ t m, table_refines t m → NoDup ids →
  (∀ id, id ∈ ids → m !! id_prefix id = Some q) →
  ∃ t', foldl remove_element (Some t) ids = Some t' ∧
    table_refines t' (foldl (λ m id, delete (id_prefix id) m) m ids).
Proof.
  induction ids as [|[[f b] c] ids IH]; intros t m Hr Hnd Hids; [by exists t|].
  apply NoDup_cons in Hnd as [Hnot Hnd]. cbn [foldl].
  destruct (find_node t m f b c q Hr) as (p & l & r & He & Hat); [apply Hids; by left|].
  cbn [remove_element mbind option_bind]. rewrite He. cbn [mbind option_bind].
  apply IH; [by eapply remove_node_refines|done|].
  intros id Hin. rewrite lookup_delete_ne; [apply Hids; by right|]. intros <-%id_prefix_inj. done.
Qed.

Lemma RemoveByPeer_refines t m q : table_refines t m →
  ∃ t', AllowedIPs_RemoveByPeer t q = Some t' ∧ table_refines t' (filter (λ kv, kv.2 ≠ q) m).
Proof.
  intros Hr. unfold AllowedIPs_RemoveByPeer.
  destruct (remove_elements_refines q (entries_of (trieEntries t) q) t m Hr (tr_nodup _ _ Hr q)) as (t' & -> & Hr').
  { intros id. apply (tr_entries _ _ Hr). }
  exists t'. split; [done|].
  assert (filter (λ kv, kv.2 ≠ q) m = foldl (λ m id, delete (id_prefix id) m) m (entries_of (trieEntries t) q)) as ->; [|done].
  assert (∀ ids m p, foldl (λ m id, delete (id_prefix id) m) m ids !! p =
    if decide (p ∈ id_prefix <$> ids) then None else (m : gmap Prefix Peer) !! p) as Hfold.
  { induction ids as [|id ids IH]; intros m0 p; cbn [foldl fmap list_fmap]; [done|]. rewrite IH.
    destruct (decide (p ∈ id_prefix <$> ids)) as [Hin|Hin]; [by rewrite decide_True by (by right)|].
    destruct (decide (p = id_prefix id)) as [->|Hne].
    - by rewrite lookup_delete_eq, decide_True by (by left).
    - by rewrite lookup_delete_ne, decide_False by (rewrite ?elem_of_cons; naive_solver). }
  apply map_eq. intros p. rewrite Hfold. destruct (m !! p) as [q'|] eqn:Hp.
  - destruct (tr_keys _ _ Hr p) as [id ->]; [by eexists|].
    assert (id_prefix id ∈ id_prefix <$> entries_of (trieEntries t) q ↔ q' = q) as Hin.
    { rewrite list_elem_of_fmap. split.
      - intros (id' & Hid & Hin). apply id_prefix_inj in Hid as <-. apply (tr_entries _ _ Hr) in Hin. congruence.
      - intros ->. exists id. split; [done|]. by apply (tr_entries _ _ Hr). }
    case_decide as Hd; rewrite Hin in Hd.
    + apply map_lookup_filter_None. right. intros x Hx. cbn. naive_solver.
    + by apply map_lookup_filter_Some.
  - case_decide; apply map_lookup_filter_None; by left.
Qed.

(** ** Sequences of operations *)

Inductive TableOp :=
| OpInsert (prefix : Prefix) (peer : Peer)
| OpRemove (prefix : Prefix) (peer : Peer)
| OpRemoveByPeer (peer : Peer).

Definition op_valid (op : TableOp) : Prop :=
  match op with OpInsert p _ | OpRemove p _ => pfx_wf p | OpRemoveByPeer _ => True end.

Definition table_op (t : option (AllowedIPs Peer)) (op : TableOp) : option (AllowedIPs Peer) :=
  t ← t;
  match op with
  | OpInsert p q => AllowedIPs_Insert t p q
  | OpRemove p q => AllowedIPs_Remove t p q
  | OpRemoveByPeer q => AllowedIPs_RemoveByPeer t q
  end.

(** The same on a map. *)
Definition map_op m (op : TableOp) : gmap Prefix Peer :=
  match op with
  | OpInsert p q => <[pfx_Masked p := q]> m
  | OpRemove p q => if decide (m !! pfx_Masked p = Some q) then delete (pfx_Masked p) m else m
  | OpRemoveByPeer q => filter (λ kv, kv.2 ≠ q) m
  end.

(** [res] is the peer of the longest prefix in the map that contains the address. *)
Definition longest_match m (a : Addr) (res : option Peer) : Prop :=
  match res with
  | Some q => ∃ p, m !! p = Some q ∧ pfx_Contains p a = true ∧
      ∀ p' q', m !! p' = Some q' → pfx_Contains p' a = true → pfx_Bits p' <= pfx_Bits p
  | None => ∀ p q, m !! p = Some q → pfx_Contains p a = false
  end.

Lemma table_ops_refine ops : ∀ t m, table_refines t m → Forall op_valid ops →
  ∃ t', foldl table_op (Some t) ops = Some t' ∧ table_refines t' (foldl map_op m ops).
Proof.
  induction ops as [|op ops IH]; intros t m Hr Hv; [by exists t|]. apply Forall_cons in Hv as [Hop Hv]. cbn [foldl].
  assert (∃ t', table_op (Some t) op = Some t' ∧ table_refines t' (map_op m op)) as (t' & -> & Hr'); [|by apply IH].
  destruct op; [by apply Insert_refines|by apply Remove_refines|by apply RemoveByPeer_refines].
Qed.

Lemma key_range t m f b c q : table_refines t m → m !! id_prefix (f, b, c) = Some q → 0 <= c <= width f.
Proof.
  intros Hr Hh%(tr_has _ _ Hr). pose proof (tr_wf _ _ Hr f) as Hwf.
  destruct (trie_of t f) as [|peer l r c0 b0]; [done|]. destruct (has_root _ _ _ _ _ _ _ _ _ Hwf Hh) as (? & _).
  destruct Hwf as [[? _] _]. lia.
Qed.

Lemma Lookup_refines t m f ip : table_refines t m → is_ip f ip →
  ∃ res, AllowedIPs_Lookup t f ip = Some res ∧ longest_match m (addr_of f ip) res.
Proof.
  intros Hr Hip. unfold AllowedIPs_Lookup.
  destruct (trie_lookup_spec f (trie_of t f) ip (tr_wf _ _ Hr f) Hip None) as (res & -> & Hbest).
  exists (match res with Some p => Some p | None => None end). split; [done|].
  assert (∀ p q, m !! p = Some q → pfx_Contains p (addr_of f ip) = true →
    ∃ b c, has (trie_of t f) b c q ∧ agree f c b ip ∧ pfx_Bits p = c) as Hkeys.
  { intros p q Hp Hc. destruct (tr_keys _ _ Hr p) as [[[f' b] c] ->]; [by eexists|].
    pose proof (key_range t m f' b c q Hr Hp). apply id_prefix_Contains in Hc as [-> Ha]; [|lia].
    exists b, c. split; [by apply (tr_has _ _ Hr)|]. split; [done|]. unfold pfx_Bits. cbn. lia. }
  destruct res as [q|]; cbn in *.
  - destruct Hbest as (b & c & Hh & Ha & Hmax). apply (tr_has _ _ Hr) in Hh as Hm. exists (id_prefix (f, b, c)).
    pose proof (key_range t m f b c q Hr Hm). split; [done|]. split; [apply id_prefix_Contains; [lia|done]|].
    intros p' q' Hp' Hc'. destruct (Hkeys p' q' Hp' Hc') as (b' & c' & Hh' & Ha' & ->).
    replace (pfx_Bits (id_prefix (f, b, c))) with c by (unfold pfx_Bits; cbn; lia). by eapply Hmax.
  - intros p q Hp. apply not_true_is_false. intros Hc. destruct (Hkeys p q Hp Hc) as (b & c & Hh & Ha & _).
    by destruct (Hbest b c q).
Qed.

Lemma Entries_refines t m q : table_refines t m →
  NoDup (EntriesForPeer t q) ∧ ∀ p, p ∈ EntriesForPeer t q ↔ m !! p = Some q.
Proof.
  intros Hr. assert (EntriesForPeer t q = id_prefix <$> entries_of (trieEntries t) q) as ->.
  { unfold EntriesForPeer. apply list_fmap_ext. intros i [[f b] c] Hi%list_elem_of_lookup_2.
    apply (tr_entries _ _ Hr) in Hi. pose proof (key_range t m f b c q Hr Hi) as Hc.
    unfold PrefixFrom, id_prefix. destruct f; cbn [addr_of addr_withoutZone addr_IsValid addr_BitLen fst snd andb].
    - change (width V4) with 32 in Hc. by rewrite (proj2 (Z.leb_le 0 c)), (proj2 (Z.leb_le c 32)) by lia.
    - change (width V6) with 128 in Hc. by rewrite (proj2 (Z.leb_le 0 c)), (proj2 (Z.leb_le c 128)) by lia. }
  split; [apply NoDup_fmap_2; [apply _|apply (tr_nodup _ _ Hr)]|].
  intros p. rewrite list_elem_of_fmap. split.
  - intros (id & -> & Hin). by apply (tr_entries _ _ Hr).
  - intros Hp. destruct (tr_keys _ _ Hr p) as [id ->]; [by eexists|]. exists id. split; [done|]. by apply (tr_entries _ _ Hr).
Qed.

(** C36: the trie of allowed addresses implements longest-prefix match.  After any
    sequence of insertions and removals of proper prefixes none of which panics, a lookup
    answers the peer of the longest prefix in force that contains the address, exactly
    as a plain map from prefixes to peers would, and the entries listed for a peer are
    its prefixes, each once. *)
Theorem allowed_ips_refines ops : Forall op_valid ops →
  ∃ t, foldl table_op (Some empty_table) ops = Some t ∧
    (∀ f ip, is_ip f ip → ∃ res, AllowedIPs_Lookup t f ip = Some res ∧
       longest_match (foldl map_op ∅ ops) (addr_of f ip) res) ∧
    (∀ q, NoDup (EntriesForPeer t q) ∧ ∀ p, p ∈ EntriesForPeer t q ↔ foldl map_op ∅ ops !! p = Some q).
Proof.
  intros Hv. destruct (table_ops_refine ops _ _ table_refines_empty Hv) as (t & Ht & Hr).
  exists t. split; [done|]. split; [intros f ip; by apply Lookup_refines|intros q; by apply Entries_refines].
Qed.

End table_props.

(** A table with a fork, a shorter prefix inside a longer one's path, and a peer removed. *)
Definition table_demo : list (TableOp (Peer := Z)) :=
  [OpInsert (mkPrefix (Addr4 167772160) 9) 1; OpInsert (mkPrefix (Addr4 167772161) 33) 2;
   OpInsert (mkPrefix (Addr4 167837696) 17) 3; OpInsert (mkPrefix (Addr6 5 "") 129) 1;
   OpRemove (mkPrefix (Addr4 167772161) 33) 3; OpRemoveByPeer 3; OpInsert (mkPrefix (Addr4 0) 1) 4].

Example table_demo_lookups :
  (λ ip, t ← foldl table_op (Some empty_table) table_demo; AllowedIPs_Lookup t V4 ip) <$>
    [167772161; 167772162; 167837697; 1] = [Some (Some 2); Some (Some 1); Some (Some 1); Some (Some 4)].
Proof. vm_compute. reflexivity. Qed.

Lemma allowed_ips_refines_witness :
  ∃ t, foldl table_op (Some empty_table) table_demo = Some t ∧
    ∃ res, AllowedIPs_Lookup t V4 167772161 = Some res ∧
      longest_match (foldl map_op ∅ table_demo) (Addr4 167772161) res.
Proof.
  destruct (allowed_ips_refines table_demo) as (t & Ht & Hl & _).
  - repeat (apply Forall_cons; split; [vm_compute; repeat split; discriminate|]). apply Forall_nil. exact I.
  - exists t. split; [exact Ht|]. apply (Hl V4 167772161). vm_compute. split; [discriminate|reflexivity].
Defined.
