(* ===== verification/Validation.v ===== *)
(** Validation of the configuration ([state/validation.go]): every check of the two
    validators, in order, with the error each one reports. *)

From Stdlib Require Import Ascii.
From S2P Require Import Prelude Bytes NetIP Metric Routing Config Graph Endpoint.

(** ** What the validators take from outside *)

(** The target of the build: [runtime.GOOS] and [runtime.GOARCH]. *)
Class Platform := { GOOS : string; GOARCH : string }.

(** Whether [url.Parse] of the standard library accepts a text. *)
Class TextParsers := { url_Parse : string → bool }.

(** ** Local configuration *)

Record LocalCfg := mkLocalCfg {
  lc_Key : Z;                        (* zero is the empty key *)
  lc_Id : NodeId;
  lc_Port : Z;
  lc_Dist : option string;           (* the URL of the distribution *)
  lc_UseSystemRouting : bool;
  lc_NoNetConfigure : bool;
  lc_DnsResolvers : list string;
  lc_InterfaceName : string;
  lc_Mtu : Z;
  lc_LogPath : string;
  lc_UnexcludeIPs : list Prefix;
  lc_ExcludeIPs : list Prefix;
  lc_PreUp : list string;
  lc_PreDown : list string;
  lc_PostUp : list string;
  lc_PostDown : list string;
  lc_Binds : list LocalBind;
  lc_LANDiscovery : list string;
  lc_TransitCost : Z;
  lc_TCPCost : Z;
  lc_UDPCost : Z;
  lc_AdvertiseExitNode : bool;
  lc_ExitNode : NodeId;
  lc_ExitNodeDefaultRoute : bool;
}.

Inductive ValErr :=
| NamePattern (s : string)
| NameTooLong (s : string)
| PortZero
| PortReserved
| KeyEmpty
| InterfaceName (e : ValErr)
| BadURL (s : string)
| ObfuscationPlatform
| BindEmpty
| BindDuplicate (b : LocalBind)
| BindPlatform
| ObfuscationBind
| LANPlatform
| LANEmpty
| LANDuplicate (iface : string)
| BadResolver (s : string)
| BadPrefix (p : Prefix)
| TransitCostNegative
| TCPCostNegative
| UDPCostNegative
| MtuRange (mtu : Z)
| ExitSelf
| ExitUnknown
| NodeUnknown
| DuplicateRouter (id : NodeId)
| DuplicateClient (id : NodeId)
| BadGraph (e : GraphErr)
| BadNodeIds (e : NodeIdErr)
| DuplicatePrefix (id : NodeId) (p : Prefix)
| DuplicateClientPrefix (id : NodeId) (p : Prefix) (client : NodeId)
| PingAddress (p : Prefix)
| PingDelay (p : Prefix)
| PingFailures (p : Prefix)
| HTTPURL (p : Prefix)
| HTTPDelay (p : Prefix)
| HealthUnknown (p : Prefix)
| ClientNotStatic.

(** The first error of a loop. *)
Fixpoint first_error {A} (check : A → option ValErr) (l : list A) : option ValErr :=
  match l with
  | [] => None
  | x :: l => match check x with Some e => Some e | None => first_error check l end
  end.

(** One check after another. *)
Definition and_then (r : option ValErr) (k : option ValErr) : option ValErr :=
  match r with Some e => Some e | None => k end.

Notation "'reject' e 'when' b ;; k" := (if b then Some e else k)
  (at level 60, e at level 0, b at level 59, right associativity, only parsing) : nylon_scope.

Local Open Scope nylon_scope.

(** The bytes of the pattern ^[0-9a-z._/-]+$ *)
Definition name_char (c : ascii) : bool :=
  let n := nat_of_ascii c in
  ((48 <=? n) && (n <=? 57) || (97 <=? n) && (n <=? 122) || (45 <=? n) && (n <=? 47) || (n =? 95))%nat.

Definition namePattern (s : string) : bool :=
  negb (bool_decide (s = EmptyString)) && forallb name_char (String.list_ascii_of_string s).

Definition NameValidator (s : string) : option ValErr :=
  reject (NamePattern s) when negb (namePattern s);;
  reject (NameTooLong s) when (100 <? Z.of_nat (String.length s));;
  None.

Section node.
Context `{PF : Platform} `{TP : TextParsers} `{NT : NetText}.

Fixpoint validate_binds (seenBinds : list LocalBind) (binds : list LocalBind) : option ValErr :=
  match binds with
  | [] => None
  | bind :: binds =>
      reject BindEmpty when (bool_decide (lb_Interface bind = EmptyString) && negb (addr_IsValid (lb_Source bind)));;
      reject (BindDuplicate bind) when bool_decide (bind ∈ seenBinds);;
      reject BindPlatform when negb (bool_decide (GOOS = "linux"));;
      validate_binds (bind :: seenBinds) binds
  end.

Fixpoint validate_interfaces (seenInterfaces : list string) (ifaces : list string) : option ValErr :=
  match ifaces with
  | [] => None
  | iface :: ifaces =>
      reject LANEmpty when bool_decide (iface = EmptyString);;
      reject (LANDuplicate iface) when bool_decide (iface ∈ seenInterfaces);;
      validate_interfaces (iface :: seenInterfaces) ifaces
  end.

(** Whether the node is a router of the central configuration with TCP obfuscation. *)
Definition tcp_obfuscation (central : option CentralCfg) (id : NodeId) : bool :=
  match central with
  | None => false
  | Some c => match list_find (λ r, rc_Id r = id) (c_Routers c) with
              | Some (_, r) => rc_TCPObfuscation r
              | None => false
              end
  end.

Definition NodeConfigValidator (central : option CentralCfg) (node : LocalCfg) : option ValErr :=
  and_then (NameValidator (lc_Id node)) (
  reject PortZero when (lc_Port node =? 0);;
  reject PortReserved when (negb (bool_decide (lc_LANDiscovery node = [])) && (lc_Port node =? LANDiscoveryPort));;
  reject KeyEmpty when (lc_Key node =? 0);;
  and_then (if bool_decide (lc_InterfaceName node = EmptyString) then None
            else match NameValidator (lc_InterfaceName node) with Some e => Some (InterfaceName e) | None => None end) (
  and_then (match lc_Dist node with Some u => if url_Parse u then None else Some (BadURL u) | None => None end) (
  let tcpObfuscation := tcp_obfuscation central (lc_Id node) in
  reject ObfuscationPlatform when (tcpObfuscation && (negb (bool_decide (GOOS = "linux")) ||
    negb (bool_decide (GOARCH = "amd64")) && negb (bool_decide (GOARCH = "arm64"))));;
  and_then (validate_binds [] (lc_Binds node)) (
  reject ObfuscationBind when (tcpObfuscation &&
    negb (existsb (λ bind, negb (bool_decide (lb_Interface bind = EmptyString))) (lc_Binds node)));;
  and_then (if bool_decide (lc_LANDiscovery node = []) then None
            else reject LANPlatform when negb (bool_decide (GOOS = "linux"));;
                 validate_interfaces [] (lc_LANDiscovery node)) (
  and_then (first_error (λ r, if bool_decide (is_Some (ParseAddrPort r)) then None else Some (BadResolver r)) (lc_DnsResolvers node)) (
  and_then (first_error (λ p, if pfx_IsValid p then None else Some (BadPrefix p)) (lc_UnexcludeIPs node ++ lc_ExcludeIPs node)) (
  reject TransitCostNegative when (lc_TransitCost node <? 0);;
  reject TCPCostNegative when (lc_TCPCost node <? 0);;
  reject UDPCostNegative when (lc_UDPCost node <? 0);;
  reject (MtuRange (lc_Mtu node)) when (negb (lc_Mtu node =? 0) && ((lc_Mtu node <? 1280) || (65535 <? lc_Mtu node)));;
  reject ExitSelf when bool_decide (lc_ExitNode node = lc_Id node);;
  reject ExitUnknown when (match central with
                           | Some c => negb (bool_decide (lc_ExitNode node = EmptyString)) && negb (IsNode c (lc_ExitNode node))
                           | None => false
                           end);;
  reject NodeUnknown when (match central with Some c => negb (IsNode c (lc_Id node)) | None => false end);;
  None))))))).

End node.

(** ** Central configuration *)

Inductive verdict := Accept | Reject (e : ValErr) | Panic.

Definition of_error (r : option ValErr) : verdict := match r with Some e => Reject e | None => Accept end.

Definition then_verdict (v : verdict) (k : verdict) : verdict := match v with Accept => k | _ => v end.

Section central.
Context `{MR : MapRange} `{U : Unicode} `{TP : TextParsers}.

(** Names of one kind of node, appended to those seen. *)
Fixpoint validate_ids (dup : NodeId → ValErr) (nodes : list string) (ids : list NodeId) : ValErr + list string :=
  match ids with
  | [] => inr nodes
  | id :: ids =>
      match NameValidator id with
      | Some e => inl e
      | None => if bool_decide (id ∈ nodes) then inl (dup id) else validate_ids dup (nodes ++ [id]) ids
      end
  end.

(** Adds prefixes to the set of a router, if they are new; a nil health check has no
    prefix to ask for. *)
Fixpoint add_prefixes (dup : Prefix → ValErr) (seen : gset Prefix) (ps : list PrefixHealthWrapper) : verdict + gset Prefix :=
  match ps with
  | [] => inr seen
  | p :: ps =>
      match wrapper_GetPrefix p with
      | None => inl Panic
      | Some prefix => if bool_decide (prefix ∈ seen) then inl (Reject (dup prefix))
                       else add_prefixes dup ({[prefix]} ∪ seen) ps
      end
  end.

(** The prefixes of the clients of a router. *)
Fixpoint add_client_prefixes (c : ReadCfg) (router : NodeId) (seen : gset Prefix) (peers : list NodeId) : verdict :=
  match peers with
  | [] => Accept
  | peer :: peers =>
      if IsClient c peer then
        match GetClient c peer with
        | None => Panic
        | Some client =>
            match add_prefixes (λ p, DuplicateClientPrefix router p (cc_Id client)) seen (nc_Prefixes (cc_Node client)) with
            | inl v => v
            | inr seen => add_client_prefixes c router seen peers
            end
        end
      else add_client_prefixes c router seen peers
  end.

Definition validate_router_prefixes (c : ReadCfg) (r : RouterCfgOf PrefixHealthWrapper) : verdict :=
  match add_prefixes (DuplicatePrefix (rc_Id r)) ∅ (nc_Prefixes (rc_Node r)) with
  | inl v => v
  | inr seen => match GetPeers c (rc_Id r) with
                | None => Panic
                | Some peers => add_client_prefixes c (rc_Id r) seen peers
                end
  end.

(** The first verdict of a loop that is not [Accept]. *)
Fixpoint first_verdict {A} (check : A → verdict) (l : list A) : verdict :=
  match l with
  | [] => Accept
  | x :: l => then_verdict (check x) (first_verdict check l)
  end.

Definition validate_routers (c : ReadCfg) (rs : list (RouterCfgOf PrefixHealthWrapper)) : verdict :=
  first_verdict (validate_router_prefixes c) rs.

Definition not_positive (v : option Z) : bool := match v with Some d => d <=? 0 | None => false end.

(** The prefix is asked for before the kind of a check is looked at, which panics on nil. *)
Definition validate_health (w : PrefixHealthWrapper) : verdict :=
  match wrapper_GetPrefix w with
  | None => Panic
  | Some p =>
      of_error (
      reject (BadPrefix p) when negb (pfx_IsValid p);;
      match w with
      | Health (StaticPrefixHealth _ _) => None
      | Health (PingPrefixHealth _ addr maxFailures delay _ _) =>
          reject (PingAddress p) when negb (addr_IsValid addr);;
          reject (PingDelay p) when not_positive delay;;
          reject (PingFailures p) when not_positive maxFailures;;
          None
      | Health (HTTPPrefixHealth _ url delay _) =>
          reject (HTTPURL p) when negb (url_Parse url);;
          reject (HTTPDelay p) when not_positive delay;;
          None
      | _ => Some (HealthUnknown p)
      end)
  end.

Definition is_static (h : PrefixHealth) : bool := match h with StaticPrefixHealth _ _ => true | _ => false end.

(** A passive client may only announce static prefixes. *)
Definition validate_client_health (w : PrefixHealthWrapper) : option ValErr :=
  match w with Health h => if is_static h then None else Some ClientNotStatic | _ => Some ClientNotStatic end.

Definition CentralConfigValidator (cfg : ReadCfg) : verdict :=
  match validate_ids DuplicateRouter [] ((λ r, rc_Id r) <$> c_Routers cfg) with
  | inl e => Reject e
  | inr nodes =>
      match validate_ids DuplicateClient nodes ((λ c, cc_Id c) <$> c_Clients cfg) with
      | inl e => Reject e
      | inr nodes =>
          match ParseGraph (c_Graph cfg) nodes with
          | inl e => Reject (BadGraph e)
          | inr _ =>
              match BuildNodeIdMap cfg with
              | inl e => Reject (BadNodeIds e)
              | inr _ =>
                  then_verdict (validate_routers cfg (c_Routers cfg)) (
                  then_verdict (of_error (
                    and_then (first_error (λ u, if url_Parse u then None else Some (BadURL u)) (default [] (c_Dist cfg))) (
                    first_error (λ p, if pfx_IsValid p then None else Some (BadPrefix p)) (c_ExcludeIPs cfg)))) (
                  then_verdict (first_verdict validate_health (all_health cfg)) (
                  of_error (first_error validate_client_health (c_Clients cfg ≫= λ c, nc_Prefixes (cc_Node c))))))
              end
          end
      end
  end.

End central.
