(* ===== verification/ValidationProps.v ===== *)
(** What the validators accept, and what a validated configuration guarantees to the
    components that read it. *)

From Stdlib Require Import Ascii.
From S2P Require Import Prelude Bytes NetIP Metric Routing Config NodeIds Graph GraphProps Endpoint Validation.

(** ** Sequences of checks *)

Lemma first_error_None {A} (check : A → option ValErr) l : first_error check l = None ↔ ∀ x, x ∈ l → check x = None.
Proof.
  induction l as [|x l IH]; cbn; [by split; [intros _ ? ?%not_elem_of_nil|]|].
  setoid_rewrite elem_of_cons. destruct (check x) eqn:E; [|rewrite IH; naive_solver].
  split; [done|]. intros H. by rewrite <-E, H by auto.
Qed.

Lemma and_then_None r k : and_then r k = None ↔ r = None ∧ k = None.
Proof. destruct r; cbn; naive_solver. Qed.

Lemma if_None {b : bool} {e : ValErr} {k} : (if b then Some e else k) = None ↔ b = false ∧ k = None.
Proof. destruct b; naive_solver. Qed.

Lemma if_None' {b : bool} {e : ValErr} : (if b then None else Some e) = None ↔ b = true.
Proof. destruct b; naive_solver. Qed.

Lemma then_verdict_Accept v k : then_verdict v k = Accept ↔ v = Accept ∧ k = Accept.
Proof. destruct v; cbn; naive_solver. Qed.

Lemma of_error_Accept r : of_error r = Accept ↔ r = None.
Proof. destruct r; cbn; naive_solver. Qed.

Lemma of_error_Panic r : of_error r ≠ Panic.
Proof. by destruct r. Qed.

Lemma then_verdict_Panic v k : then_verdict v k = Panic ↔ v = Panic ∨ v = Accept ∧ k = Panic.
Proof. destruct v; cbn; naive_solver. Qed.

Lemma first_verdict_Accept {A} (check : A → verdict) l : first_verdict check l = Accept ↔ ∀ x, x ∈ l → check x = Accept.
Proof.
  induction l as [|x l IH]; cbn; [by split; [intros _ ? ?%not_elem_of_nil|]|].
  setoid_rewrite elem_of_cons. rewrite then_verdict_Accept, IH. naive_solver.
Qed.

Lemma first_verdict_Panic {A} (check : A → verdict) l : first_verdict check l = Panic → ∃ x, x ∈ l ∧ check x = Panic.
Proof.
  induction l as [|x l IH]; cbn; [done|]. intros [H|[_ H]]%then_verdict_Panic; [by exists x; split; [left|]|].
  destruct (IH H) as (y & Hy & ?). exists y. split; [by right|done].
Qed.

(** ** Read and running configurations *)

Section read.
Context {H K : Type} (f : list H → list K).

Lemma map_cfg_nodes c : GetNodes (map_cfg f c) = map_node f <$> GetNodes c.
Proof. unfold GetNodes, map_cfg. cbn [c_Routers c_Clients]. by rewrite fmap_app, <-!list_fmap_compose. Qed.

Lemma map_cfg_all_nodes c : all_nodes (map_cfg f c) = all_nodes c.
Proof. unfold all_nodes, map_cfg. cbn [c_Routers c_Clients]. by rewrite <-!list_fmap_compose. Qed.

Lemma map_cfg_ids c : BuildNodeIdMap (map_cfg f c) = BuildNodeIdMap c.
Proof.
  unfold BuildNodeIdMap. rewrite map_cfg_nodes.
  assert (∀ l st, foldl collect st (map_node f <$> l) = foldl collect st l) as ->; [|done].
  induction l as [|n l IH]; intros st; [done|]. cbn. by rewrite IH.
Qed.

Lemma map_cfg_peers `{MR : MapRange} `{U : Unicode} c id : GetPeers (map_cfg f c) id = GetPeers c id.
Proof. unfold GetPeers. change (c_Graph (map_cfg f c)) with (c_Graph c). fold (all_nodes c) (all_nodes (map_cfg f c)). by rewrite map_cfg_all_nodes. Qed.

Lemma map_cfg_client c id : GetClient (map_cfg f c) id = map_client f <$> GetClient c id.
Proof.
  unfold GetClient, map_cfg. cbn [c_Clients]. rewrite list_find_fmap.
  change ((λ c0, cc_Id c0 = id) ∘ map_client f) with (λ c0 : ClientCfgOf H, cc_Id c0 = id).
  destruct (list_find _ (c_Clients c)) as [[i x]|]; done.
Qed.

End read.

Lemma map_cfg_id {H} (f : list H → list H) c : (∀ n, n ∈ GetNodes c → f (nc_Prefixes n) = nc_Prefixes n) → map_cfg f c = c.
Proof.
  intros Hid. destruct c as [rs cs g t ex d]. unfold map_cfg, GetNodes in *. cbn [c_Routers c_Clients] in *. setoid_rewrite elem_of_app in Hid. f_equal.
  - rewrite <-(list_fmap_id rs) at 2. apply list_fmap_ext. intros i r Hr%list_elem_of_lookup_2.
    destruct r as [[id k a ps n] eps tcp]. unfold map_router, map_node. cbn. do 2 f_equal.
    apply (Hid (mkNodeCfg id k a ps n)). left. apply list_elem_of_fmap. by exists (mkRouterCfg (mkNodeCfg id k a ps n) eps tcp).
  - rewrite <-(list_fmap_id cs) at 2. apply list_fmap_ext. intros i r Hr%list_elem_of_lookup_2.
    destruct r as [[id k a ps n]]. unfold map_client, map_node. cbn. do 2 f_equal.
    apply (Hid (mkNodeCfg id k a ps n)). right. apply list_elem_of_fmap. by exists (mkClientCfg (mkNodeCfg id k a ps n)).
Qed.

Lemma map_cfg_compose {H K L} (f : list K → list L) (g : list H → list K) c : map_cfg f (map_cfg g c) = map_cfg (f ∘ g) c.
Proof. unfold map_cfg. cbn [c_Routers c_Clients c_Graph c_Timestamp c_ExcludeIPs c_Dist]. by rewrite <-!list_fmap_compose. Qed.

Lemma elem_of_all_health {H} (c : CentralCfgOf H) h : h ∈ all_health c ↔ ∃ n, n ∈ GetNodes c ∧ h ∈ nc_Prefixes n.
Proof.
  unfold all_health, GetNodes. setoid_rewrite elem_of_app. rewrite !list_elem_of_bind. setoid_rewrite list_elem_of_fmap. naive_solver.
Qed.

(** Taking the wrappers off undoes putting them on, and is possible for no other
    configurations. *)
Lemma checked_spec c c' : checked c = Some c' ↔ c = written c'.
Proof.
  unfold checked, written. split.
  - destruct (forallb _ _) eqn:E; [|done]. intros [= <-]. symmetry. rewrite map_cfg_compose. apply map_cfg_id.
    intros n Hn. rewrite forallb_forall in E. assert (∀ w, w ∈ nc_Prefixes n → is_Some (known_check w)) as Hw.
    { intros w Hw. apply (bool_decide_eq_true_1 _), E, list_elem_of_In, elem_of_all_health. eauto. }
    cbn. clear E Hn. induction (nc_Prefixes n) as [|w ws IH]; [done|]. setoid_rewrite elem_of_cons in Hw. cbn [omap list_omap].
    destruct (Hw w (or_introl eq_refl)) as [h Hh]. rewrite Hh. cbn [fmap list_fmap]. rewrite IH by auto.
    f_equal. by destruct w; simplify_eq/=.
  - intros ->. rewrite map_cfg_compose. destruct (forallb _ _) eqn:E.
    + f_equal. apply map_cfg_id. intros n _. cbn. induction (nc_Prefixes n) as [|h hs IH]; [done|]. cbn. by rewrite IH.
    + exfalso. apply not_true_iff_false in E. apply E, forallb_forall. intros w Hw%list_elem_of_In%elem_of_all_health.
      apply bool_decide_eq_true. destruct Hw as (n & Hn & Hw). rewrite map_cfg_nodes in Hn.
      apply list_elem_of_fmap in Hn as (m & -> & _). cbn in Hw. apply list_elem_of_fmap in Hw as (h & -> & _). by eexists.
Qed.

Lemma all_health_written c : all_health (written c) = Health <$> all_health c.
Proof.
  unfold all_health, written, map_cfg. cbn [c_Routers c_Clients]. rewrite fmap_app. f_equal.
  - induction (c_Clients c) as [|x l IH]; [done|]. cbn in *. by rewrite IH, fmap_app.
  - induction (c_Routers c) as [|x l IH]; [done|]. cbn in *. by rewrite IH, fmap_app.
Qed.

(** ** Names *)

Definition valid_name (s : string) : Prop :=
  s ≠ EmptyString ∧ Forall (λ c, name_char c = true) (String.list_ascii_of_string s) ∧ (String.length s <= 100)%nat.

Lemma NameValidator_None s : NameValidator s = None ↔ valid_name s.
Proof.
  unfold NameValidator, valid_name, namePattern. rewrite !if_None, negb_false_iff, andb_true_iff, negb_true_iff.
  rewrite bool_decide_eq_false, Forall_forall, forallb_forall, Z.ltb_ge.
  setoid_rewrite <-list_elem_of_In. split; [intros ((? & ?) & ? & _)|intros (? & ? & ?)]; naive_solver lia.
Qed.

(** ** Central configuration *)

Section central.
Context `{MR : MapRange} `{U : Unicode} `{TP : TextParsers}.

Definition positive (v : option Z) : Prop := match v with Some d => 0 < d | None => True end.

Definition health_ok (h : PrefixHealth) : Prop :=
  pfx_IsValid (GetPrefix h) = true ∧
  match h with
  | StaticPrefixHealth _ _ => True
  | PingPrefixHealth _ addr maxFailures delay _ _ => addr_IsValid addr = true ∧ positive delay ∧ positive maxFailures
  | HTTPPrefixHealth _ url delay _ => url_Parse url = true ∧ positive delay
  end.

Lemma not_positive_false v : not_positive v = false ↔ positive v.
Proof. destruct v as [d|]; cbn; [rewrite Z.leb_gt; lia|done]. Qed.

Lemma validate_health_Accept w : validate_health w = Accept ↔ ∃ h, w = Health h ∧ health_ok h.
Proof.
  unfold validate_health, health_ok. destruct w as [|p|h]; cbn [wrapper_GetPrefix].
  - split; [done|by intros (? & ? & _)].
  - rewrite of_error_Accept, if_None. split; [by intros [_ ?]|by intros (? & ? & _)].
  - rewrite of_error_Accept, if_None, negb_false_iff.
    destruct h; rewrite ?if_None, ?negb_false_iff, ?not_positive_false; naive_solver.
Qed.

Lemma validate_health_Panic w : validate_health w = Panic → w = HealthNil.
Proof. unfold validate_health. destruct w; [done|intros []%of_error_Panic..]. Qed.

(** The prefixes a client of a router adds to those of the router. *)
Definition client_prefixes (c : CentralCfg) (peer : NodeId) : list Prefix :=
  match GetClient c peer with Some client => GetPrefix <$> nc_Prefixes (cc_Node client) | None => [] end.

(** A router and the clients it serves announce no prefix twice. *)
Definition router_prefixes_ok (c : CentralCfg) (r : RouterCfg) : Prop :=
  ∃ peers, GetPeers c (rc_Id r) = Some peers ∧
    NoDup ((GetPrefix <$> nc_Prefixes (rc_Node r)) ++ (peers ≫= client_prefixes c)).

(** What the validator asks of a configuration. *)
Record central_ok (c : CentralCfg) : Prop := {
  co_names : ∀ id, id ∈ all_nodes c → valid_name id;
  co_distinct : NoDup (all_nodes c);
  co_graph : graph_ok (all_nodes c) (c_Graph c);
  co_labels : labels_ok c;
  co_prefixes : ∀ r, r ∈ c_Routers c → router_prefixes_ok c r;
  co_repos : ∀ repos u, c_Dist c = Some repos → u ∈ repos → url_Parse u = true;
  co_excludes : ∀ p, p ∈ c_ExcludeIPs c → pfx_IsValid p = true;
  co_health : ∀ n h, n ∈ GetNodes c → h ∈ nc_Prefixes n → health_ok h;
  co_static : ∀ cl h, cl ∈ c_Clients c → h ∈ nc_Prefixes (cc_Node cl) → is_static h = true;
}.

Lemma validate_ids_spec dup ids : ∀ nodes, NoDup nodes →
  match validate_ids dup nodes ids with
  | inr nodes' => nodes' = nodes ++ ids ∧ (∀ id, id ∈ ids → valid_name id) ∧ NoDup (nodes ++ ids)
  | inl _ => ¬ ((∀ id, id ∈ ids → valid_name id) ∧ NoDup (nodes ++ ids))
  end.
Proof.
  induction ids as [|id ids IH]; intros nodes Hnd; cbn [validate_ids].
  { rewrite app_nil_r. split; [done|]. split; [by intros ? ?%not_elem_of_nil|done]. }
  destruct (NameValidator id) as [e|] eqn:En.
  { intros [Hv _]. assert (NameValidator id = None); [|congruence]. apply NameValidator_None, Hv. by left. }
  apply NameValidator_None in En. case_bool_decide as Hin.
  { intros [_ Hnd']. apply NoDup_app in Hnd' as (_ & Hno & _). apply (Hno id Hin). by left. }
  assert (nodes ++ id :: ids = (nodes ++ [id]) ++ ids) as -> by (by rewrite <-app_assoc).
  specialize (IH (nodes ++ [id])). destruct (validate_ids dup (nodes ++ [id]) ids) as [e|nodes'].
  - intros [Hv Hnd']. apply IH; [by apply NoDup_app in Hnd' as [? _]|]. split; [|done]. intros ? ?. apply Hv. by right.
  - destruct IH as (-> & Hv & Hnd').
    { apply NoDup_app. split; [done|]. split; [|apply NoDup_singleton]. intros x Hx ->%list_elem_of_singleton. done. }
    split; [done|]. split; [|done]. intros x [->|?]%elem_of_cons; auto.
Qed.

Lemma add_prefixes_spec dup hs : ∀ seen,
  match add_prefixes dup seen (Health <$> hs) with
  | inr seen' => seen' = seen ∪ list_to_set (GetPrefix <$> hs) ∧ NoDup (GetPrefix <$> hs) ∧ (∀ p, p ∈ GetPrefix <$> hs → p ∉ seen)
  | inl v => v ≠ Accept ∧ ¬ (NoDup (GetPrefix <$> hs) ∧ ∀ p, p ∈ GetPrefix <$> hs → p ∉ seen)
  end.
Proof.
  induction hs as [|h hs IH]; intros seen; cbn [add_prefixes fmap list_fmap wrapper_GetPrefix].
  { split; [set_solver|]. split; [constructor|]. by intros ? ?%not_elem_of_nil. }
  case_bool_decide as Hin.
  { split; [done|]. intros [_ Hno]. apply (Hno (GetPrefix h)); [by left|done]. }
  specialize (IH ({[GetPrefix h]} ∪ seen)). destruct (add_prefixes dup _ _) as [v|seen'].
  - destruct IH as [Hv IH]. split; [done|]. intros [[Hnot Hnd]%NoDup_cons Hno]. apply IH. split; [done|]. intros p Hp. apply not_elem_of_union. split.
    + intros ->%elem_of_singleton. done.
    + apply Hno. by right.
  - destruct IH as (-> & Hnd & Hno). split; [cbn; set_solver|]. split.
    + constructor; [|done]. intros Hp%Hno. set_solver.
    + intros p [->|Hp%Hno]%elem_of_cons; set_solver.
Qed.

Lemma add_prefixes_Panic dup ws : ∀ seen, add_prefixes dup seen ws = inl Panic → HealthNil ∈ ws.
Proof.
  induction ws as [|w ws IH]; intros seen; cbn [add_prefixes]; [done|].
  destruct w; cbn [wrapper_GetPrefix]; [by left|..]; (case_bool_decide; [done|]); intros ?%IH; by right.
Qed.

Lemma IsClient_GetClient {H} (c : CentralCfgOf H) peer : IsClient c peer = true ↔ is_Some (GetClient c peer).
Proof.
  unfold IsClient, GetClient. rewrite existsb_exists. setoid_rewrite <-list_elem_of_In. setoid_rewrite bool_decide_eq_true.
  rewrite fmap_is_Some. split.
  - intros (x & Hx & Hid). destruct (list_find _ _) eqn:E; [by eexists|]. apply list_find_None in E.
    rewrite Forall_forall in E. by destruct (E x Hx).
  - intros [[i x] E]. apply list_find_Some in E as (Hi & Hid & _). exists x. split; [by eapply list_elem_of_lookup_2|done].
Qed.

Lemma add_client_prefixes_spec c router peers : ∀ seen,
  add_client_prefixes (written c) router seen peers = Accept ↔
  NoDup (peers ≫= client_prefixes c) ∧ ∀ p, p ∈ peers ≫= client_prefixes c → p ∉ seen.
Proof.
  induction peers as [|peer peers IH]; intros seen; cbn [add_client_prefixes].
  { split; [|done]. intros _. split; [constructor|]. by intros ? ?%not_elem_of_nil. }
  assert ((peer :: peers) ≫= client_prefixes c = client_prefixes c peer ++ (peers ≫= client_prefixes c)) as -> by done.
  assert (client_prefixes c peer = match GetClient c peer with
    Some client => GetPrefix <$> nc_Prefixes (cc_Node client) | None => [] end) as -> by done.
  pose proof (IsClient_GetClient (written c) peer) as Hic. unfold written in *. rewrite map_cfg_client, fmap_is_Some in *.
  destruct (IsClient _ peer); destruct (GetClient c peer) as [client|] eqn:Hg; cbn [fmap option_fmap option_map];
    [|by destruct (proj1 Hic eq_refl)|by discriminate (proj2 Hic (mk_is_Some _ _ eq_refl))|apply IH].
  pose proof (add_prefixes_spec (λ p, DuplicateClientPrefix router p (cc_Id client)) (nc_Prefixes (cc_Node client)) seen) as Hadd.
  cbn [map_client map_node cc_Node nc_Prefixes nc_Id] in *. destruct (add_prefixes _ _ _) as [v|seen'].
  - destruct Hadd as [Hv Hadd]. split; [done|]. intros [(Hnd & _ & _)%NoDup_app Hno]. exfalso. apply Hadd. split; [done|].
    intros p Hp. apply Hno, elem_of_app. by left.
  - destruct Hadd as (-> & Hnd & Hno). rewrite IH, NoDup_app. setoid_rewrite elem_of_app. setoid_rewrite not_elem_of_union.
    setoid_rewrite elem_of_list_to_set. naive_solver.
Qed.

Lemma add_client_prefixes_Panic c router peers : ∀ seen,
  add_client_prefixes c router seen peers = Panic → HealthNil ∈ all_health c.
Proof.
  induction peers as [|peer peers IH]; intros seen; cbn [add_client_prefixes]; [done|].
  pose proof (IsClient_GetClient c peer) as Hic. destruct (IsClient c peer); [|apply IH].
  destruct (GetClient c peer) as [client|] eqn:Hg; [|by destruct (proj1 Hic eq_refl)].
  destruct (add_prefixes _ _ _) as [v|seen'] eqn:E; [|apply IH]. intros ->.
  apply add_prefixes_Panic in E. unfold GetClient in Hg. apply fmap_Some in Hg as ([i x] & (Hi & _)%list_find_Some & ->).
  apply elem_of_app. left. apply list_elem_of_bind. exists x. split; [done|by eapply list_elem_of_lookup_2].
Qed.

Lemma validate_router_prefixes_spec c r : (∀ id, is_Some (GetPeers c id)) →
  validate_router_prefixes (written c) (map_router (fmap Health) r) = Accept ↔ router_prefixes_ok c r.
Proof.
  intros Hpeers. unfold validate_router_prefixes, router_prefixes_ok. unfold written at 1. rewrite map_cfg_peers.
  cbn [map_router map_node rc_Node nc_Prefixes nc_Id]. destruct (Hpeers (rc_Id r)) as [peers ->].
  pose proof (add_prefixes_spec (DuplicatePrefix (rc_Id r)) (nc_Prefixes (rc_Node r)) ∅) as Hadd.
  destruct (add_prefixes _ _ _) as [v|seen].
  - destruct Hadd as [Hv Hadd]. split; [done|]. intros (? & _ & (Hnd & _)%NoDup_app). exfalso. apply Hadd. split; [done|]. set_solver.
  - destruct Hadd as (-> & Hnd & _). rewrite add_client_prefixes_spec, (left_id_L ∅ (∪)). setoid_rewrite elem_of_list_to_set. split.
    + intros [? ?]. exists peers. split; [done|]. apply NoDup_app. naive_solver.
    + intros (? & [= <-] & Hall). apply NoDup_app in Hall. naive_solver.
Qed.

Lemma validate_router_prefixes_Panic c r : (∀ id, is_Some (GetPeers c id)) → r ∈ c_Routers c →
  validate_router_prefixes c r = Panic → HealthNil ∈ all_health c.
Proof.
  intros Hpeers Hr. unfold validate_router_prefixes. destruct (Hpeers (rc_Id r)) as [peers ->].
  destruct (add_prefixes _ _ _) as [v|seen] eqn:E; [|apply add_client_prefixes_Panic]. intros ->.
  apply add_prefixes_Panic in E. apply elem_of_app. right. apply list_elem_of_bind. eauto.
Qed.

Lemma validate_routers_spec c : (∀ id, is_Some (GetPeers c id)) →
  validate_routers (written c) (c_Routers (written c)) = Accept ↔ ∀ r, r ∈ c_Routers c → router_prefixes_ok c r.
Proof.
  intros Hpeers. unfold validate_routers. rewrite first_verdict_Accept. cbn [written map_cfg c_Routers].
  setoid_rewrite list_elem_of_fmap. split.
  - intros H r Hr. apply validate_router_prefixes_spec; [done|]. apply H. eauto.
  - intros H ? (r & -> & Hr). apply validate_router_prefixes_spec; auto.
Qed.

Lemma GetPeers_defined {H} (c : CentralCfgOf H) id : graph_ok (all_nodes c) (c_Graph c) → is_Some (GetPeers c id).
Proof.
  intros Hg. unfold GetPeers. pose proof (ParseGraph_spec (c_Graph c) (all_nodes c)) as HP.
  unfold all_nodes in *. destruct (ParseGraph _ _); [|by eexists]. by destruct HP.
Qed.

Lemma distinct_all_nodes {H} (c : CentralCfgOf H) : nc_Id <$> GetNodes c = all_nodes c.
Proof. unfold GetNodes, all_nodes. by rewrite fmap_app, <-!list_fmap_compose. Qed.

Lemma central_ok_ids c : central_ok c → ∃ m, BuildNodeIdMap c = inr m.
Proof.
  intros Hok. apply BuildNodeIdMap_defined; [|apply Hok]. unfold distinct_ids. rewrite distinct_all_nodes. apply Hok.
Qed.

(** The checks after those of the routers. *)
Definition rest_ok (c : CentralCfg) : Prop :=
  (∀ repos u, c_Dist c = Some repos → u ∈ repos → url_Parse u = true) ∧
  (∀ p, p ∈ c_ExcludeIPs c → pfx_IsValid p = true) ∧
  (∀ n h, n ∈ GetNodes c → h ∈ nc_Prefixes n → health_ok h) ∧
  (∀ cl h, cl ∈ c_Clients c → h ∈ nc_Prefixes (cc_Node cl) → is_static h = true).

Lemma excludes_spec {H} (c : CentralCfgOf H) :
  of_error (
    and_then (first_error (λ u, if url_Parse u then None else Some (BadURL u)) (default [] (c_Dist c))) (
    first_error (λ p, if pfx_IsValid p then None else Some (BadPrefix p)) (c_ExcludeIPs c))) = Accept ↔
  (∀ repos u, c_Dist c = Some repos → u ∈ repos → url_Parse u = true) ∧
  (∀ p, p ∈ c_ExcludeIPs c → pfx_IsValid p = true).
Proof.
  rewrite of_error_Accept, and_then_None, !first_error_None. setoid_rewrite if_None'.
  destruct (c_Dist c) as [repos|]; cbn; [naive_solver|]. split; intros [? ?]; (split; [|done]); [done|by intros ? ?%not_elem_of_nil].
Qed.

Lemma rest_spec c :
  then_verdict (of_error (
    and_then (first_error (λ u, if url_Parse u then None else Some (BadURL u)) (default [] (c_Dist (written c)))) (
    first_error (λ p, if pfx_IsValid p then None else Some (BadPrefix p)) (c_ExcludeIPs (written c))))) (
  then_verdict (first_verdict validate_health (all_health (written c))) (
  of_error (first_error validate_client_health (c_Clients (written c) ≫= λ c, nc_Prefixes (cc_Node c))))) = Accept ↔ rest_ok c.
Proof.
  rewrite !then_verdict_Accept, excludes_spec, first_verdict_Accept, of_error_Accept, first_error_None, all_health_written.
  unfold rest_ok. setoid_rewrite validate_health_Accept. cbn [written map_cfg c_Clients c_Dist c_ExcludeIPs].
  setoid_rewrite list_elem_of_fmap. setoid_rewrite elem_of_all_health. setoid_rewrite list_elem_of_bind.
  setoid_rewrite list_elem_of_fmap. split.
  - intros ([? ?] & Hh & Hs). split; [done|]. split; [done|]. split.
    + intros n h Hn Hin. destruct (Hh (Health h)) as (? & [= <-] & ?); eauto 10.
    + intros cl h Hcl Hin. assert (validate_client_health (Health h) = None) as Hv.
      { apply Hs. exists (map_client (fmap Health) cl). split; [|eauto]. cbn. apply list_elem_of_fmap. eauto. }
      cbn in Hv. by destruct (is_static h).
  - intros (? & ? & Hh & Hs). split; [done|]. split.
    + intros ? (h & -> & n & ? & ?). eauto.
    + intros w (? & Hin & cl & -> & Hcl). cbn in Hin. apply list_elem_of_fmap in Hin as (h & -> & Hin). cbn. by rewrite (Hs cl h).
Qed.

(** The part of the validator before the prefixes. *)
Lemma head_spec {H} (c : CentralCfgOf H) (k : verdict) :
  let v :=
    match validate_ids DuplicateRouter [] ((λ r, rc_Id r) <$> c_Routers c) with
    | inl e => Reject e
    | inr nodes =>
        match validate_ids DuplicateClient nodes ((λ c, cc_Id c) <$> c_Clients c) with
        | inl e => Reject e
        | inr nodes =>
            match ParseGraph (c_Graph c) nodes with
            | inl e => Reject (BadGraph e)
            | inr _ => match BuildNodeIdMap c with inl e => Reject (BadNodeIds e) | inr _ => k end
            end
        end
    end in
  let ok := (∀ id, id ∈ all_nodes c → valid_name id) ∧ NoDup (all_nodes c) ∧ graph_ok (all_nodes c) (c_Graph c) ∧ labels_ok c in
  (∃ e, v = Reject e ∧ ¬ ok) ∨ v = k ∧ ok.
Proof.
  intros v ok. subst v.
  pose proof (validate_ids_spec DuplicateRouter ((λ r, rc_Id r) <$> c_Routers c) [] (NoDup_nil_2)) as Hr. cbn [app] in Hr.
  destruct (validate_ids DuplicateRouter _ _) as [e|nodes].
  { left. exists e. split; [done|]. intros (Hn & Hd & _). apply Hr. unfold all_nodes in *. split.
    - intros id Hin. apply Hn, elem_of_app. by left.
    - by apply NoDup_app in Hd as [? _]. }
  destruct Hr as (-> & Hvr & Hdr).
  pose proof (validate_ids_spec DuplicateClient ((λ r, cc_Id r) <$> c_Clients c) _ Hdr) as Hc.
  destruct (validate_ids DuplicateClient _ _) as [e|nodes].
  { left. exists e. split; [done|]. intros (Hn & Hd & _). apply Hc. unfold all_nodes in *. split; [|done].
    intros id Hin. apply Hn, elem_of_app. by right. }
  destruct Hc as (-> & Hvc & Hdc). fold (all_nodes c) in *.
  pose proof (ParseGraph_spec (c_Graph c) (all_nodes c)) as HP.
  destruct (ParseGraph _ _) as [e|ps]; [left; exists (BadGraph e); split; [done|]; by intros (_ & _ & ? & _); destruct HP|].
  destruct HP as [Hg _]. assert (distinct_ids c) as Hdi by (unfold distinct_ids; by rewrite distinct_all_nodes).
  destruct (BuildNodeIdMap c) as [e|m] eqn:Hm.
  { left. exists (BadNodeIds e). split; [done|]. intros (_ & _ & _ & Hl).
    destruct (BuildNodeIdMap_defined c Hdi Hl). congruence. }
  right. split; [done|]. split; [|split; [done|split; [done|by eapply BuildNodeIdMap_labels]]].
  intros id [?|?]%elem_of_app; auto.
Qed.

Lemma written_labels c : labels_ok (written c) ↔ labels_ok c.
Proof.
  assert (∀ id n, pins (written c) id n ↔ pins c id n) as Hp.
  { intros id n. unfold pins, written. rewrite map_cfg_nodes. setoid_rewrite list_elem_of_fmap. naive_solver. }
  unfold written in *. split; intros [Hc Hr Hd]; rewrite ?map_cfg_nodes, ?length_fmap in Hc; split; rewrite ?map_cfg_nodes, ?length_fmap.
  all: try setoid_rewrite Hp; try done.
  all: try setoid_rewrite <-Hp; done.
Qed.

Lemma CentralConfigValidator_spec c : CentralConfigValidator (written c) = Accept ↔ central_ok c.
Proof.
  unfold CentralConfigValidator. match goal with |- context [then_verdict ?a ?b] => destruct (head_spec (written c) (then_verdict a b)) as [(e & -> & Hno)|[-> Hok]] end.
  all: rewrite written_labels in *; unfold written in *; rewrite map_cfg_all_nodes in *; change (c_Graph (map_cfg (fmap Health) c)) with (c_Graph c) in *.
  { split; [done|]. intros []. by destruct Hno. }
  fold (written c). destruct Hok as (? & ? & Hg & ?).
  rewrite then_verdict_Accept, rest_spec, (validate_routers_spec c (λ id, GetPeers_defined c id Hg)).
  unfold rest_ok. split; [|intros []; tauto]. intros (? & ? & ? & ? & ?). by split.
Qed.

(** Nothing else is accepted: the checks of the prefixes see every wrapper. *)
Lemma accepted_checked c : CentralConfigValidator c = Accept → ∃ c', checked c = Some c' ∧ central_ok c'.
Proof.
  intros Hacc. assert (∃ c', checked c = Some c') as [c' Hc'].
  { revert Hacc. unfold CentralConfigValidator.
    match goal with |- context [then_verdict ?a ?b] => destruct (head_spec c (then_verdict a b)) as [(e & -> & _)|[-> _]]; [done|] end.
    rewrite !then_verdict_Accept, first_verdict_Accept. intros (_ & _ & Hh & _). unfold checked.
    destruct (forallb _ _) eqn:E; [by eexists|]. exfalso. apply not_true_iff_false in E. apply E, forallb_forall.
    intros w Hw%list_elem_of_In. apply bool_decide_eq_true. apply Hh, validate_health_Accept in Hw as (h & -> & _). by eexists. }
  exists c'. split; [done|]. apply checked_spec in Hc' as ->. by apply CentralConfigValidator_spec.
Qed.

Lemma CentralConfigValidator_Panic c : CentralConfigValidator c = Panic → HealthNil ∈ all_health c.
Proof.
  unfold CentralConfigValidator.
  match goal with |- context [then_verdict ?a ?b] => destruct (head_spec c (then_verdict a b)) as [(e & -> & _)|[-> (_ & _ & Hg & _)]]; [done|] end.
  rewrite !then_verdict_Panic. intros [H|(_ & [[]%of_error_Panic|(_ & [H|(_ & []%of_error_Panic)])])].
  - apply first_verdict_Panic in H as (r & Hr & H). eapply validate_router_prefixes_Panic; [|done..].
    intros id. by apply GetPeers_defined.
  - by apply first_verdict_Panic in H as (w & Hw & ->%validate_health_Panic).
Qed.

End central.

(** ** Names in the graph *)

Section names.
Context `{MR : MapRange} `{U : Unicode}.

Lemma name_char_spec c : name_char c = true →
  (nat_of_ascii c < 128)%nat ∧ lower c = c ∧ is_space c = false ∧ c ≠ "="%char ∧ c ≠ ","%char.
Proof. destruct c as [[] [] [] [] [] [] [] []]; vm_compute; intuition (try congruence; try lia). Qed.

Abbreviation chars := String.list_ascii_of_string.

Lemma list_ascii_app s1 s2 : chars (String.append s1 s2) = chars s1 ++ chars s2.
Proof. induction s1 as [|c s1 IH]; [done|]. change (c :: chars (String.append s1 s2) = c :: (chars s1 ++ chars s2)). by rewrite IH. Qed.

Abbreviation name_like l := (Forall (λ c, name_char c = true) l).

Lemma trim_left_name l : name_like l → trim_left l = l.
Proof. intros Hl. destruct l as [|c l]; [done|]. apply Forall_cons in Hl as [Hc _]. cbn. by destruct (name_char_spec c Hc) as (_ & _ & -> & _). Qed.

Lemma name_like_ASCII l : name_like l → forallb (λ c, (nat_of_ascii c <? 128)%nat) l = true.
Proof.
  intros Hl. apply forallb_forall. intros c Hc%list_elem_of_In. rewrite Forall_forall in Hl.
  apply Nat.ltb_lt. by apply name_char_spec, Hl.
Qed.

(** White space around a name goes away. *)
Lemma TrimSpace_name s n : chars s = repeat " "%char n ++ chars (String.string_of_list_ascii (drop n (chars s))) →
  name_like (drop n (chars s)) → TrimSpace s = String.string_of_list_ascii (drop n (chars s)).
Proof.
  intros Hs Hn. set (l := drop n (chars s)) in *. rewrite String.list_ascii_of_string_of_list_ascii in Hs.
  unfold TrimSpace, is_ASCII. rewrite Hs.
  assert (forallb (λ c, (nat_of_ascii c <? 128)%nat) (repeat " "%char n ++ l) = true) as ->.
  { rewrite forallb_app, (name_like_ASCII l Hn), andb_true_r. clear. by induction n. }
  f_equal. assert (∀ k, trim_left (repeat " "%char k ++ l) = l) as ->.
  { induction k as [|k IH]; [by apply trim_left_name|]. apply IH. }
  rewrite (trim_left_name (reverse l)); [by rewrite reverse_involutive|].
  by rewrite reverse_Permutation.
Qed.

Lemma TrimSpace_id s : name_like (chars s) → TrimSpace s = s.
Proof.
  intros Hs. rewrite (TrimSpace_name s 0); cbn [drop repeat app].
  - apply String.string_of_list_ascii_of_string.
  - by rewrite String.list_ascii_of_string_of_list_ascii.
  - done.
Qed.

Lemma TrimSpace_space s : name_like (chars s) → TrimSpace (String " " s) = s.
Proof.
  intros Hs. rewrite (TrimSpace_name (String " " s) 1); cbn [drop repeat app String.list_ascii_of_string].
  - apply String.string_of_list_ascii_of_string.
  - by rewrite String.list_ascii_of_string_of_list_ascii.
  - done.
Qed.

Lemma Split_name sep s : name_like (chars s) → (sep = "=" ∨ sep = ",")%char → Split sep s = [s].
Proof.
  intros Hs Hsep. induction s as [|c s IH]; [done|]. apply Forall_cons in Hs as [Hc Hs]. cbn [Split].
  rewrite IH by done. destruct (name_char_spec c Hc) as (_ & _ & _ & H1 & H2).
  rewrite decide_False; [done|]. by destruct Hsep; subst.
Qed.

Lemma Split_cons_name sep s rest : name_like (chars s) → (sep = "=" ∨ sep = ",")%char →
  Split sep (String.append s (String sep rest)) = s :: Split sep rest.
Proof.
  intros Hs Hsep. induction s as [|c s IH].
  { change (String.append EmptyString (String sep rest)) with (String sep rest). cbn [Split]. by rewrite decide_True. }
  apply Forall_cons in Hs as [Hc Hs].
  change (String.append (String c s) (String sep rest)) with (String c (String.append s (String sep rest))).
  cbn [Split]. rewrite IH by done.
  destruct (name_char_spec c Hc) as (_ & _ & _ & H1 & H2). rewrite decide_False; [done|]. by destruct Hsep; subst.
Qed.

(** The line that connects two nodes: their names, a comma and a space. *)
Definition pair_line (a b : string) : string := String.append a (String "," (String " " b)).

Lemma pair_line_chars a b : chars (pair_line a b) = chars a ++ [","; " "]%char ++ chars b.
Proof. unfold pair_line. by rewrite list_ascii_app. Qed.

Lemma contains_chars sep s : contains sep s = bool_decide (sep ∈ chars s).
Proof.
  induction s as [|c s IH]; cbn [contains String.list_ascii_of_string].
  - by rewrite bool_decide_eq_false_2 by apply not_elem_of_nil.
  - rewrite IH. apply eq_true_iff_eq. rewrite orb_true_iff, !bool_decide_eq_true, elem_of_cons. naive_solver.
Qed.

Lemma pair_line_ASCII a b : name_like (chars a) → name_like (chars b) → is_ASCII (pair_line a b) = true.
Proof.
  intros Hna Hnb. unfold is_ASCII.
  by rewrite pair_line_chars, !forallb_app, (name_like_ASCII _ Hna), (name_like_ASCII _ Hnb).
Qed.

Lemma TrimSpace_pair_line a b : a ≠ EmptyString → name_like (chars a) → b ≠ EmptyString → name_like (chars b) →
  TrimSpace (pair_line a b) = pair_line a b.
Proof.
  intros Ha Hna Hb Hnb. unfold TrimSpace. rewrite (pair_line_ASCII a b Hna Hnb).
  rewrite <-(String.string_of_list_ascii_of_string (pair_line a b)) at 2. f_equal.
  rewrite pair_line_chars. destruct (chars a) as [|ca la] eqn:Ea; [by destruct a|].
  assert (trim_left ((ca :: la) ++ [","; " "]%char ++ chars b) = (ca :: la) ++ [","; " "]%char ++ chars b) as ->.
  { apply Forall_cons in Hna as [Hc _]. cbn. by destruct (name_char_spec ca Hc) as (_ & _ & -> & _). }
  rewrite !reverse_app. destruct (reverse (chars b)) as [|cb lb] eqn:Eb.
  { apply (f_equal reverse) in Eb. rewrite reverse_involutive in Eb. by destruct b. }
  assert (name_char cb = true) as Hcb.
  { rewrite <-(reverse_Permutation (chars b)), Eb in Hnb. by apply Forall_cons in Hnb as [? _]. }
  cbn [app trim_left]. destruct (name_char_spec cb Hcb) as (_ & _ & -> & _).
  change (cb :: (lb ++ reverse [","; " "]%char) ++ reverse (ca :: la)) with
    (((cb :: lb) ++ reverse [","; " "]%char) ++ reverse (ca :: la)).
  rewrite <-Eb, <-!reverse_app, reverse_involutive. done.
Qed.

Lemma clean_pair_line a b : valid_name a → valid_name b → clean (pair_line a b) = pair_line a b.
Proof.
  intros (Ha & Hna & _) (Hb & Hnb & _). unfold clean. rewrite TrimSpace_pair_line by done.
  unfold ToLower. rewrite (pair_line_ASCII a b Hna Hnb). rewrite <-(String.string_of_list_ascii_of_string (pair_line a b)) at 2. f_equal.
  rewrite <-(list_fmap_id (chars (pair_line a b))) at 2. apply list_fmap_ext. intros i c Hc%list_elem_of_lookup_2. cbn.
  rewrite pair_line_chars in Hc. rewrite Forall_forall in Hna, Hnb.
  repeat (apply elem_of_app in Hc as [Hc|Hc]); [by apply name_char_spec, Hna| |by apply name_char_spec, Hnb].
  set_unfold in Hc. by destruct Hc as [->|[->|[]]].
Qed.

Lemma names_pair_line a b : valid_name a → valid_name b → names (pair_line a b) = [a; b].
Proof.
  intros Ha Hb. pose proof (clean_pair_line a b Ha Hb) as Hclean. destruct Ha as (Hea & Hna & _), Hb as (Heb & Hnb & _).
  unfold names. assert (TrimSpace (pair_line a b) = pair_line a b) as -> by exact (TrimSpace_pair_line a b Hea Hna Heb Hnb).
  unfold pair_line. rewrite (Split_cons_name "," a _ Hna) by auto.
  assert (Split "," (String " " b) = [String " " b]) as ->.
  { cbn [Split]. by rewrite (Split_name "," b Hnb) by auto. }
  cbn [fmap list_fmap]. rewrite (TrimSpace_id a Hna), (TrimSpace_space b Hnb).
  rewrite !filter_cons_True by done. done.
Qed.

Lemma pair_line_is_pairing a b : valid_name a → valid_name b → contains "=" (pair_line a b) = false.
Proof.
  intros (_ & Hna & _) (_ & Hnb & _). rewrite contains_chars, pair_line_chars. apply bool_decide_eq_false.
  rewrite Forall_forall in Hna, Hnb. intros [Hc|[Hc|Hc]%elem_of_app]%elem_of_app.
  - by destruct (name_char_spec _ (Hna _ Hc)) as (_ & _ & _ & ? & _).
  - set_unfold in Hc. by destruct Hc as [?|[?|[]]].
  - by destruct (name_char_spec _ (Hnb _ Hc)) as (_ & _ & _ & ? & _).
Qed.

Lemma pair_line_paired graph a b : valid_name a → valid_name b → pair_line a b ∈ graph → paired graph a b.
Proof.
  intros Ha Hb Hin. exists (pair_line a b). split; [|by rewrite names_pair_line].
  unfold pair_lines. apply list_elem_of_filter. split; [by apply pair_line_is_pairing|].
  apply list_elem_of_fmap. exists (pair_line a b). split; [symmetry; by apply clean_pair_line|done].
Qed.

End names.

(** ** Local configuration *)

Section node.
Context `{PF : Platform} `{TP : TextParsers} `{NT : NetText}.

(** What the operating system and the machine can do for a node. *)
Definition obfuscates (central : option CentralCfg) (node : LocalCfg) : Prop :=
  tcp_obfuscation central (lc_Id node) = true.

Record node_ok (central : option CentralCfg) (node : LocalCfg) : Prop := {
  no_name : valid_name (lc_Id node);
  no_port : lc_Port node ≠ 0 ∧ (lc_LANDiscovery node ≠ [] → lc_Port node ≠ LANDiscoveryPort);
  no_key : lc_Key node ≠ 0;
  no_interface : lc_InterfaceName node ≠ EmptyString → valid_name (lc_InterfaceName node);
  no_dist : ∀ u, lc_Dist node = Some u → url_Parse u = true;
  no_platform : obfuscates central node → GOOS = "linux" ∧ (GOARCH = "amd64" ∨ GOARCH = "arm64");
  no_binds : NoDup (lc_Binds node) ∧ ∀ b, b ∈ lc_Binds node →
    GOOS = "linux" ∧ (lb_Interface b ≠ EmptyString ∨ addr_IsValid (lb_Source b) = true);
  no_obfuscation : obfuscates central node → ∃ b, b ∈ lc_Binds node ∧ lb_Interface b ≠ EmptyString;
  no_lan : NoDup (lc_LANDiscovery node) ∧ ∀ i, i ∈ lc_LANDiscovery node → GOOS = "linux" ∧ i ≠ EmptyString;
  no_resolvers : ∀ r, r ∈ lc_DnsResolvers node → is_Some (ParseAddrPort r);
  no_prefixes : ∀ p, p ∈ lc_UnexcludeIPs node ++ lc_ExcludeIPs node → pfx_IsValid p = true;
  no_costs : 0 <= lc_TransitCost node ∧ 0 <= lc_TCPCost node ∧ 0 <= lc_UDPCost node;
  no_mtu : lc_Mtu node = 0 ∨ 1280 <= lc_Mtu node <= 65535;
  no_exit : lc_ExitNode node ≠ lc_Id node;
  no_central : ∀ c, central = Some c → IsNode c (lc_Id node) = true ∧
    (lc_ExitNode node ≠ EmptyString → IsNode c (lc_ExitNode node) = true);
}.

Lemma validate_binds_None binds : ∀ seen,
  validate_binds seen binds = None ↔ NoDup binds ∧ ∀ b, b ∈ binds → (b ∉ seen) ∧ GOOS = "linux" ∧
    (lb_Interface b ≠ EmptyString ∨ addr_IsValid (lb_Source b) = true).
Proof.
  induction binds as [|b binds IH]; intros seen; cbn [validate_binds].
  { split; [|done]. intros _. split; [constructor|]. by intros ? ?%not_elem_of_nil. }
  rewrite !if_None, IH, NoDup_cons. setoid_rewrite elem_of_cons.
  rewrite andb_false_iff, !negb_false_iff, !bool_decide_eq_false, bool_decide_eq_true.
  split.
  { intros (Hor & Hns & Hl & Hnd & H). split; [split; [|done]; intros Hin; apply (H b Hin); by left|].
    intros b' [->|Hb']; [done|]. destruct (H b' Hb') as (Hn & ? & ?). split; [|done]. intros ?. apply Hn. by right. }
  intros [[Hb Hnd] H]. pose proof (H b (or_introl eq_refl)) as (? & ? & ?).
  split; [done|]. split; [done|]. split; [done|]. split; [done|]. intros b' Hb'.
  destruct (H b' (or_intror Hb')) as (? & ? & ?). split; [|done]. by intros [->|?].
Qed.

Lemma validate_interfaces_None ifaces : ∀ seen,
  validate_interfaces seen ifaces = None ↔ NoDup ifaces ∧ ∀ i, i ∈ ifaces → (i ∉ seen) ∧ i ≠ EmptyString.
Proof.
  induction ifaces as [|i ifaces IH]; intros seen; cbn [validate_interfaces].
  { split; [|done]. intros _. split; [constructor|]. by intros ? ?%not_elem_of_nil. }
  rewrite !if_None, IH, NoDup_cons. setoid_rewrite elem_of_cons.
  rewrite !bool_decide_eq_false. split.
  { intros (He & Hns & Hnd & H). split; [split; [|done]; intros Hin; destruct (H i Hin) as [Hn _]; apply Hn; by left|].
    intros i' [->|Hi']; [done|]. destruct (H i' Hi') as (Hn & ?). split; [|done]. intros ?. apply Hn. by right. }
  intros [[Hi Hnd] H].
  pose proof (H i (or_introl eq_refl)) as (? & ?). split; [done|]. split; [done|]. split; [done|]. intros i' Hi'.
  destruct (H i' (or_intror Hi')) as (? & ?). split; [|done]. by intros [->|?].
Qed.

Lemma interface_name_None s :
  (if bool_decide (s = EmptyString) then None
   else match NameValidator s with Some e => Some (InterfaceName e) | None => None end) = None ↔
  (s ≠ EmptyString → valid_name s).
Proof.
  rewrite <-NameValidator_None. case_bool_decide; [naive_solver|]. destruct (NameValidator s); naive_solver.
Qed.

Lemma dist_None (d : option string) :
  match d with Some u => if url_Parse u then None else Some (BadURL u) | None => None end = None ↔
  ∀ u, d = Some u → url_Parse u = true.
Proof. destruct d as [u|]; [rewrite if_None'|]; naive_solver. Qed.

Lemma lan_None ifaces :
  (if bool_decide (ifaces = []) then None
   else if negb (bool_decide (GOOS = "linux")) then Some LANPlatform else validate_interfaces [] ifaces) = None ↔
  NoDup ifaces ∧ ∀ i, i ∈ ifaces → GOOS = "linux" ∧ i ≠ EmptyString.
Proof.
  case_bool_decide as He.
  { subst. split; [|done]. intros _. split; [constructor|]. by intros ? ?%not_elem_of_nil. }
  rewrite if_None, validate_interfaces_None, negb_false_iff, bool_decide_eq_true. split.
  - intros (? & ? & H). split; [done|]. intros i Hi. by destruct (H i Hi).
  - intros [? H]. destruct ifaces as [|i ifaces]; [done|]. split; [apply (H i); by left|]. split; [done|].
    intros j Hj. split; [apply not_elem_of_nil|by apply H].
Qed.

Lemma central_None (central : option CentralCfg) node :
  (match central with
   | Some c => negb (bool_decide (lc_ExitNode node = EmptyString)) && negb (IsNode c (lc_ExitNode node))
   | None => false
   end = false ∧
   match central with Some c => negb (IsNode c (lc_Id node)) | None => false end = false) ↔
  ∀ c, central = Some c → IsNode c (lc_Id node) = true ∧ (lc_ExitNode node ≠ EmptyString → IsNode c (lc_ExitNode node) = true).
Proof.
  destruct central as [c|]; [|naive_solver].
  rewrite andb_false_iff, !negb_false_iff, bool_decide_eq_true. split.
  - intros [H1 H2] ? [= <-]. naive_solver.
  - intros H. destruct (H c eq_refl) as [H1 H2]. split; [|done].
    destruct (decide (lc_ExitNode node = EmptyString)); auto.
Qed.

Lemma implb_false (b1 b2 : bool) : b1 && negb b2 = false ↔ (b1 = true → b2 = true).
Proof. destruct b1, b2; naive_solver. Qed.

Lemma platform_None (b : bool) :
  b && (negb (bool_decide (GOOS = "linux")) ||
    negb (bool_decide (GOARCH = "amd64")) && negb (bool_decide (GOARCH = "arm64"))) = false ↔
  (b = true → GOOS = "linux" ∧ (GOARCH = "amd64" ∨ GOARCH = "arm64")).
Proof.
  rewrite <-negb_orb, <-negb_andb, implb_false, andb_true_iff, orb_true_iff, !bool_decide_eq_true. done.
Qed.

Lemma has_interface binds :
  existsb (λ bind, negb (bool_decide (lb_Interface bind = EmptyString))) binds = true ↔
  ∃ b, b ∈ binds ∧ lb_Interface b ≠ EmptyString.
Proof.
  rewrite existsb_exists. setoid_rewrite <-list_elem_of_In. setoid_rewrite negb_true_iff.
  by setoid_rewrite bool_decide_eq_false.
Qed.

Lemma mtu_None mtu : negb (mtu =? 0) && ((mtu <? 1280) || (65535 <? mtu)) = false ↔ mtu = 0 ∨ 1280 <= mtu <= 65535.
Proof. lia. Qed.

Lemma port_None (ifaces : list string) port : negb (bool_decide (ifaces = [])) && (port =? LANDiscoveryPort) = false ↔
  (ifaces ≠ [] → port ≠ LANDiscoveryPort).
Proof. rewrite andb_false_iff, negb_false_iff, bool_decide_eq_true, Z.eqb_neq. destruct ifaces; naive_solver. Qed.

Lemma NodeConfigValidator_spec central node : NodeConfigValidator central node = None ↔ node_ok central node.
Proof.
  unfold NodeConfigValidator.
  repeat (rewrite and_then_None || rewrite if_None).
  rewrite NameValidator_None, interface_name_None, dist_None, lan_None, validate_binds_None, !first_error_None,
    platform_None, port_None, implb_false, has_interface, mtu_None, !Z.eqb_neq, !Z.ltb_ge, bool_decide_eq_false.
  setoid_rewrite if_None'. setoid_rewrite bool_decide_eq_true. pose proof (central_None central node) as Hc. split.
  - intros (? & ? & ? & ? & ? & ? & ? & [? Hb] & ? & ? & ? & ? & ? & ? & ? & ? & ? & ? & ? & _).
    split; try done; [split; [done|]; intros b ?; by apply Hb|by apply Hc].
  - intros [? [? ?] ? ? ? ? [? Hb] ? [? ?] ? ? (? & ? & ?) ? ? [? ?]%Hc].
    split_and!; try done. intros b ?. split; [apply not_elem_of_nil|by apply Hb].
Qed.

End node.

(** ** The properties *)

Section properties.
Context `{MR : MapRange} `{U : Unicode} `{TP : TextParsers} `{PF : Platform} `{NT : NetText}.

(** C37: the central configuration validator accepts a configuration exactly when every
    wrapper holds one of the three kinds of health check, node names are well formed and
    distinct, the graph makes sense, there are no more nodes than labels and the pinned
    labels are in range and distinct, no router announces a prefix twice on its own behalf
    or for its clients, every health check, exclusion and repository is usable, and
    clients announce static prefixes only.  It panics only on a configuration with a nil
    health check; every other one that is not accepted is rejected with an error. *)
Theorem central_validator_exact (c : ReadCfg) :
  (CentralConfigValidator c = Accept ↔ ∃ c', checked c = Some c' ∧ central_ok c') ∧
  (CentralConfigValidator c = Panic → HealthNil ∈ all_health c).
Proof.
  split; [|apply CentralConfigValidator_Panic]. split; [apply accepted_checked|].
  intros (c' & ->%checked_spec & Hok). by apply CentralConfigValidator_spec.
Qed.

(** The local configuration validator accepts a configuration exactly when names, port,
    key, binds, interfaces, resolvers, prefixes, costs and MTU are in range, the platform
    supports what the node asks for, and the node and its exit are in the central
    configuration. *)
Theorem node_validator_exact central node :
  NodeConfigValidator central node = None ↔ node_ok central node.
Proof. exact (NodeConfigValidator_spec central node). Qed.

(** in a validated configuration, a line of the graph made of the names of two
    different nodes, a comma and a space makes each of them a peer of the other: no valid
    name is mangled by the lower-casing, trimming and splitting of the graph parser. *)
Theorem validated_line_connects (c : ReadCfg) a b :
  CentralConfigValidator c = Accept → a ∈ all_nodes c → b ∈ all_nodes c → a ≠ b →
  pair_line a b ∈ c_Graph c →
  ∃ pa pb, GetPeers c a = Some pa ∧ GetPeers c b = Some pb ∧ b ∈ pa ∧ a ∈ pb.
Proof.
  intros (c' & ->%checked_spec & Hok)%accepted_checked. unfold written. rewrite map_cfg_all_nodes, !map_cfg_peers.
  change (c_Graph (map_cfg (fmap Health) c')) with (c_Graph c'). rename c' into c. intros Ha Hb Hab Hin.
  pose proof (co_names _ Hok a Ha) as Hva. pose proof (co_names _ Hok b Hb) as Hvb.
  assert (connects (all_nodes c) (c_Graph c) a b) as Hc.
  { exists a, b. split; [by apply pair_line_paired|]. split; by constructor. }
  destruct (GetPeers_defined c a (co_graph _ Hok)) as [pa Hpa].
  destruct (GetPeers_defined c b (co_graph _ Hok)) as [pb Hpb].
  exists pa, pb. split; [done|]. split; [done|]. split.
  - apply (elem_of_GetPeers c a pa b Hpa); [apply Hvb|done].
  - apply (elem_of_GetPeers c b pb a Hpb); [apply Hva|]. split; [done|]. by apply connects_comm.
Qed.

End properties.

(** ** A concrete configuration *)

Module ValidationDemo.

#[local] Existing Instance sorted_range.
#[local] Existing Instance plain_unicode.
#[local] Instance parsers : TextParsers := {| url_Parse _ := true |}.

Definition v4_prefix (a bits : Z) : Prefix := PrefixFrom (Addr4 a) bits.

Definition router (id : string) (ps : list Prefix) : RouterCfg :=
  mkRouterCfg (mkNodeCfg id 0 [] ((λ p, StaticPrefixHealth p 0) <$> ps) 0) [] false.

(** Two routers; the first announces 10.0.0.0/8 and 10.0.0.1/8. *)
Definition cfg : CentralCfg :=
  mkCentralCfg [router "alpha" [v4_prefix 167772160 8; v4_prefix 167772161 8]; router "beta" []] [] ["alpha, beta"] 0 [] None.

Lemma validated_line_connects_witness :
  ∃ pa pb, GetPeers (written cfg) "alpha" = Some pa ∧ GetPeers (written cfg) "beta" = Some pb ∧ "beta" ∈ pa ∧ "alpha" ∈ pb.
Proof.
  apply validated_line_connects; [vm_compute; reflexivity| | |discriminate|].
  all: refine (bool_decide_eq_true_1 _ _); vm_compute; reflexivity.
Defined.

(** The uniqueness check compares prefixes with their host bits: the two prefixes of the
    first router are the same network, and the configuration is accepted. *)
Lemma same_network_twice_accepted :
  CentralConfigValidator (written cfg) = Accept ∧
  pfx_Masked (v4_prefix 167772160 8) = pfx_Masked (v4_prefix 167772161 8).
Proof. split; vm_compute; reflexivity. Qed.

(** A nil health check is not reported as one of unknown type: asking it for its prefix
    panics before its type is looked at. *)
Definition with_health (w : PrefixHealthWrapper) : ReadCfg :=
  mkCentralCfg [mkRouterCfg (mkNodeCfg "alpha" 0 [] [w] 0) [] false] [] [] 0 [] None.

Lemma nil_health_panics :
  CentralConfigValidator (with_health HealthNil) = Panic ∧
  CentralConfigValidator (with_health (HealthOther (v4_prefix 167772160 8))) = Reject (HealthUnknown (v4_prefix 167772160 8)).
Proof. split; vm_compute; reflexivity. Qed.

End ValidationDemo.
