(* ===== verification/SysRoutes.v ===== *)
(** The routes a node installs in the operating system: [ComputeSysRouteTable] of
    [core/router.go], on the address sets of the library [go4.org/netipx], which are an
    interface with an executable instance. *)

From S2P Require Import Prelude Bytes NetIP Metric Routing Config Unicast AllowedIPs TrieProps AllowedIPsProps.

(** ** [netipx.IPSet] *)

Class IPSets (S : Type) := {
  ips_empty : S;
  ips_AddPrefix : S → Prefix → S;
  ips_AddSet : S → S → S;
  ips_RemoveSet : S → S → S;
  ips_Prefixes : S → list Prefix;
  ips_Contains : S → Addr → bool;
}.

(** An address without a zone, of its width. *)
Definition plain_addr (a : Addr) : Prop := addr_wf a ∧ addr_withoutZone a = a.

Class IPSetsLaws (S : Type) `{IPSets S} := {
  ips_Contains_empty : ∀ a, ips_Contains ips_empty a = false;
  ips_Contains_AddPrefix : ∀ s p a, pfx_wf p → plain_addr a →
    ips_Contains (ips_AddPrefix s p) a = ips_Contains s a || pfx_Contains p a;
  ips_Contains_AddSet : ∀ s s' a, ips_Contains (ips_AddSet s s') a = ips_Contains s a || ips_Contains s' a;
  ips_Contains_RemoveSet : ∀ s s' a, ips_Contains (ips_RemoveSet s s') a = ips_Contains s a && negb (ips_Contains s' a);
  ips_Contains_Prefixes : ∀ s a, plain_addr a → existsb (λ p, pfx_Contains p a) (ips_Prefixes s) = ips_Contains s a;
}.

(** ** The route table *)

Section table.
Context {S : Type} `{IS : IPSets S} `{MR : MapRange}.

(** [MakeSet]; the panic on a prefix that is not valid is [None]. *)
Definition MakeSet (prefix : list Prefix) : option S :=
  foldl (λ r p, s ← r; if pfx_IsValid p then Some (ips_AddPrefix s p) else None) (Some ips_empty) prefix.

(** The parts of the configuration that decide: what the network and the node exclude,
    what the node does not exclude after all, and whether it sends everything to an exit. *)
Record RoutePolicy := mkPolicy {
  rp_ExcludeIPs : list Prefix;
  rp_UnexcludeIPs : list Prefix;
  rp_LocalExcludeIPs : list Prefix;
  rp_ExitNode : NodeId;
  rp_ExitNodeDefaultRoute : bool;
}.

Definition ComputeSysRouteTable (lid : NodeId) (pol : RoutePolicy) (routes : gmap Prefix SelRoute) : option (list Prefix) :=
  let '(prefixes, selectedSelf) := foldl (λ st x,
      (st.1 ++ [x.1], if bool_decide (sr_Nh x.2 = lid) then st.2 ++ [x.1] else st.2)) ([], []) (map_range routes) in
  e1 ← MakeSet (rp_ExcludeIPs pol);
  e2 ← MakeSet DefaultLocalExcludes;
  e3 ← MakeSet selectedSelf;
  e4 ← MakeSet (rp_UnexcludeIPs pol);
  e5 ← MakeSet (rp_LocalExcludeIPs pol);
  let excludes := ips_AddSet (ips_RemoveSet (ips_AddSet (ips_AddSet (ips_AddSet ips_empty e1) e2) e3) e4) e5 in
  f ← MakeSet prefixes;
  let final := ips_AddSet ips_empty f in
  let final := if negb (bool_decide (rp_ExitNode pol = "")) && rp_ExitNodeDefaultRoute pol
               then ips_AddPrefix final (PrefixFrom (Addr4 0) 0) else final in
  Some (ips_Prefixes (ips_RemoveSet final excludes)).

End table.

(** ** What is routed *)

Definition covered (ps : list Prefix) (a : Addr) : Prop := ∃ p, p ∈ ps ∧ pfx_Contains p a = true.

Section routed.
Context {S : Type} `{IS : IPSets S} `{ISL : !IPSetsLaws S} `{MR : MapRange}.
Implicit Types (a : Addr) (ps : list Prefix).

Lemma existsb_covered ps a : existsb (λ p, pfx_Contains p a) ps = true ↔ covered ps a.
Proof. rewrite existsb_exists. unfold covered. by setoid_rewrite list_elem_of_In. Qed.

Lemma MakeSet_spec ps : Forall pfx_wf ps →
  ∃ s : S, MakeSet ps = Some s ∧ ∀ a, plain_addr a → ips_Contains s a = true ↔ covered ps a.
Proof.
  unfold MakeSet. induction ps as [|p ps IH] using rev_ind; intros Hps.
  { exists ips_empty. split; [done|]. intros a _. rewrite ips_Contains_empty. split; [done|].
    by intros (? & ?%not_elem_of_nil & _). }
  apply Forall_app in Hps as [Hps Hp]. rewrite Forall_singleton in Hp. destruct (IH Hps) as (s & Hf & Hs).
  exists (ips_AddPrefix s p). rewrite foldl_snoc, Hf. cbn.
  assert (pfx_IsValid p = true) as -> by (unfold pfx_IsValid; destruct Hp as (_ & _ & ? & _); lia).
  split; [done|]. intros a Ha. rewrite ips_Contains_AddPrefix, orb_true_iff, Hs by done. unfold covered.
  setoid_rewrite elem_of_app. setoid_rewrite list_elem_of_singleton. naive_solver.
Qed.

Lemma routes_lists (lid : NodeId) (l : list (Prefix * SelRoute)) :
  foldl (λ st x, (st.1 ++ [x.1], if bool_decide (sr_Nh x.2 = lid) then st.2 ++ [x.1] else st.2)) ([], []) l =
  (l.*1, (filter (λ x, sr_Nh x.2 = lid) l).*1).
Proof.
  induction l as [|x l IH] using rev_ind; [done|]. rewrite foldl_snoc, IH, filter_app, !fmap_app. cbn [fst snd].
  case_bool_decide as Hd; [rewrite filter_cons_True by done|rewrite filter_cons_False by done]; [done|].
  cbn. by rewrite app_nil_r.
Qed.

Lemma default_excludes_wf : Forall pfx_wf DefaultLocalExcludes.
Proof. repeat constructor; vm_compute; done. Qed.

Lemma excluded_spec (e1 e2 e3 e4 e5 : S) a :
  ips_Contains (ips_AddSet (ips_RemoveSet (ips_AddSet (ips_AddSet (ips_AddSet ips_empty e1) e2) e3) e4) e5) a = true ↔
  ((ips_Contains e1 a = true ∨ ips_Contains e2 a = true ∨ ips_Contains e3 a = true) ∧ ¬ ips_Contains e4 a = true) ∨
  ips_Contains e5 a = true.
Proof.
  rewrite !ips_Contains_AddSet, ips_Contains_RemoveSet, !ips_Contains_AddSet, ips_Contains_empty.
  rewrite !orb_true_iff, andb_true_iff, !orb_true_iff, negb_true_iff, not_true_iff_false. naive_solver.
Qed.

Lemma final_spec (f : S) (exit : NodeId) (def : bool) a : plain_addr a →
  ips_Contains (if negb (bool_decide (exit = "")) && def then ips_AddPrefix (ips_AddSet ips_empty f) (PrefixFrom (Addr4 0) 0)
                else ips_AddSet ips_empty f) a = true ↔
  ips_Contains f a = true ∨ exit ≠ "" ∧ def = true ∧ addr_Is4 a = true.
Proof.
  intros Ha. destruct (negb (bool_decide (exit = "")) && def) eqn:E.
  - apply andb_true_iff in E as [He ->]. apply negb_true_iff, bool_decide_eq_false in He.
    rewrite ips_Contains_AddPrefix, ips_Contains_AddSet, ips_Contains_empty, orb_true_iff by (try done; by vm_compute).
    assert (pfx_Contains (PrefixFrom (Addr4 0) 0) a = true ↔ addr_Is4 a = true) as ->; [|naive_solver].
    destruct Ha as [Hw _]. destruct a as [|x|]; [done| |done].
    assert (Z.shiftr x 32 = 0) as Hx by (rewrite Z.shiftr_div_pow2 by lia; apply Z.div_small, Hw).
    assert (pfx_Contains (PrefixFrom (Addr4 0) 0) (Addr4 x) = (0 =? Z.shiftr x 32)) as -> by reflexivity.
    by rewrite Hx.
  - rewrite ips_Contains_AddSet, ips_Contains_empty. cbn. apply andb_false_iff in E.
    rewrite negb_false_iff, bool_decide_eq_true in E. naive_solver.
Qed.

Lemma covered_routes (routes : gmap Prefix SelRoute) a :
  (∃ p r, routes !! p = Some r ∧ pfx_Contains p a = true) ↔ covered (map_range routes).*1 a.
Proof.
  unfold covered. split.
  - intros (p & r & Hr & Hc). exists p. split; [|done]. apply list_elem_of_fmap. exists (p, r).
    by rewrite elem_of_map_range.
  - intros (p & ([q r] & -> & Hin%elem_of_map_range)%list_elem_of_fmap & Hc). eauto.
Qed.

Lemma covered_self lid (routes : gmap Prefix SelRoute) a :
  (∃ p r, routes !! p = Some r ∧ sr_Nh r = lid ∧ pfx_Contains p a = true) ↔
  covered (filter (λ x, sr_Nh x.2 = lid) (map_range routes)).*1 a.
Proof.
  unfold covered. split.
  - intros (p & r & Hr & Hn & Hc). exists p. split; [|done]. apply list_elem_of_fmap. exists (p, r). split; [done|].
    apply list_elem_of_filter. by rewrite elem_of_map_range.
  - intros (p & ([q r] & -> & [Hn Hin%elem_of_map_range]%list_elem_of_filter)%list_elem_of_fmap & Hc). eauto.
Qed.


End routed.

(** ** An instance of the address sets *)

Module Covers.

(** A set of addresses of one family as a binary tree over their bits. *)
Inductive cover := Never | Always | Fork (c0 c1 : cover).

Fixpoint union (x y : cover) : cover :=
  match x, y with
  | Always, _ | _, Always => Always
  | Never, z | z, Never => z
  | Fork x0 x1, Fork y0 y1 => Fork (union x0 y0) (union x1 y1)
  end.

Fixpoint compl (x : cover) : cover :=
  match x with Never => Always | Always => Never | Fork x0 x1 => Fork (compl x0) (compl x1) end.

Fixpoint inter (x y : cover) : cover :=
  match x, y with
  | Never, _ | _, Never => Never
  | Always, z | z, Always => z
  | Fork x0 x1, Fork y0 y1 => Fork (inter x0 y0) (inter x1 y1)
  end.

Section family.
Context (f : family).

(** Membership below depth [c]. *)
Fixpoint mem (x : cover) (c ip : Z) : bool :=
  match x with
  | Never => false
  | Always => true
  | Fork x0 x1 => mem (if bit_at f c ip then x1 else x0) (c + 1) ip
  end.

(** The addresses that agree with [ip] on [n] more bits. *)
Fixpoint path (n : nat) (c ip : Z) : cover :=
  match n with
  | O => Always
  | S n => if bit_at f c ip then Fork Never (path n (c + 1) ip) else Fork (path n (c + 1) ip) Never
  end.

(** The prefixes of a set, below the first [c] bits of [ip]. *)
Fixpoint leaves (x : cover) (c ip : Z) : list node_id :=
  match x with
  | Never => []
  | Always => [(f, ip, Z.min c (width f))]
  | Fork x0 x1 => leaves x0 (c + 1) ip ++
                  if c <? width f then leaves x1 (c + 1) (Z.setbit ip (width f - 1 - c)) else []
  end.

Lemma mem_union x : ∀ y c ip, mem (union x y) c ip = mem x c ip || mem y c ip.
Proof. induction x as [| |x0 IH0 x1 IH1]; intros [| |y0 y1] c ip; cbn; rewrite ?orb_true_r, ?orb_false_r; try done. by destruct (bit_at f c ip). Qed.

Lemma mem_compl x : ∀ c ip, mem (compl x) c ip = negb (mem x c ip).
Proof. induction x as [| |x0 IH0 x1 IH1]; intros c ip; cbn; [done..|]. by destruct (bit_at f c ip). Qed.

Lemma mem_inter x : ∀ y c ip, mem (inter x y) c ip = mem x c ip && mem y c ip.
Proof. induction x as [| |x0 IH0 x1 IH1]; intros [| |y0 y1] c ip; cbn; rewrite ?andb_true_r, ?andb_false_r; try done. by destruct (bit_at f c ip). Qed.

Lemma mem_path n : ∀ c ip0 ip, 0 <= c → c + Z.of_nat n <= width f → agree f c ip0 ip →
  mem (path n c ip0) c ip = bool_decide (agree f (c + Z.of_nat n) ip0 ip).
Proof.
  induction n as [|n IH]; intros c ip0 ip Hc Hw Ha; cbn [path mem].
  { replace (c + Z.of_nat 0) with c by lia. by rewrite bool_decide_eq_true_2. }
  destruct (decide (bit_at f c ip0 = bit_at f c ip)) as [Hb|Hb].
  - assert (agree f (c + 1) ip0 ip) as Ha' by (apply agree_succ; [lia|done]).
    replace (c + Z.of_nat (S n)) with (c + 1 + Z.of_nat n) by lia.
    rewrite <-(IH (c + 1) ip0 ip) by (try done; lia). rewrite Hb. by destruct (bit_at f c ip) eqn:E; cbn [mem]; rewrite E.
  - rewrite bool_decide_eq_false_2.
    + by destruct (bit_at f c ip0), (bit_at f c ip) eqn:E; try done; cbn [mem]; rewrite E.
    + intros Hall. apply Hb. apply (bit_at_agree f ip0 ip c (c + Z.of_nat (S n))); [lia|lia|done].
Qed.

(** An address without bits after the first [c]. *)
Definition stub (c ip : Z) : Prop := ∀ j, c <= j < width f → bit_at f j ip = false.

Lemma stub_setbit c ip : 0 <= c < width f → stub c ip →
  stub (c + 1) (Z.setbit ip (width f - 1 - c)) ∧ bit_at f c (Z.setbit ip (width f - 1 - c)) = true ∧
  agree f c (Z.setbit ip (width f - 1 - c)) ip.
Proof.
  intros Hc Hs. split; [|split].
  - intros j Hj. unfold bit_at. rewrite Z.setbit_neq by lia. apply Hs. lia.
  - unfold bit_at. apply Z.setbit_eq. lia.
  - unfold agree. apply Z.bits_inj'. intros i Hi. rewrite !Z.shiftr_spec, Z.setbit_neq by lia. done.
Qed.

Lemma leaves_spec x : ∀ c ip0 ip, 0 <= c → stub c ip0 →
  (∃ id, id ∈ leaves x c ip0 ∧ id.1.1 = f ∧ 0 <= id.2 <= width f ∧ agree f id.2 id.1.2 ip) ↔
  agree f (Z.min c (width f)) ip0 ip ∧ mem x c ip = true.
Proof.
  pose proof (width_cases f) as Hw.
  induction x as [| |x0 IH0 x1 IH1]; intros c ip0 ip Hc Hs; cbn [leaves mem].
  - split; [by intros (? & ?%not_elem_of_nil & _)|by intros [_ ?]].
  - setoid_rewrite list_elem_of_singleton. split.
    + intros (id & -> & _ & _ & Ha). done.
    + intros [Ha _]. eexists. split; [done|]. cbn. split; [done|]. split; [lia|done].
  - setoid_rewrite elem_of_app. destruct (Z.ltb_spec c (width f)) as [Hlt|Hge].
    + destruct (stub_setbit c ip0 ltac:(lia) Hs) as (Hs1 & Hbit & Hag).
      assert (bit_at f c ip0 = false) as Hb0 by (apply Hs; lia).
      assert (stub (c + 1) ip0) as Hs0 by (intros j Hj; apply Hs; lia).
      pose proof (IH0 (c + 1) ip0 ip ltac:(lia) Hs0) as H0.
      pose proof (IH1 (c + 1) _ ip ltac:(lia) Hs1) as H1.
      replace (Z.min (c + 1) (width f)) with (c + 1) in H0, H1 by lia. replace (Z.min c (width f)) with c by lia.
      rewrite agree_succ in H0, H1 by lia. rewrite Hb0 in H0. rewrite Hbit in H1.
      assert (agree f c (Z.setbit ip0 (width f - 1 - c)) ip ↔ agree f c ip0 ip) as Hagr.
      { split; intros; (eapply agree_trans; [|done]); [by apply agree_sym|done]. }
      rewrite Hagr in H1. split.
      * intros (id & [Hin|Hin] & Hid).
        -- destruct (proj1 H0) as [[? Hbb] Hm]; [by exists id|]. by rewrite <-Hbb.
        -- destruct (proj1 H1) as [[? Hbb] Hm]; [by exists id|]. by rewrite <-Hbb.
      * intros [Ha Hm]. destruct (bit_at f c ip) eqn:E.
        -- destruct (proj2 H1) as (id & Hin & Hid); [done|]. exists id. split; [by right|done].
        -- destruct (proj2 H0) as (id & Hin & Hid); [done|]. exists id. split; [by left|done].
    + assert (bit_at f c ip = false) as E by (unfold bit_at; apply Z.testbit_neg_r; lia). rewrite E.
      pose proof (IH0 (c + 1) ip0 ip ltac:(lia) ltac:(intros j Hj; apply Hs; lia)) as H0.
      replace (Z.min (c + 1) (width f)) with (width f) in H0 by lia. replace (Z.min c (width f)) with (width f) by lia.
      setoid_rewrite elem_of_nil. split.
      * intros (id & [Hin|[]] & Hid). apply H0. by exists id.
      * intros (id & Hin & Hid)%H0. exists id. split; [by left|done].
Qed.

End family.

Definition sets : Type := cover * cover.

Definition of_family (s : sets) (f : family) : cover := match f with V4 => s.1 | V6 => s.2 end.

#[export] Instance covers : IPSets sets := {|
  ips_empty := (Never, Never);
  ips_AddPrefix s p :=
    match split_prefix p with
    | Some (V4, ip, c) => (union s.1 (path V4 (Z.to_nat c) 0 ip), s.2)
    | Some (V6, ip, c) => (s.1, union s.2 (path V6 (Z.to_nat c) 0 ip))
    | None => s
    end;
  ips_AddSet s s' := (union s.1 s'.1, union s.2 s'.2);
  ips_RemoveSet s s' := (inter s.1 (compl s'.1), inter s.2 (compl s'.2));
  ips_Prefixes s := id_prefix <$> leaves V4 s.1 0 0 ++ leaves V6 s.2 0 0;
  ips_Contains s a :=
    match a with
    | AddrZero => false
    | Addr4 x => mem V4 s.1 0 x
    | Addr6 x zone => bool_decide (zone = "") && mem V6 s.2 0 x
    end;
|}.

Lemma plain_cases a : plain_addr a → a = AddrZero ∨ ∃ f x, a = addr_of f x.
Proof.
  intros [_ Hz]. destruct a as [|x|x z]; [by left|right; by exists V4, x|right].
  injection Hz as <-. by exists V6, x.
Qed.

Lemma Contains_addr_of (s : sets) f x : ips_Contains s (addr_of f x) = mem f (of_family s f) 0 x.
Proof. by destruct f. Qed.

Lemma stub_zero f : stub f 0 0.
Proof. intros j _. unfold bit_at. apply Z.bits_0. Qed.

Lemma leaves_family f x : ∀ c ip id, 0 <= c → id ∈ leaves f x c ip → id.1.1 = f ∧ 0 <= id.2 <= width f.
Proof.
  pose proof (width_cases f) as Hw.
  induction x as [| |x0 IH0 x1 IH1]; intros c ip id Hc; cbn [leaves].
  - by intros ?%not_elem_of_nil.
  - intros ->%list_elem_of_singleton. cbn. split; [done|lia].
  - intros [Hin|Hin]%elem_of_app; [apply IH0 in Hin; [done|lia]|].
    destruct (c <? width f); [apply IH1 in Hin; [done|lia]|by apply not_elem_of_nil in Hin].
Qed.

Lemma leaves_all (s : sets) id : id ∈ leaves V4 s.1 0 0 ++ leaves V6 s.2 0 0 →
  id ∈ leaves id.1.1 (of_family s id.1.1) 0 0 ∧ 0 <= id.2 <= width id.1.1.
Proof.
  intros [Hin|Hin]%elem_of_app; pose proof Hin as [Hf Hb]%leaves_family; try lia; by rewrite Hf.
Qed.

Lemma split_prefix_id p : pfx_wf p → ∃ f ip c, split_prefix p = Some (f, ip, c) ∧ 0 <= c <= width f ∧ p = id_prefix (f, ip, c).
Proof.
  destruct p as [a bp]. intros (_ & Hz & Hb & Hv). cbn in Hz, Hb, Hv. unfold split_prefix, pfx_Bits.
  destruct a as [|x|x z]; cbn [pfx_Addr pfx_bitsPlusOne addr_BitLen] in *; [done| |injection Hz as <-];
    rewrite wrap_small by (unfold in_width; lia); eexists _, _, _; (split; [done|]);
    [change (width V4) with 32|change (width V6) with 128]; (split; [lia|]); unfold id_prefix; cbn; f_equal; lia.
Qed.

Lemma agree_zero f x y : is_ip f x → is_ip f y → agree f 0 x y.
Proof.
  unfold agree, is_ip. intros Hx Hy. rewrite Z.sub_0_r.
  transitivity 0; [|symmetry]; (apply shiftr_zero_iff; [lia|destruct (width_cases f); lia|lia]).
Qed.

#[export] Instance covers_laws : IPSetsLaws sets.
Proof.
  split.
  - intros [|x|x z]; cbn; [done..|]. apply andb_false_r.
  - intros s p a Hp Ha. destruct (split_prefix_id p Hp) as (f & ip & c & Hs & Hc & ->).
    assert (is_ip f ip) as Hip. { destruct Hp as [Hw _]. by destruct f. }
    destruct (plain_cases a Ha) as [->|(f' & x & ->)].
    { change (false = false || pfx_Contains (id_prefix (f, ip, c)) AddrZero). unfold pfx_Contains. destruct f; cbn; by rewrite andb_false_r. }
    assert (is_ip f' x) as Hx. { destruct Ha as [Hw _]. by destruct f'. }
    assert (of_family (ips_AddPrefix s (id_prefix (f, ip, c))) f' =
      if decide (f = f') then union (of_family s f') (path f (Z.to_nat c) 0 ip) else of_family s f') as Hf.
    { cbn [ips_AddPrefix covers]. rewrite Hs. by destruct f, f'. }
    rewrite !Contains_addr_of, Hf. apply eq_true_iff_eq.
    rewrite !orb_true_iff, id_prefix_Contains by lia. case_decide as Hd.
    + subst f'. rewrite mem_union, orb_true_iff, mem_path by (try lia; by apply agree_zero).
      replace (0 + Z.of_nat (Z.to_nat c)) with c by lia. rewrite bool_decide_eq_true. tauto.
    + naive_solver.
  - intros s s' [|x|x z]; cbn; [done|apply mem_union|]. rewrite mem_union. by destruct (bool_decide _).
  - intros s s' [|x|x z]; cbn; [done|by rewrite mem_inter, mem_compl|]. rewrite mem_inter, mem_compl. by destruct (bool_decide _).
  - intros s a Ha. apply eq_true_iff_eq. rewrite existsb_covered. unfold covered. cbn [ips_Prefixes covers].
    setoid_rewrite list_elem_of_fmap. destruct (plain_cases a Ha) as [->|(f & x & ->)].
    { split; [|done]. intros (p & (id & -> & _) & Hc). unfold pfx_Contains in Hc. by destruct id as [[[] ?] ?]; cbn in Hc; rewrite andb_false_r in Hc. }
    assert (is_ip f x) as Hx. { destruct Ha as [Hw _]. by destruct f. }
    rewrite Contains_addr_of. pose proof (leaves_spec f (of_family s f) 0 0 x ltac:(lia) (stub_zero f)) as Hl.
    replace (Z.min 0 (width f)) with 0 in Hl by (destruct (width_cases f); lia).
    pose proof (agree_zero f 0 x ltac:(destruct (width_cases f) as [Hw|Hw]; unfold is_ip; rewrite Hw; lia) Hx) as Ha0.
    split.
    + intros (p & (id & -> & Hin) & Hc). apply Hl. destruct (leaves_all s id Hin) as (Hin' & Hb).
      destruct id as [[f' ip] c]. cbn in Hb, Hin'. apply id_prefix_Contains in Hc as [-> Hc]; [|lia].
      exists (f, ip, c). done.
    + intros Hm. destruct (proj2 Hl (conj Ha0 Hm)) as ([[f' ip] c] & Hin & Hf & Hb & Hag). cbn in Hf, Hb, Hag. subst f'.
      exists (id_prefix (f, ip, c)). split; [|by apply id_prefix_Contains; [lia|]]. exists (f, ip, c). split; [done|].
      apply elem_of_app. destruct f; [by left|by right].
Qed.

End Covers.

(** ** A concrete table *)

Module SysDemo.

#[local] Existing Instances Covers.covers Covers.covers_laws.

(** One route to 10.0.0.0/8 over a neighbour; the network excludes 10.2.0.0/16. *)
Definition net10 : Prefix := PrefixFrom (Addr4 167772160) 8.
Definition routes : gmap Prefix SelRoute :=
  {[net10 := mkSelRoute (mkPubRoute (mkSource "z" net10) (mkFD 1 5)) "b" 0 []]}.
Definition policy : RoutePolicy := mkPolicy [PrefixFrom (Addr4 167903232) 16] [] [] "z" true.


(** The excluded range is cut out, and the rest of the address space goes to the exit. *)
Example sys_demo_table :
  (λ a, match @ComputeSysRouteTable Covers.sets _ sorted_range "a" policy routes with
        | Some t => existsb (λ p, pfx_Contains p (Addr4 a)) t
        | None => false
        end) <$> [167772161; 167903233; 134744072; 2130706433] = [true; false; true; false].
Proof. vm_compute. reflexivity. Qed.

End SysDemo.
