(* ===== verification/Reconcile.v ===== *)
(** Applying a central configuration to a running node: [core/nylon_apply.go], and the
    synchronisation of the WireGuard device of [core/nylon_wireguard.go].

    A Go panic is [None]; logging has no effect on the state. *)

From S2P Require Import Prelude Bytes NetIP Float64 Metric Routing Endpoint EndpointProps RouterAlgo Config External RouterIO Graph Validation SysRoutes.

(** ** Endpoints of a neighbour *)

(** What tells configured links apart. *)
Definition endpointIdentity : Type := string * LocalBind * Transport.

Definition endpointKey (ep : NylonEndpoint) : endpointIdentity := (dyn_Value (ep_DynEP ep), ep_Bind ep, ep_Transport ep).

Definition zero_bind : LocalBind := mkLocalBind "" AddrZero.

Section endpoints.
Context `{NT : NetText} `{HO : Host}.

Definition endpointFamilyRoutable (ep : DynamicEndpoint) : bool :=
  match dyn_Parse ep with
  | None => true
  | Some (host, _) => match ParseAddr host with None => true | Some addr => FamilyReachable addr end
  end.

Definition bindMatchesEndpoint (bind : LocalBind) (ep : DynamicEndpoint) : bool :=
  if negb (addr_IsValid (lb_Source bind)) then true
  else match dyn_Parse ep with
       | None => false
       | Some (host, _) => match ParseAddr host with None => true | Some addr => SameIPFamily (lb_Source bind) addr end
       end.

(** A new configured link; the counter is that of [linkIdCounter]. *)
Definition new_link (t : RouterTunables) (ep : DynamicEndpoint) (bind : LocalBind) (tr : Transport)
    (st : list NylonEndpoint * Z) : list NylonEndpoint * Z :=
  let id := uint64 (st.2 + 1) in
  (st.1 ++ [set_transport (set_bind (NewEndpoint ep false None t id) bind) tr], id).

(** The links of one endpoint, one for each bind that can reach it. *)
Definition bound_link (t : RouterTunables) (fakeTCPEnabled : bool) (ep : DynamicEndpoint)
    (st : list NylonEndpoint * Z) (bind : LocalBind) : list NylonEndpoint * Z :=
  if negb (bindMatchesEndpoint bind ep) then st
  else if negb (addr_IsValid (lb_Source bind)) && negb (endpointFamilyRoutable ep) then st
  else
    let st := new_link t ep bind TransportUDP st in
    if fakeTCPEnabled && negb (bool_decide (lb_Interface bind = "")) then new_link t ep bind TransportFakeTCP st else st.

Definition configuredEndpoints (binds : list LocalBind) (endpoints : list DynamicEndpoint) (fakeTCPEnabled : bool)
    (t : RouterTunables) (linkIds : Z) : list NylonEndpoint * Z :=
  match binds with
  | [] => foldl (λ st ep, if endpointFamilyRoutable ep then new_link t ep zero_bind TransportUDP st else st)
            ([], linkIds) endpoints
  | _ => foldl (λ st ep, foldl (bound_link t fakeTCPEnabled ep) st binds) ([], linkIds) endpoints
  end.

(** Which of the present links stay, and the keys of the configured ones among them. *)
Definition keep_endpoint (keys : list endpointIdentity) (allowRemoteFakeTCP : bool)
    (st : list NylonEndpoint * list endpointIdentity) (ep : NylonEndpoint) : list NylonEndpoint * list endpointIdentity :=
  if ep_remoteInit ep then
    if bool_decide (ep_Transport ep = TransportFakeTCP) && negb allowRemoteFakeTCP then st else (st.1 ++ [ep], st.2)
  else if bool_decide (endpointKey ep ∈ keys) then (st.1 ++ [ep], endpointKey ep :: st.2)
  else st.

Definition reconcileConfiguredEndpoints (Eps desired : list NylonEndpoint) (allowRemoteFakeTCP : bool) : list NylonEndpoint :=
  let '(eps, seen) := foldl (keep_endpoint (endpointKey <$> desired) allowRemoteFakeTCP) ([], []) Eps in
  eps ++ filter (λ ep, endpointKey ep ∉ seen) desired.

End endpoints.

(** ** The node *)

Inductive ApplyResult := ApplyNoop | ApplyApplied | ApplyRejected | ApplyRestartRequired.

(** Commands to the operating system ([core/sys_*.go]); a failure is only logged. *)
Inductive SysCmd :=
| ConfigureAlias (addr : Addr)
| RemoveAlias (addr : Addr)
| ConfigureRoute (p : Prefix)
| RemoveRoute (p : Prefix).

Definition MaxPeers : Z := Z.shiftl 1 16.

Section app.
Context `{MR : MapRange} `{U : Unicode} `{TP : TextParsers} `{NT : NetText} `{HO : Host} `{PF : Platform}
  {T : Type → Type} `{BT : BartTable T} {C : Type → Type → Type} `{TC : TTLCache C}.

(** The node as reconciliation sees it, around the router of [RouterIO].  Health checks
    are handles; [app_health] has those of the prefixes of the local node in the current
    configuration. *)
Record App := mkApp {
  app_n : Nylon NylonEndpoint T C;
  app_linkIds : Z;
  app_PeerMap : gmap NyPublicKey NodeId;
  app_fakeTCPPeers : gset NodeId;
  app_health : gmap Prefix HealthRef;
  app_nextHealth : HealthRef;
  app_running : gset HealthRef;
  app_Peers : gmap NodeId NyPublicKey;
  app_Aliases : list Addr;
  app_Routes : list Prefix;
  app_nextPeer : Peer;
  app_endpoints : gmap Peer (list StdNetEndpoint);
  app_roaming : gset Peer;
  app_sys : list SysCmd;
}.

(** Replacing parts of the node. *)
Definition set_n a x := mkApp x (app_linkIds a) (app_PeerMap a) (app_fakeTCPPeers a) (app_health a) (app_nextHealth a)
  (app_running a) (app_Peers a) (app_Aliases a) (app_Routes a) (app_nextPeer a) (app_endpoints a) (app_roaming a) (app_sys a).
Definition set_links a n ids pm fake := mkApp n ids pm fake (app_health a) (app_nextHealth a)
  (app_running a) (app_Peers a) (app_Aliases a) (app_Routes a) (app_nextPeer a) (app_endpoints a) (app_roaming a) (app_sys a).
Definition set_health a n h next running := mkApp n (app_linkIds a) (app_PeerMap a) (app_fakeTCPPeers a) h next
  running (app_Peers a) (app_Aliases a) (app_Routes a) (app_nextPeer a) (app_endpoints a) (app_roaming a) (app_sys a).
Definition set_device a n ps next roaming := mkApp n (app_linkIds a) (app_PeerMap a) (app_fakeTCPPeers a) (app_health a)
  (app_nextHealth a) (app_running a) ps (app_Aliases a) (app_Routes a) next (app_endpoints a) roaming (app_sys a).
Definition set_endpoints a n eps := mkApp n (app_linkIds a) (app_PeerMap a) (app_fakeTCPPeers a) (app_health a)
  (app_nextHealth a) (app_running a) (app_Peers a) (app_Aliases a) (app_Routes a) (app_nextPeer a) eps (app_roaming a) (app_sys a).
Definition set_sys a aliases routes cmds := mkApp (app_n a) (app_linkIds a) (app_PeerMap a) (app_fakeTCPPeers a) (app_health a)
  (app_nextHealth a) (app_running a) (app_Peers a) aliases routes (app_nextPeer a) (app_endpoints a) (app_roaming a) cmds.

Definition set_cfg (n : Nylon NylonEndpoint T C) (c : CentralCfg) : Nylon NylonEndpoint T C :=
  mkNylon (ny_rs n) c (ny_LocalId n) (ny_AdvertiseExitNode n) (ny_ExitNode n) (ny_peers n) (ny_IO n)
    (ny_ForwardTable n) (ny_ExitTable n) (ny_NodeIdMap n) (ny_ExitFilter n).
Definition set_peers (n : Nylon NylonEndpoint T C) (ps : gmap NyPublicKey Peer) : Nylon NylonEndpoint T C :=
  mkNylon (ny_rs n) (ny_CentralCfg n) (ny_LocalId n) (ny_AdvertiseExitNode n) (ny_ExitNode n) ps (ny_IO n)
    (ny_ForwardTable n) (ny_ExitTable n) (ny_NodeIdMap n) (ny_ExitFilter n).

(** ** Neighbours *)

(** The local configuration does not change while the node runs. *)
Variable local : LocalCfg.

(** The peers that are routers, and those that speak fake TCP like this node. *)
Definition desired_peer (next : CentralCfg) (localTCP : bool) (st : gmap NodeId RouterCfg * gset NodeId) (peer : NodeId)
    : gmap NodeId RouterCfg * gset NodeId :=
  match GetRouter next peer with
  | None => st
  | Some cfg => (<[peer := cfg]> st.1, if localTCP && rc_TCPObfuscation cfg then {[peer]} ∪ st.2 else st.2)
  end.

(** The neighbours collected so far, with the peers that are left, the queues and the
    link counter. *)
Record neigh_scan := mkScan {
  ns_desired : gmap NodeId RouterCfg;
  ns_IO : gmap NodeId (IOPending C);
  ns_neighs : list (Neighbour NylonEndpoint);
  ns_ids : Z;
}.

Definition peer_endpoints (tun : RouterTunables) (mutual : bool) (cfg : RouterCfg) (ids : Z) : list NylonEndpoint * Z :=
  configuredEndpoints (lc_Binds local) (NewDynamicEndpoint <$> rc_Endpoints cfg) mutual tun ids.

Definition keep_neighbour (tun : RouterTunables) (localTCP : bool) (st : neigh_scan) (neigh : Neighbour NylonEndpoint) : neigh_scan :=
  match ns_desired st !! n_Id neigh with
  | None => mkScan (ns_desired st) (delete (n_Id neigh) (ns_IO st)) (ns_neighs st) (ns_ids st)
  | Some cfg =>
      let mutual := localTCP && rc_TCPObfuscation cfg in
      let '(eps, ids) := peer_endpoints tun mutual cfg (ns_ids st) in
      mkScan (delete (n_Id neigh) (ns_desired st)) (ns_IO st)
        (ns_neighs st ++ [mkNeighbour (n_Id neigh) (n_Routes neigh) (reconcileConfiguredEndpoints (n_Eps neigh) eps mutual)]) ids
  end.

Definition create_neighbour (tun : RouterTunables) (localTCP : bool) (desired : gmap NodeId RouterCfg)
    (st : list (Neighbour NylonEndpoint) * Z) (id : NodeId) : list (Neighbour NylonEndpoint) * Z :=
  match desired !! id with
  | None => st
  | Some cfg =>
      let '(eps, ids) := peer_endpoints tun (localTCP && rc_TCPObfuscation cfg) cfg st.2 in
      (st.1 ++ [mkNeighbour id ∅ eps], ids)
  end.

Definition peer_map (next : CentralCfg) : gmap NyPublicKey NodeId :=
  foldl (λ m n, <[nc_PubKey n := nc_Id n]> m) ∅ (GetNodes next).

(** [None] is the panic of [GetPeers] on a graph that cannot be parsed. *)
Definition reconcileRouterState (next : CentralCfg) (a : App) : option App :=
  let n := app_n a in
  let tun := rs_tun (ny_rs n) in
  let localTCP := match GetRouter next (ny_LocalId n) with Some r => rc_TCPObfuscation r | None => false end in
  peers ← GetPeers next (ny_LocalId n);
  let '(desired, fakeTCPPeers) := foldl (desired_peer next localTCP) (∅, ∅) peers in
  let st := foldl (keep_neighbour tun localTCP) (mkScan desired (ny_IO n) [] (app_linkIds a)) (rs_Neighbours (ny_rs n)) in
  let '(neighs, ids) := foldl (create_neighbour tun localTCP (ns_desired st)) (ns_neighs st, ns_ids st)
                          (Sort (map_range (ns_desired st)).*1) in
  Some (set_links a (set_IO (set_rs n (set_Neighbours (ny_rs n) neighs)) (ns_IO st)) ids (peer_map next) fakeTCPPeers).
(** ** Advertised prefixes and their health checks *)

(** [Start] fills in the defaults of a check and starts its monitor; a static prefix has none. *)
Definition health_Start (t : RouterTunables) (h : PrefixHealth) : PrefixHealth :=
  match h with
  | StaticPrefixHealth _ _ => h
  | PingPrefixHealth p addr f d b m =>
      PingPrefixHealth p addr (Some (prefixHealthMaxFailures f t)) (Some (prefixHealthDelay d t)) b m
  | HTTPPrefixHealth p u d m => HTTPPrefixHealth p u (Some (prefixHealthDelay d t)) m
  end.

Definition start_running (h : PrefixHealth) (ref : HealthRef) (running : gset HealthRef) : gset HealthRef :=
  if is_static h then running else {[ref]} ∪ running.

Definition set_prefixes (n : NodeCfg) (ps : list PrefixHealth) : NodeCfg :=
  mkNodeCfg (nc_Id n) (nc_PubKey n) (nc_Addresses n) ps (nc_NumericId n).

(** Writing through the pointer that [TryGetNode] returns. *)
Definition put_prefixes (c : CentralCfg) (id : NodeId) (ps : list PrefixHealth) : CentralCfg :=
  match list_find (λ r, rc_Id r = id) (c_Routers c) with
  | Some (i, r) => mkCentralCfg (<[i := mkRouterCfg (set_prefixes (rc_Node r) ps) (rc_Endpoints r) (rc_TCPObfuscation r)]> (c_Routers c))
                     (c_Clients c) (c_Graph c) (c_Timestamp c) (c_ExcludeIPs c) (c_Dist c)
  | None =>
      match list_find (λ r, cc_Id r = id) (c_Clients c) with
      | Some (i, r) => mkCentralCfg (c_Routers c) (<[i := mkClientCfg (set_prefixes (cc_Node r) ps)]> (c_Clients c))
                         (c_Graph c) (c_Timestamp c) (c_ExcludeIPs c) (c_Dist c)
      | None => c
      end
  end.

Definition current_local (a : App) : gmap Prefix (PrefixHealth * HealthRef) :=
  match TryGetNode (ny_CentralCfg (app_n a)) (ny_LocalId (app_n a)) with
  | None => ∅
  | Some cur => foldl (λ m p, match app_health a !! GetPrefix p with
                              | Some h => <[GetPrefix p := (p, h)]> m
                              | None => m
                              end) ∅ (nc_Prefixes cur)
  end.

Definition desired_local (ps : list PrefixHealth) : gmap Prefix nat :=
  foldl (λ m x, <[GetPrefix x.2 := x.1]> m) ∅ (imap pair ps).

(** Advertisements of the local node that are no longer wanted go, and their checks stop. *)
Definition drop_advertised (lid : NodeId) (desired : gmap Prefix nat) (current : gmap Prefix (PrefixHealth * HealthRef))
    (st : gmap Prefix Advertisement * gset HealthRef) (x : Prefix * Advertisement)
    : gmap Prefix Advertisement * gset HealthRef :=
  if negb (bool_decide (adv_NodeId x.2 = lid)) then st
  else match desired !! x.1 with
       | Some _ => st
       | None => (delete x.1 st.1, match current !! x.1 with Some (_, h) => st.2 ∖ {[h]} | None => st.2 end)
       end.

Record health_scan := mkHealthScan {
  hs_adv : gmap Prefix Advertisement;
  hs_running : gset HealthRef;
  hs_prefixes : list PrefixHealth;
  hs_health : gmap Prefix HealthRef;
  hs_next : HealthRef;
}.

(** A wanted prefix keeps its check if the configuration of the check is the same. *)
Definition advertise_prefix (lid : NodeId) (t : RouterTunables) (current : gmap Prefix (PrefixHealth * HealthRef))
    (st : health_scan) (x : Prefix * nat) : health_scan :=
  let '(prefix, index) := x in
  match hs_prefixes st !! index with
  | None => st
  | Some desired =>
      let advertise h := <[prefix := mkAdvertisement lid maxTime false (Some h) (Some h)]> (hs_adv st) in
      let restart running :=
        let h := hs_next st in
        mkHealthScan (advertise h) (start_running desired h running) (<[index := health_Start t desired]> (hs_prefixes st))
          (<[prefix := h]> (hs_health st)) (S h) in
      match current !! prefix with
      | Some (cur, h) =>
          if SameConfig (Health cur) (Health desired) t
          then mkHealthScan (advertise h) (hs_running st) (<[index := cur]> (hs_prefixes st)) (<[prefix := h]> (hs_health st)) (hs_next st)
          else restart (hs_running st ∖ {[h]})
      | None => restart (hs_running st)
      end
  end.

Definition reconcileAdvertisedPrefixes (next : CentralCfg) (a : App) : App * CentralCfg :=
  let n := app_n a in
  let s := ny_rs n in
  let current := current_local a in
  match TryGetNode next (ny_LocalId n) with
  | None => (a, next)
  | Some nextNode =>
      let desired := desired_local (nc_Prefixes nextNode) in
      let '(adv, running) := foldl (drop_advertised (ny_LocalId n) desired current) (rs_Advertised s, app_running a)
                               (map_range (rs_Advertised s)) in
      let st := foldl (advertise_prefix (ny_LocalId n) (rs_tun s) current)
                  (mkHealthScan adv running (nc_Prefixes nextNode) ∅ (app_nextHealth a)) (map_range desired) in
      (set_health a (set_rs n (set_Advertised s (hs_adv st))) (hs_health st) (hs_next st) (hs_running st),
       put_prefixes next (ny_LocalId n) (hs_prefixes st))
  end.

(** ** The WireGuard device *)

(** [RemovePeer] and [NewPeer] of the device; a peer is a fresh handle. *)
Definition RemovePeer (a : App) (pk : NyPublicKey) : App := set_n a (set_peers (app_n a) (delete pk (ny_peers (app_n a)))).

Definition NewPeer (a : App) (pk : NyPublicKey) : option (App * Peer) :=
  if MaxPeers <=? Z.of_nat (size (ny_peers (app_n a))) then None
  else match ny_peers (app_n a) !! pk with
       | Some _ => None
       | None => let peer := app_nextPeer a in
                 Some (set_device a (set_peers (app_n a) (<[pk := peer]> (ny_peers (app_n a)))) (app_Peers a) (S peer) (app_roaming a), peer)
       end.

(** The result of an operation: a panic, an error with the state it left, or success. *)
Inductive outcome := Panicked | Failed (a : App) | Done (a : App).

Definition and_do (r : outcome) (k : App → outcome) : outcome := match r with Done a => k a | _ => r end.

Definition remove_stale (desired : gmap NodeId NyPublicKey) (a : App) (x : NodeId * NyPublicKey) : App :=
  if decide (desired !! x.1 = Some x.2) then a
  else let a := RemovePeer a x.2 in
       set_device a (app_n a) (delete x.1 (app_Peers a)) (app_nextPeer a) (app_roaming a).

Definition add_peer (a : App) (peer : NodeId) : outcome :=
  let c := ny_CentralCfg (app_n a) in
  match GetNode c peer with
  | None => Panicked
  | Some ncfg =>
      match (match ny_peers (app_n a) !! nc_PubKey ncfg with
             | Some w => Some (a, w)
             | None => NewPeer a (nc_PubKey ncfg)
             end) with
      | None => Failed a
      | Some (a, w) =>
          Done (set_device a (app_n a) (<[peer := nc_PubKey ncfg]> (app_Peers a)) (app_nextPeer a)
                  (if IsClient c peer then {[w]} ∪ app_roaming a else app_roaming a))
      end
  end.

(** A loop that stops at a failure. *)
Definition for_each (f : App → NodeId → outcome) (l : list NodeId) (a : App) : outcome :=
  foldl (λ r x, and_do r (λ a, f a x)) (Done a) l.

(** The socket addresses of the links, in order of preference, and the links after they
    were asked. *)
Definition link_addresses (prepare : StdNetEndpoint → option bool) (links : list NylonEndpoint)
    : list NylonEndpoint * list StdNetEndpoint :=
  foldl (λ st ep, match GetWgEndpoint prepare ep with
                  | (ep, inr wg) => (st.1 ++ [ep], st.2 ++ [wg])
                  | (ep, inl _) => (st.1 ++ [ep], st.2)
                  end) ([], []) links.

(** Preference: [CompareEndpoints] is at most zero. *)
Definition preferred (now : Z) (x y : NylonEndpoint) : Prop :=
  match CompareEndpoints now x y with Some c => c <= 0 | None => True end.

#[export] Instance preferred_dec now : RelDecision (preferred now).
Proof. intros x y. unfold preferred. destruct (CompareEndpoints now x y); apply _. Defined.

(** Links are objects: what happened to one shows where it is listed. *)
Definition same_links (updated : list NylonEndpoint) (Eps : list NylonEndpoint) : list NylonEndpoint :=
  (λ ep, match list_find (λ u, ep_LinkId u = ep_LinkId ep) updated with Some (_, u) => u | None => ep end) <$> Eps.

(** What [Get] of an endpoint in the configuration answers; a name is resolved through
    the links that share it. *)
Variable config_Get : string → option AddrPort.

(** The configured addresses that no link has; an address that cannot be printed and read
    back is an error. *)
Definition add_configured (r : option (list StdNetEndpoint)) (ep : string) : option (list StdNetEndpoint) :=
  eps ← r;
  match config_Get ep with
  | None => Some eps
  | Some ap =>
      if existsb (λ e, bool_decide (se_AddrPort e = ap)) eps then Some eps
      else e ← ParseAddrPort (AddrPort_String ap); Some (eps ++ [mkStd e None TransportUDP])
  end.

Definition sync_peer_endpoints (prepare : StdNetEndpoint → option bool) (now : Z) (a : App) (peer : NodeId) : outcome :=
  let n := app_n a in
  let c := ny_CentralCfg n in
  if IsClient c peer then Done a
  else match GetRouter c peer with
       | None => Panicked
       | Some pcfg =>
           let '(n, eps) :=
             match GetNeighbour (ny_rs n) peer with
             | None => (n, [])
             | Some neigh =>
                 let '(links, eps) := link_addresses prepare (merge_sort (preferred now) (n_Eps neigh)) in
                 (set_rs n (put_neighbour (ny_rs n) peer (λ m, mkNeighbour (n_Id m) (n_Routes m) (same_links links (n_Eps m)))), eps)
             end in
           match foldl add_configured (Some eps) (rc_Endpoints pcfg) with
           | None => Failed (set_n a n)
           | Some eps =>
               Done (match ny_peers n !! nc_PubKey (rc_Node pcfg) with
                     | Some w => set_endpoints a n (<[w := eps]> (app_endpoints a))
                     | None => set_n a n
                     end)
           end
       end.

Definition syncWireGuardEndpoints (prepare : StdNetEndpoint → option bool) (now : Z) (a : App) : outcome :=
  match GetPeers (ny_CentralCfg (app_n a)) (ny_LocalId (app_n a)) with
  | None => Panicked
  | Some peers => for_each (sync_peer_endpoints prepare now) (Sort peers) a
  end.

Definition desired_keys (c : CentralCfg) (peers : list NodeId) : option (gmap NodeId NyPublicKey) :=
  foldl (λ r peer, m ← r; ncfg ← GetNode c peer; Some (<[peer := nc_PubKey ncfg]> m)) (Some ∅) peers.

Definition SyncWireGuard (prepare : StdNetEndpoint → option bool) (now : Z) (a : App) : outcome :=
  let c := ny_CentralCfg (app_n a) in
  match (peers ← GetPeers c (ny_LocalId (app_n a)); desired ← desired_keys c peers; Some (peers, desired)) with
  | None => Panicked
  | Some (peers, desired) =>
      let a := foldl (remove_stale desired) a (map_range (app_Peers a)) in
      and_do (for_each add_peer (Sort peers) a) (syncWireGuardEndpoints prepare now)
  end.

(** ** Addresses and routes of the operating system *)

Context {S : Type} `{IS : IPSets S}.

Definition syncAliases (desired : list Addr) (a : App) : App :=
  let added := ConfigureAlias <$> filter (.∉ app_Aliases a) desired in
  let removed := RemoveAlias <$> filter (.∉ desired) (app_Aliases a) in
  let flushed := negb (bool_decide (app_Aliases a = [])) && bool_decide (desired = []) && bool_decide (GOOS = "linux") in
  set_sys a desired (if flushed then [] else app_Routes a) (app_sys a ++ added ++ removed).

Definition route_policy (c : CentralCfg) : RoutePolicy :=
  mkPolicy (c_ExcludeIPs c) (lc_UnexcludeIPs local) (lc_ExcludeIPs local) (lc_ExitNode local) (lc_ExitNodeDefaultRoute local).

Definition syncSystemRoutes (a : App) : outcome :=
  let n := app_n a in
  match ComputeSysRouteTable (S := S) (ny_LocalId n) (route_policy (ny_CentralCfg n)) (rs_Routes (ny_rs n)) with
  | None => Panicked
  | Some newEntries =>
      let removed := RemoveRoute <$> filter (.∉ newEntries) (app_Routes a) in
      let added := ConfigureRoute <$> filter (.∉ app_Routes a) newEntries in
      Done (set_sys a (app_Aliases a) newEntries (app_sys a ++ removed ++ added))
  end.

Definition SyncSystemState (a : App) : outcome :=
  if lc_NoNetConfigure local then Done a
  else match GetRouter (ny_CentralCfg (app_n a)) (ny_LocalId (app_n a)) with
       | None => Panicked
       | Some r => syncSystemRoutes (syncAliases (nc_Addresses (rc_Node r)) a)
       end.

(** The periodic task of the device. *)
Definition UpdateWireGuard (prepare : StdNetEndpoint → option bool) (now : Z) (a : App) : outcome :=
  and_do (syncWireGuardEndpoints prepare now a) SyncSystemState.

(** ** Applying a configuration *)

(** [Clone] writes a configuration as YAML and reads it back. *)
Variable Clone : ReadCfg → option ReadCfg.

(** [reflect.DeepEqual(n.CentralCfg, next)] compares a structure with a pointer: values of
    different types are never deeply equal. *)
Definition DeepEqual_cfg (current next : CentralCfg) : bool := false.

Definition tcp_obfuscation_of (c : CentralCfg) (id : NodeId) : bool :=
  match GetRouter c id with Some r => rc_TCPObfuscation r | None => false end.

(** The part after the checks. *)
Definition apply_next (prepare : StdNetEndpoint → option bool) (e : Env) (next : CentralCfg) (a : App) : option (App * ApplyResult) :=
  a ← reconcileRouterState next a;
  let '(a, next) := reconcileAdvertisedPrefixes next a in
  let a := set_n a (set_cfg (app_n a) next) in
  match refreshNodeBindings (app_n a) with
  | inl _ => Some (a, ApplyRejected)
  | inr n =>
      match and_do (SyncWireGuard prepare (env_now e) (set_n a n)) SyncSystemState with
      | Panicked => None
      | Failed a => Some (a, ApplyRejected)
      | Done a =>
          n ← run (env_now e) (app_n a) (ComputeRoutes e (ny_rs (app_n a)));
          Some (set_n a n, ApplyApplied)
      end
  end.

(** An accepted configuration has no wrapper left without a check
    ([ValidationProps.accepted_checked]), so that [checked] is defined. *)
Definition ApplyCentralConfig (prepare : StdNetEndpoint → option bool) (e : Env) (cfg : ReadCfg) (a : App)
    : option (App * ApplyResult) :=
  let lid := ny_LocalId (app_n a) in
  let current := ny_CentralCfg (app_n a) in
  match Clone cfg with
  | None => Some (a, ApplyRejected)
  | Some next =>
      next ← ExpandCentralConfig next;
      match CentralConfigValidator next with
      | Panic => None
      | Reject _ => Some (a, ApplyRejected)
      | Accept =>
          next ← checked next;
          if negb (IsRouter next lid) then Some (a, ApplyRestartRequired)
          else if negb (IsRouter current lid) then Some (a, ApplyRestartRequired)
          else if negb (eqb (tcp_obfuscation_of current lid) (tcp_obfuscation_of next lid)) then Some (a, ApplyRestartRequired)
          else if DeepEqual_cfg current next then Some (a, ApplyNoop)
          else apply_next prepare e next a
      end
  end.

End app.
