(* ===== verification/HealthProps.v ===== *)
(** The health checks of the advertised prefixes across a configuration change: which
    monitors run, which prefixes the node advertises and with which check. *)

From S2P Require Import Prelude NetIP Metric Routing Endpoint Config External RouterIO Validation Reconcile.

(** ** Checks *)

Lemma SameConfig_GetPrefix p q t : SameConfig (Health p) (Health q) t = true → GetPrefix p = GetPrefix q.
Proof. destruct p, q; cbn; try done; intros H; repeat apply andb_prop in H as [H ?]; by apply bool_decide_eq_true in H. Qed.

Lemma SameConfig_static p q t : SameConfig (Health p) (Health q) t = true → is_static p = is_static q.
Proof. by destruct p, q. Qed.

Lemma health_Start_GetPrefix t h : GetPrefix (health_Start t h) = GetPrefix h.
Proof. by destruct h. Qed.

Lemma health_Start_static t h : is_static (health_Start t h) = is_static h.
Proof. by destruct h. Qed.

(** The check that the new configuration ends up with for a prefix: the running one if
    it is configured alike. *)
Definition chosen (t : RouterTunables) (current : gmap Prefix (PrefixHealth * HealthRef)) (d : PrefixHealth) : PrefixHealth :=
  match current !! GetPrefix d with
  | Some (c, _) => if SameConfig (Health c) (Health d) t then c else health_Start t d
  | None => health_Start t d
  end.

Lemma chosen_GetPrefix t current d : GetPrefix (chosen t current d) = GetPrefix d.
Proof.
  unfold chosen. destruct (current !! GetPrefix d) as [[c h]|]; [|apply health_Start_GetPrefix].
  destruct (SameConfig (Health c) (Health d) t) eqn:E; [by eapply SameConfig_GetPrefix|apply health_Start_GetPrefix].
Qed.

Lemma chosen_static t current d : is_static (chosen t current d) = is_static d.
Proof.
  unfold chosen. destruct (current !! GetPrefix d) as [[c h]|]; [|apply health_Start_static].
  destruct (SameConfig (Health c) (Health d) t) eqn:E; [by eapply SameConfig_static|apply health_Start_static].
Qed.

Lemma elem_of_start_running d next running h : h ∈ start_running d next running ↔ (is_static d = false ∧ h = next) ∨ h ∈ running.
Proof. unfold start_running. destruct (is_static d); [naive_solver|]. rewrite elem_of_union, elem_of_singleton. naive_solver. Qed.

(** ** Loops *)

Lemma desired_local_spec ps p i : NoDup (GetPrefix <$> ps) →
  desired_local ps !! p = Some i ↔ ∃ d, ps !! i = Some d ∧ GetPrefix d = p.
Proof.
  unfold desired_local.
  assert (∀ l (m : gmap Prefix nat) (f : nat → nat), NoDup (GetPrefix <$> l) →
    foldl (λ m x, <[GetPrefix x.2 := x.1]> m) m (imap (λ i d, (f i, d)) l) !! p = Some i ↔
    (∃ j d, l !! j = Some d ∧ GetPrefix d = p ∧ f j = i) ∨ (p ∉ GetPrefix <$> l) ∧ m !! p = Some i) as H.
  { induction l as [|d l IH]; intros m f Hnd; cbn.
    { split; [intros ?; right; split; [apply not_elem_of_nil|done]|]. intros [(j & d & ? & _)|[_ ?]]; [by rewrite lookup_nil in *|done]. }
    apply NoDup_cons in Hnd as [Hd Hnd]. rewrite (IH _ (f ∘ S) Hnd), not_elem_of_cons. split.
    - intros [(j & d' & Hj & Hp & Hf)|[Hn Hm]]; [left; by exists (S j), d'|].
      apply lookup_insert_Some in Hm as [[Hp Hf]|[Hp Hm]]; [left; by exists 0%nat, d|right; done].
    - intros [([|j] & d' & Hj & Hp & Hf)|[[Hp Hn] Hm]]; [cbn in Hj..|].
      + right. injection Hj as ->. subst p. split; [done|]. by rewrite lookup_insert_eq, <-Hf.
      + left. by exists j, d'.
      + right. split; [done|]. by rewrite lookup_insert_ne. }
  intros Hnd. rewrite (H ps ∅ id Hnd). split.
  - intros [(j & d & Hj & Hp & <-)|[_ Hm]]; [by exists d|by rewrite lookup_empty in Hm].
  - intros (d & Hi & Hp). left. by exists i, d.
Qed.

Lemma current_fold (health : gmap Prefix HealthRef) (l : list PrefixHealth) (m : gmap Prefix (PrefixHealth * HealthRef)) p c h :
  NoDup (GetPrefix <$> l) →
  foldl (λ m p, match health !! GetPrefix p with Some h => <[GetPrefix p := (p, h)]> m | None => m end) m l !! p = Some (c, h) ↔
  (c ∈ l ∧ GetPrefix c = p ∧ health !! p = Some h) ∨ (p ∉ GetPrefix <$> l ∨ health !! p = None) ∧ m !! p = Some (c, h).
Proof.
  revert m. induction l as [|d l IH]; intros m Hl; cbn.
  { split; [intros ?; right; split; [left; apply not_elem_of_nil|done]|]. intros [[[]%not_elem_of_nil _]|[_ ?]]. done. }
  apply NoDup_cons in Hl as [Hd Hl]. rewrite (IH _ Hl), not_elem_of_cons, elem_of_cons.
  destruct (decide (p = GetPrefix d)) as [->|Hne].
  - destruct (health !! GetPrefix d) as [h'|] eqn:Eh; [|naive_solver].
    rewrite lookup_insert_eq. split.
    + intros [(Hin & Hp & _)|[_ Heq]]; [|by simplify_eq; left; split; [left|]].
      destruct Hd. rewrite <-Hp. by apply list_elem_of_fmap_2.
    + intros [([->|Hin] & Hp & Heq)|[[[? _]|?] _]]; [| |done|done].
      * right. split; [by left|]. by simplify_eq.
      * destruct Hd. rewrite <-Hp. by apply list_elem_of_fmap_2.
  - destruct (health !! GetPrefix d) as [h'|] eqn:Eh; [rewrite lookup_insert_ne by done|]; naive_solver.
Qed.

Section health.
Context `{MR : MapRange} {T : Type → Type} {C : Type → Type → Type}.
Implicit Types (a : App (T := T) (C := C)) (adv : gmap Prefix Advertisement) (running : gset HealthRef)
  (current : gmap Prefix (PrefixHealth * HealthRef)).

Lemma current_local_spec a cur p c h : TryGetNode (ny_CentralCfg (app_n a)) (ny_LocalId (app_n a)) = Some cur →
  NoDup (GetPrefix <$> nc_Prefixes cur) →
  current_local a !! p = Some (c, h) ↔ c ∈ nc_Prefixes cur ∧ GetPrefix c = p ∧ app_health a !! p = Some h.
Proof.
  intros Hcur Hnd. unfold current_local. rewrite Hcur.
  rewrite (current_fold (app_health a) _ ∅ p c h Hnd), lookup_empty. naive_solver.
Qed.

(** An advertisement of the local node that is not wanted any more. *)
Definition gone (lid : NodeId) (desired : gmap Prefix nat) adv (p : Prefix) : Prop :=
  ∃ x, adv !! p = Some x ∧ adv_NodeId x = lid ∧ desired !! p = None.

Lemma gone_insert lid desired adv k v p : adv !! k = None →
  gone lid desired (<[k:=v]> adv) p ↔ (p = k ∧ adv_NodeId v = lid ∧ desired !! k = None) ∨ gone lid desired adv p.
Proof.
  intros Hk. unfold gone. destruct (decide (k = p)) as [<-|Hne].
  - rewrite lookup_insert_eq, Hk. naive_solver.
  - rewrite lookup_insert_ne by done. naive_solver.
Qed.

(** The first loop: what is not wanted any more is not advertised, and its monitor stops. *)
Lemma drop_advertised_spec lid desired current adv running :
  let r := foldl (drop_advertised lid desired current) (adv, running) (map_range adv) in
  (∀ p, gone lid desired adv p → r.1 !! p = None) ∧ (∀ p, ¬ gone lid desired adv p → r.1 !! p = adv !! p) ∧
  (∀ h, h ∈ r.2 ↔ h ∈ running ∧ ¬ ∃ p c, gone lid desired adv p ∧ current !! p = Some (c, h)).
Proof.
  cbn zeta. apply (foldl_map_range_ind (λ m (r : gmap Prefix Advertisement * gset HealthRef),
    (∀ p, gone lid desired m p → r.1 !! p = None) ∧ (∀ p, ¬ gone lid desired m p → r.1 !! p = adv !! p) ∧
    (∀ h, h ∈ r.2 ↔ h ∈ running ∧ ¬ ∃ p c, gone lid desired m p ∧ current !! p = Some (c, h)))).
  - split; [intros p (x & Hx & _); by rewrite lookup_empty in Hx|]. split; [done|]. intros h. split; [|by intros [? _]].
    intros Hh. split; [done|]. intros (p & c & (x & Hx & _) & _). by rewrite lookup_empty in Hx.
  - intros k v m [r1 r2] Hm Hadv _ (I1 & I2 & I3). cbn [fst snd] in *.
    assert (¬ gone lid desired m k) as Hk by (intros (x & Hx & _); congruence).
    pose proof (λ p, gone_insert lid desired m k v p Hm) as Hg. unfold drop_advertised. cbn [fst snd].
    case_bool_decide as Hl; cbn [negb]; [destruct (desired !! k) eqn:Ed|]; cbn [fst snd].
    1, 3: split_and!; [intros p; rewrite Hg; naive_solver|intros p; rewrite Hg; naive_solver|];
      intros h; rewrite I3; setoid_rewrite Hg; naive_solver.
    split_and!.
    + intros p Hp%Hg. destruct (decide (k = p)) as [<-|Hne]; [apply lookup_delete_eq|].
      rewrite lookup_delete_ne by done. naive_solver.
    + intros p Hp. rewrite Hg in Hp. rewrite lookup_delete_ne by naive_solver. apply I2. tauto.
    + intros h. destruct (current !! k) as [[c h']|] eqn:Ec; [rewrite elem_of_difference, elem_of_singleton|];
        rewrite I3; setoid_rewrite Hg; naive_solver.
Qed.

(** The second loop: the wanted prefixes [ps] are advertised, with the check that runs
    already where it is configured alike. *)
Section advertise.
Context (lid : NodeId) (t : RouterTunables) (current : gmap Prefix (PrefixHealth * HealthRef)) (ps : list PrefixHealth)
  (next0 : HealthRef) (running0 : gset HealthRef) (adv0 : gmap Prefix Advertisement).
Hypothesis ps_nodup : NoDup (GetPrefix <$> ps).
Hypothesis current_old : ∀ p c h, current !! p = Some (c, h) → (h < next0)%nat.

Definition keeps (p : Prefix) (c : PrefixHealth) : Prop := ∃ d, d ∈ ps ∧ GetPrefix d = p ∧ SameConfig (Health c) (Health d) t = true.

Record advertised (m : gmap Prefix nat) (st : health_scan) : Prop := {
  ai_dom : ∀ p, is_Some (hs_health st !! p) ↔ is_Some (m !! p);
  ai_health : ∀ p h, hs_health st !! p = Some h →
    (∃ c, current !! p = Some (c, h) ∧ keeps p c) ∨
    ((next0 <= h < hs_next st)%nat ∧ ∀ c h', current !! p = Some (c, h') → ¬ keeps p c);
  ai_fresh : ∀ p q h, hs_health st !! p = Some h → hs_health st !! q = Some h → (next0 <= h)%nat → p = q;
  ai_next : (next0 <= hs_next st)%nat;
  ai_running : ∀ h, h ∈ hs_running st ↔
    (h ∈ running0 ∧ ¬ ∃ p c, is_Some (m !! p) ∧ current !! p = Some (c, h) ∧ ¬ keeps p c) ∨
    ((next0 <= h)%nat ∧ ∃ d, hs_health st !! GetPrefix d = Some h ∧ d ∈ ps ∧ is_static d = false);
  ai_adv : ∀ p, hs_adv st !! p =
    match hs_health st !! p with Some h => Some (mkAdvertisement lid maxTime false (Some h) (Some h)) | None => adv0 !! p end;
  ai_prefixes : ∀ i, hs_prefixes st !! i =
    (λ d, if decide (is_Some (m !! GetPrefix d)) then chosen t current d else d) <$> ps !! i;
}.

Lemma keeps_unique d c : d ∈ ps → keeps (GetPrefix d) c ↔ SameConfig (Health c) (Health d) t = true.
Proof.
  intros Hd. split; [|by exists d]. intros (d' & Hd' & Hp & Hs).
  assert (d = d') as -> by (by apply (NoDup_fmap_unique GetPrefix ps)). done.
Qed.

Lemma prefixes_step m st i d v : advertised m st → ps !! i = Some d → m !! GetPrefix d = None → v = chosen t current d →
  ∀ j, <[i := v]> (hs_prefixes st) !! j =
    (λ d', if decide (is_Some (<[GetPrefix d := i]> m !! GetPrefix d')) then chosen t current d' else d') <$> ps !! j.
Proof.
  intros HI Hi Hm -> j. destruct (decide (i = j)) as [<-|Hne].
  - rewrite list_lookup_insert_eq, Hi; cbn.
    + by rewrite lookup_insert_eq, decide_True by done.
    + apply lookup_lt_is_Some. rewrite (ai_prefixes _ _ HI), Hi. by eexists.
  - rewrite list_lookup_insert_ne, (ai_prefixes _ _ HI) by done. destruct (ps !! j) as [d'|] eqn:Ej; [|done]. cbn.
    rewrite (lookup_insert_ne _ (GetPrefix d)); [done|]. intros Heq. apply Hne.
    apply (NoDup_lookup (GetPrefix <$> ps) i j (GetPrefix d)); [done|..]; rewrite list_lookup_fmap, ?Hi, ?Ej; cbn; congruence.
Qed.

(** A prefix whose check goes on. *)
Lemma advertised_keep m st i d c h : advertised m st → ps !! i = Some d → m !! GetPrefix d = None →
  current !! GetPrefix d = Some (c, h) → SameConfig (Health c) (Health d) t = true →
  advertised (<[GetPrefix d := i]> m)
    (mkHealthScan (<[GetPrefix d := mkAdvertisement lid maxTime false (Some h) (Some h)]> (hs_adv st)) (hs_running st)
       (<[i := c]> (hs_prefixes st)) (<[GetPrefix d := h]> (hs_health st)) (hs_next st)).
Proof.
  intros HI Hi Hm Hc Hs. pose proof (list_elem_of_lookup_2 _ _ _ Hi) as Hd. pose proof (current_old _ _ _ Hc) as Hold.
  assert (hs_health st !! GetPrefix d = None) as Hh.
  { apply eq_None_not_Some. by rewrite (ai_dom _ _ HI), Hm, <-eq_None_not_Some. }
  assert (keeps (GetPrefix d) c) as Hk by (by apply keeps_unique).
  split; cbn [hs_adv hs_running hs_prefixes hs_health hs_next].
  - intros p. rewrite !lookup_insert_is_Some', (ai_dom _ _ HI). done.
  - intros p h' [[<- <-]|[Hne Hp]]%lookup_insert_Some; [left; by exists c|by apply (ai_health _ _ HI)].
  - intros p q h' [[<- Hp]|[Hne Hp]]%lookup_insert_Some [[<- Hq]|[Hne' Hq]]%lookup_insert_Some Hlt; [lia..|].
    by eapply (ai_fresh _ _ HI).
  - apply HI.
  - intros h'. rewrite (ai_running _ _ HI). setoid_rewrite lookup_insert_is_Some'.
    assert (∀ d', (next0 <= h')%nat → <[GetPrefix d:=h]> (hs_health st) !! GetPrefix d' = Some h' ↔ hs_health st !! GetPrefix d' = Some h') as Hx.
    { intros d' Hlt. rewrite lookup_insert_Some. split; [intros [[_ ->]|[_ ?]]; [lia|done]|].
      intros Hd'. right. split; [congruence|done]. }
    split; (intros [[Hr Hn]|(Hlt & d' & Hd')]; [left; split; [done|]|right; split; [done|]; exists d'; by rewrite Hx in *]).
    + intros (p & c' & [<-|Hp] & Hc' & Hk'); [|by apply Hn; exists p, c']. by simplify_eq.
    + intros (p & c' & Hp & Hc' & Hk'). apply Hn. exists p, c'. by split; [right|].
  - intros p. destruct (decide (GetPrefix d = p)) as [<-|Hne]; [by rewrite !lookup_insert_eq|].
    rewrite !lookup_insert_ne by done. apply HI.
  - apply prefixes_step; [done..|]. unfold chosen. by rewrite Hc, Hs.
Qed.

(** A prefix whose check starts. *)
Lemma advertised_start m st i d running : advertised m st → ps !! i = Some d → m !! GetPrefix d = None →
  (∀ c h, current !! GetPrefix d = Some (c, h) → SameConfig (Health c) (Health d) t = false) →
  (∀ h, h ∈ running ↔ h ∈ hs_running st ∧ ∀ c, current !! GetPrefix d ≠ Some (c, h)) →
  advertised (<[GetPrefix d := i]> m)
    (mkHealthScan (<[GetPrefix d := mkAdvertisement lid maxTime false (Some (hs_next st)) (Some (hs_next st))]> (hs_adv st))
       (start_running d (hs_next st) running) (<[i := health_Start t d]> (hs_prefixes st))
       (<[GetPrefix d := hs_next st]> (hs_health st)) (S (hs_next st))).
Proof.
  intros HI Hi Hm Hc Hr. pose proof (list_elem_of_lookup_2 _ _ _ Hi) as Hd. pose proof (ai_next _ _ HI) as Hnext.
  assert (hs_health st !! GetPrefix d = None) as Hh.
  { apply eq_None_not_Some. by rewrite (ai_dom _ _ HI), Hm, <-eq_None_not_Some. }
  assert (∀ p h, hs_health st !! p = Some h → (h < hs_next st)%nat) as Hlt.
  { intros p h [(c & Hp & _)|[? _]]%(ai_health _ _ HI); [apply current_old in Hp|]; lia. }
  assert (∀ c h, current !! GetPrefix d = Some (c, h) → ¬ keeps (GetPrefix d) c) as Hk.
  { intros c h Hcur Hk%keeps_unique; [|done]. by rewrite (Hc c h Hcur) in Hk. }
  split; cbn [hs_adv hs_running hs_prefixes hs_health hs_next].
  - intros p. rewrite !lookup_insert_is_Some', (ai_dom _ _ HI). done.
  - intros p h' [[<- <-]|[Hne Hp]]%lookup_insert_Some; [right; split; [lia|done]|].
    destruct (ai_health _ _ HI _ _ Hp) as [?|[? ?]]; [by left|right; split; [lia|done]].
  - intros p q h' [[<- <-]|[Hne Hp]]%lookup_insert_Some [[<- Hq]|[Hne' Hq]]%lookup_insert_Some Hle; subst; [done| | |].
    + apply Hlt in Hq. lia.
    + apply Hlt in Hp. lia.
    + by eapply (ai_fresh _ _ HI).
  - lia.
  - intros h'. rewrite elem_of_start_running, Hr, (ai_running _ _ HI). setoid_rewrite lookup_insert_is_Some'.
    setoid_rewrite lookup_insert_Some. split.
    + intros [[Hs ->]|[[[Hr0 Hn]|(Hle & d' & Hh' & Hd')] Hcur]].
      * right. split; [done|]. exists d. by split; [left|].
      * left. split; [done|]. intros (p & c & [<-|Hp] & Hp' & Hk'); [by eapply Hcur|by apply Hn; exists p, c].
      * right. split; [done|]. exists d'. split; [right|done]. split; [congruence|done].
    + intros [[Hr0 Hn]|(Hle & d' & [[Hp <-]|[Hp Hh']] & Hd' & Hs)].
      * right. split; [left; split; [done|]|].
        -- intros (p & c & Hp & Hk'). apply Hn. exists p, c. by split; [right|].
        -- intros c Hcur. apply Hn. exists (GetPrefix d), c. split_and!; [by left|done|by eapply Hk].
      * left. split; [|done]. by rewrite (NoDup_fmap_unique GetPrefix ps d d').
      * right. split; [right; split; [done|]; by exists d'|]. intros c Hcur%current_old. lia.
  - intros p. destruct (decide (GetPrefix d = p)) as [<-|Hne]; [by rewrite !lookup_insert_eq|].
    rewrite !lookup_insert_ne by done. apply HI.
  - apply prefixes_step; [done..|]. unfold chosen. destruct (current !! GetPrefix d) as [[c h]|] eqn:E; [|done].
    by rewrite (Hc c h eq_refl).
Qed.

Lemma advertised_init : advertised ∅ (mkHealthScan adv0 running0 ps ∅ next0).
Proof.
  split; cbn [hs_adv hs_running hs_prefixes hs_health hs_next]; try setoid_rewrite lookup_empty; try done; [|].
  - intros h. split; [intros ?; left; split; [done|]; by intros (p & c & []%is_Some_None & _)|].
    intros [[? _]|(_ & d & ? & _)]; done.
  - intros i. destruct (ps !! i); [|done]. cbn. by rewrite lookup_empty, decide_False by apply is_Some_None.
Qed.

Lemma advertise_prefix_fold :
  advertised (desired_local ps) (foldl (advertise_prefix lid t current) (mkHealthScan adv0 running0 ps ∅ next0) (map_range (desired_local ps))).
Proof.
  apply foldl_map_range_ind; [apply advertised_init|]. intros k i m st Hm Hd _ HI.
  apply desired_local_spec in Hd as (d & Hi & <-); [|done]. cbn [advertise_prefix].
  rewrite (ai_prefixes _ _ HI), Hi. cbn [fmap option_fmap option_map].
  rewrite decide_False by (rewrite Hm; apply is_Some_None).
  destruct (current !! GetPrefix d) as [[c h]|] eqn:Ec; [destruct (SameConfig (Health c) (Health d) t) eqn:Es|].
  - by apply advertised_keep.
  - apply advertised_start; [done..|naive_solver|]. intros h'. rewrite elem_of_difference, elem_of_singleton, Ec. naive_solver.
  - apply advertised_start; [done..|naive_solver|]. intros h'. rewrite Ec. naive_solver.
Qed.

End advertise.

(** The prefixes [ps] of the local node are what it advertises for itself, each with the
    handle of its check, and the monitors that run are those of the checks that probe. *)
Record checks_ok (lid : NodeId) (ps : list PrefixHealth) adv (health : gmap Prefix HealthRef) (next : HealthRef) running : Prop := {
  hc_nodup : NoDup (GetPrefix <$> ps);
  hc_dom : ∀ p, is_Some (health !! p) ↔ p ∈ GetPrefix <$> ps;
  hc_inj : ∀ p q h, health !! p = Some h → health !! q = Some h → p = q;
  hc_next : ∀ p h, health !! p = Some h → (h < next)%nat;
  hc_running : ∀ h, h ∈ running ↔ ∃ d, d ∈ ps ∧ health !! GetPrefix d = Some h ∧ is_static d = false;
  hc_adv : ∀ p h, health !! p = Some h →
    ∃ e, adv !! p = Some (mkAdvertisement lid maxTime false (Some h) e) ∧ (e = None ∨ e = Some h);
  hc_local : ∀ p x, adv !! p = Some x → adv_NodeId x = lid → is_Some (health !! p);
}.

(** Both loops together, after the current checks [ps0] and for the wanted ones [ps]. *)
Section both.
Context (lid : NodeId) (t : RouterTunables) (current : gmap Prefix (PrefixHealth * HealthRef)) (ps0 ps : list PrefixHealth)
  (adv : gmap Prefix Advertisement) (health : gmap Prefix HealthRef) (next : HealthRef) (running : gset HealthRef)
  (adv0 : gmap Prefix Advertisement) (running0 : gset HealthRef) (st : health_scan).
Hypothesis HC : checks_ok lid ps0 adv health next running.
Hypothesis Hnd : NoDup (GetPrefix <$> ps).
Hypothesis Hcl : ∀ p c h, current !! p = Some (c, h) ↔ c ∈ ps0 ∧ GetPrefix c = p ∧ health !! p = Some h.
Hypothesis D1 : ∀ p, gone lid (desired_local ps) adv p → adv0 !! p = None.
Hypothesis D2 : ∀ p, ¬ gone lid (desired_local ps) adv p → adv0 !! p = adv !! p.
Hypothesis D3 : ∀ h, h ∈ running0 ↔ h ∈ running ∧ ¬ ∃ p c, gone lid (desired_local ps) adv p ∧ current !! p = Some (c, h).
Hypothesis HA : advertised lid t current ps next running0 adv0 (desired_local ps) st.

Lemma desired_dom p : is_Some (desired_local ps !! p) ↔ p ∈ GetPrefix <$> ps.
Proof.
  unfold is_Some. setoid_rewrite desired_local_spec; [|done]. rewrite list_elem_of_fmap. split.
  - intros (i & d & Hi & <-). exists d. split; [done|]. by eapply list_elem_of_lookup_2.
  - intros (d & -> & [i Hi]%list_elem_of_lookup). by exists i, d.
Qed.

Lemma chosen_prefixes : GetPrefix <$> (chosen t current <$> ps) = GetPrefix <$> ps.
Proof. rewrite <-list_fmap_compose. apply list_fmap_ext. intros i d _. apply chosen_GetPrefix. Qed.

Lemma handle_stays c d h : current !! GetPrefix d = Some (c, h) → d ∈ ps →
  hs_health st !! GetPrefix d = Some h ↔ SameConfig (Health c) (Health d) t = true.
Proof.
  intros Hc Hd. rewrite <-(keeps_unique t ps Hnd d c Hd).
  destruct (ai_dom _ _ _ _ _ _ _ _ _ HA (GetPrefix d)) as [_ [h' Hh']]; [by apply desired_dom, list_elem_of_fmap_2|].
  rewrite Hh'. pose proof (ai_health _ _ _ _ _ _ _ _ _ HA _ _ Hh') as [(c' & Hc' & Hk)|[Hlt Hk]].
  - rewrite Hc in Hc'. by simplify_eq.
  - split; [|intros Hk'; by destruct (Hk c h)]. intros [= ->]. apply Hcl in Hc as (_ & _ & Hh). apply (hc_next _ _ _ _ _ _ HC) in Hh. lia.
Qed.

Lemma running_reconciled h : h ∈ hs_running st ↔ ∃ d, d ∈ ps ∧ hs_health st !! GetPrefix d = Some h ∧ is_static d = false.
Proof.
  rewrite (ai_running _ _ _ _ _ _ _ _ _ HA), D3, (hc_running _ _ _ _ _ _ HC). split.
  - intros [[[(c & Hc & Hh & Hs) Hg] Hk]|(_ & d & ? & ? & ?)]; [|by exists d].
    assert (current !! GetPrefix c = Some (c, h)) as Hcur by (by apply Hcl).
    destruct (hc_adv _ _ _ _ _ _ HC _ _ Hh) as (e & He & _).
    assert (is_Some (desired_local ps !! GetPrefix c)) as Hdes.
    { destruct (desired_local ps !! GetPrefix c) eqn:E; [by eexists|]. destruct Hg. exists (GetPrefix c), c. split; [|done]. by eexists. }
    pose proof Hdes as (d & Hp & Hd)%desired_dom%list_elem_of_fmap. rewrite Hp in *.
    assert (SameConfig (Health c) (Health d) t = true) as Hsc.
    { destruct (SameConfig (Health c) (Health d) t) eqn:E; [done|]. destruct Hk. exists (GetPrefix d), c. split_and!; [done..|].
      intros Hk%keeps_unique; [|done..]. congruence. }
    exists d. split_and!; [done|by apply (handle_stays c)|by rewrite <-(SameConfig_static _ _ _ Hsc)].
  - intros (d & Hd & Hh & Hs). pose proof (ai_health _ _ _ _ _ _ _ _ _ HA _ _ Hh) as [(c & Hc & Hk)|[? _]]; [left|right; split; [lia|by exists d]].
    apply keeps_unique in Hk; [|done..]. pose proof Hc as (Hin & Hp & Hh0)%Hcl.
    assert (∀ p c', current !! p = Some (c', h) → p = GetPrefix d ∧ c' = c) as Huniq.
    { intros p c' Hc'. pose proof Hc' as (_ & _ & Hp')%Hcl. assert (p = GetPrefix d) as -> by (by eapply hc_inj). by simplify_eq. }
    split_and!.
    + exists c. rewrite Hp. split_and!; [done..|]. by rewrite (SameConfig_static _ _ _ Hk).
    + intros (p & c' & (x & _ & _ & Hnone) & [-> ->]%Huniq). apply eq_None_not_Some in Hnone. apply Hnone, desired_dom. by apply list_elem_of_fmap_2.
    + intros (p & c' & _ & [-> ->]%Huniq & []). by exists d.
Qed.

Lemma checks_reconciled : checks_ok lid (chosen t current <$> ps) (hs_adv st) (hs_health st) (hs_next st) (hs_running st).
Proof.
  assert (∀ p c h, current !! p = Some (c, h) → (h < next)%nat) as Hold by (intros p c h (_ & _ & Hh)%Hcl; by eapply hc_next).
  split.
  - by rewrite chosen_prefixes.
  - intros p. by rewrite chosen_prefixes, (ai_dom _ _ _ _ _ _ _ _ _ HA), desired_dom.
  - intros p q h Hp Hq. destruct (decide (next <= h)%nat) as [Hle|Hgt]; [by eapply (ai_fresh _ _ _ _ _ _ _ _ _ HA)|].
    apply (ai_health _ _ _ _ _ _ _ _ _ HA) in Hp as [(c & (_ & _ & Hp)%Hcl & _)|[? _]]; [|lia].
    apply (ai_health _ _ _ _ _ _ _ _ _ HA) in Hq as [(c' & (_ & _ & Hq)%Hcl & _)|[? _]]; [|lia]. by eapply hc_inj.
  - intros p h Hp. pose proof (ai_next _ _ _ _ _ _ _ _ _ HA).
    apply (ai_health _ _ _ _ _ _ _ _ _ HA) in Hp as [(c & Hc%Hold & _)|[? _]]; lia.
  - intros h. rewrite running_reconciled. setoid_rewrite list_elem_of_fmap. split.
    + intros (d & Hd & Hh & Hs). exists (chosen t current d). rewrite chosen_GetPrefix, chosen_static. split; [by exists d|done].
    + intros (d' & (d & -> & Hd) & Hh & Hs). rewrite chosen_GetPrefix in Hh. rewrite chosen_static in Hs. by exists d.
  - intros p h Hp. rewrite (ai_adv _ _ _ _ _ _ _ _ _ HA), Hp. eexists. split; [done|]. by right.
  - intros p x. rewrite (ai_adv _ _ _ _ _ _ _ _ _ HA). destruct (hs_health st !! p) eqn:E; [by eexists|].
    intros Hx Hl. exfalso.
    assert (gone lid (desired_local ps) adv p → False) as Hng by (intros Hg; rewrite (D1 _ Hg) in Hx; done).
    rewrite (D2 _ Hng) in Hx. apply Hng. exists x. split; [done|]. split; [done|].
    apply eq_None_not_Some. by rewrite <-(ai_dom _ _ _ _ _ _ _ _ _ HA), E, <-eq_None_not_Some.
Qed.

Lemma prefixes_reconciled : hs_prefixes st = chosen t current <$> ps.
Proof.
  apply list_eq. intros i. rewrite (ai_prefixes _ _ _ _ _ _ _ _ _ HA), list_lookup_fmap.
  destruct (ps !! i) as [d|] eqn:Hi; [|done]. cbn. rewrite decide_True; [done|].
  apply desired_dom, list_elem_of_fmap_2. by eapply list_elem_of_lookup_2.
Qed.

Lemma others_reconciled p : p ∉ GetPrefix <$> ps →
  hs_adv st !! p = match adv !! p with Some x => if decide (adv_NodeId x = lid) then None else Some x | None => None end.
Proof.
  intros Hp. rewrite <-desired_dom, <-eq_None_not_Some in Hp. rewrite (ai_adv _ _ _ _ _ _ _ _ _ HA).
  assert (hs_health st !! p = None) as ->.
  { apply eq_None_not_Some. by rewrite (ai_dom _ _ _ _ _ _ _ _ _ HA), Hp, <-eq_None_not_Some. }
  destruct (adv !! p) as [x|] eqn:Ex; [case_decide as Hl|].
  - apply D1. by exists x.
  - rewrite D2; [done|]. intros (y & Hy & Hl' & _). congruence.
  - rewrite D2; [done|]. intros (y & Hy & _). congruence.
Qed.

End both.

(** Replacing the prefixes of a node changes nothing else that is looked up by name. *)
Lemma find_replace {A} (f : A → NodeId) (l : list A) id i x y k :
  list_find (λ r, f r = id) l = Some (i, x) → f y = id →
  list_find (λ r, f r = k) (<[i := y]> l) = if decide (k = id) then Some (i, y) else list_find (λ r, f r = k) l.
Proof.
  revert i. induction l as [|z l IH]; intros i; [done|]. cbn. destruct (decide (f z = id)) as [Hz|Hz].
  - intros [= <- <-] Hy. cbn. destruct (decide (k = id)) as [->|Hk]; [by rewrite decide_True|].
    by rewrite !decide_False by congruence.
  - intros ([j w] & Hj & Heq)%fmap_Some Hy. simplify_eq/=. rewrite (IH j Hj eq_refl).
    destruct (decide (k = f y)) as [->|Hk]; [by rewrite decide_False|done].
Qed.

Lemma find_key {A} (f : A → NodeId) (l : list A) id i x : list_find (λ r, f r = id) l = Some (i, x) → f x = id.
Proof. intros H. by apply list_find_Some in H as (_ & ? & _). Qed.

Lemma TryGetNode_put c id ps node k : TryGetNode c id = Some node →
  TryGetNode (put_prefixes c id ps) k = if decide (k = id) then Some (set_prefixes node ps) else TryGetNode c k.
Proof.
  unfold TryGetNode, put_prefixes.
  destruct (list_find (λ r, rc_Id r = id) (c_Routers c)) as [[i r]|] eqn:Er.
  - intros [= <-]. cbn [c_Routers c_Clients].
    rewrite (find_replace (λ r, rc_Id r) (c_Routers c) id i r _ k Er) by exact (find_key (λ r, rc_Id r) _ _ _ _ Er). by case_decide.
  - destruct (list_find (λ r, cc_Id r = id) (c_Clients c)) as [[i r]|] eqn:Ec; [|done]. intros [= <-]. cbn [c_Routers c_Clients].
    rewrite (find_replace (λ r, cc_Id r) (c_Clients c) id i r _ k Ec) by exact (find_key (λ r, cc_Id r) _ _ _ _ Ec).
    case_decide as Hk; [by subst; rewrite Er|done].
Qed.

Lemma reconcileAdvertisedPrefixes_spec next a cur nextNode :
  let n := app_n a in let s := ny_rs n in let lid := ny_LocalId n in
  TryGetNode (ny_CentralCfg n) lid = Some cur → TryGetNode next lid = Some nextNode →
  NoDup (GetPrefix <$> nc_Prefixes nextNode) →
  checks_ok lid (nc_Prefixes cur) (rs_Advertised s) (app_health a) (app_nextHealth a) (app_running a) →
  ∃ adv health ref running, let ps := chosen (rs_tun s) (current_local a) <$> nc_Prefixes nextNode in
    reconcileAdvertisedPrefixes next a = (set_health a (set_rs n (set_Advertised s adv)) health ref running, put_prefixes next lid ps) ∧
    checks_ok lid ps adv health ref running ∧
    (∀ p, p ∉ GetPrefix <$> nc_Prefixes nextNode → adv !! p =
      match rs_Advertised s !! p with
      | Some x => if decide (adv_NodeId x = lid) then None else Some x
      | None => None
      end) ∧
    (∀ c d h, c ∈ nc_Prefixes cur → d ∈ nc_Prefixes nextNode → GetPrefix c = GetPrefix d → app_health a !! GetPrefix c = Some h →
      health !! GetPrefix d = Some h ↔ SameConfig (Health c) (Health d) (rs_tun s) = true).
Proof.
  intros n s lid Hcur Hnext Hnd HC. unfold reconcileAdvertisedPrefixes. fold n s lid. rewrite Hnext.
  set (ps := nc_Prefixes nextNode) in *. set (desired := desired_local ps). set (current := current_local a).
  assert (∀ p c h, current !! p = Some (c, h) ↔ c ∈ nc_Prefixes cur ∧ GetPrefix c = p ∧ app_health a !! p = Some h) as Hcl
    by (intros; apply current_local_spec; [done|apply HC]).
  assert (∀ p c h, current !! p = Some (c, h) → (h < app_nextHealth a)%nat) as Hold.
  { intros p c h (_ & _ & Hh)%Hcl. by eapply hc_next. }
  destruct (drop_advertised_spec lid desired current (rs_Advertised s) (app_running a)) as (D1 & D2 & D3).
  destruct (foldl (drop_advertised _ _ _) _ _) as [adv0 running0]. cbn [fst snd] in *.
  pose proof (advertise_prefix_fold lid (rs_tun s) current ps (app_nextHealth a) running0 adv0 Hnd Hold) as HA.
  fold desired in HA. set (st := foldl _ _ (map_range desired)) in *.
  exists (hs_adv st), (hs_health st), (hs_next st), (hs_running st). split_and!.
  - by erewrite prefixes_reconciled.
  - by eapply checks_reconciled.
  - intros p. by eapply others_reconciled.
  - intros c d h Hc Hd Hp Hh. eapply (handle_stays _ _ _ _ _ _ _ _ _ _ _ _ HC Hnd Hcl HA c d h); [|done]. apply Hcl. by rewrite <-Hp.
Qed.

(** The node advertises the prefixes of its configuration and runs their checks. *)
Definition prefixes_checked a : Prop :=
  let n := app_n a in
  ∃ cur, TryGetNode (ny_CentralCfg n) (ny_LocalId n) = Some cur ∧
    checks_ok (ny_LocalId n) (nc_Prefixes cur) (rs_Advertised (ny_rs n)) (app_health a) (app_nextHealth a) (app_running a).

(** C33: a configuration change leaves the node advertising exactly the prefixes that the new
    configuration gives it, each with its own check, and running exactly the monitors of the
    checks that probe.  A check goes on under the same handle exactly when it is configured
    alike; advertisements held for other nodes stay, unless the prefix is now one of the
    node itself. *)
Theorem health_checks_reconciled next a cur nextNode :
  let n := app_n a in let lid := ny_LocalId n in
  prefixes_checked a → TryGetNode (ny_CentralCfg n) lid = Some cur →
  TryGetNode next lid = Some nextNode → NoDup (GetPrefix <$> nc_Prefixes nextNode) →
  let '(a', next') := reconcileAdvertisedPrefixes next a in
  prefixes_checked (set_n a' (set_cfg (app_n a') next')) ∧
  (∃ node', TryGetNode next' lid = Some node' ∧ GetPrefix <$> nc_Prefixes node' = GetPrefix <$> nc_Prefixes nextNode) ∧
  (∀ k, k ≠ lid → TryGetNode next' k = TryGetNode next k) ∧
  (∀ c d h, c ∈ nc_Prefixes cur → d ∈ nc_Prefixes nextNode → GetPrefix c = GetPrefix d → app_health a !! GetPrefix c = Some h →
     app_health a' !! GetPrefix d = Some h ↔ SameConfig (Health c) (Health d) (rs_tun (ny_rs n)) = true) ∧
  (∀ p x, adv_NodeId x ≠ lid → p ∉ GetPrefix <$> nc_Prefixes nextNode →
     rs_Advertised (ny_rs (app_n a')) !! p = Some x ↔ rs_Advertised (ny_rs n) !! p = Some x).
Proof.
  intros n lid (cur' & Hcur' & HC) Hcur Hnext Hnd. fold n lid in Hcur', HC. rewrite Hcur in Hcur'. injection Hcur' as <-.
  destruct (reconcileAdvertisedPrefixes_spec next a cur nextNode Hcur Hnext Hnd HC) as (adv & health & ref & running & -> & HC' & Hoth & Hkeep).
  fold n lid in Hoth, HC', Hkeep |- *. pose proof (λ k ps, TryGetNode_put next lid ps nextNode k Hnext) as Hput. split_and!.
  - eexists. split; [cbn; rewrite Hput, decide_True; done|]. cbn. exact HC'.
  - eexists. split; [rewrite Hput, decide_True; done|]. cbn. apply chosen_prefixes.
  - intros k Hk. by rewrite Hput, decide_False.
  - exact Hkeep.
  - intros p x Hx Hp. cbn. rewrite (Hoth p Hp). destruct (rs_Advertised (ny_rs n) !! p) as [y|]; [|done]. case_decide; naive_solver.
Qed.

End health.

(** ** A concrete change *)

Module HealthDemo.

#[local] Existing Instance sorted_range.

(** Three prefixes: one stays as it is, one gets another delay, one goes; a new one comes. *)
Definition net (k : Z) : Prefix := PrefixFrom (Addr4 (k * 2 ^ 24)) 8.
Definition with_prefixes (ps : list PrefixHealth) : CentralCfg :=
  mkCentralCfg [mkRouterCfg (mkNodeCfg "a" 1 [] ps 0) [] false] [] [] 0 [] None.
Definition before : list PrefixHealth :=
  [HTTPPrefixHealth (net 10) "u" (Some 5) None; HTTPPrefixHealth (net 11) "u" (Some 5) None; StaticPrefixHealth (net 12) 1].
Definition after : list PrefixHealth :=
  [StaticPrefixHealth (net 13) 1; HTTPPrefixHealth (net 11) "u" (Some 6) None; HTTPPrefixHealth (net 10) "u" (Some 5) None].

Definition own (h : HealthRef) : Advertisement := mkAdvertisement "a" maxTime false (Some h) None.
Definition passive : Advertisement := mkAdvertisement "c" 100 false None None.
Definition adv : gmap Prefix Advertisement :=
  list_to_map [(net 10, own 0%nat); (net 11, own 1%nat); (net 12, own 2%nat); (net 20, passive)].
Definition health : gmap Prefix HealthRef := list_to_map [(net 10, 0%nat); (net 11, 1%nat); (net 12, 2%nat)].

Definition n0 : Nylon NylonEndpoint (gmap Prefix) map_cache :=
  mkNylon (mkRouterState DefaultRouterTunables "a" ∅ ∅ ∅ [] adv) (with_prefixes before) "a" false "" ∅ ∅ ∅ ∅ None None.
Definition app : App :=
  mkApp n0 0 ∅ ∅ health 3%nat {[0%nat; 1%nat]} ∅ [] [] 0%nat ∅ ∅ [].

Lemma health_Some p h : health !! p = Some h ↔ (p = net 10 ∧ h = 0%nat) ∨ (p = net 11 ∧ h = 1%nat) ∨ (p = net 12 ∧ h = 2%nat).
Proof.
  unfold health. rewrite <-elem_of_list_to_map by (apply (bool_decide_unpack _); by vm_compute).
  rewrite !elem_of_cons, elem_of_nil. naive_solver.
Qed.

Lemma app_checked : prefixes_checked app.
Proof.
  exists (mkNodeCfg "a" 1 [] before 0). split; [by vm_compute|]. cbn [app app_n ny_LocalId n0 nc_Prefixes rs_Advertised ny_rs app_health app_nextHealth app_running].
  split.
  - apply (bool_decide_unpack _). by vm_compute.
  - intros p. unfold is_Some. setoid_rewrite health_Some. cbn [before fmap list_fmap GetPrefix]. rewrite !elem_of_cons, elem_of_nil. naive_solver.
  - intros p q h Hp%health_Some Hq%health_Some. naive_solver.
  - intros p h Hp%health_Some. naive_solver lia.
  - intros h. setoid_rewrite health_Some. rewrite elem_of_union, !elem_of_singleton. unfold before. split.
    + intros [->| ->]; [exists (HTTPPrefixHealth (net 10) "u" (Some 5) None)|exists (HTTPPrefixHealth (net 11) "u" (Some 5) None)];
        rewrite !elem_of_cons; cbn [GetPrefix is_static]; naive_solver.
    + intros (d & Hd & Hh & Hs). rewrite !elem_of_cons, elem_of_nil in Hd.
      destruct Hd as [->|[->|[->|[]]]]; [| |done]; cbn [GetPrefix] in Hh; destruct Hh as [[Hp ->]|[[Hp ->]|[Hp ->]]]; try discriminate Hp; naive_solver.
  - intros p h Hp%health_Some. exists None. split; [|by left]. destruct Hp as [[-> ->]|[[-> ->]|[-> ->]]]; reflexivity.
  - intros p x Hx Hl. unfold is_Some. setoid_rewrite health_Some. unfold adv in Hx.
    rewrite <-elem_of_list_to_map in Hx by (apply (bool_decide_unpack _); by vm_compute).
    rewrite !elem_of_cons, elem_of_nil in Hx. destruct Hx as [[= -> ->]|[[= -> ->]|[[= -> ->]|[[= -> ->]|[]]]]]; [naive_solver..|discriminate Hl].
Qed.

Lemma health_checks_reconciled_witness :
  let '(a', next') := reconcileAdvertisedPrefixes (with_prefixes after) app in
  prefixes_checked (set_n a' (set_cfg (app_n a') next')) ∧ app_health a' !! net 10 = Some 0%nat ∧ app_health a' !! net 11 ≠ Some 1%nat.
Proof.
  pose proof (health_checks_reconciled (with_prefixes after) app (mkNodeCfg "a" 1 [] before 0) (mkNodeCfg "a" 1 [] after 0)
    app_checked eq_refl eq_refl) as H.
  destruct (reconcileAdvertisedPrefixes (with_prefixes after) app) as [a' next'].
  destruct H as (Hok & _ & _ & Hkeep & _); [apply (bool_decide_unpack _); vm_compute; reflexivity|].
  split; [exact Hok|]. split.
  - apply (Hkeep (HTTPPrefixHealth (net 10) "u" (Some 5) None) (HTTPPrefixHealth (net 10) "u" (Some 5) None));
      [apply list_elem_of_here|apply list_elem_of_further, list_elem_of_further, list_elem_of_here|reflexivity..].
  - intros Heq. apply (Hkeep (HTTPPrefixHealth (net 11) "u" (Some 5) None) (HTTPPrefixHealth (net 11) "u" (Some 6) None)) in Heq;
      [discriminate Heq|apply list_elem_of_further, list_elem_of_here|apply list_elem_of_further, list_elem_of_here|reflexivity..].
Defined.

(** The first check goes on as 0; check 1 is stopped and replaced by a fresh one. *)
Example health_demo :
  let '(a', _) := reconcileAdvertisedPrefixes (with_prefixes after) app in
  elements (app_running a') ≡ₚ elements ({[0%nat; default 0%nat (app_health a' !! net 11)]} : gset HealthRef) ∧
  app_health a' !! net 10 = Some 0%nat ∧ bool_decide (app_health a' !! net 11 = Some 1%nat) = false ∧
  rs_Advertised (ny_rs (app_n a')) !! net 12 = None ∧ rs_Advertised (ny_rs (app_n a')) !! net 20 = Some passive.
Proof. vm_compute. repeat split; try reflexivity. Qed.

End HealthDemo.
