(* ===== verification/DeviceProps.v ===== *)
(** The WireGuard device across a configuration change: which peers it has, which of them
    are the ones it had, and what asking the links for their addresses leaves alone. *)

From S2P Require Import Prelude NetIP Metric Routing Endpoint EndpointProps RouterAlgo Config External RouterIO Graph GraphProps Validation SysRoutes Reconcile.

Section device.
Context `{MR : MapRange} `{U : Unicode} `{NT : NetText} `{HO : Host} {T : Type → Type} {C : Type → Type → Type}.
Implicit Types (a : App (T := T) (C := C)) (dev : gmap NyPublicKey Peer) (peers : list NodeId).

(** ** Peers *)

(** The peers that the node has configured are those the device has, and no two of them
    share a key or a handle. *)
Record device_ok a : Prop := {
  dv_keys : ∀ i j k, app_Peers a !! i = Some k → app_Peers a !! j = Some k → i = j;
  dv_dom : ∀ k, is_Some (ny_peers (app_n a) !! k) ↔ ∃ i, app_Peers a !! i = Some k;
  dv_inj : ∀ k k' w, ny_peers (app_n a) !! k = Some w → ny_peers (app_n a) !! k' = Some w → k = k';
  dv_next : ∀ k w, ny_peers (app_n a) !! k = Some w → (w < app_nextPeer a)%nat;
}.

(** A node whose device was changed. *)
Definition with_device a dev (Peers : gmap NodeId NyPublicKey) (next : Peer) (roaming : gset Peer) :=
  set_device a (set_peers (app_n a) dev) Peers next roaming.

Lemma with_device_id a : with_device a (ny_peers (app_n a)) (app_Peers a) (app_nextPeer a) (app_roaming a) = a.
Proof. by destruct a as [[]]. Qed.

Lemma desired_keys_spec c peers desired : desired_keys c peers = Some desired →
  ∀ i k, desired !! i = Some k ↔ i ∈ peers ∧ nc_PubKey <$> GetNode c i = Some k.
Proof.
  unfold desired_keys. revert desired. induction peers as [|x peers IH] using rev_ind; intros desired.
  { intros [= <-] i k. rewrite lookup_empty, elem_of_nil. naive_solver. }
  rewrite foldl_snoc. intros (m & Hm & (ncfg & Hn & [= <-])%bind_Some)%bind_Some i k.
  rewrite elem_of_app, list_elem_of_singleton. specialize (IH m Hm i k). destruct (decide (x = i)) as [<-|Hne].
  - rewrite lookup_insert_eq, Hn. cbn. naive_solver.
  - rewrite lookup_insert_ne, IH by done. naive_solver.
Qed.

Lemma desired_keys_defined c peers : (∀ i, i ∈ peers → is_Some (GetNode c i)) → is_Some (desired_keys c peers).
Proof.
  unfold desired_keys. induction peers as [|x peers IH] using rev_ind; intros Hn; [by eexists|].
  rewrite foldl_snoc. destruct IH as [m ->]; [intros i Hi; apply Hn, elem_of_app; by left|]. cbn.
  destruct (Hn x) as [ncfg ->]; [apply elem_of_app; right; by apply list_elem_of_singleton|]. by eexists.
Qed.

(** What is not wanted, or has another key, goes. *)
Lemma remove_stale_fold desired a : ∃ dev Peers,
  foldl (remove_stale desired) a (map_range (app_Peers a)) = with_device a dev Peers (app_nextPeer a) (app_roaming a) ∧
  (∀ i k, Peers !! i = Some k ↔ app_Peers a !! i = Some k ∧ desired !! i = Some k) ∧
  (∀ k w, dev !! k = Some w ↔ ny_peers (app_n a) !! k = Some w ∧ ¬ ∃ i, app_Peers a !! i = Some k ∧ desired !! i ≠ Some k).
Proof.
  set (all := app_Peers a).
  assert (∃ dev Peers, foldl (remove_stale desired) a (map_range all) = with_device a dev Peers (app_nextPeer a) (app_roaming a) ∧
    (∀ i k, Peers !! i = Some k ↔ app_Peers a !! i = Some k ∧ (all !! i = Some k → desired !! i = Some k)) ∧
    (∀ k w, dev !! k = Some w ↔ ny_peers (app_n a) !! k = Some w ∧ ¬ ∃ i, all !! i = Some k ∧ desired !! i ≠ Some k))
    as (dev & Peers & Heq & H1 & H2).
  2: { exists dev, Peers. split; [done|]. split; [|done]. intros i k. rewrite H1. unfold all. naive_solver. }
  apply (foldl_map_range_ind (λ m r, ∃ dev Peers, r = with_device a dev Peers (app_nextPeer a) (app_roaming a) ∧
    (∀ i k, Peers !! i = Some k ↔ app_Peers a !! i = Some k ∧ (m !! i = Some k → desired !! i = Some k)) ∧
    (∀ k w, dev !! k = Some w ↔ ny_peers (app_n a) !! k = Some w ∧ ¬ ∃ i, m !! i = Some k ∧ desired !! i ≠ Some k))).
  - exists (ny_peers (app_n a)), (app_Peers a). split; [by rewrite with_device_id|].
    setoid_rewrite lookup_empty. split; [naive_solver|]. naive_solver.
  - intros i0 k0 m r Hm Hall _ (dev & Peers & -> & H1 & H2). unfold remove_stale. cbn [fst snd].
    assert (∀ i k, <[i0:=k0]> m !! i = Some k ↔ (i = i0 ∧ k = k0) ∨ m !! i = Some k) as Hins.
    { intros i k. rewrite lookup_insert_Some. naive_solver. }
    case_decide as Hd.
    + exists dev, Peers. split; [done|]. split.
      * intros i k. rewrite H1, Hins. naive_solver.
      * intros k w. rewrite H2. setoid_rewrite Hins. naive_solver.
    + exists (delete k0 dev), (delete i0 Peers). split; [done|]. split.
      * intros i k. rewrite lookup_delete_Some, H1, Hins. split.
        -- intros (Hne & HP & Hm'). split; [done|]. intros [[-> _]|?]; [done|auto].
        -- intros [HP Hm']. split; [|split; [done|auto]]. intros <-. fold all in HP. rewrite Hall in HP. injection HP as <-. auto.
      * intros k w. rewrite lookup_delete_Some, H2. split.
        -- intros (Hne & Hk & Hno). split; [done|]. intros (i & [[_ ->]|Hi]%Hins & Hk'); [done|]. apply Hno. by exists i.
        -- intros [Hk Hno]. split; [|split; [done|]].
           ++ intros <-. apply Hno. exists i0. split; [|done]. apply Hins. by left.
           ++ intros (i & Hi & Hk'). apply Hno. exists i. split; [|done]. apply Hins. by right.
Qed.

(** The key of a node. *)
Definition key_of (c : CentralCfg) (i : NodeId) : option NyPublicKey := nc_PubKey <$> GetNode c i.

(** The device after the peers [l] were added. *)
Record added a (c : CentralCfg) (l : list NodeId) dev (Peers : gmap NodeId NyPublicKey) (next : Peer) (roaming : gset Peer) : Prop := {
  ad_Peers : ∀ i k, Peers !! i = Some k ↔ (i ∈ l ∧ key_of c i = Some k) ∨ (i ∉ l ∧ app_Peers a !! i = Some k);
  ad_dom : ∀ k, is_Some (dev !! k) ↔ is_Some (ny_peers (app_n a) !! k) ∨ ∃ i, i ∈ l ∧ key_of c i = Some k;
  ad_kept : ∀ k w, ny_peers (app_n a) !! k = Some w → dev !! k = Some w;
  ad_new : ∀ k w, dev !! k = Some w → ny_peers (app_n a) !! k = Some w ∨ (app_nextPeer a <= w)%nat;
  ad_inj : ∀ k k' w, dev !! k = Some w → dev !! k' = Some w → k = k';
  ad_next : ∀ k w, dev !! k = Some w → (w < next)%nat;
  ad_roaming : ∀ w, w ∈ roaming ↔
    w ∈ app_roaming a ∨ ∃ i k, i ∈ l ∧ IsClient c i = true ∧ key_of c i = Some k ∧ dev !! k = Some w;
  ad_le : (app_nextPeer a <= next)%nat;
}.

Lemma added_nil a c : device_ok a → added a c [] (ny_peers (app_n a)) (app_Peers a) (app_nextPeer a) (app_roaming a).
Proof.
  intros [Hk Hd Hi Hn]. split; try done; try setoid_rewrite elem_of_nil; try naive_solver.
Qed.

Lemma added_Peers a c l dev Peers next roaming i k : added a c l dev Peers next roaming → key_of c i = Some k →
  ∀ i' k', <[i := k]> Peers !! i' = Some k' ↔
    (i' ∈ l ++ [i] ∧ key_of c i' = Some k') ∨ (i' ∉ l ++ [i] ∧ app_Peers a !! i' = Some k').
Proof.
  intros HI Hk i' k'. rewrite elem_of_app, list_elem_of_singleton. destruct (decide (i = i')) as [<-|Hne].
  - rewrite lookup_insert_eq, Hk. naive_solver.
  - rewrite lookup_insert_ne, (ad_Peers _ _ _ _ _ _ _ HI) by done. naive_solver.
Qed.

Lemma elem_of_roaming (b : bool) (w w' : Peer) (roaming : gset Peer) :
  w' ∈ (if b then {[w]} ∪ roaming else roaming) ↔ (b = true ∧ w' = w) ∨ w' ∈ roaming.
Proof. destruct b; set_solver. Qed.

(** A peer that the device has already. *)
Lemma added_old a c l dev Peers next roaming i k w : added a c l dev Peers next roaming →
  key_of c i = Some k → dev !! k = Some w →
  added a c (l ++ [i]) dev (<[i := k]> Peers) next (if IsClient c i then {[w]} ∪ roaming else roaming).
Proof.
  intros HI Hk Hw. split; try apply HI; [by eapply added_Peers|..];
    setoid_rewrite elem_of_app; setoid_rewrite list_elem_of_singleton.
  - intros k'. rewrite (ad_dom _ _ _ _ _ _ _ HI). split; [naive_solver|].
    intros [?|(i' & [?| ->] & Hk')]; [by left|right; by exists i'|]. rewrite Hk in Hk'. injection Hk' as <-.
    apply (ad_dom _ _ _ _ _ _ _ HI). by eexists.
  - intros w'. rewrite elem_of_roaming, (ad_roaming _ _ _ _ _ _ _ HI). split.
    + intros [[Hc ->]|[?|(i' & k' & ? & ?)]]; [right; exists i, k; auto|by left|right; exists i', k'; auto].
    + intros [?|(i' & k' & [?| ->] & Hc & Hk' & Hw')]; [auto|right; right; by exists i', k'|]. left. simplify_eq. done.
Qed.

(** A peer that is new to the device. *)
Lemma added_fresh a c l dev Peers next roaming i k : added a c l dev Peers next roaming →
  key_of c i = Some k → dev !! k = None →
  added a c (l ++ [i]) (<[k := next]> dev) (<[i := k]> Peers) (S next) (if IsClient c i then {[next]} ∪ roaming else roaming).
Proof.
  intros HI Hk Hnone. pose proof (ad_le _ _ _ _ _ _ _ HI) as Hle.
  assert (∀ k' w, dev !! k' = Some w → k ≠ k') as Hne by (intros k' w Hw ->; congruence).
  split; [by eapply added_Peers|..].
  - intros k'. rewrite lookup_insert_is_Some', (ad_dom _ _ _ _ _ _ _ HI).
    setoid_rewrite elem_of_app. setoid_rewrite list_elem_of_singleton. split.
    + intros [<-|[?|(i' & ? & ?)]]; [right; exists i; auto|by left|right; exists i'; auto].
    + intros [?|(i' & [?| ->] & Hk')]; [auto|right; right; by exists i'|left; congruence].
  - intros k' w Hw%(ad_kept _ _ _ _ _ _ _ HI). rewrite lookup_insert_ne; [done|by eapply Hne].
  - intros k' w [[_ <-]|[_ Hw]]%lookup_insert_Some; [by right|]. by apply (ad_new _ _ _ _ _ _ _ HI).
  - intros k1 k2 w [[<- H1]|[_ H1]]%lookup_insert_Some [[<- H2]|[_ H2]]%lookup_insert_Some; [done| | |by eapply (ad_inj _ _ _ _ _ _ _ HI)].
    + apply (ad_next _ _ _ _ _ _ _ HI) in H2. lia.
    + apply (ad_next _ _ _ _ _ _ _ HI) in H1. lia.
  - intros k' w [[_ <-]|[_ Hw]]%lookup_insert_Some; [lia|]. apply (ad_next _ _ _ _ _ _ _ HI) in Hw. lia.
  - intros w'. rewrite elem_of_roaming, (ad_roaming _ _ _ _ _ _ _ HI). setoid_rewrite elem_of_app. setoid_rewrite list_elem_of_singleton. split.
    + intros [[Hc ->]|[?|(i' & k' & ? & ? & ? & Hw)]]; [right; exists i, k; rewrite lookup_insert_eq; auto|by left|].
      right. exists i', k'. rewrite lookup_insert_ne by (by eapply Hne). auto.
    + intros [?|(i' & k' & Hi & Hc & Hk' & [[<- <-]|[Hkk Hw]]%lookup_insert_Some)]; [auto| |].
      * destruct Hi as [Hi| ->]; [|by left]. exfalso. apply eq_None_not_Some in Hnone. apply Hnone, (ad_dom _ _ _ _ _ _ _ HI). right. by exists i'.
      * right. right. destruct Hi as [Hi| ->]; [by exists i', k'|congruence].
  - lia.
Qed.

Lemma keys_bound dev (ks : list NyPublicKey) k :
  dev !! k = None → k ∈ ks → (∀ k', is_Some (dev !! k') → k' ∈ ks) → (S (size dev) <= length ks)%nat.
Proof.
  intros Hk Hin Hall. rewrite <-length_map_to_list, <-(length_fmap fst).
  apply (submseteq_length (k :: (map_to_list dev).*1)), NoDup_submseteq.
  - apply NoDup_cons. split; [|apply NoDup_fst_map_to_list]. intros ([k' w] & -> & Hw%elem_of_map_to_list)%list_elem_of_fmap. cbn in Hk. congruence.
  - intros x [->|([k' w] & -> & Hw%elem_of_map_to_list)%list_elem_of_fmap]%elem_of_cons; [done|]. apply Hall. by eexists.
Qed.

Lemma length_omap_le {A B} (f : A → option B) l : (length (omap f l) <= length l)%nat.
Proof. induction l as [|x l IH]; [done|]. cbn. destruct (f x); cbn; lia. Qed.

(** The loop succeeds as long as the device has room for the peers. *)
Lemma add_peers_fold a c peers l : c = ny_CentralCfg (app_n a) → device_ok a →
  (∀ i, i ∈ peers → is_Some (GetNode c i)) → (∀ k, is_Some (ny_peers (app_n a) !! k) → ∃ i, i ∈ peers ∧ key_of c i = Some k) →
  Z.of_nat (length peers) <= MaxPeers → l ⊆ peers →
  ∃ dev Peers next roaming, for_each add_peer l a = Done (with_device a dev Peers next roaming) ∧ added a c l dev Peers next roaming.
Proof.
  intros Hc Hok Hn Hin Hmax. unfold for_each. induction l as [|i l IH] using rev_ind; intros Hl.
  { exists (ny_peers (app_n a)), (app_Peers a), (app_nextPeer a), (app_roaming a). split; [by rewrite with_device_id|by apply added_nil]. }
  destruct IH as (dev & Peers & next & roaming & Heq & HI); [intros x Hx; apply Hl, elem_of_app; by left|].
  rewrite foldl_snoc, Heq. cbn [and_do]. unfold add_peer. cbn [app_n with_device set_device set_peers ny_CentralCfg ny_peers]. rewrite <-Hc.
  assert (i ∈ peers) as Hi by (apply Hl, elem_of_app; right; by apply list_elem_of_singleton).
  destruct (Hn i Hi) as [ncfg Hg]. rewrite Hg.
  assert (key_of c i = Some (nc_PubKey ncfg)) as Hk by (unfold key_of; by rewrite Hg).
  destruct (dev !! nc_PubKey ncfg) as [w|] eqn:Ew.
  - eexists dev, _, next, _. split; [|by apply (added_old _ _ _ _ _ _ _ _ _ w HI Hk Ew)]. done.
  - unfold NewPeer. cbn [app_n with_device set_device set_peers ny_peers]. rewrite Ew.
    assert (Z.of_nat (size dev) < MaxPeers) as Hlt.
    { pose proof (keys_bound dev (omap (key_of c) peers) _ Ew) as Hb. pose proof (length_omap_le (key_of c) peers) as Hle.
      enough (S (size dev) <= length (omap (key_of c) peers))%nat by lia. apply Hb.
      - apply list_elem_of_omap. by exists i.
      - intros k [Hd|(i' & Hi' & Hk')]%(ad_dom _ _ _ _ _ _ _ HI); apply list_elem_of_omap.
        + by apply Hin.
        + exists i'. split; [|done]. apply Hl, elem_of_app. by left. }
    replace (MaxPeers <=? Z.of_nat (size dev)) with false by lia.
    eexists _, _, _, _. split; [|by apply (added_fresh _ _ _ _ _ _ _ _ _ HI Hk Ew)]. done.
Qed.

(** ** Links *)

(** A node in which only the addresses of links may have changed. *)
Definition same_neighbour (m m' : Neighbour NylonEndpoint) : Prop := n_Id m' = n_Id m ∧ n_Routes m' = n_Routes m.

Definition links_only a a' : Prop :=
  ∃ ns eps, Forall2 same_neighbour (rs_Neighbours (ny_rs (app_n a))) ns ∧
    a' = set_endpoints a (set_rs (app_n a) (set_Neighbours (ny_rs (app_n a)) ns)) eps.

Lemma links_only_refl a : links_only a a.
Proof.
  exists (rs_Neighbours (ny_rs (app_n a))), (app_endpoints a). split; [by apply Forall_Forall2_diag, Forall_true|].
  by destruct a as [[[]]].
Qed.

Lemma links_only_trans a1 a2 a3 : links_only a1 a2 → links_only a2 a3 → links_only a1 a3.
Proof.
  intros (ns & eps & H1 & ->) (ns' & eps' & H2 & ->). exists ns', eps'. split; [|done]. cbn in H2.
  revert ns' H2. induction H1 as [|m1 m2 l1 l2 [Hi Hr] _ IH]; intros ns' H2; inversion H2 as [|? m3 ? l3 [Hi' Hr'] H2']; subst; constructor; [|by apply IH].
  split; congruence.
Qed.

Lemma put_links_only a peer links eps :
  links_only a (set_endpoints a (set_rs (app_n a) (put_neighbour (ny_rs (app_n a)) peer
    (λ m, mkNeighbour (n_Id m) (n_Routes m) (same_links links (n_Eps m))))) eps).
Proof.
  unfold put_neighbour. destruct (list_find _ _) as [[i m]|] eqn:E; [|].
  - eexists _, eps. split; [|done]. apply list_find_Some in E as (Hi & _).
    apply Forall2_same_length_lookup. split; [by rewrite length_insert|]. intros j x y Hx Hy.
    destruct (decide (i = j)) as [<-|Hne].
    + rewrite list_lookup_insert_eq in Hy by (by eapply lookup_lt_Some). by simplify_eq.
    + rewrite list_lookup_insert_ne in Hy by done. by simplify_eq.
  - exists (rs_Neighbours (ny_rs (app_n a))), eps. split; [by apply Forall_Forall2_diag, Forall_true|]. by destruct (app_n a) as [[]].
Qed.

(** What the configuration resolves to is an address, and printed addresses are read back. *)
Context `{NTL : !NetTextLaws} (config_Get : string → option AddrPort).
Hypothesis config_valid : ∀ s ap, config_Get s = Some ap → ap_IsValid ap = true.
Context (prepare : StdNetEndpoint → option bool) (now : Z).

Lemma add_configured_defined l eps : is_Some (foldl (add_configured config_Get) (Some eps) l).
Proof.
  revert eps. induction l as [|x l IH]; intros eps; [by eexists|]. cbn [foldl add_configured mbind option_bind].
  destruct (config_Get x) as [ap|] eqn:E; [|apply IH]. case_goal; [apply IH|].
  rewrite (ParseAddrPort_String ap) by (by eapply config_valid). cbn [mbind option_bind]. apply IH.
Qed.

Lemma sync_peer_endpoints_spec a peer : IsClient (ny_CentralCfg (app_n a)) peer = true ∨ is_Some (GetRouter (ny_CentralCfg (app_n a)) peer) →
  ∃ a', sync_peer_endpoints config_Get prepare now a peer = Done a' ∧ links_only a a'.
Proof.
  unfold sync_peer_endpoints. destruct (IsClient _ peer); [intros _; exists a; split; [done|apply links_only_refl]|].
  intros [?|[pcfg ->]]; [done|].
  assert (∃ n eps, (∀ es, links_only a (set_endpoints a n es)) ∧
    (match GetNeighbour (ny_rs (app_n a)) peer with
     | None => (app_n a, [])
     | Some neigh =>
         let '(links, eps) := link_addresses prepare (merge_sort (preferred now) (n_Eps neigh)) in
         (set_rs (app_n a) (put_neighbour (ny_rs (app_n a)) peer (λ m, mkNeighbour (n_Id m) (n_Routes m) (same_links links (n_Eps m)))), eps)
     end) = (n, eps)) as (n & eps & Hn & ->).
  { destruct (GetNeighbour (ny_rs (app_n a)) peer) as [neigh|].
    - destruct (link_addresses _ _) as [links eps]. eexists _, eps. split; [|done]. intros es. apply put_links_only.
    - exists (app_n a), []. split; [|done]. intros es. exists (rs_Neighbours (ny_rs (app_n a))), es.
      split; [by apply Forall_Forall2_diag, Forall_true|]. by destruct (app_n a) as [[]]. }
  destruct (add_configured_defined (rc_Endpoints pcfg) eps) as [eps' ->]. eexists. split; [done|].
  destruct (ny_peers n !! _); [apply Hn|]. specialize (Hn (app_endpoints a)). by destruct a.
Qed.

Lemma syncWireGuardEndpoints_spec a peers : GetPeers (ny_CentralCfg (app_n a)) (ny_LocalId (app_n a)) = Some peers →
  (∀ i, i ∈ peers → IsClient (ny_CentralCfg (app_n a)) i = true ∨ is_Some (GetRouter (ny_CentralCfg (app_n a)) i)) →
  ∃ a', syncWireGuardEndpoints config_Get prepare now a = Done a' ∧ links_only a a'.
Proof.
  intros Hp Hk. unfold syncWireGuardEndpoints. rewrite Hp.
  assert (∀ i, i ∈ Sort peers → i ∈ peers) as Hs by (intros i; by rewrite elem_of_Sort).
  unfold for_each. induction (Sort peers) as [|i l IH] using rev_ind; [exists a; split; [done|apply links_only_refl]|].
  destruct IH as (a1 & Heq & H1); [intros j Hj; apply Hs, elem_of_app; by left|].
  rewrite foldl_snoc, Heq. cbn [and_do].
  assert (ny_CentralCfg (app_n a1) = ny_CentralCfg (app_n a)) as Hc by (by destruct H1 as (ns & eps & _ & ->)).
  destruct (sync_peer_endpoints_spec a1 i) as (a2 & Heq2 & H2).
  { rewrite Hc. apply Hk, Hs, elem_of_app. right. by apply list_elem_of_singleton. }
  exists a2. split; [done|]. by eapply links_only_trans.
Qed.

(** The peers of the device after a configuration change. *)
Record synced (c : CentralCfg) peers a a' : Prop := {
  sy_device : device_ok a';
  sy_Peers : ∀ i k, app_Peers a' !! i = Some k ↔ i ∈ peers ∧ key_of c i = Some k;
  sy_kept : ∀ i k w, app_Peers a !! i = Some k → i ∈ peers → key_of c i = Some k →
    ny_peers (app_n a) !! k = Some w → ny_peers (app_n a') !! k = Some w;
  sy_fresh : ∀ k w, ny_peers (app_n a') !! k = Some w →
    (∃ i, app_Peers a !! i = Some k ∧ i ∈ peers ∧ key_of c i = Some k ∧ ny_peers (app_n a) !! k = Some w) ∨ (app_nextPeer a <= w)%nat;
  sy_frame : ∃ dev Peers next roaming, links_only (with_device a dev Peers next roaming) a';
}.

Lemma unstale_ok (desired : gmap NodeId NyPublicKey) a dev (Peers : gmap NodeId NyPublicKey) : device_ok a →
  (∀ i k, Peers !! i = Some k ↔ app_Peers a !! i = Some k ∧ desired !! i = Some k) →
  (∀ k w, dev !! k = Some w ↔ ny_peers (app_n a) !! k = Some w ∧ ¬ ∃ i, app_Peers a !! i = Some k ∧ desired !! i ≠ Some k) →
  device_ok (with_device a dev Peers (app_nextPeer a) (app_roaming a)).
Proof.
  intros [Hk Hd Hi Hn] HP Hdev. split; cbn.
  - intros i j k [? _]%HP [? _]%HP. by eapply Hk.
  - intros k. split.
    + intros [w [Hw Hno]%Hdev]. destruct (proj1 (Hd k)) as [i Hik]; [by eexists|]. exists i. apply HP. split; [done|].
      destruct (decide (desired !! i = Some k)); [done|]. destruct Hno. by exists i.
    + intros [i [Hik Hdes]%HP]. destruct (proj2 (Hd k)) as [w Hw]; [by exists i|]. exists w. apply Hdev. split; [done|].
      intros (j & Hj & Hne). by rewrite (Hk j i k Hj Hik) in Hne.
  - intros k k' w [? _]%Hdev [? _]%Hdev. by eapply Hi.
  - intros k w [? _]%Hdev. by eapply Hn.
Qed.

Lemma added_ok a c peers dev Peers next roaming : device_ok a → added a c peers dev Peers next roaming →
  (∀ i k, app_Peers a !! i = Some k → i ∈ peers) →
  (∀ i j k, i ∈ peers → j ∈ peers → key_of c i = Some k → key_of c j = Some k → i = j) →
  (∀ i k, app_Peers a !! i = Some k → key_of c i = Some k) →
  device_ok (with_device a dev Peers next roaming) ∧ ∀ i k, Peers !! i = Some k ↔ i ∈ peers ∧ key_of c i = Some k.
Proof.
  intros Hok HI Hsub Hinj Hkeys.
  assert (∀ i k, Peers !! i = Some k ↔ i ∈ peers ∧ key_of c i = Some k) as HP.
  { intros i k. rewrite (ad_Peers _ _ _ _ _ _ _ HI). split; [|by left]. intros [?|[Hn Hi%Hsub]]; done. }
  split; [|done]. split; cbn; [| |apply HI|apply HI].
  - intros i j k [? ?]%HP [? ?]%HP. by eapply Hinj.
  - intros k. rewrite (ad_dom _ _ _ _ _ _ _ HI), (dv_dom _ Hok). setoid_rewrite HP. split; [|by right].
    intros [[i Hi]|?]; [|done]. exists i. split; [by eapply Hsub|by apply Hkeys].
Qed.

Lemma links_only_device a a' : links_only a a' → device_ok a → device_ok a'.
Proof. intros (ns & eps & _ & ->) [? ? ? ?]. by split. Qed.

Lemma SyncWireGuard_spec a peers : let c := ny_CentralCfg (app_n a) in
  device_ok a → GetPeers c (ny_LocalId (app_n a)) = Some peers → (∀ i, i ∈ peers → IsClient c i = true ∨ is_Some (GetRouter c i)) →
  (∀ i, i ∈ peers → is_Some (GetNode c i)) →
  (∀ i j k, i ∈ peers → j ∈ peers → key_of c i = Some k → key_of c j = Some k → i = j) →
  Z.of_nat (length peers) <= MaxPeers →
  ∃ a', SyncWireGuard config_Get prepare now a = Done a' ∧ synced c peers a a'.
Proof.
  intros c Hok Hp Hk Hn Hinj Hmax. unfold SyncWireGuard. fold c. rewrite Hp. cbn [mbind option_bind].
  destruct (desired_keys_defined c peers Hn) as [desired Hdes]. rewrite Hdes. cbn [mbind option_bind].
  pose proof (desired_keys_spec _ _ _ Hdes) as Hd.
  destruct (remove_stale_fold desired a) as (dev1 & Peers1 & -> & HP1 & Hdev1). set (a1 := with_device a dev1 Peers1 _ _).
  pose proof (unstale_ok desired a dev1 Peers1 Hok HP1 Hdev1) as Hok1. fold a1 in Hok1.
  assert (∀ i k, Peers1 !! i = Some k → i ∈ peers ∧ key_of c i = Some k) as Hsub by (intros i k [_ Hdes']%HP1; by apply Hd).
  assert (∀ i, i ∈ Sort peers ↔ i ∈ peers) as Hsort by (intros i; apply elem_of_Sort).
  destruct (add_peers_fold a1 c peers (Sort peers)) as (dev & Peers & next & roaming & -> & HI); [done..| |done|intros i; by apply Hsort|].
  { intros k [i Hi]%(dv_dom _ Hok1). exists i. by apply Hsub. }
  cbn [and_do]. set (a2 := with_device a1 dev Peers next roaming).
  destruct (added_ok a1 c (Sort peers) dev Peers next roaming Hok1 HI) as [Hok2 HP].
  { intros i k [? _]%Hsub. by apply Hsort. }
  { intros i j k Hi%Hsort Hj%Hsort. by apply Hinj. }
  { by intros i k [_ ?]%Hsub. }
  destruct (syncWireGuardEndpoints_spec a2 peers Hp Hk) as (a' & -> & Hl). exists a'. split; [done|].
  assert (ny_peers (app_n a') = dev ∧ app_Peers a' = Peers) as [Hdev HPeers] by (by destruct Hl as (ns & eps & _ & ->)).
  split.
  - by eapply links_only_device.
  - intros i k. by rewrite HPeers, HP, Hsort.
  - intros i k w Hi Hin Hik Hw. rewrite Hdev. apply (ad_kept _ _ _ _ _ _ _ HI), Hdev1. split; [done|].
    intros (j & Hj & Hne). apply Hne. rewrite (dv_keys _ Hok j i k Hj Hi). by apply Hd.
  - intros k w. rewrite Hdev. intros [[Hw Hno]%Hdev1|Hle]%(ad_new _ _ _ _ _ _ _ HI); [left|by right].
    destruct (proj1 (dv_dom _ Hok k)) as [i Hi]; [by eexists|]. exists i. split; [done|].
    destruct (decide (desired !! i = Some k)) as [[? ?]%Hd|Hne]; [done|]. destruct Hno. by exists i.
  - by exists dev, Peers, next, roaming.
Qed.

End device.
