(* ===== verification/Offload.v ===== *)
(** Segmentation offload of the Linux tun device: [polyamide/tun/offload_linux.go], with the
    reading and writing of frames in [polyamide/tun/tun_linux.go].

    A buffer is a Go slice: its bytes and the capacity of its array.  A slice expression
    is checked against the length; that none reaches into the capacity behind it is part of what
    is proved.  Offsets into headers are natural numbers, lengths and header fields are
    integers of their width.  [None] is a Go panic. *)

From S2P Require Import Prelude Bytes Checksum.

(** ** Bytes *)

Definition len (p : list Z) : Z := Z.of_nat (length p).

Definition u8_at (p : list Z) (i : nat) : option Z := p !! i.

(** [p[lo:hi]] and [p[lo:]]. *)
Definition cut (p : list Z) (lo hi : nat) : option (list Z) :=
  if (lo <=? hi)%nat && (hi <=? length p)%nat then Some (slice lo hi p) else None.
Definition from (p : list Z) (lo : nat) : option (list Z) := if (lo <=? length p)%nat then Some (drop lo p) else None.

(** [binary.BigEndian.Uint16] and [Uint32] of [p[i:]]. *)
Definition u16_at (p : list Z) (i : nat) : option Z := be_decode <$> cut p i (i + 2).
Definition u32_at (p : list Z) (i : nat) : option Z := be_decode <$> cut p i (i + 4).

Definition put_at (p : list Z) (i : nat) (bs : list Z) : option (list Z) :=
  if (i + length bs <=? length p)%nat then Some (write_at i bs p) else None.
Definition put8 p i (v : Z) := put_at p i [v].
Definition put16 p i (v : Z) := put_at p i (be_encode 2 v).
Definition put32 p i (v : Z) := put_at p i (be_encode 4 v).

(** [copy(dst[at:], src)]. *)
Definition copy_to (dst : list Z) (at_ : nat) (src : list Z) : option (list Z) :=
  if (at_ <=? length dst)%nat then Some (write_at at_ (take (length dst - at_) src) dst) else None.

(** A natural number stored in a byte. *)
Definition nat8 (n : nat) : nat := Z.to_nat (uint8 (Z.of_nat n)).
Definition nat16 (n : nat) : nat := Z.to_nat (uint16 (Z.of_nat n)).

(** ** Constants *)

Definition tcpFlagsOffset : nat := 13.
Definition tcpFlagFIN : Z := 0x01.
Definition tcpFlagPSH : Z := 0x08.
Definition tcpFlagACK : Z := 0x10.
Definition ipv4FlagMoreFragments : Z := 0x20.
Definition ipv4SrcAddrOffset : nat := 12.
Definition ipv6SrcAddrOffset : nat := 8.
Definition maxUint16 : Z := 65535.
Definition udphLen : nat := 8.
Definition IPPROTO_TCP : Z := 6.
Definition IPPROTO_UDP : Z := 17.
Definition VIRTIO_NET_HDR_F_NEEDS_CSUM : Z := 1.
Definition VIRTIO_NET_HDR_GSO_NONE : Z := 0.
Definition VIRTIO_NET_HDR_GSO_TCPV4 : Z := 1.
Definition VIRTIO_NET_HDR_GSO_TCPV6 : Z := 4.
Definition VIRTIO_NET_HDR_GSO_UDP_L4 : Z := 5.
Definition IdealBatchSize : nat := 128.
Definition tunPILen : nat := 4.

(** ** The header of the kernel *)

Record virtioNetHdr := mkVirtio {
  vh_flags : Z;
  vh_gsoType : Z;
  vh_hdrLen : Z;
  vh_gsoSize : Z;
  vh_csumStart : Z;
  vh_csumOffset : Z;
}.

Definition virtioNetHdrLen : nat := 10.
Definition zero_hdr : virtioNetHdr := mkVirtio 0 0 0 0 0 0.

Record gbuf := mkGbuf { gb_data : list Z; gb_cap : Z }.

(** ** Flows *)

Definition addr16 (a : list Z) : list Z := take 16 (a ++ replicate 16 0).

Record tcpFlowKey := mkTcpKey {
  tk_srcAddr : list Z;
  tk_dstAddr : list Z;
  tk_srcPort : Z;
  tk_dstPort : Z;
  tk_rxAck : Z;
  tk_isV6 : bool;
}.

#[export] Instance tcpFlowKey_eq_dec : EqDecision tcpFlowKey.
Proof. solve_decision. Defined.
#[export] Instance tcpFlowKey_countable : Countable tcpFlowKey.
Proof.
  apply (inj_countable' (λ k, (tk_srcAddr k, tk_dstAddr k, tk_srcPort k, tk_dstPort k, tk_rxAck k, tk_isV6 k))
    (λ '(a, b, c, d, e, f), mkTcpKey a b c d e f)). by intros [].
Defined.

Record tcpGROItem := mkTcpItem {
  ti_key : tcpFlowKey;
  ti_sentSeq : Z;
  ti_bufsIndex : nat;
  ti_numMerged : Z;
  ti_gsoSize : Z;
  ti_iphLen : nat;
  ti_tcphLen : nat;
  ti_pshSet : bool;
}.

(** The pool holds as many empty lists as the number says. *)
Record tcpGROTable := mkTcpTable {
  tt_itemsByFlow : gmap tcpFlowKey (list tcpGROItem);
  tt_itemsPool : nat;
}.

Definition newTCPGROTable : tcpGROTable := mkTcpTable ∅ IdealBatchSize.

Definition newTCPFlowKey (pkt : list Z) (srcAddrOffset dstAddrOffset tcphOffset : nat) : option tcpFlowKey :=
  let addrSize := (dstAddrOffset - srcAddrOffset)%nat in
  src ← cut pkt srcAddrOffset dstAddrOffset;
  dst ← cut pkt dstAddrOffset (dstAddrOffset + addrSize);
  srcPort ← u16_at pkt tcphOffset;
  dstPort ← u16_at pkt (tcphOffset + 2);
  rxAck ← u32_at pkt (tcphOffset + 8);
  Some (mkTcpKey (addr16 src) (addr16 dst) srcPort dstPort rxAck (addrSize =? 16)%nat).

Definition tcp_insert (t : tcpGROTable) (pkt : list Z) (srcAddrOffset dstAddrOffset tcphOffset tcphLen bufsIndex : nat) : option tcpGROTable :=
  key ← newTCPFlowKey pkt srcAddrOffset dstAddrOffset tcphOffset;
  payload ← from pkt (tcphOffset + tcphLen);
  seq ← u32_at pkt (tcphOffset + 4);
  flags ← u8_at pkt (tcphOffset + tcpFlagsOffset);
  let item := mkTcpItem key seq (nat16 bufsIndex) 0 (uint16 (len payload)) (nat8 tcphOffset) (nat8 tcphLen)
                (negb (Z.land flags tcpFlagPSH =? 0)) in
  match tt_itemsByFlow t !! key with
  | Some items => Some (mkTcpTable (<[key := items ++ [item]]> (tt_itemsByFlow t)) (tt_itemsPool t))
  | None =>
      match tt_itemsPool t with
      | O => None
      | S pool => Some (mkTcpTable (<[key := [item]]> (tt_itemsByFlow t)) pool)
      end
  end.

(** The items of the flow, or the table with the packet as the first of its flow. *)
Definition tcp_lookupOrInsert (t : tcpGROTable) pkt srcAddrOffset dstAddrOffset tcphOffset tcphLen bufsIndex
    : option (tcpGROTable * option (list tcpGROItem)) :=
  key ← newTCPFlowKey pkt srcAddrOffset dstAddrOffset tcphOffset;
  match tt_itemsByFlow t !! key with
  | Some items => Some (t, Some items)
  | None => t ← tcp_insert t pkt srcAddrOffset dstAddrOffset tcphOffset tcphLen bufsIndex; Some (t, None)
  end.

Definition tcp_updateAt (t : tcpGROTable) (item : tcpGROItem) (i : nat) : option tcpGROTable :=
  let items := default [] (tt_itemsByFlow t !! ti_key item) in
  if (i <? length items)%nat then Some (mkTcpTable (<[ti_key item := <[i := item]> items]> (tt_itemsByFlow t)) (tt_itemsPool t)) else None.

Definition tcp_deleteAt (t : tcpGROTable) (key : tcpFlowKey) (i : nat) : option tcpGROTable :=
  let items := default [] (tt_itemsByFlow t !! key) in
  if (i <? length items)%nat then Some (mkTcpTable (<[key := delete i items]> (tt_itemsByFlow t)) (tt_itemsPool t)) else None.

Definition tcp_reset (t : tcpGROTable) : tcpGROTable := mkTcpTable ∅ (tt_itemsPool t + size (tt_itemsByFlow t)).

Record udpFlowKey := mkUdpKey {
  uk_srcAddr : list Z;
  uk_dstAddr : list Z;
  uk_srcPort : Z;
  uk_dstPort : Z;
  uk_isV6 : bool;
}.

#[export] Instance udpFlowKey_eq_dec : EqDecision udpFlowKey.
Proof. solve_decision. Defined.
#[export] Instance udpFlowKey_countable : Countable udpFlowKey.
Proof.
  apply (inj_countable' (λ k, (uk_srcAddr k, uk_dstAddr k, uk_srcPort k, uk_dstPort k, uk_isV6 k))
    (λ '(a, b, c, d, e), mkUdpKey a b c d e)). by intros [].
Defined.

Record udpGROItem := mkUdpItem {
  ui_key : udpFlowKey;
  ui_bufsIndex : nat;
  ui_numMerged : Z;
  ui_gsoSize : Z;
  ui_iphLen : nat;
  ui_cSumKnownInvalid : bool;
}.

Record udpGROTable := mkUdpTable {
  ut_itemsByFlow : gmap udpFlowKey (list udpGROItem);
  ut_itemsPool : nat;
}.

Definition newUDPGROTable : udpGROTable := mkUdpTable ∅ IdealBatchSize.

Definition newUDPFlowKey (pkt : list Z) (srcAddrOffset dstAddrOffset udphOffset : nat) : option udpFlowKey :=
  let addrSize := (dstAddrOffset - srcAddrOffset)%nat in
  src ← cut pkt srcAddrOffset dstAddrOffset;
  dst ← cut pkt dstAddrOffset (dstAddrOffset + addrSize);
  srcPort ← u16_at pkt udphOffset;
  dstPort ← u16_at pkt (udphOffset + 2);
  Some (mkUdpKey (addr16 src) (addr16 dst) srcPort dstPort (addrSize =? 16)%nat).

Definition udp_insert (t : udpGROTable) (pkt : list Z) (srcAddrOffset dstAddrOffset udphOffset bufsIndex : nat) (cSumKnownInvalid : bool)
    : option udpGROTable :=
  key ← newUDPFlowKey pkt srcAddrOffset dstAddrOffset udphOffset;
  payload ← from pkt (udphOffset + udphLen);
  let item := mkUdpItem key (nat16 bufsIndex) 0 (uint16 (len payload)) (nat8 udphOffset) cSumKnownInvalid in
  match ut_itemsByFlow t !! key with
  | Some items => Some (mkUdpTable (<[key := items ++ [item]]> (ut_itemsByFlow t)) (ut_itemsPool t))
  | None =>
      match ut_itemsPool t with
      | O => None
      | S pool => Some (mkUdpTable (<[key := [item]]> (ut_itemsByFlow t)) pool)
      end
  end.

Definition udp_lookupOrInsert (t : udpGROTable) pkt srcAddrOffset dstAddrOffset udphOffset bufsIndex
    : option (udpGROTable * option (list udpGROItem)) :=
  key ← newUDPFlowKey pkt srcAddrOffset dstAddrOffset udphOffset;
  match ut_itemsByFlow t !! key with
  | Some items => Some (t, Some items)
  | None => t ← udp_insert t pkt srcAddrOffset dstAddrOffset udphOffset bufsIndex false; Some (t, None)
  end.

Definition udp_updateAt (t : udpGROTable) (item : udpGROItem) (i : nat) : option udpGROTable :=
  let items := default [] (ut_itemsByFlow t !! ui_key item) in
  if (i <? length items)%nat then Some (mkUdpTable (<[ui_key item := <[i := item]> items]> (ut_itemsByFlow t)) (ut_itemsPool t)) else None.

Definition udp_reset (t : udpGROTable) : udpGROTable := mkUdpTable ∅ (ut_itemsPool t + size (ut_itemsByFlow t)).

(** ** Which packets can be merged *)

Inductive canCoalesce := coalescePrepend | coalesceUnavailable | coalesceAppend.

(** The indices are below nine. *)
Definition ipHeadersCanCoalesce (pktA pktB : list Z) : bool :=
  let a i := default 0 (pktA !! i) in
  let b i := default 0 (pktB !! i) in
  if (length pktA <? 9)%nat || (length pktB <? 9)%nat then false
  else if Z.shiftr (a 0%nat) 4 =? 6 then
    if negb (a 0%nat =? b 0%nat) || negb (Z.shiftr (a 1%nat) 4 =? Z.shiftr (b 1%nat) 4) then false
    else (a 7%nat =? b 7%nat)
  else
    if negb (a 1%nat =? b 1%nat) then false
    else if negb (Z.shiftr (a 6%nat) 5 =? Z.shiftr (b 6%nat) 5) then false
    else (a 8%nat =? b 8%nat).

Definition udpPacketsCanCoalesce (pkt : list Z) (iphLen : nat) (gsoSize : Z) (item : udpGROItem) (bufs : list gbuf) (bufsOffset : nat)
    : option canCoalesce :=
  b ← bufs !! ui_bufsIndex item;
  pktTarget ← from (gb_data b) bufsOffset;
  if negb (ipHeadersCanCoalesce pkt pktTarget) then Some coalesceUnavailable
  else
    payload ← from pktTarget (iphLen + udphLen);
    if ui_gsoSize item =? 0 then None
    else if negb (len payload mod ui_gsoSize item =? 0) then Some coalesceUnavailable
    else if ui_gsoSize item <? gsoSize then Some coalesceUnavailable
    else Some coalesceAppend.

Definition tcpPacketsCanCoalesce (pkt : list Z) (iphLen tcphLen : nat) (seq : Z) (pshSet : bool) (gsoSize : Z) (item : tcpGROItem)
    (bufs : list gbuf) (bufsOffset : nat) : option canCoalesce :=
  b ← bufs !! ti_bufsIndex item;
  pktTarget ← from (gb_data b) bufsOffset;
  if negb (tcphLen =? ti_tcphLen item)%nat then Some coalesceUnavailable
  else
    same_options ← (if (20 <? tcphLen)%nat then
                      o1 ← cut pkt (iphLen + 20) (iphLen + tcphLen);
                      o2 ← cut pktTarget (ti_iphLen item + 20) (iphLen + tcphLen);
                      Some (bool_decide (o1 = o2))
                    else Some true);
    if negb same_options then Some coalesceUnavailable
    else if negb (ipHeadersCanCoalesce pkt pktTarget) then Some coalesceUnavailable
    else
      let lhsLen := uint16 (ti_gsoSize item + uint16 (ti_numMerged item * ti_gsoSize item)) in
      if seq =? uint32 (ti_sentSeq item + lhsLen) then
        if ti_pshSet item then Some coalesceUnavailable
        else
          payload ← from pktTarget (iphLen + tcphLen);
          if ti_gsoSize item =? 0 then None
          else if negb (len payload mod ti_gsoSize item =? 0) then Some coalesceUnavailable
          else if ti_gsoSize item <? gsoSize then Some coalesceUnavailable
          else Some coalesceAppend
      else if uint32 (seq + gsoSize) =? ti_sentSeq item then
        if pshSet then Some coalesceUnavailable
        else if gsoSize <? ti_gsoSize item then Some coalesceUnavailable
        else if (ti_gsoSize item <? gsoSize) && (0 <? ti_numMerged item) then Some coalesceUnavailable
        else Some coalescePrepend
      else Some coalesceUnavailable.

Inductive coalesceResult := coalesceInsufficientCap | coalescePSHEnding | coalesceItemInvalidCSum | coalescePktInvalidCSum | coalesceSuccess.

(** ** Merging *)

Section checksums.
Variable little : bool.

(** The complement of a [uint16]. *)
Definition not16 (z : Z) : Z := 65535 - z.

Definition checksumValid (pkt : list Z) (iphLen : nat) (proto : Z) (isV6 : bool) : option bool :=
  let srcAddrAt := if isV6 then ipv6SrcAddrOffset else ipv4SrcAddrOffset in
  let addrSize := if isV6 then 16%nat else 4%nat in
  let lenForPseudo := uint16 (len pkt - Z.of_nat iphLen) in
  src ← cut pkt srcAddrAt (srcAddrAt + addrSize);
  dst ← cut pkt (srcAddrAt + addrSize) (srcAddrAt + addrSize * 2);
  transport ← from pkt iphLen;
  let cSum := pseudoHeaderChecksumNoFold little proto src dst lenForPseudo in
  Some (not16 (checksum little transport cSum) =? 0).

Definition coalesceUDPPackets (pkt : list Z) (item : udpGROItem) (bufs : list gbuf) (bufsOffset : nat) (isV6 : bool)
    : option (coalesceResult * udpGROItem * list gbuf) :=
  b ← bufs !! ui_bufsIndex item;
  pktHead ← from (gb_data b) bufsOffset;
  let headersLen := nat8 (ui_iphLen item + udphLen) in
  let coalescedLen := len pktHead + len pkt - Z.of_nat headersLen in
  if gb_cap b - Z.of_nat bufsOffset - Z.of_nat bufsOffset <? coalescedLen then Some (coalesceInsufficientCap, item, bufs)
  else
    item_valid ← (if ui_numMerged item =? 0
                  then if ui_cSumKnownInvalid item then Some false else checksumValid pktHead (ui_iphLen item) IPPROTO_UDP isV6
                  else Some true);
    if negb item_valid then Some (coalesceItemInvalidCSum, item, bufs)
    else
      pkt_valid ← checksumValid pkt (ui_iphLen item) IPPROTO_UDP isV6;
      if negb pkt_valid then Some (coalescePktInvalidCSum, item, bufs)
      else
        payload ← from pkt headersLen;
        Some (coalesceSuccess,
              mkUdpItem (ui_key item) (ui_bufsIndex item) (uint16 (ui_numMerged item + 1)) (ui_gsoSize item) (ui_iphLen item) (ui_cSumKnownInvalid item),
              <[ui_bufsIndex item := mkGbuf (gb_data b ++ payload) (gb_cap b)]> bufs).

(** The item and its buffer after a packet was put in front or behind. *)
Definition merged_item (item : tcpGROItem) (seq gsoSize : Z) (psh : bool) : tcpGROItem :=
  mkTcpItem (ti_key item) seq (ti_bufsIndex item) (uint16 (ti_numMerged item + 1))
    (if ti_gsoSize item <? gsoSize then gsoSize else ti_gsoSize item) (ti_iphLen item) (ti_tcphLen item) psh.

Definition coalesceTCPPackets (mode : canCoalesce) (pkt : list Z) (pktBuffsIndex : nat) (gsoSize seq : Z) (pshSet : bool) (item : tcpGROItem)
    (bufs : list gbuf) (bufsOffset : nat) (isV6 : bool) : option (coalesceResult * tcpGROItem * list gbuf) :=
  let headersLen := nat8 (ti_iphLen item + ti_tcphLen item) in
  b ← bufs !! ti_bufsIndex item;
  target ← from (gb_data b) bufsOffset;
  let coalescedLen := len target + len pkt - Z.of_nat headersLen in
  let checked (k : option (coalesceResult * tcpGROItem * list gbuf)) :=
    item_valid ← (if ti_numMerged item =? 0 then checksumValid target (ti_iphLen item) IPPROTO_TCP isV6 else Some true);
    if negb item_valid then Some (coalesceItemInvalidCSum, item, bufs)
    else
      pkt_valid ← checksumValid pkt (ti_iphLen item) IPPROTO_TCP isV6;
      if negb pkt_valid then Some (coalescePktInvalidCSum, item, bufs) else k in
  match mode with
  | coalescePrepend =>
      pb ← bufs !! pktBuffsIndex;
      if gb_cap pb - Z.of_nat bufsOffset - Z.of_nat bufsOffset <? coalescedLen then Some (coalesceInsufficientCap, item, bufs)
      else if pshSet then Some (coalescePSHEnding, item, bufs)
      else checked (
        payload ← from (gb_data b) (bufsOffset + headersLen);
        let merged := mkGbuf (gb_data pb ++ payload) (gb_cap pb) in
        Some (coalesceSuccess, merged_item item seq gsoSize (ti_pshSet item),
              <[pktBuffsIndex := b]> (<[ti_bufsIndex item := merged]> bufs)))
  | _ =>
      if gb_cap b - Z.of_nat bufsOffset - Z.of_nat bufsOffset <? coalescedLen then Some (coalesceInsufficientCap, item, bufs)
      else checked (
        data ← (if pshSet then
                  flags ← u8_at target (ti_iphLen item + tcpFlagsOffset);
                  put8 (gb_data b) (bufsOffset + (ti_iphLen item + tcpFlagsOffset)) (Z.lor flags tcpFlagPSH)
                else Some (gb_data b));
        payload ← from pkt headersLen;
        Some (coalesceSuccess, merged_item item (ti_sentSeq item) gsoSize (if pshSet then true else ti_pshSet item),
              <[ti_bufsIndex item := mkGbuf (data ++ payload) (gb_cap b)]> bufs))
  end.

(** ** Evaluating a packet *)

Inductive groResult := groResultNoop | groResultTableInsert | groResultCoalesced.

(** The loop over the items of a flow, from the last to the first: the first [i] of them are
    left. *)
Fixpoint tcp_scan (i : nat) (items : list tcpGROItem) (pkt : list Z) (iphLen tcphLen : nat) (seq : Z) (pshSet : bool) (gsoSize : Z)
    (offset pktI : nat) (isV6 : bool) (bufs : list gbuf) (t : tcpGROTable) : option (option groResult * list gbuf * tcpGROTable) :=
  match i with
  | O => Some (None, bufs, t)
  | S i =>
      item ← items !! i;
      can ← tcpPacketsCanCoalesce pkt (nat8 iphLen) (nat8 tcphLen) seq pshSet gsoSize item bufs offset;
      let next t := tcp_scan i items pkt iphLen tcphLen seq pshSet gsoSize offset pktI isV6 bufs t in
      match can with
      | coalesceUnavailable => next t
      | _ =>
          '(result, item', bufs') ← coalesceTCPPackets can pkt pktI gsoSize seq pshSet item bufs offset isV6;
          match result with
          | coalesceSuccess => t ← tcp_updateAt t item' i; Some (Some groResultCoalesced, bufs', t)
          | coalesceItemInvalidCSum => t ← tcp_deleteAt t (ti_key item) i; next t
          | coalescePktInvalidCSum => Some (Some groResultNoop, bufs, t)
          | _ => next t
          end
      end
  end.

(** The length of the IP header, if the packet has the length its header says. *)
Definition ip_header (pkt : list Z) (isV6 : bool) : option (option nat) :=
  if isV6 then
    n ← u16_at pkt 4;
    Some (if n =? len pkt - 40 then Some 40%nat else None)
  else
    b0 ← u8_at pkt 0;
    n ← u16_at pkt 2;
    Some (if n =? len pkt then Some (Z.to_nat (uint8 (Z.land b0 0x0F * 4))) else None).

Definition fragmented (pkt : list Z) (isV6 : bool) : option bool :=
  if isV6 then Some false
  else
    b6 ← u8_at pkt 6;
    b7 ← u8_at pkt 7;
    Some (negb (Z.land b6 ipv4FlagMoreFragments =? 0) || negb (uint8 (Z.shiftl b6 3) =? 0) || negb (b7 =? 0)).

Definition tcpGRO (bufs : list gbuf) (offset pktI : nat) (t : tcpGROTable) (isV6 : bool) : option (groResult * list gbuf * tcpGROTable) :=
  pb ← bufs !! pktI;
  pkt ← from (gb_data pb) offset;
  if maxUint16 <? len pkt then Some (groResultNoop, bufs, t)
  else
    hdr ← ip_header pkt isV6;
    match hdr with
    | None => Some (groResultNoop, bufs, t)
    | Some iphLen =>
        if (length pkt <? iphLen)%nat then Some (groResultNoop, bufs, t)
        else
          b12 ← u8_at pkt (iphLen + 12);
          let tcphLen := Z.to_nat (uint8 (Z.shiftr b12 4 * 4)) in
          if (tcphLen <? 20)%nat || (60 <? tcphLen)%nat then Some (groResultNoop, bufs, t)
          else if (length pkt <? iphLen + tcphLen)%nat then Some (groResultNoop, bufs, t)
          else
            frag ← fragmented pkt isV6;
            if (frag : bool) then Some (groResultNoop, bufs, t)
            else
              tcpFlags ← u8_at pkt (iphLen + tcpFlagsOffset);
              if negb (tcpFlags =? tcpFlagACK) && negb (tcpFlags =? Z.lor tcpFlagACK tcpFlagPSH) then Some (groResultNoop, bufs, t)
              else
                let pshSet := negb (tcpFlags =? tcpFlagACK) in
                let gsoSize := uint16 (len pkt - Z.of_nat tcphLen - Z.of_nat iphLen) in
                if gsoSize <? 1 then Some (groResultNoop, bufs, t)
                else
                  seq ← u32_at pkt (iphLen + 4);
                  let srcAddrOffset := if isV6 then ipv6SrcAddrOffset else ipv4SrcAddrOffset in
                  let addrLen := if isV6 then 16%nat else 4%nat in
                  '(t, existing) ← tcp_lookupOrInsert t pkt srcAddrOffset (srcAddrOffset + addrLen) iphLen tcphLen pktI;
                  match existing with
                  | None => Some (groResultTableInsert, bufs, t)
                  | Some items =>
                      '(done, bufs, t) ← tcp_scan (length items) items pkt iphLen tcphLen seq pshSet gsoSize offset pktI isV6 bufs t;
                      match (done : option groResult) with
                      | Some r => Some (r, bufs, t)
                      | None =>
                          t ← tcp_insert t pkt srcAddrOffset (srcAddrOffset + addrLen) iphLen tcphLen pktI;
                          Some (groResultTableInsert, bufs, t)
                      end
                  end
    end.

Definition udpGRO (bufs : list gbuf) (offset pktI : nat) (t : udpGROTable) (isV6 : bool) : option (groResult * list gbuf * udpGROTable) :=
  pb ← bufs !! pktI;
  pkt ← from (gb_data pb) offset;
  if maxUint16 <? len pkt then Some (groResultNoop, bufs, t)
  else
    hdr ← ip_header pkt isV6;
    match hdr with
    | None => Some (groResultNoop, bufs, t)
    | Some iphLen =>
        if (length pkt <? iphLen)%nat then Some (groResultNoop, bufs, t)
        else if (length pkt <? iphLen + udphLen)%nat then Some (groResultNoop, bufs, t)
        else
          frag ← fragmented pkt isV6;
          if (frag : bool) then Some (groResultNoop, bufs, t)
          else
            let gsoSize := uint16 (len pkt - Z.of_nat udphLen - Z.of_nat iphLen) in
            if gsoSize <? 1 then Some (groResultNoop, bufs, t)
            else
              let srcAddrOffset := if isV6 then ipv6SrcAddrOffset else ipv4SrcAddrOffset in
              let addrLen := if isV6 then 16%nat else 4%nat in
              let insert t invalid := t ← udp_insert t pkt srcAddrOffset (srcAddrOffset + addrLen) iphLen pktI invalid;
                                      Some (groResultTableInsert, bufs, t) in
              '(t, existing) ← udp_lookupOrInsert t pkt srcAddrOffset (srcAddrOffset + addrLen) iphLen pktI;
              match existing with
              | None => Some (groResultTableInsert, bufs, t)
              | Some items =>
                  item ← last items;
                  can ← udpPacketsCanCoalesce pkt (nat8 iphLen) gsoSize item bufs offset;
                  match can with
                  | coalesceAppend =>
                      '(result, item', bufs') ← coalesceUDPPackets pkt item bufs offset isV6;
                      match result with
                      | coalesceSuccess => t ← udp_updateAt t item' (length items - 1); Some (groResultCoalesced, bufs', t)
                      | coalescePktInvalidCSum => insert t true
                      | _ => insert t false
                      end
                  | _ => insert t false
                  end
              end
    end.

(** ** Accounting *)

(** A [uint16] in native byte order. *)
Definition native16 (z : Z) : list Z := if little then reverse (be_encode 2 z) else be_encode 2 z.
Definition native16_decode (b : list Z) : Z := be_decode (if little then reverse b else b).

Definition hdr_bytes (v : virtioNetHdr) : list Z :=
  [vh_flags v; vh_gsoType v] ++ native16 (vh_hdrLen v) ++ native16 (vh_gsoSize v) ++ native16 (vh_csumStart v) ++ native16 (vh_csumOffset v).

(** [None] is [io.ErrShortBuffer]. *)
Definition hdr_encode (v : virtioNetHdr) (b : list Z) : option (list Z) :=
  if (length b <? virtioNetHdrLen)%nat then None else Some (write_at 0 (hdr_bytes v) b).

Definition hdr_decode (b : list Z) : option virtioNetHdr :=
  if (length b <? virtioNetHdrLen)%nat then None
  else Some (mkVirtio (default 0 (b !! 0%nat)) (default 0 (b !! 1%nat)) (native16_decode (slice 2 4 b)) (native16_decode (slice 4 6 b))
               (native16_decode (slice 6 8 b)) (native16_decode (slice 8 10 b))).

(** The new lengths and checksum of the IP header. *)
Definition fix_ip_header (pkt : list Z) (iphLen : nat) (isV6 : bool) : option (list Z) :=
  if isV6 then put16 pkt 4 (uint16 (uint16 (len pkt) - Z.of_nat iphLen))
  else
    pkt ← put8 pkt 10 0;
    pkt ← put8 pkt 11 0;
    pkt ← put16 pkt 2 (uint16 (len pkt));
    h ← cut pkt 0 iphLen;
    put16 pkt 10 (not16 (checksum little h 0)).

(** The sum over the pseudo header, where the transport checksum goes. *)
Definition put_pseudo (pkt : list Z) (proto : Z) (iphLen at_ : nat) (isV6 : bool) : option (list Z) :=
  let addrLen := if isV6 then 16%nat else 4%nat in
  let addrOffset := if isV6 then ipv6SrcAddrOffset else ipv4SrcAddrOffset in
  src ← cut pkt addrOffset (addrOffset + addrLen);
  dst ← cut pkt (addrOffset + addrLen) (addrOffset + addrLen * 2);
  let psum := pseudoHeaderChecksumNoFold little proto src dst (uint16 (len pkt - Z.of_nat iphLen)) in
  put16 pkt at_ (checksum little [] psum).

(** Writing the header of the kernel in front of the packet; an error is [inl]. *)
Definition encode_front (data : list Z) (offset : nat) (v : virtioNetHdr) : option (unit + list Z) :=
  if (offset <? virtioNetHdrLen)%nat then None
  else
    b ← from data (offset - virtioNetHdrLen);
    Some (match hdr_encode v b with None => inl tt | Some b => inr (take (offset - virtioNetHdrLen) data ++ b) end).

Definition tcp_account (bufs : list gbuf) (offset : nat) (item : tcpGROItem) : option (unit + list gbuf) :=
  b ← bufs !! ti_bufsIndex item;
  if 0 <? ti_numMerged item then
    let isV6 := tk_isV6 (ti_key item) in
    let iphLen := ti_iphLen item in
    let hdr := mkVirtio VIRTIO_NET_HDR_F_NEEDS_CSUM (if isV6 then VIRTIO_NET_HDR_GSO_TCPV6 else VIRTIO_NET_HDR_GSO_TCPV4)
                 (Z.of_nat (nat8 (iphLen + ti_tcphLen item))) (ti_gsoSize item) (Z.of_nat iphLen) 16 in
    pkt ← from (gb_data b) offset;
    pkt ← fix_ip_header pkt iphLen isV6;
    r ← encode_front (take offset (gb_data b) ++ pkt) offset hdr;
    match r with
    | inl _ => Some (inl tt)
    | inr data =>
        pkt ← put_pseudo pkt IPPROTO_TCP iphLen (iphLen + 16) isV6;
        Some (inr (<[ti_bufsIndex item := mkGbuf (take offset data ++ pkt) (gb_cap b)]> bufs))
    end
  else
    r ← encode_front (gb_data b) offset zero_hdr;
    Some (match r with inl _ => inl tt | inr data => inr (<[ti_bufsIndex item := mkGbuf data (gb_cap b)]> bufs) end).

Definition udp_account (bufs : list gbuf) (offset : nat) (item : udpGROItem) : option (unit + list gbuf) :=
  b ← bufs !! ui_bufsIndex item;
  if 0 <? ui_numMerged item then
    let isV6 := uk_isV6 (ui_key item) in
    let iphLen := ui_iphLen item in
    let hdr := mkVirtio VIRTIO_NET_HDR_F_NEEDS_CSUM VIRTIO_NET_HDR_GSO_UDP_L4
                 (Z.of_nat (nat8 (iphLen + udphLen))) (ui_gsoSize item) (Z.of_nat iphLen) 6 in
    pkt ← from (gb_data b) offset;
    pkt ← fix_ip_header pkt iphLen isV6;
    r ← encode_front (take offset (gb_data b) ++ pkt) offset hdr;
    match r with
    | inl _ => Some (inl tt)
    | inr data =>
        transport ← from pkt iphLen;
        pkt ← put16 pkt (iphLen + 4) (uint16 (len transport));
        pkt ← put_pseudo pkt IPPROTO_UDP iphLen (iphLen + 6) isV6;
        Some (inr (<[ui_bufsIndex item := mkGbuf (take offset data ++ pkt) (gb_cap b)]> bufs))
    end
  else
    r ← encode_front (gb_data b) offset zero_hdr;
    Some (match r with inl _ => inl tt | inr data => inr (<[ui_bufsIndex item := mkGbuf data (gb_cap b)]> bufs) end).

(** A loop over items that stops at the first error. *)
Fixpoint account {I} (f : list gbuf → I → option (unit + list gbuf)) (items : list I) (bufs : list gbuf) : option (list gbuf * bool) :=
  match items with
  | [] => Some (bufs, true)
  | item :: items =>
      r ← f bufs item;
      match r with inl _ => Some (bufs, false) | inr bufs => account f items bufs end
  end.

Definition applyTCPCoalesceAccounting `{MapRange} (bufs : list gbuf) (offset : nat) (t : tcpGROTable) : option (list gbuf * bool) :=
  account (λ bufs item, tcp_account bufs offset item) (map_range (tt_itemsByFlow t) ≫= snd) bufs.

Definition applyUDPCoalesceAccounting `{MapRange} (bufs : list gbuf) (offset : nat) (t : udpGROTable) : option (list gbuf * bool) :=
  account (λ bufs item, udp_account bufs offset item) (map_range (ut_itemsByFlow t) ≫= snd) bufs.

(** ** A batch *)

Inductive groCandidateType := notGROCandidate | tcp4GROCandidate | tcp6GROCandidate | udp4GROCandidate | udp6GROCandidate.

(** The indices are below 28. *)
Definition packetIsGROCandidate (b : list Z) (canUDPGRO : bool) : groCandidateType :=
  let at_ i := default 0 (b !! i) in
  if (length b <? 28)%nat then notGROCandidate
  else if Z.shiftr (at_ 0%nat) 4 =? 4 then
    if negb (Z.land (at_ 0%nat) 0x0F =? 5) then notGROCandidate
    else if (at_ 9%nat =? IPPROTO_TCP) && (40 <=? length b)%nat then tcp4GROCandidate
    else if (at_ 9%nat =? IPPROTO_UDP) && canUDPGRO then udp4GROCandidate
    else notGROCandidate
  else if Z.shiftr (at_ 0%nat) 4 =? 6 then
    if (at_ 6%nat =? IPPROTO_TCP) && (60 <=? length b)%nat then tcp6GROCandidate
    else if (at_ 6%nat =? IPPROTO_UDP) && (48 <=? length b)%nat && canUDPGRO then udp6GROCandidate
    else notGROCandidate
  else notGROCandidate.

Record groState := mkGro {
  gs_bufs : list gbuf;
  gs_tcp : tcpGROTable;
  gs_udp : udpGROTable;
  gs_toWrite : list nat;
}.

(** One round of the loop of [handleGRO]; an error is [inl]. *)
Definition gro_packet (offset : nat) (canUDPGRO : bool) (st : groState) (i : nat) : option (unit + groState) :=
  b ← gs_bufs st !! i;
  if (offset <? virtioNetHdrLen)%nat || (len (gb_data b) - 1 <? Z.of_nat offset) then Some (inl tt)
  else
    pkt ← from (gb_data b) offset;
    let tcp v6 := '(r, bufs, t) ← tcpGRO (gs_bufs st) offset i (gs_tcp st) v6; Some (r, mkGro bufs t (gs_udp st) (gs_toWrite st)) in
    let udp v6 := '(r, bufs, t) ← udpGRO (gs_bufs st) offset i (gs_udp st) v6; Some (r, mkGro bufs (gs_tcp st) t (gs_toWrite st)) in
    '(result, st) ← match packetIsGROCandidate pkt canUDPGRO with
                    | tcp4GROCandidate => tcp false
                    | tcp6GROCandidate => tcp true
                    | udp4GROCandidate => udp false
                    | udp6GROCandidate => udp true
                    | notGROCandidate => Some (groResultNoop, st)
                    end;
    match result with
    | groResultNoop =>
        b ← gs_bufs st !! i;
        r ← encode_front (gb_data b) offset zero_hdr;
        Some (match r with
              | inl _ => inl tt
              | inr data => inr (mkGro (<[i := mkGbuf data (gb_cap b)]> (gs_bufs st)) (gs_tcp st) (gs_udp st) (gs_toWrite st ++ [i]))
              end)
    | groResultTableInsert => Some (inr (mkGro (gs_bufs st) (gs_tcp st) (gs_udp st) (gs_toWrite st ++ [i])))
    | groResultCoalesced => Some (inr st)
    end.

Fixpoint gro_loop (offset : nat) (canUDPGRO : bool) (idxs : list nat) (st : groState) : option (unit + groState) :=
  match idxs with
  | [] => Some (inr st)
  | i :: idxs =>
      r ← gro_packet offset canUDPGRO st i;
      match r with inl _ => Some (inl tt) | inr st => gro_loop offset canUDPGRO idxs st end
  end.

(** The buffers and which of them to write, or an error. *)
Definition handleGRO `{MapRange} (bufs : list gbuf) (offset : nat) (tcpTable : tcpGROTable) (udpTable : udpGROTable) (canUDPGRO : bool)
    : option (unit + groState) :=
  r ← gro_loop offset canUDPGRO (seq 0 (length bufs)) (mkGro bufs tcpTable udpTable []);
  match r with
  | inl _ => Some (inl tt)
  | inr st =>
      '(bufs, okT) ← applyTCPCoalesceAccounting (gs_bufs st) offset (gs_tcp st);
      '(bufs, okU) ← applyUDPCoalesceAccounting bufs offset (gs_udp st);
      Some (if okT && okU then inr (mkGro bufs (gs_tcp st) (gs_udp st) (gs_toWrite st)) else inl tt)
  end.

(** ** Segmentation *)

(** The segment [i], with the data from [dataAt] on, in the buffer [buf]; the size of the
    packet. *)
Definition gso_segment (inp : list Z) (hdr : virtioNetHdr) (outOffset : nat) (isV6 : bool) (protocol firstTCPSeqNum : Z)
    (i : nat) (dataAt : Z) (buf : list Z) : option (list Z * Z) :=
  let iphLen := Z.to_nat (vh_csumStart hdr) in
  let hdrLen := Z.to_nat (vh_hdrLen hdr) in
  let at_ k := Z.to_nat (uint16 (vh_csumStart hdr + k)) in
  let srcAddrOffset := if isV6 then ipv6SrcAddrOffset else ipv4SrcAddrOffset in
  let addrLen := if isV6 then 16%nat else 4%nat in
  let nextSegmentEnd := Z.min (dataAt + vh_gsoSize hdr) (len inp) in
  let segmentDataLen := nextSegmentEnd - dataAt in
  let totalLen := vh_hdrLen hdr + segmentDataLen in
  out ← from buf outOffset;
  iph ← cut inp 0 iphLen;
  out ← copy_to out 0 iph;
  out ← (if negb isV6 then
           out ← (if (0 <? i)%nat then id ← u16_at out 4; put16 out 4 (uint16 (id + uint16 (Z.of_nat i))) else Some out);
           out ← put16 out 2 (uint16 totalLen);
           h ← cut out 0 iphLen;
           put16 out 10 (not16 (checksum little h 0))
         else put16 out 4 (uint16 (totalLen - Z.of_nat iphLen)));
  th ← cut inp iphLen hdrLen;
  _ ← cut out iphLen hdrLen;
  out ← copy_to out iphLen th;
  out ← (if protocol =? IPPROTO_TCP then
           out ← put32 out (at_ 4) (uint32 (firstTCPSeqNum + uint16 (vh_gsoSize hdr * uint16 (Z.of_nat i))));
           if negb (nextSegmentEnd =? len inp) then
             flags ← u8_at out (at_ 13);
             put8 out (at_ 13) (Z.ldiff flags (Z.lor tcpFlagFIN tcpFlagPSH))
           else Some out
         else put16 out (at_ 4) (uint16 (uint16 segmentDataLen + uint16 (vh_hdrLen hdr - vh_csumStart hdr))));
  payload ← cut inp (Z.to_nat dataAt) (Z.to_nat nextSegmentEnd);
  out ← copy_to out hdrLen payload;
  src ← cut inp srcAddrOffset (srcAddrOffset + addrLen);
  dst ← cut inp (srcAddrOffset + addrLen) (srcAddrOffset + addrLen * 2);
  let lenForPseudo := uint16 (uint16 (vh_hdrLen hdr - vh_csumStart hdr) + segmentDataLen) in
  t ← cut out iphLen (Z.to_nat totalLen);
  let transportCSum := not16 (checksum little t (pseudoHeaderChecksumNoFold little protocol src dst lenForPseudo)) in
  out ← put16 out (at_ (vh_csumOffset hdr)) transportCSum;
  Some (take outOffset buf ++ out, totalLen).

(** The loop, which ends with the data or with the buffers: the buffers, the sizes, and
    whether everything fitted. *)
Fixpoint gso_loop (inp : list Z) (hdr : virtioNetHdr) (outOffset : nat) (isV6 : bool) (protocol firstTCPSeqNum : Z)
    (outs : list (list Z)) (i : nat) (dataAt : Z) : option (list (list Z) * list Z * bool) :=
  if dataAt <? len inp then
    match outs with
    | [] => Some ([], [], false)
    | out :: outs =>
        '(out, size) ← gso_segment inp hdr outOffset isV6 protocol firstTCPSeqNum i dataAt out;
        '(outs, sizes, ok) ← gso_loop inp hdr outOffset isV6 protocol firstTCPSeqNum outs (S i) (dataAt + vh_gsoSize hdr);
        Some (out :: outs, size :: sizes, ok)
    end
  else Some (outs, [], true).

Definition gsoSplit (inp : list Z) (hdr : virtioNetHdr) (outBuffs : list (list Z)) (outOffset : nat) (isV6 : bool)
    : option (list (list Z) * list Z * bool) :=
  inp ← (if negb isV6 then inp ← put8 inp 10 0; put8 inp 11 0 else Some inp);
  let transportCsumAt := Z.to_nat (uint16 (vh_csumStart hdr + vh_csumOffset hdr)) in
  inp ← put8 inp transportCsumAt 0;
  inp ← put8 inp (transportCsumAt + 1) 0;
  let is_tcp := (vh_gsoType hdr =? VIRTIO_NET_HDR_GSO_TCPV4) || (vh_gsoType hdr =? VIRTIO_NET_HDR_GSO_TCPV6) in
  first ← (if is_tcp then u32_at inp (Z.to_nat (uint16 (vh_csumStart hdr + 4))) else Some 0);
  gso_loop inp hdr outOffset isV6 (if is_tcp then IPPROTO_TCP else IPPROTO_UDP) first outBuffs 0 (vh_hdrLen hdr).

Definition gsoNoneChecksum (inp : list Z) (cSumStart cSumOffset : Z) : option (list Z) :=
  let cSumAt := Z.to_nat (uint16 (cSumStart + cSumOffset)) in
  initial ← u16_at inp cSumAt;
  inp ← put8 inp cSumAt 0;
  inp ← put8 inp (Z.to_nat (uint16 (cSumStart + cSumOffset + 1))) 0;
  t ← from inp (Z.to_nat cSumStart);
  put16 inp cSumAt (not16 (checksum little t initial)).

(** [handleVirtioRead]: the buffers and the sizes of the packets in them, or an error. *)
Definition handleVirtioRead (inp : list Z) (bufs : list (list Z)) (offset : nat) : option (unit + list (list Z) * list Z) :=
  match hdr_decode inp with
  | None => Some (inl tt)
  | Some hdr =>
      inp ← from inp virtioNetHdrLen;
      if vh_gsoType hdr =? VIRTIO_NET_HDR_GSO_NONE then
        inp ← (if negb (Z.land (vh_flags hdr) VIRTIO_NET_HDR_F_NEEDS_CSUM =? 0)
               then gsoNoneChecksum inp (vh_csumStart hdr) (vh_csumOffset hdr) else Some inp);
        match bufs with
        | [] => None
        | b :: bufs =>
            room ← from b offset;
            if len room <? len inp then Some (inl tt)
            else out ← copy_to room 0 inp; Some (inr ((take offset b ++ out) :: bufs, [len inp]))
        end
      else
        let ty := vh_gsoType hdr in
        let tcp4 := ty =? VIRTIO_NET_HDR_GSO_TCPV4 in
        let tcp6 := ty =? VIRTIO_NET_HDR_GSO_TCPV6 in
        let udp := ty =? VIRTIO_NET_HDR_GSO_UDP_L4 in
        if negb tcp4 && negb tcp6 && negb udp then Some (inl tt)
        else
          b0 ← u8_at inp 0;
          let version := Z.shiftr b0 4 in
          if negb (((version =? 4) && (tcp4 || udp)) || ((version =? 6) && (tcp6 || udp))) then Some (inl tt)
          else
            hdrLen ← (if udp then Some (inr (uint16 (vh_csumStart hdr + 8)))
                      else if len inp <=? uint16 (vh_csumStart hdr + 12) then Some (inl tt)
                      else
                        b12 ← u8_at inp (Z.to_nat (uint16 (vh_csumStart hdr + 12)));
                        let tcpHLen := uint8 (Z.shiftr b12 4 * 4) in
                        Some (if (tcpHLen <? 20) || (60 <? tcpHLen) then inl tt else inr (uint16 (vh_csumStart hdr + tcpHLen))));
            match hdrLen with
            | inl _ => Some (inl tt)
            | inr hdrLen =>
                let hdr := mkVirtio (vh_flags hdr) ty hdrLen (vh_gsoSize hdr) (vh_csumStart hdr) (vh_csumOffset hdr) in
                if (len inp <? hdrLen) || (hdrLen <? vh_csumStart hdr) ||
                   (len inp <=? uint16 (vh_csumStart hdr + vh_csumOffset hdr) + 1) then Some (inl tt)
                else
                  '(outs, sizes, ok) ← gsoSplit inp hdr bufs offset (version =? 6);
                  Some (if (ok : bool) then inr (outs, sizes) else inl tt)
            end
  end.

(** [Read], when [data] came from the kernel: the buffers, the sizes of the packets and their protocol, or an
    error. *)
Definition tun_Read (vnetHdr pi : bool) (data : list Z) (bufs : list (list Z)) (offset : nat) : option (unit + list (list Z) * list Z * Z) :=
  if pi && (len data <? Z.of_nat tunPILen) then Some (inl tt)
  else
    proto ← (if pi then b2 ← u8_at data 2; b3 ← u8_at data 3; Some (Z.lor (uint16 (Z.shiftl b2 8)) b3) else Some 0);
    data ← (if pi then from data tunPILen else Some data);
    if vnetHdr then
      r ← handleVirtioRead data bufs offset;
      Some (match r with inl _ => inl tt | inr (bufs, sizes) => inr (bufs, sizes, proto) end)
    else
      match bufs with
      | [] => None
      | b :: bufs =>
          room ← from b offset;
          if len room <? len data then Some (inl tt)
          else out ← copy_to room 0 data; Some (inr ((take offset b ++ out) :: bufs, [len data], proto))
      end.

(** ** Frames *)

(** What the tun device writes: each frame that goes to the kernel.  [vnetHdr] and [usePI] say which
    headers the kernel expects. *)
Definition pi_header (buf : list Z) (offset ipOffset : nat) (proto : option Z) : option (list Z) :=
  let p := match proto with
           | Some p => if p =? 0 then None else Some p
           | None => None
           end in
  let p := match p with
           | Some p => p
           | None => match buf !! ipOffset with Some b => if Z.shiftr b 4 =? 6 then 0x86dd else 0x0800 | None => 0x0800 end
           end in
  put_at buf offset [0; 0; uint8 (Z.shiftr p 8); uint8 p].

Definition writeWithProtos `{MapRange} (vnetHdr usePI udpGSO : bool) (tcpTable : tcpGROTable) (udpTable : udpGROTable)
    (bufs : list gbuf) (offset : nat) (protos : list Z) : option (unit + list (list Z)) :=
  r ← (if vnetHdr then
         r ← handleGRO bufs offset tcpTable udpTable udpGSO;
         Some (match r with inl _ => inl tt | inr st => inr (gs_bufs st, gs_toWrite st) end)
       else Some (inr (bufs, seq 0 (length bufs))));
  match r with
  | inl _ => Some (inl tt)
  | inr (bufs, toWrite) =>
      let start := (if vnetHdr then offset - virtioNetHdrLen else offset)%nat in
      if usePI && (start <? tunPILen)%nat && negb (bool_decide (toWrite = [])) then None
      else
        let start' := (if usePI then start - tunPILen else start)%nat in
        frames ← mapM (λ i, b ← bufs !! i;
                            data ← (if usePI then pi_header (gb_data b) start' offset (protos !! i) else Some (gb_data b));
                            from data start') toWrite;
        Some (inr frames)
  end.

End checksums.
