(* ===== verification/OffloadSplit.v ===== *)
(** Segmentation: what [gsoSplit] makes of a packet.  The packet is an IP header [A], a transport
    header [B] and data [P]; every segment carries the headers with its own lengths, numbers and
    checksums, and a piece of the data.

    It begins with facts shared by the proofs about segmentation offload: reading and writing parts of packets,
    and checksums that are stored in the bytes they sum up. *)

From S2P Require Import Prelude Bytes Checksum Offload.

(** ** Parts of packets *)

Lemma cut_Some p lo hi : (lo <= hi)%nat → (hi <= length p)%nat → cut p lo hi = Some (slice lo hi p).
Proof.
  intros. unfold cut. rewrite (proj2 (Nat.leb_le lo hi)), (proj2 (Nat.leb_le hi (length p))) by done. done.
Qed.

Lemma from_Some p lo : (lo <= length p)%nat → from p lo = Some (drop lo p).
Proof. intros. unfold from. by rewrite (proj2 (Nat.leb_le _ _)). Qed.

Lemma from_inv p lo q : from p lo = Some q → (lo <= length p)%nat ∧ q = drop lo p.
Proof. unfold from. destruct (Nat.leb_spec lo (length p)); [|done]. by intros [= <-]. Qed.

Lemma cut_inv p lo hi q : cut p lo hi = Some q → (lo <= hi <= length p)%nat ∧ q = slice lo hi p.
Proof.
  unfold cut. destruct (Nat.leb_spec lo hi); [|done]. destruct (Nat.leb_spec hi (length p)); [|done]. by intros [= <-].
Qed.

Lemma put_at_Some p i bs : (i + length bs <= length p)%nat → put_at p i bs = Some (write_at i bs p).
Proof. intros. unfold put_at. by rewrite (proj2 (Nat.leb_le _ _)). Qed.

Lemma slice_app_l {A} lo hi (a b : list A) : (hi <= length a)%nat → slice lo hi (a ++ b) = slice lo hi a.
Proof.
  intros H. apply list_eq. intros i. rewrite !lookup_slice. case_decide; [|done]. by rewrite lookup_app_l by lia.
Qed.

Lemma slice_app_r {A} lo hi (a b : list A) : (length a <= lo)%nat → slice lo hi (a ++ b) = slice (lo - length a) (hi - length a) b.
Proof.
  intros H. apply list_eq. intros i. rewrite !lookup_slice. case_decide; [|by rewrite decide_False by lia].
  rewrite decide_True by lia. rewrite lookup_app_r by lia. f_equal. lia.
Qed.

Lemma slice_whole {A} (a : list A) n : n = length a → slice 0 n a = a.
Proof. intros ->. unfold slice. rewrite Nat.sub_0_r, drop_0. apply firstn_all. Qed.

Lemma slice_app_all {A} (a b : list A) : slice 0 (length a) (a ++ b) = a.
Proof. rewrite slice_app_l by done. by apply slice_whole. Qed.

Lemma write_at_app_l {A} i (bs a b : list A) : (i + length bs <= length a)%nat → write_at i bs (a ++ b) = write_at i bs a ++ b.
Proof.
  intros H. unfold write_at. rewrite take_app_le, drop_app_le by lia. by rewrite <- !app_assoc.
Qed.

Lemma write_at_app_r {A} i (bs a b : list A) : (length a <= i)%nat → write_at i bs (a ++ b) = a ++ write_at (i - length a) bs b.
Proof.
  intros H. unfold write_at. rewrite take_app_ge by lia. rewrite drop_app_ge by lia. rewrite <- app_assoc. repeat f_equal. lia.
Qed.

Lemma write_at_0 {A} (bs b : list A) : length bs = length b → write_at 0 bs b = bs.
Proof. intros H. unfold write_at. rewrite take_0, Nat.add_0_l, H, drop_all, app_nil_r. done. Qed.

(** ** Sums *)

Lemma word_sum_app b1 b2 : Nat.Even (length b1) → word_sum (b1 ++ b2) = word_sum b1 + word_sum b2.
Proof. rewrite !word_sum_nsum. apply nsum_app. Qed.

Lemma word_sum_pos b : Forall is_byte b → 0 <= word_sum b.
Proof. rewrite word_sum_nsum. apply nsum_pos. Qed.

Lemma word_sum_be2 c : 0 <= c < 65536 → word_sum (be_encode 2 c) = c.
Proof.
  intros H. cbn [be_encode word_sum]. change (256 ^ Z.of_nat 1) with 256. change (256 ^ Z.of_nat 0) with 1.
  rewrite Z.div_1_r. Z.to_euclidean_division_equations. lia.
Qed.

(** A word of zeros is filled. *)
Lemma word_sum_store b k c : Nat.Even k → (k + 2 <= length b)%nat → slice k (k + 2) b = [0; 0] → 0 <= c < 65536 →
  word_sum (write_at k (be_encode 2 c) b) = word_sum b + c.
Proof.
  intros He Hk Hz Hc. assert (b = take k b ++ [0; 0] ++ drop (k + 2) b) as Hb.
  { rewrite <- Hz. unfold slice. replace (k + 2 - k)%nat with 2%nat by lia. rewrite <- (take_drop k b) at 1. f_equal.
    rewrite <- (take_drop 2 (drop k b)) at 1. f_equal. by rewrite drop_drop. }
  rewrite Hb at 2. unfold write_at. rewrite length_be_encode.
  assert (Nat.Even (length (take k b))) as He' by (rewrite length_take_le by lia; done).
  rewrite !word_sum_app by (done || (cbn; by exists 1%nat) || (rewrite length_be_encode; by exists 1%nat)).
  rewrite word_sum_be2 by done. cbn. lia.
Qed.

Lemma ones_sum_range s : 0 <= s → 0 <= ones_sum s < 65536.
Proof. intros H. unfold ones_sum. destruct (Z.eqb_spec s 0); [lia|]. pose proof (Z.mod_pos_bound (s - 1) 65535). lia. Qed.

(** The complement makes the sum all ones. *)
Lemma ones_sum_complement s : 0 <= s → ones_sum (s + (65535 - ones_sum s)) = 65535.
Proof.
  intros H. pose proof (ones_sum_range s H) as Hr. unfold ones_sum at 1. destruct (Z.eqb_spec (s + (65535 - ones_sum s)) 0) as [E|E].
  - assert (s = 0) as -> by lia. done.
  - unfold ones_sum in *. destruct (Z.eqb_spec s 0) as [->|Hs]; [done|].
    replace (s + (65535 - (1 + (s - 1) mod 65535)) - 1) with (65534 + ((s - 1) - (s - 1) mod 65535)) by lia.
    rewrite (Z.div_mod (s - 1) 65535) at 1 by lia. replace (65535 * ((s - 1) / 65535) + (s - 1) mod 65535 - (s - 1) mod 65535)
      with ((s - 1) / 65535 * 65535) by lia. rewrite Z.mod_add by lia. done.
Qed.

Section sums.
Variable little : bool.

(** What the pseudo header adds. *)
Definition pseudo_sum (proto : Z) (src dst : list Z) (l : Z) : Z := word_sum src + word_sum dst + proto + l.

Lemma pseudo_spec proto src dst l : is_u8 proto → Forall is_byte src → Forall is_byte dst → 0 <= l < 65536 →
  0 <= pseudoHeaderChecksumNoFold little proto src dst l < 2 ^ 64 ∧
  same_sum (pseudoHeaderChecksumNoFold little proto src dst l) (pseudo_sum proto src dst l).
Proof.
  intros Hp Hs Hd Hl. unfold pseudoHeaderChecksumNoFold, pseudo_sum.
  destruct (checksumNoFold_spec little src 0 Hs ltac:(lia)) as [R1 S1]. set (s1 := checksumNoFold little src 0) in *.
  destruct (checksumNoFold_spec little dst s1 Hd R1) as [R2 S2]. set (s2 := checksumNoFold little dst s1) in *.
  assert (Forall is_byte [0; proto]) as Hb by (apply Forall_cons; split; [by vm_compute|]; apply Forall_cons; split; [done|constructor]).
  destruct (checksumNoFold_spec little [0; proto] s2 Hb R2) as [R3 S3]. set (s3 := checksumNoFold little [0; proto] s2) in *.
  destruct (checksumNoFold_spec little (be_encode 2 l) s3 (be_encode_bytes 2 l) R3) as [R4 S4]. split; [done|].
  assert (same_sum s1 (word_sum src)) as T1 by (by rewrite Z.add_0_r in S1).
  assert (same_sum s2 (word_sum dst + word_sum src)) as T2.
  { eapply same_sum_trans; [exact S2|]. apply same_sum_add; [apply same_sum_refl, word_sum_pos; done|done]. }
  assert (same_sum s3 (proto + (word_sum dst + word_sum src))) as T3.
  { eapply same_sum_trans; [exact S3|]. cbn [word_sum]. replace (256 * 0 + proto + 0) with proto by lia.
    unfold is_u8, in_width in Hp. apply same_sum_add; [apply same_sum_refl; lia|done]. }
  eapply same_sum_trans; [exact S4|]. rewrite word_sum_be2 by done.
  replace (word_sum src + word_sum dst + proto + l) with (l + (proto + (word_sum dst + word_sum src))) by lia.
  apply same_sum_add; [apply same_sum_refl; lia|done].
Qed.

Lemma pseudo_checksum t proto src dst l : Forall is_byte t → is_u8 proto → Forall is_byte src → Forall is_byte dst → 0 <= l < 65536 →
  checksum little t (pseudoHeaderChecksumNoFold little proto src dst l) = ones_sum (word_sum t + pseudo_sum proto src dst l).
Proof.
  intros Ht Hp Hs Hd Hl. destruct (pseudo_spec proto src dst l Hp Hs Hd Hl) as [Hr Hsame]. rewrite checksum_sum by done.
  apply ones_sum_same, same_sum_add; [|done]. apply same_sum_refl. by apply word_sum_pos.
Qed.

Lemma pseudo_sum_pos proto src dst l : is_u8 proto → Forall is_byte src → Forall is_byte dst → 0 <= l → 0 <= pseudo_sum proto src dst l.
Proof.
  intros Hp Hs Hd Hl. pose proof (word_sum_pos src Hs). pose proof (word_sum_pos dst Hd). unfold pseudo_sum, is_u8, in_width in *. lia.
Qed.

(** A checksum that is stored in a field of zeros makes the bytes sum up. *)
Lemma stored_checksum t k init total : Forall is_byte t → Nat.Even k → (k + 2 <= length t)%nat → slice k (k + 2) t = [0; 0] →
  (∀ t, Forall is_byte t → checksum little t init = ones_sum (word_sum t + total)) → 0 <= total →
  checksum little (write_at k (be_encode 2 (not16 (checksum little t init))) t) init = 65535.
Proof.
  intros Ht He Hk Hz Hsum Htot. pose proof (word_sum_pos t Ht) as Hp. rewrite (Hsum t Ht).
  pose proof (ones_sum_range (word_sum t + total) ltac:(lia)) as Hr. unfold not16.
  rewrite Hsum by (apply write_at_bytes; [apply be_encode_bytes|done]). rewrite word_sum_store by (done || lia).
  replace (word_sum t + (65535 - ones_sum (word_sum t + total)) + total)
    with (word_sum t + total + (65535 - ones_sum (word_sum t + total))) by lia. apply ones_sum_complement. lia.
Qed.

End sums.

(** ** Packets in parts *)

Lemma len_app p q : len (p ++ q) = len p + len q.
Proof. unfold len. rewrite length_app. lia. Qed.

Lemma cut_app_l p q lo hi : (hi <= length p)%nat → cut (p ++ q) lo hi = cut p lo hi.
Proof.
  intros H. unfold cut. rewrite length_app, (proj2 (Nat.leb_le hi (length p + length q))), (proj2 (Nat.leb_le hi (length p))) by lia.
  by rewrite slice_app_l.
Qed.

Lemma cut_app_all p q : cut (p ++ q) 0 (length p) = Some p.
Proof. rewrite cut_app_l, cut_Some by lia. f_equal. by apply slice_whole. Qed.

Lemma cut_app_mid p q r lo hi : lo = length p → hi = (length p + length q)%nat → cut (p ++ q ++ r) lo hi = Some q.
Proof.
  intros -> ->. rewrite cut_Some by (rewrite ?length_app; lia). f_equal. rewrite slice_app_r by done.
  replace (length p - length p)%nat with 0%nat by lia. replace (length p + length q - length p)%nat with (length q) by lia.
  apply slice_app_all.
Qed.

Lemma slice_shift {A} (p q : list A) lo hi : slice (length p + lo) (length p + hi) (p ++ q) = slice lo hi q.
Proof. rewrite slice_app_r by lia. f_equal; lia. Qed.

Lemma cut_shift p q n lo hi : n = length p → cut (p ++ q) (n + lo) (n + hi) = cut q lo hi.
Proof.
  intros ->. unfold cut. rewrite length_app, slice_shift.
  replace (length p + lo <=? length p + hi)%nat with (lo <=? hi)%nat by (apply eq_bool_prop_intro; rewrite !Is_true_true, !Nat.leb_le; lia).
  by replace (length p + hi <=? length p + length q)%nat with (hi <=? length q)%nat by (apply eq_bool_prop_intro; rewrite !Is_true_true, !Nat.leb_le; lia).
Qed.

Lemma cut_write_at_ne lo hi i bs p : (i + length bs <= length p)%nat → (hi <= i ∨ i + length bs <= lo)%nat →
  cut (write_at i bs p) lo hi = cut p lo hi.
Proof. intros Hi Hd. unfold cut. by rewrite length_write_at, slice_write_at_ne. Qed.

Lemma u16_at_app_l p q i : (i + 2 <= length p)%nat → u16_at (p ++ q) i = u16_at p i.
Proof. intros. unfold u16_at. by rewrite cut_app_l. Qed.

Lemma u16_at_Some p i : (i + 2 <= length p)%nat → u16_at p i = Some (be_decode (slice i (i + 2) p)).
Proof. intros. unfold u16_at. by rewrite cut_Some by lia. Qed.

Lemma u32_at_Some p i : (i + 4 <= length p)%nat → u32_at p i = Some (be_decode (slice i (i + 4) p)).
Proof. intros. unfold u32_at. by rewrite cut_Some by lia. Qed.

Lemma put_at_app_l p q i bs : (i + length bs <= length p)%nat → put_at (p ++ q) i bs = Some (write_at i bs p ++ q).
Proof. intros. rewrite put_at_Some by (rewrite length_app; lia). by rewrite write_at_app_l. Qed.

Lemma put_at_app_r p q i bs : (length p <= i)%nat → (i - length p + length bs <= length q)%nat →
  put_at (p ++ q) i bs = Some (p ++ write_at (i - length p) bs q).
Proof. intros. rewrite put_at_Some by (rewrite length_app; lia). by rewrite write_at_app_r. Qed.

Lemma copy_to_app p q src i : i = length p → (length src <= length q)%nat → copy_to (p ++ q) i src = Some (p ++ src ++ drop (length src) q).
Proof.
  intros -> H. unfold copy_to. rewrite (proj2 (Nat.leb_le _ _)) by (rewrite length_app; lia).
  rewrite take_ge by (rewrite length_app; lia). rewrite write_at_app_r by done. do 2 f_equal. unfold write_at.
  by rewrite Nat.sub_diag.
Qed.

Lemma copy_to_start q src : (length src <= length q)%nat → copy_to q 0 src = Some (src ++ drop (length src) q).
Proof. intros H. by apply (copy_to_app [] q). Qed.

(** ** A segment *)

Section split.
Variable little : bool.

(** The IP header of segment [i]. *)
Definition seg_ip (v6 : bool) (A : list Z) (i : nat) (total : Z) : list Z :=
  if v6 then write_at 4 (be_encode 2 (total - len A)) A
  else
    let A := write_at 4 (be_encode 2 (uint16 (be_decode (slice 4 6 A) + Z.of_nat i))) A in
    let A := write_at 2 (be_encode 2 total) A in
    write_at 10 (be_encode 2 (not16 (checksum little A 0))) A.

(** Its transport header, but for the checksum. *)
Definition seg_transport (tcp : bool) (B : list Z) (at_ : Z) (final : bool) (dataLen : Z) : list Z :=
  if tcp then
    let B := write_at 4 (be_encode 4 (uint32 (be_decode (slice 4 8 B) + at_))) B in
    if final then B else write_at 13 [Z.ldiff (default 0 (B !! 13%nat)) (Z.lor tcpFlagFIN tcpFlagPSH)] B
  else write_at 4 (be_encode 2 (dataLen + len B)) B.

Definition proto_of (tcp : bool) : Z := if tcp then IPPROTO_TCP else IPPROTO_UDP.
Definition addr_at (v6 : bool) : nat := if v6 then ipv6SrcAddrOffset else ipv4SrcAddrOffset.
Definition addr_len (v6 : bool) : nat := if v6 then 16%nat else 4%nat.

Definition pseudo (v6 tcp : bool) (A : list Z) (l : Z) : Z :=
  pseudoHeaderChecksumNoFold little (proto_of tcp) (slice (addr_at v6) (addr_at v6 + addr_len v6) A)
    (slice (addr_at v6 + addr_len v6) (addr_at v6 + addr_len v6 * 2) A) l.

Definition csum_at (tcp : bool) : nat := if tcp then 16%nat else 6%nat.

Definition segment (v6 tcp : bool) (A B P : list Z) (gso : Z) (i : nat) : list Z :=
  let lo := (Z.to_nat gso * i)%nat in
  let chunk := slice lo (lo + Z.to_nat gso) P in
  let t := seg_transport tcp B (gso * Z.of_nat i) (length P <=? lo + Z.to_nat gso)%nat (len chunk) ++ chunk in
  seg_ip v6 A i (len A + len t) ++ write_at (csum_at tcp) (be_encode 2 (not16 (checksum little t (pseudo v6 tcp A (len t))))) t.

(** The packet that is split: the headers say where they end, and the fields of the checksums
    are cleared. *)
Record gso_input (hdr : virtioNetHdr) (v6 tcp : bool) (A B P : list Z) : Prop := {
  gi_bytes : Forall is_byte (A ++ B ++ P);
  gi_start : vh_csumStart hdr = len A;
  gi_hdr : vh_hdrLen hdr = len A + len B;
  gi_len : len A + len B + len P <= 65535;
  gi_ip : ((if v6 then 40 else 20) <= length A)%nat;
  gi_th : ((if tcp then 20 else 8) <= length B)%nat;
  gi_off : vh_csumOffset hdr = Z.of_nat (csum_at tcp);
  gi_gso : 1 <= vh_gsoSize hdr <= 65535;
}.

(** ** The code makes these segments *)

Lemma length_seg_ip (v6 : bool) A i total : ((if v6 then 40 else 20) <= length A)%nat → length (seg_ip v6 A i total) = length A.
Proof.
  unfold seg_ip. intros. destruct v6; rewrite ?length_write_at; rewrite ?length_be_encode, ?length_write_at;
    rewrite ?length_be_encode, ?length_write_at; rewrite ?length_be_encode; lia.
Qed.

Lemma length_seg_transport (tcp : bool) B a final n : ((if tcp then 20 else 8) <= length B)%nat → length (seg_transport tcp B a final n) = length B.
Proof.
  unfold seg_transport. intros. destruct tcp; [destruct final|]; rewrite ?length_write_at; rewrite ?length_be_encode, ?length_write_at;
    rewrite ?length_be_encode; cbn; lia.
Qed.

(** The identification of the first segment stays. *)
Lemma keep_field A i n : Forall is_byte A → (i + n <= length A)%nat → write_at i (be_encode n (be_decode (slice i (i + n) A))) A = A.
Proof.
  intros Hb Hi. assert (length (slice i (i + n) A) = n) as Hn by (rewrite length_slice; lia).
  rewrite <- Hn at 1. rewrite be_encode_decode by by apply slice_bytes. apply list_eq. intros k.
  rewrite lookup_write_at by lia. case_decide; [|done]. rewrite lookup_slice, decide_True by lia. f_equal. lia.
Qed.

Lemma seg_ip_code (v6 : bool) A R i total : Forall is_byte A → ((if v6 then 40 else 20) <= length A)%nat → 0 <= total <= 65535 → len A <= total →
  (if negb v6 then
     out ← (if (0 <? i)%nat then id ← u16_at (A ++ R) 4; put16 (A ++ R) 4 (uint16 (id + uint16 (Z.of_nat i))) else Some (A ++ R));
     out ← put16 out 2 (uint16 total);
     h ← cut out 0 (length A);
     put16 out 10 (not16 (checksum little h 0))
   else put16 (A ++ R) 4 (uint16 (total - Z.of_nat (length A)))) = Some (seg_ip v6 A i total ++ R).
Proof.
  intros Hb HA Ht HAt. unfold seg_ip, put16, len in *. destruct v6; cbn [negb].
  - rewrite put_at_app_l by (rewrite length_be_encode; lia). by rewrite wrap_small by (unfold in_width; lia).
  - set (A1 := write_at 4 (be_encode 2 (uint16 (be_decode (slice 4 6 A) + Z.of_nat i))) A).
    assert ((if (0 <? i)%nat then id ← u16_at (A ++ R) 4; put_at (A ++ R) 4 (be_encode 2 (uint16 (id + uint16 (Z.of_nat i))))
             else Some (A ++ R)) = Some (A1 ++ R)) as ->.
    { destruct (Nat.ltb_spec 0 i).
      - rewrite u16_at_app_l, u16_at_Some by lia. cbn [mbind option_bind]. rewrite put_at_app_l by (rewrite length_be_encode; lia).
        do 4 f_equal. unfold wrap. by rewrite Z.add_mod_idemp_r by lia.
      - subst A1. assert (i = 0%nat) as -> by lia. change (Z.of_nat 0) with 0. rewrite Z.add_0_r. rewrite wrap_small; unfold in_width.
        + do 2 f_equal. symmetry. apply (keep_field A 4 2); [done|lia].
        + pose proof (be_decode_range (slice 4 6 A) (slice_bytes 4 6 A Hb)) as Hr. rewrite length_slice in Hr by lia. change (256 ^ Z.of_nat (6 - 4)) with 65536 in Hr. change (2 ^ 16) with 65536. lia. }
    assert (length A1 = length A) as HA1 by (subst A1; rewrite length_write_at; rewrite ?length_be_encode; lia).
    cbn [mbind option_bind]. rewrite wrap_small by (unfold in_width; lia). rewrite put_at_app_l by (rewrite length_be_encode; lia).
    cbn [mbind option_bind]. set (A2 := write_at 2 (be_encode 2 total) A1).
    assert (length A2 = length A) as HA2 by (subst A2; rewrite length_write_at; rewrite ?length_be_encode; lia).
    rewrite <- HA2, cut_app_all. cbn [mbind option_bind]. by rewrite put_at_app_l by (rewrite length_be_encode; lia).
Qed.

Lemma seg_transport_code hdr (tcp : bool) X B R (i : nat) dataEnd total n first : (tcp = true → first = be_decode (slice 4 8 B)) → ((if tcp then 20 else 8) <= length B)%nat →
  vh_csumStart hdr = len X → 0 <= vh_hdrLen hdr - vh_csumStart hdr → vh_hdrLen hdr - vh_csumStart hdr = len B →
  len X + len B + n <= 65535 → 0 <= n →
  0 <= vh_gsoSize hdr * Z.of_nat i < 65536 →
  let at_ k := Z.to_nat (uint16 (vh_csumStart hdr + k)) in
  (if proto_of tcp =? IPPROTO_TCP then
     out ← put32 (X ++ B ++ R) (at_ 4) (uint32 (first + uint16 (vh_gsoSize hdr * uint16 (Z.of_nat i))));
     if negb (dataEnd =? total) then
       flags ← u8_at out (at_ 13);
       put8 out (at_ 13) (Z.ldiff flags (Z.lor tcpFlagFIN tcpFlagPSH))
     else Some out
   else put16 (X ++ B ++ R) (at_ 4) (uint16 (uint16 n + uint16 (vh_hdrLen hdr - vh_csumStart hdr)))) =
  Some (X ++ seg_transport tcp B (vh_gsoSize hdr * Z.of_nat i) (dataEnd =? total) n ++ R).
Proof.
  intros Hfirst HB Hs H0 HlB Hl Hn Hg at_. unfold len in *. assert (∀ k, 0 <= k < Z.of_nat (length B) → at_ k = (length X + Z.to_nat k)%nat) as Hat.
  { intros k Hk. subst at_. cbn. rewrite wrap_small by (unfold in_width; lia). lia. }
  unfold put32, put16, put8, proto_of, seg_transport. destruct tcp; cbn [Z.eqb IPPROTO_TCP IPPROTO_UDP Pos.eqb]; rewrite !Hat by lia.
  - rewrite Hfirst by done. assert (uint16 (vh_gsoSize hdr * uint16 (Z.of_nat i)) = vh_gsoSize hdr * Z.of_nat i) as ->.
    { unfold wrap. rewrite Z.mul_mod_idemp_r by lia. apply Z.mod_small. lia. }
    rewrite put_at_app_r by (rewrite ?length_app, ?length_be_encode; lia). cbn [mbind option_bind].
    replace (length X + Z.to_nat 4 - length X)%nat with 4%nat by lia. rewrite write_at_app_l by (rewrite length_be_encode; lia).
    set (B1 := write_at 4 _ B). assert (length B1 = length B) as HB1 by (subst B1; rewrite length_write_at; rewrite ?length_be_encode; lia).
    destruct (dataEnd =? total); [done|]. cbn [negb]. unfold u8_at.
    rewrite lookup_app_r by lia. replace (length X + Z.to_nat 13 - length X)%nat with 13%nat by lia.
    rewrite lookup_app_l by lia. destruct (lookup_lt_is_Some_2 B1 13 ltac:(lia)) as [fl Hfl]. rewrite Hfl. cbn [mbind option_bind default].
    rewrite put_at_app_r by (rewrite ?length_app; cbn; lia). replace (length X + Z.to_nat 13 - length X)%nat with 13%nat by lia.
    by rewrite write_at_app_l by (cbn; lia).
  - assert (uint16 (uint16 n + uint16 (vh_hdrLen hdr - vh_csumStart hdr)) = n + Z.of_nat (length B)) as ->.
    { rewrite !wrap_small; unfold in_width; rewrite ?wrap_small; unfold in_width; lia. }
    rewrite put_at_app_r by (rewrite ?length_app, ?length_be_encode; lia). replace (length X + Z.to_nat 4 - length X)%nat with 4%nat by lia.
    by rewrite write_at_app_l by (rewrite length_be_encode; lia).
Qed.

Lemma chunk_cut A B P lo g : 0 <= g → (Z.of_nat lo < len P) →
  let hl := (length A + length B)%nat in
  let e := Z.min (Z.of_nat (hl + lo) + g) (len (A ++ B ++ P)) in
  cut (A ++ B ++ P) (hl + lo) (Z.to_nat e) = Some (slice lo (lo + Z.to_nat g) P) ∧
  len (slice lo (lo + Z.to_nat g) P) = e - Z.of_nat (hl + lo) ∧ (e =? len (A ++ B ++ P)) = (length P <=? lo + Z.to_nat g)%nat.
Proof.
  intros Hg Hlo hl e. unfold len in *. assert (Z.of_nat (length (A ++ B ++ P)) = Z.of_nat hl + Z.of_nat (length P)) as Hl.
  { rewrite !length_app. subst hl. lia. }
  split; [|split].
  - rewrite cut_Some by lia. f_equal. rewrite app_assoc. subst hl. rewrite <- length_app. rewrite slice_app_r by lia.
    rewrite length_app. replace (length A + length B + lo - (length A + length B))%nat with lo by lia.
    apply list_eq. intros k. rewrite !lookup_slice. repeat case_decide; try done; try lia.
    symmetry. apply lookup_ge_None_2. lia.
  - unfold slice. rewrite length_take, length_drop. lia.
  - apply eq_bool_prop_intro. rewrite !Is_true_true, Z.eqb_eq, Nat.leb_le. lia.
Qed.

(** The rest of the code for a segment, when the headers are in place. *)
Lemma seg_data_code {C} (k : list Z → option C) hdr (v6 tcp : bool) A sa sb inp chunk R : ((if v6 then 40 else 20) <= length A)%nat → length sa = length A →
  vh_csumStart hdr = len A → vh_csumOffset hdr = Z.of_nat (csum_at tcp) → vh_hdrLen hdr = len A + len sb →
  len A + len sb + len chunk <= 65535 → (csum_at tcp + 2 <= length sb)%nat → (length chunk <= length R)%nat →
  (out ← copy_to (sa ++ sb ++ R) (length A + length sb) chunk;
   src ← cut (A ++ inp) (addr_at v6) (addr_at v6 + addr_len v6);
   dst ← cut (A ++ inp) (addr_at v6 + addr_len v6) (addr_at v6 + addr_len v6 * 2);
   t ← cut out (length A) (Z.to_nat (len A + len (sb ++ chunk)));
   out ← put16 out (Z.to_nat (uint16 (vh_csumStart hdr + vh_csumOffset hdr)))
     (not16 (checksum little t (pseudoHeaderChecksumNoFold little (proto_of tcp) src dst
        (uint16 (uint16 (vh_hdrLen hdr - vh_csumStart hdr) + len chunk)))));
   k out) =
  k (sa ++ write_at (csum_at tcp) (be_encode 2 (not16 (checksum little (sb ++ chunk) (pseudo v6 tcp A (len (sb ++ chunk)))))) (sb ++ chunk)
          ++ drop (length chunk) R).
Proof.
  intros HA Hsa Hs Ho Hh Hl Hc HR. unfold len in *.
  rewrite (app_assoc sa), copy_to_app by (rewrite ?length_app; lia). cbn [mbind option_bind].
  assert (addr_at v6 + addr_len v6 * 2 <= length A)%nat as Haddr by (destruct v6; exact HA).
  rewrite !(cut_app_l A) by lia. rewrite !(cut_Some A) by lia. cbn [mbind option_bind].
  replace (((sa ++ sb) ++ chunk ++ drop (length chunk) R)) with (sa ++ (sb ++ chunk) ++ drop (length chunk) R) by by rewrite <- !app_assoc.
  rewrite (cut_app_mid sa (sb ++ chunk)) by (rewrite ?length_app; lia). cbn [mbind option_bind].
  rewrite Hs, Ho, Hh, !wrap_small; unfold in_width; rewrite ?wrap_small; unfold in_width; try lia.
  rewrite length_app in *. unfold put16. rewrite put_at_app_r by (rewrite ?length_app, ?length_be_encode; lia).
  replace (Z.to_nat (Z.of_nat (length A) + Z.of_nat (csum_at tcp)) - length sa)%nat with (csum_at tcp) by lia.
  rewrite write_at_app_l by (rewrite length_app, length_be_encode; lia). unfold pseudo. cbn [mbind option_bind].
  by replace (Z.of_nat (length A) + Z.of_nat (length sb) - Z.of_nat (length A) + Z.of_nat (length chunk))
    with (Z.of_nat (length sb + length chunk)) by lia.
Qed.

Lemma gso_segment_eq hdr v6 tcp A B P outOffset i buf first : gso_input hdr v6 tcp A B P → (tcp = true → first = be_decode (slice 4 8 B)) →
  vh_gsoSize hdr * Z.of_nat i < len P →
  let s := segment v6 tcp A B P (vh_gsoSize hdr) i in
  (outOffset + length s <= length buf)%nat →
  gso_segment little (A ++ B ++ P) hdr outOffset v6 (proto_of tcp) first i (vh_hdrLen hdr + vh_gsoSize hdr * Z.of_nat i) buf =
    Some (take outOffset buf ++ s ++ drop (outOffset + length s) buf, len s).
Proof.
  intros [Hb Hs Hh Hl HA HB Ho Hg] Hfirst Hi s Hbuf. apply Forall_app in Hb as [HbA HbBP].
  assert (csum_at tcp + 2 <= length B)%nat as Hc by (destruct tcp; cbn in *; lia).
  set (g := vh_gsoSize hdr) in *. set (lo := (Z.to_nat g * i)%nat). assert (Z.of_nat lo = g * Z.of_nat i) as Hlo by (subst lo; lia).
  destruct (chunk_cut A B P lo g ltac:(lia) ltac:(lia)) as (Hcut & Hclen & Hfin).
  subst s. unfold segment in *. fold lo in Hbuf |- *. set (chunk := slice lo (lo + Z.to_nat g) P) in *.
  set (sb := seg_transport tcp B _ _ _) in *. set (sa := seg_ip v6 A i _) in *.
  assert (length sa = length A) as Hsa by by apply length_seg_ip.
  assert (length sb = length B) as Hsb by by apply length_seg_transport.
  assert (length (write_at (csum_at tcp) (be_encode 2 (not16 (checksum little (sb ++ chunk) (pseudo v6 tcp A (len (sb ++ chunk)))))) (sb ++ chunk))
          = length (sb ++ chunk)) as Hw.
  { rewrite length_write_at; [done|]. rewrite length_be_encode, length_app. lia. }
  rewrite length_app, Hw, Hsa, length_app, Hsb in Hbuf.
  assert (Z.to_nat (vh_csumStart hdr) = length A) as HcA by (rewrite Hs; unfold len; lia).
  assert (Z.to_nat (vh_hdrLen hdr) = (length A + length B)%nat) as HcB by (rewrite Hh; unfold len; lia).
  assert (len A + len (sb ++ chunk) = vh_hdrLen hdr + len chunk) as Htot by (unfold len in *; rewrite length_app, Hsb; lia).
  assert (len chunk <= len P) as HlP by (subst chunk; unfold len, slice; rewrite length_take, length_drop; lia).
  replace (vh_hdrLen hdr + g * Z.of_nat i) with (Z.of_nat (length A + length B + lo)) by (unfold len in *; lia).
  unfold gso_segment. fold g. rewrite <- Hclen, HcA, HcB. rewrite from_Some by lia. cbn [mbind option_bind].
  rewrite cut_app_all. cbn [mbind option_bind]. rewrite copy_to_start by (rewrite length_drop; lia). cbn [mbind option_bind].
  rewrite seg_ip_code by (first [done | unfold len in *; lia]). rewrite <- Htot. fold sa. cbn [mbind option_bind].
  rewrite (cut_app_mid A B P (length A) (length A + length B)) by done. cbn [mbind option_bind].
  rewrite (cut_Some (sa ++ _)) by (rewrite ?length_app, ?length_drop; lia). cbn [mbind option_bind].
  rewrite copy_to_app by (done || rewrite !length_drop; lia). cbn [mbind option_bind].
  rewrite (seg_transport_code hdr tcp sa B _ i _ _ (len chunk) first) by (first [done | unfold len in *; lia]).
  rewrite Hfin. fold sb. cbn [mbind option_bind]. rewrite Nat2Z.id, Hcut. cbn [mbind option_bind].
  rewrite <- Hsb. fold g sb. rewrite (seg_data_code (λ out, Some (take outOffset buf ++ out, len A + len (sb ++ chunk))) hdr v6 tcp A sa sb (B ++ P))
    by (first [done | unfold len in *; rewrite ?length_drop; lia]).
  f_equal. f_equal.
  - rewrite <- !app_assoc, !drop_drop, !length_app, Hw, length_app. do 4 f_equal. lia.
  - rewrite (len_app sa). f_equal; [unfold len; congruence|symmetry; exact (f_equal Z.of_nat Hw)].
Qed.

(** ** All segments *)

Definition nsegs (gso : Z) (P : list Z) : nat := Z.to_nat ((len P + gso - 1) / gso).

Definition segments (v6 tcp : bool) (A B P : list Z) (gso : Z) : list (list Z) := segment v6 tcp A B P gso <$> seq 0 (nsegs gso P).

(** The packets that were left in the buffers. *)
Definition packets (offset : nat) (outs : list (list Z)) (sizes : list Z) : list (list Z) :=
  zip_with (λ out n, slice offset (offset + Z.to_nat n) out) outs sizes.

Lemma nsegs_lt gso P i : 1 <= gso → (i < nsegs gso P)%nat ↔ gso * Z.of_nat i < len P.
Proof.
  intros Hg. unfold nsegs, len. rewrite Nat2Z.inj_lt, Z2Nat.id by (apply Z.div_pos; lia).
  split; intros H.
  - pose proof (Z.mul_div_le (Z.of_nat (length P) + gso - 1) gso ltac:(lia)). nia.
  - assert (Z.of_nat i + 1 <= (Z.of_nat (length P) + gso - 1) / gso); [|lia]. apply Z.div_le_lower_bound; nia.
Qed.

Lemma length_chunk (P : list Z) lo n : length (slice lo (lo + n) P) = Nat.min n (length P - lo).
Proof. unfold slice. rewrite length_take, length_drop. lia. Qed.

Lemma length_segment (v6 tcp : bool) A B P gso i : ((if v6 then 40 else 20) <= length A)%nat → ((if tcp then 20 else 8) <= length B)%nat →
  length (segment v6 tcp A B P gso i) = (length A + length B + Nat.min (Z.to_nat gso) (length P - Z.to_nat gso * i))%nat.
Proof.
  intros HA HB. unfold segment. rewrite length_app, length_seg_ip, length_write_at by
    (done || rewrite length_be_encode, length_app, length_seg_transport by done; destruct tcp; cbn in *; lia).
  rewrite length_app, length_seg_transport, length_chunk by done. lia.
Qed.

Lemma slice_placed {A} n (buf s : list A) : (n + length s <= length buf)%nat → slice n (n + length s) (take n buf ++ s ++ drop (n + length s) buf) = s.
Proof.
  intros H. assert (length (take n buf) = n) as Hn by (rewrite length_take; lia). rewrite <- Hn at 1 2. replace (length (take n buf)) with (length (take n buf) + 0)%nat at 1 by lia.
  rewrite slice_shift. apply slice_app_all.
Qed.

Lemma gso_loop_eq hdr v6 tcp A B P outOffset first : gso_input hdr v6 tcp A B P → (tcp = true → first = be_decode (slice 4 8 B)) →
  ∀ outs i, (i <= nsegs (vh_gsoSize hdr) P <= i + length outs)%nat →
  Forall (λ b : list Z, outOffset + length A + length B + Nat.min (Z.to_nat (vh_gsoSize hdr)) (length P) <= length b)%nat outs →
  ∃ outs' sizes,
    gso_loop little (A ++ B ++ P) hdr outOffset v6 (proto_of tcp) first outs i (vh_hdrLen hdr + vh_gsoSize hdr * Z.of_nat i) = Some (outs', sizes, true) ∧
    let segs := segment v6 tcp A B P (vh_gsoSize hdr) <$> seq i (nsegs (vh_gsoSize hdr) P - i) in
    sizes = len <$> segs ∧ packets outOffset outs' sizes = segs.
Proof.
  intros Hin Hfirst. pose proof Hin as [Hb Hs Hh Hl HA HB Ho Hg].
  assert (∀ i, vh_hdrLen hdr + vh_gsoSize hdr * Z.of_nat i <? len (A ++ B ++ P) = bool_decide (i < nsegs (vh_gsoSize hdr) P)%nat) as Hcond.
  { intros i. apply eq_bool_prop_intro. rewrite !Is_true_true, Z.ltb_lt, bool_decide_eq_true, nsegs_lt by lia. rewrite !len_app, Hh. lia. }
  induction outs as [|buf outs IH]; intros i Hi Hroom; cbn [gso_loop]; rewrite Hcond; cbn [length] in Hi.
  - rewrite bool_decide_eq_false_2 by lia. exists [], []. replace (nsegs _ P - i)%nat with 0%nat by lia. done.
  - case_bool_decide as Hlt.
    2: { exists (buf :: outs), []. replace (nsegs _ P - i)%nat with 0%nat by lia. done. }
    apply Forall_cons in Hroom as [Hbuf Hroom].
    assert (outOffset + length (segment v6 tcp A B P (vh_gsoSize hdr) i) <= length buf)%nat as Hfit by (rewrite length_segment by done; lia).
    rewrite (gso_segment_eq hdr v6 tcp) by (done || by apply nsegs_lt; [lia|]). cbn [mbind option_bind].
    destruct (IH (S i) ltac:(lia) Hroom) as (outs' & sizes & Hrun & Hsz & Hpk).
    replace (vh_hdrLen hdr + vh_gsoSize hdr * Z.of_nat i + vh_gsoSize hdr) with (vh_hdrLen hdr + vh_gsoSize hdr * Z.of_nat (S i)) by lia.
    rewrite Hrun. cbn [mbind option_bind]. eexists _, _. split; [done|].
    replace (nsegs (vh_gsoSize hdr) P - i)%nat with (S (nsegs (vh_gsoSize hdr) P - S i)) by lia. cbn [seq fmap list_fmap].
    split; [by rewrite Hsz|]. unfold packets. cbn [zip_with]. f_equal; [|exact Hpk].
    unfold len. rewrite Nat2Z.id. by apply slice_placed.
Qed.

(** ** What a segment carries *)

(** The bytes of the IP header that differ between segments: lengths, identification and checksum. *)
Definition ip_varies (v6 : bool) (k : nat) : Prop := if v6 then (4 <= k < 6)%nat else (2 <= k < 6 ∨ 10 <= k < 12)%nat.
(** The bytes of the transport header that do: sequence number, flags and checksum, or length and checksum. *)
Definition transport_fields (tcp : bool) (k : nat) : Prop := if tcp then (4 <= k < 8 ∨ k = 13)%nat else (4 <= k < 6)%nat.
Definition transport_varies (tcp : bool) (k : nat) : Prop := transport_fields tcp k ∨ (csum_at tcp <= k < csum_at tcp + 2)%nat.

(** Segment [i] of a packet with headers [A] and [B] and data [P]. *)
Record segment_ok (v6 tcp : bool) (A B P : list Z) (gso : Z) (i : nat) (s : list Z) : Prop := {
  so_bytes : Forall is_byte s;
  so_data : drop (length A + length B) s = slice (Z.to_nat gso * i) (Z.to_nat gso * S i) P;
  so_size : length s = (length A + length B + length (slice (Z.to_nat gso * i) (Z.to_nat gso * S i) P))%nat;
  so_ip : ∀ k, (k < length A)%nat → ¬ ip_varies v6 k → s !! k = A !! k;
  so_ip_len : u16_at s (if v6 then 4 else 2) = Some (if v6 then len s - len A else len s);
  so_id : v6 = false → u16_at s 4 = Some (uint16 (be_decode (slice 4 6 A) + Z.of_nat i));
  so_ip_sum : v6 = false → checksum little (take (length A) s) 0 = 65535;
  so_transport : ∀ k, (k < length B)%nat → ¬ transport_varies tcp k → s !! (length A + k)%nat = B !! k;
  so_seq : tcp = true → u32_at s (length A + 4) = Some (uint32 (be_decode (slice 4 8 B) + gso * Z.of_nat i));
  so_flags : tcp = true → u8_at s (length A + 13) =
    Some (let f := default 0 (B !! 13%nat) in if (length P <=? Z.to_nat gso * S i)%nat then f else Z.ldiff f (Z.lor tcpFlagFIN tcpFlagPSH));
  so_udp_len : tcp = false → u16_at s (length A + 4) = Some (len s - len A);
  so_sum : checksumValid little s (length A) (proto_of tcp) v6 = Some true;
}.

Definition clear16 (p : list Z) (i : nat) : list Z := write_at (i + 1) [0] (write_at i [0] p).
Definition clear_ip (v6 : bool) (A : list Z) : list Z := if v6 then A else clear16 A 10.
Definition clear_transport (tcp : bool) (B : list Z) : list Z := clear16 B (csum_at tcp).

Lemma length_clear16 p i : (i + 2 <= length p)%nat → length (clear16 p i) = length p.
Proof. intros. unfold clear16. rewrite !length_write_at; rewrite ?length_write_at; cbn; lia. Qed.

Lemma lookup_clear16 p i k : (i + 2 <= length p)%nat → clear16 p i !! k = if decide (i <= k < i + 2)%nat then Some 0 else p !! k.
Proof.
  intros H. unfold clear16. rewrite !lookup_write_at; rewrite ?length_write_at; cbn [length]; try lia.
  repeat case_decide; try done; try lia.
  - by replace (k - (i + 1))%nat with 0%nat by lia.
  - by replace (k - i)%nat with 0%nat by lia.
Qed.

Lemma slice_clear16 p i : (i + 2 <= length p)%nat → slice i (i + 2) (clear16 p i) = [0; 0].
Proof.
  intros H. apply list_eq. intros k. rewrite lookup_slice. case_decide.
  - rewrite lookup_clear16, decide_True by lia. destruct k as [|[|k]]; [done|done|lia].
  - symmetry. apply lookup_ge_None_2. cbn. lia.
Qed.

Lemma clear16_bytes p i : Forall is_byte p → Forall is_byte (clear16 p i).
Proof. intros. unfold clear16. repeat apply write_at_bytes; try done; repeat constructor; done. Qed.

Lemma slice_clear16_ne p i lo hi : (i + 2 <= length p)%nat → (hi <= i ∨ i + 2 <= lo)%nat → slice lo hi (clear16 p i) = slice lo hi p.
Proof.
  intros H Hd. apply list_eq. intros k. rewrite !lookup_slice. case_decide; [|done]. by rewrite lookup_clear16, decide_False by lia.
Qed.

Ltac lens := rewrite ?length_write_at; rewrite ?length_be_encode; rewrite ?length_write_at; rewrite ?length_be_encode; rewrite ?length_write_at; rewrite ?length_be_encode; cbn [length]; try lia.

Lemma seg_ip_lookup (v6 : bool) A i total k : ((if v6 then 40 else 20) <= length A)%nat → ¬ ip_varies v6 k → seg_ip v6 A i total !! k = A !! k.
Proof.
  intros HA Hk. unfold seg_ip, ip_varies in *. destruct v6; rewrite !lookup_write_at by lens; rewrite !length_be_encode, !decide_False by lia; done.
Qed.

Lemma seg_ip_bytes (v6 : bool) A i total : Forall is_byte A → Forall is_byte (seg_ip v6 A i total).
Proof. intros HA. unfold seg_ip. destruct v6; repeat apply write_at_bytes; try done; apply be_encode_bytes. Qed.

Lemma read_back p k n z : (k + n <= length p)%nat → be_decode (slice k (k + n) (write_at k (be_encode n z) p)) = z mod 256 ^ Z.of_nat n.
Proof. intros. rewrite <- (length_be_encode n z) at 1. rewrite slice_write_at by lens. apply be_decode_encode_mod. Qed.

Lemma seg_ip_len (v6 : bool) A i total : ((if v6 then 40 else 20) <= length A)%nat → len A <= total <= 65535 →
  u16_at (seg_ip v6 A i total) (if v6 then 4 else 2) = Some (if v6 then total - len A else total).
Proof.
  intros HA Ht. rewrite u16_at_Some by (rewrite length_seg_ip by done; destruct v6; lia). f_equal. unfold seg_ip, len in *. destruct v6.
  - rewrite (read_back _ 4 2) by lia. change (256 ^ Z.of_nat 2) with 65536. rewrite Z.mod_small; lia.
  - rewrite slice_write_at_ne by (rewrite ?length_be_encode; lens). rewrite (read_back _ 2 2) by lens.
    change (256 ^ Z.of_nat 2) with 65536. rewrite Z.mod_small; lia.
Qed.

Lemma seg_ip_id A i total : (20 <= length A)%nat → u16_at (seg_ip false A i total) 4 = Some (uint16 (be_decode (slice 4 6 A) + Z.of_nat i)).
Proof.
  intros HA. rewrite u16_at_Some by (rewrite length_seg_ip by done; lia). f_equal. unfold seg_ip.
  rewrite !slice_write_at_ne by (rewrite ?length_be_encode; lens). rewrite (read_back _ 4 2) by lens. apply wrap_wrap.
Qed.

Lemma seg_ip_sum A i total : (20 <= length A)%nat → Forall is_byte A → slice 10 12 A = [0; 0] → checksum little (seg_ip false A i total) 0 = 65535.
Proof.
  intros HA Hb Hz. unfold seg_ip. set (A1 := write_at 4 _ A). set (A2 := write_at 2 _ A1).
  assert (length A1 = length A) as H1 by (subst A1; lens). assert (length A2 = length A) as H2 by (subst A2; rewrite length_write_at; rewrite ?length_be_encode; lia).
  assert (Forall is_byte A2) by (repeat apply write_at_bytes; try done; apply be_encode_bytes).
  apply (stored_checksum little A2 10 0 0); try done; try lia.
  - by exists 5%nat.
  - subst A2. rewrite slice_write_at_ne by (rewrite length_be_encode; lia). subst A1. by rewrite slice_write_at_ne by (rewrite length_be_encode; lia).
  - intros t Ht. by apply checksum_sum.
Qed.

Lemma seg_transport_lookup (tcp : bool) B a final n k : ((if tcp then 20 else 8) <= length B)%nat → ¬ transport_fields tcp k →
  seg_transport tcp B a final n !! k = B !! k.
Proof.
  intros HB Hk. unfold seg_transport, transport_fields in *.
  destruct tcp; [destruct final|]; rewrite !lookup_write_at by lens; rewrite ?length_be_encode; cbn [length]; rewrite !decide_False by lia; done.
Qed.

Lemma is_byte_ldiff a b : is_byte a → 0 <= b → is_byte (Z.ldiff a b).
Proof.
  unfold is_byte, is_u8, in_width. intros Ha Hb.
  assert (Z.ldiff a b = Z.ldiff a b mod 2 ^ 8) as ->; [|apply Z.mod_pos_bound; lia].
  apply Z.bits_inj'. intros n Hn. destruct (Z.lt_ge_cases n 8); [by rewrite Z.mod_pow2_bits_low by lia|].
  rewrite Z.mod_pow2_bits_high by lia. rewrite Z.ldiff_spec, <- (Z.mod_small a (2 ^ 8)) by lia. by rewrite Z.mod_pow2_bits_high by lia.
Qed.

Lemma seg_transport_bytes (tcp : bool) B a final n : Forall is_byte B → ((if tcp then 20 else 8) <= length B)%nat →
  Forall is_byte (seg_transport tcp B a final n).
Proof.
  intros Hb HB. unfold seg_transport. destruct tcp; [|apply write_at_bytes; [apply be_encode_bytes|done]].
  set (B1 := write_at 4 _ B). assert (Forall is_byte B1) as H1 by (apply write_at_bytes; [apply be_encode_bytes|done]).
  destruct final; [done|]. apply write_at_bytes; [|done]. apply Forall_singleton.
  assert (length B1 = length B) as Hl by (subst B1; lens). destruct (lookup_lt_is_Some_2 B1 13 ltac:(lia)) as [x Hx]. rewrite Hx.
  apply is_byte_ldiff; [|by cbn]. by eapply Forall_lookup_1.
Qed.

Lemma seg_transport_seq B a final n : (20 <= length B)%nat →
  u32_at (seg_transport true B a final n) 4 = Some (uint32 (be_decode (slice 4 8 B) + a)).
Proof.
  intros HB. rewrite u32_at_Some by (rewrite length_seg_transport by done; lia). f_equal. unfold seg_transport.
  destruct final; [|rewrite slice_write_at_ne by (cbn [length]; lens)]; rewrite (read_back _ 4 4) by lens; apply wrap_wrap.
Qed.

Lemma seg_transport_flags B a (final : bool) n : (20 <= length B)%nat →
  seg_transport true B a final n !! 13%nat =
    Some (let f := default 0 (B !! 13%nat) in if final then f else Z.ldiff f (Z.lor tcpFlagFIN tcpFlagPSH)).
Proof.
  intros HB. unfold seg_transport. set (B1 := write_at 4 _ B). assert (length B1 = length B) as Hl by (subst B1; lens).
  assert (B1 !! 13%nat = B !! 13%nat) as H13.
  { subst B1. rewrite lookup_write_at by lens. by rewrite length_be_encode, decide_False by lia. }
  destruct (lookup_lt_is_Some_2 B 13 ltac:(lia)) as [x Hx]. rewrite H13, Hx. cbn [default]. destruct final; [by rewrite H13|].
  rewrite lookup_write_at by (cbn [length]; lia). by rewrite decide_True by (cbn [length]; lia).
Qed.

Lemma seg_transport_len B a final n : (8 <= length B)%nat → 0 <= n → n + len B <= 65535 →
  u16_at (seg_transport false B a final n) 4 = Some (n + len B).
Proof.
  intros HB Hn Hl. rewrite u16_at_Some by (rewrite length_seg_transport by done; lia). f_equal. unfold seg_transport, len in *.
  rewrite (read_back _ 4 2) by lia. change (256 ^ Z.of_nat 2) with 65536. rewrite Z.mod_small; lia.
Qed.

Lemma clear_ip_facts (v6 : bool) A : ((if v6 then 40 else 20) <= length A)%nat → Forall is_byte A →
  length (clear_ip v6 A) = length A ∧ Forall is_byte (clear_ip v6 A) ∧ (v6 = false → slice 10 12 (clear_ip v6 A) = [0; 0]) ∧
  (∀ k, ¬ ip_varies v6 k → clear_ip v6 A !! k = A !! k) ∧ slice 4 6 (clear_ip v6 A) = slice 4 6 A.
Proof.
  intros HA Hb. unfold clear_ip, ip_varies. destruct v6; [done|]. split_and!.
  - apply length_clear16. lia.
  - by apply clear16_bytes.
  - intros _. apply (slice_clear16 A 10). lia.
  - intros k Hk. by rewrite lookup_clear16, decide_False by lia.
  - apply slice_clear16_ne; lia.
Qed.

Lemma clear_transport_facts (tcp : bool) B : ((if tcp then 20 else 8) <= length B)%nat → Forall is_byte B →
  length (clear_transport tcp B) = length B ∧ Forall is_byte (clear_transport tcp B) ∧
  slice (csum_at tcp) (csum_at tcp + 2) (clear_transport tcp B) = [0; 0] ∧
  (∀ k, ¬ (csum_at tcp <= k < csum_at tcp + 2)%nat → clear_transport tcp B !! k = B !! k) ∧
  (tcp = true → slice 4 8 (clear_transport tcp B) = slice 4 8 B).
Proof.
  intros HB Hb. assert (csum_at tcp + 2 <= length B)%nat as Hc by (destruct tcp; cbn in *; lia). unfold clear_transport. split_and!.
  - by apply length_clear16.
  - by apply clear16_bytes.
  - by apply slice_clear16.
  - intros k Hk. by rewrite lookup_clear16, decide_False.
  - intros ->. apply slice_clear16_ne; cbn in *; lia.
Qed.

Lemma segment_parts (v6 tcp : bool) A B P gso i : ((if tcp then 20 else 8) <= length B)%nat →
  let lo := (Z.to_nat gso * i)%nat in
  let chunk := slice lo (lo + Z.to_nat gso) P in
  let sb := seg_transport tcp B (gso * Z.of_nat i) (length P <=? lo + Z.to_nat gso)%nat (len chunk) in
  segment v6 tcp A B P gso i = seg_ip v6 A i (len A + (len B + len chunk)) ++
    write_at (csum_at tcp) (be_encode 2 (not16 (checksum little (sb ++ chunk) (pseudo v6 tcp A (len B + len chunk))))) sb ++ chunk.
Proof.
  intros HB lo chunk sb. unfold segment. fold lo. fold chunk. fold sb.
  assert (len (sb ++ chunk) = len B + len chunk) as -> by (rewrite len_app; f_equal; unfold len, sb; by rewrite length_seg_transport).
  f_equal. apply write_at_app_l. rewrite length_be_encode. unfold sb. rewrite length_seg_transport by done. destruct tcp; cbn in *; lia.
Qed.

(** The sum over the addresses sees those of the packet. *)
Lemma pseudo_addresses (v6 : bool) (A sa : list Z) lo hi : (∀ k, ¬ ip_varies v6 k → sa !! k = A !! k) →
  ((if v6 then 8 else 12) <= lo)%nat → slice lo hi sa = slice lo hi A.
Proof.
  intros H Hlo. apply list_eq. intros k. rewrite !lookup_slice. case_decide; [|done]. apply H. unfold ip_varies. destruct v6; lia.
Qed.

Lemma is_u8_proto tcp : is_u8 (proto_of tcp).
Proof. by destruct tcp. Qed.

(** The checksum of a segment is valid. *)
Lemma segment_sum (v6 tcp : bool) A sa t : ((if v6 then 40 else 20) <= length A)%nat → length sa = length A → Forall is_byte A →
  (∀ k, ¬ ip_varies v6 k → sa !! k = A !! k) → Forall is_byte t → (csum_at tcp + 2 <= length t)%nat → len t <= 65535 →
  slice (csum_at tcp) (csum_at tcp + 2) t = [0; 0] →
  checksumValid little (sa ++ write_at (csum_at tcp) (be_encode 2 (not16 (checksum little t (pseudo v6 tcp A (len t))))) t) (length A) (proto_of tcp) v6 = Some true.
Proof.
  intros HA Hl HbA Hsa Hbt Ht Hlt Hz. unfold checksumValid. fold (addr_at v6) (addr_len v6).
  assert (addr_at v6 + addr_len v6 * 2 <= length sa)%nat as Haddr by (rewrite Hl; destruct v6; exact HA).
  assert ((if v6 then 8 else 12) <= addr_at v6)%nat as Hat by by destruct v6.
  rewrite !cut_app_l by lia. rewrite !cut_Some by lia. cbn [mbind option_bind].
  rewrite !(pseudo_addresses v6 A sa) by (done || lia). rewrite from_Some by (rewrite length_app; lia). cbn [mbind option_bind].
  rewrite <- Hl, drop_app_length. unfold len in *. rewrite length_app, length_write_at by (rewrite length_be_encode; lia).
  replace (Z.of_nat (length sa + length t) - Z.of_nat (length sa)) with (Z.of_nat (length t)) by lia.
  rewrite wrap_small by (unfold in_width; lia). fold (pseudo v6 tcp A (Z.of_nat (length t))).
  assert (∀ lo hi, Forall is_byte (slice lo hi A)) as Hsl by (intros; by apply slice_bytes).
  rewrite (stored_checksum little t (csum_at tcp) _ (pseudo_sum (proto_of tcp) (slice (addr_at v6) (addr_at v6 + addr_len v6) A)
    (slice (addr_at v6 + addr_len v6) (addr_at v6 + addr_len v6 * 2) A) (Z.of_nat (length t)))); try done.
  - destruct tcp; [by exists 8%nat|by exists 3%nat].
  - intros t' Ht'. apply pseudo_checksum; try done; [apply is_u8_proto|lia].
  - apply pseudo_sum_pos; try done; [apply is_u8_proto|lia].
Qed.

Section one_segment.
Variables (hdr : virtioNetHdr) (v6 tcp : bool) (A B P : list Z) (i : nat).
Hypothesis Hin : gso_input hdr v6 tcp A B P.
Hypothesis Hi : vh_gsoSize hdr * Z.of_nat i < len P.

Let A1 := clear_ip v6 A.
Let B1 := clear_transport tcp B.
Let g := vh_gsoSize hdr.
Let lo := (Z.to_nat g * i)%nat.
Let chunk := slice lo (lo + Z.to_nat g) P.
Let sa := seg_ip v6 A1 i (len A1 + (len B1 + len chunk)).
Let sb := seg_transport tcp B1 (g * Z.of_nat i) (length P <=? lo + Z.to_nat g)%nat (len chunk).
Let w := write_at (csum_at tcp) (be_encode 2 (not16 (checksum little (sb ++ chunk) (pseudo v6 tcp A1 (len B1 + len chunk))))) sb.

#[local] Lemma ip_facts : length A1 = length A ∧ Forall is_byte A1 ∧ (v6 = false → slice 10 12 A1 = [0; 0]) ∧
  (∀ k, ¬ ip_varies v6 k → A1 !! k = A !! k) ∧ slice 4 6 A1 = slice 4 6 A.
Proof. destruct Hin as [Hb _ _ _ HA _ _ _]. apply Forall_app in Hb as [HbA _]. by apply clear_ip_facts. Qed.

#[local] Lemma transport_facts : length B1 = length B ∧ Forall is_byte B1 ∧ slice (csum_at tcp) (csum_at tcp + 2) B1 = [0; 0] ∧
  (∀ k, ¬ (csum_at tcp <= k < csum_at tcp + 2)%nat → B1 !! k = B !! k) ∧ (tcp = true → slice 4 8 B1 = slice 4 8 B).
Proof. destruct Hin as [Hb _ _ _ _ HB _ _]. apply Forall_app in Hb as [_ Hb]. apply Forall_app in Hb as [HbB _]. by apply clear_transport_facts. Qed.

#[local] Lemma csum_inside : (csum_at tcp + 2 <= length B)%nat.
Proof. destruct Hin as [_ _ _ _ _ HB _ _]. destruct tcp; cbn in *; lia. Qed.

#[local] Lemma length_sa : length sa = length A.
Proof. destruct ip_facts as [LA _]. unfold sa. rewrite length_seg_ip; [done|]. rewrite LA. apply Hin. Qed.

#[local] Lemma length_sb : length sb = length B.
Proof. destruct transport_facts as [LB _]. unfold sb. rewrite length_seg_transport; [done|]. rewrite LB. apply Hin. Qed.

#[local] Lemma length_w : length w = length B.
Proof. pose proof csum_inside. pose proof length_sb. unfold w. rewrite length_write_at; rewrite ?length_be_encode; lia. Qed.

#[local] Lemma chunk_facts : Forall is_byte chunk ∧ len A + (len B + len chunk) <= 65535.
Proof.
  destruct Hin as [Hb _ _ Hl _ _ _ _]. rewrite !Forall_app in Hb. destruct Hb as (_ & _ & Hb). split; [by apply slice_bytes|].
  unfold chunk, len in *. rewrite length_chunk. lia.
Qed.

#[local] Lemma sa_keeps k : ¬ ip_varies v6 k → sa !! k = A !! k.
Proof. destruct ip_facts as (LA & _ & _ & KA & _). intros Hk. unfold sa. rewrite seg_ip_lookup; [by apply KA| |done]. rewrite LA. apply Hin. Qed.

#[local] Lemma sb_keeps k : ¬ transport_fields tcp k → sb !! k = B1 !! k.
Proof. destruct transport_facts as (LB & _). intros Hk. unfold sb. apply seg_transport_lookup; [|done]. rewrite LB. apply Hin. Qed.

#[local] Lemma segment_is : segment v6 tcp A1 B1 P g i = sa ++ w ++ chunk.
Proof. destruct transport_facts as [LB _]. unfold w, sa, sb, chunk, lo. apply segment_parts. rewrite LB. apply Hin. Qed.

#[local] Lemma w_keeps k : (k < length B)%nat → ¬ transport_varies tcp k → w !! k = B !! k.
Proof.
  destruct transport_facts as (_ & _ & _ & KB & _). pose proof csum_inside. pose proof length_sb. intros Hk Hv. unfold w.
  apply Decidable.not_or in Hv as [? ?].
  rewrite lookup_write_at by (rewrite length_be_encode; lia). rewrite length_be_encode, decide_False, sb_keeps by done. by apply KB.
Qed.

(** A field before the checksum is read from the header without it. *)
#[local] Lemma w_cut k n : (k + n <= csum_at tcp)%nat → cut (sa ++ w ++ chunk) (length A + k) (length A + k + n) = cut sb k (k + n).
Proof.
  pose proof csum_inside. pose proof length_sb. pose proof length_w. intros Hk.
  rewrite <- Nat.add_assoc, cut_shift by (by rewrite length_sa). rewrite cut_app_l by lia. unfold w.
  apply cut_write_at_ne; rewrite length_be_encode; lia.
Qed.

#[local] Lemma segment_checksum : checksumValid little (sa ++ w ++ chunk) (length A) (proto_of tcp) v6 = Some true.
Proof.
  destruct ip_facts as (LA & BA & _ & KA & _). destruct transport_facts as (LB & BB & ZB & _). destruct chunk_facts as [Bc Lc].
  pose proof csum_inside. pose proof length_sb as Lsb. assert (len B1 + len chunk = len (sb ++ chunk)) as Hlen by (rewrite len_app; unfold len; congruence).
  assert (w ++ chunk = write_at (csum_at tcp) (be_encode 2 (not16 (checksum little (sb ++ chunk) (pseudo v6 tcp A1 (len (sb ++ chunk)))))) (sb ++ chunk)) as ->.
  { rewrite <- Hlen. symmetry. apply write_at_app_l. rewrite length_be_encode. lia. }
  rewrite <- LA. apply segment_sum; rewrite ?LA; try done.
  - apply Hin.
  - apply length_sa.
  - intros k Hk. by rewrite sa_keeps, KA.
  - apply Forall_app. split; [|done]. apply seg_transport_bytes; [done|]. rewrite LB. apply Hin.
  - rewrite length_app. lia.
  - rewrite len_app. unfold len in *. lia.
  - rewrite slice_app_l by lia. rewrite <- ZB. apply list_eq. intros k. rewrite !lookup_slice. case_decide; [|done]. apply sb_keeps.
    unfold transport_fields. destruct tcp; cbn in *; lia.
Qed.

Lemma segment_correct : segment_ok v6 tcp A B P g i (segment v6 tcp A1 B1 P g i).
Proof.
  rewrite segment_is. destruct ip_facts as (LA & BA & ZA & KA & IA). destruct transport_facts as (LB & BB & ZB & KB & SB).
  destruct chunk_facts as [Bc Lc]. pose proof length_sa as Lsa. pose proof length_sb as Lsb. pose proof length_w as Lw. pose proof csum_inside as Hc.
  assert (len A1 + (len B1 + len chunk) = len (sa ++ w ++ chunk)) as Hlen by (rewrite !len_app; unfold len; congruence).
  pose proof Hin as [Hb Hs Hh Hl HA HB Ho Hg].
  constructor; replace (Z.to_nat g * S i)%nat with (lo + Z.to_nat g)%nat by (subst lo; lia); fold lo chunk.
  - apply Forall_app_2; [by apply seg_ip_bytes|]. apply Forall_app_2; [|done]. apply write_at_bytes; [apply be_encode_bytes|].
    apply seg_transport_bytes; [done|by rewrite LB].
  - rewrite <- Lsa, <- Lw, <- length_app, app_assoc. apply drop_app_length.
  - rewrite !length_app. lia.
  - intros k Hk Hv. rewrite lookup_app_l by lia. by apply sa_keeps.
  - rewrite u16_at_app_l by (rewrite Lsa; destruct v6; lia). rewrite <- Hlen. replace (len A) with (len A1) by (unfold len; congruence).
    apply seg_ip_len; [by rewrite LA|]. unfold len in *. lia.
  - intros E. rewrite u16_at_app_l by (rewrite Lsa, E in *; lia). rewrite <- IA. unfold sa. rewrite E in *. apply seg_ip_id. lia.
  - intros E. rewrite <- Lsa, take_app_length. unfold sa. rewrite E in *. apply seg_ip_sum; [lia|done|by apply ZA].
  - intros k Hk Hv. rewrite lookup_app_r by lia. replace (length A + k - length sa)%nat with k by lia. rewrite lookup_app_l by lia. by apply w_keeps.
  - intros E. unfold u32_at. rewrite w_cut by (rewrite E; cbn; lia). rewrite <- SB by done. fold (u32_at sb 4). unfold sb. rewrite E in *.
    apply seg_transport_seq. lia.
  - intros E. unfold u8_at. rewrite lookup_app_r by lia. replace (length A + 13 - length sa)%nat with 13%nat by lia.
    rewrite lookup_app_l by (rewrite E in *; lia). unfold w. rewrite lookup_write_at by (rewrite length_be_encode; lia).
    rewrite decide_False by (rewrite E; cbn; lia). rewrite <- KB by (rewrite E; cbn; lia). unfold sb. rewrite E in *. apply seg_transport_flags. lia.
  - intros E. unfold u16_at. rewrite w_cut by (rewrite E; cbn; lia). fold (u16_at sb 4). unfold sb. rewrite E in *.
    rewrite seg_transport_len by (first [lia | unfold len in *; lia]). f_equal. rewrite <- Hlen. unfold len in *. lia.
  - apply segment_checksum.
Qed.

End one_segment.

(** ** The packet is split *)

Lemma concat_chunks (P : list Z) g n : concat ((λ i, slice (g * i) (g * S i) P) <$> seq 0 n) = take (g * n) P.
Proof.
  induction n as [|n IH]; [by rewrite Nat.mul_0_r|]. rewrite seq_S, fmap_app, concat_app, IH. cbn. rewrite app_nil_r. unfold slice.
  replace (g * S n - g * n)%nat with g by lia. replace (g * S n)%nat with (g * n + g)%nat by lia. by rewrite take_take_drop.
Qed.

Lemma nsegs_covers gso (P : list Z) : 1 <= gso → (length P <= Z.to_nat gso * nsegs gso P)%nat.
Proof.
  intros Hg. pose proof (nsegs_lt gso P (nsegs gso P) Hg) as H. unfold len in H.
  assert (¬ gso * Z.of_nat (nsegs gso P) < Z.of_nat (length P)) by (intros H'; apply H in H'; lia).
  apply Nat2Z.inj_le. rewrite Nat2Z.inj_mul, Z2Nat.id by lia. lia.
Qed.

Definition is_tcp (hdr : virtioNetHdr) : bool := (vh_gsoType hdr =? VIRTIO_NET_HDR_GSO_TCPV4) || (vh_gsoType hdr =? VIRTIO_NET_HDR_GSO_TCPV6).

Lemma clear_input hdr v6 tcp A B P : gso_input hdr v6 tcp A B P → gso_input hdr v6 tcp (clear_ip v6 A) (clear_transport tcp B) P.
Proof.
  intros [Hb Hs Hh Hl HA HB Ho Hg]. rewrite !Forall_app in Hb. destruct Hb as (HbA & HbB & HbP).
  destruct (clear_ip_facts v6 A HA HbA) as (LA & BA & _). destruct (clear_transport_facts tcp B HB HbB) as (LB & BB & _).
  split; unfold len in *; rewrite ?LA, ?LB; try done. by rewrite !Forall_app.
Qed.

(** The two bytes of a checksum are cleared one after the other. *)
Lemma put_zeros p q r i : (i + 2 <= length q)%nat →
  (x ← put8 (p ++ q ++ r) (length p + i) 0; put8 x (length p + i + 1) 0) = Some (p ++ clear16 q i ++ r).
Proof.
  intros H. unfold put8, clear16. rewrite put_at_app_r by (rewrite ?length_app; cbn [length]; lia). cbn [mbind option_bind].
  replace (length p + i - length p)%nat with i by lia. rewrite write_at_app_l by (cbn [length]; lia).
  rewrite put_at_app_r by (rewrite ?length_app, ?length_write_at; cbn [length]; lia).
  replace (length p + i + 1 - length p)%nat with (i + 1)%nat by lia.
  by rewrite write_at_app_l by (rewrite ?length_write_at; cbn [length]; lia).
Qed.

Lemma gsoSplit_eq hdr v6 tcp A B P outs outOffset : gso_input hdr v6 tcp A B P → is_tcp hdr = tcp →
  (nsegs (vh_gsoSize hdr) P <= length outs)%nat →
  Forall (λ b : list Z, outOffset + length A + length B + Nat.min (Z.to_nat (vh_gsoSize hdr)) (length P) <= length b)%nat outs →
  ∃ outs' sizes, gsoSplit little (A ++ B ++ P) hdr outs outOffset v6 = Some (outs', sizes, true) ∧
    packets outOffset outs' sizes = segments v6 tcp (clear_ip v6 A) (clear_transport tcp B) P (vh_gsoSize hdr).
Proof.
  intros Hin Htcp Hn Hroom. pose proof (clear_input _ _ _ _ _ _ Hin) as Hin'. destruct Hin as [Hb Hs Hh Hl HA HB Ho Hg].
  assert (length (clear_ip v6 A) = length A) as LA by (unfold clear_ip; destruct v6; [done|apply length_clear16; lia]).
  assert (csum_at tcp + 2 <= length B)%nat as Hc by (destruct tcp; cbn in *; lia).
  unfold gsoSplit. fold (is_tcp hdr). rewrite Htcp. fold (proto_of tcp).
  assert ((if negb v6 then x ← put8 (A ++ B ++ P) 10 0; put8 x 11 0 else Some (A ++ B ++ P)) = Some (clear_ip v6 A ++ B ++ P)) as ->.
  { unfold clear_ip. destruct v6; [done|]. apply (put_zeros [] A (B ++ P) 10). lia. }
  cbn [mbind option_bind].
  assert (Z.to_nat (uint16 (vh_csumStart hdr + vh_csumOffset hdr)) = (length (clear_ip v6 A) + csum_at tcp)%nat) as ->.
  { rewrite LA, wrap_small by (unfold in_width, len in *; lia). unfold len in *. lia. }
  pose proof (put_zeros (clear_ip v6 A) B P (csum_at tcp) Hc) as Hz.
  destruct (put8 (clear_ip v6 A ++ B ++ P) _ 0) as [x|]; [|done]. cbn [mbind option_bind] in Hz |- *. rewrite Hz. cbn [mbind option_bind].
  fold (clear_transport tcp B).
  assert ((if tcp then u32_at (clear_ip v6 A ++ clear_transport tcp B ++ P) (Z.to_nat (uint16 (vh_csumStart hdr + 4))) else Some 0)
          = Some (if tcp then be_decode (slice 4 8 (clear_transport tcp B)) else 0)) as ->.
  { destruct tcp; [|done]. rewrite wrap_small by (unfold in_width, len in *; lia). unfold u32_at.
    replace (Z.to_nat (vh_csumStart hdr + 4)) with (length A + 4)%nat by (unfold len in *; lia).
    rewrite <- Nat.add_assoc, cut_shift by done. assert (length (clear_transport true B) = length B) as LB by (apply length_clear16; done).
    rewrite cut_app_l, cut_Some by (rewrite ?LB; cbn in HB; lia). done. }
  cbn [mbind option_bind]. assert (length (clear_transport tcp B) = length B) as LB by (apply length_clear16; done).
  destruct (gso_loop_eq hdr v6 tcp _ _ P outOffset (if tcp then be_decode (slice 4 8 (clear_transport tcp B)) else 0) Hin' ltac:(by intros ->) outs 0 ltac:(lia)
    ltac:(by rewrite LA, LB)) as (outs' & sizes & Hrun & _ & Hpk).
  rewrite Z.mul_0_r, Z.add_0_r in Hrun. exists outs', sizes. split; [done|]. rewrite Nat.sub_0_r in Hpk. exact Hpk.
Qed.

End split.
