(* ===== verification/OffloadRead.v ===== *)
(** Reading from the tun device: what [handleVirtioRead] makes of a frame of the kernel. *)

From S2P Require Import Prelude Bytes Checksum Offload OffloadSplit.

Section read.
Variable little : bool.

(** ** The header of the kernel *)

Record hdr_wf (v : virtioNetHdr) : Prop := {
  hw_hdrLen : in_width 16 (vh_hdrLen v);
  hw_gsoSize : in_width 16 (vh_gsoSize v);
  hw_csumStart : in_width 16 (vh_csumStart v);
  hw_csumOffset : in_width 16 (vh_csumOffset v);
}.

Lemma length_native16 z : length (native16 little z) = 2%nat.
Proof. by destruct little. Qed.

Lemma native16_roundtrip z : in_width 16 z → native16_decode little (native16 little z) = z.
Proof.
  intros Hz. unfold native16, native16_decode. destruct little; rewrite ?reverse_involutive; apply be_decode_encode; exact Hz.
Qed.

Lemma length_hdr_bytes v : length (hdr_bytes little v) = virtioNetHdrLen.
Proof. unfold hdr_bytes. rewrite !length_app, !length_native16. done. Qed.

Lemma hdr_roundtrip v rest : hdr_wf v → hdr_decode little (hdr_bytes little v ++ rest) = Some v.
Proof.
  intros [H1 H2 H3 H4]. unfold hdr_decode. rewrite length_app, length_hdr_bytes. cbn [Nat.ltb Nat.leb virtioNetHdrLen Nat.add].
  unfold hdr_bytes. destruct v as [fl ty hl gs cs co]; cbn [vh_flags vh_gsoType vh_hdrLen vh_gsoSize vh_csumStart vh_csumOffset] in *.
  pose proof (native16_roundtrip hl H1) as E1. pose proof (native16_roundtrip gs H2) as E2.
  pose proof (native16_roundtrip cs H3) as E3. pose proof (native16_roundtrip co H4) as E4.
  destruct (native16 little hl) as [|? [|? [|]]] eqn:E; try (apply (f_equal length) in E; by rewrite length_native16 in E).
  clear E. destruct (native16 little gs) as [|? [|? [|]]] eqn:E; try (apply (f_equal length) in E; by rewrite length_native16 in E).
  clear E. destruct (native16 little cs) as [|? [|? [|]]] eqn:E; try (apply (f_equal length) in E; by rewrite length_native16 in E).
  clear E. destruct (native16 little co) as [|? [|? [|]]] eqn:E; try (apply (f_equal length) in E; by rewrite length_native16 in E).
  unfold slice. cbn -[native16_decode]. rewrite take_0. congruence.
Qed.

(** ** A packet of its own *)

(** A frame without offload is one packet. *)
Lemma virtio_read_plain p b outs offset : (offset + length p <= length b)%nat →
  handleVirtioRead little (hdr_bytes little zero_hdr ++ p) (b :: outs) offset =
    Some (inr ((take offset b ++ p ++ drop (length p) (drop offset b)) :: outs, [len p])).
Proof.
  intros H. unfold handleVirtioRead. rewrite hdr_roundtrip by (split; by vm_compute).
  change (vh_gsoType zero_hdr =? VIRTIO_NET_HDR_GSO_NONE) with true.
  change (negb (Z.land (vh_flags zero_hdr) VIRTIO_NET_HDR_F_NEEDS_CSUM =? 0)) with false. cbv iota.
  rewrite (from_Some (hdr_bytes _ _ ++ _)) by (rewrite length_app, length_hdr_bytes; lia). cbn [mbind option_bind].
  rewrite <- (length_hdr_bytes zero_hdr), drop_app_length. rewrite from_Some by lia. cbn [mbind option_bind].
  assert (len (drop offset b) <? len p = false) as ->.
  { apply Z.ltb_ge. unfold len. rewrite length_drop. lia. }
  rewrite copy_to_start by (rewrite length_drop; lia). done.
Qed.

Lemma plain_packets p b outs offset : (offset + length p <= length b)%nat →
  packets offset ((take offset b ++ p ++ drop (length p) (drop offset b)) :: outs) [len p] = [p].
Proof.
  intros H. unfold packets. cbn [zip_with]. unfold len. rewrite Nat2Z.id, drop_drop. rewrite slice_placed by done. by destruct outs.
Qed.

(** ** A packet to be split *)

Definition gso_type (v6 tcp : bool) : Z :=
  if tcp then if v6 then VIRTIO_NET_HDR_GSO_TCPV6 else VIRTIO_NET_HDR_GSO_TCPV4 else VIRTIO_NET_HDR_GSO_UDP_L4.

(** The frame: the header of the kernel says where the transport header starts and where its
    checksum is; where that header ends is read from the packet. *)
Record gso_frame (v : virtioNetHdr) (v6 tcp : bool) (A B P : list Z) : Prop := {
  gf_wf : hdr_wf v;
  gf_bytes : Forall is_byte (A ++ B ++ P);
  gf_type : vh_gsoType v = gso_type v6 tcp;
  gf_start : vh_csumStart v = len A;
  gf_off : vh_csumOffset v = Z.of_nat (csum_at tcp);
  gf_gso : 1 <= vh_gsoSize v;
  gf_len : len A + len B + len P <= 65535;
  gf_ip : ((if v6 then 40 else 20) <= length A)%nat;
  gf_version : Z.shiftr (default 0 (A !! 0%nat)) 4 = if v6 then 6 else 4;
  gf_transport : if tcp then (20 <= length B <= 60)%nat ∧ Z.shiftr (default 0 (B !! 12%nat)) 4 * 4 = len B else length B = 8%nat;
}.

Lemma gso_frame_input v v6 tcp A B P : gso_frame v v6 tcp A B P →
  gso_input (mkVirtio (vh_flags v) (vh_gsoType v) (len A + len B) (vh_gsoSize v) (vh_csumStart v) (vh_csumOffset v)) v6 tcp A B P.
Proof.
  intros [[_ Hg _ _] Hb Ht Hs Ho Hg1 Hl HA Hv HB]. unfold in_width in Hg. split; cbn; try done; try lia. destruct tcp; lia.
Qed.

(** The header length is found. *)
Lemma read_hdrLen v v6 tcp A B P : gso_frame v v6 tcp A B P →
  (if vh_gsoType v =? VIRTIO_NET_HDR_GSO_UDP_L4 then Some (inr (uint16 (vh_csumStart v + 8)))
   else if len (A ++ B ++ P) <=? uint16 (vh_csumStart v + 12) then Some (inl tt)
   else
     b12 ← u8_at (A ++ B ++ P) (Z.to_nat (uint16 (vh_csumStart v + 12)));
     let tcpHLen := uint8 (Z.shiftr b12 4 * 4) in
     Some (if (tcpHLen <? 20) || (60 <? tcpHLen) then inl tt else inr (uint16 (vh_csumStart v + tcpHLen)))) = Some (inr (len A + len B)).
Proof.
  intros [Hw Hb Ht Hs Ho Hg1 Hl HA Hv HB]. rewrite Ht, Hs. unfold len in *. destruct tcp; cbn [gso_type].
  - destruct HB as [HB H12]. replace ((if v6 then VIRTIO_NET_HDR_GSO_TCPV6 else VIRTIO_NET_HDR_GSO_TCPV4) =? VIRTIO_NET_HDR_GSO_UDP_L4) with false
      by by destruct v6. rewrite wrap_small by (unfold in_width; lia).
    rewrite !length_app, (proj2 (Z.leb_gt _ _)) by lia. unfold u8_at.
    rewrite lookup_app_r, lookup_app_l by lia. replace (Z.to_nat (Z.of_nat (length A) + 12) - length A)%nat with 12%nat by lia.
    destruct (lookup_lt_is_Some_2 B 12 ltac:(lia)) as [x Hx]. rewrite Hx in *. cbn [from_option id mbind option_bind] in *.
    cbv zeta. rewrite H12, wrap_small by (unfold in_width; lia).
    rewrite (proj2 (Z.ltb_ge _ _)), (proj2 (Z.ltb_ge _ _)) by lia. cbn [orb]. by rewrite wrap_small by (unfold in_width; lia).
  - rewrite Z.eqb_refl. rewrite wrap_small by (unfold in_width; lia). do 2 f_equal. lia.
Qed.

Lemma virtio_read_split v v6 tcp A B P outs offset : gso_frame v v6 tcp A B P →
  (nsegs (vh_gsoSize v) P <= length outs)%nat →
  Forall (λ b : list Z, offset + length A + length B + Nat.min (Z.to_nat (vh_gsoSize v)) (length P) <= length b)%nat outs →
  ∃ outs' sizes, handleVirtioRead little (hdr_bytes little v ++ A ++ B ++ P) outs offset = Some (inr (outs', sizes)) ∧
    packets offset outs' sizes = segments little v6 tcp (clear_ip v6 A) (clear_transport tcp B) P (vh_gsoSize v).
Proof.
  intros Hf Hn Hroom. pose proof (gso_frame_input _ _ _ _ _ _ Hf) as Hin. pose proof (read_hdrLen _ _ _ _ _ _ Hf) as Hlen.
  destruct Hf as [Hw Hb Ht Hs Ho Hg1 Hl HA Hv HB]. set (inp := A ++ B ++ P) in *.
  assert (u8_at inp 0 = Some (default 0 (A !! 0%nat))) as H0.
  { subst inp. unfold u8_at. destruct (lookup_lt_is_Some_2 A 0 ltac:(destruct v6; lia)) as [x Hx]. by rewrite lookup_app_l, Hx by (destruct v6; lia). }
  unfold handleVirtioRead. rewrite hdr_roundtrip by done. rewrite (from_Some (hdr_bytes _ _ ++ _)) by (rewrite length_app, length_hdr_bytes; lia). cbn [mbind option_bind].
  rewrite <- (length_hdr_bytes v), drop_app_length. fold inp. rewrite H0. cbn [mbind option_bind]. rewrite Hv.
  assert ((vh_gsoType v =? VIRTIO_NET_HDR_GSO_NONE) = false) as -> by (rewrite Ht; by destruct v6, tcp).
  assert (negb (vh_gsoType v =? VIRTIO_NET_HDR_GSO_TCPV4) && negb (vh_gsoType v =? VIRTIO_NET_HDR_GSO_TCPV6) &&
          negb (vh_gsoType v =? VIRTIO_NET_HDR_GSO_UDP_L4) = false) as -> by (rewrite Ht; by destruct v6, tcp).
  replace (negb _) with false by (rewrite Ht; by destruct v6, tcp). cbv zeta in Hlen. rewrite Hlen. cbn [mbind option_bind vh_csumStart vh_csumOffset].
  assert ((len inp <? len A + len B) || (len A + len B <? vh_csumStart v) ||
          (len inp <=? uint16 (vh_csumStart v + vh_csumOffset v) + 1) = false) as ->.
  { subst inp. rewrite !len_app, Hs, Ho. unfold len in *. assert (csum_at tcp + 2 <= length B)%nat by (destruct tcp; cbn in *; lia).
    rewrite wrap_small by (unfold in_width; lia). rewrite !orb_false_iff, !Z.ltb_ge, Z.leb_gt. lia. }
  set (hdr := mkVirtio _ _ _ _ _ _) in *. replace ((if v6 then 6 else 4) =? 6) with v6 by by destruct v6.
  destruct (gsoSplit_eq little hdr v6 tcp A B P outs offset Hin) as (outs' & sizes & Hrun & Hpk); try done.
  - unfold is_tcp. subst hdr. cbn. rewrite Ht. by destruct v6, tcp.
  - fold inp in Hrun. rewrite Hrun. cbn [mbind option_bind]. by exists outs', sizes.
Qed.

Lemma virtio_read_segments v v6 tcp A B P outs offset : gso_frame v v6 tcp A B P →
  (nsegs (vh_gsoSize v) P <= length outs)%nat →
  Forall (λ b : list Z, offset + length A + length B + Nat.min (Z.to_nat (vh_gsoSize v)) (length P) <= length b)%nat outs →
  ∃ outs' sizes, handleVirtioRead little (hdr_bytes little v ++ A ++ B ++ P) outs offset = Some (inr (outs', sizes)) ∧
    let pkts := packets offset outs' sizes in
    length pkts = nsegs (vh_gsoSize v) P ∧ concat (drop (length A + length B) <$> pkts) = P ∧
    ∀ i s, pkts !! i = Some s → segment_ok little v6 tcp A B P (vh_gsoSize v) i s.
Proof.
  intros Hf Hn Hroom. destruct (virtio_read_split v v6 tcp A B P outs offset Hf Hn Hroom) as (outs' & sizes & Hrun & Hpk).
  exists outs', sizes. split; [done|]. cbv zeta. rewrite Hpk. apply gso_frame_input in Hf as Hin. set (hdr := mkVirtio _ _ _ _ _ _) in Hin.
  pose proof (gf_gso _ _ _ _ _ _ Hf) as Hg.
  assert (∀ i, (i < nsegs (vh_gsoSize v) P)%nat → segment_ok little v6 tcp A B P (vh_gsoSize v) i
    (segment little v6 tcp (clear_ip v6 A) (clear_transport tcp B) P (vh_gsoSize v) i)) as Hok.
  { intros i Hi. apply (segment_correct little hdr v6 tcp A B P i Hin). by apply nsegs_lt. }
  unfold segments. split_and!.
  - by rewrite length_fmap, length_seq.
  - rewrite <- list_fmap_compose. trans (take (Z.to_nat (vh_gsoSize v) * nsegs (vh_gsoSize v) P) P).
    2: { apply firstn_all2. by apply nsegs_covers. }
    rewrite <- concat_chunks. f_equal. apply list_fmap_ext. intros k i Hk. apply lookup_seq in Hk as [-> Hk]. by apply Hok.
  - intros i s Hi. apply list_lookup_fmap_Some in Hi as (j & -> & Hj). apply lookup_seq in Hj as [-> Hj]. by apply Hok.
Qed.

(** C21: A frame that the kernel hands over for segmentation is cut into packets that carry its data completely and in
    order: each packet has the headers of the frame with its own lengths, its own IPv4 identification and its own
    TCP sequence number, FIN and PSH only on the last one, and valid checksums. *)
Theorem segmentation_correct v v6 tcp A B P outs offset : gso_frame v v6 tcp A B P →
  (nsegs (vh_gsoSize v) P <= length outs)%nat →
  Forall (λ b : list Z, offset + length A + length B + Nat.min (Z.to_nat (vh_gsoSize v)) (length P) <= length b)%nat outs →
  ∃ outs' sizes, handleVirtioRead little (hdr_bytes little v ++ A ++ B ++ P) outs offset = Some (inr (outs', sizes)) ∧
    let pkts := packets offset outs' sizes in
    length pkts = nsegs (vh_gsoSize v) P ∧ concat (drop (length A + length B) <$> pkts) = P ∧
    ∀ i s, pkts !! i = Some s → segment_ok little v6 tcp A B P (vh_gsoSize v) i s.
Proof. apply virtio_read_segments. Qed.

End read.
