(* ===== verification/OffloadGro.v ===== *)
(** Merging packets: which packets are considered, what two packets that are merged have in common,
    and the tables of flows. *)

From S2P Require Import Prelude Bytes Checksum Offload OffloadSplit.

(** ** Packets that may be merged *)

Definition byte (p : list Z) (k : nat) : Z := default 0 (p !! k).
Definition iph (v6 : bool) : nat := if v6 then 40%nat else 20%nat.

(** The packet is a whole TCP segment or UDP datagram with data; its transport header has [t] bytes. *)
Record candidate (v6 tcp : bool) (t : nat) (p : list Z) : Prop := {
  cd_bytes : Forall is_byte p;
  cd_len : len p <= 65535;
  cd_first : if v6 then Z.shiftr (byte p 0) 4 = 6 else byte p 0 = 0x45;
  cd_proto : byte p (if v6 then 6 else 9) = proto_of tcp;
  cd_iplen : u16_at p (if v6 then 4 else 2) = Some (if v6 then len p - 40 else len p);
  cd_whole : fragmented p v6 = Some false;
  cd_data : (iph v6 + t < length p)%nat;
  cd_transport : if tcp then (20 <= t <= 60)%nat ∧ Z.shiftr (byte p (iph v6 + 12)) 4 * 4 = Z.of_nat t ∧
                               (byte p (iph v6 + 13) = 16 ∨ byte p (iph v6 + 13) = 24)
                 else t = 8%nat;
}.

Definition payload (v6 : bool) (t : nat) (p : list Z) : list Z := drop (iph v6 + t) p.
Definition seq_of (v6 : bool) (p : list Z) : Z := be_decode (slice (iph v6 + 4) (iph v6 + 8) p).
Definition psh_of (v6 : bool) (p : list Z) : bool := byte p (iph v6 + 13) =? 24.

Lemma byte_is p k : (k < length p)%nat → p !! k = Some (byte p k).
Proof. intros H. unfold byte. by destruct (lookup_lt_is_Some_2 p k H) as [x ->]. Qed.

Lemma byte_range p k : Forall is_byte p → 0 <= byte p k < 256.
Proof.
  intros H. unfold byte. destruct (p !! k) as [x|] eqn:E; [|done]. exact (Forall_lookup_1 _ _ _ _ H E).
Qed.

Lemma nibbles b : 0 <= b < 256 → b = Z.shiftr b 4 * 16 + Z.land b 15.
Proof.
  intros H. change 15 with (Z.ones 4). rewrite Z.land_ones, Z.shiftr_div_pow2 by lia. change (2 ^ 4) with 16.
  pose proof (Z.div_mod b 16). lia.
Qed.

Lemma shiftr4_range b : 0 <= b < 256 → 0 <= Z.shiftr b 4 < 16.
Proof. intros H. rewrite Z.shiftr_div_pow2 by lia. change (2 ^ 4) with 16. split; [apply Z.div_pos; lia|apply Z.div_lt_upper_bound; lia]. Qed.

(** ** What merged packets agree on *)

(** The bytes of a header that are not compared, or are made anew for each segment: IPv4 identification,
    IPv6 flow label, lengths, sequence number, flags, window, urgent pointer and checksums. *)
Definition loose (v6 tcp : bool) (k : nat) : Prop :=
  (if v6 then 1 <= k < 6 else 2 <= k < 6 ∨ 10 <= k < 12)%nat ∨
  (iph v6 + 4 <= k < iph v6 + 8)%nat ∨ (tcp = true ∧ iph v6 + 12 <= k < iph v6 + 20)%nat.

(** Two packets have the same headers, but for these; the traffic class of IPv6 and the header
    length of TCP are next to them in a byte. *)
Record agree (v6 tcp : bool) (t : nat) (p q : list Z) : Prop := {
  ag_bytes : ∀ k, (k < iph v6 + t)%nat → ¬ loose v6 tcp k → p !! k = q !! k;
  ag_class : v6 = true → Z.shiftr (byte p 1) 4 = Z.shiftr (byte q 1) 4;
  ag_doff : tcp = true → Z.shiftr (byte p (iph v6 + 12)) 4 = Z.shiftr (byte q (iph v6 + 12)) 4;
}.

#[export] Instance agree_equiv v6 tcp t : Equivalence (agree v6 tcp t).
Proof.
  split.
  - by intros p.
  - intros p q [H1 H2 H3]. split; intros; symmetry; auto.
  - intros p q r [H1 H2 H3] [K1 K2 K3]. split; intros.
    + rewrite H1 by done. auto.
    + rewrite H2 by done. auto.
    + rewrite H3 by done. auto.
Qed.

(** What is behind the header does not matter. *)
Lemma agree_app v6 (tcp : bool) t p q : (iph v6 + t <= length p)%nat → (if tcp then (13 <= t)%nat else True) → agree v6 tcp t (p ++ q) p.
Proof.
  intros Hl Ht. split.
  - intros k Hk _. by rewrite lookup_app_l by lia.
  - intros ->. cbn in Hl. unfold byte. by rewrite lookup_app_l by lia.
  - intros ->. unfold byte. by rewrite lookup_app_l by lia.
Qed.

(** ** Flows *)

Lemma be_decode_inj p q : Forall is_byte p → Forall is_byte q → length p = length q → be_decode p = be_decode q → p = q.
Proof. intros Hp Hq Hl He. rewrite <- (be_encode_decode p), <- (be_encode_decode q) by done. by rewrite Hl, He. Qed.

Lemma addr16_inj p q n : length p = n → length q = n → (n <= 16)%nat → addr16 p = addr16 q → p = q.
Proof.
  intros Hp Hq Hn He. unfold addr16 in He. apply (f_equal (take n)) in He.
  rewrite !take_take, (Nat.min_l n 16) in He by done. rewrite <- Hp in He at 1. rewrite <- Hq in He at 1.
  by rewrite !take_app_length in He.
Qed.

(** The flow of a packet. *)
Definition tcp_key (v6 : bool) (p : list Z) : option tcpFlowKey := newTCPFlowKey p (addr_at v6) (addr_at v6 + addr_len v6) (iph v6).
Definition udp_key (v6 : bool) (p : list Z) : option udpFlowKey := newUDPFlowKey p (addr_at v6) (addr_at v6 + addr_len v6) (iph v6).

Lemma slice_lookup_eq {A} lo hi k (p q : list A) : slice lo hi p = slice lo hi q → (lo <= k < hi)%nat → p !! k = q !! k.
Proof.
  intros He Hk. apply (f_equal (λ l, l !! (k - lo)%nat)) in He. rewrite !lookup_slice, !decide_True in He by lia.
  by replace (lo + (k - lo))%nat with k in He by lia.
Qed.

Lemma u16_at_eq p q k lo : Forall is_byte p → Forall is_byte q → (lo <= k < lo + 2)%nat → (lo + 2 <= length p)%nat → (lo + 2 <= length q)%nat →
  be_decode (slice lo (lo + 2) p) = be_decode (slice lo (lo + 2) q) → p !! k = q !! k.
Proof.
  intros Hp Hq Hk Lp Lq He. apply (slice_lookup_eq lo (lo + 2)); [|done].
  apply be_decode_inj; [by apply slice_bytes|by apply slice_bytes| |done]. by rewrite !length_slice.
Qed.

Lemma addr_bounds v6 : (addr_at v6 + addr_len v6 * 2 = iph v6)%nat.
Proof. by destruct v6. Qed.

(** Both kinds of flow hold the addresses and the ports. *)
Lemma tcp_key_is v6 p : (iph v6 + 12 <= length p)%nat → tcp_key v6 p =
  Some (mkTcpKey (addr16 (slice (addr_at v6) (addr_at v6 + addr_len v6) p)) (addr16 (slice (addr_at v6 + addr_len v6) (addr_at v6 + addr_len v6 * 2) p))
    (be_decode (slice (iph v6) (iph v6 + 2) p)) (be_decode (slice (iph v6 + 2) (iph v6 + 4) p)) (be_decode (slice (iph v6 + 8) (iph v6 + 12) p)) v6).
Proof.
  intros H. pose proof (addr_bounds v6). unfold tcp_key, newTCPFlowKey.
  replace (addr_at v6 + addr_len v6 - addr_at v6)%nat with (addr_len v6) by lia.
  replace (addr_at v6 + addr_len v6 + addr_len v6)%nat with (addr_at v6 + addr_len v6 * 2)%nat by lia.
  rewrite !cut_Some by lia. cbn [mbind option_bind]. rewrite !u16_at_Some, !u32_at_Some by lia. cbn [mbind option_bind]. rewrite <- !Nat.add_assoc. by destruct v6.
Qed.

Lemma udp_key_is v6 p : (iph v6 + 4 <= length p)%nat → udp_key v6 p =
  Some (mkUdpKey (addr16 (slice (addr_at v6) (addr_at v6 + addr_len v6) p)) (addr16 (slice (addr_at v6 + addr_len v6) (addr_at v6 + addr_len v6 * 2) p))
    (be_decode (slice (iph v6) (iph v6 + 2) p)) (be_decode (slice (iph v6 + 2) (iph v6 + 4) p)) v6).
Proof.
  intros H. pose proof (addr_bounds v6). unfold udp_key, newUDPFlowKey.
  replace (addr_at v6 + addr_len v6 - addr_at v6)%nat with (addr_len v6) by lia.
  replace (addr_at v6 + addr_len v6 + addr_len v6)%nat with (addr_at v6 + addr_len v6 * 2)%nat by lia.
  rewrite !cut_Some by lia. cbn [mbind option_bind]. rewrite !u16_at_Some by lia. cbn [mbind option_bind]. rewrite <- !Nat.add_assoc. by destruct v6.
Qed.

(** Equal addresses and ports are equal bytes. *)
Lemma flow_bytes v6 p q k : Forall is_byte p → Forall is_byte q → (iph v6 + 4 <= length p)%nat → (iph v6 + 4 <= length q)%nat →
  addr16 (slice (addr_at v6) (addr_at v6 + addr_len v6) p) = addr16 (slice (addr_at v6) (addr_at v6 + addr_len v6) q) →
  addr16 (slice (addr_at v6 + addr_len v6) (addr_at v6 + addr_len v6 * 2) p) = addr16 (slice (addr_at v6 + addr_len v6) (addr_at v6 + addr_len v6 * 2) q) →
  be_decode (slice (iph v6) (iph v6 + 2) p) = be_decode (slice (iph v6) (iph v6 + 2) q) →
  be_decode (slice (iph v6 + 2) (iph v6 + 4) p) = be_decode (slice (iph v6 + 2) (iph v6 + 4) q) →
  (addr_at v6 <= k < iph v6 + 4)%nat → p !! k = q !! k.
Proof.
  intros Hp Hq Lp Lq E1 E2 E3 E4 Hk. pose proof (addr_bounds v6) as Hb. assert (addr_len v6 <= 16)%nat by (destruct v6; cbn; lia).
  apply (addr16_inj _ _ (addr_len v6)) in E1, E2; try (rewrite ?length_slice; lia).
  destruct (decide (k < addr_at v6 + addr_len v6)%nat); [apply (slice_lookup_eq _ _ _ _ _ E1); lia|].
  destruct (decide (k < iph v6)%nat); [apply (slice_lookup_eq _ _ _ _ _ E2); lia|].
  destruct (decide (k < iph v6 + 2)%nat); [apply (u16_at_eq p q k (iph v6)); try done; lia|].
  replace (iph v6 + 4)%nat with (iph v6 + 2 + 2)%nat in E4 by lia. apply (u16_at_eq p q k (iph v6 + 2)); try done; lia.
Qed.

(** ** Headers that can be merged *)

(** A whole packet has no bits of a fragment. *)
Lemma whole_bytes p : Forall is_byte p → (8 <= length p)%nat → fragmented p false = Some false →
  byte p 7 = 0 ∧ byte p 6 = Z.shiftr (byte p 6) 5 * 32.
Proof.
  intros Hb Hl. unfold fragmented, u8_at. rewrite !byte_is by lia. cbn [mbind option_bind]. intros [= Hf].
  apply orb_false_iff in Hf as [Hf H7]. apply orb_false_iff in Hf as [_ H6]. to_prop. split; [done|].
  pose proof (byte_range p 6 Hb) as Hr. rewrite Z.shiftr_div_pow2 by lia. unfold wrap in H6. rewrite Z.shiftl_mul_pow2 in H6 by lia.
  change (2 ^ 3) with 8 in H6. change (2 ^ 8) with (32 * 8) in H6. rewrite Z.mul_mod_distr_r in H6 by lia. change (2 ^ 5) with 32.
  pose proof (Z.div_mod (byte p 6) 32). lia.
Qed.

(** The bytes in front of the addresses. *)
Lemma ip_agree v6 tcp t p q k : candidate v6 tcp t p → candidate v6 tcp t q → ipHeadersCanCoalesce p q = true →
  (k < addr_at v6)%nat → ¬ loose v6 tcp k → p !! k = q !! k.
Proof.
  intros Cp Cq Hip Hk Hl. assert (20 <= length p ∧ 20 <= length q)%nat as [Lp Lq].
  { pose proof (cd_data _ _ _ _ Cp). pose proof (cd_data _ _ _ _ Cq). destruct v6; cbn in *; lia. }
  assert (addr_at v6 <= 12)%nat by (destruct v6; unfold addr_at, ipv6SrcAddrOffset, ipv4SrcAddrOffset; lia).
  rewrite !byte_is by lia. f_equal. unfold ipHeadersCanCoalesce in Hip. fold (byte p 0) (byte q 0) (byte p 1) (byte q 1)
    (byte p 7) (byte q 7) (byte p 6) (byte q 6) (byte p 8) (byte q 8) in Hip.
  rewrite (proj2 (Nat.ltb_ge _ _)), (proj2 (Nat.ltb_ge _ _)) in Hip by lia. cbn [orb] in Hip.
  destruct Cp as [Bp _ Fp Pp _ Wp _ _], Cq as [Bq _ Fq Pq _ Wq _ _]. unfold loose in Hl. destruct v6; unfold addr_at, ipv6SrcAddrOffset, ipv4SrcAddrOffset in Hk; cbn in Hl.
  - rewrite Fp, Z.eqb_refl in Hip. destruct (Z.eqb_spec (byte p 0) (byte q 0)) as [E0|]; [|done]. cbn [negb orb] in Hip.
    destruct (Z.shiftr (byte p 1) 4 =? _) eqn:E1; [|done]. cbn [negb] in Hip. to_prop.
    destruct k as [|[|[|[|[|[|[|[|]]]]]]]]; try lia; congruence.
  - destruct (whole_bytes p Bp ltac:(lia) Wp) as [Z7p Z6p]. destruct (whole_bytes q Bq ltac:(lia) Wq) as [Z7q Z6q].
    rewrite Fp in Hip. change (Z.shiftr 69 4 =? 6) with false in Hip. cbv iota in Hip.
    destruct (Z.eqb_spec (byte p 1) (byte q 1)); [|done]. destruct (Z.eqb_spec (Z.shiftr (byte p 6) 5) (Z.shiftr (byte q 6) 5)); [|done].
    cbn [negb] in Hip. to_prop. destruct k as [|[|[|[|[|[|[|[|[|[|[|[|]]]]]]]]]]]]; try lia; congruence.
Qed.

Lemma ip_class v6 tcp t p q : candidate v6 tcp t p → candidate v6 tcp t q → ipHeadersCanCoalesce p q = true →
  v6 = true → Z.shiftr (byte p 1) 4 = Z.shiftr (byte q 1) 4.
Proof.
  intros Cp Cq Hip ->. pose proof (cd_data _ _ _ _ Cp). pose proof (cd_data _ _ _ _ Cq). cbn in *.
  unfold ipHeadersCanCoalesce in Hip. fold (byte p 0) (byte q 0) (byte p 1) (byte q 1) in Hip.
  rewrite (proj2 (Nat.ltb_ge _ _)), (proj2 (Nat.ltb_ge _ _)) in Hip by lia. cbn [orb] in Hip.
  rewrite (cd_first _ _ _ _ Cp), Z.eqb_refl in Hip. destruct (negb (byte p 0 =? byte q 0)); [done|]. cbn [orb] in Hip.
  destruct (Z.shiftr (byte p 1) 4 =? _) eqn:E1; [|done]. by to_prop.
Qed.

(** Packets of a TCP flow with the same options. *)
Lemma tcp_agree v6 t p q : candidate v6 true t p → candidate v6 true t q → tcp_key v6 p = tcp_key v6 q → ipHeadersCanCoalesce p q = true →
  slice (iph v6 + 20) (iph v6 + t) p = slice (iph v6 + 20) (iph v6 + t) q → agree v6 true t p q.
Proof.
  intros Cp Cq Hkey Hip Hopt. pose proof (cd_data _ _ _ _ Cp) as Lp. pose proof (cd_data _ _ _ _ Cq) as Lq.
  destruct (cd_transport _ _ _ _ Cp) as (Ht & Dp & _). destruct (cd_transport _ _ _ _ Cq) as (_ & Dq & _).
  split; [|by apply (ip_class v6 true t)|intros _; lia]. intros k Hk Hl.
  rewrite !tcp_key_is in Hkey by lia. injection Hkey as E1 E2 E3 E4 E5. pose proof (cd_bytes _ _ _ _ Cp). pose proof (cd_bytes _ _ _ _ Cq).
  destruct (decide (k < addr_at v6)%nat); [by apply (ip_agree v6 true t)|].
  destruct (decide (k < iph v6 + 4)%nat); [apply (flow_bytes v6); try done; lia|].
  destruct (decide (k < iph v6 + 20)%nat).
  - assert (iph v6 + 8 <= k < iph v6 + 12)%nat by (unfold loose in Hl; lia). apply (slice_lookup_eq (iph v6 + 8) (iph v6 + 12)); [|done].
    apply be_decode_inj; [by apply slice_bytes|by apply slice_bytes| |done]. rewrite !length_slice; lia.
  - apply (slice_lookup_eq _ _ _ _ _ Hopt). lia.
Qed.

(** Packets of a UDP flow. *)
Lemma udp_agree v6 p q : candidate v6 false 8 p → candidate v6 false 8 q → udp_key v6 p = udp_key v6 q → ipHeadersCanCoalesce p q = true →
  agree v6 false 8 p q.
Proof.
  intros Cp Cq Hkey Hip. pose proof (cd_data _ _ _ _ Cp) as Lp. pose proof (cd_data _ _ _ _ Cq) as Lq.
  split; [|by apply (ip_class v6 false 8)|done]. intros k Hk Hl.
  rewrite !udp_key_is in Hkey by lia. injection Hkey as E1 E2 E3 E4. pose proof (cd_bytes _ _ _ _ Cp). pose proof (cd_bytes _ _ _ _ Cq).
  destruct (decide (k < addr_at v6)%nat); [by apply (ip_agree v6 false 8)|].
  destruct (decide (k < iph v6 + 4)%nat); [apply (flow_bytes v6); try done; lia|]. unfold loose in Hl. lia.
Qed.

(** ** Entering the code *)

Lemma candidate_type p u (v6 tcp : bool) : Forall is_byte p →
  packetIsGROCandidate p u = (if tcp then if v6 then tcp6GROCandidate else tcp4GROCandidate else if v6 then udp6GROCandidate else udp4GROCandidate) →
  (if v6 then Z.shiftr (byte p 0) 4 = 6 else byte p 0 = 0x45) ∧ byte p (if v6 then 6 else 9) = proto_of tcp ∧
  (iph v6 + (if tcp then 20 else 8) <= length p)%nat.
Proof.
  intros Hb. unfold packetIsGROCandidate. fold (byte p 0) (byte p 9) (byte p 6). pose proof (nibbles _ (byte_range p 0 Hb)) as Hn.
  destruct (Nat.ltb_spec (length p) 28); [by destruct tcp, v6|].
  destruct (Z.shiftr (byte p 0) 4 =? 4) eqn:E4.
  - destruct (Z.land (byte p 0) 15 =? 5) eqn:E5; [|by destruct tcp, v6]. cbn [negb]. to_prop.
    destruct (byte p 9 =? IPPROTO_TCP) eqn:E9, (Nat.leb_spec 40 (length p)); cbn [andb];
      try (destruct (byte p 9 =? IPPROTO_UDP) eqn:E9'; cbn [andb]); destruct u; destruct tcp, v6; intros; try discriminate; to_prop; cbn [iph proto_of]; split_and!; lia.
  - destruct (Z.shiftr (byte p 0) 4 =? 6) eqn:E6; [|by destruct tcp, v6]. to_prop.
    destruct (byte p 6 =? IPPROTO_TCP) eqn:E9, (Nat.leb_spec 60 (length p)); cbn [andb];
      try (destruct (byte p 6 =? IPPROTO_UDP) eqn:E9', (Nat.leb_spec 48 (length p)); cbn [andb]); destruct u; destruct tcp, v6; intros; try discriminate;
      to_prop; cbn [iph proto_of]; split_and!; lia.
Qed.

(** The length in the IP header is read. *)
Lemma ip_header_is p (v6 : bool) : (20 <= length p)%nat → (v6 = false → byte p 0 = 0x45) →
  ip_header p v6 = Some None ∨
  (ip_header p v6 = Some (Some (iph v6)) ∧ u16_at p (if v6 then 4 else 2) = Some (if v6 then len p - 40 else len p)).
Proof.
  intros Hl H0. unfold ip_header. destruct v6.
  - rewrite u16_at_Some by lia. cbn [mbind option_bind]. destruct (_ =? _) eqn:E; [|by left]. right. to_prop. by rewrite E.
  - unfold u8_at. rewrite byte_is, H0 by (done || lia). cbn [mbind option_bind]. rewrite u16_at_Some by lia. cbn [mbind option_bind].
    destruct (_ =? _) eqn:E; [|by left]. right. to_prop. by rewrite E.
Qed.

Lemma fragmented_Some p v6 : (8 <= length p)%nat → ∃ b, fragmented p v6 = Some b.
Proof. intros H. unfold fragmented, u8_at. destruct v6; [by eexists|]. rewrite !byte_is by lia. cbn [mbind option_bind]. by eexists. Qed.

Section enter.
Variables (little : bool) (offset : nat).

(** What is left to do for a TCP packet that may be merged. *)
Definition tcp_eval (bufs : list gbuf) (pktI : nat) (tb : tcpGROTable) (v6 : bool) (t : nat) (p : list Z) : option (groResult * list gbuf * tcpGROTable) :=
  '(tb, existing) ← tcp_lookupOrInsert tb p (addr_at v6) (addr_at v6 + addr_len v6) (iph v6) t pktI;
  match existing with
  | None => Some (groResultTableInsert, bufs, tb)
  | Some items =>
      '(done, bufs, tb) ← tcp_scan little (length items) items p (iph v6) t (seq_of v6 p) (psh_of v6 p) (len (payload v6 t p)) offset pktI v6 bufs tb;
      match (done : option groResult) with
      | Some r => Some (r, bufs, tb)
      | None =>
          tb ← tcp_insert tb p (addr_at v6) (addr_at v6 + addr_len v6) (iph v6) t pktI;
          Some (groResultTableInsert, bufs, tb)
      end
  end.

Lemma tcpGRO_enter bufs pktI tb (v6 u : bool) pb : bufs !! pktI = Some pb → (offset <= length (gb_data pb))%nat →
  let p := drop offset (gb_data pb) in
  Forall is_byte p → packetIsGROCandidate p u = (if v6 then tcp6GROCandidate else tcp4GROCandidate) →
  tcpGRO little bufs offset pktI tb v6 = Some (groResultNoop, bufs, tb) ∨
  ∃ t, candidate v6 true t p ∧ tcpGRO little bufs offset pktI tb v6 = tcp_eval bufs pktI tb v6 t p.
Proof.
  intros Hpb Hoff p Hb Hty. destruct (candidate_type p u v6 true Hb Hty) as (H0 & Hpr & Hl). cbv iota in Hl. unfold tcpGRO. rewrite Hpb. cbn [mbind option_bind].
  rewrite from_Some by done. cbn [mbind option_bind]. fold p. destruct (Z.ltb_spec maxUint16 (len p)) as [|Hmax]; [by left|].
  assert (20 <= iph v6)%nat by (destruct v6; cbn; lia).
  destruct (ip_header_is p v6 ltac:(lia) ltac:(by intros ->)) as [->|[-> Hlen]]; [by left|]. cbn [mbind option_bind].
  destruct (Nat.ltb_spec (length p) (iph v6)); [by left|]. unfold u8_at. rewrite (byte_is p (iph v6 + 12)) by lia. cbn [mbind option_bind].
  set (t := Z.to_nat (uint8 (Z.shiftr (byte p (iph v6 + 12)) 4 * 4))).
  pose proof (shiftr4_range _ (byte_range p (iph v6 + 12) Hb)) as H12.
  assert (Z.shiftr (byte p (iph v6 + 12)) 4 * 4 = Z.of_nat t) as Ht by (subst t; rewrite wrap_small by (unfold in_width; lia); lia).
  destruct (Nat.ltb_spec t 20); [by left|]. destruct (Nat.ltb_spec 60 t); [by left|]. cbn [orb].
  destruct (Nat.ltb_spec (length p) (iph v6 + t)); [by left|].
  destruct (fragmented_Some p v6 ltac:(lia)) as [[] Hfr]; rewrite Hfr; cbn [mbind option_bind]; [by left|].
  unfold tcpFlagsOffset. rewrite byte_is by lia. cbn [mbind option_bind].
  destruct (negb (byte p (iph v6 + 13) =? tcpFlagACK) && negb (byte p (iph v6 + 13) =? Z.lor tcpFlagACK tcpFlagPSH)) eqn:Efl; [by left|].
  assert (byte p (iph v6 + 13) = 16 ∨ byte p (iph v6 + 13) = 24) as Hfl.
  { apply andb_false_iff in Efl as [E|E]; to_prop; [by left|by right]. }
  unfold maxUint16, len in *. replace (Z.of_nat (length p) - Z.of_nat t - Z.of_nat (iph v6)) with (len (payload v6 t p))
    by (unfold len, payload; rewrite length_drop; lia).
  assert (0 <= len (payload v6 t p) <= 65535) as Hpl by (unfold len, payload; rewrite length_drop; lia). rewrite wrap_small by (unfold in_width; lia).
  destruct (Z.ltb_spec (len (payload v6 t p)) 1) as [|Hpos]; [by left|]. right. exists t. split.
  - split; try done. unfold len, payload in Hpos. rewrite length_drop in Hpos. lia.
  - rewrite u32_at_Some by lia. cbn [mbind option_bind]. unfold tcp_eval. fold (addr_at v6) (addr_len v6).
    replace (negb (byte p (iph v6 + 13) =? tcpFlagACK)) with (psh_of v6 p) by (unfold psh_of; by destruct Hfl as [-> | ->]).
    unfold seq_of. by replace (iph v6 + 8)%nat with (iph v6 + 4 + 4)%nat by lia.
Qed.

(** What is left to do for a UDP packet. *)
Definition udp_eval (bufs : list gbuf) (pktI : nat) (tb : udpGROTable) (v6 : bool) (p : list Z) : option (groResult * list gbuf * udpGROTable) :=
  let insert tb invalid := tb ← udp_insert tb p (addr_at v6) (addr_at v6 + addr_len v6) (iph v6) pktI invalid;
                           Some (groResultTableInsert, bufs, tb) in
  '(tb, existing) ← udp_lookupOrInsert tb p (addr_at v6) (addr_at v6 + addr_len v6) (iph v6) pktI;
  match existing with
  | None => Some (groResultTableInsert, bufs, tb)
  | Some items =>
      item ← last items;
      can ← udpPacketsCanCoalesce p (nat8 (iph v6)) (len (payload v6 8 p)) item bufs offset;
      match can with
      | coalesceAppend =>
          '(result, item', bufs') ← coalesceUDPPackets little p item bufs offset v6;
          match result with
          | coalesceSuccess => tb ← udp_updateAt tb item' (length items - 1); Some (groResultCoalesced, bufs', tb)
          | coalescePktInvalidCSum => insert tb true
          | _ => insert tb false
          end
      | _ => insert tb false
      end
  end.

Lemma udpGRO_enter bufs pktI tb (v6 u : bool) pb : bufs !! pktI = Some pb → (offset <= length (gb_data pb))%nat →
  let p := drop offset (gb_data pb) in
  Forall is_byte p → packetIsGROCandidate p u = (if v6 then udp6GROCandidate else udp4GROCandidate) →
  udpGRO little bufs offset pktI tb v6 = Some (groResultNoop, bufs, tb) ∨
  candidate v6 false 8 p ∧ udpGRO little bufs offset pktI tb v6 = udp_eval bufs pktI tb v6 p.
Proof.
  intros Hpb Hoff p Hb Hty. destruct (candidate_type p u v6 false Hb Hty) as (H0 & Hpr & Hl). cbv iota in Hl. unfold udpGRO. rewrite Hpb. cbn [mbind option_bind].
  rewrite from_Some by done. cbn [mbind option_bind]. fold p. destruct (Z.ltb_spec maxUint16 (len p)) as [|Hmax]; [by left|].
  assert (20 <= iph v6)%nat by (destruct v6; cbn; lia).
  destruct (ip_header_is p v6 ltac:(lia) ltac:(by intros ->)) as [->|[-> Hlen]]; [by left|]. cbn [mbind option_bind].
  destruct (Nat.ltb_spec (length p) (iph v6)); [by left|]. destruct (Nat.ltb_spec (length p) (iph v6 + udphLen)); [by left|].
  destruct (fragmented_Some p v6 ltac:(lia)) as [[] Hfr]; rewrite Hfr; cbn [mbind option_bind]; [by left|].
  unfold maxUint16, len, udphLen in *. replace (Z.of_nat (length p) - Z.of_nat 8 - Z.of_nat (iph v6)) with (len (payload v6 8 p))
    by (unfold len, payload; rewrite length_drop; lia).
  assert (0 <= len (payload v6 8 p) <= 65535) as Hpl by (unfold len, payload; rewrite length_drop; lia). rewrite wrap_small by (unfold in_width; lia).
  destruct (Z.ltb_spec (len (payload v6 8 p)) 1) as [|Hpos]; [by left|]. right. split.
  - split; try done; unfold len, payload in Hpos; rewrite length_drop in Hpos; lia.
  - done.
Qed.

End enter.
