(* ===== verification/OffloadTcp.v ===== *)
(** TCP packets that are merged: what an item of the flow table stands for, and that every step of
    the code keeps it. *)

From S2P Require Import Prelude Bytes Checksum Offload OffloadSplit OffloadGro.

Section tcp.
Variables (little : bool) (offset : nat).

Definition valid (v6 tcp : bool) (p : list Z) : Prop := checksumValid little p (iph v6) (proto_of tcp) v6 = Some true.

(** ** What an item stands for *)

(** The item stands for the packets [init] and [lp], which are merged into [target]: consecutive
    segments of one flow, all of the same size but for the last, which may be shorter and alone may have PSH. *)
Record tcp_rep (item : tcpGROItem) (init : list (list Z)) (lp target : list Z) : Prop := {
  tr_iph : ti_iphLen item = iph (tk_isV6 (ti_key item));
  tr_cand : Forall (candidate (tk_isV6 (ti_key item)) true (ti_tcphLen item)) (init ++ [lp]);
  tr_key : Forall (λ p, tcp_key (tk_isV6 (ti_key item)) p = Some (ti_key item)) (init ++ [lp]);
  tr_num : ti_numMerged item = Z.of_nat (length init);
  tr_single : init = [] → target = lp;
  tr_valid : init ≠ [] → Forall (valid (tk_isV6 (ti_key item)) true) (init ++ [lp]);
  tr_bytes : Forall is_byte target;
  tr_len : len target <= 65535;
  tr_header : (iph (tk_isV6 (ti_key item)) + ti_tcphLen item <= length target)%nat;
  tr_agree : Forall (λ p, agree (tk_isV6 (ti_key item)) true (ti_tcphLen item) p target) (init ++ [lp]);
  tr_data : payload (tk_isV6 (ti_key item)) (ti_tcphLen item) target =
            concat (payload (tk_isV6 (ti_key item)) (ti_tcphLen item) <$> init ++ [lp]);
  tr_full : Forall (λ p, len (payload (tk_isV6 (ti_key item)) (ti_tcphLen item) p) = ti_gsoSize item) init;
  tr_last : len (payload (tk_isV6 (ti_key item)) (ti_tcphLen item) lp) <= ti_gsoSize item <= 65535;
  tr_seqw : is_u32 (ti_sentSeq item);
  tr_seq : ∀ j p, (init ++ [lp]) !! j = Some p →
    seq_of (tk_isV6 (ti_key item)) p = uint32 (ti_sentSeq item + ti_gsoSize item * Z.of_nat j);
  tr_psh : Forall (λ p, psh_of (tk_isV6 (ti_key item)) p = false) init ∧ psh_of (tk_isV6 (ti_key item)) lp = ti_pshSet item;
  tr_flags : byte target (iph (tk_isV6 (ti_key item)) + 13) = 16 ∨
             byte target (iph (tk_isV6 (ti_key item)) + 13) = 24 ∧ ti_pshSet item = true;
  tr_first : seq_of (tk_isV6 (ti_key item)) target = ti_sentSeq item;
}.

Lemma seq_range v6 p : Forall is_byte p → is_u32 (seq_of v6 p).
Proof.
  intros H. pose proof (be_decode_range (slice (iph v6 + 4) (iph v6 + 8) p) (slice_bytes _ _ _ H)) as Hr.
  unfold is_u32, in_width, seq_of. split; [lia|]. eapply Z.lt_le_trans; [apply Hr|]. change (2 ^ 32) with (256 ^ 4). apply Z.pow_le_mono_r; [lia|].
  unfold slice. rewrite length_take. lia.
Qed.

Lemma candidate_payload v6 tcp t p : candidate v6 tcp t p → 1 <= len (payload v6 t p) <= 65535.
Proof.
  intros C. pose proof (cd_data _ _ _ _ C). pose proof (cd_len _ _ _ _ C). unfold len, payload in *. rewrite length_drop. lia.
Qed.

Lemma key_v6 v6 t p k : candidate v6 true t p → tcp_key v6 p = Some k → tk_isV6 k = v6.
Proof.
  intros C. destruct (cd_transport _ _ _ _ C) as (Ht & _). pose proof (cd_data _ _ _ _ C). rewrite tcp_key_is by lia. by intros [= <-].
Qed.

(** A packet on its own. *)
Lemma tcp_rep_one v6 t p key idx : candidate v6 true t p → tcp_key v6 p = Some key →
  tcp_rep (mkTcpItem key (seq_of v6 p) idx 0 (len (payload v6 t p)) (iph v6) t (psh_of v6 p)) [] p p.
Proof.
  intros C Hk. pose proof (key_v6 _ _ _ _ C Hk) as Hv. pose proof (candidate_payload _ _ _ _ C) as Hp.
  pose proof (cd_bytes _ _ _ _ C) as Hb. pose proof (cd_data _ _ _ _ C) as Hd.
  split; cbn [ti_key ti_iphLen ti_tcphLen ti_numMerged ti_gsoSize ti_sentSeq ti_pshSet app]; rewrite ?Hv; try done.
  - by apply Forall_singleton.
  - by apply Forall_singleton.
  - apply C.
  - lia.
  - by apply Forall_singleton.
  - cbn. by rewrite app_nil_r.
  - lia.
  - by apply seq_range.
  - intros j q Hj. apply list_lookup_singleton_Some in Hj as [-> <-]. rewrite Z.mul_0_r, Z.add_0_r. symmetry. apply wrap_small. by apply seq_range.
  - destruct (cd_transport _ _ _ _ C) as (_ & _ & [E|E]); unfold psh_of; rewrite E; [by left|by right].
Qed.

(** ** A packet is added *)

Lemma concat_full (xs : list (list Z)) y g : Forall (λ x, len x = g) xs → len (concat (xs ++ [y])) = g * Z.of_nat (length xs) + len y.
Proof.
  induction 1 as [|x xs Hx _ IH]; cbn [app concat length].
  - rewrite app_nil_r. lia.
  - rewrite len_app. cbn [app] in IH. rewrite IH. lia.
Qed.

Lemma tr_total item init lp target : tcp_rep item init lp target →
  len (payload (tk_isV6 (ti_key item)) (ti_tcphLen item) target) =
  ti_gsoSize item * Z.of_nat (length init) + len (payload (tk_isV6 (ti_key item)) (ti_tcphLen item) lp).
Proof.
  intros R. rewrite (tr_data _ _ _ _ R), fmap_app. cbn [fmap list_fmap]. rewrite concat_full with (g := ti_gsoSize item).
  - by rewrite length_fmap.
  - apply Forall_fmap. exact (tr_full _ _ _ _ R).
Qed.

Lemma tr_cand_last item init lp target : tcp_rep item init lp target → candidate (tk_isV6 (ti_key item)) true (ti_tcphLen item) lp.
Proof. intros R. pose proof (tr_cand _ _ _ _ R) as Hc. rewrite Forall_app, Forall_singleton in Hc. apply Hc. Qed.

(** The data end at a segment boundary: the last segment is full. *)
Lemma tr_last_full item init lp target : tcp_rep item init lp target →
  len (payload (tk_isV6 (ti_key item)) (ti_tcphLen item) target) mod ti_gsoSize item = 0 →
  len (payload (tk_isV6 (ti_key item)) (ti_tcphLen item) lp) = ti_gsoSize item.
Proof.
  intros R. rewrite (tr_total _ _ _ _ R). pose proof (tr_last _ _ _ _ R) as Hl. pose proof (candidate_payload _ _ _ _ (tr_cand_last _ _ _ _ R)) as Hp.
  set (l := len (payload _ _ lp)) in *. set (g := ti_gsoSize item) in *.
  rewrite Z.add_comm, Z.mul_comm, Z.mod_add by lia. intros Hm. destruct (Z.eq_dec l g); [done|]. rewrite Z.mod_small in Hm by lia. lia.
Qed.

Lemma agree_flags v6 t x p : (iph v6 + 20 <= length p)%nat → agree v6 true t (write_at (iph v6 + 13) [x] p) p.
Proof.
  intros Hl. split.
  - intros k _ Hk. rewrite lookup_write_at by (cbn [length]; lia). rewrite decide_False; [done|]. cbn [length]. unfold loose in Hk. lia.
  - intros ->. unfold byte. rewrite lookup_write_at by (cbn [length]; lia). by rewrite decide_False by (cbn; lia).
  - intros _. unfold byte. rewrite lookup_write_at by (cbn [length]; lia). by rewrite decide_False by lia.
Qed.

(** The flags of the merged packet once [p] is behind it. *)
Definition with_psh (v6 psh : bool) (p : list Z) : list Z := if psh then write_at (iph v6 + 13) [24] p else p.

Lemma length_with_psh v6 psh p : (iph v6 + 20 <= length p)%nat → length (with_psh v6 psh p) = length p.
Proof. intros. unfold with_psh. destruct psh; [|done]. rewrite length_write_at; [done|]. cbn [length]. lia. Qed.

Lemma payload_app v6 t p q : (iph v6 + t <= length p)%nat → payload v6 t (p ++ q) = payload v6 t p ++ q.
Proof. intros. unfold payload. by rewrite drop_app_le. Qed.

Lemma payload_with_psh v6 psh t p : (20 <= t)%nat → (iph v6 + t <= length p)%nat → payload v6 t (with_psh v6 psh p) = payload v6 t p.
Proof.
  intros Ht Hl. unfold with_psh. destruct psh; [|done]. unfold payload. apply list_eq. intros k. rewrite !lookup_drop, lookup_write_at by (cbn [length]; lia).
  by rewrite decide_False by (cbn [length]; lia).
Qed.

Lemma tcp_rep_append item init lp target p : let v6 := tk_isV6 (ti_key item) in let t := ti_tcphLen item in
  tcp_rep item init lp target → candidate v6 true t p → tcp_key v6 p = Some (ti_key item) → agree v6 true t p target →
  seq_of v6 p = uint32 (ti_sentSeq item + ti_gsoSize item * Z.of_nat (length (init ++ [lp]))) → ti_pshSet item = false →
  len (payload v6 t lp) = ti_gsoSize item → len (payload v6 t p) <= ti_gsoSize item →
  Forall (valid v6 true) (init ++ [lp]) → valid v6 true p → len target + len (payload v6 t p) <= 65535 →
  tcp_rep (merged_item item (ti_sentSeq item) (len (payload v6 t p)) (if psh_of v6 p then true else ti_pshSet item)) (init ++ [lp]) p
    (with_psh v6 (psh_of v6 p) target ++ payload v6 t p).
Proof.
  intros v6 t R C Hk Ha Hseq Hpsh Hfull Hle Hv Hvp Hlen. pose proof (cd_transport _ _ _ _ C) as (Ht & _). pose proof (tr_header _ _ _ _ R) as Hh.
  fold v6 t in Hh. pose proof (length_with_psh v6 (psh_of v6 p) target ltac:(lia)) as Hw. pose proof (candidate_payload _ _ _ _ C) as Hp. pose proof (tr_total _ _ _ _ R) as Htot.
  assert (∀ q, agree v6 true t q target → agree v6 true t q (with_psh v6 (psh_of v6 p) target ++ payload v6 t p)) as Hag.
  { intros q Hq. rewrite Hq. symmetry. rewrite agree_app by lia. unfold with_psh. destruct (psh_of v6 p); [|done]. apply agree_flags. lia. }
  destruct R as [R1 R2 R3 R4 R5 R6 R7 R8 R9 R10 R11 R12 R13 R14 R15 R16 R17 R18]. fold v6 t in R1, R2, R3, R6, R9, R10, R11, R12, R13, R15, R16, R17, R18.
  unfold merged_item. rewrite (proj2 (Z.ltb_ge _ _)) by done. rewrite Hpsh.
  split; cbn [ti_key ti_iphLen ti_tcphLen ti_numMerged ti_gsoSize ti_sentSeq ti_pshSet]; fold v6 t; try done.
  - apply Forall_app_2; [done|by apply Forall_singleton].
  - apply Forall_app_2; [done|by apply Forall_singleton].
  - rewrite R4, length_app, wrap_small; cbn [length]; [lia|]. unfold in_width. assert (len (payload v6 t target) <= len target)
      by (unfold payload, len; rewrite length_drop; lia).
    assert (Z.of_nat (length init) <= ti_gsoSize item * Z.of_nat (length init)) by nia. fold v6 t in Htot. lia.
  - intros E. by destruct init.
  - intros _. apply Forall_app_2; [done|by apply Forall_singleton].
  - apply Forall_app_2; [|apply Forall_drop, C]. unfold with_psh. destruct (psh_of v6 p); [|done]. apply write_at_bytes; [|done]. by repeat constructor.
  - rewrite len_app. unfold len in *. lia.
  - rewrite length_app. lia.
  - apply Forall_app_2; [|apply Forall_singleton; auto]. eapply Forall_impl; [exact R10|]. auto.
  - rewrite payload_app, payload_with_psh, R11 by lia. rewrite (fmap_app _ (init ++ [lp]) [p]), concat_app. cbn. by rewrite app_nil_r.
  - apply Forall_app_2; [done|by apply Forall_singleton].
  - lia.
  - intros j q Hj. apply lookup_app_Some in Hj as [Hj|[Hj Hq]]; [by apply R15|]. apply list_lookup_singleton_Some in Hq as [Hq <-].
    by replace j with (length (init ++ [lp])) by lia.
  - destruct R16 as [Q1 Q2]. split; [|by destruct (psh_of v6 p)]. apply Forall_app_2; [done|]. apply Forall_singleton. congruence.
  - unfold byte. rewrite lookup_app_l by lia. fold (byte (with_psh v6 (psh_of v6 p) target) (iph v6 + 13)). unfold with_psh.
    destruct (psh_of v6 p); [|destruct R17 as [?|[? ?]]; [by left|congruence]]. right. split; [|done]. unfold byte.
    rewrite lookup_write_at by (cbn [length]; lia). rewrite decide_True by (cbn [length]; lia). by rewrite Nat.sub_diag.
  - rewrite <- R18. unfold seq_of. rewrite slice_app_l by lia. unfold with_psh. destruct (psh_of v6 p); [|done].
    by rewrite slice_write_at_ne by (cbn [length]; lia).
Qed.

Lemma tcp_rep_prepend item init lp target p : let v6 := tk_isV6 (ti_key item) in let t := ti_tcphLen item in
  tcp_rep item init lp target → candidate v6 true t p → tcp_key v6 p = Some (ti_key item) → agree v6 true t p target →
  uint32 (seq_of v6 p + len (payload v6 t p)) = ti_sentSeq item → psh_of v6 p = false →
  ti_gsoSize item <= len (payload v6 t p) → (ti_gsoSize item < len (payload v6 t p) → init = []) →
  Forall (valid v6 true) (init ++ [lp]) → valid v6 true p → len p + len (payload v6 t target) <= 65535 →
  tcp_rep (merged_item item (seq_of v6 p) (len (payload v6 t p)) (ti_pshSet item)) (p :: init) lp (p ++ payload v6 t target).
Proof.
  intros v6 t R C Hk Ha Hseq Hpsh Hge Hgt Hv Hvp Hlen. pose proof (cd_transport _ _ _ _ C) as (Ht & _ & Hfl). pose proof (cd_data _ _ _ _ C) as Hd.
  pose proof (candidate_payload _ _ _ _ C) as Hp. pose proof (tr_total _ _ _ _ R) as Htot. fold v6 t in Htot.
  assert (∀ q, agree v6 true t q target → agree v6 true t q (p ++ payload v6 t target)) as Hag.
  { intros q Hq. trans target; [done|]. symmetry. trans p; [apply agree_app; lia|done]. }
  pose proof (candidate_payload _ _ _ _ (tr_cand_last _ _ _ _ R)) as Hlp. fold v6 t in Hlp.
  destruct R as [R1 R2 R3 R4 R5 R6 R7 R8 R9 R10 R11 R12 R13 R14 R15 R16 R17 R18]. fold v6 t in R1, R2, R3, R6, R9, R10, R11, R12, R13, R15, R16, R17, R18.
  assert ((if ti_gsoSize item <? len (payload v6 t p) then len (payload v6 t p) else ti_gsoSize item) = len (payload v6 t p)) as Hg.
  { destruct (Z.ltb_spec (ti_gsoSize item) (len (payload v6 t p))); lia. }
  unfold merged_item. rewrite Hg.
  split; cbn [ti_key ti_iphLen ti_tcphLen ti_numMerged ti_gsoSize ti_sentSeq ti_pshSet app]; fold v6 t; try done.
  - by apply Forall_cons.
  - by apply Forall_cons.
  - rewrite R4, wrap_small; cbn [length]; [lia|]. unfold in_width. assert (len (payload v6 t target) <= len target)
      by (unfold payload, len; rewrite length_drop; lia).
    assert (Z.of_nat (length init) <= ti_gsoSize item * Z.of_nat (length init)) by nia. lia.
  - intros _. by apply Forall_cons.
  - apply Forall_app_2; [apply C|by apply Forall_drop].
  - by rewrite len_app.
  - rewrite length_app. lia.
  - apply Forall_cons. split; [auto|]. eapply Forall_impl; [exact R10|]. auto.
  - rewrite payload_app by lia. cbn. by rewrite R11.
  - apply Forall_cons. split; [done|]. destruct (Z.eq_dec (ti_gsoSize item) (len (payload v6 t p))) as [<-|]; [done|].
    rewrite Hgt by lia. constructor.
  - lia.
  - apply seq_range, C.
  - intros j q Hj. destruct j as [|j]; cbn in Hj.
    + injection Hj as <-. rewrite Z.mul_0_r, Z.add_0_r. symmetry. apply wrap_small, seq_range, C.
    + rewrite (R15 j q Hj), <- Hseq. unfold wrap. rewrite Z.add_mod_idemp_l by lia. f_equal.
      destruct (Z.eq_dec (ti_gsoSize item) (len (payload v6 t p))) as [->|]; [lia|]. rewrite Hgt in Hj by lia.
      destruct j; [lia|done].
  - destruct R16 as [Q1 Q2]. split; [by apply Forall_cons|done].
  - left. unfold byte. rewrite lookup_app_l by lia. fold (byte p (iph v6 + 13)). destruct Hfl as [?|E]; [done|]. unfold psh_of in Hpsh. by rewrite E in Hpsh.
  - unfold seq_of. by rewrite slice_app_l by lia.
Qed.

(** ** When a packet can be added *)

(** Comparing with the merged packet is comparing with one of its parts. *)
Lemma ip_can_agree v6 tcp t p q r : candidate v6 tcp t p → agree v6 tcp t q r → (20 <= length q)%nat → (20 <= length r)%nat →
  ipHeadersCanCoalesce p q = ipHeadersCanCoalesce p r.
Proof.
  intros C [A1 A2 _] Lq Lr. unfold ipHeadersCanCoalesce. fold (byte p 0) (byte p 1) (byte p 7) (byte p 6) (byte p 8).
  pose proof (cd_data _ _ _ _ C). assert (20 <= iph v6)%nat by (destruct v6; cbn; lia). rewrite !(proj2 (Nat.ltb_ge _ 9)) by lia. pose proof (cd_first _ _ _ _ C) as Hf.
  assert (∀ k, (k < 20)%nat → ¬ loose v6 tcp k → q !! k = r !! k) as A.
  { intros k Hk Hl. apply A1; [|done]. destruct v6; cbn; lia. }
  destruct v6.
  - rewrite Hf, Z.eqb_refl, (A 0%nat), (A 7%nat) by (unfold loose; cbn; lia). fold (byte q 1) (byte r 1). by rewrite A2.
  - rewrite Hf. change (Z.shiftr 69 4 =? 6) with false. cbv iota. by rewrite (A 1%nat), (A 6%nat), (A 8%nat) by (unfold loose; cbn; lia).
Qed.

Lemma options_agree v6 t q r : agree v6 true t q r → (20 <= t)%nat → slice (iph v6 + 20) (iph v6 + t) q = slice (iph v6 + 20) (iph v6 + t) r.
Proof.
  intros [A1 _ _] Ht. apply list_eq. intros k. rewrite !lookup_slice. case_decide; [|done]. apply A1; [lia|]. unfold loose. destruct v6; cbn; lia.
Qed.

Lemma nat8_small n : (n < 256)%nat → nat8 n = n.
Proof. intros H. unfold nat8. rewrite wrap_small by (unfold in_width; lia). lia. Qed.

Lemma seq_expected item init lp target : tcp_rep item init lp target → ti_gsoSize item = len (payload (tk_isV6 (ti_key item)) (ti_tcphLen item) lp) →
  uint16 (ti_gsoSize item + uint16 (ti_numMerged item * ti_gsoSize item)) = ti_gsoSize item * Z.of_nat (length (init ++ [lp])).
Proof.
  intros R Hfull. pose proof (tr_total _ _ _ _ R) as Htot. rewrite <- Hfull in Htot. pose proof (tr_len _ _ _ _ R) as Hlen.
  assert (len (payload (tk_isV6 (ti_key item)) (ti_tcphLen item) target) <= len target) by (unfold payload, len; rewrite length_drop; lia).
  pose proof (tr_num _ _ _ _ R) as Hn. pose proof (candidate_payload _ _ _ _ (tr_cand_last _ _ _ _ R)) as Hp. rewrite <- Hfull in Hp.
  rewrite length_app. cbn [length]. rewrite Hn. rewrite (Z.mul_comm (Z.of_nat _)). rewrite !wrap_small; unfold in_width; rewrite ?wrap_small; unfold in_width; lia.
Qed.

(** The item of a flow and a packet of this flow. *)
Definition can_add (item : tcpGROItem) (init : list (list Z)) (lp target p : list Z) (tl : nat) (can : canCoalesce) : Prop :=
  let v6 := tk_isV6 (ti_key item) in
  match can with
  | coalesceUnavailable => True
  | coalesceAppend =>
      tl = ti_tcphLen item ∧ agree v6 true tl p target ∧
      seq_of v6 p = uint32 (ti_sentSeq item + ti_gsoSize item * Z.of_nat (length (init ++ [lp]))) ∧ ti_pshSet item = false ∧
      len (payload v6 tl lp) = ti_gsoSize item ∧ len (payload v6 tl p) <= ti_gsoSize item
  | coalescePrepend =>
      tl = ti_tcphLen item ∧ agree v6 true tl p target ∧ uint32 (seq_of v6 p + len (payload v6 tl p)) = ti_sentSeq item ∧ psh_of v6 p = false ∧
      ti_gsoSize item <= len (payload v6 tl p) ∧ (ti_gsoSize item < len (payload v6 tl p) → init = [])
  end.

Lemma rep_agree item init lp target p : let v6 := tk_isV6 (ti_key item) in let t := ti_tcphLen item in
  tcp_rep item init lp target → candidate v6 true t p → tcp_key v6 p = Some (ti_key item) → ipHeadersCanCoalesce p target = true →
  slice (iph v6 + 20) (iph v6 + t) p = slice (iph v6 + 20) (iph v6 + t) target → agree v6 true t p target.
Proof.
  intros v6 t R C Hk Hip Hopt. pose proof (cd_transport _ _ _ _ C) as (Ht & _). pose proof (tr_header _ _ _ _ R) as Hh. fold v6 t in Hh.
  pose proof (tr_cand_last _ _ _ _ R) as Cl. fold v6 t in Cl. pose proof (cd_data _ _ _ _ Cl) as Hl.
  assert (agree v6 true t lp target) as Ha.
  { pose proof (tr_agree _ _ _ _ R) as H. rewrite Forall_app, Forall_singleton in H. apply H. }
  assert (tcp_key v6 lp = Some (ti_key item)) as Hkl.
  { pose proof (tr_key _ _ _ _ R) as H. rewrite Forall_app, Forall_singleton in H. apply H. }
  trans lp; [|done]. apply tcp_agree; [done|done|congruence| |].
  - rewrite <- Hip. apply (ip_can_agree v6 true t); try done; lia.
  - rewrite Hopt. symmetry. apply options_agree; [done|lia].
Qed.

Lemma can_spec item init lp b bufs p tl : let v6 := tk_isV6 (ti_key item) in
  bufs !! ti_bufsIndex item = Some b → (offset <= length (gb_data b))%nat → tcp_rep item init lp (drop offset (gb_data b)) →
  candidate v6 true tl p → tcp_key v6 p = Some (ti_key item) →
  ∃ can, tcpPacketsCanCoalesce p (nat8 (iph v6)) (nat8 tl) (seq_of v6 p) (psh_of v6 p) (len (payload v6 tl p)) item bufs offset = Some can ∧
    can_add item init lp (drop offset (gb_data b)) p tl can.
Proof.
  intros v6 Hb Hoff R C Hk. set (target := drop offset (gb_data b)) in *. pose proof (cd_transport _ _ _ _ C) as (Ht & _). pose proof (cd_data _ _ _ _ C) as Hd.
  assert (iph v6 <= 40)%nat by (destruct v6; cbn; lia). rewrite !nat8_small by lia. unfold tcpPacketsCanCoalesce. rewrite Hb. cbn [mbind option_bind].
  rewrite from_Some by done. cbn [mbind option_bind]. fold target.
  destruct (Nat.eqb_spec tl (ti_tcphLen item)) as [Etl|]; [|by exists coalesceUnavailable]. cbn [negb].
  pose proof (tr_header _ _ _ _ R) as Hh. fold v6 in Hh. rewrite <- Etl in Hh. rewrite (tr_iph _ _ _ _ R). fold v6.
  assert ((if (20 <? tl)%nat then o1 ← cut p (iph v6 + 20) (iph v6 + tl); o2 ← cut target (iph v6 + 20) (iph v6 + tl); Some (bool_decide (o1 = o2)) else Some true)
    = Some (bool_decide (slice (iph v6 + 20) (iph v6 + tl) p = slice (iph v6 + 20) (iph v6 + tl) target))) as ->.
  { destruct (Nat.ltb_spec 20 tl); [by rewrite !cut_Some by lia|]. symmetry. f_equal. apply bool_decide_eq_true_2. unfold slice.
    by replace (iph v6 + tl - (iph v6 + 20))%nat with 0%nat by lia. }
  cbn [mbind option_bind]. case_bool_decide as Hopt; cbn [negb]; [|by exists coalesceUnavailable].
  destruct (ipHeadersCanCoalesce p target) eqn:Hip; cbn [negb]; [|by exists coalesceUnavailable].
  assert (agree v6 true tl p target) as Ha by (rewrite Etl in *; by apply (rep_agree item init lp)).
  pose proof (candidate_payload _ _ _ _ (tr_cand_last _ _ _ _ R)) as Hp. pose proof (tr_last _ _ _ _ R) as Hl. fold v6 in Hp, Hl. rewrite <- Etl in Hp, Hl.
  destruct (Z.eqb_spec (seq_of v6 p) (uint32 (ti_sentSeq item + uint16 (ti_gsoSize item + uint16 (ti_numMerged item * ti_gsoSize item))))) as [Hseq|_].
  - destruct (ti_pshSet item) eqn:Hpsh; [by exists coalesceUnavailable|]. rewrite from_Some by done. cbn [mbind option_bind]. fold (payload v6 tl target).
    rewrite (proj2 (Z.eqb_neq _ _)) by lia. destruct (Z.eqb_spec (len (payload v6 tl target) mod ti_gsoSize item) 0) as [Hm|]; [|by exists coalesceUnavailable].
    cbn [negb]. destruct (Z.ltb_spec (ti_gsoSize item) (len (payload v6 tl p))); [by exists coalesceUnavailable|].
    exists coalesceAppend. split; [done|]. rewrite Etl in Hm. pose proof (tr_last_full _ _ _ _ R Hm) as Hfull.
    rewrite (seq_expected _ _ _ _ R ltac:(done)) in Hseq. rewrite <- Etl in Hfull. done.
  - destruct (Z.eqb_spec (uint32 (seq_of v6 p + len (payload v6 tl p))) (ti_sentSeq item)) as [Hseq|]; [|by exists coalesceUnavailable].
    destruct (psh_of v6 p) eqn:Hpsh; [by exists coalesceUnavailable|].
    destruct (Z.ltb_spec (len (payload v6 tl p)) (ti_gsoSize item)); [by exists coalesceUnavailable|].
    destruct (Z.ltb_spec (ti_gsoSize item) (len (payload v6 tl p))) as [Hlt|Hge]; cbn [andb].
    + destruct (Z.ltb_spec 0 (ti_numMerged item)) as [|Hn]; [by exists coalesceUnavailable|]. exists coalescePrepend. split; [done|].
      rewrite (tr_num _ _ _ _ R) in Hn. split_and!; try done. intros _. destruct init; [done|cbn [length] in Hn; lia].
    + exists coalescePrepend. split; [done|]. split_and!; try done. fold v6. lia.
Qed.

(** ** Adding it *)

(** A buffer holds a packet behind the headroom, within its capacity. *)
Record buf_ok (b : gbuf) : Prop := {
  bo_offset : (offset < length (gb_data b))%nat;
  bo_cap : len (gb_data b) <= gb_cap b <= 65535;
}.

Lemma checksumValid_Some p v6 proto : (iph v6 <= length p)%nat → ∃ ok, checksumValid little p (iph v6) proto v6 = Some ok.
Proof.
  intros H. pose proof (addr_bounds v6) as Hb. unfold checksumValid. fold (addr_at v6) (addr_len v6).
  rewrite !cut_Some by lia. cbn [mbind option_bind]. rewrite from_Some by done. by eexists.
Qed.

(** What adding the packet in buffer [pktI] to the item does to the buffers. *)
Definition coalesced (item : tcpGROItem) (init : list (list Z)) (lp p : list Z) (pktI : nat) (bufs : list gbuf)
    (r : coalesceResult) (item' : tcpGROItem) (bufs' : list gbuf) : Prop :=
  match r with
  | coalesceSuccess => ∃ init' lp' b', bufs' !! ti_bufsIndex item = Some b' ∧ buf_ok b' ∧ tcp_rep item' init' lp' (drop offset (gb_data b')) ∧
      init' ++ [lp'] ≡ₚ p :: init ++ [lp] ∧ ti_key item' = ti_key item ∧ ti_bufsIndex item' = ti_bufsIndex item ∧
      length bufs' = length bufs ∧ ∀ j, j ≠ ti_bufsIndex item → j ≠ pktI → bufs' !! j = bufs !! j
  | coalesceItemInvalidCSum => bufs' = bufs ∧ init = [] ∧ ¬ valid (tk_isV6 (ti_key item)) true lp
  | _ => bufs' = bufs
  end.

(** The checksums are looked at before anything is changed. *)
Lemma coalesce_checked item init lp target p pktI bufs k : let v6 := tk_isV6 (ti_key item) in
  tcp_rep item init lp target → candidate v6 true (ti_tcphLen item) p →
  (Forall (valid v6 true) (init ++ [lp]) → valid v6 true p → ∃ item' bufs', k = Some (coalesceSuccess, item', bufs') ∧ coalesced item init lp p pktI bufs coalesceSuccess item' bufs') →
  ∃ r item' bufs',
    (item_valid ← (if ti_numMerged item =? 0 then checksumValid little target (iph v6) IPPROTO_TCP v6 else Some true);
     if negb item_valid then Some (coalesceItemInvalidCSum, item, bufs)
     else
       pkt_valid ← checksumValid little p (iph v6) IPPROTO_TCP v6;
       if negb pkt_valid then Some (coalescePktInvalidCSum, item, bufs) else k) = Some (r, item', bufs') ∧
    coalesced item init lp p pktI bufs r item' bufs'.
Proof.
  intros v6 R C Hk. pose proof (tr_header _ _ _ _ R) as Hh. fold v6 in Hh. pose proof (cd_data _ _ _ _ C) as Hd.
  destruct (checksumValid_Some target v6 IPPROTO_TCP ltac:(lia)) as [ok1 E1]. destruct (checksumValid_Some p v6 IPPROTO_TCP ltac:(lia)) as [ok2 E2].
  pose proof (tr_num _ _ _ _ R) as Hn. pose proof (tr_single _ _ _ _ R) as Hs. pose proof (tr_valid _ _ _ _ R) as Hv. fold v6 in Hv.
  assert (∀ all : Forall (valid v6 true) (init ++ [lp]), ∃ r item' bufs', (pkt_valid ← checksumValid little p (iph v6) IPPROTO_TCP v6;
       if negb pkt_valid then Some (coalescePktInvalidCSum, item, bufs) else k) = Some (r, item', bufs') ∧ coalesced item init lp p pktI bufs r item' bufs') as Hpkt.
  { intros all. rewrite E2. cbn [mbind option_bind]. destruct ok2; cbn [negb]; [|by eexists _, _, _].
    destruct (Hk all E2) as (item' & bufs' & -> & Hc). by eexists _, _, _. }
  destruct (Z.eqb_spec (ti_numMerged item) 0) as [E0|E0].
  - assert (init = []) as Hi by (destruct init; [done|cbn [length] in Hn; lia]). rewrite E1. cbn [mbind option_bind]. destruct ok1; cbn [negb].
    + apply Hpkt. rewrite Hi. apply Forall_singleton. unfold valid. rewrite <- (Hs Hi). exact E1.
    + eexists _, _, _. split; [done|]. split_and!; try done. unfold valid. fold v6. rewrite <- (Hs Hi). change (proto_of true) with IPPROTO_TCP. congruence.
  - cbn [mbind option_bind negb]. apply Hpkt, Hv. intros ->. cbn in Hn. lia.
Qed.

Lemma drop_offset (data tail : list Z) : (offset <= length data)%nat → drop offset (data ++ tail) = drop offset data ++ tail.
Proof. intros. by rewrite drop_app_le. Qed.

Lemma drop_write_at (data : list Z) i bs : (i + length bs <= length (drop offset data))%nat → (offset <= length data)%nat →
  drop offset (write_at (offset + i) bs data) = write_at i bs (drop offset data).
Proof.
  intros Hi Ho. rewrite length_drop in Hi. apply list_eq. intros k. rewrite lookup_drop, !lookup_write_at, lookup_drop by (rewrite ?length_drop; lia).
  repeat case_decide; try lia; [|done]. f_equal. lia.
Qed.

Lemma append_spec item init lp b pktI bufs p : let v6 := tk_isV6 (ti_key item) in let t := ti_tcphLen item in
  bufs !! ti_bufsIndex item = Some b → buf_ok b → tcp_rep item init lp (drop offset (gb_data b)) →
  candidate v6 true t p → tcp_key v6 p = Some (ti_key item) → can_add item init lp (drop offset (gb_data b)) p t coalesceAppend →
  ∃ r item' bufs', coalesceTCPPackets little coalesceAppend p pktI (len (payload v6 t p)) (seq_of v6 p) (psh_of v6 p) item bufs offset v6 = Some (r, item', bufs') ∧
    coalesced item init lp p pktI bufs r item' bufs'.
Proof.
  intros v6 t Hb Hok R C Hk (_ & Ha & Hseq & Hpsh & Hfull & Hle). set (target := drop offset (gb_data b)) in *. pose proof (cd_transport _ _ _ _ C) as (Ht & _).
  pose proof (cd_data _ _ _ _ C) as Hd. destruct Hok as [Ho Hcap]. pose proof (tr_header _ _ _ _ R) as Hh. fold v6 t in Hh.
  assert (iph v6 <= 40)%nat by (destruct v6; cbn; lia). unfold coalesceTCPPackets. rewrite Hb. cbn [mbind option_bind].
  rewrite (from_Some (gb_data b)) by lia. cbn [mbind option_bind]. fold target. rewrite (tr_iph _ _ _ _ R). fold v6 t. rewrite nat8_small by lia.
  destruct (Z.ltb_spec (gb_cap b - Z.of_nat offset - Z.of_nat offset) (len target + len p - Z.of_nat (iph v6 + t))) as [|Hroom]; [by eexists _, _, _|].
  assert (len p - Z.of_nat (iph v6 + t) = len (payload v6 t p)) as Hpl by (unfold len, payload; rewrite length_drop; lia).
  assert (len (gb_data b) = Z.of_nat offset + len target) as Htl by (subst target; unfold len; rewrite length_drop; lia).
  apply (coalesce_checked item init lp target p pktI bufs _ R C). intros Hv Hvp.
  assert ((if psh_of v6 p then flags ← u8_at target (iph v6 + tcpFlagsOffset); put8 (gb_data b) (offset + (iph v6 + tcpFlagsOffset)) (Z.lor flags tcpFlagPSH)
           else Some (gb_data b)) = Some (if psh_of v6 p then write_at (offset + (iph v6 + 13)) [24] (gb_data b) else gb_data b)) as ->.
  { destruct (psh_of v6 p); [|done]. unfold u8_at, tcpFlagsOffset. rewrite byte_is by lia. cbn [mbind option_bind].
    destruct (tr_flags _ _ _ _ R) as [E|[_ E]]; [|congruence]. fold v6 in E. rewrite E. unfold put8. rewrite put_at_Some; [done|]. cbn [length].
    unfold target in Hh. rewrite length_drop in Hh. lia. }
  cbn [mbind option_bind]. rewrite from_Some by lia. cbn [mbind option_bind]. fold (payload v6 t p). set (data := if psh_of v6 p then _ else gb_data b).
  assert (length data = length (gb_data b)) as Hdl.
  { subst data. destruct (psh_of v6 p); [|done]. rewrite length_write_at; [done|]. cbn [length]. unfold target in Hh. rewrite length_drop in Hh. lia. }
  assert (drop offset (data ++ payload v6 t p) = with_psh v6 (psh_of v6 p) target ++ payload v6 t p) as Hdrop.
  { rewrite drop_offset by lia. f_equal. subst data. unfold with_psh. destruct (psh_of v6 p); [|done]. apply drop_write_at; [cbn [length]; fold target; lia|lia]. }
  eexists _, _. split; [done|]. exists (init ++ [lp]), p, (mkGbuf (data ++ payload v6 t p) (gb_cap b)). cbn [gb_data].
  rewrite Hdrop. split_and!; try done.
  - apply list_lookup_insert_eq. by eapply lookup_lt_Some.
  - split; cbn [gb_data gb_cap]; [rewrite length_app; lia|]. rewrite len_app. unfold len in *. lia.
  - apply tcp_rep_append; try done. fold v6 t. unfold len in *. lia.
  - by rewrite Permutation_app_comm.
  - by rewrite length_insert.
  - intros j Hj _. by apply list_lookup_insert_ne.
Qed.

Lemma prepend_spec item init lp b pb pktI bufs p : let v6 := tk_isV6 (ti_key item) in let t := ti_tcphLen item in
  bufs !! ti_bufsIndex item = Some b → buf_ok b → tcp_rep item init lp (drop offset (gb_data b)) →
  bufs !! pktI = Some pb → buf_ok pb → pktI ≠ ti_bufsIndex item → p = drop offset (gb_data pb) →
  candidate v6 true t p → tcp_key v6 p = Some (ti_key item) → can_add item init lp (drop offset (gb_data b)) p t coalescePrepend →
  ∃ r item' bufs', coalesceTCPPackets little coalescePrepend p pktI (len (payload v6 t p)) (seq_of v6 p) (psh_of v6 p) item bufs offset v6 = Some (r, item', bufs') ∧
    coalesced item init lp p pktI bufs r item' bufs'.
Proof.
  intros v6 t Hb Hok R Hpb Hpok Hne Hp C Hk (_ & Ha & Hseq & Hpsh & Hge & Hgt). set (target := drop offset (gb_data b)) in *.
  pose proof (cd_transport _ _ _ _ C) as (Ht & _). pose proof (cd_data _ _ _ _ C) as Hd. destruct Hok as [Ho Hcap], Hpok as [Hpo Hpcap].
  pose proof (tr_header _ _ _ _ R) as Hh. fold v6 t in Hh.
  assert (iph v6 <= 40)%nat by (destruct v6; cbn; lia). unfold coalesceTCPPackets. rewrite Hb. cbn [mbind option_bind].
  rewrite (from_Some (gb_data b) offset) by lia. cbn [mbind option_bind]. fold target. rewrite (tr_iph _ _ _ _ R). fold v6 t. rewrite nat8_small by lia.
  rewrite Hpb. cbn [mbind option_bind].
  destruct (Z.ltb_spec (gb_cap pb - Z.of_nat offset - Z.of_nat offset) (len target + len p - Z.of_nat (iph v6 + t))) as [|Hroom]; [by eexists _, _, _|].
  fold v6 in Hpsh. rewrite Hpsh. assert (length target = length (gb_data b) - offset)%nat as Htl by apply length_drop.
  assert (len target - Z.of_nat (iph v6 + t) = len (payload v6 t target)) as Hpl by (unfold len, payload; rewrite length_drop; lia).
  assert (len (gb_data pb) = Z.of_nat offset + len p) as Hpbl by (rewrite Hp; unfold len; rewrite length_drop; lia).
  apply (coalesce_checked item init lp target p pktI bufs _ R C). intros Hv Hvp.
  rewrite from_Some by lia. cbn [mbind option_bind]. rewrite <- drop_drop. fold target. fold (payload v6 t target).
  eexists _, _. split; [done|]. exists (p :: init), lp, (mkGbuf (gb_data pb ++ payload v6 t target) (gb_cap pb)). cbn [gb_data].
  rewrite drop_offset, <- Hp by lia. split_and!; try done.
  - rewrite list_lookup_insert_ne by done. apply list_lookup_insert_eq. by eapply lookup_lt_Some.
  - split; cbn [gb_data gb_cap]; [rewrite length_app; lia|]. rewrite len_app. unfold len in *. lia.
  - apply tcp_rep_prepend; try done. fold v6 t. lia.
  - by rewrite !length_insert.
  - intros j Hj Hj'. rewrite !list_lookup_insert_ne; done.
Qed.

End tcp.

(** ** The table *)

Section flat.
Context `{Countable K} {I : Type}.

(** All items of all flows. *)
Definition flat (m : gmap K (list I)) : list I := map_to_list m ≫= snd.

Lemma flat_range `{MapRange} m : map_range m ≫= snd ≡ₚ flat m.
Proof. unfold flat. by rewrite map_range_perm. Qed.

Lemma flat_delete m k l : m !! k = Some l → flat m ≡ₚ l ++ flat (delete k m).
Proof. intros Hk. unfold flat. by rewrite <- (map_to_list_delete m k l Hk). Qed.

Lemma flat_insert m k l : flat (<[k := l]> m) ≡ₚ l ++ flat (delete k m).
Proof. rewrite (flat_delete _ k l) by apply lookup_insert_eq. by rewrite delete_insert_eq. Qed.

Lemma flat_fresh m k l : m !! k = None → flat (<[k := l]> m) ≡ₚ l ++ flat m.
Proof. intros Hk. rewrite flat_insert. by rewrite delete_id. Qed.

Lemma elem_of_flat m x : x ∈ flat m ↔ ∃ k l, m !! k = Some l ∧ x ∈ l.
Proof.
  unfold flat. rewrite list_elem_of_bind. split.
  - intros ([k l] & Hx & Hkl). apply elem_of_map_to_list in Hkl. eauto.
  - intros (k & l & Hkl & Hx). exists (k, l). by rewrite elem_of_map_to_list.
Qed.

Lemma delete_inserted (l : list I) i x : delete i (<[i := x]> l) = delete i l.
Proof. by rewrite !delete_take_drop, take_insert_ge, drop_insert_lt by lia. Qed.

(** One item is replaced, or removed. *)
Lemma flat_update (m : gmap K (list I)) key cur i item : m !! key = Some cur → cur !! i = Some item →
  flat m ≡ₚ item :: (delete i cur ++ flat (delete key m)) ∧
  (∀ item', flat (<[key := <[i := item']> cur]> m) ≡ₚ item' :: (delete i cur ++ flat (delete key m))) ∧
  flat (<[key := delete i cur]> m) ≡ₚ delete i cur ++ flat (delete key m).
Proof.
  intros Hk Hi. split_and!.
  - rewrite (flat_delete m key cur Hk). by rewrite (delete_Permutation cur i item Hi) at 1.
  - intros item'. rewrite flat_insert. pose proof (lookup_lt_Some _ _ _ Hi) as Hlt.
    rewrite (delete_Permutation (<[i := item']> cur) i item') by by apply list_lookup_insert_eq. by rewrite delete_inserted.
  - apply flat_insert.
Qed.

End flat.
