(* ===== verification/OffloadFlow.v ===== *)
(** The flow tables: evaluating one packet against the items of its flow. *)

From S2P Require Import Prelude Bytes Checksum Offload OffloadSplit OffloadGro OffloadTcp.

Section tcp_flow.
Variables (little : bool) (offset : nat).

Notation valid := (valid little).
Notation buf_ok := (buf_ok offset).
Notation tcp_rep := (tcp_rep little).

(** The packets that a buffer stands for, by its index. *)
Notation groups := (gmap nat (list (list Z))).

Definition item_ok (bufs : list gbuf) (mem : groups) (x : tcpGROItem) : Prop :=
  ∃ b init lp, bufs !! ti_bufsIndex x = Some b ∧ buf_ok b ∧ tcp_rep x init lp (drop offset (gb_data b)) ∧ mem !! ti_bufsIndex x = Some (init ++ [lp]).

Record tcp_ok (bufs : list gbuf) (mem : groups) (m : gmap tcpFlowKey (list tcpGROItem)) : Prop := {
  to_keyed : ∀ key l x, m !! key = Some l → x ∈ l → ti_key x = key;
  to_items : Forall (item_ok bufs mem) (flat m);
  to_nodup : NoDup (ti_bufsIndex <$> flat m);
}.

(** A packet whose item was deleted: it is alone, and its checksum is wrong. *)
Definition lost (bufs : list gbuf) (mem : groups) (i : nat) : Prop :=
  ∃ b v6 t, bufs !! i = Some b ∧ buf_ok b ∧ candidate v6 true t (drop offset (gb_data b)) ∧ ¬ valid v6 true (drop offset (gb_data b)) ∧
    mem !! i = Some [drop offset (gb_data b)].

(** What evaluating packet [p] in buffer [pktI] does. *)
Record scanned (p : list Z) (pktI : nat) (bufs : list gbuf) (mem : groups) (m : gmap tcpFlowKey (list tcpGROItem))
    (merged : bool) (bufs' : list gbuf) (mem' : groups) (m' : gmap tcpFlowKey (list tcpGROItem)) (dropped : list nat) : Prop := {
  sc_ok : tcp_ok bufs' mem' m';
  sc_dom : dom m' = dom m;
  sc_index : ti_bufsIndex <$> flat m ≡ₚ dropped ++ (ti_bufsIndex <$> flat m');
  sc_lost : Forall (lost bufs' mem') dropped;
  sc_length : length bufs' = length bufs;
  sc_merged : if merged then ∃ i old new, i ∈ ti_bufsIndex <$> flat m' ∧ mem !! i = Some old ∧ new ≡ₚ p :: old ∧ mem' = <[i := new]> mem ∧
                               ∀ j, j ≠ i → j ≠ pktI → bufs' !! j = bufs !! j
              else bufs' = bufs ∧ mem' = mem;
}.

Lemma tcp_ok_sub bufs mem m m' l : tcp_ok bufs mem m → flat m ≡ₚ l ++ flat m' →
  (∀ key l x, m' !! key = Some l → x ∈ l → ti_key x = key) → tcp_ok bufs mem m'.
Proof.
  intros [K I N] Hp Hk. rewrite Hp in I. apply Forall_app in I as [_ I]. rewrite Hp, fmap_app in N. apply NoDup_app in N as (_ & _ & N). by split.
Qed.

(** Only the buffers of the merged item and of the packet change. *)
Lemma item_ok_other bufs bufs' mem i pktI new x : item_ok bufs mem x → ti_bufsIndex x ≠ i → ti_bufsIndex x ≠ pktI →
  (∀ j, j ≠ i → j ≠ pktI → bufs' !! j = bufs !! j) → item_ok bufs' (<[i := new]> mem) x.
Proof.
  intros (b & init & lp & Hb & Hok & R & Hm) H1 H2 Hbufs. exists b, init, lp. rewrite Hbufs by done. by rewrite lookup_insert_ne by done.
Qed.

(** The item that a packet was added to is replaced. *)
Lemma merged_ok p pktI bufs mem m key cur i item init lp item' bufs' : tcp_ok bufs mem m → m !! key = Some cur → cur !! i = Some item →
  mem !! ti_bufsIndex item = Some (init ++ [lp]) → pktI ∉ ti_bufsIndex <$> flat m → coalesced little offset item init lp p pktI bufs coalesceSuccess item' bufs' →
  ∃ mem', scanned p pktI bufs mem m true bufs' mem' (<[key := <[i := item']> cur]> m) [].
Proof.
  intros Hok Hk Hi Hm Hpk (init' & lp' & b' & Hb' & Hbok & R & Hperm & Hkey & Hidx & Hlen & Hother). destruct Hok as [K I N].
  destruct (flat_update m key cur i item Hk Hi) as (F1 & F2 & _). specialize (F2 item'). rewrite F1 in I, N, Hpk. apply Forall_cons in I as [Hit I].
  rewrite fmap_cons in N, Hpk. apply NoDup_cons in N as [Nin N]. apply not_elem_of_cons in Hpk as [Hpk1 Hpk2].
  set (rest := delete i cur ++ flat (delete key m)) in *.
  exists (<[ti_bufsIndex item := init' ++ [lp']]> mem). split; try done.
  - split.
    + intros k l x Hl Hx. destruct (decide (k = key)) as [->|Hne].
      * rewrite lookup_insert_eq in Hl. injection Hl as <-. apply list_elem_of_lookup in Hx as [j Hj].
        apply list_lookup_insert_Some in Hj as [(_ & <- & _)|[_ Hj]]; [|apply (K key cur); [done|by eapply list_elem_of_lookup_2]].
        rewrite Hkey. apply (K key cur); [done|]. by eapply list_elem_of_lookup_2.
      * rewrite lookup_insert_ne in Hl by done. by apply (K k l).
    + rewrite F2. apply Forall_cons. split.
      * exists b', init', lp'. rewrite Hidx. split_and!; try done. apply lookup_insert_eq.
      * rewrite Forall_forall in I |- *. intros x Hx. apply (item_ok_other bufs _ _ _ pktI); [by apply I| | |done].
        -- intros E. apply Nin. rewrite <- E. by apply list_elem_of_fmap_2.
        -- intros E. apply Hpk2. rewrite <- E. by apply list_elem_of_fmap_2.
    + rewrite F2, fmap_cons, Hidx. by apply NoDup_cons.
  - rewrite dom_insert_L. apply (elem_of_dom_2 m key) in Hk. set_solver.
  - rewrite F1, F2, !fmap_cons, Hidx. done.
  - exists (ti_bufsIndex item), (init ++ [lp]), (init' ++ [lp']). split_and!; try done. rewrite F2, fmap_cons, Hidx. by apply list_elem_of_here.
Qed.

Lemma scanned_none p pktI bufs mem m : tcp_ok bufs mem m → scanned p pktI bufs mem m false bufs mem m [].
Proof. by split. Qed.

(** An item with a wrong checksum is deleted before the rest is scanned. *)
Lemma scanned_deleted p pktI bufs mem m key cur i item lp merged bufs' mem' m' dropped : tcp_ok bufs mem m → m !! key = Some cur → cur !! i = Some item →
  (∃ b, bufs !! ti_bufsIndex item = Some b ∧ buf_ok b ∧ tcp_rep item [] lp (drop offset (gb_data b))) → mem !! ti_bufsIndex item = Some [lp] →
  ¬ valid (tk_isV6 (ti_key item)) true lp → pktI ∉ ti_bufsIndex <$> flat m →
  let m1 := <[key := delete i cur]> m in
  tcp_ok bufs mem m1 ∧ (scanned p pktI bufs mem m1 merged bufs' mem' m' dropped → scanned p pktI bufs mem m merged bufs' mem' m' (ti_bufsIndex item :: dropped)).
Proof.
  intros Hok Hk Hi (b & Hb & Hbok & R) Hm Hv Hpk m1. destruct (flat_update m key cur i item Hk Hi) as (F1 & _ & F3). fold m1 in F3.
  assert (flat m ≡ₚ [item] ++ flat m1) as F by (by rewrite F1, F3). split.
  - apply (tcp_ok_sub _ _ m _ [item]); [done|done|]. intros k l x Hl Hx. destruct Hok as [K _ _]. subst m1. destruct (decide (k = key)) as [->|Hne].
    + rewrite lookup_insert_eq in Hl. injection Hl as <-. apply (K key cur); [done|].
      rewrite (delete_Permutation cur i item Hi). by apply list_elem_of_further.
    + rewrite lookup_insert_ne in Hl by done. by apply (K k l).
  - intros [S1 S2 S3 S4 S5 S6]. destruct Hok as [K I N]. rewrite F in N, Hpk. cbn [app] in N, Hpk. rewrite fmap_cons in N, Hpk.
    apply NoDup_cons in N as [Nin N]. apply not_elem_of_cons in Hpk as [Hpk1 Hpk2]. pose proof (tr_single _ _ _ _ _ R eq_refl) as Hlp.
    split; try done.
    + rewrite S2. subst m1. rewrite dom_insert_L. apply (elem_of_dom_2 m key) in Hk. set_solver.
    + rewrite F. cbn [app]. rewrite fmap_cons, S3. done.
    + apply Forall_cons. split; [|done]. exists b, (tk_isV6 (ti_key item)), (ti_tcphLen item). rewrite Hlp.
      assert (bufs' !! ti_bufsIndex item = bufs !! ti_bufsIndex item ∧ mem' !! ti_bufsIndex item = mem !! ti_bufsIndex item) as [-> ->].
      { destruct merged; [|by destruct S6 as [-> ->]]. destruct S6 as (j & old & new & Hj & _ & _ & -> & Hoth).
        assert (ti_bufsIndex item ≠ j) by (intros E; apply Nin; rewrite E, S3, elem_of_app; by right).
        rewrite Hoth by (done || by apply not_eq_sym). by rewrite lookup_insert_ne by done. }
      split_and!; try done. pose proof (tr_cand_last _ _ _ _ _ R) as C. exact C.
Qed.

Definition is_merged (r : option groResult) : bool := match r with Some groResultCoalesced => true | _ => false end.

Lemma take_delete {A} (l : list A) i : (i < length l)%nat → take i (delete i l) = take i l.
Proof. intros H. rewrite delete_take_drop, take_app_le by (rewrite length_take; lia). rewrite take_take. by rewrite Nat.min_id. Qed.

(** The code gets to an end, with an effect as described. *)
Definition scan_ok (p : list Z) (pktI : nat) (bufs : list gbuf) (mem : groups) (m : gmap tcpFlowKey (list tcpGROItem)) (pool : nat)
    (o : option (option groResult * list gbuf * tcpGROTable)) : Prop :=
  ∃ res bufs' mem' m' dropped, o = Some (res, bufs', mkTcpTable m' pool) ∧
    scanned p pktI bufs mem m (is_merged res) bufs' mem' m' dropped ∧ res ≠ Some groResultTableInsert.

Lemma coalesce_spec item init lp b pb pktI bufs p tl can : let v6 := tk_isV6 (ti_key item) in
  bufs !! ti_bufsIndex item = Some b → buf_ok b → tcp_rep item init lp (drop offset (gb_data b)) →
  bufs !! pktI = Some pb → buf_ok pb → pktI ≠ ti_bufsIndex item → p = drop offset (gb_data pb) →
  candidate v6 true tl p → tcp_key v6 p = Some (ti_key item) → can_add item init lp (drop offset (gb_data b)) p tl can → can ≠ coalesceUnavailable →
  ∃ r item' bufs', coalesceTCPPackets little can p pktI (len (payload v6 tl p)) (seq_of v6 p) (psh_of v6 p) item bufs offset v6 = Some (r, item', bufs') ∧
    coalesced little offset item init lp p pktI bufs r item' bufs'.
Proof.
  intros v6 Hb Hbok R Hpb Hpok Hne Hp C Hk Hadd Hcan. destruct can; [|done|]; pose proof Hadd as [Etl _]; rewrite Etl in *.
  - by apply (prepend_spec little offset item init lp b pb).
  - by apply (append_spec little offset item init lp b).
Qed.

(** What follows the attempt to add the packet to the item at [i]. *)
Lemma scan_result p pktI items key bufs mem i item m pool cur init lp b r item' bufs' next : tcp_ok bufs mem m → pktI ∉ ti_bufsIndex <$> flat m →
  m !! key = Some cur → take i cur = take i items → cur !! i = Some item → ti_key item = key →
  bufs !! ti_bufsIndex item = Some b → buf_ok b → tcp_rep item init lp (drop offset (gb_data b)) → mem !! ti_bufsIndex item = Some (init ++ [lp]) →
  coalesced little offset item init lp p pktI bufs r item' bufs' →
  (∀ m cur, tcp_ok bufs mem m → pktI ∉ ti_bufsIndex <$> flat m → m !! key = Some cur → take i cur = take i items →
     scan_ok p pktI bufs mem m pool (next (mkTcpTable m pool))) →
  scan_ok p pktI bufs mem m pool
    match r with
    | coalesceSuccess => t ← tcp_updateAt (mkTcpTable m pool) item' i; Some (Some groResultCoalesced, bufs', t)
    | coalesceItemInvalidCSum => t ← tcp_deleteAt (mkTcpTable m pool) (ti_key item) i; next t
    | coalescePktInvalidCSum => Some (Some groResultNoop, bufs, mkTcpTable m pool)
    | _ => next (mkTcpTable m pool)
    end.
Proof.
  intros Hok Hpk Hcur Htake Hi Hkey Hb Hbok R Hm Hres Hnext. pose proof (lookup_lt_Some _ _ _ Hi) as Hlt. destruct r.
  - by apply (Hnext m cur).
  - by apply (Hnext m cur).
  - destruct Hres as (_ & -> & Hv). unfold tcp_deleteAt. cbn [tt_itemsByFlow tt_itemsPool]. rewrite Hkey, Hcur. cbn [from_option id].
    rewrite (proj2 (Nat.ltb_lt _ _)) by done. cbn [mbind option_bind].
    assert (∀ mg bufs' mem' m' d, tcp_ok bufs mem (<[key := delete i cur]> m) ∧ (scanned p pktI bufs mem (<[key := delete i cur]> m) mg bufs' mem' m' d →
      scanned p pktI bufs mem m mg bufs' mem' m' (ti_bufsIndex item :: d))) as Hdel by (intros; eapply scanned_deleted; eauto).
    destruct (flat_update m key cur i item Hcur Hi) as (F1 & _ & F3).
    destruct (Hnext (<[key := delete i cur]> m) (delete i cur)) as (res & bufs1 & mem1 & m1 & d & Hrun & Hsc & Hne).
    + apply (Hdel false bufs mem m []).
    + rewrite F3. rewrite F1, fmap_cons in Hpk. by apply not_elem_of_cons in Hpk as [_ Hpk].
    + apply lookup_insert_eq.
    + by rewrite take_delete.
    + exists res, bufs1, mem1, m1, (ti_bufsIndex item :: d). split; [exact Hrun|]. split; [by apply Hdel|done].
  - exists (Some groResultNoop), bufs, mem, m, []. split; [done|]. split; [by apply scanned_none|done].
  - pose proof Hres as (_ & _ & _ & _ & _ & _ & _ & Hkey' & _). unfold tcp_updateAt. cbn [tt_itemsByFlow tt_itemsPool]. rewrite Hkey', Hkey, Hcur. cbn [from_option id].
    rewrite (proj2 (Nat.ltb_lt _ _)) by done. cbn [mbind option_bind].
    destruct (merged_ok p pktI bufs mem m key cur i item init lp item' bufs' Hok Hcur Hi Hm Hpk Hres) as (mem' & Hsc).
    exists (Some groResultCoalesced), bufs', mem', (<[key := <[i := item']> cur]> m), []. done.
Qed.

Lemma scan_spec p tl pb pktI items key bufs mem pool : let v6 := tk_isV6 key in
  candidate v6 true tl p → tcp_key v6 p = Some key → bufs !! pktI = Some pb → buf_ok pb → p = drop offset (gb_data pb) →
  ∀ i m cur, tcp_ok bufs mem m → pktI ∉ ti_bufsIndex <$> flat m → m !! key = Some cur → take i cur = take i items → (i <= length items)%nat →
  scan_ok p pktI bufs mem m pool
    (tcp_scan little i items p (iph v6) tl (seq_of v6 p) (psh_of v6 p) (len (payload v6 tl p)) offset pktI v6 bufs (mkTcpTable m pool)).
Proof.
  intros v6 C Hk Hpb Hpok Hp. induction i as [|i IH]; intros m cur Hok Hpk Hcur Htake Hlen.
  - exists None, bufs, mem, m, []. split; [done|]. split; [by apply scanned_none|done].
  - cbn [tcp_scan]. destruct (lookup_lt_is_Some_2 items i ltac:(lia)) as [item Hit]. rewrite Hit. cbn [mbind option_bind].
    assert (cur !! i = Some item) as Hci by (rewrite <- (lookup_take_lt cur (S i)), Htake, lookup_take_lt by lia; done).
    assert (take i cur = take i items) as Htake'.
    { apply (f_equal (take i)) in Htake. by rewrite !take_take, !Nat.min_l in Htake by lia. }
    assert (ti_key item = key) as Hkey by (apply (to_keyed _ _ _ Hok key cur); [done|by eapply list_elem_of_lookup_2]).
    assert (item ∈ flat m) as Hin by (apply elem_of_flat; exists key, cur; split; [done|by eapply list_elem_of_lookup_2]).
    pose proof (to_items _ _ _ Hok) as HI. rewrite Forall_forall in HI. destruct (HI item Hin) as (b & init & lp & Hb & Hbok & R & Hm).
    assert (pktI ≠ ti_bufsIndex item) as Hne by (intros ->; apply Hpk; by apply list_elem_of_fmap_2).
    assert (tk_isV6 (ti_key item) = v6) as Hv6 by (by rewrite Hkey).
    assert (candidate (tk_isV6 (ti_key item)) true tl p) as C' by by rewrite Hv6.
    assert (tcp_key (tk_isV6 (ti_key item)) p = Some (ti_key item)) as Hk' by by rewrite Hv6, Hkey.
    destruct (can_spec little offset item init lp b bufs p tl Hb ltac:(apply Nat.lt_le_incl, Hbok) R C' Hk') as (can & Hcan & Hadd).
    rewrite Hv6 in Hcan. rewrite Hcan. cbn [mbind option_bind].
    assert (∀ m cur, tcp_ok bufs mem m → pktI ∉ ti_bufsIndex <$> flat m → m !! key = Some cur → take i cur = take i items →
      scan_ok p pktI bufs mem m pool (tcp_scan little i items p (iph v6) tl (seq_of v6 p) (psh_of v6 p) (len (payload v6 tl p)) offset pktI v6 bufs (mkTcpTable m pool)))
      as Hnext by (intros; eapply IH; eauto; lia).
    pose proof (λ Hc, coalesce_spec item init lp b pb pktI bufs p tl can Hb Hbok R Hpb Hpok Hne Hp C' Hk' Hadd Hc) as Hco.
    destruct can; [|by apply (Hnext m cur)|]; destruct Hco as (r & item' & bufs' & Hrun & Hres); try done; rewrite Hv6 in Hrun; rewrite Hrun; cbn [mbind option_bind];
      eapply (scan_result p pktI items key bufs mem i item m pool cur init lp b r item' bufs' (λ t, tcp_scan little i items p (iph v6) tl (seq_of v6 p) (psh_of v6 p) (len (payload v6 tl p)) offset pktI v6 bufs t)); eauto.
Qed.

(** ** A packet of its own *)

Lemma tcp_item v6 tl p key pktI : candidate v6 true tl p → tcp_key v6 p = Some key → Z.of_nat pktI < 65536 → ∀ tb,
  tcp_insert tb p (addr_at v6) (addr_at v6 + addr_len v6) (iph v6) tl pktI =
    let item := mkTcpItem key (seq_of v6 p) pktI 0 (len (payload v6 tl p)) (iph v6) tl (psh_of v6 p) in
    match tt_itemsByFlow tb !! key with
    | Some items => Some (mkTcpTable (<[key := items ++ [item]]> (tt_itemsByFlow tb)) (tt_itemsPool tb))
    | None =>
        match tt_itemsPool tb with
        | O => None
        | S pool => Some (mkTcpTable (<[key := [item]]> (tt_itemsByFlow tb)) pool)
        end
    end.
Proof.
  intros C Hk Hi tb. pose proof (cd_transport _ _ _ _ C) as (Ht & _ & Hfl). pose proof (cd_data _ _ _ _ C) as Hd. pose proof (candidate_payload _ _ _ _ C) as Hp.
  assert (iph v6 <= 40)%nat by (destruct v6; cbn; lia). unfold tcp_insert. fold (tcp_key v6 p). rewrite Hk. cbn [mbind option_bind].
  rewrite from_Some by lia. cbn [mbind option_bind]. fold (payload v6 tl p). rewrite u32_at_Some by lia. cbn [mbind option_bind].
  unfold u8_at, tcpFlagsOffset. rewrite byte_is by lia. cbn [mbind option_bind]. rewrite !nat8_small by lia.
  rewrite wrap_small by (unfold in_width; lia). replace (nat16 pktI) with pktI by (unfold nat16; rewrite wrap_small by (unfold in_width; lia); lia).
  replace (negb (Z.land (byte p (iph v6 + 13)) tcpFlagPSH =? 0)) with (psh_of v6 p) by (unfold psh_of; by destruct Hfl as [-> | ->]).
  unfold seq_of. by replace (iph v6 + 8)%nat with (iph v6 + 4 + 4)%nat by lia.
Qed.

(** The tables hold the packet now. *)
Record inserted (p : list Z) (pktI : nat) (bufs : list gbuf) (mem : groups) (m : gmap tcpFlowKey (list tcpGROItem)) (pool : nat)
    (m' : gmap tcpFlowKey (list tcpGROItem)) (pool' : nat) : Prop := {
  in_ok : tcp_ok bufs (<[pktI := [p]]> mem) m';
  in_index : ti_bufsIndex <$> flat m' ≡ₚ pktI :: (ti_bufsIndex <$> flat m);
  in_pool : (size m' + pool' = size m + pool ∧ size m' <= size m + 1)%nat;
}.

Lemma insert_ok p pktI pb bufs mem m m' item : tcp_ok bufs mem m → pktI ∉ ti_bufsIndex <$> flat m → bufs !! pktI = Some pb → buf_ok pb →
  p = drop offset (gb_data pb) → ti_bufsIndex item = pktI → tcp_rep item [] p p → flat m' ≡ₚ item :: flat m →
  (∀ key l x, m' !! key = Some l → x ∈ l → ti_key x = key) → tcp_ok bufs (<[pktI := [p]]> mem) m'.
Proof.
  intros [K I N] Hpk Hpb Hpok Hp Hi R F Hk. split; [done| |].
  - rewrite F. apply Forall_cons. split.
    + exists pb, [], p. rewrite Hi, <- Hp. split_and!; try done. apply lookup_insert_eq.
    + rewrite Forall_forall in I |- *. intros x Hx. apply (item_ok_other bufs bufs mem pktI pktI); try done; [by apply I| |].
      all: intros E; apply Hpk; rewrite <- E; by apply list_elem_of_fmap_2.
  - rewrite F, fmap_cons, Hi. by apply NoDup_cons.
Qed.

Lemma insert_spec v6 tl p key pktI pb bufs mem m pool : candidate v6 true tl p → tcp_key v6 p = Some key → Z.of_nat pktI < 65536 →
  bufs !! pktI = Some pb → buf_ok pb → p = drop offset (gb_data pb) → tcp_ok bufs mem m → pktI ∉ ti_bufsIndex <$> flat m →
  (m !! key = None → (0 < pool)%nat) →
  ∃ m' pool', tcp_insert (mkTcpTable m pool) p (addr_at v6) (addr_at v6 + addr_len v6) (iph v6) tl pktI = Some (mkTcpTable m' pool') ∧
    inserted p pktI bufs mem m pool m' pool'.
Proof.
  intros C Hk Hi Hpb Hpok Hp Hok Hpk Hpool. rewrite (tcp_item v6 tl p key pktI C Hk Hi). cbn [tt_itemsByFlow tt_itemsPool]. cbv zeta.
  set (item := mkTcpItem _ _ _ _ _ _ _ _). assert (tcp_rep item [] p p) as R by by apply tcp_rep_one.
  pose proof (to_keyed _ _ _ Hok) as K. destruct (m !! key) as [items|] eqn:Em.
  - eexists _, _. split; [done|]. assert (flat (<[key := items ++ [item]]> m) ≡ₚ item :: flat m) as F.
    { rewrite flat_insert, (flat_delete m key items Em). rewrite <- app_assoc. cbn [app]. symmetry. apply Permutation_middle. }
    split; [|by rewrite F, fmap_cons|].
    + apply (insert_ok p pktI pb bufs mem m _ item); try done. intros k l x Hl Hx. destruct (decide (k = key)) as [->|Hne].
      * rewrite lookup_insert_eq in Hl. injection Hl as <-. apply elem_of_app in Hx as [Hx|Hx%list_elem_of_singleton]; [by apply (K key items)|by subst x].
      * rewrite lookup_insert_ne in Hl by done. by apply (K k l).
    + rewrite map_size_insert_Some by (by eexists). lia.
  - destruct pool as [|pool]; [specialize (Hpool eq_refl); lia|]. eexists _, _. split; [done|].
    assert (flat (<[key := [item]]> m) ≡ₚ item :: flat m) as F by (by rewrite flat_fresh). split; [|by rewrite F, fmap_cons|].
    + apply (insert_ok p pktI pb bufs mem m _ item); try done. intros k l x Hl Hx. destruct (decide (k = key)) as [->|Hne].
      * rewrite lookup_insert_eq in Hl. injection Hl as <-. apply list_elem_of_singleton in Hx as ->. done.
      * rewrite lookup_insert_ne in Hl by done. by apply (K k l).
    + rewrite map_size_insert_None by done. lia.
Qed.

(** ** Evaluating a packet *)

(** What is known after packet [p] in buffer [pktI] was evaluated: [idx] and [idx'] are the buffers
    that the table refers to. *)
Record evaluated (p : list Z) (pktI : nat) (idx idx' : list nat) (bufs bufs' : list gbuf) (mem mem' : groups) (r : groResult) (dropped : list nat) : Prop := {
  ev_index : match r with groResultTableInsert => pktI :: idx | _ => idx end ≡ₚ dropped ++ idx';
  ev_lost : Forall (lost bufs' mem') dropped;
  ev_length : length bufs' = length bufs;
  ev_effect : match r with
              | groResultNoop => bufs' = bufs ∧ mem' = mem
              | groResultTableInsert => bufs' = bufs ∧ mem' = <[pktI := [p]]> mem
              | groResultCoalesced => ∃ i old new, i ∈ idx' ∧ mem !! i = Some old ∧ new ≡ₚ p :: old ∧ mem' = <[i := new]> mem ∧
                                        ∀ j, j ≠ i → j ≠ pktI → bufs' !! j = bufs !! j
              end;
}.

Lemma lost_other bufs mem pktI p i : lost bufs mem i → i ≠ pktI → lost bufs (<[pktI := [p]]> mem) i.
Proof. intros (b & v6 & t & H1 & H2 & H3 & H4 & H5) Hne. exists b, v6, t. by rewrite lookup_insert_ne by done. Qed.

Lemma tcp_eval_spec v6 tl p pktI pb bufs mem m pool : candidate v6 true tl p → Z.of_nat pktI < 65536 →
  bufs !! pktI = Some pb → buf_ok pb → p = drop offset (gb_data pb) → tcp_ok bufs mem m → pktI ∉ ti_bufsIndex <$> flat m → (0 < pool)%nat →
  ∃ r bufs' mem' m' pool' dropped, tcp_eval little offset bufs pktI (mkTcpTable m pool) v6 tl p = Some (r, bufs', mkTcpTable m' pool') ∧
    tcp_ok bufs' mem' m' ∧ evaluated p pktI (ti_bufsIndex <$> flat m) (ti_bufsIndex <$> flat m') bufs bufs' mem mem' r dropped ∧
    (size m' + pool' = size m + pool ∧ size m' <= size m + 1)%nat.
Proof.
  intros C Hi Hpb Hpok Hp Hok Hpk Hpool. destruct (cd_transport _ _ _ _ C) as (Ht & _). pose proof (cd_data _ _ _ _ C) as Hd.
  destruct (tcp_key v6 p) as [key|] eqn:Hk; [|rewrite tcp_key_is in Hk by lia; done]. pose proof (key_v6 _ _ _ _ C Hk) as Hv6.
  unfold tcp_eval, tcp_lookupOrInsert. fold (tcp_key v6 p). rewrite Hk. cbn [mbind option_bind tt_itemsByFlow].
  destruct (m !! key) as [items|] eqn:Em.
  - cbn [mbind option_bind]. rewrite <- Hv6 in C, Hk |- *.
    destruct (scan_spec p tl pb pktI items key bufs mem pool C Hk Hpb Hpok Hp (length items) m items Hok Hpk Em eq_refl ltac:(done))
      as (res & bufs' & mem' & m' & dropped & Hrun & [S1 S2 S3 S4 S5 S6] & Hne).
    rewrite Hrun. cbn [mbind option_bind]. assert (size m' = size m) as Hsz by (by rewrite <- !size_dom, S2).
    destruct res as [[]|]; try done; cbn [is_merged] in S6.
    + exists groResultNoop, bufs', mem', m', pool, dropped. split_and!; try done; lia.
    + exists groResultCoalesced, bufs', mem', m', pool, dropped. split_and!; try done; lia.
    + destruct S6 as [-> ->]. assert (pktI ∉ dropped ∧ pktI ∉ ti_bufsIndex <$> flat m') as [Hpd Hpk'] by (rewrite S3, elem_of_app in Hpk; tauto).
      destruct (insert_spec (tk_isV6 key) tl p key pktI pb bufs mem m' pool C Hk Hi Hpb Hpok Hp S1 Hpk' ltac:(done)) as (m1 & pool1 & Hins & [I1 I2 I3]).
      rewrite Hins. cbn [mbind option_bind]. exists groResultTableInsert, bufs, (<[pktI := [p]]> mem), m1, pool1, dropped. split_and!; try done; try lia.
      split; try done.
      * rewrite I2, S3. apply Permutation_middle.
      * rewrite Forall_forall in S4 |- *. intros i Hd'. apply lost_other; [by apply S4|]. by intros ->.
  - destruct (insert_spec v6 tl p key pktI pb bufs mem m pool C Hk Hi Hpb Hpok Hp Hok Hpk ltac:(done)) as (m1 & pool1 & Hins & [I1 I2 I3]).
    rewrite Hins. cbn [mbind option_bind]. exists groResultTableInsert, bufs, (<[pktI := [p]]> mem), m1, pool1, []. split_and!; try done; try lia.
Qed.

End tcp_flow.
