(* ===== verification/OffloadUdp.v ===== *)
(** UDP packets that are merged: what an item of the flow table stands for, and evaluating a packet
    against the last item of its flow. *)

From S2P Require Import Prelude Bytes Checksum Offload OffloadSplit OffloadGro OffloadTcp OffloadFlow.

Section udp.
Variables (little : bool) (offset : nat).

Notation valid := (valid little).
Notation buf_ok := (buf_ok offset).
Notation groups := (gmap nat (list (list Z))).

(** ** What an item stands for *)

(** The item stands for the packets [init] and [lp], merged into [target]: datagrams of one flow, all of
    the same size but for the last. *)
Record udp_rep (item : udpGROItem) (init : list (list Z)) (lp target : list Z) : Prop := {
  ur_iph : ui_iphLen item = iph (uk_isV6 (ui_key item));
  ur_cand : Forall (candidate (uk_isV6 (ui_key item)) false 8) (init ++ [lp]);
  ur_key : Forall (λ p, udp_key (uk_isV6 (ui_key item)) p = Some (ui_key item)) (init ++ [lp]);
  ur_num : ui_numMerged item = Z.of_nat (length init);
  ur_single : init = [] → target = lp;
  ur_valid : init ≠ [] → Forall (valid (uk_isV6 (ui_key item)) false) (init ++ [lp]);
  ur_bytes : Forall is_byte target;
  ur_len : len target <= 65535;
  ur_header : (iph (uk_isV6 (ui_key item)) + 8 <= length target)%nat;
  ur_agree : Forall (λ p, agree (uk_isV6 (ui_key item)) false 8 p target) (init ++ [lp]);
  ur_data : payload (uk_isV6 (ui_key item)) 8 target = concat (payload (uk_isV6 (ui_key item)) 8 <$> init ++ [lp]);
  ur_full : Forall (λ p, len (payload (uk_isV6 (ui_key item)) 8 p) = ui_gsoSize item) init;
  ur_last : len (payload (uk_isV6 (ui_key item)) 8 lp) <= ui_gsoSize item <= 65535;
}.

Lemma ukey_v6 v6 t p k : candidate v6 false t p → udp_key v6 p = Some k → uk_isV6 k = v6.
Proof.
  intros C. pose proof (cd_transport _ _ _ _ C) as Ht. cbn in Ht. pose proof (cd_data _ _ _ _ C). rewrite udp_key_is by lia. by intros [= <-].
Qed.

Lemma udp_rep_one v6 p key idx invalid : candidate v6 false 8 p → udp_key v6 p = Some key →
  udp_rep (mkUdpItem key idx 0 (len (payload v6 8 p)) (iph v6) invalid) [] p p.
Proof.
  intros C Hk. pose proof (ukey_v6 _ _ _ _ C Hk) as Hv. pose proof (candidate_payload _ _ _ _ C) as Hp.
  pose proof (cd_bytes _ _ _ _ C) as Hb. pose proof (cd_data _ _ _ _ C) as Hd.
  split; cbn [ui_key ui_iphLen ui_numMerged ui_gsoSize app]; rewrite ?Hv; try done.
  - by apply Forall_singleton.
  - by apply Forall_singleton.
  - apply C.
  - lia.
  - by apply Forall_singleton.
  - cbn. by rewrite app_nil_r.
  - lia.
Qed.

Lemma ur_total item init lp target : udp_rep item init lp target →
  len (payload (uk_isV6 (ui_key item)) 8 target) = ui_gsoSize item * Z.of_nat (length init) + len (payload (uk_isV6 (ui_key item)) 8 lp).
Proof.
  intros R. rewrite (ur_data _ _ _ _ R), fmap_app. cbn [fmap list_fmap]. rewrite concat_full with (g := ui_gsoSize item).
  - by rewrite length_fmap.
  - apply Forall_fmap. exact (ur_full _ _ _ _ R).
Qed.

Lemma ur_cand_last item init lp target : udp_rep item init lp target → candidate (uk_isV6 (ui_key item)) false 8 lp.
Proof. intros R. pose proof (ur_cand _ _ _ _ R) as Hc. rewrite Forall_app, Forall_singleton in Hc. apply Hc. Qed.

Lemma ur_last_full item init lp target : udp_rep item init lp target →
  len (payload (uk_isV6 (ui_key item)) 8 target) mod ui_gsoSize item = 0 → len (payload (uk_isV6 (ui_key item)) 8 lp) = ui_gsoSize item.
Proof.
  intros R. rewrite (ur_total _ _ _ _ R). pose proof (ur_last _ _ _ _ R) as Hl. pose proof (candidate_payload _ _ _ _ (ur_cand_last _ _ _ _ R)) as Hp.
  set (l := len (payload _ _ lp)) in *. set (g := ui_gsoSize item) in *.
  rewrite Z.add_comm, Z.mul_comm, Z.mod_add by lia. intros Hm. destruct (Z.eq_dec l g); [done|]. rewrite Z.mod_small in Hm by lia. lia.
Qed.

(** ** A packet is added *)

Lemma udp_rep_append item init lp target p : let v6 := uk_isV6 (ui_key item) in
  udp_rep item init lp target → candidate v6 false 8 p → udp_key v6 p = Some (ui_key item) → agree v6 false 8 p target →
  len (payload v6 8 lp) = ui_gsoSize item → len (payload v6 8 p) <= ui_gsoSize item →
  Forall (valid v6 false) (init ++ [lp]) → valid v6 false p → len target + len (payload v6 8 p) <= 65535 →
  udp_rep (mkUdpItem (ui_key item) (ui_bufsIndex item) (uint16 (ui_numMerged item + 1)) (ui_gsoSize item) (ui_iphLen item) (ui_cSumKnownInvalid item))
    (init ++ [lp]) p (target ++ payload v6 8 p).
Proof.
  intros v6 R C Hk Ha Hfull Hle Hv Hvp Hlen. pose proof (ur_header _ _ _ _ R) as Hh. fold v6 in Hh. pose proof (candidate_payload _ _ _ _ C) as Hp.
  pose proof (ur_total _ _ _ _ R) as Htot. fold v6 in Htot.
  assert (∀ q, agree v6 false 8 q target → agree v6 false 8 q (target ++ payload v6 8 p)) as Hag.
  { intros q Hq. trans target; [done|]. symmetry. by apply agree_app. }
  destruct R as [R1 R2 R3 R4 R5 R6 R7 R8 R9 R10 R11 R12 R13]. fold v6 in R1, R2, R3, R6, R9, R10, R11, R12, R13.
  split; cbn [ui_key ui_iphLen ui_numMerged ui_gsoSize]; fold v6; try done.
  - apply Forall_app_2; [done|by apply Forall_singleton].
  - apply Forall_app_2; [done|by apply Forall_singleton].
  - rewrite R4, length_app, wrap_small; cbn [length]; [lia|]. unfold in_width. assert (len (payload v6 8 target) <= len target)
      by (unfold payload, len; rewrite length_drop; lia).
    assert (Z.of_nat (length init) <= ui_gsoSize item * Z.of_nat (length init)) by nia. lia.
  - intros E. by destruct init.
  - intros _. apply Forall_app_2; [done|by apply Forall_singleton].
  - apply Forall_app_2; [done|]. apply Forall_drop, C.
  - by rewrite len_app.
  - rewrite length_app. lia.
  - apply Forall_app_2; [|apply Forall_singleton; auto]. eapply Forall_impl; [exact R10|]. auto.
  - rewrite payload_app, R11 by lia. rewrite (fmap_app _ (init ++ [lp]) [p]), concat_app. cbn. by rewrite app_nil_r.
  - apply Forall_app_2; [done|by apply Forall_singleton].
  - lia.
Qed.

Lemma udp_rep_agree item init lp target p : let v6 := uk_isV6 (ui_key item) in
  udp_rep item init lp target → candidate v6 false 8 p → udp_key v6 p = Some (ui_key item) → ipHeadersCanCoalesce p target = true →
  agree v6 false 8 p target.
Proof.
  intros v6 R C Hk Hip. pose proof (ur_header _ _ _ _ R) as Hh. fold v6 in Hh. pose proof (ur_cand_last _ _ _ _ R) as Cl. fold v6 in Cl.
  pose proof (cd_data _ _ _ _ Cl) as Hl. assert (20 <= iph v6)%nat by (destruct v6; cbn; lia).
  assert (agree v6 false 8 lp target) as Ha.
  { pose proof (ur_agree _ _ _ _ R) as H'. rewrite Forall_app, Forall_singleton in H'. apply H'. }
  assert (udp_key v6 lp = Some (ui_key item)) as Hkl.
  { pose proof (ur_key _ _ _ _ R) as H'. rewrite Forall_app, Forall_singleton in H'. apply H'. }
  trans lp; [|done]. apply udp_agree; [done|done|congruence|]. rewrite <- Hip. apply (ip_can_agree v6 false 8); try done; lia.
Qed.

Lemma udp_can_spec item init lp b bufs p : let v6 := uk_isV6 (ui_key item) in
  bufs !! ui_bufsIndex item = Some b → (offset <= length (gb_data b))%nat → udp_rep item init lp (drop offset (gb_data b)) →
  candidate v6 false 8 p → udp_key v6 p = Some (ui_key item) →
  ∃ can, udpPacketsCanCoalesce p (nat8 (iph v6)) (len (payload v6 8 p)) item bufs offset = Some can ∧
    (can = coalesceAppend → agree v6 false 8 p (drop offset (gb_data b)) ∧ len (payload v6 8 lp) = ui_gsoSize item ∧ len (payload v6 8 p) <= ui_gsoSize item).
Proof.
  intros v6 Hb Hoff R C Hk. set (target := drop offset (gb_data b)) in *. pose proof (cd_data _ _ _ _ C) as Hd.
  assert (iph v6 <= 40)%nat by (destruct v6; cbn; lia). rewrite !nat8_small by lia. unfold udpPacketsCanCoalesce. rewrite Hb. cbn [mbind option_bind].
  rewrite from_Some by done. cbn [mbind option_bind]. fold target.
  destruct (ipHeadersCanCoalesce p target) eqn:Hip; cbn [negb]; [|by exists coalesceUnavailable].
  pose proof (ur_header _ _ _ _ R) as Hh. fold v6 in Hh. rewrite from_Some by done. cbn [mbind option_bind]. unfold udphLen. fold (payload v6 8 target).
  pose proof (candidate_payload _ _ _ _ (ur_cand_last _ _ _ _ R)) as Hp. pose proof (ur_last _ _ _ _ R) as Hl. fold v6 in Hp, Hl.
  rewrite (proj2 (Z.eqb_neq _ _)) by lia. destruct (Z.eqb_spec (len (payload v6 8 target) mod ui_gsoSize item) 0) as [Hm|]; [|by exists coalesceUnavailable].
  cbn [negb]. destruct (Z.ltb_spec (ui_gsoSize item) (len (payload v6 8 p))); [by exists coalesceUnavailable|].
  exists coalesceAppend. split; [done|]. intros _. split_and!; [by apply (udp_rep_agree item init lp)|by apply (ur_last_full item init lp target)|done].
Qed.

(** What adding the packet to the item does to the buffers. *)
Definition ucoalesced (item : udpGROItem) (init : list (list Z)) (lp p : list Z) (bufs : list gbuf)
    (r : coalesceResult) (item' : udpGROItem) (bufs' : list gbuf) : Prop :=
  match r with
  | coalesceSuccess => ∃ b', bufs' = <[ui_bufsIndex item := b']> bufs ∧ buf_ok b' ∧ udp_rep item' (init ++ [lp]) p (drop offset (gb_data b')) ∧
      ui_key item' = ui_key item ∧ ui_bufsIndex item' = ui_bufsIndex item
  | _ => bufs' = bufs
  end.

Lemma udp_coalesce_spec item init lp b bufs p : let v6 := uk_isV6 (ui_key item) in
  bufs !! ui_bufsIndex item = Some b → buf_ok b → udp_rep item init lp (drop offset (gb_data b)) →
  candidate v6 false 8 p → udp_key v6 p = Some (ui_key item) → agree v6 false 8 p (drop offset (gb_data b)) →
  len (payload v6 8 lp) = ui_gsoSize item → len (payload v6 8 p) <= ui_gsoSize item →
  ∃ r item' bufs', coalesceUDPPackets little p item bufs offset v6 = Some (r, item', bufs') ∧ ucoalesced item init lp p bufs r item' bufs'.
Proof.
  intros v6 Hb Hok R C Hk Ha Hfull Hle. set (target := drop offset (gb_data b)) in *. pose proof (cd_data _ _ _ _ C) as Hd. destruct Hok as [Ho Hcap].
  pose proof (ur_header _ _ _ _ R) as Hh. fold v6 in Hh. assert (iph v6 <= 40)%nat by (destruct v6; cbn; lia).
  unfold coalesceUDPPackets. rewrite Hb. cbn [mbind option_bind]. rewrite (from_Some (gb_data b)) by lia. cbn [mbind option_bind]. fold target.
  rewrite (ur_iph _ _ _ _ R). fold v6. unfold udphLen. rewrite nat8_small by lia.
  destruct (Z.ltb_spec (gb_cap b - Z.of_nat offset - Z.of_nat offset) (len target + len p - Z.of_nat (iph v6 + 8))) as [|Hroom]; [by eexists _, _, _|].
  destruct (checksumValid_Some little target v6 IPPROTO_UDP ltac:(lia)) as [ok1 E1]. destruct (checksumValid_Some little p v6 IPPROTO_UDP ltac:(lia)) as [ok2 E2].
  set (item_valid := if ui_numMerged item =? 0 then _ else _).
  assert (item_valid = Some false ∨ item_valid = Some true ∧ Forall (valid v6 false) (init ++ [lp])) as [-> | [-> Hv]]; [|by eexists _, _, _|].
  { subst item_valid. pose proof (ur_num _ _ _ _ R) as Hn. pose proof (ur_single _ _ _ _ R) as Hs. pose proof (ur_valid _ _ _ _ R) as Hv. fold v6 in Hv.
    destruct (Z.eqb_spec (ui_numMerged item) 0) as [E0|E0].
    - assert (init = []) as Hi by (destruct init; [done|cbn [length] in Hn; lia]). destruct (ui_cSumKnownInvalid item); [by left|]. rewrite E1.
      destruct ok1; [right|by left]. split; [done|]. rewrite Hi. apply Forall_singleton. unfold OffloadTcp.valid. rewrite <- (Hs Hi). exact E1.
    - right. split; [done|]. apply Hv. intros ->. cbn in Hn. lia. }
  cbn [mbind option_bind negb]. rewrite E2. cbn [mbind option_bind]. destruct ok2; cbn [negb]; [|by eexists _, _, _].
  rewrite from_Some by lia. cbn [mbind option_bind]. fold (payload v6 8 p).
  assert (len p - Z.of_nat (iph v6 + 8) = len (payload v6 8 p)) as Hpl by (unfold len, payload; rewrite length_drop; lia).
  assert (len (gb_data b) = Z.of_nat offset + len target) as Htl by (subst target; unfold len; rewrite length_drop; lia).
  eexists _, _, _. split; [done|]. exists (mkGbuf (gb_data b ++ payload v6 8 p) (gb_cap b)). cbn [gb_data]. rewrite drop_offset by lia. fold target. split_and!; try done.
  - split; cbn [gb_data gb_cap]; [rewrite length_app; lia|]. rewrite len_app. unfold len in *. lia.
  - rewrite <- (ur_iph _ _ _ _ R : _ = iph v6). apply udp_rep_append; try done. fold v6. lia.
Qed.

(** ** The table *)

Definition uitem_ok (bufs : list gbuf) (mem : groups) (x : udpGROItem) : Prop :=
  ∃ b init lp, bufs !! ui_bufsIndex x = Some b ∧ buf_ok b ∧ udp_rep x init lp (drop offset (gb_data b)) ∧ mem !! ui_bufsIndex x = Some (init ++ [lp]).

Record udp_ok (bufs : list gbuf) (mem : groups) (m : gmap udpFlowKey (list udpGROItem)) : Prop := {
  uo_keyed : ∀ key l x, m !! key = Some l → x ∈ l → ui_key x = key;
  uo_items : Forall (uitem_ok bufs mem) (flat m);
  uo_nodup : NoDup (ui_bufsIndex <$> flat m);
  uo_nonempty : ∀ key l, m !! key = Some l → l ≠ [];
}.

Lemma uitem_ok_other bufs bufs' mem i pktI new x : uitem_ok bufs mem x → ui_bufsIndex x ≠ i → ui_bufsIndex x ≠ pktI →
  (∀ j, j ≠ i → j ≠ pktI → bufs' !! j = bufs !! j) → uitem_ok bufs' (<[i := new]> mem) x.
Proof.
  intros (b & init & lp & Hb & Hok & R & Hm) H1 H2 Hbufs. exists b, init, lp. rewrite Hbufs by done. by rewrite lookup_insert_ne by done.
Qed.

Lemma udp_merged_ok p pktI bufs mem m key cur i item init lp item' bufs' : udp_ok bufs mem m → m !! key = Some cur → cur !! i = Some item →
  (ui_bufsIndex item < length bufs)%nat →
  mem !! ui_bufsIndex item = Some (init ++ [lp]) → ucoalesced item init lp p bufs coalesceSuccess item' bufs' →
  ∃ mem', udp_ok bufs' mem' (<[key := <[i := item']> cur]> m) ∧
    evaluated little offset p pktI (ui_bufsIndex <$> flat m) (ui_bufsIndex <$> flat (<[key := <[i := item']> cur]> m)) bufs bufs' mem mem' groResultCoalesced [].
Proof.
  intros Hok Hk Hi Hbi Hm (b' & -> & Hbok & R & Hkey & Hidx). destruct Hok as [K I N E].
  destruct (flat_update m key cur i item Hk Hi) as (F1 & F2 & _). specialize (F2 item'). rewrite F1 in I, N. apply Forall_cons in I as [Hit I].
  rewrite fmap_cons in N. apply NoDup_cons in N as [Nin N].
  exists (<[ui_bufsIndex item := (init ++ [lp]) ++ [p]]> mem). split; [split|split; try done].
  - intros k l x Hl Hx. destruct (decide (k = key)) as [->|Hne].
    + rewrite lookup_insert_eq in Hl. injection Hl as <-. apply list_elem_of_lookup in Hx as [j Hj].
      apply list_lookup_insert_Some in Hj as [(_ & <- & _)|[_ Hj]]; [|apply (K key cur); [done|by eapply list_elem_of_lookup_2]].
      rewrite Hkey. apply (K key cur); [done|]. by eapply list_elem_of_lookup_2.
    + rewrite lookup_insert_ne in Hl by done. by apply (K k l).
  - rewrite F2. apply Forall_cons. split.
    + exists b', (init ++ [lp]), p. rewrite Hidx. split_and!; try done; [by apply list_lookup_insert_eq|apply lookup_insert_eq].
    + rewrite Forall_forall in I |- *. intros x Hx. assert (ui_bufsIndex x ≠ ui_bufsIndex item) as Hne.
      { intros Ex. apply Nin. rewrite <- Ex. by apply list_elem_of_fmap_2. }
      apply (uitem_ok_other bufs _ _ _ (ui_bufsIndex item)); [by apply I|done|done|]. intros j Hj _. by apply list_lookup_insert_ne.
  - rewrite F2, fmap_cons, Hidx. by apply NoDup_cons.
  - intros k l Hl. destruct (decide (k = key)) as [->|Hne].
    + rewrite lookup_insert_eq in Hl. injection Hl as <-. intros E'. apply (f_equal length) in E'. rewrite length_insert in E'.
      apply (E key cur Hk). by destruct cur.
    + rewrite lookup_insert_ne in Hl by done. by apply (E k l).
  - rewrite F1, F2, !fmap_cons, Hidx. done.
  - apply length_insert.
  - exists (ui_bufsIndex item), (init ++ [lp]), ((init ++ [lp]) ++ [p]). split_and!; try done.
    + rewrite F2, fmap_cons, Hidx. by apply list_elem_of_here.
    + by rewrite Permutation_app_comm.
    + intros j Hj _. by apply list_lookup_insert_ne.
Qed.

Lemma udp_item v6 p key pktI invalid : candidate v6 false 8 p → udp_key v6 p = Some key → Z.of_nat pktI < 65536 → ∀ tb,
  udp_insert tb p (addr_at v6) (addr_at v6 + addr_len v6) (iph v6) pktI invalid =
    let item := mkUdpItem key pktI 0 (len (payload v6 8 p)) (iph v6) invalid in
    match ut_itemsByFlow tb !! key with
    | Some items => Some (mkUdpTable (<[key := items ++ [item]]> (ut_itemsByFlow tb)) (ut_itemsPool tb))
    | None =>
        match ut_itemsPool tb with
        | O => None
        | S pool => Some (mkUdpTable (<[key := [item]]> (ut_itemsByFlow tb)) pool)
        end
    end.
Proof.
  intros C Hk Hi tb. pose proof (cd_data _ _ _ _ C) as Hd. pose proof (candidate_payload _ _ _ _ C) as Hp.
  assert (iph v6 <= 40)%nat by (destruct v6; cbn; lia). unfold udp_insert. fold (udp_key v6 p). rewrite Hk. cbn [mbind option_bind].
  rewrite from_Some by (unfold udphLen; lia). cbn [mbind option_bind]. unfold udphLen. fold (payload v6 8 p). rewrite !nat8_small by lia.
  rewrite wrap_small by (unfold in_width; lia). by replace (nat16 pktI) with pktI by (unfold nat16; rewrite wrap_small by (unfold in_width; lia); lia).
Qed.

Lemma udp_insert_ok p pktI pb bufs mem m m' item : udp_ok bufs mem m → pktI ∉ ui_bufsIndex <$> flat m → bufs !! pktI = Some pb → buf_ok pb →
  p = drop offset (gb_data pb) → ui_bufsIndex item = pktI → udp_rep item [] p p → flat m' ≡ₚ item :: flat m →
  (∀ key l x, m' !! key = Some l → x ∈ l → ui_key x = key) → (∀ key l, m' !! key = Some l → l ≠ []) → udp_ok bufs (<[pktI := [p]]> mem) m'.
Proof.
  intros [K I N E] Hpk Hpb Hpok Hp Hi R F Hk He. split; [done| | |done].
  - rewrite F. apply Forall_cons. split.
    + exists pb, [], p. rewrite Hi, <- Hp. split_and!; try done. apply lookup_insert_eq.
    + rewrite Forall_forall in I |- *. intros x Hx. apply (uitem_ok_other bufs bufs mem pktI pktI); try done; [by apply I| |].
      all: intros Ex; apply Hpk; rewrite <- Ex; by apply list_elem_of_fmap_2.
  - rewrite F, fmap_cons, Hi. by apply NoDup_cons.
Qed.

(** The packet is put into the table, in any case. *)
Lemma udp_insert_spec v6 p key pktI invalid pb bufs mem m pool : candidate v6 false 8 p → udp_key v6 p = Some key → Z.of_nat pktI < 65536 →
  bufs !! pktI = Some pb → buf_ok pb → p = drop offset (gb_data pb) → udp_ok bufs mem m → pktI ∉ ui_bufsIndex <$> flat m →
  (m !! key = None → (0 < pool)%nat) →
  ∃ m' pool', udp_insert (mkUdpTable m pool) p (addr_at v6) (addr_at v6 + addr_len v6) (iph v6) pktI invalid = Some (mkUdpTable m' pool') ∧
    udp_ok bufs (<[pktI := [p]]> mem) m' ∧
    evaluated little offset p pktI (ui_bufsIndex <$> flat m) (ui_bufsIndex <$> flat m') bufs bufs mem (<[pktI := [p]]> mem) groResultTableInsert [] ∧
    (size m' + pool' = size m + pool ∧ size m' <= size m + 1)%nat.
Proof.
  intros C Hk Hi Hpb Hpok Hp Hok Hpk Hpool. rewrite (udp_item v6 p key pktI invalid C Hk Hi). cbn [ut_itemsByFlow ut_itemsPool]. cbv zeta.
  set (item := mkUdpItem _ _ _ _ _ _). assert (udp_rep item [] p p) as R by by apply udp_rep_one.
  pose proof (uo_keyed _ _ _ Hok) as K. pose proof (uo_nonempty _ _ _ Hok) as E. destruct (m !! key) as [items|] eqn:Em.
  - eexists _, _. split; [done|]. assert (flat (<[key := items ++ [item]]> m) ≡ₚ item :: flat m) as F.
    { rewrite flat_insert, (flat_delete m key items Em). rewrite <- app_assoc. cbn [app]. symmetry. apply Permutation_middle. }
    split; [|split; [split; try done; by rewrite F, fmap_cons|]].
    + apply (udp_insert_ok p pktI pb bufs mem m _ item); try done.
      * intros k l x Hl Hx. destruct (decide (k = key)) as [->|Hne].
        -- rewrite lookup_insert_eq in Hl. injection Hl as <-. apply elem_of_app in Hx as [Hx|Hx%list_elem_of_singleton]; [by apply (K key items)|by subst x].
        -- rewrite lookup_insert_ne in Hl by done. by apply (K k l).
      * intros k l Hl. destruct (decide (k = key)) as [->|Hne]; [|rewrite lookup_insert_ne in Hl by done; by apply (E k l)].
        rewrite lookup_insert_eq in Hl. injection Hl as <-. by destruct items.
    + rewrite map_size_insert_Some by (by eexists). lia.
  - destruct pool as [|pool]; [specialize (Hpool eq_refl); lia|]. eexists _, _. split; [done|].
    assert (flat (<[key := [item]]> m) ≡ₚ item :: flat m) as F by (by rewrite flat_fresh).
    split; [|split; [split; try done; by rewrite F, fmap_cons|]].
    + apply (udp_insert_ok p pktI pb bufs mem m _ item); try done.
      * intros k l x Hl Hx. destruct (decide (k = key)) as [->|Hne].
        -- rewrite lookup_insert_eq in Hl. injection Hl as <-. apply list_elem_of_singleton in Hx as ->. done.
        -- rewrite lookup_insert_ne in Hl by done. by apply (K k l).
      * intros k l Hl. destruct (decide (k = key)) as [->|Hne]; [|rewrite lookup_insert_ne in Hl by done; by apply (E k l)].
        rewrite lookup_insert_eq in Hl. by injection Hl as <-.
    + rewrite map_size_insert_None by done. lia.
Qed.

(** ** Evaluating a packet *)

Lemma udp_eval_spec v6 p pktI pb bufs mem m pool : candidate v6 false 8 p → Z.of_nat pktI < 65536 →
  bufs !! pktI = Some pb → buf_ok pb → p = drop offset (gb_data pb) → udp_ok bufs mem m → pktI ∉ ui_bufsIndex <$> flat m → (0 < pool)%nat →
  ∃ r bufs' mem' m' pool', udp_eval little offset bufs pktI (mkUdpTable m pool) v6 p = Some (r, bufs', mkUdpTable m' pool') ∧
    udp_ok bufs' mem' m' ∧ evaluated little offset p pktI (ui_bufsIndex <$> flat m) (ui_bufsIndex <$> flat m') bufs bufs' mem mem' r [] ∧
    (size m' + pool' = size m + pool ∧ size m' <= size m + 1)%nat.
Proof.
  intros C Hi Hpb Hpok Hp Hok Hpk Hpool. pose proof (cd_data _ _ _ _ C) as Hd.
  destruct (udp_key v6 p) as [key|] eqn:Hk; [|rewrite udp_key_is in Hk by lia; done]. pose proof (ukey_v6 _ _ _ _ C Hk) as Hv6.
  pose proof (λ inv, udp_insert_spec v6 p key pktI inv pb bufs mem m pool C Hk Hi Hpb Hpok Hp Hok Hpk ltac:(done)) as Hins.
  assert (∀ inv, ∃ r bufs' mem' m' pool', (tb ← udp_insert (mkUdpTable m pool) p (addr_at v6) (addr_at v6 + addr_len v6) (iph v6) pktI inv;
     Some (groResultTableInsert, bufs, tb)) = Some (r, bufs', mkUdpTable m' pool') ∧ udp_ok bufs' mem' m' ∧
     evaluated little offset p pktI (ui_bufsIndex <$> flat m) (ui_bufsIndex <$> flat m') bufs bufs' mem mem' r [] ∧
     (size m' + pool' = size m + pool ∧ size m' <= size m + 1)%nat) as Hdefault.
  { intros inv. destruct (Hins inv) as (m' & pool' & -> & H1 & H2 & H3). cbn [mbind option_bind].
    by exists groResultTableInsert, bufs, (<[pktI := [p]]> mem), m', pool'. }
  unfold udp_eval, udp_lookupOrInsert. fold (udp_key v6 p). rewrite Hk. cbn [mbind option_bind ut_itemsByFlow].
  destruct (m !! key) as [items|] eqn:Em.
  2: { destruct (Hdefault false) as (r & bufs' & mem' & m' & pool' & Hrun & Hpost). exists r, bufs', mem', m', pool'. split; [|done].
       destruct (udp_insert _ _ _ _ _ _ _); done. }
  cbn [mbind option_bind]. pose proof (uo_nonempty _ _ _ Hok key items Em) as Hne. destruct (last items) as [item|] eqn:El; [|by apply last_None in El].
  rewrite last_lookup in El. replace (pred (length items)) with (length items - 1)%nat in El by lia. cbn [mbind option_bind].
  assert (ui_key item = key) as Hkey by (apply (uo_keyed _ _ _ Hok key items); [done|by eapply list_elem_of_lookup_2]).
  assert (item ∈ flat m) as Hin by (apply elem_of_flat; exists key, items; split; [done|by eapply list_elem_of_lookup_2]).
  pose proof (uo_items _ _ _ Hok) as HI. rewrite Forall_forall in HI. destruct (HI item Hin) as (b & init & lp & Hb & Hbok & R & Hm).
  rewrite <- Hkey in Hv6. rewrite <- Hv6 in C, Hk. rewrite <- Hkey in Hk.
  destruct (udp_can_spec item init lp b bufs p Hb ltac:(apply Nat.lt_le_incl, Hbok) R C Hk) as (can & Hcan & Hadd).
  rewrite Hv6 in Hcan. rewrite Hcan. cbn [mbind option_bind]. destruct can; [apply Hdefault|apply Hdefault|].
  destruct (Hadd eq_refl) as (Ha & Hfull & Hle).
  destruct (udp_coalesce_spec item init lp b bufs p Hb Hbok R C Hk Ha Hfull Hle) as (r & item' & bufs' & Hrun & Hres).
  rewrite Hv6 in Hrun. rewrite Hrun. cbn [mbind option_bind]. destruct r; try apply Hdefault.
  pose proof Hres as (_ & _ & _ & _ & Hkey' & _). unfold udp_updateAt. cbn [ut_itemsByFlow ut_itemsPool]. rewrite Hkey', Hkey, Em. cbn [from_option id].
  pose proof (lookup_lt_Some _ _ _ El) as Hlt. rewrite (proj2 (Nat.ltb_lt _ _)) by done. cbn [mbind option_bind].
  destruct (udp_merged_ok p pktI bufs mem m key items (length items - 1) item init lp item' bufs' Hok Em El ltac:(by eapply lookup_lt_Some) Hm Hres) as (mem' & U & V).
  exists groResultCoalesced, bufs', mem', (<[key := <[(length items - 1)%nat := item']> items]> m), pool. split_and!; try done.
  - by rewrite map_size_insert_Some by (by eexists).
  - rewrite map_size_insert_Some by (by eexists). lia.
Qed.

End udp.
