(* ===== verification/OffloadBatch.v ===== *)
(** A batch of packets: the loop of [handleGRO].  Every packet of the batch is in exactly one of the buffers
    that are to be written. *)

From S2P Require Import Prelude Bytes Checksum Offload OffloadSplit OffloadRead OffloadGro OffloadTcp OffloadFlow OffloadUdp.

Section batch.
Variables (little : bool) (offset : nat).

Notation buf_ok := (buf_ok offset).
Notation groups := (gmap nat (list (list Z))).
Notation lost := (lost little offset).
Notation evaluated := (evaluated little offset).

(** ** The members of the buffers *)

Definition collect (mem : groups) (W : list nat) : list (list Z) := W ≫= λ i, default [] (mem !! i).

Lemma collect_app mem W1 W2 : collect mem (W1 ++ W2) = collect mem W1 ++ collect mem W2.
Proof. apply bind_app. Qed.

Lemma collect_concat mem W : collect mem W = concat ((λ i, default [] (mem !! i)) <$> W).
Proof. unfold collect. induction W as [|i W IH]; [done|]. cbn. f_equal. exact IH. Qed.

Lemma collect_ext mem mem' W : (∀ i, i ∈ W → mem' !! i = mem !! i) → collect mem' W = collect mem W.
Proof.
  intros H. unfold collect. induction W as [|i W IH]; [done|]. cbn. rewrite (H i) by apply list_elem_of_here. f_equal. apply IH.
  intros j Hj. apply H. by apply list_elem_of_further.
Qed.

(** A packet was added to one of the members. *)
Lemma collect_add mem W i old new p : NoDup W → i ∈ W → mem !! i = Some old → new ≡ₚ p :: old → collect (<[i := new]> mem) W ≡ₚ p :: collect mem W.
Proof.
  intros Hnd Hi Hold Hnew. apply list_elem_of_split in Hi as (W1 & W2 & ->). rewrite NoDup_app, NoDup_cons in Hnd. destruct Hnd as (_ & H12 & Hi2 & _).
  rewrite !collect_app. rewrite (collect_ext mem (<[i := new]> mem) W1).
  2: { intros j Hj. apply lookup_insert_ne. intros ->. apply (H12 j Hj). apply list_elem_of_here. }
  change (i :: W2) with ([i] ++ W2). rewrite !collect_app. rewrite (collect_ext mem (<[i := new]> mem) W2).
  2: { intros j Hj. apply lookup_insert_ne. by intros ->. }
  unfold collect at 2 4. cbn. rewrite lookup_insert_eq, Hold. cbn. rewrite !app_nil_r, Hnew. cbn. by rewrite <- Permutation_middle.
Qed.

(** ** Buffers that no table refers to *)

(** A packet that is written as it is, with an empty header in front. *)
Definition plain (bufs : list gbuf) (mem : groups) (i : nat) : Prop :=
  ∃ b, bufs !! i = Some b ∧ buf_ok b ∧ slice (offset - virtioNetHdrLen) offset (gb_data b) = hdr_bytes little zero_hdr ∧
    mem !! i = Some [drop offset (gb_data b)].

Lemma plain_frame bufs bufs' mem mem' i : bufs' !! i = bufs !! i → mem' !! i = mem !! i → plain bufs mem i → plain bufs' mem' i.
Proof. intros H1 H2 (b & ?). exists b. by rewrite H1, H2. Qed.

Lemma lost_frame bufs bufs' mem mem' i : bufs' !! i = bufs !! i → mem' !! i = mem !! i → lost bufs mem i → lost bufs' mem' i.
Proof. intros H1 H2 (b & v6 & t & ?). exists b, v6, t. by rewrite H1, H2. Qed.

Lemma evaluated_frame p pktI idx idx' bufs bufs' mem mem' r dropped j : evaluated p pktI idx idx' bufs bufs' mem mem' r dropped → j ∉ idx → j ≠ pktI →
  bufs' !! j = bufs !! j ∧ mem' !! j = mem !! j.
Proof.
  intros [H1 _ _ H4] Hj Hp. destruct r.
  - by destruct H4 as [-> ->].
  - destruct H4 as [-> ->]. by rewrite lookup_insert_ne by done.
  - destruct H4 as (i & old & new & Hi & _ & _ & -> & Hb). assert (j ≠ i) by (intros ->; apply Hj; rewrite H1, elem_of_app; by right).
    rewrite Hb by done. by rewrite lookup_insert_ne by done.
Qed.

(** ** The loop *)

(** The first [k] packets have been evaluated; [idx] are the buffers the tables refer to, [W] are those to be written. *)
Record core (orig : list gbuf) (k : nat) (bufs : list gbuf) (mem : groups) (idx W P L : list nat) : Prop := {
  co_write : W ≡ₚ idx ++ P ++ L;
  co_nodup : NoDup W;
  co_seen : ∀ i, i ∈ W → (i < k)%nat;
  co_plain : Forall (plain bufs mem) P;
  co_lost : Forall (lost bufs mem) L;
  co_todo : ∀ j, (k <= j)%nat → bufs !! j = orig !! j;
  co_length : length bufs = length orig;
  co_members : collect mem W ≡ₚ take k ((λ b, drop offset (gb_data b)) <$> orig);
}.

Lemma take_next {A B} (f : A → B) (l : list A) k x : l !! k = Some x → take (S k) (f <$> l) = take k (f <$> l) ++ [f x].
Proof. intros H. apply take_S_r. by rewrite list_lookup_fmap, H. Qed.

(** What the table does not refer to stays. *)
Lemma core_frame orig k bufs bufs' mem mem' idx idx' other W P L p r dropped : core orig k bufs mem (idx ++ other) W P L →
  evaluated p k idx idx' bufs bufs' mem mem' r dropped → ∀ j, j ∈ other ++ P ++ L → bufs' !! j = bufs !! j ∧ mem' !! j = mem !! j.
Proof.
  intros [C1 C2 C3 _ _ _ _ _] Hev j Hj. rewrite <- app_assoc in C1. apply (evaluated_frame _ _ _ _ _ _ _ _ _ _ _ Hev).
  - rewrite C1 in C2. apply NoDup_app in C2 as (_ & Hd & _). intros Hi. by apply (Hd j Hi).
  - assert (j ∈ W) as HW by (rewrite C1, elem_of_app; by right). apply C3 in HW. lia.
Qed.

Lemma core_others orig k bufs bufs' mem mem' idx idx' other W P L p r dropped : core orig k bufs mem (idx ++ other) W P L →
  evaluated p k idx idx' bufs bufs' mem mem' r dropped →
  Forall (plain bufs' mem') P ∧ Forall (lost bufs' mem') (dropped ++ L) ∧ length bufs' = length orig ∧ (∀ j, (S k <= j)%nat → bufs' !! j = orig !! j).
Proof.
  intros C Hev. pose proof (core_frame _ _ _ _ _ _ _ _ _ _ _ _ _ _ _ C Hev) as Hf. destruct C as [C1 C2 C3 C4 C5 C6 C7 _]. split_and!.
  - rewrite Forall_forall in C4 |- *. intros j Hj. destruct (Hf j) as [E1 E2]; [rewrite !elem_of_app; auto|]. by apply (plain_frame bufs _ mem), C4.
  - apply Forall_app_2; [apply (ev_lost _ _ _ _ _ _ _ _ _ _ _ _ Hev)|].
    rewrite Forall_forall in C5 |- *. intros j Hj. destruct (Hf j) as [E1 E2]; [rewrite !elem_of_app; auto|]. by apply (lost_frame bufs _ mem), C5.
  - rewrite (ev_length _ _ _ _ _ _ _ _ _ _ _ _ Hev). done.
  - intros j Hj. destruct (evaluated_frame _ _ _ _ _ _ _ _ _ _ j Hev) as [-> _]; [|lia|apply C6; lia].
    intros Hi. assert (j ∈ W) as HW by (rewrite C1, !elem_of_app; auto). apply C3 in HW. lia.
Qed.

(** The packet is in the table. *)
Lemma core_insert orig k bufs bufs' mem mem' idx idx' other W P L b dropped : core orig k bufs mem (idx ++ other) W P L → orig !! k = Some b →
  evaluated (drop offset (gb_data b)) k idx idx' bufs bufs' mem mem' groResultTableInsert dropped →
  core orig (S k) bufs' mem' (idx' ++ other) (W ++ [k]) P (dropped ++ L).
Proof.
  intros C Hb Hev. destruct (core_others _ _ _ _ _ _ _ _ _ _ _ _ _ _ _ C Hev) as (H1 & H2 & H3 & H4).
  destruct C as [C1 C2 C3 C4 C5 C6 C7 C8]. destruct Hev as [E1 E2 E3 [-> ->]]. assert (k ∉ W) as Hk by (intros Hk; apply C3 in Hk; lia). split; try done.
  - rewrite C1, (Permutation_app_comm _ [k]). cbn [app]. rewrite !app_comm_cons, E1. solve_Permutation.
  - apply NoDup_app. split_and!; [done| |by apply NoDup_singleton]. intros x Hx ->%list_elem_of_singleton. done.
  - intros i [Hi| ->%list_elem_of_singleton]%elem_of_app; [apply C3 in Hi|]; lia.
  - rewrite collect_app, (collect_ext mem) by (intros i Hi; apply lookup_insert_ne; by intros ->).
    rewrite (take_next _ _ _ _ Hb), C8. unfold collect. cbn. by rewrite lookup_insert_eq.
Qed.

(** The packet was merged. *)
Lemma core_merge orig k bufs bufs' mem mem' idx idx' other W P L b dropped : core orig k bufs mem (idx ++ other) W P L → orig !! k = Some b →
  evaluated (drop offset (gb_data b)) k idx idx' bufs bufs' mem mem' groResultCoalesced dropped →
  core orig (S k) bufs' mem' (idx' ++ other) W P (dropped ++ L).
Proof.
  intros C Hb Hev. destruct (core_others _ _ _ _ _ _ _ _ _ _ _ _ _ _ _ C Hev) as (H1 & H2 & H3 & H4).
  destruct C as [C1 C2 C3 C4 C5 C6 C7 C8]. destruct Hev as [E1 E2 E3 (i & old & new & Hi & Hold & Hnew & -> & _)]. split; try done.
  - rewrite C1, E1. solve_Permutation.
  - intros j Hj. apply C3 in Hj. lia.
  - rewrite (collect_add mem W i old new (drop offset (gb_data b))); try done.
    + rewrite C8, (take_next _ _ _ _ Hb). by rewrite Permutation_app_comm.
    + rewrite C1, E1, !elem_of_app. auto.
Qed.

(** The packet is written as it is. *)
Lemma core_noop orig k bufs bufs' mem mem' idx idx' other W P L b b' dropped : core orig k bufs mem (idx ++ other) W P L → orig !! k = Some b →
  evaluated (drop offset (gb_data b)) k idx idx' bufs bufs' mem mem' groResultNoop dropped →
  buf_ok b' → slice (offset - virtioNetHdrLen) offset (gb_data b') = hdr_bytes little zero_hdr → drop offset (gb_data b') = drop offset (gb_data b) →
  core orig (S k) (<[k := b']> bufs') (<[k := [drop offset (gb_data b)]]> mem') (idx' ++ other) (W ++ [k]) (P ++ [k]) (dropped ++ L).
Proof.
  intros C Hb Hev Hok Hhdr Hdrop. destruct (core_others _ _ _ _ _ _ _ _ _ _ _ _ _ _ _ C Hev) as (H1 & H2 & H3 & H4).
  destruct C as [C1 C2 C3 C4 C5 C6 C7 C8]. destruct Hev as [E1 E2 E3 [-> ->]]. assert (k ∉ W) as Hk by (intros Hk; apply C3 in Hk; lia).
  assert (∀ j, j ∈ W → <[k := b']> bufs !! j = bufs !! j ∧ <[k := [drop offset (gb_data b)]]> mem !! j = mem !! j) as Hf.
  { intros j Hj. rewrite list_lookup_insert_ne, lookup_insert_ne by (by intros ->). done. }
  split; try done.
  - rewrite C1, E1. solve_Permutation.
  - apply NoDup_app. split_and!; [done| |by apply NoDup_singleton]. intros x Hx ->%list_elem_of_singleton. done.
  - intros i [Hi| ->%list_elem_of_singleton]%elem_of_app; [apply C3 in Hi|]; lia.
  - apply Forall_app_2.
    + rewrite Forall_forall in C4 |- *. intros j Hj. destruct (Hf j) as [F1 F2]; [rewrite C1, !elem_of_app; auto|]. by apply (plain_frame bufs _ mem), C4.
    + apply Forall_singleton. exists b'. rewrite Hdrop. split_and!; try done; [|apply lookup_insert_eq]. apply list_lookup_insert_eq.
      rewrite C7. by eapply lookup_lt_Some.
  - rewrite Forall_forall in H2 |- *. intros j Hj. assert (j ∈ W) as HW.
    { rewrite C1, E1. apply elem_of_app in Hj as [Hj|Hj]; rewrite !elem_of_app; auto. }
    destruct (Hf j HW) as [F1 F2]. by apply (lost_frame bufs _ mem), H2.
  - intros j Hj. rewrite list_lookup_insert_ne by lia. by apply H4.
  - by rewrite length_insert.
  - rewrite collect_app, (collect_ext mem) by (intros i Hi; apply lookup_insert_ne; by intros ->).
    rewrite (take_next _ _ _ _ Hb), C8. unfold collect. cbn. by rewrite lookup_insert_eq.
Qed.

(** ** The tables *)

Lemma tcp_ok_frame bufs bufs' mem mem' m : (∀ j, j ∈ ti_bufsIndex <$> flat m → bufs' !! j = bufs !! j ∧ mem' !! j = mem !! j) →
  tcp_ok little offset bufs mem m → tcp_ok little offset bufs' mem' m.
Proof.
  intros Hf [K I N]. split; [done| |done]. rewrite Forall_forall in I |- *. intros x Hx. destruct (I x Hx) as (b & init & lp & H1 & H2 & H3 & H4).
  destruct (Hf (ti_bufsIndex x)) as [F1 F2]; [by apply list_elem_of_fmap_2|]. exists b, init, lp. by rewrite F1, F2.
Qed.

Lemma udp_ok_frame bufs bufs' mem mem' m : (∀ j, j ∈ ui_bufsIndex <$> flat m → bufs' !! j = bufs !! j ∧ mem' !! j = mem !! j) →
  udp_ok little offset bufs mem m → udp_ok little offset bufs' mem' m.
Proof.
  intros Hf [K I N E]. split; [done| |done|done]. rewrite Forall_forall in I |- *. intros x Hx. destruct (I x Hx) as (b & init & lp & H1 & H2 & H3 & H4).
  destruct (Hf (ui_bufsIndex x)) as [F1 F2]; [by apply list_elem_of_fmap_2|]. exists b, init, lp. by rewrite F1, F2.
Qed.

Definition tidx (st : groState) : list nat := ti_bufsIndex <$> flat (tt_itemsByFlow (gs_tcp st)).
Definition uidx (st : groState) : list nat := ui_bufsIndex <$> flat (ut_itemsByFlow (gs_udp st)).

Record gro_inv (orig : list gbuf) (k : nat) (st : groState) (mem : groups) (P L : list nat) : Prop := {
  gv_core : core orig k (gs_bufs st) mem (tidx st ++ uidx st) (gs_toWrite st) P L;
  gv_tcp : tcp_ok little offset (gs_bufs st) mem (tt_itemsByFlow (gs_tcp st));
  gv_udp : udp_ok little offset (gs_bufs st) mem (ut_itemsByFlow (gs_udp st));
  gv_tpool : (size (tt_itemsByFlow (gs_tcp st)) <= k ∧ length orig <= size (tt_itemsByFlow (gs_tcp st)) + tt_itemsPool (gs_tcp st))%nat;
  gv_upool : (size (ut_itemsByFlow (gs_udp st)) <= k ∧ length orig <= size (ut_itemsByFlow (gs_udp st)) + ut_itemsPool (gs_udp st))%nat;
}.

(** ** Writing the header *)

Lemma encode_front_spec data v : (virtioNetHdrLen <= offset)%nat → (offset <= length data)%nat →
  ∃ data', encode_front little data offset v = Some (inr data') ∧ length data' = length data ∧ drop offset data' = drop offset data ∧
    slice (offset - virtioNetHdrLen) offset data' = hdr_bytes little v.
Proof.
  intros H1 H2. unfold encode_front, virtioNetHdrLen in *. rewrite (proj2 (Nat.ltb_ge _ _)) by done. rewrite from_Some by lia. cbn [mbind option_bind].
  unfold hdr_encode, virtioNetHdrLen. rewrite length_drop, (proj2 (Nat.ltb_ge _ _)) by lia. eexists. split; [done|].
  assert (length (hdr_bytes little v) = 10%nat) as Hh by apply length_hdr_bytes.
  assert (length (take (offset - 10) data) = offset - 10)%nat as Ht by (rewrite length_take; lia).
  unfold write_at. rewrite Hh, take_0, Nat.add_0_l, drop_drop. cbn [app]. replace (offset - 10 + 10)%nat with offset by lia. split_and!.
  - rewrite !length_app, Hh, Ht, length_drop. lia.
  - rewrite app_assoc, drop_app_ge by (rewrite length_app; lia). rewrite length_app, Ht, Hh. by replace (offset - (offset - 10 + 10))%nat with 0%nat by lia.
  - rewrite <- Ht at 1. replace offset with (length (take (offset - 10) data) + 10)%nat at 2 by lia.
    replace (length (take (offset - 10) data)) with (length (take (offset - 10) data) + 0)%nat at 1 by lia. rewrite slice_shift, <- Hh. apply slice_app_all.
Qed.

Lemma core_perm orig k bufs mem idx idx2 W P L : idx ≡ₚ idx2 → core orig k bufs mem idx W P L → core orig k bufs mem idx2 W P L.
Proof. intros Hp [C1 C2 C3 C4 C5 C6 C7 C8]. split; try done. by rewrite C1, Hp. Qed.

(** ** One round *)

(** What the loop does with the result. *)
Definition settle (k : nat) (r : groResult) (st : groState) : option (unit + groState) :=
  match r with
  | groResultNoop =>
      b ← gs_bufs st !! k;
      d ← encode_front little (gb_data b) offset zero_hdr;
      Some (match d with
            | inl _ => inl tt
            | inr data => inr (mkGro (<[k := mkGbuf data (gb_cap b)]> (gs_bufs st)) (gs_tcp st) (gs_udp st) (gs_toWrite st ++ [k]))
            end)
  | groResultTableInsert => Some (inr (mkGro (gs_bufs st) (gs_tcp st) (gs_udp st) (gs_toWrite st ++ [k])))
  | groResultCoalesced => Some (inr st)
  end.

Lemma settle_spec orig k bufs mem mem1 st idx idx' other P L b r dropped : (virtioNetHdrLen <= offset)%nat → orig !! k = Some b → buf_ok b →
  core orig k bufs mem (idx ++ other) (gs_toWrite st) P L → evaluated (drop offset (gb_data b)) k idx idx' bufs (gs_bufs st) mem mem1 r dropped →
  tidx st ++ uidx st ≡ₚ idx' ++ other →
  tcp_ok little offset (gs_bufs st) mem1 (tt_itemsByFlow (gs_tcp st)) → udp_ok little offset (gs_bufs st) mem1 (ut_itemsByFlow (gs_udp st)) →
  (size (tt_itemsByFlow (gs_tcp st)) <= S k ∧ length orig <= size (tt_itemsByFlow (gs_tcp st)) + tt_itemsPool (gs_tcp st))%nat →
  (size (ut_itemsByFlow (gs_udp st)) <= S k ∧ length orig <= size (ut_itemsByFlow (gs_udp st)) + ut_itemsPool (gs_udp st))%nat →
  ∃ st' mem' P' L', settle k r st = Some (inr st') ∧ gro_inv orig (S k) st' mem' P' L'.
Proof.
  intros Hoff Hb Hok C Hev Hidx HT HU HpT HpU. destruct r; cbn [settle].
  - pose proof (ev_effect _ _ _ _ _ _ _ _ _ _ _ _ Hev) as [Eb _]. assert (gs_bufs st !! k = Some b) as Hbk.
    { rewrite Eb. rewrite (co_todo _ _ _ _ _ _ _ _ C) by lia. done. }
    rewrite Hbk. cbn [mbind option_bind].
    destruct (encode_front_spec (gb_data b) zero_hdr Hoff ltac:(apply Nat.lt_le_incl, Hok)) as (data & Henc & Hlen & Hdrop & Hhdr). rewrite Henc. cbn [mbind option_bind].
    assert (buf_ok (mkGbuf data (gb_cap b))) as Hok'.
    { destruct Hok as [O1 O2]. split; cbn [gb_data gb_cap]; [by rewrite Hlen|]. unfold len in *. by rewrite Hlen. }
    pose proof (core_noop _ _ _ _ _ _ _ _ _ _ _ _ _ _ _ C Hb Hev Hok' Hhdr Hdrop) as C'. cbn [gb_data] in C'.
    assert (∀ j, j ∈ tidx st ++ uidx st → <[k := mkGbuf data (gb_cap b)]> (gs_bufs st) !! j = gs_bufs st !! j ∧
      <[k := [drop offset (gb_data b)]]> mem1 !! j = mem1 !! j) as Hf.
    { intros j Hj. assert (j ≠ k). { intros ->. pose proof (co_nodup _ _ _ _ _ _ _ _ C') as Hnd. rewrite (co_write _ _ _ _ _ _ _ _ C') in Hnd.
        apply NoDup_app in Hnd as (_ & Hd & _). rewrite Hidx in Hj. apply (Hd k Hj). rewrite !elem_of_app. left. right. apply list_elem_of_here. }
      by rewrite list_lookup_insert_ne, lookup_insert_ne by done. }
    eexists _, _, _, _. split; [done|]. split; cbn [gs_bufs gs_tcp gs_udp gs_toWrite]; try done.
    + apply (core_perm _ _ _ _ (idx' ++ other)); [by rewrite <- Hidx|exact C'].
    + apply (tcp_ok_frame (gs_bufs st) _ mem1); [|done]. intros j Hj. apply Hf. rewrite elem_of_app. by left.
    + apply (udp_ok_frame (gs_bufs st) _ mem1); [|done]. intros j Hj. apply Hf. rewrite elem_of_app. by right.
  - pose proof (core_insert _ _ _ _ _ _ _ _ _ _ _ _ _ _ C Hb Hev) as C'.
    eexists _, _, _, _. split; [done|]. split; cbn [gs_bufs gs_tcp gs_udp gs_toWrite]; try done.
    apply (core_perm _ _ _ _ (idx' ++ other)); [by rewrite <- Hidx|exact C'].
  - pose proof (core_merge _ _ _ _ _ _ _ _ _ _ _ _ _ _ C Hb Hev) as C'.
    eexists _, _, _, _. split; [done|]. split; cbn [gs_bufs gs_tcp gs_udp gs_toWrite]; try done.
    apply (core_perm _ _ _ _ (idx' ++ other)); [by rewrite <- Hidx|exact C'].
Qed.

Lemma evaluated_noop p k idx bufs mem : evaluated p k idx idx bufs bufs mem mem groResultNoop [].
Proof. by split. Qed.

(** The packets a batch may hold. *)
Record batch_ok (orig : list gbuf) : Prop := {
  bt_bufs : Forall buf_ok orig;
  bt_bytes : Forall (λ b, Forall is_byte (drop offset (gb_data b))) orig;
  bt_size : Z.of_nat (length orig) < 65536;
  bt_offset : (virtioNetHdrLen <= offset)%nat;
}.

Lemma tcp_step orig k st mem P L b (v6 u : bool) : batch_ok orig → gro_inv orig k st mem P L → orig !! k = Some b →
  packetIsGROCandidate (drop offset (gb_data b)) u = (if v6 then tcp6GROCandidate else tcp4GROCandidate) →
  ∃ st' mem' P' L', ('(r, bufs, t) ← tcpGRO little (gs_bufs st) offset k (gs_tcp st) v6; settle k r (mkGro bufs t (gs_udp st) (gs_toWrite st))) = Some (inr st') ∧
    gro_inv orig (S k) st' mem' P' L'.
Proof.
  intros [B1 B2 B3 B4] [C T U PT PU] Hb Hty. pose proof (lookup_lt_Some _ _ _ Hb) as Hlt. rewrite Forall_lookup in B1, B2. specialize (B1 _ _ Hb) as Hok. specialize (B2 _ _ Hb) as Hby.
  assert (gs_bufs st !! k = Some b) as Hbk by (by rewrite (co_todo _ _ _ _ _ _ _ _ C)).
  assert (k ∉ tidx st) as Hk.
  { intros Hk. assert (k ∈ gs_toWrite st) as HW by (rewrite (co_write _ _ _ _ _ _ _ _ C), !elem_of_app; auto).
    apply (co_seen _ _ _ _ _ _ _ _ C) in HW. lia. }
  destruct (tcpGRO_enter little offset (gs_bufs st) k (gs_tcp st) v6 u b Hbk ltac:(apply Nat.lt_le_incl, Hok) Hby Hty) as [-> | (t & Cd & ->)]; cbn [mbind option_bind].
  - apply (settle_spec orig k (gs_bufs st) mem mem _ (tidx st) (tidx st) (uidx st) P L b _ []); try done; cbn [gs_bufs gs_tcp gs_udp gs_toWrite]; lia.
  - destruct (gs_tcp st) as [m pool] eqn:Et. cbn [tt_itemsByFlow tt_itemsPool] in *. unfold tidx in C, Hk. rewrite Et in C, Hk. cbn [tt_itemsByFlow] in C, Hk.
    destruct (tcp_eval_spec little offset v6 t _ k b (gs_bufs st) mem m pool Cd ltac:(lia) Hbk Hok eq_refl T Hk ltac:(lia))
      as (r & bufs' & mem' & m' & pool' & dropped & Hrun & T' & Hev & Hsz).
    rewrite Hrun. cbn [mbind option_bind].
    apply (settle_spec orig k (gs_bufs st) mem mem' _ (ti_bufsIndex <$> flat m) (ti_bufsIndex <$> flat m') (uidx st) P L b _ dropped); try done;
      cbn [gs_bufs gs_tcp gs_udp gs_toWrite tt_itemsByFlow tt_itemsPool]; try lia.
    apply (udp_ok_frame (gs_bufs st) _ mem); [|done]. intros j Hj. apply (core_frame _ _ _ _ _ _ _ _ _ _ _ _ _ _ _ C Hev). rewrite elem_of_app. by left.
Qed.

Lemma udp_step orig k st mem P L b (v6 u : bool) : batch_ok orig → gro_inv orig k st mem P L → orig !! k = Some b →
  packetIsGROCandidate (drop offset (gb_data b)) u = (if v6 then udp6GROCandidate else udp4GROCandidate) →
  ∃ st' mem' P' L', ('(r, bufs, t) ← udpGRO little (gs_bufs st) offset k (gs_udp st) v6; settle k r (mkGro bufs (gs_tcp st) t (gs_toWrite st))) = Some (inr st') ∧
    gro_inv orig (S k) st' mem' P' L'.
Proof.
  intros [B1 B2 B3 B4] [C T U PT PU] Hb Hty. pose proof (lookup_lt_Some _ _ _ Hb) as Hlt. rewrite Forall_lookup in B1, B2. specialize (B1 _ _ Hb) as Hok. specialize (B2 _ _ Hb) as Hby.
  assert (gs_bufs st !! k = Some b) as Hbk by (by rewrite (co_todo _ _ _ _ _ _ _ _ C)).
  apply (core_perm _ _ _ _ _ (uidx st ++ tidx st)) in C; [|by rewrite Permutation_app_comm].
  assert (k ∉ uidx st) as Hk.
  { intros Hk. assert (k ∈ gs_toWrite st) as HW by (rewrite (co_write _ _ _ _ _ _ _ _ C), !elem_of_app; auto).
    apply (co_seen _ _ _ _ _ _ _ _ C) in HW. lia. }
  destruct (udpGRO_enter little offset (gs_bufs st) k (gs_udp st) v6 u b Hbk ltac:(apply Nat.lt_le_incl, Hok) Hby Hty) as [-> | (Cd & ->)]; cbn [mbind option_bind].
  - apply (settle_spec orig k (gs_bufs st) mem mem _ (uidx st) (uidx st) (tidx st) P L b _ []); try done; cbn [gs_bufs gs_tcp gs_udp gs_toWrite]; try lia.
    apply Permutation_app_comm.
  - destruct (gs_udp st) as [m pool] eqn:Et. cbn [ut_itemsByFlow ut_itemsPool] in *. unfold uidx in C, Hk. rewrite Et in C, Hk. cbn [ut_itemsByFlow] in C, Hk.
    destruct (udp_eval_spec little offset v6 _ k b (gs_bufs st) mem m pool Cd ltac:(lia) Hbk Hok eq_refl U Hk ltac:(lia))
      as (r & bufs' & mem' & m' & pool' & Hrun & U' & Hev & Hsz).
    rewrite Hrun. cbn [mbind option_bind].
    apply (settle_spec orig k (gs_bufs st) mem mem' _ (ui_bufsIndex <$> flat m) (ui_bufsIndex <$> flat m') (tidx st) P L b _ []); try done;
      cbn [gs_bufs gs_tcp gs_udp gs_toWrite ut_itemsByFlow ut_itemsPool]; try lia.
    + apply Permutation_app_comm.
    + apply (tcp_ok_frame (gs_bufs st) _ mem); [|done]. intros j Hj. apply (core_frame _ _ _ _ _ _ _ _ _ _ _ _ _ _ _ C Hev). rewrite elem_of_app. by left.
Qed.

Lemma gro_packet_spec u orig k st mem P L b : batch_ok orig → gro_inv orig k st mem P L → orig !! k = Some b →
  ∃ st' mem' P' L', gro_packet little offset u st k = Some (inr st') ∧ gro_inv orig (S k) st' mem' P' L'.
Proof.
  intros Hbt Hinv Hb. pose proof Hinv as [C T U PT PU]. pose proof (lookup_lt_Some _ _ _ Hb) as Hlt.
  assert (gs_bufs st !! k = Some b) as Hbk by (by rewrite (co_todo _ _ _ _ _ _ _ _ C)).
  assert (buf_ok b) as [Ho Hcap] by (eapply Forall_lookup_1; [apply Hbt|done]). pose proof (bt_offset _ Hbt) as Hoff.
  unfold gro_packet. rewrite Hbk. cbn [mbind option_bind]. rewrite (proj2 (Nat.ltb_ge _ _)) by done. cbn [orb].
  rewrite (proj2 (Z.ltb_ge _ _)) by (unfold len; lia). rewrite from_Some by lia. cbn [mbind option_bind].
  destruct (packetIsGROCandidate (drop offset (gb_data b)) u) eqn:Hty; cbn [mbind option_bind].
  - apply (settle_spec orig k (gs_bufs st) mem mem st (tidx st) (tidx st) (uidx st) P L b groResultNoop []); try done; lia.
  - destruct (tcp_step orig k st mem P L b false u Hbt Hinv Hb Hty) as (st' & mem' & P' & L' & Hrun & Hinv').
    exists st', mem', P', L'. split; [|done]. rewrite <- Hrun. by destruct (tcpGRO _ _ _ _ _ _) as [[[r bufs] t]|].
  - destruct (tcp_step orig k st mem P L b true u Hbt Hinv Hb Hty) as (st' & mem' & P' & L' & Hrun & Hinv').
    exists st', mem', P', L'. split; [|done]. rewrite <- Hrun. by destruct (tcpGRO _ _ _ _ _ _) as [[[r bufs] t]|].
  - destruct (udp_step orig k st mem P L b false u Hbt Hinv Hb Hty) as (st' & mem' & P' & L' & Hrun & Hinv').
    exists st', mem', P', L'. split; [|done]. rewrite <- Hrun. by destruct (udpGRO _ _ _ _ _ _) as [[[r bufs] t]|].
  - destruct (udp_step orig k st mem P L b true u Hbt Hinv Hb Hty) as (st' & mem' & P' & L' & Hrun & Hinv').
    exists st', mem', P', L'. split; [|done]. rewrite <- Hrun. by destruct (udpGRO _ _ _ _ _ _) as [[[r bufs] t]|].
Qed.

Lemma gro_loop_spec u orig : batch_ok orig → ∀ n k st mem P L, gro_inv orig k st mem P L → (k + n = length orig)%nat →
  ∃ st' mem' P' L', gro_loop little offset u (seq k n) st = Some (inr st') ∧ gro_inv orig (length orig) st' mem' P' L'.
Proof.
  intros Hbt. induction n as [|n IH]; intros k st mem P L Hinv Hn.
  - exists st, mem, P, L. split; [done|]. by replace (length orig) with k by lia.
  - destruct (lookup_lt_is_Some_2 orig k ltac:(lia)) as [b Hb].
    destruct (gro_packet_spec u orig k st mem P L b Hbt Hinv Hb) as (st1 & mem1 & P1 & L1 & Hrun & Hinv1). cbn [seq gro_loop]. rewrite Hrun. cbn [mbind option_bind].
    apply (IH (S k) st1 mem1 P1 L1); [done|lia].
Qed.

(** The empty tables are fine. *)
Lemma gro_init orig tt ut : tt_itemsByFlow tt = ∅ → ut_itemsByFlow ut = ∅ → (length orig <= tt_itemsPool tt)%nat → (length orig <= ut_itemsPool ut)%nat →
  gro_inv orig 0 (mkGro orig tt ut []) ∅ [] [].
Proof.
  intros Ht Hu Hpt Hpu. split; cbn [gs_bufs gs_tcp gs_udp gs_toWrite]; rewrite ?Ht, ?Hu, ?map_size_empty; try lia.
  - unfold tidx, uidx. cbn [gs_tcp gs_udp]. rewrite Ht, Hu. split; try done; [constructor|set_solver].
  - split; [done|constructor|constructor].
  - split; [done|constructor|constructor|done].
Qed.

End batch.
