(* ===== verification/OffloadWrite.v ===== *)
(** Writing to the tun device: the accounting after the loop of [handleGRO], and what reading the frames
    back gives. *)

From S2P Require Import Prelude Bytes Checksum Offload OffloadSplit OffloadRead OffloadGro OffloadTcp OffloadFlow OffloadUdp OffloadBatch.

Section write.
Variable little : bool.

Notation valid := (valid little).

(** ** Merged packets *)

(** The packets [init] and [lp] are merged into [target], in segments of [g] bytes. *)
Record merged (v6 tcp : bool) (t : nat) (g : Z) (init : list (list Z)) (lp target : list Z) : Prop := {
  mg_cand : Forall (candidate v6 tcp t) (init ++ [lp]);
  mg_valid : Forall (valid v6 tcp) (init ++ [lp]);
  mg_bytes : Forall is_byte target;
  mg_len : len target <= 65535;
  mg_header : (iph v6 + t <= length target)%nat;
  mg_agree : Forall (λ p, agree v6 tcp t p target) (init ++ [lp]);
  mg_data : payload v6 t target = concat (payload v6 t <$> init ++ [lp]);
  mg_full : Forall (λ p, len (payload v6 t p) = g) init;
  mg_last : len (payload v6 t lp) <= g <= 65535;
  mg_seq : tcp = true → ∀ j p, (init ++ [lp]) !! j = Some p → seq_of v6 p = uint32 (seq_of v6 target + g * Z.of_nat j);
  mg_psh : tcp = true → Forall (λ p, psh_of v6 p = false) init ∧
             (byte target (iph v6 + 13) = 16 ∨ byte target (iph v6 + 13) = 24 ∧ psh_of v6 lp = true);
}.

Lemma tcp_merged item init lp target : tcp_rep little item init lp target → init ≠ [] →
  merged (tk_isV6 (ti_key item)) true (ti_tcphLen item) (ti_gsoSize item) init lp target.
Proof.
  intros [R1 R2 R3 R4 R5 R6 R7 R8 R9 R10 R11 R12 R13 R14 R15 R16 R17 R18] Hne. split; try done; try (by apply R6).
  - intros _. by rewrite R18.
  - intros _. destruct R16 as [Q1 Q2]. split; [done|]. by rewrite Q2.
Qed.

Lemma udp_merged item init lp target : udp_rep little item init lp target → init ≠ [] →
  merged (uk_isV6 (ui_key item)) false 8 (ui_gsoSize item) init lp target.
Proof. intros [R1 R2 R3 R4 R5 R6 R7 R8 R9 R10 R11 R12 R13] Hne. split; try done; by apply R6. Qed.

(** ** Fields that are filled in *)

(** [q] is [p] with other values in fields that are not compared. *)
Record retouched (v6 tcp : bool) (t : nat) (p q : list Z) : Prop := {
  re_length : length q = length p;
  re_bytes : Forall is_byte q;
  re_agree : agree v6 tcp t q p;
  re_data : payload v6 t q = payload v6 t p;
  re_seq : tcp = true → seq_of v6 q = seq_of v6 p;
  re_flags : tcp = true → byte q (iph v6 + 13) = byte p (iph v6 + 13);
}.

Lemma retouched_refl v6 tcp t p : Forall is_byte p → retouched v6 tcp t p p.
Proof. by split. Qed.

Lemma retouched_trans v6 tcp t p q r : retouched v6 tcp t p q → retouched v6 tcp t q r → retouched v6 tcp t p r.
Proof.
  intros [A1 A2 A3 A4 A5 A6] [B1 B2 B3 B4 B5 B6]. split; try done; try congruence.
  - by trans q.
  - intros H. by rewrite B5, A5.
  - intros H. by rewrite B6, A6.
Qed.

Lemma retouched_write v6 tcp t p i bs : Forall is_byte p → Forall is_byte bs → (iph v6 + t <= length p)%nat → (i + length bs <= iph v6 + t)%nat →
  (tcp = true → (20 <= t)%nat) →
  (∀ k, (i <= k < i + length bs)%nat → loose v6 tcp k ∧ k ≠ 1%nat ∧ (tcp = true → ¬ (iph v6 + 4 <= k < iph v6 + 8)%nat ∧ k ≠ (iph v6 + 12)%nat ∧ k ≠ (iph v6 + 13)%nat)) →
  retouched v6 tcp t p (write_at i bs p).
Proof.
  intros Hp Hbs Hl Hi Ht Hk. assert (i + length bs <= length p)%nat as Hlen by lia.
  assert (∀ k, ¬ (i <= k < i + length bs)%nat → write_at i bs p !! k = p !! k) as Hout.
  { intros k Hn. by rewrite lookup_write_at, decide_False by done. }
  assert (∀ k, ¬ (i <= k < i + length bs)%nat → byte (write_at i bs p) k = byte p k) as Hbyte by (intros; unfold byte; by rewrite Hout).
  split.
  - by apply length_write_at.
  - by apply write_at_bytes.
  - split.
    + intros k _ Hlo. apply Hout. intros Hr. by destruct (Hk k Hr).
    + intros _. rewrite Hbyte; [done|]. intros Hr. destruct (Hk 1%nat Hr) as (_ & E & _). done.
    + intros E. rewrite Hbyte; [done|]. intros Hr. destruct (Hk _ Hr) as (_ & _ & F). destruct (F E) as (_ & G & _). done.
  - unfold payload. apply list_eq. intros k. rewrite !lookup_drop. apply Hout. lia.
  - intros E. unfold seq_of. f_equal. apply list_eq. intros k. rewrite !lookup_slice. case_decide; [|done]. apply Hout. intros Hr.
    destruct (Hk _ Hr) as (_ & _ & F). destruct (F E) as (G & _). lia.
  - intros E. apply Hbyte. intros Hr. destruct (Hk _ Hr) as (_ & _ & F). destruct (F E) as (_ & _ & G). done.
Qed.

Lemma merged_retouched v6 tcp t g init lp p q : merged v6 tcp t g init lp p → retouched v6 tcp t p q → merged v6 tcp t g init lp q.
Proof.
  intros [M1 M2 M3 M4 M5 M6 M7 M8 M9 M10 M11] [A1 A2 A3 A4 A5 A6]. split; try done.
  - unfold len in *. by rewrite A1.
  - by rewrite A1.
  - eapply Forall_impl; [exact M6|]. intros x Hx. trans p; [exact Hx|by symmetry].
  - by rewrite A4.
  - intros E. rewrite A5 by done. by apply M10.
  - intros E. rewrite A6 by done. by apply M11.
Qed.

Lemma put16_retouched v6 tcp t p i z : Forall is_byte p → (iph v6 + t <= length p)%nat → (i + 2 <= iph v6 + t)%nat → (tcp = true → (20 <= t)%nat) →
  (∀ k, (i <= k < i + 2)%nat → loose v6 tcp k ∧ k ≠ 1%nat ∧ (tcp = true → ¬ (iph v6 + 4 <= k < iph v6 + 8)%nat ∧ k ≠ (iph v6 + 12)%nat ∧ k ≠ (iph v6 + 13)%nat)) →
  ∃ q, put16 p i z = Some q ∧ retouched v6 tcp t p q.
Proof.
  intros Hp Hl Hi Ht Hk. unfold put16. rewrite put_at_Some by (rewrite length_be_encode; lia). eexists. split; [done|].
  apply retouched_write; try done; rewrite ?length_be_encode; try done. apply be_encode_bytes.
Qed.

Lemma put8_retouched v6 tcp t p i z : Forall is_byte p → is_byte z → (iph v6 + t <= length p)%nat → (i + 1 <= iph v6 + t)%nat → (tcp = true → (20 <= t)%nat) →
  (loose v6 tcp i ∧ i ≠ 1%nat ∧ (tcp = true → ¬ (iph v6 + 4 <= i < iph v6 + 8)%nat ∧ i ≠ (iph v6 + 12)%nat ∧ i ≠ (iph v6 + 13)%nat)) →
  ∃ q, put8 p i z = Some q ∧ retouched v6 tcp t p q.
Proof.
  intros Hp Hz Hl Hi Ht Hk. unfold put8. rewrite put_at_Some by (cbn [length]; lia). eexists. split; [done|].
  apply retouched_write; try done; [by apply Forall_singleton|]. cbn [length]. intros k Hr. by replace k with i by lia.
Qed.

Lemma fix_ip_spec v6 tcp t p : Forall is_byte p → (iph v6 + t <= length p)%nat → (tcp = true → (20 <= t)%nat) →
  ∃ q, fix_ip_header little p (iph v6) v6 = Some q ∧ retouched v6 tcp t p q.
Proof.
  intros Hp Hl Ht. unfold fix_ip_header. destruct v6; cbn [iph] in *.
  - apply put16_retouched; try done; [cbn; lia|]. intros k Hk. unfold loose. cbn. lia.
  - destruct (put8_retouched false tcp t p 10 0) as (q1 & -> & R1); try done; [cbn; lia|unfold loose; cbn; lia|]. cbn [mbind option_bind].
    assert (Forall is_byte q1) by apply R1. pose proof (re_length _ _ _ _ _ R1) as L1.
    destruct (put8_retouched false tcp t q1 11 0) as (q2 & -> & R2); try done; [cbn; lia|cbn; lia|unfold loose; cbn; lia|]. cbn [mbind option_bind].
    assert (Forall is_byte q2) by apply R2. pose proof (re_length _ _ _ _ _ R2) as L2.
    destruct (put16_retouched false tcp t q2 2 (uint16 (len q2))) as (q3 & -> & R3); try done; [cbn; lia|cbn; lia|intros k Hk; unfold loose; cbn; lia|]. cbn [mbind option_bind].
    assert (Forall is_byte q3) by apply R3. pose proof (re_length _ _ _ _ _ R3) as L3. rewrite cut_Some by lia. cbn [mbind option_bind].
    destruct (put16_retouched false tcp t q3 10 (not16 (checksum little (slice 0 20 q3) 0))) as (q4 & E4 & R4); try done; [cbn; lia|cbn; lia|intros k Hk; unfold loose; cbn; lia|].
    exists q4. split; [done|]. do 3 (eapply retouched_trans; [eassumption|]). done.
Qed.

Lemma pseudo_field_spec v6 (tcp : bool) t p : Forall is_byte p → (iph v6 + t <= length p)%nat → (if tcp then (20 <= t)%nat else t = 8%nat) →
  ∃ q, put_pseudo little p (proto_of tcp) (iph v6) (iph v6 + csum_at tcp) v6 = Some q ∧ retouched v6 tcp t p q.
Proof.
  intros Hp Hl Ht. pose proof (addr_bounds v6) as Hb. unfold put_pseudo. fold (addr_at v6) (addr_len v6).
  rewrite !cut_Some by lia. cbn [mbind option_bind]. assert (20 <= iph v6)%nat by (destruct v6; cbn; lia).
  apply put16_retouched; try done.
  - destruct tcp; cbn in *; lia.
  - intros ->. done.
  - intros k Hk. unfold loose. destruct tcp; cbn in Hk; lia.
Qed.

Lemma udp_len_spec v6 p z : Forall is_byte p → (iph v6 + 8 <= length p)%nat → ∃ q, put16 p (iph v6 + 4) z = Some q ∧ retouched v6 false 8 p q.
Proof.
  intros Hp Hl. assert (20 <= iph v6)%nat by (destruct v6; cbn; lia). apply put16_retouched; try done; [lia|]. intros k Hk. unfold loose. lia.
Qed.

(** ** Reading back *)

(** [s] is [p] as it comes out of the segmentation: the data, the addresses, the ports, the sequence and acknowledgement numbers, the
    options and all that is compared are the same, and the lengths and checksums are right; the PSH flag can get lost.  Nothing is said
    of the other fields, which are those of another packet of the flow: the identification of IPv4, the flow label of IPv6, and
    the reserved bits, window and urgent pointer of TCP. *)
Record same_packet (v6 tcp : bool) (t : nat) (p s : list Z) : Prop := {
  sm_length : length s = length p;
  sm_agree : agree v6 tcp t s p;
  sm_data : payload v6 t s = payload v6 t p;
  sm_iplen : u16_at s (if v6 then 4 else 2) = u16_at p (if v6 then 4 else 2);
  sm_udp_len : tcp = false → u16_at s (iph v6 + 4) = Some (len s - Z.of_nat (iph v6));
  sm_seq : tcp = true → seq_of v6 s = seq_of v6 p;
  sm_flags : tcp = true → byte s (iph v6 + 13) = byte p (iph v6 + 13) ∨ byte p (iph v6 + 13) = 24 ∧ byte s (iph v6 + 13) = 16;
  sm_ip_sum : v6 = false → checksum little (take (iph v6) s) 0 = 65535;
  sm_valid : valid v6 tcp s;
  sm_was_valid : valid v6 tcp p;
}.

Lemma chunk_concat g xs : Forall (λ x : list Z, length x = g) xs → ∀ y j x, (length y <= g)%nat → (xs ++ [y]) !! j = Some x →
  slice (g * j) (g * S j) (concat (xs ++ [y])) = x.
Proof.
  induction 1 as [|x0 xs Hx _ IH]; intros y j x Hy Hj.
  - apply list_lookup_singleton_Some in Hj as [-> <-]. cbn. rewrite app_nil_r. unfold slice. rewrite Nat.mul_0_r, drop_0. apply take_ge. lia.
  - cbn [app concat] in *. destruct j as [|j]; cbn in Hj.
    + injection Hj as <-. rewrite Nat.mul_0_r, Nat.mul_1_r, <- Hx. apply slice_app_all.
    + rewrite slice_app_r by nia. replace (g * S j - length x0)%nat with (g * j)%nat by nia.
      replace (g * S (S j) - length x0)%nat with (g * S j)%nat by nia. by apply IH.
Qed.

Section merged_frame.
Variables (v6 tcp : bool) (t : nat) (g : Z) (init : list (list Z)) (lp q : list Z).
Hypothesis M : merged v6 tcp t g init lp q.

Let A := take (iph v6) q.
Let B := slice (iph v6) (iph v6 + t) q.
Let P := payload v6 t q.

#[local] Lemma cand_last : candidate v6 tcp t lp.
Proof. pose proof (mg_cand _ _ _ _ _ _ _ M) as H. rewrite Forall_app, Forall_singleton in H. apply H. Qed.

#[local] Lemma agree_last : agree v6 tcp t lp q.
Proof. pose proof (mg_agree _ _ _ _ _ _ _ M) as H. rewrite Forall_app, Forall_singleton in H. apply H. Qed.

Lemma frame_parts : q = A ++ B ++ P ∧ length A = iph v6 ∧ length B = t.
Proof.
  pose proof (mg_header _ _ _ _ _ _ _ M) as Hh. unfold A, B, P, payload, slice. split_and!.
  - replace (iph v6 + t - iph v6)%nat with t by lia. rewrite <- (take_drop (iph v6) q) at 1. f_equal. rewrite <- (take_drop t (drop (iph v6) q)) at 1. f_equal.
    by rewrite drop_drop.
  - rewrite length_take. lia.
  - rewrite length_take, length_drop. lia.
Qed.

#[local] Lemma gso_pos : 1 <= g.
Proof. pose proof (candidate_payload _ _ _ _ cand_last). pose proof (mg_last _ _ _ _ _ _ _ M). lia. Qed.

Lemma frame_chunk j p : (init ++ [lp]) !! j = Some p → slice (Z.to_nat g * j) (Z.to_nat g * S j) P = payload v6 t p.
Proof.
  intros Hj. unfold P. rewrite (mg_data _ _ _ _ _ _ _ M), fmap_app. cbn [fmap list_fmap]. apply chunk_concat.
  - apply Forall_fmap. eapply Forall_impl; [exact (mg_full _ _ _ _ _ _ _ M)|]. intros x Hx. cbn in *. unfold len in Hx. lia.
  - pose proof (mg_last _ _ _ _ _ _ _ M). unfold len in *. lia.
  - apply (f_equal (fmap (payload v6 t))) in Hj. by rewrite <- list_lookup_fmap, fmap_app in Hj.
Qed.

#[local] Lemma frame_total : len P = g * Z.of_nat (length init) + len (payload v6 t lp).
Proof.
  unfold P. rewrite (mg_data _ _ _ _ _ _ _ M), fmap_app. cbn [fmap list_fmap]. rewrite concat_full with (g := g); [by rewrite length_fmap|].
  apply Forall_fmap. exact (mg_full _ _ _ _ _ _ _ M).
Qed.

Lemma frame_nsegs : nsegs g P = length (init ++ [lp]).
Proof.
  pose proof gso_pos as Hg. pose proof (candidate_payload _ _ _ _ cand_last) as Hl. pose proof (mg_last _ _ _ _ _ _ _ M) as Hle.
  rewrite length_app. cbn [length]. unfold nsegs. rewrite frame_total.
  replace (g * Z.of_nat (length init) + len (payload v6 t lp) + g - 1) with ((len (payload v6 t lp) - 1) + (Z.of_nat (length init) + 1) * g) by lia.
  rewrite Z.div_add by lia. rewrite Z.div_small by lia. lia.
Qed.

#[local] Lemma frame_final j p : (init ++ [lp]) !! j = Some p → (length P <=? Z.to_nat g * S j)%nat = true ↔ j = length init.
Proof.
  intros Hj. apply lookup_lt_Some in Hj as Hlt. rewrite length_app in Hlt. cbn [length] in Hlt. rewrite Nat.leb_le.
  pose proof frame_total as Ht. pose proof (candidate_payload _ _ _ _ cand_last) as Hl. pose proof (mg_last _ _ _ _ _ _ _ M) as Hle. unfold len in *.
  rewrite Nat2Z.inj_le, Nat2Z.inj_mul, Z2Nat.id, Ht, Nat2Z.inj_succ by lia. split; intros H; [|nia].
  assert (Z.of_nat (length init) < Z.of_nat j + 1); [|lia]. nia.
Qed.

Definition frame_hdr : virtioNetHdr :=
  mkVirtio VIRTIO_NET_HDR_F_NEEDS_CSUM (gso_type v6 tcp) (Z.of_nat (iph v6 + t)) g (Z.of_nat (iph v6)) (Z.of_nat (csum_at tcp)).

#[local] Lemma transport_size : (if tcp then 20 <= t <= 60 else t = 8)%nat.
Proof. pose proof (cd_transport _ _ _ _ cand_last) as H. destruct tcp; [apply H|exact H]. Qed.

#[local] Lemma byte_A k : (k < iph v6)%nat → byte A k = byte q k.
Proof. intros H. unfold byte, A. by rewrite lookup_take_lt. Qed.

#[local] Lemma byte_B k : (k < t)%nat → byte B k = byte q (iph v6 + k).
Proof. intros H. unfold byte, B. rewrite lookup_slice. by rewrite decide_True by lia. Qed.

Lemma frame_ok : gso_frame frame_hdr v6 tcp A B P.
Proof.
  destruct frame_parts as (Hq & LA & LB). pose proof gso_pos. pose proof (mg_last _ _ _ _ _ _ _ M). pose proof transport_size as Ht. pose proof agree_last as [Ag1 Ag2 Ag3].
  assert (iph v6 <= 40)%nat by (destruct v6; cbn; lia). pose proof (cd_first _ _ _ _ cand_last) as Hf. pose proof (cd_transport _ _ _ _ cand_last) as Hc.
  split; cbn [frame_hdr vh_gsoType vh_csumStart vh_csumOffset vh_gsoSize].
  - split; cbn; unfold in_width; destruct tcp; cbn; lia.
  - rewrite <- Hq. apply M.
  - done.
  - unfold len. by rewrite LA.
  - done.
  - done.
  - rewrite <- Z.add_assoc, <- !len_app, <- Hq. apply M.
  - rewrite LA. by destruct v6.
  - change (default 0 (A !! 0%nat)) with (byte A 0). rewrite byte_A by (destruct v6; cbn; lia).
    assert (byte lp 0 = byte q 0) as Hz by (unfold byte; rewrite Ag1; [done| |]; [destruct v6; cbn; lia|unfold loose; destruct v6; cbn; lia]).
    rewrite <- Hz. destruct v6; [done|]. by rewrite Hf.
  - rewrite LB. unfold len. rewrite LB. destruct tcp; [|done]. split; [done|]. destruct Hc as (_ & Hd & _).
    change (default 0 (B !! 12%nat)) with (byte B 12). rewrite byte_B by lia. by rewrite <- Ag3.
Qed.

(** A segment is the packet that was merged. *)
Section segment.
Variables (j : nat) (p s : list Z).
Hypothesis Hj : (init ++ [lp]) !! j = Some p.
Hypothesis Sok : segment_ok little v6 tcp A B P g j s.

#[local] Lemma cand_member : candidate v6 tcp t p.
Proof. exact (Forall_lookup_1 _ _ _ _ (mg_cand _ _ _ _ _ _ _ M) Hj). Qed.

#[local] Lemma segment_size : length s = length p.
Proof.
  destruct frame_parts as (_ & LA & LB). rewrite (so_size _ _ _ _ _ _ _ _ _ Sok), (frame_chunk j p Hj), LA, LB.
  pose proof (cd_data _ _ _ _ cand_member). unfold payload. rewrite length_drop. lia.
Qed.

#[local] Lemma segment_ip k : (k < iph v6)%nat → ¬ ip_varies v6 k → s !! k = q !! k.
Proof.
  destruct frame_parts as (_ & LA & _). intros Hk Hv. rewrite (so_ip _ _ _ _ _ _ _ _ _ Sok) by (by rewrite ?LA). unfold A. by rewrite lookup_take_lt.
Qed.

#[local] Lemma segment_th k : (k < t)%nat → ¬ transport_varies tcp k → s !! (iph v6 + k)%nat = q !! (iph v6 + k)%nat.
Proof.
  destruct frame_parts as (_ & LA & LB). intros Hk Hv. rewrite <- LA at 1. rewrite (so_transport _ _ _ _ _ _ _ _ _ Sok) by (by rewrite ?LB).
  unfold B. rewrite lookup_slice. by rewrite decide_True by lia.
Qed.

#[local] Lemma segment_agree : agree v6 tcp t s p.
Proof.
  pose proof (Forall_lookup_1 _ _ _ _ (mg_agree _ _ _ _ _ _ _ M) Hj) as Ha. trans q; [|by symmetry]. pose proof transport_size as Ht.
  assert (20 <= iph v6)%nat by (destruct v6; cbn; lia). split.
  - intros k Hk Hl. destruct (decide (k < iph v6)%nat) as [Hi|Hi].
    + apply segment_ip; [done|]. intros Hv. apply Hl. unfold loose. left. unfold ip_varies in Hv. destruct v6; lia.
    + replace k with (iph v6 + (k - iph v6))%nat by lia. apply segment_th; [lia|]. intros Hv. apply Hl. unfold loose, transport_varies, transport_fields in *.
      destruct tcp; cbn in Hv; lia.
  - intros E. unfold byte. rewrite segment_ip; [done|rewrite E; cbn; lia|rewrite E; cbn; lia].
  - intros E. unfold byte. rewrite segment_th; [done|rewrite E in Ht; lia|]. unfold transport_varies. rewrite E. cbn. lia.
Qed.

#[local] Lemma segment_seq : tcp = true → seq_of v6 s = seq_of v6 p.
Proof.
  intros E. destruct frame_parts as (_ & LA & LB). pose proof transport_size as Ht. rewrite E in Ht. pose proof (cd_data _ _ _ _ cand_member) as Hd.
  pose proof (so_seq _ _ _ _ _ _ _ _ _ Sok E) as Hs. rewrite LA, u32_at_Some in Hs by (rewrite segment_size; lia). injection Hs as Hs.
  rewrite (mg_seq _ _ _ _ _ _ _ M E j p Hj). unfold seq_of at 1. replace (iph v6 + 8)%nat with (iph v6 + 4 + 4)%nat by lia. rewrite Hs.
  do 3 f_equal. unfold seq_of, B. f_equal. rewrite slice_slice by lia. done.
Qed.

#[local] Lemma segment_flags : tcp = true → byte s (iph v6 + 13) = byte p (iph v6 + 13) ∨ byte p (iph v6 + 13) = 24 ∧ byte s (iph v6 + 13) = 16.
Proof.
  intros E. destruct frame_parts as (_ & LA & LB). pose proof transport_size as Ht. rewrite E in Ht.
  pose proof (so_flags _ _ _ _ _ _ _ _ _ Sok E) as Hs. unfold u8_at in Hs. rewrite LA in Hs. change (default 0 (B !! 13%nat)) with (byte B 13) in Hs.
  rewrite byte_B in Hs by lia. cbv zeta in Hs. pose proof cand_member as C. rewrite E in C. pose proof (cd_transport _ _ _ _ C) as (_ & _ & Hf).
  destruct (mg_psh _ _ _ _ _ _ _ M E) as [Hinit Hq]. unfold byte at 1 4. rewrite Hs. cbn [from_option id].
  destruct (length P <=? Z.to_nat g * S j)%nat eqn:Ef.
  - apply (frame_final j p Hj) in Ef. rewrite lookup_app_r, Ef, Nat.sub_diag in Hj by lia. injection Hj as <-.
    destruct Hq as [-> | [-> Hp]], Hf as [Hf|Hf]; rewrite Hf; auto. unfold psh_of in Hp. by rewrite Hf in Hp.
  - assert (j ≠ length init) as Hne by (intros Hne; apply (frame_final j p Hj) in Hne; congruence).
    pose proof (lookup_lt_Some _ _ _ Hj) as Hlt. rewrite length_app in Hlt. cbn [length] in Hlt. rewrite lookup_app_l in Hj by lia.
    pose proof (Forall_lookup_1 _ _ _ _ Hinit Hj) as Hp. cbn beta in Hp. unfold psh_of in Hp. destruct Hf as [Hf|Hf]; rewrite Hf in Hp |- *; [|done].
    left. by destruct Hq as [-> | [-> _]].
Qed.

Lemma segment_same : same_packet v6 tcp t p s.
Proof.
  destruct frame_parts as (_ & LA & LB). pose proof segment_size as Hsz. pose proof cand_member as C. split.
  - exact Hsz.
  - exact segment_agree.
  - unfold payload. rewrite <- LA, <- LB at 1. rewrite (so_data _ _ _ _ _ _ _ _ _ Sok). by apply frame_chunk.
  - rewrite (so_ip_len _ _ _ _ _ _ _ _ _ Sok), (cd_iplen _ _ _ _ C). unfold len. rewrite Hsz, LA. by destruct v6.
  - intros E. rewrite <- LA. exact (so_udp_len _ _ _ _ _ _ _ _ _ Sok E).
  - exact segment_seq.
  - exact segment_flags.
  - intros E. rewrite <- LA. by apply (so_ip_sum _ _ _ _ _ _ _ _ _ Sok).
  - unfold OffloadTcp.valid. rewrite <- LA. apply (so_sum _ _ _ _ _ _ _ _ _ Sok).
  - exact (Forall_lookup_1 _ _ _ _ (mg_valid _ _ _ _ _ _ _ M) Hj).
Qed.

End segment.

Lemma merged_read outs off : (length (init ++ [lp]) <= length outs)%nat → Forall (λ b : list Z, off + length q <= length b)%nat outs →
  ∃ outs' sizes, handleVirtioRead little (hdr_bytes little frame_hdr ++ q) outs off = Some (inr (outs', sizes)) ∧
    Forall2 (same_packet v6 tcp t) (init ++ [lp]) (packets off outs' sizes).
Proof.
  intros Hn Hroom. destruct frame_parts as (Hq & LA & LB). pose proof frame_nsegs as Hns.
  destruct (virtio_read_segments little frame_hdr v6 tcp A B P outs off frame_ok) as (outs' & sizes & Hrun & Hlen & _ & Hok).
  - cbn [frame_hdr vh_gsoSize]. by rewrite Hns.
  - eapply Forall_impl; [exact Hroom|]. intros b Hb. cbn beta in *. apply (f_equal length) in Hq. rewrite !length_app in Hq. lia.
  - rewrite <- Hq in Hrun. exists outs', sizes. split; [done|]. cbn [frame_hdr vh_gsoSize] in Hlen, Hok. rewrite Hns in Hlen.
    apply Forall2_same_length_lookup_2; [done|]. intros j p s Hj Hs. apply (segment_same j p s Hj). by apply Hok.
Qed.

End merged_frame.

(** ** The frames *)

Variable offset : nat.
Notation buf_ok := (buf_ok offset).

(** The packet as it is made again. *)
Definition same (p s : list Z) : Prop := ∃ v6 tcp t, same_packet v6 tcp t p s.

(** The packets of a frame when it is read: a packet that is alone in it is not changed. *)
Definition read_back (ms ps : list (list Z)) : Prop := match ms with [p] => ps = [p] | _ => Forall2 same ms ps end.

Lemma read_back_same ms ps : length ms ≠ 1%nat → Forall2 same ms ps → read_back ms ps.
Proof. by destruct ms as [|? [|]]. Qed.

(** There are buffers for [n] packets, each as long as the longest packet of a batch. *)
Definition room (n off : nat) (outs : list (list Z)) : Prop :=
  (n <= length outs)%nat ∧ Forall (λ b, Z.of_nat off + 65535 <= len b + Z.of_nat offset) outs.

(** Reading the frame gives these packets. *)
Definition reads (frame : list Z) (ms : list (list Z)) : Prop := ∀ outs off, room (length ms) off outs →
  ∃ outs' sizes, handleVirtioRead little frame outs off = Some (inr (outs', sizes)) ∧ read_back ms (packets off outs' sizes).

Definition written (b : gbuf) (ms : list (list Z)) : Prop :=
  (offset <= length (gb_data b))%nat ∧ reads (drop (offset - virtioNetHdrLen) (gb_data b)) ms.

Lemma frame_at data : (virtioNetHdrLen <= offset)%nat → (offset <= length data)%nat → ∀ v pkt, slice (offset - virtioNetHdrLen) offset data = hdr_bytes little v →
  drop (offset - virtioNetHdrLen) (take offset data ++ pkt) = hdr_bytes little v ++ pkt.
Proof.
  intros H1 H2 v pkt Hs. rewrite drop_app_le by (rewrite length_take; lia). f_equal. rewrite <- Hs. unfold slice. rewrite skipn_firstn_comm. done.
Qed.

Lemma plain_written b : (virtioNetHdrLen <= offset)%nat → buf_ok b → slice (offset - virtioNetHdrLen) offset (gb_data b) = hdr_bytes little zero_hdr →
  written b [drop offset (gb_data b)].
Proof.
  intros Hoff [Ho Hcap] Hs. split; [lia|]. intros outs off [Hn Hroom]. destruct outs as [|o outs]; [cbn in Hn; lia|]. apply Forall_cons in Hroom as [Hroom _].
  assert (off + length (drop offset (gb_data b)) <= length o)%nat as Hfit by (rewrite length_drop; unfold len in *; lia).
  pose proof (frame_at (gb_data b) Hoff ltac:(lia) zero_hdr (drop offset (gb_data b)) Hs) as Hf. rewrite take_drop in Hf. rewrite Hf.
  eexists _, _. split; [by apply virtio_read_plain|]. cbn [read_back]. by apply plain_packets.
Qed.

Lemma merged_written v6 tcp t g init lp q data cap : (virtioNetHdrLen <= offset)%nat → init ≠ [] → merged v6 tcp t g init lp q → (offset <= length data)%nat →
  slice (offset - virtioNetHdrLen) offset data = hdr_bytes little (frame_hdr v6 tcp t g) → Z.of_nat offset + len q <= 65535 →
  written (mkGbuf (take offset data ++ q) cap) (init ++ [lp]).
Proof.
  intros Hoff Hne M Ho Hs Hlen. split; cbn [gb_data]; [rewrite length_app, length_take; lia|]. intros outs off [Hn Hroom]. rewrite (frame_at data Hoff Ho _ q Hs).
  destruct (merged_read v6 tcp t g init lp q M outs off Hn) as (outs' & sizes & Hrun & Hsame).
  - eapply Forall_impl; [exact Hroom|]. intros b Hb. cbn beta in *. unfold len in *. lia.
  - exists outs', sizes. split; [done|]. apply read_back_same; [destruct init; [done|]; rewrite length_app; cbn [length]; lia|].
    eapply Forall2_impl; [exact Hsame|]. intros p s Hps. by exists v6, tcp, t.
Qed.

(** ** Accounting *)

Notation groups := (gmap nat (list (list Z))).
Hypothesis Hoff : (virtioNetHdrLen <= offset)%nat.

(** An item on its own gets an empty header. *)
Lemma account_plain b lp : buf_ok b → drop offset (gb_data b) = lp →
  ∃ b', (r ← encode_front little (gb_data b) offset zero_hdr; Some (match r with inl _ => inl tt | inr data => inr (mkGbuf data (gb_cap b)) end)) = Some (inr b') ∧ written b' [lp].
Proof.
  intros [Ho Hcap] Hlp. destruct (encode_front_spec little offset (gb_data b) zero_hdr Hoff ltac:(lia)) as (data & -> & Hlen & Hdrop & Hhdr). cbn [mbind option_bind].
  eexists. split; [done|]. rewrite <- Hlp, <- Hdrop. apply (plain_written (mkGbuf data (gb_cap b))); [done| |done].
  split; cbn [gb_data gb_cap]; [by rewrite Hlen|]. unfold len in *. by rewrite Hlen.
Qed.

Lemma tcp_account_spec bufs mem x : item_ok little offset bufs mem x →
  ∃ b' ms, tcp_account little bufs offset x = Some (inr (<[ti_bufsIndex x := b']> bufs)) ∧ mem !! ti_bufsIndex x = Some ms ∧ written b' ms.
Proof.
  intros (b & init & lp & Hb & Hok & R & Hm). unfold tcp_account. rewrite Hb. cbn [mbind option_bind]. rewrite (tr_num _ _ _ _ _ R). rewrite (tr_iph _ _ _ _ _ R).
  destruct Hok as [Ho Hcap] eqn:Eok. clear Eok. destruct (Z.ltb_spec 0 (Z.of_nat (length init))) as [Hpos|Hz].
  - set (v6 := tk_isV6 (ti_key x)). set (t := ti_tcphLen x). assert (init ≠ []) as Hne by (by destruct init).
    pose proof (tcp_merged _ _ _ _ R Hne) as M. fold v6 t in M. pose proof (tr_header _ _ _ _ _ R) as Hh. fold v6 t in Hh.
    destruct (cd_transport _ _ _ _ (tr_cand_last _ _ _ _ _ R)) as (Ht & _). fold t in Ht. assert (iph v6 <= 40)%nat by (destruct v6; cbn; lia).
    rewrite from_Some by lia. cbn [mbind option_bind]. set (target := drop offset (gb_data b)) in *.
    destruct (fix_ip_spec v6 true t target (tr_bytes _ _ _ _ _ R) Hh ltac:(lia)) as (q1 & -> & R1). cbn [mbind option_bind].
    assert (length (take offset (gb_data b)) = offset) as Htk by (rewrite length_take; lia).
    destruct (encode_front_spec little offset (take offset (gb_data b) ++ q1) (frame_hdr v6 true t (ti_gsoSize x)) Hoff ltac:(rewrite length_app; lia))
      as (data & Henc & Hlen & _ & Hhdr).
    rewrite nat8_small by lia. change 16 with (Z.of_nat (csum_at true)). fold (gso_type v6 true). fold (frame_hdr v6 true t (ti_gsoSize x)). rewrite Henc. cbn [mbind option_bind].
    pose proof (re_length _ _ _ _ _ R1) as L1.
    destruct (pseudo_field_spec v6 true t q1 (re_bytes _ _ _ _ _ R1) ltac:(lia) ltac:(cbn; lia)) as (q2 & E2 & R2).
    change (proto_of true) with IPPROTO_TCP in E2. change (csum_at true) with 16%nat in E2. rewrite E2. cbn [mbind option_bind].
    eexists _, _. split; [done|]. split; [exact Hm|]. rewrite length_app in Hlen.
    apply (merged_written v6 true t (ti_gsoSize x)); [done|done| |lia|done|].
    + eapply merged_retouched; [exact M|]. by eapply retouched_trans.
    + unfold len in *. rewrite (re_length _ _ _ _ _ R2), L1. subst target. rewrite length_drop. lia.
  - assert (init = []) as -> by (destruct init; [done|cbn [length] in Hz; lia]).
    destruct (account_plain b lp (Build_buf_ok _ _ Ho Hcap) (tr_single _ _ _ _ _ R eq_refl)) as (b' & Hrun & Hw).
    destruct (encode_front little (gb_data b) offset zero_hdr) as [[[]|data]|]; try done. cbn [mbind option_bind] in Hrun |- *. injection Hrun as <-. by eexists _, _.
Qed.

Lemma udp_account_spec bufs mem x : uitem_ok little offset bufs mem x →
  ∃ b' ms, udp_account little bufs offset x = Some (inr (<[ui_bufsIndex x := b']> bufs)) ∧ mem !! ui_bufsIndex x = Some ms ∧ written b' ms.
Proof.
  intros (b & init & lp & Hb & Hok & R & Hm). unfold udp_account. rewrite Hb. cbn [mbind option_bind]. rewrite (ur_num _ _ _ _ _ R). rewrite (ur_iph _ _ _ _ _ R).
  destruct Hok as [Ho Hcap] eqn:Eok. clear Eok. destruct (Z.ltb_spec 0 (Z.of_nat (length init))) as [Hpos|Hz].
  - set (v6 := uk_isV6 (ui_key x)). assert (init ≠ []) as Hne by (by destruct init).
    pose proof (udp_merged _ _ _ _ R Hne) as M. fold v6 in M. pose proof (ur_header _ _ _ _ _ R) as Hh. fold v6 in Hh.
    assert (iph v6 <= 40)%nat by (destruct v6; cbn; lia).
    rewrite from_Some by lia. cbn [mbind option_bind]. set (target := drop offset (gb_data b)) in *.
    destruct (fix_ip_spec v6 false 8 target (ur_bytes _ _ _ _ _ R) Hh ltac:(done)) as (q1 & -> & R1). cbn [mbind option_bind].
    assert (length (take offset (gb_data b)) = offset) as Htk by (rewrite length_take; lia).
    destruct (encode_front_spec little offset (take offset (gb_data b) ++ q1) (frame_hdr v6 false 8 (ui_gsoSize x)) Hoff ltac:(rewrite length_app; lia))
      as (data & Henc & Hlen & _ & Hhdr).
    unfold udphLen. rewrite nat8_small by lia. change 6 with (Z.of_nat (csum_at false)). change VIRTIO_NET_HDR_GSO_UDP_L4 with (gso_type v6 false).
    fold (frame_hdr v6 false 8 (ui_gsoSize x)). rewrite Henc. cbn [mbind option_bind].
    pose proof (re_length _ _ _ _ _ R1) as L1. rewrite from_Some by lia. cbn [mbind option_bind].
    destruct (udp_len_spec v6 q1 (uint16 (len (drop (iph v6) q1))) (re_bytes _ _ _ _ _ R1) ltac:(lia)) as (q2 & -> & R2). cbn [mbind option_bind].
    pose proof (re_length _ _ _ _ _ R2) as L2.
    destruct (pseudo_field_spec v6 false 8 q2 (re_bytes _ _ _ _ _ R2) ltac:(lia) eq_refl) as (q3 & E3 & R3).
    change (proto_of false) with IPPROTO_UDP in E3. change (csum_at false) with 6%nat in E3. rewrite E3. cbn [mbind option_bind].
    eexists _, _. split; [done|]. split; [exact Hm|]. rewrite length_app in Hlen.
    apply (merged_written v6 false 8 (ui_gsoSize x)); [done|done| |lia|done|].
    + eapply merged_retouched; [exact M|]. eapply retouched_trans; [exact R1|]. by eapply retouched_trans.
    + unfold len in *. rewrite (re_length _ _ _ _ _ R3), L2, L1. subst target. rewrite length_drop. lia.
  - assert (init = []) as -> by (destruct init; [done|cbn [length] in Hz; lia]).
    destruct (account_plain b lp (Build_buf_ok _ _ Ho Hcap) (ur_single _ _ _ _ _ R eq_refl)) as (b' & Hrun & Hw).
    destruct (encode_front little (gb_data b) offset zero_hdr) as [[[]|data]|]; try done. cbn [mbind option_bind] in Hrun |- *. injection Hrun as <-. by eexists _, _.
Qed.

End write.
