(* ===== verification/OffloadProps.v ===== *)
(** Writing a batch of packets to the tun device, end to end: what is merged comes apart into the same packets.

    At the end, packets that run through the offload code: the properties applied, and two batches that do not come out as they went in. *)

From S2P Require Import Prelude Bytes Checksum Offload OffloadSplit OffloadRead OffloadGro OffloadTcp OffloadFlow OffloadUdp OffloadBatch OffloadWrite.

(** ** The loops over the items *)

Section account.
Context {I : Type} (f : list gbuf → I → option (unit + list gbuf)) (idx : I → nat) (Pre : list gbuf → I → Prop) (Post : I → gbuf → Prop).
Hypothesis Hstep : ∀ bufs x, Pre bufs x → ∃ b', f bufs x = Some (inr (<[idx x := b']> bufs)) ∧ Post x b'.
Hypothesis Hother : ∀ bufs x i b', i ≠ idx x → Pre bufs x → Pre (<[i := b']> bufs) x.
Hypothesis Hin : ∀ bufs x, Pre bufs x → (idx x < length bufs)%nat.

Lemma account_spec items : NoDup (idx <$> items) → ∀ bufs, Forall (Pre bufs) items →
  ∃ bufs', account f items bufs = Some (bufs', true) ∧ (∀ x, x ∈ items → ∃ b', bufs' !! idx x = Some b' ∧ Post x b') ∧
    (∀ j, j ∉ idx <$> items → bufs' !! j = bufs !! j) ∧ length bufs' = length bufs.
Proof.
  induction items as [|x items IH]; intros Hnd bufs HP.
  - exists bufs. split_and!; try done. set_solver.
  - rewrite fmap_cons in Hnd. apply NoDup_cons in Hnd as [Hx Hnd]. apply Forall_cons in HP as [Hp HP]. cbn [account].
    destruct (Hstep bufs x Hp) as (b' & -> & Hpost). cbn [mbind option_bind].
    destruct (IH Hnd (<[idx x := b']> bufs)) as (bufs' & Hrun & H1 & H2 & H3).
    { rewrite Forall_forall in HP |- *. intros y Hy. apply Hother; [|by apply HP]. intros E. apply Hx. rewrite E. by apply list_elem_of_fmap_2. }
    exists bufs'. split; [done|]. split_and!.
    + intros y Hy. apply elem_of_cons in Hy as [->|Hy]; [|by apply H1]. exists b'. split; [|done]. rewrite H2 by done. apply list_lookup_insert_eq. by apply Hin.
    + intros j Hj. rewrite fmap_cons in Hj. apply not_elem_of_cons in Hj as [Hj1 Hj2]. rewrite H2 by done. by apply list_lookup_insert_ne.
    + by rewrite H3, length_insert.
Qed.
End account.

Section props.
Context `{MapRange}.
Variables (little : bool) (offset : nat).

Notation groups := (gmap nat (list (list Z))).

Lemma tcp_accounting bufs mem tb : (virtioNetHdrLen <= offset)%nat → tcp_ok little offset bufs mem (tt_itemsByFlow tb) →
  ∃ bufs', applyTCPCoalesceAccounting little bufs offset tb = Some (bufs', true) ∧ length bufs' = length bufs ∧
    (∀ i, i ∈ ti_bufsIndex <$> flat (tt_itemsByFlow tb) → ∃ b ms, bufs' !! i = Some b ∧ mem !! i = Some ms ∧ written little offset b ms) ∧
    (∀ j, j ∉ ti_bufsIndex <$> flat (tt_itemsByFlow tb) → bufs' !! j = bufs !! j).
Proof.
  intros Hoff [K I N]. unfold applyTCPCoalesceAccounting.
  destruct (account_spec (λ bufs item, tcp_account little bufs offset item) ti_bufsIndex (λ bufs, item_ok little offset bufs mem)
    (λ x b, ∃ ms, mem !! ti_bufsIndex x = Some ms ∧ written little offset b ms)) with (items := map_range (tt_itemsByFlow tb) ≫= snd) (bufs := bufs)
    as (bufs' & Hrun & H1 & H2 & H3).
  - intros bufs1 x Hx. destruct (tcp_account_spec little offset Hoff bufs1 mem x Hx) as (b' & ms & Hr & Hm & Hw). exists b'. eauto.
  - intros bufs1 x i b' Hi (b & init & lp & Hb & Hrest). exists b, init, lp. by rewrite list_lookup_insert_ne by done.
  - intros bufs1 x (b & _ & _ & Hb & _). by eapply lookup_lt_Some.
  - by rewrite flat_range.
  - by rewrite flat_range.
  - exists bufs'. split; [done|]. split; [done|]. split.
    + intros i Hi. apply list_elem_of_fmap in Hi as (x & -> & Hx). destruct (H1 x) as (b' & Hb' & ms & Hm & Hw); [by rewrite flat_range|]. eauto.
    + intros j Hj. apply H2. by rewrite flat_range.
Qed.

Lemma udp_accounting bufs mem tb : (virtioNetHdrLen <= offset)%nat → udp_ok little offset bufs mem (ut_itemsByFlow tb) →
  ∃ bufs', applyUDPCoalesceAccounting little bufs offset tb = Some (bufs', true) ∧ length bufs' = length bufs ∧
    (∀ i, i ∈ ui_bufsIndex <$> flat (ut_itemsByFlow tb) → ∃ b ms, bufs' !! i = Some b ∧ mem !! i = Some ms ∧ written little offset b ms) ∧
    (∀ j, j ∉ ui_bufsIndex <$> flat (ut_itemsByFlow tb) → bufs' !! j = bufs !! j).
Proof.
  intros Hoff [K I N _]. unfold applyUDPCoalesceAccounting.
  destruct (account_spec (λ bufs item, udp_account little bufs offset item) ui_bufsIndex (λ bufs, uitem_ok little offset bufs mem)
    (λ x b, ∃ ms, mem !! ui_bufsIndex x = Some ms ∧ written little offset b ms)) with (items := map_range (ut_itemsByFlow tb) ≫= snd) (bufs := bufs)
    as (bufs' & Hrun & H1 & H2 & H3).
  - intros bufs1 x Hx. destruct (udp_account_spec little offset Hoff bufs1 mem x Hx) as (b' & ms & Hr & Hm & Hw). exists b'. eauto.
  - intros bufs1 x i b' Hi (b & init & lp & Hb & Hrest). exists b, init, lp. by rewrite list_lookup_insert_ne by done.
  - intros bufs1 x (b & _ & _ & Hb & _). by eapply lookup_lt_Some.
  - by rewrite flat_range.
  - by rewrite flat_range.
  - exists bufs'. split; [done|]. split; [done|]. split.
    + intros i Hi. apply list_elem_of_fmap in Hi as (x & -> & Hx). destruct (H1 x) as (b' & Hb' & ms & Hm & Hw); [by rewrite flat_range|]. eauto.
    + intros j Hj. apply H2. by rewrite flat_range.
Qed.

(** ** The whole batch *)

(** A packet whose item was deleted from its table: it is written, but the header in front of it never was. *)
Definition stale (frame : list Z) (ms : list (list Z)) : Prop :=
  ∃ v6 t p, ms = [p] ∧ drop virtioNetHdrLen frame = p ∧ candidate v6 true t p ∧ ¬ valid little v6 true p.

Definition carries (frame : list Z) (ms : list (list Z)) : Prop := reads little offset frame ms ∨ stale frame ms.

Lemma handleGRO_spec u orig tcpTable udpTable : batch_ok offset orig →
  tt_itemsByFlow tcpTable = ∅ → ut_itemsByFlow udpTable = ∅ → (length orig <= tt_itemsPool tcpTable)%nat → (length orig <= ut_itemsPool udpTable)%nat →
  ∃ st members, handleGRO little orig offset tcpTable udpTable u = Some (inr st) ∧ NoDup (gs_toWrite st) ∧
    concat members ≡ₚ ((λ b, drop offset (gb_data b)) <$> orig) ∧
    Forall2 (λ i ms, ∃ b, gs_bufs st !! i = Some b ∧ (offset <= length (gb_data b))%nat ∧ carries (drop (offset - virtioNetHdrLen) (gb_data b)) ms) (gs_toWrite st) members.
Proof.
  intros Hbt Ht Hu Hpt Hpu. pose proof (bt_offset _ _ Hbt) as Hoff. unfold handleGRO.
  destruct (gro_loop_spec little offset u orig Hbt (length orig) 0 _ _ _ _ (gro_init little offset orig tcpTable udpTable Ht Hu Hpt Hpu) eq_refl)
    as (st & mem & P & L & -> & [C T U _ _]). cbn [mbind option_bind].
  destruct (tcp_accounting (gs_bufs st) mem (gs_tcp st) Hoff T) as (bufs1 & -> & L1 & W1 & F1). cbn [mbind option_bind].
  destruct C as [C1 C2 C3 C4 C5 C6 C7 C8]. unfold tidx, uidx in C1. pose proof C2 as C2'. rewrite C1, <- app_assoc, NoDup_app in C2'. destruct C2' as (_ & Hd & Hnd).
  apply NoDup_app in Hnd as (_ & Hd2 & _).
  assert (∀ j, j ∈ (ui_bufsIndex <$> flat (ut_itemsByFlow (gs_udp st))) ++ P ++ L → bufs1 !! j = gs_bufs st !! j) as G1.
  { intros j Hj. apply F1. intros Hi. by apply (Hd j Hi). }
  destruct (udp_accounting bufs1 mem (gs_udp st) Hoff) as (bufs2 & -> & L2 & W2 & F2).
  { apply (udp_ok_frame little offset (gs_bufs st) bufs1 mem mem); [|done]. intros j Hj. split; [|done]. apply G1. rewrite elem_of_app. by left. }
  cbn [mbind option_bind andb]. eexists _, ((λ i, default [] (mem !! i)) <$> gs_toWrite st). split; [done|]. cbn [gs_toWrite gs_bufs]. split_and!; [done| |].
  - rewrite firstn_all2 in C8 by by rewrite length_fmap. rewrite <- C8. by rewrite collect_concat.
  - apply Forall2_fmap_r, Forall_Forall2_diag, Forall_forall. intros i Hi. rewrite C1, !elem_of_app in Hi.
    assert (∀ j, j ∈ P ++ L → bufs2 !! j = gs_bufs st !! j) as G2.
    { intros j Hj. rewrite F2; [apply G1; rewrite elem_of_app; by right|]. intros Hi'. by apply (Hd2 j Hi'). }
    rewrite Forall_forall in C4, C5. destruct Hi as [[Hi|Hi]|[Hi|Hi]].
    + destruct (W1 i Hi) as (b & ms & Hb & Hm & Hl & Hw). exists b. rewrite Hm. split; [|by split; [|left]]. rewrite F2; [done|]. intros Hi'. apply (Hd i Hi). rewrite elem_of_app. by left.
    + destruct (W2 i Hi) as (b & ms & Hb & Hm & Hl & Hw). exists b. rewrite Hm. split; [done|by split; [|left]].
    + destruct (C4 i Hi) as (b & Hb & Hok & Hs & Hm). exists b. rewrite Hm. split; [rewrite G2; [done|rewrite elem_of_app; by left]|].
      destruct (plain_written little offset b Hoff Hok Hs) as [Hl Hw]. by split; [|left].
    + destruct (C5 i Hi) as (b & v6 & t & Hb & Hok & Hc & Hv & Hm). exists b. rewrite Hm. split; [rewrite G2; [done|rewrite elem_of_app; by right]|].
      split; [apply Nat.lt_le_incl, Hok|right]. exists v6, t, (drop offset (gb_data b)). split_and!; try done. rewrite drop_drop. f_equal. lia.
Qed.

(** ** The frames *)

(** The frame behind the packet information header. *)
Definition frame_body (usePI : bool) (frame : list Z) : list Z := if usePI then drop tunPILen frame else frame.

(** Reading the frame from the device gives these packets. *)
Definition delivers (usePI : bool) (frame : list Z) (ms : list (list Z)) : Prop := ∀ outs off, room offset (length ms) off outs →
  ∃ outs' sizes proto, tun_Read little true usePI frame outs off = Some (inr (outs', sizes, proto)) ∧ read_back little ms (packets off outs' sizes).

Lemma reads_delivers usePI frame ms : (usePI = true → (4 <= length frame)%nat) → reads little offset (frame_body usePI frame) ms → delivers usePI frame ms.
Proof.
  intros Hl Hr outs off Hroom. destruct (Hr outs off Hroom) as (outs' & sizes & Hrun & Hsame). unfold tun_Read, frame_body in *. destruct usePI; cbn [andb].
  - specialize (Hl eq_refl). unfold tunPILen, len in *. rewrite (proj2 (Z.ltb_ge _ _)) by lia. unfold u8_at.
    destruct (lookup_lt_is_Some_2 frame 2 ltac:(lia)) as [b2 ->]. destruct (lookup_lt_is_Some_2 frame 3 ltac:(lia)) as [b3 ->]. cbn [mbind option_bind].
    rewrite from_Some by lia. cbn [mbind option_bind]. rewrite Hrun. cbn [mbind option_bind]. eauto.
  - cbn [mbind option_bind]. rewrite Hrun. cbn [mbind option_bind]. eauto.
Qed.

Lemma frame_spec usePI b proto : (10 <= offset)%nat → (usePI = true → (14 <= offset)%nat) → (offset <= length (gb_data b))%nat →
  ∃ frame, (data ← (if usePI then pi_header (gb_data b) (if usePI then (offset - virtioNetHdrLen - tunPILen)%nat
      else (offset - virtioNetHdrLen)%nat) offset proto else Some (gb_data b));
      from data (if usePI then (offset - virtioNetHdrLen - tunPILen)%nat else (offset - virtioNetHdrLen)%nat)) = Some frame ∧
    frame_body usePI frame = drop (offset - virtioNetHdrLen) (gb_data b) ∧ (4 <= length frame)%nat.
Proof.
  intros Hoff Hpi Hl. unfold virtioNetHdrLen, tunPILen, frame_body. destruct usePI; cbn [mbind option_bind].
  - specialize (Hpi eq_refl). unfold pi_header. rewrite put_at_Some by (cbn [length]; lia). cbn [mbind option_bind].
    rewrite from_Some by (rewrite length_write_at; cbn [length]; lia). eexists. split; [done|]. unfold tunPILen. rewrite drop_drop.
    split; [|rewrite length_drop, length_write_at; cbn [length]; lia]. apply list_eq. intros k. rewrite !lookup_drop, lookup_write_at by (cbn [length]; lia). rewrite decide_False by (cbn [length]; lia). f_equal. lia.
  - rewrite from_Some by lia. eexists. split; [done|]. split; [done|]. rewrite length_drop. lia.
Qed.

(** C20: writing a batch of packets never panics and hands frames to the kernel that together carry every packet exactly once.
    A packet that is alone in its frame is read back unchanged.  From a frame of several packets as many are read, in order, each with
    the addresses, ports, data, length, sequence and acknowledgement numbers and options of its original, and with valid checksums.
    Fields that may differ are the PSH flag, which can get lost, the checksums, the identification of IPv4, the flow label of IPv6, the
    reserved bits, window and urgent pointer of TCP, and the length of UDP, which is right afterwards.  The one exception is a TCP packet
    with a wrong checksum that another packet of its flow was to be merged with: it is written behind a header that was never
    filled in.  The tables of flows are empty before, with an item for each packet; buffers have at most 65535 bytes
    and room for the headers in front, and there are buffers to read into. *)
Theorem write_read_roundtrip (usePI u : bool) orig tcpTable udpTable protos : batch_ok offset orig →
  tt_itemsByFlow tcpTable = ∅ → ut_itemsByFlow udpTable = ∅ → (length orig <= tt_itemsPool tcpTable)%nat → (length orig <= ut_itemsPool udpTable)%nat →
  (usePI = true → (virtioNetHdrLen + tunPILen <= offset)%nat) →
  ∃ frames members, writeWithProtos little true usePI u tcpTable udpTable orig offset protos = Some (inr frames) ∧
    concat members ≡ₚ ((λ b, drop offset (gb_data b)) <$> orig) ∧
    Forall2 (λ frame ms, delivers usePI frame ms ∨ stale (frame_body usePI frame) ms) frames members.
Proof.
  intros Hbt Ht Hu Hpt Hpu Hpi. destruct (handleGRO_spec u orig tcpTable udpTable Hbt Ht Hu Hpt Hpu) as (st & members & Hrun & _ & Hperm & Hall).
  pose proof (bt_offset _ _ Hbt) as Hoff. unfold virtioNetHdrLen, tunPILen in Hpi, Hoff.
  unfold writeWithProtos. rewrite Hrun. cbn [mbind option_bind].
  replace (usePI && (offset - virtioNetHdrLen <? tunPILen)%nat) with false
    by (unfold virtioNetHdrLen, tunPILen; destruct usePI; [symmetry; apply Nat.ltb_ge; lia|done]). cbn [andb].
  assert (∃ frames, mapM (λ i, b ← gs_bufs st !! i; data ← (if usePI then pi_header (gb_data b) (if usePI then (offset - virtioNetHdrLen - tunPILen)%nat
      else (offset - virtioNetHdrLen)%nat) offset (protos !! i) else Some (gb_data b));
      from data (if usePI then (offset - virtioNetHdrLen - tunPILen)%nat else (offset - virtioNetHdrLen)%nat)) (gs_toWrite st) = Some frames ∧
      Forall2 (λ frame ms, delivers usePI frame ms ∨ stale (frame_body usePI frame) ms) frames members) as (frames & -> & Hfr).
  { clear Hperm Hrun. induction Hall as [|i ms W members (b & Hb & Hl & Hc) _ (frames & Hm & Hf)]; [by exists []|]. cbn [mapM].
    rewrite Hb. cbn [mbind option_bind]. destruct (frame_spec usePI b (protos !! i) Hoff Hpi Hl) as (frame & -> & Hbody & Hfl). cbn [mbind option_bind].
    rewrite Hm. exists (frame :: frames). split; [done|]. constructor; [|done]. rewrite <- Hbody in Hc.
    destruct Hc as [Hc|Hc]; [left; by apply reads_delivers|by right]. }
  cbn [mbind option_bind]. by exists frames, members.
Qed.

End props.

Module OffloadDemo.

#[local] Existing Instance sorted_range.

Definition src : list Z := [10; 0; 0; 1].
Definition dst : list Z := [10; 0; 0; 2].

Definition ip4 (total : Z) : list Z := [0x45; 0] ++ be_encode 2 total ++ [0; 7; 0x40; 0; 64; 6; 0; 0] ++ src ++ dst.

Definition tcp (seq flags csum : Z) : list Z :=
  be_encode 2 443 ++ be_encode 2 50000 ++ be_encode 4 seq ++ be_encode 4 77 ++ [0x50; flags] ++ be_encode 2 512 ++ be_encode 2 csum ++ [0; 0].

(** A TCP segment; [error] is added to its checksum. *)
Definition segment_of (seq flags error : Z) (data : list Z) : list Z :=
  let l := 20 + len data in
  let sum := not16 (checksum false (tcp seq flags 0 ++ data) (pseudoHeaderChecksumNoFold false IPPROTO_TCP src dst l)) in
  ip4 (20 + l) ++ tcp seq flags (uint16 (sum + error)) ++ data.

(** A buffer with some old bytes in front of the packet. *)
Definition buffer (p : list Z) : gbuf := mkGbuf (replicate 16 0xff ++ p) 65535.

Definition p1 : list Z := segment_of 1000 16 0 [1; 2; 3; 4].
Definition p2 : list Z := segment_of 1004 16 0 [5; 6; 7; 8].
Definition p3 : list Z := segment_of 1008 24 0 [9; 10; 11].
Definition batch : list gbuf := buffer <$> [p1; p2; p3].

Definition outs : list (list Z) := replicate 4 (replicate 80 0).

Lemma Forall_bytes l : forallb (λ b, (0 <=? b) && (b <? 256)) l = true → Forall is_byte l.
Proof. intros H. apply Forall_forall. intros x Hx. rewrite forallb_forall in H. specialize (H x (proj1 (list_elem_of_In _ _) Hx)). to_prop. split; lia. Qed.

Lemma batch_ok_of ps : forallb (λ p, (0 <? length p)%nat && (length p <=? 200)%nat && forallb (λ b, (0 <=? b) && (b <? 256)) p) ps = true → (length ps <= 100)%nat →
  batch_ok 16 (buffer <$> ps).
Proof.
  intros Hps Hn. assert (Forall (λ p, (0 < length p <= 200)%nat ∧ Forall is_byte p) ps) as Hall.
  { apply Forall_forall. intros p Hp. rewrite forallb_forall in Hps. specialize (Hps p (proj1 (list_elem_of_In _ _) Hp)). apply andb_true_iff in Hps as [Hl Hb].
    apply andb_true_iff in Hl as [H1 H2]. apply Nat.ltb_lt in H1. apply Nat.leb_le in H2. split; [lia|]. by apply Forall_bytes. }
  split.
  - apply Forall_fmap. eapply Forall_impl; [exact Hall|]. intros p [Hl _]. split; cbn [compose buffer gb_data gb_cap]; [|unfold len]; rewrite length_app, length_replicate; lia.
  - apply Forall_fmap. eapply Forall_impl; [exact Hall|]. intros p [_ Hb]. cbn. rewrite drop_0. exact Hb.
  - rewrite length_fmap. lia.
  - unfold virtioNetHdrLen. lia.
Qed.

Definition write (ps : list (list Z)) : list (list Z) :=
  match writeWithProtos false true false true newTCPGROTable newUDPGROTable (buffer <$> ps) 16 [] with
  | Some (inr frames) => frames
  | _ => []
  end.

Definition read (frame : list Z) : option (list (list Z)) :=
  match handleVirtioRead false frame outs 16 with
  | Some (inr (bufs, sizes)) => Some (packets 16 bufs sizes)
  | _ => None
  end.

(** What is read from the first frame. *)
Definition read_first {A} (f : list Z → A) (frames : list (list Z)) : option (list A) :=
  match frames with
  | frame :: _ => match read frame with Some ps => Some (f <$> ps) | None => None end
  | [] => None
  end.

(** The three segments leave as one frame, and come apart again. *)
Lemma batch_merges : length (write [p1; p2; p3]) = 1%nat ∧
  read_first (payload false 20) (write [p1; p2; p3]) = Some [[1; 2; 3; 4]; [5; 6; 7; 8]; [9; 10; 11]].
Proof. vm_compute. split; reflexivity. Qed.

Lemma write_read_roundtrip_witness : ∃ frames members,
  writeWithProtos false true false true newTCPGROTable newUDPGROTable batch 16 [] = Some (inr frames) ∧
  concat members ≡ₚ [p1; p2; p3] ∧ Forall2 (λ frame ms, delivers false 16 false frame ms ∨ stale false frame ms) frames members.
Proof.
  apply (write_read_roundtrip false 16 false true batch newTCPGROTable newUDPGROTable []).
  - apply (batch_ok_of [p1; p2; p3]); [vm_compute; reflexivity|cbn; lia].
  - reflexivity.
  - reflexivity.
  - vm_compute. lia.
  - vm_compute. lia.
  - intros H. discriminate H.
Defined.

(** A frame of eleven bytes of data, to be split into segments of four. *)
Definition big : list Z := segment_of 1000 25 0 [1; 2; 3; 4; 5; 6; 7; 8; 9; 10; 11].
Definition big_hdr : virtioNetHdr := mkVirtio VIRTIO_NET_HDR_F_NEEDS_CSUM VIRTIO_NET_HDR_GSO_TCPV4 0 4 20 16.

Lemma big_frame : gso_frame big_hdr false true (take 20 big) (slice 20 40 big) (drop 40 big).
Proof.
  split.
  - split; vm_compute; split; congruence.
  - apply Forall_bytes. vm_compute. reflexivity.
  - reflexivity.
  - vm_compute. reflexivity.
  - reflexivity.
  - vm_compute. discriminate.
  - vm_compute. discriminate.
  - vm_compute. lia.
  - vm_compute. reflexivity.
  - vm_compute. split; [lia|reflexivity].
Qed.

Lemma segmentation_correct_witness : ∃ outs' sizes,
  handleVirtioRead false (hdr_bytes false big_hdr ++ take 20 big ++ slice 20 40 big ++ drop 40 big) outs 16 = Some (inr (outs', sizes)) ∧
  length (packets 16 outs' sizes) = nsegs 4 (drop 40 big) ∧ concat (drop 40 <$> packets 16 outs' sizes) = drop 40 big ∧
  ∀ i s, packets 16 outs' sizes !! i = Some s → segment_ok false false true (take 20 big) (slice 20 40 big) (drop 40 big) 4 i s.
Proof.
  apply (segmentation_correct false big_hdr false true (take 20 big) (slice 20 40 big) (drop 40 big) outs 16 big_frame).
  - vm_compute. lia.
  - apply Forall_forall. intros b Hb. apply (proj1 (Forall_forall (λ b : list Z, b = replicate 80 0) outs)) in Hb; [|repeat constructor]. rewrite Hb. vm_compute. lia.
Defined.

(** ** Batches that do not come out as they went in *)

(** The first packet has a wrong checksum, the next one follows it: the item of the first is deleted, its index stays
    in the list of packets to write, and what is in front of it is what was in the buffer before. *)
Lemma stale_header :
  let frames := write [segment_of 1000 16 1 [1; 2; 3; 4]; p2] in
  (take 10 <$> frames) = [replicate 10 0xff; replicate 10 0] ∧ (read <$> frames) = [None; Some [p2]].
Proof. vm_compute. split; reflexivity. Qed.

(** Two segments in the wrong order, the second with PSH: they are merged behind the header of the first, and
    the flag is gone. *)
Lemma psh_lost :
  let first := segment_of 1000 16 0 [1; 2; 3; 4] in
  let second := segment_of 1004 24 0 [5; 6; 7; 8] in
  length (write [second; first]) = 1%nat ∧
  (λ p, byte p 33) <$> [first; second] = [16; 24] ∧
  read_first (λ p, byte p 33) (write [second; first]) = Some [16; 16].
Proof. vm_compute. split_and!; reflexivity. Qed.

End OffloadDemo.
