(* ===== verification/FakeTcp.v ===== *)
(** Fake TCP: the carrier of [polyamide/faketcp/carrier.go] and the connections of
    [polyamide/conn/fake_tcp.go], in which datagrams travel as the segments of a TCP connection that no
    TCP stack manages.  Every operation of the bind is one critical section of its lock. *)

From S2P Require Import Prelude Bytes NetIP Metric Routing Endpoint Offload.

(** ** The carrier *)

Definition CarrierMagic : Z := 0x4e59.
Definition CarrierHeaderSize : nat := 12.
Definition FrameHeaderSize : nat := 2.
Definition MinFramePayloadSize : nat := 32.
Definition SYNOptionSize : nat := 4.
Definition TCPFlagFIN : Z := 0x01.
Definition TCPFlagSYN : Z := 0x02.
Definition TCPFlagRST : Z := 0x04.
Definition TCPFlagACK : Z := 0x10.

(** [n] words of four bytes. *)
Fixpoint sum_words (n : nat) (payload : list Z) (sum : Z) : Z :=
  match n with
  | O => sum
  | S n => sum_words n (drop 4 payload) (uint64 (sum + be_decode (take 4 payload)))
  end.

(** [for len(payload) >= 4*n], eight words or one at a time; the fuel is the number of bytes. *)
Fixpoint sum_blocks (n fuel : nat) (payload : list Z) (sum : Z) : list Z * Z :=
  match fuel with
  | O => (payload, sum)
  | S fuel => if (4 * n <=? length payload)%nat then sum_blocks n fuel (drop (4 * n) payload) (sum_words n payload sum) else (payload, sum)
  end.

(** [for sum>>16 != 0]; four rounds are enough for 64 bits. *)
Fixpoint fold_carries (fuel : nat) (sum : Z) : Z :=
  match fuel with
  | O => sum
  | S fuel => if Z.shiftr sum 16 =? 0 then sum else fold_carries fuel (Z.land sum 0xffff + Z.shiftr sum 16)
  end.

Definition FoldPayloadChecksum (payload : list Z) : Z :=
  let '(payload, sum) := sum_blocks 8 (length payload) payload 0 in
  let '(payload, sum) := sum_blocks 1 (length payload) payload sum in
  let '(payload, sum) := if (2 <=? length payload)%nat then (drop 2 payload, uint64 (sum + be_decode (take 2 payload))) else (payload, sum) in
  let sum := match payload with [b] => uint64 (sum + Z.shiftl b 8) | _ => sum end in
  uint16 (fold_carries 4 sum).

(** ** Connections *)

Definition fakeTCPStateLimit : nat := Z.to_nat 65536.
Definition fakeTCPStandaloneACKAfter : Z := 32 * 1024 * 1024.

Inductive fakeTCPState := fakeTCPSYNSent | fakeTCPSYNReceived | fakeTCPEstablished.

#[export] Instance fakeTCPState_eq_dec : EqDecision fakeTCPState.
Proof. solve_decision. Defined.

Record fakeTCPFlowKey := mkFlowKey { fk_remote : AddrPort; fk_local : Addr; fk_ifidx : Z }.

#[export] Instance fakeTCPFlowKey_eq_dec : EqDecision fakeTCPFlowKey.
Proof. solve_decision. Defined.

#[export] Instance fakeTCPFlowKey_countable : Countable fakeTCPFlowKey.
Proof.
  refine (inj_countable' (λ k, (fk_remote k, fk_local k, fk_ifidx k)) (λ x, mkFlowKey x.1.1 x.1.2 x.2) _).
  by intros [].
Defined.

Record fakeTCPFlow := mkFlow {
  fl_state : fakeTCPState;
  fl_sendNext : Z;
  fl_recvNext : Z;
  fl_receivedUnacked : Z;
  fl_lastSeen : Z;
  fl_passive : bool;
}.

(** A slice: its bytes, and those behind it up to its capacity. *)
Record bslice := mkBslice { bs_data : list Z; bs_spare : list Z }.

Record fakeTCPPacket := mkFake { fp_flags : Z; fp_seq : Z; fp_ack : Z; fp_payload : bslice }.

Definition no_payload : bslice := mkBslice [] [].
Definition no_packet : fakeTCPPacket := mkFake 0 0 0 no_payload.

(** [flags&f != 0]. *)
Definition has_flag (flags f : Z) : bool := negb (Z.land flags f =? 0).

(** The bind; a socket is a number. *)
Record StdNetBind := mkBind {
  sb_ipv4 : option Z;
  sb_ipv6 : option Z;
  sb_fakeIPv4 : option Z;
  sb_fakeIPv6 : option Z;
  sb_ipv4TxOffload : bool;
  sb_ipv4RxOffload : bool;
  sb_ipv6TxOffload : bool;
  sb_ipv6RxOffload : bool;
  sb_blackhole4 : bool;
  sb_blackhole6 : bool;
  sb_fakeTCPEnabled : bool;
  sb_fakeTCPStaleAfter : Z;
  sb_fakeTCPStates : gmap fakeTCPFlowKey fakeTCPFlow;
  sb_fakeTCPLastClean : Z;
}.

Definition set_states (s : StdNetBind) (states : gmap fakeTCPFlowKey fakeTCPFlow) (lastClean : Z) : StdNetBind :=
  mkBind (sb_ipv4 s) (sb_ipv6 s) (sb_fakeIPv4 s) (sb_fakeIPv6 s) (sb_ipv4TxOffload s) (sb_ipv4RxOffload s) (sb_ipv6TxOffload s) (sb_ipv6RxOffload s)
    (sb_blackhole4 s) (sb_blackhole6 s) (sb_fakeTCPEnabled s) (sb_fakeTCPStaleAfter s) states lastClean.

Definition put_flow (s : StdNetBind) (key : fakeTCPFlowKey) (flow : fakeTCPFlow) : StdNetBind :=
  set_states s (<[key := flow]> (sb_fakeTCPStates s)) (sb_fakeTCPLastClean s).

Inductive fake_error := ErrBindAlreadyOpen | ErrFakeTCPUnsupported | ErrFakeTCPNotConfigured | ErrFakeTCPNotEstablished | ErrFakeTCPStateLimit | ErrClosed.

(** [EnableFakeTCP]; [supported] is [fakeTCPPlatformSupported()]. *)
Definition EnableFakeTCP (supported : bool) (s : StdNetBind) (staleAfter : Z) : fake_error + StdNetBind :=
  match sb_ipv4 s, sb_ipv6 s, sb_fakeIPv4 s, sb_fakeIPv6 s with
  | None, None, None, None =>
      if negb supported then inl ErrFakeTCPUnsupported
      else inr (mkBind (sb_ipv4 s) (sb_ipv6 s) (sb_fakeIPv4 s) (sb_fakeIPv6 s) (sb_ipv4TxOffload s) (sb_ipv4RxOffload s) (sb_ipv6TxOffload s)
                  (sb_ipv6RxOffload s) (sb_blackhole4 s) (sb_blackhole6 s) true staleAfter (sb_fakeTCPStates s) (sb_fakeTCPLastClean s))
  | _, _, _, _ => inl ErrBindAlreadyOpen
  end.

Definition fakeTCPKey (ep : StdNetEndpoint) : fakeTCPFlowKey := mkFlowKey (se_AddrPort ep) (SrcIP ep) (SrcIfidx ep).

(** [netip.Addr.IsUnspecified]. *)
Definition addr_IsUnspecified (a : Addr) : bool := bool_decide (a = Addr4 0 ∨ a = Addr6 0 "").

Definition findFakeTCPFlowLocked (s : StdNetBind) (ep : StdNetEndpoint) : fakeTCPFlowKey * option fakeTCPFlow :=
  let key := fakeTCPKey ep in
  match sb_fakeTCPStates s !! key with
  | Some flow => (key, Some flow)
  | None =>
      if negb (addr_IsValid (fk_local key)) || addr_IsUnspecified (fk_local key) then (key, None)
      else
        let wildcard := if addr_Is4 (fk_local key) then Addr4 0 else Addr6 0 "" in
        let wildcardKey := mkFlowKey (fk_remote key) wildcard (fk_ifidx key) in
        match sb_fakeTCPStates s !! wildcardKey with
        | Some flow => (wildcardKey, Some flow)
        | None => (key, None)
        end
  end.

(** The answer of [rand.Read] gives the initial sequence number. *)
Definition fakeTCPRandomISN (b : list Z) : Z := be_decode b.

Definition cleanupFakeTCPStatesLocked (s : StdNetBind) (now : Z) (force : bool) : StdNetBind :=
  if sb_fakeTCPStaleAfter s <=? 0 then s
  else if negb force && negb (sb_fakeTCPLastClean s =? ZeroTime) && (now - sb_fakeTCPLastClean s <? sb_fakeTCPStaleAfter s) then s
  else set_states s (filter (λ kf : fakeTCPFlowKey * fakeTCPFlow, now - fl_lastSeen kf.2 < sb_fakeTCPStaleAfter s) (sb_fakeTCPStates s)) now.

(** Room for one more connection, if need be by forgetting stale ones; [false] if there is none. *)
Definition make_room (s : StdNetBind) (now : Z) : StdNetBind * bool :=
  if (fakeTCPStateLimit <=? size (sb_fakeTCPStates s))%nat then
    let s := cleanupFakeTCPStatesLocked s now true in
    (s, (size (sb_fakeTCPStates s) <? fakeTCPStateLimit)%nat)
  else (s, true).

(** ** Segments that arrive *)

(** A SYN without ACK: the peer opens, or opens at the same time as we do. *)
Definition handle_syn (s : StdNetBind) (key : fakeTCPFlowKey) (flow : option fakeTCPFlow) (packet : fakeTCPPacket) (now : Z) (rnd : list Z)
    : StdNetBind * fakeTCPPacket :=
  let answer s sendNext passive :=
    let recvNext := uint32 (fp_seq packet + 1) in
    (put_flow s key (mkFlow fakeTCPSYNReceived sendNext recvNext 0 now passive),
     mkFake (Z.lor TCPFlagSYN TCPFlagACK) (uint32 (sendNext - 1)) recvNext no_payload) in
  match flow with
  | Some flow =>
      if bool_decide (fl_state flow = fakeTCPEstablished) then (s, no_packet)
      else
        let sendNext := if bool_decide (fl_state flow = fakeTCPSYNReceived) && negb (fl_recvNext flow =? uint32 (fp_seq packet + 1))
                        then uint32 (fakeTCPRandomISN rnd + 1) else fl_sendNext flow in
        answer s sendNext (fl_passive flow)
  | None =>
      let '(s, room) := make_room s now in
      if room then answer s (uint32 (fakeTCPRandomISN rnd + 1)) true else (s, no_packet)
  end.

(** A SYN with ACK: the answer to our SYN, or its repetition. *)
Definition handle_syn_ack (s : StdNetBind) (key : fakeTCPFlowKey) (flow : option fakeTCPFlow) (packet : fakeTCPPacket) (now : Z)
    : StdNetBind * fakeTCPPacket :=
  match flow with
  | None => (s, no_packet)
  | Some flow =>
      if bool_decide (fl_state flow = fakeTCPEstablished) then
        if (fp_ack packet =? fl_sendNext flow) && (uint32 (fp_seq packet + 1) =? fl_recvNext flow)
        then (put_flow s key (mkFlow (fl_state flow) (fl_sendNext flow) (fl_recvNext flow) (fl_receivedUnacked flow) now (fl_passive flow)),
              mkFake TCPFlagACK (fl_sendNext flow) (fl_recvNext flow) no_payload)
        else (s, no_packet)
      else if negb (fp_ack packet =? fl_sendNext flow) then (s, no_packet)
      else
        let recvNext := uint32 (fp_seq packet + 1) in
        (put_flow s key (mkFlow fakeTCPEstablished (fl_sendNext flow) recvNext (fl_receivedUnacked flow) now (fl_passive flow)),
         mkFake TCPFlagACK (fl_sendNext flow) recvNext no_payload)
  end.

(** A segment of an established connection: it is delivered whatever its number, which only moves
    what is acknowledged. *)
Definition receive_data (s : StdNetBind) (key : fakeTCPFlowKey) (flow : fakeTCPFlow) (packet : fakeTCPPacket) (now : Z)
    : StdNetBind * fakeTCPPacket * bool :=
  let n := len (bs_data (fp_payload packet)) in
  if n =? 0 then
    (put_flow s key (mkFlow (fl_state flow) (fl_sendNext flow) (fl_recvNext flow) (fl_receivedUnacked flow) now (fl_passive flow)), no_packet, false)
  else
    let end_ := uint32 (fp_seq packet + uint32 n) in
    let ahead := uint32 (end_ - fl_recvNext flow) in
    let newer := (0 <? ahead) && (ahead <? 2 ^ 31) in
    let unacked := if newer then uint64 (fl_receivedUnacked flow + ahead) else fl_receivedUnacked flow in
    let recvNext := if newer then end_ else fl_recvNext flow in
    if fakeTCPStandaloneACKAfter <=? unacked
    then (put_flow s key (mkFlow (fl_state flow) (fl_sendNext flow) recvNext 0 now (fl_passive flow)),
          mkFake TCPFlagACK (fl_sendNext flow) recvNext no_payload, true)
    else (put_flow s key (mkFlow (fl_state flow) (fl_sendNext flow) recvNext unacked now (fl_passive flow)), no_packet, true).

(** [handleFakeTCPPacket]: the bind, the segment to answer with, and whether the payload is delivered. *)
Definition handleFakeTCPPacket (s : StdNetBind) (ep : StdNetEndpoint) (packet : fakeTCPPacket) (now : Z) (rnd : list Z)
    : StdNetBind * fakeTCPPacket * bool :=
  let s := cleanupFakeTCPStatesLocked s now false in
  let '(key, flow) := findFakeTCPFlowLocked s ep in
  if has_flag (fp_flags packet) TCPFlagRST || has_flag (fp_flags packet) TCPFlagFIN
  then (set_states s (delete key (sb_fakeTCPStates s)) (sb_fakeTCPLastClean s), no_packet, false)
  else if has_flag (fp_flags packet) TCPFlagSYN then
    if negb (has_flag (fp_flags packet) TCPFlagACK) then (handle_syn s key flow packet now rnd, false)
    else (handle_syn_ack s key flow packet now, false)
  else
    match flow with
    | None => (s, no_packet, false)
    | Some flow =>
        let empty := len (bs_data (fp_payload packet)) =? 0 in
        let accepted := bool_decide (fl_state flow = fakeTCPSYNReceived) && has_flag (fp_flags packet) TCPFlagACK && (fp_ack packet =? fl_sendNext flow) in
        if accepted && negb empty && negb (fp_seq packet =? fl_recvNext flow) then (s, no_packet, false)
        else
          let flow := if accepted
                      then mkFlow fakeTCPEstablished (fl_sendNext flow) (fl_recvNext flow) (fl_receivedUnacked flow) now (fl_passive flow) else flow in
          if accepted && empty then (put_flow s key flow, no_packet, false)
          else if negb (bool_decide (fl_state flow = fakeTCPEstablished)) then (s, no_packet, false)
          else receive_data s key flow packet now
    end.

(** ** Segments on the wire *)

(** The carrier reuses the array of the payload when it is large enough; the source and the target of the
    copy then overlap. *)
Definition marshalFakeTCPPacket (packet : fakeTCPPacket) : option (list Z) :=
  let payload := bs_data (fp_payload packet) in
  let syn := has_flag (fp_flags packet) TCPFlagSYN in
  let data := (0 <? length payload)%nat in
  let length_ := (CarrierHeaderSize + length payload + (if syn then SYNOptionSize else if data then FrameHeaderSize else 0))%nat in
  let carrier := if data && (length_ <=? length payload + length (bs_spare (fp_payload packet)))%nat
                 then take length_ (payload ++ bs_spare (fp_payload packet)) else replicate length_ 0 in
  carrier ← (if data then copy_to carrier (CarrierHeaderSize + FrameHeaderSize) payload else Some carrier);
  carrier ← put16 carrier 0 CarrierMagic;
  carrier ← (if data then
               carrier ← put16 carrier CarrierHeaderSize (uint16 (Z.of_nat (length payload)));
               rest ← from carrier CarrierHeaderSize;
               put16 carrier 2 (FoldPayloadChecksum rest)
             else put8 carrier 3 (fp_flags packet));
  carrier ← put32 carrier 4 (fp_seq packet);
  carrier ← put32 carrier 8 (fp_ack packet);
  if syn then put_at carrier 12 [1; 3; 3; 14] else Some carrier.

Definition nextFakeTCPFrame (data : list Z) : option (list Z * list Z) :=
  if (length data <? FrameHeaderSize)%nat then None
  else
    let length_ := Z.to_nat (be_decode (take FrameHeaderSize data)) in
    if (length_ <? MinFramePayloadSize)%nat || (length data - FrameHeaderSize <? length_)%nat then None
    else
      let end_ := (FrameHeaderSize + length_)%nat in
      Some (slice FrameHeaderSize end_ data, drop end_ data).

(** A datagram handed to a socket: the connection it is written to, the destination with its source,
    and the bytes. *)
Record datagram := mkDatagram { dg_conn : Z; dg_ep : StdNetEndpoint; dg_data : list Z }.

(** [sendFakeTCPPackets], up to the write to the socket: the outer [option] is a panic, [inl] an error. *)
Definition sendFakeTCPPackets (s : StdNetBind) (ep : StdNetEndpoint) (packets : list fakeTCPPacket) : option (fake_error + list datagram) :=
  match (if addr_Is6 (ap_Addr (se_AddrPort ep)) then sb_fakeIPv6 s else sb_fakeIPv4 s) with
  | None => Some (inl ErrClosed)
  | Some conn =>
      carriers ← mapM marshalFakeTCPPacket packets;
      Some (inr (mkDatagram conn ep <$> carriers))
  end.

(** One packet for each buffer, each numbered behind the one before. *)
Fixpoint data_packets (bufs : list bslice) (sendNext recvNext : Z) : list fakeTCPPacket * Z :=
  match bufs with
  | [] => ([], sendNext)
  | buf :: bufs =>
      let '(packets, next) := data_packets bufs (uint32 (sendNext + uint32 (Z.of_nat (FrameHeaderSize + length (bs_data buf))))) recvNext in
      (mkFake TCPFlagACK sendNext recvNext buf :: packets, next)
  end.

Definition sendFakeTCPData (s : StdNetBind) (bufs : list bslice) (ep : StdNetEndpoint) : option (StdNetBind * (fake_error + list datagram)) :=
  match findFakeTCPFlowLocked s ep with
  | (key, Some flow) =>
      if negb (bool_decide (fl_state flow = fakeTCPEstablished)) then Some (s, inl ErrFakeTCPNotEstablished)
      else if (IdealBatchSize <? length bufs)%nat then None
      else
        let '(packets, next) := data_packets bufs (fl_sendNext flow) (fl_recvNext flow) in
        let s := put_flow s key (mkFlow (fl_state flow) next (fl_recvNext flow) 0 (fl_lastSeen flow) (fl_passive flow)) in
        sent ← sendFakeTCPPackets s ep packets;
        Some (s, sent)
  | (_, None) => Some (s, inl ErrFakeTCPNotEstablished)
  end.

(** The number of frames the payload is cut into, if it is a sequence of frames; the fuel is its length. *)
Fixpoint count_frames (fuel : nat) (remaining : list Z) : option nat :=
  match remaining, fuel with
  | [], _ => Some O
  | _, O => None
  | _, S fuel => '(_, next) ← nextFakeTCPFrame remaining; S <$> count_frames fuel next
  end.

(** What a datagram is: not a carrier, a carrier that is ignored, or a segment with a number of frames. *)
Inductive arrival := NotCarrier | BadCarrier | Segment (packet : fakeTCPPacket) (frames : nat).

Definition parse_carrier (carrier : list Z) : arrival :=
  if (length carrier <? 2)%nat || negb (be_decode (take 2 carrier) =? CarrierMagic) then NotCarrier
  else if (length carrier <? CarrierHeaderSize)%nat then BadCarrier
  else
    let flags := uint8 (be_decode (slice 2 4 carrier)) in
    let syn := has_flag flags TCPFlagSYN in
    if syn && (length carrier <? CarrierHeaderSize + SYNOptionSize)%nat then BadCarrier
    else
      let payload := drop (CarrierHeaderSize + (if syn then SYNOptionSize else 0)) carrier in
      match (if negb syn && (0 <? length payload)%nat then count_frames (length payload) payload else Some O) with
      | None => BadCarrier
      | Some frameCount =>
          Segment (mkFake flags (be_decode (slice 4 8 carrier)) (be_decode (slice 8 12 carrier)) (mkBslice payload [])) frameCount
      end.

(** [receiveFakeTCP]: the bind, the endpoint, what was sent in answer, the payload with the number of its frames,
    and whether the datagram was a carrier. *)
Definition receiveFakeTCP (s : StdNetBind) (carrier : list Z) (ep : StdNetEndpoint) (now : Z) (rnd : list Z)
    : option (StdNetBind * StdNetEndpoint * list datagram * (list Z * nat * bool)) :=
  match parse_carrier carrier with
  | NotCarrier => Some (s, ep, [], ([], O, false))
  | BadCarrier => Some (s, ep, [], ([], O, true))
  | Segment packet frameCount =>
      let ep := SetTransport ep TransportFakeTCP in
      let '(s, response, deliver) := handleFakeTCPPacket s ep packet now rnd in
      sent ← (if fp_flags response =? 0 then Some [] else
                r ← sendFakeTCPPackets s ep [response]; Some (match r with inl _ => [] | inr ds => ds end));
      Some (s, ep, sent, if deliver then (bs_data (fp_payload packet), frameCount, true) else ([], O, true))
  end.

(** ** Opening a connection *)

(** A connection the peer opened, for an endpoint without an address of its own: the one heard from last. *)
Definition passive_flow `{MapRange} (s : StdNetBind) (key : fakeTCPFlowKey) : option (fakeTCPFlowKey * fakeTCPFlow) :=
  foldl (λ (best : option (fakeTCPFlowKey * fakeTCPFlow)) (kf : fakeTCPFlowKey * fakeTCPFlow),
    let '(candidateKey, candidate) := kf in
    if negb (bool_decide (fk_remote candidateKey = fk_remote key)) || negb (fk_ifidx candidateKey =? fk_ifidx key) ||
       negb (addr_IsValid (fk_local candidateKey)) || addr_IsUnspecified (fk_local candidateKey) || negb (fl_passive candidate) then best
    else match best with
         | Some (_, flow) => if fl_lastSeen flow <? fl_lastSeen candidate then Some (candidateKey, candidate) else best
         | None => Some (candidateKey, candidate)
         end) None (map_range (sb_fakeTCPStates s)).

(** The SYN that is sent, again or for the first time. *)
Definition syn_packet (flow : fakeTCPFlow) : fakeTCPPacket :=
  if bool_decide (fl_state flow = fakeTCPSYNReceived)
  then mkFake (Z.lor TCPFlagSYN TCPFlagACK) (uint32 (fl_sendNext flow - 1)) (fl_recvNext flow) no_payload
  else mkFake TCPFlagSYN (uint32 (fl_sendNext flow - 1)) 0 no_payload.

(** [PrepareFakeTCP]: [None] as error is an established connection; an error of the write is joined to
    [ErrFakeTCPNotEstablished]. *)
Definition PrepareFakeTCP `{MapRange} (s : StdNetBind) (ep : StdNetEndpoint) (now : Z) (rnd : list Z)
    : option (StdNetBind * StdNetEndpoint * list datagram * option fake_error) :=
  if negb (sb_fakeTCPEnabled s) then Some (s, ep, [], Some ErrFakeTCPNotConfigured)
  else match sb_ipv4 s, sb_ipv6 s with
  | None, None => Some (s, ep, [], Some ErrClosed)
  | _, _ =>
      let key := fakeTCPKey ep in
      let s := cleanupFakeTCPStatesLocked s now false in
      let '(key, flow, ep) :=
        match sb_fakeTCPStates s !! key with
        | Some flow => (key, Some flow, ep)
        | None =>
            if addr_IsUnspecified (fk_local key) then
              match passive_flow s key with
              | Some (key, flow) => (key, Some flow, SetSrc ep (fk_local key) (fk_ifidx key))
              | None => (key, None, ep)
              end
            else (key, None, ep)
        end in
      let opening s flow :=
        let flow := mkFlow (fl_state flow) (fl_sendNext flow) (fl_recvNext flow) (fl_receivedUnacked flow) now (fl_passive flow) in
        let s := put_flow s key flow in
        r ← sendFakeTCPPackets s ep [syn_packet flow];
        Some (s, ep, match r with inl _ => [] | inr ds => ds end, Some ErrFakeTCPNotEstablished) in
      match flow with
      | Some flow => if bool_decide (fl_state flow = fakeTCPEstablished) then Some (s, ep, [], None) else opening s flow
      | None =>
          let '(s, room) := make_room s now in
          if room then opening s (mkFlow fakeTCPSYNSent (uint32 (fakeTCPRandomISN rnd + 1)) 0 0 ZeroTime false)
          else Some (s, ep, [], Some ErrFakeTCPStateLimit)
      end
  end.
