(* ===== verification/Transformer.v ===== *)
(** The eBPF programs of [polyamide/faketcp/transformer.c]: on the way out a carrier becomes a TCP segment,
    on the way in a TCP segment becomes a carrier.  Offsets are in bytes, fields are read in network byte order.
    The verifier of the kernel admits no access outside a packet, so reading is total. *)

From S2P Require Import Prelude Bytes Offload FakeTcp.

(** ** The kernel *)

(** A packet: all its bytes, how many of them are mapped at [skb->data], and how many segments it
    stands for. *)
Record sk_buff := mkSkb { sk_bytes : list Z; sk_linear : nat; sk_gso_segs : Z }.

(** The helper functions, which may fail: [bpf_skb_pull_data] maps more bytes, [bpf_skb_store_bytes] overwrites some,
    [bpf_csum_level] concerns the checksum that the device has verified. *)
Class Bpf := {
  bpf_skb_pull_data : sk_buff → nat → option sk_buff;
  bpf_skb_store_bytes : sk_buff → nat → list Z → option sk_buff;
  bpf_csum_level : sk_buff → option sk_buff;
}.

Class BpfLaws `{Bpf} := {
  pull_data_spec : ∀ skb n skb', bpf_skb_pull_data skb n = Some skb' → sk_bytes skb' = sk_bytes skb ∧ sk_gso_segs skb' = sk_gso_segs skb ∧ (n <= sk_linear skb' <= length (sk_bytes skb))%nat;
  store_bytes_spec : ∀ skb i bs skb', bpf_skb_store_bytes skb i bs = Some skb' →
    sk_bytes skb' = write_at i bs (sk_bytes skb) ∧ sk_gso_segs skb' = sk_gso_segs skb ∧ (i + length bs <= length (sk_bytes skb))%nat;
  csum_level_spec : ∀ skb skb', bpf_csum_level skb = Some skb' → sk_bytes skb' = sk_bytes skb;
}.

(** Helpers that succeed whenever the packet is long enough. *)
Definition plain_bpf : Bpf := {|
  bpf_skb_pull_data skb n := if (n <=? length (sk_bytes skb))%nat then Some (mkSkb (sk_bytes skb) (length (sk_bytes skb)) (sk_gso_segs skb)) else None;
  bpf_skb_store_bytes skb i bs :=
    if (i + length bs <=? length (sk_bytes skb))%nat then Some (mkSkb (write_at i bs (sk_bytes skb)) (sk_linear skb) (sk_gso_segs skb)) else None;
  bpf_csum_level skb := Some skb;
|}.

#[export] Instance plain_bpf_laws : BpfLaws (H := plain_bpf).
Proof.
  split; cbn.
  - intros skb n skb'. case_goal; [|done]. intros [= <-]. apply Nat.leb_le in Heqb. cbn. repeat split; lia.
  - intros skb i bs skb'. case_goal; [|done]. intros [= <-]. apply Nat.leb_le in Heqb. done.
  - by intros skb skb' [= <-].
Qed.

Inductive verdict := TCX_NEXT | TCX_DROP.

(** ** Headers *)

Definition u8 (b : list Z) (i : nat) : Z := default 0 (b !! i).
Definition be16 (b : list Z) (i : nat) : Z := be_decode (slice i (i + 2) b).
Definition be32 (b : list Z) (i : nat) : Z := be_decode (slice i (i + 4) b).

Definition ETH_P_IP : Z := 0x0800.
Definition ETH_P_IPV6 : Z := 0x86dd.
Definition sizeof_eth_header : nat := 14.
Definition sizeof_ipv4_header : nat := 20.
Definition sizeof_ipv6_header : nat := 40.
Definition sizeof_tcp_header : nat := 20.
Definition sizeof_udp_carrier : nat := 20.

Record udp_carrier := mkCarrier {
  uc_source : Z; uc_destination : Z; uc_length : Z; uc_checksum : Z; uc_magic : Z; uc_meta : Z; uc_sequence : Z; uc_acknowledgement : Z;
}.

Definition read_carrier (b : list Z) (i : nat) : udp_carrier :=
  mkCarrier (be16 b i) (be16 b (i + 2)) (be16 b (i + 4)) (be16 b (i + 6)) (be16 b (i + 8)) (be16 b (i + 10)) (be32 b (i + 12)) (be32 b (i + 16)).

Definition carrier_bytes (c : udp_carrier) : list Z :=
  be_encode 2 (uc_source c) ++ be_encode 2 (uc_destination c) ++ be_encode 2 (uc_length c) ++ be_encode 2 (uc_checksum c) ++
  be_encode 2 (uc_magic c) ++ be_encode 2 (uc_meta c) ++ be_encode 4 (uc_sequence c) ++ be_encode 4 (uc_acknowledgement c).

Record tcp_header := mkTcp {
  th_source : Z; th_destination : Z; th_sequence : Z; th_acknowledgement : Z; th_data_offset : Z; th_flags : Z; th_window : Z; th_checksum : Z; th_urgent : Z;
}.

Definition read_tcp (b : list Z) (i : nat) : tcp_header :=
  mkTcp (be16 b i) (be16 b (i + 2)) (be32 b (i + 4)) (be32 b (i + 8)) (u8 b (i + 12)) (u8 b (i + 13)) (be16 b (i + 14)) (be16 b (i + 16)) (be16 b (i + 18)).

Definition tcp_bytes (t : tcp_header) : list Z :=
  be_encode 2 (th_source t) ++ be_encode 2 (th_destination t) ++ be_encode 4 (th_sequence t) ++ be_encode 4 (th_acknowledgement t) ++
  [th_data_offset t; th_flags t] ++ be_encode 2 (th_window t) ++ be_encode 2 (th_checksum t) ++ be_encode 2 (th_urgent t).

Record packet_info := mkInfo {
  pi_l3_offset : nat;
  pi_l4_offset : nat;
  pi_l4_length : nat;
  pi_version : Z;
  pi_protocol : Z;
  pi_standard : bool;
}.

(** ** Checksums

    Sums are taken without bound and cut to 32 bits where they are used, which is the sum of 32 bits. *)

(** [add_be32] adds both halves. *)
Definition halves (value : Z) : Z := Z.shiftr value 16 + Z.land value 0xffff.

(** [(~x) & 0xffff]. *)
Definition inverse16 (x : Z) : Z := 0xffff - x.

Definition finish_checksum (sum : Z) : Z :=
  let sum := uint32 sum in
  let sum := Z.land sum 0xffff + Z.shiftr sum 16 in
  let sum := Z.land sum 0xffff + Z.shiftr sum 16 in
  let checksum := inverse16 (uint16 sum) in
  if checksum =? 0 then 0xffff else checksum.

Definition ipv4_checksum (ip : list Z) : Z :=
  finish_checksum (Z.shiftl (u8 ip 0) 8 + u8 ip 1 + be16 ip 2 + be16 ip 4 + be16 ip 6 + (Z.shiftl (u8 ip 8) 8 + u8 ip 9) + halves (be32 ip 12) + halves (be32 ip 16)).

Definition tcp_header_sum (t : tcp_header) (sum : Z) : Z :=
  sum + th_source t + th_destination t + halves (th_sequence t) + halves (th_acknowledgement t) + (Z.shiftl (th_data_offset t) 8 + th_flags t) + th_window t + th_urgent t.

Definition subtract_tcp_header (t : tcp_header) (sum : Z) : Z :=
  sum + inverse16 (th_source t) + inverse16 (th_destination t) +
  (inverse16 (Z.shiftr (th_sequence t) 16) + inverse16 (Z.land (th_sequence t) 0xffff)) +
  (inverse16 (Z.shiftr (th_acknowledgement t) 16) + inverse16 (Z.land (th_acknowledgement t) 0xffff)) +
  inverse16 (Z.shiftl (th_data_offset t) 8 + th_flags t) + inverse16 (th_window t) + inverse16 (th_urgent t).

Definition carrier_header_sum (c : udp_carrier) (sum : Z) : Z :=
  sum + uc_source c + uc_destination c + uc_length c + uc_magic c + uc_meta c + halves (uc_sequence c) + halves (uc_acknowledgement c).

(** The addresses of the pseudo header. *)
Fixpoint pairs_sum (n : nat) (b : list Z) (i : nat) : Z :=
  match n with
  | O => 0
  | S n => Z.shiftl (u8 b i) 8 + u8 b (i + 1) + pairs_sum n b (i + 2)
  end.

Definition tcp_checksum (data : list Z) (info : packet_info) (t : tcp_header) (payload_sum option_word_one option_word_two : Z) : Z :=
  let sum := payload_sum + IPPROTO_TCP + Z.of_nat (pi_l4_length info) in
  let at_ := pi_l3_offset info in
  let sum := if pi_version info =? 4 then sum + halves (be32 data (at_ + 12)) + halves (be32 data (at_ + 16))
             else sum + (pairs_sum 8 data (at_ + 8) + pairs_sum 8 data (at_ + 24)) in
  finish_checksum (tcp_header_sum t sum + option_word_one + option_word_two).

(** ** The programs *)

Section programs.
Context `{Bpf} (managed_port : Z).

(** [if (data + n > data_end)] pull, and fail if that fails. *)
Definition mapped (skb : sk_buff) (n : nat) : option sk_buff :=
  if (sk_linear skb <? n)%nat then bpf_skb_pull_data skb n else Some skb.

Definition parse_packet (skb : sk_buff) (l3_offset : nat) : option (sk_buff * packet_info) :=
  skb ← mapped skb (l3_offset + sizeof_ipv6_header);
  if (sk_linear skb <? l3_offset + sizeof_ipv6_header)%nat then None
  else
    let data := sk_bytes skb in
    version ← (if (l3_offset =? sizeof_eth_header)%nat then
                 if be16 data 12 =? ETH_P_IP then Some 4 else if be16 data 12 =? ETH_P_IPV6 then Some 6 else None
               else
                 let version := Z.shiftr (u8 data 0) 4 in
                 if negb (version =? 4) && negb (version =? 6) then None else Some version);
    if version =? 4 then
      let version_ihl := u8 data l3_offset in
      if negb (Z.shiftr version_ihl 4 =? 4) then None
      else
        let ihl := Z.to_nat (Z.land version_ihl 0xf * 4) in
        let total_length := Z.to_nat (be16 data (l3_offset + 2)) in
        if (ihl <? sizeof_ipv4_header)%nat || (total_length <? ihl)%nat || (length data <? l3_offset + total_length)%nat then None
        else Some (skb, mkInfo l3_offset (l3_offset + ihl) (total_length - ihl) 4 (u8 data (l3_offset + 9))
                          ((ihl =? sizeof_ipv4_header)%nat && (Z.land (be16 data (l3_offset + 6)) 0x3fff =? 0)))
    else
      if negb (Z.shiftr (be32 data l3_offset) 28 =? 6) then None
      else
        let payload_length := Z.to_nat (be16 data (l3_offset + 4)) in
        if (length data <? l3_offset + sizeof_ipv6_header + payload_length)%nat then None
        else Some (skb, mkInfo l3_offset (l3_offset + sizeof_ipv6_header) payload_length 6 (u8 data (l3_offset + 6)) true).

(** The IPv4 header is written back as a whole with its checksum; of IPv6 only the next header changes. *)
Definition update_ip_protocol (skb : sk_buff) (info : packet_info) (protocol : Z) (ipv4 : list Z) : option sk_buff :=
  if pi_version info =? 4 then
    let ipv4 := write_at 9 [protocol] ipv4 in
    let ipv4 := write_at 10 [0; 0] ipv4 in
    let ipv4 := write_at 10 (be_encode 2 (ipv4_checksum ipv4)) ipv4 in
    bpf_skb_store_bytes skb (pi_l3_offset info) ipv4
  else bpf_skb_store_bytes skb (pi_l3_offset info + 6) [protocol].

(** The option of a SYN: padding and window scaling by 14. *)
Definition syn_option (data : list Z) (i : nat) : bool :=
  (u8 data i =? 1) && (u8 data (i + 1) =? 3) && (u8 data (i + 2) =? 3) && (u8 data (i + 3) =? 14).

(** What the carrier asks for: the offset and the flags of the TCP header, the sum of what follows it and the words
    of the option; [None] is a packet to drop. *)
Definition egress_kind (skb : sk_buff) (info : packet_info) (meta : Z) : option (Z * Z * Z * Z * Z) :=
  let data := sk_bytes skb in
  if (pi_l4_length info =? sizeof_udp_carrier + 4)%nat then
    let at_ := (pi_l4_offset info + sizeof_udp_carrier)%nat in
    if ((meta =? TCPFlagSYN) || (meta =? Z.lor TCPFlagSYN TCPFlagACK)) && (at_ + 4 <=? sk_linear skb)%nat && syn_option data at_
    then Some (0x60, uint8 meta, 0, be16 data at_, be16 data (at_ + 2))
    else Some (0x50, TCPFlagACK, meta, 0, 0)
  else if (pi_l4_length info =? sizeof_udp_carrier)%nat then
    if meta =? TCPFlagACK then Some (0x50, TCPFlagACK, 0, 0, 0) else None
  else Some (0x50, TCPFlagACK, meta, 0, 0).

Definition transform_egress (skb : sk_buff) (l3_offset : nat) : sk_buff * verdict :=
  match parse_packet skb l3_offset with
  | None => (skb, TCX_NEXT)
  | Some (skb, info) =>
      if negb (pi_protocol info =? IPPROTO_UDP) || (pi_l4_length info <? sizeof_udp_carrier)%nat then (skb, TCX_NEXT)
      else
        let pull_length := (pi_l4_offset info + sizeof_tcp_header + (if (sizeof_tcp_header + 4 <=? pi_l4_length info)%nat then 4 else 0))%nat in
        if (pi_l3_offset info + 60 + sizeof_tcp_header + 4 <? pull_length)%nat then (skb, TCX_NEXT)
        else match mapped skb pull_length with
        | None => (skb, TCX_NEXT)
        | Some skb =>
            let data := sk_bytes skb in
            let carrier := read_carrier data (pi_l4_offset info) in
            if (sk_linear skb <? pi_l4_offset info + sizeof_udp_carrier)%nat || negb (uc_magic carrier =? CarrierMagic) || negb (uc_checksum carrier =? 0)
            then (skb, TCX_NEXT)
            else if negb (uc_source carrier =? managed_port) then (skb, TCX_NEXT)
            else if negb (pi_standard info) || (1 <? sk_gso_segs skb) || negb (uc_length carrier =? Z.of_nat (pi_l4_length info)) then (skb, TCX_DROP)
            else match egress_kind skb info (uc_meta carrier) with
            | None => (skb, TCX_DROP)
            | Some (data_offset, flags, payload_sum, option_one, option_two) =>
                if (pi_version info =? 4) && (sk_linear skb <? pi_l3_offset info + sizeof_ipv4_header)%nat then (skb, TCX_DROP)
                else
                  let ipv4 := slice (pi_l3_offset info) (pi_l3_offset info + sizeof_ipv4_header) data in
                  let tcp checksum := mkTcp (uc_source carrier) (uc_destination carrier) (uc_sequence carrier) (uc_acknowledgement carrier) data_offset flags 0xffff checksum 0 in
                  let checksum := tcp_checksum data info (tcp 0) payload_sum option_one option_two in
                  match bpf_skb_store_bytes skb (pi_l4_offset info) (tcp_bytes (tcp checksum)) with
                  | None => (skb, TCX_DROP)
                  | Some skb =>
                      match update_ip_protocol skb info IPPROTO_TCP ipv4 with
                      | None => (skb, TCX_DROP)
                      | Some skb => (skb, TCX_NEXT)
                      end
                  end
            end
        end
  end.

Definition fake_tcp_egress (skb : sk_buff) : sk_buff * verdict := transform_egress skb sizeof_eth_header.
Definition fake_tcp_egress_l3 (skb : sk_buff) : sk_buff * verdict := transform_egress skb 0.

(** The segments that are let in: a SYN with one of two option lists, or a plain header with flags that fit. *)
Definition segment_accepted (skb : sk_buff) (info : packet_info) (flags : Z) (header_length : nat) : bool :=
  let data := sk_bytes skb in
  let at_ := (pi_l4_offset info + sizeof_tcp_header)%nat in
  if (flags =? TCPFlagSYN) || (flags =? Z.lor TCPFlagSYN TCPFlagACK) then
    let canonical := (header_length =? sizeof_tcp_header + 4)%nat && (at_ + 4 <=? sk_linear skb)%nat && syn_option data at_ in
    let with_mss := (header_length =? sizeof_tcp_header + 8)%nat && (at_ + 8 <=? sk_linear skb)%nat && (u8 data at_ =? 2) && (u8 data (at_ + 1) =? 4) && syn_option data (at_ + 4) in
    (pi_l4_length info =? header_length)%nat && (canonical || with_mss)
  else
    (header_length =? sizeof_tcp_header)%nat &&
    (if (pi_l4_length info =? header_length)%nat
     then (flags =? TCPFlagACK) || (flags =? Z.lor TCPFlagFIN TCPFlagACK) || (flags =? TCPFlagRST) || (flags =? Z.lor TCPFlagRST TCPFlagACK)
     else flags =? TCPFlagACK).

(** The checksum of the carrier, derived from that of the segment without looking at the payload. *)
Definition ingress_checksum (t : tcp_header) (c : udp_carrier) : Z :=
  let sum := inverse16 (th_checksum t) in
  let sum := subtract_tcp_header t sum in
  let sum := sum + inverse16 IPPROTO_TCP in
  let sum := carrier_header_sum c sum in
  finish_checksum (sum + IPPROTO_UDP).

Definition transform_ingress (skb : sk_buff) (l3_offset : nat) : sk_buff * verdict :=
  match parse_packet skb l3_offset with
  | None => (skb, TCX_NEXT)
  | Some (skb, info) =>
      if negb (pi_protocol info =? IPPROTO_TCP) || (pi_l4_length info <? sizeof_tcp_header)%nat then (skb, TCX_NEXT)
      else match mapped skb (pi_l4_offset info + sizeof_tcp_header) with
      | None => (skb, TCX_NEXT)
      | Some skb =>
          let tcp := read_tcp (sk_bytes skb) (pi_l4_offset info) in
          if (sk_linear skb <? pi_l4_offset info + sizeof_tcp_header)%nat || negb (th_destination tcp =? managed_port) then (skb, TCX_NEXT)
          else if negb (pi_standard info) then (skb, TCX_DROP)
          else
            let header_length := Z.to_nat (Z.shiftr (th_data_offset tcp) 4 * 4) in
            if negb (Z.land (th_data_offset tcp) 0xf =? 0) || (header_length <? sizeof_tcp_header)%nat || (60 <? header_length)%nat ||
               (pi_l4_length info <? header_length)%nat then (skb, TCX_DROP)
            else match mapped skb (pi_l4_offset info + header_length) with
            | None => (skb, TCX_DROP)
            | Some skb =>
                if (sk_linear skb <? pi_l4_offset info + header_length)%nat then (skb, TCX_DROP)
                else if negb (segment_accepted skb info (th_flags tcp) header_length) then (skb, TCX_DROP)
                else
                  let carrier checksum := mkCarrier (th_source tcp) (th_destination tcp) (Z.of_nat (pi_l4_length info)) checksum CarrierMagic (th_flags tcp)
                                            (th_sequence tcp) (th_acknowledgement tcp) in
                  let checksum := if sk_gso_segs skb <=? 1 then ingress_checksum tcp (carrier 0) else 0 in
                  if (pi_version info =? 4) && (sk_linear skb <? pi_l3_offset info + sizeof_ipv4_header)%nat then (skb, TCX_DROP)
                  else
                    let ipv4 := slice (pi_l3_offset info) (pi_l3_offset info + sizeof_ipv4_header) (sk_bytes skb) in
                    match bpf_skb_store_bytes skb (pi_l4_offset info) (carrier_bytes (carrier checksum)) with
                    | None => (skb, TCX_DROP)
                    | Some skb =>
                        match update_ip_protocol skb info IPPROTO_UDP ipv4 with
                        | None => (skb, TCX_DROP)
                        | Some skb =>
                            match bpf_csum_level skb with
                            | None => (skb, TCX_DROP)
                            | Some skb => (skb, TCX_NEXT)
                            end
                        end
                    end
            end
      end
  end.

Definition fake_tcp_ingress (skb : sk_buff) : sk_buff * verdict := transform_ingress skb sizeof_eth_header.
Definition fake_tcp_ingress_l3 (skb : sk_buff) : sk_buff * verdict := transform_ingress skb 0.

End programs.
