(* ===== verification/CarrierProps.v ===== *)
(** The carrier of fake TCP: the checksum of the payload, what [marshalFakeTCPPacket] writes and how a
    carrier with the flags of the segment is read. *)

From S2P Require Import Prelude Bytes Checksum NetIP Metric Routing Endpoint Offload OffloadSplit FakeTcp.

(** ** Definitions *)

(** A carrier: the fields behind the UDP header. *)
Definition carrier_of (meta seq ack : Z) (rest : list Z) : list Z :=
  be_encode 2 CarrierMagic ++ be_encode 2 meta ++ be_encode 4 seq ++ be_encode 4 ack ++ rest.

(** A frame: the payload behind its length. *)
Definition frame_of (payload : list Z) : list Z := be_encode 2 (Z.of_nat (length payload)) ++ payload.

(** What follows the header of a segment. *)
Definition rest_of (packet : fakeTCPPacket) : list Z :=
  if has_flag (fp_flags packet) TCPFlagSYN then [1; 3; 3; 14]
  else match bs_data (fp_payload packet) with [] => [] | payload => frame_of payload end.

(** The segments the bind sends. *)
Inductive sendable (packet : fakeTCPPacket) : Prop :=
  | send_syn : fp_flags packet = TCPFlagSYN → bs_data (fp_payload packet) = [] → sendable packet
  | send_syn_ack : fp_flags packet = Z.lor TCPFlagSYN TCPFlagACK → bs_data (fp_payload packet) = [] → sendable packet
  | send_ack : fp_flags packet = TCPFlagACK → bs_data (fp_payload packet) = [] → sendable packet
  | send_data : fp_flags packet = TCPFlagACK → (MinFramePayloadSize <= length (bs_data (fp_payload packet)))%nat →
      Z.of_nat (length (bs_data (fp_payload packet))) < 65536 → Forall is_byte (bs_data (fp_payload packet)) → sendable packet.

(** The meta field: the flags, or the sum of what follows. *)
Definition meta_of (packet : fakeTCPPacket) : Z :=
  match bs_data (fp_payload packet) with [] => fp_flags packet | _ => ones_sum (word_sum (rest_of packet)) end.

(** ** The checksum *)

Lemma fold_carries_iter n : ∀ s, 0 <= s → fold_carries n s = Nat.iter n fold16 s.
Proof.
  induction n as [|n IH]; intros s Hs; [done|]. cbn [fold_carries]. destruct (Z.eqb_spec (Z.shiftr s 16) 0) as [E|E].
  - assert (fold16 s = s) as Hf.
    { rewrite fold16_eq by done. rewrite Z.shiftr_div_pow2 in E by lia. change (2 ^ 16) with 65536 in E. Z.to_euclidean_division_equations. lia. }
    clear E IH. induction (S n) as [|m IHm]; [done|]. change (s = fold16 (Nat.iter m fold16 s)). by rewrite <- IHm.
  - replace (Z.land s 0xffff + Z.shiftr s 16) with (fold16 s) by (unfold fold16; lia).
    rewrite IH by (pose proof (fold16_same s Hs) as (? & _); done). by rewrite Nat.iter_succ_r.
Qed.

(** What is summed so far and what is left add up, and there is room for what is left. *)
Definition sum_inv (total : Z) (st : list Z * Z) : Prop :=
  Forall is_byte st.1 ∧ 0 <= st.2 ∧ st.2 + 2 ^ 30 * Z.of_nat (length st.1) < 2 ^ 64 ∧ same_sum (st.2 + word_sum st.1) total.

Lemma sum_step k total payload sum v : sum_inv total (payload, sum) → (k <= length payload)%nat → Nat.Even k → 0 <= v <= 2 ^ 30 * Z.of_nat k →
  same_sum v (word_sum (take k payload)) → sum_inv total (drop k payload, uint64 (sum + v)).
Proof.
  intros (Hb & Hs & Hroom & Hsame) Hk He Hv Hw. cbn [fst snd] in *. rewrite wrap_small by (unfold in_width; lia). unfold sum_inv. cbn [fst snd].
  split; [by apply Forall_drop|]. split; [lia|]. split; [rewrite length_drop; lia|]. eapply same_sum_trans; [|exact Hsame].
  rewrite <- (take_drop k payload) at 2. rewrite word_sum_app by (by rewrite length_take_le by lia). rewrite <- Z.add_assoc.
  apply same_sum_add; [by apply same_sum_refl|]. apply same_sum_add; [done|]. apply same_sum_refl, word_sum_pos. by apply Forall_drop.
Qed.

Lemma be_decode_sum b : Forall is_byte b → Nat.Even (length b) → same_sum (be_decode b) (word_sum b).
Proof. intros Hb He. rewrite word_sum_nsum. by apply (native_decode_sum false). Qed.

Lemma sum_words_inv total n : ∀ payload sum, (4 * n <= length payload)%nat → sum_inv total (payload, sum) →
  sum_inv total (drop (4 * n) payload, sum_words n payload sum).
Proof.
  induction n as [|n IH]; intros payload sum Hl Hinv; [done|]. cbn [sum_words].
  replace (drop (4 * S n) payload) with (drop (4 * n) (drop 4 payload)) by (rewrite drop_drop; f_equal; lia).
  apply IH; [rewrite length_drop; lia|]. pose proof Hinv as (Hb & _). cbn [fst] in Hb.
  assert (Forall is_byte (take 4 payload)) as Ht by by apply Forall_take.
  assert (length (take 4 payload) = 4%nat) as Hl4 by (rewrite length_take_le by lia; done).
  eapply sum_step; [done|lia|by exists 2%nat| |].
  - pose proof (be_decode_range _ Ht) as Hr. rewrite Hl4 in Hr. change (256 ^ Z.of_nat 4) with (2 ^ 32) in Hr. lia.
  - apply be_decode_sum; [done|]. rewrite Hl4. by exists 2%nat.
Qed.

Lemma sum_blocks_inv total n fuel : (1 <= n)%nat → ∀ payload sum, (length payload <= fuel)%nat → sum_inv total (payload, sum) →
  sum_inv total (sum_blocks n fuel payload sum) ∧ (length (sum_blocks n fuel payload sum).1 < 4 * n)%nat.
Proof.
  intros Hn. induction fuel as [|fuel IH]; intros payload sum Hf Hinv; cbn [sum_blocks]; [split; [done|cbn; lia]|].
  destruct (Nat.leb_spec (4 * n) (length payload)) as [Hge|Hlt]; [|done].
  apply IH; [rewrite length_drop; lia|by apply sum_words_inv].
Qed.

(** The sum of the payload is the one's-complement sum of its words. *)
Lemma FoldPayloadChecksum_sum payload : Forall is_byte payload → Z.of_nat (length payload) < 2 ^ 32 →
  FoldPayloadChecksum payload = ones_sum (word_sum payload).
Proof.
  intros Hb Hl. unfold FoldPayloadChecksum.
  assert (sum_inv (word_sum payload) (payload, 0)) as H0.
  { unfold sum_inv. cbn [fst snd]. split; [done|]. split; [done|]. split; [lia|]. apply same_sum_refl. by apply word_sum_pos. }
  pose proof (sum_blocks_inv _ 8 (length payload) ltac:(lia) payload 0 (le_n _) H0) as [H1 _].
  destruct (sum_blocks 8 (length payload) payload 0) as [p1 s1].
  pose proof (sum_blocks_inv _ 1 (length p1) ltac:(lia) p1 s1 (le_n _) H1) as [H2 L2].
  destruct (sum_blocks 1 (length p1) p1 s1) as [p2 s2]. cbn [fst] in L2.
  destruct (if (2 <=? length p2)%nat then (drop 2 p2, uint64 (s2 + be_decode (take 2 p2))) else (p2, s2)) as [p3 s3] eqn:E3.
  assert (sum_inv (word_sum payload) (p3, s3) ∧ (length p3 < 2)%nat) as [H3 L3].
  { revert E3. destruct (Nat.leb_spec 2 (length p2)) as [Hge|Hlt]; intros [= <- <-]; [|done]. split; [|rewrite length_drop; lia].
    pose proof H2 as (Hb2 & _). cbn [fst] in Hb2. assert (Forall is_byte (take 2 p2)) as Ht by by apply Forall_take.
    assert (length (take 2 p2) = 2%nat) as Hl2 by (rewrite length_take_le by lia; done).
    eapply sum_step; [done|lia|by exists 1%nat| |].
    - pose proof (be_decode_range _ Ht) as Hr. rewrite Hl2 in Hr. change (256 ^ Z.of_nat 2) with 65536 in Hr. lia.
    - apply be_decode_sum; [done|]. rewrite Hl2. by exists 1%nat. }
  clear E3 H2 H1 H0 L2. destruct H3 as (Hb3 & Hs3 & Hr3 & Hsame). cbn [fst snd] in *.
  set (s4 := match p3 with [b] => uint64 (s3 + Z.shiftl b 8) | _ => s3 end).
  assert (same_sum s4 (word_sum payload) ∧ 0 <= s4 < 2 ^ 64) as [Hs4 Hr4].
  { unfold s4. destruct p3 as [|b [|? ?]]; cbn in L3; [|..|lia].
    - cbn in Hsame, Hr3. rewrite Z.add_0_r in Hsame. split; [done|lia].
    - apply Forall_cons in Hb3 as [Hb3 _]. unfold is_byte, is_u8, in_width in Hb3. rewrite Z.shiftl_mul_pow2 by lia. cbn in Hsame, Hr3.
      change (2 ^ 8) with 256. rewrite wrap_small by (unfold in_width; lia). replace (s3 + b * 256) with (s3 + 256 * b) by lia. split; [done|lia]. }
  rewrite fold_carries_iter by lia. change (Nat.iter 4 fold16 s4) with (fold16 (fold16 (fold16 (fold16 s4)))).
  pose proof (fold16_four s4 Hr4) as H4. rewrite wrap_small by (unfold in_width; lia).
  rewrite <- (ones_sum_small (fold16 _)) by done. apply ones_sum_same.
  assert (∀ y z, same_sum y z → same_sum (fold16 y) z) as Hfold.
  { intros y z Hy. eapply same_sum_trans; [apply fold16_same, Hy|done]. }
  by do 4 apply Hfold.
Qed.

(** ** Writing *)

Lemma explode_12 {A} (l : list A) : length l = 12%nat → ∃ a b c d e f g h i j k m, l = [a; b; c; d; e; f; g; h; i; j; k; m].
Proof. intros H. do 12 (destruct l as [|? l]; [done|]). destruct l; [|done]. by do 12 eexists. Qed.

Lemma frame_of_bytes payload : Forall is_byte payload → Forall is_byte (frame_of payload).
Proof. intros. apply Forall_app. split; [apply be_encode_bytes|done]. Qed.

(** The array that is reused, or a new one. *)
Lemma marshal_array payload spare n : (length payload <= n)%nat →
  length (if (0 <? length payload)%nat && (n <=? length payload + length spare)%nat then take n (payload ++ spare) else replicate n 0) = n.
Proof.
  intros H. destruct (Nat.leb_spec n (length payload + length spare)).
  - destruct (0 <? length payload)%nat; cbn [andb]; [|apply length_replicate]. rewrite length_take_le; [done|]. rewrite length_app. lia.
  - rewrite andb_false_r. apply length_replicate.
Qed.

Lemma marshal_data packet : has_flag (fp_flags packet) TCPFlagSYN = false → bs_data (fp_payload packet) ≠ [] →
  Z.of_nat (length (bs_data (fp_payload packet))) < 65536 →
  marshalFakeTCPPacket packet =
    Some (carrier_of (FoldPayloadChecksum (frame_of (bs_data (fp_payload packet)))) (fp_seq packet) (fp_ack packet) (frame_of (bs_data (fp_payload packet)))).
Proof.
  intros Hsyn Hne Hl. unfold marshalFakeTCPPacket. rewrite Hsyn. set (payload := bs_data (fp_payload packet)) in *.
  assert ((0 <? length payload)%nat = true) as Hpos by (destruct payload; [done|by apply Nat.ltb_lt; cbn; lia]).
  pose proof (marshal_array payload (bs_spare (fp_payload packet)) (CarrierHeaderSize + length payload + FrameHeaderSize) ltac:(unfold CarrierHeaderSize, FrameHeaderSize; lia)) as Hlen.
  rewrite Hpos in *. cbv iota in *. cbn [andb] in *.
  match type of Hlen with length ?x = _ => generalize dependent x; intros X Hlen end. unfold CarrierHeaderSize, FrameHeaderSize in *.
  assert (∃ H0 l R, X = H0 ++ l ++ R ∧ length H0 = 12%nat ∧ length l = 2%nat ∧ length R = length payload) as (H0 & l & R & -> & HH & Hl2 & HR).
  { exists (take 12 X), (slice 12 14 X), (drop 14 X). rewrite !length_take_le, length_drop, length_slice by lia. split; [|lia].
    unfold slice. rewrite <- (take_drop 12 X) at 1. f_equal. rewrite <- (take_drop 2 (drop 12 X)) at 1. by rewrite drop_drop. }
  clearbody payload. clear Hlen. apply explode_12 in HH as (? & ? & ? & ? & ? & ? & ? & ? & ? & ? & ? & ? & ->).
  destruct l as [|l0 [|l1 [|? ?]]]; try done. clear Hl2.
  rewrite app_assoc, copy_to_app by (cbn; lia). cbn [mbind option_bind]. rewrite drop_ge, app_nil_r by lia.
  unfold put16, put32. rewrite put_at_app_l by (cbn; lia). cbn [mbind option_bind].
  rewrite put_at_app_l by (cbn; lia). cbn [mbind option_bind]. rewrite from_Some by (rewrite length_app; cbn; lia). cbn [mbind option_bind].
  rewrite wrap_small by (unfold in_width; lia).
  assert (∀ h b : list Z, length h = 12%nat → drop 12 (h ++ b) = b) as Hdrop by (intros h b <-; apply drop_app_length).
  match goal with |- context [drop 12 (write_at 12 ?bs ?h ++ payload)] =>
    replace (drop 12 (write_at 12 bs h ++ payload)) with (frame_of payload) by done end.
  rewrite put_at_app_l by (cbn; lia). cbn [mbind option_bind]. rewrite put_at_app_l by (cbn; lia). cbn [mbind option_bind].
  rewrite put_at_app_l by (cbn; lia). done.
Qed.

Lemma marshal_control packet : bs_data (fp_payload packet) = [] → is_u8 (fp_flags packet) →
  marshalFakeTCPPacket packet = Some (carrier_of (fp_flags packet) (fp_seq packet) (fp_ack packet) (rest_of packet)).
Proof.
  intros Hp Hf. unfold marshalFakeTCPPacket, rest_of. rewrite Hp. cbn [length Nat.ltb Nat.leb andb].
  assert (be_encode 2 (fp_flags packet) = [0; fp_flags packet]) as Hfl.
  { unfold is_u8, in_width in Hf. cbn [be_encode]. change (256 ^ Z.of_nat 1) with 256. change (256 ^ Z.of_nat 0) with 1.
    rewrite Z.div_1_r, (Z.div_small (fp_flags packet) 256), Zmod_0_l, Z.mod_small by lia. done. }
  unfold carrier_of. rewrite Hfl. by destruct (has_flag (fp_flags packet) TCPFlagSYN).
Qed.

Lemma rest_of_bytes packet : sendable packet → Forall is_byte (rest_of packet).
Proof.
  intros Hs. unfold rest_of. destruct (has_flag _ _); [repeat (apply Forall_cons; split; [by vm_compute|]); constructor|].
  destruct Hs as [? Hp|? Hp|? Hp|? ? ? Hb]; [rewrite Hp; constructor..|]. destruct (bs_data (fp_payload packet)); [constructor|by apply frame_of_bytes].
Qed.

(** The array of the payload is used or not: the carrier is the same. *)
Lemma marshal_sendable packet : sendable packet → marshalFakeTCPPacket packet = Some (carrier_of (meta_of packet) (fp_seq packet) (fp_ack packet) (rest_of packet)).
Proof.
  intros Hs. pose proof (rest_of_bytes packet Hs) as Hrb. unfold meta_of.
  destruct Hs as [Hf Hp|Hf Hp|Hf Hp|Hf Hmin Hl Hb]; [rewrite Hp; apply marshal_control; [done|rewrite Hf; by vm_compute]..|].
  assert (bs_data (fp_payload packet) ≠ []) as Hne by (intros E; rewrite E in Hmin; cbn in Hmin; unfold MinFramePayloadSize in Hmin; lia).
  assert (has_flag (fp_flags packet) TCPFlagSYN = false) as Hsyn by by rewrite Hf.
  assert (rest_of packet = frame_of (bs_data (fp_payload packet))) as Hr.
  { unfold rest_of. rewrite Hsyn. by destruct (bs_data (fp_payload packet)). }
  rewrite marshal_data by done. rewrite <- Hr. destruct (bs_data (fp_payload packet)) eqn:E; [done|]. rewrite FoldPayloadChecksum_sum; [done|done|].
  rewrite Hr. unfold frame_of. rewrite length_app, length_be_encode. lia.
Qed.

(** ** Reading *)

Lemma next_frame payload rest : (MinFramePayloadSize <= length payload)%nat → Z.of_nat (length payload) < 65536 →
  nextFakeTCPFrame (frame_of payload ++ rest) = Some (payload, rest).
Proof.
  intros Hmin Hl. unfold nextFakeTCPFrame, frame_of, FrameHeaderSize. rewrite <- app_assoc, !length_app, length_be_encode.
  rewrite (proj2 (Nat.ltb_ge _ _)) by lia. rewrite take_app_length' by (by rewrite length_be_encode).
  rewrite be_decode_encode by (change (256 ^ Z.of_nat 2) with 65536; lia). rewrite Nat2Z.id.
  rewrite (proj2 (Nat.ltb_ge _ _)) by done. rewrite (proj2 (Nat.ltb_ge _ _)) by lia. cbn [orb]. f_equal. f_equal.
  - unfold slice. rewrite drop_app_length' by (by rewrite length_be_encode). rewrite take_app_length'; [done|]. lia.
  - rewrite app_assoc, drop_app_length'; [done|]. rewrite length_app, length_be_encode. lia.
Qed.

Lemma next_frame_shorter data frame rest : nextFakeTCPFrame data = Some (frame, rest) → (length rest < length data)%nat.
Proof.
  unfold nextFakeTCPFrame, FrameHeaderSize. destruct (Nat.ltb_spec (length data) 2); [done|]. case_goal; [done|]. intros [= _ <-]. rewrite length_drop. lia.
Qed.

(** Every frame takes some bytes, so that the length is enough fuel. *)
Lemma count_frames_fuel n : ∀ m data, (length data <= n)%nat → (length data <= m)%nat → count_frames n data = count_frames m data.
Proof.
  induction n as [|n IH]; intros m data Hn Hm; destruct data as [|z data]; [by destruct m|cbn in Hn; lia|by destruct m|]. destruct m as [|m]; [cbn in Hm; lia|].
  cbn [count_frames]. destruct (nextFakeTCPFrame (z :: data)) as [[frame rest]|] eqn:E; [|done]. cbn [mbind option_bind].
  pose proof (next_frame_shorter _ _ _ E). cbn [length] in *. by rewrite (IH m) by lia.
Qed.

(** Frames one after the other. *)
Lemma count_frames_spec ps : ∀ fuel, (length (concat (frame_of <$> ps)) <= fuel)%nat →
  Forall (λ p : list Z, (MinFramePayloadSize <= length p)%nat ∧ Z.of_nat (length p) < 65536) ps → count_frames fuel (concat (frame_of <$> ps)) = Some (length ps).
Proof.
  induction ps as [|p ps IH]; intros fuel Hf Hall; [by destruct fuel|]. apply Forall_cons in Hall as [[Hmin Hl] Hall].
  cbn [fmap list_fmap concat] in *. rewrite length_app in Hf. assert (2 <= length (frame_of p))%nat by (unfold frame_of; rewrite length_app, length_be_encode; lia).
  destruct fuel as [|fuel]; [lia|]. destruct (frame_of p ++ concat (frame_of <$> ps)) as [|z zs] eqn:E.
  { apply (f_equal length) in E. rewrite length_app in E. cbn in E. lia. }
  cbn [count_frames]. rewrite <- E, next_frame by done. cbn [mbind option_bind]. rewrite IH by (done || lia). done.
Qed.

Lemma carrier_of_fields meta seq ack rest : is_u16 meta → is_u32 seq → is_u32 ack → let c := carrier_of meta seq ack rest in
  length c = (12 + length rest)%nat ∧ be_decode (take 2 c) = CarrierMagic ∧ be_decode (slice 2 4 c) = meta ∧
  be_decode (slice 4 8 c) = seq ∧ be_decode (slice 8 12 c) = ack ∧ drop 12 c = rest.
Proof.
  intros Hm Hs Ha c. unfold c, carrier_of. rewrite !length_app, !length_be_encode. split; [lia|].
  assert (∀ n z, 0 <= z < 256 ^ Z.of_nat n → be_decode (be_encode n z) = z) as Hd by (intros; by apply be_decode_encode).
  unfold is_u16, is_u32, in_width in *. repeat split.
  - etrans; [|apply (Hd 2%nat meta); change (256 ^ Z.of_nat 2) with (2 ^ 16); lia]. done.
  - etrans; [|apply (Hd 4%nat seq); change (256 ^ Z.of_nat 4) with (2 ^ 32); lia]. done.
  - etrans; [|apply (Hd 4%nat ack); change (256 ^ Z.of_nat 4) with (2 ^ 32); lia]. done.
Qed.

(** A segment with frames is read as such. *)
Lemma parse_segment flags seq ack ps : is_u8 flags → has_flag flags TCPFlagSYN = false → is_u32 seq → is_u32 ack →
  Forall (λ p : list Z, (MinFramePayloadSize <= length p)%nat ∧ Z.of_nat (length p) < 65536) ps →
  parse_carrier (carrier_of flags seq ack (concat (frame_of <$> ps))) = Segment (mkFake flags seq ack (mkBslice (concat (frame_of <$> ps)) [])) (length ps).
Proof.
  intros Hf Hsyn Hs Ha Hps. pose proof (count_frames_spec ps _ (le_n _) Hps) as Hcount.
  destruct (carrier_of_fields flags seq ack (concat (frame_of <$> ps))) as (Hlen & Hmagic & Hmeta & Hseq & Hack & Hrest);
    [unfold is_u8, is_u16, in_width in *; lia|done..|].
  unfold parse_carrier. rewrite Hlen, Hmagic, Hmeta, Hseq, Hack, (proj2 (Nat.ltb_ge _ _)) by lia. rewrite Z.eqb_refl. cbn [negb orb].
  rewrite (proj2 (Nat.ltb_ge _ _)) by (unfold CarrierHeaderSize; lia). rewrite wrap_small by done. rewrite Hsyn. cbn [andb].
  unfold CarrierHeaderSize. rewrite Nat.add_0_r, Hrest.
  destruct (Nat.ltb_spec 0 (length (concat (frame_of <$> ps)))) as [Hlt|Hge]; cbn [negb andb]; [by rewrite Hcount|].
  destruct (concat (frame_of <$> ps)) as [|? ?] eqn:E; [|cbn in Hge; lia]. cbn in Hcount. by injection Hcount as <-.
Qed.

Lemma parse_syn flags seq ack : is_u8 flags → has_flag flags TCPFlagSYN = true → is_u32 seq → is_u32 ack →
  parse_carrier (carrier_of flags seq ack [1; 3; 3; 14]) = Segment (mkFake flags seq ack no_payload) 0.
Proof.
  intros Hf Hsyn Hs Ha. destruct (carrier_of_fields flags seq ack [1; 3; 3; 14]) as (Hlen & Hmagic & Hmeta & Hseq & Hack & Hrest);
    [unfold is_u8, is_u16, in_width in *; lia|done..|].
  unfold parse_carrier. rewrite Hlen, Hmagic, Hmeta, Hseq, Hack. cbn [length Nat.add Nat.ltb Nat.leb]. rewrite Z.eqb_refl. cbn [negb orb].
  rewrite wrap_small by done. rewrite Hsyn. done.
Qed.

(** What the receiver reads of a segment that was sent, when the meta field has its flags. *)
Definition received (packet : fakeTCPPacket) : fakeTCPPacket :=
  mkFake (fp_flags packet) (fp_seq packet) (fp_ack packet)
    (match bs_data (fp_payload packet) with [] => no_payload | payload => mkBslice (frame_of payload) [] end).

Lemma parse_received packet : sendable packet → is_u32 (fp_seq packet) → is_u32 (fp_ack packet) →
  parse_carrier (carrier_of (fp_flags packet) (fp_seq packet) (fp_ack packet) (rest_of packet)) =
    Segment (received packet) (match bs_data (fp_payload packet) with [] => 0 | _ => 1 end).
Proof.
  intros Hs Hseq Hack. unfold rest_of, received. destruct Hs as [Hf Hp|Hf Hp|Hf Hp|Hf Hmin Hl _].
  - rewrite Hp, Hf. by apply parse_syn.
  - rewrite Hp, Hf. by apply parse_syn.
  - rewrite Hp, Hf. by apply (parse_segment TCPFlagACK _ _ []).
  - rewrite Hf. change (has_flag TCPFlagACK TCPFlagSYN) with false. cbv iota.
    pose proof (parse_segment TCPFlagACK (fp_seq packet) (fp_ack packet) [bs_data (fp_payload packet)] ltac:(by vm_compute) eq_refl Hseq Hack) as Hp.
    cbn [fmap list_fmap concat length] in Hp. rewrite app_nil_r in Hp.
    destruct (bs_data (fp_payload packet)) eqn:E; [cbn in Hmin; unfold MinFramePayloadSize in Hmin; lia|]. rewrite <- E in *. apply Hp. by apply Forall_singleton.
Qed.

(** ** Crossing the network *)

(** What becomes of a carrier on its way: the meta field gets the flags of the segment. *)
Definition wire (carrier : list Z) : list Z :=
  let meta := be_decode (slice 2 4 carrier) in
  let syn := (length carrier =? CarrierHeaderSize + SYNOptionSize)%nat && ((meta =? TCPFlagSYN) || (meta =? Z.lor TCPFlagSYN TCPFlagACK)) in
  take 2 carrier ++ be_encode 2 (if syn then meta else TCPFlagACK) ++ drop 4 carrier.

Lemma wire_sendable packet : sendable packet → is_u32 (fp_seq packet) → is_u32 (fp_ack packet) → is_u16 (meta_of packet) →
  wire (carrier_of (meta_of packet) (fp_seq packet) (fp_ack packet) (rest_of packet)) = carrier_of (fp_flags packet) (fp_seq packet) (fp_ack packet) (rest_of packet).
Proof.
  intros Hs Hseq Hack Hm. destruct (carrier_of_fields (meta_of packet) (fp_seq packet) (fp_ack packet) (rest_of packet) Hm Hseq Hack) as (Hlen & _ & Hmeta & _).
  unfold wire. rewrite Hlen, Hmeta. unfold CarrierHeaderSize, SYNOptionSize.
  assert ((if (12 + length (rest_of packet) =? 12 + 4)%nat && ((meta_of packet =? TCPFlagSYN) || (meta_of packet =? Z.lor TCPFlagSYN TCPFlagACK))
    then meta_of packet else TCPFlagACK) = fp_flags packet) as ->; [|done].
  unfold meta_of, rest_of. destruct Hs as [Hf Hp|Hf Hp|Hf Hp|Hf Hmin Hl Hb]; [rewrite Hp, Hf; done..|].
  rewrite Hf. change (has_flag TCPFlagACK TCPFlagSYN) with false. cbv iota. unfold MinFramePayloadSize in Hmin.
  destruct (bs_data (fp_payload packet)) eqn:E; [cbn in Hmin; lia|]. rewrite <- E in *.
  rewrite (proj2 (Nat.eqb_neq _ _)); [done|]. unfold frame_of. rewrite length_app, length_be_encode. lia.
Qed.

Lemma meta_of_range packet : sendable packet → is_u16 (meta_of packet).
Proof.
  intros Hs. pose proof (rest_of_bytes packet Hs) as Hb. unfold meta_of.
  destruct Hs as [Hf Hp|Hf Hp|Hf Hp|Hf Hmin _ _]; [rewrite Hp, Hf; by vm_compute..|]. destruct (bs_data (fp_payload packet)); [rewrite Hf; by vm_compute|].
  apply ones_sum_range. by apply word_sum_pos.
Qed.

(** What the receiver reads of a carrier that was sent. *)
Lemma parse_wire packet carrier : sendable packet → is_u32 (fp_seq packet) → is_u32 (fp_ack packet) → marshalFakeTCPPacket packet = Some carrier →
  parse_carrier (wire carrier) = Segment (received packet) (match bs_data (fp_payload packet) with [] => 0 | _ => 1 end).
Proof.
  intros Hs Hseq Hack Hm. rewrite marshal_sendable in Hm by done. injection Hm as <-. rewrite wire_sendable by (done || by apply meta_of_range). by apply parse_received.
Qed.
