(* ===== verification/TransformerProps.v ===== *)
(** What the eBPF programs of fake TCP do to a packet: a carrier becomes a TCP segment with correct checksums,
    and a segment becomes a carrier whose checksum is correct exactly when that of the segment was.

    Then the path of a segment: from the carrier that a bind sends to the TCP segment on the wire, and from
    there to the carrier the other bind receives. *)

From S2P Require Import Prelude Bytes Checksum Offload OffloadSplit FakeTcp Transformer NetIP Metric Routing Endpoint CarrierProps.

(** ** Definitions *)

(** Helpers that do not fail on arguments within the packet. *)
Class BpfReliable `{Bpf} := {
  pull_data_succeeds : ∀ skb n, (n <= length (sk_bytes skb))%nat → is_Some (bpf_skb_pull_data skb n);
  store_bytes_succeeds : ∀ skb i bs, (i + length bs <= length (sk_bytes skb))%nat → is_Some (bpf_skb_store_bytes skb i bs);
  csum_level_succeeds : ∀ skb, is_Some (bpf_csum_level skb);
}.

#[export] Instance plain_bpf_reliable : BpfReliable (H := plain_bpf).
Proof.
  split; cbn.
  - intros skb n Hn. rewrite (proj2 (Nat.leb_le _ _)) by done. by eexists.
  - intros skb i bs Hn. rewrite (proj2 (Nat.leb_le _ _)) by done. by eexists.
  - by eexists.
Qed.

Definition iph_len (v6 : bool) : nat := if v6 then 40 else 20.

(** A link header, or none, and an IP header without options for [n] bytes of [proto]. *)
Record ip_ok (v6 : bool) (proto : Z) (n : nat) (l2 iph : list Z) : Prop := {
  io_link : l2 = [] ∨ length l2 = sizeof_eth_header ∧ be16 l2 12 = if v6 then ETH_P_IPV6 else ETH_P_IP;
  io_bytes : Forall is_byte iph;
  io_len : length iph = iph_len v6;
  io_version : if v6 then Z.shiftr (u8 iph 0) 4 = 6 else u8 iph 0 = 0x45;
  io_total : be16 iph (if v6 then 4 else 2) = Z.of_nat (if v6 then n else 20 + n);
  io_whole : v6 = false → Z.land (be16 iph 6) 0x3fff = 0;
  io_proto : u8 iph (if v6 then 6 else 9) = proto;
}.

(** The addresses. *)
Definition addresses (v6 : bool) (iph : list Z) : list Z := if v6 then slice 8 40 iph else slice 12 20 iph.

(** The sum that the checksum of TCP or UDP is to make all ones. *)
Definition l4_sum (v6 : bool) (iph : list Z) (proto : Z) (seg : list Z) : Z :=
  word_sum (addresses v6 iph) + proto + Z.of_nat (length seg) + word_sum seg.

Definition l4_valid (v6 : bool) (iph : list Z) (proto : Z) (seg : list Z) : Prop := ones_sum (l4_sum v6 iph proto seg) = 65535.

(** The header with another protocol. *)
Definition ip_with (v6 : bool) (proto : Z) (iph : list Z) : list Z :=
  if v6 then write_at 6 [proto] iph
  else
    let iph := write_at 10 [0; 0] (write_at 9 [proto] iph) in
    write_at 10 (be_encode 2 (ipv4_checksum iph)) iph.

Record carrier_wf (c : udp_carrier) : Prop := {
  cw_source : is_u16 (uc_source c);
  cw_destination : is_u16 (uc_destination c);
  cw_length : is_u16 (uc_length c);
  cw_checksum : is_u16 (uc_checksum c);
  cw_magic : is_u16 (uc_magic c);
  cw_meta : is_u16 (uc_meta c);
  cw_sequence : is_u32 (uc_sequence c);
  cw_acknowledgement : is_u32 (uc_acknowledgement c);
}.

Record tcp_wf (t : tcp_header) : Prop := {
  tw_source : is_u16 (th_source t);
  tw_destination : is_u16 (th_destination t);
  tw_sequence : is_u32 (th_sequence t);
  tw_acknowledgement : is_u32 (th_acknowledgement t);
  tw_data_offset : is_u8 (th_data_offset t);
  tw_flags : is_u8 (th_flags t);
  tw_window : is_u16 (th_window t);
  tw_checksum : is_u16 (th_checksum t);
  tw_urgent : is_u16 (th_urgent t);
}.

(** What a carrier asks for: the offset and the flags of the segment for its meta field and what follows it. *)
Inductive asks : Z → list Z → Z → Z → Prop :=
  | asks_syn meta : meta = TCPFlagSYN ∨ meta = Z.lor TCPFlagSYN TCPFlagACK → asks meta [1; 3; 3; 14] 0x60 meta
  | asks_ack : asks TCPFlagACK [] 0x50 TCPFlagACK
  | asks_data rest : (4 < length rest)%nat → asks (ones_sum (word_sum rest)) rest 0x50 TCPFlagACK.

(** The segments that are let in: offset, flags and what follows the header. *)
Inductive accepts : Z → Z → list Z → Prop :=
  | accepts_syn flags : flags = TCPFlagSYN ∨ flags = Z.lor TCPFlagSYN TCPFlagACK → accepts 0x60 flags [1; 3; 3; 14]
  | accepts_mss flags x y : flags = TCPFlagSYN ∨ flags = Z.lor TCPFlagSYN TCPFlagACK → accepts 0x70 flags [2; 4; x; y; 1; 3; 3; 14]
  | accepts_empty flags : flags ∈ [TCPFlagACK; Z.lor TCPFlagFIN TCPFlagACK; TCPFlagRST; Z.lor TCPFlagRST TCPFlagACK] → accepts 0x50 flags []
  | accepts_data rest : rest ≠ [] → accepts 0x50 TCPFlagACK rest.

(** ** Fields *)

Lemma u8_app_l a b i : (i < length a)%nat → u8 (a ++ b) i = u8 a i.
Proof. intros. unfold u8. by rewrite lookup_app_l. Qed.

Lemma u8_shift a b i : u8 (a ++ b) (length a + i) = u8 b i.
Proof. unfold u8. rewrite lookup_app_r by lia. do 2 f_equal. lia. Qed.

Lemma be16_app_l a b i : (i + 2 <= length a)%nat → be16 (a ++ b) i = be16 a i.
Proof. intros. unfold be16. by rewrite slice_app_l. Qed.

Lemma be32_app_l a b i : (i + 4 <= length a)%nat → be32 (a ++ b) i = be32 a i.
Proof. intros. unfold be32. by rewrite slice_app_l. Qed.

Lemma be16_shift a b i : be16 (a ++ b) (length a + i) = be16 b i.
Proof. unfold be16. rewrite <- Nat.add_assoc. by rewrite slice_shift. Qed.

Lemma be32_shift a b i : be32 (a ++ b) (length a + i) = be32 b i.
Proof. unfold be32. rewrite <- Nat.add_assoc. by rewrite slice_shift. Qed.

Lemma u8_shift0 a b i : i = length a → u8 (a ++ b) i = u8 b 0.
Proof. intros ->. rewrite <- (Nat.add_0_r (length a)). apply u8_shift. Qed.

Lemma be16_shift0 a b i : i = length a → be16 (a ++ b) i = be16 b 0.
Proof. intros ->. rewrite <- (Nat.add_0_r (length a)). apply be16_shift. Qed.

Lemma be32_shift0 a b i : i = length a → be32 (a ++ b) i = be32 b 0.
Proof. intros ->. rewrite <- (Nat.add_0_r (length a)). apply be32_shift. Qed.

Lemma be16_range b i : Forall is_byte b → 0 <= be16 b i < 65536.
Proof.
  intros Hb. pose proof (be_decode_range (slice i (i + 2) b) (slice_bytes _ _ _ Hb)) as [H1 H2]. split; [done|].
  eapply Z.lt_le_trans; [exact H2|]. change 65536 with (256 ^ 2). apply Z.pow_le_mono_r; [lia|].
  unfold slice. rewrite length_take, length_drop. lia.
Qed.

Lemma u8_range b i : Forall is_byte b → is_byte (u8 b i).
Proof. intros Hb. unfold u8. destruct (b !! i) eqn:E; [by eapply Forall_lookup_1|by vm_compute]. Qed.

Lemma length_carrier_bytes c : length (carrier_bytes c) = 20%nat.
Proof. unfold carrier_bytes. by rewrite !length_app, !length_be_encode. Qed.

Lemma length_tcp_bytes t : length (tcp_bytes t) = 20%nat.
Proof. unfold tcp_bytes. by rewrite !length_app, !length_be_encode. Qed.

Lemma carrier_bytes_bytes c : Forall is_byte (carrier_bytes c).
Proof. unfold carrier_bytes. rewrite !Forall_app. repeat split; apply be_encode_bytes. Qed.

Lemma tcp_bytes_bytes t : tcp_wf t → Forall is_byte (tcp_bytes t).
Proof.
  intros Ht. unfold tcp_bytes. rewrite !Forall_app. repeat split; try apply be_encode_bytes. destruct Ht. apply Forall_cons. split; [done|]. by apply Forall_singleton.
Qed.

(** Reading back what was written. *)
Lemma be_encode_16 z : is_u16 z → be_decode (be_encode 2 z) = z.
Proof. intros. by apply be_decode_encode. Qed.

Lemma be_encode_32 z : is_u32 z → be_decode (be_encode 4 z) = z.
Proof. intros. by apply be_decode_encode. Qed.

Lemma read_carrier_bytes c rest : carrier_wf c → read_carrier (carrier_bytes c ++ rest) 0 = c.
Proof.
  intros []. destruct c as [f1 f2 f3 f4 f5 f6 f7 f8]. cbn [uc_source uc_destination uc_length uc_checksum uc_magic uc_meta uc_sequence uc_acknowledgement] in *.
  unfold read_carrier. f_equal; (etrans; [|first [apply be_encode_16; eassumption|apply be_encode_32; eassumption]]); reflexivity.
Qed.

Lemma read_tcp_bytes t rest : tcp_wf t → read_tcp (tcp_bytes t ++ rest) 0 = t.
Proof.
  intros []. destruct t as [f1 f2 f3 f4 f5 f6 f7 f8 f9]. cbn [th_source th_destination th_sequence th_acknowledgement th_data_offset th_flags th_window th_checksum th_urgent] in *.
  unfold read_tcp. f_equal; try reflexivity; (etrans; [|first [apply be_encode_16; eassumption|apply be_encode_32; eassumption]]); reflexivity.
Qed.

Lemma read_carrier_shift a b i : i = length a → read_carrier (a ++ b) i = read_carrier b 0.
Proof. intros ->. unfold read_carrier. rewrite !be16_shift, !be32_shift, be16_shift0 by done. done. Qed.

Lemma read_tcp_shift a b i : i = length a → read_tcp (a ++ b) i = read_tcp b 0.
Proof. intros ->. unfold read_tcp. rewrite !be16_shift, !be32_shift, !u8_shift, be16_shift0 by done. done. Qed.

(** ** Sums *)

Lemma halves_eq v : 0 <= v → halves v = v / 65536 + v mod 65536.
Proof. intros. by apply fold16_eq. Qed.

Lemma word_sum_be4 v : is_u32 v → word_sum (be_encode 4 v) = halves v.
Proof.
  intros Hv. unfold is_u32, in_width in Hv. rewrite halves_eq by lia. cbn [be_encode word_sum].
  change (256 ^ Z.of_nat 3) with 16777216. change (256 ^ Z.of_nat 2) with 65536. change (256 ^ Z.of_nat 1) with 256. change (256 ^ Z.of_nat 0) with 1.
  Z.to_euclidean_division_equations. lia.
Qed.

Lemma halves_bytes a b c d : Forall is_byte [a; b; c; d] → halves (be_decode [a; b; c; d]) = 256 * a + b + (256 * c + d).
Proof.
  intros Hb. rewrite <- word_sum_be4; [|by apply (be_decode_range [a; b; c; d])].
  change 4%nat with (length [a; b; c; d]). rewrite be_encode_decode by done. cbn [word_sum]. lia.
Qed.

Lemma tcp_bytes_sum t : tcp_wf t → word_sum (tcp_bytes t) = tcp_header_sum t 0 + th_checksum t.
Proof.
  intros []. unfold tcp_bytes, tcp_header_sum. rewrite !word_sum_app by (rewrite ?length_be_encode; cbn; (by exists 1%nat) || (by exists 2%nat)).
  rewrite !word_sum_be2, !word_sum_be4 by done. cbn [word_sum]. rewrite Z.shiftl_mul_pow2 by lia. change (2 ^ 8) with 256. lia.
Qed.

Lemma carrier_bytes_sum c : carrier_wf c → word_sum (carrier_bytes c) = carrier_header_sum c 0 + uc_checksum c.
Proof.
  intros []. unfold carrier_bytes, carrier_header_sum. rewrite !word_sum_app by (rewrite ?length_be_encode; cbn; (by exists 1%nat) || (by exists 2%nat)).
  rewrite !word_sum_be2, !word_sum_be4 by done. lia.
Qed.

(** The checksum is the number that makes the sum a multiple of all ones. *)
Lemma finish_spec s : 0 <= s < 2 ^ 32 → 1 <= finish_checksum s <= 65535 ∧ (s + finish_checksum s) mod 65535 = 0.
Proof.
  intros Hs. unfold finish_checksum. rewrite (wrap_small 32 s) by (unfold in_width; lia).
  set (s1 := Z.land s 0xffff + Z.shiftr s 16). assert (s1 = fold16 s) as E1 by apply Z.add_comm.
  set (s2 := Z.land s1 0xffff + Z.shiftr s1 16). assert (s2 = fold16 (fold16 s)) as E2 by (rewrite <- E1; apply Z.add_comm).
  clearbody s1 s2. subst s1 s2.
  assert (0 <= fold16 s) as H1 by (pose proof (fold16_same s ltac:(lia)) as (? & _); lia).
  pose proof (fold16_same s ltac:(lia)) as (_ & _ & M1 & _). pose proof (fold16_same (fold16 s) H1) as (H2 & _ & M2 & _).
  assert (fold16 (fold16 s) < 65536) as Hlt.
  { assert (fold16 s <= 131070) as Hle by (rewrite fold16_eq by lia; clear - Hs; Z.to_euclidean_division_equations; lia).
    rewrite fold16_eq by lia. clear - H1 Hle. Z.to_euclidean_division_equations. lia. }
  rewrite wrap_small by (unfold in_width; lia). set (x := fold16 (fold16 s)) in *. rewrite M1 in M2. unfold inverse16.
  assert (s mod 65535 = x mod 65535) as Hm by done.
  destruct (Z.eqb_spec (65535 - x) 0) as [E|E].
  - split; [lia|]. rewrite Zplus_mod, Hm. replace x with 65535 by lia. done.
  - split; [lia|]. rewrite Zplus_mod, Hm, <- Zplus_mod. replace (x + (65535 - x)) with 65535 by lia. done.
Qed.

Lemma ones_sum_full s : 0 < s → ones_sum s = 65535 ↔ s mod 65535 = 0.
Proof.
  intros Hs. unfold ones_sum. rewrite (proj2 (Z.eqb_neq s 0)) by lia. Z.to_euclidean_division_equations. lia.
Qed.

Lemma pairs_sum_slice n : ∀ b i, (i + 2 * n <= length b)%nat → pairs_sum n b i = word_sum (slice i (i + 2 * n) b).
Proof.
  induction n as [|n IH]; intros b i Hl; cbn [pairs_sum].
  { unfold slice. by replace (i + 2 * 0 - i)%nat with 0%nat by lia. }
  rewrite IH by lia. destruct (lookup_lt_is_Some_2 b i ltac:(lia)) as [x Hx]. destruct (lookup_lt_is_Some_2 b (i + 1) ltac:(lia)) as [y Hy].
  unfold slice. replace (i + 2 * S n - i)%nat with (S (S (2 * n))) by lia. rewrite (drop_S b x i Hx). rewrite Nat.add_1_r in Hy. rewrite (drop_S b y (S i) Hy).
  cbn [take word_sum]. unfold u8. rewrite Hx, Nat.add_1_r, Hy. cbn [default]. rewrite Z.shiftl_mul_pow2 by lia. change (2 ^ 8) with 256.
  replace (i + 2 + 2 * n - (i + 2))%nat with (2 * n)%nat by lia. replace (i + 2)%nat with (S (S i)) by lia. cbn. lia.
Qed.

Lemma word_sum_bound b : Forall is_byte b → 0 <= word_sum b <= 65535 * Z.of_nat (length b).
Proof.
  induction b as [|x|x y b IH] using pair_ind; [cbn; lia| |]; intros Hall.
  - apply Forall_cons in Hall as [Hx _]. unfold is_byte, is_u8, in_width in Hx. cbn. lia.
  - apply Forall_cons in Hall as [Hx [Hy Hb]%Forall_cons]. specialize (IH Hb). unfold is_byte, is_u8, in_width in *. cbn [word_sum length]. lia.
Qed.

(** ** The IP header *)

Lemma u8_write_ne i bs p k : (i + length bs <= length p)%nat → (k < i ∨ i + length bs <= k)%nat → u8 (write_at i bs p) k = u8 p k.
Proof. intros Hl Hk. unfold u8. rewrite lookup_write_at by done. by rewrite decide_False by lia. Qed.

Lemma be16_write_ne i bs p k : (i + length bs <= length p)%nat → (k + 2 <= i ∨ i + length bs <= k)%nat → be16 (write_at i bs p) k = be16 p k.
Proof. intros Hl Hk. unfold be16. by rewrite slice_write_at_ne by lia. Qed.

Lemma explode_20 {A} (l : list A) : length l = 20%nat →
  ∃ a b c d e f g h i j k m n o p q r s t u, l = [a; b; c; d; e; f; g; h; i; j; k; m; n; o; p; q; r; s; t; u].
Proof. intros H. do 20 (destruct l as [|? l]; [done|]). destruct l; [|done]. by do 20 eexists. Qed.

Lemma ipv4_checksum_sum ip : length ip = 20%nat → Forall is_byte ip → slice 10 12 ip = [0; 0] → ipv4_checksum ip = finish_checksum (word_sum ip).
Proof.
  intros Hl Hb Hz. unfold ipv4_checksum. f_equal. apply explode_20 in Hl as (a&b&c&d&e&f&g&h&i&j&k&m&n&o&p&q&r&s&t&u&->).
  injection Hz as -> ->. rewrite !Forall_cons in Hb. destruct_and!.
  match goal with |- _ = ?rhs => change (Z.shiftl a 8 + b + be_decode [c; d] + be_decode [e; f] + be_decode [g; h] + (Z.shiftl i 8 + j) +
    halves (be_decode [n; o; p; q]) + halves (be_decode [r; s; t; u]) = rhs) end.
  rewrite !halves_bytes by (rewrite !Forall_cons; done). rewrite !Z.shiftl_mul_pow2 by lia. unfold be_decode. cbn [foldl word_sum]. lia.
Qed.

Section header.
Context (v6 : bool) (proto proto' : Z) (n : nat) (l2 iph : list Z) (Hip : ip_ok v6 proto n l2 iph) (Hproto : is_byte proto').

Lemma length_ip_with : length (ip_with v6 proto' iph) = iph_len v6.
Proof using Hip.
  pose proof (io_len _ _ _ _ _ Hip) as Hl. unfold ip_with, iph_len in *. destruct v6; [rewrite length_write_at; cbn; lia|].
  rewrite !length_write_at by (rewrite ?length_write_at, ?length_be_encode; rewrite ?length_write_at; cbn; lia). done.
Qed.

Lemma ip_with_bytes : Forall is_byte (ip_with v6 proto' iph).
Proof using Hip Hproto.
  pose proof (io_bytes _ _ _ _ _ Hip). unfold ip_with. destruct v6; repeat apply write_at_bytes; try done; try apply be_encode_bytes; try (by apply Forall_singleton).
  all: repeat (apply Forall_cons; split; [by vm_compute|]); constructor.
Qed.

(** Addresses and lengths stay. *)
Lemma ip_with_ok : ip_ok v6 proto' n l2 (ip_with v6 proto' iph) ∧ addresses v6 (ip_with v6 proto' iph) = addresses v6 iph.
Proof using Hip Hproto.
  pose proof length_ip_with as HL. pose proof ip_with_bytes as HB. destruct Hip as [Hlink Hb Hl Hv Ht Hw Hp]. unfold ip_with, addresses, iph_len in *. destruct v6.
  - rewrite slice_write_at_ne by (cbn; lia). split; [|done]. split; try done; try (rewrite ?u8_write_ne, ?be16_write_ne by (cbn; lia); done).
    unfold u8. rewrite lookup_write_at by (cbn; lia). done.
  - set (X := write_at 9 [proto'] iph) in *. assert (length X = 20%nat) as HX by (unfold X; rewrite length_write_at; cbn; lia).
    set (Y := write_at 10 [0; 0] X) in *. assert (length Y = 20%nat) as HY by (unfold Y; rewrite length_write_at; cbn; lia).
    assert (∀ i, (i < 9)%nat → u8 (write_at 10 (be_encode 2 (ipv4_checksum Y)) Y) i = u8 iph i) as Hu.
    { intros i Hi. rewrite u8_write_ne by (rewrite ?length_be_encode; lia). unfold Y. rewrite u8_write_ne by (cbn; lia). unfold X. rewrite u8_write_ne by (cbn; lia). done. }
    assert (∀ i, (i + 2 <= 9)%nat → be16 (write_at 10 (be_encode 2 (ipv4_checksum Y)) Y) i = be16 iph i) as H16.
    { intros i Hi. rewrite be16_write_ne by (rewrite ?length_be_encode; lia). unfold Y. rewrite be16_write_ne by (cbn; lia). unfold X. rewrite be16_write_ne by (cbn; lia). done. }
    split; [split; try done; try (rewrite ?Hu, ?H16 by lia; done)|].
    + rewrite u8_write_ne by (rewrite ?length_be_encode; lia). unfold Y. rewrite u8_write_ne by (cbn; lia). unfold X, u8.
      rewrite lookup_write_at by (cbn; lia). done.
    + rewrite slice_write_at_ne by (rewrite ?length_be_encode; lia). unfold Y. rewrite slice_write_at_ne by (cbn; lia). unfold X. rewrite slice_write_at_ne by (cbn; lia). done.
Qed.

(** The header checksum of IPv4 is right. *)
Lemma ip_with_valid : v6 = false → ones_sum (word_sum (ip_with v6 proto' iph)) = 65535.
Proof using Hip Hproto.
  intros E. destruct Hip as [_ Hb Hl _ _ _ _]. unfold ip_with, iph_len in *. rewrite E in *.
  set (X := write_at 9 [proto'] iph). assert (length X = 20%nat) as HX by (unfold X; rewrite length_write_at; cbn; lia).
  set (Y := write_at 10 [0; 0] X). assert (length Y = 20%nat) as HY by (unfold Y; rewrite length_write_at; cbn; lia).
  assert (Forall is_byte Y) as HYb.
  { unfold Y, X. apply write_at_bytes; [repeat (apply Forall_cons; split; [by vm_compute|]); constructor|]. apply write_at_bytes; [by apply Forall_singleton|done]. }
  assert (slice 10 12 Y = [0; 0]) as HYz by (unfold Y; apply (slice_write_at 10 [0; 0]); cbn; lia).
  rewrite ipv4_checksum_sum by done. pose proof (word_sum_bound Y HYb) as Hbd. rewrite HY in Hbd.
  destruct (finish_spec (word_sum Y) ltac:(lia)) as [Hr Hm].
  rewrite word_sum_store by (done || lia || by exists 5%nat). apply ones_sum_full; [lia|done].
Qed.

End header.

Section path.
Context {B : Bpf} {BL : BpfLaws} {BR : BpfReliable} (managed_port : Z).

(** A packet with these bytes. *)
Definition skb_is (skb : sk_buff) (bytes : list Z) (segs : Z) : Prop :=
  sk_bytes skb = bytes ∧ sk_gso_segs skb = segs ∧ (sk_linear skb <= length bytes)%nat.

Lemma mapped_ok skb bytes segs n : skb_is skb bytes segs → (n <= length bytes)%nat → ∃ skb', mapped skb n = Some skb' ∧ skb_is skb' bytes segs ∧ (n <= sk_linear skb')%nat.
Proof using BL BR.
  intros (<- & <- & Hlin) Hn. unfold mapped. destruct (Nat.ltb_spec (sk_linear skb) n) as [Hlt|Hge].
  - destruct (pull_data_succeeds skb n Hn) as [skb' Hp]. destruct (pull_data_spec _ _ _ Hp) as (Hb & Hs & Hl). exists skb'. by repeat split; try lia.
  - exists skb. by repeat split.
Qed.

Lemma store_ok skb bytes segs i bs : skb_is skb bytes segs → (i + length bs <= length bytes)%nat →
  ∃ skb', bpf_skb_store_bytes skb i bs = Some skb' ∧ sk_bytes skb' = write_at i bs bytes ∧ sk_gso_segs skb' = segs.
Proof using BL BR.
  intros (<- & <- & _) Hn. destruct (store_bytes_succeeds skb i bs Hn) as [skb' Hp]. destruct (store_bytes_spec _ _ _ _ Hp) as (Hb & Hs & _).
  by exists skb'.
Qed.

Lemma first_nibble iph : (4 <= length iph)%nat → Forall is_byte iph → Z.shiftr (be32 iph 0) 28 = Z.shiftr (u8 iph 0) 4.
Proof.
  intros Hl Hb. destruct iph as [|a [|b [|c [|d r]]]]; cbn in Hl; try lia. change (be32 (a :: b :: c :: d :: r) 0) with (be_decode [a; b; c; d]).
  change (u8 (a :: b :: c :: d :: r) 0) with a. rewrite !Forall_cons in Hb. destruct Hb as (Ha & Hb & Hc & Hd & _). unfold is_byte, is_u8, in_width in *.
  rewrite !Z.shiftr_div_pow2 by lia. unfold be_decode. cbn [foldl]. change (2 ^ 28) with 268435456. change (2 ^ 4) with 16. Z.to_euclidean_division_equations. lia.
Qed.

(** What [parse_packet] finds; link layers may pad a packet. *)
Lemma parse_ok v6 proto n l2 iph seg pad skb segs : ip_ok v6 proto n l2 iph → length seg = n → (20 <= n)%nat →
  skb_is skb (l2 ++ iph ++ seg ++ pad) segs →
  ∃ skb', parse_packet skb (length l2) = Some (skb', mkInfo (length l2) (length l2 + iph_len v6) n (if v6 then 6 else 4) proto true) ∧
    skb_is skb' (l2 ++ iph ++ seg ++ pad) segs ∧ (length l2 + 40 <= sk_linear skb')%nat.
Proof using BL BR.
  intros Hip Hn Hmin Hskb. pose proof Hip as [Hlink Hb Hl Hv Ht Hw Hp]. set (bytes := l2 ++ iph ++ seg ++ pad) in *.
  assert (length bytes = length l2 + iph_len v6 + n + length pad)%nat as Hlen by (unfold bytes; rewrite !length_app; lia).
  assert (20 <= iph_len v6)%nat as Hil by (destruct v6; cbn; lia).
  destruct (mapped_ok skb bytes segs (length l2 + sizeof_ipv6_header) Hskb) as (skb' & Hm & Hskb' & Hlin); [unfold sizeof_ipv6_header; lia|].
  unfold parse_packet. rewrite Hm. cbn [mbind option_bind]. rewrite (proj2 (Nat.ltb_ge _ _)) by done. pose proof Hskb' as (Hbytes & _ & _). rewrite Hbytes.
  assert (∀ i, (i < iph_len v6)%nat → u8 bytes (length l2 + i) = u8 iph i) as Hu8.
  { intros i Hi. unfold bytes. rewrite u8_shift, u8_app_l by lia. done. }
  assert (∀ i, (i + 2 <= iph_len v6)%nat → be16 bytes (length l2 + i) = be16 iph i) as H16.
  { intros i Hi. unfold bytes. rewrite be16_shift, be16_app_l by lia. done. }
  pose proof (Hu8 0%nat ltac:(lia)) as Hu0. rewrite Nat.add_0_r in Hu0.
  replace (if (length l2 =? sizeof_eth_header)%nat then if be16 bytes 12 =? ETH_P_IP then Some 4 else if be16 bytes 12 =? ETH_P_IPV6 then Some 6 else None
    else if negb (Z.shiftr (u8 bytes 0) 4 =? 4) && negb (Z.shiftr (u8 bytes 0) 4 =? 6) then None else Some (Z.shiftr (u8 bytes 0) 4))
    with (Some (if v6 then 6 else 4)).
  2: { destruct Hlink as [->|[Hl2 Hty]].
    - cbn [length Nat.eqb sizeof_eth_header] in *. rewrite Hu0. destruct v6; rewrite Hv; done.
    - rewrite Hl2. cbn [Nat.eqb sizeof_eth_header]. unfold bytes. rewrite be16_app_l by (rewrite Hl2; unfold sizeof_eth_header; lia). rewrite Hty. by destruct v6. }
  cbn [mbind option_bind]. destruct v6; cbn [iph_len] in *.
  - change (6 =? 4) with false. cbv iota. assert (Z.shiftr (be32 bytes (length l2)) 28 = 6) as ->.
    { rewrite <- Hv, <- first_nibble by (done || lia). unfold bytes. rewrite be32_shift0, be32_app_l by (done || lia). done. }
    change (6 =? 6) with true. cbn [negb]. rewrite H16, Ht, Nat2Z.id by lia. rewrite (proj2 (Nat.ltb_ge _ _)) by (unfold sizeof_ipv6_header; lia).
    rewrite Hu8, Hp by lia. exists skb'. done.
  - change (4 =? 4) with true. cbv iota. rewrite Hu0, Hv. change (Z.shiftr 69 4 =? 4) with true. cbn [negb].
    change (Z.to_nat (Z.land 69 15 * 4)) with 20%nat. rewrite H16, Ht, Nat2Z.id by lia. unfold sizeof_ipv4_header.
    rewrite (proj2 (Nat.ltb_ge 20 20)), (proj2 (Nat.ltb_ge (20 + n) 20)), (proj2 (Nat.ltb_ge (length bytes) _)) by lia. cbn [orb].
    rewrite Hu8, Hp, H16, Hw by (done || lia). exists skb'. replace (20 + n - 20)%nat with n by lia. done.
Qed.

(** The protocol is changed; the segment stays. *)
Lemma update_ok v6 proto proto' n l2 iph rest skb segs : ip_ok v6 proto n l2 iph → sk_bytes skb = l2 ++ iph ++ rest → sk_gso_segs skb = segs →
  ∃ skb', update_ip_protocol skb (mkInfo (length l2) (length l2 + iph_len v6) n (if v6 then 6 else 4) proto true) proto' iph = Some skb' ∧
    sk_bytes skb' = l2 ++ ip_with v6 proto' iph ++ rest ∧ sk_gso_segs skb' = segs.
Proof using BL BR.
  intros Hip Hbytes Hsegs. pose proof (length_ip_with v6 proto proto' n l2 iph Hip) as HL. pose proof (io_len _ _ _ _ _ Hip) as Hl.
  assert (∀ i bs, (i + length bs <= length iph)%nat →
    ∃ skb', bpf_skb_store_bytes skb (length l2 + i) bs = Some skb' ∧ sk_bytes skb' = l2 ++ write_at i bs iph ++ rest ∧ sk_gso_segs skb' = segs) as Hst.
  { intros i bs Hi. destruct (store_bytes_succeeds skb (length l2 + i) bs) as [skb' Hp]; [rewrite Hbytes, !length_app; lia|].
    destruct (store_bytes_spec _ _ _ _ Hp) as (Hb & Hs & _). exists skb'. rewrite Hb, Hs, Hbytes, write_at_app_r by lia.
    replace (length l2 + i - length l2)%nat with i by lia. by rewrite write_at_app_l by lia. }
  unfold update_ip_protocol, ip_with, iph_len in *. cbn [pi_version pi_l3_offset]. destruct v6.
  - change (6 =? 4) with false. cbv iota. by apply Hst; cbn; lia.
  - change (4 =? 4) with true. cbv iota zeta. destruct (Hst 0%nat (write_at 10 (be_encode 2 (ipv4_checksum (write_at 10 [0; 0] (write_at 9 [proto'] iph)))) (write_at 10 [0; 0] (write_at 9 [proto'] iph)))) as (skb' & Hp & Hb & Hs); [lia|].
    rewrite Nat.add_0_r in Hp. exists skb'. rewrite Hb, write_at_0 by lia. done.
Qed.

(** The header behind the IP header is replaced by one of the same length. *)
Lemma replace_header v6 proto proto' n l2 iph h h' rest pad skb segs : ip_ok v6 proto n l2 iph → length h = 20%nat → length h' = 20%nat →
  skb_is skb (l2 ++ iph ++ (h ++ rest) ++ pad) segs →
  ∃ skb1 skb2, bpf_skb_store_bytes skb (length l2 + iph_len v6) h' = Some skb1 ∧
    update_ip_protocol skb1 (mkInfo (length l2) (length l2 + iph_len v6) n (if v6 then 6 else 4) proto true) proto'
      (slice (length l2) (length l2 + sizeof_ipv4_header) (l2 ++ iph ++ (h ++ rest) ++ pad)) = Some skb2 ∧
    sk_bytes skb2 = l2 ++ ip_with v6 proto' iph ++ (h' ++ rest) ++ pad.
Proof using BL BR.
  intros Hip Hh Hh' Hskb. pose proof (io_len _ _ _ _ _ Hip) as Hl.
  destruct (store_ok skb _ segs (length l2 + iph_len v6) h' Hskb) as (skb1 & Hst & Hb1 & Hg1); [rewrite !length_app; lia|]. rewrite Hst.
  assert (sk_bytes skb1 = l2 ++ iph ++ (h' ++ rest) ++ pad) as Hb1'.
  { rewrite Hb1, write_at_app_r by lia. rewrite write_at_app_r by lia. replace (length l2 + iph_len v6 - length l2 - length iph)%nat with 0%nat by lia.
    rewrite <- !app_assoc. rewrite write_at_app_l by lia. by rewrite write_at_0 by lia. }
  destruct (update_ok v6 proto proto' n l2 iph ((h' ++ rest) ++ pad) skb1 segs Hip Hb1' Hg1) as (skb2 & Hup & Hb2 & _).
  exists skb1, skb2. split; [done|]. split; [|done]. destruct v6; [exact Hup|]. rewrite <- Hup. f_equal.
  rewrite <- (Nat.add_0_r (length l2)) at 1. rewrite slice_shift, slice_app_l by (cbn in Hl; unfold sizeof_ipv4_header; lia). by rewrite slice_whole.
Qed.

(** The sum of the addresses, read from the packet. *)
Lemma tcp_checksum_ok v6 proto n l2 iph rest t ps o1 o2 : ip_ok v6 proto n l2 iph →
  tcp_checksum (l2 ++ iph ++ rest) (mkInfo (length l2) (length l2 + iph_len v6) n (if v6 then 6 else 4) proto true) t ps o1 o2 =
    finish_checksum (ps + IPPROTO_TCP + Z.of_nat n + word_sum (addresses v6 iph) + tcp_header_sum t 0 + o1 + o2).
Proof.
  intros Hip. pose proof (io_len _ _ _ _ _ Hip) as Hl. pose proof (io_bytes _ _ _ _ _ Hip) as Hb. unfold tcp_checksum. cbn [pi_version pi_l3_offset pi_l4_length].
  assert (∀ a, (a + 4 <= length iph)%nat → halves (be32 (l2 ++ iph ++ rest) (length l2 + a)) = word_sum (slice a (a + 4) iph)) as H32.
  { intros a Ha. rewrite be32_shift, be32_app_l by done. unfold be32. assert (Forall is_byte (slice a (a + 4) iph)) as Hs by by apply slice_bytes.
    assert (length (slice a (a + 4) iph) = 4%nat) as Hl4 by (rewrite length_slice by done; lia).
    rewrite <- word_sum_be4; [|pose proof (be_decode_range _ Hs) as Hr; by rewrite Hl4 in Hr]. rewrite <- Hl4 at 1. by rewrite be_encode_decode. }
  assert (∀ lo mid hi, (lo <= mid <= hi)%nat → (hi <= length iph)%nat → Nat.Even (mid - lo) → word_sum (slice lo mid iph) + word_sum (slice mid hi iph) = word_sum (slice lo hi iph)) as Hsplit.
  { intros lo mid hi Hlm Hh He. rewrite <- word_sum_app by (by rewrite length_slice by lia). f_equal. unfold slice.
    rewrite <- (take_drop (mid - lo) (take (hi - lo) (drop lo iph))). rewrite take_take. f_equal; [f_equal; lia|].
    rewrite skipn_firstn_comm, drop_drop. f_equal; [lia|]. f_equal. lia. }
  unfold addresses, iph_len in *. f_equal. unfold tcp_header_sum. destruct v6.
  - change (6 =? 4) with false. cbv iota. rewrite !pairs_sum_slice by (rewrite !length_app; lia). rewrite <- !Nat.add_assoc, !slice_shift, !slice_app_l by lia.
    change (8 + 2 * 8)%nat with 24%nat. change (24 + 2 * 8)%nat with 40%nat. rewrite Hsplit by (lia || by exists 8%nat). lia.
  - change (4 =? 4) with true. cbv iota. rewrite !H32 by lia. change (12 + 4)%nat with 16%nat. change (16 + 4)%nat with 20%nat.
    pose proof (Hsplit 12%nat 16%nat 20%nat ltac:(lia) ltac:(lia) ltac:(by exists 2%nat)). lia.
Qed.

(** ** The way out *)

Lemma u8_behind l2 iph h rest pad i : (i < length rest)%nat → u8 (l2 ++ iph ++ (h ++ rest) ++ pad) (length l2 + length iph + length h + i) = u8 rest i.
Proof.
  intros Hi. rewrite <- app_assoc. replace (l2 ++ iph ++ h ++ rest ++ pad) with ((l2 ++ iph ++ h) ++ rest ++ pad) by (by rewrite <- !app_assoc).
  replace (length l2 + length iph + length h + i)%nat with (length (l2 ++ iph ++ h) + i)%nat by (rewrite !length_app; lia). by rewrite u8_shift, u8_app_l.
Qed.

Lemma be16_behind l2 iph h rest pad i : (i + 2 <= length rest)%nat → be16 (l2 ++ iph ++ (h ++ rest) ++ pad) (length l2 + length iph + length h + i) = be16 rest i.
Proof.
  intros Hi. rewrite <- app_assoc. replace (l2 ++ iph ++ h ++ rest ++ pad) with ((l2 ++ iph ++ h) ++ rest ++ pad) by (by rewrite <- !app_assoc).
  replace (length l2 + length iph + length h + i)%nat with (length (l2 ++ iph ++ h) + i)%nat by (rewrite !length_app; lia). by rewrite be16_shift, be16_app_l.
Qed.

Lemma syn_option_behind l2 iph h o pad i : length h = 20%nat → (i + 4 <= length o)%nat →
  syn_option (l2 ++ iph ++ (h ++ o) ++ pad) (length l2 + length iph + 20 + i) =
    ((u8 o i =? 1) && (u8 o (i + 1) =? 3) && (u8 o (i + 2) =? 3) && (u8 o (i + 3) =? 14)).
Proof.
  intros Hh Hi. unfold syn_option. rewrite <- !(Nat.add_assoc _ i). rewrite <- Hh. by rewrite !u8_behind by lia.
Qed.

(** What the carrier asks for is found, and the sum of what follows the header with it. *)
Lemma egress_kind_ok v6 proto l2 iph h rest pad skb segs meta off flags : length iph = iph_len v6 → length h = 20%nat → Forall is_byte rest →
  skb_is skb (l2 ++ iph ++ (h ++ rest) ++ pad) segs → asks meta rest off flags →
  ((if (24 <=? 20 + length rest)%nat then 24 else 20) + length l2 + iph_len v6 <= sk_linear skb)%nat →
  ∃ ps o1 o2, egress_kind skb (mkInfo (length l2) (length l2 + iph_len v6) (20 + length rest) (if v6 then 6 else 4) proto true) meta = Some (off, flags, ps, o1, o2) ∧
    same_sum (ps + o1 + o2) (word_sum rest) ∧ ps + o1 + o2 <= 200000.
Proof.
  intros Hl Hh Hb (Hbytes & _ & _) Hasks Hlin. unfold egress_kind. cbn [pi_l4_length pi_l4_offset]. unfold sizeof_udp_carrier. rewrite Hbytes. destruct Hasks as [meta Hm| |rest Hr].
  - cbn [length Nat.add Nat.eqb Nat.leb] in *. rewrite (proj2 (Nat.leb_le _ _)) by lia. rewrite <- Hl.
    rewrite <- (Nat.add_0_r (length l2 + length iph + 20)), syn_option_behind by (done || cbn; lia).
    exists 0, 259, 782. split; [|split; [apply same_sum_refl; cbn; lia|lia]].
    rewrite <- (Nat.add_assoc _ 0 2). rewrite <- Hh at 1 2. rewrite !be16_behind by (cbn; lia). by destruct Hm as [->| ->].
  - exists 0, 0, 0. split; [done|]. split; [apply same_sum_refl; done|lia].
  - rewrite (proj2 (Nat.eqb_neq (20 + length rest) (20 + 4))), (proj2 (Nat.eqb_neq (20 + length rest) 20)) by lia.
    exists (ones_sum (word_sum rest)), 0, 0. split; [done|]. rewrite !Z.add_0_r. pose proof (word_sum_bound rest Hb) as Hbd.
    pose proof (ones_sum_range (word_sum rest) ltac:(lia)) as Hr'. split; [|lia]. repeat split; try lia.
    + unfold ones_sum. destruct (Z.eqb_spec (word_sum rest) 0) as [->|]; [done|]. rewrite Zplus_mod_idemp_r. f_equal. lia.
    + intros E. unfold ones_sum in E. destruct (Z.eqb_spec (word_sum rest) 0); [done|]. pose proof (Z.mod_pos_bound (word_sum rest - 1) 65535). lia.
    + intros ->. done.
Qed.

Lemma header_sum_bound t : tcp_wf t → 0 <= tcp_header_sum t 0 <= 1000000.
Proof.
  intros []. unfold tcp_header_sum, is_u16, is_u32, is_u8, in_width in *. rewrite !halves_eq by lia. rewrite Z.shiftl_mul_pow2 by lia. change (2 ^ 8) with 256.
  Z.to_euclidean_division_equations. lia.
Qed.

Lemma addresses_bound v6 proto n l2 iph : ip_ok v6 proto n l2 iph → 0 <= word_sum (addresses v6 iph) <= 65535 * 32.
Proof.
  intros Hip. pose proof (io_len _ _ _ _ _ Hip) as Hl. pose proof (io_bytes _ _ _ _ _ Hip) as Hb. unfold addresses, iph_len in *.
  destruct v6.
  - pose proof (word_sum_bound (slice 8 40 iph) (slice_bytes _ _ _ Hb)) as H. rewrite length_slice in H by lia. lia.
  - pose proof (word_sum_bound (slice 12 20 iph) (slice_bytes _ _ _ Hb)) as H. rewrite length_slice in H by lia. lia.
Qed.

Lemma asks_flags meta rest off flags : asks meta rest off flags → is_u8 off ∧ is_u8 flags.
Proof. intros [m [->| ->]| |]; split; by vm_compute. Qed.

(** The checksum that is computed from the meta field makes the segment valid. *)
Lemma egress_valid v6 proto n l2 iph c off flags rest ps o1 o2 : ip_ok v6 proto n l2 iph → n = (20 + length rest)%nat → Z.of_nat n < 65536 → carrier_wf c → is_u8 off → is_u8 flags → Forall is_byte rest →
  same_sum (ps + o1 + o2) (word_sum rest) → ps + o1 + o2 <= 200000 →
  let t ck := mkTcp (uc_source c) (uc_destination c) (uc_sequence c) (uc_acknowledgement c) off flags 0xffff ck 0 in
  let ck := finish_checksum (ps + IPPROTO_TCP + Z.of_nat n + word_sum (addresses v6 iph) + tcp_header_sum (t 0) 0 + o1 + o2) in
  tcp_wf (t ck) ∧ l4_valid v6 iph IPPROTO_TCP (tcp_bytes (t ck) ++ rest).
Proof.
  intros Hip Hn Hlt [] Ho Hf Hrest (Hs1 & Hs2 & Hs3 & _) Hsb t ck. assert (∀ k, is_u16 k → tcp_wf (t k)) as Hwf by (intros k Hk; split; done || by vm_compute).
  pose proof (addresses_bound _ _ _ _ _ Hip) as Ha. pose proof (header_sum_bound (t 0) (Hwf 0 ltac:(by vm_compute))) as Hh.
  set (S := ps + IPPROTO_TCP + Z.of_nat n + word_sum (addresses v6 iph) + tcp_header_sum (t 0) 0 + o1 + o2) in *.
  assert (0 <= S < 2 ^ 32) as HS by (unfold S, IPPROTO_TCP; lia). destruct (finish_spec S HS) as [Hr Hm]. fold ck in Hr, Hm.
  assert (tcp_wf (t ck)) as Hw by (apply Hwf; unfold is_u16, in_width; lia). split; [done|].
  unfold l4_valid, l4_sum. rewrite length_app, length_tcp_bytes, <- Hn. rewrite word_sum_app by (rewrite length_tcp_bytes; by exists 10%nat).
  rewrite tcp_bytes_sum by done. change (tcp_header_sum (t ck) 0) with (tcp_header_sum (t 0) 0). change (th_checksum (t ck)) with ck.
  apply ones_sum_full; [unfold IPPROTO_TCP; lia|].
  transitivity ((S + ck) mod 65535); [|done].
  replace (S + ck) with (ps + o1 + o2 + (IPPROTO_TCP + Z.of_nat n + word_sum (addresses v6 iph) + tcp_header_sum (t 0) 0 + ck)) by (unfold S; lia).
  rewrite (Zplus_mod (ps + o1 + o2)), Hs3, <- Zplus_mod. f_equal. lia.
Qed.

(** A carrier becomes a valid segment with the fields of the carrier, in front of the same bytes. *)
Lemma egress_ok v6 n l2 iph c rest pad skb segs off flags : ip_ok v6 IPPROTO_UDP n l2 iph → n = (20 + length rest)%nat → Z.of_nat n < 65536 →
  carrier_wf c → Forall is_byte rest → uc_source c = managed_port → uc_length c = Z.of_nat n → uc_checksum c = 0 → uc_magic c = CarrierMagic →
  asks (uc_meta c) rest off flags → segs <= 1 → skb_is skb (l2 ++ iph ++ (carrier_bytes c ++ rest) ++ pad) segs →
  ∃ skb' ck, let t := mkTcp (uc_source c) (uc_destination c) (uc_sequence c) (uc_acknowledgement c) off flags 0xffff ck 0 in
    transform_egress managed_port skb (length l2) = (skb', TCX_NEXT) ∧ sk_bytes skb' = l2 ++ ip_with v6 IPPROTO_TCP iph ++ (tcp_bytes t ++ rest) ++ pad ∧
    tcp_wf t ∧ l4_valid v6 iph IPPROTO_TCP (tcp_bytes t ++ rest).
Proof using BL BR.
  intros Hip Hn Hlt Hc Hrest Hport Hlen Hck Hmagic Hasks Hsegs Hskb. pose proof (io_len _ _ _ _ _ Hip) as Hl. pose proof (length_carrier_bytes c) as Hcb.
  set (bytes := l2 ++ iph ++ (carrier_bytes c ++ rest) ++ pad) in *.
  assert (length bytes = length l2 + iph_len v6 + n + length pad)%nat as HL by (unfold bytes; rewrite !length_app; lia).
  destruct (parse_ok v6 IPPROTO_UDP n l2 iph (carrier_bytes c ++ rest) pad skb segs Hip) as (skb1 & Hparse & Hskb1 & _); [rewrite length_app; lia|lia|done|].
  unfold transform_egress. rewrite Hparse. cbn [pi_protocol pi_l4_length pi_l4_offset pi_l3_offset pi_standard pi_version].
  change (IPPROTO_UDP =? IPPROTO_UDP) with true. cbn [negb orb]. unfold sizeof_udp_carrier, sizeof_tcp_header. rewrite (proj2 (Nat.ltb_ge n 20)) by lia.
  change (20 + 4)%nat with 24%nat. set (pull := (length l2 + iph_len v6 + 20 + (if (24 <=? n)%nat then 4 else 0))%nat).
  assert (iph_len v6 <= 40)%nat as Hil by (destruct v6; cbn; lia).
  rewrite (proj2 (Nat.ltb_ge _ pull)) by (unfold pull; case_goal; lia).
  destruct (mapped_ok skb1 bytes segs pull Hskb1) as (skb2 & Hm & Hskb2 & Hlin).
  { unfold pull. destruct (Nat.leb_spec 24 n); lia. }
  rewrite Hm. pose proof Hskb2 as (Hb2 & Hg2 & _). rewrite Hb2, Hg2.
  rewrite (proj2 (Nat.ltb_ge (sk_linear skb2) _)) by (unfold pull in Hlin; lia).
  assert (read_carrier bytes (length l2 + iph_len v6) = c) as Hread.
  { unfold bytes. rewrite app_assoc, read_carrier_shift by (rewrite length_app; lia). rewrite <- app_assoc. by apply read_carrier_bytes. }
  rewrite Hread, Hmagic, Hck, Hport, Hlen, !Z.eqb_refl. change (0 =? 0) with true. cbn [negb orb]. rewrite (proj2 (Z.ltb_ge 1 segs)) by done. cbn [orb].
  destruct (egress_kind_ok v6 IPPROTO_UDP l2 iph (carrier_bytes c) rest pad skb2 segs (uc_meta c) off flags Hl Hcb Hrest Hskb2 Hasks) as (ps & o1 & o2 & Hk & Hsum & Hbd).
  { rewrite <- Hn. unfold pull in Hlin. destruct (24 <=? n)%nat; lia. }
  rewrite <- Hn in Hk. rewrite Hk.
  assert ((pi_version (mkInfo 0 0 0 (if v6 then 6 else 4) 0 true) =? 4) && (sk_linear skb2 <? length l2 + sizeof_ipv4_header)%nat = false) as Hguard.
  { apply andb_false_iff. right. apply Nat.ltb_ge. unfold sizeof_ipv4_header, pull in *. destruct v6; cbn [iph_len] in *; lia. }
  cbn [pi_version] in Hguard. rewrite Hguard.
  pose proof (λ t, tcp_checksum_ok v6 IPPROTO_UDP n l2 iph ((carrier_bytes c ++ rest) ++ pad) t ps o1 o2 Hip) as Htc. fold bytes in Htc. rewrite Htc. clear Htc.
  destruct (asks_flags _ _ _ _ Hasks) as [Ho Hf].
  pose proof (egress_valid v6 IPPROTO_UDP n l2 iph c off flags rest ps o1 o2 Hip Hn Hlt Hc Ho Hf Hrest Hsum Hbd) as Hval. cbv zeta in Hval. rewrite Hport in Hval.
  set (ck := finish_checksum _) in *. set (t := mkTcp _ _ _ _ _ _ _ ck _) in *.
  destruct (replace_header v6 IPPROTO_UDP IPPROTO_TCP n l2 iph (carrier_bytes c) (tcp_bytes t) rest pad skb2 segs Hip Hcb (length_tcp_bytes t) Hskb2) as (skb3 & skb4 & Hst & Hup & Hb4).
  rewrite Hst. fold bytes in Hup. rewrite Hup.
  exists skb4, ck. done.
Qed.

(** ** The way in *)

Lemma accepts_header off flags rest : accepts off flags rest → is_u8 off ∧ is_u8 flags ∧ Z.land off 0xf = 0 ∧ (20 <= Z.to_nat (Z.shiftr off 4 * 4) <= 60)%nat ∧
  (Z.to_nat (Z.shiftr off 4 * 4) <= 20 + length rest)%nat.
Proof.
  intros Hacc. assert (flags ∈ [TCPFlagSYN; Z.lor TCPFlagSYN TCPFlagACK; TCPFlagACK; Z.lor TCPFlagFIN TCPFlagACK; TCPFlagRST; Z.lor TCPFlagRST TCPFlagACK]) as Hf.
  { destruct Hacc; set_solver. }
  assert (is_u8 flags) by (repeat (apply elem_of_cons in Hf as [->|Hf]; [by vm_compute|]); by apply not_elem_of_nil in Hf).
  destruct Hacc; (split; [by vm_compute|]); (split; [done|]); (split; [done|]);
    match goal with |- context [Z.to_nat ?x] => let v := eval vm_compute in (Z.to_nat x) in change (Z.to_nat x) with v end; cbn [length]; lia.
Qed.

Lemma segment_accepted_ok v6 proto l2 iph h rest pad skb segs off flags : length iph = iph_len v6 → length h = 20%nat → skb_is skb (l2 ++ iph ++ (h ++ rest) ++ pad) segs →
  accepts off flags rest → (length l2 + iph_len v6 + Z.to_nat (Z.shiftr off 4 * 4) <= sk_linear skb)%nat →
  segment_accepted skb (mkInfo (length l2) (length l2 + iph_len v6) (20 + length rest) (if v6 then 6 else 4) proto true) flags (Z.to_nat (Z.shiftr off 4 * 4)) = true.
Proof.
  intros Hl Hh (Hbytes & _ & _) Hacc Hlin. unfold segment_accepted. cbn [pi_l4_offset pi_l4_length]. unfold sizeof_tcp_header. rewrite Hbytes, <- Hl in *.
  destruct Hacc as [flags Hf|flags x y Hf|flags Hf|rest Hr].
  - change (Z.to_nat (Z.shiftr 0x60 4 * 4)) with 24%nat in *. cbn [length Nat.add Nat.eqb]. rewrite (proj2 (Nat.leb_le (length l2 + length iph + 20 + 4) _)) by lia.
    rewrite <- (Nat.add_0_r (length l2 + length iph + 20)), syn_option_behind by (done || cbn; lia). by destruct Hf as [->| ->].
  - change (Z.to_nat (Z.shiftr 0x70 4 * 4)) with 28%nat in *. cbn [length Nat.add Nat.eqb]. rewrite (proj2 (Nat.leb_le (length l2 + length iph + 20 + 8) _)) by lia.
    rewrite syn_option_behind by (done || cbn; lia).
    assert (∀ i, (i < 8)%nat → u8 (l2 ++ iph ++ (h ++ [2; 4; x; y; 1; 3; 3; 14]) ++ pad) (length l2 + length iph + 20 + i) = u8 [2; 4; x; y; 1; 3; 3; 14] i) as Hu.
    { intros i Hi. rewrite <- Hh. by rewrite u8_behind by (cbn; lia). }
    rewrite Hu by lia. pose proof (Hu 0%nat ltac:(lia)) as Hu0. rewrite Nat.add_0_r in Hu0. rewrite Hu0.
    rewrite orb_true_r by done. by destruct Hf as [->| ->].
  - change (Z.to_nat (Z.shiftr 0x50 4 * 4)) with 20%nat in *. cbn [length Nat.add Nat.eqb].
    repeat (apply elem_of_cons in Hf as [->|Hf]; [done|]). by apply not_elem_of_nil in Hf.
  - change (Z.to_nat (Z.shiftr 0x50 4 * 4)) with 20%nat in *. destruct rest as [|z rest]; [done|]. cbn [length].
    rewrite (proj2 (Nat.eqb_neq (20 + S (length rest)) 20)) by lia. done.
Qed.

(** Taking the header of the segment out of its checksum and putting that of the carrier in. *)
Lemma ingress_checksum_ok v6 proto n l2 iph t rest : ip_ok v6 proto n l2 iph → n = (20 + length rest)%nat → Z.of_nat n < 65536 → tcp_wf t → Forall is_byte rest →
  let c ck := mkCarrier (th_source t) (th_destination t) (Z.of_nat n) ck CarrierMagic (th_flags t) (th_sequence t) (th_acknowledgement t) in
  let ck := ingress_checksum t (c 0) in
  carrier_wf (c ck) ∧ 0 < ck ∧ (l4_valid v6 iph IPPROTO_UDP (carrier_bytes (c ck) ++ rest) ↔ l4_valid v6 iph IPPROTO_TCP (tcp_bytes t ++ rest)).
Proof.
  intros Hip Hn Hlt Ht Hrest c ck. pose proof Ht as [].
  assert (∀ k, is_u16 k → carrier_wf (c k)) as Hwf.
  { intros k Hk. split; try done; unfold is_u16, is_u8, in_width in *; cbn; lia. }
  pose proof (addresses_bound _ _ _ _ _ Hip) as Ha. pose proof (header_sum_bound t Ht) as Hh. pose proof (word_sum_bound rest Hrest) as Hw.
  assert (∀ k, carrier_header_sum (c k) 0 = carrier_header_sum (c 0) 0) as Hck by done.
  assert (0 <= carrier_header_sum (c 0) 0 <= 1000000) as Hcs.
  { unfold carrier_header_sum, c, CarrierMagic. cbn. unfold is_u16, is_u32, is_u8, in_width in *. rewrite !halves_eq by lia. Z.to_euclidean_division_equations. lia. }
  set (S := inverse16 (th_checksum t) + (subtract_tcp_header t 0) + inverse16 IPPROTO_TCP + carrier_header_sum (c 0) 0 + IPPROTO_UDP).
  assert (ck = finish_checksum S) as Hckf by (unfold ck, ingress_checksum; f_equal; unfold S, subtract_tcp_header, carrier_header_sum; lia).
  assert (subtract_tcp_header t 0 = 9 * 65535 - tcp_header_sum t 0) as Hsub.
  { unfold subtract_tcp_header, tcp_header_sum, inverse16, halves. lia. }
  assert (0 <= S < 2 ^ 32) as HS.
  { unfold S. rewrite Hsub. unfold inverse16, IPPROTO_TCP, IPPROTO_UDP, is_u16, in_width in *.
    assert (tcp_header_sum t 0 <= 9 * 65535); [|lia]. unfold tcp_header_sum, is_u8, is_u32, in_width in *. rewrite !halves_eq by lia.
    rewrite Z.shiftl_mul_pow2 by lia. change (2 ^ 8) with 256. Z.to_euclidean_division_equations. lia. }
  destruct (finish_spec S HS) as [Hr Hm]. rewrite <- Hckf in Hr, Hm.
  assert (carrier_wf (c ck)) as Hwc by (apply Hwf; unfold is_u16, in_width; lia). split; [done|]. split; [lia|].
  unfold l4_valid, l4_sum. rewrite !length_app, length_carrier_bytes, length_tcp_bytes, <- Hn.
  rewrite !word_sum_app by (rewrite ?length_carrier_bytes, ?length_tcp_bytes; by exists 10%nat).
  rewrite carrier_bytes_sum, tcp_bytes_sum, Hck by done. change (uc_checksum (c ck)) with ck. unfold is_u16, in_width in *.
  rewrite !ones_sum_full by (unfold IPPROTO_TCP, IPPROTO_UDP; lia).
  set (T := word_sum (addresses v6 iph) + IPPROTO_TCP + Z.of_nat n + (tcp_header_sum t 0 + th_checksum t + word_sum rest)).
  replace (word_sum (addresses v6 iph) + IPPROTO_UDP + Z.of_nat n + (carrier_header_sum (c 0) 0 + ck + word_sum rest))
    with (T + (S + ck) + (-11) * 65535) by (unfold T, S; rewrite Hsub; unfold inverse16; lia).
  rewrite Z.mod_add, Zplus_mod, Hm, Z.add_0_r, Zmod_mod by lia. done.
Qed.

(** A segment becomes a carrier with its flags in the meta field; its checksum is right exactly if that of the segment was,
    and missing if several segments were put together. *)
Lemma ingress_ok v6 n l2 iph t rest pad skb segs : ip_ok v6 IPPROTO_TCP n l2 iph → n = (20 + length rest)%nat → Z.of_nat n < 65536 →
  tcp_wf t → Forall is_byte rest → th_destination t = managed_port → accepts (th_data_offset t) (th_flags t) rest →
  skb_is skb (l2 ++ iph ++ (tcp_bytes t ++ rest) ++ pad) segs →
  ∃ skb' ck, let c := mkCarrier (th_source t) (th_destination t) (Z.of_nat n) ck CarrierMagic (th_flags t) (th_sequence t) (th_acknowledgement t) in
    transform_ingress managed_port skb (length l2) = (skb', TCX_NEXT) ∧ sk_bytes skb' = l2 ++ ip_with v6 IPPROTO_UDP iph ++ (carrier_bytes c ++ rest) ++ pad ∧
    carrier_wf c ∧
    (if segs <=? 1 then 0 < ck ∧ (l4_valid v6 iph IPPROTO_UDP (carrier_bytes c ++ rest) ↔ l4_valid v6 iph IPPROTO_TCP (tcp_bytes t ++ rest)) else ck = 0).
Proof using BL BR.
  intros Hip Hn Hlt Ht Hrest Hport Hacc Hskb. pose proof (io_len _ _ _ _ _ Hip) as Hl. pose proof (length_tcp_bytes t) as Htb.
  set (bytes := l2 ++ iph ++ (tcp_bytes t ++ rest) ++ pad) in *.
  assert (length bytes = length l2 + iph_len v6 + n + length pad)%nat as HL by (unfold bytes; rewrite !length_app; lia).
  destruct (parse_ok v6 IPPROTO_TCP n l2 iph (tcp_bytes t ++ rest) pad skb segs Hip) as (skb1 & Hparse & Hskb1 & _); [rewrite length_app; lia|lia|done|].
  unfold transform_ingress. rewrite Hparse. cbn [pi_protocol pi_l4_length pi_l4_offset pi_l3_offset pi_standard pi_version].
  change (IPPROTO_TCP =? IPPROTO_TCP) with true. cbn [negb orb]. unfold sizeof_tcp_header. rewrite (proj2 (Nat.ltb_ge n 20)) by lia.
  destruct (mapped_ok skb1 bytes segs (length l2 + iph_len v6 + 20) Hskb1) as (skb2 & Hm2 & Hskb2 & Hlin2); [lia|]. rewrite Hm2. pose proof Hskb2 as (Hb2 & _ & _). rewrite Hb2.
  assert (read_tcp bytes (length l2 + iph_len v6) = t) as Hread.
  { unfold bytes. rewrite app_assoc, read_tcp_shift by (rewrite length_app; lia). rewrite <- app_assoc. by apply read_tcp_bytes. }
  rewrite Hread, Hport, Z.eqb_refl. rewrite (proj2 (Nat.ltb_ge (sk_linear skb2) _)) by done. cbn [negb orb].
  destruct (accepts_header _ _ _ Hacc) as (_ & _ & Hland & Hhl & Hhl'). rewrite Hland. change (0 =? 0) with true. cbn [negb orb].
  set (hl := Z.to_nat (Z.shiftr (th_data_offset t) 4 * 4)) in *.
  rewrite (proj2 (Nat.ltb_ge hl 20)), (proj2 (Nat.ltb_ge 60 hl)), (proj2 (Nat.ltb_ge n hl)) by lia. cbn [orb].
  destruct (mapped_ok skb2 bytes segs (length l2 + iph_len v6 + hl) Hskb2) as (skb3 & Hm3 & Hskb3 & Hlin3); [lia|]. rewrite Hm3. pose proof Hskb3 as (Hb3 & Hg3 & _). rewrite Hb3, Hg3.
  rewrite (proj2 (Nat.ltb_ge (sk_linear skb3) _)) by done.
  pose proof (segment_accepted_ok v6 IPPROTO_TCP l2 iph (tcp_bytes t) rest pad skb3 segs _ _ Hl Htb Hskb3 Hacc Hlin3) as Hsa. rewrite <- Hn in Hsa. fold hl in Hsa. rewrite Hsa. cbn [negb].
  assert (((if v6 then 6 else 4) =? 4) && (sk_linear skb3 <? length l2 + sizeof_ipv4_header)%nat = false) as Hguard.
  { apply andb_false_iff. right. apply Nat.ltb_ge. unfold sizeof_ipv4_header in *. destruct v6; cbn [iph_len] in *; lia. }
  rewrite Hguard. pose proof (ingress_checksum_ok v6 IPPROTO_TCP n l2 iph t rest Hip Hn Hlt Ht Hrest) as (Hcw & Hpos & Hiff). rewrite Hport in Hcw, Hpos, Hiff.
  set (ck := if segs <=? 1 then _ else 0). set (c := mkCarrier _ _ _ ck _ _ _ _).
  destruct (replace_header v6 IPPROTO_TCP IPPROTO_UDP n l2 iph (tcp_bytes t) (carrier_bytes c) rest pad skb3 segs Hip Htb (length_carrier_bytes c) Hskb3) as (skb4 & skb5 & Hst & Hup & Hb5).
  rewrite Hst. fold bytes in Hup. rewrite Hup. destruct (csum_level_succeeds skb5) as [skb6 Hcs]. rewrite Hcs. exists skb6, ck. cbv zeta. rewrite (csum_level_spec _ _ Hcs).
  split; [done|]. split; [done|]. unfold c, ck. destruct (segs <=? 1); [done|]. split; [|done]. by destruct Hcw; split.
Qed.

End path.

(** ** Helpers that fail *)

Section failing.
Context {B : Bpf} {BL : BpfLaws} (managed_port : Z).

(** What may have happened to the bytes of a packet that passes: nothing, or both the transport header and the protocol
    in the IP header at [l3] were written. *)
Definition all_or_nothing (proto : Z) (hdr : list Z → Prop) (l3 : nat) (bytes bytes' : list Z) : Prop :=
  bytes' = bytes ∨ ∃ l4 h i ip, hdr h ∧ bytes' = write_at i ip (write_at l4 h bytes) ∧
    (i = l3 ∧ length ip = sizeof_ipv4_header ∧ ip !! 9%nat = Some proto ∨ i = (l3 + 6)%nat ∧ ip = [proto]).

Abbreviation linear_ok skb := (sk_linear skb <= length (sk_bytes skb))%nat.

Lemma mapped_bytes skb n skb' : linear_ok skb → mapped skb n = Some skb' → sk_bytes skb' = sk_bytes skb ∧ linear_ok skb'.
Proof using BL.
  unfold mapped. intros Hl. case_goal; [|by intros [= <-]]. intros (-> & _ & ?)%pull_data_spec. split; [done|lia].
Qed.

Lemma parse_packet_bytes skb l3 skb' info : linear_ok skb → parse_packet skb l3 = Some (skb', info) →
  sk_bytes skb' = sk_bytes skb ∧ linear_ok skb' ∧ pi_l3_offset info = l3.
Proof using BL.
  unfold parse_packet. intros Hl (skb1 & [Hb Hl1]%mapped_bytes & H)%bind_Some; [|done].
  case_hyp H; [done|]. apply bind_Some in H as (version & _ & H).
  destruct (version =? 4); repeat case_hyp H; simplify_eq; done.
Qed.

Lemma update_ip_protocol_bytes skb info proto ipv4 skb' : (pi_version info =? 4 = true → length ipv4 = sizeof_ipv4_header) →
  update_ip_protocol skb info proto ipv4 = Some skb' → ∃ i ip, sk_bytes skb' = write_at i ip (sk_bytes skb) ∧
    (i = pi_l3_offset info ∧ length ip = sizeof_ipv4_header ∧ ip !! 9%nat = Some proto ∨ i = (pi_l3_offset info + 6)%nat ∧ ip = [proto]).
Proof using BL.
  unfold update_ip_protocol. intros Hip. case_goal.
  - specialize (Hip eq_refl). intros (-> & _)%store_bytes_spec. eexists _, _. split; [done|]. left. split; [done|].
    rewrite !length_write_at by (rewrite ?length_write_at, ?length_be_encode; cbn; unfold sizeof_ipv4_header in *; rewrite ?length_write_at; cbn; lia).
    split; [done|]. unfold sizeof_ipv4_header in *.
    rewrite !lookup_write_at, !decide_False, decide_True by (rewrite ?length_write_at, ?length_be_encode; cbn; rewrite ?length_write_at; cbn; lia). done.
  - intros (-> & _)%store_bytes_spec. eexists _, _. split; [done|]. by right.
Qed.

Lemma ipv4_slice skb l3 (b : bool) : linear_ok skb → b && (sk_linear skb <? l3 + sizeof_ipv4_header)%nat = false →
  b = true → length (slice l3 (l3 + sizeof_ipv4_header) (sk_bytes skb)) = sizeof_ipv4_header.
Proof. intros Hl Hb ->. cbn in Hb. apply Nat.ltb_ge in Hb. rewrite length_slice by lia. lia. Qed.

(** whatever the helpers of the kernel do, a packet that leaves the program at the sender is as it was or has both
    its transport header and its protocol changed; if a helper fails in between, it is dropped. *)
Theorem egress_all_or_nothing skb l3 skb' : linear_ok skb → transform_egress managed_port skb l3 = (skb', TCX_NEXT) →
  all_or_nothing IPPROTO_TCP (λ h, ∃ t, h = tcp_bytes t) l3 (sk_bytes skb) (sk_bytes skb').
Proof using BL.
  unfold transform_egress, all_or_nothing. intros Hl. destruct (parse_packet skb l3) as [[skb1 info]|] eqn:Ep; [|intros [= <-]; by left].
  destruct (parse_packet_bytes _ _ _ _ Hl Ep) as (Hb1 & Hl1 & <-). rewrite <- Hb1. repeat (case_goal; [intros [= <-]; by left|]).
  destruct (mapped skb1 _) as [skb2|] eqn:Em; [|intros [= <-]; by left]. destruct (mapped_bytes _ _ _ Hl1 Em) as [Hb2 Hl2]. rewrite <- Hb2.
  repeat (case_goal; [intros [= <-]; by left|]).
  destruct (egress_kind skb2 info _) as [[[[[off flags] psum] o1] o2]|]; [|done]. match goal with |- context [if ?b && _ then _ else _] => destruct (b && _) eqn:E4; [done|] end.
  destruct (bpf_skb_store_bytes skb2 _ _) as [skb3|] eqn:Es; [|done].
  destruct (update_ip_protocol skb3 info _ _) as [skb4|] eqn:Eu; [|done]. intros [= <-]. right.
  apply update_ip_protocol_bytes in Eu as (i & ip & -> & Hip); [|by eapply ipv4_slice]. apply store_bytes_spec in Es as (-> & _).
  eexists _, _, i, ip. split; [by eexists|]. done.
Qed.

(** the same at the receiver. *)
Theorem ingress_all_or_nothing skb l3 skb' : linear_ok skb → transform_ingress managed_port skb l3 = (skb', TCX_NEXT) →
  all_or_nothing IPPROTO_UDP (λ h, ∃ c, h = carrier_bytes c) l3 (sk_bytes skb) (sk_bytes skb').
Proof using BL.
  unfold transform_ingress, all_or_nothing. intros Hl. destruct (parse_packet skb l3) as [[skb1 info]|] eqn:Ep; [|intros [= <-]; by left].
  destruct (parse_packet_bytes _ _ _ _ Hl Ep) as (Hb1 & Hl1 & <-). rewrite <- Hb1. case_goal; [intros [= <-]; by left|].
  destruct (mapped skb1 _) as [skb2|] eqn:Em; [|intros [= <-]; by left]. destruct (mapped_bytes _ _ _ Hl1 Em) as [Hb2 Hl2]. rewrite <- Hb2.
  case_goal; [intros [= <-]; by left|]. repeat (case_goal; [done|]).
  destruct (mapped skb2 _) as [skb3|] eqn:Em2; [|done]. destruct (mapped_bytes _ _ _ Hl2 Em2) as [Hb3 Hl3]. rewrite <- Hb3.
  repeat (case_goal; [done|]).
  destruct (bpf_skb_store_bytes skb3 _ _) as [skb4|] eqn:Es; [|done].
  destruct (update_ip_protocol skb4 info _ _) as [skb5|] eqn:Eu; [|done]. destruct (bpf_csum_level skb5) as [skb6|] eqn:Ec; [|done]. intros [= <-]. right.
  apply csum_level_spec in Ec as ->.
  apply update_ip_protocol_bytes in Eu as (i & ip & -> & Hip); [|by eapply ipv4_slice]. apply store_bytes_spec in Es as (-> & _).
  eexists _, _, i, ip. split; [by eexists|]. done.
Qed.

End failing.

(** ** Both ways *)

(** A UDP datagram without a checksum, as a socket with [SO_NO_CHECK] or [UDP_NO_CHECK6_TX] sends it. *)
Definition udp_datagram (sport dport : Z) (payload : list Z) : list Z :=
  be_encode 2 sport ++ be_encode 2 dport ++ be_encode 2 (Z.of_nat (8 + length payload)) ++ [0; 0] ++ payload.

(** The offset of the data in the segment. *)
Definition offset_of (packet : fakeTCPPacket) : Z := if has_flag (fp_flags packet) TCPFlagSYN then 0x60 else 0x50.

Lemma sendable_rest packet : sendable packet → (has_flag (fp_flags packet) TCPFlagSYN = true ∧ rest_of packet = [1; 3; 3; 14]) ∨
  (fp_flags packet = TCPFlagACK ∧ bs_data (fp_payload packet) = [] ∧ rest_of packet = []) ∨
  (fp_flags packet = TCPFlagACK ∧ bs_data (fp_payload packet) ≠ [] ∧ rest_of packet = frame_of (bs_data (fp_payload packet)) ∧ (4 < length (rest_of packet))%nat).
Proof.
  intros [Hf Hp|Hf Hp|Hf Hp|Hf Hmin Hl Hb]; unfold rest_of; rewrite Hf; [by left..|right; left; by rewrite Hp|]. right. right.
  change (has_flag TCPFlagACK TCPFlagSYN) with false. cbv iota. unfold MinFramePayloadSize in Hmin.
  destruct (bs_data (fp_payload packet)) eqn:E; [cbn in Hmin; lia|]. rewrite <- E in *. repeat split; [by rewrite E|].
  unfold frame_of. rewrite length_app, length_be_encode. lia.
Qed.

Lemma sendable_asks packet : sendable packet → asks (meta_of packet) (rest_of packet) (offset_of packet) (fp_flags packet).
Proof.
  intros Hs. destruct (sendable_rest packet Hs) as [[Hf Hr]|[(Hf & Hp & Hr)|(Hf & Hp & Hr & Hl)]]; unfold offset_of, meta_of.
  - rewrite Hf, Hr. destruct Hs as [Hf' Hp|Hf' Hp|Hf' Hp|Hf' _ _ _]; rewrite Hf' in Hf; try done; rewrite Hp; constructor; rewrite Hf'; tauto.
  - rewrite Hp, Hr, Hf. constructor.
  - destruct (bs_data (fp_payload packet)); [done|]. rewrite Hf. by constructor.
Qed.

Lemma sendable_accepts packet : sendable packet → accepts (offset_of packet) (fp_flags packet) (rest_of packet).
Proof.
  intros Hs. destruct (sendable_asks packet Hs) as [meta Hm| |rest Hr]; [by constructor|by constructor; left|]. constructor. intros ->. cbn in Hr. lia.
Qed.

Lemma sendable_fields packet : sendable packet → is_u8 (fp_flags packet) ∧ is_u16 (meta_of packet) ∧ Forall is_byte (rest_of packet).
Proof.
  intros Hs. destruct (asks_flags _ _ _ _ (sendable_asks packet Hs)) as [_ Hf]. split; [done|]. split; [by apply meta_of_range|by apply rest_of_bytes].
Qed.

Section crossing.
Context {B : Bpf} {BL : BpfLaws} {BR : BpfReliable}.

(** C22: A segment that the bind sends crosses the network as TCP: the program at the sender turns its datagram into an IP packet
    with a TCP segment that has correct checksums, the ports of the datagram and the sequence numbers and flags of the packet, and the
    program at the receiver turns that segment, whatever the link layer and however padded, into a datagram with a correct checksum
    that is read as the same packet.  The packet is one segment, its ports and numbers are in range, its IP header has no options, and
    the helpers of the kernel do not fail on arguments within the packet; [egress_all_or_nothing] and [ingress_all_or_nothing] say what
    happens if they do. *)
Theorem segment_crosses packet v6 l2 iph pad skb segs sport dport carrier : sendable packet → is_u32 (fp_seq packet) → is_u32 (fp_ack packet) →
  is_u16 sport → is_u16 dport → marshalFakeTCPPacket packet = Some carrier → let n := (8 + length carrier)%nat in Z.of_nat n < 65536 →
  ip_ok v6 IPPROTO_UDP n l2 iph → segs <= 1 → skb_is skb (l2 ++ iph ++ udp_datagram sport dport carrier ++ pad) segs →
  ∃ skb' t, let seg := tcp_bytes t ++ rest_of packet in
    transform_egress sport skb (length l2) = (skb', TCX_NEXT) ∧ sk_bytes skb' = l2 ++ ip_with v6 IPPROTO_TCP iph ++ seg ++ pad ∧
    ip_ok v6 IPPROTO_TCP n l2 (ip_with v6 IPPROTO_TCP iph) ∧ (v6 = false → ones_sum (word_sum (ip_with v6 IPPROTO_TCP iph)) = 65535) ∧
    l4_valid v6 (ip_with v6 IPPROTO_TCP iph) IPPROTO_TCP seg ∧
    t = mkTcp sport dport (fp_seq packet) (fp_ack packet) (offset_of packet) (fp_flags packet) 0xffff (th_checksum t) 0 ∧
    ∀ l2' iph' pad' skb2 segs2, ip_ok v6 IPPROTO_TCP n l2' iph' → addresses v6 iph' = addresses v6 iph → segs2 <= 1 → skb_is skb2 (l2' ++ iph' ++ seg ++ pad') segs2 →
    ∃ skb3 dgram, transform_ingress dport skb2 (length l2') = (skb3, TCX_NEXT) ∧ sk_bytes skb3 = l2' ++ ip_with v6 IPPROTO_UDP iph' ++ dgram ++ pad' ∧
      ip_ok v6 IPPROTO_UDP n l2' (ip_with v6 IPPROTO_UDP iph') ∧ l4_valid v6 (ip_with v6 IPPROTO_UDP iph') IPPROTO_UDP dgram ∧
      take 6 dgram = be_encode 2 sport ++ be_encode 2 dport ++ be_encode 2 (Z.of_nat n) ∧
      drop 8 dgram = wire carrier ∧ parse_carrier (drop 8 dgram) = Segment (received packet) (match bs_data (fp_payload packet) with [] => 0 | _ => 1 end).
Proof using BL BR.
  intros Hs Hseq Hack Hsp Hdp Hmar n Hn Hip Hsegs Hskb. rewrite marshal_sendable in Hmar by done. injection Hmar as <-.
  destruct (sendable_fields packet Hs) as (Hf & Hmeta & Hrest). pose proof (parse_received packet Hs Hseq Hack) as Hparse.
  assert (n = 20 + length (rest_of packet))%nat as Hn' by (unfold n, carrier_of; rewrite !length_app, !length_be_encode; lia).
  assert (∀ ck meta, be_encode 2 sport ++ be_encode 2 dport ++ be_encode 2 (Z.of_nat n) ++ be_encode 2 ck ++ carrier_of meta (fp_seq packet) (fp_ack packet) (rest_of packet) =
    carrier_bytes (mkCarrier sport dport (Z.of_nat n) ck CarrierMagic meta (fp_seq packet) (fp_ack packet)) ++ rest_of packet) as Hbytes.
  { intros ck meta. unfold carrier_bytes, carrier_of. cbn [uc_source uc_destination uc_length uc_checksum uc_magic uc_meta uc_sequence uc_acknowledgement]. by rewrite <- !app_assoc. }
  unfold udp_datagram in Hskb. rewrite <- !app_assoc in Hskb. pose proof (Hbytes 0 (meta_of packet)) as Hb0. change (be_encode 2 0) with [0; 0] in Hb0.
  set (c := mkCarrier sport dport (Z.of_nat n) 0 CarrierMagic (meta_of packet) (fp_seq packet) (fp_ack packet)) in *.
  assert (carrier_wf c) as Hc by (split; try done; try (by vm_compute); unfold is_u16, in_width; cbn; lia).
  destruct (egress_ok sport v6 n l2 iph c (rest_of packet) pad skb segs (offset_of packet) (fp_flags packet) Hip Hn' Hn Hc Hrest eq_refl eq_refl eq_refl eq_refl
    (sendable_asks packet Hs) Hsegs) as (skb' & ck & Heg & Hb' & Hwf & Hval).
  { rewrite <- Hb0, <- !app_assoc. exact Hskb. }
  destruct (ip_with_ok v6 IPPROTO_UDP IPPROTO_TCP n l2 iph Hip ltac:(by vm_compute)) as [Hok Haddr].
  eexists skb', _. cbv zeta. split; [exact Heg|]. split; [exact Hb'|]. split; [exact Hok|].
  split; [by eapply ip_with_valid; [exact Hip|by vm_compute]|]. split; [unfold l4_valid, l4_sum in *; rewrite Haddr; exact Hval|]. split; [done|].
  intros l2' iph' pad' skb2 segs2 Hip2 Haddr2 Hsegs2 Hskb2.
  destruct (ingress_ok dport v6 n l2' iph' _ (rest_of packet) pad' skb2 segs2 Hip2 Hn' Hn Hwf Hrest eq_refl (sendable_accepts packet Hs) Hskb2) as (skb3 & ck2 & Hin & Hb3 & Hcw & Hck).
  cbn [th_source th_destination th_flags th_sequence th_acknowledgement] in Hin, Hb3, Hcw, Hck. rewrite (proj2 (Z.leb_le segs2 1)) in Hck by done. destruct Hck as [_ Hiff].
  destruct (ip_with_ok v6 IPPROTO_TCP IPPROTO_UDP n l2' iph' Hip2 ltac:(by vm_compute)) as [Hok2 Haddr3].
  eexists skb3, _. split; [exact Hin|]. split; [exact Hb3|]. split; [exact Hok2|].
  unfold c in Hval. cbn [uc_source uc_destination uc_sequence uc_acknowledgement] in Hval.
  split; [unfold l4_valid, l4_sum in *; rewrite Haddr3; apply Hiff; rewrite Haddr2; exact Hval|]. rewrite <- Hbytes. split; [done|]. split; [|exact Hparse].
  by rewrite wire_sendable.
Qed.

End crossing.

(** ** An instance *)

Module CrossingDemo.

#[local] Existing Instances plain_bpf.

(** A data segment from 10.0.0.1 to 10.0.0.2 on an Ethernet link. *)
Definition packet : fakeTCPPacket := mkFake TCPFlagACK 1000 2000 (mkBslice (replicate 40 0x5a) (replicate 16 0)).
Definition carrier : list Z := default [] (marshalFakeTCPPacket packet).
Definition l2 : list Z := replicate 12 2 ++ [0x08; 0].
Definition iph : list Z := [0x45; 0; 0; 82; 0; 0; 0x40; 0; 64; 17; 0; 0; 10; 0; 0; 1; 10; 0; 0; 2].
Definition skb : sk_buff := mkSkb (l2 ++ iph ++ udp_datagram 51820 51820 carrier ++ []) 14 1.

Lemma segment_crosses_witness : ∃ skb' t skb3 dgram, transform_egress 51820 skb 14 = (skb', TCX_NEXT) ∧
  sk_bytes skb' = l2 ++ ip_with false IPPROTO_TCP iph ++ (tcp_bytes t ++ rest_of packet) ++ [] ∧
  transform_ingress 51820 (mkSkb (sk_bytes skb') 14 1) 14 = (skb3, TCX_NEXT) ∧
  parse_carrier (drop 8 dgram) = Segment (received packet) 1.
Proof.
  assert (Forall is_byte (replicate 40 0x5a)) as Hb by (apply Forall_replicate; by vm_compute).
  destruct (segment_crosses packet false l2 iph [] skb 1 51820 51820 carrier) as (skb' & t & Heg & Hb' & Hok & _ & _ & _ & Hin).
  - apply send_data; [done|cbn; unfold MinFramePayloadSize; lia|cbn; lia|exact Hb].
  - by vm_compute.
  - by vm_compute.
  - by vm_compute.
  - by vm_compute.
  - vm_compute. reflexivity.
  - by vm_compute.
  - split; try (by vm_compute).
    + right. by vm_compute.
    + repeat (apply Forall_cons; split; [by vm_compute|]). constructor.
  - done.
  - split; [done|]. split; [done|]. vm_compute. lia.
  - destruct (Hin l2 (ip_with false IPPROTO_TCP iph) [] (mkSkb (sk_bytes skb') 14 1) 1) as (skb3 & dgram & Htr & _ & _ & _ & _ & _ & Hparse).
    + exact Hok.
    + by vm_compute.
    + done.
    + split; [exact Hb'|]. split; [done|]. rewrite length_app. cbn. lia.
    + exists skb', t, skb3, dgram. done.
Defined.

End CrossingDemo.
