(* ===== verification/FakeTcpProps.v ===== *)
(** Connections of fake TCP between two binds: the handshake ends with both established and agreeing on the sequence numbers,
    and then every carrier that arrives, in whatever order, is delivered. *)

From S2P Require Import Prelude Bytes Checksum NetIP Metric Routing Endpoint Offload FakeTcp CarrierProps.

(** ** Definitions *)

(** No connection with this remote. *)
Definition no_flow (s : StdNetBind) (remote : AddrPort) : Prop := ∀ k f, sb_fakeTCPStates s !! k = Some f → fk_remote k ≠ remote.

(** One connection with the remote of the key. *)
Definition only_flow (s : StdNetBind) (key : fakeTCPFlowKey) (flow : fakeTCPFlow) : Prop :=
  sb_fakeTCPStates s !! key = Some flow ∧ ∀ k f, sb_fakeTCPStates s !! k = Some f → fk_remote k = fk_remote key → k = key.

(** The endpoint of a packet that arrives belongs to the connection: it has its source, or the connection has none. *)
Definition reaches (ep : StdNetEndpoint) (key : fakeTCPFlowKey) : Prop :=
  key = fakeTCPKey ep ∨
  addr_IsValid (SrcIP ep) = true ∧ addr_IsUnspecified (SrcIP ep) = false ∧
  key = mkFlowKey (se_AddrPort ep) (if addr_Is4 (SrcIP ep) then Addr4 0 else Addr6 0 "") (SrcIfidx ep).

(** The socket for the family of the endpoint. *)
Definition fake_conn (s : StdNetBind) (ep : StdNetEndpoint) : option Z := if addr_Is6 (ap_Addr (se_AddrPort ep)) then sb_fakeIPv6 s else sb_fakeIPv4 s.

(** Not so long that a connection last heard from at [t] is forgotten. *)
Definition patient (s : StdNetBind) (t now : Z) : Prop := sb_fakeTCPStaleAfter s <= 0 ∨ now - t < sb_fakeTCPStaleAfter s.

(** The two ends of a connection that expect the numbers the other one will use. *)
Definition linked (A : StdNetBind) (keyA : fakeTCPFlowKey) (B : StdNetBind) (keyB : fakeTCPFlowKey) : Prop :=
  ∃ fA fB, only_flow A keyA fA ∧ only_flow B keyB fB ∧ fl_state fA = fakeTCPEstablished ∧ fl_state fB = fakeTCPEstablished ∧
    fl_sendNext fA = fl_recvNext fB ∧ fl_sendNext fB = fl_recvNext fA ∧ is_u32 (fl_sendNext fA) ∧ is_u32 (fl_sendNext fB).

(** Carriers that arrive one after the other, and what is delivered of each. *)
Fixpoint receive_all (s : StdNetBind) (carriers : list (list Z)) (ep : StdNetEndpoint) (now : Z) (rnd : list Z) : option (StdNetBind * list (list Z * nat * bool)) :=
  match carriers with
  | [] => Some (s, [])
  | c :: carriers =>
      '(s, _, _, r) ← receiveFakeTCP s c ep now rnd;
      '(s, rs) ← receive_all s carriers ep now rnd;
      Some (s, r :: rs)
  end.

(** ** The table *)

Lemma cleanup_states s now force : ∃ m lc, cleanupFakeTCPStatesLocked s now force = set_states s m lc ∧ m ⊆ sb_fakeTCPStates s ∧
  (∀ k f, sb_fakeTCPStates s !! k = Some f → patient s (fl_lastSeen f) now → m !! k = Some f).
Proof.
  assert (s = set_states s (sb_fakeTCPStates s) (sb_fakeTCPLastClean s)) as Hs by (by destruct s).
  unfold cleanupFakeTCPStatesLocked. destruct (Z.leb_spec (sb_fakeTCPStaleAfter s) 0) as [H0|H0]; [eexists _, _; split; [exact Hs|done]|].
  case_goal; [eexists _, _; split; [exact Hs|done]|]. eexists _, _. split; [done|]. split; [apply map_filter_subseteq|].
  intros k f Hk [?|Hp]; [lia|]. by apply map_lookup_filter_Some.
Qed.

Lemma no_flow_subset s m lc remote : no_flow s remote → m ⊆ sb_fakeTCPStates s → no_flow (set_states s m lc) remote.
Proof. intros Hn Hm k f Hk. apply (Hn k f). by eapply lookup_weaken. Qed.

Lemma no_flow_cleanup s now force remote : no_flow s remote → no_flow (cleanupFakeTCPStatesLocked s now force) remote.
Proof. intros Hn. destruct (cleanup_states s now force) as (m & lc & -> & Hm & _). by apply no_flow_subset. Qed.

Lemma only_flow_cleanup s now force key flow : only_flow s key flow → patient s (fl_lastSeen flow) now → only_flow (cleanupFakeTCPStatesLocked s now force) key flow.
Proof.
  intros [Hk Ho] Hp. destruct (cleanup_states s now force) as (m & lc & -> & Hm & Hkeep). split; [by apply Hkeep|].
  intros k f Hkf. apply (Ho k f). by eapply lookup_weaken.
Qed.

Lemma only_flow_put s key flow flow' : only_flow s key flow → only_flow (put_flow s key flow') key flow'.
Proof.
  intros [Hk Ho]. split; [apply lookup_insert_eq|]. intros k f Hkf Hr. destruct (decide (k = key)) as [->|Hne]; [done|].
  apply (Ho k f); [|done]. cbn in Hkf. by rewrite lookup_insert_ne in Hkf by done.
Qed.

Lemma only_flow_new s key flow : no_flow s (fk_remote key) → only_flow (put_flow s key flow) key flow.
Proof.
  intros Hn. split; [apply lookup_insert_eq|]. intros k f Hkf Hr. destruct (decide (k = key)) as [->|Hne]; [done|].
  cbn in Hkf. rewrite lookup_insert_ne in Hkf by done. by destruct (Hn k f Hkf).
Qed.

Lemma reaches_remote ep key : reaches ep key → fk_remote key = se_AddrPort ep.
Proof. by intros [->|(_ & _ & ->)]. Qed.

Lemma reaches_transport ep key t : reaches ep key → reaches (SetTransport ep t) key.
Proof. done. Qed.

Lemma find_only s ep key flow : only_flow s key flow → reaches ep key → findFakeTCPFlowLocked s ep = (key, Some flow).
Proof.
  intros [Hk Ho] Hr. pose proof (reaches_remote ep key Hr) as Hrem. unfold findFakeTCPFlowLocked.
  destruct (sb_fakeTCPStates s !! fakeTCPKey ep) as [f|] eqn:E.
  - assert (fakeTCPKey ep = key) as <- by (by apply (Ho _ f)). rewrite Hk in E. by injection E as ->.
  - destruct Hr as [->|(Hv & Hu & ->)]; [by rewrite Hk in E|]. cbn [fk_local fakeTCPKey fk_remote fk_ifidx] in *. rewrite Hv, Hu. cbn [negb orb]. by rewrite Hk.
Qed.

Lemma find_none s ep : no_flow s (se_AddrPort ep) → findFakeTCPFlowLocked s ep = (fakeTCPKey ep, None).
Proof.
  intros Hn. unfold findFakeTCPFlowLocked. assert (∀ k, fk_remote k = se_AddrPort ep → sb_fakeTCPStates s !! k = None) as Hnone.
  { intros k Hk. destruct (sb_fakeTCPStates s !! k) eqn:E; [|done]. by destruct (Hn _ _ E). }
  rewrite Hnone by done. case_goal; [done|]. by rewrite Hnone.
Qed.

Lemma make_room_small s now : (size (sb_fakeTCPStates s) < fakeTCPStateLimit)%nat → make_room s now = (s, true).
Proof. intros H. unfold make_room. by rewrite (proj2 (Nat.leb_gt _ _)). Qed.

Lemma cleanup_size s now force : (size (sb_fakeTCPStates (cleanupFakeTCPStatesLocked s now force)) <= size (sb_fakeTCPStates s))%nat.
Proof. destruct (cleanup_states s now force) as (m & lc & -> & Hm & _). by apply map_subseteq_size. Qed.

(** The sockets and settings stay. *)
Lemma fake_conn_cleanup s now force ep : fake_conn (cleanupFakeTCPStatesLocked s now force) ep = fake_conn s ep.
Proof. by destruct (cleanup_states s now force) as (m & lc & -> & _). Qed.

Lemma passive_flow_none `{MapRange} s key : no_flow s (fk_remote key) → passive_flow s key = None.
Proof.
  intros Hn. unfold passive_flow. apply (foldl_ind (λ best, best = None)); [done|]. intros best [k f] Hin ->.
  apply elem_of_map_range in Hin. rewrite bool_decide_eq_false_2 by (by apply (Hn k f)). done.
Qed.

(** ** The handshake *)

Definition isn (rnd : list Z) : Z := uint32 (fakeTCPRandomISN rnd + 1).

Lemma uint32_range z : is_u32 (uint32 z).
Proof. by apply wrap_range. Qed.

Lemma send_one s ep p carrier c : fake_conn s ep = Some c → marshalFakeTCPPacket p = Some carrier → sendFakeTCPPackets s ep [p] = Some (inr [mkDatagram c ep carrier]).
Proof.
  intros Hc Hm. unfold sendFakeTCPPackets. unfold fake_conn in Hc. rewrite Hc. cbn [mapM]. rewrite Hm. done.
Qed.

(** Opening sends a SYN. *)
Lemma prepare_syn `{MapRange} s ep now rnd c : sb_fakeTCPEnabled s = true → is_Some (sb_ipv4 s) ∨ is_Some (sb_ipv6 s) → fake_conn s ep = Some c →
  no_flow s (se_AddrPort ep) → (size (sb_fakeTCPStates s) < fakeTCPStateLimit)%nat →
  let p := mkFake TCPFlagSYN (uint32 (isn rnd - 1)) 0 no_payload in
  ∃ s' carrier, PrepareFakeTCP s ep now rnd = Some (s', ep, [mkDatagram c ep carrier], Some ErrFakeTCPNotEstablished) ∧ marshalFakeTCPPacket p = Some carrier ∧
    only_flow s' (fakeTCPKey ep) (mkFlow fakeTCPSYNSent (isn rnd) 0 0 now false) ∧ fake_conn s' ep = Some c ∧ sb_fakeTCPStaleAfter s' = sb_fakeTCPStaleAfter s.
Proof.
  intros Hen Hopen Hc Hn Hsz p. unfold PrepareFakeTCP. rewrite Hen. cbn [negb].
  destruct (cleanup_states s now false) as (m & lc & Hcl & Hm & _). pose proof (cleanup_size s now false) as Hsz'. pose proof (no_flow_cleanup s now false _ Hn) as Hn'.
  pose proof (fake_conn_cleanup s now false ep) as Hc'. assert (sb_fakeTCPStaleAfter (cleanupFakeTCPStatesLocked s now false) = sb_fakeTCPStaleAfter s) as Hst by (by rewrite Hcl).
  set (s1 := cleanupFakeTCPStatesLocked s now false) in *. clearbody s1.
  assert (sb_fakeTCPStates s1 !! fakeTCPKey ep = None) as Hnone by (destruct (sb_fakeTCPStates s1 !! fakeTCPKey ep) eqn:E; [by destruct (Hn' _ _ E)|done]).
  rewrite Hnone, passive_flow_none by done. rewrite make_room_small by lia.
  assert (sendable p) as Hp by (by apply send_syn). pose proof (marshal_sendable p Hp) as Hmar.
  set (flow := mkFlow fakeTCPSYNSent (isn rnd) 0 0 now false).
  assert (fake_conn (put_flow s1 (fakeTCPKey ep) flow) ep = Some c) as Hc2 by (rewrite <- Hc; exact Hc').
  pose proof (send_one _ _ _ _ _ Hc2 Hmar) as Hsend.
  eexists (put_flow s1 (fakeTCPKey ep) flow), _. split; [|split; [exact Hmar|]].
  - destruct Hopen as [[x Hx]|[x Hx]]; rewrite Hx; [|destruct (sb_ipv4 s)]; destruct (addr_IsUnspecified _); cbn [fl_state fl_sendNext fl_recvNext fl_receivedUnacked fl_passive];
      change (syn_packet (mkFlow fakeTCPSYNSent (uint32 (fakeTCPRandomISN rnd + 1)) 0 0 now false)) with p; fold (isn rnd); fold flow; rewrite Hsend; done.
  - split; [by apply only_flow_new|done].
Qed.

(** A segment is read, handled and answered. *)
Lemma receive_control s ep now rnd p carrier s' resp d : sendable p → is_u32 (fp_seq p) → is_u32 (fp_ack p) → bs_data (fp_payload p) = [] → marshalFakeTCPPacket p = Some carrier →
  handleFakeTCPPacket s (SetTransport ep TransportFakeTCP) (received p) now rnd = (s', resp, false) →
  (if fp_flags resp =? 0 then Some [] else r ← sendFakeTCPPackets s' (SetTransport ep TransportFakeTCP) [resp]; Some (match r with inl _ => [] | inr ds => ds end)) = Some d →
  receiveFakeTCP s (wire carrier) ep now rnd = Some (s', SetTransport ep TransportFakeTCP, d, ([], O, true)).
Proof.
  intros Hp Hseq Hack Hpay Hm Hh Hd. unfold receiveFakeTCP. rewrite (parse_wire p carrier Hp Hseq Hack Hm), Hh. cbn [mbind option_bind] in *. by rewrite Hd.
Qed.

Lemma received_control p : bs_data (fp_payload p) = [] → received p = mkFake (fp_flags p) (fp_seq p) (fp_ack p) no_payload.
Proof. intros H. unfold received. by rewrite H. Qed.

(** The SYN is answered with a SYN that acknowledges it. *)
Lemma accept_syn s ep now rnd c seq carrier : is_u32 seq → fake_conn s ep = Some c → no_flow s (se_AddrPort ep) → (size (sb_fakeTCPStates s) < fakeTCPStateLimit)%nat →
  marshalFakeTCPPacket (mkFake TCPFlagSYN seq 0 no_payload) = Some carrier →
  let ep' := SetTransport ep TransportFakeTCP in let p := mkFake (Z.lor TCPFlagSYN TCPFlagACK) (uint32 (isn rnd - 1)) (uint32 (seq + 1)) no_payload in
  ∃ s' carrier', receiveFakeTCP s (wire carrier) ep now rnd = Some (s', ep', [mkDatagram c ep' carrier'], ([], O, true)) ∧ marshalFakeTCPPacket p = Some carrier' ∧
    only_flow s' (fakeTCPKey ep) (mkFlow fakeTCPSYNReceived (isn rnd) (uint32 (seq + 1)) 0 now true) ∧ fake_conn s' ep = Some c ∧ sb_fakeTCPStaleAfter s' = sb_fakeTCPStaleAfter s.
Proof.
  intros Hseq Hc Hn Hsz Hmar ep' p. assert (sendable p) as Hp by (by apply send_syn_ack). pose proof (marshal_sendable p Hp) as Hmar'.
  destruct (cleanup_states s now false) as (m & lc & Hcl & Hm & _). pose proof (cleanup_size s now false) as Hsz'. pose proof (no_flow_cleanup s now false _ Hn) as Hn'.
  pose proof (fake_conn_cleanup s now false ep) as Hc'. assert (sb_fakeTCPStaleAfter (cleanupFakeTCPStatesLocked s now false) = sb_fakeTCPStaleAfter s) as Hst by (by rewrite Hcl).
  eexists _, _. split; [|split; [exact Hmar'|]].
  - eapply (receive_control s ep now rnd (mkFake TCPFlagSYN seq 0 no_payload)); [by apply send_syn|done|by vm_compute|done|exact Hmar| |].
    + rewrite received_control by done. unfold handleFakeTCPPacket. rewrite (find_none _ ep') by done.
      change (has_flag TCPFlagSYN TCPFlagRST || has_flag TCPFlagSYN TCPFlagFIN) with false. change (has_flag TCPFlagSYN TCPFlagSYN) with true.
      change (has_flag TCPFlagSYN TCPFlagACK) with false. cbn [fp_flags negb]. unfold handle_syn. rewrite make_room_small by lia. reflexivity.
    + cbn [fp_flags]. change (Z.lor TCPFlagSYN TCPFlagACK =? 0) with false. cbv iota.
      erewrite (send_one _ _ _ _ c); [| |exact Hmar']; [reflexivity|]. rewrite <- Hc. exact Hc'.
  - split; [by apply only_flow_new|]. split; [rewrite <- Hc; exact Hc'|exact Hst].
Qed.

(** The answer to our SYN establishes the connection and is acknowledged. *)
Lemma accept_syn_ack s ep key flow now rnd c seq carrier : is_u32 seq → fake_conn s ep = Some c → only_flow s key flow → reaches ep key → fl_state flow = fakeTCPSYNSent →
  is_u32 (fl_sendNext flow) → patient s (fl_lastSeen flow) now → marshalFakeTCPPacket (mkFake (Z.lor TCPFlagSYN TCPFlagACK) seq (fl_sendNext flow) no_payload) = Some carrier →
  let ep' := SetTransport ep TransportFakeTCP in let p := mkFake TCPFlagACK (fl_sendNext flow) (uint32 (seq + 1)) no_payload in
  ∃ s' carrier', receiveFakeTCP s (wire carrier) ep now rnd = Some (s', ep', [mkDatagram c ep' carrier'], ([], O, true)) ∧ marshalFakeTCPPacket p = Some carrier' ∧
    only_flow s' key (mkFlow fakeTCPEstablished (fl_sendNext flow) (uint32 (seq + 1)) (fl_receivedUnacked flow) now (fl_passive flow)).
Proof.
  intros Hseq Hc Ho Hr Hst Hnext Hpat Hmar ep' p. assert (sendable p) as Hp by (by apply send_ack). pose proof (marshal_sendable p Hp) as Hmar'.
  pose proof (only_flow_cleanup s now false key flow Ho Hpat) as Ho'. pose proof (fake_conn_cleanup s now false ep) as Hc'.
  eexists _, _. split; [|split; [exact Hmar'|]].
  - eapply (receive_control s ep now rnd (mkFake (Z.lor TCPFlagSYN TCPFlagACK) seq (fl_sendNext flow) no_payload)); [by apply send_syn_ack|done|done|done|exact Hmar| |].
    + rewrite received_control by done. unfold handleFakeTCPPacket. rewrite (find_only _ ep' key flow) by done. cbn [fp_flags].
      change (has_flag (Z.lor TCPFlagSYN TCPFlagACK) TCPFlagRST || has_flag (Z.lor TCPFlagSYN TCPFlagACK) TCPFlagFIN) with false.
      change (has_flag (Z.lor TCPFlagSYN TCPFlagACK) TCPFlagSYN) with true. change (has_flag (Z.lor TCPFlagSYN TCPFlagACK) TCPFlagACK) with true. cbn [negb].
      unfold handle_syn_ack. rewrite Hst. cbn [fp_ack fp_seq]. rewrite Z.eqb_refl. reflexivity.
    + cbn [fp_flags]. change (TCPFlagACK =? 0) with false. cbv iota. erewrite (send_one _ _ _ _ c); [| |exact Hmar']; [reflexivity|]. rewrite <- Hc. exact Hc'.
  - by eapply only_flow_put.
Qed.

(** The acknowledgement of our SYN establishes the connection the peer opened. *)
Lemma accept_ack s ep key flow now rnd seq carrier : is_u32 seq → only_flow s key flow → reaches ep key → fl_state flow = fakeTCPSYNReceived →
  is_u32 (fl_sendNext flow) → patient s (fl_lastSeen flow) now → marshalFakeTCPPacket (mkFake TCPFlagACK seq (fl_sendNext flow) no_payload) = Some carrier →
  ∃ s', receiveFakeTCP s (wire carrier) ep now rnd = Some (s', SetTransport ep TransportFakeTCP, [], ([], O, true)) ∧
    only_flow s' key (mkFlow fakeTCPEstablished (fl_sendNext flow) (fl_recvNext flow) (fl_receivedUnacked flow) now (fl_passive flow)).
Proof.
  intros Hseq Ho Hr Hst Hnext Hpat Hmar. pose proof (only_flow_cleanup s now false key flow Ho Hpat) as Ho'. eexists. split.
  - eapply (receive_control s ep now rnd (mkFake TCPFlagACK seq (fl_sendNext flow) no_payload)); [by apply send_ack|done|done|done|exact Hmar| |].
    + rewrite received_control by done. unfold handleFakeTCPPacket. rewrite (find_only _ (SetTransport ep TransportFakeTCP) key flow) by done. cbn [fp_flags].
      change (has_flag TCPFlagACK TCPFlagRST || has_flag TCPFlagACK TCPFlagFIN) with false. change (has_flag TCPFlagACK TCPFlagSYN) with false.
      change (has_flag TCPFlagACK TCPFlagACK) with true. rewrite Hst. cbn [fp_ack fp_payload]. rewrite Z.eqb_refl. reflexivity.
    + done.
  - by eapply only_flow_put.
Qed.

Section handshake.
Context `{MapRange} (A B : StdNetBind) (epA epA' epB : StdNetEndpoint) (cA cB a0 a1 b0 b1 : Z) (rA rB r r' : list Z).

(** C24: Two binds without a connection between them establish one with three segments, each of which crosses the network: one opens, the other
    one answers, the first one acknowledges.  Then both ends are established and each expects the number the other one uses next; this
    also holds when the one that opens does not say from which of its addresses. *)
Theorem handshake_establishes : sb_fakeTCPEnabled A = true → is_Some (sb_ipv4 A) ∨ is_Some (sb_ipv6 A) → fake_conn A epA = Some cA → fake_conn B epB = Some cB →
  no_flow A (se_AddrPort epA) → no_flow B (se_AddrPort epB) → (size (sb_fakeTCPStates A) < fakeTCPStateLimit)%nat → (size (sb_fakeTCPStates B) < fakeTCPStateLimit)%nat →
  reaches epA' (fakeTCPKey epA) → patient A a0 a1 → patient B b0 b1 →
  ∃ A1 d1 B1 d2 A2 d3 B2,
    PrepareFakeTCP A epA a0 rA = Some (A1, epA, [d1], Some ErrFakeTCPNotEstablished) ∧
    receiveFakeTCP B (wire (dg_data d1)) epB b0 rB = Some (B1, SetTransport epB TransportFakeTCP, [d2], ([], O, true)) ∧
    receiveFakeTCP A1 (wire (dg_data d2)) epA' a1 r = Some (A2, SetTransport epA' TransportFakeTCP, [d3], ([], O, true)) ∧
    receiveFakeTCP B1 (wire (dg_data d3)) epB b1 r' = Some (B2, SetTransport epB TransportFakeTCP, [], ([], O, true)) ∧
    linked A2 (fakeTCPKey epA) B2 (fakeTCPKey epB).
Proof.
  intros Hen Hop HcA HcB HnA HnB HsA HsB Hr HpA HpB.
  assert (∀ rnd, is_u32 (isn rnd)) as Hisn by (intros; apply uint32_range). assert (∀ z, uint32 (uint32 (isn z - 1) + 1) = isn z) as Hback.
  { intros z. pose proof (Hisn z) as Hz. unfold wrap, is_u32, in_width in *. rewrite Zplus_mod_idemp_l. rewrite Z.mod_small; lia. }
  destruct (prepare_syn A epA a0 rA cA Hen Hop HcA HnA HsA) as (A1 & k1 & Hprep & Hm1 & HoA & HcA1 & HstA).
  destruct (accept_syn B epB b0 rB cB _ k1 (uint32_range _) HcB HnB HsB Hm1) as (B1 & k2 & Hrec1 & Hm2 & HoB & HcB1 & HstB). rewrite Hback in Hm2, HoB.
  pose proof (reaches_remote _ _ Hr) as Hrem. cbn in Hrem.
  assert (fake_conn A1 epA' = Some cA) as HcA1' by (rewrite <- HcA1; unfold fake_conn; by rewrite Hrem).
  assert (patient A1 a0 a1) as HpA1 by (unfold patient; by rewrite HstA). assert (patient B1 b0 b1) as HpB1 by (unfold patient; by rewrite HstB).
  destruct (accept_syn_ack A1 epA' _ _ a1 r cA _ k2 (uint32_range _) HcA1' HoA Hr eq_refl (Hisn rA) HpA1 Hm2) as (A2 & k3 & Hrec2 & Hm3 & HoA2).
  rewrite Hback in Hm3, HoA2. cbn [fl_sendNext fl_recvNext fl_receivedUnacked fl_passive] in Hm3, HoA2.
  destruct (accept_ack B1 epB _ _ b1 r' _ k3 (Hisn rA) HoB (or_introl eq_refl) eq_refl (Hisn rB) HpB1 Hm3) as (B2 & Hrec3 & HoB2).
  exists A1, (mkDatagram cA epA k1), B1, (mkDatagram cB (SetTransport epB TransportFakeTCP) k2), A2, (mkDatagram cA (SetTransport epA' TransportFakeTCP) k3), B2.
  do 4 (split; [done|]). eexists _, _. split; [exact HoA2|]. split; [exact HoB2|]. do 4 (split; [done|]). split; apply Hisn.
Qed.

End handshake.

(** ** Data *)

(** The buffers a bind is given. *)
Definition data_buf (b : bslice) : Prop := (MinFramePayloadSize <= length (bs_data b))%nat ∧ Z.of_nat (length (bs_data b)) < 65536 ∧ Forall is_byte (bs_data b).

Lemma data_sendable b seq ack : data_buf b → sendable (mkFake TCPFlagACK seq ack b).
Proof. intros (Hmin & Hl & Hb). by apply send_data. Qed.

(** A data segment of an established connection is delivered whatever its number. *)
Lemma receive_data_segment s ep key flow now rnd b seq ack carrier : data_buf b → is_u32 seq → is_u32 ack → only_flow s key flow → reaches ep key →
  fl_state flow = fakeTCPEstablished → is_u32 (fl_recvNext flow) → patient s (fl_lastSeen flow) now → marshalFakeTCPPacket (mkFake TCPFlagACK seq ack b) = Some carrier →
  ∃ s' sent flow', receiveFakeTCP s (wire carrier) ep now rnd = Some (s', SetTransport ep TransportFakeTCP, sent, (frame_of (bs_data b), 1%nat, true)) ∧
    only_flow s' key flow' ∧ fl_state flow' = fakeTCPEstablished ∧ fl_lastSeen flow' = now ∧ fl_sendNext flow' = fl_sendNext flow ∧ is_u32 (fl_recvNext flow') ∧
    sb_fakeTCPStaleAfter s' = sb_fakeTCPStaleAfter s ∧
    (seq = fl_recvNext flow → fl_recvNext flow' = uint32 (seq + Z.of_nat (FrameHeaderSize + length (bs_data b)))).
Proof.
  intros Hb Hseq Hack Ho Hr Hst Hrn Hpat Hmar. pose proof Hb as (Hmin & Hl & _). pose proof (data_sendable b seq ack Hb) as Hs.
  pose proof (only_flow_cleanup s now false key flow Ho Hpat) as Ho'. destruct (cleanup_states s now false) as (m & lc & Hcl & _ & _).
  assert (sb_fakeTCPStaleAfter (cleanupFakeTCPStatesLocked s now false) = sb_fakeTCPStaleAfter s) as Hstale by (by rewrite Hcl).
  set (s1 := cleanupFakeTCPStatesLocked s now false) in *.
  assert (bs_data b ≠ []) as Hne by (intros E; rewrite E in Hmin; cbn in Hmin; unfold MinFramePayloadSize in Hmin; lia).
  unfold receiveFakeTCP. rewrite (parse_wire _ carrier Hs Hseq Hack Hmar). cbn [fp_payload].
  assert (received (mkFake TCPFlagACK seq ack b) = mkFake TCPFlagACK seq ack (mkBslice (frame_of (bs_data b)) [])) as -> by (unfold received; cbn [fp_payload]; by destruct (bs_data b)).
  replace (match bs_data b with [] => 0%nat | _ => 1%nat end) with 1%nat by (by destruct (bs_data b)).
  unfold handleFakeTCPPacket. fold s1. rewrite (find_only s1 (SetTransport ep TransportFakeTCP) key flow) by done. cbn [fp_flags].
  change (has_flag TCPFlagACK TCPFlagRST || has_flag TCPFlagACK TCPFlagFIN) with false. change (has_flag TCPFlagACK TCPFlagSYN) with false. cbv iota.
  rewrite Hst, (bool_decide_eq_false_2 (fakeTCPEstablished = fakeTCPSYNReceived)), (bool_decide_eq_true_2 (fl_state flow = fakeTCPEstablished)) by done. cbn [andb negb].
  unfold receive_data. cbn [fp_payload bs_data fp_seq].
  assert (len (frame_of (bs_data b)) = Z.of_nat (FrameHeaderSize + length (bs_data b))) as Hlen by (unfold len, frame_of, FrameHeaderSize; rewrite length_app, length_be_encode; done).
  rewrite Hlen. unfold FrameHeaderSize in *. set (n := Z.of_nat (2 + length (bs_data b))) in *. assert (0 < n < 65538) as Hn by (unfold n; lia).
  rewrite (proj2 (Z.eqb_neq n 0)) by lia. rewrite (wrap_small 32 n) by (unfold in_width; lia).
  set (newer := (0 <? _) && _). set (unacked := if newer then _ else _). set (recvNext := if newer then _ else _).
  assert (is_u32 recvNext) as Hrec by (unfold recvNext; destruct newer; [apply uint32_range|done]).
  assert (seq = fl_recvNext flow → recvNext = uint32 (seq + n)) as Hnext.
  { intros ->. unfold recvNext, newer. replace (uint32 (uint32 (fl_recvNext flow + n) - fl_recvNext flow)) with n; [by rewrite (proj2 (Z.ltb_lt 0 n)), (proj2 (Z.ltb_lt n (2 ^ 31))) by lia|].
    unfold wrap. rewrite Zminus_mod_idemp_l. replace (fl_recvNext flow + n - fl_recvNext flow) with n by lia. rewrite Z.mod_small; lia. }
  clearbody recvNext unacked.
  assert (∀ x, ∃ sent, (r ← sendFakeTCPPackets x (SetTransport ep TransportFakeTCP) [mkFake TCPFlagACK (fl_sendNext flow) recvNext no_payload];
    Some (match r with inl _ => [] | inr ds => ds end)) = Some sent) as Hsend.
  { intros x. unfold sendFakeTCPPackets. destruct (if addr_Is6 _ then sb_fakeIPv6 x else sb_fakeIPv4 x); [|by eexists]. cbn [mapM]. rewrite marshal_sendable by (by apply send_ack). by eexists. }
  destruct (fakeTCPStandaloneACKAfter <=? unacked).
  - cbn [fp_flags]. change (TCPFlagACK =? 0) with false. cbv iota. destruct (Hsend (put_flow s1 key (mkFlow (fl_state flow) (fl_sendNext flow) recvNext 0 now (fl_passive flow)))) as [sent Hse].
    rewrite Hse. cbn [mbind option_bind]. eexists _, sent, _. split; [done|]. split; [by eapply only_flow_put|]. rewrite Hst. do 3 (split; [done|]). split; [exact Hrec|]. by split.
  - eexists _, [], _. split; [done|]. split; [by eapply only_flow_put|]. rewrite Hst. do 3 (split; [done|]). split; [exact Hrec|]. by split.
Qed.

(** The carrier of a buffer, with some number. *)
Definition carries_buf (ack : Z) (d : datagram) (b : bslice) : Prop :=
  ∃ seq, is_u32 seq ∧ marshalFakeTCPPacket (mkFake TCPFlagACK seq ack b) = Some (dg_data d).

(** A delivery that holds just this buffer. *)
Definition delivers_buf (b : bslice) (r : list Z * nat * bool) : Prop :=
  ∃ payload, r = (payload, 1%nat, true) ∧ nextFakeTCPFrame payload = Some (bs_data b, []).

Lemma frame_delivers b : data_buf b → delivers_buf b (frame_of (bs_data b), 1%nat, true).
Proof. intros (Hmin & Hl & _). eexists. split; [done|]. pose proof (next_frame (bs_data b) [] Hmin Hl) as H. by rewrite app_nil_r in H. Qed.

Lemma patient_now s now : patient s now now.
Proof. unfold patient. rewrite Z.sub_diag. lia. Qed.

(** The packets are numbered one behind the other and go out as carriers. *)
Lemma data_packets_carry conn ep ack bufs : ∀ sendNext, is_u32 sendNext → Forall data_buf bufs →
  ∃ ps next cs, data_packets bufs sendNext ack = (ps, next) ∧ is_u32 next ∧ mapM marshalFakeTCPPacket ps = Some cs ∧ Forall2 (carries_buf ack) (mkDatagram conn ep <$> cs) bufs.
Proof.
  induction bufs as [|b bufs IH]; intros sendNext Hs Hb; cbn [data_packets].
  { exists [], sendNext, []. split; [done|]. split; [done|]. split; [done|]. constructor. }
  apply Forall_cons in Hb as [Hb Hbs].
  destruct (IH (uint32 (sendNext + uint32 (Z.of_nat (FrameHeaderSize + length (bs_data b)))))) as (ps & next & cs & Hp & Hn & Hm & Hall); [apply uint32_range|done|].
  pose proof (marshal_sendable _ (data_sendable b sendNext ack Hb)) as Hmar. rewrite Hp. eexists _, _, (_ :: cs). split; [done|]. split; [done|].
  split; [cbn [mapM]; rewrite Hmar; cbn [mbind option_bind]; by rewrite Hm|]. cbn. constructor; [|done]. by exists sendNext.
Qed.

(** What arrives is delivered, in whatever order, however often and with whatever gaps. *)
Lemma receive_any ep key now rnd ack ds bufs : is_u32 ack → reaches ep key → Forall2 (carries_buf ack) ds bufs → Forall data_buf bufs →
  ∀ s flow, only_flow s key flow → fl_state flow = fakeTCPEstablished → is_u32 (fl_recvNext flow) → patient s (fl_lastSeen flow) now →
  ∃ s' rs flow', receive_all s ((wire ∘ dg_data) <$> ds) ep now rnd = Some (s', rs) ∧ Forall2 delivers_buf bufs rs ∧
    only_flow s' key flow' ∧ fl_state flow' = fakeTCPEstablished ∧ fl_sendNext flow' = fl_sendNext flow.
Proof.
  intros Hack Hr Hc. induction Hc as [|d b ds bufs (seq & Hseq & Hm) Hc IH]; intros Hb s flow Ho Hst Hrn Hpat.
  { exists s, [], flow. split; [done|]. split; [constructor|done]. }
  apply Forall_cons in Hb as [Hb Hbs].
  destruct (receive_data_segment s ep key flow now rnd b seq ack (dg_data d) Hb Hseq Hack Ho Hr Hst Hrn Hpat Hm) as (s1 & sent & f1 & Hrec & Ho1 & Hst1 & Hls1 & Hsn1 & Hrn1 & Hstale & _).
  destruct (IH Hbs s1 f1 Ho1 Hst1 Hrn1) as (s2 & rs & f2 & Hall & Hdel & Ho2 & Hst2 & Hsn2); [rewrite Hls1; apply patient_now|].
  exists s2, ((frame_of (bs_data b), 1%nat, true) :: rs), f2. split; [|split; [constructor; [by apply frame_delivers|done]|]].
  - cbn [fmap list_fmap receive_all compose]. rewrite Hrec. cbn [mbind option_bind]. by rewrite Hall.
  - split; [done|]. split; [done|]. congruence.
Qed.

(** When everything arrives in order, the receiver expects what the sender sends next. *)
Lemma receive_in_order conn ep0 ep key now rnd ack bufs : is_u32 ack → reaches ep key → Forall data_buf bufs →
  ∀ s flow ps next cs, data_packets bufs (fl_recvNext flow) ack = (ps, next) → mapM marshalFakeTCPPacket ps = Some cs →
  only_flow s key flow → fl_state flow = fakeTCPEstablished → is_u32 (fl_recvNext flow) → patient s (fl_lastSeen flow) now →
  ∃ s' rs flow', receive_all s ((wire ∘ dg_data) <$> (mkDatagram conn ep0 <$> cs)) ep now rnd = Some (s', rs) ∧
    only_flow s' key flow' ∧ fl_state flow' = fakeTCPEstablished ∧ fl_sendNext flow' = fl_sendNext flow ∧ fl_recvNext flow' = next.
Proof.
  intros Hack Hr. induction bufs as [|b bufs IH]; intros Hb s flow ps next cs Hp Hm Ho Hst Hrn Hpat; cbn [data_packets] in Hp.
  { injection Hp as <- <-. injection Hm as <-. by exists s, [], flow. }
  apply Forall_cons in Hb as [Hb Hbs]. set (n := Z.of_nat (FrameHeaderSize + length (bs_data b))) in *.
  assert (uint32 n = n) as Hn by (destruct Hb as (_ & Hl & _); apply wrap_small; unfold in_width, n, FrameHeaderSize; lia). rewrite Hn in Hp.
  destruct (data_packets bufs (uint32 (fl_recvNext flow + n)) ack) as [ps' next'] eqn:Hp'. injection Hp as <- <-.
  cbn [mapM] in Hm. destruct (marshalFakeTCPPacket _) as [c|] eqn:Hmar in Hm; [|done]. cbn [mbind option_bind] in Hm.
  destruct (mapM marshalFakeTCPPacket ps') as [cs'|] eqn:Hm'; [|done]. injection Hm as <-.
  destruct (receive_data_segment s ep key flow now rnd b _ ack c Hb Hrn Hack Ho Hr Hst Hrn Hpat Hmar) as (s1 & sent & f1 & Hrec & Ho1 & Hst1 & Hls1 & Hsn1 & Hrn1 & Hstale & Hnext).
  specialize (Hnext eq_refl). fold n in Hnext. rewrite <- Hnext in Hp'.
  destruct (IH Hbs s1 f1 ps' next' cs' Hp' Hm' Ho1 Hst1 Hrn1) as (s2 & rs & f2 & Hall & Ho2 & Hst2 & Hsn2 & Hrn2); [rewrite Hls1; apply patient_now|].
  eexists s2, (_ :: rs), f2. split; [cbn [fmap list_fmap receive_all compose dg_data]; rewrite Hrec; cbn [mbind option_bind]; by rewrite Hall|].
  split; [done|]. split; [done|]. split; [congruence|done].
Qed.

Section data.
Context (A B : StdNetBind) (keyA keyB : fakeTCPFlowKey) (epA epB : StdNetEndpoint) (cA now : Z) (rnd : list Z) (bufs : list bslice).

Lemma send_linked : linked A keyA B keyB → reaches epA keyA → fake_conn A epA = Some cA → Forall data_buf bufs → (length bufs <= IdealBatchSize)%nat →
  ∃ A' fA fA' fB ps cs, sendFakeTCPData A bufs epA = Some (A', inr (mkDatagram cA epA <$> cs)) ∧ only_flow A' keyA fA' ∧ only_flow B keyB fB ∧
    fl_state fA' = fakeTCPEstablished ∧ fl_state fB = fakeTCPEstablished ∧ data_packets bufs (fl_recvNext fB) (fl_recvNext fA) = (ps, fl_sendNext fA') ∧
    mapM marshalFakeTCPPacket ps = Some cs ∧ Forall2 (carries_buf (fl_recvNext fA)) (mkDatagram cA epA <$> cs) bufs ∧
    is_u32 (fl_recvNext fA) ∧ is_u32 (fl_recvNext fB) ∧ is_u32 (fl_sendNext fA') ∧ fl_sendNext fB = fl_recvNext fA' ∧ fl_recvNext fA' = fl_recvNext fA.
Proof.
  intros (fA & fB & HoA & HoB & HsA & HsB & Hab & Hba & HuA & HuB) Hr Hc Hb Hlen. rewrite Hab in HuA. rewrite Hba in HuB.
  destruct (data_packets_carry cA epA (fl_recvNext fA) bufs (fl_recvNext fB) HuA Hb) as (ps & next & cs & Hp & Hn & Hm & Hcar).
  unfold sendFakeTCPData. rewrite (find_only A epA keyA fA HoA Hr), HsA, (bool_decide_eq_true_2 (fakeTCPEstablished = fakeTCPEstablished)) by done. cbn [negb].
  rewrite (proj2 (Nat.ltb_ge _ _)) by done. rewrite Hab, Hp. unfold sendFakeTCPPackets. unfold fake_conn in Hc. cbn [put_flow set_states sb_fakeIPv4 sb_fakeIPv6]. rewrite Hc, Hm.
  cbn [mbind option_bind]. eexists _, fA, _, fB, ps, cs. split; [done|]. split; [by eapply only_flow_put|]. split; [done|].
  cbn [fl_state fl_sendNext fl_recvNext]. repeat (split; [done|]). done.
Qed.

(** C23: What a bind sends over an established connection is delivered: whichever of the carriers reach the other end, in whatever order and however
    often, each is delivered as exactly the buffer it was made of, none is refused for its sequence number, and the connection stays established.
    When all of them arrive in order, both ends agree on the numbers again.  This is for one batch, sent while both ends agree on the numbers, and
    received at one time at which the connection has not gone stale. *)
Theorem data_delivered : linked A keyA B keyB → reaches epA keyA → reaches epB keyB → fake_conn A epA = Some cA → Forall data_buf bufs → (length bufs <= IdealBatchSize)%nat →
  (∀ f, sb_fakeTCPStates B !! keyB = Some f → patient B (fl_lastSeen f) now) →
  ∃ A' sent, sendFakeTCPData A bufs epA = Some (A', inr sent) ∧ length sent = length bufs ∧
    (∀ arrivals, arrivals ⊆ zip sent bufs → ∃ B' rs f, receive_all B ((wire ∘ dg_data) <$> arrivals.*1) epB now rnd = Some (B', rs) ∧
       Forall2 delivers_buf arrivals.*2 rs ∧ only_flow B' keyB f ∧ fl_state f = fakeTCPEstablished) ∧
    (∃ B' rs, receive_all B ((wire ∘ dg_data) <$> sent) epB now rnd = Some (B', rs) ∧ linked A' keyA B' keyB).
Proof.
  intros Hlink HrA HrB Hc Hb Hlen Hpat.
  destruct (send_linked Hlink HrA Hc Hb Hlen) as (A' & fA & fA' & fB & ps & cs & Hsend & HoA & HoB & HsA & HsB & Hp & Hm & Hcar & HuA & HuB & HuN & Hba & Hra).
  specialize (Hpat fB (proj1 HoB)). exists A', (mkDatagram cA epA <$> cs). split; [exact Hsend|]. split; [by eapply Forall2_length|]. split.
  - intros arrivals Hsub. assert (Forall2 (carries_buf (fl_recvNext fA)) arrivals.*1 arrivals.*2 ∧ Forall data_buf arrivals.*2) as [Hcar' Hb'].
    { assert (Forall (λ x : datagram * bslice, carries_buf (fl_recvNext fA) x.1 x.2 ∧ data_buf x.2) arrivals) as Hall.
      { apply Forall_forall. intros [d b] Hin%Hsub. apply list_elem_of_lookup in Hin as [i Hi]. apply lookup_zip_with_Some in Hi as (d' & b' & [= -> ->] & Hd & Hbi).
        split; [by eapply Forall2_lookup_lr|by eapply Forall_lookup_1]. }
      clear Hsub. induction Hall as [|[d b] l [H1 H2] _ [IH1 IH2]]; cbn; [done|]. split; by constructor. }
    destruct (receive_any epB keyB now rnd _ _ _ HuA HrB Hcar' Hb' B fB HoB HsB HuB Hpat) as (B' & rs & f & Hrec & Hdel & Ho & Hs & _). by exists B', rs, f.
  - destruct (receive_in_order cA epA epB keyB now rnd _ bufs HuA HrB Hb B fB ps _ cs Hp Hm HoB HsB HuB Hpat) as (B' & rs & f & Hrec & Ho & Hs & Hsn & Hrn).
    exists B', rs. split; [exact Hrec|]. exists fA', f. do 4 (split; [done|]). split; [done|]. split; [congruence|]. split; [done|]. rewrite Hsn, Hba, Hra. done.
Qed.

End data.

(** ** Instances *)

Module FakeDemo.

#[local] Existing Instance sorted_range.

Definition addrA : AddrPort := mkAddrPort (Addr4 0x0a000001) 51820.
Definition addrB : AddrPort := mkAddrPort (Addr4 0x0a000002) 51820.

(** A link of A that is bound to an interface only, the endpoint A sees packets of B with, and the one B sees packets of A with. *)
Definition epA : StdNetEndpoint := mkStd addrB (Some (Addr4 0, 3)) TransportFakeTCP.
Definition epA' : StdNetEndpoint := mkStd addrB (Some (Addr4 0x0a000001, 3)) TransportUDP.
Definition epB : StdNetEndpoint := mkStd addrA (Some (Addr4 0x0a000002, 4)) TransportUDP.

Definition bind (states : gmap fakeTCPFlowKey fakeTCPFlow) : StdNetBind :=
  mkBind (Some 1) None (Some 2) None false false false false false false true (60 * 10 ^ 9) states ZeroTime.

Lemma handshake_establishes_witness : ∃ A2 B2, linked A2 (fakeTCPKey epA) B2 (fakeTCPKey epB) ∧
  ∃ A1 d1, PrepareFakeTCP (bind ∅) epA 1000 [1; 2; 3; 4] = Some (A1, epA, [d1], Some ErrFakeTCPNotEstablished).
Proof.
  destruct (handshake_establishes (bind ∅) (bind ∅) epA epA' epB 2 2 1000 3000 2000 4000 [1; 2; 3; 4] [255; 255; 255; 255] [] [])
    as (A1 & d1 & B1 & d2 & A2 & d3 & B2 & Hp & _ & _ & _ & Hl).
  - done.
  - left. by eexists.
  - done.
  - done.
  - intros k f. cbn. by rewrite lookup_empty.
  - intros k f. cbn. by rewrite lookup_empty.
  - cbn [bind sb_fakeTCPStates]. rewrite map_size_empty. unfold fakeTCPStateLimit. lia.
  - cbn [bind sb_fakeTCPStates]. rewrite map_size_empty. unfold fakeTCPStateLimit. lia.
  - right. by vm_compute.
  - right. by vm_compute.
  - right. by vm_compute.
  - exists A2, B2. split; [exact Hl|]. by exists A1, d1.
Defined.

Definition keyA : fakeTCPFlowKey := fakeTCPKey epA.
Definition keyB : fakeTCPFlowKey := fakeTCPKey epB.

(** Just before the numbers of A wrap around. *)
Definition A : StdNetBind := bind {[ keyA := mkFlow fakeTCPEstablished (2 ^ 32 - 1) 77 0 5000 false ]}.
Definition B : StdNetBind := bind {[ keyB := mkFlow fakeTCPEstablished 77 (2 ^ 32 - 1) 0 5000 true ]}.
Definition bufs : list bslice := [mkBslice (replicate 40 7) (replicate 20 0); mkBslice (replicate 33 9) []].

Lemma only_singleton key flow : only_flow (bind {[ key := flow ]}) key flow.
Proof. split; [apply lookup_singleton_eq|]. intros k f Hk _. cbn in Hk. by apply lookup_singleton_Some in Hk as [-> _]. Qed.

Lemma bufs_ok : Forall data_buf bufs.
Proof.
  repeat (apply Forall_cons; split; [split; [cbn; unfold MinFramePayloadSize; lia|split; [cbn; lia|apply Forall_replicate; by vm_compute]]|]). constructor.
Qed.

Lemma data_delivered_witness : ∃ A' sent, sendFakeTCPData A bufs epA' = Some (A', inr sent) ∧ length sent = 2%nat ∧
  ∃ B' rs, receive_all B ((wire ∘ dg_data) <$> sent) epB 6000 [] = Some (B', rs) ∧ linked A' keyA B' keyB.
Proof.
  destruct (data_delivered A B keyA keyB epA' epB 2 6000 [] bufs) as (A' & sent & Hs & Hl & _ & Hord).
  - eexists _, _. split; [apply only_singleton|]. split; [apply only_singleton|]. do 4 (split; [done|]). split; by vm_compute.
  - right. by vm_compute.
  - left. done.
  - done.
  - exact bufs_ok.
  - cbn. unfold IdealBatchSize. lia.
  - intros f Hf. cbn in Hf. apply lookup_singleton_Some in Hf as [_ <-]. right. by vm_compute.
  - exists A', sent. done.
Defined.

End FakeDemo.
