(* ===== verification/Probing.v ===== *)
(** Probing of links: [core/nylon_endpoints.go], the dead-link scan of [core/nylon_gc.go], the
    passive clients of [core/nylon_passive.go] and LAN discovery ([core/nylon_lan_discovery.go]
    and the address checks of [core/nylon_lan_discovery_socket.go]).

    The state is the node of [Reconcile] with what probing keeps: the last timestamp given
    out, the probes that wait for their reply, and the results of probes.  A link is an
    object with an id; a link that is listed with a neighbour is found there, and a
    candidate of LAN discovery is in the record of its probe.  [now] is the wall
    clock, [mono] the clock of probes.  A Go panic is [None]. *)

From S2P Require Import Prelude Bytes NetIP Float64 Metric Routing Endpoint EndpointProps RouterAlgo Config External RouterIO Graph Validation SysRoutes Reconcile.

(** ** Messages and records *)

Record Ny_Probe := mkProbe {
  np_TxTs : Z;
  np_Reply : bool;
  np_LinkId : Z;
  np_ReplyLinkId : Z;
  np_OriginTxTs : option Z;
  np_OriginRxTs : option Z;
  np_Discovery : bool;
}.

Inductive EndpointProbeStatus := PROBE_REPLIED | PROBE_TIMEOUT | PROBE_RESOLVE_ERROR | PROBE_SEND_ERROR.

Record EpPing := mkPing {
  pg_TimeSent : Z;
  pg_Peer : NodeId;
  pg_Endpoint : NylonEndpoint;
  pg_Discovery : bool;
}.

(** ** Interfaces of LAN discovery *)

Record lanDiscoverySubnet := mkSubnet { ls_prefix : Prefix; ls_broadcast : Addr }.

Record lanDiscoveryInterface := mkLanInterface {
  li_index : Z;
  li_name : string;
  li_subnets : list lanDiscoverySubnet;
}.

Definition lan_contains (i : lanDiscoveryInterface) (source : Addr) : bool :=
  existsb (λ s, pfx_Contains (ls_prefix s) (addr_Unmap source)) (li_subnets i).

Definition acceptsAnnouncement (i : lanDiscoveryInterface) (source : AddrPort) (destination : Addr) : bool :=
  if negb (ap_Port source =? LANDiscoveryPort) then false
  else existsb (λ s, pfx_Contains (ls_prefix s) (addr_Unmap (ap_Addr source)) &&
                     bool_decide (ls_broadcast s = addr_Unmap destination)) (li_subnets i).

(** The subnets of the addresses of an interface that can broadcast. *)
Definition add_subnet (subnets : list lanDiscoverySubnet) (prefix : Prefix) : list lanDiscoverySubnet :=
  if negb (addr_Is4 (pfx_Addr prefix)) || (31 <=? pfx_Bits prefix) then subnets
  else
    let prefix := pfx_Masked prefix in
    if bool_decide (prefix ∈ ls_prefix <$> subnets) then subnets
    else match pfx_Addr prefix with
         | Addr4 a => subnets ++ [mkSubnet prefix (Addr4 (Z.lor a (Z.ones (32 - pfx_Bits prefix))))]
         | _ => subnets
         end.

Definition interfaceIPv4Subnets (addrs : list Prefix) : list lanDiscoverySubnet := foldl add_subnet [] addrs.

(** The attempts are keyed by the peer and the name of the interface. *)
Record lanDiscoveryService := mkLan {
  la_interfaces : gmap Z lanDiscoveryInterface;
  la_lastAttempt : gmap (NodeId * string) Z;
}.

(** Where an announcement is sent: the index of the interface and the broadcast address. *)
Definition lan_Send `{MapRange} (d : lanDiscoveryService) : list (Z * AddrPort) :=
  map_range (la_interfaces d) ≫= λ x, (λ s, (li_index x.2, mkAddrPort (ls_broadcast s) LANDiscoveryPort)) <$> li_subnets x.2.

(** Whether a packet with the given metadata is read, from which source and over which
    interface; [ifIndex] is [None] without a control message and [destination] is [None]
    when it is no address. *)
Definition lan_Read (d : lanDiscoveryService) (ifIndex : option Z) (source : AddrPort) (destination : option Addr)
    : option (AddrPort * lanDiscoveryInterface) :=
  i ← ifIndex;
  iface ← la_interfaces d !! i;
  let source := mkAddrPort (addr_Unmap (ap_Addr source)) (ap_Port source) in
  dst ← destination;
  if acceptsAnnouncement iface source dst then Some (source, iface) else None.

(** Signatures of x25519 keys, as bytes. *)
Class Signature := {
  sig_Pubkey : list Z → list Z;
  sig_Sign : list Z → list Z → option (list Z);
  sig_Verify : list Z → list Z → list Z → bool;
}.

Definition SignatureSize : nat := 64.

Class SignatureLaws `{Signature} := {
  length_sig_Pubkey : ∀ k, length (sig_Pubkey k) = 32%nat;
  length_sig_Sign : ∀ k m s, sig_Sign k m = Some s → length s = SignatureSize;
  sig_Verify_Sign : ∀ k m s, sig_Sign k m = Some s → sig_Verify (sig_Pubkey k) m s = true;
}.

Section announcements.
Context `{SG : Signature}.

Definition SignBundle (data key : list Z) : option (list Z) := sig ← sig_Sign key data; Some (sig ++ data).

Definition VerifyBundle (data key : list Z) : option (list Z) :=
  if decide (length data < SignatureSize)%nat then None
  else if sig_Verify key (drop SignatureSize data) (take SignatureSize data) then Some (drop SignatureSize data) else None.

Definition lanDiscoveryDomain : list Z := string_bytes "nylon/lan-discovery/v1" ++ [0].

Definition lanDiscoveryAnnouncementSize : nat := SignatureSize + length lanDiscoveryDomain + 2 + 32.

Definition makeLANDiscoveryAnnouncement (key : list Z) (port : Z) : option (list Z) :=
  SignBundle (lanDiscoveryDomain ++ be_encode 2 port ++ sig_Pubkey key) key.

Definition readLANDiscoveryAnnouncement (data : list Z) : option (list Z * Z) :=
  if decide (length data ≠ lanDiscoveryAnnouncementSize) then None
  else
    let payload := drop SignatureSize data in
    if negb (bool_decide (take (length lanDiscoveryDomain) payload = lanDiscoveryDomain)) then None
    else
      let portOffset := length lanDiscoveryDomain in
      let port := be_decode (slice portOffset (portOffset + 2) payload) in
      if port =? 0 then None else Some (drop (portOffset + 2) payload, port).

End announcements.

(** ** The node *)

Section probing.
Context `{MR : MapRange} `{U : Unicode} `{TP : TextParsers} `{NT : NetText} `{HO : Host} `{PF : Platform}
  {T : Type → Type} `{BT : BartTable T} {C : Type → Type → Type} `{TC : TTLCache C}.

Abbreviation App := (App (T := T) (C := C)).
Abbreviation Nylon := (Nylon NylonEndpoint T C).

Record Prober := mkProber {
  pb_app : App;
  pb_last : Z;                                      (* outgoingProbeTimestamps.last *)
  pb_PingBuf : C Z EpPing;
  pb_timers : gset Z;                               (* the probes with a timeout, by their key *)
  pb_done : gmap Z (EndpointProbeStatus * Z);       (* the results of probes, by their key *)
  pb_sent : list (Ny_Probe * StdNetEndpoint * Peer);
  pb_computePending : bool;
  pb_lan : option lanDiscoveryService;
}.

Definition set_app st x := mkProber x (pb_last st) (pb_PingBuf st) (pb_timers st) (pb_done st) (pb_sent st) (pb_computePending st) (pb_lan st).
Definition set_last st x := mkProber (pb_app st) x (pb_PingBuf st) (pb_timers st) (pb_done st) (pb_sent st) (pb_computePending st) (pb_lan st).
Definition set_pings st buf timers done := mkProber (pb_app st) (pb_last st) buf timers done (pb_sent st) (pb_computePending st) (pb_lan st).
Definition set_psent st x := mkProber (pb_app st) (pb_last st) (pb_PingBuf st) (pb_timers st) (pb_done st) x (pb_computePending st) (pb_lan st).
Definition set_pending_compute st x := mkProber (pb_app st) (pb_last st) (pb_PingBuf st) (pb_timers st) (pb_done st) (pb_sent st) x (pb_lan st).
Definition set_lan st x := mkProber (pb_app st) (pb_last st) (pb_PingBuf st) (pb_timers st) (pb_done st) (pb_sent st) (pb_computePending st) x.

Definition pb_n (st : Prober) : Nylon := app_n (pb_app st).
Definition set_pn (st : Prober) (n : Nylon) : Prober := set_app st (set_n (pb_app st) n).

(** ** Timestamps and results *)

Definition next_timestamp (last now : Z) : Z := Z.max now (int64 (last + 1)).

Definition nextProbeTxNs (mono : Z) (st : Prober) : Prober * Z :=
  let next := next_timestamp (pb_last st) mono in (set_last st next, next).

(** [complete] of a future: only the first call counts. *)
Definition complete (st : Prober) (key : Z) (status : EndpointProbeStatus) (latency : Z) : Prober :=
  match pb_done st !! key with
  | Some _ => st
  | None => set_pings st (pb_PingBuf st) (pb_timers st) (<[key := (status, latency)]> (pb_done st))
  end.

Definition stop_timer (st : Prober) (key : Z) : Prober := set_pings st (pb_PingBuf st) (pb_timers st ∖ {[key]}) (pb_done st).

Definition delete_ping (st : Prober) (key : Z) : Prober := set_pings st (tc_Delete (pb_PingBuf st) key) (pb_timers st) (pb_done st).

Definition PingTTL : Z := 5 * Second.

(** ** Sending *)

(** [sendEndpointProbeWithDiscovery], up to the goroutine that sends: the link
    afterwards, and the error or the key of the probe. *)
Definition sendEndpointProbeWithDiscovery (prepare : StdNetEndpoint → option bool) (now mono : Z) (st : Prober) (node : NodeId)
    (ep : NylonEndpoint) (timeout : Z) (discovery : bool) : option (Prober * NylonEndpoint * (EndpointProbeStatus + Z)) :=
  ncfg ← GetNode (ny_CentralCfg (pb_n st)) node;
  match LookupPeer (pb_n st) (nc_PubKey ncfg) with
  | None => Some (st, ep, inl PROBE_SEND_ERROR)
  | Some peer =>
      match GetWgEndpoint prepare ep with
      | (ep, inl (EpFakeTCP true)) => Some (st, ep, inl PROBE_SEND_ERROR)
      | (ep, inl _) => Some (st, ep, inl PROBE_RESOLVE_ERROR)
      | (ep, inr nep) =>
          let '(st, txTs) := nextProbeTxNs mono st in
          let origin := EchoInfo ep txTs in
          let probe := mkProbe txTs false (ep_LinkId ep) 0 (fst <$> origin) (snd <$> origin) discovery in
          let ep := SweepProbes (RegisterProbe ep txTs) txTs in
          let key := uint64 txTs in
          let st := set_pings st (tc_Set now PingTTL (pb_PingBuf st) key (mkPing now node ep discovery))
                      (if 0 <? timeout then {[key]} ∪ pb_timers st else pb_timers st) (pb_done st) in
          Some (set_psent st (pb_sent st ++ [(probe, nep, peer)]), ep, inr key)
      end
  end.

Definition sendEndpointProbe prepare now mono st node ep timeout := sendEndpointProbeWithDiscovery prepare now mono st node ep timeout false.

Definition sendDiscoveryEndpointProbe prepare now mono st node ep timeout := sendEndpointProbeWithDiscovery prepare now mono st node ep timeout true.

Definition Probe prepare now mono st node ep := sendEndpointProbe prepare now mono st node ep 0.

(** The timer of a probe runs out. *)
Definition probe_timeout (st : Prober) (key : Z) : Prober :=
  if decide (key ∈ pb_timers st) then complete (delete_ping (stop_timer st key) key) key PROBE_TIMEOUT 0 else st.

(** What happened to a link shows where it is listed. *)
Definition upd_link (n : Nylon) (linkId : Z) (f : NylonEndpoint → NylonEndpoint) : Nylon :=
  set_rs n (set_Neighbours (ny_rs n)
    ((λ neigh, mkNeighbour (n_Id neigh) (n_Routes neigh)
       ((λ ep, if ep_LinkId ep =? linkId then f ep else ep) <$> n_Eps neigh)) <$> rs_Neighbours (ny_rs n))).

(** The goroutine could not send the probe. *)
Definition probe_send_failed (st : Prober) (linkId txTs : Z) : Prober :=
  let st := set_pn st (upd_link (pb_n st) linkId (λ ep, CancelProbe ep txTs)) in
  let key := uint64 txTs in
  complete (delete_ping (stop_timer st key) key) key PROBE_SEND_ERROR 0.

(** ** Receiving *)

Definition observeProbe (dep : NylonEndpoint) (pkt : Ny_Probe) (rxTs : Z) : NylonEndpoint :=
  let dep := ObserveInbound dep (np_TxTs pkt) rxTs in
  match np_OriginTxTs pkt, np_OriginRxTs pkt with
  | Some tx, Some rx => fst (ObserveEcho dep tx rx)
  | _, _ => dep
  end.

(** What the data plane does with a probe: the answer it sends, and which handler it
    dispatches; [sent] says whether the answer could be sent.  The probe came at [rxTs],
    and the answer is stamped at [mono]. *)
Inductive ProbeWork := ProbeIgnored | ProbePing | ProbePong.

Definition handleProbe (rxTs mono : Z) (sent : bool) (st : Prober) (pkt : Ny_Probe) (endpoint : StdNetEndpoint) (peer : Peer) (node : NodeId)
    : Prober * ProbeWork :=
  if np_TxTs pkt =? 0 then (st, ProbeIgnored)
  else if bool_decide (se_transport endpoint = TransportFakeTCP) &&
          (np_Discovery pkt || negb (bool_decide (node ∈ app_fakeTCPPeers (pb_app st)))) then (st, ProbeIgnored)
  else if negb (np_Reply pkt) then
    let '(st, tx) := nextProbeTxNs mono st in
    let res := mkProbe tx true 0 (np_LinkId pkt) (Some (np_TxTs pkt)) (Some rxTs) false in
    if sent then (set_psent st (pb_sent st ++ [(res, endpoint, peer)]), ProbePing) else (st, ProbeIgnored)
  else (st, ProbePong).

Definition set_eps (n : Nylon) (node : NodeId) (eps : list NylonEndpoint) : Nylon :=
  set_rs n (put_neighbour (ny_rs n) node (λ neigh, mkNeighbour (n_Id neigh) (n_Routes neigh) eps)).

(** The link of a neighbour that a ping came over: the links after they were asked for
    their interfaces, and the position. *)
Fixpoint match_link (discovery : bool) (wg : StdNetEndpoint) (i : nat) (fallback : option nat) (eps : list NylonEndpoint)
    : list NylonEndpoint * option nat :=
  match eps with
  | [] => ([], fallback)
  | dep :: eps =>
      let next dep fallback := let '(l, r) := match_link discovery wg (S i) fallback eps in (dep :: l, r) in
      let or_here := match fallback with None => Some i | _ => fallback end in
      match dyn_Get (ep_DynEP dep) with
      | None => next dep fallback
      | Some ap =>
          if negb (bool_decide (ap = se_AddrPort wg)) || negb (bool_decide (ep_Transport dep = se_transport wg)) then next dep fallback
          else if bool_decide (se_transport wg = TransportFakeTCP) then
            match BindInterfaceIndex dep with
            | (dep, None) => next dep fallback
            | (dep, Some idx) =>
                if negb (idx =? SrcIfidx wg) then next dep fallback
                else if addr_IsValid (lb_Source (ep_Bind dep)) && bool_decide (lb_Source (ep_Bind dep) = SrcIP wg) then (dep :: eps, Some i)
                else next dep (if negb (addr_IsValid (lb_Source (ep_Bind dep))) then or_here else fallback)
            end
          else
            let '(dep, here) :=
              if ep_remoteInit dep && negb (bool_decide (lb_Interface (ep_Bind dep) = ""))
              then match BindInterfaceIndex dep with
                   | (dep, Some idx) => (dep, idx =? SrcIfidx wg)
                   | (dep, None) => (dep, false)
                   end
              else (dep, false) in
            if (here : bool) then (dep :: eps, Some i) else next dep (if negb discovery then or_here else fallback)
      end
  end.

(** [ComputeRoutes] and [UpdateNeighbour]. *)
Definition recompute (e : Env) (st : Prober) (node : NodeId) : option Prober :=
  n ← RouterIO.run (env_now e) (pb_n st) (ComputeRoutes e (ny_rs (pb_n st)));
  n ← UpdateNeighbour (env_now e) n node;
  Some (set_pn st n).

Definition ScheduleRouteCompute (st : Prober) : Prober := set_pending_compute st true.

(** The scheduled function; [dispatched] says whether the dispatch queue took it. *)
Definition run_scheduled (e : Env) (st : Prober) (dispatched : bool) : option Prober :=
  if negb (pb_computePending st) then Some st
  else if dispatched then
    n ← RouterIO.run (env_now e) (pb_n st) (ComputeRoutes e (ny_rs (pb_n st)));
    Some (set_pending_compute (set_pn st n) false)
  else Some (set_pending_compute st false).

(** The interface a discovery probe came over: [None] means that the probe is ignored. *)
Definition discovery_interface (st : Prober) (wg : StdNetEndpoint) : option string :=
  lan ← pb_lan st;
  iface ← la_interfaces lan !! SrcIfidx wg;
  if lan_contains iface (ap_Addr (se_AddrPort wg)) then Some (li_name iface) else None.

(** A link that a ping came over for the first time. *)
Definition new_remote_link (st : Prober) (pkt : Ny_Probe) (wg : StdNetEndpoint) (iface : string) (id : Z) : NylonEndpoint :=
  let fake := bool_decide (se_transport wg = TransportFakeTCP) in
  let ep := NewEndpoint (NewDynamicEndpoint (AddrPort_String (se_AddrPort wg))) true (Some wg) (rs_tun (ny_rs (pb_n st))) id in
  let ep := set_transport ep (se_transport wg) in
  set_bind ep (mkLocalBind (if np_Discovery pkt || fake then iface else "") (if fake then SrcIP wg else AddrZero)).

Definition handleProbePing (e : Env) (st : Prober) (node : NodeId) (pkt : Ny_Probe) (wg : StdNetEndpoint) (rxTs : Z) : option Prober :=
  let now := env_now e in
  if bool_decide (node = ny_LocalId (pb_n st)) then Some st
  else
    match GetNeighbour (ny_rs (pb_n st)) node with
    | None => Some st
    | Some neigh =>
        match (if np_Discovery pkt then discovery_interface st wg else Some "") with
        | None => Some st
        | Some iface =>
            let fake := bool_decide (se_transport wg = TransportFakeTCP) in
            if fake && (SrcIfidx wg =? 0) then Some st
            else
              let '(eps, found) := match_link (np_Discovery pkt) wg 0 None (n_Eps neigh) in
              match found with
              | Some i =>
                  let st := set_pn st (set_eps (pb_n st) node eps) in
                  match eps !! i with
                  | None => Some st
                  | Some dep =>
                      let wasInactive := negb (isActive now dep) in
                      let dep := observeProbe (Renew now (set_wg dep (Some wg))) pkt rxTs in
                      let st := set_pn st (set_eps (pb_n st) node (<[i := dep]> eps)) in
                      if wasInactive then recompute e st node else Some st
                  end
              | None =>
                  let st := set_pn st (set_eps (pb_n st) node eps) in
                  match (if fake && bool_decide (iface = "") then InterfaceByIndex (SrcIfidx wg) else Some iface) with
                  | None => Some st
                  | Some iface =>
                      let id := uint64 (app_linkIds (pb_app st) + 1) in
                      let ep := observeProbe (Renew now (new_remote_link st pkt wg iface id)) pkt rxTs in
                      let st := set_pn st (set_eps (pb_n st) node (eps ++ [ep])) in
                      let a := pb_app st in
                      recompute e (set_app st (set_links a (app_n a) id (app_PeerMap a) (app_fakeTCPPeers a))) node
                  end
              end
        end
    end.

(** A candidate of LAN discovery answered: it becomes a link of the neighbour, or
    refreshes the link it is the same as.  The service exists, because a discovery probe
    was sent. *)
Definition promoteLANDiscoveryEndpoint (e : Env) (st : Prober) (node : NodeId) (pkt : Ny_Probe) (wg : StdNetEndpoint)
    (candidate : NylonEndpoint) (rxTs : Z) : option Prober :=
  let now := env_now e in
  lan ← pb_lan st;
  let iface_name := lb_Interface (ep_Bind candidate) in
  match la_interfaces lan !! SrcIfidx wg with
  | None => Some st
  | Some iface =>
      if negb (bool_decide (li_name iface = iface_name)) || negb (lan_contains iface (ap_Addr (se_AddrPort wg))) then Some st
      else
        match GetNeighbour (ny_rs (pb_n st)) node with
        | None => Some st
        | Some neigh =>
            let register ep := match np_OriginTxTs pkt with Some tx => RegisterProbe ep tx | None => ep end in
            let same ep := bool_decide (dyn_Get (ep_DynEP ep) = Some (se_AddrPort wg)) && ep_remoteInit ep &&
                           bool_decide (lb_Interface (ep_Bind ep) = iface_name) in
            match list_find (λ ep, same ep = true) (n_Eps neigh) with
            | Some (i, ep) =>
                let wasInactive := negb (isActive now ep) in
                let ep := observeProbe (register (Renew now (set_wg ep (Some wg)))) pkt rxTs in
                let st := set_pn st (set_eps (pb_n st) node (<[i := ep]> (n_Eps neigh))) in
                if wasInactive then recompute e st node else Some (ScheduleRouteCompute st)
            | None =>
                let ep := set_dyn candidate (NewDynamicEndpoint (AddrPort_String (se_AddrPort wg))) in
                let ep := observeProbe (register (Renew now (set_wg ep (Some wg)))) pkt rxTs in
                recompute e (set_pn st (set_eps (pb_n st) node (n_Eps neigh ++ [ep]))) node
            end
        end
  end.

(** The record of the probe that a pong answers: the candidate of discovery it was for, if
    any. *)
Definition claim_ping (now : Z) (st : Prober) (node : NodeId) (pkt : Ny_Probe) : Prober * option NylonEndpoint :=
  match np_OriginTxTs pkt with
  | None => (st, None)
  | Some tx =>
      let key := uint64 tx in
      match tc_Get now (pb_PingBuf st) key with
      | None => (st, None)
      | Some health =>
          let st := delete_ping st key in
          if negb (bool_decide (pg_Peer health = "")) && negb (bool_decide (pg_Peer health = node)) then (st, None)
          else if negb (ep_LinkId (pg_Endpoint health) =? np_ReplyLinkId pkt) then (st, None)
          else (complete (stop_timer st key) key PROBE_REPLIED (time_Sub now (pg_TimeSent health)),
                if pg_Discovery health then Some (pg_Endpoint health) else None)
      end
  end.

Definition handleProbePong (e : Env) (st : Prober) (node : NodeId) (pkt : Ny_Probe) (wg : StdNetEndpoint) (rxTs : Z) : option Prober :=
  let now := env_now e in
  let '(st, discovered) := claim_ping now st node pkt in
  match GetNeighbour (ny_rs (pb_n st)) node with
  | None => Some st
  | Some neigh =>
      match discovered with
      | Some candidate => promoteLANDiscoveryEndpoint e st node pkt wg candidate rxTs
      | None =>
          match list_find (λ ep, ep_LinkId ep = np_ReplyLinkId pkt) (n_Eps neigh) with
          | None => Some st
          | Some (i, link) =>
              let link := set_wg (observeProbe (Renew now link) pkt rxTs) (Some wg) in
              Some (ScheduleRouteCompute (set_pn st (set_eps (pb_n st) node (<[i := link]> (n_Eps neigh)))))
          end
      end
  end.

(** ** Periodic probes *)

Definition endpointFamilyUnreachable (ep : NylonEndpoint) : bool :=
  if addr_IsValid (lb_Source (ep_Bind ep)) then false
  else match dyn_Get (ep_DynEP ep) with None => false | Some ap => negb (FamilyReachable (ap_Addr ap)) end.

(** A probe over the link at position [i] of a neighbour; an error is only logged. *)
Definition probe_at prepare (now mono : Z) (st : Prober) (node : NodeId) (i : nat) : option Prober :=
  match GetNeighbour (ny_rs (pb_n st)) node with
  | None => Some st
  | Some neigh =>
      match n_Eps neigh !! i with
      | None => Some st
      | Some ep =>
          '(st, ep, _) ← Probe prepare now mono st node ep;
          Some (set_pn st (set_eps (pb_n st) node (<[i := ep]> (n_Eps neigh))))
      end
  end.

Definition probe_link prepare (now mono : Z) (active : bool) (node : NodeId) (st : Prober) (i : nat) : option Prober :=
  match GetNeighbour (ny_rs (pb_n st)) node with
  | None => Some st
  | Some neigh =>
      match n_Eps neigh !! i with
      | None => Some st
      | Some ep =>
          if negb (eqb (isActive now ep) active) || endpointFamilyUnreachable ep then Some st
          else probe_at prepare now mono st node i
      end
  end.

Definition probeLinks prepare (now mono : Z) (active : bool) (st : Prober) : option Prober :=
  foldl (λ r neigh, foldl (λ r i, st ← r; probe_link prepare now mono active (n_Id neigh) st i) r (seq 0 (length (n_Eps neigh))))
    (Some st) (rs_Neighbours (ny_rs (pb_n st))).

(** The probes of an IPC request: the keys or errors of the probes over every link of the
    peer, in the order of the addresses.  [None] is a panic, [inl] an unknown peer. *)
Definition probe_for_ipc prepare (now mono : Z) (peer : NodeId) (timeout : Z) (r : Prober * list (EndpointProbeStatus + Z)) (i : nat)
    : option (Prober * list (EndpointProbeStatus + Z)) :=
  match GetNeighbour (ny_rs (pb_n r.1)) peer with
  | None => Some r
  | Some neigh =>
      match n_Eps neigh !! i with
      | None => Some r
      | Some ep =>
          '(st, ep, result) ← sendEndpointProbe prepare now mono r.1 peer ep timeout;
          Some (set_pn st (set_eps (pb_n st) peer (<[i := ep]> (n_Eps neigh))), r.2 ++ [result])
      end
  end.

Definition by_value (a b : string * nat) : Prop := String.le a.1 b.1.
#[global] Instance by_value_dec a b : Decision (by_value a b) := _.

Definition sendEndpointProbes prepare (now mono : Z) (st : Prober) (peer : NodeId) (timeout : Z)
    : option (unit + Prober * list (EndpointProbeStatus + Z)) :=
  match GetNeighbour (ny_rs (pb_n st)) peer with
  | None => Some (inl tt)
  | Some neigh =>
      let eps := merge_sort by_value (imap (λ i ep, (dyn_Value (ep_DynEP ep), i)) (n_Eps neigh)) in
      r ← foldl (λ r x, r ← r; probe_for_ipc prepare now mono peer timeout r x.2) (Some (st, [])) eps;
      Some (inr r)
  end.

(** The endpoint objects of the configuration, with what they were last resolved to. *)
Variable cfgEndpoints : NodeId → list DynamicEndpoint.

Definition probe_configured prepare (now mono : Z) (peer : NodeId) (st : Prober) (ep : DynamicEndpoint) : option Prober :=
  match dyn_Get ep, GetNeighbour (ny_rs (pb_n st)) peer with
  | Some ap, Some neigh =>
      if negb (FamilyReachable (ap_Addr ap)) then Some st
      else if existsb (λ link, bool_decide (dyn_Get (ep_DynEP link) = Some ap) && negb (ep_remoteInit link)) (n_Eps neigh) then Some st
      else
        let id := uint64 (app_linkIds (pb_app st) + 1) in
        let link := NewEndpoint ep false None (rs_tun (ny_rs (pb_n st))) id in
        let st := set_pn st (set_eps (pb_n st) peer (n_Eps neigh ++ [link])) in
        let a := pb_app st in
        let st := set_app st (set_links a (app_n a) id (app_PeerMap a) (app_fakeTCPPeers a)) in
        probe_at prepare now mono st peer (length (n_Eps neigh))
  | _, _ => Some st
  end.

Definition probeNew prepare (now mono : Z) (st : Prober) : option Prober :=
  peers ← GetPeers (ny_CentralCfg (pb_n st)) (ny_LocalId (pb_n st));
  foldl (λ r peer,
    st ← r;
    if negb (IsRouter (ny_CentralCfg (pb_n st)) peer) then Some st
    else foldl (λ r ep, st ← r; probe_configured prepare now mono peer st ep) (Some st) (cfgEndpoints peer)) (Some st) peers.

(** ** Dead links *)

Definition gc_links (now : Z) (eps : list NylonEndpoint) : list NylonEndpoint :=
  filter (λ ep, IsAlive now ep = true)
    ((λ ep, if isActive now ep then ep else set_dyn ep (dyn_Clear (ep_DynEP ep))) <$> eps).

Definition nylonGc (e : Env) (n : Nylon) : option Nylon :=
  GcRouter e (set_rs n (set_Neighbours (ny_rs n)
    ((λ neigh, mkNeighbour (n_Id neigh) (n_Routes neigh) (gc_links (env_now e) (n_Eps neigh))) <$> rs_Neighbours (ny_rs n)))).

(** ** Passive clients *)

(** Another node announces one of the prefixes. *)
Definition hasOtherAdvertisers (n : Nylon) (prefixes : list PrefixHealth) : bool :=
  existsb (λ prefix, existsb (λ neigh, existsb (λ x : Prefix * NeighRoute,
      bool_decide (src_Prefix (pr_Source (nr_Pub x.2)) = GetPrefix prefix) && negb (bool_decide (src_NodeId (pr_Source (nr_Pub x.2)) = ny_LocalId n)) &&
      negb (fd_Metric (pr_FD (nr_Pub x.2)) =? INF)) (map_range (n_Routes neigh))) (rs_Neighbours (ny_rs n))) prefixes.

(** [lastReceived] has the time of the last packet of each device peer, [health] the metric
    closure of a prefix and [noop] the empty expiry closure. *)
Definition scan_passive_peer (now : Z) (lastReceived : Peer → Z) (health : PrefixHealth → HealthRef) (noop : HealthRef)
    (n : Nylon) (x : NyPublicKey * Peer) : option Nylon :=
  match FindNodeBy (ny_CentralCfg n) x.1 with
  | None => Some n
  | Some nid =>
      ncfg ← GetNode (ny_CentralCfg n) nid;
      let others := hasOtherAdvertisers n (nc_Prefixes ncfg) in
      let recentlyUpdated := time_Sub now (lastReceived x.2) <? ClientDeadThreshold (rs_tun (ny_rs n)) in
      if negb (IsClient (ny_CentralCfg n) nid) then Some n
      else Some (foldl (λ n newPrefix,
             let recentlyAdvertised := hasRecentlyAdvertised now n (GetPrefix newPrefix) in
             if recentlyUpdated || (negb others && recentlyAdvertised)
             then updatePassiveClient now n (GetPrefix newPrefix) (health newPrefix) noop nid (negb recentlyUpdated) else n)
           n (nc_Prefixes ncfg))
  end.

Definition scanPassivePeers now lastReceived health noop (n : Nylon) : option Nylon :=
  foldl (λ r x, n ← r; scan_passive_peer now lastReceived health noop n x) (Some n) (map_range (ny_peers n)).

(** ** LAN discovery *)

(** [handshake] is [SendHandshakeInitiationTo] of the device, which may fail. *)
Definition handleLANDiscoveryAnnouncement prepare (handshake : Peer → StdNetEndpoint → bool) (now mono : Z) (st : Prober)
    (peerID : NodeId) (publicKey : NyPublicKey) (interfaceName : string) (candidate : AddrPort) : option Prober :=
  match GetNeighbour (ny_rs (pb_n st)) peerID, LookupPeer (pb_n st) publicKey with
  | Some neighbour, Some peer =>
      if existsb (λ ep, bool_decide (dyn_Get (ep_DynEP ep) = Some candidate) && ep_remoteInit ep && isActive now ep &&
                        bool_decide (lb_Interface (ep_Bind ep) = interfaceName)) (n_Eps neighbour) then Some st
      else
        let id := uint64 (app_linkIds (pb_app st) + 1) in
        let a := pb_app st in
        let st := set_app st (set_links a (app_n a) id (app_PeerMap a) (app_fakeTCPPeers a)) in
        let ep := NewEndpoint (NewDynamicEndpoint (AddrPort_String candidate)) true None (rs_tun (ny_rs (pb_n st))) id in
        let ep := set_bind ep (mkLocalBind interfaceName AddrZero) in
        match GetWgEndpoint prepare ep with
        | (_, inl _) => Some st
        | (ep, inr wg) =>
            if negb (handshake peer wg) then Some st
            else '(st, _, _) ← sendDiscoveryEndpointProbe prepare now mono st peerID ep ProbeTimeout; Some st
        end
  | _, _ => Some st
  end.

(** One announcement in the loop of the reader: whom it is from, over which interface and with
    which address, if it is to be handled; the attempt is noted when it was
    [dispatched]. *)
Definition read_announcement `{Signature} (now : Z) (st : Prober) (packet : list Z) (source : Addr) (iface : lanDiscoveryInterface)
    (dispatched : bool) : Prober * option (NodeId * NyPublicKey * string * AddrPort) :=
  match readLANDiscoveryAnnouncement packet, pb_lan st with
  | Some (publicKey, port), Some lan =>
      match app_PeerMap (pb_app st) !! be_decode publicKey with
      | None => (st, None)
      | Some peer =>
          if bool_decide (peer = ny_LocalId (pb_n st)) then (st, None)
          else match VerifyBundle packet publicKey with
               | None => (st, None)
               | Some _ =>
                   let key := (peer, li_name iface) in
                   if time_Sub now (default ZeroTime (la_lastAttempt lan !! key)) <? ProbeTimeout then (st, None)
                   else if dispatched then
                     (set_lan st (Some (mkLan (la_interfaces lan) (<[key := now]> (la_lastAttempt lan)))),
                      Some (peer, be_decode publicKey, li_name iface, mkAddrPort source port))
                   else (st, None)
               end
      end
  | _, _ => (st, None)
  end.

(** ** What happens to a prober *)

(** The events: a probe arrives (at [rxTs], answered at [mono]), a timer runs out, a probe
    could not be sent, the periodic tasks, an IPC request, and an announcement. *)
Inductive ProbeEvent :=
| EvProbe (rxTs mono : Z) (sent : bool) (pkt : Ny_Probe) (endpoint : StdNetEndpoint) (peer : Peer) (node : NodeId)
| EvTimeout (key : Z)
| EvSendFailed (linkId txTs : Z)
| EvProbeLinks (mono : Z) (active : bool)
| EvProbeNew (mono : Z)
| EvIPCProbe (mono : Z) (peer : NodeId) (timeout : Z)
| EvScheduled (dispatched : bool)
| EvNylonGc
| EvScanPassive (lastReceived : Peer → Z) (health : PrefixHealth → HealthRef) (noop : HealthRef)
| EvAnnouncement (mono : Z) (packet : list Z) (source : Addr) (iface : lanDiscoveryInterface) (dispatched : bool).

Definition probe_event `{Signature} prepare (handshake : Peer → StdNetEndpoint → bool) (e : Env) (st : Prober) (ev : ProbeEvent)
    : option Prober :=
  let now := env_now e in
  match ev with
  | EvProbe rxTs mono sent pkt endpoint peer node =>
      match handleProbe rxTs mono sent st pkt endpoint peer node with
      | (st, ProbeIgnored) => Some st
      | (st, ProbePing) => handleProbePing e st node pkt endpoint rxTs
      | (st, ProbePong) => handleProbePong e st node pkt endpoint rxTs
      end
  | EvTimeout key => Some (probe_timeout st key)
  | EvSendFailed linkId txTs => Some (probe_send_failed st linkId txTs)
  | EvProbeLinks mono active => probeLinks prepare now mono active st
  | EvProbeNew mono => probeNew prepare now mono st
  | EvIPCProbe mono peer timeout =>
      r ← sendEndpointProbes prepare now mono st peer timeout;
      Some (match r with inl _ => st | inr x => x.1 end)
  | EvScheduled dispatched => run_scheduled e st dispatched
  | EvNylonGc => n ← nylonGc e (pb_n st); Some (set_pn st n)
  | EvScanPassive lastReceived health noop =>
      n ← scanPassivePeers now lastReceived health noop (pb_n st); Some (set_pn st n)
  | EvAnnouncement mono packet source iface dispatched =>
      match read_announcement now st packet source iface dispatched with
      | (st, None) => Some st
      | (st, Some (peer, publicKey, name, candidate)) =>
          handleLANDiscoveryAnnouncement prepare handshake now mono st peer publicKey name candidate
      end
  end.

End probing.
