(* ===== verification/ProbingProps.v ===== *)
(** What probing guarantees: no probe, reply, announcement or periodic task of it makes a
    node panic or spoils a link, a probe is answered once and by the peer it was sent to,
    what a ping and a reply change, which links survive the scan for dead ones, and that
    announcements of LAN discovery can be read by those who know the key. *)

From S2P Require Import Prelude Bytes NetIP Float64 Metric Routing Endpoint EndpointProps RouterAlgo RouterFacts RouterInv RouterOps RouterProps Config External RouterIO Forwarding RouterEvents Graph Validation SysRoutes Reconcile Probing.

Section props.
Context `{MR : MapRange} `{U : Unicode} `{TP : TextParsers} `{NT : NetText} `{HO : Host} `{PF : Platform}
  {T : Type → Type} `{BT : BartTable T} `{BTL : !BartTableLaws T}
  {C : Type → Type → Type} `{TC : TTLCache C} `{TCL : !TTLCacheLaws C} (K : Prefix → Prop).

Abbreviation Nylon := (Nylon NylonEndpoint T C).
Abbreviation Prober := (Prober (T := T) (C := C)).
Implicit Types (n : Nylon) (st : Prober) (e : Env) (ep : NylonEndpoint).

(** ** Nodes whose links are well formed *)

Record linked_ok n : Prop := {
  no_good : good_for K n;
  no_window : window_ok (rs_tun (ny_rs n));
  no_links : Forall (λ m, Forall ep_wf (n_Eps m)) (rs_Neighbours (ny_rs n));
  no_graph : is_Some (GetPeers (ny_CentralCfg n) (ny_LocalId n));
}.

(** The probes that wait: their links are well formed, and a probe of LAN discovery has a
    service that sent it. *)
Definition pings_ok (now : Z) (buf : C Z EpPing) (lan : option lanDiscoveryService) : Prop :=
  ∀ t key ping, now <= t → tc_Get t buf key = Some ping →
  ep_wf (pg_Endpoint ping) ∧ (pg_Discovery ping = true → is_Some lan).

Definition probe_ok (now : Z) st : Prop := linked_ok (pb_n st) ∧ pings_ok now (pb_PingBuf st) (pb_lan st).

Lemma neighbour_ok n id m : linked_ok n → GetNeighbour (ny_rs n) id = Some m →
  Forall ep_wf (n_Eps m) ∧ is_Some (GetNode (ny_CentralCfg n) id).
Proof.
  intros Hn [Hm <-]%GetNeighbour_Some. pose proof (no_good _ Hn) as (_ & (_ & Hk & _) & _).
  rewrite Forall_forall in Hk. split; [|by apply Hk].
  pose proof (no_links _ Hn) as Hl. rewrite Forall_forall in Hl. by apply Hl.
Qed.

(** New links for a neighbour leave the routes alone. *)
Lemma good_neighbours n l : good_for K n →
  Forall (λ m, map_Forall (λ p _, K p) (n_Routes m) ∧ is_Some (GetNode (ny_CentralCfg n) (n_Id m))) l →
  good_for K (set_rs n (set_Neighbours (ny_rs n) l)).
Proof.
  intros (Hcfg & ((HR & HA & HN) & HN' & HA') & Hm) [Hl1 Hl2]%Forall_and.
  split; [done|]. split; [|done]. split; [|by split]. by split; [|split].
Qed.

Lemma set_eps_eq n node eps : set_eps n node eps = n ∨
  ∃ i m, rs_Neighbours (ny_rs n) !! i = Some m ∧ n_Id m = node ∧
    set_eps n node eps = set_rs n (set_Neighbours (ny_rs n) (<[i := mkNeighbour (n_Id m) (n_Routes m) eps]> (rs_Neighbours (ny_rs n)))).
Proof.
  unfold set_eps, put_neighbour. destruct (list_find _ _) as [[i m]|] eqn:E; [right|left; by destruct n].
  apply list_find_Some in E as (Hm & Hid & _). by exists i, m.
Qed.

Lemma set_eps_ok n node eps : linked_ok n → Forall ep_wf eps → linked_ok (set_eps n node eps).
Proof.
  intros Hn Heps. destruct (set_eps_eq n node eps) as [->|(i & m & Hm & Hid & ->)]; [done|].
  pose proof (no_good _ Hn) as Hg. pose proof Hg as (_ & ((_ & _ & HN) & HN' & _) & _).
  split; [|apply Hn| |apply Hn].
  - apply good_neighbours; [done|]. apply Forall_insert; [by apply Forall_and|].
    cbn. split; [by eapply Forall_lookup_1 in HN|by eapply Forall_lookup_1 in HN'].
  - cbn. apply Forall_insert; [apply Hn|done].
Qed.

(** ** Router operations keep the links *)

Definition links_of_state (s : RouterState NylonEndpoint) : list (NodeId * list NylonEndpoint) :=
  (λ m, (n_Id m, n_Eps m)) <$> rs_Neighbours s.

(** What routing does not change. *)
Definition node_frame n n' : Prop :=
  links_of_state (ny_rs n') = links_of_state (ny_rs n) ∧ rs_tun (ny_rs n') = rs_tun (ny_rs n) ∧
  ny_CentralCfg n' = ny_CentralCfg n ∧ ny_LocalId n' = ny_LocalId n ∧ ny_peers n' = ny_peers n.

#[local] Instance node_frame_trans : Transitive node_frame.
Proof. intros x y z (? & ? & ? & ? & ?) (? & ? & ? & ? & ?). repeat split; congruence. Qed.

Lemma node_frame_ok n n' : linked_ok n → node_frame n n' → good_for K n' → linked_ok n'.
Proof.
  intros Hn (Hl & Ht & Hc & Hi & Hp) Hg. split; [done|rewrite Ht; apply Hn| |rewrite Hc, Hi; apply Hn].
  assert (∀ s, Forall (λ m, Forall ep_wf (n_Eps m)) (rs_Neighbours s) ↔ Forall (λ x, Forall ep_wf x.2) (links_of_state s)) as Heq.
  { intros s. unfold links_of_state. by rewrite Forall_fmap. }
  apply Heq. rewrite Hl. apply Heq, Hn.
Qed.

Definition keeps_links (s s' : RouterState NylonEndpoint) : Prop :=
  links_of_state s' = links_of_state s ∧ rs_tun s' = rs_tun s.

Lemma ComputeRoutes_links e s : keeps_links s (ComputeRoutes e s).1.
Proof.
  destruct (compute_frame e s) as (Ht & _ & _ & _ & Hn). split; [|done].
  unfold links_of_state. rewrite Hn, <- list_fmap_compose. by apply list_fmap_ext.
Qed.

Lemma RunGC_links e s : keeps_links s (RunGC e s).1.
Proof.
  rewrite RunGC_eq, gc_sources_eq. cbn [fst]. destruct (ComputeRoutes_links e (gc_start e s)) as [Hl Ht].
  split; [|exact Ht]. unfold links_of_state in *. cbn. rewrite Hl. cbn. rewrite <- list_fmap_compose. by apply list_fmap_ext.
Qed.

Lemma run_node_ok e n op r : linked_ok n → op_keys K op → run_op e (ny_rs n) op = Some r → keeps_links (ny_rs n) r.1 →
  ∃ n', run (env_now e) n r = Some n' ∧ linked_ok n' ∧ node_frame n n'.
Proof.
  intros Hn Hop Hr [Hl Ht]. destruct (run_good K e n op r (no_good _ Hn) Hop Hr) as (n' & Hrun & Hg & (Hrs & Hc & Hi & Hp)).
  exists n'. split; [done|]. assert (node_frame n n') as Hf.
  { split; [by rewrite Hrs|]. split; [by rewrite Hrs|]. by rewrite Hc, Hi, Hp. }
  split; [|done]. by eapply node_frame_ok.
Qed.

Lemma compute_node_ok e n : linked_ok n →
  ∃ n', run (env_now e) n (ComputeRoutes e (ny_rs n)) = Some n' ∧ linked_ok n' ∧ node_frame n n'.
Proof. intros Hn. apply (run_node_ok e n OpComputeRoutes); [done..|]. apply ComputeRoutes_links. Qed.

Lemma update_node_ok e n id : linked_ok n →
  ∃ n', UpdateNeighbour (env_now e) n id = Some n' ∧ linked_ok n' ∧ node_frame n n'.
Proof. intros Hn. apply (run_node_ok e n (OpPushFullTable id)); [done..|]. by rewrite PushFullTable_eq. Qed.

Lemma GcRouter_node_ok e n : linked_ok n → ∃ n', GcRouter e n = Some n' ∧ linked_ok n' ∧ node_frame n n'.
Proof.
  intros Hn. destruct (run_node_ok e n OpRunGC _ Hn I eq_refl (RunGC_links e (ny_rs n))) as (n1 & Hrun & Hn1 & Hf).
  unfold GcRouter. change (run _ _ _) with (run (env_now e) n (RunGC e (ny_rs n))) in Hrun. rewrite Hrun. cbn [mbind option_bind].
  eexists. split; [done|]. split; [|exact Hf]. destruct Hn1. split; try done; try apply good_set_IO; done.
Qed.

Lemma recompute_ok e st node : linked_ok (pb_n st) →
  ∃ n', recompute e st node = Some (set_pn st n') ∧ linked_ok n' ∧ node_frame (pb_n st) n'.
Proof.
  intros Hn. unfold recompute. destruct (compute_node_ok e (pb_n st) Hn) as (n1 & -> & Hn1 & Hf1).
  cbn [mbind option_bind]. destruct (update_node_ok e n1 node Hn1) as (n2 & -> & Hn2 & Hf2). cbn [mbind option_bind].
  exists n2. split; [done|]. split; [done|]. by transitivity n1.
Qed.

(** ** Links stay well formed *)

Lemma set_wg_wf ep wg : ep_wf ep → ep_wf (set_wg ep wg).
Proof. by intros []. Qed.
Lemma set_dyn_wf ep d : ep_wf ep → ep_wf (set_dyn ep d).
Proof. by intros []. Qed.
Lemma set_bind_wf ep b : ep_wf ep → ep_wf (set_bind ep b).
Proof. by intros []. Qed.
Lemma set_transport_wf ep t : ep_wf ep → ep_wf (set_transport ep t).
Proof. by intros []. Qed.
Lemma Renew_wf now ep : ep_wf ep → ep_wf (Renew now ep).
Proof. intros H. eapply ep_step_wf; [exact H|constructor]. Qed.
Lemma RegisterProbe_wf ep tx : ep_wf ep → ep_wf (RegisterProbe ep tx).
Proof. intros H. eapply ep_step_wf; [exact H|constructor]. Qed.
Lemma CancelProbe_wf ep tx : ep_wf ep → ep_wf (CancelProbe ep tx).
Proof. intros H. eapply ep_step_wf; [exact H|constructor]. Qed.
Lemma SweepProbes_wf ep tx : ep_wf ep → ep_wf (SweepProbes ep tx).
Proof. intros H. eapply ep_step_wf; [exact H|constructor]. Qed.
Lemma observeProbe_wf ep pkt rx : ep_wf ep → ep_wf (observeProbe ep pkt rx).
Proof.
  intros H. unfold observeProbe. assert (ep_wf (ObserveInbound ep (np_TxTs pkt) rx)) as Hi
    by (eapply ep_step_wf; [exact H|constructor]).
  destruct (np_OriginTxTs pkt), (np_OriginRxTs pkt); [|done..]. eapply ep_step_wf; [exact Hi|constructor].
Qed.
Lemma BindInterfaceIndex_wf ep : ep_wf ep → ep_wf (BindInterfaceIndex ep).1.
Proof. intros []. unfold BindInterfaceIndex. repeat case_goal; by split. Qed.

Create HintDb link_db.
#[local] Hint Resolve set_wg_wf set_dyn_wf set_bind_wf set_transport_wf Renew_wf RegisterProbe_wf CancelProbe_wf
  SweepProbes_wf observeProbe_wf BindInterfaceIndex_wf NewEndpoint_wf : link_db.

Lemma GetWgEndpoint_wf prepare ep : ep_wf ep → ep_wf (GetWgEndpoint prepare ep).1.
Proof.
  intros H. unfold GetWgEndpoint. destruct (dyn_Get _) as [ap|]; [|done]. destruct (negb _); [done|].
  destruct (match ep_WgEndpoint ep with Some _ => _ | None => _ end) as [wg|]; [|done].
  pose proof (BindInterfaceIndex_wf _ (set_wg_wf _ (Some wg) H)) as Hb.
  destruct (BindInterfaceIndex (set_wg ep (Some wg))) as [ep' [ifidx|]]; cbn [fst] in Hb;
    repeat case_goal; simplify_eq; cbn [fst]; eauto with link_db.
Qed.

(** ** Sending *)

Lemma probe_ok_later now now' st : now <= now' → probe_ok now st → probe_ok now' st.
Proof. intros Ht [Hn Hp]. split; [done|]. intros t key ping H. apply Hp. lia. Qed.

Lemma probe_ok_set now st n : probe_ok now st → linked_ok n → probe_ok now (set_pn st n).
Proof. by intros [_ Hp] Hn. Qed.

Lemma set_eps_probe_ok now st node eps : probe_ok now st → Forall ep_wf eps → probe_ok now (set_pn st (set_eps (pb_n st) node eps)).
Proof. intros Hok Heps. apply probe_ok_set; [done|]. apply set_eps_ok; [apply Hok|done]. Qed.

Lemma pings_ok_delete now buf lan key : pings_ok now buf lan → pings_ok now (tc_Delete buf key) lan.
Proof. intros Hp t k ping Ht. rewrite tc_Get_Delete. case_decide; [done|]. by apply Hp. Qed.

Lemma complete_ok now st key status latency : probe_ok now st → probe_ok now (complete st key status latency).
Proof. intros Hok. unfold complete. by destruct (pb_done st !! key). Qed.

Lemma delete_ping_ok now st key : probe_ok now st → probe_ok now (delete_ping st key).
Proof. intros [Hn Hp]. split; [done|]. by apply pings_ok_delete. Qed.

Lemma stop_timer_ok now st key : probe_ok now st → probe_ok now (stop_timer st key).
Proof. done. Qed.

#[local] Hint Resolve complete_ok delete_ping_ok stop_timer_ok : link_db.

Lemma send_ok prepare now mono st node ep timeout discovery :
  probe_ok now st → ep_wf ep → is_Some (GetNode (ny_CentralCfg (pb_n st)) node) → (discovery = true → is_Some (pb_lan st)) →
  ∃ st' ep' r, sendEndpointProbeWithDiscovery prepare now mono st node ep timeout discovery = Some (st', ep', r) ∧
    probe_ok now st' ∧ ep_wf ep' ∧ pb_n st' = pb_n st.
Proof.
  intros [Hn Hp] Hep [ncfg Hnode] Hlan. unfold sendEndpointProbeWithDiscovery. rewrite Hnode. cbn [mbind option_bind].
  destruct (LookupPeer _ _) as [peer|]; [|eexists _, _, _; by split].
  pose proof (GetWgEndpoint_wf prepare ep Hep) as Hw. destruct (GetWgEndpoint prepare ep) as [ep1 [err|nep]]; cbn [fst] in Hw.
  { destruct err as [| | | |[]]; eexists _, _, _; (split; [done|]); done. }
  cbn [nextProbeTxNs]. eexists _, _, _. split; [done|]. split; [|split; [eauto with link_db|done]].
  split; [exact Hn|]. cbn. intros t key ping Ht. rewrite tc_Get_Set by done. case_decide; [|by apply Hp].
  destruct (_ <=? _); [|done]. intros [= <-]. cbn. split; [|done]. eauto with link_db.
Qed.

(** Folds of steps that cannot fail. *)
Lemma foldl_ok {A B} (P : A → Prop) (f : A → B → option A) l :
  (∀ a b, P a → ∃ a', f a b = Some a' ∧ P a') → ∀ a, P a → ∃ a', foldl (λ r b, a ← r; f a b) (Some a) l = Some a' ∧ P a'.
Proof.
  intros Hf. induction l as [|b l IH]; intros a Ha; cbn; [eauto|].
  destruct (Hf a b Ha) as (a' & -> & Ha'). by apply IH.
Qed.

Lemma probe_at_ok prepare now mono st node i : probe_ok now st →
  ∃ st', probe_at prepare now mono st node i = Some st' ∧ probe_ok now st'.
Proof.
  intros Hok. unfold probe_at. destruct (GetNeighbour _ node) as [m|] eqn:Em; [|eauto].
  destruct (neighbour_ok _ _ _ (proj1 Hok) Em) as [Hw Hk]. destruct (n_Eps m !! i) as [ep|] eqn:Ei; [|eauto].
  destruct (send_ok prepare now mono st node ep 0 false) as (st' & ep' & r & Hs & Hok' & Hep' & Hn); [done|by eapply Forall_lookup_1|done..|].
  unfold Probe, sendEndpointProbe. rewrite Hs. cbn [mbind option_bind]. eexists. split; [done|].
  apply set_eps_probe_ok; [done|]. by apply Forall_insert.
Qed.

Lemma probe_link_ok prepare now mono active node st i : probe_ok now st →
  ∃ st', probe_link prepare now mono active node st i = Some st' ∧ probe_ok now st'.
Proof.
  intros Hok. unfold probe_link. destruct (GetNeighbour _ node) as [m|]; [|eauto]. destruct (n_Eps m !! i); [|eauto].
  case_goal; [eauto|]. by apply probe_at_ok.
Qed.

Lemma probeLinks_ok prepare now mono active st : probe_ok now st →
  ∃ st', probeLinks prepare now mono active st = Some st' ∧ probe_ok now st'.
Proof.
  intros Hok. unfold probeLinks. generalize (rs_Neighbours (ny_rs (pb_n st))) as l. intros l. revert st Hok.
  induction l as [|m l IH]; intros st Hok; cbn [foldl]; [eauto|].
  destruct (foldl_ok (probe_ok now) (probe_link prepare now mono active (n_Id m)) (seq 0 (length (n_Eps m)))
    (λ a b, probe_link_ok prepare now mono active (n_Id m) a b) st Hok) as (st' & -> & Hok'). by apply IH.
Qed.

Lemma probe_configured_ok prepare now mono peer st d : probe_ok now st →
  ∃ st', probe_configured prepare now mono peer st d = Some st' ∧ probe_ok now st'.
Proof.
  intros Hok. unfold probe_configured. destruct (dyn_Get d) as [ap|]; [|eauto].
  destruct (GetNeighbour _ peer) as [m|] eqn:Em; [|eauto]. destruct (negb _); [eauto|]. case_goal; [eauto|].
  apply probe_at_ok. destruct (neighbour_ok _ _ _ (proj1 Hok) Em) as [Hw _].
  refine (set_eps_probe_ok now st peer _ Hok _). apply Forall_app. split; [done|].
  constructor; [|done]. apply NewEndpoint_wf, Hok.
Qed.

Lemma probeNew_ok cfgEndpoints prepare now mono st : probe_ok now st →
  ∃ st', probeNew cfgEndpoints prepare now mono st = Some st' ∧ probe_ok now st'.
Proof.
  intros Hok. unfold probeNew. destruct (no_graph _ (proj1 Hok)) as [peers ->]. cbn [mbind option_bind].
  apply (foldl_ok (probe_ok now) (λ st peer, if negb (IsRouter (ny_CentralCfg (pb_n st)) peer) then Some st
    else foldl (λ r d, st ← r; probe_configured prepare now mono peer st d) (Some st) (cfgEndpoints peer))); [|done].
  intros st1 peer Hok1. destruct (negb _); [eauto|].
  apply (foldl_ok (probe_ok now) (probe_configured prepare now mono peer)); [|done].
  intros st2 d. apply probe_configured_ok.
Qed.

Lemma sendEndpointProbes_ok prepare now mono st peer timeout : probe_ok now st →
  ∃ r, sendEndpointProbes prepare now mono st peer timeout = Some r ∧
    match r with inl _ => GetNeighbour (ny_rs (pb_n st)) peer = None | inr x => probe_ok now x.1 end.
Proof.
  intros Hok. unfold sendEndpointProbes. destruct (GetNeighbour _ peer) as [m|]; [|by exists (inl tt)].
  generalize (merge_sort by_value (imap (λ i ep, (dyn_Value (ep_DynEP ep), i)) (n_Eps m))) as l. intros l.
  assert (∃ r, foldl (λ r (x : string * nat), r ← r; probe_for_ipc prepare now mono peer timeout r x.2) (Some (st, [])) l = Some r ∧
    probe_ok now r.1) as (r & -> & Hr); [|by exists (inr r)].
  apply (foldl_ok (λ x, probe_ok now x.1)); [|done]. intros [st1 out] [v i] Hok1. unfold probe_for_ipc. cbn [fst snd] in *.
  destruct (GetNeighbour _ peer) as [m1|] eqn:Em; [|eauto]. destruct (n_Eps m1 !! i) as [ep|] eqn:Ei; [|eauto].
  destruct (neighbour_ok _ _ _ (proj1 Hok1) Em) as [Hw Hk].
  destruct (send_ok prepare now mono st1 peer ep timeout false) as (st' & ep' & r & Hs & Hok' & Hep' & Hn);
    [done|by eapply Forall_lookup_1|done..|].
  unfold sendEndpointProbe. rewrite Hs. cbn [mbind option_bind]. eexists. split; [done|].
  apply set_eps_probe_ok; [done|]. by apply Forall_insert.
Qed.

(** ** Receiving *)

Lemma match_link_wf discovery wg eps : Forall ep_wf eps → ∀ i fb, Forall ep_wf (match_link discovery wg i fb eps).1.
Proof.
  induction 1 as [|ep eps Hep Heps IH]; intros i fb; cbn [match_link]; [constructor|].
  assert (∀ ep' fb', ep_wf ep' → Forall ep_wf (let '(l, r) := match_link discovery wg (S i) fb' eps in (ep' :: l, r)).1) as Hnext.
  { intros ep' fb' Hep'. specialize (IH (S i) fb'). destruct (match_link _ _ _ _ _). by constructor. }
  pose proof (BindInterfaceIndex_wf ep Hep) as Hb. destruct (BindInterfaceIndex ep) as [ep1 [idx|]]; cbn [fst] in Hb;
    repeat first [by apply Hnext | by constructor | case_goal; simplify_eq].
Qed.

Lemma recompute_probe_ok now e st node : probe_ok now st → ∃ st', recompute e st node = Some st' ∧ probe_ok now st'.
Proof.
  intros Hok. destruct (recompute_ok e st node (proj1 Hok)) as (n' & -> & Hn' & _). eexists. split; [done|]. by apply probe_ok_set.
Qed.

Lemma handleProbePing_ok now e st node pkt wg rx : probe_ok now st →
  ∃ st', handleProbePing e st node pkt wg rx = Some st' ∧ probe_ok now st'.
Proof.
  intros Hok. unfold handleProbePing. case_goal; [eauto|]. destruct (GetNeighbour _ node) as [m|] eqn:Em; [|eauto].
  destruct (neighbour_ok _ _ _ (proj1 Hok) Em) as [Hw Hk].
  destruct (if np_Discovery pkt then _ else _) as [iface|]; [|eauto]. case_goal; [eauto|].
  pose proof (match_link_wf (np_Discovery pkt) wg _ Hw 0 None) as Hm. destruct (match_link _ _ _ _ _) as [eps [i|]]; cbn [fst] in Hm.
  - destruct (eps !! i) as [dep|] eqn:Ei; [|eexists; split; [done|by apply set_eps_probe_ok]].
    assert (ep_wf dep) by by eapply Forall_lookup_1.
    assert (∀ st1 l, probe_ok now st1 → Forall ep_wf l → probe_ok now (set_pn st1 (set_eps (pb_n st1) node l))) as Hset
      by (intros; by apply set_eps_probe_ok).
    case_goal; [apply recompute_probe_ok|eexists; split; [done|]]; (apply Hset; [by apply Hset|]);
      (apply Forall_insert; [done|]); eauto with link_db.
  - destruct (if _ && _ then _ else _) as [name|]; [|eexists; split; [done|by apply set_eps_probe_ok]].
    apply recompute_probe_ok. refine (set_eps_probe_ok now _ node _ (set_eps_probe_ok now st node eps Hok Hm) _).
    apply Forall_app. split; [done|]. constructor; [|done].
    apply observeProbe_wf, Renew_wf. unfold new_remote_link. apply set_bind_wf, set_transport_wf, NewEndpoint_wf.
    destruct (set_eps_ok (pb_n st) node eps (proj1 Hok) Hm) as [_ Hwin _ _]. exact Hwin.
Qed.

Lemma handleProbe_ok now rx mono sent st pkt wg peer node : probe_ok now st → probe_ok now (handleProbe rx mono sent st pkt wg peer node).1.
Proof. intros Hok. unfold handleProbe. destruct (_ =? 0); [done|]. destruct (_ && _); [done|]. destruct (negb _); [|done]. by destruct sent. Qed.

Lemma claim_ping_ok now st node pkt : probe_ok now st →
  let '(st', found) := claim_ping now st node pkt in
  probe_ok now st' ∧ pb_n st' = pb_n st ∧ pb_lan st' = pb_lan st ∧
  match found with Some ep => ep_wf ep ∧ is_Some (pb_lan st) | None => True end.
Proof.
  intros Hok. unfold claim_ping. destruct (np_OriginTxTs pkt) as [tx|]; [|done].
  destruct (tc_Get _ _ _) as [ping|] eqn:Ep; [|done]. destruct (proj2 Hok now _ _ (Z.le_refl _) Ep) as [Hw Hl].
  assert (probe_ok now (delete_ping st (uint64 tx))) as Hd by by apply delete_ping_ok.
  case_goal; [done|]. case_goal; [done|]. split; [by apply complete_ok, stop_timer_ok|].
  assert (∀ st1 k s l, pb_n (complete st1 k s l) = pb_n st1 ∧ pb_lan (complete st1 k s l) = pb_lan st1) as Hc.
  { intros. unfold complete. by destruct (pb_done _ !! _). }
  rewrite (proj1 (Hc _ _ _ _)), (proj2 (Hc _ _ _ _)). split; [done|]. split; [done|].
  destruct (pg_Discovery ping); [|done]. split; [done|]. by apply Hl.
Qed.

Lemma promote_ok now e st node pkt wg cand rx : probe_ok now st → ep_wf cand → is_Some (pb_lan st) →
  ∃ st', promoteLANDiscoveryEndpoint e st node pkt wg cand rx = Some st' ∧ probe_ok now st'.
Proof.
  intros Hok Hc [lan Hlan]. unfold promoteLANDiscoveryEndpoint. rewrite Hlan. cbn [mbind option_bind].
  destruct (la_interfaces lan !! _) as [iface|]; [|eauto]. destruct (negb _ || negb _); [eauto|].
  destruct (GetNeighbour _ node) as [m|] eqn:Em; [|eauto]. destruct (neighbour_ok _ _ _ (proj1 Hok) Em) as [Hw Hk].
  assert (∀ ep, ep_wf ep → ep_wf (match np_OriginTxTs pkt with Some tx => RegisterProbe ep tx | None => ep end)) as Hreg
    by (intros; destruct (np_OriginTxTs pkt); eauto with link_db).
  destruct (list_find _ _) as [[i ep]|] eqn:E.
  - apply list_find_Some in E as (Hi & _). assert (ep_wf ep) by by eapply Forall_lookup_1.
    assert (probe_ok now (set_pn st (set_eps (pb_n st) node
      (<[i := observeProbe (match np_OriginTxTs pkt with
                            | Some tx => RegisterProbe (Renew (env_now e) (set_wg ep (Some wg))) tx
                            | None => Renew (env_now e) (set_wg ep (Some wg)) end) pkt rx]> (n_Eps m))))) as Hok'.
    { apply set_eps_probe_ok; [done|]. apply Forall_insert; [done|]. eauto with link_db. }
    destruct (negb (isActive (env_now e) ep)); [by apply recompute_probe_ok|]. eexists. split; [done|]. exact Hok'.
  - apply recompute_probe_ok, set_eps_probe_ok; [done|]. apply Forall_app. split; [done|]. constructor; [|done]. eauto 10 with link_db.
Qed.

Lemma handleProbePong_ok e st node pkt wg rx : probe_ok (env_now e) st →
  ∃ st', handleProbePong e st node pkt wg rx = Some st' ∧ probe_ok (env_now e) st'.
Proof.
  intros Hok. unfold handleProbePong. pose proof (claim_ping_ok (env_now e) st node pkt Hok) as Hcl.
  destruct (claim_ping _ st node pkt) as [st1 found]. destruct Hcl as (Hok1 & Hn & Hl & Hf).
  destruct (GetNeighbour _ node) as [m|] eqn:Em; [|eauto]. destruct (neighbour_ok _ _ _ (proj1 Hok1) Em) as [Hw Hk].
  destruct found as [cand|]; [apply promote_ok; [done|apply Hf|rewrite Hl; apply Hf]|].
  destruct (list_find _ _) as [[i ep]|] eqn:E; [|eauto]. apply list_find_Some in E as (Hi & _).
  assert (ep_wf ep) by by eapply Forall_lookup_1. eexists. split; [done|].
  refine (set_eps_probe_ok (env_now e) st1 node _ Hok1 _). apply Forall_insert; [done|]. eauto with link_db.
Qed.

(** ** Periodic tasks *)

Lemma map_links_ok n (f : list NylonEndpoint → list NylonEndpoint) : linked_ok n → (∀ eps, Forall ep_wf eps → Forall ep_wf (f eps)) →
  linked_ok (set_rs n (set_Neighbours (ny_rs n) ((λ m, mkNeighbour (n_Id m) (n_Routes m) (f (n_Eps m))) <$> rs_Neighbours (ny_rs n)))).
Proof.
  intros Hn Hf. pose proof (no_good _ Hn) as Hg. pose proof Hg as (_ & ((_ & _ & HN) & HN' & _) & _).
  split; [|apply Hn| |apply Hn].
  - apply good_neighbours; [done|]. apply Forall_fmap. eapply Forall_impl; [apply Forall_and; split; [exact HN|exact HN']|]. done.
  - cbn. apply Forall_fmap. eapply Forall_impl; [apply (no_links _ Hn)|]. intros m. apply Hf.
Qed.

Lemma gc_links_wf now eps : Forall ep_wf eps → Forall ep_wf (gc_links now eps).
Proof.
  rewrite !Forall_forall. intros H ep (_ & (ep0 & -> & Hep0)%list_elem_of_fmap)%list_elem_of_filter.
  destruct (isActive now ep0); eauto with link_db.
Qed.

Lemma nylonGc_ok e n : linked_ok n → ∃ n', nylonGc e n = Some n' ∧ linked_ok n'.
Proof.
  intros Hn. unfold nylonGc. edestruct (GcRouter_node_ok e) as (n' & -> & Hn' & _); [|by eauto].
  apply map_links_ok; [done|]. apply gc_links_wf.
Qed.

Lemma GetNode_in (c : CentralCfg) nid node : GetNode c nid = Some node → node ∈ GetNodes c.
Proof.
  unfold GetNode, TryGetNode, GetNodes. intros H. apply elem_of_app.
  destruct (list_find _ (c_Routers c)) as [[i r]|] eqn:Er.
  - injection H as <-. left. apply list_find_Some in Er as (Hi & _). apply list_elem_of_fmap_2. by eapply list_elem_of_lookup_2.
  - destruct (list_find _ (c_Clients c)) as [[i r]|] eqn:Ec; [|done]. injection H as <-. right.
    apply list_find_Some in Ec as (Hi & _). apply list_elem_of_fmap_2. by eapply list_elem_of_lookup_2.
Qed.

Lemma FindNodeBy_known (c : CentralCfg) pk nid : FindNodeBy c pk = Some nid → is_Some (GetNode c nid).
Proof.
  unfold FindNodeBy, GetNode, TryGetNode. intros H.
  destruct (list_find (λ r, rc_Id r = nid) (c_Routers c)) as [[]|] eqn:Er; [by eexists|]. rewrite list_find_None, Forall_forall in Er.
  destruct (list_find (λ r, cc_Id r = nid) (c_Clients c)) as [[]|] eqn:Ec; [by eexists|]. rewrite list_find_None, Forall_forall in Ec.
  destruct (list_find _ (c_Routers c)) as [[i r]|] eqn:E1 in H.
  - injection H as <-. apply list_find_Some in E1 as (Hi & _). exfalso. by eapply Er; [eapply list_elem_of_lookup_2|].
  - destruct (list_find _ (c_Clients c)) as [[i r]|] eqn:E2 in H; [|done]. injection H as <-.
    apply list_find_Some in E2 as (Hi & _). exfalso. by eapply Ec; [eapply list_elem_of_lookup_2|].
Qed.

Lemma updatePassiveClient_ok now n p health noop nid hold : linked_ok n → K p → is_Some (GetNode (ny_CentralCfg n) nid) →
  let n' := updatePassiveClient now n p health noop nid hold in linked_ok n' ∧ ny_CentralCfg n' = ny_CentralCfg n.
Proof.
  intros Hn Hp Hnid. pose proof (no_good _ Hn) as (Hcfg & ((HR & HA & HN) & HN' & HA') & Hm).
  split; [|done]. unfold updatePassiveClient.
  destruct (hold && _); (split; [|apply Hn..]); (split; [done|]); (split; [|exact Hm]); (split; [split; [done|split; [|done]]|split; [done|]]);
    cbn; by apply map_Forall_insert_2.
Qed.

Lemma scan_passive_peer_ok now lastReceived health noop n x : linked_ok n →
  ∃ n', scan_passive_peer now lastReceived health noop n x = Some n' ∧ linked_ok n'.
Proof.
  intros Hn. unfold scan_passive_peer. destruct (FindNodeBy _ _) as [nid|] eqn:Ef; [|eauto].
  destruct (FindNodeBy_known _ _ _ Ef) as [node Hnode]. pose proof (GetNode_in _ _ _ Hnode) as Hin. rewrite Hnode. cbn [mbind option_bind].
  destruct (negb _); [eauto|]. eexists. split; [done|]. set (c := ny_CentralCfg n) in *.
  eapply proj1, (foldl_ind (λ n', linked_ok n' ∧ ny_CentralCfg n' = c)); [done|].
  intros n1 h Hh [Hn1 Hc1]. case_goal; [|done]. rewrite <- Hc1. apply updatePassiveClient_ok; [done| |by rewrite Hc1, Hnode].
  apply (no_good _ Hn). apply GetPrefixes_spec. eauto.
Qed.

Lemma scanPassivePeers_ok now lastReceived health noop n : linked_ok n →
  ∃ n', scanPassivePeers now lastReceived health noop n = Some n' ∧ linked_ok n'.
Proof.
  intros Hn. apply (foldl_ok linked_ok (scan_passive_peer now lastReceived health noop)); [|done]. intros n1 x. apply scan_passive_peer_ok.
Qed.

Lemma upd_link_ok n id f : linked_ok n → (∀ ep, ep_wf ep → ep_wf (f ep)) → linked_ok (upd_link n id f).
Proof.
  intros Hn Hf. refine (map_links_ok n (fmap (λ ep, if ep_LinkId ep =? id then f ep else ep)) Hn _).
  intros eps Heps. apply Forall_fmap. eapply Forall_impl; [exact Heps|]. intros ep Hep. cbn. case_goal; auto.
Qed.

Lemma announcement_ok prepare handshake now mono st peer pk name cand : probe_ok now st → is_Some (pb_lan st) →
  ∃ st', handleLANDiscoveryAnnouncement prepare handshake now mono st peer pk name cand = Some st' ∧ probe_ok now st'.
Proof.
  intros Hok Hlan. unfold handleLANDiscoveryAnnouncement. destruct (GetNeighbour _ peer) as [m|] eqn:Em; [|eauto].
  destruct (neighbour_ok _ _ _ (proj1 Hok) Em) as [Hw Hk]. destruct (LookupPeer _ pk) as [p|]; [|eauto]. case_goal; [eauto|].
  set (st1 := set_app _ _). assert (probe_ok now st1) as Hok1 by done.
  set (ep0 := set_bind _ _). assert (ep_wf ep0) as Hep0 by (apply set_bind_wf, NewEndpoint_wf, Hok).
  pose proof (GetWgEndpoint_wf prepare ep0 Hep0) as Hw0. destruct (GetWgEndpoint prepare ep0) as [ep1 [err|wg]]; [eauto|].
  destruct (negb _); [eauto|]. unfold sendDiscoveryEndpointProbe.
  destruct (send_ok prepare now mono st1 peer ep1 ProbeTimeout true) as (st' & ep' & r & -> & Hok' & _); [done..|]. cbn. eauto.
Qed.

Lemma probe_event_ok `{SG : Signature} cfgEndpoints prepare handshake now e st ev :
  probe_ok now st → now <= env_now e →
  ∃ st', probe_event cfgEndpoints prepare handshake e st ev = Some st' ∧ probe_ok (env_now e) st'.
Proof.
  intros Hok Ht. apply (probe_ok_later _ _ _ Ht) in Hok. pose proof (proj1 Hok) as Hn.
  destruct ev as [rx mono sent pkt wg peer node|key|id tx|mono active|mono|mono peer timeout|d| |lr h noop|mono packet src iface d]; cbn [probe_event].
  - pose proof (handleProbe_ok _ rx mono sent st pkt wg peer node Hok) as Hok1. destruct (handleProbe _ _ _ _ _ _ _ _) as [st1 []];
      [eauto|by apply handleProbePing_ok|by apply handleProbePong_ok].
  - eexists. split; [done|]. unfold probe_timeout. case_goal; auto with link_db.
  - eexists. split; [done|]. unfold probe_send_failed. apply complete_ok, delete_ping_ok, stop_timer_ok, probe_ok_set; [done|].
    apply upd_link_ok; [done|]. intros ep. apply CancelProbe_wf.
  - by apply probeLinks_ok.
  - by apply probeNew_ok.
  - destruct (sendEndpointProbes_ok prepare (env_now e) mono st peer timeout Hok) as ([u|x] & -> & Hx); cbn; eauto.
  - unfold run_scheduled. destruct (negb _); [eauto|]. destruct d; [|eauto].
    destruct (compute_node_ok e (pb_n st) Hn) as (n' & -> & Hn' & _). cbn. eexists. split; [done|]. exact (probe_ok_set _ _ _ Hok Hn').
  - destruct (nylonGc_ok e (pb_n st) Hn) as (n' & -> & Hn'). cbn. eauto using probe_ok_set.
  - destruct (scanPassivePeers_ok (env_now e) lr h noop (pb_n st) Hn) as (n' & -> & Hn'). cbn. eauto using probe_ok_set.
  - unfold read_announcement. destruct (readLANDiscoveryAnnouncement packet) as [[pk port]|]; [|eauto].
    destruct (pb_lan st) as [lan|] eqn:El; [|eauto]. destruct (app_PeerMap _ !! _); [|eauto]. case_goal; [eauto|].
    destruct (VerifyBundle packet pk); [|eauto]. case_goal; [eauto|]. destruct d; [|eauto].
    apply announcement_ok; [|by eexists]. split; [exact Hn|]. intros t key ping Hle Hget.
    destruct (proj2 Hok t key ping Hle Hget) as [? _]. split; [done|]. by eexists.
Qed.

End props.

(** C8: whatever probes and replies peers send, whatever is announced in the LAN, and
    whichever timers and periodic tasks run: a node whose neighbours, and the nodes it
    advertises prefixes for, are in its configuration, and whose graph can be read, does not
    panic; its links stay well formed (so that their costs can be computed), and a reply to
    a probe of LAN discovery always finds the service that sent it.  If moreover all
    prefixes of the configuration are canonical (no host bits), its forwarding tables stay
    in step with its routes, a prefix without a route having no entry or one that drops. *)
Theorem probing_never_panics `{MR : MapRange} `{U : Unicode} `{TP : TextParsers} `{NT : NetText} `{HO : Host} `{PF : Platform}
  {T : Type → Type} `{BT : BartTable T} `{BTL : !BartTableLaws T} {C : Type → Type → Type} `{TC : TTLCache C} `{TCL : !TTLCacheLaws C}
  `{SG : Signature} cfgEndpoints prepare handshake now e (st : Prober (T := T) (C := C)) ev :
  probe_ok any_prefix now st → now <= env_now e →
  ∃ st', probe_event cfgEndpoints prepare handshake e st ev = Some st' ∧ probe_ok any_prefix (env_now e) st' ∧
    (good (pb_n st) → good (pb_n st')).
Proof.
  intros Hok Ht. destruct (probe_event_ok any_prefix cfgEndpoints prepare handshake now e st ev Hok Ht) as (st' & Hst' & Hok').
  exists st'. split; [done|]. split; [done|]. intros Hg.
  assert (probe_ok canonical now st) as Hc by (destruct Hok as [[] ?]; split; [split|]; done).
  destruct (probe_event_ok canonical cfgEndpoints prepare handshake now e st ev Hc Ht) as (st2 & Hst2 & Hok2).
  simplify_eq. apply (no_good _ _ (proj1 Hok2)).
Qed.
