(* ===== verification/ProbeLife.v ===== *)
(** The life of a probe: who may answer it and when, what a round trip measures, what a ping
    adds to a neighbour, and what the periodic tasks leave. *)

From S2P Require Import Prelude Bytes NetIP Float64 Metric Routing Endpoint EndpointProps RouterAlgo RouterFacts RouterInv RouterOps RouterProps Config External RouterIO Forwarding RouterEvents Graph Validation SysRoutes Reconcile Probing ProbingProps.

Section life.
Context `{MR : MapRange} `{U : Unicode} `{TP : TextParsers} `{NT : NetText} `{HO : Host} `{PF : Platform}
  {T : Type → Type} `{BT : BartTable T} `{BTL : !BartTableLaws T}
  {C : Type → Type → Type} `{TC : TTLCache C} `{TCL : !TTLCacheLaws C}.

Abbreviation Nylon := (Nylon NylonEndpoint T C).
Abbreviation Prober := (Prober (T := T) (C := C)).
Implicit Types (n : Nylon) (st stB : Prober) (e : Env) (ep : NylonEndpoint).

(** ** Keys *)

(** The probes a node knows of were stamped up to the last timestamp it gave out. *)
Definition known_key (now : Z) st (key : Z) : Prop :=
  (∃ t ping, now <= t ∧ tc_Get t (pb_PingBuf st) key = Some ping) ∨ key ∈ pb_timers st ∨ is_Some (pb_done st !! key).

Definition keys_below (now : Z) st : Prop :=
  is_i64 (pb_last st) ∧ ∀ key, known_key now st key → ∃ ts, - 2 ^ 63 <= ts <= pb_last st ∧ key = uint64 ts.

Lemma uint64_inj a b : is_i64 a → is_i64 b → uint64 a = uint64 b → a = b.
Proof.
  unfold is_i64, wrap. intros Ha Hb H. assert ((a - b) mod 2 ^ 64 = 0) as Hm.
  { rewrite Zminus_mod, H, Z.sub_diag. done. }
  apply Z.mod_divide in Hm as [k Hk]; [|lia]. nia.
Qed.

Lemma next_timestamp_spec last mono : is_i64 last → last < 2 ^ 63 - 1 → is_i64 mono →
  last < next_timestamp last mono ∧ mono <= next_timestamp last mono ∧ is_i64 (next_timestamp last mono).
Proof.
  unfold next_timestamp. intros Hl Hl' Hm. rewrite int64_small by (unfold is_i64 in *; lia). unfold is_i64 in *. lia.
Qed.

(** ** Sending *)

Lemma BindInterfaceIndex_id ep : ep_LinkId (BindInterfaceIndex ep).1 = ep_LinkId ep ∧ ep_pending (BindInterfaceIndex ep).1 = ep_pending ep.
Proof. unfold BindInterfaceIndex. by repeat case_goal. Qed.

Lemma GetWgEndpoint_id prepare ep :
  ep_LinkId (GetWgEndpoint prepare ep).1 = ep_LinkId ep ∧ ep_pending (GetWgEndpoint prepare ep).1 = ep_pending ep.
Proof.
  unfold GetWgEndpoint. destruct (dyn_Get _) as [ap|]; [|done]. destruct (negb _); [done|].
  destruct (match ep_WgEndpoint ep with Some _ => _ | None => _ end) as [wg|]; [|done].
  pose proof (BindInterfaceIndex_id (set_wg ep (Some wg))) as Hb.
  destruct (BindInterfaceIndex (set_wg ep (Some wg))) as [ep' [ifidx|]]; cbn [fst] in Hb;
    repeat case_goal; simplify_eq; cbn; done.
Qed.

Lemma SweepProbes_id ep ts : ep_LinkId (SweepProbes ep ts) = ep_LinkId ep.
Proof.
  rewrite SweepProbes_eq. cbn. generalize (length (filter (λ x, timed_out ts x = true) (ep_pending ep))) as k. intros k.
  by induction k as [|k IH].
Qed.

(** What a successful send leaves. *)
Record sent_as prepare (now mono : Z) st (node : NodeId) ep (timeout : Z) (discovery : bool) st1 ep1 (key tx : Z) ep0 nep peer : Prop := {
  sa_wg : GetWgEndpoint prepare ep = (ep0, inr nep);
  sa_tx : tx = next_timestamp (pb_last st) mono;
  sa_key : key = uint64 tx;
  sa_ep : ep1 = SweepProbes (RegisterProbe ep0 tx) tx;
  sa_st : st1 = mkProber (pb_app st) tx (tc_Set now PingTTL (pb_PingBuf st) key (mkPing now node ep1 discovery))
    (if 0 <? timeout then {[key]} ∪ pb_timers st else pb_timers st) (pb_done st)
    (pb_sent st ++ [(mkProbe tx false (ep_LinkId ep0) 0 (fst <$> EchoInfo ep0 tx) (snd <$> EchoInfo ep0 tx) discovery, nep, peer)])
    (pb_computePending st) (pb_lan st);
}.

Lemma send_inv prepare now mono st node ep timeout discovery st1 ep1 key :
  sendEndpointProbeWithDiscovery prepare now mono st node ep timeout discovery = Some (st1, ep1, inr key) →
  ∃ tx ep0 nep peer, sent_as prepare now mono st node ep timeout discovery st1 ep1 key tx ep0 nep peer.
Proof.
  unfold sendEndpointProbeWithDiscovery. destruct (GetNode _ _) as [ncfg|]; [|done]. cbn [mbind option_bind].
  destruct (LookupPeer _ _) as [peer|]; [|done]. destruct (GetWgEndpoint prepare ep) as [ep0 [err|nep]] eqn:Ew.
  { by destruct err as [| | | |[]]. }
  cbn [nextProbeTxNs]. intros [= <- <- <-]. eexists _, ep0, nep, peer. by split.
Qed.

Lemma sent_link_id prepare now mono st node ep timeout discovery st1 ep1 key tx ep0 nep peer :
  sent_as prepare now mono st node ep timeout discovery st1 ep1 key tx ep0 nep peer → ep_LinkId ep1 = ep_LinkId ep ∧ ep_LinkId ep0 = ep_LinkId ep.
Proof.
  intros []. subst. rewrite SweepProbes_id. cbn. destruct (GetWgEndpoint_id prepare ep) as [H _]. rewrite sa_wg0 in H. done.
Qed.

(** ** Replies and timeouts *)

(** A reply to the probe with the given key. *)
Definition reply_to (key linkId : Z) (pkt : Ny_Probe) : Prop := (uint64 <$> np_OriginTxTs pkt) = Some key ∧ np_ReplyLinkId pkt = linkId.

Lemma claim_ping_hit now st node pkt key ping : (uint64 <$> np_OriginTxTs pkt) = Some key → tc_Get now (pb_PingBuf st) key = Some ping →
  claim_ping now st node pkt =
  if (negb (bool_decide (pg_Peer ping = "")) && negb (bool_decide (pg_Peer ping = node))) || negb (ep_LinkId (pg_Endpoint ping) =? np_ReplyLinkId pkt)
  then (delete_ping st key, None)
  else (complete (stop_timer (delete_ping st key) key) key PROBE_REPLIED (time_Sub now (pg_TimeSent ping)),
        if pg_Discovery ping then Some (pg_Endpoint ping) else None).
Proof.
  unfold claim_ping. destruct (np_OriginTxTs pkt) as [tx|]; [|done]. cbn. intros [= ->] ->.
  by destruct (_ && _), (negb (_ =? _)).
Qed.

Lemma claim_ping_miss now st node pkt key : (uint64 <$> np_OriginTxTs pkt) = Some key → tc_Get now (pb_PingBuf st) key = None →
  claim_ping now st node pkt = (st, None).
Proof. unfold claim_ping. destruct (np_OriginTxTs pkt) as [tx|]; [|done]. cbn. by intros [= ->] ->. Qed.

(** Whether a reply at [t] counts for a probe that was sent at [now]. *)
Definition answers (now t : Z) (node from : NodeId) (linkId : Z) (pkt : Ny_Probe) : bool :=
  bool_decide (from = node) && (np_ReplyLinkId pkt =? linkId) && (t <=? now + PingTTL).

Lemma sent_fresh prepare now mono st node ep timeout discovery st1 ep1 key tx ep0 nep peer :
  keys_below now st → pb_last st < 2 ^ 63 - 1 → is_i64 mono →
  sent_as prepare now mono st node ep timeout discovery st1 ep1 key tx ep0 nep peer →
  ¬ known_key now st key ∧ keys_below now st1.
Proof.
  intros [Hl Hk] Hlt Hm [_ Htx -> _ ->]. destruct (next_timestamp_spec _ _ Hl Hlt Hm) as (H1 & H2 & H3). rewrite <- Htx in H1, H2, H3.
  split.
  - intros (ts & Hts & Heq)%Hk. apply uint64_inj in Heq; [lia|done|]. unfold is_i64 in *. lia.
  - split; [done|]. cbn. intros k Hkey.
    assert (k = uint64 tx ∨ known_key now st k) as [->|(ts & Hts & ->)%Hk].
    { destruct Hkey as [(t & ping & Ht & Hget)|[Ht|Hd]]; cbn in *.
      - rewrite tc_Get_Set in Hget by done. case_decide; [by left|]. right. left. eauto.
      - destruct (0 <? timeout); [apply elem_of_union in Ht as [->%elem_of_singleton|Ht]; [by left|]|]; right; right; by left.
      - right. right. by right. }
    + exists tx. unfold is_i64 in *. lia.
    + exists ts. split; [lia|done].
Qed.

Lemma complete_done st key status latency : pb_done st !! key = None →
  pb_done (complete st key status latency) !! key = Some (status, latency) ∧
  pb_PingBuf (complete st key status latency) = pb_PingBuf st ∧ pb_timers (complete st key status latency) = pb_timers st.
Proof. intros H. unfold complete. rewrite H. cbn. by rewrite lookup_insert_eq. Qed.

Lemma probe_timeout_done st key :
  pb_done (probe_timeout st key) !! key =
  match pb_done st !! key with
  | Some r => Some r
  | None => if decide (key ∈ pb_timers st) then Some (PROBE_TIMEOUT, 0) else None
  end.
Proof.
  unfold probe_timeout. case_decide; [|by destruct (_ !! _)].
  destruct (pb_done st !! key) as [r|] eqn:E; [unfold complete; cbn; by rewrite E|]. by apply complete_done.
Qed.

(** The reply to a probe, when it comes first. *)
Lemma reply_first now st node ep discovery key t from pkt : pb_done st !! key = None →
  now <= t → (∀ t', now <= t' → tc_Get t' (pb_PingBuf st) key = if t' <=? now + PingTTL then Some (mkPing now node ep discovery) else None) →
  node ≠ EmptyString → (uint64 <$> np_OriginTxTs pkt) = Some key →
  let '(st2, _) := claim_ping t st from pkt in
  let counts := answers now t node from (ep_LinkId ep) pkt in
  (∀ t', t <= t' → tc_Get t' (pb_PingBuf st2) key = None) ∧
  pb_done st2 !! key = (if counts then Some (PROBE_REPLIED, time_Sub t now) else None) ∧
  pb_timers st2 = (if counts then pb_timers st ∖ {[key]} else pb_timers st).
Proof.
  intros Hd Ht Hget Hne Ho. unfold answers. pose proof (Hget t Ht) as Hg. destruct (t <=? now + PingTTL) eqn:E.
  - rewrite (claim_ping_hit _ _ _ _ _ _ Ho Hg). cbn [pg_Peer pg_Endpoint pg_Discovery pg_TimeSent].
    assert (∀ t', tc_Get t' (tc_Delete (pb_PingBuf st) key) key = None) as Hgone.
    { intros t'. rewrite tc_Get_Delete. by rewrite decide_True. }
    rewrite (bool_decide_false (node = EmptyString)) by done. cbn [negb andb]. rewrite andb_true_r, (Z.eqb_sym (np_ReplyLinkId pkt)).
    destruct (decide (from = node)) as [->|Hf].
    + rewrite !(bool_decide_true (node = node)) by done. cbn [negb orb andb]. destruct (_ =? _); cbn [negb]; [|done].
      destruct (complete_done (stop_timer (delete_ping st key) key) key PROBE_REPLIED (time_Sub t now) Hd) as (-> & -> & ->). done.
    + rewrite (bool_decide_false (node = from)), (bool_decide_false (from = node)) by congruence. done.
  - rewrite (claim_ping_miss _ _ _ _ _ Ho Hg). rewrite andb_false_r. split; [|done]. intros t' Ht'. rewrite Hget by lia.
    replace (t' <=? now + PingTTL) with false; [done|]. to_prop. lia.
Qed.

(** C9: a probe gets a key that no probe in flight, no timer and no result has.  It counts as
    answered only by a reply from the peer it was sent to, for the link it was sent
    over, within the lifetime of its record; the result is then the time since it was
    sent, and neither its timeout nor any further reply changes it.  Any other reply
    uses the record up without a result, and if the timeout comes first, replies are
    ignored. *)
Theorem probe_answered_once prepare now mono st node ep timeout discovery st1 ep1 key :
  keys_below now st → pb_last st < 2 ^ 63 - 1 → is_i64 mono → node ≠ EmptyString →
  sendEndpointProbeWithDiscovery prepare now mono st node ep timeout discovery = Some (st1, ep1, inr key) →
  ¬ known_key now st key ∧ keys_below now st1 ∧
  (∀ t from pkt, now <= t → (uint64 <$> np_OriginTxTs pkt) = Some key →
    let '(st2, _) := claim_ping t st1 from pkt in
    let counts := answers now t node from (ep_LinkId ep) pkt in
    pb_done st2 !! key = (if counts then Some (PROBE_REPLIED, time_Sub t now) else None) ∧
    pb_done (probe_timeout st2 key) !! key =
      (if counts then Some (PROBE_REPLIED, time_Sub t now) else if 0 <? timeout then Some (PROBE_TIMEOUT, 0) else None) ∧
    ∀ t' from' pkt', t <= t' → (uint64 <$> np_OriginTxTs pkt') = Some key → claim_ping t' st2 from' pkt' = (st2, None)) ∧
  (0 < timeout → pb_done (probe_timeout st1 key) !! key = Some (PROBE_TIMEOUT, 0) ∧
    ∀ t from pkt, now <= t → (uint64 <$> np_OriginTxTs pkt) = Some key →
      claim_ping t (probe_timeout st1 key) from pkt = (probe_timeout st1 key, None)).
Proof.
  intros Hkeys Hlt Hm Hne (tx & ep0 & nep & peer & Hs)%send_inv.
  destruct (sent_fresh _ _ _ _ _ _ _ _ _ _ _ _ _ _ _ Hkeys Hlt Hm Hs) as [Hfresh Hkeys1]. split; [done|]. split; [done|].
  destruct (sent_link_id _ _ _ _ _ _ _ _ _ _ _ _ _ _ _ Hs) as [Hid _].
  assert (pb_done st1 !! key = None) as Hd.
  { rewrite (sa_st _ _ _ _ _ _ _ _ _ _ _ _ _ _ _ Hs). cbn. apply eq_None_not_Some. intros H. apply Hfresh. right. by right. }
  assert (∀ t, now <= t → tc_Get t (pb_PingBuf st1) key = if t <=? now + PingTTL then Some (mkPing now node ep1 discovery) else None) as Hget.
  { intros t Ht. rewrite (sa_st _ _ _ _ _ _ _ _ _ _ _ _ _ _ _ Hs). cbn. rewrite tc_Get_Set by done. by rewrite decide_True. }
  assert (key ∈ pb_timers st1 ↔ 0 < timeout) as Ht1.
  { rewrite (sa_st _ _ _ _ _ _ _ _ _ _ _ _ _ _ _ Hs). cbn. destruct (0 <? timeout) eqn:E; to_prop.
    - split; [done|]. intros _. apply elem_of_union. left. by apply elem_of_singleton.
    - split; [|lia]. intros H. exfalso. apply Hfresh. right. by left. }
  split.
  - intros t from pkt Ht Ho. pose proof (reply_first now st1 node ep1 discovery key t from pkt Hd Ht Hget Hne Ho) as Hr.
    rewrite Hid in Hr. destruct (claim_ping t st1 from pkt) as [st2 found]. destruct Hr as (Hgone & Hdone & Htim).
    split; [done|]. split.
    + rewrite probe_timeout_done, Hdone, Htim. destruct (answers _ _ _ _ _ _); [done|].
      destruct (0 <? timeout) eqn:E; to_prop; [rewrite decide_True; [done|by apply Ht1]|rewrite decide_False; [done|rewrite Ht1; lia]].
    + intros t' from' pkt' Ht' Ho'. eapply claim_ping_miss; [exact Ho'|]. by apply Hgone.
  - intros Htimeout. split; [rewrite probe_timeout_done, Hd, decide_True; [done|by apply Ht1]|].
    intros t from pkt Ht Ho. eapply claim_ping_miss; [exact Ho|]. unfold probe_timeout. rewrite decide_True by by apply Ht1.
    unfold complete. cbn. rewrite Hd. cbn. rewrite tc_Get_Delete. by rewrite decide_True.
Qed.

(** ** What a round trip measures *)

Lemma GetNeighbour_set_eps n node eps m : GetNeighbour (ny_rs n) node = Some m →
  GetNeighbour (ny_rs (set_eps n node eps)) node = Some (mkNeighbour (n_Id m) (n_Routes m) eps).
Proof. intros Hm. unfold set_eps. cbn. by apply (put_neighbour_lookup (ny_rs n) node (λ neigh, mkNeighbour (n_Id neigh) (n_Routes neigh) eps) m). Qed.

(** Preparing a socket address touches nothing that is measured. *)
Lemma BindInterfaceIndex_frame ep : ∃ idx, (BindInterfaceIndex ep).1 = set_ifindex ep idx.
Proof.
  unfold BindInterfaceIndex. repeat case_goal; cbn; eauto; exists (ep_bindIfIndex ep); by destruct ep.
Qed.

Lemma GetWgEndpoint_frame prepare ep ep0 nep : GetWgEndpoint prepare ep = (ep0, inr nep) → ∃ idx wg, ep0 = set_wg (set_ifindex ep idx) wg.
Proof.
  unfold GetWgEndpoint. destruct (dyn_Get _) as [ap|]; [|done]. destruct (negb _); [done|].
  destruct (match ep_WgEndpoint ep with Some _ => _ | None => _ end) as [wg|]; [|done].
  destruct (BindInterfaceIndex_frame (set_wg ep (Some wg))) as [idx Hidx].
  destruct (BindInterfaceIndex (set_wg ep (Some wg))) as [ep' [ifidx|]]; cbn [fst] in Hidx; subst ep'; intros H;
    repeat case_hyp H; simplify_eq; eauto; by exists (ep_bindIfIndex ep); eexists; destruct ep.
Qed.

Lemma Register_pending ep tx : tx ∈ ep_pending (RegisterProbe ep tx).
Proof.
  unfold RegisterProbe. cbn. rewrite length_app. cbn [length]. case_goal; [|set_solver].
  to_prop. rewrite drop_app_le; [set_solver|]. unfold pendingProbeCap. lia.
Qed.

(** The link after it was probed. *)
Lemma probed_link ep tx : let ep1 := SweepProbes (RegisterProbe ep tx) tx in
  tx ∈ ep_pending ep1 ∧ ep_t ep1 = ep_t ep ∧ ep_owdOut ep1 = ep_owdOut ep ∧ ep_owdIn ep1 = ep_owdIn ep ∧
  ep_lastHeardBack ep1 = ep_lastHeardBack ep ∧ ep_havePeerTx ep1 = ep_havePeerTx ep ∧ ep_peerTx ep1 = ep_peerTx ep.
Proof.
  cbn zeta. rewrite SweepProbes_eq. cbn [ep_pending set_pending]. split.
  { apply list_elem_of_filter. split; [|apply Register_pending]. unfold timed_out. rewrite Z.sub_diag. done. }
  cbn [ep_t ep_owdOut ep_owdIn ep_lastHeardBack ep_havePeerTx ep_peerTx set_pending].
  generalize (length (filter (λ x, timed_out tx x = true) (ep_pending (RegisterProbe ep tx)))) as k. intros k.
  by induction k as [|k IH].
Qed.

(** What a reply leaves in an active link. *)
Lemma reply_observed now ep pkt rx tx rxB : isActive now ep = true → tx ∈ ep_pending ep →
  np_OriginTxTs pkt = Some tx → np_OriginRxTs pkt = Some rxB → ep_havePeerTx ep = false ∨ ep_peerTx ep < np_TxTs pkt →
  let ep' := observeProbe (Renew now ep) pkt rx in
  ep_owdOut ep' = filter_update (ep_owdOut ep) (int64 (rxB - tx)) (ep_t ep) ∧
  ep_owdIn ep' = filter_update (ep_owdIn ep) (int64 (rx - np_TxTs pkt)) (ep_t ep).
Proof.
  intros Ha Htx Ho Hr Hnew. unfold Renew. rewrite Ha. cbn [negb]. unfold observeProbe. rewrite Ho, Hr. cbv zeta.
  unfold ObserveInbound. cbn [set_heard ep_havePeerTx ep_peerTx ep_owdIn ep_t].
  replace (_ && _ && _) with false by (symmetry; destruct Hnew as [->|Hlt]; [done|];
    replace (np_TxTs pkt <=? ep_peerTx ep) with false by (symmetry; to_prop; lia); by rewrite andb_false_r).
  unfold ObserveEcho. cbn [set_owdIn set_peer set_heard ep_pending].
  destruct (slices_Index (ep_pending ep) tx) as [idx|] eqn:E; [|by apply slices_Index_None in E]. done.
Qed.

(** A probe that went out over a link that is listed. *)
Lemma probe_at_sent prepare now mono st node i m ep st1 probe nep peer :
  GetNeighbour (ny_rs (pb_n st)) node = Some m → n_Eps m !! i = Some ep → probe_at prepare now mono st node i = Some st1 →
  pb_sent st1 = pb_sent st ++ [(probe, nep, peer)] →
  ∃ st0 ep1 key ep0, sent_as prepare now mono st node ep 0 false st0 ep1 key (np_TxTs probe) ep0 nep peer ∧
    st1 = set_pn st0 (set_eps (pb_n st0) node (<[i := ep1]> (n_Eps m))) ∧ np_LinkId probe = ep_LinkId ep.
Proof.
  intros Hm Hi. unfold probe_at. rewrite Hm, Hi. unfold Probe, sendEndpointProbe.
  destruct (sendEndpointProbeWithDiscovery _ _ _ _ _ _ _ _) as [[[st0 ep1] [err|key]]|] eqn:Es; [| |done]; cbn [mbind option_bind];
    intros [= <-]; cbn [pb_sent set_pn set_app]; intros Hsent.
  - exfalso. assert (pb_sent st0 = pb_sent st) as Heq.
    { unfold sendEndpointProbeWithDiscovery in Es. cbn [nextProbeTxNs] in Es. destruct (GetNode _ _); [|done]. cbn [mbind option_bind] in Es.
      repeat case_hyp Es; by simplify_eq. }
    rewrite Heq in Hsent. apply (f_equal length) in Hsent. rewrite length_app in Hsent. cbn in Hsent. lia.
  - apply send_inv in Es as (tx & ep0 & nep' & peer' & Hs). pose proof (sent_link_id _ _ _ _ _ _ _ _ _ _ _ _ _ _ _ Hs) as [_ Hid].
    pose proof (sa_st _ _ _ _ _ _ _ _ _ _ _ _ _ _ _ Hs) as Hst. rewrite Hst in Hsent. cbn in Hsent.
    apply app_inv_head in Hsent. injection Hsent as <- <- <-. cbn. exists st0, ep1, key, ep0. done.
Qed.

Lemma handleProbe_reply rxB monoB stB pkt wgB peerB nodeA stB1 reply :
  handleProbe rxB monoB true stB pkt wgB peerB nodeA = (stB1, ProbePing) → pb_sent stB1 = pb_sent stB ++ [(reply, wgB, peerB)] →
  np_OriginTxTs reply = Some (np_TxTs pkt) ∧ np_OriginRxTs reply = Some rxB ∧ np_ReplyLinkId reply = np_LinkId pkt.
Proof.
  unfold handleProbe. destruct (_ =? 0); [done|]. destruct (_ && _); [done|]. destruct (negb _); [|done]. cbn [nextProbeTxNs].
  intros [= <-]. cbn. intros H%app_inv_head. by injection H as <-.
Qed.

(** A reply that does not answer a probe of LAN discovery. *)
Lemma claim_plain now st node pkt :
  (∀ tx ping, np_OriginTxTs pkt = Some tx → tc_Get now (pb_PingBuf st) (uint64 tx) = Some ping → pg_Discovery ping = false) →
  ∃ st', claim_ping now st node pkt = (st', None) ∧ pb_n st' = pb_n st.
Proof.
  intros H. unfold claim_ping. destruct (np_OriginTxTs pkt) as [tx|]; [|eauto]. destruct (tc_Get _ _ _) as [ping|] eqn:E; [|eauto].
  rewrite (H tx ping eq_refl E). repeat case_goal; try by eauto. eexists. split; [done|]. unfold complete. by destruct (pb_done _ !! _).
Qed.

Lemma find_link (eps : list NylonEndpoint) i ep id : eps !! i = Some ep → ep_LinkId ep = id → NoDup (ep_LinkId <$> eps) →
  list_find (λ ep, ep_LinkId ep = id) eps = Some (i, ep).
Proof.
  intros Hi Hid Hnd. apply list_find_Some. split; [done|]. split; [done|]. intros j y Hj Hlt Hy.
  assert (i = j); [|lia]. eapply NoDup_lookup; [exact Hnd|..]; rewrite list_lookup_fmap.
  - by rewrite Hi; cbn; rewrite Hid.
  - by rewrite Hj; cbn; rewrite Hy.
Qed.

(** C10: a node that probes a link and gets the answer of the peer records two samples: the
    one-way delays out and in, each off by the difference between the two clocks.  Their sum
    is the time both packets spent on the way, whatever that difference is and however
    long the peer held the probe. *)
Theorem probe_measures_round_trip prepare now mono st node i st1 probe nep peer
    rxB monoB stB wgB peerB nodeA stB1 reply e wg rxA st2 m ep (arrive depart off : Z) :
  GetNeighbour (ny_rs (pb_n st)) node = Some m → n_Eps m !! i = Some ep → NoDup (ep_LinkId <$> n_Eps m) →
  probe_at prepare now mono st node i = Some st1 → pb_sent st1 = pb_sent st ++ [(probe, nep, peer)] →
  handleProbe rxB monoB true stB probe wgB peerB nodeA = (stB1, ProbePing) → pb_sent stB1 = pb_sent stB ++ [(reply, wgB, peerB)] →
  now <= env_now e → isActive (env_now e) ep = true → ep_havePeerTx ep = false ∨ ep_peerTx ep < np_TxTs reply →
  rxB = arrive + off → np_TxTs reply = depart + off → is_i64 (rxB - np_TxTs probe) → is_i64 (rxA - np_TxTs reply) →
  handleProbePong e st1 node reply wg rxA = Some st2 →
  ∃ m2 ep2 out inn, GetNeighbour (ny_rs (pb_n st2)) node = Some m2 ∧ n_Eps m2 !! i = Some ep2 ∧
    ep_owdOut ep2 = filter_update (ep_owdOut ep) out (ep_t ep) ∧ ep_owdIn ep2 = filter_update (ep_owdIn ep) inn (ep_t ep) ∧
    out + inn = (arrive - np_TxTs probe) + (rxA - depart).
Proof.
  intros Hm Hi Hids Hsend Hsent HB HsentB Hnow Hact Hnew Hrx Htx Hi1 Hi2 Hpong.
  destruct (probe_at_sent _ _ _ _ _ _ _ _ _ _ _ _ Hm Hi Hsend Hsent) as (st0 & ep1 & key & ep0 & Hs & -> & Hlink).
  destruct (handleProbe_reply _ _ _ _ _ _ _ _ _ HB HsentB) as (Ho & Hr & Hreply). rewrite Hlink in Hreply.
  pose proof (sent_link_id _ _ _ _ _ _ _ _ _ _ _ _ _ _ _ Hs) as [Hid1 _].
  destruct Hs as [Hwg _ Hkey Hep1 Hst0]. apply GetWgEndpoint_frame in Hwg as (idx & wg0 & ->).
  destruct (probed_link (set_wg (set_ifindex ep idx) wg0) (np_TxTs probe)) as (Hpend & Ht & Hout & Hin & Hheard & Hhave & Hpeer).
  rewrite <- Hep1 in *. cbn in Ht, Hout, Hin, Hheard, Hhave, Hpeer.
  destruct (reply_observed (env_now e) ep1 reply rxA (np_TxTs probe) rxB) as [Hout' Hin']; [|done..|by rewrite Hhave, Hpeer|].
  { unfold isActive in *. by rewrite Hheard, Ht. }
  rewrite Hout, Ht in Hout'. rewrite Hin, Ht in Hin'.
  assert (GetNeighbour (ny_rs (pb_n st0)) node = Some m) as Hm0 by (rewrite Hst0; exact Hm).
  pose proof (GetNeighbour_set_eps (pb_n st0) node (<[i := ep1]> (n_Eps m)) m Hm0) as Hm1.
  pose proof (lookup_lt_Some _ _ _ Hi) as Hlt.
  unfold handleProbePong in Hpong.
  destruct (claim_plain (env_now e) (set_pn st0 (set_eps (pb_n st0) node (<[i:=ep1]> (n_Eps m)))) node reply) as (st3 & Hcl & Hn3).
  { rewrite Ho. intros tx ping [= <-]. rewrite Hst0. cbn. rewrite tc_Get_Set by done. rewrite Hkey, decide_True by done.
    destruct (_ <=? _); [|done]. by intros [= <-]. }
  change (pb_n (set_pn _ ?x)) with x in Hn3. cbv zeta in Hpong. rewrite Hcl in Hpong. cbv beta iota in Hpong.
  rewrite Hn3, Hm1 in Hpong. cbn [n_Eps] in Hpong. rewrite (find_link _ i ep1) in Hpong.
  - injection Hpong as <-. eexists _, _, (int64 (rxB - np_TxTs probe)), (int64 (rxA - np_TxTs reply)).
    split; [apply GetNeighbour_set_eps; exact Hm1|]. split; [cbn; apply list_lookup_insert_eq; by rewrite length_insert|].
    split; [exact Hout'|]. split; [exact Hin'|]. rewrite !int64_small by done. lia.
  - by apply list_lookup_insert_eq.
  - congruence.
  - rewrite list_fmap_insert, Hid1, list_insert_id; [done|]. by rewrite list_lookup_fmap, Hi.
Qed.

End life.
