(* ===== verification/ProbeLinks.v ===== *)
(** The links of a neighbour under probing: a ping adds at most one, the scan for dead links
    keeps exactly those that are alive, and what is advertised for passive clients and
    announced in the LAN.

    At the end, a node whose links are probed: instances of the theorems about probing. *)

From S2P Require Import Prelude Bytes NetIP Float64 Metric Routing Endpoint EndpointProps RouterAlgo RouterFacts RouterInv RouterOps RouterProps Config External RouterIO Forwarding RouterEvents Graph Validation SysRoutes Reconcile Probing ProbingProps ProbeLife GraphProps.

Section links.
Context `{MR : MapRange} `{U : Unicode} `{TP : TextParsers} `{NT : NetText} `{HO : Host} `{PF : Platform}
  {T : Type → Type} `{BT : BartTable T} `{BTL : !BartTableLaws T}
  {C : Type → Type → Type} `{TC : TTLCache C} `{TCL : !TTLCacheLaws C}.

Abbreviation Nylon := (Nylon NylonEndpoint T C).
Abbreviation Prober := (Prober (T := T) (C := C)).
Implicit Types (n : Nylon) (st : Prober) (e : Env) (ep : NylonEndpoint) (eps : list NylonEndpoint).

(** ** Pings *)

(** A UDP link with the given address. *)
Definition udp_link (ap : AddrPort) ep : bool := bool_decide (dyn_Get (ep_DynEP ep) = Some ap) && bool_decide (ep_Transport ep = TransportUDP).

(** A UDP link that the neighbour opened from that address, bound to the interface the
    packet came over. *)
Definition lan_link (wg : StdNetEndpoint) ep : bool :=
  udp_link (se_AddrPort wg) ep && ep_remoteInit ep && negb (bool_decide (lb_Interface (ep_Bind ep) = "")) &&
  bool_decide ((BindInterfaceIndex ep).2 = Some (SrcIfidx wg)).

(** The links that stand for the sender of a ping: for a ping of LAN discovery only those
    bound to the interface. *)
Definition stands_for (discovery : bool) (wg : StdNetEndpoint) ep : bool :=
  if discovery then lan_link wg ep else udp_link (se_AddrPort wg) ep.

Lemma stands_for_udp d wg ep : stands_for d wg ep = true → udp_link (se_AddrPort wg) ep = true.
Proof. destruct d; [|done]. unfold stands_for, lan_link. intros [[[? _]%andb_prop _]%andb_prop _]%andb_prop. done. Qed.

(** A link that was at most asked for its interface. *)
Definition same_link ep ep' : Prop := ep' = ep ∨ ep' = (BindInterfaceIndex ep).1.

Lemma BindInterfaceIndex_again ep : (BindInterfaceIndex (BindInterfaceIndex ep).1).2 = (BindInterfaceIndex ep).2.
Proof.
  unfold BindInterfaceIndex at 2 3. destruct (decide _) as [E|E]; [cbn; unfold BindInterfaceIndex; by rewrite decide_True|].
  destruct (negb _) eqn:En; [cbn; unfold BindInterfaceIndex; by rewrite decide_False, En|].
  destruct (InterfaceByName _) as [idx|] eqn:Ei; cbn; unfold BindInterfaceIndex; cbn; rewrite decide_False by done; [|by rewrite En, Ei].
  destruct (negb (idx =? 0)); [done|]. by rewrite Ei.
Qed.

Lemma stands_for_same d wg ep ep' : same_link ep ep' → stands_for d wg ep' = stands_for d wg ep.
Proof.
  intros [->| ->]; [done|]. unfold stands_for, lan_link. rewrite BindInterfaceIndex_again.
  by destruct (BindInterfaceIndex_frame ep) as [idx ->].
Qed.

(** The link a ping is matched with, given the fallback found before position [i]. *)
Definition matched d wg (i : nat) (fb : option nat) eps (res : list NylonEndpoint * option nat) : Prop :=
  Forall2 same_link eps res.1 ∧
  match res.2 with
  | None => fb = None ∧ existsb (stands_for d wg) eps = false
  | Some k => fb = Some k ∨ (i <= k)%nat ∧ existsb (stands_for d wg) eps = true ∧
      ∃ ep, res.1 !! (k - i)%nat = Some ep ∧ stands_for d wg ep = true
  end.

Lemma matched_next d wg i fb fb' ep ep' eps res : matched d wg (S i) fb' eps res → same_link ep ep' →
  (fb' = fb ∧ stands_for d wg ep = false) ∨ (stands_for d wg ep = true ∧ fb' = match fb with None => Some i | _ => fb end) →
  matched d wg i fb (ep :: eps) (let '(l, r) := res in (ep' :: l, r)).
Proof.
  destruct res as [l r]. intros [Hl Hr] Hsame Hfb. split; [by constructor|]. cbn [fst snd existsb] in *. destruct r as [k|].
  - destruct Hr as [Hk|(Hk & Hex & ep2 & Hlook & Hu)].
    + destruct Hfb as [[-> Hu]|[Hu ->]]; [by left|]. destruct fb as [k'|]; [left; congruence|].
      injection Hk as ->. right. rewrite Hu. split; [lia|]. split; [done|]. exists ep'. rewrite Nat.sub_diag. split; [done|].
      by rewrite (stands_for_same _ _ _ _ Hsame).
    + right. split; [lia|]. rewrite Hex, orb_true_r. split; [done|]. exists ep2. replace (k - i)%nat with (S (k - S i)) by lia. done.
  - destruct Hr as [-> Hex]. destruct Hfb as [[-> Hu]|[Hu Hfb]]; [|by destruct fb]. by rewrite Hu, Hex.
Qed.

Lemma matched_here d wg i fb ep ep' eps : same_link ep ep' → stands_for d wg ep = true →
  matched d wg i fb (ep :: eps) (ep' :: eps, Some i).
Proof.
  intros H Hs. split; cbn [fst snd existsb].
  - constructor; [done|]. apply Forall2_same_length_lookup_2; [done|]. intros. simplify_eq. by left.
  - right. rewrite Hs. split; [lia|]. split; [done|]. exists ep'. rewrite Nat.sub_diag. by rewrite (stands_for_same _ _ _ _ H).
Qed.

Lemma match_link_udp d wg eps : se_transport wg = TransportUDP → ∀ i fb, matched d wg i fb eps (match_link d wg i fb eps).
Proof.
  intros Hudp. induction eps as [|ep eps IH]; intros i fb; cbn [match_link].
  { split; [constructor|]. cbn. destruct fb; [by left|done]. }
  assert (udp_link (se_AddrPort wg) ep = false → stands_for d wg ep = false) as Hno
    by (unfold stands_for, lan_link; intros ->; by destruct d).
  rewrite Hudp. destruct (dyn_Get (ep_DynEP ep)) as [ap|] eqn:Ed.
  2: { eapply matched_next; [apply IH|by left|]. left. split; [done|]. apply Hno. unfold udp_link.
       by rewrite Ed, (bool_decide_false (None = Some _)). }
  assert (udp_link (se_AddrPort wg) ep = bool_decide (ap = se_AddrPort wg) && bool_decide (ep_Transport ep = TransportUDP)) as Hul.
  { unfold udp_link. rewrite Ed. f_equal. apply bool_decide_ext. naive_solver. }
  rewrite <- negb_andb, <- Hul, (bool_decide_false (TransportUDP = TransportFakeTCP)) by done.
  destruct (udp_link (se_AddrPort wg) ep) eqn:Eu; cbn [negb]; [|eapply matched_next; [apply IH|by left|]; left; auto].
  assert (stands_for d wg ep = negb d || (ep_remoteInit ep && negb (bool_decide (lb_Interface (ep_Bind ep) = "")) &&
    bool_decide ((BindInterfaceIndex ep).2 = Some (SrcIfidx wg)))) as Hst by (unfold stands_for, lan_link; rewrite Eu; by destruct d).
  assert (∀ ep', same_link ep ep' → stands_for d wg ep = negb d → matched d wg i fb (ep :: eps)
    (let '(l, r) := match_link d wg (S i) (if negb d then match fb with None => Some i | _ => fb end else fb) eps in (ep' :: l, r))) as Hskip.
  { intros ep' Hs Hd. eapply matched_next; [apply IH|done|]. destruct d; [left|right]; by rewrite Hd. }
  assert (same_link ep (BindInterfaceIndex ep).1) as Hsame by by right.
  destruct (ep_remoteInit ep && _); [|apply Hskip; [by left|by rewrite Hst, orb_false_r]].
  destruct (BindInterfaceIndex ep) as [ep1 [j|]]; cbn [fst snd andb] in *.
  2: { apply Hskip; [done|]. by rewrite Hst, bool_decide_false, orb_false_r. }
  assert (bool_decide (Some j = Some (SrcIfidx wg)) = (j =? SrcIfidx wg)) as Hj.
  { destruct (Z.eqb_spec j (SrcIfidx wg)) as [->|]; [by apply bool_decide_true|apply bool_decide_false; naive_solver]. }
  rewrite Hj in Hst. destruct (j =? SrcIfidx wg); [|apply Hskip; [done|by rewrite Hst, orb_false_r]].
  apply matched_here; [done|]. by rewrite Hst, orb_true_r.
Qed.

Lemma GetNeighbour_frame n n' node m : node_frame n n' → GetNeighbour (ny_rs n) node = Some m →
  ∃ m', GetNeighbour (ny_rs n') node = Some m' ∧ n_Eps m' = n_Eps m.
Proof.
  intros (Hl & _). unfold GetNeighbour. unfold links_of_state in Hl. revert Hl.
  generalize (rs_Neighbours (ny_rs n')) as l'. generalize (rs_Neighbours (ny_rs n)) as l.
  induction l as [|x l IH]; intros [|x' l'] Hl; try done. cbn in Hl. injection Hl as Hid Heps Hl. cbn. rewrite Hid.
  case_decide; [intros [= ->]; eauto|]. specialize (IH l' Hl). clear Hl.
  destruct (list_find _ l) as [[i y]|]; [|done]. cbn. intros [= ->]. destruct (IH eq_refl) as (m' & Hm' & Heq).
  destruct (list_find _ l') as [[i' y']|]; [|done]. cbn in *. eauto.
Qed.

Lemma observeProbe_fields ep pkt rx : let ep' := observeProbe ep pkt rx in
  ep_DynEP ep' = ep_DynEP ep ∧ ep_Transport ep' = ep_Transport ep ∧ ep_WgEndpoint ep' = ep_WgEndpoint ep ∧
  ep_lastHeardBack ep' = ep_lastHeardBack ep ∧ ep_remoteInit ep' = ep_remoteInit ep ∧ ep_Bind ep' = ep_Bind ep ∧
  ep_bindIfIndex ep' = ep_bindIfIndex ep.
Proof. unfold observeProbe, ObserveInbound, ObserveEcho. cbv zeta. repeat case_goal; done. Qed.

Lemma Renew_fields now ep : let ep' := Renew now ep in
  ep_DynEP ep' = ep_DynEP ep ∧ ep_Transport ep' = ep_Transport ep ∧ ep_WgEndpoint ep' = ep_WgEndpoint ep ∧ ep_lastHeardBack ep' = now ∧
  ep_remoteInit ep' = ep_remoteInit ep ∧ ep_Bind ep' = ep_Bind ep ∧ ep_bindIfIndex ep' = ep_bindIfIndex ep.
Proof. unfold Renew. by case_goal. Qed.

(** A link that was just pinged over. *)
Definition pinged (now : Z) (wg : StdNetEndpoint) ep : Prop :=
  udp_link (se_AddrPort wg) ep = true ∧ ep_WgEndpoint ep = Some wg ∧ ep_lastHeardBack ep = now.

Lemma stands_for_fields d wg ep ep' : ep_DynEP ep' = ep_DynEP ep → ep_Transport ep' = ep_Transport ep →
  ep_remoteInit ep' = ep_remoteInit ep → ep_Bind ep' = ep_Bind ep → ep_bindIfIndex ep' = ep_bindIfIndex ep →
  stands_for d wg ep' = stands_for d wg ep.
Proof.
  intros Hd Ht Hr Hb Hi. unfold stands_for, lan_link, udp_link. rewrite Hd, Ht, Hr, Hb.
  assert ((BindInterfaceIndex ep').2 = (BindInterfaceIndex ep).2) as ->; [|done].
  unfold BindInterfaceIndex. rewrite Hb, Hi. destruct (decide _); [done|]. destruct (negb _); [done|]. by destruct (InterfaceByName _).
Qed.

Lemma pinged_over d now wg ep pkt rx : udp_link (se_AddrPort wg) ep = true → ep_WgEndpoint ep = Some wg →
  let ep' := observeProbe (Renew now ep) pkt rx in pinged now wg ep' ∧ stands_for d wg ep' = stands_for d wg ep.
Proof.
  intros Hu Hw ep'. destruct (observeProbe_fields (Renew now ep) pkt rx) as (Hd & Ht & Hwg & Hh & Hr & Hb & Hi).
  destruct (Renew_fields now ep) as (Hd' & Ht' & Hwg' & Hh' & Hr' & Hb' & Hi'). cbv zeta in *. split.
  - unfold pinged, udp_link in *. unfold ep'. by rewrite Hd, Ht, Hwg, Hh, Hd', Ht', Hwg', Hh'.
  - apply stands_for_fields; unfold ep'; congruence.
Qed.

Lemma recompute_eps K e st n node eps m : pb_n st = set_eps n node eps → linked_ok K n → Forall ep_wf eps → GetNeighbour (ny_rs n) node = Some m →
  ∃ st' m', recompute e st node = Some st' ∧ GetNeighbour (ny_rs (pb_n st')) node = Some m' ∧ n_Eps m' = eps.
Proof.
  intros Hst Hok Heps Hm. destruct (recompute_ok K e st node) as (n' & -> & _ & Hf); [rewrite Hst; by apply set_eps_ok|].
  rewrite Hst in Hf. destruct (GetNeighbour_frame _ _ node _ Hf (GetNeighbour_set_eps n node eps m Hm)) as (m' & Hm' & Heq).
  by exists (set_pn st n'), m'.
Qed.

(** A link made for a ping stands for its sender. *)
Lemma new_link_stands `{NTL : !NetTextLaws} st pkt wg iface id : se_transport wg = TransportUDP → ap_IsValid (se_AddrPort wg) = true →
  let ep := new_remote_link st pkt wg iface id in
  udp_link (se_AddrPort wg) ep = true ∧ ep_WgEndpoint ep = Some wg ∧
  ((np_Discovery pkt = true → iface ≠ "" ∧ InterfaceByName iface = Some (SrcIfidx wg)) → stands_for (np_Discovery pkt) wg ep = true).
Proof.
  intros Hudp Hval ep. assert (udp_link (se_AddrPort wg) ep = true) as Hu.
  { unfold udp_link, ep, new_remote_link. cbn. unfold dyn_Get. cbn. rewrite ParseAddrPort_String, Hudp by done. by rewrite !bool_decide_true. }
  split; [done|]. split; [done|]. unfold stands_for. destruct (np_Discovery pkt) eqn:Ed; [|done]. intros [Hne Hif]; [done|].
  unfold lan_link. rewrite Hu. unfold ep, new_remote_link, BindInterfaceIndex. rewrite Ed. cbn.
  rewrite decide_False, bool_decide_false, Hif by done. cbn. by apply bool_decide_true.
Qed.

(** C11: what a ping of a neighbour over UDP does to the links of the neighbour.  A ping of LAN
    discovery that did not come from the subnet of an interface of the service changes nothing.
    Any other ping leaves the neighbour with a link to the address the ping came from, through
    the socket it came from and heard of just now.  A link is added exactly when none stood for
    the sender: none with that address, or for a ping of LAN discovery none that the
    neighbour opened from there and that is bound to the interface.  The link stands for the sender afterwards, as long as the
    interface keeps its name, so repeating the ping adds one link, and no ping adds two. *)
Theorem ping_adds_one_link `{NTL : !NetTextLaws} now e st node pkt wg rx m :
  probe_ok any_prefix now st → se_transport wg = TransportUDP → ap_IsValid (se_AddrPort wg) = true →
  node ≠ ny_LocalId (pb_n st) → GetNeighbour (ny_rs (pb_n st)) node = Some m →
  match (if np_Discovery pkt then discovery_interface st wg else Some "") with
  | None => handleProbePing e st node pkt wg rx = Some st
  | Some iface =>
      ∃ st' m' i ep', handleProbePing e st node pkt wg rx = Some st' ∧ GetNeighbour (ny_rs (pb_n st')) node = Some m' ∧
        n_Eps m' !! i = Some ep' ∧ pinged (env_now e) wg ep' ∧
        length (n_Eps m') = (length (n_Eps m) + if existsb (stands_for (np_Discovery pkt) wg) (n_Eps m) then 0 else 1)%nat ∧
        ((np_Discovery pkt = true → iface ≠ "" ∧ InterfaceByName iface = Some (SrcIfidx wg)) →
         stands_for (np_Discovery pkt) wg ep' = true)
  end.
Proof.
  intros Hok Hudp Hval Hne Hm. pose proof (neighbour_ok _ _ _ _ (proj1 Hok) Hm) as [Hwf _].
  unfold handleProbePing. rewrite bool_decide_false, Hm, Hudp by done. rewrite (bool_decide_false (TransportUDP = TransportFakeTCP)) by done.
  destruct (if np_Discovery pkt then _ else _) as [iface|]; [|done]. cbn [andb].
  pose proof (match_link_wf (np_Discovery pkt) wg _ Hwf 0 None) as Hmw. pose proof (match_link_udp (np_Discovery pkt) wg (n_Eps m) Hudp 0 None) as Hml.
  destruct (match_link _ wg 0 None (n_Eps m)) as [eps r]. cbn [fst] in Hmw. destruct Hml as [Hsame Hr]. cbn [fst snd] in Hsame, Hr.
  pose proof (Forall2_length _ _ _ Hsame) as Hlen.
  pose proof (set_eps_probe_ok _ now st node eps Hok Hmw) as Hok1. pose proof (GetNeighbour_set_eps (pb_n st) node eps m Hm) as Hm1.
  destruct r as [k|].
  - destruct Hr as [?|(_ & Hex & ep & Hk & Hu)]; [done|]. rewrite Nat.sub_0_r in Hk. rewrite Hk, Hex, Nat.add_0_r.
    set (ep' := observeProbe (Renew (env_now e) (set_wg ep (Some wg))) pkt rx).
    destruct (pinged_over (np_Discovery pkt) (env_now e) wg (set_wg ep (Some wg)) pkt rx) as [Hp Hst];
      [exact (stands_for_udp _ _ _ Hu)|done|]. fold ep' in Hp, Hst.
    rewrite (stands_for_fields _ wg ep (set_wg ep (Some wg))), Hu in Hst by done.
    assert (ep_wf ep') as Hw' by (apply observeProbe_wf, Renew_wf, set_wg_wf; by eapply Forall_lookup_1).
    assert (<[k:=ep']> eps !! k = Some ep') as Hk' by (apply list_lookup_insert_eq; by eapply lookup_lt_Some).
    destruct (negb (isActive (env_now e) ep)).
    + match goal with |- context [recompute e ?s node] =>
        destruct (recompute_eps _ e s (set_eps (pb_n st) node eps) node (<[k := ep']> eps) _ eq_refl (proj1 Hok1)
          (Forall_insert _ _ _ _ Hmw Hw') Hm1) as (st' & m' & Hrec & Hm' & Heq) end.
      exists st', m', k, ep'. rewrite Heq, length_insert. done.
    + eexists _, _, k, ep'. split; [done|]. split; [apply GetNeighbour_set_eps; exact Hm1|]. cbn [n_Eps]. rewrite length_insert. done.
  - destruct Hr as [_ Hex]. rewrite Hex. set (st0 := set_pn st _). set (link := new_remote_link _ _ _ _ _). set (ep' := observeProbe _ pkt rx).
    destruct (new_link_stands st0 pkt wg iface (uint64 (app_linkIds (pb_app st0) + 1)) Hudp Hval) as (Hu & Hwg & Hs). fold link in Hu, Hwg, Hs.
    destruct (pinged_over (np_Discovery pkt) (env_now e) wg link pkt rx Hu Hwg) as [Hp Hst]. fold ep' in Hp, Hst. rewrite <- Hst in Hs.
    assert (ep_wf ep') as Hw'.
    { apply observeProbe_wf, Renew_wf, set_bind_wf, set_transport_wf, NewEndpoint_wf. apply (no_window _ _ (proj1 Hok1)). }
    assert (Forall ep_wf (eps ++ [ep'])) as Hw2 by (apply Forall_app; split; [done|by constructor]).
    match goal with |- context [recompute e ?s node] =>
      destruct (recompute_eps _ e s (set_eps (pb_n st) node eps) node (eps ++ [ep']) _ eq_refl (proj1 Hok1) Hw2 Hm1)
        as (st' & m' & Hrec & Hm' & Heq) end.
    exists st', m', (length eps), ep'. split; [exact Hrec|]. split; [done|]. rewrite Heq, list_lookup_middle, length_app by done. cbn. split; [done|].
    split; [done|]. split; [lia|done].
Qed.

(** ** Dead links *)

(** The scan for dead links removes exactly the links that the peer opened and that were not
    heard of for too long; configured links stay, and of those that are
    inactive the resolved address is to be looked up again.  The order of the links and
    the neighbours do not change. *)
Theorem dead_links_removed K e n : linked_ok K n →
  ∃ n', nylonGc e n = Some n' ∧ linked_ok K n' ∧
    links_of_state (ny_rs n') = (λ x, (x.1, gc_links (env_now e) x.2)) <$> links_of_state (ny_rs n) ∧
    ∀ eps ep', ep' ∈ gc_links (env_now e) eps ↔
      ∃ ep, ep ∈ eps ∧ (isActive (env_now e) ep = true ∧ ep' = ep ∨
        isActive (env_now e) ep = false ∧ ep_remoteInit ep = false ∧ ep' = set_dyn ep (dyn_Clear (ep_DynEP ep))).
Proof.
  intros Hn. unfold nylonGc. edestruct (GcRouter_node_ok K e) as (n' & -> & Hn' & Hf); [apply (map_links_ok K n (gc_links (env_now e)) Hn), gc_links_wf|].
  exists n'. split; [done|]. split; [done|]. split.
  { destruct Hf as [-> _]. unfold links_of_state. cbn. rewrite <- !list_fmap_compose. by apply list_fmap_ext. }
  intros eps ep'. unfold gc_links. rewrite list_elem_of_filter, list_elem_of_fmap. unfold IsAlive. split.
  - intros [Ha (ep & -> & Hep)]. exists ep. split; [done|]. destruct (isActive (env_now e) ep) eqn:E; [by left|]. right.
    change (isActive (env_now e) ep || negb (ep_remoteInit ep) = true) in Ha. rewrite E in Ha. cbn in Ha. by destruct (ep_remoteInit ep).
  - intros (ep & Hep & [[Ha ->]|(Ha & Hr & ->)]).
    + rewrite Ha. split; [done|]. exists ep. by rewrite Ha.
    + change (isActive (env_now e) ep || negb (ep_remoteInit ep) = true ∧ ∃ y : NylonEndpoint,
        set_dyn ep (dyn_Clear (ep_DynEP ep)) = (if isActive (env_now e) y then y else set_dyn y (dyn_Clear (ep_DynEP y))) ∧ y ∈ eps).
      rewrite Ha, Hr. split; [done|]. exists ep. by rewrite Ha.
Qed.

(** ** Passive clients *)

Section passive.
Context (now : Z) (health : PrefixHealth → HealthRef) (noop : HealthRef) (nid : NodeId) (heard others : bool).

(** Whether a prefix is advertised (again) in a scan. *)
Definition renewed n (p : Prefix) : bool := heard || (negb others && hasRecentlyAdvertised now n p).

(** Whether the node was holding the prefix for the client already. *)
Definition holding n (p : Prefix) : bool :=
  match rs_Advertised (ny_rs n) !! p with
  | Some old => bool_decide (adv_NodeId old = nid) && adv_IsPassiveHold old
  | None => false
  end.

Definition scan_prefix n (h : PrefixHealth) : Nylon :=
  if renewed n (GetPrefix h) then updatePassiveClient now n (GetPrefix h) (health h) noop nid (negb heard) else n.

(** What is known of a prefix: its advertisement and its sequence number. *)
Definition advertised n (p : Prefix) : option Advertisement * Z := (rs_Advertised (ny_rs n) !! p, GetSeqno (ny_rs n) p).

Definition scanned n (h : PrefixHealth) : option Advertisement * Z :=
  let p := GetPrefix h in
  if renewed n p then
    (Some (mkAdvertisement nid (now + ClientKeepaliveInterval (rs_tun (ny_rs n))) (negb heard) (Some (health h)) (Some noop)),
     if negb heard && negb (holding n p) then uint16 (GetSeqno (ny_rs n) p + 1) else GetSeqno (ny_rs n) p)
  else advertised n p.

Lemma scan_prefix_spec n h :
  rs_tun (ny_rs (scan_prefix n h)) = rs_tun (ny_rs n) ∧ advertised (scan_prefix n h) (GetPrefix h) = scanned n h ∧
  ∀ p, p ≠ GetPrefix h → advertised (scan_prefix n h) p = advertised n p.
Proof.
  unfold scan_prefix, scanned. destruct (renewed n (GetPrefix h)); [|done]. unfold updatePassiveClient, advertised, holding.
  assert ((match rs_Advertised (ny_rs n) !! GetPrefix h with
           | Some old => if bool_decide (adv_NodeId old = nid) then adv_IsPassiveHold old else false | None => false end) =
          (match rs_Advertised (ny_rs n) !! GetPrefix h with
           | Some old => bool_decide (adv_NodeId old = nid) && adv_IsPassiveHold old | None => false end)) as ->.
  { destruct (_ !! _) as [old|]; [|done]. by destruct (bool_decide _). }
  destruct (negb heard && _); unfold GetSeqno; cbn; (split; [done|split; [by rewrite ?lookup_insert_eq|]]);
    intros p Hp; by rewrite ?lookup_insert_ne by done.
Qed.

Lemma advertised_renewed n n' p : advertised n p = advertised n' p → renewed n p = renewed n' p ∧ holding n p = holding n' p.
Proof. unfold advertised, renewed, holding, hasRecentlyAdvertised. by intros [= -> _]. Qed.

Lemma scan_prefixes_spec l : ∀ n, NoDup (GetPrefix <$> l) → let n' := foldl scan_prefix n l in
  (∀ h, h ∈ l → advertised n' (GetPrefix h) = scanned n h) ∧ (∀ p, p ∉ GetPrefix <$> l → advertised n' p = advertised n p).
Proof.
  induction l as [|h l IH]; intros n Hnd; cbn [foldl]; [split; [by intros h ?%not_elem_of_nil|done]|].
  cbn in Hnd. apply NoDup_cons in Hnd as [Hh Hnd]. destruct (IH (scan_prefix n h) Hnd) as [IH1 IH2].
  destruct (scan_prefix_spec n h) as (Htun & Hhere & Hrest). split.
  - intros h' [->|Hh']%elem_of_cons; [by rewrite IH2|]. rewrite IH1 by done.
    assert (GetPrefix h' ≠ GetPrefix h) as Hne by (intros Heq; apply Hh; rewrite <- Heq; by apply list_elem_of_fmap_2).
    pose proof (Hrest _ Hne) as Hadv. destruct (advertised_renewed _ _ _ Hadv) as [Hr Hho]. unfold scanned.
    rewrite Hr, Hho, Htun, Hadv. unfold advertised in Hadv. by injection Hadv as _ ->.
  - cbn. intros p [Hp Hp']%not_elem_of_cons. by rewrite IH2, Hrest.
Qed.

End passive.

(** *** The whole scan *)

(** The client whose key a device peer has. *)
Definition client_of (c : CentralCfg) (key : NyPublicKey) : option (NodeId * NodeCfg) :=
  nid ← FindNodeBy c key; ncfg ← GetNode c nid; if IsClient c nid then Some (nid, ncfg) else None.

Definition client_prefixes_of (c : CentralCfg) (key : NyPublicKey) : list Prefix :=
  match client_of c key with Some (_, ncfg) => GetPrefix <$> nc_Prefixes ncfg | None => [] end.

(** Some neighbour announces a prefix of the client, at a finite metric and on behalf of
    another node than this one. *)
Definition claimed_elsewhere n (ncfg : NodeCfg) : Prop :=
  ∃ h m p r, h ∈ nc_Prefixes ncfg ∧ m ∈ rs_Neighbours (ny_rs n) ∧ n_Routes m !! p = Some r ∧
    pr_Prefix (nr_Pub r) = GetPrefix h ∧ pr_NodeId (nr_Pub r) ≠ ny_LocalId n ∧ pr_Metric (nr_Pub r) ≠ INF.

Lemma hasOtherAdvertisers_spec n ncfg : hasOtherAdvertisers n (nc_Prefixes ncfg) = true ↔ claimed_elsewhere n ncfg.
Proof.
  unfold hasOtherAdvertisers, claimed_elsewhere. rewrite existsb_exists. setoid_rewrite existsb_exists. setoid_rewrite existsb_exists.
  setoid_rewrite <- list_elem_of_In. split.
  - intros (h & Hh & m & Hm & [p r] & Hr%elem_of_map_range & Hb). cbn [snd] in Hb. exists h, m, p, r. to_prop. done.
  - intros (h & m & p & r & Hh & Hm & Hr & Hp & Hid & Hfin). exists h. split; [done|]. exists m. split; [done|]. exists (p, r).
    split; [by apply elem_of_map_range|]. cbn [snd]. rewrite !andb_true_iff, !negb_true_iff, bool_decide_eq_true, bool_decide_eq_false.
    apply Z.eqb_neq in Hfin. done.
Qed.

(** What the scan does not change. *)
Definition scan_frame n n' : Prop :=
  ny_CentralCfg n' = ny_CentralCfg n ∧ ny_LocalId n' = ny_LocalId n ∧ rs_tun (ny_rs n') = rs_tun (ny_rs n) ∧
  rs_Neighbours (ny_rs n') = rs_Neighbours (ny_rs n).

Lemma scan_frame_others n n' ps : scan_frame n n' → hasOtherAdvertisers n' ps = hasOtherAdvertisers n ps.
Proof. intros (_ & Hi & _ & Hn). unfold hasOtherAdvertisers. by rewrite Hi, Hn. Qed.

Lemma scan_prefix_frame now health noop nid heard others n h : scan_frame n (scan_prefix now health noop nid heard others n h).
Proof. unfold scan_prefix, updatePassiveClient. by repeat case_goal. Qed.

#[local] Instance scan_frame_trans : Transitive scan_frame.
Proof. intros x y z (? & ? & ? & ?) (? & ? & ? & ?). repeat split; congruence. Qed.

Lemma scan_prefixes_frame now health noop nid heard others l : ∀ n, scan_frame n (foldl (scan_prefix now health noop nid heard others) n l).
Proof.
  induction l as [|h l IH]; intros n; cbn; [by repeat split|]. etransitivity; [|apply IH]. apply scan_prefix_frame.
Qed.

Lemma scanned_frame now health noop nid heard others n n' h : scan_frame n n' → advertised n' (GetPrefix h) = advertised n (GetPrefix h) →
  scanned now health noop nid heard others n' h = scanned now health noop nid heard others n h.
Proof.
  intros (_ & _ & Ht & _) Ha. destruct (advertised_renewed now nid heard others _ _ _ Ha) as [Hr Hh]. unfold scanned. rewrite Hr, Hh, Ht, Ha.
  unfold advertised in Ha. by injection Ha as _ ->.
Qed.

Section scan.
Context (now : Z) (lastReceived : Peer → Z) (health : PrefixHealth → HealthRef) (noop : HealthRef).

Definition heard_of n (peer : Peer) : bool := time_Sub now (lastReceived peer) <? ClientDeadThreshold (rs_tun (ny_rs n)).

(** What the scan of one peer makes of the prefixes of its client. *)
Definition peer_scanned n (x : NyPublicKey * Peer) (h : PrefixHealth) nid ncfg : option Advertisement * Z :=
  scanned now health noop nid (heard_of n x.2) (hasOtherAdvertisers n (nc_Prefixes ncfg)) n h.

Lemma scan_peer_spec n x : NoDup (client_prefixes_of (ny_CentralCfg n) x.1) →
  ∃ n', scan_passive_peer now lastReceived health noop n x = Some n' ∧ scan_frame n n' ∧
  (∀ nid ncfg h, client_of (ny_CentralCfg n) x.1 = Some (nid, ncfg) → h ∈ nc_Prefixes ncfg →
     advertised n' (GetPrefix h) = peer_scanned n x h nid ncfg) ∧
  (∀ p, p ∉ client_prefixes_of (ny_CentralCfg n) x.1 → advertised n' p = advertised n p).
Proof.
  unfold scan_passive_peer, client_prefixes_of, client_of. destruct (FindNodeBy _ _) as [nid|] eqn:Ef; [|intros _; by exists n].
  destruct (FindNodeBy_known _ _ _ Ef) as [ncfg Hnode]. cbn [mbind option_bind]. rewrite Hnode. cbn [mbind option_bind].
  destruct (IsClient _ nid); cbn [negb]; [|intros _; by exists n]. intros Hnd.
  destruct (scan_prefixes_spec now health noop nid (heard_of n x.2) (hasOtherAdvertisers n (nc_Prefixes ncfg)) (nc_Prefixes ncfg) n Hnd) as [H1 H2].
  eexists. split; [done|]. split; [apply (scan_prefixes_frame now health noop nid (heard_of n x.2))|].
  split; [|exact H2]. intros nid' ncfg' h [= <- <-]. apply H1.
Qed.

Lemma scan_peers_spec l : ∀ n, NoDup (l ≫= λ x, client_prefixes_of (ny_CentralCfg n) x.1) →
  ∃ n', foldl (λ r x, n ← r; scan_passive_peer now lastReceived health noop n x) (Some n) l = Some n' ∧ scan_frame n n' ∧
  (∀ x nid ncfg h, x ∈ l → client_of (ny_CentralCfg n) x.1 = Some (nid, ncfg) → h ∈ nc_Prefixes ncfg →
     advertised n' (GetPrefix h) = peer_scanned n x h nid ncfg) ∧
  (∀ p, (∀ x, x ∈ l → p ∉ client_prefixes_of (ny_CentralCfg n) x.1) → advertised n' p = advertised n p).
Proof.
  induction l as [|x l IH]; intros n Hnd; cbn [foldl].
  { exists n. split; [done|]. split; [by repeat split|]. split; [|done]. by intros x nid ncfg h ?%not_elem_of_nil. }
  cbn in Hnd. apply NoDup_app in Hnd as (Hx & Hdis & Hl). cbn [mbind option_bind]. destruct (scan_peer_spec n x Hx) as (n1 & -> & Hf1 & H1 & H1').
  pose proof Hf1 as (Hc & _ & Ht & _). destruct (IH n1) as (n' & -> & Hf2 & H2 & H2'); [by rewrite Hc|].
  rewrite Hc in H2, H2'. exists n'. split; [done|]. split; [by transitivity n1|]. split.
  - intros y nid ncfg h [->|Hy]%elem_of_cons Hcl Hh.
    + rewrite H2'; [by apply H1|]. intros z Hz Hp. apply (Hdis (GetPrefix h)).
      * unfold client_prefixes_of. rewrite Hcl. by apply list_elem_of_fmap_2.
      * apply list_elem_of_bind. by exists z.
    + rewrite (H2 y nid ncfg h Hy Hcl Hh). unfold peer_scanned, heard_of. rewrite (scan_frame_others n n1), Ht by done.
      apply scanned_frame; [done|]. apply H1'. intros Hp. apply (Hdis _ Hp). apply list_elem_of_bind. exists y. split; [|done].
      unfold client_prefixes_of. rewrite Hcl. by apply list_elem_of_fmap_2.
  - intros p Hp. rewrite H2'; [apply H1'|]; [|intros z Hz]; apply Hp; by constructor.
Qed.

(** C12: the scan of the passive clients, at a node whose clients have no prefix in common,
    as the validation of configurations demands.  It does not panic.  Every prefix of a client that was heard of is advertised for
    the client, at its sequence number.  A prefix of a client that was not heard of is held if the
    node advertises it and nobody else claims a prefix of the client, which takes a
    finite announcement of a neighbour on behalf of another node; entering the hold raises the
    sequence number once.  If the client is claimed elsewhere, or the
    advertisement ran out, nothing is renewed, so a client that moved is let go.  Prefixes
    of no client are not touched. *)
Theorem passive_clients_advertised n :
  NoDup (map_to_list (ny_peers n) ≫= λ x, client_prefixes_of (ny_CentralCfg n) x.1) →
  ∃ n', scanPassivePeers now lastReceived health noop n = Some n' ∧
  (∀ key peer nid ncfg h, ny_peers n !! key = Some peer → client_of (ny_CentralCfg n) key = Some (nid, ncfg) → h ∈ nc_Prefixes ncfg →
     let p := GetPrefix h in let old := rs_Advertised (ny_rs n) !! p in
     let heard := time_Sub now (lastReceived peer) < ClientDeadThreshold (rs_tun (ny_rs n)) in
     let renewal hold := Some (mkAdvertisement nid (now + ClientKeepaliveInterval (rs_tun (ny_rs n))) hold (Some (health h)) (Some noop)) in
     (heard → advertised n' p = (renewal false, GetSeqno (ny_rs n) p)) ∧
     (∀ adv, ¬ heard → ¬ claimed_elsewhere n ncfg → old = Some adv → now < adv_Expiry adv →
        advertised n' p = (renewal true, if bool_decide (adv_NodeId adv = nid) && adv_IsPassiveHold adv then GetSeqno (ny_rs n) p
                                         else uint16 (GetSeqno (ny_rs n) p + 1))) ∧
     (¬ heard → claimed_elsewhere n ncfg ∨ (∀ adv, old = Some adv → adv_Expiry adv <= now) → advertised n' p = advertised n p)) ∧
  (∀ p, (∀ key, is_Some (ny_peers n !! key) → p ∉ client_prefixes_of (ny_CentralCfg n) key) → advertised n' p = advertised n p).
Proof.
  intros Hnd. destruct (scan_peers_spec (map_range (ny_peers n)) n) as (n' & Hs & _ & H1 & H2).
  { by rewrite map_range_perm. }
  exists n'. split; [exact Hs|]. split.
  - intros key peer nid ncfg h Hkey Hcl Hh. cbv zeta.
    rewrite (H1 (key, peer) nid ncfg h) by (done || by apply elem_of_map_range). unfold peer_scanned, scanned, renewed, heard_of. cbn [snd].
    destruct (Z.ltb_spec (time_Sub now (lastReceived peer)) (ClientDeadThreshold (rs_tun (ny_rs n)))) as [Hlt|Hge]; cbn [negb orb andb].
    { split; [done|]. split; [intros adv Hn; by destruct Hn|intros Hn; by destruct Hn]. }
    split; [lia|]. split.
    + intros adv _ Hno Hadv Hexp. unfold hasRecentlyAdvertised, holding. rewrite Hadv. apply Z.ltb_lt in Hexp. rewrite Hexp.
      destruct (hasOtherAdvertisers _ _) eqn:E; [by apply hasOtherAdvertisers_spec in E|]. cbn [negb andb]. by destruct (_ && _).
    + intros _ Hor. assert (negb (hasOtherAdvertisers n (nc_Prefixes ncfg)) && hasRecentlyAdvertised now n (GetPrefix h) = false) as ->; [|done].
      destruct Hor as [Hcl'|Hexp]; [by rewrite (proj2 (hasOtherAdvertisers_spec n ncfg) Hcl')|].
      apply andb_false_intro2. unfold hasRecentlyAdvertised. destruct (rs_Advertised _ !! _) as [adv|]; [|done]. apply Z.ltb_ge. by apply Hexp.
  - intros p Hp. apply H2. intros [key peer] Hx%elem_of_map_range. apply Hp. by eexists.
Qed.

End scan.

(** ** Announcements in the LAN *)

Section lan.
Context `{SG : Signature} `{SGL : !SignatureLaws}.

(** an announcement that a node signs can be read back: whoever receives it gets the port and
    the public key of the sender, and the signature verifies with that key.  A
    receiver that has the key in its configuration acts on it unless it did so for that peer
    and interface less than the probe timeout ago, and then it is about the address the packet came from, with
    the announced port. *)
Theorem lan_announcement_roundtrip key port data now st lan peer source iface :
  0 < port < 65536 → makeLANDiscoveryAnnouncement key port = Some data →
  pb_lan st = Some lan → app_PeerMap (pb_app st) !! be_decode (sig_Pubkey key) = Some peer → peer ≠ ny_LocalId (pb_n st) →
  readLANDiscoveryAnnouncement data = Some (sig_Pubkey key, port) ∧
  VerifyBundle data (sig_Pubkey key) = Some (drop SignatureSize data) ∧
  (let due := ProbeTimeout <=? time_Sub now (default ZeroTime (la_lastAttempt lan !! (peer, li_name iface))) in
   let '(st', found) := read_announcement now st data source iface true in
   found = (if due then Some (peer, be_decode (sig_Pubkey key), li_name iface, mkAddrPort source port) else None) ∧
   ∀ now', due = true → now <= now' < now + ProbeTimeout → read_announcement now' st' data source iface true = (st', None)).
Proof.
  intros Hport Hmake Hlan Hpeer Hne. unfold makeLANDiscoveryAnnouncement, SignBundle in Hmake.
  destruct (sig_Sign key _) as [sig|] eqn:Es; [|done]. cbn [mbind option_bind] in Hmake. apply (inj Some) in Hmake as <-.
  pose proof (length_sig_Sign _ _ _ Es) as Hls. pose proof (length_sig_Pubkey key) as Hlk. set (payload := lanDiscoveryDomain ++ _) in *.
  assert (drop SignatureSize (sig ++ payload) = payload) as Hdrop by (rewrite <- Hls; apply drop_app_length).
  assert (take SignatureSize (sig ++ payload) = sig) as Htake by (rewrite <- Hls; apply take_app_length).
  assert (readLANDiscoveryAnnouncement (sig ++ payload) = Some (sig_Pubkey key, port)) as Hread.
  { unfold readLANDiscoveryAnnouncement. rewrite Hdrop. rewrite decide_False.
    2: { intros H. apply H. unfold payload. rewrite !length_app, length_be_encode, Hls, Hlk. done. }
    rewrite (take_app_length lanDiscoveryDomain (be_encode 2 port ++ sig_Pubkey key) : take _ payload = _), bool_decide_true by done. cbn [negb].
    unfold slice. replace (length lanDiscoveryDomain + 2 - length lanDiscoveryDomain)%nat with 2%nat by lia.
    rewrite (drop_app_length lanDiscoveryDomain (be_encode 2 port ++ sig_Pubkey key) : drop _ payload = _).
    rewrite (take_app_length (be_encode 2 port) (sig_Pubkey key) : take 2 _ = _), be_decode_encode by lia.
    replace (port =? 0) with false by (symmetry; to_prop; lia). done. }
  assert (VerifyBundle (sig ++ payload) (sig_Pubkey key) = Some payload) as Hver.
  { unfold VerifyBundle. rewrite decide_False by (rewrite length_app; lia). rewrite Hdrop, Htake. by rewrite (sig_Verify_Sign _ _ _ Es). }
  split; [done|]. split; [by rewrite Hdrop|]. unfold read_announcement. rewrite Hread, Hlan, Hpeer, Hver, bool_decide_false by done.
  destruct (ProbeTimeout <=? _) eqn:Ed; to_prop.
  - replace (_ <? ProbeTimeout) with false by (symmetry; to_prop; lia). split; [done|]. intros now' _ Hn'.
    change (pb_n (set_lan st _)) with (pb_n st). cbn [pb_lan set_lan pb_app la_lastAttempt la_interfaces].
    rewrite Hpeer, bool_decide_false by done.
    rewrite lookup_insert_eq. cbn. replace (_ <? ProbeTimeout) with true; [done|]. symmetry. to_prop. unfold time_Sub.
    unfold ProbeTimeout, MinInt64, MaxInt64, Second in *. lia.
  - replace (_ <? ProbeTimeout) with true by (symmetry; to_prop; lia). done.
Qed.

End lan.

End links.

Module ProbeDemo.

#[local] Existing Instances sorted_range plain_unicode PlainText.plain_text PlainText.plain_text_laws.
#[local] Instance parsers : TextParsers := {| url_Parse _ := true |}.
#[local] Instance linux : Platform := {| GOOS := "linux"; GOARCH := "amd64" |}.
#[local] Instance host : Host := {| InterfaceByName _ := Some 3; InterfaceByIndex _ := Some "eth0"; FamilyReachable _ := true |}.

(** Signatures that anyone can forge, but that satisfy the laws. *)
Definition toy_pubkey (k : list Z) : list Z := take 32 (k ++ replicate 32 0).
Definition toy_sig (pk m : list Z) : list Z := take 64 (pk ++ le_encode 64 (foldl Z.add 0 m)).
#[local] Instance toy_signature : Signature :=
  {| sig_Pubkey := toy_pubkey; sig_Sign k m := Some (toy_sig (toy_pubkey k) m); sig_Verify pk m s := bool_decide (s = toy_sig pk m) |}.
#[local] Instance toy_signature_laws : SignatureLaws.
Proof.
  split.
  - intros k. cbn. unfold toy_pubkey. rewrite length_take, length_app, length_replicate. lia.
  - intros k m s [= <-]. unfold toy_sig. rewrite length_take, length_app. unfold le_encode. rewrite length_reverse, length_be_encode.
    unfold SignatureSize. lia.
  - intros k m s [= <-]. cbn. by rewrite bool_decide_true.
Qed.

Definition net (k : Z) : Prefix := PrefixFrom (Addr4 (k * 2 ^ 24)) 8.
Definition node_cfg (id : NodeId) (key : Z) (ps : list Prefix) : NodeCfg := mkNodeCfg id key [] ((λ p, StaticPrefixHealth p 0) <$> ps) 0.

(** Node [a] with the router [b] and the passive client [c]. *)
Definition cfg : CentralCfg :=
  mkCentralCfg [mkRouterCfg (node_cfg "a" 1 [net 10]) [] false; mkRouterCfg (node_cfg "b" 2 [net 11]) [] false]
    [mkClientCfg (node_cfg "c" 3 [net 20])] ["a, b"; "a, c"] 0 [] None.

Definition address : AddrPort := mkAddrPort (Addr4 (192 * 2 ^ 24 + 2)) 57175.
Definition socket : StdNetEndpoint := mkStd address None TransportUDP.
Definition link : NylonEndpoint := Renew 1000 (NewEndpoint (NewDynamicEndpoint (AddrPort_String address)) true (Some socket) DefaultRouterTunables 7).

Definition own (h : HealthRef) : Advertisement := mkAdvertisement "a" maxTime false (Some h) None.

Definition n0 : Nylon NylonEndpoint (gmap Prefix) map_cache :=
  mkNylon (mkRouterState DefaultRouterTunables "a" ∅ ∅ ∅ [mkNeighbour "b" ∅ [link]] {[net 10 := own 0%nat]})
    cfg "a" false "" (list_to_map [(2, 0%nat); (3, 1%nat)]) ∅ ∅ ∅ None None.
Definition app : App := mkApp n0 7 {[be_decode (toy_pubkey [2]) := "b"]} ∅ {[net 10 := 0%nat]} 1%nat ∅ {["b" := 2]} [] [] 2%nat ∅ ∅ [].

Definition lan_iface : lanDiscoveryInterface := mkLanInterface 3 "eth0" (interfaceIPv4Subnets [PrefixFrom (Addr4 (192 * 2 ^ 24 + 9)) 24]).
Definition service : lanDiscoveryService := mkLan {[3 := lan_iface]} ∅.
Definition prober : Prober (T := gmap Prefix) (C := map_cache) := mkProber app 500 tc_new ∅ ∅ [] false (Some service).

Definition env : Env := mkEnv 2000 (λ _, 7).
Definition prepare (e : StdNetEndpoint) : option bool := None.

Lemma n0_good : good n0.
Proof.
  apply good_intro.
  - intros p Hp. apply NodeDemo.canonicalb_ok. refine (NodeDemo.forallb_elem _ _ _ _ Hp). by vm_compute.
  - apply NodeDemo.saneb_ok. by vm_compute.
  - intros p Hp. unfold mirrors. cbn [ny_rs n0 rs_Routes ny_ForwardTable ny_ExitTable]. rewrite lookup_empty.
    pose proof (bt_Get_empty (T := gmap Prefix) (V := RouteTableEntry) p) as He. cbn [bt_empty map_table] in He. by rewrite He.
Qed.

Lemma link_wf : ep_wf link.
Proof. apply Renew_wf, NewEndpoint_wf, default_window. Qed.

Lemma n0_ok : linked_ok any_prefix n0.
Proof.
  split; [eapply good_for_known, n0_good|apply default_window| |].
  - apply Forall_singleton, Forall_singleton. exact link_wf.
  - exists ["b"; "c"]. by vm_compute.
Qed.

Lemma prober_ok : probe_ok any_prefix 1000 prober.
Proof. split; [exact n0_ok|]. intros t key ping _. done. Qed.

Lemma probing_never_panics_witness :
  ∃ st', probe_event (λ _, []) prepare (λ _ _, true) env prober (EvProbeLinks 600 true) = Some st' ∧ good (pb_n st').
Proof.
  destruct (probing_never_panics (λ _, []) prepare (λ _ _, true) 1000 env prober (EvProbeLinks 600 true)) as (st' & H & _ & Hg);
    [exact prober_ok|cbn; lia|]. exists st'. split; [exact H|apply Hg, n0_good].
Defined.

(** Computations that succeed. *)
Lemma yields {A} (d : A) (x : option A) : (match x with Some _ => true | None => false end) = true → x = Some (default d x).
Proof. by destruct x. Qed.

Lemma keys_ok : keys_below 1000 prober.
Proof.
  split; [cbn; unfold is_i64; lia|]. intros key [(t & ping & _ & H)|[H|[x H]]]; cbn in H.
  - done.
  - by apply elem_of_empty in H.
  - by rewrite lookup_empty in H.
Qed.

Lemma yields_key {A B E} (x : option (A * B * (E + Z))) (k : Z) : (match x with Some (_, inr k') => k' =? k | _ => false end) = true →
  ∃ a b, x = Some (a, b, inr k).
Proof. destruct x as [[[a b] [?|k']]|]; [done| |done]. intros ->%Z.eqb_eq. eauto. Qed.

Definition after_send := sendEndpointProbeWithDiscovery prepare 1000 600 prober "b" link 5 false.

Lemma probe_answered_once_witness :
  ∃ st1 ep1 key, after_send = Some (st1, ep1, inr key) ∧ key = 600 ∧
    pb_done (probe_timeout st1 key) !! key = Some (PROBE_TIMEOUT, 0).
Proof.
  assert (∃ st1 ep1, after_send = Some (st1, ep1, inr 600)) as (st1 & ep1 & Hs); [apply yields_key; vm_compute; reflexivity|].
  exists st1, ep1, 600. split; [exact Hs|]. split; [reflexivity|].
  apply (probe_answered_once prepare 1000 600 prober "b" link 5 false st1 ep1 600 keys_ok); [cbn; lia|unfold is_i64; lia|done|exact Hs|lia].
Defined.

(** The probe that goes out, the answer of the peer, whose clock is 10000 ahead, and the reply. *)
Definition st1 := default prober (probe_at prepare 1000 600 prober "b" 0).
Definition probe : Ny_Probe := mkProbe 600 false 7 0 None None false.
Definition peer_node := handleProbe 10640 10650 true prober probe socket 4%nat "a".
Definition reply : Ny_Probe := mkProbe 10650 true 0 7 (Some 600) (Some 10640) false.
Definition st2 := default prober (handleProbePong env st1 "b" reply socket 700).

Lemma probe_measures_round_trip_witness :
  ∃ m2 ep2 out inn, GetNeighbour (ny_rs (pb_n st2)) "b" = Some m2 ∧ n_Eps m2 !! 0%nat = Some ep2 ∧
    ep_owdOut ep2 = filter_update (ep_owdOut link) out (ep_t link) ∧ ep_owdIn ep2 = filter_update (ep_owdIn link) inn (ep_t link) ∧
    out + inn = 40 + 50.
Proof.
  apply (probe_measures_round_trip prepare 1000 600 prober "b" 0 st1 probe socket 0%nat 10640 10650 prober socket 4%nat "a" peer_node.1 reply
    env socket 700 st2 (mkNeighbour "b" ∅ [link]) link 640 650 10000);
    [reflexivity|reflexivity|apply NoDup_singleton|apply yields; vm_compute; reflexivity|vm_compute; reflexivity|vm_compute; reflexivity|
     vm_compute; reflexivity|cbn; lia|vm_compute; reflexivity|left; reflexivity|reflexivity|reflexivity|unfold is_i64; cbn; lia|unfold is_i64; cbn; lia|
     apply yields; vm_compute; reflexivity].
Defined.

(** A ping from another address adds a second link. *)
Definition other : StdNetEndpoint := mkStd (mkAddrPort (Addr4 (192 * 2 ^ 24 + 3)) 57175) None TransportUDP.

Lemma ping_adds_one_link_witness :
  ∃ st' m' i ep', handleProbePing env prober "b" probe other 650 = Some st' ∧ GetNeighbour (ny_rs (pb_n st')) "b" = Some m' ∧
    n_Eps m' !! i = Some ep' ∧ pinged 2000 other ep' ∧ length (n_Eps m') = 2%nat.
Proof.
  destruct (ping_adds_one_link 1000 env prober "b" probe other 650 (mkNeighbour "b" ∅ [link])) as (st' & m' & i & ep' & H1 & H2 & H3 & H4 & H5);
    [exact prober_ok|reflexivity|reflexivity|discriminate|reflexivity|].
  exists st', m', i, ep'. repeat (split; [assumption|]). etransitivity; [exact (proj1 H5)|]. vm_compute. reflexivity.
Defined.

(** Much later the link is dead. *)
Definition later : Env := mkEnv (2000 + 3600 * Second) (λ _, 7).

Lemma dead_links_removed_witness :
  ∃ n', nylonGc later n0 = Some n' ∧ linked_ok any_prefix n' ∧ links_of_state (ny_rs n') = [("b", [])].
Proof.
  destruct (dead_links_removed any_prefix later n0 n0_ok) as (n' & Hgc & Hok & Hl & _). exists n'. split; [exact Hgc|]. split; [exact Hok|].
  etransitivity; [exact Hl|]. vm_compute. reflexivity.
Defined.

(** The client was heard of. *)
Lemma passive_clients_advertised_witness :
  ∃ n', scanPassivePeers 2000 (λ _, 1900) (λ _, 5%nat) 6%nat n0 = Some n' ∧
    advertised n' (net 20) =
      (Some (mkAdvertisement "c" (2000 + ClientKeepaliveInterval DefaultRouterTunables) false (Some 5%nat) (Some 6%nat)), 0).
Proof.
  destruct (passive_clients_advertised 2000 (λ _, 1900) (λ _, 5%nat) 6%nat n0) as (n' & Hs & H & _);
    [apply (bool_decide_unpack _); vm_compute; exact I|].
  exists n'. split; [exact Hs|].
  destruct (H 3 1%nat "c" (node_cfg "c" 3 [net 20]) (StaticPrefixHealth (net 20) 0)) as [Hh _];
    [reflexivity|reflexivity|apply list_elem_of_here|]. apply Hh. vm_compute. reflexivity.
Defined.

Definition announcement := default [] (makeLANDiscoveryAnnouncement [2] 57175).

Lemma lan_announcement_roundtrip_witness :
  readLANDiscoveryAnnouncement announcement = Some (toy_pubkey [2], 57175) ∧
  VerifyBundle announcement (toy_pubkey [2]) = Some (drop SignatureSize announcement).
Proof.
  destruct (lan_announcement_roundtrip [2] 57175 announcement 2000 prober service "b" (Addr4 (192 * 2 ^ 24 + 2)) lan_iface)
    as (H1 & H2 & _); [lia|reflexivity|reflexivity|reflexivity|discriminate|]. by split.
Defined.

End ProbeDemo.
