(* ===== verification/ReconcileProps.v ===== *)
(** What applying a configuration does: the links and neighbours that stay, the health
    checks that run, and that a validated configuration is applied without a panic and
    leaves the forwarding tables in step with the routes. *)

From S2P Require Import Prelude Bytes NetIP Float64 Metric Routing Endpoint EndpointProps RouterAlgo RouterFacts RouterInv RouterOps RouterProps Config NodeIds External RouterIO Forwarding Flush RouterEvents Graph GraphProps Validation ValidationProps SysRoutes Reconcile.

(** ** Links of a neighbour *)

Section links.
Context `{NT : NetText} `{HO : Host}.
Implicit Types (Eps desired : list NylonEndpoint) (ep : NylonEndpoint).

(** Links that stay when the keys in [keys] are wanted. *)
Definition stays (keys : list endpointIdentity) (allow : bool) ep : bool :=
  if ep_remoteInit ep then negb (bool_decide (ep_Transport ep = TransportFakeTCP) && negb allow)
  else bool_decide (endpointKey ep ∈ keys).

Lemma keep_endpoint_spec keys allow Eps :
  (foldl (keep_endpoint keys allow) ([], []) Eps).1 = filter (λ ep, stays keys allow ep = true) Eps ∧
  ∀ k, k ∈ (foldl (keep_endpoint keys allow) ([], []) Eps).2 ↔
    k ∈ keys ∧ ∃ ep, ep ∈ Eps ∧ ep_remoteInit ep = false ∧ endpointKey ep = k.
Proof.
  induction Eps as [|ep Eps IH] using rev_ind.
  { split; [done|]. intros k. split; [by intros ?%not_elem_of_nil|]. by intros (_ & ? & ?%not_elem_of_nil & _). }
  destruct IH as [IH1 IH2]. rewrite foldl_snoc, filter_app, filter_cons, filter_nil.
  destruct (foldl _ _ Eps) as [eps seen]. cbn [fst snd] in *. unfold keep_endpoint, stays.
  setoid_rewrite elem_of_app. setoid_rewrite list_elem_of_singleton.
  destruct (ep_remoteInit ep) eqn:Er.
  - destruct (bool_decide (ep_Transport ep = TransportFakeTCP) && negb allow); cbn [negb fst snd];
      [rewrite decide_False by done|rewrite decide_True by done]; rewrite ?app_nil_r, IH1; (split; [done|]);
      intros k; rewrite IH2; naive_solver congruence.
  - case_bool_decide as Hk; cbn [fst snd]; [rewrite decide_True by done|rewrite decide_False by done];
      rewrite ?app_nil_r, IH1; (split; [done|]); intros k; rewrite ?elem_of_cons, IH2; [|naive_solver congruence].
    split; [intros [->|(? & ? & ? & ?)]; naive_solver|]. intros (Hk' & ep' & [Hin| ->] & ? & <-); [right|by left]. naive_solver.
Qed.

(** Reconciliation in closed form. *)
Lemma reconcileConfiguredEndpoints_eq Eps desired allow :
  ∃ seen : list endpointIdentity, (∀ k, k ∈ seen ↔ k ∈ endpointKey <$> desired ∧ ∃ ep, ep ∈ Eps ∧ ep_remoteInit ep = false ∧ endpointKey ep = k) ∧
    reconcileConfiguredEndpoints Eps desired allow =
    filter (λ ep, stays (endpointKey <$> desired) allow ep = true) Eps ++ filter (λ ep, endpointKey ep ∉ seen) desired.
Proof.
  unfold reconcileConfiguredEndpoints. destruct (keep_endpoint_spec (endpointKey <$> desired) allow Eps) as [H1 H2].
  destruct (foldl _ _ Eps) as [eps seen]. exists seen. split; [exact H2|]. cbn in H1. by rewrite H1.
Qed.

Lemma elem_of_reconciled Eps desired allow ep :
  ep ∈ reconcileConfiguredEndpoints Eps desired allow ↔
  (ep ∈ Eps ∧ stays (endpointKey <$> desired) allow ep = true) ∨
  (ep ∈ desired ∧ ∀ old, old ∈ Eps → ep_remoteInit old = false → endpointKey old ≠ endpointKey ep).
Proof.
  destruct (reconcileConfiguredEndpoints_eq Eps desired allow) as (seen & Hseen & ->).
  rewrite elem_of_app, !list_elem_of_filter, Hseen. split.
  - intros [[? ?]|[Hn Hin]]; [by left|right]. split; [done|]. intros old Ho Hr Hk. apply Hn. split.
    + apply list_elem_of_fmap. by exists ep.
    + by exists old.
  - intros [[? ?]|[Hin Hn]]; [by left|right]. split; [|done]. intros (_ & old & Ho & Hr & Hk). by eapply Hn.
Qed.

(** The links a configuration asks for: one per endpoint, or one per endpoint and bind that
    can reach it, and a fake-TCP twin for binds with an interface. *)
Definition wanted (binds : list LocalBind) (endpoints : list string) (fake : bool) (k : endpointIdentity) : Prop :=
  let '(value, bind, tr) := k in
  value ∈ endpoints ∧
  match binds with
  | [] => endpointFamilyRoutable (NewDynamicEndpoint value) = true ∧ bind = zero_bind ∧ tr = TransportUDP
  | _ => bind ∈ binds ∧ bindMatchesEndpoint bind (NewDynamicEndpoint value) = true ∧
         (addr_IsValid (lb_Source bind) = true ∨ endpointFamilyRoutable (NewDynamicEndpoint value) = true) ∧
         (tr = TransportUDP ∨ fake = true ∧ lb_Interface bind ≠ "" ∧ tr = TransportFakeTCP)
  end.

(** A link that was just made. *)
Definition fresh_link (t : RouterTunables) (lo hi : Z) ep : Prop :=
  ∃ value bind tr id, ep = set_transport (set_bind (NewEndpoint (NewDynamicEndpoint value) false None t id) bind) tr ∧
    lo < id <= hi.

(** What the loops over endpoints and binds accumulate: links for the keys in [P]. *)
Definition links_for (t : RouterTunables) (lo : Z) (P : endpointIdentity → Prop) (st : list NylonEndpoint * Z) : Prop :=
  lo <= st.2 ∧ (∀ k, k ∈ endpointKey <$> st.1 ↔ P k) ∧ Forall (fresh_link t lo st.2) st.1 ∧ NoDup (ep_LinkId <$> st.1).

Lemma fresh_link_mono t lo hi hi' ep : hi <= hi' → fresh_link t lo hi ep → fresh_link t lo hi' ep.
Proof. intros Hh (value & bind & tr & id & -> & Hid). eexists _, _, _, _. split; [done|lia]. Qed.

Lemma links_for_ext t lo (P Q : endpointIdentity → Prop) st : (∀ k, P k ↔ Q k) → links_for t lo P st → links_for t lo Q st.
Proof. intros HPQ (H1 & H2 & H3). split; [done|]. split; [|done]. intros k. by rewrite H2. Qed.

Lemma new_link_spec t lo P st value bind tr : 0 <= lo → st.2 + 1 < 2 ^ 64 → links_for t lo P st →
  links_for t lo (λ k, P k ∨ k = (value, bind, tr)) (new_link t (NewDynamicEndpoint value) bind tr st) ∧
  (new_link t (NewDynamicEndpoint value) bind tr st).2 = st.2 + 1.
Proof.
  intros Hlo Hlt (Hge & Hk & Hf & Hnd). unfold new_link. rewrite (wrap_small 64) by (unfold in_width; lia).
  split; [|done]. split; [cbn; lia|]. cbn [fst snd]. split; [|split].
  - intros k. rewrite fmap_app, elem_of_app, Hk. cbn. by rewrite list_elem_of_singleton.
  - apply Forall_app. split.
    + eapply Forall_impl; [exact Hf|]. intros ep. by apply fresh_link_mono; lia.
    + apply Forall_singleton. eexists _, _, _, _. split; [done|lia].
  - rewrite fmap_app. apply NoDup_app. split; [done|]. split; [|apply NoDup_singleton].
    intros id (ep & -> & Hin)%list_elem_of_fmap Hid. rewrite Forall_forall in Hf.
    destruct (Hf ep Hin) as (v & b & r & id' & -> & Hid'). cbn in Hid. apply list_elem_of_singleton in Hid. lia.
Qed.

Lemma links_for_fold {A} t lo (f : list NylonEndpoint * Z → A → list NylonEndpoint * Z) (Q : A → endpointIdentity → Prop) n l :
  0 <= n →
  (∀ P st x, links_for t lo P st → st.2 + n < 2 ^ 64 →
    links_for t lo (λ k, P k ∨ Q x k) (f st x) ∧ (f st x).2 <= st.2 + n) →
  ∀ P st, links_for t lo P st → st.2 + n * Z.of_nat (length l) < 2 ^ 64 →
    links_for t lo (λ k, P k ∨ ∃ x, x ∈ l ∧ Q x k) (foldl f st l) ∧ (foldl f st l).2 <= st.2 + n * Z.of_nat (length l).
Proof.
  intros Hn Hf. induction l as [|x l IH]; intros P st Hst Hlt; cbn [foldl length] in *.
  - split; [|lia]. eapply links_for_ext; [|exact Hst]. intros k. split; [by left|].
    by intros [?|(? & ?%not_elem_of_nil & _)].
  - destruct (Hf P st x Hst ltac:(lia)) as [H1 H2]. destruct (IH _ _ H1 ltac:(lia)) as [H3 H4]. split; [|lia].
    eapply links_for_ext; [|exact H3]. intros k. setoid_rewrite elem_of_cons. naive_solver.
Qed.

(** The keys a bind contributes. *)
Definition bound_key (fake : bool) (value : string) (bind : LocalBind) (k : endpointIdentity) : Prop :=
  k.1.1 = value ∧ k.1.2 = bind ∧ bindMatchesEndpoint bind (NewDynamicEndpoint value) = true ∧
  (addr_IsValid (lb_Source bind) = true ∨ endpointFamilyRoutable (NewDynamicEndpoint value) = true) ∧
  (k.2 = TransportUDP ∨ fake = true ∧ lb_Interface bind ≠ "" ∧ k.2 = TransportFakeTCP).

Lemma bound_link_spec t lo fake value P st bind : 0 <= lo → links_for t lo P st → st.2 + 2 < 2 ^ 64 →
  links_for t lo (λ k, P k ∨ bound_key fake value bind k) (bound_link t fake (NewDynamicEndpoint value) st bind) ∧
  (bound_link t fake (NewDynamicEndpoint value) st bind).2 <= st.2 + 2.
Proof.
  intros Hlo Hst Hlt. unfold bound_link, bound_key.
  destruct (bindMatchesEndpoint bind _); cbn [negb].
  2: { split; [|lia]. eapply links_for_ext; [|exact Hst]. intros k. naive_solver. }
  destruct (negb (addr_IsValid (lb_Source bind)) && negb (endpointFamilyRoutable (NewDynamicEndpoint value))) eqn:E.
  { split; [|lia]. to_prop. eapply links_for_ext; [|exact Hst]. intros k. naive_solver congruence. }
  assert (addr_IsValid (lb_Source bind) = true ∨ endpointFamilyRoutable (NewDynamicEndpoint value) = true) as Hr.
  { destruct (addr_IsValid (lb_Source bind)), (endpointFamilyRoutable (NewDynamicEndpoint value)); auto. }
  destruct (new_link_spec t lo P st value bind TransportUDP Hlo ltac:(lia) Hst) as [H1 H2].
  destruct (fake && negb (bool_decide (lb_Interface bind = ""))) eqn:Ef.
  - to_prop. destruct (new_link_spec t lo _ _ value bind TransportFakeTCP Hlo ltac:(rewrite H2; lia) H1) as [H3 H4].
    split; [|lia]. eapply links_for_ext; [|exact H3]. intros [[v b] tr]. cbn. naive_solver.
  - split; [|lia]. eapply links_for_ext; [|exact H1]. intros [[v b] tr]. cbn.
    apply andb_false_iff in Ef. rewrite negb_false_iff, bool_decide_eq_true in Ef. naive_solver.
Qed.

(** The links made for a configuration are exactly the wanted ones. *)
Lemma configuredEndpoints_spec binds endpoints fake t ids :
  0 <= ids → ids + 2 * Z.of_nat (length endpoints * S (length binds)) < 2 ^ 64 →
  let r := configuredEndpoints binds (NewDynamicEndpoint <$> endpoints) fake t ids in
  links_for t ids (wanted binds endpoints fake) r ∧ r.2 <= ids + 2 * Z.of_nat (length endpoints * S (length binds)).
Proof.
  intros Hids Hlt. cbv zeta. unfold configuredEndpoints.
  assert (links_for t ids (λ _, False) ([], ids)) as H0.
  { split; [cbn; lia|]. split; [|split; constructor]. intros k. split; [by intros ?%not_elem_of_nil|done]. }
  destruct binds as [|b binds].
  - rewrite foldl_fmap. cbn [length] in *.
    destruct (links_for_fold t ids (λ st value, if endpointFamilyRoutable (NewDynamicEndpoint value)
        then new_link t (NewDynamicEndpoint value) zero_bind TransportUDP st else st)
      (λ value k, endpointFamilyRoutable (NewDynamicEndpoint value) = true ∧ k = (value, zero_bind, TransportUDP)) 1 endpoints
      ltac:(lia)) with (P := λ _ : endpointIdentity, False) (st := ([] : list NylonEndpoint, ids)) as [H1 H2]; [|done|cbn; lia|].
    + intros P st value Hst Hl. destruct (endpointFamilyRoutable _).
      * destruct (new_link_spec t ids P st value zero_bind TransportUDP Hids Hl Hst) as [H1 ->]. split; [|lia].
        eapply links_for_ext; [|exact H1]. naive_solver.
      * split; [|lia]. eapply links_for_ext; [|exact Hst]. naive_solver.
    + split; [|cbn in H2; lia]. eapply links_for_ext; [|exact H1]. intros [[v bd] tr]. cbn. naive_solver.
  - rewrite foldl_fmap.
    destruct (links_for_fold t ids (λ st value, foldl (bound_link t fake (NewDynamicEndpoint value)) st (b :: binds))
      (λ value k, ∃ bind, bind ∈ b :: binds ∧ bound_key fake value bind k) (2 * Z.of_nat (length (b :: binds))) endpoints
      ltac:(lia)) with (P := λ _ : endpointIdentity, False) (st := ([] : list NylonEndpoint, ids)) as [H1 H2]; [|done|cbn [snd]; lia|].
    + intros P st value Hst Hl. apply links_for_fold; [lia| |done|lia].
      intros P' st' bind. by apply bound_link_spec.
    + split; [|cbn [snd] in H2; lia]. eapply links_for_ext; [|exact H1]. intros [[v bd] tr].
      unfold bound_key, wanted. cbn [fst snd]. naive_solver.
Qed.

End links.

(** ** Neighbours *)

Section neighbours.
Context `{MR : MapRange} `{U : Unicode} `{TP : TextParsers} `{NT : NetText} `{HO : Host} `{PF : Platform}
  {T : Type → Type} `{BT : BartTable T} {C : Type → Type → Type} `{TC : TTLCache C}.
Context (local : LocalCfg).
Implicit Types (a : App (T := T) (C := C)) (m : Neighbour NylonEndpoint).

(** An existing link that the configuration lets stay. *)
Definition may_stay (cfg : RouterCfg) (mutual : bool) (ep : NylonEndpoint) : Prop :=
  if ep_remoteInit ep then ep_Transport ep = TransportUDP ∨ mutual = true
  else wanted (lc_Binds local) (rc_Endpoints cfg) mutual (endpointKey ep).

(** The links after reconciliation: configured links exactly for the wanted keys, links
    that may stay are the same objects with their measurements, and everything else is
    new and has a key no old configured link had. *)
Record links_ok (t : RouterTunables) (cfg : RouterCfg) (mutual : bool) (lo : Z) (old new : list NylonEndpoint) : Prop := {
  lk_wanted : ∀ k, (∃ ep, ep ∈ new ∧ ep_remoteInit ep = false ∧ endpointKey ep = k) ↔
    wanted (lc_Binds local) (rc_Endpoints cfg) mutual k;
  lk_kept : ∀ ep, ep ∈ old → may_stay cfg mutual ep → ep ∈ new;
  lk_source : ∀ ep, ep ∈ new → ep ∈ old ∧ may_stay cfg mutual ep ∨
    (∃ hi, fresh_link t lo hi ep) ∧ ∀ o, o ∈ old → ep_remoteInit o = false → endpointKey o ≠ endpointKey ep;
}.

Lemma stays_spec fresh hi t lo cfg mutual ep :
  links_for t lo (wanted (lc_Binds local) (rc_Endpoints cfg) mutual) (fresh, hi) →
  stays (endpointKey <$> fresh) mutual ep = true ↔ may_stay cfg mutual ep.
Proof.
  intros (_ & Hk & _). unfold stays, may_stay. destruct (ep_remoteInit ep).
  - rewrite negb_true_iff, andb_false_iff, negb_false_iff, bool_decide_eq_false.
    destruct (ep_Transport ep); naive_solver.
  - by rewrite bool_decide_eq_true, Hk.
Qed.

Lemma reconcile_links_ok t lo cfg mutual old fresh hi :
  links_for t lo (wanted (lc_Binds local) (rc_Endpoints cfg) mutual) (fresh, hi) →
  links_ok t cfg mutual lo old (reconcileConfiguredEndpoints old fresh mutual).
Proof.
  intros Hf. pose proof Hf as (_ & Hk & Hfresh & _). cbn [fst snd] in *. rewrite Forall_forall in Hfresh. split.
  - intros k. rewrite <-Hk. split.
    + intros (ep & Hin & Hr & <-). apply elem_of_reconciled in Hin as [[_ Hs]|[Hin _]].
      * unfold stays in Hs. rewrite Hr in Hs. by apply bool_decide_eq_true in Hs.
      * apply list_elem_of_fmap. by exists ep.
    + intros Hin. pose proof Hin as (ep & -> & Hep)%list_elem_of_fmap.
      destruct (decide (Exists (λ o, ep_remoteInit o = false ∧ endpointKey o = endpointKey ep) old)) as [He|Hn].
      * apply Exists_exists in He as (o & Ho & Hr & Hok). exists o. split; [|done].
        apply elem_of_reconciled. left. split; [done|]. unfold stays. rewrite Hr, Hok. by apply bool_decide_eq_true.
      * destruct (Hfresh ep Hep) as (v & b & tr & id & Heq & _). exists ep. split; [|by subst].
        apply elem_of_reconciled. right. split; [done|]. intros o Ho Hr Hko. apply Hn, Exists_exists. by exists o.
  - intros ep Hin Hm. apply elem_of_reconciled. left. split; [done|]. by eapply stays_spec.
  - intros ep [[Hin Hs]|[Hin Hn]]%elem_of_reconciled.
    + left. split; [done|]. by eapply stays_spec.
    + right. split; [|done]. exists hi. by apply Hfresh.
Qed.

(** Links of a neighbour that is new. *)
Lemma reconcile_nil fresh allow : reconcileConfiguredEndpoints [] fresh allow = fresh.
Proof.
  unfold reconcileConfiguredEndpoints. cbn. induction fresh as [|ep fresh IH]; [done|].
  rewrite filter_cons_True by apply not_elem_of_nil. by rewrite IH.
Qed.

Lemma desired_spec next localTCP peers :
  let st := foldl (desired_peer next localTCP) (∅, ∅) peers in
  (∀ id cfg, st.1 !! id = Some cfg ↔ id ∈ peers ∧ GetRouter next id = Some cfg) ∧
  (∀ id, id ∈ st.2 ↔ id ∈ peers ∧ localTCP && tcp_obfuscation_of next id = true).
Proof.
  cbv zeta. induction peers as [|peer peers [IH1 IH2]] using rev_ind.
  { split; [intros id cfg; cbn; rewrite lookup_empty|intros id; cbn; rewrite elem_of_empty]; rewrite elem_of_nil; naive_solver. }
  rewrite foldl_snoc. destruct (foldl _ _ peers) as [d f]. cbn [fst snd] in *. unfold desired_peer.
  destruct (GetRouter next peer) as [cfg0|] eqn:E; cbn [fst snd]; setoid_rewrite elem_of_app;
    setoid_rewrite list_elem_of_singleton; split.
  - intros id cfg. destruct (decide (id = peer)) as [->|Hne].
    + rewrite lookup_insert_eq. naive_solver.
    + rewrite lookup_insert_ne by done. rewrite IH1. naive_solver.
  - intros id. unfold tcp_obfuscation_of in *. destruct (localTCP && rc_TCPObfuscation cfg0) eqn:Eb.
    + rewrite elem_of_union, elem_of_singleton, IH2. split; [|naive_solver].
      intros [->|?]; [|naive_solver]. rewrite E. auto.
    + rewrite IH2. split; [naive_solver|]. intros [[?| ->] Hb]; [done|]. rewrite E in Hb. congruence.
  - intros id cfg. rewrite IH1. split; [naive_solver|]. intros [[?| ->] Hg]; [done|congruence].
  - intros id. rewrite IH2. unfold tcp_obfuscation_of. split; [naive_solver|]. intros [[?| ->] Hb]; [done|].
    rewrite E, andb_false_r in Hb. done.
Qed.

(** No router of the configuration needs more than [M] new link ids. *)
Definition link_budget (next : CentralCfg) (M : Z) : Prop :=
  0 <= M ∧ ∀ id cfg, GetRouter next id = Some cfg → 2 * Z.of_nat (length (rc_Endpoints cfg) * S (length (lc_Binds local))) <= M.

Abbreviation mutual_of localTCP cfg := (localTCP && rc_TCPObfuscation cfg).

(** What becomes of a neighbour that stays. *)
Definition kept (t : RouterTunables) (desired : gmap NodeId RouterCfg) (localTCP : bool) (lo : Z) m m' : Prop :=
  n_Id m' = n_Id m ∧ n_Routes m' = n_Routes m ∧
  ∃ cfg, desired !! n_Id m = Some cfg ∧ links_ok t cfg (mutual_of localTCP cfg) lo (n_Eps m) (n_Eps m').

Lemma links_ok_mono t cfg mutual lo lo' old new : lo' <= lo → links_ok t cfg mutual lo old new → links_ok t cfg mutual lo' old new.
Proof.
  intros Hle [H1 H2 H3]. split; [done|done|]. intros ep [?|[[hi (v & b & tr & id & -> & Hid)] Hn]]%H3; [by left|right].
  split; [|done]. exists hi. eexists _, _, _, _. split; [done|lia].
Qed.

Lemma peer_endpoints_ok next M t mutual id cfg ids old :
  link_budget next M → GetRouter next id = Some cfg → 0 <= ids → ids + M < 2 ^ 64 →
  let r := peer_endpoints local t mutual cfg ids in
  links_ok t cfg mutual ids old (reconcileConfiguredEndpoints old r.1 mutual) ∧ ids <= r.2 <= ids + M.
Proof.
  intros [HM Hb] Hg Hids Hlt. specialize (Hb id cfg Hg). cbv zeta.
  destruct (configuredEndpoints_spec (lc_Binds local) (rc_Endpoints cfg) mutual t ids Hids ltac:(lia)) as [Hf Hle].
  unfold peer_endpoints. destruct (configuredEndpoints _ _ _ _ _) as [fresh hi]. cbn [fst snd] in *.
  split; [by eapply reconcile_links_ok|]. destruct Hf as [? _]. cbn in *. lia.
Qed.

Lemma keep_neighbour_fold next M t localTCP desired IO0 lo l :
  link_budget next M → (∀ id cfg, desired !! id = Some cfg → GetRouter next id = Some cfg) → 0 <= lo →
  NoDup (n_Id <$> l) → lo + M * Z.of_nat (length l) < 2 ^ 64 →
  let st := foldl (keep_neighbour (C := C) local t localTCP) (mkScan desired IO0 [] lo) l in
  (∀ id, ns_desired st !! id = if decide (id ∈ n_Id <$> l) then None else desired !! id) ∧
  (∀ id, ns_IO st !! id = if decide (id ∈ n_Id <$> l ∧ desired !! id = None) then None else IO0 !! id) ∧
  Forall2 (kept t desired localTCP lo) (filter (λ m, is_Some (desired !! n_Id m)) l) (ns_neighs st) ∧
  lo <= ns_ids st <= lo + M * Z.of_nat (length l).
Proof.
  intros Hbud Hdes Hlo. pose proof Hbud as [HM _]. cbv zeta. induction l as [|m l IH] using rev_ind; intros Hnd Hlt.
  { cbn. split; [|split]; [intros id; by rewrite decide_False by apply not_elem_of_nil| |split; [constructor|lia]].
    intros id. rewrite decide_False; [done|]. by intros [?%not_elem_of_nil _]. }
  rewrite fmap_app in Hnd. apply NoDup_app in Hnd as (Hnd & Hdisj & _). rewrite length_app in *. cbn [length] in *.
  destruct (IH Hnd ltac:(lia)) as (H1 & H2 & H3 & H4). rewrite foldl_snoc.
  set (st := foldl (keep_neighbour local t localTCP) _ l) in *.
  assert (n_Id m ∉ n_Id <$> l) as Hm by (intros Hin; apply (Hdisj _ Hin); by left).
  assert (∀ id, id ∈ n_Id <$> l ++ [m] ↔ id ∈ n_Id <$> l ∨ id = n_Id m) as Hin.
  { intros id. rewrite fmap_app, elem_of_app. cbn. by rewrite list_elem_of_singleton. }
  unfold keep_neighbour. rewrite H1, decide_False by done. rewrite filter_app, filter_cons, filter_nil.
  destruct (desired !! n_Id m) as [cfg|] eqn:Ed.
  - destruct (peer_endpoints_ok next M t (mutual_of localTCP cfg) (n_Id m) cfg (ns_ids st) (n_Eps m) Hbud (Hdes _ _ Ed)
      ltac:(lia) ltac:(lia)) as [Hlk Hids].
    destruct (peer_endpoints local t _ cfg (ns_ids st)) as [eps ids]. cbn [ns_desired ns_IO ns_neighs ns_ids fst snd] in *.
    split; [|split; [|split]].
    + intros id. specialize (Hin id). destruct (decide (id = n_Id m)) as [->|Hne].
      * rewrite lookup_delete_eq, decide_True by tauto. done.
      * rewrite lookup_delete_ne, H1 by done. repeat case_decide; tauto || done.
    + intros id. specialize (Hin id). rewrite H2. destruct (decide (id = n_Id m)) as [->|Hne].
      * rewrite !decide_False; [done|naive_solver congruence|naive_solver congruence].
      * repeat case_decide; tauto || done.
    + rewrite decide_True by done. apply Forall2_app; [done|]. apply Forall2_cons. split; [|constructor].
      split; [done|]. split; [done|]. exists cfg. split; [done|]. cbn. eapply links_ok_mono; [|exact Hlk]. lia.
    + lia.
  - cbn [ns_desired ns_IO ns_neighs ns_ids]. rewrite decide_False by (by intros [? ?]). rewrite app_nil_r.
    split; [|split; [|split; [done|lia]]].
    + intros id. specialize (Hin id). rewrite H1. destruct (decide (id = n_Id m)) as [->|Hne].
      * rewrite decide_False, decide_True by tauto. done.
      * repeat case_decide; tauto || done.
    + intros id. specialize (Hin id). destruct (decide (id = n_Id m)) as [->|Hne].
      * rewrite lookup_delete_eq, decide_True by tauto. done.
      * rewrite lookup_delete_ne, H2 by done. repeat case_decide; tauto || done.
Qed.

Lemma create_neighbour_fold next M t localTCP desired neighs0 lo ids0 l :
  link_budget next M → (∀ id cfg, desired !! id = Some cfg → GetRouter next id = Some cfg) → 0 <= lo <= ids0 →
  Forall (λ id, is_Some (desired !! id)) l → ids0 + M * Z.of_nat (length l) < 2 ^ 64 →
  ∃ new, (foldl (create_neighbour local t localTCP desired) (neighs0, ids0) l).1 = neighs0 ++ new ∧
    Forall2 (λ id m', kept t desired localTCP lo (mkNeighbour id ∅ []) m') l new ∧
    ids0 <= (foldl (create_neighbour local t localTCP desired) (neighs0, ids0) l).2 <= ids0 + M * Z.of_nat (length l).
Proof.
  intros Hbud Hdes Hlo. pose proof Hbud as [HM _]. induction l as [|id l IH] using rev_ind; intros Hl Hlt.
  { exists []. cbn. rewrite app_nil_r. split; [done|]. split; [constructor|lia]. }
  apply Forall_app in Hl as [Hl Hid]. rewrite Forall_singleton in Hid. destruct Hid as [cfg Hcfg].
  rewrite length_app in *. cbn [length] in *. destruct (IH Hl ltac:(lia)) as (new & H1 & H2 & H3). rewrite foldl_snoc.
  destruct (foldl _ (neighs0, ids0) l) as [neighs ids1]. cbn [fst snd] in *. subst neighs. unfold create_neighbour. rewrite Hcfg.
  destruct (peer_endpoints_ok next M t (mutual_of localTCP cfg) id cfg ids1 [] Hbud (Hdes _ _ Hcfg) ltac:(lia) ltac:(lia)) as [Hlk Hids].
  cbn [snd]. destruct (peer_endpoints local t _ cfg ids1) as [eps ids2]. cbn [fst snd] in *. rewrite reconcile_nil in Hlk.
  exists (new ++ [mkNeighbour id ∅ eps]). split; [by rewrite app_assoc|]. split; [|lia].
  apply Forall2_app; [done|]. apply Forall2_cons. split; [|constructor]. split; [done|]. split; [done|].
  exists cfg. split; [done|]. eapply links_ok_mono; [|exact Hlk]. lia.
Qed.

(** What [reconcileRouterState] does, given the peers of the new configuration. *)
Record reconciled (next : CentralCfg) (peers : list NodeId) a a' : Prop := {
  rc_nodup : NoDup (n_Id <$> rs_Neighbours (ny_rs (app_n a')));
  rc_ids : ∀ id, id ∈ n_Id <$> rs_Neighbours (ny_rs (app_n a')) ↔ id ∈ peers ∧ is_Some (GetRouter next id);
  rc_each : ∀ m', m' ∈ rs_Neighbours (ny_rs (app_n a')) → ∃ cfg, GetRouter next (n_Id m') = Some cfg ∧
    let old := GetNeighbour (ny_rs (app_n a)) (n_Id m') in
    n_Routes m' = from_option n_Routes ∅ old ∧
    links_ok (rs_tun (ny_rs (app_n a))) cfg (tcp_obfuscation_of next (ny_LocalId (app_n a)) && rc_TCPObfuscation cfg) (app_linkIds a) (from_option n_Eps [] old) (n_Eps m');
  rc_IO : ∀ id, ny_IO (app_n a') !! id =
    if decide (id ∈ n_Id <$> rs_Neighbours (ny_rs (app_n a)) ∧ ¬ id ∈ n_Id <$> rs_Neighbours (ny_rs (app_n a')))
    then None else ny_IO (app_n a) !! id;
  rc_fake : ∀ id, id ∈ app_fakeTCPPeers a' ↔
    id ∈ peers ∧ tcp_obfuscation_of next (ny_LocalId (app_n a)) && tcp_obfuscation_of next id = true;
  rc_frame : a' = set_links a (set_IO (set_rs (app_n a) (set_Neighbours (ny_rs (app_n a)) (rs_Neighbours (ny_rs (app_n a')))))
    (ny_IO (app_n a'))) (app_linkIds a') (peer_map next) (app_fakeTCPPeers a');
}.

Lemma GetNeighbour_NoDup (s : RouterState NylonEndpoint) m :
  NoDup (n_Id <$> rs_Neighbours s) → m ∈ rs_Neighbours s → GetNeighbour s (n_Id m) = Some m.
Proof.
  intros Hnd Hm. destruct (GetNeighbour s (n_Id m)) as [m'|] eqn:E.
  - apply GetNeighbour_Some in E as [Hin Hid]. f_equal. by apply (NoDup_fmap_unique n_Id (rs_Neighbours s)).
  - apply GetNeighbour_None in E. destruct E. apply list_elem_of_fmap. by exists m.
Qed.

Lemma kept_ids t desired localTCP lo l l' : Forall2 (kept t desired localTCP lo) l l' → n_Id <$> l' = n_Id <$> l.
Proof. induction 1 as [|m m' l l' [Hid _] _ IH]; [done|]. cbn. by rewrite Hid, IH. Qed.

Lemma filter_ids (P : NodeId → Prop) `{!∀ x, Decision (P x)} (l : list (Neighbour NylonEndpoint)) :
  n_Id <$> filter (λ m, P (n_Id m)) l = filter P (n_Id <$> l).
Proof. induction l as [|m l IH]; [done|]. rewrite fmap_cons, !filter_cons. case_decide; cbn; by rewrite IH. Qed.

(** The ids of the neighbours that are created: those wanted that are not there yet. *)
Lemma created_ids (desired left : gmap NodeId RouterCfg) (old peers : list NodeId) :
  (∀ id cfg, left !! id = Some cfg ↔ desired !! id = Some cfg ∧ id ∉ old) → (∀ id, is_Some (desired !! id) → id ∈ peers) →
  let ids := Sort (map_range left).*1 in
  (∀ id, id ∈ ids ↔ is_Some (desired !! id) ∧ id ∉ old) ∧ NoDup ids ∧ (length ids <= length peers)%nat.
Proof.
  intros Hleft Hpeers ids.
  assert (∀ id, id ∈ ids ↔ is_Some (desired !! id) ∧ id ∉ old) as Hids.
  { intros id. unfold ids. rewrite elem_of_Sort, list_elem_of_fmap. split.
    - intros ([k cfg] & -> & Hin%elem_of_map_range). apply Hleft in Hin as [Hin ?]. split; [by eexists|done].
    - intros [[cfg Hc] Hn]. exists (id, cfg). split; [done|]. apply elem_of_map_range, Hleft. done. }
  assert (NoDup ids) as Hnd by (unfold ids; rewrite Sort_perm; apply NoDup_map_range_keys).
  split; [done|]. split; [done|]. apply submseteq_length, NoDup_submseteq; [done|]. intros id [Hd _]%Hids. by apply Hpeers.
Qed.

Lemma reconcileRouterState_spec next M peers a :
  link_budget next M → 0 <= app_linkIds a →
  app_linkIds a + M * Z.of_nat (length (rs_Neighbours (ny_rs (app_n a))) + length peers) < 2 ^ 64 →
  NoDup (n_Id <$> rs_Neighbours (ny_rs (app_n a))) → GetPeers next (ny_LocalId (app_n a)) = Some peers →
  ∃ a', reconcileRouterState local next a = Some a' ∧ reconciled next peers a a'.
Proof.
  intros Hbud Hlo Hlt Hnd Hp. pose proof Hbud as [HM _]. unfold reconcileRouterState. rewrite Hp. cbn [mbind option_bind].
  fold (tcp_obfuscation_of next (ny_LocalId (app_n a))). set (localTCP := tcp_obfuscation_of next _).
  pose proof (desired_spec next localTCP peers) as HD. destruct (foldl (desired_peer next localTCP) (∅, ∅) peers) as [desired fake].
  destruct HD as [HD1 HD2]. cbn [fst snd] in HD1, HD2.
  assert (∀ id cfg, desired !! id = Some cfg → GetRouter next id = Some cfg) as Hdes by (intros id cfg Hd; by apply HD1 in Hd as [_ ?]).
  set (s := ny_rs (app_n a)) in *. set (old := rs_Neighbours s) in *.
  destruct (keep_neighbour_fold next M (rs_tun s) localTCP desired (ny_IO (app_n a)) (app_linkIds a) old Hbud Hdes Hlo Hnd ltac:(lia))
    as (K1 & K2 & K3 & K4).
  set (st := foldl (keep_neighbour local (rs_tun s) localTCP) _ old) in *.
  assert (∀ id cfg, ns_desired st !! id = Some cfg ↔ desired !! id = Some cfg ∧ id ∉ n_Id <$> old) as Hleft.
  { intros id cfg. rewrite K1. case_decide; naive_solver. }
  destruct (created_ids desired (ns_desired st) (n_Id <$> old) peers Hleft) as (Hids & Hndi & Hlen); [intros id [cfg Hc%HD1]; apply Hc|].
  set (ids := Sort (map_range (ns_desired st)).*1) in *.
  destruct (create_neighbour_fold next M (rs_tun s) localTCP (ns_desired st) (ns_neighs st) (app_linkIds a) (ns_ids st) ids Hbud)
    as (new & C1 & C2 & C3); [intros id cfg Hd; apply Hdes; by apply Hleft in Hd as [? _]|lia| |nia|].
  { apply Forall_forall. intros id [[cfg Hc] Hn]%Hids. exists cfg. by apply Hleft. }
  destruct (foldl (create_neighbour _ _ _ _) (ns_neighs st, ns_ids st) ids) as [neighs ids'] eqn:Efold. cbn [fst snd] in C1, C3. subst neighs.
  assert (n_Id <$> ns_neighs st = filter (λ id, is_Some (desired !! id)) (n_Id <$> old)) as HI.
  { rewrite (kept_ids _ _ _ _ _ _ K3). exact (filter_ids (λ id, is_Some (desired !! id)) old). }
  assert (n_Id <$> new = ids) as HI2 by (clear -C2; induction C2 as [|id m' l l' [Hid _] _ IH]; [done|]; cbn; by rewrite Hid, IH).
  assert (∀ id, id ∈ n_Id <$> ns_neighs st ++ new ↔ is_Some (desired !! id)) as Hall.
  { intros id. rewrite fmap_app, HI, HI2, elem_of_app, list_elem_of_filter, Hids. destruct (decide (id ∈ n_Id <$> old)); tauto. }
  eexists. split; [done|]. split; [..|cbn; done]; cbn; fold s; fold old; [|..|exact HD2].
  - rewrite fmap_app, HI, HI2. apply NoDup_app. split; [by apply NoDup_filter|]. split; [|done].
    intros id [_ Hin]%list_elem_of_filter [_ Hn]%Hids. done.
  - intros id. rewrite Hall. split; [intros [cfg Hc%HD1]; by destruct Hc; split; [|eexists]|].
    intros [Hin [cfg Hc]]. exists cfg. by apply HD1.
  - intros m'. rewrite elem_of_app. intros [[i Hi]%list_elem_of_lookup|[i Hi]%list_elem_of_lookup].
    + destruct (Forall2_lookup_r _ _ _ _ _ K3 Hi) as (m & Hm & Hid & Hr & cfg & Hc & Hlk).
      apply list_elem_of_lookup_2, list_elem_of_filter in Hm as [_ Hm]. exists cfg. rewrite Hid. split; [by apply Hdes|].
      by rewrite (GetNeighbour_NoDup s m Hnd Hm).
    + destruct (Forall2_lookup_r _ _ _ _ _ C2 Hi) as (id & Hm & Hid & Hr & cfg & Hc & Hlk).
      cbn in Hid, Hr, Hlk. exists cfg. rewrite Hid. apply Hleft in Hc as [Hc Hn]. split; [by apply Hdes|].
      by rewrite (proj2 (GetNeighbour_None s id) Hn).
  - intros id. rewrite K2. assert (desired !! id = None ↔ ¬ id ∈ n_Id <$> ns_neighs st ++ new) as Hno by (by rewrite Hall, eq_None_not_Some).
    clear -Hno. repeat case_decide; tauto.
Qed.

(** C34: after a configuration change the neighbours are exactly the routers among the peers,
    each once.  One that was there before keeps what it announced and the links that the
    configuration still wants or that its peer opened, with their measurements; further
    links are new and are exactly the missing ones.  The pending messages of neighbours
    that went away are dropped, those of the others stay. *)
Theorem neighbours_reconciled next M peers a :
  link_budget next M → 0 <= app_linkIds a →
  app_linkIds a + M * Z.of_nat (length (rs_Neighbours (ny_rs (app_n a))) + length peers) < 2 ^ 64 →
  NoDup (n_Id <$> rs_Neighbours (ny_rs (app_n a))) → GetPeers next (ny_LocalId (app_n a)) = Some peers →
  ∃ a', reconcileRouterState local next a = Some a' ∧ reconciled next peers a a'.
Proof. apply reconcileRouterState_spec. Qed.

End neighbours.

(** ** A concrete change *)

Module NeighbourDemo.

#[local] Existing Instances sorted_range plain_unicode PlainText.plain_text.
#[local] Instance host : Host := {| InterfaceByName _ := None; InterfaceByIndex _ := None; FamilyReachable _ := true |}.

Definition local : LocalCfg :=
  mkLocalCfg 1 "a" 57175 None false false [] "" 1280 "" [] [] [] [] [] [] [] [] 0 0 0 false "" false.
Definition router (id : NodeId) (key : Z) (eps : list string) : RouterCfg := mkRouterCfg (mkNodeCfg id key [] [] 0) eps false.
Definition next : CentralCfg := mkCentralCfg [router "a" 1 []; router "b" 2 ["x"; "y"]; router "c" 3 ["z"]] [] ["a, b"; "a, c"] 0 [] None.

(** Neighbour [b] has links to [w] and [x] and one that it opened itself; [d] goes. *)
Definition link (value : string) (remote : bool) (id : Z) : NylonEndpoint :=
  NewEndpoint (NewDynamicEndpoint value) remote None DefaultRouterTunables id.
Definition n0 : Nylon NylonEndpoint (gmap Prefix) map_cache :=
  mkNylon (mkRouterState DefaultRouterTunables "a" ∅ ∅ ∅
      [mkNeighbour "b" ∅ [link "w" false 1; link "x" false 2; link "v" true 3]; mkNeighbour "d" ∅ [link "u" false 4]] ∅)
    next "a" false "" ∅ ∅ ∅ ∅ None None.
Definition app : App := mkApp n0 10 ∅ ∅ ∅ 0%nat ∅ ∅ [] [] 0%nat ∅ ∅ [].

Lemma neighbours_reconciled_witness :
  ∃ a', reconcileRouterState local next app = Some a' ∧ reconciled local next ["b"; "c"] app a'.
Proof.
  apply (neighbours_reconciled local next 4 ["b"; "c"] app); [|vm_compute; discriminate|vm_compute; reflexivity| |vm_compute; reflexivity].
  - split; [lia|]. intros id cfg Hc. unfold GetRouter in Hc. apply fmap_Some in Hc as ([i r] & Hf & ->).
    apply list_find_Some in Hf as (Hi%list_elem_of_lookup_2 & _). cbn [next c_Routers] in Hi. rewrite !elem_of_cons, elem_of_nil in Hi.
    destruct Hi as [->|[->|[->|[]]]]; vm_compute; discriminate.
  - apply (bool_decide_unpack _). vm_compute. reflexivity.
Defined.

Example neighbour_demo :
  (λ a, (λ m, (n_Id m, (λ ep, (dyn_Value (ep_DynEP ep), ep_LinkId ep)) <$> n_Eps m)) <$> rs_Neighbours (ny_rs (app_n a))) <$>
    reconcileRouterState local next app =
  Some [("b", [("x", 2); ("v", 3); ("y", 12)]); ("c", [("z", 13)])].
Proof. vm_compute. reflexivity. Qed.

End NeighbourDemo.
