(* ===== verification/ApplyProps.v ===== *)
(** Applying a configuration, all parts together: a validated configuration is applied
    without a panic, and afterwards neighbours, device, health checks and forwarding
    tables are those of the new configuration. *)

From S2P Require Import Prelude Bytes NetIP Float64 Metric Routing Endpoint EndpointProps RouterAlgo RouterFacts RouterInv RouterOps RouterProps Config NodeIds External RouterIO Forwarding Flush RouterEvents Unicast Graph GraphProps Validation ValidationProps SysRoutes Reconcile HealthProps DeviceProps ReconcileProps.

(** ** Configurations that differ in health checks only *)

Definition same_node (n n' : NodeCfg) : Prop :=
  nc_Id n' = nc_Id n ∧ nc_PubKey n' = nc_PubKey n ∧ nc_Addresses n' = nc_Addresses n ∧ nc_NumericId n' = nc_NumericId n ∧
  GetPrefix <$> nc_Prefixes n' = GetPrefix <$> nc_Prefixes n.

Record same_network (c c' : CentralCfg) : Prop := {
  sn_routers : Forall2 (λ r r', same_node (rc_Node r) (rc_Node r')) (c_Routers c) (c_Routers c');
  sn_clients : Forall2 (λ r r', same_node (cc_Node r) (cc_Node r')) (c_Clients c) (c_Clients c');
  sn_graph : c_Graph c' = c_Graph c;
  sn_excludes : c_ExcludeIPs c' = c_ExcludeIPs c;
}.

Lemma same_node_refl n : same_node n n.
Proof. by repeat split. Qed.

Lemma Forall2_replace {A} (R : A → A → Prop) (l : list A) i x y : (∀ z, R z z) → l !! i = Some x → R x y → Forall2 R l (<[i := y]> l).
Proof.
  intros Hr Hi Hxy. apply Forall2_same_length_lookup. split; [by rewrite length_insert|]. intros j u v Hu Hv.
  destruct (decide (i = j)) as [<-|Hne].
  - rewrite list_lookup_insert_eq in Hv by (by eapply lookup_lt_Some). by simplify_eq.
  - rewrite list_lookup_insert_ne in Hv by done. by simplify_eq.
Qed.

Lemma put_same_network c id node ps : TryGetNode c id = Some node → GetPrefix <$> ps = GetPrefix <$> nc_Prefixes node →
  same_network c (put_prefixes c id ps).
Proof.
  intros Hn Hps. assert (same_node node (set_prefixes node ps)) as Hs by (by repeat split). unfold put_prefixes.
  assert (∀ l : list RouterCfg, Forall2 (λ r r', same_node (rc_Node r) (rc_Node r')) l l) as Hr1
    by (intros l; apply Forall_Forall2_diag, Forall_true; intros; apply same_node_refl).
  assert (∀ l : list ClientCfg, Forall2 (λ r r', same_node (cc_Node r) (cc_Node r')) l l) as Hr2
    by (intros l; apply Forall_Forall2_diag, Forall_true; intros; apply same_node_refl).
  unfold TryGetNode in Hn. destruct (list_find _ (c_Routers c)) as [[i r]|] eqn:Er; [|destruct (list_find _ (c_Clients c)) as [[i r]|] eqn:Ec; [|done]];
    injection Hn as <-; split; try done; cbn.
  - apply list_find_Some in Er as (Hi & _). eapply Forall2_replace; [intros; apply same_node_refl|done|done].
  - apply list_find_Some in Ec as (Hi & _). eapply Forall2_replace; [intros; apply same_node_refl|done|done].
Qed.

Lemma find_Forall2 {A} (R : A → A → Prop) (f : A → NodeId) l l' id : Forall2 R l l' → (∀ x y, R x y → f y = f x) →
  match list_find (λ x, f x = id) l, list_find (λ x, f x = id) l' with
  | Some (i, x), Some (j, y) => i = j ∧ R x y
  | None, None => True
  | _, _ => False
  end.
Proof.
  intros H Hf. induction H as [|x y l l' Hxy _ IH]; [done|]. cbn. rewrite (Hf x y Hxy). case_decide; [done|].
  destruct (list_find _ l) as [[i u]|], (list_find _ l') as [[j v]|]; cbn; try done. destruct IH as [-> ?]. done.
Qed.

Section same.
Context (c c' : CentralCfg) (Hsame : same_network c c').

Lemma same_TryGetNode id : match TryGetNode c id, TryGetNode c' id with
  | Some n, Some n' => same_node n n' | None, None => True | _, _ => False end.
Proof.
  unfold TryGetNode.
  pose proof (find_Forall2 _ (λ r, rc_Id r) _ _ id (sn_routers _ _ Hsame) ltac:(by intros ? ? (? & _))) as H1.
  pose proof (find_Forall2 _ (λ r, cc_Id r) _ _ id (sn_clients _ _ Hsame) ltac:(by intros ? ? (? & _))) as H2.
  destruct (list_find _ (c_Routers c)) as [[i u]|], (list_find _ (c_Routers c')) as [[j v]|]; try done; [by destruct H1|].
  destruct (list_find _ (c_Clients c)) as [[i u]|], (list_find _ (c_Clients c')) as [[j v]|]; try done. by destruct H2.
Qed.

Lemma same_known id : is_Some (GetNode c' id) ↔ is_Some (GetNode c id).
Proof.
  pose proof (same_TryGetNode id) as H. unfold GetNode. by destruct (TryGetNode c id), (TryGetNode c' id).
Qed.

Lemma same_key id : key_of c' id = key_of c id.
Proof.
  pose proof (same_TryGetNode id) as H. unfold key_of, GetNode. destruct (TryGetNode c id), (TryGetNode c' id); try done.
  destruct H as (_ & Hk & _). cbn. by rewrite Hk.
Qed.

Lemma same_ids : (λ r, rc_Id r) <$> c_Routers c' = (λ r, rc_Id r) <$> c_Routers c ∧ (λ r, cc_Id r) <$> c_Clients c' = (λ r, cc_Id r) <$> c_Clients c.
Proof.
  destruct Hsame as [Hr Hc _ _]. split.
  - clear Hsame Hc. induction Hr as [|r r' l l' (Hi & _) _ IH]; [done|]. cbn. by rewrite Hi, IH.
  - clear Hsame Hr. induction Hc as [|r r' l l' (Hi & _) _ IH]; [done|]. cbn. by rewrite Hi, IH.
Qed.

Lemma same_BuildNodeIdMap : BuildNodeIdMap c' = BuildNodeIdMap c.
Proof.
  unfold BuildNodeIdMap.
  assert (Forall2 same_node (GetNodes c) (GetNodes c')) as H.
  { unfold GetNodes. destruct Hsame as [Hr Hc _ _]. apply Forall2_app; by apply Forall2_fmap. }
  assert (∀ l l' st, Forall2 same_node l l' → foldl collect st l' = foldl collect st l) as Hfold.
  { intros l l' st Hl. revert st. induction Hl as [|n n' l l' (Hi & _ & _ & Hn & _) _ IH]; intros st; [done|].
    cbn [foldl]. rewrite IH. f_equal. unfold collect. by rewrite Hi, Hn. }
  by rewrite (Hfold _ _ _ H).
Qed.

Lemma same_GetPeers `{MR : MapRange} `{U : Unicode} id : GetPeers c' id = GetPeers c id.
Proof. unfold GetPeers. destruct same_ids as [-> ->]. by rewrite (sn_graph _ _ Hsame). Qed.

Lemma same_IsRouter id : IsRouter c' id = IsRouter c id.
Proof.
  unfold IsRouter. destruct same_ids as [Hr _]. apply eq_true_iff_eq. rewrite !existsb_exists.
  assert (∀ l : list RouterCfg, (∃ x, In x l ∧ bool_decide (rc_Id x = id) = true) ↔ id ∈ (λ r, rc_Id r) <$> l) as H.
  { intros l. rewrite list_elem_of_fmap. setoid_rewrite bool_decide_eq_true. setoid_rewrite list_elem_of_In. naive_solver. }
  by rewrite !H, Hr.
Qed.

Lemma same_IsClient id : IsClient c' id = IsClient c id.
Proof.
  unfold IsClient. destruct same_ids as [_ Hr]. apply eq_true_iff_eq. rewrite !existsb_exists.
  assert (∀ l : list ClientCfg, (∃ x, In x l ∧ bool_decide (cc_Id x = id) = true) ↔ id ∈ (λ r, cc_Id r) <$> l) as H.
  { intros l. rewrite list_elem_of_fmap. setoid_rewrite bool_decide_eq_true. setoid_rewrite list_elem_of_In. naive_solver. }
  by rewrite !H, Hr.
Qed.

Lemma same_GetRouter id : is_Some (GetRouter c' id) ↔ is_Some (GetRouter c id).
Proof.
  unfold GetRouter. pose proof (find_Forall2 _ (λ r, rc_Id r) _ _ id (sn_routers _ _ Hsame) ltac:(by intros ? ? (? & _))) as H1.
  by destruct (list_find _ (c_Routers c)) as [[i u]|], (list_find _ (c_Routers c')) as [[j v]|].
Qed.

End same.

(** ** Nodes and prefixes of a configuration *)

Lemma IsRouter_GetRouter (c : CentralCfg) id : IsRouter c id = true ↔ is_Some (GetRouter c id).
Proof.
  unfold IsRouter, GetRouter. rewrite existsb_exists, fmap_is_Some. split.
  - intros (r & Hr%list_elem_of_In & Hid%bool_decide_eq_true). by eapply (list_find_elem_of (λ r, rc_Id r = id)).
  - intros [[i r] (Hi & Hid & _)%list_find_Some]. exists r. split; [|by apply bool_decide_eq_true].
    apply list_elem_of_In. by eapply list_elem_of_lookup_2.
Qed.

Lemma GetRouter_GetNode (c : CentralCfg) id : is_Some (GetRouter c id) → is_Some (GetNode c id).
Proof.
  unfold GetRouter, GetNode, TryGetNode. rewrite fmap_is_Some. intros [[i r] ->]. by eexists.
Qed.

Lemma all_nodes_known (c : CentralCfg) id : id ∈ all_nodes c → is_Some (GetNode c id) ∧ (IsClient c id = true ∨ is_Some (GetRouter c id)).
Proof.
  unfold all_nodes. intros [(r & -> & Hr)%list_elem_of_fmap|(r & -> & Hr)%list_elem_of_fmap]%elem_of_app.
  - assert (is_Some (GetRouter c (rc_Id r))) as H.
    { unfold GetRouter. rewrite fmap_is_Some. by eapply (list_find_elem_of (λ x, rc_Id x = rc_Id r)). }
    split; [by apply GetRouter_GetNode|by right].
  - split.
    + unfold GetNode, TryGetNode. destruct (list_find _ (c_Routers c)) as [[]|]; [by eexists|].
      destruct (list_find_elem_of (λ x, cc_Id x = cc_Id r) (c_Clients c) r Hr eq_refl) as [[i x] ->]. by eexists.
    + left. unfold IsClient. apply existsb_exists. exists r. split; [by apply list_elem_of_In|by apply bool_decide_eq_true].
Qed.

Lemma elem_of_GetPrefixes `{MR : MapRange} c p : p ∈ GetPrefixes c ↔ ∃ n, n ∈ GetNodes c ∧ p ∈ GetPrefix <$> nc_Prefixes n.
Proof.
  unfold GetPrefixes.
  set (add := λ (m : gmap Prefix bool) (ps : list PrefixHealth), foldl (λ m p, <[GetPrefix p := true]> m) m ps).
  assert (∀ ps m, is_Some (add m ps !! p) ↔ is_Some (m !! p) ∨ p ∈ GetPrefix <$> ps) as Hadd.
  { induction ps as [|h ps IH]; intros m; cbn; [rewrite elem_of_nil; tauto|].
    change (is_Some (add (<[GetPrefix h := true]> m) ps !! p) ↔ is_Some (m !! p) ∨ p ∈ GetPrefix h :: (GetPrefix <$> ps)).
    rewrite IH, lookup_insert_is_Some', elem_of_cons. naive_solver. }
  assert (∀ {A} (f : A → NodeCfg) l m, is_Some (foldl (λ m r, add m (nc_Prefixes (f r))) m l !! p) ↔
    is_Some (m !! p) ∨ ∃ n, n ∈ f <$> l ∧ p ∈ GetPrefix <$> nc_Prefixes n) as Hfold.
  { intros A f l. induction l as [|r l IH]; intros m; cbn.
    - setoid_rewrite elem_of_nil. naive_solver.
    - rewrite IH, Hadd. setoid_rewrite elem_of_cons. naive_solver. }
  rewrite list_elem_of_fmap. transitivity (is_Some (foldl (λ m r, add m (nc_Prefixes (cc_Node r)))
    (foldl (λ m r, add m (nc_Prefixes (rc_Node r))) ∅ (c_Routers c)) (c_Clients c) !! p)).
  { split; [intros ([q b] & -> & Hin%elem_of_map_range); by eexists|]. intros [b Hb]. exists (p, b). by rewrite elem_of_map_range. }
  rewrite !Hfold, lookup_empty. unfold GetNodes. setoid_rewrite elem_of_app. split.
  - intros [[[]%is_Some_None|(n & ? & ?)]|(n & ? & ?)]; exists n; auto.
  - intros (n & [?|?] & ?); [left; right|right]; by exists n.
Qed.

Lemma same_GetPrefixes `{MR : MapRange} c c' p : same_network c c' → p ∈ GetPrefixes c' → p ∈ GetPrefixes c.
Proof.
  intros [Hr Hc _ _]. rewrite !elem_of_GetPrefixes. intros (n' & Hn' & Hp).
  assert (Forall2 same_node (GetNodes c) (GetNodes c')) as H by (unfold GetNodes; apply Forall2_app; by apply Forall2_fmap).
  apply list_elem_of_lookup in Hn' as [i Hi]. destruct (Forall2_lookup_r _ _ _ _ _ H Hi) as (n & Hn & (_ & _ & _ & _ & Heq)).
  exists n. split; [by eapply list_elem_of_lookup_2|]. by rewrite <-Heq.
Qed.

Section peers.
Context `{MR : MapRange} `{U : Unicode}.

Lemma expands_node nodes graph s n : expands nodes graph s n → n ∈ nodes.
Proof. by induction 1. Qed.

Lemma GetPeers_nodes (c : CentralCfg) id peers i : GetPeers c id = Some peers → i ∈ peers → i ∈ all_nodes c ∧ i ≠ id.
Proof.
  intros HP Hi. assert (i ≠ EmptyString) as Hne.
  { unfold GetPeers in HP. destruct (ParseGraph _ _) as [|graph]; [done|]. injection HP as <-.
    apply list_elem_of_bind in Hi as (e & Hi & _). unfold edge_peer in Hi.
    case_decide as Hd; [|by apply not_elem_of_nil in Hi]. apply list_elem_of_singleton in Hi as ->. apply Hd. }
  apply (elem_of_GetPeers c id peers i HP Hne) in Hi as [Hid (x & y & _ & _ & Hy)]. split; [by eapply expands_node|done].
Qed.

End peers.

(** ** The system routes *)

Section defined.
Context {S : Type} `{IS : IPSets S} `{MR : MapRange}.

Lemma MakeSet_defined ps : Forall (λ p, pfx_IsValid p = true) ps → is_Some (MakeSet (S := S) ps).
Proof.
  unfold MakeSet. induction ps as [|p ps IH] using rev_ind; intros Hps; [by eexists|].
  apply Forall_app in Hps as [Hps Hp]. rewrite Forall_singleton in Hp. destruct (IH Hps) as [s Hs].
  rewrite foldl_snoc, Hs. cbn. rewrite Hp. by eexists.
Qed.

Lemma ComputeSysRouteTable_defined lid pol (routes : gmap Prefix SelRoute) :
  Forall (λ p, pfx_IsValid p = true) (rp_ExcludeIPs pol) → Forall (λ p, pfx_IsValid p = true) (rp_UnexcludeIPs pol) →
  Forall (λ p, pfx_IsValid p = true) (rp_LocalExcludeIPs pol) → map_Forall (λ p _, pfx_IsValid p = true) routes →
  is_Some (ComputeSysRouteTable (S := S) lid pol routes).
Proof.
  intros H1 H2 H3 Hr. unfold ComputeSysRouteTable. rewrite routes_lists.
  assert (Forall (λ p, pfx_IsValid p = true) (map_range routes).*1) as Hall.
  { apply Forall_fmap, Forall_forall. intros [p r] Hin%elem_of_map_range. by apply (Hr p r). }
  assert (Forall (λ p, pfx_IsValid p = true) (filter (λ x, sr_Nh x.2 = lid) (map_range routes)).*1) as Hself.
  { apply Forall_fmap, Forall_forall. intros [p r] [_ Hin%elem_of_map_range]%list_elem_of_filter. by apply (Hr p r). }
  destruct (MakeSet_defined _ H1) as [e1 ->]. destruct (MakeSet_defined DefaultLocalExcludes) as [e2 ->]; [by repeat constructor|].
  destruct (MakeSet_defined _ Hself) as [e3 ->]. destruct (MakeSet_defined _ H2) as [e4 ->].
  destruct (MakeSet_defined _ H3) as [e5 ->]. destruct (MakeSet_defined _ Hall) as [f ->]. by eexists.
Qed.

End defined.

(** ** The whole *)

Section apply.
Context `{MR : MapRange} `{U : Unicode} `{TP : TextParsers} `{NT : NetText} `{NTL : !NetTextLaws} `{HO : Host} `{PF : Platform}
  {T : Type → Type} `{BT : BartTable T} `{BTL : !BartTableLaws T} {C : Type → Type → Type} `{TC : TTLCache C} {S : Type} `{IS : IPSets S}.
Context (local : LocalCfg) (config_Get : string → option AddrPort) (Clone : ReadCfg → option ReadCfg)
  (prepare : StdNetEndpoint → option bool) (e : Env).
Hypothesis config_valid : ∀ s ap, config_Get s = Some ap → ap_IsValid ap = true.
Hypothesis local_valid : Forall (λ p, pfx_IsValid p = true) (lc_UnexcludeIPs local) ∧ Forall (λ p, pfx_IsValid p = true) (lc_ExcludeIPs local).
Implicit Types (a : App (T := T) (C := C)) (n : Nylon NylonEndpoint T C).

(** A node that runs its configuration: the tables follow the routes, the device has the
    peers of the configuration, the prefixes are advertised with their checks, and the
    next hops in use are peers or the node itself. *)
Record node_ok a : Prop := {
  no_good : good (app_n a);
  no_distinct : NoDup (n_Id <$> rs_Neighbours (ny_rs (app_n a)));
  no_device : device_ok a;
  no_checked : prefixes_checked a;
  no_self : ∀ k, key_of (ny_CentralCfg (app_n a)) (ny_LocalId (app_n a)) = Some k → ny_peers (app_n a) !! k = None;
  no_keys : ∀ i k, app_Peers a !! i = Some k → key_of (ny_CentralCfg (app_n a)) i = Some k;
  no_hops : ∀ p r, rs_Routes (ny_rs (app_n a)) !! p = Some r → sr_Metric r ≠ INF →
    sr_Nh r = ny_LocalId (app_n a) ∨ is_Some (app_Peers a !! sr_Nh r);
}.

(** What validation does not check of the new configuration: its prefixes are canonical,
    keys are not shared and peers that stay keep theirs, the clients the node
    answers for remain its peers, and links and peers fit. *)
Record next_ok a (next : CentralCfg) (peers : list NodeId) (M : Z) : Prop := {
  nk_peers : GetPeers next (ny_LocalId (app_n a)) = Some peers;
  nk_canonical : ∀ p, p ∈ GetPrefixes next → canonical p;
  nk_distinct : ∀ i j k, key_of next i = Some k → key_of next j = Some k → i = j;
  nk_same : ∀ i k, app_Peers a !! i = Some k → i ∈ peers → key_of next i = Some k;
  nk_adverts : ∀ p adv, rs_Advertised (ny_rs (app_n a)) !! p = Some adv → adv_NodeId adv = ny_LocalId (app_n a) ∨ adv_NodeId adv ∈ peers;
  nk_MaxPeers : Z.of_nat (length peers) <= MaxPeers;
  nk_budget : link_budget local next M;
  nk_ids : 0 <= app_linkIds a ∧ app_linkIds a + M * Z.of_nat (length (rs_Neighbours (ny_rs (app_n a))) + length peers) < 2 ^ 64;
}.

Lemma SyncSystemState_spec a : is_Some (GetRouter (ny_CentralCfg (app_n a)) (ny_LocalId (app_n a))) →
  Forall (λ p, pfx_IsValid p = true) (c_ExcludeIPs (ny_CentralCfg (app_n a))) →
  map_Forall (λ p _, canonical p) (rs_Routes (ny_rs (app_n a))) →
  ∃ aliases routes cmds, SyncSystemState local (S := S) a = Done (set_sys a aliases routes cmds).
Proof.
  intros [r Hr] He Hc. unfold SyncSystemState. destruct (lc_NoNetConfigure local).
  { exists (app_Aliases a), (app_Routes a), (app_sys a). by destruct a. }
  rewrite Hr. unfold syncSystemRoutes. cbn [app_n syncAliases set_sys].
  destruct (ComputeSysRouteTable_defined (S := S) (ny_LocalId (app_n a)) (route_policy local (ny_CentralCfg (app_n a))) (rs_Routes (ny_rs (app_n a))))
    as [table ->]; [done|apply local_valid|apply local_valid|by intros p x [? _]%Hc|]. by eexists _, _, _.
Qed.

(** A route computation on tables that follow the routes except for next hops that are gone. *)
Lemma compute_good n : (∀ p, p ∈ GetPrefixes (ny_CentralCfg n) → canonical p) → sane canonical (ny_CentralCfg n) (ny_rs n) →
  (∀ p, canonical p → stale (ny_rs n) p ∨ mirrors n (rs_Routes (ny_rs n)) p) →
  ∃ n', run (env_now e) n (ComputeRoutes e (ny_rs n)) = Some n' ∧ good n' ∧ same_frame (set_rs n (ComputeRoutes e (ny_rs n)).1) n'.
Proof.
  intros Hc Hs Hm. unfold run. set (s' := (ComputeRoutes e (ny_rs n)).1).
  destruct (perform_all_known (env_now e) (ComputeRoutes e (ny_rs n)).2 (set_rs n s')) as (n' & Hn' & Hf).
  { by apply (act_known_compute canonical). }
  exists n'. split; [done|]. split; [|done]. pose proof Hf as (Hrs & Hc' & _). cbn in Hrs, Hc'. apply good_intro; rewrite ?Hrs, ?Hc'; [done|by apply sane_compute|].
  eapply (compute_mirror_stale e (ny_rs n) (set_rs n s')); [apply Hs| |exact Hn']. exact Hm.
Qed.

Lemma entry_of_finite n r : sr_Metric r ≠ INF →
  entry_of n r = (node ← GetNode (ny_CentralCfg n) (sr_Nh r); Some (mkEntry (sr_Nh r) (LookupPeer n (nc_PubKey node)) false)).
Proof. intros Hf%Z.eqb_neq. unfold entry_of. by rewrite Hf. Qed.

Lemma LookupPeer_key n id node : GetNode (ny_CentralCfg n) id = Some node → key_of (ny_CentralCfg n) id = Some (nc_PubKey node).
Proof. intros H. unfold key_of. by rewrite H. Qed.

(** The tables of the old configuration still follow the routes under the new one, except
    where the next hop is not a peer any more. *)
Lemma mirrors_moved a n (peers : list NodeId) : node_ok a →
  ny_ForwardTable n = ny_ForwardTable (app_n a) → ny_ExitTable n = ny_ExitTable (app_n a) → ny_LocalId n = ny_LocalId (app_n a) →
  rs_Routes (ny_rs n) = rs_Routes (ny_rs (app_n a)) →
  is_Some (GetNode (ny_CentralCfg n) (ny_LocalId n)) →
  (∀ k, key_of (ny_CentralCfg n) (ny_LocalId n) = Some k → ny_peers n !! k = None) →
  (∀ i k w, app_Peers a !! i = Some k → i ∈ peers → ny_peers (app_n a) !! k = Some w →
     key_of (ny_CentralCfg n) i = Some k ∧ ny_peers n !! k = Some w) →
  (∀ i, i ∈ n_Id <$> rs_Neighbours (ny_rs n) → i ∈ peers) →
  (∀ p adv, rs_Advertised (ny_rs n) !! p = Some adv → adv_NodeId adv = ny_LocalId n ∨ adv_NodeId adv ∈ peers) →
  ∀ p, canonical p → stale (ny_rs n) p ∨ mirrors n (rs_Routes (ny_rs n)) p.
Proof.
  intros Hok Hf Hx Hl HR [self Hself] Hkey Hkept Hneigh Hadv p Hp.
  pose proof (good_mirror _ (no_good _ Hok)) as Hm. specialize (Hm p Hp). unfold mirrors in Hm |- *. rewrite Hf, Hx, HR.
  destruct (rs_Routes (ny_rs (app_n a)) !! p) as [r|] eqn:Er; [|by right].
  destruct (decide (sr_Metric r = INF)) as [Hi|Hfin].
  { right. unfold exit_of, is_exit, entry_of in *. by rewrite Hi, Z.eqb_refl in *. }
  assert (∀ n1 n2 : Nylon NylonEndpoint T C, ny_LocalId n1 = ny_LocalId n2 → entry_of n1 r = entry_of n2 r → exit_of n1 r = exit_of n2 r) as Hexit.
  { intros n1 n2 H1 H2. unfold exit_of, is_exit. by rewrite H1, H2. }
  assert (entry_of n r = entry_of (app_n a) r → is_Some (entry_of n r) ∧ bt_Get (ny_ForwardTable (app_n a)) p = entry_of n r ∧
    bt_Get (ny_ExitTable (app_n a)) p = exit_of n r) as Hdone.
  { intros He. rewrite (Hexit n (app_n a) Hl He), He. exact Hm. }
  destruct Hm as ([en Hen] & _). rewrite !entry_of_finite in Hen by done.
  destruct (GetNode (ny_CentralCfg (app_n a)) (sr_Nh r)) as [old|] eqn:Eold; [|done].
  pose proof (LookupPeer_key _ _ _ Eold) as Hk.
  rewrite (entry_of_finite (app_n a)) in Hdone by done. rewrite (entry_of_finite n) in Hdone |- * by done.
  destruct (decide (sr_Nh r = ny_LocalId (app_n a))) as [Heq|Hne].
  - right. apply Hdone. rewrite Eold, Heq, <-Hl, Hself. cbn. unfold LookupPeer.
    rewrite (Hkey (nc_PubKey self)) by (by apply LookupPeer_key). rewrite Heq in Hk. by rewrite (no_self _ Hok _ Hk).
  - destruct (no_hops _ Hok p r Er Hfin) as [?|[k Hpk]]; [done|]. pose proof (no_keys _ Hok _ _ Hpk) as Hk'. simplify_eq.
    destruct (decide (sr_Nh r ∈ peers)) as [Hin|Hnin].
    + right. apply Hdone. rewrite Eold. destruct (proj2 (dv_dom _ (no_device _ Hok) (nc_PubKey old))) as [w Hw]; [by eexists|].
      destruct (Hkept _ _ w Hpk Hin Hw) as [Hk2 Hw2]. unfold key_of in Hk2. destruct (GetNode (ny_CentralCfg n) (sr_Nh r)) as [node|]; [|done].
      cbn in Hk2 |- *. injection Hk2 as ->. unfold LookupPeer. by rewrite Hw, Hw2.
    + left. exists r. rewrite HR. split_and!; [done|done|by intros ?%Hneigh|]. intros adv [Ha|Ha]%Hadv Heq; [|by rewrite Heq in Ha].
      apply Hne. by rewrite <-Heq, Ha, Hl.
Qed.

(** The node with the new configuration, before the routes follow. *)
Record rebound a (next : CentralCfg) (peers : list NodeId) a' : Prop := {
  rb_cfg : same_network next (ny_CentralCfg (app_n a'));
  rb_local : ny_LocalId (app_n a') = ny_LocalId (app_n a);
  rb_tables : ny_ForwardTable (app_n a') = ny_ForwardTable (app_n a) ∧ ny_ExitTable (app_n a') = ny_ExitTable (app_n a);
  rb_routes : rs_Routes (ny_rs (app_n a')) = rs_Routes (ny_rs (app_n a));
  rb_distinct : NoDup (n_Id <$> rs_Neighbours (ny_rs (app_n a')));
  rb_neighbours : ∀ id, id ∈ n_Id <$> rs_Neighbours (ny_rs (app_n a')) ↔ id ∈ peers ∧ is_Some (GetRouter next id);
  rb_adverts : ∀ p adv, rs_Advertised (ny_rs (app_n a')) !! p = Some adv → adv_NodeId adv = ny_LocalId (app_n a) ∨ adv_NodeId adv ∈ peers;
  rb_canon : keys_in canonical (ny_rs (app_n a'));
  rb_checked : prefixes_checked a';
}.

Lemma validated_router next lid : central_ok next → IsRouter next lid = true →
  ∃ node, TryGetNode next lid = Some node ∧ NoDup (GetPrefix <$> nc_Prefixes node) ∧
    ∀ p, p ∈ GetPrefix <$> nc_Prefixes node → p ∈ GetPrefixes next.
Proof.
  intros Hok Hr. apply IsRouter_GetRouter in Hr as [r Hr]. unfold GetRouter in Hr.
  apply fmap_Some in Hr as ([i r'] & Hf & ->). exists (rc_Node r'). unfold TryGetNode. rewrite Hf. split; [done|].
  apply list_find_Some in Hf as (Hi%list_elem_of_lookup_2 & _). cbn. split.
  - destruct (co_prefixes _ Hok r' Hi) as (px & _ & Hnd). by apply NoDup_app in Hnd as [? _].
  - intros p Hp. apply elem_of_GetPrefixes. exists (rc_Node r'). split; [|done]. unfold GetNodes. apply elem_of_app. left.
    by apply list_elem_of_fmap_2.
Qed.

Lemma rebind next peers M a : node_ok a → central_ok next → IsRouter next (ny_LocalId (app_n a)) = true → next_ok a next peers M →
  ∃ a1 a2 next' n, reconcileRouterState local next a = Some a1 ∧ reconcileAdvertisedPrefixes next a1 = (a2, next') ∧
    refreshNodeBindings (set_cfg (app_n a2) next') = inr n ∧
    let a3 := set_n (set_n a2 (set_cfg (app_n a2) next')) n in rebound a next peers a3 ∧
    ny_peers (app_n a3) = ny_peers (app_n a) ∧ app_Peers a3 = app_Peers a ∧ app_nextPeer a3 = app_nextPeer a.
Proof.
  intros Hok Hv Hr Hnk. set (lid := ny_LocalId (app_n a)) in *.
  destruct (reconcileRouterState_spec local next M peers a) as (a1 & H1 & HR); [apply Hnk|apply Hnk|apply Hnk|apply Hok|apply Hnk|].
  destruct (validated_router next lid Hv Hr) as (nextNode & Hnext & Hnd & Hpfx).
  destruct (no_checked _ Hok) as (cur & Hcur & HC).
  pose proof (rc_frame _ _ _ _ _ HR) as Hframe.
  set (ns := rs_Neighbours (ny_rs (app_n a1))) in *. set (io := ny_IO (app_n a1)) in *.
  assert (app_n a1 = set_IO (set_rs (app_n a) (set_Neighbours (ny_rs (app_n a)) ns)) io ∧ app_health a1 = app_health a ∧
    app_nextHealth a1 = app_nextHealth a ∧ app_running a1 = app_running a ∧ app_Peers a1 = app_Peers a ∧ app_nextPeer a1 = app_nextPeer a)
    as (En & E1 & E2 & E3 & E4 & E5) by (by rewrite Hframe).
  destruct (reconcileAdvertisedPrefixes_spec next a1 cur nextNode) as (adv & health & ref & running & H2 & HC' & Hoth & _);
    rewrite ?En, ?E1, ?E2, ?E3; [done|done|done|exact HC|]. rewrite En in H2, HC', Hoth. cbn in HC', Hoth. fold lid in HC', Hoth.
  set (ps := chosen _ _ <$> nc_Prefixes nextNode) in *. set (next' := put_prefixes next lid ps).
  assert (same_network next next') as Hsame by (apply (put_same_network _ _ nextNode); [done|apply chosen_prefixes]).
  destruct (central_ok_ids _ Hv) as [idm Hidm]. rewrite <-(same_BuildNodeIdMap _ _ Hsame) in Hidm.
  eexists a1, _, next', _. split; [done|]. split; [exact H2|].
  split; [unfold refreshNodeBindings; cbn [ny_CentralCfg set_cfg]; rewrite Hidm; done|].
  assert (∀ p x, adv !! p = Some x → (adv_NodeId x = lid ∧ p ∈ GetPrefix <$> nc_Prefixes nextNode) ∨
    (adv_NodeId x ∈ peers ∧ rs_Advertised (ny_rs (app_n a)) !! p = Some x)) as Hadv.
  { intros p x Hx. destruct (decide (p ∈ GetPrefix <$> nc_Prefixes nextNode)) as [Hin|Hn].
    - left. split; [|done]. destruct (proj2 (hc_dom _ _ _ _ _ _ HC' p)) as [h Hh]; [unfold ps; by rewrite chosen_prefixes|].
      destruct (hc_adv _ _ _ _ _ _ HC' p h Hh) as (e' & He & _). rewrite Hx in He. by injection He as ->.
    - right. rewrite (Hoth p Hn) in Hx. destruct (rs_Advertised (ny_rs (app_n a)) !! p) as [y|] eqn:Ey; [|done]. case_decide as Hl; [done|].
      injection Hx as <-. split; [|done]. by destruct (nk_adverts _ _ _ _ Hnk p y Ey). }
  cbn zeta. split; [|done].
  split; cbn [app_n set_n set_cfg set_filter ny_CentralCfg ny_LocalId ny_ForwardTable ny_ExitTable ny_rs ny_peers app_Peers app_nextPeer
    set_health set_IO set_rs set_Advertised set_Neighbours rs_Routes rs_Neighbours rs_Advertised]; try done.
  - apply HR.
  - apply HR.
  - intros p x [[? _]|[? _]]%Hadv; auto.
  - destruct (no_good _ Hok) as (_ & ((HcR & HcA & HcN) & _) & _). split; [exact HcR|]. split.
    + intros p x [[_ Hp]|[_ Hp]]%Hadv; [apply (nk_canonical _ _ _ _ Hnk); by apply Hpfx|by eapply HcA].
    + apply Forall_forall. intros m Hm. destruct (rc_each _ _ _ _ _ HR m Hm) as (rc & _ & -> & _).
      destruct (GetNeighbour (ny_rs (app_n a)) (n_Id m)) as [old|] eqn:Eo; cbn; [|apply map_Forall_empty].
      apply GetNeighbour_Some in Eo as [Hin _]. rewrite Forall_forall in HcN. by apply HcN.
  - eexists. split; [cbn; unfold next'; by rewrite (TryGetNode_put _ _ _ nextNode), decide_True|]. cbn. exact HC'.
Qed.

(** The device and the operating system follow. *)
Lemma follow next peers M a a4 : node_ok a → central_ok next → IsRouter next (ny_LocalId (app_n a)) = true → next_ok a next peers M →
  rebound a next peers a4 → device_ok a4 →
  ∃ a5 aliases routes cmds, SyncWireGuard config_Get prepare (env_now e) a4 = Done a5 ∧
    SyncSystemState local (S := S) a5 = Done (set_sys a5 aliases routes cmds) ∧ synced (ny_CentralCfg (app_n a4)) peers a4 a5.
Proof.
  intros Hok Hv Hr Hnk Hrb Hd4. pose proof (rb_cfg _ _ _ _ Hrb) as Hsame. pose proof (rb_local _ _ _ _ Hrb) as Hl.
  assert (∀ i, i ∈ peers → i ∈ all_nodes next) as Hall.
  { intros i Hi. by eapply GetPeers_nodes; [apply (nk_peers _ _ _ _ Hnk)|]. }
  destruct (SyncWireGuard_spec config_Get config_valid prepare (env_now e) a4 peers) as (a5 & H5 & Hs); [done|..].
  { rewrite Hl, (same_GetPeers _ _ Hsame). apply Hnk. }
  { intros i Hi%Hall. rewrite (same_IsClient _ _ Hsame), (same_GetRouter _ _ Hsame). by apply all_nodes_known. }
  { intros i Hi%Hall. apply (same_known _ _ Hsame). by apply all_nodes_known. }
  { intros i j k _ _. rewrite !(same_key _ _ Hsame). apply Hnk. }
  { apply Hnk. }
  destruct (sy_frame _ _ _ _ Hs) as (dev & Peers & nextp & roaming & ns & eps & Hns & Heq5).
  destruct (SyncSystemState_spec a5) as (aliases & routes & cmds & H6); [rewrite Heq5; cbn..|].
  - rewrite Hl. apply (same_GetRouter _ _ Hsame). by apply IsRouter_GetRouter.
  - rewrite (sn_excludes _ _ Hsame). apply Forall_forall. apply (co_excludes _ Hv).
  - apply (rb_canon _ _ _ _ Hrb).
  - by exists a5, aliases, routes, cmds.
Qed.

Lemma same_neighbours_ids ns ns' : Forall2 same_neighbour ns ns' → n_Id <$> ns' = n_Id <$> ns.
Proof. induction 1 as [|m m' l l' [Hi _] _ IH]; [done|]. cbn. by rewrite Hi, IH. Qed.

Lemma rebound_synced next peers a a4 a5 : rebound a next peers a4 → synced (ny_CentralCfg (app_n a4)) peers a4 a5 →
  rebound a next peers a5.
Proof.
  intros [Hc Hl Ht HR Hnd Hn Ha Hcan Hck] [_ _ _ _ (dev & Peers & nextp & roaming & ns & eps & Hns & ->)]. cbn in Hns.
  pose proof (same_neighbours_ids _ _ Hns) as Hids.
  split; cbn; rewrite ?Hids; try done.
  destruct Hcan as (HcR & HcA & HcN). split; [done|]. split; [done|]. cbn.
  clear -HcN Hns. induction Hns as [|m m' l l' [_ Hm] _ IH]; [done|].
  apply Forall_cons in HcN as [Hx ?]. constructor; [by rewrite Hm|by apply IH].
Qed.

(** What the new configuration looks like once it runs. *)
Record runs_next (next : CentralCfg) (peers : list NodeId) a a' : Prop := {
  rn_ok : node_ok a';
  rn_local : ny_LocalId (app_n a') = ny_LocalId (app_n a);
  rn_cfg : same_network next (ny_CentralCfg (app_n a'));
  rn_neighbours : ∀ id, id ∈ n_Id <$> rs_Neighbours (ny_rs (app_n a')) ↔ id ∈ peers ∧ is_Some (GetRouter next id);
  rn_peers : ∀ i k, app_Peers a' !! i = Some k ↔ i ∈ peers ∧ key_of next i = Some k;
  rn_kept : ∀ i k w, app_Peers a !! i = Some k → i ∈ peers → ny_peers (app_n a) !! k = Some w → ny_peers (app_n a') !! k = Some w;
}.

(** A finite route that was computed goes through this node or through a peer. *)
Lemma computed_hops (s : RouterState NylonEndpoint) lid (peers : list NodeId) p r :
  (∀ i, i ∈ n_Id <$> rs_Neighbours s → i ∈ peers) →
  (∀ q adv, rs_Advertised s !! q = Some adv → adv_NodeId adv = lid ∨ adv_NodeId adv ∈ peers) →
  rs_Routes (ComputeRoutes e s).1 !! p = Some r → sr_Metric r ≠ INF → sr_Nh r = lid ∨ sr_Nh r ∈ peers.
Proof.
  intros Hn Ha. rewrite compute_Routes. intros Hr Hfin.
  destruct (final_at_finite _ _ _ _ _ _ Hr Hfin) as [(adv & Hadv & ->)|(m & k & Hm & Hk & ->)].
  - by apply Ha in Hadv.
  - right. apply neigh_candidate_Some in Hk as (adv & _ & (_ & _ & ->)%adv_candidate_Some). cbn. apply Hn. by apply list_elem_of_fmap_2.
Qed.

(** The rest of a node under the new configuration. *)
Lemma rebound_known next peers M a a5 : next_ok a next peers M → rebound a next peers a5 →
  IsRouter next (ny_LocalId (app_n a)) = true →
  (∀ i, i ∈ peers → is_Some (GetNode (ny_CentralCfg (app_n a5)) i)) ∧
  is_Some (GetNode (ny_CentralCfg (app_n a5)) (ny_LocalId (app_n a))) ∧ sane canonical (ny_CentralCfg (app_n a5)) (ny_rs (app_n a5)).
Proof.
  intros Hnk Hrb Hr. pose proof (rb_cfg _ _ _ _ Hrb) as Hsame.
  assert (∀ i, i ∈ peers → is_Some (GetNode (ny_CentralCfg (app_n a5)) i)) as Hknown.
  { intros i Hi. apply (same_known _ _ Hsame). eapply all_nodes_known, GetPeers_nodes; [apply (nk_peers _ _ _ _ Hnk)|done]. }
  assert (is_Some (GetNode (ny_CentralCfg (app_n a5)) (ny_LocalId (app_n a)))) as Hself.
  { apply (same_known _ _ Hsame), GetRouter_GetNode. by apply IsRouter_GetRouter. }
  split; [done|]. split; [done|]. split; [apply (rb_canon _ _ _ _ Hrb)|]. split.
  - apply Forall_forall. intros m Hm. apply Hknown. eapply (proj1 (rb_neighbours _ _ _ _ Hrb (n_Id m))). by apply list_elem_of_fmap_2.
  - intros p adv [Hi|Hi]%(rb_adverts _ _ _ _ Hrb); [by rewrite Hi|by apply Hknown].
Qed.

Lemma no_own_key next peers M a a5 : next_ok a next peers M → rebound a next peers a5 → device_ok a5 →
  (∀ i k, app_Peers a5 !! i = Some k ↔ i ∈ peers ∧ key_of next i = Some k) →
  ∀ k, key_of (ny_CentralCfg (app_n a5)) (ny_LocalId (app_n a5)) = Some k → ny_peers (app_n a5) !! k = None.
Proof.
  intros Hnk Hrb Hdev HP k Hk. apply eq_None_not_Some. intros [i [Hi Hik]%HP]%(dv_dom _ Hdev).
  rewrite (rb_local _ _ _ _ Hrb), (same_key _ _ (rb_cfg _ _ _ _ Hrb)) in Hk. rewrite (nk_distinct _ _ _ _ Hnk _ _ _ Hik Hk) in Hi.
  by apply (GetPeers_nodes next _ peers _ (nk_peers _ _ _ _ Hnk)) in Hi as [_ []].
Qed.

(** The routes follow. *)
Lemma recompute next peers M a a5 : node_ok a → IsRouter next (ny_LocalId (app_n a)) = true → next_ok a next peers M →
  rebound a next peers a5 → device_ok a5 →
  (∀ i k, app_Peers a5 !! i = Some k ↔ i ∈ peers ∧ key_of next i = Some k) →
  (∀ i k w, app_Peers a !! i = Some k → i ∈ peers → ny_peers (app_n a) !! k = Some w → ny_peers (app_n a5) !! k = Some w) →
  ∃ n', run (env_now e) (app_n a5) (ComputeRoutes e (ny_rs (app_n a5))) = Some n' ∧
    ∀ aliases routes cmds, runs_next next peers a (set_n (set_sys a5 aliases routes cmds) n').
Proof.
  intros Hok Hr Hnk Hrb Hdev HP Hstay. pose proof (rb_cfg _ _ _ _ Hrb) as Hsame. pose proof (rb_local _ _ _ _ Hrb) as Hl.
  destruct (rebound_known _ _ _ _ _ Hnk Hrb Hr) as (Hknown & Hself & Hsane).
  pose proof (no_own_key _ _ _ _ _ Hnk Hrb Hdev HP) as Hkey.
  assert (∀ i, i ∈ n_Id <$> rs_Neighbours (ny_rs (app_n a5)) → i ∈ peers) as Hneigh by (by intros i [? _]%(rb_neighbours _ _ _ _ Hrb)).
  destruct (compute_good (app_n a5)) as (n' & Hrun & Hgood & Hrs & Hc' & Hl' & Hp'); [|done| |].
  { intros p Hp%(same_GetPrefixes _ _ _ Hsame). by apply (nk_canonical _ _ _ _ Hnk). }
  { apply (mirrors_moved a (app_n a5) peers); try done; try apply Hrb; [by rewrite Hl| |].
    - intros i k w Hi Hin Hw. rewrite (same_key _ _ Hsame). split; [by eapply nk_same|by eapply Hstay].
    - rewrite Hl. apply Hrb. }
  exists n'. split; [done|]. intros aliases routes cmds. cbn in Hrs, Hc', Hl', Hp'.
  destruct (compute_frame e (ny_rs (app_n a5))) as (_ & _ & _ & HA' & HN').
  assert (n_Id <$> rs_Neighbours (ny_rs n') = n_Id <$> rs_Neighbours (ny_rs (app_n a5))) as Hids'.
  { rewrite Hrs, HN', <-list_fmap_compose. by apply list_fmap_ext. }
  split; cbn [app_n set_n set_sys app_Peers]; rewrite ?Hids', ?Hc', ?Hl', ?Hp'; try done; [|apply Hrb].
  split; cbn [app_n set_n set_sys app_Peers]; rewrite ?Hids', ?Hc', ?Hl', ?Hp'; try done.
  - apply Hrb.
  - destruct Hdev as [K1 K2 K3 K4]. split; cbn [app_n set_n set_sys app_Peers app_nextPeer]; rewrite ?Hp'; done.
  - destruct (rb_checked _ _ _ _ Hrb) as (cur & Hcur & HC). exists cur. cbn. by rewrite Hc', Hl', Hrs, HA'.
  - intros i k [_ Hi]%HP. by rewrite (same_key _ _ Hsame).
  - intros p r. rewrite Hrs, Hl. intros Hpr Hfin.
    destruct (computed_hops _ _ peers p r Hneigh (rb_adverts _ _ _ _ Hrb) Hpr Hfin) as [?|Hin]; [by left|right].
    destruct (Hknown _ Hin) as [node Hnode]. exists (nc_PubKey node). apply HP. split; [done|].
    rewrite <-(same_key _ _ Hsame). by apply LookupPeer_key.
Qed.

Lemma apply_next_spec next peers M a : node_ok a → central_ok next → IsRouter next (ny_LocalId (app_n a)) = true →
  next_ok a next peers M →
  ∃ a', apply_next local config_Get (S := S) prepare e next a = Some (a', ApplyApplied) ∧ runs_next next peers a a'.
Proof.
  intros Hok Hv Hr Hnk. destruct (rebind next peers M a Hok Hv Hr Hnk) as (a1 & a2 & next' & n & H1 & H2 & H3 & Hrb & Ed & EP & En).
  unfold apply_next. rewrite H1. cbn [mbind option_bind]. rewrite H2. cbn [app_n set_n]. rewrite H3.
  set (a4 := set_n (set_n a2 (set_cfg (app_n a2) next')) n) in *. pose proof (rb_cfg _ _ _ _ Hrb) as Hsame.
  assert (device_ok a4) as Hd4 by (destruct (no_device _ Hok) as [K1 K2 K3 K4]; split; rewrite ?Ed, ?EP, ?En; done).
  destruct (follow next peers M a a4 Hok Hv Hr Hnk Hrb Hd4) as (a5 & aliases & routes & cmds & -> & H6 & Hsy). cbn [and_do]. rewrite H6.
  destruct (recompute next peers M a a5 Hok Hr Hnk) as (n' & Hrun & Hrn).
  - by eapply rebound_synced.
  - apply Hsy.
  - intros i k. by rewrite (sy_Peers _ _ _ _ Hsy), (same_key _ _ Hsame).
  - intros i k w Hi Hin Hw. apply (sy_kept _ _ _ _ Hsy i); [by rewrite EP|done| |by rewrite Ed].
    rewrite (same_key _ _ Hsame). by eapply nk_same.
  - cbn [app_n set_sys]. rewrite Hrun. cbn. eexists. split; [done|]. apply Hrn.
Qed.

(** C2: a configuration that validates, leaves this node a router with the same obfuscation,
    and fits the running node, is applied without a panic, and afterwards the node runs it.
    The node is in order before ([node_ok]: its tables follow its routes, device and
    configuration agree, its prefixes have their checks, and next hops are peers), and is so
    again; the prefixes it excludes locally and the addresses it looks up are valid.
    To fit means: its prefixes are canonical, no two nodes share a key, a peer that stays keeps
    its key, every client that the node advertises for at the moment remains a peer,
    there are at most [MaxPeers] peers and the link numbers do not run out.  Validation checks none
    of this: without a held client the code panics ([ApplyDemo.dropped_client_panics]), and
    with a new key a route keeps the peer that was removed ([ApplyDemo.rekeyed_demo]).
    Afterwards the neighbours are exactly the routers among the peers, the device has exactly the
    peers, with their keys, and those that stay keep their sessions, the prefixes of the
    node are advertised with their checks, and the forwarding tables follow the routes
    again, although the next hops of some routes may be gone. *)
Theorem valid_config_applied cfg raw read next peers M a : node_ok a →
  Clone cfg = Some raw → ExpandCentralConfig raw = Some read → CentralConfigValidator read = Accept → checked read = Some next →
  IsRouter next (ny_LocalId (app_n a)) = true → IsRouter (ny_CentralCfg (app_n a)) (ny_LocalId (app_n a)) = true →
  tcp_obfuscation_of (ny_CentralCfg (app_n a)) (ny_LocalId (app_n a)) = tcp_obfuscation_of next (ny_LocalId (app_n a)) →
  next_ok a next peers M →
  ∃ a', ApplyCentralConfig local config_Get (S := S) Clone prepare e cfg a = Some (a', ApplyApplied) ∧ runs_next next peers a a'.
Proof.
  intros Hok Hcl Hex Hval Hch Hr Hr0 Htcp Hnk. unfold ApplyCentralConfig. rewrite Hcl, Hex. cbn [mbind option_bind].
  rewrite Hval, Hch. cbn [mbind option_bind]. rewrite Hr, Hr0, Htcp, eqb_reflx. cbn [negb].
  apply (apply_next_spec next peers M); [done| |done|done].
  apply accepted_checked in Hval as (c' & Hc' & Hv). by simplify_eq.
Qed.

(** a configuration that cannot be copied, does not validate, in which this node is not
    a router, or which changes its obfuscation, is refused and changes nothing.  The answer
    that nothing had to be done is never given, not even for the configuration that runs. *)
Theorem refused_config_changes_nothing cfg a :
  (match Clone cfg with
   | None => ApplyCentralConfig local config_Get (S := S) Clone prepare e cfg a = Some (a, ApplyRejected)
   | Some raw =>
       ∀ read, ExpandCentralConfig raw = Some read →
       (∀ err, CentralConfigValidator read = Reject err →
          ApplyCentralConfig local config_Get (S := S) Clone prepare e cfg a = Some (a, ApplyRejected)) ∧
       (∀ next, CentralConfigValidator read = Accept → checked read = Some next →
        (IsRouter next (ny_LocalId (app_n a)) && IsRouter (ny_CentralCfg (app_n a)) (ny_LocalId (app_n a)) &&
         eqb (tcp_obfuscation_of (ny_CentralCfg (app_n a)) (ny_LocalId (app_n a))) (tcp_obfuscation_of next (ny_LocalId (app_n a)))) = false →
          ApplyCentralConfig local config_Get (S := S) Clone prepare e cfg a = Some (a, ApplyRestartRequired))
   end) ∧
  ∀ a', ApplyCentralConfig local config_Get (S := S) Clone prepare e cfg a ≠ Some (a', ApplyNoop).
Proof.
  split.
  - unfold ApplyCentralConfig. destruct (Clone cfg) as [raw|]; [|done]. intros read ->. cbn [mbind option_bind]. split.
    + by intros err ->.
    + intros next -> ->. cbn [mbind option_bind]. destruct (IsRouter next _); [|done]. cbn [negb]. destruct (IsRouter (ny_CentralCfg (app_n a)) _); [|done]. cbn [negb andb].
      by intros ->.
  - intros a'. unfold ApplyCentralConfig. destruct (Clone cfg) as [raw|]; [|done].
    destruct (ExpandCentralConfig raw) as [read|]; [|done]. cbn [mbind option_bind].
    destruct (CentralConfigValidator read); try done. destruct (checked read) as [next|]; [|done]. cbn [mbind option_bind]. repeat (case_goal; [done|]). cbn [DeepEqual_cfg]. unfold apply_next.
    destruct (reconcileRouterState local next a) as [a1|]; [|done]. cbn [mbind option_bind].
    destruct (reconcileAdvertisedPrefixes next a1) as [a2 next']. destruct (refreshNodeBindings _); [done|].
    destruct (and_do _ _); try done. by destruct (run _ _ _).
Qed.

End apply.

(** ** A concrete change *)

Module ApplyDemo.

#[local] Existing Instances sorted_range plain_unicode PlainText.plain_text PlainText.plain_text_laws Covers.covers.
#[local] Instance parsers : TextParsers := {| url_Parse _ := true |}.
#[local] Instance linux : Platform := {| GOOS := "linux"; GOARCH := "amd64" |}.
#[local] Instance host : Host := {| InterfaceByName _ := None; InterfaceByIndex _ := None; FamilyReachable _ := true |}.

Definition net (k : Z) : Prefix := PrefixFrom (Addr4 (k * 2 ^ 24)) 8.
Definition router (id : NodeId) (key : Z) (ps : list Prefix) : RouterCfg :=
  mkRouterCfg (mkNodeCfg id key [] ((λ p, StaticPrefixHealth p 0) <$> ps) 0) [] false.
Definition client (id : NodeId) (key : Z) (ps : list Prefix) : ClientCfg :=
  mkClientCfg (mkNodeCfg id key [] ((λ p, StaticPrefixHealth p 0) <$> ps) 0).

Definition local : LocalCfg :=
  mkLocalCfg 1 "a" 57175 None false false [] "" 1280 "" [] [] [] [] [] [] [] [] 0 0 0 false "" false.

(** Node [a] with peer [b]; the next configuration adds [c] and another prefix. *)
Definition cfg0 : CentralCfg := mkCentralCfg [router "a" 1 [net 10]; router "b" 2 [net 11]] [] ["a, b"] 0 [] None.
Definition cfg1 : CentralCfg :=
  mkCentralCfg [router "a" 1 [net 10; net 12]; router "b" 2 [net 11]; router "c" 3 []] [] ["a, b"; "a, c"] 0 [] None.

Definition own (h : HealthRef) : Advertisement := mkAdvertisement "a" maxTime false (Some h) None.

Definition n0 : Nylon NylonEndpoint (gmap Prefix) map_cache :=
  mkNylon (mkRouterState DefaultRouterTunables "a" ∅ ∅ ∅ [mkNeighbour "b" ∅ []] {[net 10 := own 0%nat]})
    cfg0 "a" false "" {[2 := 0%nat]} ∅ ∅ ∅ None None.
Definition app : App := mkApp n0 0 ∅ ∅ {[net 10 := 0%nat]} 1%nat ∅ {["b" := 2]} [] [] 1%nat ∅ ∅ [].

Definition env : Env := mkEnv 1000 (λ _, 7).
Definition apply (cfg : CentralCfg) (a : App (T := gmap Prefix) (C := map_cache)) :=
  ApplyCentralConfig local (λ _, None) (S := Covers.sets) Some (λ _, None) env (written cfg) a.

Lemma app_good : good n0.
Proof.
  apply good_intro.
  - intros p Hp. apply NodeDemo.canonicalb_ok. refine (NodeDemo.forallb_elem _ _ _ _ Hp). by vm_compute.
  - apply NodeDemo.saneb_ok. by vm_compute.
  - intros p Hp. unfold mirrors. cbn [ny_rs n0 rs_Routes ny_ForwardTable ny_ExitTable]. rewrite lookup_empty.
    pose proof (bt_Get_empty (T := gmap Prefix) (V := RouteTableEntry) p) as He. cbn [bt_empty map_table] in He. by rewrite He.
Qed.

Lemma app_device : device_ok app.
Proof.
  split; cbn [app app_Peers app_n n0 ny_peers app_nextPeer].
  - intros i j k [<- _]%lookup_singleton_Some [<- _]%lookup_singleton_Some. done.
  - intros k. split.
    + intros [w [<- _]%lookup_singleton_Some]. exists "b". apply lookup_singleton_eq.
    + intros [i [_ <-]%lookup_singleton_Some]. eexists. apply lookup_singleton_eq.
  - intros k k' w [<- _]%lookup_singleton_Some [<- _]%lookup_singleton_Some. done.
  - intros k w [_ <-]%lookup_singleton_Some. lia.
Qed.

Lemma demo_checked : prefixes_checked app.
Proof.
  exists (mkNodeCfg "a" 1 [] [StaticPrefixHealth (net 10) 0] 0). split; [by vm_compute|]. cbn [nc_Prefixes].
  split; cbn [app app_n n0 ny_rs rs_Advertised app_health app_nextHealth app_running ny_LocalId fmap list_fmap GetPrefix].
  - apply NoDup_singleton.
  - intros p. rewrite list_elem_of_singleton. split; [by intros [h [<- _]%lookup_singleton_Some]|]. intros ->. eexists. apply lookup_singleton_eq.
  - intros p q h [<- _]%lookup_singleton_Some [<- _]%lookup_singleton_Some. done.
  - intros p h [_ <-]%lookup_singleton_Some. lia.
  - intros h. split; [by intros ?%elem_of_empty|]. by intros (d & ->%list_elem_of_singleton & _ & ?).
  - intros p h [<- <-]%lookup_singleton_Some. exists None. split; [apply lookup_singleton_eq|by left].
  - intros p x [<- _]%lookup_singleton_Some _. eexists. apply lookup_singleton_eq.
Qed.

Lemma app_ok : node_ok app.
Proof.
  split; [exact app_good|apply NoDup_singleton|exact app_device|exact demo_checked|..].
  - intros k. by intros [= <-].
  - cbn [app app_Peers]. intros i k [<- <-]%lookup_singleton_Some. reflexivity.
  - intros p r Hr. cbn in Hr. by rewrite lookup_empty in Hr.
Qed.

Lemma next_cfg_ok : next_ok local app cfg1 ["b"; "c"] 0.
Proof.
  split; cbn [app app_n n0 ny_LocalId app_Peers ny_rs rs_Advertised app_linkIds rs_Neighbours length].
  - by vm_compute.
  - intros p Hp. apply NodeDemo.canonicalb_ok. refine (NodeDemo.forallb_elem _ _ _ _ Hp). by vm_compute.
  - intros i j k Hi Hj.
    assert (∀ x y, key_of cfg1 x = Some y → (x, y) ∈ [("a", 1); ("b", 2); ("c", 3)]) as H.
    { intros x y. unfold key_of, GetNode, TryGetNode. cbn.
      destruct (decide ("a" = x)) as [<-|]; cbn; [intros [= <-]; set_solver|]. destruct (decide ("b" = x)) as [<-|]; cbn; [intros [= <-]; set_solver|].
      destruct (decide ("c" = x)) as [<-|]; cbn; [intros [= <-]; set_solver|done]. }
    apply H in Hi, Hj. rewrite !elem_of_cons, elem_of_nil in Hi, Hj. naive_solver.
  - intros i k [<- <-]%lookup_singleton_Some _. reflexivity.
  - intros p x [_ <-]%lookup_singleton_Some. by left.
  - by vm_compute.
  - split; [lia|]. intros id cfg Hc.
    assert (rc_Endpoints cfg = []) as ->; [|by vm_compute].
    unfold GetRouter in Hc. apply fmap_Some in Hc as ([i r] & Hf & ->). apply list_find_Some in Hf as (Hi%list_elem_of_lookup_2 & _).
    cbn [cfg1 c_Routers] in Hi. rewrite !elem_of_cons, elem_of_nil in Hi. destruct Hi as [->|[->|[->|[]]]]; reflexivity.
  - split; [lia|]. by vm_compute.
Qed.

Lemma valid_config_applied_witness :
  ∃ a', apply cfg1 app = Some (a', ApplyApplied) ∧ runs_next cfg1 ["b"; "c"] app a'.
Proof.
  apply (valid_config_applied local (λ _, None) Some (λ _, None) env) with (raw := written cfg1) (read := written cfg1) (M := 0);
    [discriminate|split; apply Forall_nil; exact I|exact app_ok|reflexivity|reflexivity|vm_compute; reflexivity|reflexivity|reflexivity|reflexivity|reflexivity|exact next_cfg_ok].
Defined.

Definition outline (x : App (T := gmap Prefix) (C := map_cache) * ApplyResult) :=
  (n_Id <$> rs_Neighbours (ny_rs (app_n x.1)), map_to_list (app_Peers x.1), map_to_list (ny_peers (app_n x.1)), x.2).

Example apply_demo :
  outline <$> apply cfg1 app = Some (["b"; "c"], [("c", 3); ("b", 2)], [(3, 1%nat); (2, 0%nat)], ApplyApplied).
Proof. vm_compute. reflexivity. Qed.

(** Applying the configuration that runs already does all the work again. *)
Example same_config_not_noop : snd <$> apply cfg0 app = Some ApplyApplied.
Proof. vm_compute. reflexivity. Qed.

(** A peer that stays and changes its key: the device gets a new peer, 1, but the route
    through it is not written again, and its forwarding entry keeps the peer 0 that was
    removed. *)
Definition route_b : SelRoute := mkSelRoute (mkPubRoute (mkSource "b" (net 11)) (mkFD 1 5)) "b" 10000 [].
Definition link : NylonEndpoint := Renew 1000 (NewEndpoint (NewDynamicEndpoint "x") true None DefaultRouterTunables 5).
Definition linked : App :=
  set_n app (mkNylon (mkRouterState DefaultRouterTunables "a" ∅ {[net 11 := route_b]} ∅
      [mkNeighbour "b" {[net 11 := mkNeighRoute (mkPubRoute (mkSource "b" (net 11)) (mkFD 2 3)) 10000 f64_zero]} [link]] {[net 10 := own 0%nat]})
    cfg0 "a" false "" {[2 := 0%nat]} ∅ {[net 11 := mkEntry "b" (Some 0%nat) false]} ∅ None None).
Definition rekeyed : CentralCfg := mkCentralCfg [router "a" 1 [net 10]; router "b" 9 [net 11]] [] ["a, b"] 0 [] None.

Example rekeyed_demo :
  (λ x, (ny_peers (app_n x.1) !! 9, rte_Peer <$> ny_ForwardTable (app_n x.1) !! net 11, sr_Nh <$> rs_Routes (ny_rs (app_n x.1)) !! net 11)) <$> apply rekeyed linked =
  Some (Some 1%nat, Some (Some 0%nat), Some "b").
Proof. vm_compute. reflexivity. Qed.

(** A client the node answers for is taken out of the network before a route was computed
    for it: the configuration validates, and the computation panics on the unknown node. *)
Definition with_client : CentralCfg :=
  mkCentralCfg [router "a" 1 [net 10]; router "b" 2 [net 11]] [client "m" 7 [net 20]] ["a, b"; "a, m"] 0 [] None.
Definition serving : App :=
  set_n app (mkNylon (mkRouterState DefaultRouterTunables "a" ∅ ∅ ∅ [mkNeighbour "b" ∅ []]
      (<[net 20 := mkAdvertisement "m" 5000 false None None]> {[net 10 := own 0%nat]}))
    with_client "a" false "" {[2 := 0%nat; 7 := 5%nat]} ∅ ∅ ∅ None None).

Example dropped_client_panics : CentralConfigValidator (written cfg0) = Accept ∧ apply cfg0 serving = None.
Proof. split; vm_compute; reflexivity. Qed.

(** A node address left empty panics in the expansion, before anything is validated. *)
Definition no_address : CentralCfg :=
  mkCentralCfg [mkRouterCfg (mkNodeCfg "a" 1 [AddrZero] [] 0) [] false] [] [] 0 [] None.

Example empty_address_panics : apply no_address app = None.
Proof. vm_compute. reflexivity. Qed.

End ApplyDemo.
