(* ===== verification/Crypto.v ===== *)
(** The cryptographic primitives the WireGuard device is built on, and the key derivation
    of [polyamide/device/noise-helpers.go].

    BLAKE2s, Curve25519 and (X)ChaCha20-Poly1305 come from [golang.org/x/crypto]: they
    are the class [Crypto], and [CryptoLaws] is what the handshake relies on.  [crypto/hmac]
    belongs to the language and is written out.  [ToyCrypto] is an instance that satisfies
    the laws and can be run. *)

From S2P Require Import Prelude Bytes.

(** Keys, nonces and messages are byte strings. *)
Class Crypto := {
  blake2s_Sum256 : list Z → list Z;
  (** [blake2s.New128(key)] over a message. *)
  blake2s_128 : list Z → list Z → list Z;
  ScalarBaseMult : list Z → list Z;
  ScalarMult : list Z → list Z → list Z;
  (** [chacha20poly1305.New(key)]: key, nonce, text, additional data. *)
  Seal : list Z → list Z → list Z → list Z → list Z;
  Open : list Z → list Z → list Z → list Z → option (list Z);
  (** [chacha20poly1305.NewX(key)]. *)
  SealX : list Z → list Z → list Z → list Z → list Z;
  OpenX : list Z → list Z → list Z → list Z → option (list Z);
}.

Definition blake2s_Size : nat := 32.
Definition blake2s_Size128 : nat := 16.
Definition blake2s_BlockSize : nat := 64.
Definition TagSize : nat := 16.
Definition KeySize : nat := 32.
Definition NonceSize : nat := 12.
Definition NonceSizeX : nat := 24.
Definition NoisePublicKeySize : nat := 32.
Definition NoisePrivateKeySize : nat := 32.

(** Digest and tag lengths, agreement of Diffie-Hellman, and that opening undoes sealing:
    a sealed text opens to itself, and nothing else opens under the same key, nonce and
    additional data to that text. *)
Class CryptoLaws `{Crypto} := {
  length_Sum256 : ∀ m, length (blake2s_Sum256 m) = blake2s_Size;
  length_128 : ∀ k m, length (blake2s_128 k m) = blake2s_Size128;
  length_ScalarBaseMult : ∀ a, length (ScalarBaseMult a) = NoisePublicKeySize;
  length_ScalarMult : ∀ a p, length (ScalarMult a p) = NoisePublicKeySize;
  ScalarMult_agree : ∀ a b, length a = NoisePrivateKeySize → length b = NoisePrivateKeySize →
    ScalarMult a (ScalarBaseMult b) = ScalarMult b (ScalarBaseMult a);
  length_Seal : ∀ k n m ad, length (Seal k n m ad) = (length m + TagSize)%nat;
  Open_Seal : ∀ k n m ad, Open k n (Seal k n m ad) ad = Some m;
  Open_inv : ∀ k n c ad m, Open k n c ad = Some m → c = Seal k n m ad;
  length_SealX : ∀ k n m ad, length (SealX k n m ad) = (length m + TagSize)%nat;
  OpenX_SealX : ∀ k n m ad, OpenX k n (SealX k n m ad) ad = Some m;
  OpenX_inv : ∀ k n c ad m, OpenX k n c ad = Some m → c = SealX k n m ad;
}.

(** An all-zero Go array. *)
Definition zeros (n : nat) : list Z := replicate n 0.

(** A Go array of [n] bytes filled from a slice: shorter slices leave zeros. *)
Definition array_of (n : nat) (l : list Z) : list Z := take n (l ++ zeros n).

(** [setZero] on an array. *)
Definition setZero (arr : list Z) : list Z := (λ _, 0) <$> arr.

(** [subtle.ConstantTimeByteEq]. *)
Definition ConstantTimeByteEq (x y : Z) : Z := if x =? y then 1 else 0.

Definition isZero (val : list Z) : bool := foldl (λ acc b, Z.land acc (ConstantTimeByteEq b 0)) 1 val =? 1.

(** [subtle.ConstantTimeCompare(x, y) == 1], which [hmac.Equal] is. *)
Definition ConstantTimeEqual (x y : list Z) : bool := bool_decide (x = y).

(** [sk[0] &= 248; sk[31] = (sk[31] & 127) | 64] on an array of 32 bytes. *)
Definition clamp (sk : list Z) : list Z :=
  let sk := alter (λ b, Z.land b 248) 0%nat sk in
  alter (λ b, Z.lor (Z.land b 127) 64) 31%nat sk.

(** ** Randomness

    [crypto/rand]: what the operating system hands out is a list of answers, one for each
    call of [rand.Read], with a flag for success.  After the last answer it fails. *)

Definition Entropy := list (list Z * bool).

Definition rand_Read (n : nat) (rnd : Entropy) : list Z * bool * Entropy :=
  match rnd with
  | [] => (zeros n, false, [])
  | (b, ok) :: rnd => (array_of n b, ok, rnd)
  end.

Definition newPrivateKey (rnd : Entropy) : list Z * bool * Entropy :=
  let '(sk, ok, rnd) := rand_Read NoisePrivateKeySize rnd in
  (clamp sk, ok, rnd).

Section kdf.
Context `{CR : Crypto}.

(** [crypto/hmac] with BLAKE2s-256. *)
Definition hmac_pad (c : Z) (key : list Z) : list Z := (λ b, Z.lxor b c) <$> array_of blake2s_BlockSize key.

Definition hmac_Sum (key msg : list Z) : list Z :=
  let key := if decide (blake2s_BlockSize < length key)%nat then blake2s_Sum256 key else key in
  blake2s_Sum256 (hmac_pad 92 key ++ blake2s_Sum256 (hmac_pad 54 key ++ msg)).

Definition HMAC1 (key in0 : list Z) : list Z := hmac_Sum key in0.

Definition HMAC2 (key in0 in1 : list Z) : list Z := hmac_Sum key (in0 ++ in1).

Definition KDF1 (key input : list Z) : list Z :=
  let t0 := HMAC1 key input in
  HMAC1 t0 [1].

Definition KDF2 (key input : list Z) : list Z * list Z :=
  let prk := HMAC1 key input in
  let t0 := HMAC1 prk [1] in
  let t1 := HMAC2 prk t0 [2] in
  (t0, t1).

Definition KDF3 (key input : list Z) : list Z * list Z * list Z :=
  let prk := HMAC1 key input in
  let t0 := HMAC1 prk [1] in
  let t1 := HMAC2 prk t0 [2] in
  let t2 := HMAC2 prk t1 [3] in
  (t0, t1, t2).

Definition publicKey (sk : list Z) : list Z := ScalarBaseMult sk.

(** The secret, and whether it is usable: [errInvalidPublicKey] for a zero secret. *)
Definition sharedSecret (sk pk : list Z) : list Z * bool :=
  let ss := ScalarMult sk pk in
  (ss, negb (isZero ss)).

End kdf.

(** ** Facts *)

Lemma length_zeros n : length (zeros n) = n.
Proof. apply length_replicate. Qed.

Lemma length_array_of n l : length (array_of n l) = n.
Proof. unfold array_of. rewrite length_take, length_app, length_zeros. lia. Qed.

Lemma array_of_exact l n : length l = n → array_of n l = l.
Proof. intros <-. unfold array_of. apply take_app_length. Qed.

Lemma length_setZero l : length (setZero l) = length l.
Proof. apply length_fmap. Qed.

Lemma length_clamp sk : length (clamp sk) = length sk.
Proof. unfold clamp. by rewrite !length_alter. Qed.

(** [isZero] is what its name says. *)
Lemma isZero_spec l : isZero l = true ↔ l = zeros (length l).
Proof.
  unfold isZero. assert (∀ acc, acc = 0 ∨ acc = 1 →
    foldl (λ acc b, Z.land acc (ConstantTimeByteEq b 0)) acc l =? 1 = (acc =? 1) && bool_decide (l = zeros (length l))) as H.
  { induction l as [|b l IH]; intros acc Hacc; cbn [foldl length].
    { by rewrite andb_true_r. }
    assert (Z.land acc (ConstantTimeByteEq b 0) = if b =? 0 then acc else 0) as ->.
    { unfold ConstantTimeByteEq. destruct (b =? 0), Hacc as [-> | ->]; done. }
    rewrite IH by (destruct (b =? 0); tauto).
    destruct (Z.eqb_spec b 0) as [->|Hb].
    - f_equal. apply bool_decide_ext. unfold zeros. cbn. split; congruence.
    - cbn. symmetry. apply andb_false_iff. right. apply bool_decide_eq_false. unfold zeros. cbn. congruence. }
  rewrite H by tauto. cbn. apply bool_decide_eq_true.
Qed.

(** A clamped key is never zero. *)
Lemma clamp_not_zero sk : length sk = 32%nat → isZero (clamp sk) = false.
Proof.
  intros Hl. apply not_true_iff_false. rewrite isZero_spec. intros H.
  assert (∃ b, sk !! 31%nat = Some b) as [b Hb] by (apply lookup_lt_is_Some; lia).
  apply (f_equal (λ l, l !! 31%nat)) in H. unfold clamp in H at 1.
  rewrite list_lookup_alter, list_lookup_alter_ne, Hb in H by done. cbn in H.
  unfold zeros in H. rewrite lookup_replicate_2 in H by (rewrite length_clamp; lia).
  injection H as H. apply Z.lor_eq_0_iff in H. lia.
Qed.

Section kdf_facts.
Context `{CL : CryptoLaws}.

Lemma length_hmac_Sum k m : length (hmac_Sum k m) = blake2s_Size.
Proof. apply length_Sum256. Qed.

Lemma length_KDF1 k i : length (KDF1 k i) = blake2s_Size.
Proof. apply length_hmac_Sum. Qed.

(** Both ends of a Diffie-Hellman exchange have the same secret and the same verdict on it. *)
Lemma sharedSecret_agree a b : length a = NoisePrivateKeySize → length b = NoisePrivateKeySize →
  sharedSecret a (publicKey b) = sharedSecret b (publicKey a).
Proof. intros. unfold sharedSecret, publicKey. by rewrite ScalarMult_agree. Qed.

End kdf_facts.

(** ** An instance

    A checksum for the hash, multiplication modulo a small prime for the group, and the text followed
    by its checksum for sealing: nothing secret, but it satisfies the laws. *)

Module ToyCrypto.

Definition prime : Z := 65521.

Definition digest (n : nat) (m : list Z) : list Z := be_encode n (foldl Z.add 7 m).

Definition tag (k n m ad : list Z) : list Z := digest TagSize (k ++ n ++ ad ++ [Z.of_nat (length ad)] ++ m).

Definition open (k n c ad : list Z) : option (list Z) :=
  let m := take (length c - TagSize) c in
  if bool_decide (c = m ++ tag k n m ad) then Some m else None.

Definition toy : Crypto := {|
  blake2s_Sum256 := digest blake2s_Size;
  blake2s_128 := λ k m, digest blake2s_Size128 (k ++ m);
  ScalarBaseMult := λ a, be_encode 32 ((be_decode a * 9) mod prime);
  ScalarMult := λ a p, be_encode 32 ((be_decode a * be_decode p) mod prime);
  Seal := λ k n m ad, m ++ tag k n m ad;
  Open := open;
  SealX := λ k n m ad, m ++ tag k n m ad;
  OpenX := open;
|}.

Lemma length_tag k n m ad : length (tag k n m ad) = TagSize.
Proof. apply length_be_encode. Qed.

Lemma open_seal k n m ad : open k n (m ++ tag k n m ad) ad = Some m.
Proof.
  unfold open. rewrite length_app, length_tag, Nat.add_sub, take_app_length.
  by rewrite bool_decide_eq_true_2.
Qed.

Lemma open_inv k n c ad m : open k n c ad = Some m → c = m ++ tag k n m ad.
Proof. unfold open. case_bool_decide as H; [|done]. by intros [= <-]. Qed.

Lemma toy_agree a b :
  be_encode 32 ((be_decode a * be_decode (be_encode 32 ((be_decode b * 9) mod prime))) mod prime) =
  be_encode 32 ((be_decode b * be_decode (be_encode 32 ((be_decode a * 9) mod prime))) mod prime).
Proof.
  assert (∀ x, be_decode (be_encode 32 (x mod prime)) = x mod prime) as E.
  { intros x. apply be_decode_encode. pose proof (Z.mod_pos_bound x prime). unfold prime in *. lia. }
  rewrite !E. f_equal. rewrite !Zmult_mod_idemp_r. f_equal. ring.
Qed.

Lemma toy_laws : @CryptoLaws toy.
Proof.
  split; cbn [blake2s_Sum256 blake2s_128 ScalarBaseMult ScalarMult Seal Open SealX OpenX toy]; intros.
  all: try apply length_be_encode.
  all: try (by rewrite length_app, length_tag).
  all: auto using toy_agree, open_seal, open_inv.
Qed.

End ToyCrypto.
