(* ===== verification/Messages.v ===== *)
(** The messages of the WireGuard protocol ([polyamide/device/noise-protocol.go]) and the
    timestamps of [polyamide/tai64n/tai64n.go]: their wire formats. *)

From S2P Require Import Prelude Bytes NetIP Packet Crypto.

Definition MessageInitiationType : Z := 1.
Definition MessageResponseType : Z := 2.
Definition MessageCookieReplyType : Z := 3.
Definition MessageTransportType : Z := 4.

Definition MessageInitiationSize : nat := 148.
Definition MessageResponseSize : nat := 92.
Definition MessageCookieReplySize : nat := 64.
Definition MessageTransportSize : nat := MessageTransportHeaderSize + TagSize.
Definition MessageKeepaliveSize : nat := MessageTransportSize.
Definition MinMessageSize : nat := MessageKeepaliveSize.

Definition MessageTransportOffsetReceiver : nat := 4.
Definition MessageTransportOffsetCounter : nat := 8.
Definition MessageTransportOffsetContent : nat := 16.

(** ** Timestamps *)

Definition TimestampSize : nat := 12.
Definition tai64n_base : Z := 0x400000000000000a.
Definition whitenerMask : Z := 0x1000000 - 1.

(** [stamp] of a time in nanoseconds since 1970. *)
Definition stamp (t : Z) : list Z :=
  let secs := uint64 (tai64n_base + uint64 (t / 1000000000)) in
  let nano := Z.ldiff (uint32 (t mod 1000000000)) whitenerMask in
  be_encode 8 secs ++ be_encode 4 nano.

(** [bytes.Compare]. *)
Fixpoint bytes_Compare (a b : list Z) : comparison :=
  match a, b with
  | [], [] => Eq
  | [], _ => Lt
  | _, [] => Gt
  | x :: a, y :: b => match x ?= y with Eq => bytes_Compare a b | c => c end
  end.

Definition After (t1 t2 : list Z) : bool := match bytes_Compare t1 t2 with Gt => true | _ => false end.

(** ** Messages *)

Record MessageInitiation := mkInitiation {
  mi_Type : Z;
  mi_Sender : Z;
  mi_Ephemeral : list Z;
  mi_Static : list Z;
  mi_Timestamp : list Z;
  mi_MAC1 : list Z;
  mi_MAC2 : list Z;
}.

Record MessageResponse := mkResponse {
  mr_Type : Z;
  mr_Sender : Z;
  mr_Receiver : Z;
  mr_Ephemeral : list Z;
  mr_Empty : list Z;
  mr_MAC1 : list Z;
  mr_MAC2 : list Z;
}.

Record MessageCookieReply := mkCookieReply {
  mc_Type : Z;
  mc_Receiver : Z;
  mc_Nonce : list Z;
  mc_Cookie : list Z;
}.

(** [unmarshal]; [None] is [errMessageLengthMismatch]. *)
Definition unmarshal_initiation (b : list Z) : option MessageInitiation :=
  if decide (length b ≠ MessageInitiationSize) then None
  else Some (mkInitiation (le_decode (take 4 b)) (le_decode (slice 4 8 b)) (slice 8 40 b)
    (slice 40 88 b) (slice 88 116 b) (slice 116 132 b) (slice 132 148 b)).

(** [marshal] into a slice; [None] is [errMessageLengthMismatch]. *)
Definition marshal_initiation (msg : MessageInitiation) (b : list Z) : option (list Z) :=
  if decide (length b ≠ MessageInitiationSize) then None
  else
    let b := write_at 0 (le_encode 4 (mi_Type msg)) b in
    let b := write_at 4 (le_encode 4 (mi_Sender msg)) b in
    let b := write_at 8 (mi_Ephemeral msg) b in
    let b := write_at (8 + length (mi_Ephemeral msg)) (mi_Static msg) b in
    let b := write_at (8 + length (mi_Ephemeral msg) + length (mi_Static msg)) (mi_Timestamp msg) b in
    let b := write_at (8 + length (mi_Ephemeral msg) + length (mi_Static msg) + length (mi_Timestamp msg)) (mi_MAC1 msg) b in
    let b := write_at (8 + length (mi_Ephemeral msg) + length (mi_Static msg) + length (mi_Timestamp msg)
                       + length (mi_MAC1 msg)) (mi_MAC2 msg) b in
    Some b.

Definition unmarshal_response (b : list Z) : option MessageResponse :=
  if decide (length b ≠ MessageResponseSize) then None
  else Some (mkResponse (le_decode (take 4 b)) (le_decode (slice 4 8 b)) (le_decode (slice 8 12 b)) (slice 12 44 b)
    (slice 44 60 b) (slice 60 76 b) (slice 76 92 b)).

Definition marshal_response (msg : MessageResponse) (b : list Z) : option (list Z) :=
  if decide (length b ≠ MessageResponseSize) then None
  else
    let b := write_at 0 (le_encode 4 (mr_Type msg)) b in
    let b := write_at 4 (le_encode 4 (mr_Sender msg)) b in
    let b := write_at 8 (le_encode 4 (mr_Receiver msg)) b in
    let b := write_at 12 (mr_Ephemeral msg) b in
    let b := write_at (12 + length (mr_Ephemeral msg)) (mr_Empty msg) b in
    let b := write_at (12 + length (mr_Ephemeral msg) + length (mr_Empty msg)) (mr_MAC1 msg) b in
    let b := write_at (12 + length (mr_Ephemeral msg) + length (mr_Empty msg) + length (mr_MAC1 msg)) (mr_MAC2 msg) b in
    Some b.

Definition unmarshal_cookie (b : list Z) : option MessageCookieReply :=
  if decide (length b ≠ MessageCookieReplySize) then None
  else Some (mkCookieReply (le_decode (take 4 b)) (le_decode (slice 4 8 b)) (slice 8 32 b) (slice 32 64 b)).

Definition marshal_cookie (msg : MessageCookieReply) (b : list Z) : option (list Z) :=
  if decide (length b ≠ MessageCookieReplySize) then None
  else
    let b := write_at 0 (le_encode 4 (mc_Type msg)) b in
    let b := write_at 4 (le_encode 4 (mc_Receiver msg)) b in
    let b := write_at 8 (mc_Nonce msg) b in
    let b := write_at (8 + length (mc_Nonce msg)) (mc_Cookie msg) b in
    Some b.

(** ** Well-formed messages: the widths of the fields of the Go structs *)

Definition initiation_wf (m : MessageInitiation) : Prop :=
  is_u32 (mi_Type m) ∧ is_u32 (mi_Sender m) ∧ length (mi_Ephemeral m) = NoisePublicKeySize ∧
  length (mi_Static m) = (NoisePublicKeySize + TagSize)%nat ∧ length (mi_Timestamp m) = (TimestampSize + TagSize)%nat ∧
  length (mi_MAC1 m) = blake2s_Size128 ∧ length (mi_MAC2 m) = blake2s_Size128.

Definition response_wf (m : MessageResponse) : Prop :=
  is_u32 (mr_Type m) ∧ is_u32 (mr_Sender m) ∧ is_u32 (mr_Receiver m) ∧ length (mr_Ephemeral m) = NoisePublicKeySize ∧
  length (mr_Empty m) = TagSize ∧ length (mr_MAC1 m) = blake2s_Size128 ∧ length (mr_MAC2 m) = blake2s_Size128.

Definition cookie_wf (m : MessageCookieReply) : Prop :=
  is_u32 (mc_Type m) ∧ is_u32 (mc_Receiver m) ∧ length (mc_Nonce m) = NonceSizeX ∧
  length (mc_Cookie m) = (blake2s_Size128 + TagSize)%nat.

(** ** Writing a message field after field *)

Lemma write_at_next {A} at_ (pre src rest : list A) : at_ = length pre →
  write_at at_ src (pre ++ rest) = (pre ++ src) ++ drop (length src) rest.
Proof.
  intros ->. unfold write_at. rewrite take_app_length, <-drop_drop, drop_app_length. by rewrite (assoc_L (++)).
Qed.

Lemma slice_field {A} lo hi (pre field rest : list A) : lo = length pre → hi = (lo + length field)%nat →
  slice lo hi (pre ++ field ++ rest) = field.
Proof.
  intros -> ->. unfold slice. rewrite drop_app_length. replace (length pre + length field - length pre)%nat with (length field) by lia.
  apply take_app_length.
Qed.

Definition initiation_bytes (m : MessageInitiation) : list Z :=
  le_encode 4 (mi_Type m) ++ le_encode 4 (mi_Sender m) ++ mi_Ephemeral m ++ mi_Static m ++ mi_Timestamp m ++ mi_MAC1 m ++ mi_MAC2 m.

Definition response_bytes (m : MessageResponse) : list Z :=
  le_encode 4 (mr_Type m) ++ le_encode 4 (mr_Sender m) ++ le_encode 4 (mr_Receiver m) ++ mr_Ephemeral m ++ mr_Empty m ++ mr_MAC1 m ++ mr_MAC2 m.

Definition cookie_bytes (m : MessageCookieReply) : list Z :=
  le_encode 4 (mc_Type m) ++ le_encode 4 (mc_Receiver m) ++ mc_Nonce m ++ mc_Cookie m.

(** Unroll the writes of a [marshal] into a concatenation. *)
Ltac unroll_writes :=
  cbv zeta;
  match goal with |- context [write_at 0 ?x ?b] => change b with ([] ++ b); rewrite (write_at_next 0 [] x b) by done end;
  repeat match goal with
  | |- context [write_at ?n ?x (?pre ++ ?rest)] =>
      rewrite (write_at_next n pre x rest) by (rewrite ?length_app, ?length_le_encode; cbn [length]; lia)
  end.

Ltac no_rest :=
  rewrite !drop_drop, drop_ge
    by (match goal with H : length _ = _ |- (length _ <= _)%nat => rewrite H; apply Nat.leb_le; reflexivity end);
  rewrite app_nil_r, <-?(assoc_L (++)); done.

Lemma marshal_initiation_bytes m b : initiation_wf m → length b = MessageInitiationSize →
  marshal_initiation m b = Some (initiation_bytes m).
Proof.
  intros (_ & _ & He & Hs & Ht & H1 & H2) Hb. unfold marshal_initiation. rewrite decide_False by tauto.
  unroll_writes. unfold initiation_bytes. rewrite !length_le_encode, He, Hs, Ht, H1, H2. no_rest.
Qed.

Lemma marshal_response_bytes m b : response_wf m → length b = MessageResponseSize →
  marshal_response m b = Some (response_bytes m).
Proof.
  intros (_ & _ & _ & He & Hs & H1 & H2) Hb. unfold marshal_response. rewrite decide_False by tauto.
  unroll_writes. unfold response_bytes. rewrite !length_le_encode, He, Hs, H1, H2. no_rest.
Qed.

Lemma marshal_cookie_bytes m b : cookie_wf m → length b = MessageCookieReplySize →
  marshal_cookie m b = Some (cookie_bytes m).
Proof.
  intros (_ & _ & Hn & Hc) Hb. unfold marshal_cookie. rewrite decide_False by tauto.
  unroll_writes. unfold cookie_bytes. rewrite !length_le_encode, Hn, Hc. no_rest.
Qed.

(** ** Reading it back *)

Lemma slice_skip {A} n lo' hi' lo hi (a l : list A) : length a = n → (n + lo' = lo)%nat → (n + hi' = hi)%nat →
  slice lo hi (a ++ l) = slice lo' hi' l.
Proof. intros <- <- <-. unfold slice. rewrite drop_app_ge by lia. f_equal; [lia|]. f_equal. lia. Qed.

Lemma slice_first {A} n (a l : list A) : length a = n → slice 0 n (a ++ l) = a.
Proof. intros <-. unfold slice. rewrite drop_0, Nat.sub_0_r. apply take_app_length. Qed.

Lemma slice_all {A} n (a : list A) : length a = n → slice 0 n a = a.
Proof. intros <-. unfold slice. rewrite drop_0, Nat.sub_0_r. by apply take_ge. Qed.

Lemma take_slice {A} n (l : list A) : take n l = slice 0 n l.
Proof. unfold slice. by rewrite drop_0, Nat.sub_0_r. Qed.

(** Pick a field out of a concatenation of fields of known lengths. *)
Ltac length_of a k :=
  match a with
  | le_encode ?n ?z => k n (length_le_encode n z)
  | be_encode ?n ?z => k n (length_be_encode n z)
  | _ => match goal with H : length a = ?n |- _ => k n H end
  end.

Ltac pick :=
  rewrite ?take_slice;
  repeat match goal with
  | |- context [slice ?lo ?hi (?a ++ ?l)] =>
      length_of a ltac:(fun n H =>
        let lo' := eval vm_compute in (lo - n)%nat in
        let hi' := eval vm_compute in (hi - n)%nat in
        rewrite (slice_skip n lo' hi' lo hi a l H eq_refl eq_refl))
  end;
  match goal with
  | |- context [slice 0 ?n (?a ++ ?l)] => length_of a ltac:(fun m H => rewrite (slice_first n a l H))
  | |- context [slice 0 ?n ?a] => length_of a ltac:(fun m H => rewrite (slice_all n a H))
  end.

Lemma u32_le_decode_encode z : is_u32 z → le_decode (le_encode 4 z) = z.
Proof. intros. by apply le_decode_encode. Qed.

#[export] Hint Resolve u32_le_decode_encode : nylon.

Lemma unmarshal_initiation_bytes m : initiation_wf m → unmarshal_initiation (initiation_bytes m) = Some m.
Proof.
  destruct m as [ty se eph st ts m1 m2]; unfold initiation_wf, initiation_bytes;
    cbn [mi_Type mi_Sender mi_Ephemeral mi_Static mi_Timestamp mi_MAC1 mi_MAC2].
  intros (Hty & Hse & He & Hs & Ht & H1 & H2).
  unfold unmarshal_initiation. rewrite decide_False by (rewrite !length_app, !length_le_encode, He, Hs, Ht, H1, H2; tauto).
  f_equal. f_equal; pick; auto with nylon.
Qed.

Lemma unmarshal_response_bytes m : response_wf m → unmarshal_response (response_bytes m) = Some m.
Proof.
  destruct m as [ty se re eph em m1 m2]; unfold response_wf, response_bytes;
    cbn [mr_Type mr_Sender mr_Receiver mr_Ephemeral mr_Empty mr_MAC1 mr_MAC2].
  intros (Hty & Hse & Hre & He & Hs & H1 & H2).
  unfold unmarshal_response. rewrite decide_False by (rewrite !length_app, !length_le_encode, He, Hs, H1, H2; tauto).
  f_equal. f_equal; pick; auto with nylon.
Qed.

Lemma unmarshal_cookie_bytes m : cookie_wf m → unmarshal_cookie (cookie_bytes m) = Some m.
Proof.
  destruct m as [ty re n ck]; unfold cookie_wf, cookie_bytes; cbn [mc_Type mc_Receiver mc_Nonce mc_Cookie].
  intros (Hty & Hre & Hn & Hc).
  unfold unmarshal_cookie. rewrite decide_False by (rewrite !length_app, !length_le_encode, Hn, Hc; tauto).
  f_equal. f_equal; pick; auto with nylon.
Qed.

Lemma slice_app_split {A} lo mid hi (l : list A) : (lo <= mid <= hi)%nat →
  slice lo hi l = slice lo mid l ++ slice mid hi l.
Proof.
  intros. unfold slice. replace (hi - lo)%nat with ((mid - lo) + (hi - mid))%nat by lia.
  rewrite <-take_take_drop, drop_drop. do 2 f_equal. f_equal. lia.
Qed.

Lemma le_field l n : Forall is_byte l → length l = n → le_encode n (le_decode l) = l.
Proof. intros H <-. by apply le_encode_decode. Qed.

Lemma u32_slice b lo hi : Forall is_byte b → hi = (lo + 4)%nat → (hi <= length b)%nat → is_u32 (le_decode (slice lo hi b)).
Proof.
  intros Hb -> Hl. pose proof (le_decode_range (slice lo (lo + 4) b)) as R.
  rewrite length_slice in R by done. replace (lo + 4 - lo)%nat with 4%nat in R by lia. by apply R, slice_bytes.
Qed.

(** The widths of a message that was read, and that writing it gives back what was read. *)
Ltac of_bytes Hb :=
  destruct (decide _) as [|Hl]; [done|]; apply dec_stable in Hl;
  match type of Hl with length _ = ?n => let n' := eval vm_compute in n in change n with n' in Hl end;
  intros [= <-];
  cbn [mi_Type mi_Sender mi_Ephemeral mi_Static mi_Timestamp mi_MAC1 mi_MAC2 mr_Type mr_Sender mr_Receiver mr_Ephemeral
       mr_Empty mr_MAC1 mr_MAC2 mc_Type mc_Receiver mc_Nonce mc_Cookie];
  rewrite take_slice, ?length_slice by lia;
  rewrite ?(le_field _ 4) by first [by apply slice_bytes | rewrite length_slice by lia; lia];
  split; [repeat (split; [first [apply u32_slice; [done|lia|lia]|done]|]); done|];
  rewrite <-!slice_app_split by lia; by apply slice_all.

Lemma initiation_of_bytes b m : Forall is_byte b → unmarshal_initiation b = Some m →
  initiation_wf m ∧ initiation_bytes m = b.
Proof. intros Hb. unfold unmarshal_initiation, initiation_wf, initiation_bytes. of_bytes Hb. Qed.

Lemma response_of_bytes b m : Forall is_byte b → unmarshal_response b = Some m →
  response_wf m ∧ response_bytes m = b.
Proof. intros Hb. unfold unmarshal_response, response_wf, response_bytes. of_bytes Hb. Qed.

Lemma cookie_of_bytes b m : Forall is_byte b → unmarshal_cookie b = Some m →
  cookie_wf m ∧ cookie_bytes m = b.
Proof. intros Hb. unfold unmarshal_cookie, cookie_wf, cookie_bytes. of_bytes Hb. Qed.

(** The wire format loses nothing: what [marshal] writes into a buffer of the right
    size, [unmarshal] reads back, for each of the three handshake messages; and a datagram
    that [unmarshal] accepts is exactly what [marshal] writes for the message read. *)
Theorem messages_roundtrip (mi : MessageInitiation) (mr : MessageResponse) (mc : MessageCookieReply) (b : list Z) :
  initiation_wf mi → response_wf mr → cookie_wf mc → Forall is_byte b →
  (length b = MessageInitiationSize →
     (∃ b', marshal_initiation mi b = Some b' ∧ unmarshal_initiation b' = Some mi) ∧
     (∃ m, unmarshal_initiation b = Some m ∧ initiation_wf m ∧ marshal_initiation m b = Some b)) ∧
  (length b = MessageResponseSize →
     (∃ b', marshal_response mr b = Some b' ∧ unmarshal_response b' = Some mr) ∧
     (∃ m, unmarshal_response b = Some m ∧ response_wf m ∧ marshal_response m b = Some b)) ∧
  (length b = MessageCookieReplySize →
     (∃ b', marshal_cookie mc b = Some b' ∧ unmarshal_cookie b' = Some mc) ∧
     (∃ m, unmarshal_cookie b = Some m ∧ cookie_wf m ∧ marshal_cookie m b = Some b)).
Proof.
  intros Hi Hr Hc Hb. split_and!; intros Hl; (split; [eexists|]).
  - split; [by apply marshal_initiation_bytes|by apply unmarshal_initiation_bytes].
  - destruct (unmarshal_initiation b) as [m|] eqn:E; [|unfold unmarshal_initiation in E; by rewrite decide_False in E by tauto].
    destruct (initiation_of_bytes b m Hb E) as [Hw <-]. exists m. by rewrite marshal_initiation_bytes.
  - split; [by apply marshal_response_bytes|by apply unmarshal_response_bytes].
  - destruct (unmarshal_response b) as [m|] eqn:E; [|unfold unmarshal_response in E; by rewrite decide_False in E by tauto].
    destruct (response_of_bytes b m Hb E) as [Hw <-]. exists m. by rewrite marshal_response_bytes.
  - split; [by apply marshal_cookie_bytes|by apply unmarshal_cookie_bytes].
  - destruct (unmarshal_cookie b) as [m|] eqn:E; [|unfold unmarshal_cookie in E; by rewrite decide_False in E by tauto].
    destruct (cookie_of_bytes b m Hb E) as [Hw <-]. exists m. by rewrite marshal_cookie_bytes.
Qed.

Definition demo_initiation : MessageInitiation :=
  mkInitiation 1 0xdeadbeef (replicate 32 1) (replicate 48 2) (replicate 28 3) (replicate 16 4) (replicate 16 5).

Definition demo_response : MessageResponse :=
  mkResponse 2 0xcafe 0xdeadbeef (replicate 32 1) (replicate 16 2) (replicate 16 4) (replicate 16 5).

Definition demo_cookie : MessageCookieReply := mkCookieReply 3 7 (replicate 24 8) (replicate 32 9).

Lemma messages_roundtrip_witness :
  ∃ b', marshal_response demo_response (zeros 92) = Some b' ∧ unmarshal_response b' = Some demo_response.
Proof.
  refine (proj1 (proj1 (proj2 (messages_roundtrip demo_initiation demo_response demo_cookie (zeros 92) _ _ _ _)) eq_refl)).
  all: repeat split; try done. by apply Forall_replicate.
Defined.

(** ** Timestamps *)

Lemma bytes_Compare_decode a b : length a = length b → Forall is_byte a → Forall is_byte b →
  bytes_Compare a b = (be_decode a ?= be_decode b).
Proof.
  revert b. induction a as [|x a IH]; intros [|y b] [=] Ha Hb; [done|].
  apply Forall_cons in Ha as [Hx Ha], Hb as [Hy Hb]. cbn [bytes_Compare]. rewrite IH by done.
  pose proof (be_decode_range a Ha). pose proof (be_decode_range b Hb).
  rewrite !be_decode_cons. replace (length b) with (length a) in * by done.
  destruct (x ?= y) eqn:E; symmetry; rewrite ?Z.compare_eq_iff, ?Z.compare_lt_iff, ?Z.compare_gt_iff in *; [subst; by rewrite Z.add_compare_mono_l|nia..].
Qed.

(** A valid timestamp: the bytes of a [Timestamp] array. *)
Definition timestamp_wf (t : list Z) : Prop := length t = TimestampSize ∧ Forall is_byte t.

Lemma After_decode t1 t2 : timestamp_wf t1 → timestamp_wf t2 → After t1 t2 = (be_decode t2 <? be_decode t1).
Proof.
  intros [H1 B1] [H2 B2]. unfold After. rewrite bytes_Compare_decode by congruence.
  destruct (Z.compare_spec (be_decode t1) (be_decode t2)); symmetry; [apply Z.ltb_ge|apply Z.ltb_ge|apply Z.ltb_lt]; lia.
Qed.

Lemma After_irrefl t : After t t = false.
Proof. unfold After. induction t as [|x t IH]; [done|]. cbn. by rewrite Z.compare_refl. Qed.

Lemma After_trans t1 t2 t3 : timestamp_wf t1 → timestamp_wf t2 → timestamp_wf t3 →
  After t1 t2 = true → After t2 t3 = true → After t1 t3 = true.
Proof. intros. rewrite !After_decode in * by done. to_prop. apply Z.ltb_lt. lia. Qed.

Lemma stamp_wf t : timestamp_wf (stamp t).
Proof. split; [done|]. unfold stamp. apply Forall_app. auto with nylon. Qed.

Lemma ldiff_mask x : Z.ldiff x whitenerMask = x - x mod 2 ^ 24.
Proof.
  change whitenerMask with (Z.ones 24). rewrite Z.ldiff_ones_r by lia.
  rewrite Z.shiftl_mul_pow2, Z.shiftr_div_pow2 by lia. pose proof (Z.div_mod x (2 ^ 24)). lia.
Qed.

Lemma stamp_decode t : 0 <= t < 2 ^ 62 * 1000000000 →
  be_decode (stamp t) = (tai64n_base + t / 1000000000) * 2 ^ 32 + (t mod 1000000000 - (t mod 1000000000) mod 2 ^ 24).
Proof.
  intros Ht. unfold stamp. rewrite be_decode_app, length_be_encode, ldiff_mask.
  assert (0 <= t / 1000000000 < 2 ^ 62) by (split; [apply Z.div_pos; lia|apply Z.div_lt_upper_bound; lia]).
  pose proof (Z.mod_pos_bound t 1000000000).
  rewrite (wrap_small 32) by (unfold in_width; lia).
  rewrite (wrap_small 64 (t / 1000000000)) by (unfold in_width; lia).
  rewrite (wrap_small 64) by (unfold in_width, tai64n_base; lia).
  pose proof (Z.mod_le (t mod 1000000000) (2 ^ 24)). pose proof (Z.mod_pos_bound (t mod 1000000000) (2 ^ 24)).
  rewrite !be_decode_encode by (unfold tai64n_base; lia). done.
Qed.

(** The timestamp of an initiation orders handshakes by time: a later time never has
    a timestamp that comes before, times a whitening step (2^24 ns, about 17 ms) apart have
    timestamps in that order, and [After] is a strict order on timestamps. *)
Theorem stamp_monotone (t1 t2 : Z) : 0 <= t1 → t1 <= t2 → t2 < 2 ^ 62 * 1000000000 →
  After (stamp t1) (stamp t2) = false ∧
  (t1 + 2 ^ 24 <= t2 → After (stamp t2) (stamp t1) = true).
Proof.
  intros H0 H12 H2. rewrite !After_decode, !stamp_decode by first [apply stamp_wf|lia].
  pose proof (Z.div_mod t1 1000000000 ltac:(lia)). pose proof (Z.div_mod t2 1000000000 ltac:(lia)).
  pose proof (Z.mod_pos_bound t1 1000000000 ltac:(lia)). pose proof (Z.mod_pos_bound t2 1000000000 ltac:(lia)).
  pose proof (Z.div_le_mono t1 t2 1000000000 ltac:(lia) H12).
  set (s1 := t1 / 1000000000) in *. set (s2 := t2 / 1000000000) in *.
  set (n1 := t1 mod 1000000000) in *. set (n2 := t2 mod 1000000000) in *.
  pose proof (Z.mod_pos_bound n1 (2 ^ 24) ltac:(lia)). pose proof (Z.mod_pos_bound n2 (2 ^ 24) ltac:(lia)).
  pose proof (Z.div_mod n1 (2 ^ 24) ltac:(lia)). pose proof (Z.div_mod n2 (2 ^ 24) ltac:(lia)).
  destruct (decide (s1 = s2)) as [E|NE].
  - pose proof (Z.div_le_mono n1 n2 (2 ^ 24) ltac:(lia) ltac:(lia)). split; [apply Z.ltb_ge; lia|intros; apply Z.ltb_lt; lia].
  - assert (s1 + 1 <= s2) by lia. split; [apply Z.ltb_ge|intros; apply Z.ltb_lt]; lia.
Qed.

Lemma stamp_monotone_witness : After (stamp 1700000000016777216) (stamp 1700000000000000000) = true.
Proof. apply (proj2 (stamp_monotone 1700000000000000000 1700000000016777216 ltac:(lia) ltac:(lia) ltac:(lia))). lia. Defined.

(** Within a whitening step the timestamps may coincide. *)
Lemma stamp_whitened : After (stamp 1700000000000000001) (stamp 1700000000000000000) = false.
Proof. by vm_compute. Qed.
