(* ===== verification/Cookie.v ===== *)
(** Denial-of-service protection of the handshake ([polyamide/device/cookie.go]): the two
    MACs at the end of a handshake message, and the cookies a device under load hands out.

    [rand.Read] is [rand_Read]; a slice expression that would be out of range is a
    panic, [None]. *)

From S2P Require Import Prelude Bytes NetIP Float64 Metric Routing Endpoint Crypto Messages.

Definition CookieRefreshTime : Z := Second * 120.

(** ["mac1----"] and ["cookie--"]. *)
Definition WGLabelMAC1 : list Z := [109; 97; 99; 49; 45; 45; 45; 45].
Definition WGLabelCookie : list Z := [99; 111; 111; 107; 105; 101; 45; 45].

Record CookieChecker := mkChecker {
  cc_mac1_key : list Z;
  cc_mac2_secret : list Z;
  cc_mac2_secretSet : Z;
  cc_mac2_encryptionKey : list Z;
}.

Record CookieGenerator := mkGenerator {
  cg_mac1_key : list Z;
  cg_mac2_cookie : list Z;
  cg_mac2_cookieSet : Z;
  cg_mac2_hasLastMAC1 : bool;
  cg_mac2_lastMAC1 : list Z;
  cg_mac2_encryptionKey : list Z;
}.

Definition zero_checker : CookieChecker := mkChecker (zeros 32) (zeros 32) ZeroTime (zeros 32).
Definition zero_generator : CookieGenerator := mkGenerator (zeros 32) (zeros 16) ZeroTime false (zeros 16) (zeros 32).

(** The offsets of the MACs in a message; [None] when the message is too short for them. *)
Definition mac_offsets (size : nat) : option (nat * nat) :=
  if decide (size < 2 * blake2s_Size128)%nat then None
  else Some (size - blake2s_Size128 - blake2s_Size128, size - blake2s_Size128)%nat.

Section cookie.
Context `{CR : Crypto}.

Definition CookieChecker_Init (st : CookieChecker) (pk : list Z) : CookieChecker :=
  mkChecker (blake2s_Sum256 (WGLabelMAC1 ++ pk)) (cc_mac2_secret st) ZeroTime (blake2s_Sum256 (WGLabelCookie ++ pk)).

Definition CheckMAC1 (st : CookieChecker) (msg : list Z) : option bool :=
  '(smac1, smac2) ← mac_offsets (length msg);
  let mac1 := blake2s_128 (cc_mac1_key st) (take smac1 msg) in
  Some (ConstantTimeEqual mac1 (slice smac1 smac2 msg)).

Definition CheckMAC2 (now : Z) (st : CookieChecker) (msg src : list Z) : option bool :=
  if CookieRefreshTime <? time_Sub now (cc_mac2_secretSet st) then Some false
  else
    let cookie := blake2s_128 (cc_mac2_secret st) src in
    if decide (length msg < blake2s_Size128)%nat then None
    else
      let smac2 := (length msg - blake2s_Size128)%nat in
      let mac2 := blake2s_128 cookie (take smac2 msg) in
      Some (ConstantTimeEqual mac2 (drop smac2 msg)).

(** The error result is a failure of the random source. *)
Definition CreateReply (now : Z) (st : CookieChecker) (rnd : Entropy) (msg : list Z) (recv : Z) (src : list Z)
    : option (option MessageCookieReply * CookieChecker * Entropy) :=
  let '(st, ok, rnd) :=
    if CookieRefreshTime <? time_Sub now (cc_mac2_secretSet st) then
      let '(secret, ok, rnd) := rand_Read blake2s_Size rnd in
      if (ok : bool) then (mkChecker (cc_mac1_key st) secret now (cc_mac2_encryptionKey st), true, rnd)
      else (mkChecker (cc_mac1_key st) secret (cc_mac2_secretSet st) (cc_mac2_encryptionKey st), false, rnd)
    else (st, true, rnd) in
  if negb ok then Some (None, st, rnd)
  else
    let cookie := blake2s_128 (cc_mac2_secret st) src in
    let '(nonce, ok, rnd) := rand_Read NonceSizeX rnd in
    if negb ok then Some (None, st, rnd)
    else
      '(smac1, smac2) ← mac_offsets (length msg);
      Some (Some (mkCookieReply MessageCookieReplyType recv nonce
                    (SealX (cc_mac2_encryptionKey st) nonce cookie (slice smac1 smac2 msg))), st, rnd).

Definition CookieGenerator_Init (st : CookieGenerator) (pk : list Z) : CookieGenerator :=
  mkGenerator (blake2s_Sum256 (WGLabelMAC1 ++ pk)) (cg_mac2_cookie st) ZeroTime (cg_mac2_hasLastMAC1 st)
    (cg_mac2_lastMAC1 st) (blake2s_Sum256 (WGLabelCookie ++ pk)).

Definition ConsumeReply (now : Z) (st : CookieGenerator) (msg : MessageCookieReply) : bool * CookieGenerator :=
  if negb (cg_mac2_hasLastMAC1 st) then (false, st)
  else
    match OpenX (cg_mac2_encryptionKey st) (mc_Nonce msg) (mc_Cookie msg) (cg_mac2_lastMAC1 st) with
    | None => (false, st)
    | Some cookie =>
        (true, mkGenerator (cg_mac1_key st) cookie now (cg_mac2_hasLastMAC1 st) (cg_mac2_lastMAC1 st)
                 (cg_mac2_encryptionKey st))
    end.

(** The message with its MACs written in place. *)
Definition AddMacs (now : Z) (st : CookieGenerator) (msg : list Z) : option (list Z * CookieGenerator) :=
  '(smac1, smac2) ← mac_offsets (length msg);
  let mac1 := blake2s_128 (cg_mac1_key st) (take smac1 msg) in
  let msg := write_at smac1 mac1 msg in
  let st := mkGenerator (cg_mac1_key st) (cg_mac2_cookie st) (cg_mac2_cookieSet st) true mac1 (cg_mac2_encryptionKey st) in
  if CookieRefreshTime <? time_Sub now (cg_mac2_cookieSet st) then Some (msg, st)
  else
    let mac2 := blake2s_128 (cg_mac2_cookie st) (take smac2 msg) in
    Some (write_at smac2 mac2 msg, st).

End cookie.

(** ** Facts *)

Section cookie_facts.
Context `{CR : Crypto} `{CL : !CryptoLaws}.
Implicit Types (st : CookieChecker) (g : CookieGenerator).

Lemma mac_offsets_Some size : (2 * blake2s_Size128 <= size)%nat →
  mac_offsets size = Some (size - 32, size - 16)%nat.
Proof. intros. unfold mac_offsets. rewrite decide_False by lia. do 2 f_equal. unfold blake2s_Size128. lia. Qed.

Lemma take_write_at {A} at_ n (src dst : list A) : (n <= at_)%nat → (at_ <= length dst)%nat →
  take n (write_at at_ src dst) = take n dst.
Proof. intros. unfold write_at. rewrite take_app_le by (rewrite length_take; lia). rewrite take_take. f_equal. lia. Qed.

(** What [AddMacs] writes: the message keeps its length and its content before the MACs,
    and the first MAC is that of this content. *)
Lemma AddMacs_spec now g msg : (2 * blake2s_Size128 <= length msg)%nat →
  ∃ msg' g', AddMacs now g msg = Some (msg', g') ∧
    length msg' = length msg ∧
    take (length msg - 32) msg' = take (length msg - 32) msg ∧
    slice (length msg - 32) (length msg - 16) msg' = blake2s_128 (cg_mac1_key g) (take (length msg - 32) msg) ∧
    cg_mac2_hasLastMAC1 g' = true ∧
    cg_mac2_lastMAC1 g' = blake2s_128 (cg_mac1_key g) (take (length msg - 32) msg) ∧
    cg_mac1_key g' = cg_mac1_key g ∧ cg_mac2_encryptionKey g' = cg_mac2_encryptionKey g ∧
    cg_mac2_cookie g' = cg_mac2_cookie g ∧ cg_mac2_cookieSet g' = cg_mac2_cookieSet g ∧
    (time_Sub now (cg_mac2_cookieSet g) <= CookieRefreshTime →
     drop (length msg - 16) msg' = blake2s_128 (cg_mac2_cookie g) (take (length msg - 16) msg')) ∧
    (CookieRefreshTime < time_Sub now (cg_mac2_cookieSet g) → drop (length msg - 16) msg' = drop (length msg - 16) msg).
Proof.
  unfold blake2s_Size128. intros Hl. unfold AddMacs. rewrite mac_offsets_Some by done. cbn [mbind option_bind].
  set (m1 := blake2s_128 _ _). assert (length m1 = 16)%nat as H1 by apply length_128.
  set (msg1 := write_at _ m1 msg).
  assert (length msg1 = length msg) as L1 by (apply length_write_at; lia).
  assert (take (length msg - 32) msg1 = take (length msg - 32) msg) as T1 by (apply take_write_at; lia).
  assert (slice (length msg - 32) (length msg - 16) msg1 = m1) as S1.
  { replace (length msg - 16)%nat with (length msg - 32 + length m1)%nat by lia. apply slice_write_at. lia. }
  assert (drop (length msg - 16) msg1 = drop (length msg - 16) msg) as D1.
  { unfold msg1, write_at. rewrite (assoc_L (++)), drop_app_ge by (rewrite length_app, length_take; lia).
    rewrite length_app, length_take, drop_drop. f_equal. lia. }
  cbn [cg_mac2_cookieSet]. destruct (CookieRefreshTime <? _) eqn:E; to_prop.
  { eexists _, _. split; [done|]. cbn. split_and!; try done. lia. }
  set (m2 := blake2s_128 _ _). assert (length m2 = 16)%nat as H2 by apply length_128.
  eexists _, _. split; [done|]. cbn [cg_mac1_key cg_mac2_cookie cg_mac2_cookieSet cg_mac2_hasLastMAC1 cg_mac2_lastMAC1 cg_mac2_encryptionKey].
  split_and!; try done; try lia.
  - rewrite length_write_at by lia. done.
  - rewrite take_write_at by lia. done.
  - rewrite slice_write_at_ne by lia. done.
  - intros _. rewrite take_write_at by lia.
    unfold write_at. rewrite drop_app_ge by (rewrite length_take; lia). rewrite length_take.
    replace (length msg - 16 - _)%nat with 0%nat by lia. rewrite drop_0, drop_ge by lia. by rewrite app_nil_r.
Qed.

(** A message with MACs made for a key passes the first check of the device with that key. *)
Lemma CheckMAC1_AddMacs now g st msg msg' g' : cg_mac1_key g = cc_mac1_key st → (2 * blake2s_Size128 <= length msg)%nat →
  AddMacs now g msg = Some (msg', g') → CheckMAC1 st msg' = Some true.
Proof.
  intros Hk Hl H. destruct (AddMacs_spec now g msg Hl) as (? & ? & H' & L & T & S & _). rewrite H in H'. injection H' as <- <-.
  unfold CheckMAC1. rewrite mac_offsets_Some by (rewrite L; done). cbn [mbind option_bind]. rewrite L.
  unfold blake2s_Size128 in *. rewrite T, S, Hk. unfold ConstantTimeEqual. by rewrite bool_decide_eq_true_2.
Qed.

Lemma time_Sub_self t : time_Sub t t = 0.
Proof. unfold time_Sub. by rewrite Z.sub_diag. Qed.

(** The reply a device under load sends. *)
Lemma CreateReply_spec now st rnd msg recv src reply st' rnd' : (2 * blake2s_Size128 <= length msg)%nat →
  CreateReply now st rnd msg recv src = Some (Some reply, st', rnd') →
  cc_mac1_key st' = cc_mac1_key st ∧ cc_mac2_encryptionKey st' = cc_mac2_encryptionKey st ∧
  time_Sub now (cc_mac2_secretSet st') <= CookieRefreshTime ∧
  length (mc_Nonce reply) = NonceSizeX ∧ mc_Type reply = MessageCookieReplyType ∧ mc_Receiver reply = recv ∧
  mc_Cookie reply = SealX (cc_mac2_encryptionKey st) (mc_Nonce reply) (blake2s_128 (cc_mac2_secret st') src)
    (slice (length msg - 32) (length msg - 16) msg).
Proof.
  intros Hl H. unfold CreateReply in H. rewrite mac_offsets_Some in H by done.
  assert (∀ rnd secret ok rnd' n, rand_Read n rnd = (secret, ok, rnd') → length secret = n) as Hr.
  { intros r ? ? ? n Hn. destruct r as [|[b o] r]; injection Hn as <- <- <-; [apply length_zeros|apply length_array_of]. }
  destruct (CookieRefreshTime <? _) eqn:E; to_prop.
  - destruct (rand_Read blake2s_Size rnd) as [[secret ok] rnd1] eqn:R1. destruct ok; cbn in H; [|done].
    destruct (rand_Read NonceSizeX rnd1) as [[nonce ok] rnd2] eqn:R2. destruct ok; cbn in H; [|done].
    injection H as <- <- <-. cbn. split_and!; try done; [|by eapply Hr].
    by rewrite time_Sub_self.
  - cbn in H. destruct (rand_Read NonceSizeX rnd) as [[nonce ok] rnd2] eqn:R2. destruct ok; cbn in H; [|done].
    injection H as <- <- <-. cbn. split_and!; try done. by eapply Hr.
Qed.

(** the cookie exchange: a device under load answers a handshake message with a
    cookie that its sender can read (a reply to another message is not), and for as long as
    both sides hold the cookie fresh, the messages the sender makes pass both MAC checks of
    the device, from the same address. *)
Theorem cookie_accepted (t1 t2 t3 : Z) (pk msg1 msg1' src : list Z) (recv : Z)
    (st0 st1 : CookieChecker) (g0 g1 : CookieGenerator) (rnd rnd1 : Entropy) (reply : MessageCookieReply) :
  (2 * blake2s_Size128 <= length msg1)%nat →
  AddMacs t1 (CookieGenerator_Init g0 pk) msg1 = Some (msg1', g1) →
  CreateReply t2 (CookieChecker_Init st0 pk) rnd msg1' recv src = Some (Some reply, st1, rnd1) →
  ∃ g2, ConsumeReply t3 g1 reply = (true, g2) ∧
  ∀ t4 t5 msg2 msg2' g3, (2 * blake2s_Size128 <= length msg2)%nat →
    AddMacs t4 g2 msg2 = Some (msg2', g3) →
    CheckMAC1 st1 msg2' = Some true ∧
    (time_Sub t4 t3 <= CookieRefreshTime → time_Sub t5 (cc_mac2_secretSet st1) <= CookieRefreshTime →
     CheckMAC2 t5 st1 msg2' src = Some true).
Proof.
  intros Hl Hm Hr.
  destruct (AddMacs_spec t1 (CookieGenerator_Init g0 pk) msg1 Hl) as (? & ? & Hm' & L & T & S & Hh & Hlast & Hk1 & Hke & _).
  rewrite Hm in Hm'. injection Hm' as <- <-.
  apply CreateReply_spec in Hr as (K1 & _ & _ & _ & _ & _ & Hc); [|by rewrite L].
  unfold ConsumeReply. rewrite Hh, Hke, Hlast, Hc, L, S. cbn [negb cc_mac2_encryptionKey CookieChecker_Init cg_mac2_encryptionKey CookieGenerator_Init].
  rewrite OpenX_SealX. eexists. split; [done|]. intros t4 t5 msg2 msg2' g3 Hl2 H2.
  split; [eapply CheckMAC1_AddMacs; [|done|exact H2]; cbn; by rewrite K1, Hk1|].
  intros F4 F5. match type of H2 with AddMacs _ ?g _ = _ =>
    destruct (AddMacs_spec t4 g msg2 Hl2) as (? & ? & H2' & L2 & _ & _ & _ & _ & _ & _ & _ & _ & D & _) end.
  rewrite H2 in H2'. injection H2' as <- <-. cbn [cg_mac2_cookieSet cg_mac2_cookie] in D. specialize (D F4).
  unfold CheckMAC2. rewrite (proj2 (Z.ltb_ge _ _)) by done. unfold blake2s_Size128 in *. rewrite decide_False by lia.
  rewrite L2. unfold ConstantTimeEqual. by rewrite D, bool_decide_eq_true_2.
Qed.

(** A cookie expires: a device never accepts the second MAC after the refresh time of its secret. *)
Lemma CheckMAC2_expired now st msg src : CookieRefreshTime < time_Sub now (cc_mac2_secretSet st) →
  CheckMAC2 now st msg src = Some false.
Proof. intros. unfold CheckMAC2. by rewrite (proj2 (Z.ltb_lt _ _)). Qed.

End cookie_facts.

Module CookieDemo.

#[local] Existing Instances ToyCrypto.toy ToyCrypto.toy_laws.

Definition pk : list Z := replicate 32 5.
Definition src : list Z := [192; 0; 2; 1; 108; 202].
Definition rnd : Entropy := [(replicate 32 9, true); (replicate 24 3, true)].

Definition sent := AddMacs 100 (CookieGenerator_Init zero_generator pk) (replicate 148 1).
Definition msg : list Z := from_option fst [] sent.
Definition gen : CookieGenerator := from_option snd zero_generator sent.
Definition answered := CreateReply 200 (CookieChecker_Init zero_checker pk) rnd msg 77 src.
Definition checker : CookieChecker := from_option (λ x, x.1.2) zero_checker answered.
Definition reply : MessageCookieReply := default (mkCookieReply 0 0 [] []) (x ← answered; x.1.1).
Definition gen2 : CookieGenerator := (ConsumeReply 300 gen reply).2.
Definition retry := AddMacs 400 gen2 (replicate 148 1).

Lemma cookie_accepted_witness :
  CheckMAC2 500 checker (from_option fst [] retry) src = Some true ∧ CheckMAC2 500 checker msg src = Some false.
Proof.
  split; [|by vm_compute].
  destruct (cookie_accepted 100 200 300 pk (replicate 148 1) msg src 77 zero_checker checker zero_generator gen rnd [] reply)
    as (g2 & Hg & Hnext); [vm_compute; lia|by vm_compute|by vm_compute|].
  assert (g2 = gen2) as -> by (unfold gen2; by rewrite Hg).
  apply (Hnext 400 500 (replicate 148 1) (from_option fst [] retry) (from_option snd zero_generator retry));
    [vm_compute; lia|by vm_compute|by vm_compute|by vm_compute].
Defined.

End CookieDemo.
