(* ===== verification/WireGuard.v ===== *)
(** The state of a WireGuard device and its handshake: [polyamide/device/device.go],
    [peer.go], [keypair.go], [indextable.go] and [noise-protocol.go].

    Go shares peers, keypairs and endpoints by pointer.  A pointer is a number, and [World]
    has a store for each kind of object besides the fields of the [Device] struct and what
    the device sees of the outside: the clock, the random source, the datagrams handed to
    the socket.  A lookup of an unused number reads a zero object; the operations
    only follow pointers that were allocated.  Locks are left out: an operation runs to its
    end. *)

From S2P Require Import Prelude Bytes NetIP Float64 Metric Routing Endpoint Packet AllowedIPs RateLimiter Replay Crypto Messages Cookie.

Abbreviation PeerRef := nat.
Abbreviation KeypairRef := nat.
Abbreviation EndpointRef := nat.

(** ** Constants *)

Definition RekeyAfterMessages : Z := Z.shiftl 1 60.
Definition RejectAfterMessages : Z := Z.shiftl 1 64 - Z.shiftl 1 13 - 1.
Definition RekeyAfterTime : Z := Second * 120.
Definition RekeyTimeout : Z := Second * 5.
Definition MaxTimerHandshakes : Z := 90 / 5.
Definition RekeyTimeoutJitterMaxMs : Z := 334.
Definition RejectAfterTime : Z := Second * 180.
Definition KeepaliveTimeout : Z := Second * 10.
Definition HandshakeInitationRate : Z := Second / 50.
Definition PaddingMultiple : Z := 16.
Definition UnderLoadAfterTime : Z := Second.
Definition MaxPeers : nat := 2 ^ 16.
Definition QueueStagedSize : nat := 128.
Definition QueueHandshakeSize : nat := 1024.

(** ["Noise_IKpsk2_25519_ChaChaPoly_BLAKE2s"] and ["WireGuard v1 zx2c4 Jason@zx2c4.com"]. *)
Definition NoiseConstruction : list Z := string_bytes "Noise_IKpsk2_25519_ChaChaPoly_BLAKE2s".
Definition WGIdentifier : list Z := string_bytes "WireGuard v1 zx2c4 Jason@zx2c4.com".
Definition ZeroNonce : list Z := zeros NonceSize.

(** ** Objects *)

Inductive handshakeState :=
| handshakeZeroed
| handshakeInitiationCreated
| handshakeInitiationConsumed
| handshakeResponseCreated
| handshakeResponseConsumed.

#[export] Instance handshakeState_eq_dec : EqDecision handshakeState.
Proof. solve_decision. Defined.

Record Handshake := mkHandshake {
  hs_state : handshakeState;
  hs_hash : list Z;
  hs_chainKey : list Z;
  hs_presharedKey : list Z;
  hs_localEphemeral : list Z;
  hs_localIndex : Z;
  hs_remoteIndex : Z;
  hs_remoteStatic : list Z;
  hs_remoteEphemeral : list Z;
  hs_precomputedStaticStatic : list Z;
  hs_lastTimestamp : list Z;
  hs_lastInitiationConsumption : Z;
  hs_lastSentHandshake : Z;
}.

Definition zero_handshake : Handshake :=
  mkHandshake handshakeZeroed (zeros 32) (zeros 32) (zeros 32) (zeros 32) 0 0 (zeros 32) (zeros 32) (zeros 32)
    (zeros TimestampSize) ZeroTime ZeroTime.

(** A [cipher.AEAD] is its key. *)
Record Keypair := mkKeypair {
  kp_sendNonce : Z;
  kp_send : list Z;
  kp_receive : list Z;
  kp_replayFilter : Filter;
  kp_isInitiator : bool;
  kp_created : Z;
  kp_localIndex : Z;
  kp_remoteIndex : Z;
}.

#[export] Instance Keypair_inhabited : Inhabited Keypair :=
  populate (mkKeypair 0 [] [] zero_filter false ZeroTime 0 0).

Record Keypairs := mkKeypairs {
  kps_current : option KeypairRef;
  kps_previous : option KeypairRef;
  kps_next : option KeypairRef;
}.

(** An entry of the index table; the handshake is that of a peer. *)
Record IndexTableEntry := mkIndexEntry {
  ie_peer : option PeerRef;
  ie_handshake : option PeerRef;
  ie_keypair : option KeypairRef;
}.

Definition zero_index_entry : IndexTableEntry := mkIndexEntry None None None.

(** [Timer]: whether it is pending, and when the runtime timer fires. *)
Record Timer := mkTimer { isPending : bool; tm_fires : option Z }.

Definition NewTimer : Timer := mkTimer false None.
Definition Timer_Mod (now d : Z) (t : Timer) : Timer := mkTimer true (Some (now + d)).
Definition Timer_Del (t : Timer) : Timer := mkTimer false None.
Definition IsPending (t : Timer) : bool := isPending t.

Record Timers := mkTimers {
  ti_retransmitHandshake : Timer;
  ti_sendKeepalive : Timer;
  ti_newHandshake : Timer;
  ti_zeroKeyMaterial : Timer;
  ti_persistentKeepalive : Timer;
  ti_lastReceived : Z;
  ti_handshakeAttempts : Z;
  ti_needAnotherKeepalive : bool;
  ti_sentLastMinuteHandshake : bool;
}.

Definition zero_timers : Timers := mkTimers NewTimer NewTimer NewTimer NewTimer NewTimer 0 0 false false.

Record Endpoints := mkEndpoints {
  en_val : list EndpointRef;
  en_clearSrcOnTx : bool;
  en_disableRoaming : bool;
  en_lastInitIndex : Z;
  en_preferRoaming : bool;
}.

(** [packet] is a slice of a message buffer, [off] bytes into it. *)
Record QueueOutboundElement := mkOutbound {
  oe_packet : list Z;
  oe_off : nat;
  oe_nonce : Z;
  oe_keypair : option KeypairRef;
  oe_endpoint : option EndpointRef;
}.

(** [packet] is the start of the buffer until decryption, and then the content behind the
    header; a nil [packet] is [None]. *)
Record QueueInboundElement := mkInbound {
  ibe_buffer : list Z;
  ibe_packet : option (list Z);
  ibe_counter : Z;
  ibe_keypair : KeypairRef;
  ibe_endpoint : EndpointRef;
}.

Record QueueHandshakeElement := mkHandshakeElem {
  he_msgType : Z;
  he_packet : list Z;
  he_endpoint : EndpointRef;
}.

Record Peer := mkPeer {
  pe_isRunning : bool;
  pe_keypairs : Keypairs;
  pe_handshake : Handshake;
  pe_txBytes : Z;
  pe_rxBytes : Z;
  pe_lastHandshakeNano : Z;
  pe_endpoints : Endpoints;
  pe_timers : Timers;
  pe_staged : list (list QueueOutboundElement);
  pe_outbound : list (list QueueOutboundElement);
  pe_inbound : list (list QueueInboundElement);
  pe_cookieGenerator : CookieGenerator;
  pe_persistentKeepaliveInterval : Z;
}.

Definition new_Peer : Peer :=
  mkPeer false (mkKeypairs None None None) zero_handshake 0 0 0 (mkEndpoints [] false false 0 false) zero_timers [] [] []
    zero_generator 0.

#[export] Instance Peer_inhabited : Inhabited Peer := populate new_Peer.
#[export] Instance StdNetEndpoint_inhabited : Inhabited StdNetEndpoint := populate (mkStd zero_AddrPort None TransportUDP).

Inductive deviceState := deviceStateDown | deviceStateUp | deviceStateClosed.

#[export] Instance deviceState_eq_dec : EqDecision deviceState.
Proof. solve_decision. Defined.

(** The fields of the [Device] struct that are not shared objects. *)
Record Device := mkDevice {
  dv_state : deviceState;
  dv_privateKey : list Z;
  dv_publicKey : list Z;
  dv_keyMap : gmap (list Z) PeerRef;
  dv_underLoadUntil : Z;
  dv_limiter : Ratelimiter;
  dv_Allowedips : AllowedIPs PeerRef;
  dv_cookieChecker : CookieChecker;
  dv_mtu : Z;
  dv_handshakeQueue : list QueueHandshakeElement;
}.

(** How the socket answers a batch: sent, an error, or an error that says the batch was
    sent again without segmentation offload, and whether that worked. *)
Inductive SendResult := SendOk | SendFailed | SendGSODisabled (retry : bool).

(** [w_sent]: batches given to the socket; [w_tun]: packets given to the interface, with
    their protocol; [w_control]: control messages for the router, with the peer they came
    from.  [w_jitter] and [w_sendRes] are what [fastrandn] and the socket answer next. *)
Record World := mkWorld {
  w_dev : Device;
  w_index : gmap Z IndexTableEntry;
  w_peers : gmap PeerRef Peer;
  w_keypairs : gmap KeypairRef Keypair;
  w_endpoints : gmap EndpointRef StdNetEndpoint;
  w_now : Z;
  w_rnd : Entropy;
  w_jitter : list Z;
  w_sendRes : list SendResult;
  w_sent : list (list (list Z) * EndpointRef);
  w_tun : list (list Z * Z);
  w_control : list (list Z * option PeerRef);
}.

(** Replacing parts of the state. *)
Definition set_dev w x := mkWorld x (w_index w) (w_peers w) (w_keypairs w) (w_endpoints w) (w_now w) (w_rnd w) (w_jitter w) (w_sendRes w) (w_sent w) (w_tun w) (w_control w).
Definition set_index w x := mkWorld (w_dev w) x (w_peers w) (w_keypairs w) (w_endpoints w) (w_now w) (w_rnd w) (w_jitter w) (w_sendRes w) (w_sent w) (w_tun w) (w_control w).
Definition set_peers w x := mkWorld (w_dev w) (w_index w) x (w_keypairs w) (w_endpoints w) (w_now w) (w_rnd w) (w_jitter w) (w_sendRes w) (w_sent w) (w_tun w) (w_control w).
Definition set_keypairs w x := mkWorld (w_dev w) (w_index w) (w_peers w) x (w_endpoints w) (w_now w) (w_rnd w) (w_jitter w) (w_sendRes w) (w_sent w) (w_tun w) (w_control w).
Definition set_endpoints w x := mkWorld (w_dev w) (w_index w) (w_peers w) (w_keypairs w) x (w_now w) (w_rnd w) (w_jitter w) (w_sendRes w) (w_sent w) (w_tun w) (w_control w).
Definition set_rnd w x := mkWorld (w_dev w) (w_index w) (w_peers w) (w_keypairs w) (w_endpoints w) (w_now w) x (w_jitter w) (w_sendRes w) (w_sent w) (w_tun w) (w_control w).
Definition set_jitter w x := mkWorld (w_dev w) (w_index w) (w_peers w) (w_keypairs w) (w_endpoints w) (w_now w) (w_rnd w) x (w_sendRes w) (w_sent w) (w_tun w) (w_control w).
Definition set_sent w res sent := mkWorld (w_dev w) (w_index w) (w_peers w) (w_keypairs w) (w_endpoints w) (w_now w) (w_rnd w) (w_jitter w) res sent (w_tun w) (w_control w).
Definition set_out w tun control := mkWorld (w_dev w) (w_index w) (w_peers w) (w_keypairs w) (w_endpoints w) (w_now w) (w_rnd w) (w_jitter w) (w_sendRes w) (w_sent w) tun control.

Definition peer_at w (p : PeerRef) : Peer := w_peers w !!! p.
Definition keypair_at w (k : KeypairRef) : Keypair := w_keypairs w !!! k.
Definition endpoint_at w (e : EndpointRef) : StdNetEndpoint := w_endpoints w !!! e.

Definition upd_peer w (p : PeerRef) (f : Peer → Peer) : World := set_peers w (<[p := f (peer_at w p)]> (w_peers w)).
Definition upd_keypair w (k : KeypairRef) (f : Keypair → Keypair) : World :=
  set_keypairs w (<[k := f (keypair_at w k)]> (w_keypairs w)).

Definition set_isRunning x p := mkPeer x (pe_keypairs p) (pe_handshake p) (pe_txBytes p) (pe_rxBytes p) (pe_lastHandshakeNano p) (pe_endpoints p) (pe_timers p) (pe_staged p) (pe_outbound p) (pe_inbound p) (pe_cookieGenerator p) (pe_persistentKeepaliveInterval p).
Definition set_kps x p := mkPeer (pe_isRunning p) x (pe_handshake p) (pe_txBytes p) (pe_rxBytes p) (pe_lastHandshakeNano p) (pe_endpoints p) (pe_timers p) (pe_staged p) (pe_outbound p) (pe_inbound p) (pe_cookieGenerator p) (pe_persistentKeepaliveInterval p).
Definition set_hs x p := mkPeer (pe_isRunning p) (pe_keypairs p) x (pe_txBytes p) (pe_rxBytes p) (pe_lastHandshakeNano p) (pe_endpoints p) (pe_timers p) (pe_staged p) (pe_outbound p) (pe_inbound p) (pe_cookieGenerator p) (pe_persistentKeepaliveInterval p).
Definition set_counters tx rx hn p := mkPeer (pe_isRunning p) (pe_keypairs p) (pe_handshake p) tx rx hn (pe_endpoints p) (pe_timers p) (pe_staged p) (pe_outbound p) (pe_inbound p) (pe_cookieGenerator p) (pe_persistentKeepaliveInterval p).
Definition set_eps x p := mkPeer (pe_isRunning p) (pe_keypairs p) (pe_handshake p) (pe_txBytes p) (pe_rxBytes p) (pe_lastHandshakeNano p) x (pe_timers p) (pe_staged p) (pe_outbound p) (pe_inbound p) (pe_cookieGenerator p) (pe_persistentKeepaliveInterval p).
Definition set_timers x p := mkPeer (pe_isRunning p) (pe_keypairs p) (pe_handshake p) (pe_txBytes p) (pe_rxBytes p) (pe_lastHandshakeNano p) (pe_endpoints p) x (pe_staged p) (pe_outbound p) (pe_inbound p) (pe_cookieGenerator p) (pe_persistentKeepaliveInterval p).
Definition set_queues staged outb inb p := mkPeer (pe_isRunning p) (pe_keypairs p) (pe_handshake p) (pe_txBytes p) (pe_rxBytes p) (pe_lastHandshakeNano p) (pe_endpoints p) (pe_timers p) staged outb inb (pe_cookieGenerator p) (pe_persistentKeepaliveInterval p).
Definition set_cookieGenerator x p := mkPeer (pe_isRunning p) (pe_keypairs p) (pe_handshake p) (pe_txBytes p) (pe_rxBytes p) (pe_lastHandshakeNano p) (pe_endpoints p) (pe_timers p) (pe_staged p) (pe_outbound p) (pe_inbound p) x (pe_persistentKeepaliveInterval p).
Definition set_keepalive x p := mkPeer (pe_isRunning p) (pe_keypairs p) (pe_handshake p) (pe_txBytes p) (pe_rxBytes p) (pe_lastHandshakeNano p) (pe_endpoints p) (pe_timers p) (pe_staged p) (pe_outbound p) (pe_inbound p) (pe_cookieGenerator p) x.

(** ** The index table *)

Definition Index_Delete (t : gmap Z IndexTableEntry) (index : Z) : gmap Z IndexTableEntry := delete index t.

Definition Index_Lookup (t : gmap Z IndexTableEntry) (id : Z) : IndexTableEntry := default zero_index_entry (t !! id).

Definition SwapIndexForKeypair (t : gmap Z IndexTableEntry) (index : Z) (keypair : KeypairRef) : gmap Z IndexTableEntry :=
  match t !! index with
  | None => t
  | Some entry => <[index := mkIndexEntry (ie_peer entry) None (Some keypair)]> t
  end.

(** [randUint32]. *)
Definition uint32_of (b : list Z) : Z := le_decode (array_of 4 b).

(** The index, whether a fresh one was found, the table and the rest of the random source.
    The loop ends when the random source fails, so it recurs on that. *)
Fixpoint NewIndexForHandshake (t : gmap Z IndexTableEntry) (peer : PeerRef) (rnd : Entropy)
    : Z * bool * gmap Z IndexTableEntry * Entropy :=
  match rnd with
  | [] => (0, false, t, [])
  | (b, ok) :: rnd =>
      let index := uint32_of b in
      if negb ok then (index, false, t, rnd)
      else match t !! index with
           | Some _ => NewIndexForHandshake t peer rnd
           | None => (index, true, <[index := mkIndexEntry (Some peer) (Some peer) None]> t, rnd)
           end
  end.

(** ** Keypairs *)

Definition DeleteKeypair (w : World) (key : option KeypairRef) : World :=
  match key with
  | None => w
  | Some k => set_index w (Index_Delete (w_index w) (kp_localIndex (keypair_at w k)))
  end.

(** ** The handshake *)

Definition Handshake_Clear (h : Handshake) : Handshake :=
  mkHandshake handshakeZeroed (setZero (hs_hash h)) (setZero (hs_chainKey h)) (hs_presharedKey h)
    (setZero (hs_localEphemeral h)) 0 (hs_remoteIndex h) (hs_remoteStatic h) (setZero (hs_remoteEphemeral h))
    (hs_precomputedStaticStatic h) (hs_lastTimestamp h) (hs_lastInitiationConsumption h) (hs_lastSentHandshake h).

(** The parts of a handshake that its operations change. *)
Definition hs_symmetric (h : Handshake) (state : handshakeState) (hash chainKey localEphemeral : list Z)
    (localIndex remoteIndex : Z) (remoteEphemeral : list Z) : Handshake :=
  mkHandshake state hash chainKey (hs_presharedKey h) localEphemeral localIndex remoteIndex (hs_remoteStatic h)
    remoteEphemeral (hs_precomputedStaticStatic h) (hs_lastTimestamp h) (hs_lastInitiationConsumption h)
    (hs_lastSentHandshake h).

Definition hs_stamps (h : Handshake) (lastTimestamp : list Z) (lastInitiationConsumption lastSentHandshake : Z) : Handshake :=
  mkHandshake (hs_state h) (hs_hash h) (hs_chainKey h) (hs_presharedKey h) (hs_localEphemeral h) (hs_localIndex h)
    (hs_remoteIndex h) (hs_remoteStatic h) (hs_remoteEphemeral h) (hs_precomputedStaticStatic h) lastTimestamp
    lastInitiationConsumption lastSentHandshake.

Section noise.
Context `{CR : Crypto}.

Definition mixKey (c data : list Z) : list Z := KDF1 c data.

Definition mixHash (h data : list Z) : list Z := blake2s_Sum256 (h ++ data).

Definition InitialChainKey : list Z := blake2s_Sum256 NoiseConstruction.

Definition InitialHash : list Z := mixHash InitialChainKey WGIdentifier.

(** [None] is an error: the random source, or a useless key of the peer. *)
Definition CreateMessageInitiation (w : World) (p : PeerRef) : option MessageInitiation * World :=
  let h := pe_handshake (peer_at w p) in
  let '(localEphemeral, ok, rnd) := newPrivateKey (w_rnd w) in
  let w := set_rnd w rnd in
  let leave hash chainKey := upd_peer w p (set_hs
    (hs_symmetric h (hs_state h) hash chainKey localEphemeral (hs_localIndex h) (hs_remoteIndex h) (hs_remoteEphemeral h))) in
  if negb ok then (None, leave InitialHash InitialChainKey)
  else
    let hash := mixHash InitialHash (hs_remoteStatic h) in
    let ephemeral := publicKey localEphemeral in
    let chainKey := mixKey InitialChainKey ephemeral in
    let hash := mixHash hash ephemeral in
    let '(ss, ok) := sharedSecret localEphemeral (hs_remoteStatic h) in
    if negb ok then (None, leave hash chainKey)
    else
      let '(chainKey, key) := KDF2 chainKey ss in
      let static := Seal key ZeroNonce (dv_publicKey (w_dev w)) hash in
      let hash := mixHash hash static in
      if isZero (hs_precomputedStaticStatic h) then (None, leave hash chainKey)
      else
        let '(chainKey, key) := KDF2 chainKey (hs_precomputedStaticStatic h) in
        let timestamp := Seal key ZeroNonce (stamp (w_now w)) hash in
        let table := Index_Delete (w_index w) (hs_localIndex h) in
        let '(sender, ok, table, rnd) := NewIndexForHandshake table p (w_rnd w) in
        let w' := set_index (set_rnd w rnd) table in
        if negb ok then
          (None, upd_peer w' p (set_hs
             (hs_symmetric h (hs_state h) hash chainKey localEphemeral (hs_localIndex h) (hs_remoteIndex h) (hs_remoteEphemeral h))))
        else
          (Some (mkInitiation MessageInitiationType sender ephemeral static timestamp (zeros 16) (zeros 16)),
           upd_peer w' p (set_hs
             (hs_symmetric h handshakeInitiationCreated (mixHash hash timestamp) chainKey localEphemeral sender
                (hs_remoteIndex h) (hs_remoteEphemeral h)))).

Definition LookupPeer (w : World) (pk : list Z) : option PeerRef := dv_keyMap (w_dev w) !! pk.

(** What the responder learns from an initiation: the peer, the timestamp, the chaining
    key and the hash; it changes nothing. *)
Definition open_initiation (w : World) (msg : MessageInitiation) : option (PeerRef * list Z * list Z * list Z) :=
  if negb (mi_Type msg =? MessageInitiationType) then None
  else
    let hash := mixHash InitialHash (dv_publicKey (w_dev w)) in
    let hash := mixHash hash (mi_Ephemeral msg) in
    let chainKey := mixKey InitialChainKey (mi_Ephemeral msg) in
    let '(ss, ok) := sharedSecret (dv_privateKey (w_dev w)) (mi_Ephemeral msg) in
    if negb ok then None
    else
      let '(chainKey, key) := KDF2 chainKey ss in
      peerPK ← Open key ZeroNonce (mi_Static msg) hash;
      let hash := mixHash hash (mi_Static msg) in
      p ← LookupPeer w (array_of NoisePublicKeySize peerPK);
      if negb (pe_isRunning (peer_at w p)) then None
      else
        let precomputed := hs_precomputedStaticStatic (pe_handshake (peer_at w p)) in
        if isZero precomputed then None
        else
          let '(chainKey, key) := KDF2 chainKey precomputed in
          timestamp ← Open key ZeroNonce (mi_Timestamp msg) hash;
          Some (p, array_of TimestampSize timestamp, chainKey, mixHash hash (mi_Timestamp msg)).

Definition ConsumeMessageInitiation (w : World) (msg : MessageInitiation) : option PeerRef * World :=
  match open_initiation w msg with
  | None => (None, w)
  | Some (p, timestamp, chainKey, hash) =>
      let h := pe_handshake (peer_at w p) in
      let replay := negb (After timestamp (hs_lastTimestamp h)) in
      let flood := time_Sub (w_now w) (hs_lastInitiationConsumption h) <=? HandshakeInitationRate in
      if replay then (None, w)
      else if flood then (None, w)
      else
        let h := hs_symmetric h handshakeInitiationConsumed hash chainKey (hs_localEphemeral h) (hs_localIndex h)
                   (mi_Sender msg) (mi_Ephemeral msg) in
        let h := hs_stamps h
                   (if After timestamp (hs_lastTimestamp h) then timestamp else hs_lastTimestamp h)
                   (if hs_lastInitiationConsumption h <? w_now w then w_now w else hs_lastInitiationConsumption h)
                   (hs_lastSentHandshake h) in
        (Some p, upd_peer w p (set_hs h))
  end.

Definition CreateMessageResponse (w : World) (p : PeerRef) : option MessageResponse * World :=
  let h := pe_handshake (peer_at w p) in
  if bool_decide (hs_state h ≠ handshakeInitiationConsumed) then (None, w)
  else
    let table := Index_Delete (w_index w) (hs_localIndex h) in
    let '(localIndex, ok, table, rnd) := NewIndexForHandshake table p (w_rnd w) in
    let w := set_index (set_rnd w rnd) table in
    let put w state hash chainKey localEphemeral := upd_peer w p (set_hs
      (hs_symmetric h state hash chainKey localEphemeral localIndex (hs_remoteIndex h) (hs_remoteEphemeral h))) in
    if negb ok then (None, put w (hs_state h) (hs_hash h) (hs_chainKey h) (hs_localEphemeral h))
    else
      let '(localEphemeral, ok, rnd) := newPrivateKey (w_rnd w) in
      let w := set_rnd w rnd in
      if negb ok then (None, put w (hs_state h) (hs_hash h) (hs_chainKey h) localEphemeral)
      else
        let ephemeral := publicKey localEphemeral in
        let hash := mixHash (hs_hash h) ephemeral in
        let chainKey := mixKey (hs_chainKey h) ephemeral in
        let '(ss, ok) := sharedSecret localEphemeral (hs_remoteEphemeral h) in
        if negb ok then (None, put w (hs_state h) hash chainKey localEphemeral)
        else
          let chainKey := mixKey chainKey ss in
          let '(ss, ok) := sharedSecret localEphemeral (hs_remoteStatic h) in
          if negb ok then (None, put w (hs_state h) hash chainKey localEphemeral)
          else
            let chainKey := mixKey chainKey ss in
            let '(chainKey, tau, key) := KDF3 chainKey (hs_presharedKey h) in
            let hash := mixHash hash tau in
            let empty := Seal key ZeroNonce [] hash in
            let hash := mixHash hash empty in
            (Some (mkResponse MessageResponseType localIndex (hs_remoteIndex h) ephemeral empty (zeros 16) (zeros 16)),
             put w handshakeResponseCreated hash chainKey localEphemeral).

(** What the initiator derives from a response: the chaining key and the hash. *)
Definition open_response (w : World) (h : Handshake) (msg : MessageResponse) : option (list Z * list Z) :=
  if bool_decide (hs_state h ≠ handshakeInitiationCreated) then None
  else
    let hash := mixHash (hs_hash h) (mr_Ephemeral msg) in
    let chainKey := mixKey (hs_chainKey h) (mr_Ephemeral msg) in
    let '(ss, ok) := sharedSecret (hs_localEphemeral h) (mr_Ephemeral msg) in
    if negb ok then None
    else
      let chainKey := mixKey chainKey ss in
      let '(ss, ok) := sharedSecret (dv_privateKey (w_dev w)) (mr_Ephemeral msg) in
      if negb ok then None
      else
        let chainKey := mixKey chainKey ss in
        let '(chainKey, tau, key) := KDF3 chainKey (hs_presharedKey h) in
        let hash := mixHash hash tau in
        _ ← Open key ZeroNonce (mr_Empty msg) hash;
        Some (chainKey, mixHash hash (mr_Empty msg)).

Definition ConsumeMessageResponse (w : World) (msg : MessageResponse) : option PeerRef * World :=
  if negb (mr_Type msg =? MessageResponseType) then (None, w)
  else
    let lookup := Index_Lookup (w_index w) (mr_Receiver msg) in
    match ie_handshake lookup with
    | None => (None, w)
    | Some q =>
        let h := pe_handshake (peer_at w q) in
        match open_response w h msg with
        | None => (None, w)
        | Some (chainKey, hash) =>
            (ie_peer lookup,
             upd_peer w q (set_hs (hs_symmetric h handshakeResponseConsumed hash chainKey (hs_localEphemeral h)
                                     (hs_localIndex h) (mr_Sender msg) (hs_remoteEphemeral h))))
        end
    end.

(** A number no keypair has. *)
Definition new_ref (w : World) : KeypairRef := fresh (dom (w_keypairs w)).

(** Rotating the keypairs of a peer after a handshake. *)
Definition rotate (w : World) (p : PeerRef) (keypair : KeypairRef) (isInitiator : bool) : World :=
  let kps := pe_keypairs (peer_at w p) in
  let previous := kps_previous kps in
  let next := kps_next kps in
  let current := kps_current kps in
  if isInitiator then
    let '(w, kps) :=
      match next with
      | Some _ => (DeleteKeypair w current, mkKeypairs current next None)
      | None => (w, mkKeypairs current current next)
      end in
    let w := DeleteKeypair w previous in
    upd_peer w p (set_kps (mkKeypairs (Some keypair) (kps_previous kps) (kps_next kps)))
  else
    let w := DeleteKeypair w next in
    let w := DeleteKeypair w previous in
    upd_peer w p (set_kps (mkKeypairs current None (Some keypair))).

(** The error result is an invalid state of the handshake. *)
Definition BeginSymmetricSession (w : World) (p : PeerRef) : bool * World :=
  let h := pe_handshake (peer_at w p) in
  let derived :=
    match hs_state h with
    | handshakeResponseConsumed => let '(send, recv) := KDF2 (hs_chainKey h) [] in Some (send, recv, true)
    | handshakeResponseCreated => let '(recv, send) := KDF2 (hs_chainKey h) [] in Some (send, recv, false)
    | _ => None
    end in
  match derived with
  | None => (false, w)
  | Some (sendKey, recvKey, isInitiator) =>
      let keypair := mkKeypair 0 sendKey recvKey (Filter_Reset zero_filter) isInitiator (w_now w) (hs_localIndex h)
                       (hs_remoteIndex h) in
      let k := new_ref w in
      let w := set_keypairs w (<[k := keypair]> (w_keypairs w)) in
      let w := set_index w (SwapIndexForKeypair (w_index w) (hs_localIndex h) k) in
      let w := upd_peer w p (set_hs (hs_symmetric h handshakeZeroed (setZero (hs_hash h)) (setZero (hs_chainKey h))
                 (setZero (hs_localEphemeral h)) 0 (hs_remoteIndex h) (hs_remoteEphemeral h))) in
      (true, rotate w p k isInitiator)
  end.

End noise.

Definition ReceivedWithKeypair (w : World) (p : PeerRef) (receivedKeypair : KeypairRef) : bool * World :=
  let kps := pe_keypairs (peer_at w p) in
  if bool_decide (kps_next kps ≠ Some receivedKeypair) then (false, w)
  else
    let old := kps_previous kps in
    let w := DeleteKeypair w old in
    (true, upd_peer w p (set_kps (mkKeypairs (kps_next kps) (kps_current kps) None))).
