(* ===== verification/WgSend.v ===== *)
(** Timers and the way out of a WireGuard device: [polyamide/device/timers.go], [send.go] and
    the sending part of [peer.go].

    A container of elements is put on the outbound queue of its peer and on the encryption
    queue; the sequential sender waits until it is encrypted.  The model encrypts
    it when the sender takes it from the outbound queue.  Channels do not block: only
    the staged queue, from which the code drops, has a bound. *)

From S2P Require Import Prelude Bytes NetIP Float64 Metric Routing Endpoint Packet Crypto Messages Cookie Replay WireGuard.

Definition isUp (w : World) : bool := bool_decide (dv_state (w_dev w) = deviceStateUp).
Definition isClosed (w : World) : bool := bool_decide (dv_state (w_dev w) = deviceStateClosed).

Definition Current (w : World) (p : PeerRef) : option KeypairRef := kps_current (pe_keypairs (peer_at w p)).

(** ** Timers *)

Definition set_retransmitHandshake x t := mkTimers x (ti_sendKeepalive t) (ti_newHandshake t) (ti_zeroKeyMaterial t) (ti_persistentKeepalive t) (ti_lastReceived t) (ti_handshakeAttempts t) (ti_needAnotherKeepalive t) (ti_sentLastMinuteHandshake t).
Definition set_sendKeepalive x t := mkTimers (ti_retransmitHandshake t) x (ti_newHandshake t) (ti_zeroKeyMaterial t) (ti_persistentKeepalive t) (ti_lastReceived t) (ti_handshakeAttempts t) (ti_needAnotherKeepalive t) (ti_sentLastMinuteHandshake t).
Definition set_newHandshake x t := mkTimers (ti_retransmitHandshake t) (ti_sendKeepalive t) x (ti_zeroKeyMaterial t) (ti_persistentKeepalive t) (ti_lastReceived t) (ti_handshakeAttempts t) (ti_needAnotherKeepalive t) (ti_sentLastMinuteHandshake t).
Definition set_zeroKeyMaterial x t := mkTimers (ti_retransmitHandshake t) (ti_sendKeepalive t) (ti_newHandshake t) x (ti_persistentKeepalive t) (ti_lastReceived t) (ti_handshakeAttempts t) (ti_needAnotherKeepalive t) (ti_sentLastMinuteHandshake t).
Definition set_persistentKeepalive x t := mkTimers (ti_retransmitHandshake t) (ti_sendKeepalive t) (ti_newHandshake t) (ti_zeroKeyMaterial t) x (ti_lastReceived t) (ti_handshakeAttempts t) (ti_needAnotherKeepalive t) (ti_sentLastMinuteHandshake t).
Definition set_lastReceived x t := mkTimers (ti_retransmitHandshake t) (ti_sendKeepalive t) (ti_newHandshake t) (ti_zeroKeyMaterial t) (ti_persistentKeepalive t) x (ti_handshakeAttempts t) (ti_needAnotherKeepalive t) (ti_sentLastMinuteHandshake t).
Definition set_handshakeAttempts x t := mkTimers (ti_retransmitHandshake t) (ti_sendKeepalive t) (ti_newHandshake t) (ti_zeroKeyMaterial t) (ti_persistentKeepalive t) (ti_lastReceived t) x (ti_needAnotherKeepalive t) (ti_sentLastMinuteHandshake t).
Definition set_needAnotherKeepalive x t := mkTimers (ti_retransmitHandshake t) (ti_sendKeepalive t) (ti_newHandshake t) (ti_zeroKeyMaterial t) (ti_persistentKeepalive t) (ti_lastReceived t) (ti_handshakeAttempts t) x (ti_sentLastMinuteHandshake t).
Definition set_sentLastMinuteHandshake x t := mkTimers (ti_retransmitHandshake t) (ti_sendKeepalive t) (ti_newHandshake t) (ti_zeroKeyMaterial t) (ti_persistentKeepalive t) (ti_lastReceived t) (ti_handshakeAttempts t) (ti_needAnotherKeepalive t) x.

Definition timers_of (w : World) (p : PeerRef) : Timers := pe_timers (peer_at w p).

Definition upd_timers (w : World) (p : PeerRef) (f : Timers → Timers) : World :=
  upd_peer w p (λ pe, set_timers (f (pe_timers pe)) pe).

Definition timersActive (w : World) (p : PeerRef) : bool := pe_isRunning (peer_at w p) && isUp w.

(** [time.Millisecond * fastrandn(n)]. *)
Definition jitter_ms (w : World) (n : Z) : Z * World :=
  match w_jitter w with
  | [] => (0, w)
  | x :: rest => (1000000 * (x mod n), set_jitter w rest)
  end.

Definition timersDataSent (w : World) (p : PeerRef) : World :=
  if timersActive w p && negb (IsPending (ti_newHandshake (timers_of w p))) then
    let '(j, w) := jitter_ms w RekeyTimeoutJitterMaxMs in
    upd_timers w p (λ t, set_newHandshake (Timer_Mod (w_now w) (KeepaliveTimeout + RekeyTimeout + j) (ti_newHandshake t)) t)
  else w.

Definition timersDataReceived (w : World) (p : PeerRef) : World :=
  if timersActive w p then
    if negb (IsPending (ti_sendKeepalive (timers_of w p))) then
      upd_timers w p (λ t, set_sendKeepalive (Timer_Mod (w_now w) KeepaliveTimeout (ti_sendKeepalive t)) t)
    else upd_timers w p (set_needAnotherKeepalive true)
  else w.

Definition timersAnyAuthenticatedPacketSent (w : World) (p : PeerRef) : World :=
  if timersActive w p then upd_timers w p (λ t, set_sendKeepalive (Timer_Del (ti_sendKeepalive t)) t) else w.

Definition timersAnyAuthenticatedPacketReceived (w : World) (p : PeerRef) : World :=
  if timersActive w p then upd_timers w p (λ t, set_newHandshake (Timer_Del (ti_newHandshake t)) t) else w.

Definition timersHandshakeInitiated (w : World) (p : PeerRef) : World :=
  if timersActive w p then
    let '(j, w) := jitter_ms w RekeyTimeoutJitterMaxMs in
    upd_timers w p (λ t, set_retransmitHandshake (Timer_Mod (w_now w) (RekeyTimeout + j) (ti_retransmitHandshake t)) t)
  else w.

Definition timersHandshakeComplete (w : World) (p : PeerRef) : World :=
  let w := if timersActive w p
           then upd_timers w p (λ t, set_retransmitHandshake (Timer_Del (ti_retransmitHandshake t)) t) else w in
  let w := upd_timers w p (set_handshakeAttempts 0) in
  let w := upd_timers w p (set_sentLastMinuteHandshake false) in
  upd_peer w p (λ pe, set_counters (pe_txBytes pe) (pe_rxBytes pe) (w_now w) pe).

Definition timersSessionDerived (w : World) (p : PeerRef) : World :=
  if timersActive w p
  then upd_timers w p (λ t, set_zeroKeyMaterial (Timer_Mod (w_now w) (RejectAfterTime * 3) (ti_zeroKeyMaterial t)) t) else w.

Definition timersAnyAuthenticatedPacketTraversal (w : World) (p : PeerRef) (remote : bool) : World :=
  let w := if remote then upd_timers w p (set_lastReceived (w_now w)) else w in
  let keepalive := pe_persistentKeepaliveInterval (peer_at w p) in
  if (0 <? keepalive) && timersActive w p then
    upd_timers w p (λ t, set_persistentKeepalive (Timer_Mod (w_now w) (keepalive * Second) (ti_persistentKeepalive t)) t)
  else w.

Definition timersStart (w : World) (p : PeerRef) : World :=
  upd_timers w p (λ t, set_handshakeAttempts 0 (set_sentLastMinuteHandshake false (set_needAnotherKeepalive false t))).

Definition timersStop (w : World) (p : PeerRef) : World :=
  upd_timers w p (λ t, mkTimers (Timer_Del (ti_retransmitHandshake t)) (Timer_Del (ti_sendKeepalive t))
    (Timer_Del (ti_newHandshake t)) (Timer_Del (ti_zeroKeyMaterial t)) (Timer_Del (ti_persistentKeepalive t))
    (ti_lastReceived t) (ti_handshakeAttempts t) (ti_needAnotherKeepalive t) (ti_sentLastMinuteHandshake t)).

(** ** Endpoints and sending *)

Definition upd_endpoints (w : World) (p : PeerRef) (f : Endpoints → Endpoints) : World :=
  upd_peer w p (λ pe, set_eps (f (pe_endpoints pe)) pe).

Definition ClearSrc (e : StdNetEndpoint) : StdNetEndpoint := mkStd (se_AddrPort e) None (se_transport e).

Definition clear_src (w : World) (e : EndpointRef) : World :=
  let ep := endpoint_at w e in
  if bool_decide (se_transport ep = TransportFakeTCP) then w
  else set_endpoints w (<[e := ClearSrc ep]> (w_endpoints w)).

Definition markEndpointSrcForClearing (w : World) (p : PeerRef) : World :=
  match en_val (pe_endpoints (peer_at w p)) with
  | [] => w
  | _ => upd_endpoints w p (λ e, mkEndpoints (en_val e) true (en_disableRoaming e) (en_lastInitIndex e) (en_preferRoaming e))
  end.

(** [bind.Send]. *)
Definition bind_Send (w : World) (bufs : list (list Z)) (ep : EndpointRef) : SendResult * World :=
  match w_sendRes w with
  | [] => (SendOk, set_sent w [] (w_sent w ++ [(bufs, ep)]))
  | r :: res => (r, set_sent w res (w_sent w ++ [(bufs, ep)]))
  end.

(** The error of [SendBuffers]: nil, no endpoint, or what the socket answered. *)
Inductive SendError := NoSendError | ErrNoEndpoints | ErrSocket (gso : option bool).

Definition error_of (r : SendResult) (anyError : SendError) : SendError :=
  match r with SendOk => anyError | SendFailed => ErrSocket None | SendGSODisabled retry => ErrSocket (Some retry) end.

(** The loop of [SendBuffers]: [batch] are the buffers for [prevEp] so far.  [None] is the
    early return. *)
Fixpoint send_batches (w : World) (endpoints : list EndpointRef) (prevEp : option EndpointRef) (batch : list (list Z))
    (rest : list (list Z * option EndpointRef)) (anyError : SendError) : option SendError * World :=
  let flush := match prevEp with Some e => Some e | None => head endpoints end in
  match rest with
  | [] =>
      match flush with
      | None => (None, w)
      | Some e => let '(r, w) := bind_Send w batch e in (Some (error_of r anyError), w)
      end
  | (b, ep) :: rest =>
      if bool_decide (ep = prevEp) then send_batches w endpoints prevEp (batch ++ [b]) rest anyError
      else
        match flush with
        | None => (None, w)
        | Some e =>
            let '(r, w) := bind_Send w batch e in
            send_batches w endpoints ep [b] rest (error_of r anyError)
        end
  end.

Definition total_length (bufs : list (list Z)) : Z := foldl (λ n b, uint64 (n + Z.of_nat (length b))) 0 bufs.

(** Buffers with their endpoints; the first one is separate, because [eps[0]] panics on
    an empty batch. *)
Definition SendBuffers (w : World) (p : PeerRef) (first : list Z * option EndpointRef) (rest : list (list Z * option EndpointRef))
    : SendError * World :=
  if isClosed w then (NoSendError, w)
  else
    let endpoints := en_val (pe_endpoints (peer_at w p)) in
    let w :=
      if en_clearSrcOnTx (pe_endpoints (peer_at w p)) then
        upd_endpoints (foldl clear_src w endpoints) p
          (λ e, mkEndpoints (en_val e) false (en_disableRoaming e) (en_lastInitIndex e) (en_preferRoaming e))
      else w in
    match send_batches w endpoints first.2 [first.1] rest NoSendError with
    | (None, w) => (ErrNoEndpoints, w)
    | (Some err, w) =>
        let n := total_length (first.1 :: rest.*1) in
        (err, upd_peer w p (λ pe, set_counters (uint64 (pe_txBytes pe + n)) (pe_rxBytes pe) (pe_lastHandshakeNano pe) pe))
    end.

Definition SetEndpointFromPacket (w : World) (p : PeerRef) (endpoint : EndpointRef) : World :=
  let e := pe_endpoints (peer_at w p) in
  if en_disableRoaming e then w
  else
    let val :=
      match en_val e with
      | [] => [endpoint]
      | x :: val => if en_preferRoaming e then endpoint :: val else x :: val
      end in
    upd_endpoints w p (λ e, mkEndpoints val false (en_disableRoaming e) (en_lastInitIndex e) (en_preferRoaming e)).

(** ** Handshake messages *)

Section sending.
Context `{CR : Crypto}.

(** [AddMacs] on a packet of the peer; the messages are long enough for the MACs. *)
Definition add_macs (w : World) (p : PeerRef) (packet : list Z) : list Z * World :=
  match AddMacs (w_now w) (pe_cookieGenerator (peer_at w p)) packet with
  | Some (packet, g) => (packet, upd_peer w p (set_cookieGenerator g))
  | None => (packet, w)
  end.

Definition set_lastSentHandshake (t : Z) (pe : Peer) : Peer :=
  set_hs (hs_stamps (pe_handshake pe) (hs_lastTimestamp (pe_handshake pe)) (hs_lastInitiationConsumption (pe_handshake pe)) t) pe.

(** The packet ([None]: nil), and whether there was an error. *)
Definition createHandshakeInitiation (w : World) (p : PeerRef) : option (list Z) * bool * World :=
  if time_Sub (w_now w) (hs_lastSentHandshake (pe_handshake (peer_at w p))) <? RekeyTimeout then (None, false, w)
  else
    let w := upd_peer w p (set_lastSentHandshake (w_now w)) in
    let '(msg, w) := CreateMessageInitiation w p in
    match msg with
    | None => (None, true, w)
    | Some msg =>
        let packet := zeros MessageInitiationSize in
        let packet := default packet (marshal_initiation msg packet) in
        let '(packet, w) := add_macs w p packet in
        let w := timersAnyAuthenticatedPacketTraversal w p false in
        let w := timersAnyAuthenticatedPacketSent w p in
        (Some packet, false, w)
    end.

(** The result is whether an error is returned. *)
Definition SendHandshakeInitiation (w : World) (p : PeerRef) (isRetry : bool) : bool * World :=
  let w := if negb isRetry then upd_timers w p (set_handshakeAttempts 0) else w in
  let '(packet, err, w) := createHandshakeInitiation w p in
  match packet with
  | None => (err, w)
  | Some packet =>
      let e := pe_endpoints (peer_at w p) in
      match en_val e with
      | [] => (false, w)
      | _ =>
          let i := (en_lastInitIndex e + 1) mod Z.of_nat (length (en_val e)) in
          let w := upd_endpoints w p (λ e, mkEndpoints (en_val e) (en_clearSrcOnTx e) (en_disableRoaming e) i (en_preferRoaming e)) in
          let '(err, w) := SendBuffers w p (packet, en_val e !! Z.to_nat i) [] in
          let w := timersHandshakeInitiated w p in
          (match err with NoSendError => false | _ => true end, w)
      end
  end.

(** Whether a keypair can still encrypt. *)
Definition usable (w : World) (k : KeypairRef) : bool :=
  (kp_sendNonce (keypair_at w k) <? RejectAfterMessages) &&
  (time_Sub (w_now w) (kp_created (keypair_at w k)) <? RejectAfterTime).

Definition SendHandshakeInitiationTo (w : World) (p : PeerRef) (endpoint : EndpointRef) : bool * World :=
  if match Current w p with Some k => usable w k | None => false end then (false, w)
  else
    let '(packet, err, w) := createHandshakeInitiation w p in
    match packet with
    | None => (err, w)
    | Some packet =>
        let '(err, w) := SendBuffers w p (packet, Some endpoint) [] in
        (match err with NoSendError => false | _ => true end, w)
    end.

Definition SendHandshakeResponse (w : World) (p : PeerRef) (srcEndpoint : EndpointRef) : bool * World :=
  let w := upd_peer w p (set_lastSentHandshake (w_now w)) in
  let '(response, w) := CreateMessageResponse w p in
  match response with
  | None => (true, w)
  | Some response =>
      let packet := zeros MessageResponseSize in
      let packet := default packet (marshal_response response packet) in
      let '(packet, w) := add_macs w p packet in
      let '(ok, w) := BeginSymmetricSession w p in
      if negb ok then (true, w)
      else
        let w := timersSessionDerived w p in
        let w := timersAnyAuthenticatedPacketTraversal w p false in
        let w := timersAnyAuthenticatedPacketSent w p in
        let '(err, w) := SendBuffers w p (packet, Some srcEndpoint) [] in
        (match err with NoSendError => false | _ => true end, w)
  end.

Definition keepKeyFreshSending (w : World) (p : PeerRef) : World :=
  match Current w p with
  | None => w
  | Some k =>
      let kp := keypair_at w k in
      if (RekeyAfterMessages <? kp_sendNonce kp) ||
         (kp_isInitiator kp && (RekeyAfterTime <? time_Sub (w_now w) (kp_created kp)))
      then snd (SendHandshakeInitiation w p false) else w
  end.

(** ** Staged packets *)

Definition set_staged (x : list (list QueueOutboundElement)) (pe : Peer) : Peer := set_queues x (pe_outbound pe) (pe_inbound pe) pe.

(** The channel holds [QueueStagedSize] containers; the oldest one makes room. *)
Definition StagePackets (w : World) (p : PeerRef) (elems : list QueueOutboundElement) : World :=
  upd_peer w p (λ pe,
    set_staged ((if decide (length (pe_staged pe) < QueueStagedSize)%nat then pe_staged pe else drop 1 (pe_staged pe)) ++ [elems]) pe).

Definition FlushStagedPackets (w : World) (p : PeerRef) : World := upd_peer w p (set_staged []).

(** Numbering the elements of a container: those that got a number, those that did not,
    and the counter afterwards. *)
Fixpoint assign_nonces (k : KeypairRef) (sendNonce : Z) (elems : list QueueOutboundElement)
    : list QueueOutboundElement * list QueueOutboundElement * Z :=
  match elems with
  | [] => ([], [], sendNonce)
  | elem :: elems =>
      let sendNonce := uint64 (sendNonce + 1) in
      let nonce := uint64 (sendNonce - 1) in
      if RejectAfterMessages <=? nonce then
        let '(kept, late, sendNonce) := assign_nonces k RejectAfterMessages elems in
        (kept, mkOutbound (oe_packet elem) (oe_off elem) nonce (oe_keypair elem) (oe_endpoint elem) :: late, sendNonce)
      else
        let '(kept, late, sendNonce) := assign_nonces k sendNonce elems in
        (mkOutbound (oe_packet elem) (oe_off elem) nonce (Some k) (oe_endpoint elem) :: kept, late, sendNonce)
  end.

Definition set_sendNonce (n : Z) (kp : Keypair) : Keypair :=
  mkKeypair n (kp_send kp) (kp_receive kp) (kp_replayFilter kp) (kp_isInitiator kp) (kp_created kp) (kp_localIndex kp) (kp_remoteIndex kp).

(** [SendStagedPackets] with a bound on its steps, [None] when they are used up: at the label
    [top], or in the loop with the keypair it read there. *)
Fixpoint send_staged (fuel : nat) (w : World) (p : PeerRef) (loop : option KeypairRef) : option World :=
  match fuel with
  | O => None
  | S fuel =>
      match loop with
      | None =>
          if bool_decide (pe_staged (peer_at w p) = []) || negb (isUp w) then Some w
          else
            match Current w p with
            | None => Some (snd (SendHandshakeInitiation w p false))
            | Some k => if negb (usable w k) then Some (snd (SendHandshakeInitiation w p false)) else send_staged fuel w p (Some k)
            end
      | Some k =>
          match pe_staged (peer_at w p) with
          | [] => Some w
          | elems :: staged =>
              let w := upd_peer w p (set_staged staged) in
              let '(kept, late, nonce) := assign_nonces k (kp_sendNonce (keypair_at w k)) elems in
              let w := upd_keypair w k (set_sendNonce nonce) in
              let w := match late with [] => w | _ => StagePackets w p late end in
              match kept with
              | [] => send_staged fuel w p None
              | _ =>
                  let w :=
                    if pe_isRunning (peer_at w p)
                    then upd_peer w p (λ pe, set_queues (pe_staged pe) (pe_outbound pe ++ [kept]) (pe_inbound pe) pe)
                    else w in
                  send_staged fuel w p (match late with [] => Some k | _ => None end)
              end
          end
      end
  end.

(** Every container takes two steps at most, and a container that comes back ends the loop
    at [top]; so the steps are never used up ([send_staged_ends]). *)
Definition staged_fuel (w : World) (p : PeerRef) : nat := 2 * length (pe_staged (peer_at w p)) + 3.

Definition SendStagedPackets (w : World) (p : PeerRef) : World := default w (send_staged (staged_fuel w p) w p None).

Definition SendKeepalive (w : World) (p : PeerRef) : World :=
  let pe := peer_at w p in
  let w :=
    if bool_decide (pe_staged pe = []) && pe_isRunning pe
    then upd_peer w p (set_staged [[mkOutbound [] MessageTransportHeaderSize 0 None None]]) else w in
  SendStagedPackets w p.

(** ** Encryption *)

Definition calculatePaddingSize (packetSize mtu : Z) : Z :=
  let round x := Z.land (x + PaddingMultiple - 1) (Z.lnot (PaddingMultiple - 1)) in
  let lastUnit := packetSize in
  if mtu =? 0 then round lastUnit - lastUnit
  else
    let lastUnit := if mtu <? lastUnit then Z.rem lastUnit mtu else lastUnit in
    let paddedSize := round lastUnit in
    let paddedSize := if mtu <? paddedSize then mtu else paddedSize in
    paddedSize - lastUnit.

Definition transport_header (remoteIndex nonce : Z) : list Z :=
  le_encode 4 MessageTransportType ++ le_encode 4 remoteIndex ++ le_encode 8 nonce.

Definition transport_nonce (nonce : Z) : list Z := zeros 4 ++ le_encode 8 nonce.

(** One element of [RoutineEncryption].  [None] is a panic: no keypair, a padding longer than
    the zeros at hand, or a packet that is not where the header ends, which [Seal] would
    overwrite. *)
Definition encrypt (w : World) (elem : QueueOutboundElement) : option (list Z) :=
  k ← oe_keypair elem;
  let kp := keypair_at w k in
  let paddingSize := calculatePaddingSize (Z.of_nat (length (oe_packet elem))) (dv_mtu (w_dev w)) in
  if (paddingSize <? 0) || (PaddingMultiple <? paddingSize) then None
  else
    let padded := oe_packet elem ++ zeros (Z.to_nat paddingSize) in
    if negb (bool_decide (padded = [])) && negb (bool_decide (oe_off elem = MessageTransportHeaderSize)) then None
    else Some (transport_header (kp_remoteIndex kp) (oe_nonce elem) ++
               Seal (kp_send kp) (transport_nonce (oe_nonce elem)) padded []).

(** ** The sequential sender *)

(** [partitionBuffersByEndpoint]: first the default endpoint for those without one; [None]
    is the error. *)
Fixpoint default_endpoints (val : list EndpointRef) (eps : list (option EndpointRef)) : option (list (option EndpointRef)) :=
  match eps with
  | [] => Some []
  | Some e :: eps => cons (Some e) <$> default_endpoints val eps
  | None :: eps => e ← head val; cons (Some e) <$> default_endpoints val eps
  end.

(** Then, for each buffer not yet visited, the buffers after it with its endpoint. *)
Definition visit (bufs : list (list Z)) (cur : EndpointRef) (st : list (option EndpointRef) * list (list Z * option EndpointRef)) (j : nat)
    : list (option EndpointRef) * list (list Z * option EndpointRef) :=
  if bool_decide (st.1 !! j = Some (Some cur)) then (<[j := None]> st.1, st.2 ++ [(bufs !!! j, Some cur)]) else st.

Definition visit_group (bufs : list (list Z)) (st : list (option EndpointRef) * list (list Z * option EndpointRef)) (i : nat)
    : list (option EndpointRef) * list (list Z * option EndpointRef) :=
  match st.1 !! i with
  | Some (Some cur) =>
      foldl (visit bufs cur) (<[i := None]> st.1, st.2 ++ [(bufs !!! i, Some cur)]) (seq (i + 1) (length bufs - (i + 1)))
  | _ => st
  end.

Definition partitionBuffersByEndpoint (val : list EndpointRef) (bufs : list (list Z)) (eps : list (option EndpointRef))
    : option (list (list Z * option EndpointRef)) :=
  eps ← default_endpoints val eps;
  Some (snd (foldl (visit_group bufs) (eps, []) (seq 0 (length bufs)))).

(** One container of [RoutineSequentialSender].  [None] is a panic. *)
Definition sender_step (w : World) (p : PeerRef) : option World :=
  match pe_outbound (peer_at w p) with
  | [] => Some w
  | elems :: outb =>
      let w := upd_peer w p (λ pe, set_queues (pe_staged pe) outb (pe_inbound pe) pe) in
      if negb (pe_isRunning (peer_at w p)) then Some w
      else
        bufs ← mapM (encrypt w) elems;
        let dataSent := existsb (λ b, negb (bool_decide (length b = MessageKeepaliveSize))) bufs in
        let w := timersAnyAuthenticatedPacketTraversal w p false in
        let w := timersAnyAuthenticatedPacketSent w p in
        match partitionBuffersByEndpoint (en_val (pe_endpoints (peer_at w p))) bufs (oe_endpoint <$> elems) with
        | None => Some w
        | Some [] => if isClosed w then Some (keepKeyFreshSending (if dataSent then timersDataSent w p else w) p) else None
        | Some (first :: rest) =>
            let '(err, w) := SendBuffers w p first rest in
            let w := if dataSent then timersDataSent w p else w in
            match err with
            | NoSendError | ErrSocket (Some true) => Some (keepKeyFreshSending w p)
            | _ => Some w
            end
        end
  end.

(** ** Timers that expire *)

Definition ZeroAndFlushAll (w : World) (p : PeerRef) : World :=
  let kps := pe_keypairs (peer_at w p) in
  let w := DeleteKeypair w (kps_previous kps) in
  let w := DeleteKeypair w (kps_current kps) in
  let w := DeleteKeypair w (kps_next kps) in
  let w := upd_peer w p (set_kps (mkKeypairs None None None)) in
  let h := pe_handshake (peer_at w p) in
  let w := set_index w (Index_Delete (w_index w) (hs_localIndex h)) in
  let w := upd_peer w p (set_hs (Handshake_Clear h)) in
  FlushStagedPackets w p.

Definition expiredRetransmitHandshake (w : World) (p : PeerRef) : World :=
  if MaxTimerHandshakes <? ti_handshakeAttempts (timers_of w p) then
    let w := if timersActive w p then upd_timers w p (λ t, set_sendKeepalive (Timer_Del (ti_sendKeepalive t)) t) else w in
    let w := FlushStagedPackets w p in
    if timersActive w p && negb (IsPending (ti_zeroKeyMaterial (timers_of w p)))
    then upd_timers w p (λ t, set_zeroKeyMaterial (Timer_Mod (w_now w) (RejectAfterTime * 3) (ti_zeroKeyMaterial t)) t) else w
  else
    let w := upd_timers w p (λ t, set_handshakeAttempts (uint32 (ti_handshakeAttempts t + 1)) t) in
    let w := markEndpointSrcForClearing w p in
    snd (SendHandshakeInitiation w p true).

Definition expiredSendKeepalive (w : World) (p : PeerRef) : World :=
  let w := SendKeepalive w p in
  if ti_needAnotherKeepalive (timers_of w p) then
    let w := upd_timers w p (set_needAnotherKeepalive false) in
    if timersActive w p
    then upd_timers w p (λ t, set_sendKeepalive (Timer_Mod (w_now w) KeepaliveTimeout (ti_sendKeepalive t)) t) else w
  else w.

Definition expiredNewHandshake (w : World) (p : PeerRef) : World :=
  let w := markEndpointSrcForClearing w p in
  snd (SendHandshakeInitiation w p false).

Definition expiredZeroKeyMaterial (w : World) (p : PeerRef) : World := ZeroAndFlushAll w p.

Definition expiredPersistentKeepalive (w : World) (p : PeerRef) : World :=
  if 0 <? pe_persistentKeepaliveInterval (peer_at w p) then SendKeepalive w p else w.

Inductive TimerName := RetransmitHandshake | KeepaliveTimer | NewHandshakeTimer | ZeroKeyMaterial | PersistentKeepalive.

Definition get_timer (n : TimerName) (t : Timers) : Timer :=
  match n with
  | RetransmitHandshake => ti_retransmitHandshake t
  | KeepaliveTimer => ti_sendKeepalive t
  | NewHandshakeTimer => ti_newHandshake t
  | ZeroKeyMaterial => ti_zeroKeyMaterial t
  | PersistentKeepalive => ti_persistentKeepalive t
  end.

Definition set_timer (n : TimerName) (x : Timer) (t : Timers) : Timers :=
  match n with
  | RetransmitHandshake => set_retransmitHandshake x t
  | KeepaliveTimer => set_sendKeepalive x t
  | NewHandshakeTimer => set_newHandshake x t
  | ZeroKeyMaterial => set_zeroKeyMaterial x t
  | PersistentKeepalive => set_persistentKeepalive x t
  end.

Definition expiration (n : TimerName) : World → PeerRef → World :=
  match n with
  | RetransmitHandshake => expiredRetransmitHandshake
  | KeepaliveTimer => expiredSendKeepalive
  | NewHandshakeTimer => expiredNewHandshake
  | ZeroKeyMaterial => expiredZeroKeyMaterial
  | PersistentKeepalive => expiredPersistentKeepalive
  end.

(** The function of [NewTimer] that the runtime calls when a timer fires. *)
Definition timer_fires (n : TimerName) (w : World) (p : PeerRef) : World :=
  let t := get_timer n (timers_of w p) in
  if negb (isPending t) then upd_timers w p (set_timer n (mkTimer false None))
  else
    let w := upd_timers w p (set_timer n (mkTimer false None)) in
    expiration n w p.

End sending.
