(* ===== verification/WgReceive.v ===== *)
(** The way into a WireGuard device and the device as a whole: [polyamide/device/receive.go],
    the batches of [traffic_control.go], and the operations of [peer.go] and [device.go].

    The goroutines of the device are steps: one batch of datagrams from a socket
    ([RoutineReceiveIncoming]), one message from the handshake queue ([RoutineHandshake]), one
    container from the inbound queue of a peer, which the model decrypts at that moment
    ([RoutineSequentialReceiver]), one batch from the interface.  [filters] are the
    installed traffic control filters. *)

From S2P Require Import Prelude Bytes NetIP Float64 Metric Routing Endpoint Packet RouterAlgo Config External RouterIO Unicast AllowedIPs RateLimiter Replay Crypto Messages Cookie WireGuard WgSend.

Definition MaxMessageSize : nat := Z.to_nat (Z.shiftl 1 16 - 1).
Definition TcMaxPriority : nat := 3.

(** [AddrPort.MarshalBinary]: the address, its zone, and the port in little-endian. *)
Definition DstToBytes (e : StdNetEndpoint) : list Z :=
  addr_bytes (ap_Addr (se_AddrPort e)) ++
  match ap_Addr (se_AddrPort e) with Addr6 _ zone => string_bytes zone | _ => [] end ++
  le_encode 2 (ap_Port (se_AddrPort e)).

Definition DstIP (e : StdNetEndpoint) : Addr := ap_Addr (se_AddrPort e).

Definition upd_dev (w : World) (f : Device → Device) : World := set_dev w (f (w_dev w)).

Definition set_state x d := mkDevice x (dv_privateKey d) (dv_publicKey d) (dv_keyMap d) (dv_underLoadUntil d) (dv_limiter d) (dv_Allowedips d) (dv_cookieChecker d) (dv_mtu d) (dv_handshakeQueue d).
Definition set_identity sk pk cc d := mkDevice (dv_state d) sk pk (dv_keyMap d) (dv_underLoadUntil d) (dv_limiter d) (dv_Allowedips d) cc (dv_mtu d) (dv_handshakeQueue d).
Definition set_keyMap x d := mkDevice (dv_state d) (dv_privateKey d) (dv_publicKey d) x (dv_underLoadUntil d) (dv_limiter d) (dv_Allowedips d) (dv_cookieChecker d) (dv_mtu d) (dv_handshakeQueue d).
Definition set_rate until lim d := mkDevice (dv_state d) (dv_privateKey d) (dv_publicKey d) (dv_keyMap d) until lim (dv_Allowedips d) (dv_cookieChecker d) (dv_mtu d) (dv_handshakeQueue d).
Definition set_Allowedips x d := mkDevice (dv_state d) (dv_privateKey d) (dv_publicKey d) (dv_keyMap d) (dv_underLoadUntil d) (dv_limiter d) x (dv_cookieChecker d) (dv_mtu d) (dv_handshakeQueue d).
Definition set_cookieChecker x d := mkDevice (dv_state d) (dv_privateKey d) (dv_publicKey d) (dv_keyMap d) (dv_underLoadUntil d) (dv_limiter d) (dv_Allowedips d) x (dv_mtu d) (dv_handshakeQueue d).
Definition set_mtu x d := mkDevice (dv_state d) (dv_privateKey d) (dv_publicKey d) (dv_keyMap d) (dv_underLoadUntil d) (dv_limiter d) (dv_Allowedips d) (dv_cookieChecker d) x (dv_handshakeQueue d).
Definition set_handshakeQueue x d := mkDevice (dv_state d) (dv_privateKey d) (dv_publicKey d) (dv_keyMap d) (dv_underLoadUntil d) (dv_limiter d) (dv_Allowedips d) (dv_cookieChecker d) (dv_mtu d) x.

(** ** Load *)

Definition IsUnderLoad (w : World) : bool * World :=
  if decide (QueueHandshakeSize `div` 8 <= length (dv_handshakeQueue (w_dev w)))%nat then
    (true, upd_dev w (λ d, set_rate (w_now w + UnderLoadAfterTime) (dv_limiter d) d))
  else (w_now w <? dv_underLoadUntil (w_dev w), w).

(** ** Datagrams from the socket *)

(** The elements for each peer, and the state with the handshake queue.  Every entry of the
    index table has a peer. *)
Definition receive_datagram (st : gmap PeerRef (list QueueInboundElement) * World) (x : list Z * nat * EndpointRef)
    : gmap PeerRef (list QueueInboundElement) * World :=
  let '(elemsByPeer, w) := st in
  let '(buffer, size, endpoint) := x in
  if decide (size < MinMessageSize)%nat then st
  else
    let packet := take size buffer in
    let msgType := le_decode (take 4 packet) in
    let enqueue :=
      if decide (length (dv_handshakeQueue (w_dev w)) < QueueHandshakeSize)%nat
      then (elemsByPeer, upd_dev w (λ d, set_handshakeQueue (dv_handshakeQueue d ++ [mkHandshakeElem msgType packet endpoint]) d))
      else st in
    if msgType =? MessageTransportType then
      if decide (length packet < MessageTransportSize)%nat then st
      else
        let receiver := le_decode (slice MessageTransportOffsetReceiver MessageTransportOffsetCounter packet) in
        let value := Index_Lookup (w_index w) receiver in
        match ie_keypair value, ie_peer value with
        | Some k, Some p =>
            if kp_created (keypair_at w k) + RejectAfterTime <? w_now w then st
            else
              let elem := mkInbound buffer (Some packet) 0 k endpoint in
              (<[p := default [] (elemsByPeer !! p) ++ [elem]]> elemsByPeer, w)
        | _, _ => st
        end
    else if msgType =? MessageInitiationType then
      if decide (length packet ≠ MessageInitiationSize) then st else enqueue
    else if msgType =? MessageResponseType then
      if decide (length packet ≠ MessageResponseSize) then st else enqueue
    else if msgType =? MessageCookieReplyType then
      if decide (length packet ≠ MessageCookieReplySize) then st else enqueue
    else st.

Definition dispatch_inbound (w : World) (x : PeerRef * list QueueInboundElement) : World :=
  if pe_isRunning (peer_at w x.1)
  then upd_peer w x.1 (λ pe, set_queues (pe_staged pe) (pe_outbound pe) (pe_inbound pe ++ [x.2]) pe)
  else w.

(** A batch of datagrams: buffers, sizes and where they came from. *)
Definition RoutineReceiveIncoming `{MapRange} (w : World) (batch : list (list Z * nat * EndpointRef)) : World :=
  let '(elemsByPeer, w) := foldl receive_datagram (∅, w) batch in
  foldl dispatch_inbound w (map_range elemsByPeer).

Section receive.
Context `{MR : MapRange} `{CR : Crypto}.

Definition keepKeyFreshReceiving (w : World) (p : PeerRef) : World :=
  if ti_sentLastMinuteHandshake (timers_of w p) then w
  else
    match Current w p with
    | None => w
    | Some k =>
        let kp := keypair_at w k in
        if kp_isInitiator kp && (RejectAfterTime - KeepaliveTimeout - RekeyTimeout <? time_Sub (w_now w) (kp_created kp))
        then snd (SendHandshakeInitiation (upd_timers w p (set_sentLastMinuteHandshake true)) p false) else w
    end.

Definition add_rxBytes (w : World) (p : PeerRef) (n : Z) : World :=
  upd_peer w p (λ pe, set_counters (pe_txBytes pe) (uint64 (pe_rxBytes pe + n)) (pe_lastHandshakeNano pe) pe).

(** ** Handshake messages *)

(** [None] is a panic of the cookie code, for a message too short to have MACs. *)
Definition SendHandshakeCookie (w : World) (elem : QueueHandshakeElement) : option World :=
  let sender := le_decode (slice 4 8 (he_packet elem)) in
  '(reply, checker, rnd) ← CreateReply (w_now w) (dv_cookieChecker (w_dev w)) (w_rnd w) (he_packet elem) sender
    (DstToBytes (endpoint_at w (he_endpoint elem)));
  let w := set_rnd (upd_dev w (set_cookieChecker checker)) rnd in
  match reply with
  | None => Some w
  | Some reply =>
      let packet := zeros MessageCookieReplySize in
      let packet := default packet (marshal_cookie reply packet) in
      Some (snd (bind_Send w [packet] (he_endpoint elem)))
  end.

(** The checks before the content of an initiation or a response is looked at: whether
    to go on. *)
Definition admit_handshake (w : World) (elem : QueueHandshakeElement) : option (bool * World) :=
  mac1 ← CheckMAC1 (dv_cookieChecker (w_dev w)) (he_packet elem);
  if negb mac1 then Some (false, w)
  else
    let '(load, w) := IsUnderLoad w in
    if negb load then Some (true, w)
    else
      mac2 ← CheckMAC2 (w_now w) (dv_cookieChecker (w_dev w)) (he_packet elem) (DstToBytes (endpoint_at w (he_endpoint elem)));
      if negb mac2 then w ← SendHandshakeCookie w elem; Some (false, w)
      else
        let '(ok, limiter) := Allow (w_now w) (dv_limiter (w_dev w)) (DstIP (endpoint_at w (he_endpoint elem))) in
        Some (ok, upd_dev w (λ d, set_rate (dv_underLoadUntil d) limiter d)).

Definition handle_cookie (w : World) (elem : QueueHandshakeElement) : World :=
  match unmarshal_cookie (he_packet elem) with
  | None => w
  | Some reply =>
      match ie_peer (Index_Lookup (w_index w) (mc_Receiver reply)) with
      | None => w
      | Some p =>
          if pe_isRunning (peer_at w p)
          then upd_peer w p (set_cookieGenerator (snd (ConsumeReply (w_now w) (pe_cookieGenerator (peer_at w p)) reply))) else w
      end
  end.

Definition handle_initiation (w : World) (elem : QueueHandshakeElement) : World :=
  match unmarshal_initiation (he_packet elem) with
  | None => w
  | Some msg =>
      match ConsumeMessageInitiation w msg with
      | (None, w) => w
      | (Some p, w) =>
          let w := timersAnyAuthenticatedPacketTraversal w p true in
          let w := timersAnyAuthenticatedPacketReceived w p in
          let w := SetEndpointFromPacket w p (he_endpoint elem) in
          let w := add_rxBytes w p (Z.of_nat (length (he_packet elem))) in
          snd (SendHandshakeResponse w p (he_endpoint elem))
      end
  end.

Definition handle_response (w : World) (elem : QueueHandshakeElement) : World :=
  match unmarshal_response (he_packet elem) with
  | None => w
  | Some msg =>
      match ConsumeMessageResponse w msg with
      | (None, w) => w
      | (Some p, w) =>
          let w := SetEndpointFromPacket w p (he_endpoint elem) in
          let w := add_rxBytes w p (Z.of_nat (length (he_packet elem))) in
          let w := timersAnyAuthenticatedPacketTraversal w p true in
          let w := timersAnyAuthenticatedPacketReceived w p in
          let '(ok, w) := BeginSymmetricSession w p in
          if negb ok then w
          else
            let w := timersSessionDerived w p in
            let w := timersHandshakeComplete w p in
            SendKeepalive w p
      end
  end.

(** One message of the handshake queue. *)
Definition RoutineHandshake (w : World) : option World :=
  match dv_handshakeQueue (w_dev w) with
  | [] => Some w
  | elem :: queue =>
      let w := upd_dev w (set_handshakeQueue queue) in
      if he_msgType elem =? MessageCookieReplyType then Some (handle_cookie w elem)
      else if (he_msgType elem =? MessageInitiationType) || (he_msgType elem =? MessageResponseType) then
        '(go, w) ← admit_handshake w elem;
        if negb go then Some w
        else if he_msgType elem =? MessageInitiationType then Some (handle_initiation w elem)
        else Some (handle_response w elem)
      else Some w
  end.

(** ** Traffic control *)

Definition outbound_of (e : TCElement) : QueueOutboundElement := mkOutbound (tc_Packet e) (tc_off e) 0 None (tc_ToEp e).

(** Verdicts sort a packet into those for the interface and those for a peer; the control
    payload of a packet goes to the router. *)
Definition tc_sort (st : list TCElement * list TCElement * World) (v : Verdict) : list TCElement * list TCElement * World :=
  let '(bounce, forward, w) := st in
  let w := match v_control v with
           | Some payload => set_out w (w_tun w) (w_control w ++ [(payload, tc_FromPeer (v_elem v))])
           | None => w
           end in
  match v_act v with
  | TcBounce => (bounce ++ [v_elem v], forward, w)
  | TcForward => (bounce, forward ++ [v_elem v], w)
  | _ => (bounce, forward, w)
  end.

(** What the interface is given: the buffer behind the transport header, up to the
    length of the packet. *)
Definition tun_packet (e : TCElement) : list Z * Z :=
  (slice MessageTransportHeaderSize (MessageTransportHeaderSize + tc_len e) (tc_Buffer e), tc_L3Proto e).

(** The packets of the highest priority first. *)
Definition by_priority (forward : list TCElement) : list TCElement :=
  concat ((λ prio : nat, filter (λ e, tc_Priority e = Z.of_nat prio) forward) <$> reverse (seq 0 (TcMaxPriority + 1))).

Definition add_for_peer (m : gmap PeerRef (list TCElement)) (e : TCElement) : gmap PeerRef (list TCElement) :=
  match tc_ToPeer e with
  | None => m
  | Some p => <[p := default [] (m !! p) ++ [e]]> m
  end.

Definition stage_for_peer (w : World) (x : PeerRef * list TCElement) : World :=
  if pe_isRunning (peer_at w x.1)
  then SendStagedPackets (StagePackets w x.1 (outbound_of <$> x.2)) x.1
  else w.

(** [None] is a panic: of a filter, or an undefined priority. *)
Definition TCBatch (filters : list TCFilter) (w : World) (batch : list TCElement) : option World :=
  verdicts ← mapM (classify filters) batch;
  let '(bounce, forward, w) := foldl tc_sort ([], [], w) verdicts in
  if existsb (λ e, (tc_Priority e <? 0) || (Z.of_nat TcMaxPriority <? tc_Priority e)) forward then None
  else
    let w := set_out w (w_tun w ++ (tun_packet <$> bounce)) (w_control w) in
    let elemsForPeer := foldl add_for_peer ∅ (by_priority forward) in
    Some (foldl stage_for_peer w (map_range elemsForPeer)).

(** ** Data packets *)

Definition set_replayFilter (f : Filter) (kp : Keypair) : Keypair :=
  mkKeypair (kp_sendNonce kp) (kp_send kp) (kp_receive kp) f (kp_isInitiator kp) (kp_created kp) (kp_localIndex kp) (kp_remoteIndex kp).

(** One element of [RoutineDecryption]; the content is decrypted in place. *)
Definition decrypt (w : World) (elem : QueueInboundElement) : QueueInboundElement :=
  match ibe_packet elem with
  | None => elem
  | Some packet =>
      let counter := uint64 (le_decode (slice MessageTransportOffsetCounter MessageTransportOffsetContent packet)) in
      let content := drop MessageTransportOffsetContent packet in
      match Open (kp_receive (keypair_at w (ibe_keypair elem))) (transport_nonce counter) content [] with
      | None => mkInbound (ibe_buffer elem) None counter (ibe_keypair elem) (ibe_endpoint elem)
      | Some plain => mkInbound (write_at MessageTransportOffsetContent plain (ibe_buffer elem)) (Some plain) counter
                        (ibe_keypair elem) (ibe_endpoint elem)
      end
  end.

Record ReceiveState := mkReceive {
  rs_world : World;
  rs_tail : option QueueInboundElement;
  rs_data : bool;
  rs_bytes : Z;
  rs_tcs : list TCElement;
}.

(** One element of a container of [RoutineSequentialReceiver]. *)
Definition receive_elem (p : PeerRef) (st : ReceiveState) (elem : QueueInboundElement) : ReceiveState :=
  match ibe_packet elem with
  | None => st
  | Some packet =>
      let w := rs_world st in
      let k := ibe_keypair elem in
      let '(ok, filter) := ValidateCounter (kp_replayFilter (keypair_at w k)) (ibe_counter elem) RejectAfterMessages in
      let w := upd_keypair w k (set_replayFilter filter) in
      if negb ok then mkReceive w (rs_tail st) (rs_data st) (rs_bytes st) (rs_tcs st)
      else
        let '(fresh_session, w) := ReceivedWithKeypair w p k in
        let w :=
          if (fresh_session : bool) then
            let w := SetEndpointFromPacket w p (ibe_endpoint elem) in
            let w := timersHandshakeComplete w p in
            SendStagedPackets w p
          else w in
        let bytes := uint64 (rs_bytes st + Z.of_nat (length packet + MinMessageSize)) in
        match packet with
        | [] => mkReceive w (Some elem) (rs_data st) bytes (rs_tcs st)
        | _ =>
            let tce := mkTC (ibe_buffer elem) MessageTransportOffsetContent (length packet) (Some (ibe_endpoint elem)) None
                         (Some p) None 0 0 in
            mkReceive w (Some elem) true bytes (rs_tcs st ++ [tce])
        end
  end.

(** One container of the inbound queue of a peer. *)
Definition RoutineSequentialReceiver (filters : list TCFilter) (w : World) (p : PeerRef) : option World :=
  match pe_inbound (peer_at w p) with
  | [] => Some w
  | elems :: inb =>
      let w := upd_peer w p (λ pe, set_queues (pe_staged pe) (pe_outbound pe) inb pe) in
      let st := foldl (receive_elem p) (mkReceive w None false 0 []) (decrypt w <$> elems) in
      w ← TCBatch filters (rs_world st) (rs_tcs st);
      let w := add_rxBytes w p (rs_bytes st) in
      let w :=
        match rs_tail st with
        | None => w
        | Some elem =>
            let w := SetEndpointFromPacket w p (ibe_endpoint elem) in
            let w := keepKeyFreshReceiving w p in
            let w := timersAnyAuthenticatedPacketTraversal w p true in
            timersAnyAuthenticatedPacketReceived w p
        end in
      Some (if rs_data st then timersDataReceived w p else w)
  end.

(** ** Packets from the interface *)

(** What a device frames as MPLS: the protocol and the subtype of the frames, if any.  A
    read without content gives no element. *)
Definition read_packet (mpls : option (Z * Z)) (x : list Z * nat * option Z) : option TCElement :=
  let '(buffer, size, proto) := x in
  if decide (size < 1)%nat then None
  else
    let tce := mkTC buffer 0 0 None None None None 0 0 in
    let '(tce, size) :=
      match mpls with
      | Some (protoId, subtype) =>
          if bool_decide (proto = Some EthPMplsUnicast)
          then FrameMplsUnicast tce MessageTransportHeaderSize size protoId subtype else (tce, size)
      | None => (tce, size)
      end in
    Some (set_Packet tce MessageTransportHeaderSize size).

(** One batch of [RoutineReadFromTUN]: buffers, sizes and protocols. *)
Definition RoutineReadFromTUN (filters : list TCFilter) (mpls : option (Z * Z)) (w : World)
    (batch : list (list Z * nat * option Z)) : option World :=
  TCBatch filters w (omap (read_packet mpls) batch).

(** ** Peers *)

Definition Peer_Start (w : World) (p : PeerRef) : World :=
  if isClosed w then w
  else if pe_isRunning (peer_at w p) then w
  else
    let w := upd_peer w p (set_lastSentHandshake (w_now w - (RekeyTimeout + Second))) in
    let w := timersStart w p in
    upd_peer w p (λ pe, set_isRunning true (set_queues (pe_staged pe) [] [] pe)).

Definition ExpireCurrentKeypairs (w : World) (p : PeerRef) : World :=
  let h := pe_handshake (peer_at w p) in
  let w := set_index w (Index_Delete (w_index w) (hs_localIndex h)) in
  let w := upd_peer w p (set_hs (Handshake_Clear h)) in
  let w := upd_peer w p (set_lastSentHandshake (w_now w - (RekeyTimeout + Second))) in
  let kps := pe_keypairs (peer_at w p) in
  let w := match kps_current kps with Some k => upd_keypair w k (set_sendNonce RejectAfterMessages) | None => w end in
  match kps_next kps with Some k => upd_keypair w k (set_sendNonce RejectAfterMessages) | None => w end.

(** The routines of the peer drain its queues before they end: the sender drops what it
    finds, and the containers left for the receiver are steps before this one. *)
Definition Peer_Stop (w : World) (p : PeerRef) : World :=
  if negb (pe_isRunning (peer_at w p)) then w
  else
    let w := upd_peer w p (set_isRunning false) in
    let w := timersStop w p in
    let w := upd_peer w p (λ pe, set_queues (pe_staged pe) [] [] pe) in
    ZeroAndFlushAll w p.

Definition SetPersistentKeepaliveInterval (w : World) (p : PeerRef) (seconds : Z) : World :=
  let old := pe_persistentKeepaliveInterval (peer_at w p) in
  let w := upd_peer w p (set_keepalive (uint32 seconds)) in
  if (old =? 0) && negb (seconds =? 0) then SendStagedPackets (SendKeepalive w p) p else w.

Definition SetEndpoints (w : World) (p : PeerRef) (endpoints : list EndpointRef) : World :=
  upd_endpoints w p (λ e, mkEndpoints endpoints (en_clearSrcOnTx e) (en_disableRoaming e) (en_lastInitIndex e) (en_preferRoaming e)).

Definition CleanEndpoints (w : World) (p : PeerRef) : World :=
  upd_endpoints w p (λ e, mkEndpoints (take 1 (en_val e)) (en_clearSrcOnTx e) (en_disableRoaming e) (en_lastInitIndex e) (en_preferRoaming e)).

Definition SetPreferRoaming (w : World) (p : PeerRef) (val : bool) : World :=
  upd_endpoints w p (λ e, mkEndpoints (en_val e) (en_clearSrcOnTx e) (en_disableRoaming e) (en_lastInitIndex e) val).

(** ** The device *)

Inductive NewPeerError := ErrDeviceClosed | ErrTooManyPeers | ErrExistingPeer.

Definition NewPeer (w : World) (pk : list Z) : (NewPeerError + PeerRef) * World :=
  if isClosed w then (inl ErrDeviceClosed, w)
  else if decide (MaxPeers <= size (dv_keyMap (w_dev w)))%nat then (inl ErrTooManyPeers, w)
  else
    match dv_keyMap (w_dev w) !! pk with
    | Some _ => (inl ErrExistingPeer, w)
    | None =>
        let p := fresh (dom (w_peers w)) in
        let ss := fst (sharedSecret (dv_privateKey (w_dev w)) pk) in
        let h := zero_handshake in
        let h := mkHandshake (hs_state h) (hs_hash h) (hs_chainKey h) (hs_presharedKey h) (hs_localEphemeral h)
                   (hs_localIndex h) (hs_remoteIndex h) pk (hs_remoteEphemeral h) ss (hs_lastTimestamp h)
                   (hs_lastInitiationConsumption h) (hs_lastSentHandshake h) in
        let pe := set_hs h (set_cookieGenerator (CookieGenerator_Init zero_generator pk) new_Peer) in
        let w := set_peers w (<[p := pe]> (w_peers w)) in
        (inr p, upd_dev w (λ d, set_keyMap (<[pk := p]> (dv_keyMap d)) d))
    end.

(** [None] is a panic of the table of allowed addresses. *)
Definition removePeerLocked (w : World) (p : PeerRef) (key : list Z) : option World :=
  allowed ← AllowedIPs_RemoveByPeer (dv_Allowedips (w_dev w)) p;
  let w := upd_dev w (set_Allowedips allowed) in
  let w := Peer_Stop w p in
  Some (upd_dev w (λ d, set_keyMap (delete key (dv_keyMap d)) d)).

Definition RemovePeer (w : World) (key : list Z) : option World :=
  match dv_keyMap (w_dev w) !! key with
  | Some p => removePeerLocked w p key
  | None => Some w
  end.

Definition RemoveAllPeers (w : World) : option World :=
  w ← foldl (λ r x, w ← r; removePeerLocked w x.2 x.1) (Some w) (map_range (dv_keyMap (w_dev w)));
  Some (upd_dev w (set_keyMap ∅)).

(** [upLocked], when the sockets could be opened. *)
Definition start_peer (w : World) (x : list Z * PeerRef) : World :=
  let w := Peer_Start w x.2 in
  if 0 <? pe_persistentKeepaliveInterval (peer_at w x.2) then SendKeepalive w x.2 else w.

Definition upLocked (w : World) : World :=
  let w := foldl (λ w x, markEndpointSrcForClearing w x.2) w (map_range (dv_keyMap (w_dev w))) in
  foldl start_peer w (map_range (dv_keyMap (w_dev w))).

Definition downLocked (w : World) : World := foldl (λ w x, Peer_Stop w x.2) w (map_range (dv_keyMap (w_dev w))).

(** [bindOk]: whether [BindUpdate] opens the sockets. *)
Definition changeState (bindOk : bool) (w : World) (want : deviceState) : World :=
  let old := dv_state (w_dev w) in
  if bool_decide (old = deviceStateClosed) then w
  else if bool_decide (want = old) then w
  else
    match want with
    | deviceStateUp =>
        let w := upd_dev w (set_state deviceStateUp) in
        if bindOk then upLocked w else downLocked (upd_dev w (set_state deviceStateDown))
    | deviceStateDown => downLocked (upd_dev w (set_state deviceStateDown))
    | deviceStateClosed => w
    end.

Definition Device_Close (w : World) : option World :=
  if isClosed w then Some w
  else
    let w := upd_dev w (set_state deviceStateClosed) in
    let w := downLocked w in
    RemoveAllPeers w.

Definition remove_own_key (pk : list Z) (r : option World) (x : list Z * PeerRef) : option World :=
  w ← r;
  if bool_decide (hs_remoteStatic (pe_handshake (peer_at w x.2)) = pk) then removePeerLocked w x.2 x.1 else Some w.

Definition precompute (w : World) (x : list Z * PeerRef) : World :=
  upd_peer w x.2 (λ pe,
    let h := pe_handshake pe in
    set_hs (mkHandshake (hs_state h) (hs_hash h) (hs_chainKey h) (hs_presharedKey h) (hs_localEphemeral h) (hs_localIndex h)
      (hs_remoteIndex h) (hs_remoteStatic h) (hs_remoteEphemeral h)
      (fst (sharedSecret (dv_privateKey (w_dev w)) (hs_remoteStatic h))) (hs_lastTimestamp h)
      (hs_lastInitiationConsumption h) (hs_lastSentHandshake h)) pe).

Definition SetPrivateKey (w : World) (sk : list Z) : option World :=
  if ConstantTimeEqual sk (dv_privateKey (w_dev w)) then Some w
  else
    let pk := publicKey sk in
    w ← foldl (remove_own_key pk) (Some w) (map_range (dv_keyMap (w_dev w)));
    let w := upd_dev w (λ d, set_identity sk pk (CookieChecker_Init (dv_cookieChecker d) pk) d) in
    let peers := map_range (dv_keyMap (w_dev w)) in
    let w := foldl precompute w peers in
    Some (foldl (λ w x, ExpireCurrentKeypairs w x.2) w peers).

Definition SendKeepalivesToPeersWithCurrentKeypair (w : World) : World :=
  if negb (isUp w) then w
  else
    foldl (λ w x,
      match Current w x.2 with
      | Some k => if negb (kp_created (keypair_at w k) + RejectAfterTime <? w_now w) then SendKeepalive w x.2 else w
      | None => w
      end) w (map_range (dv_keyMap (w_dev w))).

(** The MTU the interface reports. *)
Definition update_mtu (w : World) (mtu : Z) : World :=
  if mtu <? 0 then w
  else upd_dev w (set_mtu (Z.min mtu (Z.of_nat (MaxMessageSize - MessageTransportSize)))).

End receive.
