(* ===== verification/WgBatch.v ===== *)
(** How a container of packets goes out: [partitionBuffersByEndpoint] sorts the buffers by
    their endpoints, and [SendBuffers] makes one call of the socket for each endpoint. *)

From S2P Require Import Prelude Bytes NetIP Float64 Metric Routing Endpoint Packet RouterAlgo Config External RouterIO Unicast AllowedIPs RateLimiter Replay Crypto Messages Cookie WireGuard WgSend.

(** ** The specification *)

(** The endpoints in the order in which they first occur. *)
Definition distinct (es : list EndpointRef) : list EndpointRef :=
  foldl (λ d e, if decide (e ∈ d) then d else d ++ [e]) [] es.

(** The buffers for an endpoint, in order. *)
Definition buffers_for (bufs : list (list Z)) (es : list EndpointRef) (e : EndpointRef) : list (list Z) :=
  (λ i, bufs !!! i) <$> filter (λ i, es !! i = Some e) (seq 0 (length bufs)).

Definition tagged (bufs : list (list Z)) (es : list EndpointRef) (e : EndpointRef) : list (list Z * option EndpointRef) :=
  (λ b, (b, Some e)) <$> buffers_for bufs es e.

(** ** Partition *)

Lemma default_endpoints_spec val eps : ∀ out, default_endpoints val eps = Some out →
  ∃ es, out = Some <$> es ∧ ∀ i, es !! i = (o ← eps !! i; match o with Some e => Some e | None => head val end).
Proof.
  induction eps as [|[e|] eps IH]; intros out; cbn [default_endpoints].
  - intros [= <-]. by exists [].
  - destruct (default_endpoints val eps) as [out'|]; [|done]. intros [= <-]. destruct (IH _ eq_refl) as (es & -> & Hi).
    exists (e :: es). split; [done|]. intros [|i]; cbn; [done|apply Hi].
  - destruct (head val) as [e|] eqn:Eh; [|done]. destruct (default_endpoints val eps) as [out'|]; [|done]. intros [= <-].
    destruct (IH _ eq_refl) as (es & -> & Hi). exists (e :: es). split; [done|]. intros [|i]; cbn; [done|apply Hi].
Qed.

Lemma filter_ext_in {A} (P Q : A → Prop) `{!∀ x, Decision (P x), !∀ x, Decision (Q x)} (l : list A) :
  (∀ x, x ∈ l → P x ↔ Q x) → filter P l = filter Q l.
Proof.
  induction l as [|x l IH]; intros HPQ; [done|]. rewrite !filter_cons. rewrite IH by (intros; apply HPQ; by right).
  apply decide_ext, HPQ. by left.
Qed.

Lemma filter_none {A} (P : A → Prop) `{!∀ x, Decision (P x)} (l : list A) : (∀ x, x ∈ l → ¬ P x) → filter P l = [].
Proof.
  induction l as [|x l IH]; intros HP; [done|]. rewrite filter_cons, decide_False by (apply HP; by left). apply IH. intros. apply HP. by right.
Qed.

Lemma visit_spec bufs cur m : ∀ j st,
  let '(eps, out) := foldl (visit bufs cur) st (seq j m) in
  out = st.2 ++ ((λ i, (bufs !!! i, Some cur)) <$> filter (λ i, st.1 !! i = Some (Some cur)) (seq j m)) ∧
  ∀ x, eps !! x = if decide (j <= x < j + m ∧ st.1 !! x = Some (Some cur))%nat then Some None else st.1 !! x.
Proof.
  induction m as [|m IH]; intros j st; cbn [seq foldl].
  { destruct st as [eps out]. cbn. rewrite app_nil_r. split; [done|]. intros x. by rewrite decide_False by lia. }
  specialize (IH (S j) (visit bufs cur st j)). destruct (foldl _ _ _) as [eps out]. destruct IH as [Ho Hx].
  rewrite filter_cons. unfold visit in Ho, Hx. case_bool_decide as E; cbn [fst snd] in Ho, Hx.
  - rewrite decide_True by done. split.
    + rewrite Ho, <-app_assoc. do 2 f_equal. cbn. f_equal. f_equal. apply filter_ext_in. intros x Hin%elem_of_seq.
      by rewrite list_lookup_insert_ne by lia.
    + intros x. rewrite Hx. destruct (decide (j = x)) as [<-|Hne].
      * rewrite decide_False by lia. rewrite decide_True by (split; [lia|done]).
        apply list_lookup_insert_eq. by eapply lookup_lt_Some.
      * rewrite list_lookup_insert_ne by done. apply decide_ext. split; intros [? ?]; (split; [lia|done]).
  - rewrite decide_False by done. split; [done|]. intros x. rewrite Hx. destruct (decide (j = x)) as [<-|Hne].
    + rewrite !decide_False; [done|by intros [_ ?]|by intros [? _]; lia].
    + apply decide_ext. split; intros [? ?]; (split; [lia|done]).
Qed.

Lemma distinct_snoc es e : distinct (es ++ [e]) = if decide (e ∈ distinct es) then distinct es else distinct es ++ [e].
Proof. unfold distinct. by rewrite foldl_app. Qed.

Lemma elem_of_distinct es e : e ∈ distinct es ↔ e ∈ es.
Proof.
  induction es as [|x es IH] using rev_ind; [done|]. rewrite distinct_snoc.
  case_decide; rewrite ?elem_of_app, ?list_elem_of_singleton, IH in *; set_solver.
Qed.

Lemma NoDup_distinct es : NoDup (distinct es).
Proof.
  induction es as [|x es IH] using rev_ind; [apply NoDup_nil_2|]. rewrite distinct_snoc. case_decide; [done|].
  apply NoDup_app. split_and!; [done| |apply NoDup_singleton]. by intros y Hy ->%list_elem_of_singleton.
Qed.

(** What the outer loop has done after [i] rounds. *)
Definition progress bufs es (i : nat) (st : list (option EndpointRef) * list (list Z * option EndpointRef)) : Prop :=
  st.2 = concat (tagged bufs es <$> distinct (take i es)) ∧
  ∀ x, st.1 !! x = (e ← es !! x; Some (if decide (e ∈ take i es) then None else Some e)).

Lemma visit_group_progress bufs es i st : length bufs = length es → (i < length es)%nat → progress bufs es i st → progress bufs es (S i) (visit_group bufs st i).
Proof.
  intros Hl Hi [Ho Hx]. destruct (lookup_lt_is_Some_2 es i Hi) as [cur Hc].
  assert (take (S i) es = take i es ++ [cur]) as Et by (by apply take_S_r).
  unfold visit_group. rewrite Hx, Hc. cbn [mbind option_bind].
  destruct (decide (cur ∈ take i es)) as [Hin|Hnin].
  { split.
    - by rewrite Ho, Et, distinct_snoc, decide_True by by apply elem_of_distinct.
    - intros x. rewrite Hx. destruct (es !! x) as [e|]; [|done]. cbn. f_equal. apply decide_ext. rewrite Et. set_solver. }
  pose proof (visit_spec bufs cur (length bufs - (i + 1)) (i + 1) (<[i:=None]> st.1, st.2 ++ [(bufs !!! i, Some cur)])) as V.
  destruct (foldl _ _ _) as [eps out]. cbn [fst snd] in V. destruct V as [V1 V2].
  assert (∀ x, (i < x)%nat → st.1 !! x = Some (Some cur) ↔ es !! x = Some cur) as Hlater.
  { intros x _. rewrite Hx. destruct (es !! x) as [e|]; [|done]. cbn. case_decide; split; congruence. }
  split; cbn [fst snd].
  - rewrite V1, Ho, Et, distinct_snoc, decide_False, fmap_app, concat_app by (by rewrite elem_of_distinct). rewrite <-app_assoc.
    f_equal. cbn [fmap list_fmap concat]. rewrite app_nil_r. unfold tagged, buffers_for.
    assert (seq 0 (length bufs) = seq 0 i ++ i :: seq (i + 1) (length bufs - (i + 1))) as ->.
    { replace (length bufs) with (i + S (length bufs - (i + 1)))%nat at 1 by lia. rewrite seq_app. cbn. by rewrite Nat.add_1_r. }
    rewrite filter_app, filter_cons, decide_True by done.
    rewrite (filter_none _ (seq 0 i)).
    2: { intros x Hx'%elem_of_seq E. apply Hnin, list_elem_of_lookup. exists x. by rewrite lookup_take_lt by lia. }
    cbn. f_equal. rewrite <-list_fmap_compose. f_equal. apply filter_ext_in. intros x Hx'%elem_of_seq.
    rewrite list_lookup_insert_ne by lia. apply Hlater. lia.
  - intros x. rewrite V2, Et. destruct (decide (i = x)) as [<-|Hne].
    { rewrite decide_False by lia. rewrite Hc. cbn. rewrite decide_True by set_solver. apply list_lookup_insert_eq.
      apply lookup_lt_is_Some. rewrite Hx, Hc. by eexists. }
    rewrite list_lookup_insert_ne by done. rewrite Hx. destruct (es !! x) as [e|] eqn:Ee; cbn; [|by rewrite decide_False by (by intros [_ ?])].
    destruct (decide (e ∈ take i es)) as [He|He].
    { rewrite decide_False by (by intros [_ ?]). by rewrite decide_True by set_solver. }
    destruct (decide (e = cur)) as [->|Hcur].
    + apply lookup_lt_Some in Ee as Hlt. assert (i < x)%nat.
      { destruct (decide (x < i)%nat); [|lia]. destruct He. apply list_elem_of_lookup. exists x. by rewrite lookup_take_lt. }
      rewrite decide_True by (split; [lia|done]). by rewrite decide_True by set_solver.
    + rewrite decide_False by (intros [_ [=]]; done). by rewrite decide_False by set_solver.
Qed.

Lemma visit_groups_progress bufs es n : length bufs = length es → (n <= length es)%nat →
  progress bufs es n (foldl (visit_group bufs) (Some <$> es, []) (seq 0 n)).
Proof.
  intros Hl. induction n as [|n IH]; intros Hn.
  - split; [done|]. intros x. cbn. rewrite list_lookup_fmap. destruct (es !! x); [|done]. cbn. by rewrite decide_False by apply not_elem_of_nil.
  - rewrite seq_S, foldl_app. apply visit_group_progress; [done|lia|]. apply IH. lia.
Qed.

Lemma partition_spec val bufs eps out : length bufs = length eps → partitionBuffersByEndpoint val bufs eps = Some out →
  ∃ es, (∀ i, es !! i = (o ← eps !! i; match o with Some e => Some e | None => head val end)) ∧ length es = length eps ∧
    out = concat (tagged bufs es <$> distinct es).
Proof.
  intros Hl. unfold partitionBuffersByEndpoint. destruct (default_endpoints val eps) as [eps'|] eqn:E; [|done]. cbn. intros [= <-].
  assert (length eps' = length eps) as Hl'.
  { revert eps' E. clear. induction eps as [|[e|] eps IH]; cbn; intros eps' E; [by injection E as <-|..].
    - destruct (default_endpoints val eps); [|done]. injection E as <-. cbn. f_equal. by apply IH.
    - destruct (head val); [|done]. cbn in E. destruct (default_endpoints val eps); [|done]. injection E as <-. cbn. f_equal. by apply IH. }
  apply default_endpoints_spec in E as (es & -> & Hi). rewrite length_fmap in Hl'. exists es. split_and!; [done|done|].
  destruct (visit_groups_progress bufs es (length bufs)) as [-> _]; [lia|lia|]. by rewrite take_ge by lia.
Qed.

(** ** Sending *)

Lemma send_batches_group endpoints e bs : ∀ w batch rest err,
  send_batches w endpoints (Some e) batch (((λ b, (b, Some e)) <$> bs) ++ rest) err = send_batches w endpoints (Some e) (batch ++ bs) rest err.
Proof.
  induction bs as [|b bs IH]; intros w batch rest err; cbn [fmap list_fmap app send_batches]; [by rewrite app_nil_r|].
  rewrite bool_decide_eq_true_2 by done. rewrite IH. by rewrite <-app_assoc.
Qed.

Lemma bind_Send_sent w bufs e r w' : bind_Send w bufs e = (r, w') → w_sent w' = w_sent w ++ [(bufs, e)].
Proof. unfold bind_Send. case_goal; by intros [= <- <-]. Qed.

(** The batch of [e], and then those of the other endpoints. *)
Lemma send_batches_groups endpoints (f : EndpointRef → list (list Z)) d : ∀ w e batch err r w', NoDup (e :: d) → (∀ x, x ∈ d → f x ≠ []) →
  send_batches w endpoints (Some e) batch (concat ((λ x, (λ b, (b, Some x)) <$> f x) <$> d)) err = (r, w') →
  (∃ err', r = Some err') ∧ w_sent w' = w_sent w ++ (batch, e) :: ((λ x, (f x, x)) <$> d).
Proof.
  induction d as [|x d IH]; intros w e batch err r w' Hnd Hf; cbn [fmap list_fmap concat].
  - cbn [send_batches]. destruct (bind_Send w batch e) as [s w1] eqn:E. intros [= <- <-]. apply bind_Send_sent in E. eauto.
  - destruct (f x) as [|b bs] eqn:Ef; [by apply Hf in Ef; [|left]|].
    cbn [fmap list_fmap app send_batches]. apply NoDup_cons in Hnd as [Hne Hnd].
    rewrite bool_decide_eq_false_2 by (intros [= ->]; apply Hne; by left).
    destruct (bind_Send w batch e) as [s w1] eqn:E. rewrite send_batches_group. intros H. apply bind_Send_sent in E.
    apply IH in H as [Hr ->]; [|done|intros; apply Hf; by right]. rewrite E, <-app_assoc. by split.
Qed.

Lemma buffers_for_ne bufs es e : length bufs = length es → e ∈ es → buffers_for bufs es e ≠ [].
Proof.
  intros Hl [i Hi]%list_elem_of_lookup E. apply fmap_nil_inv in E. apply lookup_lt_Some in Hi as Hlt.
  apply (not_elem_of_nil (A := nat) i). rewrite <-E. apply list_elem_of_filter. split; [done|]. apply elem_of_seq. lia.
Qed.

(** a container goes out grouped by endpoint: buffers without an endpoint get the first
    one of the peer, the socket is called once for each endpoint, in the order in which the
    endpoints first occur, with all the buffers for it in their order; no buffer is lost,
    repeated or sent elsewhere, also when a call fails. *)
Theorem container_grouped (w : World) (p : PeerRef) (bufs : list (list Z)) (eps : list (option EndpointRef)) first rest :
  length bufs = length eps → isClosed w = false →
  partitionBuffersByEndpoint (en_val (pe_endpoints (peer_at w p))) bufs eps = Some (first :: rest) →
  ∃ es, (∀ i, es !! i = (o ← eps !! i; match o with Some e => Some e | None => head (en_val (pe_endpoints (peer_at w p))) end)) ∧
    w_sent (SendBuffers w p first rest).2 = w_sent w ++ ((λ e, (buffers_for bufs es e, e)) <$> distinct es).
Proof.
  intros Hl Hc Hp. apply partition_spec in Hp as (es & Hes & Hle & Hout); [|done]. exists es. split; [done|].
  pose proof (NoDup_distinct es) as Hnd. destruct (distinct es) as [|e d] eqn:Ed; [done|].
  assert (∀ x, x ∈ e :: d → buffers_for bufs es x ≠ []) as Hne.
  { intros x. rewrite <-Ed, elem_of_distinct. apply buffers_for_ne. lia. }
  cbn [fmap list_fmap concat] in Hout. unfold tagged in Hout at 1.
  destruct (buffers_for bufs es e) as [|b bs] eqn:Eb; [by apply Hne in Eb; [|left]|]. cbn in Hout. injection Hout as -> Hrest.
  unfold SendBuffers. rewrite Hc. cbv zeta. cbn [fst snd].
  match goal with |- context [send_batches ?v _ _ _ _ _] => set (w1 := v) end.
  assert (w_sent w1 = w_sent w) as Hw1.
  { unfold w1. case_goal; [|done]. cbn. apply (foldl_ind (λ v, w_sent v = w_sent w)); [done|]. intros v x _ Hv. unfold clear_src. by case_goal. }
  destruct (send_batches _ _ _ _ _ _) as [r w2] eqn:E. rewrite Hrest, send_batches_group in E.
  apply send_batches_groups in E as [[err ->] Hs]; [|done|intros x Hx; apply Hne; by right]. cbn. rewrite Hs, Hw1. cbn. by rewrite Eb.
Qed.

(** ** Demonstration *)

Module BatchDemo.

Definition w : World :=
  mkWorld (mkDevice deviceStateUp [] [] ∅ 0 Ratelimiter_Init (mkAllowedIPs Nil Nil ∅) zero_checker 1420 []) ∅
    {[ 0%nat := set_eps (mkEndpoints [4; 5]%nat false false 0 false) new_Peer ]} ∅ ∅ 0 [] [] [SendFailed] [] [] [].

Definition bufs : list (list Z) := [[1]; [2]; [3]; [4]; [5]].
Definition eps : list (option EndpointRef) := [Some 5; None; Some 6; Some 5; Some 4]%nat.

Lemma container_grouped_witness :
  w_sent (SendBuffers w 0 ([1], Some 5%nat) [([4], Some 5%nat); ([2], Some 4%nat); ([5], Some 4%nat); ([3], Some 6%nat)]).2 =
    [([[1]; [4]], 5%nat); ([[2]; [5]], 4%nat); ([[3]], 6%nat)].
Proof.
  destruct (container_grouped w 0 bufs eps ([1], Some 5%nat) [([4], Some 5%nat); ([2], Some 4%nat); ([5], Some 4%nat); ([3], Some 6%nat)])
    as (es & Hes & ->).
  - reflexivity.
  - reflexivity.
  - reflexivity.
  - assert (es = [5; 4; 6; 5; 4]%nat) as ->; [|reflexivity].
    apply list_eq. intros i. rewrite Hes. do 5 (destruct i as [|i]; [reflexivity|]). reflexivity.
Defined.

End BatchDemo.
