(* ===== verification/HandshakeProps.v ===== *)
(** The Noise handshake of [WireGuard]: both ends derive the same keys, and what is
    accepted. *)

From S2P Require Import Prelude Bytes NetIP Float64 Metric Routing Endpoint Packet AllowedIPs RateLimiter Replay Crypto Messages Cookie WireGuard.

(** ** Stores *)

Lemma peer_at_upd w p q f : peer_at (upd_peer w p f) q = if decide (p = q) then f (peer_at w p) else peer_at w q.
Proof.
  unfold peer_at, upd_peer. cbn. case_decide as H; [subst; apply lookup_total_insert_eq|by apply lookup_total_insert_ne].
Qed.

Lemma peer_at_upd_eq w p f : peer_at (upd_peer w p f) p = f (peer_at w p).
Proof. rewrite peer_at_upd. by rewrite decide_True. Qed.

Lemma peer_at_upd_ne w p q f : p ≠ q → peer_at (upd_peer w p f) q = peer_at w q.
Proof. intros. rewrite peer_at_upd. by rewrite decide_False. Qed.

Lemma peer_at_set_dev w x p : peer_at (set_dev w x) p = peer_at w p.
Proof. done. Qed.
Lemma peer_at_set_index w x p : peer_at (set_index w x) p = peer_at w p.
Proof. done. Qed.
Lemma peer_at_set_keypairs w x p : peer_at (set_keypairs w x) p = peer_at w p.
Proof. done. Qed.
Lemma peer_at_set_endpoints w x p : peer_at (set_endpoints w x) p = peer_at w p.
Proof. done. Qed.
Lemma peer_at_set_rnd w x p : peer_at (set_rnd w x) p = peer_at w p.
Proof. done. Qed.
Lemma peer_at_set_jitter w x p : peer_at (set_jitter w x) p = peer_at w p.
Proof. done. Qed.
Lemma peer_at_set_sent w x y p : peer_at (set_sent w x y) p = peer_at w p.
Proof. done. Qed.
Lemma peer_at_set_out w x y p : peer_at (set_out w x y) p = peer_at w p.
Proof. done. Qed.
Lemma keypair_at_set_dev w x k : keypair_at (set_dev w x) k = keypair_at w k.
Proof. done. Qed.
Lemma keypair_at_set_index w x k : keypair_at (set_index w x) k = keypair_at w k.
Proof. done. Qed.
Lemma keypair_at_set_peers w x k : keypair_at (set_peers w x) k = keypair_at w k.
Proof. done. Qed.
Lemma keypair_at_set_endpoints w x k : keypair_at (set_endpoints w x) k = keypair_at w k.
Proof. done. Qed.
Lemma keypair_at_set_rnd w x k : keypair_at (set_rnd w x) k = keypair_at w k.
Proof. done. Qed.
Lemma keypair_at_set_jitter w x k : keypair_at (set_jitter w x) k = keypair_at w k.
Proof. done. Qed.
Lemma keypair_at_set_sent w x y k : keypair_at (set_sent w x y) k = keypair_at w k.
Proof. done. Qed.
Lemma keypair_at_set_out w x y k : keypair_at (set_out w x y) k = keypair_at w k.
Proof. done. Qed.
Lemma keypair_at_upd_peer w p f k : keypair_at (upd_peer w p f) k = keypair_at w k.
Proof. done. Qed.
Lemma peer_at_upd_keypair w k f p : peer_at (upd_keypair w k f) p = peer_at w p.
Proof. done. Qed.
Lemma keypair_at_upd_eq w k f : keypair_at (upd_keypair w k f) k = f (keypair_at w k).
Proof. apply lookup_total_insert_eq. Qed.
Lemma keypair_at_upd_ne w k l f : k ≠ l → keypair_at (upd_keypair w k f) l = keypair_at w l.
Proof. apply lookup_total_insert_ne. Qed.

#[export] Hint Rewrite peer_at_set_dev peer_at_set_index peer_at_set_keypairs peer_at_set_endpoints peer_at_set_rnd peer_at_set_jitter peer_at_set_sent peer_at_set_out
  keypair_at_set_dev keypair_at_set_index keypair_at_set_peers keypair_at_set_endpoints keypair_at_set_rnd keypair_at_set_jitter keypair_at_set_sent keypair_at_set_out
  peer_at_upd_eq keypair_at_upd_peer peer_at_upd_keypair keypair_at_upd_eq : wg.

(** ** Fresh indices *)

Lemma NewIndexForHandshake_spec t p rnd index t' rnd' :
  NewIndexForHandshake t p rnd = (index, true, t', rnd') →
  t !! index = None ∧ t' = <[index := mkIndexEntry (Some p) (Some p) None]> t ∧ rnd' `suffix_of` rnd ∧
  ∃ b, (b, true) ∈ rnd ∧ index = uint32_of b.
Proof.
  revert t'. induction rnd as [|[b ok] rnd IH]; intros t'; cbn [NewIndexForHandshake]; [done|].
  destruct ok; cbn [negb]; [|done]. destruct (t !! uint32_of b) eqn:E.
  - intros (? & ? & ? & b' & ? & ?)%IH. split_and!; [done..|by apply suffix_cons_r|exists b'; split; [by right|done]].
  - intros [= <- <- <-]. split_and!; [done..|by apply suffix_cons_r|exists b; split; [by left|done]].
Qed.

(** The loop ends with an index as soon as the source offers a free one. *)
Lemma NewIndexForHandshake_total t p rnd :
  (∃ used b rest, rnd = used ++ (b, true) :: rest ∧ t !! uint32_of b = None ∧ Forall (λ x, x.2 = true) used) →
  ∃ index t' rnd', NewIndexForHandshake t p rnd = (index, true, t', rnd').
Proof.
  intros (used & b & rest & -> & Hb & Hu). induction Hu as [|[b' ok] used Hok Hu IH]; cbn.
  - rewrite Hb. eauto.
  - cbn in Hok. rewrite Hok. cbn. destruct (t !! uint32_of b'); eauto.
Qed.

(** ** Transcripts *)

Section transcripts.
Context `{CR : Crypto}.

(** What an initiation looks like: the key of the responder, the ephemeral key, the two
    shared secrets, the key of the initiator and the timestamp determine it, and the
    chaining key and hash after it. *)
Definition initiation_for (respPK E es ss initPK timestamp : list Z) (sender : Z) (mac1 mac2 : list Z)
    : MessageInitiation * list Z * list Z :=
  let hash := mixHash (mixHash InitialHash respPK) E in
  let '(ck, key) := KDF2 (mixKey InitialChainKey E) es in
  let static := Seal key ZeroNonce initPK hash in
  let hash := mixHash hash static in
  let '(ck, key) := KDF2 ck ss in
  let ts := Seal key ZeroNonce timestamp hash in
  (mkInitiation MessageInitiationType sender E static ts mac1 mac2, ck, mixHash hash ts).

(** The response to a transcript, and the chaining key and hash after it. *)
Definition response_for (ck hash E ee se psk : list Z) (sender receiver : Z) (mac1 mac2 : list Z)
    : MessageResponse * list Z * list Z :=
  let hash := mixHash hash E in
  let ck := mixKey (mixKey (mixKey ck E) ee) se in
  let '(ck, tau, key) := KDF3 ck psk in
  let hash := mixHash hash tau in
  let empty := Seal key ZeroNonce [] hash in
  (mkResponse MessageResponseType sender receiver E empty mac1 mac2, ck, mixHash hash empty).

End transcripts.

Section handshake.
Context `{CR : Crypto} `{CL : !CryptoLaws}.
Implicit Types (w : World) (p : PeerRef).

Lemma newPrivateKey_length rnd sk ok rnd' : newPrivateKey rnd = (sk, ok, rnd') → length sk = NoisePrivateKeySize.
Proof.
  unfold newPrivateKey. destruct rnd as [|[b o] rnd]; cbn [rand_Read]; intros [= <- <- <-]; rewrite length_clamp;
    [apply length_zeros|apply length_array_of].
Qed.

(** A created initiation is the transcript of the peer's key, with a timestamp of now. *)
Lemma CreateMessageInitiation_spec w p m w' :
  CreateMessageInitiation w p = (Some m, w') →
  let h := pe_handshake (peer_at w p) in
  let h' := pe_handshake (peer_at w' p) in
  ∃ eph ck hash, length eph = NoisePrivateKeySize ∧
    isZero (ScalarMult eph (hs_remoteStatic h)) = false ∧
    isZero (hs_precomputedStaticStatic h) = false ∧
    initiation_for (hs_remoteStatic h) (publicKey eph) (ScalarMult eph (hs_remoteStatic h)) (hs_precomputedStaticStatic h)
      (dv_publicKey (w_dev w)) (stamp (w_now w)) (mi_Sender m) (zeros 16) (zeros 16) = (m, ck, hash) ∧
    h' = hs_symmetric h handshakeInitiationCreated hash ck eph (mi_Sender m) (hs_remoteIndex h) (hs_remoteEphemeral h) ∧
    w_dev w' = w_dev w ∧
    w_index w' !! mi_Sender m = Some (mkIndexEntry (Some p) (Some p) None).
Proof.
  unfold CreateMessageInitiation. cbv zeta.
  destruct (newPrivateKey (w_rnd w)) as [[eph ok] rnd1] eqn:Ek.
  apply newPrivateKey_length in Ek. destruct ok; cbn [negb]; [|done].
  unfold sharedSecret. destruct (isZero (ScalarMult eph _)) eqn:Ees; cbn [negb]; [done|].
  destruct (KDF2 _ _) as [ck1 key1] eqn:Ek1.
  destruct (isZero (hs_precomputedStaticStatic _)) eqn:Ess; [done|].
  destruct (KDF2 ck1 _) as [ck2 key2] eqn:Ek2.
  destruct (NewIndexForHandshake _ _ _) as [[[sender ok] table] rnd2] eqn:Ei. destruct ok; cbn [negb]; [|done].
  apply NewIndexForHandshake_spec in Ei as (_ & -> & _). intros [= <- <-]. cbn [mi_Sender].
  do 3 eexists. split; [exact Ek|]. split; [exact Ees|]. split; [done|].
  split; [unfold initiation_for; rewrite Ek1, Ek2; reflexivity|].
  split; [by rewrite peer_at_upd_eq|]. split; [done|apply lookup_insert_eq].
Qed.

(** A device opens exactly the transcripts for its key and for a peer it runs. *)
Lemma open_initiation_iff w m p ts ck hash :
  open_initiation w m = Some (p, ts, ck, hash) ↔
  ∃ initPK timestamp,
    isZero (ScalarMult (dv_privateKey (w_dev w)) (mi_Ephemeral m)) = false ∧
    dv_keyMap (w_dev w) !! array_of NoisePublicKeySize initPK = Some p ∧
    pe_isRunning (peer_at w p) = true ∧
    isZero (hs_precomputedStaticStatic (pe_handshake (peer_at w p))) = false ∧
    ts = array_of TimestampSize timestamp ∧
    initiation_for (dv_publicKey (w_dev w)) (mi_Ephemeral m) (ScalarMult (dv_privateKey (w_dev w)) (mi_Ephemeral m))
      (hs_precomputedStaticStatic (pe_handshake (peer_at w p))) initPK timestamp (mi_Sender m) (mi_MAC1 m) (mi_MAC2 m) = (m, ck, hash).
Proof.
  unfold open_initiation, initiation_for, sharedSecret, LookupPeer. cbv zeta.
  destruct (KDF2 (mixKey InitialChainKey (mi_Ephemeral m)) _) as [ck1 key1] eqn:E1.
  split.
  - destruct (Z.eqb_spec (mi_Type m) MessageInitiationType) as [Ht|]; cbn [negb]; [|done].
    destruct (isZero (ScalarMult _ _)) eqn:Ees; cbn [negb]; [done|].
    destruct (Open key1 _ _ _) as [pk|] eqn:Eo1; [|done]. cbn [mbind option_bind].
    destruct (dv_keyMap _ !! _) as [q|] eqn:Eq; [|done]. cbn [mbind option_bind].
    destruct (pe_isRunning _) eqn:Er; cbn [negb]; [|done].
    destruct (isZero (hs_precomputedStaticStatic _)) eqn:Ess; [done|].
    destruct (KDF2 ck1 _) as [ck2 key2] eqn:E2.
    destruct (Open key2 _ _ _) as [t|] eqn:Eo2; [|done]. cbn [mbind option_bind]. intros [= <- <- <- <-].
    apply Open_inv in Eo1, Eo2. exists pk, t. split_and!; try done. rewrite E2, <-Eo1, <-Eo2.
    destruct m; cbn in *; by subst.
  - intros (pk & t & Hes & Hp & Hr & Hss & -> & H).
    destruct (KDF2 ck1 _) as [ck2 key2] eqn:E2. injection H as Hm <- <-.
    pose proof (f_equal mi_Type Hm) as Ht. pose proof (f_equal mi_Static Hm) as Hs. pose proof (f_equal mi_Timestamp Hm) as Hts.
    cbn [mi_Type mi_Static mi_Timestamp] in Ht, Hs, Hts. rewrite <-Ht, <-Hts, <-Hs, Hes. cbn [Z.eqb Pos.eqb MessageInitiationType negb].
    rewrite Open_Seal. cbn [mbind option_bind]. rewrite Hp. cbn [mbind option_bind]. rewrite Hr, Hss, E2. cbn [negb].
    by rewrite Open_Seal.
Qed.

(** Consuming an initiation: the transcript is opened, it is newer than the last one, and
    not too soon after it. *)
Definition consumed w m p ts ck hash : World :=
  let h := pe_handshake (peer_at w p) in
  upd_peer w p (set_hs (hs_stamps (hs_symmetric h handshakeInitiationConsumed hash ck (hs_localEphemeral h) (hs_localIndex h)
      (mi_Sender m) (mi_Ephemeral m)) ts
    (if hs_lastInitiationConsumption h <? w_now w then w_now w else hs_lastInitiationConsumption h) (hs_lastSentHandshake h))).

Lemma ConsumeMessageInitiation_iff w m p w' :
  ConsumeMessageInitiation w m = (Some p, w') ↔
  ∃ ts ck hash, open_initiation w m = Some (p, ts, ck, hash) ∧
    After ts (hs_lastTimestamp (pe_handshake (peer_at w p))) = true ∧
    HandshakeInitationRate < time_Sub (w_now w) (hs_lastInitiationConsumption (pe_handshake (peer_at w p))) ∧
    w' = consumed w m p ts ck hash.
Proof.
  unfold ConsumeMessageInitiation. destruct (open_initiation w m) as [[[[q ts] ck] hash]|]; [|split; [done|intros (?&?&?&?&_); done]].
  destruct (After ts _) eqn:Ea; cbn [negb].
  2: { split; [done|]. intros (? & ? & ? & [= -> -> -> ->] & ? & _). congruence. }
  destruct (_ <=? HandshakeInitationRate) eqn:Ef; to_prop.
  { split; [done|]. intros (? & ? & ? & [= -> -> -> ->] & _ & ? & _). lia. }
  cbn [hs_lastTimestamp hs_lastInitiationConsumption hs_lastSentHandshake hs_symmetric].
  split; [intros [= <- <-]; eauto 10|]. by intros (? & ? & ? & [= -> -> -> ->] & _ & _ & ->).
Qed.

(** A created response is the transcript that continues the consumed one. *)
Lemma CreateMessageResponse_spec w p m w' :
  CreateMessageResponse w p = (Some m, w') →
  let h := pe_handshake (peer_at w p) in
  let h' := pe_handshake (peer_at w' p) in
  ∃ eph ck hash, length eph = NoisePrivateKeySize ∧
    hs_state h = handshakeInitiationConsumed ∧
    isZero (ScalarMult eph (hs_remoteEphemeral h)) = false ∧
    isZero (ScalarMult eph (hs_remoteStatic h)) = false ∧
    response_for (hs_chainKey h) (hs_hash h) (publicKey eph) (ScalarMult eph (hs_remoteEphemeral h))
      (ScalarMult eph (hs_remoteStatic h)) (hs_presharedKey h) (mr_Sender m) (hs_remoteIndex h) (zeros 16) (zeros 16) = (m, ck, hash) ∧
    h' = hs_symmetric h handshakeResponseCreated hash ck eph (mr_Sender m) (hs_remoteIndex h) (hs_remoteEphemeral h) ∧
    w_dev w' = w_dev w ∧
    w_index w' !! mr_Sender m = Some (mkIndexEntry (Some p) (Some p) None).
Proof.
  unfold CreateMessageResponse. cbv zeta. case_bool_decide as Hst; [done|].
  destruct (NewIndexForHandshake _ _ _) as [[[sender ok] table] rnd2] eqn:Ei. destruct ok; cbn [negb]; [|done].
  apply NewIndexForHandshake_spec in Ei as (_ & -> & _).
  destruct (newPrivateKey _) as [[eph ok] rnd1] eqn:Ek. apply newPrivateKey_length in Ek. destruct ok; cbn [negb]; [|done].
  unfold sharedSecret. destruct (isZero (ScalarMult eph _)) eqn:Eee; cbn [negb]; [done|].
  destruct (isZero (ScalarMult eph (hs_remoteStatic _))) eqn:Ese; cbn [negb]; [done|].
  destruct (KDF3 _ _) as [[ck tau] key] eqn:E3. intros [= <- <-]. cbn [mr_Sender].
  do 3 eexists. split; [exact Ek|]. split; [done|]. split; [done|]. split; [done|].
  split; [unfold response_for; rewrite E3; reflexivity|].
  split; [by rewrite peer_at_upd_eq|]. split; [done|apply lookup_insert_eq].
Qed.

(** An initiator opens exactly the response that continues its own transcript. *)
Lemma open_response_iff w h m ck hash : mr_Type m = MessageResponseType → length (mr_Empty m) = TagSize →
  open_response w h m = Some (ck, hash) ↔
  hs_state h = handshakeInitiationCreated ∧
  isZero (ScalarMult (hs_localEphemeral h) (mr_Ephemeral m)) = false ∧
  isZero (ScalarMult (dv_privateKey (w_dev w)) (mr_Ephemeral m)) = false ∧
  response_for (hs_chainKey h) (hs_hash h) (mr_Ephemeral m)
      (ScalarMult (hs_localEphemeral h) (mr_Ephemeral m)) (ScalarMult (dv_privateKey (w_dev w)) (mr_Ephemeral m))
      (hs_presharedKey h) (mr_Sender m) (mr_Receiver m) (mr_MAC1 m) (mr_MAC2 m) = (m, ck, hash).
Proof.
  intros Ht Hl. unfold open_response, response_for, sharedSecret. cbv zeta.
  case_bool_decide as Hst; [split; [done|by intros [? _]]|].
  destruct (isZero (ScalarMult (hs_localEphemeral h) _)) eqn:Eee; cbn [negb]; [split; [done|by intros (_ & ? & _)]|].
  destruct (isZero (ScalarMult (dv_privateKey _) _)) eqn:Ese; cbn [negb]; [split; [done|by intros (_ & _ & ? & _)]|].
  destruct (KDF3 _ _) as [[ck1 tau] key] eqn:E3. split.
  - destruct (Open key _ _ _) as [text|] eqn:Eo; [|done]. cbn [mbind option_bind]. intros [= <- <-].
    apply Open_inv in Eo. assert (text = []) as ->.
    { apply (f_equal length) in Eo. rewrite length_Seal, Hl in Eo. apply length_zero_iff_nil. lia. }
    split_and!; try done. rewrite <-Eo. destruct m; cbn in *; by subst.
  - intros (_ & _ & _ & [= Hm <- <-]). pose proof (f_equal mr_Empty Hm) as He. cbn [mr_Empty] in He.
    rewrite <-He, Open_Seal. done.
Qed.

(** ** The session *)

Lemma DeleteKeypair_frame w k : ∃ t, DeleteKeypair w k = set_index w t.
Proof. destruct k; [by eexists|]. exists (w_index w). by destruct w. Qed.

(** Rotation puts the new keypair in place and changes no other peer. *)
Lemma rotate_spec w p k isInitiator : ∃ t kps,
  rotate w p k isInitiator = upd_peer (set_index w t) p (set_kps kps) ∧
  (if isInitiator then kps_current kps = Some k ∧ kps_next kps = None
   else kps_next kps = Some k ∧ kps_current kps = kps_current (pe_keypairs (peer_at w p))).
Proof.
  unfold rotate. cbv zeta.
  assert (∀ v, set_index w v = set_index (set_index w v) v) as Hid by done.
  destruct isInitiator.
  - destruct (kps_next _).
    + destruct (DeleteKeypair_frame w (kps_current (pe_keypairs (peer_at w p)))) as [t1 ->].
      destruct (DeleteKeypair_frame (set_index w t1) (kps_previous (pe_keypairs (peer_at w p)))) as [t2 ->].
      by eexists _, _.
    + destruct (DeleteKeypair_frame w (kps_previous (pe_keypairs (peer_at w p)))) as [t2 ->]. by eexists _, _.
  - destruct (DeleteKeypair_frame w (kps_next (pe_keypairs (peer_at w p)))) as [t1 ->].
    destruct (DeleteKeypair_frame (set_index w t1) (kps_previous (pe_keypairs (peer_at w p)))) as [t2 ->].
    by eexists _, _.
Qed.

(** The keys a session is made of, by the role in the handshake. *)
Definition session_keys (h : Handshake) : option (list Z * list Z * bool) :=
  let '(a, b) := KDF2 (hs_chainKey h) [] in
  match hs_state h with
  | handshakeResponseConsumed => Some (a, b, true)
  | handshakeResponseCreated => Some (b, a, false)
  | _ => None
  end.

Lemma BeginSymmetricSession_spec w p :
  let h := pe_handshake (peer_at w p) in
  match session_keys h with
  | None => BeginSymmetricSession w p = (false, w)
  | Some (send, recv, isInitiator) =>
      ∃ w', BeginSymmetricSession w p = (true, w') ∧
        pe_handshake (peer_at w' p) = hs_symmetric h handshakeZeroed (setZero (hs_hash h)) (setZero (hs_chainKey h))
          (setZero (hs_localEphemeral h)) 0 (hs_remoteIndex h) (hs_remoteEphemeral h) ∧
        keypair_at w' (new_ref w) = mkKeypair 0 send recv (Filter_Reset zero_filter) isInitiator (w_now w) (hs_localIndex h) (hs_remoteIndex h) ∧
        (if isInitiator then kps_current (pe_keypairs (peer_at w' p)) = Some (new_ref w) ∧ kps_next (pe_keypairs (peer_at w' p)) = None
         else kps_next (pe_keypairs (peer_at w' p)) = Some (new_ref w) ∧
           kps_current (pe_keypairs (peer_at w' p)) = kps_current (pe_keypairs (peer_at w p)))
  end.
Proof.
  unfold session_keys, BeginSymmetricSession. cbv zeta. destruct (KDF2 _ []) as [a b].
  set (h := pe_handshake (peer_at w p)).
  destruct (hs_state h); try done.
  all: match goal with |- context [rotate ?w1 ?q ?k ?i] => destruct (rotate_spec w1 q k i) as (t & kps & -> & Hk) end.
  all: eexists; split; [reflexivity|]; autorewrite with wg in *.
  all: split; [done|]; split; [apply lookup_total_insert_eq|]; exact Hk.
Qed.

(** ** Agreement *)

(** Two devices that have each other as a peer, with the same preshared key. *)
Record linked (A B : World) (pa pb : PeerRef) : Prop := {
  lk_privA : length (dv_privateKey (w_dev A)) = NoisePrivateKeySize;
  lk_privB : length (dv_privateKey (w_dev B)) = NoisePrivateKeySize;
  lk_pubA : dv_publicKey (w_dev A) = publicKey (dv_privateKey (w_dev A));
  lk_pubB : dv_publicKey (w_dev B) = publicKey (dv_privateKey (w_dev B));
  lk_remA : hs_remoteStatic (pe_handshake (peer_at A pa)) = dv_publicKey (w_dev B);
  lk_remB : hs_remoteStatic (pe_handshake (peer_at B pb)) = dv_publicKey (w_dev A);
  lk_preA : hs_precomputedStaticStatic (pe_handshake (peer_at A pa)) =
    fst (sharedSecret (dv_privateKey (w_dev A)) (dv_publicKey (w_dev B)));
  lk_preB : hs_precomputedStaticStatic (pe_handshake (peer_at B pb)) =
    fst (sharedSecret (dv_privateKey (w_dev B)) (dv_publicKey (w_dev A)));
  lk_mapB : dv_keyMap (w_dev B) !! dv_publicKey (w_dev A) = Some pb;
  lk_runB : pe_isRunning (peer_at B pb) = true;
  lk_psk : hs_presharedKey (pe_handshake (peer_at A pa)) = hs_presharedKey (pe_handshake (peer_at B pb));
}.

Lemma ScalarMult_publicKey a b : length a = NoisePrivateKeySize → length b = NoisePrivateKeySize →
  ScalarMult a (publicKey b) = ScalarMult b (publicKey a).
Proof. apply ScalarMult_agree. Qed.

(** The responder opens what the initiator created, to the same chaining key and hash. *)
Lemma initiation_agrees A B pa pb m A1 : linked A B pa pb →
  CreateMessageInitiation A pa = (Some m, A1) →
  ∃ ck hash, open_initiation B m = Some (pb, stamp (w_now A), ck, hash) ∧
    hs_state (pe_handshake (peer_at A1 pa)) = handshakeInitiationCreated ∧
    hs_chainKey (pe_handshake (peer_at A1 pa)) = ck ∧ hs_hash (pe_handshake (peer_at A1 pa)) = hash ∧
    publicKey (hs_localEphemeral (pe_handshake (peer_at A1 pa))) = mi_Ephemeral m.
Proof.
  intros [HpA HpB HkA HkB HrA HrB HsA HsB Hmap Hrun _] H.
  apply CreateMessageInitiation_spec in H as (eph & ck & hash & Hl & Hes & Hss & Hm & Hh & _).
  rewrite HrA, HkB in Hes, Hm. rewrite HsA, HkB in Hss, Hm.
  rewrite (sharedSecret_agree (dv_privateKey (w_dev A)) (dv_privateKey (w_dev B))) in Hss, Hm by done.
  assert (mi_Ephemeral m = publicKey eph ∧ mi_MAC1 m = zeros 16 ∧ mi_MAC2 m = zeros 16) as (He & H1 & H2).
  { unfold initiation_for in Hm. destruct (KDF2 _ _), (KDF2 _ _). by injection Hm as <- _ _. }
  exists ck, hash. rewrite Hh. cbn [hs_state hs_chainKey hs_hash hs_localEphemeral hs_symmetric]. split; [|done].
  apply open_initiation_iff. exists (dv_publicKey (w_dev A)), (stamp (w_now A)).
  rewrite He, H1, H2, (ScalarMult_publicKey (dv_privateKey (w_dev B)) eph), HsB, HkB by done.
  rewrite array_of_exact by (rewrite HkA; apply length_ScalarBaseMult).
  rewrite HkA at 2. rewrite HkA at 2. by split_and!.
Qed.

(** The initiator opens the response to its initiation, to the same chaining key and hash. *)
Lemma response_agrees A B pa pb m1 A1 ck hash m2 B2 : linked A B pa pb →
  CreateMessageInitiation A pa = (Some m1, A1) →
  open_initiation B m1 = Some (pb, stamp (w_now A), ck, hash) →
  CreateMessageResponse (consumed B m1 pb (stamp (w_now A)) ck hash) pb = (Some m2, B2) →
  ∃ ck' hash', open_response A1 (pe_handshake (peer_at A1 pa)) m2 = Some (ck', hash') ∧
    mr_Type m2 = MessageResponseType ∧ mr_Receiver m2 = mi_Sender m1 ∧
    hs_state (pe_handshake (peer_at B2 pb)) = handshakeResponseCreated ∧
    hs_chainKey (pe_handshake (peer_at B2 pb)) = ck' ∧
    hs_localIndex (pe_handshake (peer_at B2 pb)) = mr_Sender m2 ∧
    hs_remoteIndex (pe_handshake (peer_at B2 pb)) = mi_Sender m1.
Proof.
  intros L Hc Ho Hr.
  destruct (initiation_agrees A B pa pb m1 A1 L Hc) as (ck0 & hash0 & Ho' & Hst & Hck & Hh & He). rewrite Ho in Ho'. injection Ho' as <- <-.
  destruct L as [HpA HpB HkA HkB HrA HrB HsA HsB Hmap Hrun Hpsk].
  apply CreateMessageInitiation_spec in Hc as (ephA & ? & ? & HlA & _ & _ & _ & HhA & HdA & _).
  apply CreateMessageResponse_spec in Hr as (ephB & ck' & hash' & HlB & _ & Hee & Hse & Hm & HhB & _).
  unfold consumed in Hee, Hse, Hm, HhB. autorewrite with wg in Hee, Hse, Hm, HhB.
  cbn [pe_handshake set_hs hs_stamps hs_symmetric hs_remoteEphemeral hs_remoteStatic hs_chainKey hs_hash hs_presharedKey hs_remoteIndex] in Hee, Hse, Hm, HhB.
  rewrite <-He, HhA in Hee, Hm. cbn [hs_localEphemeral hs_symmetric] in Hee, Hm.
  rewrite HrB, HkA in Hse, Hm. rewrite (ScalarMult_publicKey ephB) in Hee by done. rewrite (ScalarMult_publicKey ephB) in Hse by done.
  rewrite !(ScalarMult_publicKey ephB) in Hm by done.
  assert (mr_Type m2 = MessageResponseType ∧ mr_Ephemeral m2 = publicKey ephB ∧ mr_Receiver m2 = mi_Sender m1 ∧
    length (mr_Empty m2) = TagSize ∧ mr_MAC1 m2 = zeros 16 ∧ mr_MAC2 m2 = zeros 16) as (Ht & Heb & Hrc & Hem & M1 & M2).
  { unfold response_for in Hm. destruct (KDF3 _ _) as [[? ?] ?]. injection Hm as <- _ _. cbn. by rewrite length_Seal. }
  exists ck', hash'. rewrite HhB. cbn [hs_state hs_chainKey hs_localIndex hs_remoteIndex hs_symmetric hs_stamps]. split; [|done].
  apply open_response_iff; [done|done|]. rewrite Hst, Hck, Hh, HdA, Heb, M1, M2, Hrc. rewrite HhA.
  cbn [hs_localEphemeral hs_presharedKey hs_symmetric]. by rewrite Hpsk.
Qed.

(** C3: a handshake between two devices that have each other as peers completes, and both
    ends then hold the same session: the responder accepts the initiation, the initiator
    accepts the response, what one sends with is what the other receives with, and each
    addresses the other by the index the other chose.  The initiation is newer than the last one
    the responder accepted from this peer and does not come too soon after it, and the
    random source lets both messages be made. *)
Theorem handshake_agreement (A B : World) (pa pb : PeerRef) (m1 : MessageInitiation) (A1 : World) :
  linked A B pa pb →
  CreateMessageInitiation A pa = (Some m1, A1) →
  After (stamp (w_now A)) (hs_lastTimestamp (pe_handshake (peer_at B pb))) = true →
  HandshakeInitationRate < time_Sub (w_now B) (hs_lastInitiationConsumption (pe_handshake (peer_at B pb))) →
  ∃ B1, ConsumeMessageInitiation B m1 = (Some pb, B1) ∧
  ∀ m2 B2, CreateMessageResponse B1 pb = (Some m2, B2) →
  ∃ A2, ConsumeMessageResponse A1 m2 = (Some pa, A2) ∧
  ∃ A3 B3 ka kb, BeginSymmetricSession A2 pa = (true, A3) ∧ BeginSymmetricSession B2 pb = (true, B3) ∧
    kps_current (pe_keypairs (peer_at A3 pa)) = Some ka ∧ kps_next (pe_keypairs (peer_at B3 pb)) = Some kb ∧
    kp_send (keypair_at A3 ka) = kp_receive (keypair_at B3 kb) ∧
    kp_receive (keypair_at A3 ka) = kp_send (keypair_at B3 kb) ∧
    kp_remoteIndex (keypair_at A3 ka) = kp_localIndex (keypair_at B3 kb) ∧
    kp_remoteIndex (keypair_at B3 kb) = kp_localIndex (keypair_at A3 ka) ∧
    kp_sendNonce (keypair_at A3 ka) = 0 ∧ kp_sendNonce (keypair_at B3 kb) = 0.
Proof.
  intros L Hc Hnew Hrate.
  destruct (initiation_agrees A B pa pb m1 A1 L Hc) as (ck & hash & Ho & _).
  exists (consumed B m1 pb (stamp (w_now A)) ck hash). split; [apply ConsumeMessageInitiation_iff; eauto 10|].
  intros m2 B2 Hr.
  destruct (response_agrees A B pa pb m1 A1 ck hash m2 B2 L Hc Ho Hr) as (ck' & hash' & Hor & Ht & Hrc & HsB & HckB & HliB & HriB).
  pose proof Hc as (ephA & ? & ? & _ & _ & _ & _ & HhA & _ & Hidx)%CreateMessageInitiation_spec.
  unfold ConsumeMessageResponse, Index_Lookup. rewrite Ht, Hrc, Hidx. cbn [from_option id ie_handshake ie_peer Z.eqb Pos.eqb MessageResponseType negb].
  rewrite Hor. eexists. split; [reflexivity|].
  match goal with |- context [BeginSymmetricSession (upd_peer A1 pa ?f) pa] => set (A2 := upd_peer A1 pa f) end.
  assert (pe_handshake (peer_at A2 pa) = hs_symmetric (pe_handshake (peer_at A1 pa)) handshakeResponseConsumed hash' ck'
    (hs_localEphemeral (pe_handshake (peer_at A1 pa))) (hs_localIndex (pe_handshake (peer_at A1 pa))) (mr_Sender m2)
    (hs_remoteEphemeral (pe_handshake (peer_at A1 pa)))) as HhA2 by (unfold A2; by autorewrite with wg).
  pose proof (BeginSymmetricSession_spec A2 pa) as SA. pose proof (BeginSymmetricSession_spec B2 pb) as SB. cbv zeta in SA, SB.
  unfold session_keys in SA, SB. rewrite HsB, HckB in SB. rewrite HhA2 in SA. cbn [hs_chainKey hs_state hs_symmetric] in SA.
  destruct (KDF2 ck' []) as [a b].
  destruct SA as (A3 & EA & _ & KA & CA & _). destruct SB as (B3 & EB & _ & KB & CB & _).
  exists A3, B3, (new_ref A2), (new_ref B2). rewrite KA, KB.
  cbn [kp_send kp_receive kp_remoteIndex kp_localIndex kp_sendNonce hs_localIndex hs_remoteIndex hs_symmetric].
  rewrite HhA. cbn [hs_localIndex hs_symmetric]. by split_and!.
Qed.

End handshake.

(** ** Two devices *)

Module HandshakeDemo.

#[local] Existing Instances ToyCrypto.toy ToyCrypto.toy_laws.

Definition skA : list Z := clamp (replicate 32 3).
Definition skB : list Z := clamp (replicate 32 11).

(** A device with one running peer, number 7. *)
Definition device (sk pk : list Z) (now : Z) (rnd : Entropy) : World :=
  let h := mkHandshake handshakeZeroed (zeros 32) (zeros 32) (replicate 32 1) (zeros 32) 0 0 pk (zeros 32)
             (fst (sharedSecret sk pk)) (zeros TimestampSize) ZeroTime ZeroTime in
  mkWorld
    (mkDevice deviceStateUp sk (publicKey sk) {[ pk := 7%nat ]} 0 Ratelimiter_Init (mkAllowedIPs Nil Nil ∅)
       (CookieChecker_Init zero_checker (publicKey sk)) 1420 [])
    ∅ {[ 7%nat := set_isRunning true (set_hs h (set_cookieGenerator (CookieGenerator_Init zero_generator pk) new_Peer)) ]}
    ∅ ∅ now rnd [] [] [] [] [].

Definition A : World := device skA (publicKey skB) 1700000000000000000 [(replicate 32 5, true); ([1; 2; 3; 4], true)].
Definition B : World := device skB (publicKey skA) 1800000000000000000 [([9; 9; 9; 9], true); (replicate 32 6, true)].

Definition initiated := CreateMessageInitiation A 7.
Definition m1 : MessageInitiation := default demo_initiation initiated.1.
Definition answered := CreateMessageResponse (ConsumeMessageInitiation B m1).2 7.
Definition m2 : MessageResponse := default demo_response answered.1.

(** The result of an operation that succeeds. *)
Lemma succeeded {X} (d : X) (x : option X * World) : (if x.1 then true else false) = true → x = (Some (default d x.1), x.2).
Proof. by destruct x as [[]]. Qed.

Lemma succeeded_with {X} (y : X) (x : option X * World) : x.1 = Some y → x = (Some y, x.2).
Proof. destruct x as [? ?]. cbn. by intros ->. Qed.

(** A run without a panic. *)
Lemma survived (d : World) (x : option World) : (if x then true else false) = true → x = Some (default d x).
Proof. by destruct x. Qed.

Lemma demo_linked : linked A B 7 7.
Proof. split; vm_compute; reflexivity. Qed.

Lemma handshake_agreement_witness :
  ∃ A2, ConsumeMessageResponse initiated.2 m2 = (Some 7%nat, A2).
Proof.
  destruct (handshake_agreement A B 7 7 m1 initiated.2) as (B1 & HB1 & Hnext).
  - exact demo_linked.
  - apply (succeeded demo_initiation). vm_compute. reflexivity.
  - vm_compute. reflexivity.
  - vm_compute. reflexivity.
  - destruct (Hnext m2 answered.2) as (A2 & HA2 & _).
    + replace B1 with (ConsumeMessageInitiation B m1).2 by by rewrite HB1.
      apply (succeeded demo_response). vm_compute. reflexivity.
    + exists A2. exact HA2.
Defined.

End HandshakeDemo.
