(* ===== verification/WgCore.v ===== *)
(** The core of a WireGuard device: handshakes, keypairs, indices and sequence numbers.

    Most of what a device does (timers, endpoints, datagrams, staging) leaves the core as it
    is.  [core_step] lists the ways in which the core changes, and the lemmas below show
    that each operation of [WgSend] and [WgReceive] is a sequence of such steps; what
    the invariants of [WgIndex] and [WgNonce] have to be checked against is the list. *)

From S2P Require Import Prelude Bytes NetIP Float64 Metric Routing Endpoint Packet RouterAlgo Config External RouterIO Unicast AllowedIPs RateLimiter Replay Crypto Messages Cookie WireGuard WgSend WgReceive HandshakeProps.

(** A handshake without the time it was last sent. *)
Definition hs_core (h : Handshake) : Handshake := hs_stamps h (hs_lastTimestamp h) (hs_lastInitiationConsumption h) 0.

(** States with the same core; containers may have left the outbound queues, and random
    numbers may have been used up. *)
Record core_eq (w w' : World) : Prop := {
  ce_index : w_index w' = w_index w;
  ce_keypairs : w_keypairs w' = w_keypairs w;
  ce_rnd : w_rnd w' `suffix_of` w_rnd w;
  ce_private : dv_privateKey (w_dev w') = dv_privateKey (w_dev w);
  ce_public : dv_publicKey (w_dev w') = dv_publicKey (w_dev w);
  ce_keyMap : dv_keyMap (w_dev w') = dv_keyMap (w_dev w);
  ce_handshake : ∀ p, hs_core (pe_handshake (peer_at w' p)) = hs_core (pe_handshake (peer_at w p));
  ce_kps : ∀ p, pe_keypairs (peer_at w' p) = pe_keypairs (peer_at w p);
  ce_outbound : ∀ p, pe_outbound (peer_at w' p) `suffix_of` pe_outbound (peer_at w p);
  ce_dom : dom (w_peers w) ⊆ dom (w_peers w');
}.

(** The peer of a keypair has it in one of its slots. *)
Definition owns (w : World) (p : PeerRef) (k : KeypairRef) : Prop :=
  let kps := pe_keypairs (peer_at w p) in
  kps_current kps = Some k ∨ kps_previous kps = Some k ∨ kps_next kps = Some k.

(** Clearing the keys of a peer. *)
Definition zero_keys (w : World) (p : PeerRef) : World :=
  let kps := pe_keypairs (peer_at w p) in
  let w := DeleteKeypair w (kps_previous kps) in
  let w := DeleteKeypair w (kps_current kps) in
  let w := DeleteKeypair w (kps_next kps) in
  let w := upd_peer w p (set_kps (mkKeypairs None None None)) in
  let h := pe_handshake (peer_at w p) in
  let w := set_index w (Index_Delete (w_index w) (hs_localIndex h)) in
  upd_peer w p (set_hs (Handshake_Clear h)).

(** Numbering elements with the keypair of a peer, and queueing those that got a number. *)
Definition number_elems (w : World) (p : PeerRef) (k : KeypairRef) (elems : list QueueOutboundElement) (queue : bool) : World :=
  let '(kept, _, nonce) := assign_nonces k (kp_sendNonce (keypair_at w k)) elems in
  let w := upd_keypair w k (set_sendNonce nonce) in
  if queue then upd_peer w p (λ pe, set_queues (pe_staged pe) (pe_outbound pe ++ [kept]) (pe_inbound pe) pe) else w.

Section core.
Context `{MR : MapRange} `{CR : Crypto}.

(** A new identity, with the secrets it shares with the peers. *)
Definition rekey (w : World) (sk pk : list Z) (cc : CookieChecker) : World :=
  foldl precompute (upd_dev w (set_identity sk pk cc)) (map_range (dv_keyMap (w_dev w))).

Inductive core_step (w : World) : World → Prop :=
| cs_same w' : core_eq w w' → core_step w w'
| cs_initiate p m w' : CreateMessageInitiation w p = (m, w') → core_step w w'
| cs_consume m p w' : ConsumeMessageInitiation w m = (Some p, w') → core_step w w'
| cs_respond p m w' : CreateMessageResponse w p = (m, w') → core_step w w'
| cs_consume_response m p w' : ConsumeMessageResponse w m = (p, w') → core_step w w'
| cs_begin p w' : BeginSymmetricSession w p = (true, w') → core_step w w'
| cs_received p k w' : ReceivedWithKeypair w p k = (true, w') → core_step w w'
| cs_zero p : core_step w (zero_keys w p)
| cs_expire p : core_step w (ExpireCurrentKeypairs w p)
| cs_number p k elems queue : Current w p = Some k → core_step w (number_elems w p k elems queue)
| cs_replay k c : 0 <= c →
    core_step w (upd_keypair w k (set_replayFilter (ValidateCounter (kp_replayFilter (keypair_at w k)) c RejectAfterMessages).2))
| cs_new_peer pk p w' : NewPeer w pk = (inr p, w') → core_step w w'
| cs_forget m : m ⊆ dv_keyMap (w_dev w) → core_step w (upd_dev w (set_keyMap m))
| cs_rekey sk pk cc : core_step w (rekey w sk pk cc).

Definition steps : relation World := rtc core_step.

Lemma steps_r w0 w w' : steps w0 w → core_step w w' → steps w0 w'.
Proof. apply rtc_r. Qed.

(** ** Changes outside the core *)

#[export] Instance core_eq_preorder : PreOrder core_eq.
Proof.
  split.
  - intros w. by split.
  - intros w1 w2 w3 [I1 K1 R1 A1 B1 M1 H1 S1 O1 D1] [I2 K2 R2 A2 B2 M2 H2 S2 O2 D2].
    split; [congruence|congruence|by etrans; [exact R2|]|congruence|congruence|congruence|..]; intros q.
    + by rewrite H2.
    + by rewrite S2.
    + by etrans; [apply O2|].
    + intros Hq. by apply D2, D1.
Qed.

Lemma dom_upd_peer w p f : dom (w_peers w) ⊆ dom (w_peers (upd_peer w p f)).
Proof. cbn. rewrite dom_insert. apply union_subseteq_r. Qed.

Lemma core_eq_upd_peer w p f :
  (∀ pe, hs_core (pe_handshake (f pe)) = hs_core (pe_handshake pe) ∧ pe_keypairs (f pe) = pe_keypairs pe ∧
     pe_outbound (f pe) `suffix_of` pe_outbound pe) → core_eq w (upd_peer w p f).
Proof.
  intros Hf. split; try done; [..|apply dom_upd_peer]; intros q; rewrite peer_at_upd; case_decide; subst; try done; apply Hf.
Qed.

Lemma steps_same w0 w w' : core_eq w w' → steps w0 w → steps w0 w'.
Proof. intros. eapply steps_r; [done|by apply cs_same]. Qed.

Lemma steps_upd_peer w0 w p f :
  (∀ pe, hs_core (pe_handshake (f pe)) = hs_core (pe_handshake pe) ∧ pe_keypairs (f pe) = pe_keypairs pe ∧
     pe_outbound (f pe) `suffix_of` pe_outbound pe) → steps w0 w → steps w0 (upd_peer w p f).
Proof. intros. eapply steps_same; [by apply core_eq_upd_peer|done]. Qed.

Lemma steps_upd_timers w0 w p f : steps w0 w → steps w0 (upd_timers w p f).
Proof. by apply steps_upd_peer. Qed.

Lemma steps_upd_endpoints w0 w p f : steps w0 w → steps w0 (upd_endpoints w p f).
Proof. by apply steps_upd_peer. Qed.

Lemma steps_lastSent w0 w p t : steps w0 w → steps w0 (upd_peer w p (set_lastSentHandshake t)).
Proof. by apply steps_upd_peer. Qed.

Lemma steps_staged w0 w p x : steps w0 w → steps w0 (upd_peer w p (set_staged x)).
Proof. by apply steps_upd_peer. Qed.

Lemma steps_cookie w0 w p g : steps w0 w → steps w0 (upd_peer w p (set_cookieGenerator g)).
Proof. by apply steps_upd_peer. Qed.

Lemma steps_set_endpoints w0 w x : steps w0 w → steps w0 (set_endpoints w x).
Proof. by apply steps_same. Qed.

Lemma steps_set_jitter w0 w x : steps w0 w → steps w0 (set_jitter w x).
Proof. by apply steps_same. Qed.

Lemma steps_set_sent w0 w x y : steps w0 w → steps w0 (set_sent w x y).
Proof. by apply steps_same. Qed.

Lemma steps_set_out w0 w x y : steps w0 w → steps w0 (set_out w x y).
Proof. by apply steps_same. Qed.

Lemma steps_set_rnd w0 w rnd : rnd `suffix_of` w_rnd w → steps w0 w → steps w0 (set_rnd w rnd).
Proof. intros. eapply steps_same; [|done]. by split. Qed.

Lemma steps_upd_dev w0 w f :
  (∀ d, dv_privateKey (f d) = dv_privateKey d ∧ dv_publicKey (f d) = dv_publicKey d ∧ dv_keyMap (f d) = dv_keyMap d) →
  steps w0 w → steps w0 (upd_dev w f).
Proof. intros Hf H. eapply steps_same; [|done]. split; try done; apply Hf. Qed.

Create HintDb core_db.
Hint Resolve steps_upd_timers steps_upd_endpoints steps_lastSent steps_staged steps_cookie steps_set_endpoints steps_set_jitter
  steps_set_sent steps_set_out : core_db.
Hint Extern 1 (steps _ (upd_dev _ _)) => apply steps_upd_dev; [done|] : core_db.

(** Case analysis on what the operation at hand decides. *)
Ltac core_cases :=
  repeat match goal with
  | |- steps _ (match ?x with _ => _ end) => destruct x eqn:?
  | |- steps _ (let '(_, _) := ?x in _) => destruct x eqn:?
  end.

Ltac core := intros; core_cases; eauto 12 with core_db.

(** ** Timers and endpoints *)

Lemma jitter_ms_steps w0 w n j w' : jitter_ms w n = (j, w') → steps w0 w → steps w0 w'.
Proof. unfold jitter_ms. destruct (w_jitter w); intros [= <- <-]; core. Qed.

Lemma timersDataSent_steps w0 w p : steps w0 w → steps w0 (timersDataSent w p).
Proof. unfold timersDataSent. core. apply steps_upd_timers. by eapply jitter_ms_steps. Qed.

Lemma timersDataReceived_steps w0 w p : steps w0 w → steps w0 (timersDataReceived w p).
Proof. unfold timersDataReceived. core. Qed.

Lemma timersAnyAuthenticatedPacketSent_steps w0 w p : steps w0 w → steps w0 (timersAnyAuthenticatedPacketSent w p).
Proof. unfold timersAnyAuthenticatedPacketSent. core. Qed.

Lemma timersAnyAuthenticatedPacketReceived_steps w0 w p : steps w0 w → steps w0 (timersAnyAuthenticatedPacketReceived w p).
Proof. unfold timersAnyAuthenticatedPacketReceived. core. Qed.

Lemma timersHandshakeInitiated_steps w0 w p : steps w0 w → steps w0 (timersHandshakeInitiated w p).
Proof. unfold timersHandshakeInitiated. core. apply steps_upd_timers. by eapply jitter_ms_steps. Qed.

Lemma timersHandshakeComplete_steps w0 w p : steps w0 w → steps w0 (timersHandshakeComplete w p).
Proof. unfold timersHandshakeComplete. intros. cbv zeta. apply steps_upd_peer; [done|]. case_goal; auto with core_db. Qed.

Lemma timersSessionDerived_steps w0 w p : steps w0 w → steps w0 (timersSessionDerived w p).
Proof. unfold timersSessionDerived. core. Qed.

Lemma timersTraversal_steps w0 w p remote : steps w0 w → steps w0 (timersAnyAuthenticatedPacketTraversal w p remote).
Proof. unfold timersAnyAuthenticatedPacketTraversal. intros. cbv zeta. destruct remote; core. Qed.

Lemma timersStart_steps w0 w p : steps w0 w → steps w0 (timersStart w p).
Proof. unfold timersStart. core. Qed.

Lemma timersStop_steps w0 w p : steps w0 w → steps w0 (timersStop w p).
Proof. unfold timersStop. core. Qed.

Lemma markEndpointSrcForClearing_steps w0 w p : steps w0 w → steps w0 (markEndpointSrcForClearing w p).
Proof. unfold markEndpointSrcForClearing. core. Qed.

Lemma SetEndpointFromPacket_steps w0 w p e : steps w0 w → steps w0 (SetEndpointFromPacket w p e).
Proof. unfold SetEndpointFromPacket. core. Qed.

Lemma add_rxBytes_steps w0 w p n : steps w0 w → steps w0 (add_rxBytes w p n).
Proof. by apply steps_upd_peer. Qed.

Hint Resolve timersDataSent_steps timersDataReceived_steps timersAnyAuthenticatedPacketSent_steps
  timersAnyAuthenticatedPacketReceived_steps timersHandshakeInitiated_steps timersHandshakeComplete_steps
  timersSessionDerived_steps timersTraversal_steps timersStart_steps timersStop_steps markEndpointSrcForClearing_steps
  SetEndpointFromPacket_steps add_rxBytes_steps : core_db.

(** ** Sending *)

Lemma clear_src_steps w0 w e : steps w0 w → steps w0 (clear_src w e).
Proof. unfold clear_src. core. Qed.

Lemma bind_Send_steps w0 w bufs e r w' : bind_Send w bufs e = (r, w') → steps w0 w → steps w0 w'.
Proof. unfold bind_Send. destruct (w_sendRes w); intros [= <- <-]; core. Qed.

Lemma send_batches_steps w0 endpoints rest : ∀ w prevEp batch err r w',
  send_batches w endpoints prevEp batch rest err = (r, w') → steps w0 w → steps w0 w'.
Proof.
  induction rest as [|[b ep] rest IH]; intros w prevEp batch err r w'; cbn [send_batches].
  - destruct (match prevEp with Some e => _ | None => _ end) as [e|]; [|by intros [= <- <-]].
    destruct (bind_Send w batch e) as [r1 w1] eqn:E. intros [= <- <-]. by eapply bind_Send_steps.
  - case_bool_decide; [by apply IH|].
    destruct (match prevEp with Some e => _ | None => _ end) as [e|]; [|by intros [= <- <-]].
    destruct (bind_Send w batch e) as [r1 w1] eqn:E. intros H1 H2. eapply IH; [done|]. by eapply bind_Send_steps.
Qed.

Lemma foldl_steps {X} (f : World → X → World) w0 l w :
  (∀ w x, x ∈ l → steps w0 w → steps w0 (f w x)) → steps w0 w → steps w0 (foldl f w l).
Proof. intros Hf H. by apply (foldl_ind (λ w, steps w0 w)). Qed.

Lemma SendBuffers_steps w0 w p first rest err w' : SendBuffers w p first rest = (err, w') → steps w0 w → steps w0 w'.
Proof.
  unfold SendBuffers. intros H Hs. destruct (isClosed w); [by injection H as <- <-|]. cbv zeta in H.
  match type of H with context [send_batches ?w1 _ _ _ _ _] => assert (steps w0 w1) as H1; [|set (w1' := w1) in *] end.
  { case_goal; [|done]. apply steps_upd_endpoints, foldl_steps; [|done]. intros. by apply clear_src_steps. }
  destruct (send_batches _ _ _ _ _ _) as [[e|] w2] eqn:E; injection H as <- <-.
  - apply steps_upd_peer; [done|]. by eapply send_batches_steps.
  - by eapply send_batches_steps.
Qed.

Lemma add_macs_steps w0 w p packet packet' w' : add_macs w p packet = (packet', w') → steps w0 w → steps w0 w'.
Proof. unfold add_macs. destruct (AddMacs _ _ _) as [[]|]; intros [= <- <-]; core. Qed.

Lemma createHandshakeInitiation_steps w0 w p packet err w' :
  createHandshakeInitiation w p = (packet, err, w') → steps w0 w → steps w0 w'.
Proof.
  unfold createHandshakeInitiation. intros H Hs. case_hyp H; [by injection H as <- <- <-|].
  destruct (CreateMessageInitiation _ _) as [m w1] eqn:E1.
  assert (steps w0 w1). { eapply steps_r; [|by eapply cs_initiate]. by apply steps_lastSent. }
  destruct m as [m|]; [|by injection H as <- <- <-].
  destruct (add_macs _ _ _) as [packet2 w2] eqn:E2. injection H as <- <- <-.
  apply timersAnyAuthenticatedPacketSent_steps, timersTraversal_steps. by eapply add_macs_steps.
Qed.

Lemma SendHandshakeInitiation_steps w0 w p r : steps w0 w → steps w0 (SendHandshakeInitiation w p r).2.
Proof.
  unfold SendHandshakeInitiation. intros Hs. cbv zeta.
  destruct (createHandshakeInitiation _ p) as [[packet err] w1] eqn:E1.
  assert (steps w0 w1). { eapply createHandshakeInitiation_steps; [done|]. case_goal; auto with core_db. }
  destruct packet as [packet|]; [|done]. destruct (en_val _) eqn:Ev; [done|].
  destruct (SendBuffers _ _ _ _) as [e w2] eqn:E2. cbn [snd].
  apply timersHandshakeInitiated_steps. eapply SendBuffers_steps; [done|]. auto with core_db.
Qed.

Lemma SendHandshakeInitiationTo_steps w0 w p e : steps w0 w → steps w0 (SendHandshakeInitiationTo w p e).2.
Proof.
  unfold SendHandshakeInitiationTo. intros Hs. case_goal; [done|].
  destruct (createHandshakeInitiation _ p) as [[packet err] w1] eqn:E1.
  assert (steps w0 w1) by by eapply createHandshakeInitiation_steps.
  destruct packet as [packet|]; [|done]. destruct (SendBuffers _ _ _ _) as [e' w2] eqn:E2. by eapply SendBuffers_steps.
Qed.

Lemma SendHandshakeResponse_steps w0 w p e : steps w0 w → steps w0 (SendHandshakeResponse w p e).2.
Proof.
  unfold SendHandshakeResponse. intros Hs. cbv zeta.
  destruct (CreateMessageResponse _ _) as [m w1] eqn:E1.
  assert (steps w0 w1). { eapply steps_r; [|by eapply cs_respond]. by apply steps_lastSent. }
  destruct m as [m|]; [|done]. destruct (add_macs _ _ _) as [packet w2] eqn:E2.
  assert (steps w0 w2) by by eapply add_macs_steps.
  destruct (BeginSymmetricSession w2 p) as [ok w3] eqn:E3. destruct ok; cbn [negb].
  - assert (steps w0 w3) by (eapply steps_r; [done|by eapply cs_begin]).
    destruct (SendBuffers _ _ _ _) as [err w4] eqn:E4. eapply SendBuffers_steps; [done|]. auto with core_db.
  - pose proof (BeginSymmetricSession_spec w2 p) as S. cbv zeta in S. rewrite E3 in S.
    destruct (session_keys _) as [[[]]|]; [by destruct S as (? & ? & _)|]. by injection S as ->.
Qed.

Hint Resolve clear_src_steps SendHandshakeInitiation_steps SendHandshakeInitiationTo_steps SendHandshakeResponse_steps : core_db.

Lemma keepKeyFreshSending_steps w0 w p : steps w0 w → steps w0 (keepKeyFreshSending w p).
Proof. unfold keepKeyFreshSending. core. Qed.

Lemma keepKeyFreshReceiving_steps w0 w p : steps w0 w → steps w0 (keepKeyFreshReceiving w p).
Proof. unfold keepKeyFreshReceiving. core. Qed.

Lemma StagePackets_steps w0 w p elems : steps w0 w → steps w0 (StagePackets w p elems).
Proof. by apply steps_upd_peer. Qed.

Lemma FlushStagedPackets_steps w0 w p : steps w0 w → steps w0 (FlushStagedPackets w p).
Proof. by apply steps_upd_peer. Qed.

Hint Resolve keepKeyFreshSending_steps keepKeyFreshReceiving_steps StagePackets_steps FlushStagedPackets_steps : core_db.

Lemma core_eq_other_queue w p (b : bool) f g :
  (∀ pe, hs_core (pe_handshake (f pe)) = hs_core (pe_handshake pe) ∧ pe_keypairs (f pe) = pe_keypairs pe ∧
     pe_outbound (f pe) = pe_outbound pe) →
  (∀ pe, hs_core (pe_handshake (g pe)) = hs_core (pe_handshake pe) ∧ pe_keypairs (g pe) = pe_keypairs pe ∧
     ∀ pe', pe_outbound pe' = pe_outbound pe → pe_outbound (g pe') = pe_outbound (g pe)) →
  core_eq (if b then upd_peer w p g else w) (if b then upd_peer (upd_peer w p f) p g else upd_peer w p f).
Proof.
  intros Hf Hg. destruct b; [|apply core_eq_upd_peer; intros pe; destruct (Hf pe) as (-> & -> & ->); done].
  split; try done; [..|cbn; rewrite !dom_insert; set_solver];
    intros q; rewrite !peer_at_upd; case_decide as Hpq; rewrite ?peer_at_upd_eq, ?decide_True by done; try done.
  - destruct (Hg (f (peer_at w p))) as [-> _]. destruct (Hf (peer_at w p)) as [-> _]. by destruct (Hg (peer_at w p)) as [-> _].
  - destruct (Hg (f (peer_at w p))) as (_ & -> & _). destruct (Hf (peer_at w p)) as (_ & -> & _).
    by destruct (Hg (peer_at w p)) as (_ & -> & _).
  - destruct (Hg (peer_at w p)) as (_ & _ & Hg2). destruct (Hf (peer_at w p)) as (_ & _ & Hf2). by rewrite (Hg2 _ Hf2).
Qed.

Definition push_outbound (kept : list QueueOutboundElement) (pe : Peer) : Peer :=
  set_queues (pe_staged pe) (pe_outbound pe ++ [kept]) (pe_inbound pe) pe.

Lemma send_staged_steps w0 p fuel : ∀ w loop, steps w0 w → (∀ k, loop = Some k → Current w p = Some k) →
  ∀ w', send_staged fuel w p loop = Some w' → steps w0 w'.
Proof.
  induction fuel as [|fuel IH]; intros w loop Hs Hk w'; cbn [send_staged]; [done|].
  destruct loop as [k|].
  2: { case_goal; [by intros [= <-]|]. assert (steps w0 (SendHandshakeInitiation w p false).2) as Hi by core.
       destruct (Current w p) as [k|] eqn:Ec; [|by intros [= <-]]. case_goal; [by intros [= <-]|]. apply IH; [done|]. by intros ? [= <-]. }
  specialize (Hk k eq_refl). destruct (pe_staged (peer_at w p)) as [|elems staged]; [by intros [= <-]|].
  cbv zeta. set (w1 := upd_peer w p (set_staged staged)).
  assert (Current w1 p = Some k) as Hk1 by (unfold Current, w1; by rewrite peer_at_upd_eq).
  assert (steps w0 w1) as Hs1 by by apply steps_staged.
  destruct (assign_nonces _ _ _) as [[kept late] nonce] eqn:En.
  set (w2 := upd_keypair w1 k (set_sendNonce nonce)).
  assert (∀ b, steps w0 (if b : bool then upd_peer w2 p (push_outbound kept) else w2)) as Hnum.
  { intros b. eapply steps_r; [exact Hs1|].
    assert (number_elems w1 p k elems b = if b then upd_peer w2 p (push_outbound kept) else w2) as <-
      by (unfold number_elems; rewrite En; done). by apply cs_number. }
  set (w3 := match late with [] => w2 | _ => StagePackets w2 p late end).
  assert (∀ b : bool, steps w0 (if b then upd_peer w3 p (push_outbound kept) else w3)) as Hnum3.
  { intros b. unfold w3. destruct late; [apply Hnum|]. eapply steps_same; [|apply (Hnum b)].
    unfold StagePackets. apply core_eq_other_queue; [done|]. intros pe. split_and!; [done..|]. intros pe' E. unfold push_outbound. cbn. by rewrite E. }
  assert (∀ b : bool, Current (if b then upd_peer w3 p (push_outbound kept) else w3) p = Some k) as Hk3.
  { intros b. unfold w3, w2, Current. destruct late, b; unfold StagePackets; autorewrite with wg; exact Hk1. }
  destruct kept as [|x kept]; [apply IH; [apply (Hnum3 false)|done]|].
  set (running := pe_isRunning (peer_at w3 p)). apply IH; [apply (Hnum3 running)|].
  intros k' Hk'. destruct late; [|done]. injection Hk' as <-. apply (Hk3 running).
Qed.

Lemma SendStagedPackets_steps w0 w p : steps w0 w → steps w0 (SendStagedPackets w p).
Proof.
  intros. unfold SendStagedPackets. destruct (send_staged _ w p None) as [w'|] eqn:E; [|done]. by eapply (send_staged_steps w0 p _ w None).
Qed.

Lemma SendKeepalive_steps w0 w p : steps w0 w → steps w0 (SendKeepalive w p).
Proof. intros. unfold SendKeepalive. apply SendStagedPackets_steps. case_goal; auto with core_db. Qed.

Lemma ZeroAndFlushAll_steps w0 w p : steps w0 w → steps w0 (ZeroAndFlushAll w p).
Proof. intros. apply FlushStagedPackets_steps. eapply steps_r; [done|apply cs_zero]. Qed.

Lemma ExpireCurrentKeypairs_steps w0 w p : steps w0 w → steps w0 (ExpireCurrentKeypairs w p).
Proof. intros. eapply steps_r; [done|apply cs_expire]. Qed.

Hint Resolve SendStagedPackets_steps SendKeepalive_steps ZeroAndFlushAll_steps ExpireCurrentKeypairs_steps : core_db.

(** From the moment the container has left the queue. *)
Lemma sender_step_from w0 w p elems outb w' : pe_outbound (peer_at w p) = elems :: outb → sender_step w p = Some w' →
  steps w0 (upd_peer w p (λ pe, set_queues (pe_staged pe) outb (pe_inbound pe) pe)) → steps w0 w'.
Proof.
  unfold sender_step. intros Eo H Hs1. rewrite Eo in H. cbv zeta in H. set (w1 := upd_peer w p _) in *.
  destruct (negb _); [by injection H as <-|]. destruct (mapM _ _) as [bufs|]; [|done]. cbn [mbind option_bind] in H.
  set (w2 := timersAnyAuthenticatedPacketSent _ p) in H. assert (steps w0 w2) by (unfold w2; auto 12 with core_db).
  destruct (partitionBuffersByEndpoint _ _ _) as [[|first rest]|].
  - destruct (isClosed w2); [|done]. injection H as <-. case_goal; auto with core_db.
  - destruct (SendBuffers w2 p first rest) as [err w3] eqn:E.
    assert (steps w0 w3) by by eapply SendBuffers_steps.
    assert (∀ b : bool, steps w0 (if b then timersDataSent w3 p else w3)) by (intros []; auto with core_db).
    destruct err as [| |[[]|]]; injection H as <-; auto with core_db.
  - by injection H as <-.
Qed.

Lemma sender_step_steps w0 w p w' : sender_step w p = Some w' → steps w0 w → steps w0 w'.
Proof.
  intros H Hs. destruct (pe_outbound (peer_at w p)) as [|elems outb] eqn:Eo.
  { unfold sender_step in H. rewrite Eo in H. by injection H as <-. }
  eapply sender_step_from; [done..|]. eapply steps_same; [|done].
  split; try done; [..|apply dom_upd_peer]; intros q; rewrite peer_at_upd; case_decide; subst; try done.
  cbn. rewrite Eo. by apply suffix_cons_r.
Qed.

Lemma expiredRetransmitHandshake_steps w0 w p : steps w0 w → steps w0 (expiredRetransmitHandshake w p).
Proof.
  unfold expiredRetransmitHandshake. intros. case_goal; [|auto with core_db]. cbv zeta.
  match goal with |- context [FlushStagedPackets ?w1 p] => assert (steps w0 (FlushStagedPackets w1 p)) end.
  { apply FlushStagedPackets_steps. case_goal; auto with core_db. }
  case_goal; auto with core_db.
Qed.

Lemma expiredSendKeepalive_steps w0 w p : steps w0 w → steps w0 (expiredSendKeepalive w p).
Proof. unfold expiredSendKeepalive. core. Qed.

Lemma expiration_steps n w0 w p : steps w0 w → steps w0 (expiration n w p).
Proof.
  destruct n; cbn [expiration]; [apply expiredRetransmitHandshake_steps|apply expiredSendKeepalive_steps|..];
    unfold expiredNewHandshake, expiredZeroKeyMaterial, expiredPersistentKeepalive; core.
Qed.

Lemma timer_fires_steps n w0 w p : steps w0 w → steps w0 (timer_fires n w p).
Proof. unfold timer_fires. intros. case_goal; [auto with core_db|]. apply expiration_steps. auto with core_db. Qed.

Hint Resolve timer_fires_steps : core_db.

(** ** Receiving *)

Lemma receive_datagram_steps w0 m w x : steps w0 w → steps w0 (receive_datagram (m, w) x).2.
Proof.
  intros Hs. unfold receive_datagram. destruct x as [[buffer size] e]. cbv zeta.
  repeat case_goal; cbn [snd]; auto with core_db.
Qed.

Lemma RoutineReceiveIncoming_steps w0 w batch : steps w0 w → steps w0 (RoutineReceiveIncoming w batch).
Proof.
  intros Hs. unfold RoutineReceiveIncoming.
  assert (steps w0 (foldl receive_datagram (∅, w) batch).2) as H.
  { apply (foldl_ind (λ st : gmap PeerRef (list QueueInboundElement) * World, steps w0 st.2)); [done|].
    intros [m w1] x _. apply receive_datagram_steps. }
  destruct (foldl _ _ _) as [m w1]. apply foldl_steps; [|done]. intros w2 x _ ?. unfold dispatch_inbound.
  case_goal; [|done]. by apply steps_upd_peer.
Qed.

Lemma rand_Read_suffix n rnd b ok rnd' : rand_Read n rnd = (b, ok, rnd') → rnd' `suffix_of` rnd.
Proof. destruct rnd as [|[]]; cbn; intros [= <- <- <-]; [done|by apply suffix_cons_r]. Qed.

Lemma CreateReply_suffix now st rnd msg recv src r st' rnd' :
  CreateReply now st rnd msg recv src = Some (r, st', rnd') → rnd' `suffix_of` rnd.
Proof.
  unfold CreateReply. intros H.
  destruct (CookieRefreshTime <? _).
  - destruct (rand_Read blake2s_Size rnd) as [[s ok] rnd1] eqn:E1. apply rand_Read_suffix in E1.
    destruct ok; cbn [negb] in H; [|by injection H as <- <- <-].
    destruct (rand_Read NonceSizeX rnd1) as [[n ok] rnd2] eqn:E2. apply rand_Read_suffix in E2.
    destruct ok; cbn [negb] in H; [|injection H as <- <- <-; by etrans].
    destruct (mac_offsets _) as [[]|]; [|done]. cbn in H. injection H as <- <- <-. by etrans.
  - cbn [negb] in H. destruct (rand_Read NonceSizeX rnd) as [[n ok] rnd2] eqn:E2. apply rand_Read_suffix in E2.
    destruct ok; cbn [negb] in H; [|by injection H as <- <- <-].
    destruct (mac_offsets _) as [[]|]; [|done]. cbn in H. by injection H as <- <- <-.
Qed.

Lemma SendHandshakeCookie_steps w0 w elem w' : SendHandshakeCookie w elem = Some w' → steps w0 w → steps w0 w'.
Proof.
  unfold SendHandshakeCookie. intros H Hs. cbv zeta in H.
  destruct (CreateReply _ _ _ _ _ _) as [[[reply checker] rnd]|] eqn:E; [|done]. apply CreateReply_suffix in E. cbn in H.
  set (w1 := set_rnd _ _) in H. assert (steps w0 w1) by (apply steps_set_rnd; [done|]; auto with core_db).
  destruct reply as [reply|]; [|by injection H as <-].
  destruct (bind_Send _ _ _) as [r w2] eqn:E2. injection H as <-. by eapply bind_Send_steps.
Qed.

Lemma admit_handshake_steps w0 w elem b w' : admit_handshake w elem = Some (b, w') → steps w0 w → steps w0 w'.
Proof.
  unfold admit_handshake. intros H Hs. destruct (CheckMAC1 _ _) as [[]|]; cbn in H; [|by injection H as <- <-|done].
  destruct (IsUnderLoad w) as [load w1] eqn:E1.
  assert (steps w0 w1). { unfold IsUnderLoad in E1. case_decide; injection E1 as <- <-; auto with core_db. }
  destruct load; cbn in H; [|by injection H as <- <-].
  destruct (CheckMAC2 _ _ _ _) as [[]|]; cbn in H; [| |done].
  - destruct (Allow _ _ _) as [ok lim]. injection H as <- <-. auto with core_db.
  - destruct (SendHandshakeCookie w1 elem) as [w2|] eqn:E2; [|done]. cbn in H. injection H as <- <-.
    by eapply SendHandshakeCookie_steps.
Qed.

Lemma handle_cookie_steps w0 w elem : steps w0 w → steps w0 (handle_cookie w elem).
Proof. unfold handle_cookie. core. Qed.

Lemma handle_initiation_steps w0 w elem : steps w0 w → steps w0 (handle_initiation w elem).
Proof.
  intros Hs. unfold handle_initiation. destruct (unmarshal_initiation _) as [m|]; [|done].
  destruct (ConsumeMessageInitiation w m) as [[p|] w1] eqn:E.
  - assert (steps w0 w1) by (eapply steps_r; [done|by eapply cs_consume]). cbv zeta. auto 12 with core_db.
  - unfold ConsumeMessageInitiation in E. by repeat case_hyp E; simplify_eq.
Qed.

Lemma handle_response_steps w0 w elem : steps w0 w → steps w0 (handle_response w elem).
Proof.
  intros Hs. unfold handle_response. destruct (unmarshal_response _) as [m|]; [|done].
  destruct (ConsumeMessageResponse w m) as [p w1] eqn:E.
  assert (steps w0 w1) by (eapply steps_r; [done|by eapply cs_consume_response]).
  destruct p as [p|]; [|done]. cbv zeta.
  set (w2 := timersAnyAuthenticatedPacketReceived _ p). assert (steps w0 w2) by (unfold w2; auto 12 with core_db).
  destruct (BeginSymmetricSession w2 p) as [ok w3] eqn:E3. destruct ok; cbn [negb].
  - assert (steps w0 w3) by (eapply steps_r; [done|by eapply cs_begin]). cbv zeta. auto 12 with core_db.
  - pose proof (BeginSymmetricSession_spec w2 p) as S. cbv zeta in S. rewrite E3 in S.
    destruct (session_keys _) as [[[]]|]; [by destruct S as (? & ? & _)|]. by injection S as ->.
Qed.

Lemma RoutineHandshake_steps w0 w w' : RoutineHandshake w = Some w' → steps w0 w → steps w0 w'.
Proof.
  unfold RoutineHandshake. intros H Hs. destruct (dv_handshakeQueue _) as [|elem queue]; [by injection H as <-|].
  cbv zeta in H. set (w1 := upd_dev _ _) in H. assert (steps w0 w1) by (unfold w1; auto with core_db).
  case_hyp H; [injection H as <-; by apply handle_cookie_steps|].
  case_hyp H; [|by injection H as <-].
  destruct (admit_handshake w1 elem) as [[go w2]|] eqn:E; [|done]. cbn in H.
  assert (steps w0 w2) by by eapply admit_handshake_steps.
  destruct go; cbn in H; [|by injection H as <-].
  case_hyp H; injection H as <-; [by apply handle_initiation_steps|by apply handle_response_steps].
Qed.

Lemma tc_sort_steps w0 verdicts : ∀ b f w, steps w0 w → steps w0 (foldl tc_sort (b, f, w) verdicts).2.
Proof.
  induction verdicts as [|v verdicts IH]; intros b f w Hs; cbn [foldl]; [done|].
  unfold tc_sort at 2. destruct (v_act v), (v_control v); apply IH; auto with core_db.
Qed.

Lemma TCBatch_steps filters w0 w batch w' : TCBatch filters w batch = Some w' → steps w0 w → steps w0 w'.
Proof.
  unfold TCBatch. intros H Hs. destruct (mapM _ _) as [verdicts|]; [|done]. cbn [mbind option_bind] in H.
  pose proof (tc_sort_steps w0 verdicts [] [] w Hs) as H1.
  destruct (foldl tc_sort _ _) as [[b f] w1]. destruct (existsb _ _); [done|]. injection H as <-.
  apply foldl_steps; [|auto with core_db]. intros w2 x _ ?. unfold stage_for_peer. case_goal; auto with core_db.
Qed.

(** The state after the replay filter of the keypair has looked at an element. *)
Definition looked_at (w : World) (elem : QueueInboundElement) : World :=
  upd_keypair w (ibe_keypair elem) (set_replayFilter
    (ValidateCounter (kp_replayFilter (keypair_at w (ibe_keypair elem))) (ibe_counter elem) RejectAfterMessages).2).

(** From that moment on. *)
Lemma receive_elem_from w0 p st elem packet : ibe_packet elem = Some packet → steps w0 (looked_at (rs_world st) elem) →
  steps w0 (rs_world (receive_elem p st elem)).
Proof.
  intros Hp Hs. unfold receive_elem. rewrite Hp. unfold looked_at in Hs.
  destruct (ValidateCounter _ _ _) as [ok f]. cbv zeta. cbn [snd] in Hs. set (w1 := upd_keypair _ _ _) in *.
  destruct ok; cbn [negb]; [|done].
  destruct (ReceivedWithKeypair w1 p _) as [fresh_session w2] eqn:E.
  set (w3 := if fresh_session then _ else w2).
  assert (steps w0 w3).
  { unfold w3. destruct fresh_session.
    - assert (steps w0 w2) by (eapply steps_r; [done|by eapply cs_received]). cbv zeta. auto 12 with core_db.
    - unfold ReceivedWithKeypair in E. case_hyp E; by simplify_eq. }
  destruct packet; done.
Qed.

Definition counter_ok (elem : QueueInboundElement) : Prop := ibe_packet elem = None ∨ 0 <= ibe_counter elem.

Lemma decrypt_counter w elem : counter_ok (decrypt w elem).
Proof.
  unfold counter_ok, decrypt. destruct (ibe_packet elem) as [packet|] eqn:E; [|by left].
  destruct (Open _ _ _ _); [right|by left]. cbn. apply Z.mod_pos_bound. lia.
Qed.

Lemma receive_elem_steps w0 p st elem : counter_ok elem → steps w0 (rs_world st) → steps w0 (rs_world (receive_elem p st elem)).
Proof.
  intros Hc Hs. destruct (ibe_packet elem) as [packet|] eqn:E.
  - eapply receive_elem_from; [done|]. eapply steps_r; [exact Hs|]. apply cs_replay. destruct Hc; congruence.
  - unfold receive_elem. by rewrite E.
Qed.

(** From the moment the elements have been looked at. *)
Lemma RoutineSequentialReceiver_from filters w0 w p elems inb w' :
  pe_inbound (peer_at w p) = elems :: inb → RoutineSequentialReceiver filters w p = Some w' →
  (let w1 := upd_peer w p (λ pe, set_queues (pe_staged pe) (pe_outbound pe) inb pe) in
   steps w0 (rs_world (foldl (receive_elem p) (mkReceive w1 None false 0 []) (decrypt w1 <$> elems)))) → steps w0 w'.
Proof.
  unfold RoutineSequentialReceiver. intros Ei H Hs. rewrite Ei in H. cbv zeta in H, Hs. set (st := foldl _ _ _) in *.
  destruct (TCBatch _ _ _) as [w2|] eqn:E; [|done]. cbn [mbind option_bind] in H. injection H as <-.
  assert (steps w0 w2) by by eapply TCBatch_steps.
  destruct (rs_tail st), (rs_data st); cbv zeta; auto 12 with core_db.
Qed.

Lemma RoutineSequentialReceiver_steps filters w0 w p w' :
  RoutineSequentialReceiver filters w p = Some w' → steps w0 w → steps w0 w'.
Proof.
  intros H Hs. destruct (pe_inbound (peer_at w p)) as [|elems inb] eqn:Ei.
  { unfold RoutineSequentialReceiver in H. rewrite Ei in H. by injection H as <-. }
  eapply RoutineSequentialReceiver_from; [done..|]. cbv zeta.
  apply (foldl_ind (λ st, steps w0 (rs_world st))); [by apply steps_upd_peer|]. intros st e He%list_elem_of_fmap ?.
  destruct He as (e0 & -> & _). apply receive_elem_steps; [apply decrypt_counter|done].
Qed.

(** ** Peers and the device *)

Lemma Peer_Start_steps w0 w p : steps w0 w → steps w0 (Peer_Start w p).
Proof.
  intros Hs. unfold Peer_Start. repeat case_goal; try done. cbv zeta.
  apply steps_upd_peer; [|auto with core_db]. intros pe. split_and!; [done..|apply suffix_nil].
Qed.

Lemma Peer_Stop_steps w0 w p : steps w0 w → steps w0 (Peer_Stop w p).
Proof.
  intros Hs. unfold Peer_Stop. case_goal; [done|]. cbv zeta. apply ZeroAndFlushAll_steps.
  apply steps_upd_peer; [intros pe; split_and!; [done..|apply suffix_nil]|]. apply timersStop_steps. by apply steps_upd_peer.
Qed.

Lemma SetPersistentKeepaliveInterval_steps w0 w p n : steps w0 w → steps w0 (SetPersistentKeepaliveInterval w p n).
Proof.
  intros Hs. unfold SetPersistentKeepaliveInterval. cbv zeta.
  match goal with |- context [upd_peer w p ?f] => assert (steps w0 (upd_peer w p f)) by by apply steps_upd_peer end.
  case_goal; auto with core_db.
Qed.

Hint Resolve Peer_Start_steps Peer_Stop_steps SetPersistentKeepaliveInterval_steps : core_db.

Lemma NewPeer_steps w0 w pk : steps w0 w → steps w0 (NewPeer w pk).2.
Proof.
  intros Hs. destruct (NewPeer w pk) as [[e|p] w'] eqn:E.
  - unfold NewPeer in E. by repeat case_hyp E; simplify_eq.
  - eapply steps_r; [done|by eapply cs_new_peer].
Qed.

Lemma removePeerLocked_steps w0 w p key w' : removePeerLocked w p key = Some w' → steps w0 w → steps w0 w'.
Proof.
  unfold removePeerLocked. intros H Hs. destruct (AllowedIPs_RemoveByPeer _ _); [|done]. cbn in H. injection H as <-.
  eapply steps_r; [|apply cs_forget, delete_subseteq]. auto with core_db.
Qed.

Lemma RemovePeer_steps w0 w key w' : RemovePeer w key = Some w' → steps w0 w → steps w0 w'.
Proof. unfold RemovePeer. destruct (_ !! key); [apply removePeerLocked_steps|by intros [= <-]]. Qed.

(** A loop that can panic. *)
Lemma foldl_option_steps {X} (f : option World → X → option World) w0 l :
  (∀ r x w', f r x = Some w' → ∃ w, r = Some w ∧ (steps w0 w → steps w0 w')) →
  ∀ w w', foldl f (Some w) l = Some w' → steps w0 w → steps w0 w'.
Proof.
  intros Hf. induction l as [|x l IH]; intros w w'; cbn; [by intros [= <-]|].
  destruct (f (Some w) x) as [w1|] eqn:E.
  - intros H Hs. eapply IH; [done|]. destruct (Hf _ _ _ E) as (? & [= <-] & H1). auto.
  - intros H. exfalso. clear -H Hf E. revert H. induction l as [|y l IHl]; cbn; [done|].
    destruct (f None y) eqn:E'; [by destruct (Hf _ _ _ E') as (? & ? & _)|done].
Qed.

Lemma RemoveAllPeers_steps w0 w w' : RemoveAllPeers w = Some w' → steps w0 w → steps w0 w'.
Proof.
  unfold RemoveAllPeers. intros H Hs. destruct (foldl _ _ _) as [w1|] eqn:E; [|done]. cbn in H. injection H as <-.
  eapply steps_r; [|apply cs_forget, map_empty_subseteq].
  eapply foldl_option_steps; [|exact E|done]. intros [w2|] x w3 H3; [|done]. exists w2. split; [done|]. by eapply removePeerLocked_steps.
Qed.

Lemma upLocked_steps w0 w : steps w0 w → steps w0 (upLocked w).
Proof.
  intros. unfold upLocked. apply foldl_steps.
  - intros w1 x _ ?. unfold start_peer. cbv zeta. case_goal; auto with core_db.
  - apply foldl_steps; auto with core_db.
Qed.

Lemma downLocked_steps w0 w : steps w0 w → steps w0 (downLocked w).
Proof. intros. unfold downLocked. apply foldl_steps; auto with core_db. Qed.

Hint Resolve upLocked_steps downLocked_steps : core_db.

Lemma changeState_steps w0 ok w want : steps w0 w → steps w0 (changeState ok w want).
Proof. intros. unfold changeState. cbv zeta. repeat case_goal; auto with core_db. Qed.

Lemma Device_Close_steps w0 w w' : Device_Close w = Some w' → steps w0 w → steps w0 w'.
Proof.
  unfold Device_Close. intros H Hs. case_hyp H; [by injection H as <-|]. eapply RemoveAllPeers_steps; [exact H|]. auto with core_db.
Qed.

Lemma SetPrivateKey_steps w0 w sk w' : SetPrivateKey w sk = Some w' → steps w0 w → steps w0 w'.
Proof.
  unfold SetPrivateKey. intros H Hs. case_hyp H; [by injection H as <-|]. cbv zeta in H.
  destruct (foldl _ _ _) as [w1|] eqn:E; [|done]. cbn [mbind option_bind] in H. injection H as <-.
  assert (steps w0 w1) as H1.
  { eapply foldl_option_steps; [|exact E|done]. intros [w2|] x w3 H3; [|done]. exists w2. split; [done|].
    unfold remove_own_key in H3. cbn in H3. case_hyp H3; [|by injection H3 as <-]. by eapply removePeerLocked_steps. }
  apply foldl_steps; [auto with core_db|]. eapply steps_r; [exact H1|]. apply cs_rekey.
Qed.

Lemma SendKeepalives_steps w0 w : steps w0 w → steps w0 (SendKeepalivesToPeersWithCurrentKeypair w).
Proof.
  intros. unfold SendKeepalivesToPeersWithCurrentKeypair. case_goal; [done|]. apply foldl_steps; [|done]. intros.
  repeat case_goal; auto with core_db.
Qed.

Lemma update_mtu_steps w0 w mtu : steps w0 w → steps w0 (update_mtu w mtu).
Proof. intros. unfold update_mtu. case_goal; auto with core_db. Qed.

End core.

(** ** What the handshake operations change *)

Definition hs_of (w : World) (p : PeerRef) : Handshake := pe_handshake (peer_at w p).

Definition hs_entry (p : PeerRef) : IndexTableEntry := mkIndexEntry (Some p) (Some p) None.
Definition kp_entry (p : PeerRef) (k : KeypairRef) : IndexTableEntry := mkIndexEntry (Some p) None (Some k).

(** The random source failed. *)
Definition rnd_failed (rnd rnd' : Entropy) : Prop := rnd' = [] ∨ ∃ b, (b, false) ∈ rnd.

(** An index that came from the random source. *)
Definition drawn (rnd : Entropy) (i : Z) : Prop := ∃ b, (b, true) ∈ rnd ∧ i = uint32_of b.

(** How choosing a new index for the handshake of [p] moves its entry in the table. *)
Inductive index_move (w : World) (p : PeerRef) (rnd' : Entropy) : gmap Z IndexTableEntry → Z → Prop :=
| im_keep : index_move w p rnd' (w_index w) (hs_localIndex (hs_of w p))
| im_new i b :
    (b, true) ∈ w_rnd w → i = uint32_of b → delete (hs_localIndex (hs_of w p)) (w_index w) !! i = None →
    index_move w p rnd' (<[i := hs_entry p]> (delete (hs_localIndex (hs_of w p)) (w_index w))) i
| im_failed i : rnd_failed (w_rnd w) rnd' → index_move w p rnd' (delete (hs_localIndex (hs_of w p)) (w_index w)) i.

(** A change of the handshake of [p] that keeps who the peer is and when it was heard. *)
Definition hs_changed (w : World) (p : PeerRef) (rnd : Entropy) (t : gmap Z IndexTableEntry) (st : handshakeState)
    (li : Z) (w' : World) : Prop :=
  ∃ hash ck eph ri re, w' = upd_peer (set_index (set_rnd w rnd) t) p (set_hs (hs_symmetric (hs_of w p) st hash ck eph li ri re)).

Section effects.
Context `{CR : Crypto}.

Lemma NewIndexForHandshake_failed t p rnd i t' rnd' :
  NewIndexForHandshake t p rnd = (i, false, t', rnd') → t' = t ∧ rnd' `suffix_of` rnd ∧ rnd_failed rnd rnd'.
Proof.
  revert t'. induction rnd as [|[b ok] rnd IH]; intros t'; cbn [NewIndexForHandshake].
  { intros [= <- <- <-]. split_and!; [done..|by left]. }
  destruct ok; cbn [negb].
  - destruct (t !! uint32_of b); [|done]. intros (-> & Hs & Hf)%IH. split_and!; [done|by apply suffix_cons_r|].
    destruct Hf as [->|[b' Hb]]; [by left|right; exists b'; by right].
  - intros [= <- <- <-]. split_and!; [done|by apply suffix_cons_r|]. right. exists b. by left.
Qed.

Lemma newPrivateKey_suffix rnd sk ok rnd' : newPrivateKey rnd = (sk, ok, rnd') → rnd' `suffix_of` rnd.
Proof.
  unfold newPrivateKey. destruct (rand_Read _ rnd) as [[b o] r] eqn:E. intros [= <- <- <-]. by eapply rand_Read_suffix.
Qed.

Lemma elem_of_suffix {A} (x : A) l1 l2 : l1 `suffix_of` l2 → x ∈ l1 → x ∈ l2.
Proof. intros [k ->] H. apply elem_of_app. by right. Qed.

Lemma rnd_failed_suffix rnd rnd1 rnd' : rnd1 `suffix_of` rnd → rnd_failed rnd1 rnd' → rnd_failed rnd rnd'.
Proof. intros Hs [->|[b Hb]]; [by left|right; exists b; by eapply elem_of_suffix]. Qed.

(** Choosing a new index, from what is left of the random source. *)
Lemma new_index_move w p rnd i ok t' rnd' : rnd `suffix_of` w_rnd w →
  NewIndexForHandshake (Index_Delete (w_index w) (hs_localIndex (hs_of w p))) p rnd = (i, ok, t', rnd') →
  rnd' `suffix_of` w_rnd w ∧ index_move w p rnd' t' i ∧ 
    (if ok then t' !! i = Some (hs_entry p) ∧ drawn (w_rnd w) i else rnd_failed (w_rnd w) rnd' ∧ ∀ j, index_move w p rnd' t' j).
Proof.
  intros Hs E. destruct ok.
  - apply NewIndexForHandshake_spec in E as (Hi & -> & Hs' & b & Hb & Hib).
    split_and!; [by etrans|eapply im_new; [by eapply elem_of_suffix|done|done]|apply lookup_insert_eq|].
    exists b. split; [by eapply elem_of_suffix|done].
  - apply NewIndexForHandshake_failed in E as (-> & Hs' & Hf). apply (rnd_failed_suffix (w_rnd w)) in Hf; [|done].
    split_and!; [by etrans|by apply im_failed|done|intros; by apply im_failed].
Qed.

(** An operation that fails before it chooses an index. *)
Ltac kept rnd :=
  intros [= <- <-]; exists rnd; do 3 eexists;
  split; [do 5 eexists; reflexivity|]; split; [done|]; split; [apply im_keep|];
  right; split; [done|]; split; [done|by left].

(** The index of a failed attempt stays that of the handshake; otherwise the new one is set. *)
Lemma initiate_effect w p m w' : CreateMessageInitiation w p = (m, w') →
  ∃ rnd t st li, hs_changed w p rnd t st li w' ∧ rnd `suffix_of` w_rnd w ∧ index_move w p rnd t li ∧
    (t !! li = Some (hs_entry p) ∧ drawn (w_rnd w) li ∧ st = handshakeInitiationCreated ∨
     st = hs_state (hs_of w p) ∧ li = hs_localIndex (hs_of w p) ∧ (t = w_index w ∨ rnd_failed (w_rnd w) rnd)).
Proof.
  unfold CreateMessageInitiation, hs_changed. cbv zeta.
  destruct (newPrivateKey (w_rnd w)) as [[eph ok] rnd1] eqn:Ek. apply newPrivateKey_suffix in Ek.
  destruct ok; cbn [negb]; [|kept rnd1].
  destruct (sharedSecret eph _) as [ss ok]. destruct ok; cbn [negb]; [|kept rnd1].
  destruct (KDF2 _ _) as [ck1 key1]. destruct (isZero _); [kept rnd1|].
  destruct (KDF2 _ _) as [ck2 key2].
  destruct (NewIndexForHandshake _ _ _) as [[[i ok] t] rnd2] eqn:Ei. cbn [w_rnd set_rnd w_index] in Ei.
  apply new_index_move in Ei as (Hs & Hm & Hok); [|done]. destruct ok; cbn [negb]; intros [= <- <-]; exists rnd2, t; do 2 eexists.
  - split; [do 5 eexists; reflexivity|]. split_and!; [done|done|]. left. by destruct Hok.
  - split; [do 5 eexists; reflexivity|]. destruct Hok as [Hf Hm']. split_and!; [done|apply Hm'|]. right. split_and!; [done..|by right].
Qed.

Lemma respond_effect w p m w' : CreateMessageResponse w p = (m, w') →
  (m = None ∧ w' = w) ∨
  ∃ rnd t st li, hs_changed w p rnd t st li w' ∧ rnd `suffix_of` w_rnd w ∧ index_move w p rnd t li ∧
    hs_state (hs_of w p) = handshakeInitiationConsumed ∧
    (t !! li = Some (hs_entry p) ∧ drawn (w_rnd w) li ∧ (st = hs_state (hs_of w p) ∨ st = handshakeResponseCreated) ∨
     st = hs_state (hs_of w p) ∧ rnd_failed (w_rnd w) rnd).
Proof.
  unfold CreateMessageResponse, hs_changed. cbv zeta. case_bool_decide as Hst; [intros [= <- <-]; by left|].
  destruct (NewIndexForHandshake _ _ _) as [[[i ok] t] rnd2] eqn:Ei.
  apply new_index_move in Ei as (Hs & Hm & Hok); [|done]. destruct ok; cbn [negb].
  2: { intros [= <- <-]. right. exists rnd2, t; do 2 eexists. split; [do 5 eexists; reflexivity|].
       split_and!; [done|done|done|]. right. by destruct Hok. }
  destruct (newPrivateKey _) as [[eph ok] rnd1] eqn:Ek. apply newPrivateKey_suffix in Ek. cbn [w_rnd set_rnd set_index] in Ek.
  assert (rnd1 `suffix_of` w_rnd w) as Hs1 by by etrans.
  assert (index_move w p rnd1 t i) as Hm1.
  { inversion Hm as [| |? Hf]; subst; [apply im_keep|by eapply im_new|].
    apply im_failed. destruct Hf as [->|Hf]; [|by right]. left. by apply suffix_nil_inv in Ek. }
  destruct ok; cbn [negb].
  - destruct (sharedSecret eph _) as [ss ok]. destruct ok; cbn [negb].
    + destruct (sharedSecret eph _) as [ss2 ok]. destruct ok; cbn [negb]; [destruct (KDF3 _ _) as [[ck tau] key]|].
      all: intros [= <- <-]; right; exists rnd1, t; do 2 eexists; (split; [do 5 eexists; reflexivity|]);
        split_and!; [done|done|done|]; left; destruct Hok; auto.
    + intros [= <- <-]; right; exists rnd1, t; do 2 eexists; (split; [do 5 eexists; reflexivity|]);
        split_and!; [done|done|done|]; left; destruct Hok; auto.
  - intros [= <- <-]; right; exists rnd1, t; do 2 eexists; (split; [do 5 eexists; reflexivity|]);
        split_and!; [done|done|done|]; left; destruct Hok; auto.
Qed.

Lemma consume_response_effect w m p w' : ConsumeMessageResponse w m = (p, w') →
  w' = w ∨ ∃ q e hash ck ri, w_index w !! mr_Receiver m = Some e ∧ ie_handshake e = Some q ∧
    hs_state (hs_of w q) = handshakeInitiationCreated ∧
    w' = upd_peer w q (set_hs (hs_symmetric (hs_of w q) handshakeResponseConsumed hash ck (hs_localEphemeral (hs_of w q))
           (hs_localIndex (hs_of w q)) ri (hs_remoteEphemeral (hs_of w q)))).
Proof.
  unfold ConsumeMessageResponse, Index_Lookup. destruct (negb _); [intros [= <- <-]; by left|].
  destruct (w_index w !! mr_Receiver m) as [e|]; cbn [from_option id]; [|intros [= <- <-]; by left].
  destruct (ie_handshake e) as [q|] eqn:Eh; [|intros [= <- <-]; by left].
  destruct (open_response _ _ _) as [[ck hash]|] eqn:Eo; [|intros [= <- <-]; by left].
  intros [= <- <-]. right. exists q, e, hash, ck, (mr_Sender m). split_and!; [done|done| |done].
  unfold open_response in Eo. case_bool_decide; [done|]. done.
Qed.

End effects.
