(* ===== verification/WgEvents.v ===== *)
(** A WireGuard device as a state machine: the events that the goroutines, the timers and
    the callers of [polyamide/device] are, and that each of them is a sequence of the core
    steps of [WgCore].

    At the end, two WireGuard devices that are set up, shake hands over datagrams and exchange a packet:
    the runs on which the theorems about devices are tried. *)

From S2P Require Import Prelude Bytes NetIP Float64 Metric Routing Endpoint Packet RouterAlgo Config External RouterIO Unicast AllowedIPs RateLimiter Replay Crypto Messages Cookie WireGuard WgSend WgReceive HandshakeProps WgCore.

Inductive DeviceEvent :=
| EvReceive (batch : list (list Z * nat * EndpointRef))
| EvHandshake
| EvInbound (p : PeerRef)
| EvOutbound (p : PeerRef)
| EvTUN (batch : list (list Z * nat * option Z))
| EvTimer (n : TimerName) (p : PeerRef)
| EvNewPeer (pk : list Z)
| EvRemovePeer (pk : list Z)
| EvRemoveAllPeers
| EvSetPrivateKey (sk : list Z)
| EvChangeState (bindOk : bool) (want : deviceState)
| EvClose
| EvKeepalives
| EvKeepaliveInterval (p : PeerRef) (seconds : Z)
| EvHandshakeTo (p : PeerRef) (e : EndpointRef)
| EvStartPeer (p : PeerRef)
| EvSetEndpoints (p : PeerRef) (val : list EndpointRef)
| EvCleanEndpoints (p : PeerRef)
| EvPreferRoaming (p : PeerRef) (val : bool)
| EvMtu (mtu : Z)
(** Time passes, datagrams come from new addresses, and the socket and the jitter have
    further answers. *)
| EvOutside (now : Z) (endpoints : gmap EndpointRef StdNetEndpoint) (jitter : list Z) (res : list SendResult).

Section events.
Context `{MR : MapRange} `{CR : Crypto} (filters : list TCFilter) (mpls : option (Z * Z)).

(** [None] is a panic. *)
Definition handle (w : World) (ev : DeviceEvent) : option World :=
  match ev with
  | EvReceive batch => Some (RoutineReceiveIncoming w batch)
  | EvHandshake => RoutineHandshake w
  | EvInbound p => RoutineSequentialReceiver filters w p
  | EvOutbound p => sender_step w p
  | EvTUN batch => RoutineReadFromTUN filters mpls w batch
  | EvTimer n p => Some (timer_fires n w p)
  | EvNewPeer pk => Some (NewPeer w pk).2
  | EvRemovePeer pk => RemovePeer w pk
  | EvRemoveAllPeers => RemoveAllPeers w
  | EvSetPrivateKey sk => SetPrivateKey w sk
  | EvChangeState ok want => Some (changeState ok w want)
  | EvClose => Device_Close w
  | EvKeepalives => Some (SendKeepalivesToPeersWithCurrentKeypair w)
  | EvKeepaliveInterval p seconds => Some (SetPersistentKeepaliveInterval w p seconds)
  | EvHandshakeTo p e => Some (SendHandshakeInitiationTo w p e).2
  | EvStartPeer p => Some (Peer_Start w p)
  | EvSetEndpoints p val => Some (SetEndpoints w p val)
  | EvCleanEndpoints p => Some (CleanEndpoints w p)
  | EvPreferRoaming p val => Some (SetPreferRoaming w p val)
  | EvMtu mtu => Some (update_mtu w mtu)
  | EvOutside now endpoints jitter res =>
      Some (mkWorld (w_dev w) (w_index w) (w_peers w) (w_keypairs w) endpoints now (w_rnd w) jitter res (w_sent w) (w_tun w) (w_control w))
  end.

Fixpoint run_events (w : World) (evs : list DeviceEvent) : option World :=
  match evs with
  | [] => Some w
  | ev :: evs => w ← handle w ev; run_events w evs
  end.

(** ** Every event is a sequence of core steps *)

Lemma handle_steps w ev w' : handle w ev = Some w' → steps w w'.
Proof.
  assert (steps w w) as Hr by apply rtc_refl.
  destruct ev; cbn [handle]; intros H; try injection H as <-;
    eauto using RoutineReceiveIncoming_steps, RoutineHandshake_steps, RoutineSequentialReceiver_steps, sender_step_steps,
      TCBatch_steps, timer_fires_steps, NewPeer_steps, RemovePeer_steps, RemoveAllPeers_steps, SetPrivateKey_steps,
      changeState_steps, Device_Close_steps, SendKeepalives_steps, SetPersistentKeepaliveInterval_steps,
      SendHandshakeInitiationTo_steps, Peer_Start_steps, steps_upd_endpoints, update_mtu_steps.
  apply (steps_same w w); [by split|done].
Qed.

Lemma run_events_steps evs : ∀ w w', run_events w evs = Some w' → steps w w'.
Proof.
  induction evs as [|ev evs IH]; intros w w'; cbn [run_events]; [intros [= <-]; apply rtc_refl|].
  destruct (handle w ev) as [w1|] eqn:E; [|done]. cbn. intros H. etrans; [by eapply handle_steps|by apply IH].
Qed.

End events.

Module SessionDemo.

#[local] Existing Instances sorted_range ToyCrypto.toy ToyCrypto.toy_laws.
Import HandshakeDemo.

(** The filters of a plain device: what comes from a peer goes to the interface, and what
    comes from the interface to peer 0. *)
Definition filters : list TCFilter := [TCFAllowedip (λ _, Some 0%nat); TCFBounce].

Definition run (w : World) (evs : list DeviceEvent) : World := default w (run_events filters None w evs).

(** A device that has been brought up, without peers; endpoint 1 is the other side. *)
Definition start (sk : list Z) (addr : Z) (rnd : Entropy) : World :=
  mkWorld
    (mkDevice deviceStateUp sk (publicKey sk) ∅ 0 Ratelimiter_Init (mkAllowedIPs Nil Nil ∅)
       (CookieChecker_Init zero_checker (publicKey sk)) 1420 [])
    ∅ ∅ ∅ {[ 1%nat := mkStd (mkAddrPort (Addr4 addr) 51820) None TransportUDP ]} 1700000000000000000
    rnd [] [] [] [] [].

Definition A0 : World := start skA 167772161 [(replicate 32 5, true); ([1; 2; 3; 4], true); ([5; 6; 7; 8], true)].
Definition B0 : World := start skB 167772162 [([9; 9; 9; 9], true); (replicate 32 6, true); ([4; 3; 2; 1], true)].

(** The first datagram of the last batch that a device sent. *)
Definition last_datagram (w : World) : list Z := default [] (head (default ([], 0%nat) (list.last (w_sent w))).1).

Definition datagram (d : list Z) : list Z * nat * EndpointRef := (d ++ zeros 16, length d, 1%nat).

(** A gets a peer and starts a handshake with it; B, which knows A, answers; A completes
    the handshake and confirms it with a keepalive. *)
Definition events_A1 : list DeviceEvent :=
  [EvNewPeer (publicKey skB); EvStartPeer 0; EvSetEndpoints 0 [1%nat]; EvHandshakeTo 0 1].
Definition initiation : list Z := Eval vm_compute in last_datagram (run A0 events_A1).

Definition events_B1 : list DeviceEvent :=
  [EvNewPeer (publicKey skA); EvStartPeer 0; EvReceive [datagram initiation]; EvHandshake].
Definition response : list Z := Eval vm_compute in last_datagram (run B0 events_B1).

Definition events_A2 : list DeviceEvent := events_A1 ++ [EvReceive [datagram response]; EvHandshake; EvOutbound 0].
Definition keepalive : list Z := Eval vm_compute in last_datagram (run A0 events_A2).

(** An IPv4 packet from the interface of A, in a buffer with room for the header. *)
Definition ip_packet : list Z :=
  [69; 0; 0; 24; 0; 0; 0; 0; 64; 17; 0; 0; 10; 0; 0; 1; 10; 0; 0; 2; 222; 173; 190; 239].

Definition events_A3 : list DeviceEvent := events_A2 ++ [EvTUN [(zeros 16 ++ ip_packet ++ zeros 32, 24%nat, None)]; EvOutbound 0].
Definition data : list Z := Eval vm_compute in last_datagram (run A0 events_A3).

(** B gets the keepalive and the packet, the packet twice. *)
Definition events_B2 : list DeviceEvent :=
  events_B1 ++ [EvReceive [datagram keepalive]; EvReceive [datagram data; datagram data]; EvInbound 0; EvInbound 0].

(** The packet arrives at the interface of B, once. *)
Lemma session_delivers : w_tun (run B0 events_B2) = [(ip_packet, 0)].
Proof. vm_compute. reflexivity. Qed.

End SessionDemo.
