(* ===== verification/WgData.v ===== *)
(** Data packets between two WireGuard devices: padding, and that what one side encrypts
    the other side decrypts and hands to its filters. *)

From S2P Require Import Prelude Bytes NetIP Float64 Metric Routing Endpoint Packet RouterAlgo Config External RouterIO Unicast AllowedIPs RateLimiter Replay Crypto Messages Cookie WireGuard WgSend WgReceive HandshakeProps WgCore WgEvents.

(** ** Padding *)

Lemma round_padding x : Z.land (x + PaddingMultiple - 1) (Z.lnot (PaddingMultiple - 1)) = (x + 15) / 16 * 16.
Proof.
  change (PaddingMultiple - 1) with (Z.ones 4). replace (x + PaddingMultiple - 1) with (x + 15) by (unfold PaddingMultiple; lia).
  rewrite <-Z.ldiff_land, Z.ldiff_ones_r by done. rewrite Z.shiftl_mul_pow2, Z.shiftr_div_pow2 by done. done.
Qed.

(** What of a packet counts for its padding: all of it, or what is left of it behind full
    units of the MTU. *)
Definition last_unit (size mtu : Z) : Z := if (mtu =? 0) || (size <=? mtu) then size else size mod mtu.

Lemma padding_spec size mtu : 0 <= size → 0 <= mtu →
  let n := calculatePaddingSize size mtu in
  0 <= n < PaddingMultiple ∧
  (mtu ≠ 0 → last_unit size mtu + n <= mtu) ∧
  ((last_unit size mtu + n) mod PaddingMultiple = 0 ∨ last_unit size mtu + n = mtu).
Proof.
  intros Hs Hm. cbv zeta. unfold calculatePaddingSize, last_unit, PaddingMultiple. rewrite !round_padding.
  destruct (Z.eqb_spec mtu 0) as [->|Hne]; cbn [orb].
  { split; [Z.div_mod_to_equations; lia|]. split; [done|]. left. replace (size + ((size + 15) / 16 * 16 - size)) with ((size + 15) / 16 * 16) by lia.
    apply Z.mod_mul. lia. }
  assert (∀ u, 0 <= u <= mtu → let n := (if mtu <? (u + 15) / 16 * 16 then mtu else (u + 15) / 16 * 16) - u in
    0 <= n < 16 ∧ (mtu ≠ 0 → u + n <= mtu) ∧ ((u + n) mod 16 = 0 ∨ u + n = mtu)) as Hu.
  { intros u Hu. cbv zeta. destruct (Z.ltb_spec mtu ((u + 15) / 16 * 16)) as [H|H].
    - split; [Z.div_mod_to_equations; lia|]. split; [lia|right; lia].
    - split; [Z.div_mod_to_equations; lia|]. split; [lia|]. left. rewrite Zplus_minus. apply Z.mod_mul. lia. }
  destruct (Z.ltb_spec mtu size) as [Hlt|Hle], (Z.leb_spec size mtu); try lia.
  - rewrite Z.rem_mod_nonneg by lia. apply Hu. pose proof (Z.mod_pos_bound size mtu). lia.
  - apply Hu. lia.
Qed.

(** ** From one side to the other *)

Section data.
Context `{CR : Crypto} `{CL : !CryptoLaws}.
Implicit Types (w : World).

Lemma encrypt_spec w e k : oe_keypair e = Some k → oe_off e = MessageTransportHeaderSize → 0 <= dv_mtu (w_dev w) →
  let pad := Z.to_nat (calculatePaddingSize (Z.of_nat (length (oe_packet e))) (dv_mtu (w_dev w))) in
  encrypt w e = Some (transport_header (kp_remoteIndex (keypair_at w k)) (oe_nonce e) ++
    Seal (kp_send (keypair_at w k)) (transport_nonce (oe_nonce e)) (oe_packet e ++ zeros pad) []).
Proof.
  intros Hk Ho Hm. cbv zeta. unfold encrypt. rewrite Hk. cbn [mbind option_bind].
  destruct (padding_spec (Z.of_nat (length (oe_packet e))) (dv_mtu (w_dev w))) as (Hn & _); [lia|done|].
  rewrite (proj2 (Z.ltb_ge _ _)) by lia. rewrite (proj2 (Z.ltb_ge _ _)) by lia. cbn [orb].
  rewrite (bool_decide_eq_true_2 (oe_off e = _)) by done. by rewrite andb_false_r.
Qed.

(** The fields of a transport message. *)
Lemma transport_fields remoteIndex nonce content : 0 <= remoteIndex < 2 ^ 32 → 0 <= nonce < 2 ^ 64 →
  let packet := transport_header remoteIndex nonce ++ content in
  length packet = (16 + length content)%nat ∧
  le_decode (take 4 packet) = MessageTransportType ∧
  le_decode (slice MessageTransportOffsetReceiver MessageTransportOffsetCounter packet) = remoteIndex ∧
  uint64 (le_decode (slice MessageTransportOffsetCounter MessageTransportOffsetContent packet)) = nonce ∧
  drop MessageTransportOffsetContent packet = content.
Proof.
  intros Hi Hn. cbv zeta. unfold transport_header, slice, MessageTransportOffsetReceiver, MessageTransportOffsetCounter, MessageTransportOffsetContent.
  pose proof (length_le_encode 4 MessageTransportType) as L1. pose proof (length_le_encode 4 remoteIndex) as L2.
  pose proof (length_le_encode 8 nonce) as L3. split_and!.
  - rewrite !length_app. lia.
  - rewrite <-!app_assoc, take_app_length' by done. by rewrite le_decode_encode.
  - rewrite <-!app_assoc, drop_app_length' by done. rewrite take_app_length' by done. by rewrite le_decode_encode.
  - rewrite <-!app_assoc, (app_assoc (le_encode 4 _)), drop_app_length' by (rewrite length_app; lia).
    rewrite take_app_length' by done. rewrite le_decode_encode by done. apply wrap_small. done.
  - by rewrite drop_app_length' by (rewrite !length_app; lia).
Qed.

(** C28: a data packet gets through: what one device encrypts for an index that the other
    has given to the same keypair is accepted from the socket there, decrypts to the packet
    with its padding of zeros, and, if the replay filter lets its number pass, reaches the
    filters once, as that packet and as coming from that peer. *)
Theorem data_roundtrip (wA wB : World) (e : QueueOutboundElement) (k l : KeypairRef) (p : PeerRef)
    (m : gmap PeerRef (list QueueInboundElement)) (junk : list Z) (ep : EndpointRef) :
  oe_keypair e = Some k → oe_off e = MessageTransportHeaderSize → 0 <= dv_mtu (w_dev wA) →
  0 <= kp_remoteIndex (keypair_at wA k) < 2 ^ 32 → 0 <= oe_nonce e < 2 ^ 64 →
  ie_keypair (Index_Lookup (w_index wB) (kp_remoteIndex (keypair_at wA k))) = Some l →
  ie_peer (Index_Lookup (w_index wB) (kp_remoteIndex (keypair_at wA k))) = Some p →
  kp_receive (keypair_at wB l) = kp_send (keypair_at wA k) →
  w_now wB <= kp_created (keypair_at wB l) + RejectAfterTime →
  let padded := oe_packet e ++ zeros (Z.to_nat (calculatePaddingSize (Z.of_nat (length (oe_packet e))) (dv_mtu (w_dev wA)))) in
  ∃ buf, encrypt wA e = Some buf ∧
    let elem := mkInbound (buf ++ junk) (Some buf) 0 l ep in
    receive_datagram (m, wB) (buf ++ junk, length buf, ep) = (<[p := default [] (m !! p) ++ [elem]]> m, wB) ∧
    let elem := decrypt wB elem in
    ibe_packet elem = Some padded ∧ ibe_counter elem = oe_nonce e ∧
    ∀ st, (ValidateCounter (kp_replayFilter (keypair_at (rs_world st) l)) (oe_nonce e) RejectAfterMessages).1 = true → padded ≠ [] →
      ∃ tce, rs_tcs (receive_elem p st elem) = rs_tcs st ++ [tce] ∧ tc_Packet tce = padded ∧ tc_FromPeer tce = Some p ∧ tc_FromEp tce = Some ep.
Proof.
  intros Hk Ho Hm Hi Hn Hl Hp Hkey Hyoung. cbv zeta.
  rewrite (encrypt_spec wA e k) by done. set (padded := oe_packet e ++ _). set (content := Seal _ _ padded _).
  assert (length content = length padded + TagSize)%nat as Hlen by apply length_Seal.
  destruct (transport_fields _ _ content Hi Hn) as (L & F1 & F2 & F3 & F4). set (buf := transport_header _ _ ++ content) in *.
  exists buf. split; [done|]. assert (length padded + 32 = length buf)%nat as Hbuf by (unfold TagSize in *; lia). split.
  { unfold receive_datagram. rewrite take_app_length, F1, F2, Hl, Hp.
    change MinMessageSize with 32%nat. rewrite decide_False by lia.
    rewrite Z.eqb_refl. rewrite decide_False by (unfold MessageTransportSize, MessageTransportHeaderSize, TagSize; lia).
    by rewrite (proj2 (Z.ltb_ge _ _)) by lia. }
  unfold decrypt. cbn [ibe_packet ibe_keypair ibe_buffer ibe_endpoint]. rewrite F3, F4, Hkey. unfold content. rewrite Open_Seal.
  cbn [ibe_packet ibe_counter]. split_and!; [done..|]. intros st Hok Hne.
  unfold receive_elem. cbn [ibe_packet ibe_counter ibe_keypair ibe_endpoint ibe_buffer].
  destruct (ValidateCounter _ _ _) as [ok f]. cbn [fst] in Hok. subst ok. cbn [negb].
  destruct (ReceivedWithKeypair _ _ _) as [fs w2]. destruct padded as [|b padded'] eqn:Epad; [done|]. rewrite <-Epad in *.
  eexists. cbn [rs_tcs]. split; [reflexivity|]. split_and!; [|done..].
  unfold tc_Packet. cbn [tc_len tc_off tc_Buffer]. change MessageTransportOffsetContent with 16%nat.
  pose proof (slice_write_at 16 padded (buf ++ junk)) as S. unfold slice in S. rewrite Nat.add_sub' in S. apply S. rewrite length_app. lia.
Qed.

End data.

(** ** Demonstration *)

Module DataDemo.

#[local] Existing Instances sorted_range ToyCrypto.toy ToyCrypto.toy_laws.
Import SessionDemo.

(** The two devices after the handshake, and a packet with number 7. *)
Definition A : World := run A0 events_A2.
Definition B : World := run B0 events_B1.
Definition elem : QueueOutboundElement := mkOutbound ip_packet MessageTransportHeaderSize 7 (Some 0%nat) None.

Lemma data_roundtrip_witness :
  ∃ buf, encrypt A elem = Some buf ∧ ibe_packet (decrypt B (mkInbound (buf ++ []) (Some buf) 0 0 1)) = Some (ip_packet ++ zeros 8).
Proof.
  destruct (data_roundtrip A B elem 0 0 0 ∅ [] 1) as (buf & He & _ & Hd & _).
  1, 2: reflexivity.
  1-7: vm_compute; intuition discriminate.
  exists buf. split; [exact He|]. etransitivity; [exact Hd|]. vm_compute. reflexivity.
Defined.

End DataDemo.
