(* ===== verification/WgReplay.v ===== *)
(** Identities and replayed handshakes: a device keeps with every peer the secret they
    share, the timestamp of a peer never goes back, and an initiation is accepted once. *)

From S2P Require Import Prelude Bytes NetIP Float64 Metric Routing Endpoint Packet RouterAlgo Config External RouterIO Unicast AllowedIPs RateLimiter Replay Crypto Messages Cookie WireGuard WgSend WgReceive HandshakeProps WgCore WgEvents.

(** ** The order of timestamps *)

Lemma bytes_Compare_antisym a : ∀ b, bytes_Compare b a = CompOpp (bytes_Compare a b).
Proof.
  induction a as [|x a IH]; intros [|y b]; cbn; try done.
  rewrite (Z.compare_antisym x y). destruct (x ?= y); cbn; [apply IH|done|done].
Qed.

Lemma bytes_Compare_trans a : ∀ b c, bytes_Compare a b ≠ Gt → bytes_Compare b c ≠ Gt → bytes_Compare a c ≠ Gt.
Proof.
  induction a as [|x a IH]; intros [|y b] [|z c]; cbn; try done.
  destruct (Z.compare_spec x y) as [->|Hxy|Hxy]; [|intros _|done].
  - destruct (Z.compare_spec y z) as [->|Hyz|Hyz]; [apply IH|done..].
  - destruct (Z.compare_spec y z) as [->|Hyz|Hyz]; [..|done]; intros _; by rewrite (proj2 (Z.compare_lt_iff x z)) by lia.
Qed.

(** [not_after t u]: [u] is [t] or later. *)
Definition not_after (t u : list Z) : Prop := After t u = false.

Lemma not_after_spec t u : not_after t u ↔ bytes_Compare t u ≠ Gt.
Proof. unfold not_after, After. destruct (bytes_Compare t u); split; done. Qed.

#[export] Instance not_after_preorder : PreOrder not_after.
Proof.
  split.
  - intros t. apply After_irrefl.
  - intros t u v. rewrite !not_after_spec. apply bytes_Compare_trans.
Qed.

Lemma After_not_after t u : After t u = true → not_after u t.
Proof.
  rewrite not_after_spec. unfold After. rewrite (bytes_Compare_antisym t u). by destruct (bytes_Compare t u).
Qed.

Section replay.
Context `{MR : MapRange} `{CR : Crypto} `{CL : !CryptoLaws}.
Implicit Types (w : World) (p : PeerRef).

(** What the peers of a device are: each is known by its key, and comes with the secret
    the device shares with it. *)
Definition ident_ok w : Prop :=
  ∀ pk p, dv_keyMap (w_dev w) !! pk = Some p →
    p ∈ dom (w_peers w) ∧ hs_remoteStatic (hs_of w p) = pk ∧
    hs_precomputedStaticStatic (hs_of w p) = fst (sharedSecret (dv_privateKey (w_dev w)) pk).

(** How a step treats the parts of a peer that identify it. *)
Record peer_kept w w' p : Prop := {
  pk_dom : p ∈ dom (w_peers w');
  pk_static : hs_remoteStatic (hs_of w' p) = hs_remoteStatic (hs_of w p);
  pk_timestamp : not_after (hs_lastTimestamp (hs_of w p)) (hs_lastTimestamp (hs_of w' p));
}.

Lemma upd_hs_kept w p h q :
  hs_remoteStatic h = hs_remoteStatic (hs_of w p) →
  not_after (hs_lastTimestamp (hs_of w p)) (hs_lastTimestamp h) →
  q ∈ dom (w_peers w) → peer_kept w (upd_peer w p (set_hs h)) q.
Proof.
  intros Hs Ht Hq. split.
  - by apply dom_upd_peer.
  - unfold hs_of. rewrite peer_at_upd. by case_decide; subst.
  - unfold hs_of. rewrite peer_at_upd. by case_decide; subst.
Qed.

Lemma peer_kept_refl w p : p ∈ dom (w_peers w) → peer_kept w w p.
Proof. by split. Qed.

Lemma peer_kept_trans w1 w2 w3 p : peer_kept w1 w2 p → peer_kept w2 w3 p → peer_kept w1 w3 p.
Proof. intros [D1 S1 T1] [D2 S2 T2]. split; [done|congruence|by etrans]. Qed.

(** The peers of a state and their handshakes, for operations that only touch those. *)
Lemma peer_kept_peers w w' w'' p : w_peers w'' = w_peers w' → peer_kept w w' p → peer_kept w w'' p.
Proof. intros E [D S T]. unfold hs_of, peer_at in *. split; unfold hs_of, peer_at; by rewrite E. Qed.

Lemma DeleteKeypair_peers w k : w_peers (DeleteKeypair w k) = w_peers w ∧ w_dev (DeleteKeypair w k) = w_dev w.
Proof. by destruct k. Qed.

Lemma rotate_kept w p k b q : q ∈ dom (w_peers w) → peer_kept w (rotate w p k b) q.
Proof.
  intros Hq. destruct (rotate_spec w p k b) as (t & kps & -> & _). split.
  - by apply dom_upd_peer.
  - unfold hs_of. rewrite peer_at_upd. by case_decide; subst.
  - unfold hs_of. rewrite peer_at_upd. by case_decide; subst.
Qed.

Lemma zero_keys_peers w p : w_peers (zero_keys w p) =
  <[p := set_hs (Handshake_Clear (hs_of w p)) (set_kps (mkKeypairs None None None) (peer_at w p))]> (w_peers w) ∧
  w_dev (zero_keys w p) = w_dev w.
Proof.
  unfold zero_keys. cbv zeta.
  repeat match goal with |- context [DeleteKeypair ?w1 ?k] => destruct (DeleteKeypair_frame w1 k) as [? ->] end.
  split; [|done]. unfold upd_peer, peer_at. cbn. rewrite !lookup_total_insert_eq, insert_insert_eq. done.
Qed.

Lemma expire_peers w p :
  w_peers (ExpireCurrentKeypairs w p) =
  <[p := set_lastSentHandshake (w_now w - (RekeyTimeout + Second)) (set_hs (Handshake_Clear (hs_of w p)) (peer_at w p))]> (w_peers w) ∧
  w_dev (ExpireCurrentKeypairs w p) = w_dev w.
Proof.
  unfold ExpireCurrentKeypairs. cbv zeta.
  repeat match goal with |- context [match ?x with Some _ => _ | None => _ end] => destruct x end;
    (split; [|done]); unfold upd_keypair, upd_peer, peer_at; cbn; by rewrite !lookup_total_insert_eq, insert_insert_eq.
Qed.

Lemma insert_kept w w' p pe q : w_peers w' = <[p := pe]> (w_peers w) →
  hs_remoteStatic (pe_handshake pe) = hs_remoteStatic (hs_of w p) →
  not_after (hs_lastTimestamp (hs_of w p)) (hs_lastTimestamp (pe_handshake pe)) →
  q ∈ dom (w_peers w) → peer_kept w w' q.
Proof.
  intros E Hs Ht Hq. unfold hs_of, peer_at in *. split.
  - rewrite E, dom_insert. set_solver.
  - unfold hs_of, peer_at. rewrite E. destruct (decide (p = q)) as [->|]; [by rewrite lookup_total_insert_eq|by rewrite lookup_total_insert_ne].
  - unfold hs_of, peer_at. rewrite E. destruct (decide (p = q)) as [->|]; [by rewrite lookup_total_insert_eq|by rewrite lookup_total_insert_ne].
Qed.

Lemma hs_core_fields h h' : hs_core h' = hs_core h →
  hs_remoteStatic h' = hs_remoteStatic h ∧ hs_lastTimestamp h' = hs_lastTimestamp h ∧
  hs_precomputedStaticStatic h' = hs_precomputedStaticStatic h ∧ hs_state h' = hs_state h ∧ hs_localIndex h' = hs_localIndex h.
Proof. unfold hs_core, hs_stamps. intros [=]. done. Qed.

(** A step that changes one peer, or none. *)
Definition one_peer w w' : Prop :=
  w_dev w' = w_dev w ∧
  (w_peers w' = w_peers w ∨
   ∃ p pe, w_peers w' = <[p := pe]> (w_peers w) ∧
     hs_remoteStatic (pe_handshake pe) = hs_remoteStatic (hs_of w p) ∧
     hs_precomputedStaticStatic (pe_handshake pe) = hs_precomputedStaticStatic (hs_of w p) ∧
     not_after (hs_lastTimestamp (hs_of w p)) (hs_lastTimestamp (pe_handshake pe))).

Lemma hs_changed_one w p rnd t st li w' : hs_changed w p rnd t st li w' → one_peer w w'.
Proof. intros (? & ? & ? & ? & ? & ->). split; [done|]. right. exists p. by eexists. Qed.

Lemma begin_one w p w' : BeginSymmetricSession w p = (true, w') → one_peer w w'.
Proof.
  unfold BeginSymmetricSession. cbv zeta. intros H. destruct (match hs_state _ with handshakeZeroed => _ | _ => _ end) as [[[sk rk] b]|]; [|done].
  injection H as <-. match goal with |- context [rotate ?w1 _ ?k ?b] => destruct (rotate_spec w1 p k b) as (t & kps & -> & _) end.
  split; [done|]. right. unfold upd_peer, peer_at. cbn. rewrite insert_insert_eq. exists p. eexists. split; [reflexivity|].
  by rewrite lookup_total_insert_eq.
Qed.

(** The kinds of steps, as far as peers and the device are concerned. *)
Lemma core_step_cases w w' : core_step w w' →
  core_eq w w' ∨ one_peer w w' ∨ (∃ pk p, NewPeer w pk = (inr p, w')) ∨
  (∃ m, m ⊆ dv_keyMap (w_dev w) ∧ w' = upd_dev w (set_keyMap m)) ∨ (∃ sk pk cc, w' = rekey w sk pk cc).
Proof.
  intros [w1 H|p m w1 H|m p w1 H|p m w1 H|m p w1 H|p w1 H|p k w1 H|p|p|p k elems queue H|k c Hc|pk p w1 H|m H|sk pk cc].
  - by left.
  - right; left. apply initiate_effect in H as (? & ? & ? & ? & H & _). by eapply hs_changed_one.
  - right; left. apply ConsumeMessageInitiation_iff in H as (ts & ck & hash & _ & Ha & _ & ->). split; [done|]. right.
    exists p. eexists. split; [reflexivity|]. split_and!; [done..|]. by apply After_not_after.
  - apply respond_effect in H as [[_ ->]|(? & ? & ? & ? & H & _)]; [by left; apply core_eq_preorder|].
    right; left. by eapply hs_changed_one.
  - apply consume_response_effect in H as [->|(q & ? & ? & ? & ? & _ & _ & _ & ->)]; [by left; apply core_eq_preorder|].
    right; left. split; [done|]. right. exists q. by eexists.
  - right; left. by eapply begin_one.
  - right; left. unfold ReceivedWithKeypair in H. case_bool_decide; [done|]. cbv zeta in H. injection H as <-.
    destruct (DeleteKeypair_frame w (kps_previous (pe_keypairs (peer_at w p)))) as [t ->]. split; [done|]. right. exists p. by eexists.
  - right; left. destruct (zero_keys_peers w p) as [E1 E2]. split; [done|]. right. exists p. by eexists.
  - right; left. destruct (expire_peers w p) as [E1 E2]. split; [done|]. right. exists p. by eexists.
  - right; left. unfold number_elems. destruct (assign_nonces _ _ _) as [[kept late] n]. destruct queue.
    + split; [done|]. right. exists p. by eexists.
    + split; [done|]. by left.
  - right; left. split; [done|]. by left.
  - do 2 right; left. eauto.
  - do 3 right; left. eauto.
  - do 4 right. eauto.
Qed.

Lemma one_peer_kept w w' p : one_peer w w' → p ∈ dom (w_peers w) → peer_kept w w' p.
Proof.
  intros [_ [E|(q & pe & E & Hs & _ & Ht)]] Hp; [|by eapply insert_kept].
  apply (peer_kept_peers w w w'); [done|by apply peer_kept_refl].
Qed.

Lemma NewPeer_spec w pk p w' : NewPeer w pk = (inr p, w') →
  p ∉ dom (w_peers w) ∧ dv_keyMap (w_dev w) !! pk = None ∧
  dv_keyMap (w_dev w') = <[pk := p]> (dv_keyMap (w_dev w)) ∧ dv_privateKey (w_dev w') = dv_privateKey (w_dev w) ∧
  ∃ pe, w_peers w' = <[p := pe]> (w_peers w) ∧ hs_remoteStatic (pe_handshake pe) = pk ∧
    hs_precomputedStaticStatic (pe_handshake pe) = fst (sharedSecret (dv_privateKey (w_dev w)) pk).
Proof.
  unfold NewPeer. intros H. repeat case_hyp H; simplify_eq. split; [apply is_fresh|]. split_and!; [done..|].
  eexists. split; [reflexivity|done].
Qed.

(** Every step keeps the peers there are. *)
Lemma precompute_peers l : ∀ w,
  w_dev (foldl precompute w l) = w_dev w ∧ dom (w_peers w) ⊆ dom (w_peers (foldl precompute w l)) ∧
  ∀ q, hs_remoteStatic (hs_of (foldl precompute w l) q) = hs_remoteStatic (hs_of w q) ∧
    hs_lastTimestamp (hs_of (foldl precompute w l) q) = hs_lastTimestamp (hs_of w q) ∧
    hs_precomputedStaticStatic (hs_of (foldl precompute w l) q) =
      if decide (q ∈ l.*2) then fst (sharedSecret (dv_privateKey (w_dev w)) (hs_remoteStatic (hs_of w q)))
      else hs_precomputedStaticStatic (hs_of w q).
Proof.
  induction l as [|[pk p] l IH]; intros w; cbn [foldl].
  { split_and!; [done..|]. intros q. split_and!; [done..|]. by rewrite decide_False by set_solver. }
  destruct (IH (precompute w (pk, p))) as (Hd & Hdom & Hq). split_and!.
  - by rewrite Hd.
  - etrans; [|exact Hdom]. apply dom_upd_peer.
  - intros q. destruct (Hq q) as (-> & -> & ->). unfold hs_of, precompute. rewrite peer_at_upd. cbn [fst snd].
    destruct (decide (p = q)) as [->|Hne]; cbn.
    + rewrite (decide_True (P := q ∈ q :: l.*2)) by by left. split_and!; [done..|]. by case_decide.
    + split_and!; [done..|]. apply decide_ext. set_solver.
Qed.

Lemma core_step_kept w w' p : core_step w w' → p ∈ dom (w_peers w) → peer_kept w w' p.
Proof.
  intros [H|[H|[(pk & q & H)|[(m & _ & ->)|(sk & pk & cc & ->)]]]]%core_step_cases Hp.
  - destruct (hs_core_fields _ _ (ce_handshake _ _ H p)) as (H1 & H2 & _). split; [by apply (ce_dom _ _ H)|done|]. unfold hs_of. by rewrite H2.
  - by apply one_peer_kept.
  - apply NewPeer_spec in H as (Hfresh & _ & _ & _ & pe & E & _). assert (q ≠ p) by (intros ->; done).
    split; unfold hs_of, peer_at; rewrite E; [rewrite dom_insert; set_solver|by rewrite lookup_total_insert_ne..].
  - apply (peer_kept_peers w w); [done|by apply peer_kept_refl].
  - unfold rekey. destruct (precompute_peers (map_range (dv_keyMap (w_dev w))) (upd_dev w (set_identity sk pk cc))) as (_ & Hdom & Hq).
    destruct (Hq p) as (H1 & H2 & _). split; [by apply Hdom|done|]. by rewrite H2.
Qed.

Lemma steps_kept w w' p : steps w w' → p ∈ dom (w_peers w) → peer_kept w w' p.
Proof.
  induction 1 as [w|w1 w2 w3 H _ IH]; intros Hp; [by apply peer_kept_refl|].
  pose proof (core_step_kept _ _ p H Hp) as K. eapply peer_kept_trans; [exact K|]. apply IH, K.
Qed.

(** Every step keeps the identities. *)
Lemma core_step_ident w w' : core_step w w' → ident_ok w → ident_ok w'.
Proof.
  intros Hc Hi. pose proof (λ p, core_step_kept w w' p Hc) as Hk.
  apply core_step_cases in Hc as [H|[[Hd H]|[(pk & q & H)|[(m & Hm & ->)|(sk & pk & cc & ->)]]]]; intros key p Hkey.
  - rewrite (ce_keyMap _ _ H) in Hkey. destruct (Hi key p Hkey) as (D & S & P).
    destruct (hs_core_fields _ _ (ce_handshake _ _ H p)) as (_ & _ & HP & _). destruct (Hk p D) as [D' S' _].
    rewrite (ce_private _ _ H). split_and!; [done|unfold hs_of in *; congruence|unfold hs_of in *; congruence].
  - rewrite Hd in *. destruct (Hi key p Hkey) as (D & S & P). destruct (Hk p D) as [D' S' _]. split_and!; [done|congruence|].
    destruct H as [E|(q & pe & E & _ & HP & _)]; unfold hs_of, peer_at in *; rewrite E; [done|].
    destruct (decide (q = p)) as [->|]; [rewrite lookup_total_insert_eq; congruence|by rewrite lookup_total_insert_ne].
  - apply NewPeer_spec in H as (Hfresh & _ & Em & Ep & pe & E & HS & HP). rewrite Em in Hkey. rewrite Ep.
    apply lookup_insert_Some in Hkey as [[<- <-]|[Hne Hkey]].
    + unfold hs_of, peer_at. rewrite E, dom_insert, lookup_total_insert_eq. split_and!; [set_solver|done|done].
    + destruct (Hi key p Hkey) as (D & S & P). assert (q ≠ p) by (intros ->; done).
      unfold hs_of, peer_at in *. rewrite E, dom_insert, lookup_total_insert_ne by done. split_and!; [set_solver|done|done].
  - by apply (Hi key p), (lookup_weaken _ _ _ _ Hkey).
  - unfold rekey in *. destruct (precompute_peers (map_range (dv_keyMap (w_dev w))) (upd_dev w (set_identity sk pk cc))) as (Hd & Hdom & Hq).
    rewrite Hd in *. cbn in Hkey |- *. destruct (Hi key p Hkey) as (D & S & P). destruct (Hq p) as (H1 & _ & H3).
    split_and!; [by apply Hdom|by rewrite H1|]. rewrite H3, decide_True; [cbn; f_equal; by rewrite <-S|].
    apply list_elem_of_fmap. exists (key, p). split; [done|]. by apply elem_of_map_range.
Qed.

Lemma steps_ident w w' : steps w w' → ident_ok w → ident_ok w'.
Proof. induction 1; eauto using core_step_ident. Qed.

(** Two transcripts that are the same message came from the same peer at the same time. *)
Lemma initiation_for_inj respPK E es ss initPK1 initPK2 ts1 ts2 s1 s2 a1 a2 b1 b2 m c1 c2 h1 h2 :
  initiation_for respPK E es ss initPK1 ts1 s1 a1 b1 = (m, c1, h1) →
  initiation_for respPK E es ss initPK2 ts2 s2 a2 b2 = (m, c2, h2) → initPK1 = initPK2 ∧ ts1 = ts2.
Proof.
  unfold initiation_for. destruct (KDF2 _ es) as [ck key]. destruct (KDF2 ck ss) as [ck2 key2].
  intros [= <- <- <-] [= _ Hst Hts _ _ _ _].
  assert (initPK1 = initPK2) as ->.
  { apply (f_equal (λ c, Open key ZeroNonce c (mixHash (mixHash InitialHash respPK) E))) in Hst. rewrite !Open_Seal in Hst. by injection Hst. }
  split; [done|].
  apply (f_equal (λ c, Open key2 ZeroNonce c (mixHash (mixHash (mixHash InitialHash respPK) E)
    (Seal key ZeroNonce initPK2 (mixHash (mixHash InitialHash respPK) E))))) in Hts. rewrite !Open_Seal in Hts. by injection Hts.
Qed.

Lemma initiation_for_static respPK E es ss1 ss2 initPK1 initPK2 ts1 ts2 s1 s2 a1 a2 b1 b2 m c1 c2 h1 h2 :
  initiation_for respPK E es ss1 initPK1 ts1 s1 a1 b1 = (m, c1, h1) →
  initiation_for respPK E es ss2 initPK2 ts2 s2 a2 b2 = (m, c2, h2) → initPK1 = initPK2.
Proof.
  unfold initiation_for. destruct (KDF2 _ es) as [ck key]. destruct (KDF2 ck ss1), (KDF2 ck ss2).
  intros [= <- <- <-] [= _ Hst _ _ _ _ _].
  apply (f_equal (λ c, Open key ZeroNonce c (mixHash (mixHash InitialHash respPK) E))) in Hst. rewrite !Open_Seal in Hst. by injection Hst.
Qed.

(** C7: a handshake initiation is accepted once: after a device has accepted it, whatever
    the device does next (time, datagrams, timers, other handshakes, peers and keys that come
    and go), the same message is refused as long as the peer it came from is there and the
    device has its key. *)
Theorem initiation_accepted_once (filters : list TCFilter) (mpls : option (Z * Z)) (w w1 w2 : World)
    (m : MessageInitiation) (p : PeerRef) (evs : list DeviceEvent) (pk : list Z) :
  ident_ok w →
  ConsumeMessageInitiation w m = (Some p, w1) →
  run_events filters mpls w1 evs = Some w2 →
  dv_privateKey (w_dev w2) = dv_privateKey (w_dev w) → dv_publicKey (w_dev w2) = dv_publicKey (w_dev w) →
  dv_keyMap (w_dev w) !! pk = Some p → dv_keyMap (w_dev w2) !! pk = Some p →
  ConsumeMessageInitiation w2 m = (None, w2).
Proof.
  intros Hi Hc Hrun Hpriv Hpub Hpk Hpk2.
  assert (core_step w w1) as Hcs by by eapply cs_consume.
  assert (steps w w2) as Hst by (eapply rtc_l; [done|by eapply run_events_steps]).
  assert (steps w1 w2) as Hst1 by by eapply run_events_steps.
  destruct (Hi pk p Hpk) as (D & S & P). destruct (steps_ident w w2 Hst Hi pk p Hpk2) as (_ & _ & P2).
  destruct (steps_kept w1 w2 p Hst1) as [_ _ T]; [by apply (core_step_kept w w1 p Hcs)|].
  destruct (ConsumeMessageInitiation w2 m) as [[q|] w3] eqn:E; [exfalso|].
  2: { unfold ConsumeMessageInitiation in E. repeat case_hyp E; by simplify_eq. }
  apply ConsumeMessageInitiation_iff in Hc as (ts & ck & hash & Ho & _ & _ & ->), E as (ts' & ck' & hash' & Ho' & Ha' & _).
  apply open_initiation_iff in Ho as (pkA & tA & _ & HlA & _ & _ & -> & HmA).
  apply open_initiation_iff in Ho' as (pkB & tB & _ & HlB & _ & _ & -> & HmB).
  rewrite Hpriv, Hpub in HmB. assert (pkA = pkB) as <- by by eapply initiation_for_static.
  assert (array_of NoisePublicKeySize pkA = pk) as Epk.
  { destruct (Hi _ _ HlA) as (_ & S' & _). congruence. }
  rewrite Epk, Hpk2 in HlB. injection HlB as <-.
  fold (hs_of w p) in HmA. fold (hs_of w2 p) in HmB, Ha'. rewrite P in HmA. rewrite P2, Hpriv in HmB.
  destruct (initiation_for_inj _ _ _ _ _ _ _ _ _ _ _ _ _ _ _ _ _ _ _ HmA HmB) as [_ <-].
  unfold consumed in T. unfold hs_of in T at 1. rewrite peer_at_upd_eq in T. cbn [pe_handshake set_hs hs_stamps hs_lastTimestamp] in T.
  unfold not_after in T. congruence.
Qed.

End replay.

(** ** Demonstration *)

Module AcceptedOnceDemo.

#[local] Existing Instances sorted_range ToyCrypto.toy ToyCrypto.toy_laws.
Import HandshakeDemo.

Definition accepted := ConsumeMessageInitiation B m1.

(** The responder answers, an hour passes and the handshake queue is looked at. *)
Definition later : list DeviceEvent := [EvOutside 1800003600000000000 ∅ [] []; EvHandshake; EvTimer RetransmitHandshake 7].
Definition after : World := default B (run_events [] None accepted.2 later).

Lemma B_ident : ident_ok B.
Proof.
  intros pk p H. change (({[publicKey skA := 7%nat]} : gmap (list Z) PeerRef) !! pk = Some p) in H.
  apply lookup_singleton_Some in H as [<- <-]. split_and!; [by apply elem_of_dom|vm_compute; reflexivity..].
Qed.

Lemma initiation_accepted_once_witness : ConsumeMessageInitiation after m1 = (None, after).
Proof.
  apply (initiation_accepted_once [] None B accepted.2 after m1 7 later (publicKey skA)).
  - exact B_ident.
  - apply succeeded_with. vm_compute. reflexivity.
  - apply survived. vm_compute. reflexivity.
  - vm_compute. reflexivity.
  - vm_compute. reflexivity.
  - vm_compute. reflexivity.
  - vm_compute. reflexivity.
Defined.

End AcceptedOnceDemo.
