(* ===== verification/WgIndex.v ===== *)
(** The index table of a WireGuard device: it has exactly the handshakes under way and the
    keypairs in use, each under the index it was announced with. *)

From S2P Require Import Prelude Bytes NetIP Float64 Metric Routing Endpoint Packet RouterAlgo Config External RouterIO Unicast AllowedIPs RateLimiter Replay Crypto Messages Cookie WireGuard WgSend WgReceive HandshakeProps WgCore WgEvents WgReplay.

(** ** Tables

    [li] is the index of the handshake of a peer, or zero; [kpi] that of a keypair; [own]
    says which keypairs a peer has.  The code takes zero for no index, so the table is exact
    under the other indices only. *)

Record tbl_ok (t : gmap Z IndexTableEntry) (li : PeerRef → Z) (kpi : KeypairRef → Z) (own : PeerRef → KeypairRef → Prop) : Prop := {
  tb_entry : ∀ i e, i ≠ 0 → t !! i = Some e →
    (∃ p, e = hs_entry p ∧ li p = i) ∨ (∃ p k, e = kp_entry p k ∧ own p k ∧ kpi k = i);
  tb_hs : ∀ p, li p ≠ 0 → t !! li p = Some (hs_entry p);
  tb_kp : ∀ p k, own p k → kpi k ≠ 0 → t !! kpi k = Some (kp_entry p k);
}.

Section tables.
Implicit Types (t : gmap Z IndexTableEntry) (li : PeerRef → Z) (kpi : KeypairRef → Z) (own : PeerRef → KeypairRef → Prop).

Lemma tbl_ok_ext t li li' kpi kpi' own own' :
  tbl_ok t li kpi own → (∀ p, li' p = li p) → (∀ p k, own' p k ↔ own p k) → (∀ p k, own p k → kpi' k = kpi k) →
  tbl_ok t li' kpi' own'.
Proof.
  intros [E H K] Hli Hown Hkpi. split; [|intros p; rewrite Hli; apply H|].
  - intros i e Hi Ht. destruct (E i e Hi Ht) as [(p & -> & <-)|(p & k & -> & Ho & <-)]; [left; exists p; by rewrite Hli|].
    right. exists p, k. split_and!; [done|by apply Hown|by apply Hkpi in Ho].
  - intros p k Ho%Hown. rewrite (Hkpi p k Ho). by apply K.
Qed.

(** The indices in use are told apart. *)
Lemma tbl_li_kpi t li kpi own p q k : tbl_ok t li kpi own → own q k → kpi k ≠ 0 → li p ≠ kpi k.
Proof.
  intros T Ho Hn E. pose proof (tb_kp _ _ _ _ T q k Ho Hn) as Hk. rewrite <-E in Hn, Hk.
  by rewrite (tb_hs _ _ _ _ T p Hn) in Hk.
Qed.

Lemma tbl_li_inj t li kpi own p q : tbl_ok t li kpi own → li q ≠ 0 → li p = li q → p = q.
Proof.
  intros T Hq E. pose proof (tb_hs _ _ _ _ T q Hq) as H. rewrite <-E in H. rewrite <-E in Hq.
  rewrite (tb_hs _ _ _ _ T p Hq) in H. by injection H.
Qed.

Lemma tbl_kpi_inj t li kpi own p q k l : tbl_ok t li kpi own → own p k → own q l → kpi l ≠ 0 → kpi k = kpi l → p = q ∧ k = l.
Proof.
  intros T Hp Hq Hn E. pose proof (tb_kp _ _ _ _ T q l Hq Hn) as H. rewrite <-E in H, Hn.
  rewrite (tb_kp _ _ _ _ T p k Hp Hn) in H. by injection H.
Qed.

(** Giving the handshake of a peer a new index. *)
Lemma tbl_new t li kpi own p i li' : tbl_ok t li kpi own → delete (li p) t !! i = None →
  (∀ q, li' q = if decide (q = p) then i else li q) →
  tbl_ok (<[i := hs_entry p]> (delete (li p) t)) li' kpi own.
Proof.
  intros T Hfree Hli'. split.
  - intros j e Hj0. rewrite lookup_insert_Some. intros [[<- <-]|[Hne Hj]].
    { left. exists p. by rewrite Hli', decide_True. }
    apply lookup_delete_Some in Hj as [Hj Ht]. destruct (tb_entry _ _ _ _ T j e Hj0 Ht) as [(q & -> & <-)|?]; [|by right].
    left. exists q. rewrite Hli', decide_False; [done|]. by intros ->.
  - intros q. rewrite Hli'. case_decide as Hq; [by subst; rewrite lookup_insert_eq|]. intros Hn.
    assert (delete (li p) t !! li q = Some (hs_entry q)) as H.
    { rewrite lookup_delete_ne; [by apply T|]. intros E. by apply Hq; symmetry; eapply tbl_li_inj. }
    rewrite lookup_insert_ne; [done|]. intros ->. congruence.
  - intros q k Ho Hn. assert (delete (li p) t !! kpi k = Some (kp_entry q k)) as H.
    { rewrite lookup_delete_ne; [by apply T|]. by eapply tbl_li_kpi. }
    rewrite lookup_insert_ne; [done|]. intros ->. congruence.
Qed.

(** Ending the handshake of a peer. *)
Lemma tbl_clear t li kpi own p li' : tbl_ok t li kpi own → (∀ q, li' q = if decide (q = p) then 0 else li q) →
  tbl_ok (delete (li p) t) li' kpi own.
Proof.
  intros T Hli'. split.
  - intros j e Hj0 [Hj Ht]%lookup_delete_Some. destruct (tb_entry _ _ _ _ T j e Hj0 Ht) as [(q & -> & <-)|?]; [|by right].
    left. exists q. rewrite Hli', decide_False; [done|]. by intros ->.
  - intros q. rewrite Hli'. case_decide as Hq; [done|]. intros Hn. rewrite lookup_delete_ne; [by apply T|].
    intros E. by apply Hq; symmetry; eapply tbl_li_inj.
  - intros q k Ho Hn. rewrite lookup_delete_ne; [by apply T|]. by eapply tbl_li_kpi.
Qed.

(** A handshake becomes a keypair. *)
Lemma tbl_swap t t' li kpi own p k li' kpi' own' : tbl_ok t li kpi own → (∀ q, ¬ own q k) →
  (∀ j, j ≠ 0 → t' !! j = <[li p := kp_entry p k]> t !! j) →
  (∀ q, li' q = if decide (q = p) then 0 else li q) →
  (∀ l, kpi' l = if decide (l = k) then li p else kpi l) →
  (∀ q l, own' q l ↔ own q l ∨ q = p ∧ l = k) →
  tbl_ok t' li' kpi' own'.
Proof.
  intros T Hk Ht' Hli' Hkpi' Hown'.
  assert (∀ q l, own q l → kpi' l = kpi l) as Hsame.
  { intros q l Ho. rewrite Hkpi', decide_False; [done|]. intros ->. by destruct (Hk q). }
  split.
  - intros j e Hj0. rewrite Ht', lookup_insert_Some by done. intros [[<- <-]|[Hne Hj]].
    { right. exists p, k. split_and!; [done|apply Hown'; by right|by rewrite Hkpi', decide_True]. }
    destruct (tb_entry _ _ _ _ T j e Hj0 Hj) as [(q & -> & <-)|(q & l & -> & Ho & <-)].
    + left. exists q. rewrite Hli', decide_False; [done|]. by intros ->.
    + right. exists q, l. split_and!; [done|apply Hown'; by left|by eapply Hsame].
  - intros q. rewrite Hli'. case_decide as Hq; [done|]. intros Hn. rewrite Ht', lookup_insert_ne; [by apply T| |done].
    intros E. by apply Hq; symmetry; eapply tbl_li_inj.
  - intros q l [Ho|[-> ->]]%Hown' Hn; [|rewrite Hkpi', decide_True in Hn |- * by done; by rewrite Ht', lookup_insert_eq].
    rewrite (Hsame q l Ho) in Hn |- *. rewrite Ht', lookup_insert_ne; [by apply T| |done]. by eapply tbl_li_kpi.
Qed.

(** A keypair goes away. *)
Lemma tbl_drop t li kpi own p k own' : tbl_ok t li kpi own → own p k →
  (∀ q l, own' q l ↔ own q l ∧ l ≠ k) → tbl_ok (delete (kpi k) t) li kpi own'.
Proof.
  intros T Hk Hown'. split.
  - intros j e Hj0 [Hj Ht]%lookup_delete_Some. destruct (tb_entry _ _ _ _ T j e Hj0 Ht) as [?|(q & l & -> & Ho & <-)]; [by left|].
    right. exists q, l. split_and!; [done|apply Hown'; split; [done|by intros ->]|done].
  - intros q Hn. rewrite lookup_delete_ne; [by apply T|]. intros E. rewrite <-E in Hn. by apply (tbl_li_kpi t li kpi own q p k T Hk).
  - intros q l [Ho Hne]%Hown' Hn. rewrite lookup_delete_ne; [by apply T|]. intros E.
    by destruct (tbl_kpi_inj _ _ _ _ _ _ _ _ T Hk Ho Hn E).
Qed.

End tables.

(** ** Devices *)

Definition li_of (w : World) (p : PeerRef) : Z := hs_localIndex (hs_of w p).
Definition kpi_of (w : World) (k : KeypairRef) : Z := kp_localIndex (keypair_at w k).

Definition slots_of (kps : Keypairs) : list KeypairRef := omap id [kps_current kps; kps_previous kps; kps_next kps].

(** Each keypair belongs to one peer, and is in one of its slots. *)
Definition unshared (w : World) : Prop := ∀ p q k, owns w p k → owns w q k → p = q.

(** A handshake that waits for an answer or is about to become a session. *)
Definition active (st : handshakeState) : Prop :=
  st = handshakeInitiationCreated ∨ st = handshakeResponseCreated ∨ st = handshakeResponseConsumed.

Section devices.
Context (R : Entropy).

Record index_exact (w : World) : Prop := {
  ix_tbl : tbl_ok (w_index w) (li_of w) (kpi_of w) (owns w);
  ix_alloc : ∀ p k, owns w p k → k ∈ dom (w_keypairs w);
  ix_unshared : unshared w;
  ix_active : ∀ p, active (hs_state (hs_of w p)) → drawn R (li_of w p);
  ix_drawn : ∀ p k, owns w p k → drawn R (kpi_of w k);
  ix_slots : ∀ p, NoDup (slots_of (pe_keypairs (peer_at w p)));
}.

Lemma elem_of_slots kps k : k ∈ slots_of kps ↔ kps_current kps = Some k ∨ kps_previous kps = Some k ∨ kps_next kps = Some k.
Proof.
  unfold slots_of. rewrite list_elem_of_omap. split.
  - intros (x & Hx & E). cbn in E. subst x. rewrite !elem_of_cons, elem_of_nil in Hx. destruct Hx as [E|[E|[E|[]]]]; rewrite <-E; tauto.
  - intros H. exists (Some k). split; [|done]. rewrite !elem_of_cons. destruct H as [-> | [-> | ->]]; tauto.
Qed.

Lemma owns_slots w p k : owns w p k ↔ k ∈ slots_of (pe_keypairs (peer_at w p)).
Proof. by rewrite elem_of_slots. Qed.

(** States that agree on what the invariant reads. *)
Lemma index_exact_ext w w' :
  w_index w' = w_index w → dom (w_keypairs w) ⊆ dom (w_keypairs w') →
  (∀ k, kpi_of w' k = kpi_of w k) → (∀ p, pe_keypairs (peer_at w' p) = pe_keypairs (peer_at w p)) →
  (∀ p, li_of w' p = li_of w p) →
  (∀ p, active (hs_state (hs_of w' p)) → drawn R (li_of w p)) →
  index_exact w → index_exact w'.
Proof.
  intros Ei Hd Hk Hs Hl Ha [T A U B D N].
  assert (∀ p k, owns w' p k ↔ owns w p k) as Ho by (intros; unfold owns; by rewrite Hs).
  split.
  - rewrite Ei. eapply tbl_ok_ext; [exact T|done|done|]. intros ? k _. apply Hk.
  - intros p k H%Ho. eapply Hd, A, H.
  - intros p q k Hp%Ho Hq%Ho. by eapply U.
  - intros p H. rewrite Hl. by apply Ha.
  - intros p k H%Ho. rewrite Hk. by eapply D.
  - intros p. rewrite Hs. apply N.
Qed.

(** Keypairs of a peer that go away, one after the other. *)
Definition drops (kpi : KeypairRef → Z) (t : gmap Z IndexTableEntry) (ks : list KeypairRef) : gmap Z IndexTableEntry :=
  foldl (λ t k, delete (kpi k) t) t ks.

Lemma tbl_drops ks : ∀ t li kpi (own : PeerRef → KeypairRef → Prop) p,
  tbl_ok t li kpi own → (∀ k, k ∈ ks → own p k) → NoDup ks →
  tbl_ok (drops kpi t ks) li kpi (λ q l, own q l ∧ l ∉ ks).
Proof.
  induction ks as [|k ks IH]; intros t li kpi own p T Hks Hnd; cbn [drops foldl].
  { eapply tbl_ok_ext; [exact T|done| |done]. intros q l. cbn. split; [tauto|]. intros ?. split; [done|]. apply not_elem_of_nil. }
  apply NoDup_cons in Hnd as [Hk Hnd].
  eapply tbl_ok_ext; [eapply (IH _ _ _ (λ q l, own q l ∧ l ≠ k) p)|done| |done].
  - eapply tbl_drop; [exact T|apply Hks; by left|]. intros. cbn. tauto.
  - intros l Hl. split; [apply Hks; by right|]. by intros ->.
  - done.
  - intros q l. cbn. rewrite not_elem_of_cons. tauto.
Qed.

Lemma DeleteKeypair_index w k : w_index (DeleteKeypair w k) = drops (kpi_of w) (w_index w) (omap id [k]).
Proof. by destruct k. Qed.

(** Replacing the keypairs of a peer: what is dropped leaves the table, what stays or is
    new has its entry. *)
Lemma index_exact_rotate w w' p ks kps :
  (** the table has an entry for each keypair of [p] and for the new ones *)
  tbl_ok (w_index w) (li_of w) (kpi_of w) (λ q l, owns w q l ∨ q = p ∧ l ∈ slots_of kps) →
  (∀ q k, owns w q k → k ∈ dom (w_keypairs w)) → (∀ k, k ∈ slots_of kps → k ∈ dom (w_keypairs w)) →
  unshared w → (∀ q k, owns w q k → k ∈ slots_of kps → q = p) →
  (∀ q, active (hs_state (hs_of w q)) → drawn R (li_of w q)) →
  (∀ q k, owns w q k ∨ k ∈ slots_of kps → drawn R (kpi_of w k)) →
  (∀ q, NoDup (slots_of (pe_keypairs (peer_at w q)))) →
  NoDup ks → (∀ k, k ∈ ks → owns w p k) →
  (∀ k, k ∈ slots_of kps ↔ (owns w p k ∨ k ∈ slots_of kps) ∧ k ∉ ks) → NoDup (slots_of kps) →
  w' = upd_peer (set_index w (drops (kpi_of w) (w_index w) ks)) p (set_kps kps) →
  index_exact w'.
Proof.
  intros T A A' U U' B D N Hnd Hks Hslots Hnd' ->.
  assert (∀ q, pe_keypairs (peer_at (upd_peer (set_index w (drops (kpi_of w) (w_index w) ks)) p (set_kps kps)) q) =
    if decide (p = q) then kps else pe_keypairs (peer_at w q)) as Hkps.
  { intros q. rewrite peer_at_upd. by case_decide. }
  assert (∀ q, hs_of (upd_peer (set_index w (drops (kpi_of w) (w_index w) ks)) p (set_kps kps)) q = hs_of w q) as Hhs.
  { intros q. unfold hs_of. rewrite peer_at_upd. by case_decide; subst. }
  split.
  - eapply tbl_ok_ext; [eapply (tbl_drops ks _ _ _ _ p); [exact T|intros k Hk; left; by apply Hks|done]|..].
    + intros q. unfold li_of. by rewrite Hhs.
    + intros q l. rewrite owns_slots, Hkps. case_decide as Hq; [subst q|].
      * rewrite Hslots. cbn. naive_solver.
      * rewrite <-owns_slots. cbn. split; [intros Ho|naive_solver]. split; [by left|]. intros Hl%Hks.
        apply Hq. by eapply U.
    + done.
  - intros q k. rewrite owns_slots, Hkps. case_decide; [apply A'|]. rewrite <-owns_slots. apply A.
  - intros q q' k. rewrite !owns_slots, !Hkps. repeat case_decide; subst; rewrite <-?owns_slots; [done|intros ??; symmetry; by eapply U'|intros ??; by eapply U'|apply U].
  - intros q. unfold li_of. rewrite Hhs. apply B.
  - intros q k Ho. apply (D q). revert Ho. rewrite owns_slots, Hkps. case_decide; [by right|]. rewrite <-owns_slots. by left.
  - intros q. rewrite Hkps. by case_decide.
Qed.

(** ** Every step keeps the table exact *)

(** A random source that never fails. *)
Definition good_rnd (rnd : Entropy) : Prop := Forall (λ x, x.2 = true) rnd.

Lemma good_rnd_not_failed rnd rnd' : good_rnd rnd → rnd' ≠ [] → ¬ rnd_failed rnd rnd'.
Proof. intros Hg Hne [->|[b Hb]]; [done|]. apply (proj1 (Forall_forall _ _) Hg) in Hb. by cbn in Hb. Qed.

Lemma good_rnd_suffix rnd rnd' : rnd' `suffix_of` rnd → good_rnd rnd → good_rnd rnd'.
Proof. intros [l ->] H. by apply Forall_app in H as [_ H]. Qed.

Lemma index_exact_same w w' : core_eq w w' → index_exact w → index_exact w'.
Proof.
  intros H I. pose proof (λ p, hs_core_fields _ _ (ce_handshake _ _ H p)) as Hf.
  apply (index_exact_ext w w'); [apply H|by rewrite (ce_keypairs _ _ H)|..|done].
  - intros k. unfold kpi_of, keypair_at. by rewrite (ce_keypairs _ _ H).
  - apply H.
  - intros p. by destruct (Hf p) as (_ & _ & _ & _ & ?).
  - intros p. destruct (Hf p) as (_ & _ & _ & Hs & _). unfold hs_of in *. rewrite Hs. apply I.
Qed.

Lemma index_exact_changed w p rnd t st li w' : index_exact w → ¬ rnd_failed (w_rnd w) rnd →
  hs_changed w p rnd t st li w' → index_move w p rnd t li → (active st → drawn R li) → index_exact w'.
Proof.
  intros I Hnf (hash & ck & eph & ri & re & ->) Hm Hact. set (w' := upd_peer _ _ _).
  assert (∀ q, hs_of w' q = if decide (q = p) then hs_symmetric (hs_of w p) st hash ck eph li ri re else hs_of w q) as Hhs.
  { intros q. unfold hs_of, w'. rewrite peer_at_upd. destruct (decide (p = q)) as [->|]; [by rewrite decide_True|by rewrite decide_False]. }
  assert (∀ q, pe_keypairs (peer_at w' q) = pe_keypairs (peer_at w q)) as Hkps.
  { intros q. unfold w'. rewrite peer_at_upd. by case_decide; subst. }
  assert (∀ q, li_of w' q = if decide (q = p) then li else li_of w q) as Hli.
  { intros q. unfold li_of. rewrite Hhs. by case_decide. }
  assert (∀ q, active (hs_state (hs_of w' q)) → drawn R (li_of w' q)) as Ha.
  { intros q. rewrite Hli, Hhs. case_decide; [exact Hact|apply I]. }
  destruct Hm as [|i b Hb -> Hfree|i Hf]; [..|done].
  - apply (index_exact_ext w w'); [done..| | |done].
    + intros q. rewrite Hli. by case_decide; subst.
    + intros q H. apply Ha in H. rewrite Hli in H. by case_decide; subst.
  - pose proof (tbl_new _ _ _ _ p (uint32_of b) (li_of w') (ix_tbl _ I) Hfree Hli) as T.
    assert (∀ q k, owns w' q k ↔ owns w q k) as Ho by (intros; unfold owns; by rewrite Hkps).
    split; [|intros q k Hk%Ho; by eapply I|intros q q' k Hk%Ho Hk'%Ho; by eapply (ix_unshared _ I)|done|
      intros q k Hk%Ho; by eapply (ix_drawn _ I)|intros q; rewrite Hkps; apply I].
    by eapply tbl_ok_ext; [exact T|done|..].
Qed.

(** The table and the slots after [rotate]. *)
Definition rotated (kps : Keypairs) (k : KeypairRef) (isInitiator : bool) : list (option KeypairRef) * Keypairs :=
  if isInitiator then
    match kps_next kps with
    | Some n => ([kps_current kps; kps_previous kps], mkKeypairs (Some k) (Some n) None)
    | None => ([kps_previous kps], mkKeypairs (Some k) (kps_current kps) None)
    end
  else ([kps_next kps; kps_previous kps], mkKeypairs (kps_current kps) None (Some k)).

Lemma rotate_eq w p k b : let '(ks, kps) := rotated (pe_keypairs (peer_at w p)) k b in
  rotate w p k b = upd_peer (set_index w (drops (kpi_of w) (w_index w) (omap id ks))) p (set_kps kps).
Proof.
  unfold rotated, rotate. destruct (pe_keypairs (peer_at w p)) as [cur prev next] eqn:E. cbn [kps_current kps_previous kps_next].
  assert (set_index w (w_index w) = w) as Hid by by destruct w.
  destruct b, next as [n|], cur as [c|], prev as [r|]; cbn; rewrite ?Hid; done.
Qed.

Lemma rotated_spec kps k b : k ∉ slots_of kps → NoDup (slots_of kps) →
  let '(ks, kps') := rotated kps k b in
  NoDup (omap id ks) ∧ (∀ l, l ∈ omap id ks → l ∈ slots_of kps) ∧ NoDup (slots_of kps') ∧
  (∀ l, l ∈ slots_of kps' ↔ (l ∈ slots_of kps ∨ l = k) ∧ l ∉ omap id ks).
Proof.
  destruct kps as [cur prev next]. unfold slots_of, rotated. cbn [kps_current kps_previous kps_next].
  destruct b, next as [n|], cur as [c|], prev as [r|]; cbn; rewrite ?NoDup_cons, ?not_elem_of_cons; intros Hk Hnd;
    split_and!; rewrite ?NoDup_cons, ?not_elem_of_cons; try set_solver; try apply NoDup_nil_2; naive_solver.
Qed.

Section exact.
Context `{MR : MapRange} `{CR : Crypto} `{CL : !CryptoLaws}.

Lemma index_exact_begin w p w' : BeginSymmetricSession w p = (true, w') → index_exact w → index_exact w'.
Proof.
  intros H I. unfold BeginSymmetricSession in H. cbv zeta in H.
  assert (active (hs_state (hs_of w p)) ∧ ∃ sk rk b,
    match hs_state (pe_handshake (peer_at w p)) with
    | handshakeResponseConsumed => let '(send, recv) := KDF2 (hs_chainKey (pe_handshake (peer_at w p))) [] in Some (send, recv, true)
    | handshakeResponseCreated => let '(recv, send) := KDF2 (hs_chainKey (pe_handshake (peer_at w p))) [] in Some (send, recv, false)
    | _ => None
    end = Some (sk, rk, b)) as (Hact & sk & rk & b & E).
  { unfold active, hs_of. destruct (hs_state _); try done; destruct (KDF2 _ _) as [a c]; eauto 10. }
  rewrite E in H. clear E. injection H as <-.
  set (li := hs_localIndex (pe_handshake (peer_at w p))). set (k := new_ref w).
  assert (∀ j, j ≠ 0 → SwapIndexForKeypair (w_index w) li k !! j = <[li := kp_entry p k]> (w_index w) !! j) as Eswap.
  { intros j Hj. unfold SwapIndexForKeypair. change li with (li_of w p). destruct (decide (li_of w p = 0)) as [E0|Hn].
    - rewrite E0, lookup_insert_ne by done. destruct (w_index w !! 0); [by rewrite lookup_insert_ne|done].
    - by rewrite (tb_hs _ _ _ _ (ix_tbl _ I) p Hn). }
  assert (k ∉ dom (w_keypairs w)) as Hfresh by apply (is_fresh (dom (w_keypairs w))).
  assert (∀ q, ¬ owns w q k) as Hno by (intros q Ho; by apply Hfresh, (ix_alloc _ I q)).
  match goal with |- index_exact (rotate ?w1 _ _ _) => set (w3 := w1) end.
  assert (∀ q, hs_of w3 q = if decide (q = p) then hs_of w3 p else hs_of w q) as Hhs.
  { intros q. case_decide; [by subst|]. unfold hs_of, w3. by rewrite peer_at_upd_ne by done. }
  assert (li_of w3 p = 0 ∧ hs_state (hs_of w3 p) = handshakeZeroed) as [Hl0 Hs0].
  { unfold li_of, hs_of, w3. rewrite !peer_at_upd_eq. done. }
  assert (∀ q, pe_keypairs (peer_at w3 q) = pe_keypairs (peer_at w q)) as Hkps.
  { intros q. unfold w3. rewrite peer_at_upd. by case_decide; subst. }
  assert (∀ q l, owns w3 q l ↔ owns w q l) as Hown by (intros; unfold owns; by rewrite Hkps).
  assert (∀ l, kpi_of w3 l = if decide (l = k) then li else kpi_of w l) as Hkpi.
  { intros l. unfold kpi_of, w3, keypair_at. cbn. case_decide; [subst; by rewrite lookup_total_insert_eq|by rewrite lookup_total_insert_ne]. }
  assert (tbl_ok (w_index w3) (li_of w3) (kpi_of w3) (λ q l, owns w q l ∨ q = p ∧ l = k)) as T.
  { apply (tbl_swap (w_index w) _ (li_of w) (kpi_of w) (owns w) p k); [apply I|done|exact Eswap| |exact Hkpi|done].
    intros q. unfold li_of. rewrite Hhs. case_decide; [exact Hl0|done]. }
  assert (k ∉ slots_of (pe_keypairs (peer_at w3 p))) as Hks by (rewrite Hkps, <-owns_slots; apply Hno).
  pose proof (rotate_eq w3 p k b) as Er.
  pose proof (rotated_spec (pe_keypairs (peer_at w3 p)) k b Hks) as Hr. rewrite Hkps in Hr at 1. specialize (Hr (ix_slots _ I p)).
  destruct (rotated _ _ _) as [ks kps]. destruct Hr as (N1 & Hin & N2 & Hsl).
  assert (dom (w_keypairs w3) = {[k]} ∪ dom (w_keypairs w)) as Hdom by apply dom_insert_L.
  assert (∀ l, l ∈ slots_of kps → l = k ∨ owns w p l) as Hsub.
  { intros l [[Hl| ->] _]%Hsl; [|by left]. right. by rewrite <-Hown, owns_slots. }
  apply (index_exact_rotate w3 _ p (omap id ks) kps); [..|exact Er]; try done.
  - eapply tbl_ok_ext; [exact T|done| |done]. intros q l. cbn. rewrite Hown. split; [|naive_solver].
    intros [?|[-> Hl%Hsub]]; naive_solver.
  - intros q l Hl%Hown. rewrite Hdom. apply (ix_alloc _ I) in Hl. set_solver.
  - intros l [->|Hl%(ix_alloc _ I)]%Hsub; rewrite Hdom; set_solver.
  - intros q q' l Hq%Hown Hq'%Hown. by eapply (ix_unshared _ I).
  - intros q l Hq%Hown [->|Hl]%Hsub; [by destruct (Hno q)|by eapply (ix_unshared _ I)].
  - intros q. unfold li_of. rewrite Hhs. case_decide; [rewrite Hs0; unfold active; naive_solver|apply I].
  - assert (∀ q l, owns w q l → drawn R (kpi_of w3 l)) as Hd.
    { intros q l Ho. rewrite Hkpi, decide_False; [by eapply (ix_drawn _ I)|]. intros ->. by destruct (Hno q). }
    intros q l [Hl%Hown|[->|Hl]%Hsub]; [by eapply Hd| |by eapply Hd]. rewrite Hkpi, decide_True by done. by apply I.
  - intros q. rewrite Hkps. apply I.
  - intros l Hl%Hin. by rewrite owns_slots.
  - intros l. rewrite owns_slots. specialize (Hsl l). tauto.
Qed.

Lemma index_exact_received w p k w' : ReceivedWithKeypair w p k = (true, w') → index_exact w → index_exact w'.
Proof.
  unfold ReceivedWithKeypair. intros H I. case_bool_decide as Hn; [done|]. cbv zeta in H. injection H as <-.
  pose proof (ix_slots _ I p) as N. destruct (pe_keypairs (peer_at w p)) as [cur prev next] eqn:Ek. cbn [kps_next kps_previous kps_current] in *.
  subst next.
  assert (∀ l, l ∈ slots_of (mkKeypairs (Some k) cur None) → owns w p l) as Hsub.
  { intros l Hl. apply elem_of_slots in Hl. rewrite owns_slots, Ek, elem_of_slots. cbn in *. destruct Hl as [?|[?|[=]]]; tauto. }
  apply (index_exact_rotate w _ p (omap id [prev]) (mkKeypairs (Some k) cur None)).
  - eapply tbl_ok_ext; [apply I|done| |done]. intros q l. cbv beta. split; [|by left]. intros [?|[-> Hl]]; [done|by apply Hsub].
  - apply I.
  - intros l Hl%Hsub. by apply (ix_alloc _ I p).
  - apply I.
  - intros q l Hq Hl%Hsub. by eapply (ix_unshared _ I).
  - apply I.
  - intros q l [Hq|Hl%Hsub]; by eapply (ix_drawn _ I).
  - apply I.
  - destruct prev; cbn; [apply NoDup_singleton|apply NoDup_nil_2].
  - intros l. rewrite owns_slots, Ek. rewrite elem_of_slots. destruct prev; cbn; set_solver.
  - intros l. rewrite owns_slots, Ek. unfold slots_of in *. destruct prev, cur; cbn in *; rewrite ?NoDup_cons, ?not_elem_of_cons in *; set_solver.
  - unfold slots_of in *. destruct prev, cur; cbn in *; rewrite ?NoDup_cons, ?not_elem_of_cons in *; set_solver.
  - destruct prev; [done|]. by destruct w.
Qed.

(** Ending the handshake of a peer. *)
Lemma index_exact_clear w p h w' : index_exact w → hs_localIndex h = 0 → ¬ active (hs_state h) →
  w_keypairs w' = w_keypairs w → w_index w' = delete (li_of w p) (w_index w) →
  (∀ q, pe_keypairs (peer_at w' q) = pe_keypairs (peer_at w q)) →
  (∀ q, hs_of w' q = if decide (q = p) then h else hs_of w q) → index_exact w'.
Proof.
  intros I H0 Hna Ek Ei Hkps Hhs.
  assert (∀ q l, owns w' q l ↔ owns w q l) as Hown by (intros; unfold owns; by rewrite Hkps).
  split.
  - rewrite Ei. eapply tbl_ok_ext; [apply (tbl_clear _ _ _ _ p (li_of w') (ix_tbl _ I))|done|exact Hown|].
    + intros q. unfold li_of. rewrite Hhs. by case_decide.
    + intros. unfold kpi_of, keypair_at. by rewrite Ek.
  - intros q k Ho%Hown. rewrite Ek. by eapply I.
  - intros q q' k Hq%Hown Hq'%Hown. by eapply (ix_unshared _ I).
  - intros q. unfold li_of. rewrite Hhs. case_decide; [done|apply I].
  - intros q k Ho%Hown. unfold kpi_of, keypair_at. rewrite Ek. by eapply (ix_drawn _ I).
  - intros q. rewrite Hkps. apply I.
Qed.

Lemma index_exact_zero w p : index_exact w → index_exact (zero_keys w p).
Proof.
  intros I. unfold zero_keys. cbv zeta.
  set (kps := pe_keypairs (peer_at w p)).
  set (w1 := upd_peer _ p (set_kps _)).
  assert (index_exact w1) as I1.
  { apply (index_exact_rotate w _ p (omap id [kps_previous kps; kps_current kps; kps_next kps]) (mkKeypairs None None None)).
    - eapply tbl_ok_ext; [apply I|done| |done]. intros q l. cbn. rewrite elem_of_nil. tauto.
    - apply I.
    - intros k Hk. by apply elem_of_nil in Hk.
    - apply I.
    - intros q k _ Hk. by apply elem_of_nil in Hk.
    - apply I.
    - intros q k [Hk|Hk]; [by eapply (ix_drawn _ I)|by apply elem_of_nil in Hk].
    - apply I.
    - pose proof (ix_slots _ I p) as N. fold kps in N. unfold slots_of in N.
      destruct kps as [[] [] []]; cbn in *; rewrite ?NoDup_cons, ?not_elem_of_cons in *; set_solver.
    - intros k. rewrite owns_slots. fold kps. rewrite elem_of_slots. destruct kps as [[] [] []]; cbn; set_solver.
    - intros k. rewrite owns_slots. fold kps. unfold slots_of. destruct kps as [[] [] []]; cbn; set_solver.
    - apply NoDup_nil_2.
    - unfold w1. assert (set_index w (w_index w) = w) as Hid by by destruct w.
      destruct kps as [[] [] []]; cbn; rewrite ?Hid; done. }
  apply (index_exact_clear w1 p (Handshake_Clear (hs_of w1 p))); [done|done|unfold active; cbn; naive_solver|done|done|..].
  - intros q. rewrite peer_at_upd. by case_decide; subst.
  - intros q. unfold hs_of. rewrite peer_at_upd. destruct (decide (p = q)) as [->|]; [by rewrite decide_True|by rewrite decide_False].
Qed.

Lemma kpi_of_upd w k f l : (∀ kp, kp_localIndex (f kp) = kp_localIndex kp) → kpi_of (upd_keypair w k f) l = kpi_of w l.
Proof.
  intros Hf. unfold kpi_of. destruct (decide (k = l)) as [->|]; [by rewrite keypair_at_upd_eq, Hf|by rewrite keypair_at_upd_ne].
Qed.

Lemma index_exact_keypair w k f : (∀ kp, kp_localIndex (f kp) = kp_localIndex kp) → index_exact w → index_exact (upd_keypair w k f).
Proof.
  intros Hf I. apply (index_exact_ext w); [done|cbn; rewrite dom_insert; set_solver|intros; by apply kpi_of_upd|done|done|apply I|done].
Qed.

Lemma index_exact_expire w p : index_exact w → index_exact (ExpireCurrentKeypairs w p).
Proof.
  intros I. unfold ExpireCurrentKeypairs. cbv zeta.
  set (w1 := upd_peer (set_index _ _) p _).
  assert (index_exact w1) as I1.
  { apply (index_exact_clear w p (Handshake_Clear (hs_of w p))); [done|done|unfold active; cbn; naive_solver|done|done|..].
    - intros q. unfold w1. rewrite peer_at_upd. by case_decide; subst.
    - intros q. unfold hs_of, w1. rewrite peer_at_upd. destruct (decide (p = q)) as [->|]; [by rewrite decide_True|by rewrite decide_False]. }
  set (w2 := upd_peer w1 p _).
  assert (index_exact w2) as I2 by (apply (index_exact_same w1); [by apply core_eq_upd_peer|done]).
  repeat case_goal; auto using index_exact_keypair.
Qed.

(** Every core step, with a random source that works. *)
Lemma core_step_rnd w w' : core_step w w' → w_rnd w' `suffix_of` w_rnd w.
Proof.
  intros [w1 H|p m w1 H|m p w1 H|p m w1 H|m p w1 H|p w1 H|p k w1 H|p|p|p k elems queue H|k c Hc|pk p w1 H|m H|sk pk cc].
  - apply H.
  - by apply initiate_effect in H as (rnd & ? & ? & ? & (? & ? & ? & ? & ? & ->) & Hs & _).
  - by apply ConsumeMessageInitiation_iff in H as (? & ? & ? & _ & _ & _ & ->).
  - by apply respond_effect in H as [[_ ->]|(rnd & ? & ? & ? & (? & ? & ? & ? & ? & ->) & Hs & _)].
  - by apply consume_response_effect in H as [->|(? & ? & ? & ? & ? & _ & _ & _ & ->)].
  - unfold BeginSymmetricSession in H. cbv zeta in H. repeat case_hyp H; simplify_eq;
      match goal with |- context [rotate ?w1 ?q ?k ?b] => by destruct (rotate_spec w1 q k b) as (t & kps & -> & _) end.
  - unfold ReceivedWithKeypair in H. repeat case_hyp H; simplify_eq.
    by match goal with |- context [DeleteKeypair ?w1 ?k] => destruct (DeleteKeypair_frame w1 k) as [? ->] end.
  - unfold zero_keys. cbv zeta.
    by repeat match goal with |- context [DeleteKeypair ?w1 ?k] => destruct (DeleteKeypair_frame w1 k) as [? ->] end.
  - unfold ExpireCurrentKeypairs. cbv zeta. by repeat case_goal.
  - unfold number_elems. destruct (assign_nonces _ _ _) as [[kept late] n]. by destruct queue.
  - done.
  - unfold NewPeer in H. by repeat case_hyp H; simplify_eq.
  - done.
  - unfold rekey. by apply (foldl_ind (λ v, w_rnd v `suffix_of` w_rnd w)).
Qed.

(** A peer whose handshake changes, but not its index. *)
Lemma index_exact_hs w p h : index_exact w → hs_localIndex h = li_of w p → (active (hs_state h) → drawn R (li_of w p)) →
  index_exact (upd_peer w p (set_hs h)).
Proof.
  intros I Hl Ha.
  apply (index_exact_ext w); [done|done|done|..|done]; intros q; unfold li_of, hs_of; rewrite peer_at_upd;
    destruct (decide (p = q)) as [->|]; try done. apply I.
Qed.

Lemma index_exact_number w p k elems queue : index_exact w → index_exact (number_elems w p k elems queue).
Proof.
  intros I. unfold number_elems. destruct (assign_nonces _ _ _) as [[kept late] n].
  assert (index_exact (upd_keypair w k (set_sendNonce n))) as I1 by by apply index_exact_keypair.
  destruct queue; [|done].
  apply (index_exact_ext (upd_keypair w k (set_sendNonce n))); [done|done|done|..|done]; intros q; unfold li_of, hs_of;
    rewrite peer_at_upd; destruct (decide (p = q)) as [->|]; try done; apply I1.
Qed.

Lemma index_exact_new_peer w pk p w' : NewPeer w pk = (inr p, w') → index_exact w → index_exact w'.
Proof.
  intros H I. assert (p ∉ dom (w_peers w)) as Hfresh by by apply NewPeer_spec in H as [? _].
  assert (peer_at w p = new_Peer) as H0.
  { unfold peer_at. rewrite lookup_total_alt. by rewrite (proj1 (not_elem_of_dom _ _) Hfresh). }
  unfold NewPeer in H. repeat case_hyp H; simplify_eq. set (q0 := fresh _) in *.
  apply (index_exact_ext w); [done|done|done|..|done]; intros q; unfold li_of, hs_of; 
    (destruct (decide (q0 = q)) as [<-|Hne]; [rewrite ?H0|]); unfold peer_at; cbn.
  all: rewrite ?lookup_total_insert_eq, ?lookup_total_insert_ne by done; try done.
  - unfold active. cbn. naive_solver.
  - apply I.
Qed.

Lemma core_step_exact w w' : core_step w w' → w_rnd w `suffix_of` R → good_rnd (w_rnd w) → w_rnd w' ≠ [] → index_exact w → index_exact w'.
Proof.
  intros Hc HR Hg Hne I. assert (∀ i, drawn (w_rnd w) i → drawn R i) as Hdr by (intros i (b & Hb & ->); exists b; split; [by eapply elem_of_suffix|done]).
  pose proof (good_rnd_not_failed _ _ Hg Hne) as Hnf.
  destruct Hc as [w1 H|p m w1 H|m p w1 H|p m w1 H|m p w1 H|p w1 H|p k w1 H|p|p|p k elems queue H|k c Hc|pk p w1 H|m H|sk pk cc].
  - by apply (index_exact_same w).
  - apply initiate_effect in H as (rnd & t & st & li & Hch & _ & Hm & Hcase).
    assert (w_rnd w1 = rnd) as Er by (by destruct Hch as (? & ? & ? & ? & ? & ->)). rewrite Er in *.
    apply (index_exact_changed w p rnd t st li); try done.
    destruct Hcase as [(_ & Hd & _)|(-> & -> & _)]; [auto|apply I].
  - apply ConsumeMessageInitiation_iff in H as (ts & ck & hash & _ & _ & _ & ->).
    apply index_exact_hs; [done|done|]. unfold active. cbn. naive_solver.
  - apply respond_effect in H as [[_ ->]|(rnd & t & st & li & Hch & _ & Hm & Hst & Hcase)]; [done|].
    assert (w_rnd w1 = rnd) as Er by (by destruct Hch as (? & ? & ? & ? & ? & ->)). rewrite Er in *.
    apply (index_exact_changed w p rnd t st li); try done.
    destruct Hcase as [(_ & Hd & _)|(-> & Hf)]; [auto|done].
  - apply consume_response_effect in H as [->|(q & e & hash & ck & ri & _ & _ & Hst & ->)]; [done|].
    apply index_exact_hs; [done|done|]. intros _. apply I. rewrite Hst. by left.
  - by eapply index_exact_begin.
  - by eapply index_exact_received.
  - by apply index_exact_zero.
  - by apply index_exact_expire.
  - by apply index_exact_number.
  - by apply index_exact_keypair.
  - by eapply index_exact_new_peer.
  - by apply (index_exact_ext w); try apply I.
  - unfold rekey. apply (foldl_ind index_exact); [by apply (index_exact_ext w); try apply I|].
    intros v [key p] _ Iv. unfold precompute. cbn [fst snd].
    apply (index_exact_ext v); [done|done|done|..|done]; intros q; unfold li_of, hs_of; rewrite peer_at_upd;
      destruct (decide (p = q)) as [->|]; try done; apply Iv.
Qed.

Lemma steps_rnd w w' : steps w w' → w_rnd w' `suffix_of` w_rnd w.
Proof. induction 1 as [|w1 w2 w3 H _ IH]; [done|]. etrans; [exact IH|by apply core_step_rnd]. Qed.

Lemma steps_exact w w' : steps w w' → w_rnd w `suffix_of` R → good_rnd (w_rnd w) → w_rnd w' ≠ [] → index_exact w → index_exact w'.
Proof.
  induction 1 as [|w1 w2 w3 H Hs IH]; intros HR Hg Hne I; [done|].
  assert (w_rnd w2 ≠ []) by (intros E; apply Hne; apply steps_rnd in Hs; rewrite E in Hs; by apply suffix_nil_inv in Hs).
  pose proof (core_step_rnd _ _ H) as Hsuf.
  apply IH; [by etrans|by eapply good_rnd_suffix|done|by eapply core_step_exact].
Qed.

(** A device without peers. *)
Lemma index_exact_empty w : w_index w = ∅ → w_peers w = ∅ → index_exact w.
Proof.
  intros Ei Ep.
  assert (∀ p, peer_at w p = new_Peer) as H0 by (intros p; unfold peer_at; by rewrite Ep, lookup_total_empty).
  assert (∀ p k, ¬ owns w p k) as Hno by (intros p k; unfold owns; rewrite H0; cbn; naive_solver).
  assert (∀ p, li_of w p = 0) as Hli by (intros p; unfold li_of, hs_of; by rewrite H0).
  split.
  - split; rewrite Ei; [by intros| |by intros p k ?%Hno]. intros p Hp. by rewrite Hli in Hp.
  - by intros p k ?%Hno.
  - by intros p q k ?%Hno.
  - intros p. unfold hs_of. rewrite H0. cbn. unfold active. naive_solver.
  - by intros p k ?%Hno.
  - intros p. rewrite H0. apply NoDup_nil_2.
Qed.

End exact.
End devices.

(** C6: whatever a device does from the moment it is created, and in whichever order
    datagrams, timers and reconfigurations come: under every index but zero, its index table has exactly one
    entry for each handshake under way and for each keypair of a peer, under
    the index that was announced to the other side, and nothing else; so a response or a
    data packet is matched with the peer it is for, and dead keys cannot be reached.  Each of these
    indices was drawn from the random source, which does not fail, as [crypto/rand] documents, and
    which was not used up.  Zero, which it may draw as well, stands for no index in the code: the
    entry of a handshake with index zero can be lost ([IndexDemo.index_zero_dropped]). *)
Theorem index_table_exact `{MR : MapRange} `{CR : Crypto} `{CL : !CryptoLaws}
    (filters : list TCFilter) (mpls : option (Z * Z)) (w w' : World) (evs : list DeviceEvent) :
  w_index w = ∅ → w_peers w = ∅ → good_rnd (w_rnd w) →
  run_events filters mpls w evs = Some w' → w_rnd w' ≠ [] →
  (∀ p, active (hs_state (hs_of w' p)) →
     drawn (w_rnd w) (hs_localIndex (hs_of w' p)) ∧
     (hs_localIndex (hs_of w' p) ≠ 0 → Index_Lookup (w_index w') (hs_localIndex (hs_of w' p)) = hs_entry p)) ∧
  (∀ p k, owns w' p k →
     drawn (w_rnd w) (kp_localIndex (keypair_at w' k)) ∧
     (kp_localIndex (keypair_at w' k) ≠ 0 → Index_Lookup (w_index w') (kp_localIndex (keypair_at w' k)) = kp_entry p k)) ∧
  (∀ i e, i ≠ 0 → w_index w' !! i = Some e →
     (∃ p, e = hs_entry p ∧ hs_localIndex (hs_of w' p) = i) ∨
     (∃ p k, e = kp_entry p k ∧ owns w' p k ∧ kp_localIndex (keypair_at w' k) = i)).
Proof.
  intros Ei Ep Hg Hrun Hne.
  assert (index_exact (w_rnd w) w') as I.
  { apply (steps_exact (w_rnd w) w w'); [by eapply run_events_steps|done|done|done|by apply index_exact_empty]. }
  split_and!.
  - intros p Ha. split; [by apply I|]. intros Hn. unfold Index_Lookup. fold (li_of w' p). by rewrite (tb_hs _ _ _ _ (ix_tbl _ _ I) p Hn).
  - intros p k Ho. split; [by eapply (ix_drawn _ _ I)|]. intros Hn. unfold Index_Lookup. fold (kpi_of w' k). by rewrite (tb_kp _ _ _ _ (ix_tbl _ _ I) p k Ho Hn).
  - apply (tb_entry _ _ _ _ (ix_tbl _ _ I)).
Qed.

(** ** Demonstration *)

Module IndexDemo.

#[local] Existing Instances sorted_range ToyCrypto.toy ToyCrypto.toy_laws.
Import SessionDemo HandshakeDemo.

Definition last : World := run A0 events_A2.

Lemma index_table_exact_witness :
  Index_Lookup (w_index last) (kp_localIndex (keypair_at last 0)) = kp_entry 0 0 ∧ kp_localIndex (keypair_at last 0) = 67305985.
Proof.
  destruct (index_table_exact filters None A0 last events_A2) as (_ & H & _).
  - reflexivity.
  - reflexivity.
  - repeat constructor.
  - apply HandshakeDemo.survived. vm_compute. reflexivity.
  - vm_compute. discriminate.
  - split; [apply (H 0%nat 0%nat); [left; vm_compute; reflexivity|vm_compute; discriminate]|vm_compute; reflexivity].
Defined.

(** A device with two peers whose random source yields index zero for the first of them. *)
Definition two_peers : World :=
  run (start skA 167772161 [(replicate 32 5, true); ([0; 0; 0; 0], true); (replicate 32 6, true); ([1; 2; 3; 4], true); ([], true)])
    [EvNewPeer (publicKey skB); EvNewPeer (publicKey (clamp (replicate 32 13))); EvStartPeer 0; EvStartPeer 1; EvHandshakeTo 0 1].

(** The index of the first peer is lost when the second one, which has none, starts a
    handshake: zero stands for no index, and is deleted. *)
Lemma index_zero_dropped :
  hs_state (hs_of two_peers 0) = handshakeInitiationCreated ∧ w_index two_peers !! hs_localIndex (hs_of two_peers 0) = Some (hs_entry 0) ∧
  let w := run two_peers [EvHandshakeTo 1 1] in
  hs_state (hs_of w 0) = handshakeInitiationCreated ∧ w_index w !! hs_localIndex (hs_of w 0) = None.
Proof. cbv zeta. split_and!; vm_compute; reflexivity. Qed.

End IndexDemo.
