(* ===== verification/WgNonce.v ===== *)
(** Sequence numbers of a WireGuard device: a keypair never encrypts two packets with the
    same number, and never uses a number of the last ones. *)

From S2P Require Import Prelude Bytes NetIP Float64 Metric Routing Endpoint Packet RouterAlgo Config External RouterIO Unicast AllowedIPs RateLimiter Replay Crypto Messages Cookie WireGuard WgSend WgReceive HandshakeProps WgCore WgEvents WgReplay.

(** ** What is encrypted *)

(** The keypair and the number a packet is to be encrypted with. *)
Definition stamped (e : QueueOutboundElement) : option (KeypairRef * Z) := k ← oe_keypair e; Some (k, oe_nonce e).

(** What waits in the outbound queue of a peer. *)
Definition queued (w : World) (p : PeerRef) : list (KeypairRef * Z) := omap stamped (concat (pe_outbound (peer_at w p))).

(** What an event takes out of the queue to encrypt and send. *)
Definition encrypted (w : World) (ev : DeviceEvent) : list (KeypairRef * Z) :=
  match ev with
  | EvOutbound p => omap stamped (default [] (head (pe_outbound (peer_at w p))))
  | _ => []
  end.

Section log.
Context `{MR : MapRange} `{CR : Crypto} (filters : list TCFilter) (mpls : option (Z * Z)).

(** The keypair and the number of each packet that a run encrypts, in order. *)
Fixpoint encryptions (w : World) (evs : list DeviceEvent) : list (KeypairRef * Z) :=
  match evs with
  | [] => []
  | ev :: evs => encrypted w ev ++ match handle filters mpls w ev with Some w => encryptions w evs | None => [] end
  end.

End log.

(** ** Numbering *)

Lemma assign_nonces_spec k elems : ∀ n kept late n', assign_nonces k n elems = (kept, late, n') → 0 <= n <= RejectAfterMessages →
  n + Z.of_nat (length kept) <= n' <= RejectAfterMessages ∧ omap stamped kept = pair k <$> seqZ n (Z.of_nat (length kept)) ∧
  (late = [] ∨ n' = RejectAfterMessages).
Proof.
  induction elems as [|e elems IH]; intros n kept late n'; cbn [assign_nonces].
  { intros [= <- <- <-] Hn. cbn. split_and!; [lia..|done|by left]. }
  intros H Hn. assert (uint64 (uint64 (n + 1) - 1) = n ∧ uint64 (n + 1) = n + 1) as [E1 E2].
  { assert (n + 1 < 2 ^ 64) by (change RejectAfterMessages with 18446744073709543423 in Hn; lia).
    assert (uint64 (n + 1) = n + 1) as E2 by (apply wrap_small; unfold in_width; lia).
    rewrite E2, Z.add_simpl_r. split; [apply wrap_small; unfold in_width; lia|done]. }
  rewrite E1, E2 in H. destruct (Z.leb_spec RejectAfterMessages n) as [Hle|Hlt].
  - destruct (assign_nonces k RejectAfterMessages elems) as [[kept1 late1] n1] eqn:E. injection H as <- <- <-.
    assert (n = RejectAfterMessages) as -> by lia. apply IH in E as (Hb & He & _); [|done]. split_and!; [lia..|done|right; lia].
  - destruct (assign_nonces k (n + 1) elems) as [[kept1 late1] n1] eqn:E. injection H as <- <- <-.
    apply IH in E as (Hb & He & Hl); [|lia]. cbn [length omap]. split_and!; [lia..| |done].
    rewrite Nat2Z.inj_succ, seqZ_cons by lia. rewrite Z.pred_succ. cbn. f_equal. exact He.
Qed.

(** ** The invariant *)

Definition send_nonce (w : World) (k : KeypairRef) : Z := kp_sendNonce (keypair_at w k).

(** A number that a keypair has given out. *)
Definition given (w : World) (x : KeypairRef * Z) : Prop := x.1 ∈ dom (w_keypairs w) ∧ 0 <= x.2 < send_nonce w x.1.

Record nonces_ok (log : list (KeypairRef * Z)) (w : World) : Prop := {
  no_range : ∀ k, 0 <= send_nonce w k <= RejectAfterMessages;
  no_log : NoDup log;
  no_log_given : ∀ x, x ∈ log → given w x;
  no_queued : ∀ p, NoDup (queued w p);
  no_queued_given : ∀ p x, x ∈ queued w p → given w x ∧ x ∉ log;
  no_apart : ∀ p q x, x ∈ queued w p → x ∈ queued w q → p = q;
}.

(** The counters go up, and nothing enters the outbound queues. *)
Record counters_kept (w w' : World) : Prop := {
  ck_range : (∀ k, 0 <= send_nonce w k <= RejectAfterMessages) → ∀ k, 0 <= send_nonce w' k <= RejectAfterMessages;
  ck_dom : dom (w_keypairs w) ⊆ dom (w_keypairs w');
  ck_mono : (∀ k, 0 <= send_nonce w k <= RejectAfterMessages) → ∀ k, k ∈ dom (w_keypairs w) → send_nonce w k <= send_nonce w' k;
  ck_outbound : ∀ p, pe_outbound (peer_at w' p) `suffix_of` pe_outbound (peer_at w p);
}.

Lemma queued_suffix w w' p : pe_outbound (peer_at w' p) `suffix_of` pe_outbound (peer_at w p) → ∃ l, queued w p = l ++ queued w' p.
Proof. intros [l E]. unfold queued. rewrite E, concat_app, omap_app. eauto. Qed.

Lemma given_mono w w' x : (∀ k, 0 <= send_nonce w k <= RejectAfterMessages) → counters_kept w w' → given w x → given w' x.
Proof.
  intros Hr C [Hd Hx]. split; [by apply (ck_dom _ _ C)|]. pose proof (ck_mono _ _ C Hr _ Hd). lia.
Qed.

Lemma nonces_ok_kept log w w' : counters_kept w w' → nonces_ok log w → nonces_ok log w'.
Proof.
  intros C [R L LG Q QG AP].
  assert (∀ p x, x ∈ queued w' p → x ∈ queued w p) as Hsub.
  { intros p x Hx. destruct (queued_suffix w w' p (ck_outbound _ _ C p)) as [l ->]. apply elem_of_app. by right. }
  split.
  - by apply (ck_range _ _ C).
  - done.
  - intros x Hx. apply (given_mono w); auto.
  - intros p. specialize (Q p). destruct (queued_suffix w w' p (ck_outbound _ _ C p)) as [l E]. rewrite E in Q.
    by apply NoDup_app in Q as (_ & _ & Q).
  - intros p x Hx%Hsub. split; [apply (given_mono w); [done|done|]|]; by eapply QG.
  - intros p q x Hp%Hsub Hq%Hsub. by eapply AP.
Qed.

Lemma send_nonce_upd w k f l : send_nonce (upd_keypair w k f) l = if decide (k = l) then kp_sendNonce (f (keypair_at w k)) else send_nonce w l.
Proof. unfold send_nonce. case_decide as E; [subst; by rewrite keypair_at_upd_eq|by rewrite keypair_at_upd_ne]. Qed.

Lemma dom_upd_keypair w k f : dom (w_keypairs w) ⊆ dom (w_keypairs (upd_keypair w k f)).
Proof. cbn. rewrite dom_insert. apply union_subseteq_r. Qed.

(** A keypair whose counter goes up. *)
Lemma counters_kept_upd w k f :
  ((∀ l, 0 <= send_nonce w l <= RejectAfterMessages) → send_nonce w k <= kp_sendNonce (f (keypair_at w k)) <= RejectAfterMessages) →
  counters_kept w (upd_keypair w k f).
Proof.
  intros Hf. split; [|apply dom_upd_keypair| |done]; intros Hr l; specialize (Hf Hr); pose proof (Hr l); rewrite send_nonce_upd;
    case_decide; subst; lia.
Qed.

(** Numbering adds to the queue what the counter gives out. *)
Lemma nonces_ok_push log w w1 p k l kept :
  nonces_ok log w → counters_kept w w1 → (∀ q, queued w1 q = queued w q) → k ∈ dom (w_keypairs w1) →
  omap stamped kept = pair k <$> seqZ (send_nonce w k) (Z.of_nat l) → send_nonce w k + Z.of_nat l <= send_nonce w1 k →
  nonces_ok log (upd_peer w1 p (λ pe, set_queues (pe_staged pe) (pe_outbound pe ++ [kept]) (pe_inbound pe) pe)).
Proof.
  intros N C Hq Hk Hkept Hl. pose proof (nonces_ok_kept _ _ _ C N) as [R L LG Q QG AP]. set (w2 := upd_peer w1 p _).
  assert (∀ x, x ∈ omap stamped kept → given w1 x ∧ ¬ given w x) as Hnew.
  { intros x. rewrite Hkept, list_elem_of_fmap. intros (y & -> & Hy%elem_of_seqZ). pose proof (no_range _ _ N k). unfold given. cbn. 
    split; [split; [done|]|intros [_ ?]]; lia. }
  assert (∀ q, queued w2 q = queued w1 q ++ if decide (q = p) then omap stamped kept else []) as Hq2.
  { intros q. unfold queued, w2. rewrite peer_at_upd. destruct (decide (p = q)) as [->|Hne].
    - rewrite decide_True by done. cbn [pe_outbound set_queues]. rewrite concat_app, omap_app. cbn. by rewrite app_nil_r.
    - rewrite decide_False by done. by rewrite app_nil_r. }
  assert (∀ q x, x ∈ queued w2 q → x ∈ queued w1 q ∧ given w x ∨ q = p ∧ x ∈ omap stamped kept ∧ ¬ given w x) as Hin.
  { intros q x. rewrite Hq2, elem_of_app. intros [Hx|Hx]; [left|right; case_decide; [|by apply elem_of_nil in Hx]; split_and!; [done..|by apply Hnew]].
    split; [done|]. rewrite Hq in Hx. by eapply (no_queued_given _ _ N). }
  split; try done.
  - intros q. rewrite Hq2. apply NoDup_app. split_and!; [apply Q| |].
    + intros x Hx Hx2. case_decide; [|by apply elem_of_nil in Hx2]. apply (proj2 (Hnew x Hx2)). rewrite Hq in Hx.
      by eapply (no_queued_given _ _ N).
    + case_decide; [|apply NoDup_nil_2]. rewrite Hkept. apply NoDup_fmap_2; [by intros ?? [=]|apply NoDup_seqZ].
  - intros q x [[Hx _]|(-> & Hx & Hng)]%Hin; [by eapply QG|]. split; [by apply Hnew|]. intros Hl'. by apply Hng, (no_log_given _ _ N).
  - intros q r x [[H1 G1]|(-> & H1 & G1)]%Hin [[H2 G2]|(-> & H2 & G2)]%Hin; try done. by eapply AP.
Qed.

Lemma nonces_ok_number log w p k elems queue : nonces_ok log w → nonces_ok log (number_elems w p k elems queue).
Proof.
  intros N. unfold number_elems. fold (send_nonce w k). destruct (assign_nonces _ _ _) as [[kept late] n] eqn:E.
  apply assign_nonces_spec in E as (Hn & Hkept & _); [|apply (no_range _ _ N)].
  assert (counters_kept w (upd_keypair w k (set_sendNonce n))) as C by (apply counters_kept_upd; cbn; lia).
  destruct queue; [|by eapply nonces_ok_kept].
  apply (nonces_ok_push log w _ p k (length kept)); try done.
  - cbn. rewrite dom_insert. set_solver.
  - rewrite send_nonce_upd, decide_True by done. cbn. lia.
Qed.

(** ** The steps *)

Section steps.
Context `{MR : MapRange} `{CR : Crypto} `{CL : !CryptoLaws}.
Implicit Types (w : World) (p : PeerRef).

(** A step that leaves the keypairs. *)
Lemma counters_kept_same w w' : w_keypairs w' = w_keypairs w →
  (∀ p, pe_outbound (peer_at w' p) `suffix_of` pe_outbound (peer_at w p)) → counters_kept w w'.
Proof.
  intros E Ho. assert (∀ k, send_nonce w' k = send_nonce w k) as Hs by (intros k; unfold send_nonce, keypair_at; by rewrite E).
  split; [intros Hr k; rewrite Hs; apply Hr|by rewrite E|intros _ k _; by rewrite Hs|done].
Qed.

Lemma counters_kept_trans w1 w2 w3 : counters_kept w1 w2 → counters_kept w2 w3 → counters_kept w1 w3.
Proof.
  intros [R1 D1 M1 O1] [R2 D2 M2 O2]. split; [auto|by etrans| |intros p; by etrans; [apply O2|apply O1]].
  intros Hr k Hk. etrans; [by apply M1|]. apply M2; [by apply R1|by apply D1].
Qed.

Lemma upd_peer_outbound w p f q : (∀ pe, pe_outbound (f pe) = pe_outbound pe) → pe_outbound (peer_at (upd_peer w p f) q) = pe_outbound (peer_at w q).
Proof. intros Hf. rewrite peer_at_upd. case_decide; [subst; apply Hf|done]. Qed.

Lemma counters_kept_peer w p f : (∀ pe, pe_outbound (f pe) = pe_outbound pe) → counters_kept w (upd_peer w p f).
Proof. intros Hf. apply counters_kept_same; [done|]. intros q. by rewrite upd_peer_outbound. Qed.

Lemma hs_changed_counters w p rnd t st li w' : hs_changed w p rnd t st li w' → counters_kept w w'.
Proof.
  intros (? & ? & ? & ? & ? & ->). apply counters_kept_same; [done|]. intros q. by rewrite upd_peer_outbound.
Qed.

(** A session starts with a new keypair, whose counter is zero. *)
Lemma begin_counters w p w' : BeginSymmetricSession w p = (true, w') → counters_kept w w'.
Proof.
  unfold BeginSymmetricSession. cbv zeta. intros H.
  destruct (match hs_state _ with handshakeZeroed => _ | _ => _ end) as [[[sk rk] b]|]; [|done]. injection H as <-.
  match goal with |- context [rotate ?w1 _ ?k ?b] => destruct (rotate_spec w1 p k b) as (t & kps & -> & _) end.
  set (k := new_ref w). assert (k ∉ dom (w_keypairs w)) as Hk by apply (is_fresh (dom (w_keypairs w))).
  match goal with |- counters_kept _ (upd_peer (set_index (upd_peer ?w1 _ _) _) _ _) => apply (counters_kept_trans _ w1) end.
  2: { apply counters_kept_same; [done|]. intros q. rewrite !upd_peer_outbound by done. rewrite peer_at_set_index. by rewrite upd_peer_outbound. }
  match goal with |- counters_kept _ ?w1 => set (w1' := w1) end.
  assert (∀ l, send_nonce w1' l = if decide (k = l) then 0 else send_nonce w l) as Hs.
  { intros l. unfold send_nonce, w1', keypair_at. cbn. case_decide as E; [subst l; by rewrite lookup_total_insert_eq|by rewrite lookup_total_insert_ne]. }
  split; [| | |done].
  - intros Hr l. rewrite Hs. case_decide; [done|apply Hr].
  - unfold w1'. cbn. rewrite dom_insert. apply union_subseteq_r.
  - intros Hr l Hl. rewrite Hs. case_decide; [by subst|done].
Qed.

Lemma expire_counters w p : counters_kept w (ExpireCurrentKeypairs w p).
Proof.
  unfold ExpireCurrentKeypairs. cbv zeta. 
  match goal with |- context [upd_peer (upd_peer ?w1 ?p ?f) ?p ?g] => set (w2 := upd_peer (upd_peer w1 p f) p g) end.
  assert (counters_kept w w2) as C.
  { apply counters_kept_same; [done|]. intros q. unfold w2. by rewrite !upd_peer_outbound. }
  assert (∀ v (k : option KeypairRef), counters_kept w v →
    counters_kept w match k with Some k => upd_keypair v k (set_sendNonce RejectAfterMessages) | None => v end) as Hk.
  { intros v [k|] Hv; [|done]. apply (counters_kept_trans _ v); [done|]. apply counters_kept_upd. intros Hr. specialize (Hr k). cbn. lia. }
  apply Hk, Hk, C.
Qed.

Lemma core_step_nonces log w w' : core_step w w' → nonces_ok log w → nonces_ok log w'.
Proof.
  intros [w1 H|p m w1 H|m p w1 H|p m w1 H|m p w1 H|p w1 H|p k w1 H|p|p|p k elems queue H|k c Hc|pk p w1 H|m H|sk pk cc];
    try (by apply nonces_ok_number); apply nonces_ok_kept.
  - apply counters_kept_same; apply H.
  - apply initiate_effect in H as (? & ? & ? & ? & H & _). by eapply hs_changed_counters.
  - apply ConsumeMessageInitiation_iff in H as (ts & ck & hash & _ & Ha & _ & ->). by apply counters_kept_peer.
  - apply respond_effect in H as [[_ ->]|(? & ? & ? & ? & H & _)]; [by apply counters_kept_same|by eapply hs_changed_counters].
  - apply consume_response_effect in H as [->|(q & ? & ? & ? & ? & _ & _ & _ & ->)]; [by apply counters_kept_same|by apply counters_kept_peer].
  - by eapply begin_counters.
  - unfold ReceivedWithKeypair in H. repeat case_hyp H; simplify_eq.
    match goal with |- context [DeleteKeypair ?w1 ?k] => destruct (DeleteKeypair_frame w1 k) as [? ->] end.
    apply counters_kept_same; [done|]. intros q. by rewrite upd_peer_outbound.
  - unfold zero_keys. cbv zeta.
    repeat match goal with |- context [DeleteKeypair ?w1 ?k] => destruct (DeleteKeypair_frame w1 k) as [? ->] end.
    apply counters_kept_same; [done|]. intros q. rewrite upd_peer_outbound by done. rewrite peer_at_set_index. by rewrite upd_peer_outbound.
  - apply expire_counters.
  - apply counters_kept_upd. intros Hr. specialize (Hr k). unfold send_nonce in *. cbn. lia.
  - apply counters_kept_same; [by unfold NewPeer in H; repeat case_hyp H; simplify_eq|].
    pose proof H as Hp. apply NewPeer_spec in Hp as (Hf & _ & _ & _ & pe & E & _).
    unfold NewPeer in H. repeat case_hyp H; simplify_eq. intros q. unfold peer_at. cbn [w_peers upd_dev set_dev set_peers].
    destruct (decide (fresh (dom (w_peers w)) = q)) as [<-|]; [rewrite lookup_total_insert_eq|by rewrite lookup_total_insert_ne].
    apply suffix_nil.
  - by apply counters_kept_same.
  - unfold rekey. apply (foldl_ind (counters_kept w)); [by apply counters_kept_same|].
    intros v [key p] _ Iv. apply (counters_kept_trans _ v); [done|]. by apply counters_kept_peer.
Qed.

Lemma steps_nonces log w w' : steps w w' → nonces_ok log w → nonces_ok log w'.
Proof. induction 1 as [|w1 w2 w3 H _ IH]; [done|]. intros N. by eapply IH, core_step_nonces. Qed.

(** ** The sender *)

Definition dequeue (w : World) (p : PeerRef) : World :=
  upd_peer w p (λ pe, set_queues (pe_staged pe) (tail (pe_outbound pe)) (pe_inbound pe) pe).

(** What leaves the queue is encrypted once. *)
Lemma nonces_ok_dequeue log w p : nonces_ok log w → nonces_ok (log ++ encrypted w (EvOutbound p)) (dequeue w p).
Proof.
  intros [R L LG Q QG AP]. cbn [encrypted]. set (x := omap stamped _).
  assert (∀ q, queued w q = (if decide (q = p) then x else []) ++ queued (dequeue w p) q) as Hq.
  { intros q. unfold queued, dequeue. rewrite peer_at_upd. destruct (decide (p = q)) as [->|Hne].
    - rewrite decide_True by done. cbn [pe_outbound set_queues]. unfold x. destruct (pe_outbound (peer_at w q)) as [|c l]; [done|].
      cbn. by rewrite omap_app.
    - by rewrite decide_False by done. }
  pose proof (Hq p) as Hp. rewrite decide_True in Hp by done.
  assert (∀ q y, y ∈ queued (dequeue w p) q → y ∈ queued w q) as Hsub by (intros q y Hy; rewrite Hq; apply elem_of_app; by right).
  assert (∀ y, y ∈ x → y ∈ queued w p) as Hx by (intros y Hy; rewrite Hp; apply elem_of_app; by left).
  pose proof (Q p) as Qp. rewrite Hp in Qp. apply NoDup_app in Qp as (Nx & Hdis & Nr).
  split; [exact R|..].
  - apply NoDup_app. split_and!; [done| |done]. intros y Hy Hy2%Hx. by apply (QG p y).
  - intros y [Hy|Hy%Hx]%elem_of_app; [by apply LG|by apply (QG p y)].
  - intros q. specialize (Q q). rewrite Hq in Q. by apply NoDup_app in Q as (_ & _ & ?).
  - intros q y Hy. pose proof (Hsub _ _ Hy) as Hy'. split; [by apply (QG q)|]. rewrite elem_of_app. intros [Hl|Hyx]; [by apply (QG q y)|].
    assert (q = p) as -> by by eapply AP; [|apply Hx]. by apply (Hdis y).
  - intros q r y Hy%Hsub Hr%Hsub. by eapply AP.
Qed.

Lemma sender_nonces log w p w' : sender_step w p = Some w' → nonces_ok log w →
  nonces_ok (log ++ encrypted w (EvOutbound p)) w'.
Proof.
  intros H N. destruct (pe_outbound (peer_at w p)) as [|elems outb] eqn:Eo.
  { unfold sender_step in H. rewrite Eo in H. injection H as <-. cbn. rewrite Eo. cbn. by rewrite app_nil_r. }
  apply (steps_nonces _ (dequeue w p)); [|by apply nonces_ok_dequeue].
  eapply sender_step_from; [done..|]. unfold dequeue, upd_peer. rewrite Eo. apply rtc_refl.
Qed.

Lemma run_nonces (filters : list TCFilter) (mpls : option (Z * Z)) evs : ∀ log w w',
  run_events filters mpls w evs = Some w' → nonces_ok log w → nonces_ok (log ++ encryptions filters mpls w evs) w'.
Proof.
  induction evs as [|ev evs IH]; intros log w w'; cbn [run_events encryptions].
  { intros [= <-]. by rewrite app_nil_r. }
  destruct (handle filters mpls w ev) as [w1|] eqn:E; [|done]. cbn. intros Hrun N. rewrite app_assoc. eapply IH; [done|].
  destruct ev; try (cbn [encrypted]; rewrite app_nil_r; by eapply steps_nonces; [eapply handle_steps|]).
  by apply sender_nonces.
Qed.

Lemma nonces_ok_empty w : w_peers w = ∅ → w_keypairs w = ∅ → nonces_ok [] w.
Proof.
  intros Ep Ek. assert (∀ p, queued w p = []) as Hq by (intros p; unfold queued, peer_at; by rewrite Ep, lookup_total_empty).
  split; try (by intros; rewrite ?Hq in *; set_solver); try (by intros p; rewrite Hq; apply NoDup_nil_2); [|apply NoDup_nil_2].
  intros k. unfold send_nonce, keypair_at. rewrite Ek, lookup_total_empty. by cbn.
Qed.

(** C5: whatever a device does from the moment it is created, no keypair encrypts two
    packets with the same number, across every queue and every peer, also when keypairs
    expire, packets are staged again and sessions are replaced; and each number is below the
    limit after which a keypair has to be renewed. *)
Theorem nonce_used_once (filters : list TCFilter) (mpls : option (Z * Z)) (w w' : World) (evs : list DeviceEvent) :
  w_peers w = ∅ → w_keypairs w = ∅ → run_events filters mpls w evs = Some w' →
  NoDup (encryptions filters mpls w evs) ∧
  ∀ k n, (k, n) ∈ encryptions filters mpls w evs → 0 <= n < RejectAfterMessages.
Proof.
  intros Ep Ek Hrun. pose proof (run_nonces filters mpls evs [] w w' Hrun (nonces_ok_empty w Ep Ek)) as N. cbn in N.
  split; [apply N|]. intros k n Hx. destruct (no_log_given _ _ N _ Hx) as [_ Hn]. pose proof (no_range _ _ N k). cbn in Hn. lia.
Qed.

End steps.

(** ** Demonstration *)

Module NonceDemo.

#[local] Existing Instances sorted_range ToyCrypto.toy ToyCrypto.toy_laws.
Import SessionDemo.

Lemma nonce_used_once_witness :
  NoDup (encryptions filters None A0 events_A3) ∧ encryptions filters None A0 events_A3 = [(0%nat, 0); (0%nat, 1)].
Proof.
  destruct (nonce_used_once filters None A0 (run A0 events_A3) events_A3) as [H _].
  - reflexivity.
  - reflexivity.
  - apply HandshakeDemo.survived. vm_compute. reflexivity.
  - split; [exact H|vm_compute; reflexivity].
Defined.

End NonceDemo.
