(* ===== verification/WgStaged.v ===== *)
(** Staged packets of a WireGuard peer: [SendStagedPackets] ends, loses no packet, keeps
    their order, and numbers them without a gap. *)

From S2P Require Import Prelude Bytes NetIP Float64 Metric Routing Endpoint Packet RouterAlgo Config External RouterIO Unicast AllowedIPs RateLimiter Replay Crypto Messages Cookie WireGuard WgSend WgReceive HandshakeProps WgCore WgEvents WgReplay WgNonce.

(** The payloads of a list of containers, in order. *)
Definition payloads (containers : list (list QueueOutboundElement)) : list (list Z) := oe_packet <$> concat containers.

(** The queues of the peers and their counts of attempts are as before, and [n] batches
    at most have been sent. *)
Record waiting_eq (n : nat) (w w' : World) : Prop := {
  we_staged : ∀ q, pe_staged (peer_at w' q) = pe_staged (peer_at w q);
  we_outbound : ∀ q, pe_outbound (peer_at w' q) = pe_outbound (peer_at w q);
  we_attempts : ∀ q, ti_handshakeAttempts (timers_of w' q) = ti_handshakeAttempts (timers_of w q);
  we_sent : (length (w_sent w') <= n + length (w_sent w))%nat;
}.

Lemma waiting_eq_refl n w : waiting_eq n w w.
Proof. split; [done..|lia]. Qed.

(** ** What leaves the queues alone *)

Lemma waiting_eq_peer n w0 w p f :
  (∀ pe, pe_staged (f pe) = pe_staged pe ∧ pe_outbound (f pe) = pe_outbound pe ∧
     ti_handshakeAttempts (pe_timers (f pe)) = ti_handshakeAttempts (pe_timers pe)) →
  waiting_eq n w0 w → waiting_eq n w0 (upd_peer w p f).
Proof.
  intros Hf [S O A N]. unfold timers_of in A. split; [..|done]; intros q; unfold timers_of; rewrite peer_at_upd.
  - rewrite <-S. case_decide; [subst; apply Hf|done].
  - rewrite <-O. case_decide; [subst; apply Hf|done].
  - rewrite <-A. case_decide; [subst; apply Hf|done].
Qed.

Lemma waiting_eq_frame n w0 w w' : w_peers w' = w_peers w → w_sent w' = w_sent w → waiting_eq n w0 w → waiting_eq n w0 w'.
Proof. intros E Es [S O A N]. split; unfold timers_of, peer_at in *; rewrite ?E, ?Es; done. Qed.

Create HintDb queue_db.

Lemma waiting_eq_timers n w0 w p f : (∀ t, ti_handshakeAttempts (f t) = ti_handshakeAttempts t) → waiting_eq n w0 w → waiting_eq n w0 (upd_timers w p f).
Proof. intros Hf H. apply waiting_eq_peer; [|done]. intros pe. split_and!; [done..|apply Hf]. Qed.

Lemma waiting_eq_endpoints n w0 w p f : waiting_eq n w0 w → waiting_eq n w0 (upd_endpoints w p f).
Proof. by apply waiting_eq_peer. Qed.

Lemma waiting_eq_counters n w0 w p t r : waiting_eq n w0 w →
  waiting_eq n w0 (upd_peer w p (λ pe, set_counters (t pe) (pe_rxBytes pe) (r pe) pe)).
Proof. by apply waiting_eq_peer. Qed.

Lemma waiting_eq_lastSent n w0 w p t : waiting_eq n w0 w → waiting_eq n w0 (upd_peer w p (set_lastSentHandshake t)).
Proof. by apply waiting_eq_peer. Qed.

#[export] Hint Resolve waiting_eq_timers waiting_eq_endpoints waiting_eq_counters waiting_eq_lastSent : queue_db.

Lemma traversal_waiting n w0 w p b : waiting_eq n w0 w → waiting_eq n w0 (timersAnyAuthenticatedPacketTraversal w p b).
Proof. intros. unfold timersAnyAuthenticatedPacketTraversal. cbv zeta. repeat case_goal; auto with queue_db. Qed.

Lemma packetSent_waiting n w0 w p : waiting_eq n w0 w → waiting_eq n w0 (timersAnyAuthenticatedPacketSent w p).
Proof. intros. unfold timersAnyAuthenticatedPacketSent. repeat case_goal; auto with queue_db. Qed.

Lemma jitter_frame w n j w' : jitter_ms w n = (j, w') → w_peers w' = w_peers w ∧ w_sent w' = w_sent w.
Proof. unfold jitter_ms. repeat case_goal; by intros [= <- <-]. Qed.

Lemma initiated_waiting n w0 w p : waiting_eq n w0 w → waiting_eq n w0 (timersHandshakeInitiated w p).
Proof.
  intros. unfold timersHandshakeInitiated. case_goal; [|done]. destruct (jitter_ms _ _) as [j w1] eqn:E.
  apply jitter_frame in E as [? ?]. apply waiting_eq_timers; [done|]. by eapply waiting_eq_frame.
Qed.

Lemma clear_src_frame l : ∀ w, w_peers (foldl clear_src w l) = w_peers w ∧ w_sent (foldl clear_src w l) = w_sent w.
Proof.
  induction l as [|e l IH]; intros w; [done|]. cbn. destruct (IH (clear_src w e)) as [-> ->]. unfold clear_src. by case_goal.
Qed.

(** One buffer: one batch at most. *)
Lemma send_one_frame w endpoints prev batch err r w' : send_batches w endpoints prev batch [] err = (r, w') →
  w_peers w' = w_peers w ∧ (length (w_sent w') <= 1 + length (w_sent w))%nat.
Proof.
  cbn [send_batches]. destruct (match prev with Some _ => _ | None => _ end) as [e|]; [|intros [= <- <-]; split; [done|lia]].
  unfold bind_Send. destruct (w_sendRes w); intros [= <- <-]; cbn; rewrite length_app; cbn; (split; [done|lia]).
Qed.

Lemma SendBuffers_waiting n w0 w p first e w' : SendBuffers w p first [] = (e, w') → waiting_eq n w0 w → waiting_eq (S n) w0 w'.
Proof.
  unfold SendBuffers. intros H [S O A N]. destruct (isClosed w); [injection H as <- <-; split; [done..|lia]|]. cbv zeta in H.
  match type of H with match send_batches ?v _ _ _ _ _ with _ => _ end = _ => set (w1 := v) in H end.
  assert (waiting_eq n w0 w1) as H1.
  { unfold w1. case_goal; [|done]. apply waiting_eq_endpoints. destruct (clear_src_frame (en_val (pe_endpoints (peer_at w p))) w).
    eapply waiting_eq_frame; [done..|]. by split. }
  destruct (send_batches _ _ _ _ _ _) as [err w2] eqn:E. apply send_one_frame in E as [Ep Es].
  assert (waiting_eq (Datatypes.S n) w0 w2) as H2.
  { destruct H1 as [S1 O1 A1 N1]. unfold timers_of, peer_at in *. split; unfold timers_of, peer_at; rewrite ?Ep; try done. lia. }
  destruct err; injection H as <- <-; auto with queue_db.
Qed.

Section staged.
Context `{CR : Crypto}.
Implicit Types (w : World) (p : PeerRef).

Lemma add_macs_waiting n w0 w p packet packet' w' : add_macs w p packet = (packet', w') → waiting_eq n w0 w → waiting_eq n w0 w'.
Proof. unfold add_macs. case_goal; [case_goal|]; intros [= <- <-] H; [by apply waiting_eq_peer|done]. Qed.

Lemma createHandshakeInitiation_waiting n w0 w p m e w' :
  createHandshakeInitiation w p = (m, e, w') → waiting_eq n w0 w → waiting_eq n w0 w'.
Proof.
  unfold createHandshakeInitiation. intros H Hq. case_hyp H; [by injection H as <- <- <-|]. cbv zeta in H.
  destruct (CreateMessageInitiation _ _) as [msg w1] eqn:E.
  assert (waiting_eq n w0 w1) as H1.
  { apply initiate_effect in E as (? & ? & ? & ? & (? & ? & ? & ? & ? & ->) & _). apply waiting_eq_peer; [done|].
    match goal with |- waiting_eq _ _ (set_index (set_rnd ?v _) _) => apply (waiting_eq_frame _ _ v) end; [done..|]. auto with queue_db. }
  destruct msg; [|by injection H as <- <- <-]. destruct (add_macs _ _ _) as [packet w2] eqn:E2. injection H as <- <- <-.
  apply packetSent_waiting, traversal_waiting. by eapply add_macs_waiting.
Qed.

(** A retry. *)
Lemma retry_waiting n w0 w p : waiting_eq n w0 w → waiting_eq (S n) w0 (SendHandshakeInitiation w p true).2.
Proof.
  intros Hq. unfold SendHandshakeInitiation. cbv zeta. cbn [negb].
  destruct (createHandshakeInitiation _ p) as [[packet err] w1] eqn:E1.
  assert (waiting_eq n w0 w1) as H1 by by eapply createHandshakeInitiation_waiting.
  assert (waiting_eq (S n) w0 w1) as H2 by (destruct H1; split; [done..|lia]).
  destruct packet as [packet|]; [|done]. destruct (en_val _) eqn:Ev; [done|].
  destruct (SendBuffers _ _ _ _) as [e w2] eqn:E2. cbn [snd].
  apply initiated_waiting. eapply SendBuffers_waiting; [done|]. auto with queue_db.
Qed.

Lemma SendHandshakeInitiation_queues w p b q :
  pe_staged (peer_at (SendHandshakeInitiation w p b).2 q) = pe_staged (peer_at w q) ∧
  pe_outbound (peer_at (SendHandshakeInitiation w p b).2 q) = pe_outbound (peer_at w q).
Proof.
  assert ((SendHandshakeInitiation w p b).2 =
    (SendHandshakeInitiation (if negb b then upd_timers w p (set_handshakeAttempts 0) else w) p true).2) as -> by done.
  destruct (retry_waiting 0 _ _ p (waiting_eq_refl 0 (if negb b then upd_timers w p (set_handshakeAttempts 0) else w))) as [S O _ _].
  rewrite S, O. destruct b; [done|]. unfold upd_timers. cbn [negb]. rewrite peer_at_upd. by case_decide; subst.
Qed.

(** ** One container *)

Lemma assign_nonces_packets k elems : ∀ n kept late n', assign_nonces k n elems = (kept, late, n') →
  oe_packet <$> elems ≡ₚ (oe_packet <$> kept) ++ (oe_packet <$> late).
Proof.
  induction elems as [|e elems IH]; intros n kept late n'; cbn [assign_nonces]; [by intros [= <- <- <-]|].
  case_goal; destruct (assign_nonces _ _ elems) as [[kept1 late1] n1] eqn:E; intros [= <- <- <-]; apply IH in E; cbn.
  - rewrite E. apply Permutation_middle.
  - by rewrite E.
Qed.

(** Without a number left out, none is late and the order is kept. *)
Lemma assign_nonces_all k elems : ∀ n kept late n', assign_nonces k n elems = (kept, late, n') →
  0 <= n → n + Z.of_nat (length elems) <= RejectAfterMessages →
  late = [] ∧ n' = n + Z.of_nat (length elems) ∧ oe_packet <$> kept = oe_packet <$> elems.
Proof.
  induction elems as [|e elems IH]; intros n kept late n'; cbn [assign_nonces length].
  { intros [= <- <- <-] _ _. split_and!; [done|cbn; lia|done]. }
  intros H Hn Hl. change RejectAfterMessages with 18446744073709543423 in Hl.
  assert (uint64 (n + 1) = n + 1) as E2 by (apply wrap_small; unfold in_width; lia).
  assert (uint64 n = n) as E1 by (apply wrap_small; unfold in_width; lia).
  rewrite E2, Z.add_simpl_r, E1 in H.
  destruct (Z.leb_spec RejectAfterMessages n) as [Hle|Hlt]; [change RejectAfterMessages with 18446744073709543423 in Hle; lia|].
  destruct (assign_nonces k (n + 1) elems) as [[kept1 late1] n1] eqn:E. injection H as <- <- <-.
  apply IH in E as (-> & -> & Hp); [|lia|change RejectAfterMessages with 18446744073709543423; lia].
  split_and!; [done|lia|]. cbn. by rewrite Hp.
Qed.

(** The body of the loop: the state after a container, and where the loop goes on. *)
Definition one_container w p k (elems : list QueueOutboundElement) (staged : list (list QueueOutboundElement)) : World * option KeypairRef :=
  let w := upd_peer w p (set_staged staged) in
  let '(kept, late, nonce) := assign_nonces k (kp_sendNonce (keypair_at w k)) elems in
  let w := upd_keypair w k (set_sendNonce nonce) in
  let w := match late with [] => w | _ => StagePackets w p late end in
  match kept with
  | [] => (w, None)
  | _ =>
      (if pe_isRunning (peer_at w p)
       then upd_peer w p (λ pe, set_queues (pe_staged pe) (pe_outbound pe ++ [kept]) (pe_inbound pe) pe) else w,
       match late with [] => Some k | _ => None end)
  end.

Lemma send_staged_cons f w p k elems staged : pe_staged (peer_at w p) = elems :: staged →
  send_staged (S f) w p (Some k) = (let '(w', l) := one_container w p k elems staged in send_staged f w' p l).
Proof.
  intros E. cbn [send_staged]. rewrite E. unfold one_container. cbv zeta. destruct (assign_nonces _ _ _) as [[kept late] n].
  by destruct kept, late.
Qed.

Definition single {A} (l : list A) : list (list A) := match l with [] => [] | _ => [l] end.

Lemma one_container_spec w p k elems staged w' l :
  one_container w p k elems staged = (w', l) → (length staged < QueueStagedSize)%nat →
  ∃ kept late n, assign_nonces k (send_nonce w k) elems = (kept, late, n) ∧
    pe_staged (peer_at w' p) = staged ++ single late ∧
    pe_outbound (peer_at w' p) = pe_outbound (peer_at w p) ++ (if pe_isRunning (peer_at w p) then single kept else []) ∧
    w_keypairs w' = <[k := set_sendNonce n (keypair_at w k)]> (w_keypairs w) ∧
    pe_keypairs (peer_at w' p) = pe_keypairs (peer_at w p) ∧ pe_isRunning (peer_at w' p) = pe_isRunning (peer_at w p) ∧
    w_dev w' = w_dev w ∧ w_now w' = w_now w ∧ l = match kept, late with _ :: _, [] => Some k | _, _ => None end.
Proof.
  unfold one_container. cbv zeta. rewrite keypair_at_upd_peer. fold (send_nonce w k).
  destruct (assign_nonces _ _ _) as [[kept late] n] eqn:E. intros H Hl. exists kept, late, n. split; [done|].
  set (w1 := upd_peer w p (set_staged staged)) in *. set (w2 := upd_keypair w1 k _) in *.
  assert (peer_at w2 p = set_staged staged (peer_at w p)) as E2 by (unfold w2; rewrite peer_at_upd_keypair; apply peer_at_upd_eq).
  set (w3 := match late with [] => w2 | _ => StagePackets w2 p late end) in *.
  assert (peer_at w3 p = set_staged (staged ++ single late) (peer_at w p) ∧ w_keypairs w3 = w_keypairs w2 ∧ w_dev w3 = w_dev w ∧ w_now w3 = w_now w)
    as (E3 & Ek & Ed & En).
  { unfold w3. destruct late as [|x late]; cbn [single]; [by rewrite app_nil_r|]. split; [|done].
    unfold StagePackets. rewrite peer_at_upd_eq, E2. cbn. by rewrite decide_True. }
  rewrite E3 in H. cbn [pe_isRunning set_staged set_queues] in H.
  destruct kept as [|x kept]; [|destruct (pe_isRunning (peer_at w p)) eqn:Er]; injection H as <- <-; cbn [single];
    rewrite ?peer_at_upd_eq, ?E3; cbn; rewrite ?app_nil_r, ?Er; split_and!; try done; try (by destruct late).
  by case_goal; rewrite ?app_nil_r.
Qed.

(** ** The loop *)

Lemma Current_ext w w' p : pe_keypairs (peer_at w' p) = pe_keypairs (peer_at w p) → Current w' p = Current w p.
Proof. unfold Current. by intros ->. Qed.

Lemma send_staged_nil f w p loop : pe_staged (peer_at w p) = [] → send_staged (S f) w p loop = Some w.
Proof. intros E. destruct loop; cbn [send_staged]; by rewrite ?E. Qed.

(** At the top with a keypair that has run out. *)
Lemma send_staged_stop f w p k : Current w p = Some k → usable w k = false →
  send_staged (S f) w p None =
  if bool_decide (pe_staged (peer_at w p) = []) || negb (isUp w) then Some w else Some (SendHandshakeInitiation w p false).2.
Proof. intros E Hu. cbn [send_staged]. by rewrite E, Hu. Qed.

Lemma if_Some {A} (b : bool) (x y : A) : (if b then Some x else Some y) = Some (if b then x else y).
Proof. by destruct b. Qed.

Lemma usable_spent w k : send_nonce w k = RejectAfterMessages → usable w k = false.
Proof. unfold usable, send_nonce. intros ->. by rewrite Z.ltb_irrefl. Qed.

Definition need (loop : option KeypairRef) (n : nat) : nat := match loop with None => 2 * n + 2 | Some _ => 2 * n + 1 end.

Definition in_range w : Prop := ∀ k, 0 <= send_nonce w k <= RejectAfterMessages.

Lemma in_range_set w w' k n : in_range w → 0 <= n <= RejectAfterMessages →
  w_keypairs w' = <[k := set_sendNonce n (keypair_at w k)]> (w_keypairs w) →
  in_range w' ∧ send_nonce w' k = n ∧ kp_created (keypair_at w' k) = kp_created (keypair_at w k).
Proof.
  intros Hr Hn E. unfold in_range, send_nonce, keypair_at. rewrite E. split_and!.
  - intros l. destruct (decide (k = l)) as [<-|]; [by rewrite lookup_total_insert_eq|rewrite lookup_total_insert_ne by done; apply Hr].
  - by rewrite lookup_total_insert_eq.
  - by rewrite lookup_total_insert_eq.
Qed.

(** The loop ends, with any fuel that is enough for what waits. *)
Lemma send_staged_ends n : ∀ w p loop, length (pe_staged (peer_at w p)) = n → (n <= QueueStagedSize)%nat → in_range w →
  (∀ k, loop = Some k → Current w p = Some k) → ∃ w', ∀ f, (need loop n <= f)%nat → send_staged f w p loop = Some w'.
Proof.
  induction n as [|n IH]; intros w p loop Hn Hq Hr Hc.
  { apply nil_length_inv in Hn. exists w. intros [|f] Hf; [destruct loop; cbn in Hf; lia|]. by rewrite send_staged_nil. }
  assert (∀ k, Current w p = Some k → ∃ w', ∀ f, (need (Some k) (S n) <= f)%nat → send_staged f w p (Some k) = Some w') as Hloop.
  { intros k Hk. destruct (pe_staged (peer_at w p)) as [|elems staged] eqn:Es; [done|]. injection Hn as Hn.
    destruct (one_container w p k elems staged) as [w1 l] eqn:E.
    assert (∃ w', ∀ f, (2 * n + 2 <= f)%nat → send_staged f w1 p l = Some w') as [w' Hw'].
    { apply one_container_spec in E as (kept & late & m & Ea & Hst & _ & Hk' & Hkp & _ & _ & _ & ->); [|lia].
      apply assign_nonces_spec in Ea as (Hb & _ & Hl); [|apply Hr].
      destruct (in_range_set w w1 k m Hr) as (Hr' & Hm & _); [pose proof (Hr k); lia|done|].
      assert (Current w1 p = Some k) as Hk1 by (by rewrite (Current_ext w w1)). destruct late as [|x late].
      - destruct (IH w1 p (match kept with _ :: _ => Some k | [] => None end)) as [w' Hw']; [by rewrite Hst, app_nil_r|lia|done|by intros j; destruct kept; [|intros [= <-]]|].
        exists w'. intros f Hf. destruct kept; apply Hw'; cbn; lia.
      - assert (usable w1 k = false) as Hu by (apply usable_spent; destruct Hl; congruence).
        eexists. intros [|f] Hf; [lia|]. destruct kept; rewrite (send_staged_stop _ w1 p k) by done; [by rewrite if_Some|by rewrite if_Some]. }
    exists w'. intros [|f] Hf; cbn in Hf; [lia|]. rewrite (send_staged_cons _ w p k elems staged), E by done. apply Hw'. lia. }
  destruct loop as [k|]; [by apply Hloop, Hc|].
  destruct (bool_decide (pe_staged (peer_at w p) = []) || negb (isUp w)) eqn:E0.
  { exists w. intros [|f] Hf; cbn in Hf; [lia|]. cbn [send_staged]. by rewrite E0. }
  destruct (Current w p) as [k|] eqn:Ek; [destruct (usable w k) eqn:Eu; [destruct (Hloop k eq_refl) as [w' Hw']; exists w'|]|].
  - intros [|f] Hf; cbn in Hf; [lia|]. cbn [send_staged]. rewrite E0, Ek, Eu. apply Hw'. cbn. lia.
  - eexists. intros [|f] Hf; cbn in Hf; [lia|]. cbn [send_staged]. by rewrite E0, Ek, Eu.
  - eexists. intros [|f] Hf; cbn in Hf; [lia|]. cbn [send_staged]. by rewrite E0, Ek.
Qed.

(** What sending in order means, from [w] to [w']. *)
Definition sent_in_order w w' p k : Prop :=
  let total := Z.of_nat (length (concat (pe_staged (peer_at w p)))) in
  pe_staged (peer_at w' p) = [] ∧
  payloads (pe_outbound (peer_at w' p)) = payloads (pe_outbound (peer_at w p)) ++ payloads (pe_staged (peer_at w p)) ∧
  queued w' p = queued w p ++ (pair k <$> seqZ (send_nonce w k) total) ∧
  send_nonce w' k = send_nonce w k + total.

(** The state in which a peer can send: up, running, with a keypair that is young enough and
    has numbers for all that waits. *)
Record can_send w p k : Prop := {
  cs_up : isUp w = true;
  cs_running : pe_isRunning (peer_at w p) = true;
  cs_current : Current w p = Some k;
  cs_young : time_Sub (w_now w) (kp_created (keypair_at w k)) < RejectAfterTime;
  cs_numbers : 0 <= send_nonce w k ∧ send_nonce w k + Z.of_nat (length (concat (pe_staged (peer_at w p)))) < RejectAfterMessages;
}.

Lemma one_container_sends w p k elems staged w' l : can_send w p k → pe_staged (peer_at w p) = elems :: staged →
  one_container w p k elems staged = (w', l) → (length staged < QueueStagedSize)%nat →
  can_send w' p k ∧ pe_staged (peer_at w' p) = staged ∧ (l = None ∨ l = Some k) ∧
  payloads (pe_outbound (peer_at w' p)) = payloads (pe_outbound (peer_at w p)) ++ (oe_packet <$> elems) ∧
  queued w' p = queued w p ++ (pair k <$> seqZ (send_nonce w k) (Z.of_nat (length elems))) ∧
  send_nonce w' k = send_nonce w k + Z.of_nat (length elems).
Proof.
  intros [U Rn C Y [N0 N1]] Es E Hl. rewrite Es in N1. cbn [concat] in N1. rewrite length_app, Nat2Z.inj_add in N1.
  apply one_container_spec in E as (kept & late & m & Ea & Hst & Ho & Hk & Hkp & Hrun & Hd & Hn & El); [|done].
  pose proof Ea as Ea2. apply assign_nonces_spec in Ea2 as (_ & Hstamped & _); [|lia].
  apply assign_nonces_all in Ea as (-> & -> & Hp); [|lia..]. rewrite app_nil_r in Hst. rewrite Rn in Ho, Hrun.
  assert (length kept = length elems) as Hlen by (by rewrite <-(length_fmap oe_packet kept), Hp, length_fmap).
  rewrite Hlen in Hstamped.
  assert (∀ x : list QueueOutboundElement, concat (single x) = x) as Hs by (intros []; [done|cbn; by rewrite app_nil_r]).
  assert (send_nonce w' k = send_nonce w k + Z.of_nat (length elems) ∧ kp_created (keypair_at w' k) = kp_created (keypair_at w k)) as [Hsn Hcr].
  { unfold send_nonce at 1, keypair_at. by rewrite Hk, !lookup_total_insert_eq. }
  split_and!; try done.
  - split; [unfold isUp; by rewrite Hd|done|by rewrite (Current_ext w)|by rewrite Hn, Hcr|rewrite Hsn, Hst; lia].
  - destruct kept; subst l; auto.
  - rewrite Ho. unfold payloads. by rewrite concat_app, fmap_app, Hs, Hp.
  - unfold queued. by rewrite Ho, concat_app, omap_app, Hs, Hstamped.
Qed.

Lemma send_staged_order n : ∀ w p k loop f, length (pe_staged (peer_at w p)) = n → (n <= QueueStagedSize)%nat → can_send w p k →
  loop = None ∨ loop = Some k → (need loop n <= f)%nat →
  ∃ w', send_staged f w p loop = Some w' ∧ sent_in_order w w' p k.
Proof.
  induction n as [|n IH]; intros w p k loop f Hn Hq Hc Hl Hf.
  { apply nil_length_inv in Hn. destruct f as [|f]; [destruct loop; cbn in Hf; lia|]. exists w. rewrite send_staged_nil by done. split; [done|].
    unfold sent_in_order. rewrite Hn. cbn. rewrite !app_nil_r. split_and!; [done..|lia]. }
  assert (∀ g, (2 * n + 2 < g)%nat → ∃ w', send_staged g w p (Some k) = Some w' ∧ sent_in_order w w' p k) as Hloop.
  { intros g Hg. destruct g as [|g]; [lia|]. destruct (pe_staged (peer_at w p)) as [|elems staged] eqn:Es; [done|]. injection Hn as Hn.
    rewrite (send_staged_cons _ w p k elems staged) by done. destruct (one_container w p k elems staged) as [w' l] eqn:E.
    apply one_container_sends in E as (Hc' & Hst & Hl' & Hp & Hqd & Hsn); [|done|done|lia].
    destruct (IH w' p k l g) as (w2 & Hw2 & F1 & F2 & F3 & F4); [by rewrite Hst|lia|done|done|destruct Hl' as [-> | ->]; cbn; lia|].
    exists w2. split; [done|]. rewrite Hst in F2, F3, F4. unfold sent_in_order. rewrite Es. cbn [concat]. rewrite length_app, Nat2Z.inj_add. split_and!; [done|..].
    - rewrite F2, Hp. unfold payloads. cbn [concat]. by rewrite fmap_app, app_assoc.
    - rewrite F3, Hqd, Hsn, <-app_assoc, <-fmap_app. do 2 f_equal. symmetry. apply seqZ_app; lia.
    - lia. }
  destruct Hl as [-> | ->]; [|by apply Hloop; cbn in Hf; lia]. destruct f as [|f]; [cbn in Hf; lia|]. cbn [send_staged need] in *.
  rewrite (cs_up _ _ _ Hc), (cs_current _ _ _ Hc). rewrite bool_decide_eq_false_2 by (intros E; by rewrite E in Hn). cbn [orb negb].
  unfold usable. destruct Hc as [U Rn C Y [N0 N1]]. fold (send_nonce w k).
  rewrite (proj2 (Z.ltb_lt _ _)) by lia. rewrite (proj2 (Z.ltb_lt _ _)) by done. cbn. apply Hloop. lia.
Qed.

(** C29: a running peer with a keypair that is young and has numbers left sends all that is
    staged: the packets go to the outbound queue in the order in which they were staged,
    behind those already there, each with that keypair and with consecutive numbers from
    its counter, which ends right behind them. *)
Theorem staged_sent_in_order w p k :
  isUp w = true → pe_isRunning (peer_at w p) = true → Current w p = Some k →
  time_Sub (w_now w) (kp_created (keypair_at w k)) < RejectAfterTime →
  0 <= send_nonce w k → send_nonce w k + Z.of_nat (length (concat (pe_staged (peer_at w p)))) < RejectAfterMessages →
  (length (pe_staged (peer_at w p)) <= QueueStagedSize)%nat →
  sent_in_order w (SendStagedPackets w p) p k.
Proof.
  intros. unfold SendStagedPackets. destruct (send_staged_order _ w p k None (staged_fuel w p) eq_refl) as (w' & -> & Hs);
    [done|by split|by left|unfold staged_fuel; cbn; lia|]. exact Hs.
Qed.

(** C30: [SendStagedPackets] ends: the loop, which jumps back to its start when packets come
    too late for a keypair, comes to its end within two rounds for each container that waits
    and three more, when no more containers wait than the queue holds and the counters are within their limit; with
    more fuel the result is the same, and it is what [SendStagedPackets] returns. *)
Theorem staged_terminates w p (n : nat) :
  (length (pe_staged (peer_at w p)) <= QueueStagedSize)%nat → (∀ k, 0 <= kp_sendNonce (keypair_at w k) <= RejectAfterMessages) →
  send_staged (staged_fuel w p + n) w p None = Some (SendStagedPackets w p).
Proof.
  intros Hq Hr. destruct (send_staged_ends _ w p None eq_refl Hq Hr) as [w' Hw']; [done|]. unfold SendStagedPackets.
  by rewrite !Hw' by (unfold staged_fuel; cbn; lia).
Qed.

(** [SendStagedPackets] loses nothing and invents nothing, also when the keypair runs
    out of numbers in the middle of a container: each packet that waited, staged or
    outbound, waits afterwards. *)
Theorem staged_conserved w p :
  pe_isRunning (peer_at w p) = true → (length (pe_staged (peer_at w p)) <= QueueStagedSize)%nat →
  let w' := SendStagedPackets w p in
  payloads (pe_staged (peer_at w' p)) ++ payloads (pe_outbound (peer_at w' p)) ≡ₚ
  payloads (pe_staged (peer_at w p)) ++ payloads (pe_outbound (peer_at w p)).
Proof.
  intros Hrun Hq w'. unfold w', SendStagedPackets. clear w'. destruct (send_staged _ w p None) as [w'|] eqn:E; [|done]. cbn [default]. unfold id.
  revert E. generalize (staged_fuel w p). intros f. generalize (@None KeypairRef). revert w Hrun Hq w'.
  induction f as [|f IH]; intros w Hrun Hq w' loop; [done|].
  destruct loop as [k|]; [destruct (pe_staged (peer_at w p)) as [|elems staged] eqn:Es|].
  - rewrite send_staged_nil by done. intros [= <-]. by rewrite Es.
  - rewrite (send_staged_cons _ w p k elems staged) by done. destruct (one_container w p k elems staged) as [w1 l] eqn:E.
    cbn [length] in Hq. apply one_container_spec in E as (kept & late & m & Ea & Hst & Ho & _ & _ & Hrun' & _ & _ & _); [|lia].
    rewrite Hrun in Ho, Hrun'. apply assign_nonces_packets in Ea. intros Hs.
    rewrite (IH w1 ltac:(done) ltac:(rewrite Hst, length_app; destruct late; cbn; lia) w' l Hs).
    rewrite Hst, Ho. unfold payloads. rewrite !concat_app, !fmap_app. cbn [concat]. rewrite fmap_app, Ea.
    assert (∀ x : list QueueOutboundElement, concat (single x) = x) as Hs' by (intros []; [done|cbn; by rewrite app_nil_r]).
    rewrite !Hs'. solve_Permutation.
  - cbn [send_staged]. case_goal; [by intros [= <-]|].
    destruct (SendHandshakeInitiation_queues w p false p) as [H1 H2].
    destruct (Current w p) as [k|]; [case_goal|]; [|by apply IH|]; intros [= <-]; by rewrite H1, H2.
Qed.

End staged.

(** ** Demonstration *)

Module StagedDemo.

#[local] Existing Instances sorted_range ToyCrypto.toy ToyCrypto.toy_laws.
Import SessionDemo.

Definition elem (b : Z) : QueueOutboundElement := mkOutbound [b] MessageTransportHeaderSize 0 None None.

(** After the handshake, three packets in two containers. *)
Definition waiting : World := StagePackets (StagePackets (run A0 events_A2) 0 [elem 1; elem 2]) 0 [elem 3].

(** The same, one number before the keypair is used up. *)
Definition almost_spent : World := upd_keypair waiting 0 (set_sendNonce (RejectAfterMessages - 1)).

Lemma waiting_in_range w : forallb (λ x, (0 <=? kp_sendNonce x.2) && (kp_sendNonce x.2 <=? RejectAfterMessages)) (map_to_list (w_keypairs w)) = true →
  ∀ k, 0 <= kp_sendNonce (keypair_at w k) <= RejectAfterMessages.
Proof.
  intros H k. unfold keypair_at. rewrite lookup_total_alt. destruct (w_keypairs w !! k) as [kp|] eqn:E; [|by cbn].
  rewrite forallb_forall in H. apply elem_of_map_to_list, list_elem_of_In in E. specialize (H _ E). cbn in H. to_prop. cbn. lia.
Qed.

Lemma staged_sent_in_order_witness :
  sent_in_order waiting (SendStagedPackets waiting 0) 0 0 ∧ queued (SendStagedPackets waiting 0) 0 = [(0%nat, 1); (0%nat, 2); (0%nat, 3)].
Proof.
  split; [apply (staged_sent_in_order waiting 0 0)|].
  all: vm_compute; try reflexivity; try discriminate; try (intros H; discriminate H).
  repeat constructor.
Defined.

Lemma staged_terminates_witness :
  send_staged (staged_fuel almost_spent 0 + 5) almost_spent 0 None = Some (SendStagedPackets almost_spent 0).
Proof.
  apply (staged_terminates almost_spent 0 5).
  - vm_compute. repeat constructor.
  - apply waiting_in_range. vm_compute. reflexivity.
Defined.

Lemma staged_conserved_witness :
  let w' := SendStagedPackets almost_spent 0 in
  payloads (pe_staged (peer_at w' 0)) ++ payloads (pe_outbound (peer_at w' 0)) ≡ₚ
    payloads (pe_staged (peer_at almost_spent 0)) ++ payloads (pe_outbound (peer_at almost_spent 0)) ∧
  payloads (pe_staged (peer_at w' 0)) = [[3]; [2]] ∧ payloads (pe_outbound (peer_at w' 0)) = [[1]].
Proof.
  split; [apply (staged_conserved almost_spent 0)|].
  - vm_compute. reflexivity.
  - vm_compute. repeat constructor.
  - split; vm_compute; reflexivity.
Defined.

End StagedDemo.
