(* ===== verification/WgTimers.v ===== *)
(** Handshake retries of a WireGuard peer: without an answer they end, and the peer gives up
    the packets that waited. *)

From S2P Require Import Prelude Bytes NetIP Float64 Metric Routing Endpoint Packet RouterAlgo Config External RouterIO Unicast AllowedIPs RateLimiter Replay Crypto Messages Cookie WireGuard WgSend WgReceive HandshakeProps WgCore WgEvents WgReplay WgNonce WgStaged.

Section retries.
Context `{MR : MapRange} `{CR : Crypto}.
Implicit Types (w : World) (p : PeerRef).

(** The retransmission timer fires at some time, with the socket in some state. *)
Definition fire p w (x : Z * gmap EndpointRef StdNetEndpoint * list Z * list SendResult) : World :=
  let '(now, endpoints, jitter, res) := x in
  timer_fires RetransmitHandshake
    (mkWorld (w_dev w) (w_index w) (w_peers w) (w_keypairs w) endpoints now (w_rnd w) jitter res (w_sent w) (w_tun w) (w_control w)) p.

Lemma mark_waiting n w0 w p : waiting_eq n w0 w → waiting_eq n w0 (markEndpointSrcForClearing w p).
Proof. intros. unfold markEndpointSrcForClearing. case_goal; auto with queue_db. Qed.

Lemma timersActive_upd w p f : (∀ pe, pe_isRunning (f pe) = pe_isRunning pe) → timersActive (upd_peer w p f) p = timersActive w p.
Proof. intros Hf. unfold timersActive. by rewrite peer_at_upd_eq, Hf. Qed.

Lemma giving_up w p : MaxTimerHandshakes < ti_handshakeAttempts (timers_of w p) →
  let w' := expiredRetransmitHandshake w p in
  ti_handshakeAttempts (timers_of w' p) = ti_handshakeAttempts (timers_of w p) ∧ w_sent w' = w_sent w ∧ pe_staged (peer_at w' p) = [] ∧
  ti_retransmitHandshake (timers_of w' p) = ti_retransmitHandshake (timers_of w p) ∧
  (timersActive w p = true → isPending (ti_zeroKeyMaterial (timers_of w' p)) = true).
Proof.
  intros H. cbv zeta. unfold expiredRetransmitHandshake. rewrite (proj2 (Z.ltb_lt _ _)) by done. cbv zeta.
  unfold FlushStagedPackets, upd_timers. destruct (timersActive w p) eqn:Ea; rewrite !timersActive_upd, Ea by done; cbn [andb];
    [destruct (negb _) eqn:Ep|]; unfold timers_of in *; rewrite ?peer_at_upd_eq in *; cbn in *; try done.
  split_and!; [done..|]. intros _. by apply negb_false_iff in Ep.
Qed.

Lemma retrying w p : ti_handshakeAttempts (timers_of w p) <= MaxTimerHandshakes →
  let w' := expiredRetransmitHandshake w p in
  ti_handshakeAttempts (timers_of w' p) = uint32 (ti_handshakeAttempts (timers_of w p) + 1) ∧
  (length (w_sent w') <= 1 + length (w_sent w))%nat.
Proof.
  intros H. cbv zeta. unfold expiredRetransmitHandshake. rewrite (proj2 (Z.ltb_ge _ _)) by done. cbv zeta.
  set (w1 := upd_timers w p _). destruct (retry_waiting 0 w1 (markEndpointSrcForClearing w1 p) p) as [_ _ A N].
  { apply mark_waiting, waiting_eq_refl. }
  rewrite A. split; [|exact N]. unfold w1, timers_of, upd_timers. by rewrite peer_at_upd_eq.
Qed.

Lemma fire_spec p w x : ∃ v, ti_handshakeAttempts (timers_of v p) = ti_handshakeAttempts (timers_of w p) ∧ w_sent v = w_sent w ∧
  timersActive v p = timersActive w p ∧
  fire p w x = if isPending (ti_retransmitHandshake (timers_of w p)) then expiredRetransmitHandshake v p else v.
Proof.
  destruct x as [[[now eps] j] res]. unfold fire, timer_fires. cbn [get_timer set_timer expiration].
  set (w1 := mkWorld _ _ _ _ _ _ _ _ _ _ _ _). exists (upd_timers w1 p (set_retransmitHandshake (mkTimer false None))).
  split_and!; [unfold timers_of, upd_timers; by rewrite peer_at_upd_eq|done|unfold upd_timers; by rewrite timersActive_upd|].
  change (timers_of w1 p) with (timers_of w p). by destruct (isPending _).
Qed.

(** Every firing counts for a batch. *)
Lemma fire_count p w x : let w' := fire p w x in
  let n := ti_handshakeAttempts (timers_of w p) in let n' := ti_handshakeAttempts (timers_of w' p) in
  0 <= n <= MaxTimerHandshakes + 1 →
  0 <= n' <= MaxTimerHandshakes + 1 ∧ Z.of_nat (length (w_sent w')) - n' <= Z.of_nat (length (w_sent w)) - n.
Proof.
  cbv zeta. intros Hn. destruct (fire_spec p w x) as (v & Ea & Es & _ & ->). rewrite <-Ea in *. rewrite <-Es.
  destruct (isPending _); [|lia]. destruct (decide (MaxTimerHandshakes < ti_handshakeAttempts (timers_of v p))) as [Hl|Hl].
  - destruct (giving_up v p Hl) as (-> & -> & _). lia.
  - destruct (retrying v p) as [-> Hs]; [lia|]. rewrite wrap_small; [lia|].
    unfold in_width. change MaxTimerHandshakes with 18 in *. lia.
Qed.

Lemma fires_count p xs : ∀ w, let w' := foldl (fire p) w xs in
  let n := ti_handshakeAttempts (timers_of w p) in let n' := ti_handshakeAttempts (timers_of w' p) in
  0 <= n <= MaxTimerHandshakes + 1 →
  0 <= n' <= MaxTimerHandshakes + 1 ∧ Z.of_nat (length (w_sent w')) - n' <= Z.of_nat (length (w_sent w)) - n.
Proof.
  induction xs as [|x xs IH]; intros w; cbv zeta; cbn [foldl]; [lia|]. intros Hn. pose proof (fire_count p w x Hn).
  destruct (IH (fire p w x)); lia.
Qed.

(** *** Each retry arms the timer again *)

(** What sending leaves alone: the device, whether a peer runs, and the addresses of the peers. *)
Definition alive_eq w w' : Prop :=
  w_dev w' = w_dev w ∧ w_now w' = w_now w ∧
  ∀ q, pe_isRunning (peer_at w' q) = pe_isRunning (peer_at w q) ∧ en_val (pe_endpoints (peer_at w' q)) = en_val (pe_endpoints (peer_at w q)).

#[local] Instance alive_eq_preorder : PreOrder alive_eq.
Proof.
  split; [by intros w|]. intros w1 w2 w3 (D1 & N1 & Q1) (D2 & N2 & Q2). split; [congruence|]. split; [congruence|].
  intros q. destruct (Q1 q) as [<- <-]. apply Q2.
Qed.

Lemma alive_peer w p f : (∀ pe, pe_isRunning (f pe) = pe_isRunning pe ∧ en_val (pe_endpoints (f pe)) = en_val (pe_endpoints pe)) →
  alive_eq w (upd_peer w p f).
Proof. intros Hf. split; [done|]. split; [done|]. intros q. rewrite peer_at_upd. case_decide; [subst; apply Hf|done]. Qed.

Lemma alive_frame w w' : w_dev w' = w_dev w → w_now w' = w_now w → w_peers w' = w_peers w → alive_eq w w'.
Proof. intros Hd Hn Hp. split; [done|]. split; [done|]. intros q. unfold peer_at. by rewrite Hp. Qed.

Lemma alive_active w w' p : alive_eq w w' → timersActive w' p = timersActive w p.
Proof. intros (Hd & _ & Hq). unfold timersActive, isUp. destruct (Hq p) as [-> _]. by rewrite Hd. Qed.

Lemma alive_create w p msg e w' : createHandshakeInitiation w p = (msg, e, w') → alive_eq w w'.
Proof.
  unfold createHandshakeInitiation. case_goal; [by intros [= <- <- <-]|]. cbv zeta.
  set (w1 := upd_peer w p _). assert (alive_eq w w1) as H1 by by apply alive_peer.
  destruct (CreateMessageInitiation w1 p) as [m w2] eqn:E2.
  assert (alive_eq w w2) as H2.
  { etransitivity; [exact H1|]. apply initiate_effect in E2 as (? & ? & ? & ? & (? & ? & ? & ? & ? & ->) & _).
    etransitivity; [|by apply alive_peer]. by apply alive_frame. }
  destruct m as [m|]; [|by intros [= <- <- <-]]. destruct (add_macs w2 p _) as [packet w3] eqn:E3.
  assert (alive_eq w w3) as H3.
  { etransitivity; [exact H2|]. unfold add_macs in E3. repeat case_hyp E3; simplify_eq; [by apply alive_peer|done]. }
  intros [= <- <- <-]. unfold timersAnyAuthenticatedPacketSent, timersAnyAuthenticatedPacketTraversal, upd_timers.
  repeat case_goal; repeat (etransitivity; [|by apply alive_peer]); done.
Qed.

Lemma alive_send w p first e w' : SendBuffers w p first [] = (e, w') → alive_eq w w'.
Proof.
  unfold SendBuffers. case_goal; [by intros [= <- <-]|]. cbv zeta.
  match goal with |- context [send_batches ?v _ _ _ _ _] => set (w1 := v) end.
  assert (∀ l v, alive_eq v (foldl clear_src v l)) as Hclear.
  { induction l as [|x l IH]; intros v; [done|]. cbn. etransitivity; [|apply IH]. unfold clear_src. case_goal; [done|by apply alive_frame]. }
  assert (alive_eq w w1) as H1.
  { unfold w1. case_goal; [|done]. etransitivity; [apply Hclear|]. by apply alive_peer. }
  destruct (send_batches _ _ _ _ _ _) as [err w2] eqn:E2.
  assert (alive_eq w1 w2) as H2.
  { cbn [send_batches] in E2. destruct (match first.2 with Some _ => _ | None => _ end); [|by simplify_eq].
    unfold bind_Send in E2. destruct (w_sendRes w1); simplify_eq; by apply alive_frame. }
  destruct err; intros [= <- <-]; [|by transitivity w1]. etransitivity; [by transitivity w1|]. by apply alive_peer.
Qed.

(** The state in which a retry makes its message. *)
Definition attempt w p : World :=
  markEndpointSrcForClearing (upd_timers w p (λ t, set_handshakeAttempts (uint32 (ti_handshakeAttempts t + 1)) t)) p.

Lemma alive_attempt w p : alive_eq w (attempt w p).
Proof.
  unfold attempt, markEndpointSrcForClearing. case_goal; [by apply alive_peer|].
  etransitivity; [|by apply alive_peer]. by apply alive_peer.
Qed.

(** The timer is armed, and not due before an initiation may be sent again. *)
Definition armed w p : Prop :=
  isPending (ti_retransmitHandshake (timers_of w p)) = true ∧
  ∃ due, tm_fires (ti_retransmitHandshake (timers_of w p)) = Some due ∧ w_now w + RekeyTimeout <= due.

Lemma retry_armed w p : ti_handshakeAttempts (timers_of w p) <= MaxTimerHandshakes →
  timersActive w p = true → en_val (pe_endpoints (peer_at w p)) ≠ [] →
  is_Some (createHandshakeInitiation (attempt w p) p).1.1 →
  alive_eq w (expiredRetransmitHandshake w p) ∧ armed (expiredRetransmitHandshake w p) p.
Proof.
  intros H Hact Hep [packet Hc]. unfold expiredRetransmitHandshake. rewrite (proj2 (Z.ltb_ge _ _)) by done. cbv zeta. fold (attempt w p).
  pose proof (alive_attempt w p) as H1. unfold SendHandshakeInitiation. cbn [negb].
  destruct (createHandshakeInitiation (attempt w p) p) as [[pk err] w2] eqn:E2. cbn in Hc. subst pk.
  pose proof (alive_create _ _ _ _ _ E2) as H2. assert (alive_eq w w2) as H12 by by transitivity (attempt w p).
  destruct (en_val (pe_endpoints (peer_at w2 p))) as [|e0 l] eqn:Ee; [destruct H12 as (_ & _ & Hq); destruct (Hq p); congruence|].
  set (w3 := upd_endpoints w2 p _). assert (alive_eq w w3) as H3 by (transitivity w2; [done|by apply alive_peer]).
  destruct (SendBuffers w3 p _ _) as [e w4] eqn:E4. assert (alive_eq w w4) as H4 by (transitivity w3; [done|by eapply alive_send]).
  cbn [snd]. unfold timersHandshakeInitiated. rewrite (alive_active _ _ p H4), Hact.
  destruct (jitter_ms w4 _) as [j w5] eqn:E5.
  assert (0 <= j ∧ alive_eq w4 w5) as [Hj H5].
  { unfold jitter_ms in E5. destruct (w_jitter w4) as [|x rest]; simplify_eq; [done|]. split; [|by apply alive_frame].
    pose proof (Z.mod_pos_bound x RekeyTimeoutJitterMaxMs). unfold RekeyTimeoutJitterMaxMs in *. lia. }
  split; [etransitivity; [by transitivity w4|]; by apply alive_peer|].
  unfold armed, timers_of, upd_timers. rewrite peer_at_upd_eq. cbn. split; [done|]. eexists. split; [done|]. lia.
Qed.

(** The state at a firing, the timer being spent. *)
Definition fired p w (x : Z * gmap EndpointRef StdNetEndpoint * list Z * list SendResult) : World :=
  let '(now, endpoints, jitter, res) := x in
  upd_timers (mkWorld (w_dev w) (w_index w) (w_peers w) (w_keypairs w) endpoints now (w_rnd w) jitter res (w_sent w) (w_tun w) (w_control w)) p
    (set_retransmitHandshake (mkTimer false None)).

(** A run in which every retry can make its message: the last initiation was sent
    [RekeyTimeout] ago or earlier, and [CreateMessageInitiation] succeeds. *)
Fixpoint unanswered p w (xs : list (Z * gmap EndpointRef StdNetEndpoint * list Z * list SendResult)) : Prop :=
  match xs with
  | [] => True
  | x :: xs => is_Some (createHandshakeInitiation (attempt (fired p w x) p) p).1.1 ∧ unanswered p (fire p w x) xs
  end.

(** What is alive and waits. *)
Record retried p w (n : Z) (staged : list (list QueueOutboundElement)) : Prop := {
  rt_attempts : ti_handshakeAttempts (timers_of w p) = n;
  rt_pending : isPending (ti_retransmitHandshake (timers_of w p)) = true;
  rt_active : timersActive w p = true;
  rt_endpoints : en_val (pe_endpoints (peer_at w p)) ≠ [];
  rt_staged : pe_staged (peer_at w p) = staged;
}.

Lemma fire_pending p w x : isPending (ti_retransmitHandshake (timers_of w p)) = true →
  fire p w x = expiredRetransmitHandshake (fired p w x) p.
Proof.
  destruct x as [[[now eps] j] res]. intros H. unfold fire, timer_fires. cbn [get_timer set_timer expiration].
  set (w1 := mkWorld _ _ _ _ _ _ _ _ _ _ _ _). change (timers_of w1 p) with (timers_of w p). by rewrite H.
Qed.

Lemma fired_same p w x : let v := fired p w x in
  ti_handshakeAttempts (timers_of v p) = ti_handshakeAttempts (timers_of w p) ∧ timersActive v p = timersActive w p ∧
  pe_endpoints (peer_at v p) = pe_endpoints (peer_at w p) ∧ pe_staged (peer_at v p) = pe_staged (peer_at w p).
Proof. destruct x as [[[now eps] j] res]. unfold fired, timersActive, timers_of, upd_timers. rewrite !peer_at_upd_eq. done. Qed.

Lemma retry_step p w x n staged : 0 <= n <= MaxTimerHandshakes → retried p w n staged →
  is_Some (createHandshakeInitiation (attempt (fired p w x) p) p).1.1 →
  retried p (fire p w x) (n + 1) staged ∧ armed (fire p w x) p.
Proof.
  intros Hn [Ha Hp Hact Hep Hst] Hc. rewrite fire_pending by done. destruct (fired_same p w x) as (Ea & Eact & Eep & Est).
  destruct (retrying (fired p w x) p) as [Hcount _]; [lia|].
  destruct (retry_armed (fired p w x) p) as [(Hd & _ & Hq) Harm]; [lia|by rewrite Eact|by rewrite Eep|done|].
  split; [|done]. split.
  - rewrite Hcount, Ea, Ha. apply wrap_small. unfold in_width. change MaxTimerHandshakes with 18 in Hn. lia.
  - apply Harm.
  - unfold timersActive, isUp. destruct (Hq p) as [-> _]. rewrite Hd. unfold timersActive, isUp in Eact, Hact. by rewrite Eact.
  - destruct (Hq p) as [_ ->]. by rewrite Eep.
  - rewrite <-Hst, <-Est. unfold expiredRetransmitHandshake. rewrite (proj2 (Z.ltb_ge _ _)) by lia. cbv zeta.
    set (w1 := upd_timers (fired p w x) p _). destruct (SendHandshakeInitiation_queues (markEndpointSrcForClearing w1 p) p true p) as [-> _].
    destruct (mark_waiting 0 w1 w1 p (waiting_eq_refl 0 w1)) as [-> _ _ _]. unfold w1, upd_timers. by rewrite peer_at_upd_eq.
Qed.

Lemma retry_steps p xs : ∀ w n staged, 0 <= n → n + Z.of_nat (length xs) <= MaxTimerHandshakes + 1 → retried p w n staged → unanswered p w xs →
  retried p (foldl (fire p) w xs) (n + Z.of_nat (length xs)) staged.
Proof.
  induction xs as [|x xs IH]; intros w n staged Hn Hl Hr Hu; cbn [foldl length]; [by rewrite Z.add_0_r|].
  cbn [length] in Hl. destruct Hu as [Hc Hu]. destruct (retry_step p w x n staged) as [Hr' _]; [lia|done|done|].
  replace (n + Z.of_nat (S (length xs))) with (n + 1 + Z.of_nat (length xs)) by lia. apply IH; [lia|lia|done|done].
Qed.

(** C31: handshakes that nobody answers come to an end.  Starting from a fresh count, whatever the
    clock, the socket and the jitter do, firings of the retransmission timer send at most nineteen
    more batches, which makes twenty attempts with the first one.  If the peer runs and has an
    address, the timer is armed, and each retry can make its message, then each of the nineteen
    firings counts one attempt, keeps the staged packets and arms the timer again, not to be due before the next
    initiation is allowed; and the firing after them gives the staged packets
    up, sends nothing, leaves the timer off, and sees to it that the keys are cleared.  New traffic
    and packets of the peer, which start the count again, are not part of such a run. *)
Theorem retries_end p w :
  ti_handshakeAttempts (timers_of w p) = 0 →
  (∀ xs, (length (w_sent (foldl (fire p) w xs)) <= length (w_sent w) + Z.to_nat (MaxTimerHandshakes + 1))%nat) ∧
  (isPending (ti_retransmitHandshake (timers_of w p)) = true → timersActive w p = true → en_val (pe_endpoints (peer_at w p)) ≠ [] →
   ∀ xs x, unanswered p w xs →
   let w' := foldl (fire p) w xs in let w'' := fire p w' x in
   (Z.of_nat (length xs) <= MaxTimerHandshakes → unanswered p w' [x] →
      ti_handshakeAttempts (timers_of w'' p) = Z.of_nat (length xs) + 1 ∧ armed w'' p ∧ pe_staged (peer_at w'' p) = pe_staged (peer_at w p)) ∧
   (Z.of_nat (length xs) = MaxTimerHandshakes + 1 →
      w_sent w'' = w_sent w' ∧ pe_staged (peer_at w'' p) = [] ∧
      isPending (ti_retransmitHandshake (timers_of w'' p)) = false ∧ isPending (ti_zeroKeyMaterial (timers_of w'' p)) = true)).
Proof.
  intros H0. split.
  - intros xs. destruct (fires_count p xs w) as [Hn Hs]; [change MaxTimerHandshakes with 18; lia|]. change MaxTimerHandshakes with 18 in *. lia.
  - intros Hp Hact Hep xs x Hu. cbv zeta.
    assert (Z.of_nat (length xs) <= MaxTimerHandshakes + 1 → retried p (foldl (fire p) w xs) (0 + Z.of_nat (length xs)) (pe_staged (peer_at w p))) as Hr
      by (intros Hl; apply retry_steps; [lia|lia|by split|done]).
    split; intros Hl.
    + intros [Hc _]. destruct (retry_step p (foldl (fire p) w xs) x (0 + Z.of_nat (length xs)) (pe_staged (peer_at w p))) as [[Ha _ _ _ Hst] Harm];
        [lia|apply Hr; lia|done|by rewrite Ha].
    + destruct Hr as [Ha Hp' Hact' _ _]; [lia|].
      rewrite fire_pending by done. destruct (fired_same p (foldl (fire p) w xs) x) as (Ea & Eact & _ & _).
      destruct (giving_up (fired p (foldl (fire p) w xs) x) p) as (_ & Hsent & Hst & Hoff & Hz); [rewrite Ea, Ha; lia|].
      split; [rewrite Hsent; by destruct x as [[[? ?] ?] ?]|]. split; [done|]. split; [|apply Hz; congruence].
      rewrite Hoff. destruct x as [[[? ?] ?] ?]. unfold fired, timers_of, upd_timers. by rewrite peer_at_upd_eq.
Qed.

End retries.

(** ** Demonstration *)

Module RetryDemo.

#[local] Existing Instances sorted_range ToyCrypto.toy ToyCrypto.toy_laws.
Import SessionDemo.

(** Peer 0 of a device, after an initiation that was lost. *)
Definition waiting : World :=
  StagePackets (upd_timers (run (set_rnd A0 (concat (replicate 30 [(replicate 32 5, true); ([1; 2; 3; 4], true)]))) events_A1) 0 (set_retransmitHandshake (mkTimer true (Some 0)))) 0
    [mkOutbound [1] MessageTransportHeaderSize 0 None None].

Definition six_seconds (n : nat) : Z * gmap EndpointRef StdNetEndpoint * list Z * list SendResult :=
  (1700000000000000000 + 6000000000 * Z.of_nat (S n), ∅, [], []).

Lemma retries_end_witness :
  let w' := foldl (fire 0) waiting (six_seconds <$> seq 0 19) in
  (length (w_sent w') <= length (w_sent waiting) + Z.to_nat (MaxTimerHandshakes + 1))%nat ∧
  pe_staged (peer_at (fire 0 w' (six_seconds 19)) 0) = [] ∧ length (pe_staged (peer_at w' 0)) = 1%nat.
Proof.
  destruct (retries_end 0 waiting) as (H1 & H2).
  - vm_compute. reflexivity.
  - split; [apply (H1 (six_seconds <$> seq 0 19))|]. split; [|vm_compute; reflexivity].
    destruct (H2 ltac:(vm_compute; reflexivity) ltac:(vm_compute; reflexivity) ltac:(vm_compute; discriminate) (six_seconds <$> seq 0 19)
      (six_seconds 19)) as [_ H].
    + vm_compute. repeat (split; [eexists; reflexivity|]). exact I.
    + apply H. reflexivity.
Defined.

End RetryDemo.
