(* ===== verification/WgOnce.v ===== *)
(** Data packets of a WireGuard device are delivered once: over any run, no sequence number
    of a keypair reaches the filters twice. *)

From S2P Require Import Prelude Bytes NetIP Float64 Metric Routing Endpoint Packet RouterAlgo Config External RouterIO Unicast AllowedIPs RateLimiter Replay Crypto Messages Cookie WireGuard WgSend WgReceive HandshakeProps WgCore WgEvents WgReplay WgNonce.

(** ** What is delivered *)

Section log.
Context `{MR : MapRange} `{CR : Crypto} (filters : list TCFilter) (mpls : option (Z * Z)).

(** The keypair and the number of each element that becomes a packet for the filters. *)
Fixpoint deliveries (p : PeerRef) (st : ReceiveState) (elems : list QueueInboundElement) : list (KeypairRef * Z) :=
  match elems with
  | [] => []
  | e :: elems =>
      let st' := receive_elem p st e in
      (if decide (length (rs_tcs st') = length (rs_tcs st)) then [] else [(ibe_keypair e, ibe_counter e)]) ++ deliveries p st' elems
  end.

Definition delivered (w : World) (ev : DeviceEvent) : list (KeypairRef * Z) :=
  match ev with
  | EvInbound p =>
      match pe_inbound (peer_at w p) with
      | [] => []
      | elems :: inb =>
          let w := upd_peer w p (λ pe, set_queues (pe_staged pe) (pe_outbound pe) inb pe) in
          deliveries p (mkReceive w None false 0 []) (decrypt w <$> elems)
      end
  | _ => []
  end.

(** The deliveries of a run, in order. *)
Fixpoint all_deliveries (w : World) (evs : list DeviceEvent) : list (KeypairRef * Z) :=
  match evs with
  | [] => []
  | ev :: evs => delivered w ev ++ match handle filters mpls w ev with Some w => all_deliveries w evs | None => [] end
  end.

End log.

(** ** The invariant *)

Definition filter_of (w : World) (k : KeypairRef) : Filter := kp_replayFilter (keypair_at w k).

(** What was delivered has been seen by the filter of its keypair. *)
Record replays_ok (log : list (KeypairRef * Z)) (w : World) : Prop := {
  ro_nodup : NoDup log;
  ro_dom : ∀ x, x ∈ log → x.1 ∈ dom (w_keypairs w);
  ro_seen : ∀ k, ∃ win, implements (filter_of w k) win ∧ ∀ c, (k, c) ∈ log → c ∈ seen win;
}.

(** The filters are as they were, except for those of new keypairs. *)
Record filters_kept (w w' : World) : Prop := {
  fk_dom : dom (w_keypairs w) ⊆ dom (w_keypairs w');
  fk_same : ∀ k, filter_of w' k = filter_of w k ∨ k ∉ dom (w_keypairs w) ∧ implements (filter_of w' k) (mkWindow 0 ∅);
}.

Lemma replays_ok_kept log w w' : filters_kept w w' → replays_ok log w → replays_ok log w'.
Proof.
  intros [D S] [N L R]. split; [done|intros x Hx; by apply D, L|]. intros k. destruct (S k) as [->|[Hk Hi]]; [done|].
  eexists. split; [exact Hi|]. intros c Hc%L. done.
Qed.

Lemma replays_ok_prefix log l w : replays_ok (log ++ l) w → replays_ok log w.
Proof.
  intros [N D S]. split; [by apply NoDup_app in N as [? _]|intros x Hx; apply D, elem_of_app; by left|].
  intros k. destruct (S k) as (win & Hi & Hs). exists win. split; [done|]. intros x Hx. apply Hs, elem_of_app. by left.
Qed.

Lemma filter_of_upd w k f l : filter_of (upd_keypair w k f) l = if decide (k = l) then kp_replayFilter (f (keypair_at w k)) else filter_of w l.
Proof. unfold filter_of. case_decide as E; [subst; by rewrite keypair_at_upd_eq|by rewrite keypair_at_upd_ne]. Qed.

(** A filter that looks at a number: what it had seen stays seen, and what it lets pass is new. *)
Lemma replays_ok_validate log w k c : replays_ok log w → 0 <= c →
  let r := ValidateCounter (filter_of w k) c RejectAfterMessages in
  replays_ok (if r.1 then log ++ [(k, c)] else log) (upd_keypair w k (set_replayFilter r.2)).
Proof.
  intros [N L R] Hc. cbv zeta. destruct (R k) as (win & Hi & Hs).
  destruct (ValidateCounter_refines _ _ c RejectAfterMessages Hi Hc) as [Ho Hi']; [by vm_compute|].
  destruct (ValidateCounter (filter_of w k) c RejectAfterMessages) as [ok f]. cbn [fst snd] in *.
  assert (∀ x, x ∈ seen win → x ∈ seen (window_validate win c RejectAfterMessages).2) as Hmono.
  { unfold window_validate. intros x Hx. repeat case_goal; [done|done|cbn; set_solver]. }
  assert (ok = true → c ∉ seen win ∧ c ∈ seen (window_validate win c RejectAfterMessages).2) as Hnew.
  { intros ->. revert Ho. unfold window_validate. repeat case_goal; [done|done|]. cbn. intros E. symmetry in E.
    apply bool_decide_eq_true in E. set_solver. }
  assert (∀ x, x ∈ (if ok then log ++ [(k, c)] else log) → x ∈ log ∨ ok = true ∧ x = (k, c)) as Hin.
  { intros x. destruct ok; [|by left]. rewrite elem_of_app, list_elem_of_singleton. naive_solver. }
  split.
  - destruct ok; [|done]. apply NoDup_app. split_and!; [done| |apply NoDup_singleton].
    intros x Hx ->%list_elem_of_singleton. by apply Hs, Hnew in Hx.
  - intros x [Hx%L|[_ ->]]%Hin; cbn; rewrite dom_insert; [by apply elem_of_union_r|by apply elem_of_union_l, elem_of_singleton].
  - intros l. rewrite filter_of_upd. case_decide as E.
    + subst l. exists (window_validate win c RejectAfterMessages).2. split; [done|].
      intros x [Hx%Hs|[Hok [= <-]]]%Hin; [by apply Hmono|by apply Hnew].
    + destruct (R l) as (win2 & Hi2 & Hs2). exists win2. split; [done|]. intros x [Hx|[_ [= -> _]]]%Hin; [by apply Hs2|done].
Qed.

Section steps.
Context `{MR : MapRange} `{CR : Crypto} `{CL : !CryptoLaws}.
Implicit Types (w : World) (p : PeerRef).

Lemma filters_kept_same w w' : w_keypairs w' = w_keypairs w → filters_kept w w'.
Proof. intros E. split; [by rewrite E|]. intros k. left. unfold filter_of, keypair_at. by rewrite E. Qed.

Lemma filters_kept_upd w k f : (∀ kp, kp_replayFilter (f kp) = kp_replayFilter kp) → filters_kept w (upd_keypair w k f).
Proof.
  intros Hf. split; [apply dom_upd_keypair|]. intros l. left. rewrite filter_of_upd. case_decide; [subst; apply Hf|done].
Qed.

Lemma filters_kept_trans w1 w2 w3 : filters_kept w1 w2 → filters_kept w2 w3 → filters_kept w1 w3.
Proof.
  intros [D1 S1] [D2 S2]. split; [by etrans|]. intros k. destruct (S2 k) as [->|[H2 ?]]; [apply S1|]. right. split; [|done].
  intros Hk. by apply H2, D1.
Qed.

Lemma begin_filters w p w' : BeginSymmetricSession w p = (true, w') → filters_kept w w'.
Proof.
  unfold BeginSymmetricSession. cbv zeta. intros H.
  destruct (match hs_state _ with handshakeZeroed => _ | _ => _ end) as [[[sk rk] b]|]; [|done]. injection H as <-.
  match goal with |- context [rotate ?w1 _ ?k ?b] => destruct (rotate_spec w1 p k b) as (t & kps & -> & _) end.
  set (k := new_ref w). assert (k ∉ dom (w_keypairs w)) as Hk by apply (is_fresh (dom (w_keypairs w))).
  split; [cbn; rewrite dom_insert; apply union_subseteq_r|]. intros l. unfold filter_of, keypair_at. cbn.
  destruct (decide (k = l)) as [<-|Hne]; [right; split; [done|rewrite lookup_total_insert_eq; by apply implements_reset]|].
  left. by rewrite lookup_total_insert_ne.
Qed.

Lemma core_step_replays log w w' : core_step w w' → replays_ok log w → replays_ok log w'.
Proof.
  intros [w1 H|p m w1 H|m p w1 H|p m w1 H|m p w1 H|p w1 H|p k w1 H|p|p|p k elems queue H|k c Hc|pk p w1 H|m H|sk pk cc] R.
  1-10, 12-14: apply (replays_ok_kept _ w); [|done].
  - by apply filters_kept_same, H.
  - apply initiate_effect in H as (? & ? & ? & ? & (? & ? & ? & ? & ? & ->) & _). by apply filters_kept_same.
  - apply ConsumeMessageInitiation_iff in H as (ts & ck & hash & _ & Ha & _ & ->). by apply filters_kept_same.
  - apply respond_effect in H as [[_ ->]|(? & ? & ? & ? & (? & ? & ? & ? & ? & ->) & _)]; by apply filters_kept_same.
  - apply consume_response_effect in H as [->|(q & ? & ? & ? & ? & _ & _ & _ & ->)]; by apply filters_kept_same.
  - by eapply begin_filters.
  - unfold ReceivedWithKeypair in H. repeat case_hyp H; simplify_eq.
    match goal with |- context [DeleteKeypair ?w1 ?k] => destruct (DeleteKeypair_frame w1 k) as [? ->] end. by apply filters_kept_same.
  - unfold zero_keys. cbv zeta.
    repeat match goal with |- context [DeleteKeypair ?w1 ?k] => destruct (DeleteKeypair_frame w1 k) as [? ->] end. by apply filters_kept_same.
  - unfold ExpireCurrentKeypairs. cbv zeta.
    repeat case_goal; repeat (eapply filters_kept_trans; [|by apply filters_kept_upd]); by apply filters_kept_same.
  - unfold number_elems. destruct (assign_nonces _ _ _) as [[kept late] n].
    apply (filters_kept_trans _ (upd_keypair w k (set_sendNonce n))); [by apply filters_kept_upd|]. destruct queue; by apply filters_kept_same.
  - apply filters_kept_same. by unfold NewPeer in H; repeat case_hyp H; simplify_eq.
  - by apply filters_kept_same.
  - unfold rekey. apply (foldl_ind (filters_kept w)); [by apply filters_kept_same|].
    intros v [key p] _ Iv. apply (filters_kept_trans _ v); [done|]. by apply filters_kept_same.
  - pose proof (replays_ok_validate log w k c R Hc) as V. cbv zeta in V. fold (filter_of w k).
    destruct (ValidateCounter _ _ _) as [[] f]; cbn [fst snd] in *; [by eapply replays_ok_prefix|done].
Qed.

Lemma steps_replays log w w' : steps w w' → replays_ok log w → replays_ok log w'.
Proof. induction 1 as [|w1 w2 w3 H _ IH]; [done|]. intros N. by eapply IH, core_step_replays. Qed.

(** ** The receiver *)

Lemma deliveries_ok p elems : ∀ log st, Forall counter_ok elems → replays_ok log (rs_world st) →
  replays_ok (log ++ deliveries p st elems) (rs_world (foldl (receive_elem p) st elems)).
Proof.
  induction elems as [|e elems IH]; intros log st Hf R; cbn [deliveries foldl]; [by rewrite app_nil_r|].
  apply Forall_cons in Hf as [Hc Hf]. rewrite app_assoc. apply IH; [done|].
  destruct (ibe_packet e) as [packet|] eqn:Ep.
  2: { unfold receive_elem. rewrite Ep, decide_True by done. by rewrite app_nil_r. }
  apply (steps_replays _ (looked_at (rs_world st) e)); [by eapply receive_elem_from; [|apply rtc_refl]|].
  assert (0 <= ibe_counter e) as Hc0 by (destruct Hc; congruence).
  pose proof (replays_ok_validate log _ (ibe_keypair e) _ R Hc0) as V. cbv zeta in V.
  unfold looked_at, receive_elem. rewrite Ep. fold (filter_of (rs_world st) (ibe_keypair e)).
  destruct (ValidateCounter _ _ _) as [ok f]. cbn [fst snd] in *. destruct ok; cbn [negb].
  - destruct (ReceivedWithKeypair _ _ _) as [fs w2]. destruct packet; cbn [rs_tcs].
    + rewrite decide_True, app_nil_r by done. by eapply replays_ok_prefix.
    + rewrite decide_False; [done|]. rewrite length_app. cbn. lia.
  - cbn [rs_tcs]. by rewrite decide_True, app_nil_r by done.
Qed.

Lemma receiver_replays filters log w p w' : RoutineSequentialReceiver filters w p = Some w' → replays_ok log w →
  replays_ok (log ++ delivered w (EvInbound p)) w'.
Proof.
  intros H R. cbn [delivered]. destruct (pe_inbound (peer_at w p)) as [|elems inb] eqn:Ei.
  { unfold RoutineSequentialReceiver in H. rewrite Ei in H. injection H as <-. by rewrite app_nil_r. }
  set (w1 := upd_peer w p _).
  eapply steps_replays; [eapply RoutineSequentialReceiver_from; [done|done|apply rtc_refl]|].
  apply deliveries_ok; [apply Forall_fmap, Forall_true; intros; apply decrypt_counter|].
  apply (replays_ok_kept _ w); [by apply filters_kept_same|done].
Qed.

Lemma run_replays (filters : list TCFilter) (mpls : option (Z * Z)) evs : ∀ log w w',
  run_events filters mpls w evs = Some w' → replays_ok log w → replays_ok (log ++ all_deliveries filters mpls w evs) w'.
Proof.
  induction evs as [|ev evs IH]; intros log w w'; cbn [run_events all_deliveries].
  { intros [= <-]. by rewrite app_nil_r. }
  destruct (handle filters mpls w ev) as [w1|] eqn:E; [|done]. cbn. intros Hrun N. rewrite app_assoc. eapply IH; [done|].
  destruct ev; try (cbn [delivered]; rewrite app_nil_r; by eapply steps_replays; [eapply handle_steps|]).
  by eapply receiver_replays.
Qed.

(** C4: whatever a device does and whatever datagrams reach it, repeated, reordered or
    forged, no data packet is handed to the filters twice: over the whole life of the
    device, a keypair and a sequence number are delivered at most once. *)
Theorem delivered_once (filters : list TCFilter) (mpls : option (Z * Z)) (w w' : World) (evs : list DeviceEvent) :
  w_keypairs w = ∅ → run_events filters mpls w evs = Some w' → NoDup (all_deliveries filters mpls w evs).
Proof.
  intros Ek Hrun. apply (ro_nodup ([] ++ all_deliveries filters mpls w evs) w'), (run_replays filters mpls evs [] w w' Hrun). split.
  - apply NoDup_nil_2.
  - by intros x ?%elem_of_nil.
  - intros k. exists (mkWindow 0 ∅). split; [|by intros c ?%elem_of_nil]. unfold filter_of, keypair_at. rewrite Ek, lookup_total_empty.
    by apply (implements_reset zero_filter).
Qed.

End steps.

(** ** Demonstration *)

Module OnceDemo.

#[local] Existing Instances sorted_range ToyCrypto.toy ToyCrypto.toy_laws.
Import SessionDemo.

Lemma delivered_once_witness :
  NoDup (all_deliveries filters None B0 events_B2) ∧ all_deliveries filters None B0 events_B2 = [(0%nat, 1)].
Proof.
  split; [|vm_compute; reflexivity].
  apply (delivered_once filters None B0 (run B0 events_B2) events_B2).
  - reflexivity.
  - apply HandshakeDemo.survived. vm_compute. reflexivity.
Defined.

End OnceDemo.
